(* ===== verification/_CoqProject ===== *)
-Q . S2P
Prelude.v
Shabal.v
Poc.v
Plot.v
Types.v
Dnpoc.v
VerifyPool.v
Mine.v
Rlp.v
RlpStream.v
TrieEncoding.v
Trie.v
TrieOps.v
TrieProof.v
State.v
StateRevert.v
StateCodec.v
StateFinalise.v
VmMath.v
VmAnalysis.v
Vm.v
VmLaws.v
VmSafe.v
VmFuel.v
VmErrors.v
VmState.v
VmPrecompiles.v
VmArith.v
VmCorrect.v
StateTransition.v
Heap.v
TxList.v
TxPriced.v
ManagedState.v
TxPool.v
TxPoolInv.v
TxPoolLimits.v
TxPoolAdd.v
TxPoolReset.v
TxPoolPending.v
TxPoolEdges.v
Keccakf.v
Sha3.v
HeaderHash.v
Clique.v
CliqueVotes.v
CliqueLive.v
Bitutil.v
TxSigning.v
Bloom.v
LogIndex.v
LogSearch.v
BlockValidator.v
ChainDb.v
HeaderChain.v
HeaderChainInv.v
HeaderSync.v
HeaderSample.v
