(* ===== verification/Prelude.v ===== *)
(** * A verification library for go-xdn

    go-xdn is a node for a proof-of-capacity blockchain.  A miner fills disks
    with _plots_, files of Shabal hashes; a block is won by the nonce of a plot
    with the smallest _deadline_.  Around this engine the node keeps the state
    of all accounts in Merkle tries, encoded in RLP, and runs contracts in a
    virtual machine over that state.  Transactions wait in a pool until a
    block includes them, are signed for one chain, and leave logs that an index
    of bloom filters makes searchable.  The headers of all blocks form a tree
    in a database, of which the heaviest branch is the canonical chain.  This library models these parts as
    executable functions translated from the sources under [src/] and proves
    what they compute, that they do not panic, and where they go wrong.

    ** How the code is modelled

    A Go function is a function; state that Go mutates is passed and
    returned.  A Go panic is [None] (in [option]) or [Panic] (in [outcome],
    whose [Err] is a returned error); both are defined here.  Bytes are
    integers in a list, with [bytes] saying they are bytes; a w-bit integer is
    a [Z] with [u8], [u32], [u64] or [i64] written where Go wraps; a [*big.Int]
    is a [Z] or, where nil matters, an [option Z].  Maps are [gmap]s.
    Goroutines and channels are step relations ([VerifyPool.v], [Plot.v]).
    Recursion that Go bounds by its data is bounded here by fuel, with an
    error of its own when it runs out, and a theorem says how much is enough.

    ** The files

    - [Prelude.v]: outcomes, machine integers, slices, big-endian numbers,
      lists, and the tactics and hints the files share.
    - [Shabal.v]: the hasher of [src/shabal] (Go wrapper and C core).  Split
      input, stale buffers and reuse do not change a digest.
    - [Poc.v]: [src/poc/poc.go], plot cells and deadlines, written against
      the interface [Hasher] that [Shabal.v] implements.
    - [Plot.v]: [src/cmd/plot/main.go], the plotter: the layout of a plot file
      whatever the order of writes, and the producer-consumer loop.
    - [Types.v]: headers and blocks of [src/core/types/block.go].
    - [Dnpoc.v], [VerifyPool.v], [Mine.v]: [src/consensus/xdnoc/dnpoc.go].
      Header, seal and uncle verification, base target and rewards; the
      concurrent [VerifyHeaders]; the search for the best nonce, whose blocks
      pass verification.
    - [Rlp.v], [RlpStream.v]: [src/rlp].  Encoding, splitting and the
      streaming decoder, against a reference definition of RLP.
    - [TrieEncoding.v], [Trie.v], [TrieOps.v], [TrieProof.v]: [src/trie].
      Tries implement finite maps, their shape depends on the contents only,
      and proofs from untrusted peers are sound.
    - [State.v], [StateRevert.v], [StateCodec.v], [StateFinalise.v]:
      [src/core/state].  Objects, journal and snapshots over the interface
      [Database]; a snapshot restores every read; accounts and slots survive
      their encoding; [Finalise] writes what changed.
    - [VmMath.v], [VmAnalysis.v], [Vm.v]: [src/core/vm], [src/common/math],
      [src/params] and [src/core/evm.go].  The machine over the interface
      [Host], which is [StateDB] of [interface.go].  [VmArith.v] shows that
      the arithmetic instructions compute 256-bit arithmetic.
    - [VmLaws.v], [VmSafe.v], [VmFuel.v]: the class [HostLaws] of what the
      machine relies on, and the proof against it that every instruction, the
      loop and the calls keep all types, never panic and terminate.
    - [VmState.v], [VmPrecompiles.v], [VmCorrect.v]: [State.v] implements
      [Host] and satisfies [HostLaws]; [contracts.go]; and the theorems about
      whole calls on this state.  [VmErrors.v] shows that only the check of
      the balance at the start of a call makes a transaction invalid.
    - [StateTransition.v]: [src/core/state_transition.go], a message from the
      purchase of its gas to the refund, over [Vm.v].
    - [Heap.v], [TxList.v], [TxPriced.v], [ManagedState.v]: [container/heap],
      the sorted and priced lists of [src/core/tx_list.go] and the nonces of
      [src/core/state/managed_state.go].
    - [TxPool.v] and [TxPoolInv.v], [TxPoolLimits.v], [TxPoolAdd.v],
      [TxPoolReset.v], [TxPoolPending.v], [TxPoolEdges.v]: [src/core/tx_pool.go]
      with its event loop, over the classes [Transaction] and [PoolEnv]; its
      invariant, what each operation keeps of it, and runs that go wrong.
    - [Keccakf.v], [Sha3.v], [HeaderHash.v]: [src/crypto/sha3] and the hashes
      of [src/crypto] and [src/core/types/block.go].
    - [Clique.v], [CliqueVotes.v], [CliqueLive.v]: [src/consensus/clique],
      the voting of signers and what this fork keeps of the engine.
    - [TxSigning.v]: [src/core/types/transaction_signing.go], the signers.
    - [Bitutil.v], [Bloom.v], [LogIndex.v], [LogSearch.v]:
      [src/common/bitutil], [src/core/types/bloom9.go], [src/core/bloombits],
      [src/xdn/bloombits.go] and [src/xdn/filters/filter.go]: from the logs of
      a block to its filter, the rotated and compressed index of sections of
      blocks, the matcher over the index, and the search of a filter.
    - [BlockValidator.v]: [src/core/block_validator.go].
    - [ChainDb.v], [HeaderChain.v]: [src/core/database_util.go] and
      [src/core/headerchain.go].  The accessors of headers, difficulties and
      canonical hashes in a key-value store, and the header chain over them
      with its caches, the interface [LRU].  [HeaderChainInv.v] relates store
      and caches to an abstract tree of headers ([represents]) and shows that
      [WriteHeader] refines the insertion of a leaf; [HeaderSync.v] has the
      theorems about whole chains, rewinding and walking, with the engine of
      [Dnpoc.v] as the verifier; [HeaderSample.v] runs them on a small tree.

    ** What the theorems show

    _Consensus_: exactly which headers and seals are accepted, that a block
    from [mine] is accepted and has the least deadline, that the concurrent
    verifier returns the sequential results in order and finishes; and that a
    seal can be forged, a zero base target panics, and a worker can leak.
    _Storage_: plot files hold the right cells; RLP decoding accepts exactly
    the canonical encodings; tries are maps; proofs cannot lie.
    _State_: reverting, finalising and their gaps (a reverted touch, a copy
    that shares its trie).
    _Virtual machine_: for any code, a call with less than [2 ^ 36] gas returns
    within its gas without a panic, a failed call changes nothing that can be read, and no call or
    creation creates funds; a message pays for exactly the gas it uses.
    _Transactions_: from a new pool no sequence of events panics, and what is in
    a list is in the index, what is in the index is in the price heap; what is
    handed to the miner is executable; the limits hold up to the exemptions.  A protected signature
    is good on one chain, signing round trips, and the hash that is signed
    commits to every field.
    _Header chain_: verified headers are inserted without an error, store and
    caches stay the image of a tree whose canonical numbers are the branch of
    a heaviest head; hashes are listed and common ancestors found along
    branches; and the two gaps, a difficulty anyone may choose and a rewind
    that strands side branches.
    _Hashing_: the unrolled permutation is Keccak-f of FIPS 202, the sponge
    does not see how its input is cut, and a header hash commits to the header.
    _Authority_: the voting snapshot with its cached tally refines a ballot,
    standing changes only by majority, and some signer can always go on.
    _Logs_: compression is injective and exact, a filter has no false
    negatives, the index serves the columns of the filters, and a search
    returns exactly the matching logs in the order of the chain.

    ** Bounds and fuel

    [loop] of [Vm.v] needs more fuel than there is gas: every round that goes
    on uses gas and a nested call gets less than its caller has
    ([VmSafe.loop_total]); more fuel changes nothing ([VmFuel.loop_mono]).
    The theorems about calls ask for less than [2 ^ 36] gas, far above any
    block, because [bigModExp] prices an exponent of [n] bytes with about
    [2 n / 5] gas and then allocates it: below the bound all slices are
    below [2 ^ 42] bytes.  Running out of memory is not modelled.  Trie
    operations need fuel for the length of the key, the decoder for the
    length of the input, and [mine] for the nonces of the plots.  The
    compressor recurses on an eighth of its data and has fuel for its length;
    the loops of the log search have fuel for the blocks of their range, and
    [log_search_exact] shows that they return.  In [HeaderChain.v] the loop
    that deletes canonical numbers has fuel for the keys of the store, the one
    that reroutes them and the one that rewinds for the number of the header;
    [validated_headers_inserted] and [SetHead_ok] show that this is enough.

    ** What is assumed

    Signature recovery, the pairing curve and SHA-256 are parameters, and so
    is Keccak for the state and the virtual machine, which only need the laws
    below; the hashes of headers, transactions, logs and signers are those of
    [Sha3.v].  Where a hash has to tell things apart, the conclusion is an
    alternative: equal contents or a collision at hand.  Parameters are also
    the store behind the state, the LRU caches of the header chain, the clock, the file system, the
    authorisation of plots and the order in which Go ranges over a map.
    Their laws are fields of [Database], [StoreLaws], [Crypto], [CryptoLaws]
    and [MapOrder] or hypotheses of the theorem, and each theorem that has
    some comes with an instance of them.  A cache may forget entries
    whenever one is added ([LRULaws]).  The database of the chain does not fail.  Of Keccak it is assumed that it
    returns 32 bytes and, for the cache of jump destinations, that it does
    not give two codes of different length the same hash.  The length of an
    address is a parameter: the file that declares it is not among the
    sources; the theorems about plot ids take addresses of 23 bytes, of which
    [CalcPlotID] reads the last eight.  The transaction type is missing as
    well: [TxPool.v] has it as a class, [TxSigning.v] as the fields that are
    signed.  That class takes the hash of a transaction to be injective, an
    idealisation of Keccak: the pool identifies transactions by their hashes.
    The theorems about calls and messages are for less than [2 ^ 36] gas (see
    above), those about the pool for heads that are children of the last one
    or known to the chain, for limits below [2 ^ 24], and those about pending
    transactions for nonces below [2 ^ 64 - 1].

    ** What is not modelled

    Networking, RPC, accounts and wallets, the console and the commands other
    than the plotter: files, devices and sockets with little logic of their
    own.  The insertion and reorganisation of whole blocks ([blockchain.go]),
    bodies and receipts in the database and the chain indexer, which
    interleave goroutines over a store.  The processing of whole blocks
    ([state_processor.go]): it alternates [ApplyMessage] with [Finalise], and
    the laws of [Host] say what calls keep of the state but not that all
    objects stay encodable, which [Finalise] needs.  The channels, scheduler
    and request distribution of the log matcher, whose stages are composed
    section by section instead.  The hashing and committing of tries and with
    it the roots of lists and of the state, which are arguments of the
    validator; the caches of [core/state/database.go].  Tracing, the integer
    pool and the JIT of the virtual machine; Go reflection in [rlp]; the
    elliptic curves; the assembly version of Keccak. *)
From stdpp Require Export base tactics numbers list gmap sets fin_maps.
From Stdlib Require Export ZArith Lia ZifyNat.

Declare Scope xdn_scope.
Delimit Scope xdn_scope with xdn.
Open Scope Z_scope.

(** ** Outcomes

    A Go call either returns normally, returns a non-nil [error], or panics (an
    index out of range, a division by zero, ...).  [option] models code that
    can only return or panic; [outcome] adds the error value. *)
Inductive outcome (E A : Type) : Type :=
  | Ok (a : A)
  | Err (e : E)
  | Panic.
Arguments Ok {E A} a.
Arguments Err {E A} e.
Arguments Panic {E A}.

#[export] Instance outcome_ret E : MRet (outcome E) := fun _ a => Ok a.
#[export] Instance outcome_bind E : MBind (outcome E) := fun _ _ k m =>
  match m with Ok a => k a | Err e => Err e | Panic => Panic end.

(** A computation that may only panic, used where errors are possible too. *)
Definition or_panic {E A} (m : option A) : outcome E A :=
  match m with Some a => Ok a | None => Panic end.

(** Sequencing of Go's [if err != nil { return err }] guards. *)
Definition guard_err {E} (bad : bool) (e : E) : outcome E unit :=
  if bad then Err e else Ok tt.

Lemma outcome_bind_ok {E A B} (m : outcome E A) (k : A -> outcome E B) b :
  m ≫= k = Ok b <-> exists a, m = Ok a /\ k a = Ok b.
Proof. destruct m; simpl; split; naive_solver. Qed.

Lemma guard_err_ok {E} bad (e : E) u : guard_err bad e = Ok u <-> bad = false.
Proof. destruct bad, u; simpl; split; congruence. Qed.

Lemma or_panic_ok {E A} (m : option A) (a : A) :
  @or_panic E A m = Ok a <-> m = Some a.
Proof. destruct m; simpl; split; congruence. Qed.

Lemma or_panic_bind {E A B} (a : A) (k : A -> outcome E B) : or_panic (Some a) ≫= k = k a.
Proof. reflexivity. Qed.

Lemma ok_bind {E A B} (a : A) (k : A -> outcome E B) : Ok a ≫= k = k a.
Proof. reflexivity. Qed.

Lemma some_bind {A B} (a : A) (k : A -> option B) : Some a ≫= k = k a.
Proof. reflexivity. Qed.

Lemma guard_err_pass {E B} (e : E) (k : unit -> outcome E B) : guard_err false e ≫= k = k tt.
Proof. reflexivity. Qed.

Create Rewrite HintDb outcome.
#[export] Hint Rewrite @or_panic_bind @ok_bind @some_bind @guard_err_pass : outcome.

(** ** Machine-width integers *)

Definition u8 (z : Z) : Z := z mod 2 ^ 8.
Definition u32 (z : Z) : Z := z mod 2 ^ 32.
Definition u64 (z : Z) : Z := z mod 2 ^ 64.
Definition i64 (z : Z) : Z := (z + 2 ^ 63) mod 2 ^ 64 - 2 ^ 63.

Lemma i64_small x : - 2 ^ 63 <= x < 2 ^ 63 -> i64 x = x.
Proof. intros. unfold i64. rewrite Z.mod_small; lia. Qed.

Definition is_byte (b : Z) : Prop := 0 <= b < 256.
Definition bytes (l : list Z) : Prop := Forall is_byte l.

#[export] Instance is_byte_dec b : Decision (is_byte b).
Proof. unfold is_byte. apply _. Defined.

Lemma u8_is_byte z : is_byte (u8 z).
Proof. unfold is_byte, u8. pose proof (Z.mod_pos_bound z (2^8)). lia. Qed.

Lemma bytes_app l1 l2 : bytes (l1 ++ l2) <-> bytes l1 /\ bytes l2.
Proof. apply Forall_app. Qed.

Lemma bytes_take n l : bytes l -> bytes (take n l).
Proof. apply Forall_take. Qed.

Lemma bytes_drop n l : bytes l -> bytes (drop n l).
Proof. apply Forall_drop. Qed.

Lemma bytes_replicate_0 n : bytes (replicate n 0).
Proof. apply Forall_replicate. unfold is_byte. lia. Qed.

(** Bitwise operations stay within [k] bits. *)
Definition is_uint (k w : Z) : Prop := 0 <= w < 2 ^ k.

Lemma is_uint_bits k w : 0 <= k ->
  is_uint k w <-> 0 <= w /\ forall i, k <= i -> Z.testbit w i = false.
Proof.
  intros Hk. unfold is_uint. split.
  - intros [H0 H1]. split; [done|]. by apply Z.bounded_iff_bits_nonneg.
  - intros [H0 H1]. split; [done|]. by apply Z.bounded_iff_bits_nonneg.
Qed.

Lemma lxor_uint k a b : 0 <= k -> is_uint k a -> is_uint k b -> is_uint k (Z.lxor a b).
Proof.
  intros Hk [Ha Ha']%is_uint_bits [Hb Hb']%is_uint_bits; [|done..].
  apply is_uint_bits; [done|]. split; [by apply Z.lxor_nonneg|].
  intros i Hi. by rewrite Z.lxor_spec, Ha', Hb'.
Qed.

Lemma lor_uint k a b : 0 <= k -> is_uint k a -> is_uint k b -> is_uint k (Z.lor a b).
Proof.
  intros Hk [Ha Ha']%is_uint_bits [Hb Hb']%is_uint_bits; [|done..].
  apply is_uint_bits; [done|]. split; [by apply Z.lor_nonneg|].
  intros i Hi. by rewrite Z.lor_spec, Ha', Hb'.
Qed.

Lemma land_uint k a b : 0 <= k -> is_uint k a -> is_uint k b -> is_uint k (Z.land a b).
Proof.
  intros Hk [Ha Ha']%is_uint_bits [Hb Hb']%is_uint_bits; [|done..].
  apply is_uint_bits; [done|]. split; [apply Z.land_nonneg; auto|].
  intros i Hi. by rewrite Z.land_spec, Ha', Hb'.
Qed.

Lemma shiftr_uint k a n : 0 <= k -> 0 <= n -> is_uint k a -> is_uint k (Z.shiftr a n).
Proof.
  intros Hk Hn [Ha Ha']%is_uint_bits; [|done].
  apply is_uint_bits; [done|]. split; [by apply Z.shiftr_nonneg|].
  intros i Hi. rewrite Z.shiftr_spec by lia. apply Ha'. lia.
Qed.

Lemma lxor_byte a b : is_byte a -> is_byte b -> is_byte (Z.lxor a b).
Proof. apply (lxor_uint 8). lia. Qed.

(** ** Slices

    [slice l a b] is the Go expression [l[a:b]]; it panics unless
    [0 <= a <= b <= len(l)].  (Go allows [b] up to the capacity; the code
    modelled here never relies on that.)  [index l i] is [l[i]]. *)
Definition slice {A} (l : list A) (a b : nat) : option (list A) :=
  if decide (a <= b <= length l)%nat then Some (take (b - a) (drop a l)) else None.

Lemma slice_Some {A} (l : list A) (a b : nat) :
  (a <= b <= length l)%nat -> slice l a b = Some (take (b - a) (drop a l)).
Proof. intros. unfold slice. by rewrite decide_True. Qed.

Lemma slice_is_Some {A} (l l' : list A) a b :
  slice l a b = Some l' -> (a <= b <= length l)%nat /\ l' = take (b - a) (drop a l).
Proof. unfold slice. case_decide; naive_solver. Qed.

Lemma slice_length {A} (l l' : list A) a b :
  slice l a b = Some l' -> length l' = (b - a)%nat.
Proof.
  intros [? ->]%slice_is_Some. rewrite length_take, length_drop. lia.
Qed.

(** A slice of a slice. *)
Lemma slice_sub {A} (l s : list A) a b i j :
  slice l a b = Some s -> (i <= j <= b - a)%nat -> slice l (a + i) (a + j) = slice s i j.
Proof.
  intros Hs Hij. pose proof (slice_length _ _ _ _ Hs) as Hl.
  apply slice_is_Some in Hs as [Hab ->].
  rewrite !slice_Some by lia. f_equal.
  rewrite <-drop_drop, skipn_firstn_comm, take_take. f_equal; lia.
Qed.

(** ** Big-endian integers

    [be_get] is [new(big.Int).SetBytes(l)], and on eight bytes
    [binary.BigEndian.Uint64]; [be_put n v] writes the low [n] bytes of [v]. *)
Definition be_get (l : list Z) : Z := foldl (fun acc b => acc * 256 + b) 0 l.

Fixpoint be_put (n : nat) (v : Z) : list Z :=
  match n with
  | O => []
  | S n' => u8 (Z.shiftr v (8 * Z.of_nat n')) :: be_put n' v
  end.

(** [binary.BigEndian.PutUint64] on a fresh 8-byte slice. *)
Definition PutUint64 (v : Z) : list Z := be_put 8 v.

(** [binary.BigEndian.Uint64] reads [b[0..7]]; [b[7]] out of range panics. *)
Definition Uint64 (b : list Z) : option Z :=
  if decide (8 <= length b)%nat then Some (be_get (take 8 b)) else None.

Lemma length_be_put n v : length (be_put n v) = n.
Proof. induction n; simpl; auto. Qed.

Lemma be_put_bytes n v : bytes (be_put n v).
Proof. induction n; simpl; constructor; auto using u8_is_byte. Qed.

Lemma foldl_be_acc l acc :
  foldl (fun acc b => acc * 256 + b) acc l = acc * 256 ^ Z.of_nat (length l) + be_get l.
Proof.
  unfold be_get. revert acc. induction l as [|b l IH] using rev_ind; intros acc; simpl.
  - lia.
  - rewrite !foldl_app, length_app. simpl. rewrite IH.
    rewrite Nat2Z.inj_add, Z.pow_add_r by lia. simpl (Z.of_nat 1). lia.
Qed.

Lemma be_get_app l1 l2 :
  be_get (l1 ++ l2) = be_get l1 * 256 ^ Z.of_nat (length l2) + be_get l2.
Proof. unfold be_get at 1. by rewrite foldl_app, foldl_be_acc. Qed.

Lemma be_get_cons b l :
  be_get (b :: l) = b * 256 ^ Z.of_nat (length l) + be_get l.
Proof. apply (be_get_app [b] l). Qed.

Lemma be_get_bound l : bytes l -> 0 <= be_get l < 256 ^ Z.of_nat (length l).
Proof.
  induction 1 as [|b l Hb Hl IH].
  - unfold be_get; simpl. lia.
  - rewrite be_get_cons. simpl length. rewrite Nat2Z.inj_succ, Z.pow_succ_r by lia.
    unfold is_byte in Hb. nia.
Qed.

Lemma be_get_put n v : be_get (be_put n v) = v mod 256 ^ Z.of_nat n.
Proof.
  induction n as [|n IH]; simpl be_put.
  - by rewrite Z.mod_1_r.
  - rewrite be_get_cons, IH, length_be_put. unfold u8.
    rewrite Z.shiftr_div_pow2 by lia.
    replace (2 ^ (8 * Z.of_nat n)) with (256 ^ Z.of_nat n)
      by (rewrite Z.pow_mul_r by lia; f_equal; lia).
    rewrite Nat2Z.inj_succ, Z.pow_succ_r by lia.
    rewrite (Z.mul_comm 256), Z.rem_mul_r by lia.
    change (2 ^ 8) with 256. lia.
Qed.

Lemma be_get_put_small n v :
  0 <= v < 256 ^ Z.of_nat n -> be_get (be_put n v) = v.
Proof. intros. rewrite be_get_put. by apply Z.mod_small. Qed.

Lemma be_get_inj l1 l2 :
  bytes l1 -> bytes l2 -> length l1 = length l2 -> be_get l1 = be_get l2 -> l1 = l2.
Proof.
  intros H1. revert l2. induction H1 as [|b l Hb Hl IH]; intros l2 H2 Hlen Heq.
  - by destruct l2.
  - destruct H2 as [|b2 l2 Hb2 Hl2]; [done|]. simpl in Hlen. injection Hlen as Hlen.
    rewrite !be_get_cons, <-Hlen in Heq.
    pose proof (be_get_bound _ Hl). pose proof (be_get_bound _ Hl2).
    rewrite <-Hlen in *. unfold is_byte in *.
    assert (b = b2) as -> by nia. f_equal. apply IH; [done..|lia].
Qed.

Lemma be_put_get l : bytes l -> be_put (length l) (be_get l) = l.
Proof.
  intros H. apply be_get_inj; auto using be_put_bytes.
  - apply length_be_put.
  - rewrite be_get_put_small; auto using be_get_bound.
Qed.

Lemma Uint64_PutUint64 v : 0 <= v < 2 ^ 64 -> Uint64 (PutUint64 v) = Some v.
Proof.
  intros. unfold Uint64, PutUint64. rewrite decide_True by (rewrite length_be_put; lia).
  rewrite take_ge by (rewrite length_be_put; lia). f_equal.
  apply be_get_put_small. lia.
Qed.

(** [big.Int.Div]: Euclidean division, which panics on a zero divisor. *)
Definition big_Div (x y : Z) : option Z :=
  if decide (y = 0) then None
  else Some (if decide (0 < y) then x / y else - (x / - y)).

Lemma big_Div_pos x y : 0 < y -> big_Div x y = Some (x / y).
Proof. intros. unfold big_Div. by rewrite decide_False, decide_True by lia. Qed.

(** ** Lists as arrays *)

Lemma lookup_take_drop {A} (l : list A) a n i :
  (i < n)%nat -> take n (drop a l) !! i = l !! (a + i)%nat.
Proof. intros. rewrite lookup_take_lt by done. apply lookup_drop. Qed.

Lemma length_concat_map_const {A B} (f : A -> list B) k l :
  (forall x, length (f x) = k) -> length (concat (map f l)) = (k * length l)%nat.
Proof.
  intros Hf. induction l as [|x l IH]; simpl; [lia|]. rewrite length_app, IH, Hf. lia.
Qed.

(** The downward loop [for i := n-1; i >= 0; i--] over a state. *)
Fixpoint for_down {St} (n : nat) (body : nat -> St -> option St) (s : St) : option St :=
  match n with
  | O => Some s
  | S n' => s' ← body n' s; for_down n' body s'
  end.

(** The upward loop [for i := a; i < a+n; i++]. *)
Fixpoint for_up {St} (a n : nat) (body : nat -> St -> option St) (s : St) : option St :=
  match n with
  | O => Some s
  | S n' => s' ← body a s; for_up (S a) n' body s'
  end.

Lemma for_up_inv {St} (P : nat -> St -> Prop) body a n s :
  P a s ->
  (forall i s, (a <= i < a + n)%nat -> P i s -> exists s', body i s = Some s' /\ P (S i) s') ->
  exists s', for_up a n body s = Some s' /\ P (a + n)%nat s'.
Proof.
  revert a s. induction n as [|n IH]; intros a s H0 Hb; simpl.
  - rewrite Nat.add_0_r. eauto.
  - destruct (Hb a s) as (s' & -> & H'); [lia|done|]. simpl.
    destruct (IH (S a) s') as (s'' & -> & H''); [done| |].
    + intros. apply Hb; [lia|done].
    + exists s''. split; [done|]. by replace (a + S n)%nat with (S a + n)%nat by lia.
Qed.

Lemma for_up_None {St} body a n j (s : St) :
  (a <= j < a + n)%nat -> (forall s, body j s = None) -> for_up a n body s = None.
Proof.
  intros Hj Hb. revert a s Hj. induction n as [|n IH]; intros a s Hj; [lia|]. simpl.
  destruct (decide (a = j)) as [->|]; [by rewrite Hb|]. destruct (body a s); [|done]. simpl. apply IH. lia.
Qed.

Lemma for_down_inv {St} (P : nat -> St -> Prop) body n s :
  P n s ->
  (forall i s, (i < n)%nat -> P (S i) s -> exists s', body i s = Some s' /\ P i s') ->
  exists s', for_down n body s = Some s' /\ P 0%nat s'.
Proof.
  revert s. induction n as [|n IH]; intros s H0 Hb; simpl; [eauto|].
  destruct (Hb n s) as (s' & -> & H'); [lia|done|]. simpl. apply IH; [done|].
  intros. apply Hb; [lia|done].
Qed.

(** A loop that rewrites the window [base .. base+n) of an array in place,
    position [base+j] from its old value and [j]. *)
Definition update_window {A} (base n : nat) (g : nat -> A -> A) (l : list A) : list A :=
  imap (fun k c => if decide (base <= k < base + n)%nat then g (k - base)%nat c else c) l.

Lemma lookup_update_window {A} base n (g : nat -> A -> A) l k :
  update_window base n g l !! k =
  (fun c => if decide (base <= k < base + n)%nat then g (k - base)%nat c else c) <$> l !! k.
Proof. unfold update_window. by rewrite list_lookup_imap. Qed.

Lemma length_update_window {A} base n (g : nat -> A -> A) l :
  length (update_window base n g l) = length l.
Proof. apply length_imap. Qed.

Lemma for_up_update_in {A} base n (g : nat -> A -> A) body l :
  (base + n <= length l)%nat ->
  (forall j cb c, (j < n)%nat -> l !! (base + j)%nat = Some c -> cb !! (base + j)%nat = Some c ->
     body j cb = Some (<[(base + j)%nat := g j c]> cb)) ->
  for_up 0 n body l = Some (update_window base n g l).
Proof.
  intros Hlen Hb.
  edestruct (for_up_inv (fun j cb => cb = update_window base j g l)) as (s & -> & Hs);
    [| |by rewrite Hs].
  - apply list_eq. intros k. rewrite lookup_update_window.
    destruct (l !! k); simpl; [|done]. rewrite decide_False by lia. done.
  - intros j cb [_ Hj] ->. destruct (lookup_lt_is_Some_2 l (base + j)%nat) as [c Hc]; [lia|].
    eexists. split.
    + apply Hb; [lia|done|]. rewrite lookup_update_window, Hc. simpl. by rewrite decide_False by lia.
    + apply list_eq. intros k. rewrite lookup_update_window.
      destruct (decide (k = base + j)%nat) as [->|Hne].
      * rewrite list_lookup_insert_eq by (rewrite length_update_window; lia).
        rewrite Hc. simpl. rewrite decide_True by lia. do 2 f_equal. lia.
      * rewrite list_lookup_insert_ne, lookup_update_window by done.
        destruct (l !! k); simpl; [|done]. repeat case_decide; try done; lia.
Qed.

Lemma for_up_update {A} base n (g : nat -> A -> A) body l :
  (base + n <= length l)%nat ->
  (forall j cb c, (j < n)%nat -> cb !! (base + j)%nat = Some c ->
     body j cb = Some (<[(base + j)%nat := g j c]> cb)) ->
  for_up 0 n body l = Some (update_window base n g l).
Proof. intros Hl Hb. apply for_up_update_in; [done|]. intros j cb c Hj _. by apply Hb. Qed.

(** ** Little-endian numbers *)

Fixpoint le_get (l : list Z) : Z :=
  match l with [] => 0 | b :: l => b + 256 * le_get l end.
Fixpoint le_put (n : nat) (v : Z) : list Z :=
  match n with O => [] | S n => v mod 256 :: le_put n (v / 256) end.

Lemma length_le_put n v : length (le_put n v) = n.
Proof. revert v. induction n; intros v; simpl; auto. Qed.

Lemma le_put_bytes n v : bytes (le_put n v).
Proof.
  revert v. induction n as [|n IH]; intros v; simpl; [constructor|]. constructor; [|apply IH].
  unfold is_byte. apply Z.mod_pos_bound. lia.
Qed.

(** ** Overwriting part of an array

    [memcpy b k data] is C's [memcpy(b + k, data, len)] and Go's
    [copy(b[k:], data)] when [data] fits. *)
Definition memcpy {A} (b : list A) (k : nat) (data : list A) : list A :=
  take k b ++ data ++ drop (k + length data) b.

Lemma length_memcpy {A} (b : list A) k data :
  (k + length data <= length b)%nat -> length (memcpy b k data) = length b.
Proof.
  intros. unfold memcpy. rewrite !length_app, length_take, length_drop. lia.
Qed.

Lemma memcpy_bytes b k data : bytes b -> bytes data -> bytes (memcpy b k data).
Proof.
  intros. unfold memcpy. rewrite !bytes_app. auto using bytes_take, bytes_drop.
Qed.

Lemma take_memcpy {A} (b : list A) k data :
  (k + length data <= length b)%nat ->
  take (k + length data) (memcpy b k data) = take k b ++ data.
Proof.
  intros. unfold memcpy. rewrite app_assoc, take_app_le by (rewrite length_app, length_take; lia).
  apply take_ge. rewrite length_app, length_take. lia.
Qed.

Lemma lookup_memcpy {A} (b : list A) k data p :
  (k + length data <= length b)%nat ->
  memcpy b k data !! p =
  if decide (k <= p < k + length data)%nat then data !! (p - k)%nat else b !! p.
Proof.
  intros Hk. unfold memcpy. rewrite !lookup_app, lookup_drop, length_take, Nat.min_l by lia.
  destruct (decide (p < k)%nat).
  - rewrite lookup_take_lt by done. destruct (lookup_lt_is_Some_2 b p) as [x Hx]; [lia|].
    rewrite Hx, decide_False by lia. done.
  - rewrite (proj2 (lookup_ge_None (take k b) p)) by (rewrite length_take; lia).
    case_decide.
    + destruct (lookup_lt_is_Some_2 data (p - k)) as [x Hx]; [lia|]. by rewrite Hx.
    + rewrite (proj2 (lookup_ge_None data _)) by lia. f_equal. lia.
Qed.

(** [l[i] = x], which panics out of range. *)
Definition store {A} (l : list A) (i : nat) (x : A) : option (list A) :=
  if decide (i < length l)%nat then Some (<[i := x]> l) else None.

Lemma store_Some {A} (l : list A) i x : (i < length l)%nat -> store l i x = Some (<[i := x]> l).
Proof. intros. unfold store. by rewrite decide_True. Qed.

(** ** Step relations *)

Lemma rtc_preserve {A} (R : relation A) (P : A -> Prop) x y :
  (forall x y, P x -> R x y -> P y) -> P x -> rtc R x y -> P y.
Proof. intros Hstep Hx Hr. induction Hr; eauto. Qed.

(** Replacing one element of a list, seen through a list-valued [f]. *)
Lemma concat_map_insert {A B} (f : A -> list B) (l : list A) i x :
  l !! i = Some x ->
  exists rest, (concat (map f l) ≡ₚ f x ++ rest) /\
    forall y, concat (map f (<[i := y]> l)) ≡ₚ f y ++ rest.
Proof.
  revert i. induction l as [|a l IH]; intros [|i] Hi; simpl in *; try done.
  - injection Hi as ->. eauto.
  - destruct (IH _ Hi) as (rest & H1 & H2). exists (f a ++ rest). split.
    + rewrite H1. apply Permutation_app_swap_app.
    + intros y. rewrite H2. apply Permutation_app_swap_app.
Qed.

(** ** [sort.Search]: binary search *)

Fixpoint search_loop (fuel : nat) (f : nat -> bool) (i j : nat) : nat :=
  match fuel with
  | O => i
  | S fuel' =>
      if (i <? j)%nat then
        let h := Nat.div2 (i + j) in
        if negb (f h) then search_loop fuel' f (S h) j else search_loop fuel' f i h
      else i
  end.

Definition sort_Search (n : nat) (f : nat -> bool) : nat := search_loop n f 0 n.

Lemma search_loop_spec fuel f i j :
  (i <= j)%nat -> (j - i <= fuel)%nat ->
  (forall a b, (a <= b)%nat -> f a = true -> f b = true) ->
  (forall a, (a < i)%nat -> f a = false) ->
  let k := search_loop fuel f i j in
  (i <= k <= j)%nat /\ (forall a, (a < k)%nat -> f a = false) /\ ((k < j)%nat -> f k = true).
Proof.
  intros Hij Hf Hmono. revert i j Hij Hf. induction fuel as [|fuel IH]; intros i j Hij Hf Hi; simpl;
    [split; [lia|split; [done|lia] ]|].
  destruct (Nat.ltb_spec i j) as [Hlt|Hge]; [|split; [lia|split; [done|lia] ] ].
  assert (i <= Nat.div2 (i + j) < j)%nat as Hh by (rewrite Nat.div2_div; lia).
  destruct (f (Nat.div2 (i + j))) eqn:E; simpl.
  - destruct (IH i (Nat.div2 (i + j))) as (H1 & H2 & H3); [lia|lia|done|].
    split; [lia|]. split; [done|]. intros _.
    destruct (decide (search_loop fuel f i (Nat.div2 (i + j)) < Nat.div2 (i + j))%nat); [by apply H3|].
    by replace (search_loop fuel f i (Nat.div2 (i + j))) with (Nat.div2 (i + j)) by lia.
  - destruct (IH (S (Nat.div2 (i + j))) j) as (H1 & H2 & H3); [lia|lia| |split; [lia|done] ].
    intros a Ha. destruct (f a) eqn:Ea; [|done]. rewrite (Hmono a (Nat.div2 (i + j))) in E; [done|lia|done].
Qed.

Lemma sort_Search_spec n f :
  (forall a b, (a <= b)%nat -> f a = true -> f b = true) ->
  let k := sort_Search n f in
  (k <= n)%nat /\ (forall a, (a < k)%nat -> f a = false) /\ ((k < n)%nat -> f k = true).
Proof.
  intros Hm. destruct (search_loop_spec n f 0 n) as (H1 & H2 & H3); [lia|lia|done|lia|].
  split; [unfold sort_Search; lia|done].
Qed.
