(* ===== verification/Shabal.v ===== *)
(** * Shabal: the hash behind every plot

    The streaming hasher of [src/shabal/shabal.go] together with the C core it
    calls through cgo ([src/shabal/shabal.c]): context, [init], [core], [close],
    and the Go methods [Write], [Sum], [Reset].  The context is the C struct, so
    the bytes of [buf] beyond [ptr] are whatever earlier calls left there.

    Main result: whatever was hashed before, [Reset; Write d1; ...; Write dn;
    Sum] yields the one-shot digest of [d1 ++ ... ++ dn]. *)
From S2P Require Import Prelude.

(** ** 32-bit words *)

Definition T32 (x : Z) : Z := u32 x.
Definition rotl (n x : Z) : Z := Z.lor (T32 (Z.shiftl x n)) (Z.shiftr x (32 - n)).
Definition not32 (x : Z) : Z := T32 (Z.lnot x).

(** [sph_dec32le] and [sph_enc32le]. *)
Definition dec32le (b : list Z) : Z :=
  Z.lor (b !!! 0%nat)
    (Z.lor (Z.shiftl (b !!! 1%nat) 8)
      (Z.lor (Z.shiftl (b !!! 2%nat) 16) (Z.shiftl (b !!! 3%nat) 24))).

Definition enc32le (w : Z) : list Z :=
  [u8 w; u8 (Z.shiftr w 8); u8 (Z.shiftr w 16); u8 (Z.shiftr w 24)].

(** ** The context *)

Inductive hsize := S192 | S224 | S256 | S384 | S512.

(** The number of 32-bit words of output. *)
Definition size_words (s : hsize) : nat :=
  match s with S192 => 6 | S224 => 7 | S256 => 8 | S384 => 12 | S512 => 16 end%nat.

(** The words that [READ_STATE] loads. *)
Record words := mkWords {
  wA : list Z; wB : list Z; wC : list Z; Whigh : Z; Wlow : Z
}.

(** [sph_shabal_context]. *)
Record context := mkContext { buf : list Z; ptr : nat; regs : words }.

Definition BUF : nat := 64.

(** ** The permutation *)

Definition DECODE_BLOCK (b : list Z) : list Z :=
  map (fun i => dec32le (take 4 (drop (4 * i) b))) (seq 0 16).

Definition INPUT_BLOCK_ADD (M : list Z) (s : words) : words :=
  mkWords (wA s) (zip_with (fun b m => T32 (b + m)) (wB s) M) (wC s) (Whigh s) (Wlow s).

Definition INPUT_BLOCK_SUB (M : list Z) (s : words) : words :=
  mkWords (wA s) (wB s) (zip_with (fun c m => T32 (c - m)) (wC s) M) (Whigh s) (Wlow s).

Definition XOR_W (s : words) : words :=
  let A1 := <[0%nat := Z.lxor (wA s !!! 0%nat) (Wlow s)]> (wA s) in
  let A2 := <[1%nat := Z.lxor (A1 !!! 1%nat) (Whigh s)]> A1 in
  mkWords A2 (wB s) (wC s) (Whigh s) (Wlow s).

Definition SWAP_BC (s : words) : words :=
  mkWords (wA s) (wC s) (wB s) (Whigh s) (Wlow s).

Definition INCR_W (s : words) : words :=
  let lo := T32 (Wlow s + 1) in
  mkWords (wA s) (wB s) (wC s) (if lo =? 0 then T32 (Whigh s + 1) else Whigh s) lo.

Definition PERM_ELT (C M : list Z) (a0 a1 b0 b1 b2 b3 c m : nat)
    (AB : list Z * list Z) : list Z * list Z :=
  let (A, B) := AB in
  let xa0 :=
    Z.lxor (Z.lxor (Z.lxor
      (T32 (Z.lxor (Z.lxor (A !!! a0) (T32 (rotl 15 (A !!! a1) * 5))) (C !!! c) * 3))
      (B !!! b1)) (Z.land (B !!! b2) (not32 (B !!! b3)))) (M !!! m) in
  let xb0 := not32 (Z.lxor (rotl 1 (B !!! b0)) xa0) in
  (<[a0 := xa0]> A, <[b0 := xb0]> B).

(** [PERM_STEP_k] for [k = 0, 1, 2]: sixteen [PERM_ELT]s whose [A] index runs
    on from the previous step modulo 12. *)
Definition PERM_STEP (C M : list Z) (k : nat) (AB : list Z * list Z) : list Z * list Z :=
  foldl (fun AB j =>
    PERM_ELT C M ((j + 16 * k) mod 12) ((j + 16 * k + 11) mod 12)
      j ((j + 13) mod 16) ((j + 9) mod 16) ((j + 6) mod 16) ((24 - j) mod 16) j AB)%nat
    AB (seq 0 16).

(** The 36 additions of [C] words to [A] words that end [APPLY_P]. *)
Definition ADD_C (C A : list Z) : list Z :=
  foldl (fun A j =>
    let a := ((47 - j) mod 12)%nat in
    <[a := T32 (A !!! a + C !!! ((54 - j) mod 16)%nat)]> A) A (seq 0 36).

Definition APPLY_P (M : list Z) (s : words) : words :=
  let B := map (rotl 17) (wB s) in
  let (A1, B1) := PERM_STEP (wC s) M 2 (PERM_STEP (wC s) M 1 (PERM_STEP (wC s) M 0 (wA s, B))) in
  mkWords (ADD_C (wC s) A1) B1 (wC s) (Whigh s) (Wlow s).

(** ** Initial values *)

Definition A_init_192 : list Z := [
    0xfd749ed4; 0xb798e530; 0x33904b6f; 0x46bda85e;
    0x076934b4; 0x454b4058; 0x77f74527; 0xfb4cf465;
    0x62931da9; 0xe778c8db; 0x22b3998e; 0xac15cfb9 ].

Definition B_init_192 : list Z := [
    0x58bcbac4; 0xec47a08e; 0xaee933b2; 0xdfcbc824;
    0xa7944804; 0xbf65bdb0; 0x5a9d4502; 0x59979af7;
    0xc5cea54e; 0x4b6b8150; 0x16e71909; 0x7d632319;
    0x930573a0; 0xf34c63d1; 0xcaf914b4; 0xfdd6612c ].

Definition C_init_192 : list Z := [
    0x61550878; 0x89ef2b75; 0xa1660c46; 0x7ef3855b;
    0x7297b58c; 0x1bc67793; 0x7fb1c723; 0xb66fc640;
    0x1a48b71c; 0xf0976d17; 0x088ce80a; 0xa454edf3;
    0x1c096bf4; 0xac76224b; 0x5215781c; 0xcd5d2669 ].

Definition A_init_224 : list Z := [
    0xa5201467; 0xa9b8d94a; 0xd4ced997; 0x68379d7b;
    0xa7fc73ba; 0xf1a2546b; 0x606782bf; 0xe0bcfd0f;
    0x2f25374e; 0x069a149f; 0x5e2dff25; 0xfaecf061 ].

Definition B_init_224 : list Z := [
    0xec9905d8; 0xf21850cf; 0xc0a746c8; 0x21dad498;
    0x35156eeb; 0x088c97f2; 0x26303e40; 0x8a2d4fb5;
    0xfeee44b6; 0x8a1e9573; 0x7b81111a; 0xcbc139f0;
    0xa3513861; 0x1d2c362e; 0x918c580e; 0xb58e1b9c ].

Definition C_init_224 : list Z := [
    0xe4b573a1; 0x4c1a0880; 0x1e907c51; 0x04807efd;
    0x3ad8cde5; 0x16b21302; 0x02512c53; 0x2204cb18;
    0x99405f2d; 0xe5b648a1; 0x70ab1d43; 0xa10c25c2;
    0x16f1ac05; 0x38bbeb56; 0x9b01dc60; 0xb1096d83 ].

Definition A_init_256 : list Z := [
    0x52f84552; 0xe54b7999; 0x2d8ee3ec; 0xb9645191;
    0xe0078b86; 0xbb7c44c9; 0xd2b5c1ca; 0xb0d2eb8c;
    0x14ce5a45; 0x22af50dc; 0xeffdbc6b; 0xeb21b74a ].

Definition B_init_256 : list Z := [
    0xb555c6ee; 0x3e710596; 0xa72a652f; 0x9301515f;
    0xda28c1fa; 0x696fd868; 0x9cb6bf72; 0x0afe4002;
    0xa6e03615; 0x5138c1d4; 0xbe216306; 0xb38b8890;
    0x3ea8b96b; 0x3299ace4; 0x30924dd4; 0x55cb34a5 ].

Definition C_init_256 : list Z := [
    0xb405f031; 0xc4233eba; 0xb3733979; 0xc0dd9d55;
    0xc51c28ae; 0xa327b8e1; 0x56c56167; 0xed614433;
    0x88b59d60; 0x60e2ceba; 0x758b4b8b; 0x83e82a7f;
    0xbc968828; 0xe6e00bf7; 0xba839e55; 0x9b491c60 ].

Definition A_init_384 : list Z := [
    0xc8fca331; 0xe55c504e; 0x003ebf26; 0xbb6b8d83;
    0x7b0448c1; 0x41b82789; 0x0a7c9601; 0x8d659cff;
    0xb6e2673e; 0xca54c77b; 0x1460fd7e; 0x3fcb8f2d ].

Definition B_init_384 : list Z := [
    0x527291fc; 0x2a16455f; 0x78e627e5; 0x944f169f;
    0x1ca6f016; 0xa854ea25; 0x8db98abe; 0xf2c62641;
    0x30117dcb; 0xcf5c4309; 0x93711a25; 0xf9f671b8;
    0xb01d2116; 0x333f4b89; 0xb285d165; 0x86829b36 ].

Definition C_init_384 : list Z := [
    0xf764b11a; 0x76172146; 0xcef6934d; 0xc6d28399;
    0xfe095f61; 0x5e6018b4; 0x5048ecf5; 0x51353261;
    0x6e6e36dc; 0x63130dad; 0xa9c69bd6; 0x1e90ea0c;
    0x7c35073b; 0x28d95e6d; 0xaa340e0d; 0xcb3dee70 ].

Definition A_init_512 : list Z := [
    0x20728dfd; 0x46c0bd53; 0xe782b699; 0x55304632;
    0x71b4ef90; 0x0ea9e82c; 0xdbb930f1; 0xfad06b8b;
    0xbe0cae40; 0x8bd14410; 0x76d2adac; 0x28acab7f ].

Definition B_init_512 : list Z := [
    0xc1099cb7; 0x07b385f3; 0xe7442c26; 0xcc8ad640;
    0xeb6f56c7; 0x1ea81aa9; 0x73b9d314; 0x1de85d08;
    0x48910a5a; 0x893b22db; 0xc5a0df44; 0xbbc4324e;
    0x72d2f240; 0x75941d99; 0x6d8bde82; 0xa1a7502b ].

Definition C_init_512 : list Z := [
    0xd9bf68d1; 0x58bad750; 0x56028cb2; 0x8134f359;
    0xb5d469d8; 0x941a8cc2; 0x418b2a6e; 0x04052780;
    0x7f07d787; 0x5194358f; 0x3c60d665; 0xbe97d79a;
    0x950c3434; 0xaed9a06d; 0x2537dc8d; 0x7cdb5969 ].

Definition init_words (s : hsize) : words :=
  match s with
  | S192 => mkWords A_init_192 B_init_192 C_init_192 0 1
  | S224 => mkWords A_init_224 B_init_224 C_init_224 0 1
  | S256 => mkWords A_init_256 B_init_256 C_init_256 0 1
  | S384 => mkWords A_init_384 B_init_384 C_init_384 0 1
  | S512 => mkWords A_init_512 B_init_512 C_init_512 0 1
  end.

(** [shabal_init] leaves [buf] alone. *)
Definition shabal_init (s : hsize) (c : context) : context :=
  mkContext (buf c) 0 (init_words s).

(** ** Absorbing data *)

(** One full block: the body of the [if (ptr == sizeof sc->buf)] branch. *)
Definition absorb (b : list Z) (s : words) : words :=
  let M := DECODE_BLOCK b in
  INCR_W (SWAP_BC (INPUT_BLOCK_SUB M (APPLY_P M (XOR_W (INPUT_BLOCK_ADD M s))))).

(** The [while (len > 0)] loop; every turn consumes a byte at least, so
    [length data] turns are enough. *)
Fixpoint core_loop (fuel : nat) (c : context) (data : list Z) : context :=
  match fuel, data with
  | _, [] => c
  | O, _ => c
  | S fuel', _ =>
      let clen := Nat.min (BUF - ptr c) (length data) in
      let b := memcpy (buf c) (ptr c) (take clen data) in
      let p := (ptr c + clen)%nat in
      let c' := if (p =? BUF)%nat then mkContext b 0 (absorb b (regs c))
                else mkContext b p (regs c) in
      core_loop fuel' c' (drop clen data)
  end.

Definition shabal_core (c : context) (data : list Z) : context :=
  if (length data <? BUF - ptr c)%nat
  then mkContext (memcpy (buf c) (ptr c) data) (ptr c + length data) (regs c)
  else core_loop (length data) c data.

(** The three extra rounds of [shabal_close]. *)
Definition close_round (M : list Z) (s : words) : words := APPLY_P M (XOR_W (SWAP_BC s)).

(** The final block: padding bit, then zeros up to the block size. *)
Definition final_words (b : list Z) (s : words) : words :=
  let M := DECODE_BLOCK b in
  Nat.iter 3 (close_round M) (APPLY_P M (XOR_W (INPUT_BLOCK_ADD M s))).

Definition emit (sz : hsize) (s : words) : list Z :=
  concat (map enc32le (drop (16 - size_words sz) (wB s))).

(** [shabal_close(cc, 0, 0, dst, size_words)]: the digest, and the context
    re-initialised. *)
Definition shabal_close (sz : hsize) (c : context) : list Z * context :=
  let b := memcpy (buf c) (ptr c) (0x80 :: replicate (BUF - (ptr c + 1)) 0) in
  (emit sz (final_words b (regs c)), shabal_init sz (mkContext b (ptr c) (regs c))).

(** ** The Go wrapper *)

(** [getHashFunc]: the panic on an unsupported size is [None]. *)
Definition getHashFunc (size : Z) : option hsize :=
  if size =? 192 then Some S192 else if size =? 224 then Some S224
  else if size =? 256 then Some S256 else if size =? 384 then Some S384
  else if size =? 512 then Some S512 else None.

Definition Write (c : context) (b : list Z) : context := shabal_core c b.

(** [Sum(b)] appends the digest to [b]. *)
Definition Sum (sz : hsize) (c : context) (b : list Z) : list Z * context :=
  let (ret, c') := shabal_close sz c in (b ++ ret, c').

Definition Reset (sz : hsize) (c : context) : context := shabal_init sz c.

(** A fresh Go struct is zeroed. *)
Definition zero_context : context :=
  mkContext (replicate BUF 0) 0 (mkWords (replicate 12 0) (replicate 16 0) (replicate 16 0) 0 0).

Definition newShabal (size : Z) : option context :=
  sz ← getHashFunc size; Some (Reset sz zero_context).

Definition NewSha_bal256 : context := Reset S256 zero_context.

(** ** The one-shot reference *)

Fixpoint absorb_n (n : nat) (s : words) (m : list Z) : words :=
  match n with
  | O => s
  | S n' => absorb_n n' (absorb (take BUF m) s) (drop BUF m)
  end.

Definition tail_of (m : list Z) : list Z := drop (BUF * (length m / BUF)) m.

(** The message followed by a 1 bit and zeros, hashed block by block. *)
Definition shabal (sz : hsize) (m : list Z) : list Z :=
  let s := absorb_n (length m / BUF) (init_words sz) m in
  let t := tail_of m in
  emit sz (final_words (t ++ 0x80 :: replicate (BUF - (length t + 1)) 0) s).

Example shabal256_empty :
  be_get (shabal S256 []) =
  0xaec750d11feee9f16271922fbaf5a9be142f62019ef8d720f858940070889014.
Proof. vm_compute. reflexivity. Qed.

(** ** Word ranges and shapes *)

Definition is_word (w : Z) : Prop := is_uint 32 w.

(** Twelve [A] words, sixteen [B] and [C] words, every word of 32 bits. *)
Record words_ok (s : words) : Prop := {
  ok_A : length (wA s) = 12%nat; ok_B : length (wB s) = 16%nat;
  ok_C : length (wC s) = 16%nat;
  ok_wA : Forall is_word (wA s); ok_wB : Forall is_word (wB s);
  ok_wC : Forall is_word (wC s); ok_hi : is_word (Whigh s); ok_lo : is_word (Wlow s)
}.

Create HintDb shabal.

Lemma T32_word x : is_word (T32 x).
Proof. apply Z.mod_pos_bound. lia. Qed.

Lemma lxor_word a b : is_word a -> is_word b -> is_word (Z.lxor a b).
Proof. apply lxor_uint. lia. Qed.

Lemma land_word a b : is_word a -> is_word b -> is_word (Z.land a b).
Proof. apply land_uint. lia. Qed.

Lemma rotl_word n x : 0 <= n <= 32 -> is_word x -> is_word (rotl n x).
Proof.
  intros. apply lor_uint; [lia|apply T32_word|]. apply shiftr_uint; [lia..|done].
Qed.

Lemma not32_word x : is_word (not32 x).
Proof. apply T32_word. Qed.

(** A total lookup into a list of words is a word, also out of range. *)
Lemma lookup_total_word l i : Forall is_word l -> is_word (l !!! i).
Proof.
  intros H. destruct (l !! i) as [w|] eqn:E.
  - rewrite (list_lookup_total_correct _ _ _ E). by eapply Forall_lookup_1.
  - rewrite list_lookup_total_alt, E. cbv. done || (split; [done|done]).
Qed.

#[export] Hint Resolve T32_word lxor_word land_word rotl_word not32_word
  lookup_total_word : shabal.

Lemma insert_words l i w : Forall is_word l -> is_word w -> Forall is_word (<[i:=w]> l).
Proof. intros. by apply Forall_insert. Qed.

Lemma zip_with_words (f : Z -> Z -> Z) l1 l2 :
  (forall a b, is_word (f a b)) -> Forall is_word (zip_with f l1 l2).
Proof.
  intros Hf. revert l2. induction l1 as [|a l1 IH]; intros [|b l2]; simpl; auto.
Qed.

#[export] Hint Resolve insert_words zip_with_words : shabal.

(** A register pair [(A, B)] of the permutation. *)
Definition regs_ok (AB : list Z * list Z) : Prop :=
  length AB.1 = 12%nat /\ length AB.2 = 16%nat /\
  Forall is_word AB.1 /\ Forall is_word AB.2.

Lemma PERM_ELT_ok C M a0 a1 b0 b1 b2 b3 c m AB :
  Forall is_word C -> Forall is_word M -> regs_ok AB ->
  regs_ok (PERM_ELT C M a0 a1 b0 b1 b2 b3 c m AB).
Proof.
  intros HC HM (HA & HB & HwA & HwB). destruct AB as [A B]; simpl in *.
  unfold regs_ok; simpl. rewrite !length_insert.
  split_and!; [done..| |]; apply insert_words; auto 10 with shabal.
Qed.

Lemma PERM_STEP_ok C M k AB :
  Forall is_word C -> Forall is_word M -> regs_ok AB -> regs_ok (PERM_STEP C M k AB).
Proof.
  intros HC HM. unfold PERM_STEP. generalize (seq 0 16) as js. intros js.
  revert AB. induction js as [|j js IH]; intros AB HAB; simpl; [done|].
  apply IH. by apply PERM_ELT_ok.
Qed.

Lemma ADD_C_ok C A :
  length A = 12%nat -> Forall is_word A ->
  length (ADD_C C A) = 12%nat /\ Forall is_word (ADD_C C A).
Proof.
  unfold ADD_C. generalize (seq 0 36) as js. intros js.
  revert A. induction js as [|j js IH]; intros A HA HwA; simpl; [done|].
  apply IH; [by rewrite length_insert|auto with shabal].
Qed.

Lemma APPLY_P_ok M s : Forall is_word M -> words_ok s -> words_ok (APPLY_P M s).
Proof.
  intros HM []. unfold APPLY_P.
  destruct (PERM_STEP _ _ 2 _) as [A1 B1] eqn:E.
  assert (regs_ok (A1, B1)) as (HA & HB & HwA & HwB).
  { rewrite <-E. do 3 (apply PERM_STEP_ok; [done..|]).
    split_and!; simpl; [done|by rewrite length_map|done|].
    apply Forall_map. eapply Forall_impl; [done|]. intros w Hw. simpl.
    apply rotl_word; [lia|done]. }
  simpl in *. destruct (ADD_C_ok (wC s) A1) as [? ?]; [done..|]. by constructor.
Qed.

Lemma XOR_W_ok s : words_ok s -> words_ok (XOR_W s).
Proof.
  intros []. constructor; simpl; rewrite ?length_insert; auto 10 with shabal.
Qed.

Lemma INPUT_BLOCK_ADD_ok M s :
  length M = 16%nat -> words_ok s -> words_ok (INPUT_BLOCK_ADD M s).
Proof.
  intros ? []. constructor; simpl; rewrite ?length_zip_with; auto with shabal. lia.
Qed.

Lemma INPUT_BLOCK_SUB_ok M s :
  length M = 16%nat -> words_ok s -> words_ok (INPUT_BLOCK_SUB M s).
Proof.
  intros ? []. constructor; simpl; rewrite ?length_zip_with; auto with shabal. lia.
Qed.

Lemma SWAP_BC_ok s : words_ok s -> words_ok (SWAP_BC s).
Proof. intros []. by constructor. Qed.

Lemma INCR_W_ok s : words_ok s -> words_ok (INCR_W s).
Proof. intros []. constructor; simpl; auto with shabal. case_match; auto with shabal. Qed.

Lemma length_DECODE_BLOCK b : length (DECODE_BLOCK b) = 16%nat.
Proof. unfold DECODE_BLOCK. by rewrite length_map, length_seq. Qed.

Lemma byte_shiftl_word b n : is_byte b -> 0 <= n <= 24 -> is_word (Z.shiftl b n).
Proof.
  intros Hb Hn. unfold is_word, is_uint. rewrite Z.shiftl_mul_pow2 by lia.
  assert (2 ^ n <= 2 ^ 24) by (apply Z.pow_le_mono_r; lia).
  assert (0 < 2 ^ n) by (apply Z.pow_pos_nonneg; lia).
  change (2 ^ 32) with (256 * 2 ^ 24). unfold is_byte in Hb. nia.
Qed.

Lemma lookup_total_byte l i : bytes l -> is_byte (l !!! i).
Proof.
  intros H. destruct (l !! i) as [w|] eqn:E.
  - rewrite (list_lookup_total_correct _ _ _ E). by eapply Forall_lookup_1.
  - rewrite list_lookup_total_alt, E. by cbv.
Qed.

Lemma dec32le_word b : bytes b -> is_word (dec32le b).
Proof.
  intros Hb. unfold dec32le.
  repeat (apply lor_uint; [lia| |]); try (apply byte_shiftl_word; [|lia]);
    try by apply lookup_total_byte.
  rewrite <-(Z.shiftl_0_r (b !!! 0%nat)). apply byte_shiftl_word; [|lia].
  by apply lookup_total_byte.
Qed.

Lemma DECODE_BLOCK_words b : bytes b -> Forall is_word (DECODE_BLOCK b).
Proof.
  intros Hb. apply Forall_map, Forall_true. intros i. simpl.
  apply dec32le_word. by apply bytes_take, bytes_drop.
Qed.

#[export] Hint Resolve length_DECODE_BLOCK DECODE_BLOCK_words INCR_W_ok SWAP_BC_ok
  INPUT_BLOCK_SUB_ok APPLY_P_ok XOR_W_ok INPUT_BLOCK_ADD_ok : shabal.

Lemma absorb_ok b s : bytes b -> words_ok s -> words_ok (absorb b s).
Proof. intros. unfold absorb. auto 20 with shabal. Qed.

Lemma final_words_ok b s : bytes b -> words_ok s -> words_ok (final_words b s).
Proof. intros. unfold final_words, close_round. simpl. auto 40 with shabal. Qed.

Lemma init_words_ok sz : words_ok (init_words sz).
Proof.
  destruct sz; (constructor; [done..| | | |by cbv|by cbv]);
    cbv [init_words wA wB wC]; repeat (constructor; [by cbv|]); constructor.
Qed.

Lemma length_enc32le w : length (enc32le w) = 4%nat.
Proof. done. Qed.

Lemma length_emit sz s : words_ok s -> length (emit sz s) = (4 * size_words sz)%nat.
Proof.
  intros []. unfold emit. rewrite (length_concat_map_const _ 4) by done.
  rewrite length_drop, ok_B0. destruct sz; simpl; lia.
Qed.

Lemma emit_bytes sz s : bytes (emit sz s).
Proof.
  unfold emit, bytes. apply Forall_concat, Forall_map, Forall_true. intros w. simpl.
  repeat constructor; apply u8_is_byte.
Qed.

#[global] Opaque absorb final_words emit init_words.

(** ** The streaming context represents a message *)

(** After hashing [m] since the last reset, the registers have absorbed the
    full blocks of [m], and the first [ptr] bytes of [buf] are the rest. *)
Record represents (sz : hsize) (c : context) (m : list Z) : Prop := {
  rep_buf : length (buf c) = BUF;
  rep_bytes : bytes (buf c);
  rep_ptr : ptr c = (length m mod BUF)%nat;
  rep_tail : take (ptr c) (buf c) = tail_of m;
  rep_regs : regs c = absorb_n (length m / BUF) (init_words sz) m;
}.

Lemma absorb_n_ok n s m : bytes m -> words_ok s -> words_ok (absorb_n n s m).
Proof.
  revert s m. induction n as [|n IH]; intros s m Hm Hs; simpl; [done|].
  apply IH; [by apply bytes_drop|]. apply absorb_ok; [by apply bytes_take|done].
Qed.

(** Only the first [n] blocks matter. *)
Lemma absorb_n_app n s m d :
  (BUF * n <= length m)%nat -> absorb_n n s (m ++ d) = absorb_n n s m.
Proof.
  revert s m. induction n as [|n IH]; intros s m Hm; simpl; [done|].
  unfold BUF in *. rewrite take_app_le, drop_app_le by lia. apply IH.
  rewrite length_drop. lia.
Qed.

Lemma absorb_n_snoc n s m :
  absorb_n (S n) s m = absorb (take BUF (drop (BUF * n) m)) (absorb_n n s m).
Proof.
  revert s m. induction n as [|n IH]; intros s m.
  - by rewrite Nat.mul_0_r, drop_0.
  - change (absorb_n (S (S n)) s m)
      with (absorb_n (S n) (absorb (take BUF m) s) (drop BUF m)).
    rewrite IH, drop_drop. by replace (BUF + BUF * n)%nat with (BUF * S n)%nat by lia.
Qed.

Lemma length_tail_of m : length (tail_of m) = (length m mod BUF)%nat.
Proof.
  unfold tail_of. rewrite length_drop. pose proof (Nat.div_mod_eq (length m) BUF). lia.
Qed.

Lemma BUF_div_mod_add (n k : nat) : (n mod BUF + k < BUF)%nat ->
  ((n + k) / BUF = n / BUF /\ (n + k) mod BUF = n mod BUF + k)%nat.
Proof.
  intros Hk. pose proof (Nat.div_mod_eq n BUF).
  assert (n + k = BUF * (n / BUF) + (n mod BUF + k))%nat as E by lia.
  split; [symmetry; eapply Nat.div_unique|symmetry; eapply Nat.mod_unique]; [|exact E| |exact E]; lia.
Qed.

Lemma BUF_div_mod_full (n k : nat) : (n mod BUF + k = BUF)%nat ->
  ((n + k) / BUF = S (n / BUF) /\ (n + k) mod BUF = 0)%nat.
Proof.
  intros Hk. pose proof (Nat.div_mod_eq n BUF).
  assert (n + k = BUF * S (n / BUF) + 0)%nat as E by lia.
  split; [symmetry; eapply Nat.div_unique|symmetry; eapply Nat.mod_unique]; [|exact E| |exact E]; unfold BUF; lia.
Qed.

Lemma tail_of_app m d :
  (length m mod BUF + length d < BUF)%nat -> tail_of (m ++ d) = tail_of m ++ d.
Proof.
  intros Hd. unfold tail_of. rewrite length_app.
  destruct (BUF_div_mod_add _ _ Hd) as [-> _]. apply drop_app_le.
  pose proof (Nat.div_mod_eq (length m) BUF). lia.
Qed.

(** Filling the buffer without completing a block. *)
Lemma represents_partial sz c m d :
  represents sz c m -> bytes d -> (ptr c + length d < BUF)%nat ->
  represents sz (mkContext (memcpy (buf c) (ptr c) d) (ptr c + length d) (regs c)) (m ++ d).
Proof.
  intros [Hb Hby Hp Ht Hr] Hd Hlt.
  assert (length m mod BUF + length d < BUF)%nat as Hlt' by lia.
  destruct (BUF_div_mod_add _ _ Hlt') as [Hdiv Hmod].
  constructor; cbn [buf ptr regs].
  - rewrite length_memcpy; lia.
  - by apply memcpy_bytes.
  - by rewrite length_app, Hmod, Hp.
  - rewrite take_memcpy by lia. by rewrite Ht, tail_of_app.
  - rewrite length_app, Hdiv, Hr, absorb_n_app; [done|].
    pose proof (Nat.div_mod_eq (length m) BUF). lia.
Qed.

(** Completing a block. *)
Lemma represents_block sz c m d :
  represents sz c m -> bytes d -> (ptr c + length d = BUF)%nat ->
  let b := memcpy (buf c) (ptr c) d in
  represents sz (mkContext b 0 (absorb b (regs c))) (m ++ d).
Proof.
  intros [Hb Hby Hp Ht Hr] Hd Hfull b.
  assert (length m mod BUF + length d = BUF)%nat as Hf by lia.
  destruct (BUF_div_mod_full _ _ Hf) as [Hdiv Hmod].
  pose proof (Nat.div_mod_eq (length m) BUF) as Hdm.
  constructor; cbn [buf ptr regs].
  - unfold b. rewrite length_memcpy; lia.
  - by apply memcpy_bytes.
  - by rewrite length_app.
  - unfold tail_of. rewrite length_app, Hdiv, drop_ge; [done|]. rewrite length_app. lia.
  - rewrite length_app, Hdiv, absorb_n_snoc, absorb_n_app, Hr by lia.
    rewrite drop_app_le by lia. change (drop (BUF * (length m / BUF)) m) with (tail_of m).
    rewrite <-Ht, take_ge by (rewrite length_app, length_take; lia).
    rewrite <-take_memcpy by lia. rewrite take_ge; [reflexivity|].
    rewrite length_memcpy; lia.
Qed.

Lemma represents_ptr sz c m : represents sz c m -> (ptr c < BUF)%nat.
Proof. intros []. rewrite rep_ptr0. apply Nat.mod_upper_bound. done. Qed.

Lemma core_loop_represents sz fuel c m d :
  represents sz c m -> bytes d -> (length d <= fuel)%nat ->
  represents sz (core_loop fuel c d) (m ++ d).
Proof.
  revert c m d. induction fuel as [|fuel IH]; intros c m d Hc Hd Hfuel.
  { destruct d; simpl in *; [by rewrite app_nil_r|lia]. }
  destruct d as [|x d]; [simpl; by rewrite app_nil_r|].
  pose proof (represents_ptr _ _ _ Hc) as Hp. cbn [core_loop].
  set (dd := x :: d) in *. set (clen := Nat.min (BUF - ptr c) (length dd)).
  assert (0 < length dd)%nat by (simpl; lia).
  replace (m ++ dd) with ((m ++ take clen dd) ++ drop clen dd)
    by (by rewrite <-app_assoc, take_drop).
  assert (length (take clen dd) = clen) as Hcl by (rewrite length_take; lia).
  apply IH; [|by apply bytes_drop|rewrite length_drop; lia].
  destruct (Nat.eqb_spec (ptr c + clen) BUF) as [E|E].
  - apply represents_block; [done|by apply bytes_take|lia].
  - replace (ptr c + clen)%nat with (ptr c + length (take clen dd))%nat by lia.
    apply represents_partial; [done|by apply bytes_take|lia].
Qed.

Lemma Write_represents sz c m d :
  represents sz c m -> bytes d -> represents sz (Write c d) (m ++ d).
Proof.
  intros Hc Hd. unfold Write, shabal_core. pose proof (represents_ptr _ _ _ Hc).
  destruct (Nat.ltb_spec (length d) (BUF - ptr c)).
  - apply represents_partial; [done..|lia].
  - by apply core_loop_represents.
Qed.

Lemma close_represents sz c m :
  represents sz c m ->
  exists c', shabal_close sz c = (shabal sz m, c') /\ represents sz c' [].
Proof.
  intros Hc. pose proof (represents_ptr _ _ _ Hc) as Hp. destruct Hc as [Hb Hby Hpt Ht Hr].
  eexists. unfold shabal_close, shabal. split.
  - assert (memcpy (buf c) (ptr c) (0x80 :: replicate (BUF - (ptr c + 1)) 0) =
      tail_of m ++ 0x80 :: replicate (BUF - (length (tail_of m) + 1)) 0) as ->.
    { unfold memcpy. rewrite Ht, drop_ge, app_nil_r.
      - by rewrite length_tail_of, <-Hpt.
      - simpl. rewrite length_replicate. unfold BUF in *. lia. }
    rewrite Hr. reflexivity.
  - constructor; cbn [buf ptr regs shabal_init]; try done.
    + rewrite length_app, length_tail_of, <-Hpt. cbn [length].
      rewrite length_replicate. unfold BUF in *. lia.
    + apply bytes_app. split.
      * rewrite <-Ht. by apply bytes_take.
      * constructor; [by cbv|apply bytes_replicate_0].
Qed.

Lemma Reset_represents sz c :
  length (buf c) = BUF -> bytes (buf c) -> represents sz (Reset sz c) [].
Proof. intros. by constructor. Qed.

Lemma length_shabal sz m : bytes m -> length (shabal sz m) = (4 * size_words sz)%nat.
Proof.
  intros Hm. unfold shabal. apply length_emit, final_words_ok.
  - apply bytes_app. split; [by apply bytes_drop|].
    constructor; [by cbv|apply bytes_replicate_0].
  - apply absorb_n_ok; [done|apply init_words_ok].
Qed.

(** ** The interface the proof-of-capacity code uses

    Go's [hash.Hash], with what a 256-bit hasher promises: a context is usable
    at every moment ([h_inv]), and [Write]s followed by [Sum] after a [Reset]
    give the digest of the concatenated data. *)
Class Hasher (H : Type) := {
  h_new : H;
  h_write : H -> list Z -> H;
  h_sum : H -> list Z * H;
  h_reset : H -> H;
  digest : list Z -> list Z;
  h_hashed : H -> list Z -> Prop;
  h_new_ok : h_hashed h_new [];
  h_reset_ok h m : h_hashed h m -> h_hashed (h_reset h) [];
  h_write_ok h m d : h_hashed h m -> bytes d -> h_hashed (h_write h d) (m ++ d);
  h_sum_ok h m : h_hashed h m -> exists h', h_sum h = (digest m, h') /\ h_hashed h' [];
  digest_length m : bytes m -> length (digest m) = 32%nat;
  digest_bytes m : bytes (digest m);
}.

#[export] Instance Sha_bal256 : Hasher context.
Proof.
  refine {| h_new := NewSha_bal256; h_write := Write;
            h_sum := fun c => Sum S256 c []; h_reset := Reset S256;
            digest := shabal S256; h_hashed := represents S256 |}.
  - apply Reset_represents; [done|apply bytes_replicate_0].
  - intros h m [Hb Hby _ _ _]. by apply Reset_represents.
  - apply Write_represents.
  - intros h m Hm. destruct (close_represents _ _ _ Hm) as (c' & E & Hc').
    exists c'. unfold Sum. rewrite E. split; [reflexivity|exact Hc'].
  - apply length_shabal.
  - intros m. apply emit_bytes.
Defined.

(** ** Properties *)

(** A list of [Write] calls in sequence. *)
Definition Writes (c : context) (ds : list (list Z)) : context := foldl Write c ds.

Lemma Writes_represents sz c m ds :
  represents sz c m -> Forall bytes ds -> represents sz (Writes c ds) (m ++ concat ds).
Proof.
  intros Hc Hds. revert c m Hc. induction Hds as [|d ds Hd Hds IH]; intros c m Hc; simpl.
  - by rewrite app_nil_r.
  - rewrite app_assoc. apply IH. by apply Write_represents.
Qed.

(** The context invariant holds at every reachable context: reset once and
    then any sequence of [Write]s. *)
Lemma reachable_represents sz c ds :
  length (buf c) = BUF -> bytes (buf c) -> Forall bytes ds ->
  represents sz (Writes (Reset sz c) ds) (concat ds).
Proof. intros. by apply (Writes_represents sz _ []); [apply Reset_represents|]. Qed.

(** C33: hashing is independent of chunking and of history.  For any context
    (whatever stale bytes its buffer holds), after [Reset] and any sequence of
    [Write] calls, [Sum(b)] returns [b] followed by the one-shot digest of the
    concatenated data, and leaves a context that hashes the next message as a
    fresh one would. *)
Theorem hash_stream_is_one_shot sz c ds b :
  length (buf c) = BUF -> bytes (buf c) -> Forall bytes ds ->
  exists c', Sum sz (Writes (Reset sz c) ds) b = (b ++ shabal sz (concat ds), c') /\
    forall ds' b', Forall bytes ds' ->
      (Sum sz (Writes c' ds') b').1 = b' ++ shabal sz (concat ds').
Proof.
  intros Hb Hby Hds.
  destruct (close_represents _ _ _ (reachable_represents sz c ds Hb Hby Hds)) as (c' & E & Hc').
  exists c'. unfold Sum. rewrite E. split; [reflexivity|]. intros ds' b' Hds'.
  destruct (close_represents _ _ _ (Writes_represents _ _ _ _ Hc' Hds')) as (c'' & E' & _).
  rewrite E'. reflexivity.
Qed.

Lemma hash_stream_is_one_shot_witness :
  exists c', Sum S256 (Writes (Reset S256 zero_context) [[97]; [98; 99]]) [7]
    = ([7] ++ shabal S256 [97; 98; 99], c') /\
    forall ds' b', Forall bytes ds' ->
      (Sum S256 (Writes c' ds') b').1 = b' ++ shabal S256 (concat ds').
Proof.
  apply (hash_stream_is_one_shot S256 zero_context [[97]; [98; 99]] [7]).
  - reflexivity.
  - apply bytes_replicate_0.
  - repeat constructor; unfold is_byte; lia.
Defined.

(** The registers always have the shape of the C struct (twelve [A]
    words, sixteen [B] and [C] words, every word within 32 bits) and the digest
    is exactly [size/8] bytes, for every supported size and message. *)
Theorem hash_shape sz c ds :
  length (buf c) = BUF -> bytes (buf c) -> Forall bytes ds ->
  let c' := Writes (Reset sz c) ds in
  words_ok (regs c') /\ length (buf c') = BUF /\ (ptr c' < BUF)%nat /\
  length (Sum sz c' []).1 = (4 * size_words sz)%nat /\ bytes (Sum sz c' []).1.
Proof.
  intros Hb Hby Hds c'. pose proof (reachable_represents sz c ds Hb Hby Hds) as Hr.
  assert (bytes (concat ds)) as Hc by (by apply Forall_concat).
  destruct (close_represents _ _ _ Hr) as (c'' & E & _).
  unfold Sum. fold c' in E, Hr. rewrite E. simpl.
  split_and!; [|apply Hr|by eapply represents_ptr|by apply length_shabal|apply emit_bytes].
  rewrite (rep_regs _ _ _ Hr). apply absorb_n_ok; [done|apply init_words_ok].
Qed.

Lemma hash_shape_witness :
  words_ok (regs (Writes (Reset S224 zero_context) [[1; 2; 3]])).
Proof.
  apply (hash_shape S224 zero_context [[1; 2; 3]]).
  - reflexivity.
  - apply bytes_replicate_0.
  - repeat constructor; unfold is_byte; lia.
Defined.
