(* ===== verification/Poc.v ===== *)
(** * Proof of capacity: cells, scoops and deadlines

    A translation of [src/poc/poc.go].  The code is written against the
    [Hasher] interface of [Shabal.v], threading the hasher object through the
    same [Write], [Sum] and [Reset] calls; a panic is [None].  [common.Hash] is
    a list of 32 bytes, following [src/common/types_template.go]. *)
From S2P Require Import Prelude Shabal.
#[local] Arguments Nat.mul : simpl never.
#[local] Arguments Nat.modulo : simpl never.

Definition HASH_SIZE : nat := 32.
Definition CELL_SIZE : nat := Z.to_nat 8192.
Definition PLOT_SIZE : nat := Z.to_nat 4096.

(** ** Fixed-size byte arrays of package common *)

(** [h.SetBytes(b)] for an [n]-byte array [h]: the right-most bytes of [b],
    right-aligned. *)
Definition SetBytes (h b : list Z) : list Z :=
  let b := if (length h <? length b)%nat then drop (length b - length h) b else b in
  take (length h - length b) h ++ b.

Definition BytesToHash (b : list Z) : list Z := SetBytes (replicate HASH_SIZE 0) b.

Lemma BytesToHash_id b : length b = 32%nat -> BytesToHash b = b.
Proof.
  intros Hb. unfold BytesToHash, SetBytes. rewrite length_replicate, Hb.
  cbn [Nat.ltb Nat.leb HASH_SIZE]. by rewrite Hb.
Qed.

(** The permutation of cells that [rearrange] applies. *)
Definition rearranged (i : nat) : nat :=
  if (i mod 2 =? 0)%nat then i else (CELL_SIZE - i)%nat.

(** The [i]-th 32-byte cell of a buffer. *)
Definition cell_at (src : list Z) (i : nat) : list Z :=
  take HASH_SIZE (drop (HASH_SIZE * i) src).

Definition rearrange (src : list Z) : option (list Z) :=
  for_up 0 CELL_SIZE (fun i res =>
    if (i mod 2 =? 0)%nat then
      s ← slice src (HASH_SIZE * i) (HASH_SIZE * (i + 1)); Some (res ++ s)
    else
      s ← slice src (HASH_SIZE * (CELL_SIZE - i)) (HASH_SIZE * (CELL_SIZE - i + 1));
      Some (res ++ s)) [].

(** The loops that xor the final hash over all cells, last cell first. *)
Definition xor_final (final cellBytes : list Z) : option (list Z) :=
  for_down CELL_SIZE (fun i cb =>
    for_up 0 HASH_SIZE (fun j cb =>
      c ← cb !! (i * HASH_SIZE + j)%nat;
      f ← final !! j;
      Some (<[(i * HASH_SIZE + j)%nat := Z.lxor c f]> cb)) cb) cellBytes.

Section Poc.
Context {H : Type} `{Hasher H}.

(** The [comBytes] prefix: big-endian plot id, then nonce. *)
Definition comBytes (nonce pub : Z) : list Z := PutUint64 pub ++ PutUint64 nonce.

(** One turn of [GenCell]'s loop. *)
Definition genCell_body (com0 : list Z) (i : nat) (st : H * list Z) : option (H * list Z) :=
  let (hasher, cellBytes) := st in
  if (i =? CELL_SIZE - 1)%nat then
    let (cell, hasher) := h_sum (h_write hasher com0) in Some (hasher, cell)
  else
    com ← (if (PLOT_SIZE <=? length cellBytes)%nat then slice cellBytes 0 PLOT_SIZE
           else Some (cellBytes ++ com0));
    let (cell, hasher) := h_sum (h_write (h_reset hasher) com) in
    Some (hasher, cell ++ cellBytes).

Definition GenCell (nonce pub : Z) : option (list Z) :=
  let com0 := comBytes nonce pub in
  '(hasher, cellBytes) ← for_down CELL_SIZE (genCell_body com0) (h_new, []);
  let com := cellBytes ++ com0 in
  let (final, _) := h_sum (h_write (h_reset hasher) com) in
  cellBytes ← xor_final final cellBytes;
  rearrange cellBytes.

(** [for j := 0; j < HASH_SIZE; j++ { cellBytes[i*HASH_SIZE+j] = cell[j] }] *)
Definition put_cell (i : nat) (cell cellBytes : list Z) : option (list Z) :=
  for_up 0 HASH_SIZE (fun j cb =>
    c ← cell !! j;
    store cb (i * HASH_SIZE + j) c) cellBytes.

Definition genCellForP_body (com0 : list Z) (i : nat) (st : H * list Z) : option (H * list Z) :=
  let (hasher, cellBytes) := st in
  if (i =? CELL_SIZE - 1)%nat then
    let (cell, hasher) := h_sum (h_write hasher com0) in
    cb ← put_cell i cell cellBytes; Some (hasher, cb)
  else
    com ← (if (i <? CELL_SIZE - 128)%nat
           then slice cellBytes ((i + 1) * HASH_SIZE) ((i + 1) * HASH_SIZE + 128 * HASH_SIZE)
           else s ← slice cellBytes ((i + 1) * HASH_SIZE) (CELL_SIZE * HASH_SIZE);
                Some (s ++ com0));
    let (cell, hasher) := h_sum (h_write (h_reset hasher) com) in
    cb ← put_cell i cell cellBytes; Some (hasher, cb).

(** The variant the plotting tool uses: a preallocated buffer, no
    [rearrange]. *)
Definition GenCellForP (nonce pub : Z) : option (list Z) :=
  let com0 := comBytes nonce pub in
  '(hasher, cellBytes) ← for_down CELL_SIZE (genCellForP_body com0)
                           (h_new, replicate (CELL_SIZE * HASH_SIZE) 0);
  let com := cellBytes ++ com0 in
  let (final, _) := h_sum (h_write (h_reset hasher) com) in
  xor_final final cellBytes.

(** A fresh hasher, one [Write], one [Sum]. *)
Definition hash_once (b : list Z) : list Z := (h_sum (h_write h_new b)).1.

Definition GenSignature (lastGenSig : list Z) (lastPubID : Z) : list Z :=
  BytesToHash (hash_once (lastGenSig ++ PutUint64 lastPubID)).

Definition GenHash (genSig : list Z) (number : Z) : list Z :=
  BytesToHash (hash_once (genSig ++ PutUint64 number)).

Definition CalcTarget (scoop_1 scoop_2 genSig : list Z) : list Z :=
  BytesToHash (hash_once ((scoop_1 ++ scoop_2) ++ genSig)).

End Poc.

(** [genHash[30] << 8] is shifted in type [byte]. *)
Definition GetScoopID (genHash : list Z) : option Z :=
  b30 ← genHash !! 30%nat;
  b31 ← genHash !! 31%nat;
  Some (Z.lor (u8 (Z.shiftl b30 8)) b31 mod 4096).

Definition CalcDeadLine (target baseTarget : Z) : option Z := big_Div target baseTarget.

(** [addr.Bytes()[15:]], then eight bytes of it. *)
Definition CalcPlotID (addr : list Z) : option Z :=
  tmp ← slice addr 15 (length addr); Uint64 tmp.

(** ** Reference definitions *)

(** The cells generated so far, last cell of the buffer first generated: the
    new cell hashes the 4096 bytes that follow it, or all the bytes that follow
    it and the prefix when there are fewer. *)
Fixpoint cells_ref {H} `{Hasher H} (com0 : list Z) (n : nat) : list Z :=
  match n with
  | O => []
  | S n' =>
      let rest := cells_ref com0 n' in
      digest (if (PLOT_SIZE <=? length rest)%nat then take PLOT_SIZE rest else rest ++ com0) ++ rest
  end.

(** Every byte xored with the byte of [final] at its offset in its cell. *)
Definition xor_ref (final l : list Z) : list Z :=
  imap (fun k c => Z.lxor c (final !!! (k mod HASH_SIZE)%nat)) l.

Definition rearrange_ref (src : list Z) : list Z :=
  concat (map (fun i => cell_at src (rearranged i)) (seq 0 CELL_SIZE)).

Lemma CELL_SIZE_Z : Z.of_nat CELL_SIZE = 8192.
Proof. reflexivity. Qed.
Lemma PLOT_SIZE_Z : Z.of_nat PLOT_SIZE = 4096.
Proof. reflexivity. Qed.
#[global] Opaque CELL_SIZE PLOT_SIZE.

Ltac sizes := pose proof CELL_SIZE_Z; pose proof PLOT_SIZE_Z; unfold HASH_SIZE in *.

(** ** The rearrangement *)

Lemma rearranged_lt i : (i < CELL_SIZE)%nat -> (rearranged i < CELL_SIZE)%nat.
Proof.
  intros. unfold rearranged. destruct (Nat.eqb_spec (i mod 2) 0) as [|E]; [done|].
  destruct i; [done|]. lia.
Qed.

Lemma CELL_SIZE_even : (CELL_SIZE mod 2 = 0)%nat.
Proof. pose proof CELL_SIZE_Z. lia. Qed.

Lemma rearranged_invol i : (i < CELL_SIZE)%nat -> rearranged (rearranged i) = i.
Proof.
  intros Hi. unfold rearranged. pose proof CELL_SIZE_even.
  destruct (Nat.eqb_spec (i mod 2) 0) as [E|E].
  - by rewrite E.
  - destruct (Nat.eqb_spec ((CELL_SIZE - i) mod 2) 0) as [E'|E']; lia.
Qed.

Lemma length_cell_at src i :
  length src = (HASH_SIZE * CELL_SIZE)%nat -> (i < CELL_SIZE)%nat ->
  length (cell_at src i) = HASH_SIZE.
Proof. intros. unfold cell_at. rewrite length_take, length_drop. sizes. lia. Qed.

Lemma rearrange_eq src :
  length src = (HASH_SIZE * CELL_SIZE)%nat -> rearrange src = Some (rearrange_ref src).
Proof.
  intros Hlen. unfold rearrange.
  edestruct (for_up_inv (fun i res =>
    res = concat (map (fun i => cell_at src (rearranged i)) (seq 0 i)))) as (s & -> & Hs);
    [| |by rewrite Hs].
  - done.
  - intros i res [_ Hi] ->. rewrite seq_S, map_app, concat_app. cbn [map concat].
    rewrite app_nil_r, Nat.add_0_l. cbn in Hi.
    assert (cell_at src (rearranged i) =
      if (i mod 2 =? 0)%nat then cell_at src i else cell_at src (CELL_SIZE - i)) as ->
      by (unfold rearranged; by destruct (i mod 2 =? 0)%nat).
    unfold cell_at. destruct (Nat.eqb_spec (i mod 2) 0) as [E|E].
    + rewrite slice_Some by (sizes; lia).
      replace (HASH_SIZE * (i + 1) - HASH_SIZE * i)%nat with HASH_SIZE by lia.
      eexists; split; reflexivity.
    + assert (0 < i)%nat by (destruct i; [done|lia]).
      rewrite slice_Some by (sizes; lia).
      replace (HASH_SIZE * (CELL_SIZE - i + 1) - HASH_SIZE * (CELL_SIZE - i))%nat
        with HASH_SIZE by lia. eexists; split; reflexivity.
Qed.

(** A concatenation of [n] cells, read back cell by cell. *)
Lemma cell_at_concat (f : nat -> list Z) n i :
  (forall k, (k < n)%nat -> length (f k) = HASH_SIZE) -> (i < n)%nat ->
  cell_at (concat (map f (seq 0 n))) i = f i.
Proof.
  intros Hf Hi. unfold cell_at.
  assert (forall a m, (forall k, (a <= k < a + m)%nat -> length (f k) = HASH_SIZE) ->
    length (concat (map f (seq a m))) = (HASH_SIZE * m)%nat) as Hlen.
  { intros a m. revert a. induction m as [|m IH]; intros a Hm; simpl; [lia|].
    rewrite length_app, Hm, IH by (intros; try apply Hm; lia). lia. }
  replace n with (i + S (n - i - 1))%nat by lia.
  rewrite seq_app, map_app, concat_app, drop_app_ge; rewrite Hlen by (intros; apply Hf; lia); [|done].
  rewrite Nat.sub_diag, drop_0. simpl. rewrite take_app_le by (rewrite Hf; lia).
  apply take_ge. rewrite Hf; lia.
Qed.

Lemma length_rearrange_ref src :
  length src = (HASH_SIZE * CELL_SIZE)%nat ->
  length (rearrange_ref src) = (HASH_SIZE * CELL_SIZE)%nat.
Proof.
  intros Hs. unfold rearrange_ref.
  assert (forall l, Forall (fun i => i < CELL_SIZE)%nat l ->
    length (concat (map (fun i => cell_at src (rearranged i)) l)) = (HASH_SIZE * length l)%nat) as Hl.
  { induction 1 as [|i l Hi Hl IH]; simpl; [lia|].
    rewrite length_app, IH, length_cell_at; auto using rearranged_lt. lia. }
  rewrite Hl, length_seq; [done|]. apply Forall_seq. lia.
Qed.

Lemma cell_at_rearrange_ref src i :
  length src = (HASH_SIZE * CELL_SIZE)%nat -> (i < CELL_SIZE)%nat ->
  cell_at (rearrange_ref src) i = cell_at src (rearranged i).
Proof.
  intros Hs Hi. unfold rearrange_ref.
  apply (cell_at_concat (fun i => cell_at src (rearranged i))); [|done].
  intros. apply length_cell_at; auto using rearranged_lt.
Qed.

(** A buffer is determined by its cells. *)
Lemma concat_cells src :
  length src = (HASH_SIZE * CELL_SIZE)%nat ->
  concat (map (cell_at src) (seq 0 CELL_SIZE)) = src.
Proof.
  intros Hs. assert (forall n, (n <= CELL_SIZE)%nat ->
    concat (map (cell_at src) (seq 0 n)) = take (HASH_SIZE * n) src) as Hn.
  { induction n as [|n IH]; intros Hn; [by rewrite Nat.mul_0_r|].
    rewrite seq_S, map_app, concat_app, IH by lia. cbn [map concat].
    rewrite app_nil_r, Nat.add_0_l. unfold cell_at.
    replace (HASH_SIZE * S n)%nat with (HASH_SIZE * n + HASH_SIZE)%nat by lia.
    by rewrite take_take_drop. }
  rewrite Hn by done. apply take_ge. lia.
Qed.

(** ** The xor loops *)

Lemma lookup_xor_ref final l k :
  xor_ref final l !! k = (fun c => Z.lxor c (final !!! (k mod HASH_SIZE)%nat)) <$> l !! k.
Proof. unfold xor_ref. by rewrite list_lookup_imap. Qed.

Lemma length_xor_ref final l : length (xor_ref final l) = length l.
Proof. apply length_imap. Qed.

Lemma xor_cell_eq i final l :
  length final = HASH_SIZE -> (HASH_SIZE * S i <= length l)%nat ->
  for_up 0 HASH_SIZE (fun j cb =>
      c ← cb !! (i * HASH_SIZE + j)%nat;
      f ← final !! j;
      Some (<[(i * HASH_SIZE + j)%nat := Z.lxor c f]> cb)) l
  = Some (update_window (i * HASH_SIZE) HASH_SIZE (fun j c => Z.lxor c (final !!! j)) l).
Proof.
  intros Hf Hl. apply for_up_update; [lia|]. intros j cb c Hj ->. simpl.
  destruct (lookup_lt_is_Some_2 final j) as [f Hfj]; [lia|].
  rewrite Hfj. simpl. by rewrite (list_lookup_total_correct _ _ _ Hfj).
Qed.

Lemma xor_final_eq final l :
  length l = (HASH_SIZE * CELL_SIZE)%nat -> length final = HASH_SIZE ->
  xor_final final l = Some (xor_ref final l).
Proof.
  intros Hl Hf. unfold xor_final.
  (* cells below [n] are untouched, cells from [n] on are done *)
  edestruct (for_down_inv (fun n cb => length cb = length l /\ forall k,
    cb !! k = if decide (HASH_SIZE * n <= k)%nat then xor_ref final l !! k else l !! k))
    as (s & -> & Hs & Hk).
  - split; [done|]. intros k. case_decide; [|done].
    rewrite lookup_xor_ref, (proj2 (lookup_ge_None l k)); [done|lia].
  - intros i cb Hi [HPl HP]. eexists. split; [apply xor_cell_eq; [done|sizes; lia]|].
    split; [by rewrite length_update_window|].
    intros k. rewrite lookup_update_window, HP, lookup_xor_ref.
    destruct (decide (HASH_SIZE * S i <= k)%nat), (decide (HASH_SIZE * i <= k)%nat);
      destruct (l !! k); simpl; try done; case_decide; try done; try (exfalso; lia).
    replace (k mod HASH_SIZE)%nat with (k - i * HASH_SIZE)%nat; [done|sizes; lia].
  - f_equal. apply list_eq. intros k. rewrite Hk. by rewrite decide_True by lia.
Qed.

Lemma put_cell_eq i cell l :
  length cell = HASH_SIZE -> (HASH_SIZE * S i <= length l)%nat ->
  put_cell i cell l = Some (take (HASH_SIZE * i) l ++ cell ++ drop (HASH_SIZE * S i) l).
Proof.
  intros Hc Hl. unfold put_cell.
  rewrite (for_up_update (i * HASH_SIZE) HASH_SIZE (fun j _ => cell !!! j)); [|lia|].
  - f_equal. apply list_eq. intros k. rewrite lookup_update_window, !lookup_app, !lookup_drop.
    rewrite length_take, Hc, Nat.min_l by lia. destruct (decide (k < HASH_SIZE * i)%nat).
    + rewrite lookup_take_lt by done. destruct (l !! k) eqn:E; simpl.
      * by rewrite decide_False by lia.
      * apply lookup_ge_None in E. lia.
    + rewrite (proj2 (lookup_ge_None (take _ _) _)) by (rewrite length_take; lia).
      destruct (l !! k) eqn:E; simpl.
      * case_decide as Hd.
        -- destruct (lookup_lt_is_Some_2 cell (k - i * HASH_SIZE)%nat) as [c Hck]; [lia|].
           rewrite (Nat.mul_comm HASH_SIZE i).
           by rewrite Hck, (list_lookup_total_correct _ _ _ Hck).
        -- rewrite (proj2 (lookup_ge_None cell _)) by lia.
           rewrite <-E. f_equal. sizes. lia.
      * apply lookup_ge_None in E.
        rewrite (proj2 (lookup_ge_None cell _)) by lia. symmetry. apply lookup_ge_None. sizes; lia.
  - intros j cb c Hj Hcb. destruct (lookup_lt_is_Some_2 cell j) as [x Hx]; [lia|].
    rewrite Hx. simpl. apply lookup_lt_Some in Hcb. rewrite store_Some by done.
    by rewrite (list_lookup_total_correct _ _ _ Hx).
Qed.

(** ** The generation loops *)

Section PocProofs.
Context {H : Type} `{Hasher H}.

(** A [Reset], [Write], [Sum] round, from any state of the hasher. *)
Lemma reset_write_sum h m d :
  h_hashed h m -> bytes d ->
  exists h', h_sum (h_write (h_reset h) d) = (digest d, h') /\ h_hashed h' [].
Proof.
  intros Hh Hd. apply (h_sum_ok (h_write (h_reset h) d) d).
  apply (h_write_ok _ []); [by eapply h_reset_ok|done].
Qed.

Lemma write_sum h d :
  h_hashed h [] -> bytes d ->
  exists h', h_sum (h_write h d) = (digest d, h') /\ h_hashed h' [].
Proof. intros Hh Hd. apply (h_sum_ok _ d). by apply (h_write_ok _ []). Qed.

Lemma hash_once_digest d : bytes d -> hash_once d = digest d.
Proof.
  intros Hd. destruct (write_sum h_new d h_new_ok Hd) as (h' & E & _).
  unfold hash_once. by rewrite E.
Qed.

Lemma comBytes_bytes nonce pub : bytes (comBytes nonce pub).
Proof. apply bytes_app. split; apply be_put_bytes. Qed.

Lemma cells_ref_bytes com0 n : bytes (cells_ref com0 n).
Proof.
  induction n; simpl; [constructor|]. apply bytes_app. split; [apply digest_bytes|done].
Qed.

(** What the next cell hashes. *)
Definition next_com (com0 rest : list Z) : list Z :=
  if (PLOT_SIZE <=? length rest)%nat then take PLOT_SIZE rest else rest ++ com0.

Lemma next_com_bytes com0 rest : bytes com0 -> bytes rest -> bytes (next_com com0 rest).
Proof.
  intros. unfold next_com. case_match; [by apply bytes_take|by apply bytes_app].
Qed.

Lemma length_cells_ref com0 n : bytes com0 -> length (cells_ref com0 n) = (HASH_SIZE * n)%nat.
Proof.
  intros Hc. induction n as [|n IH]; [done|].
  change (cells_ref com0 (S n)) with (digest (next_com com0 (cells_ref com0 n)) ++ cells_ref com0 n).
  rewrite length_app, IH, digest_length; [unfold HASH_SIZE; lia|].
  apply next_com_bytes; [done|apply cells_ref_bytes].
Qed.

Lemma cells_ref_S com0 n :
  cells_ref com0 (S n) = digest (next_com com0 (cells_ref com0 n)) ++ cells_ref com0 n.
Proof. done. Qed.

Lemma genCell_loop com0 :
  bytes com0 ->
  exists h, for_down CELL_SIZE (genCell_body com0) (h_new, []) = Some (h, cells_ref com0 CELL_SIZE)
    /\ h_hashed h [].
Proof.
  intros Hc.
  edestruct (for_down_inv (fun n (st : H * list Z) =>
    st.2 = cells_ref com0 (CELL_SIZE - n) /\ h_hashed st.1 [])) as ([h cb] & -> & Hcb & Hh).
  - rewrite Nat.sub_diag. split; [done|apply h_new_ok].
  - intros i [h cb] Hi [Hcb Hh]. simpl in Hcb, Hh. subst cb. unfold genCell_body.
    replace (CELL_SIZE - i)%nat with (S (CELL_SIZE - S i)) by lia.
    destruct (Nat.eqb_spec i (CELL_SIZE - 1)) as [->|Hne].
    + destruct (write_sum h com0 Hh Hc) as (h' & -> & Hh'). eexists. split; [done|].
      replace (CELL_SIZE - S (CELL_SIZE - 1))%nat with 0%nat by lia.
      rewrite cells_ref_S. unfold next_com. simpl.
      destruct (Nat.leb_spec PLOT_SIZE 0); [sizes; lia|]. by rewrite app_nil_r.
    + set (rest := cells_ref com0 (CELL_SIZE - S i)).
      assert (bytes rest) as Hrest by apply cells_ref_bytes.
      destruct (reset_write_sum h [] (next_com com0 rest) Hh) as (h' & E & Hh');
        [by apply next_com_bytes|].
      assert ((if (PLOT_SIZE <=? length rest)%nat then slice rest 0 PLOT_SIZE
               else Some (rest ++ com0)) = Some (next_com com0 rest)) as ->.
      { unfold next_com. destruct (Nat.leb_spec PLOT_SIZE (length rest)); [|done].
        rewrite slice_Some by lia. by rewrite Nat.sub_0_r, drop_0. }
      cbn [mbind option_bind]. rewrite E. eexists. split; [reflexivity|].
      by rewrite cells_ref_S.
  - simpl in *. rewrite Nat.sub_0_r in Hcb. subst cb. eauto.
Qed.

(** The preallocated buffer yields the same input for the next cell. *)
Lemma genCellForP_com com0 i cb rest :
  length cb = (HASH_SIZE * CELL_SIZE)%nat -> drop (HASH_SIZE * S i) cb = rest ->
  (i < CELL_SIZE)%nat -> length rest = (HASH_SIZE * (CELL_SIZE - S i))%nat ->
  (if (i <? CELL_SIZE - 128)%nat
   then slice cb ((i + 1) * HASH_SIZE) ((i + 1) * HASH_SIZE + 128 * HASH_SIZE)
   else s ← slice cb ((i + 1) * HASH_SIZE) (CELL_SIZE * HASH_SIZE); Some (s ++ com0))
  = Some (next_com com0 rest).
Proof.
  intros Hlen Hcb Hi Hrl. unfold next_com. rewrite Hrl.
  replace ((i + 1) * HASH_SIZE)%nat with (HASH_SIZE * S i)%nat by lia.
  destruct (Nat.ltb_spec i (CELL_SIZE - 128)), (Nat.leb_spec PLOT_SIZE (HASH_SIZE * (CELL_SIZE - S i)));
    try (exfalso; sizes; lia); rewrite slice_Some by (sizes; lia); rewrite Hcb.
  - do 2 f_equal. sizes. lia.
  - simpl. rewrite take_ge; [done|]. sizes. lia.
Qed.

Lemma genCellForP_loop com0 :
  bytes com0 ->
  exists h, for_down CELL_SIZE (genCellForP_body com0) (h_new, replicate (CELL_SIZE * HASH_SIZE) 0)
    = Some (h, cells_ref com0 CELL_SIZE) /\ h_hashed h [].
Proof.
  intros Hc.
  edestruct (for_down_inv (fun n (st : H * list Z) =>
    length st.2 = (HASH_SIZE * CELL_SIZE)%nat /\
    drop (HASH_SIZE * n) st.2 = cells_ref com0 (CELL_SIZE - n) /\ h_hashed st.1 []))
    as ([h cb] & -> & Hlen & Hcb & Hh).
  - cbn [fst snd]. rewrite Nat.sub_diag, length_replicate, drop_ge;
      [|rewrite length_replicate; lia]. split_and!; [lia|done|apply h_new_ok].
  - intros i [h cb] Hi (Hlen & Hcb & Hh). cbn [fst snd] in *.
    set (rest := cells_ref com0 (CELL_SIZE - S i)) in *.
    assert (bytes rest) as Hrest by apply cells_ref_bytes.
    assert (length rest = HASH_SIZE * (CELL_SIZE - S i))%nat as Hrl by (by apply length_cells_ref).
    assert (exists h', (if (i =? CELL_SIZE - 1)%nat then h_sum (h_write h com0)
        else h_sum (h_write (h_reset h) (next_com com0 rest))) = (digest (next_com com0 rest), h')
        /\ h_hashed h' []) as (h' & E & Hh').
    { destruct (Nat.eqb_spec i (CELL_SIZE - 1)) as [->|Hne].
      - replace (next_com com0 rest) with com0; [by apply write_sum|].
        unfold next_com, rest. replace (CELL_SIZE - S (CELL_SIZE - 1))%nat with 0%nat by lia.
        simpl. destruct (Nat.leb_spec PLOT_SIZE 0); [sizes; lia|done].
      - by eapply reset_write_sum, next_com_bytes. }
    set (cell := digest (next_com com0 rest)) in *.
    assert (length cell = HASH_SIZE) as Hcl by (by apply digest_length, next_com_bytes).
    exists (h', take (HASH_SIZE * i) cb ++ cell ++ rest). split.
    + unfold genCellForP_body.
      assert (put_cell i cell cb = Some (take (HASH_SIZE * i) cb ++ cell ++ rest)) as Hput.
      { rewrite put_cell_eq by (done || sizes; lia). by rewrite Hcb. }
      destruct (i =? CELL_SIZE - 1)%nat eqn:Ei; [by rewrite E, Hput|].
      rewrite (genCellForP_com com0 i cb rest) by done.
      cbn [mbind option_bind]. by rewrite E, Hput.
    + cbn [fst snd]. rewrite !length_app, length_take. split_and!; [sizes; lia| |done].
      rewrite drop_app_ge by (rewrite length_take; lia).
      rewrite length_take, Nat.min_l, Nat.sub_diag, drop_0 by (sizes; lia).
      replace (CELL_SIZE - i)%nat with (S (CELL_SIZE - S i)) by lia. by rewrite cells_ref_S.
  - cbn [fst snd] in *. rewrite Nat.mul_0_r, drop_0, Nat.sub_0_r in Hcb. subst cb. eauto.
Qed.

(** The buffer both generators agree on. *)
Definition plot_ref (nonce pub : Z) : list Z :=
  let cells := cells_ref (comBytes nonce pub) CELL_SIZE in
  xor_ref (digest (cells ++ comBytes nonce pub)) cells.

Lemma length_plot_ref nonce pub : length (plot_ref nonce pub) = (HASH_SIZE * CELL_SIZE)%nat.
Proof. unfold plot_ref. rewrite length_xor_ref. apply length_cells_ref, comBytes_bytes. Qed.

Lemma cells_com_bytes nonce pub :
  bytes (cells_ref (comBytes nonce pub) CELL_SIZE ++ comBytes nonce pub).
Proof. apply bytes_app. split; [apply cells_ref_bytes|apply comBytes_bytes]. Qed.

Lemma xor_final_plot nonce pub :
  let cells := cells_ref (comBytes nonce pub) CELL_SIZE in
  xor_final (digest (cells ++ comBytes nonce pub)) cells = Some (plot_ref nonce pub).
Proof.
  apply xor_final_eq; [apply length_cells_ref, comBytes_bytes|].
  apply digest_length, cells_com_bytes.
Qed.

Lemma GenCellForP_eq nonce pub : GenCellForP nonce pub = Some (plot_ref nonce pub).
Proof.
  unfold GenCellForP. destruct (genCellForP_loop _ (comBytes_bytes nonce pub)) as (h & E & Hh).
  rewrite E. cbn [mbind option_bind].
  destruct (reset_write_sum h [] _ Hh (cells_com_bytes nonce pub)) as (h' & -> & _).
  apply xor_final_plot.
Qed.

Lemma GenCell_eq nonce pub : GenCell nonce pub = Some (rearrange_ref (plot_ref nonce pub)).
Proof.
  unfold GenCell. destruct (genCell_loop _ (comBytes_bytes nonce pub)) as (h & E & Hh).
  rewrite E. cbn [mbind option_bind].
  destruct (reset_write_sum h [] _ Hh (cells_com_bytes nonce pub)) as (h' & -> & _).
  rewrite xor_final_plot. cbn [mbind option_bind].
  apply rearrange_eq, length_plot_ref.
Qed.

End PocProofs.

(** Two adjacent cells of a rearranged buffer: one scoop. *)
Lemma scoop_rearrange_ref src k :
  length src = (HASH_SIZE * CELL_SIZE)%nat -> (2 * k < CELL_SIZE)%nat ->
  slice (rearrange_ref src) (64 * k) (64 * k + 32) = Some (cell_at src (2 * k)) /\
  slice (rearrange_ref src) (64 * k + 32) (64 * k + 64)
    = Some (cell_at src (CELL_SIZE - (2 * k + 1))).
Proof.
  intros Hs Hk. pose proof CELL_SIZE_even.
  pose proof (length_rearrange_ref _ Hs) as Hl.
  rewrite !slice_Some by (sizes; lia).
  assert (cell_at (rearrange_ref src) (2 * k) = cell_at src (2 * k)) as <-.
  { rewrite cell_at_rearrange_ref by lia. f_equal. unfold rearranged.
    destruct (Nat.eqb_spec ((2 * k) mod 2) 0); [done|lia]. }
  assert (cell_at (rearrange_ref src) (2 * k + 1) = cell_at src (CELL_SIZE - (2 * k + 1))) as <-.
  { rewrite cell_at_rearrange_ref by lia. f_equal. unfold rearranged.
    destruct (Nat.eqb_spec ((2 * k + 1) mod 2) 0); [lia|done]. }
  unfold cell_at. split; do 2 f_equal; try (f_equal; sizes; lia); sizes; lia.
Qed.

Lemma scoop_of_byte genHash b :
  genHash !! 31%nat = Some b -> is_byte b ->
  GetScoopID genHash = Some b /\ 0 <= b < 256.
Proof.
  intros Hb Hby. unfold GetScoopID.
  destruct (lookup_lt_is_Some_2 genHash 30) as [c Hc]; [apply lookup_lt_Some in Hb; lia|].
  rewrite Hc, Hb. simpl. unfold u8.
  rewrite Z.shiftl_mul_pow2, Z.mod_mul, Z.lor_0_l by lia.
  unfold is_byte in Hby. rewrite Z.mod_small by lia. done.
Qed.

(** ** Properties *)

(** The verifier's [GenCell] and the plotter's [GenCellForP] agree.  For
    every nonce and plot id both return (no index is ever out of range), the
    verifier's buffer is the plotter's one rearranged, and its scoop [k], the
    64 bytes at [64*k], is cell [2k] followed by cell [8192-(2k+1)] of the
    plotter's buffer. *)
Theorem GenCell_refines_plot {H} `{Hasher H} nonce pub :
  exists plot cells,
    GenCellForP nonce pub = Some plot /\ GenCell nonce pub = Some cells /\
    length plot = (HASH_SIZE * CELL_SIZE)%nat /\ length cells = (HASH_SIZE * CELL_SIZE)%nat /\
    rearrange plot = Some cells /\
    forall k, (2 * k < CELL_SIZE)%nat ->
      slice cells (64 * k) (64 * k + 32) = Some (cell_at plot (2 * k)) /\
      slice cells (64 * k + 32) (64 * k + 64) = Some (cell_at plot (CELL_SIZE - (2 * k + 1))).
Proof.
  exists (plot_ref nonce pub), (rearrange_ref (plot_ref nonce pub)).
  rewrite GenCellForP_eq, GenCell_eq, rearrange_eq by apply length_plot_ref.
  split_and!; [done|done|apply length_plot_ref|apply length_rearrange_ref, length_plot_ref|done|].
  intros k Hk. apply scoop_rearrange_ref; [apply length_plot_ref|done].
Qed.

(** [rearrange] never panics on a full buffer, loses nothing, and undoes
    itself. *)
Theorem rearrange_involutive src :
  length src = (HASH_SIZE * CELL_SIZE)%nat ->
  exists r, rearrange src = Some r /\ length r = length src /\ rearrange r = Some src.
Proof.
  intros Hs. exists (rearrange_ref src). pose proof (length_rearrange_ref _ Hs) as Hr.
  rewrite !rearrange_eq by done. split_and!; [done|by rewrite Hr, Hs|]. f_equal.
  rewrite <-(concat_cells src) at 2 by done. unfold rearrange_ref at 1. f_equal.
  apply list_fmap_ext. intros ? i Hi. apply lookup_seq in Hi.
  rewrite cell_at_rearrange_ref, rearranged_invol by (try apply rearranged_lt; try done; lia).
  done.
Qed.

Lemma rearrange_involutive_witness :
  exists r, rearrange (replicate (HASH_SIZE * CELL_SIZE) 7) = Some r /\
    length r = length (replicate (HASH_SIZE * CELL_SIZE) 7) /\
    rearrange r = Some (replicate (HASH_SIZE * CELL_SIZE) 7).
Proof. apply rearrange_involutive. apply length_replicate. Defined.

(** The scoop a block selects is the last byte of its generation hash
    alone: [genHash[30] << 8] is computed in type [byte] and is always 0, so
    only the scoops 0..255 of the 4096 in a plot are ever used.  In particular
    the slice expressions that read the scoop out of a cell are in range. *)
Theorem GetScoopID_low_byte genHash b :
  genHash !! 31%nat = Some b -> is_byte b ->
  GetScoopID genHash = Some b /\ 0 <= b < 256.
Proof. apply scoop_of_byte. Qed.

Lemma GetScoopID_low_byte_witness :
  GetScoopID (replicate 30 0 ++ [255; 9]) = Some 9 /\ 0 <= 9 < 256.
Proof. apply GetScoopID_low_byte; [reflexivity|unfold is_byte; lia]. Defined.

(** [CalcPlotID] panics exactly on addresses shorter than 23 bytes; on a
    23-byte address (the hash suffix [Keccak256(pub)[9:]] that package crypto
    uses) the plot id is the big-endian value of the last eight bytes, so two
    addresses share a plot id exactly when these bytes agree. *)
Theorem CalcPlotID_spec addr :
  (CalcPlotID addr = None <-> (length addr < 23)%nat) /\
  (length addr = 23%nat -> bytes addr ->
     CalcPlotID addr = Some (be_get (drop 15 addr)) /\
     forall addr', length addr' = 23%nat -> bytes addr' ->
       CalcPlotID addr' = CalcPlotID addr <-> drop 15 addr' = drop 15 addr).
Proof.
  assert (forall a, length a = 23%nat -> CalcPlotID a = Some (be_get (drop 15 a))) as Hc.
  { intros a Ha. unfold CalcPlotID. rewrite slice_Some by lia. simpl. unfold Uint64.
    rewrite decide_True by (rewrite length_take, length_drop; lia).
    rewrite !take_ge; rewrite ?length_take, ?length_drop; done || lia. }
  split.
  - unfold CalcPlotID, slice. case_decide; simpl; [|split; [lia|done]].
    unfold Uint64. rewrite length_take, length_drop. case_decide; split; (done || lia).
  - intros Hl Hb. rewrite !Hc by done. split; [done|]. intros a Ha Hab. rewrite Hc by done.
    split; [|by intros ->]. intros [= Heq].
    apply be_get_inj; [by apply bytes_drop..| |done]. rewrite !length_drop. lia.
Qed.

Lemma CalcPlotID_spec_witness :
  length (replicate 15 0 ++ PutUint64 77) = 23%nat /\ bytes (replicate 15 0 ++ PutUint64 77) /\
  CalcPlotID (replicate 15 0 ++ PutUint64 77) = Some 77.
Proof.
  assert (length (replicate 15 0 ++ PutUint64 77) = 23%nat) as Hl by reflexivity.
  assert (bytes (replicate 15 0 ++ PutUint64 77)) as Hb
    by (apply bytes_app; split; [apply bytes_replicate_0|apply be_put_bytes]).
  split_and!; [exact Hl|exact Hb|].
  rewrite (proj1 (proj2 (CalcPlotID_spec (replicate 15 0 ++ PutUint64 77)) Hl Hb)).
  reflexivity.
Defined.
