(* ===== verification/Plot.v ===== *)
(** * The plotting tool

    [src/cmd/plot/main.go]: the producer goroutines that generate plot files
    chunk by chunk, and the consumer loop that writes the chunks.  Sizes and
    counts are Go [int64]s that are never negative and index into files, so
    they are [nat]; nonces are [uint64]. *)
From S2P Require Import Prelude Shabal Poc.
#[local] Arguments Nat.mul : simpl never.
#[local] Arguments Nat.modulo : simpl never.
#[local] Arguments Nat.div : simpl never.

(** ** Parameters *)

Record Param := mkParam {
  SingSize : Z; SingCount : Z; Count : Z; StartNonce : Z; PlotID : Z
}.

Definition int64_div (a b : Z) : option Z :=
  if decide (b = 0) then None else Some (Z.quot a b).

(** [parseParam] on the parsed sizes ([units.ParseBase2Bytes] and
    [strconv.ParseUint] have succeeded): [cellSize] is what "256KB" parses to. *)
Definition parseParam (cellSize sing total startNonce plotID : Z) : option Param :=
  singCount ← int64_div sing cellSize;
  count ← int64_div total sing;
  Some (mkParam (singCount * cellSize) singCount count startNonce plotID).

(** [createFile] fills the file with zeros in batches of [battleSize] bytes
    (what "20MB" parses to) and a remainder. *)
Definition createFile (battleSize size : nat) : list Z :=
  let battle := (size / battleSize)%nat in
  let f := Nat.iter battle (fun f => f ++ replicate battleSize 0) [] in
  let dual := (size mod battleSize)%nat in
  if (0 <? dual)%nat then f ++ replicate dual 0 else f.

(** ** Chunks *)

Definition onceHandle : nat := Z.to_nat 400.
Definition SCOOPS : nat := Z.to_nat 4096.

(** [WaitWrite] and [ChanWrite] (the file is implicit: one file at a time). *)
Record WaitWrite := mkWait { Data : list Z; Index : nat }.
Record ChanWrite := mkChan { W : list WaitWrite; Close : bool }.

(** The two inner loops filling [data] for scoop [k]. *)
Definition chunk_data (cells : list (list Z)) (once k : nat) : option (list Z) :=
  for_up 0 once (fun q data =>
    for_up 0 32 (fun r data =>
      cell ← cells !! q;
      a ← cell !! (32 * (2 * k) + r)%nat;
      data ← store data (q * 64 + r) a;
      b ← cell !! ((CELL_SIZE - (2 * k + 1)) * 32 + r)%nat;
      store data (q * 64 + 32 + r) b) data) (replicate (64 * once) 0).

Definition chunk_waits (singCount jf once : nat) (cells : list (list Z)) : option (list WaitWrite) :=
  mapM (fun k =>
    data ← chunk_data cells once k;
    Some (mkWait data (64 * singCount * k + 64 * jf * onceHandle))) (seq 0 SCOOPS).

Section Plot.
Context {H : Type} `{Hasher H}.

(** [once] calls of [GenCellForP], advancing [currentNonce]. *)
Fixpoint gen_cells (once : nat) (nonce pub : Z) : option (list (list Z) * Z) :=
  match once with
  | O => Some ([], nonce)
  | S once' =>
      cs ← GenCellForP nonce pub;
      '(rest, nonce') ← gen_cells once' (u64 (nonce + 1)) pub;
      Some (cs :: rest, nonce')
  end.

(** The [j] loop of one file: the messages sent on [chw], in order. *)
Fixpoint file_messages (singCount : nat) (pub : Z) (js : list nat) (nonce : Z) : option (list ChanWrite) :=
  match js with
  | [] => Some []
  | j :: js' =>
      let closed := (singCount / onceHandle <=? j)%nat in
      let once := if closed then (singCount mod onceHandle)%nat else onceHandle in
      if (once =? 0)%nat then Some []
      else
        '(cells, nonce') ← gen_cells once nonce pub;
        waits ← chunk_waits singCount j once cells;
        rest ← file_messages singCount pub js' nonce';
        Some (mkChan waits closed :: rest)
  end.

(** All messages of the file that starts at nonce [nonce]. *)
Definition plot_messages (singCount : nat) (pub nonce : Z) : option (list ChanWrite) :=
  file_messages singCount pub (seq 0 (singCount / onceHandle + 1)) nonce.

End Plot.

(** The consumer's [w.F.WriteAt]; writing past the end zero-fills. *)
Definition WriteAt (f : list Z) (w : WaitWrite) : list Z :=
  memcpy (f ++ replicate (Index w + length (Data w) - length f) 0) (Index w) (Data w).

(** What the consumer does with one message. *)
Definition write_message (f : list Z) (m : ChanWrite) : list Z := foldl WriteAt f (W m).

(** ** The contents of a plot file *)

Lemma SCOOPS_Z : Z.of_nat SCOOPS = 4096.
Proof. reflexivity. Qed.
Lemma onceHandle_Z : Z.of_nat onceHandle = 400.
Proof. reflexivity. Qed.
#[global] Opaque SCOOPS onceHandle.

Ltac plot_sizes := sizes; pose proof SCOOPS_Z; pose proof onceHandle_Z.

(** Byte [r] of scoop [k] of a plotter's buffer. *)
Definition plot_byte (cell : list Z) (k r : nat) : Z :=
  if decide (r < 32)%nat then cell !!! (32 * (2 * k) + r)%nat
  else cell !!! ((CELL_SIZE - (2 * k + 1)) * 32 + (r - 32))%nat.

Lemma plot_byte_lo cell k r :
  (2 * k < CELL_SIZE)%nat -> length cell = (HASH_SIZE * CELL_SIZE)%nat -> (r < 32)%nat ->
  cell !! (32 * (2 * k) + r)%nat = Some (plot_byte cell k r).
Proof.
  intros. unfold plot_byte. rewrite decide_True by done.
  apply list_lookup_lookup_total_lt. plot_sizes. lia.
Qed.

Lemma plot_byte_hi cell k r :
  (2 * k < CELL_SIZE)%nat -> length cell = (HASH_SIZE * CELL_SIZE)%nat -> (r < 32)%nat ->
  cell !! ((CELL_SIZE - (2 * k + 1)) * 32 + r)%nat = Some (plot_byte cell k (32 + r)).
Proof.
  intros. unfold plot_byte. rewrite decide_False by lia.
  replace (32 + r - 32)%nat with r by lia.
  apply list_lookup_lookup_total_lt. plot_sizes. lia.
Qed.

(** The inner loop fills the 64 bytes of nonce [q]. *)
Lemma chunk_inner (cells : list (list Z)) (cell : list Z) q k data0 :
  cells !! q = Some cell -> (2 * k < CELL_SIZE)%nat ->
  length cell = (HASH_SIZE * CELL_SIZE)%nat -> (64 * S q <= length data0)%nat ->
  exists data,
    for_up 0 32 (fun r data =>
      cell ← cells !! q;
      a ← cell !! (32 * (2 * k) + r)%nat;
      data ← store data (q * 64 + r) a;
      b ← cell !! ((CELL_SIZE - (2 * k + 1)) * 32 + r)%nat;
      store data (q * 64 + 32 + r) b) data0 = Some data /\
    length data = length data0 /\
    forall p, data !! p = if decide (64 * q <= p < 64 * S q)%nat
                          then Some (plot_byte cell k (p - 64 * q)) else data0 !! p.
Proof.
  intros Hq Hk Hc Hl. rewrite Hq.
  edestruct (for_up_inv (fun r data => (r <= 32)%nat /\ length data = length data0 /\ forall p,
    data !! p = if decide (64 * q <= p < 64 * q + r \/ 64 * q + 32 <= p < 64 * q + 32 + r)%nat
                then Some (plot_byte cell k (p - 64 * q)) else data0 !! p))
    as (data & -> & _ & Hd & Hp).
  - split_and!; [lia|done|]. intros p. by rewrite decide_False by lia.
  - intros r data Hr (_ & Hd & Hp). cbn [mbind option_bind].
    rewrite plot_byte_lo by (done || lia). cbn [mbind option_bind].
    rewrite store_Some by lia. cbn [mbind option_bind].
    rewrite plot_byte_hi by (done || lia). cbn [mbind option_bind].
    rewrite store_Some by (rewrite length_insert; lia).
    eexists. split; [reflexivity|]. rewrite !length_insert. split_and!; [lia|done|].
    intros p. rewrite !list_lookup_insert, !length_insert. repeat case_decide; try lia; rewrite ?Hp;
      repeat case_decide; try lia; try (do 2 f_equal; lia); done.
  - exists data. split_and!; [done|done|]. intros p. rewrite Hp.
    repeat case_decide; done || lia.
Qed.

Lemma chunk_data_eq (cells : list (list Z)) k :
  (2 * k < CELL_SIZE)%nat -> Forall (fun c => length c = HASH_SIZE * CELL_SIZE)%nat cells ->
  exists data, chunk_data cells (length cells) k = Some data /\
    length data = (64 * length cells)%nat /\
    forall q r, (q < length cells)%nat -> (r < 64)%nat ->
      data !! (64 * q + r)%nat = Some (plot_byte (cells !!! q) k r).
Proof.
  intros Hk Hcells. unfold chunk_data.
  edestruct (for_up_inv (fun n (data : list Z) => length data = (64 * length cells)%nat /\
    forall q r, (q < n)%nat -> (r < 64)%nat ->
      data !! (64 * q + r)%nat = Some (plot_byte (cells !!! q) k r)))
    as (data & -> & Hd & Hp); [| |by exists data].
  - split; [apply length_replicate|lia].
  - intros n data [_ Hn] (Hd & Hp).
    destruct (lookup_lt_is_Some_2 cells n) as [cell Hcell]; [lia|].
    destruct (chunk_inner cells cell n k data) as (data' & -> & Hd' & Hp'); try done; [|lia|].
    { by eapply (Forall_lookup_1 _ _ _ _ Hcells). }
    exists data'. split_and!; [done|lia|]. intros q r Hq Hr. rewrite Hp'.
    destruct (decide (q = n)) as [->|].
    + rewrite decide_True by lia. rewrite (list_lookup_total_correct _ _ _ Hcell).
      do 2 f_equal. lia.
    + rewrite decide_False by lia. apply Hp; lia.
Qed.

(** The write of scoop [k] of chunk [j]: [once] nonces from [400*j] on. *)
Definition is_wait (n : nat) (cells : nat -> list Z) (once j k : nat) (w : WaitWrite) : Prop :=
  Index w = (64 * n * k + 64 * j * onceHandle)%nat /\
  length (Data w) = (64 * once)%nat /\
  forall q r, (q < once)%nat -> (r < 64)%nat ->
    Data w !! (64 * q + r)%nat = Some (plot_byte (cells (onceHandle * j + q)%nat) k r).

Lemma chunk_waits_eq n j once cells :
  (forall q, length (cells q) = HASH_SIZE * CELL_SIZE)%nat ->
  exists ws, chunk_waits n j once (map (fun q => cells (onceHandle * j + q)%nat) (seq 0 once)) = Some ws /\
    length ws = SCOOPS /\
    forall k w, ws !! k = Some w -> is_wait n cells once j k w.
Proof.
  intros Hcells. set (cs := map _ _).
  assert (length cs = once) as Hlen by (unfold cs; by rewrite length_map, length_seq).
  destruct (chunk_waits n j once cs) as [ws|] eqn:E.
  - exists ws. apply mapM_Some_1 in E. split; [done|].
    rewrite <-(Forall2_length _ _ _ E), length_seq. split; [done|].
    intros k w Hw. destruct (Forall2_lookup_r _ _ _ _ _ E Hw) as (k' & Hk' & Ew).
    apply lookup_seq in Hk' as [-> Hk]. simpl in Ew.
    destruct (chunk_data_eq cs k) as (data & Ed & Hd & Hp); [plot_sizes; lia| |].
    { apply Forall_map, Forall_true. auto. }
    rewrite Hlen in Ed. rewrite Ed in Ew. injection Ew as <-.
    rewrite Hlen in Hd, Hp. split_and!; [done|done|]. intros q r Hq Hr. cbn [Data].
    rewrite Hp by done. do 2 f_equal. apply list_lookup_total_correct. unfold cs.
    rewrite list_lookup_fmap, lookup_seq_lt by done. done.
  - apply mapM_None_1, Exists_exists in E as (k & Hin & Ek). apply elem_of_seq in Hin.
    destruct (chunk_data_eq cs k) as (data & Ed & _); [plot_sizes; lia| |].
    { apply Forall_map, Forall_true. auto. }
    rewrite Hlen in Ed. by rewrite Ed in Ek.
Qed.

Section PlotProofs.
Context {H : Type} `{Hasher H}.

Lemma u64_range z : 0 <= u64 z < 2 ^ 64.
Proof. apply Z.mod_pos_bound. lia. Qed.

Lemma u64_add_l a b : u64 (u64 a + b) = u64 (a + b).
Proof. apply Z.add_mod_idemp_l. lia. Qed.

(** The buffer of the [q]-th nonce of a file. *)
Definition file_cells (nonce pub : Z) (q : nat) : list Z := plot_ref (u64 (nonce + Z.of_nat q)) pub.

Lemma gen_cells_eq once nonce pub a :
  gen_cells once (u64 (nonce + Z.of_nat a)) pub =
  Some (map (fun q => file_cells nonce pub (a + q)) (seq 0 once),
        u64 (nonce + Z.of_nat (a + once))).
Proof.
  revert a. induction once as [|once IH]; intros a; cbn [gen_cells].
  - by rewrite Nat.add_0_r.
  - rewrite GenCellForP_eq. cbn [mbind option_bind].
    rewrite u64_add_l. replace (nonce + Z.of_nat a + 1) with (nonce + Z.of_nat (S a)) by lia.
    rewrite IH. cbn [mbind option_bind seq map]. rewrite <-seq_shift, map_map, Nat.add_0_r.
    replace (S a + once)%nat with (a + S once)%nat by lia. do 3 f_equal.
    apply list_fmap_ext. intros. f_equal. lia.
Qed.

Definition chunk_once (n j : nat) : nat :=
  if (n / onceHandle <=? j)%nat then (n mod onceHandle)%nat else onceHandle.

Lemma file_messages_eq n pub nonce m j0 :
  (j0 + m = n / onceHandle + 1)%nat ->
  exists ms, file_messages n pub (seq j0 m) (u64 (nonce + Z.of_nat (onceHandle * j0))) = Some ms /\
    (forall w, w ∈ concat (map W ms) -> exists j k, (j0 <= j < j0 + m)%nat /\ (k < SCOOPS)%nat /\
       is_wait n (file_cells nonce pub) (chunk_once n j) j k w) /\
    (forall j k, (j0 <= j < j0 + m)%nat -> (k < SCOOPS)%nat -> chunk_once n j <> 0%nat ->
       exists w, w ∈ concat (map W ms) /\ is_wait n (file_cells nonce pub) (chunk_once n j) j k w).
Proof.
  revert j0. induction m as [|m IH]; intros j0 Hj; cbn [seq file_messages].
  - exists []. split_and!; [done| |lia]. intros w Hw. by apply not_elem_of_nil in Hw.
  - fold (chunk_once n j0). destruct (Nat.eqb_spec (chunk_once n j0) 0) as [E0|E0].
    + exists []. split_and!; [done| |].
      * intros w Hw. by apply not_elem_of_nil in Hw.
      * intros j k Hj' Hk Hne. exfalso. unfold chunk_once in *.
        destruct (Nat.leb_spec (n / onceHandle) j0); [|done].
        replace j with j0 in Hne by lia.
        destruct (Nat.leb_spec (n / onceHandle) j0); [done|lia].
    + rewrite gen_cells_eq. cbn [mbind option_bind].
      destruct (chunk_waits_eq n j0 (chunk_once n j0) (file_cells nonce pub)) as (ws & -> & Hlen & Hws).
      { intros. apply length_plot_ref. }
      cbn [mbind option_bind].
      assert (file_messages n pub (seq (S j0) m) (u64 (nonce + Z.of_nat (onceHandle * j0 + chunk_once n j0)))
        = file_messages n pub (seq (S j0) m) (u64 (nonce + Z.of_nat (onceHandle * S j0)))) as ->.
      { destruct m as [|m]; [done|]. f_equal. f_equal. unfold chunk_once.
        destruct (Nat.leb_spec (n / onceHandle) j0); lia. }
      destruct (IH (S j0)) as (ms & -> & H1 & H2); [lia|].
      exists (mkChan ws (n / onceHandle <=? j0)%nat :: ms). cbn [map concat W].
      split_and!; [done| |].
      * intros w [[k Hk]%list_elem_of_lookup_1|(j & k & ? & ?)%H1]%elem_of_app.
        -- exists j0, k. split_and!; [lia|lia| |by apply Hws]. apply lookup_lt_Some in Hk. lia.
        -- exists j, k. split; [lia|done].
      * intros j k Hj' Hk Hne. destruct (decide (j = j0)) as [->|].
        -- destruct (lookup_lt_is_Some_2 ws k) as [w Hw]; [lia|]. exists w.
           split; [apply elem_of_app; left; by eapply list_elem_of_lookup_2|by apply Hws].
        -- destruct (H2 j k) as (w & ? & ?); [lia|done..|]. exists w.
           split; [apply elem_of_app; by right|done].
Qed.

(** The layout of a file of [n] nonces: scoop-major. *)
Definition layout_byte (n : nat) (cells : nat -> list Z) (p : nat) : Z :=
  plot_byte (cells ((p mod (64 * n)) / 64)%nat) (p / (64 * n))%nat (p mod 64)%nat.

Lemma layout_pos n k q r :
  (q < n)%nat -> (r < 64)%nat ->
  let p := (64 * n * k + 64 * q + r)%nat in
  (p / (64 * n) = k /\ (p mod (64 * n)) / 64 = q /\ p mod 64 = r)%nat.
Proof.
  intros Hq Hr p.
  assert (p / (64 * n) = k)%nat as Ek by (symmetry; apply (Nat.div_unique _ _ _ (64 * q + r)); lia).
  assert (p mod (64 * n) = 64 * q + r)%nat as Em.
  { symmetry. apply (Nat.mod_unique _ _ k); lia. }
  rewrite Ek, Em. split_and!; [done| |].
  - symmetry. apply (Nat.div_unique _ _ _ r); lia.
  - symmetry. apply (Nat.mod_unique _ _ (n * k + q)); lia.
Qed.

Lemma layout_byte_at n cells k q r :
  (q < n)%nat -> (r < 64)%nat ->
  layout_byte n cells (64 * n * k + 64 * q + r) = plot_byte (cells q) k r.
Proof.
  intros Hq Hr. unfold layout_byte. by destruct (layout_pos n k q r Hq Hr) as (-> & -> & ->).
Qed.

Lemma chunk_once_bound n j q :
  (j < n / onceHandle + 1)%nat -> (q < chunk_once n j)%nat -> (onceHandle * j + q < n)%nat.
Proof.
  intros Hj Hq. unfold chunk_once in Hq. pose proof (Nat.div_mod_eq n onceHandle).
  destruct (Nat.leb_spec (n / onceHandle) j); [replace j with (n / onceHandle)%nat by lia; lia|].
  assert (onceHandle * S j <= onceHandle * (n / onceHandle))%nat
    by (apply Nat.mul_le_mono_l; lia). lia.
Qed.

Lemma chunk_of n q :
  (q < n)%nat ->
  exists j q', (j < n / onceHandle + 1)%nat /\ (q' < chunk_once n j)%nat /\ (q = onceHandle * j + q')%nat.
Proof.
  intros Hq. exists (q / onceHandle)%nat, (q mod onceHandle)%nat.
  pose proof (Nat.div_mod_eq q onceHandle) as Eq. pose proof (Nat.div_mod_eq n onceHandle) as En.
  assert (q mod onceHandle < onceHandle)%nat by (apply Nat.mod_upper_bound; pose proof onceHandle_Z; lia).
  assert (q / onceHandle <= n / onceHandle)%nat by (apply Nat.Div0.div_le_mono; lia).
  split_and!; [lia| |done]. unfold chunk_once.
  destruct (Nat.leb_spec (n / onceHandle) (q / onceHandle)); [|done].
  replace (q / onceHandle)%nat with (n / onceHandle)%nat in Eq by lia. lia.
Qed.

(** ** Writing the file *)

(** A write agrees with the intended contents [g] and stays inside. *)
Definition sound_write (g : nat -> Z) (size : nat) (w : WaitWrite) : Prop :=
  (Index w + length (Data w) <= size)%nat /\
  forall o x, Data w !! o = Some x -> x = g (Index w + o)%nat.

Lemma WriteAt_inside f w :
  (Index w + length (Data w) <= length f)%nat -> WriteAt f w = memcpy f (Index w) (Data w).
Proof.
  intros. unfold WriteAt. replace (_ - length f)%nat with 0%nat by lia.
  by rewrite app_nil_r.
Qed.

Lemma writes_sound g ws f :
  Forall (sound_write g (length f)) ws ->
  length (foldl WriteAt f ws) = length f /\
  forall p, f !! p = Some (g p) \/
    Exists (fun w => Index w <= p < Index w + length (Data w))%nat ws ->
    foldl WriteAt f ws !! p = Some (g p).
Proof.
  revert f. induction ws as [|w ws IH]; intros f Hws; simpl.
  - split; [done|]. intros p [?|Hex]; [done|by apply Exists_nil in Hex].
  - apply Forall_cons in Hws as [[Hin Hag] Hws]. rewrite WriteAt_inside by done.
    assert (length (memcpy f (Index w) (Data w)) = length f) as El by (by apply length_memcpy).
    rewrite <-El in Hws. destruct (IH _ Hws) as [Hl Hp]. split; [lia|].
    intros p Hor. apply Hp. rewrite lookup_memcpy by done.
    case_decide as Hd.
    + left. destruct (lookup_lt_is_Some_2 (Data w) (p - Index w)) as [x Hx]; [lia|].
      rewrite Hx. f_equal. rewrite (Hag _ _ Hx). f_equal. lia.
    + destruct Hor as [?|Hor]; [by left|]. right. apply Exists_cons in Hor as [?|?]; [lia|done].
Qed.

Lemma length_createFile battleSize size :
  (0 < battleSize)%nat -> createFile battleSize size = replicate size 0.
Proof.
  intros Hb. unfold createFile. pose proof (Nat.div_mod_eq size battleSize) as E.
  assert (forall n, Nat.iter n (fun f => f ++ replicate battleSize 0) [] = replicate (n * battleSize) 0) as Hi.
  { induction n as [|n IH]; [done|]. cbn [Nat.iter nat_rect]. unfold Nat.iter in IH. rewrite IH.
    rewrite <-replicate_add. f_equal. lia. }
  rewrite Hi. destruct (Nat.ltb_spec 0 (size mod battleSize)).
  - rewrite <-replicate_add. f_equal. lia.
  - f_equal. lia.
Qed.

Lemma foldl_write_message f ms : foldl write_message f ms = foldl WriteAt f (concat (map W ms)).
Proof.
  revert f. induction ms as [|m ms IH]; intros f; simpl; [done|]. by rewrite foldl_app, IH.
Qed.

(** Every write of the file is sound, and together they cover it. *)
Lemma plot_writes n pub nonce :
  0 <= nonce < 2 ^ 64 ->
  let g := layout_byte n (file_cells nonce pub) in
  exists ms, plot_messages n pub nonce = Some ms /\
    Forall (sound_write g (64 * n * SCOOPS)) (concat (map W ms)) /\
    forall p, (p < 64 * n * SCOOPS)%nat ->
      Exists (fun w => Index w <= p < Index w + length (Data w))%nat (concat (map W ms)).
Proof.
  intros Hn g. unfold plot_messages.
  destruct (file_messages_eq n pub nonce (n / onceHandle + 1) 0) as (ms & E & H1 & H2); [lia|].
  rewrite Nat.mul_0_r, Z.add_0_r in E. unfold u64 in E at 1. rewrite Z.mod_small in E by done.
  exists ms. split_and!; [done| |].
  - apply Forall_forall. intros w Hw.
    destruct (H1 w Hw) as (j & k & Hj & Hk & Hi & Hl & Hd). split.
    + rewrite Hi, Hl. destruct (decide (chunk_once n j = 0)%nat) as [E0|E0].
      * rewrite E0. destruct Hj as [_ Hj]. pose proof (Nat.div_mod_eq n onceHandle).
        assert (onceHandle * j <= onceHandle * (n / onceHandle))%nat by (apply Nat.mul_le_mono_l; lia).
        assert (n * S k <= n * SCOOPS)%nat by (apply Nat.mul_le_mono_l; lia). lia.
      * pose proof (chunk_once_bound n j (chunk_once n j - 1)).
        assert (n * S k <= n * SCOOPS)%nat by (apply Nat.mul_le_mono_l; lia). lia.
    + intros o x Ho. pose proof (lookup_lt_Some _ _ _ Ho) as Hlt. rewrite Hl in Hlt.
      assert (o = 64 * (o / 64) + o mod 64)%nat as Eo by lia.
      rewrite Eo, Hd in Ho by lia. injection Ho as <-. rewrite Hi.
      unfold g. rewrite <-(layout_byte_at n (file_cells nonce pub)).
      * f_equal. lia.
      * apply chunk_once_bound; lia.
      * lia.
  - intros p Hp. assert (0 < n)%nat by lia.
    assert (p / (64 * n) < SCOOPS)%nat by (apply Nat.Div0.div_lt_upper_bound; lia).
    pose proof (Nat.div_mod_eq p (64 * n)) as Ep.
    assert (p mod (64 * n) < 64 * n)%nat by (apply Nat.mod_upper_bound; lia).
    destruct (chunk_of n (p mod (64 * n) / 64)) as (j & q & Hj & Hq & Eq); [lia|].
    destruct (H2 j (p / (64 * n))%nat) as (w & Hw & Hi & Hl & _); [lia|done|lia|].
    apply Exists_exists. exists w. split; [done|]. rewrite Hi, Hl. lia.
Qed.

End PlotProofs.

Lemma rearranged_byte src k r :
  length src = (HASH_SIZE * CELL_SIZE)%nat -> (2 * k < CELL_SIZE)%nat -> (r < 64)%nat ->
  rearrange_ref src !! (64 * k + r)%nat = Some (plot_byte src k r).
Proof.
  intros Hs Hk Hr. destruct (scoop_rearrange_ref src k Hs Hk) as [H1 H2].
  apply slice_is_Some in H1 as [_ E1], H2 as [_ E2].
  destruct (decide (r < 32)%nat).
  - rewrite <-(plot_byte_lo src k r) by done.
    apply (f_equal (.!! r)) in E1. unfold cell_at, HASH_SIZE in E1.
    rewrite !lookup_take_drop in E1 by (sizes; lia). symmetry. etrans; [|exact E1]. f_equal; lia.
  - replace r with (32 + (r - 32))%nat at 2 by lia. rewrite <-(plot_byte_hi src k) by (done || lia).
    apply (f_equal (.!! (r - 32)%nat)) in E2. unfold cell_at, HASH_SIZE in E2.
    rewrite !lookup_take_drop in E2 by (sizes; lia). symmetry. etrans; [etrans; [|exact E2]|]; f_equal; lia.
Qed.

(** What a plot file promises its reader: the 64 bytes at [64*n*k + 64*q] are
    scoop [k] of the cells of the [q]-th nonce. *)
Definition is_plot {H} `{Hasher H} (f : list Z) (pub nonce : Z) (n : nat) : Prop :=
  length f = (64 * n * SCOOPS)%nat /\
  forall k q, (k < SCOOPS)%nat -> (q < n)%nat ->
    exists cells, GenCell (u64 (nonce + Z.of_nat q)) pub = Some cells /\
      slice f (64 * n * k + 64 * q) (64 * n * k + 64 * q + 64)
      = slice cells (64 * k) (64 * k + 64).

Lemma plotted_is_plot {H} `{Hasher H} (n battleSize : nat) pub nonce :
  0 <= nonce < 2 ^ 64 -> (0 < battleSize)%nat ->
  exists ms, plot_messages n pub nonce = Some ms /\
    forall ws, ws ≡ₚ concat (map W ms) ->
      is_plot (foldl WriteAt (createFile battleSize (64 * n * SCOOPS)) ws) pub nonce n.
Proof.
  intros Hn Hb. destruct (plot_writes n pub nonce Hn) as (ms & E & Hs & Hc).
  exists ms. split; [done|]. intros ws Hws. unfold is_plot. rewrite length_createFile by done.
  assert (length (replicate (64 * n * SCOOPS) 0) = (64 * n * SCOOPS)%nat) as El by apply length_replicate.
  destruct (writes_sound (layout_byte n (file_cells nonce pub)) ws (replicate (64 * n * SCOOPS) 0))
    as [Hlen Hget]; [rewrite El; by rewrite Hws|].
  rewrite El in Hlen. split; [done|]. intros k q Hk Hq.
  exists (rearrange_ref (file_cells nonce pub q)). split; [apply GenCell_eq|].
  assert (length (file_cells nonce pub q) = HASH_SIZE * CELL_SIZE)%nat as Hfc by apply length_plot_ref.
  assert (n * S k <= n * SCOOPS)%nat by (apply Nat.mul_le_mono_l; lia).
  rewrite !slice_Some; [|rewrite length_rearrange_ref by done; plot_sizes; lia|lia].
  f_equal. apply list_eq_same_length with 64%nat; rewrite ?length_take, ?length_drop, ?Hlen,
    ?length_rearrange_ref by done; [plot_sizes; lia|plot_sizes; lia|].
  intros i x y Hi. rewrite !lookup_take_drop by lia.
  rewrite Hget by (right; rewrite Hws; apply Hc; lia).
  rewrite layout_byte_at, rearranged_byte by (done || plot_sizes; lia). congruence.
Qed.

(** ** Properties *)

(** C32: the plotter writes the layout the miner and the verifier expect.  For
    a file of [n] nonces of plot [pub] from [nonce] on, the producer always
    completes, and whatever the order in which the consumer performs its
    writes, the 64 bytes at [64*n*k + 64*q] of the finished file are scoop [k]
    of what [GenCell] computes for the [q]-th nonce. *)
Theorem plot_file_layout {H} `{Hasher H} (n battleSize : nat) pub nonce :
  0 <= nonce < 2 ^ 64 -> (0 < battleSize)%nat ->
  exists ms, plot_messages n pub nonce = Some ms /\
    forall ws, ws ≡ₚ concat (map W ms) ->
      let f := foldl WriteAt (createFile battleSize (64 * n * SCOOPS)) ws in
      length f = (64 * n * SCOOPS)%nat /\
      forall k q, (k < SCOOPS)%nat -> (q < n)%nat ->
        exists cells, GenCell (u64 (nonce + Z.of_nat q)) pub = Some cells /\
          slice f (64 * n * k + 64 * q) (64 * n * k + 64 * q + 64)
          = slice cells (64 * k) (64 * k + 64).
Proof. apply plotted_is_plot. Qed.

Lemma plot_file_layout_witness :
  exists ms, plot_messages 401 5 314159 = Some ms /\
    forall ws, ws ≡ₚ concat (map W ms) ->
      let f := foldl WriteAt (createFile 7 (64 * 401 * SCOOPS)) ws in
      length f = (64 * 401 * SCOOPS)%nat /\
      forall k q, (k < SCOOPS)%nat -> (q < 401)%nat ->
        exists cells, GenCell (u64 (314159 + Z.of_nat q)) 5 = Some cells /\
          slice f (64 * 401 * k + 64 * q) (64 * 401 * k + 64 * q + 64)
          = slice cells (64 * k) (64 * k + 64).
Proof. apply (plot_file_layout 401 7 5 314159); lia. Defined.

(** ** The producer/consumer loop

    [loop]: [threadCount] goroutines send messages on the buffered channel
    [chw] (capacity [writeCount]) and, when they run to the end, one token on
    [chp] (capacity [threadCount]); a goroutine whose file cannot be created
    returns without sending its token.  The consumer's [select] takes from
    either channel and leaves the loop when [threadCount] tokens have come. *)
Module Loop.

Inductive worker :=
  | Running (todo : list ChanWrite)
  | Finished
  | Failed.

Record state := mkState {
  workers : list worker;
  chw : list ChanWrite;
  chp : nat;
  complete : nat;
  stopped : bool;
  written : list ChanWrite
}.

Definition writeCount : nat := 100.

Definition init (jobs : list (list ChanWrite)) : state :=
  mkState (map Running jobs) [] 0 0 false [].

Inductive step : state -> state -> Prop :=
  | step_send i m todo ws q p c o :
      ws !! i = Some (Running (m :: todo)) -> (length q < writeCount)%nat ->
      step (mkState ws q p c false o)
           (mkState (<[i := Running todo]> ws) (q ++ [m]) p c false o)
  | step_finish i ws q p c o :
      ws !! i = Some (Running []) -> (p < length ws)%nat ->
      step (mkState ws q p c false o) (mkState (<[i := Finished]> ws) q (S p) c false o)
  | step_fail i todo ws q p c o :
      ws !! i = Some (Running todo) ->
      step (mkState ws q p c false o) (mkState (<[i := Failed]> ws) q p c false o)
  | step_recv_chp ws q p c o :
      step (mkState ws q (S p) c false o)
           (mkState ws q p (S c) (S c =? length ws)%nat o)
  | step_recv_chw ws m q p c o :
      step (mkState ws (m :: q) p c false o) (mkState ws q p c false (o ++ [m])).

Definition reachable (jobs : list (list ChanWrite)) : state -> Prop := rtc step (init jobs).

Definition pending (w : worker) : list ChanWrite :=
  match w with Running todo => todo | _ => [] end.
Definition is_finished (w : worker) : bool := match w with Finished => true | _ => false end.
Definition is_failed (w : worker) : bool := match w with Failed => true | _ => false end.

Definition count (f : worker -> bool) (ws : list worker) : nat := length (List.filter f ws).

Lemma count_insert f (ws : list worker) i w w' :
  ws !! i = Some w ->
  (count f (<[i := w']> ws) + (if f w then 1 else 0) = count f ws + (if f w' then 1 else 0))%nat.
Proof.
  unfold count. revert i. induction ws as [|x ws IH]; intros [|i] Hi; simpl in *; try done.
  - injection Hi as ->. destruct (f w), (f w'); simpl; lia.
  - specialize (IH _ Hi). destruct (f x); simpl; lia.
Qed.

Lemma pending_insert (ws : list worker) i w w' l :
  ws !! i = Some w -> pending w = l ++ pending w' ->
  concat (map pending ws) ≡ₚ l ++ concat (map pending (<[i := w']> ws)).
Proof.
  revert i. induction ws as [|x ws IH]; intros [|i] Hi Hp; simpl in *; try done.
  - injection Hi as ->. by rewrite Hp, <-app_assoc.
  - rewrite (IH _ Hi Hp). by rewrite Permutation_app_swap_app.
Qed.

(** Tokens account for finished goroutines; without failures the messages
    written, queued and still to be sent are the jobs' messages. *)
Record inv (jobs : list (list ChanWrite)) (s : state) : Prop := {
  inv_len : length (workers s) = length jobs;
  inv_tokens : count is_finished (workers s) = (chp s + complete s)%nat;
  inv_msgs : count is_failed (workers s) = 0%nat ->
    written s ++ chw s ++ concat (map pending (workers s)) ≡ₚ concat jobs;
  inv_stop : stopped s = true -> complete s = length jobs;
}.

Lemma count_partition (ws : list worker) :
  (count is_finished ws + count is_failed ws <= length ws)%nat.
Proof. unfold count. induction ws as [|[] ws IH]; simpl; lia. Qed.

Lemma inv_init jobs : inv jobs (init jobs).
Proof.
  constructor; simpl; [by rewrite length_map| | |done].
  - unfold count. induction jobs; simpl; auto.
  - intros _. rewrite map_map. by rewrite map_id.
Qed.

Lemma inv_step jobs s s' : inv jobs s -> step s s' -> inv jobs s'.
Proof.
  intros [Hl Ht Hm Hs] Hstep. destruct Hstep as
    [i m todo ws q p c o Hi _|i ws q p c o Hi _|i todo ws q p c o Hi|ws q p c o|ws m q p c o];
    cbn [workers chw chp complete stopped written] in *; constructor;
    cbn [workers chw chp complete stopped written]; rewrite ?length_insert; try done.
  - pose proof (count_insert is_finished ws i _ (Running todo) Hi). simpl in *. lia.
  - pose proof (count_insert is_failed ws i _ (Running todo) Hi). simpl in *. intros Hf.
    rewrite <-Hm by lia. rewrite (pending_insert ws i _ (Running todo) [m] Hi) by done.
    by rewrite <-app_assoc.
  - pose proof (count_insert is_finished ws i _ Finished Hi). simpl in *. lia.
  - pose proof (count_insert is_failed ws i _ Finished Hi). simpl in *. intros Hf.
    rewrite <-Hm by lia. by rewrite (pending_insert ws i _ Finished [] Hi).
  - pose proof (count_insert is_finished ws i _ Failed Hi). simpl in *. lia.
  - pose proof (count_insert is_failed ws i _ Failed Hi). simpl in *. intros Hf. lia.
  - lia.
  - intros E%Nat.eqb_eq. lia.
  - intros Hf. rewrite <-Hm by done. simpl. by rewrite <-app_assoc.
Qed.

Lemma reachable_inv jobs s : reachable jobs s -> inv jobs s.
Proof.
  intros Hr. eapply rtc_preserve; [|apply inv_init|exact Hr]. apply inv_step.
Qed.

Lemma loop_accounts_core jobs s :
  reachable jobs s -> stopped s = true ->
  Forall (fun w => w = Finished) (workers s) /\ chp s = 0%nat /\
  (written s ++ chw s ≡ₚ concat jobs).
Proof.
  intros Hr Hs. destruct (reachable_inv _ _ Hr) as [Hl Ht Hm Hc].
  specialize (Hc Hs). pose proof (count_partition (workers s)) as Hp.
  assert (Forall (fun w => w = Finished) (workers s)) as Hall.
  { assert (count is_finished (workers s) = length (workers s)) as He by lia.
    clear -He. unfold count in He. induction (workers s) as [|w ws IH]; [done|].
    pose proof (List.filter_length_le is_finished ws). simpl in He.
    destruct w; simpl in He; try lia. constructor; [done|]. apply IH. lia. }
  split_and!; [done|lia|]. rewrite <-Hm by lia.
  assert (concat (map pending (workers s)) = []) as ->.
  { clear -Hall. induction Hall as [|w ws -> Hw IH]; simpl; auto. }
  by rewrite app_nil_r.
Qed.

(** What the plotter's main loop guarantees when it returns.  In every
    run of the goroutines, when the loop has stopped all goroutines have
    finished without error, and the messages written together with those still
    queued in [chw] are exactly the messages produced (in some order). *)
Theorem loop_accounts jobs s :
  reachable jobs s -> stopped s = true ->
  Forall (fun w => w = Finished) (workers s) /\ chp s = 0%nat /\
  (written s ++ chw s ≡ₚ concat jobs).
Proof. apply loop_accounts_core. Qed.

(** One thread, one message: the token overtakes the message. *)
Definition lossy_trace (m : ChanWrite) : state := mkState [Finished] [m] 0 1 true [].

Lemma lossy_reachable m : reachable [[m]] (lossy_trace m).
Proof.
  unfold reachable, init, lossy_trace. simpl.
  eapply rtc_l; [apply (step_send 0 m []); [reflexivity|unfold writeCount; simpl; lia]|].
  eapply rtc_l; [apply (step_finish 0); [reflexivity|simpl; lia]|].
  eapply rtc_l; [apply step_recv_chp|]. apply rtc_refl.
Qed.

Lemma loop_accounts_witness :
  let m := mkChan [] true in
  written (lossy_trace m) ++ chw (lossy_trace m) ≡ₚ concat [[m]].
Proof.
  apply (loop_accounts [[mkChan [] true]] (lossy_trace (mkChan [] true)));
    [apply lossy_reachable|reflexivity].
Defined.

(** The loop can return with data unwritten.  For every message there is
    a run in which the loop returns while the message is still queued: the
    [select] may take the last goroutine's token before the messages queued
    ahead of it, and nothing drains [chw] afterwards. *)
Theorem loop_can_lose_writes m :
  exists s, reachable [[m]] s /\ stopped s = true /\ written s = [] /\ chw s = [m].
Proof. exists (lossy_trace m). split; [apply lossy_reachable|done]. Qed.

(** A goroutine that fails makes the tool hang.  Once some goroutine has
    returned with an error (without sending its token), no continuation of the
    run ever leaves the loop. *)
Theorem loop_never_stops_after_failure jobs s s' :
  reachable jobs s -> Failed ∈ workers s -> rtc step s s' -> stopped s' = false.
Proof.
  intros Hr Hin Hss.
  assert (Failed ∈ workers s') as Hin'.
  { refine (rtc_preserve step (fun s => Failed ∈ workers s) s s' _ Hin Hss).
    clear. intros x y Hx Hstep.
    apply list_elem_of_lookup in Hx as [k Hk]. apply list_elem_of_lookup.
    destruct Hstep; simpl in *; exists k; try done;
      (rewrite list_lookup_insert_ne; [done|intros ->; congruence]). }
  destruct (stopped s') eqn:E; [|done]. exfalso.
  destruct (loop_accounts_core jobs s') as (Hall & _); [unfold reachable in *; by etrans|done|].
  rewrite Forall_forall in Hall. by specialize (Hall _ Hin').
Qed.

Lemma loop_never_stops_after_failure_witness :
  stopped (mkState [Failed] [] 0 0 false []) = false.
Proof.
  set (m := mkChan [] true).
  apply (loop_never_stops_after_failure [[m]] (mkState [Failed] [] 0 0 false [])).
  - unfold reachable, init. simpl. apply rtc_once. by apply (step_fail 0 [m]).
  - apply list_elem_of_here.
  - apply rtc_refl.
Defined.

End Loop.
