(* ===== verification/Types.v ===== *)
(** * Headers and blocks

    The data of [src/core/types/block.go] that consensus works on.  Hashes,
    addresses and nonces are byte lists; a [*big.Int] field is an [option Z],
    [None] being the nil pointer, and using a nil pointer panics. *)
From S2P Require Import Prelude.

Definition Hash := list Z.
Definition Address := list Z.
Definition BlockNonce := list Z.

Definition EncodeNonce (i : Z) : BlockNonce := PutUint64 i.

(** [n.Uint64()]; a nonce always has eight bytes. *)
Definition Nonce_Uint64 (n : BlockNonce) : option Z := Uint64 n.

Record Header := mkHeader {
  ParentHash : Hash;
  UncleHash : Hash;
  Coinbase : Address;
  Root : Hash;
  TxHash : Hash;
  ReceiptHash : Hash;
  Bloom : list Z;
  Difficulty : option Z;
  Number : option Z;
  GasLimit : option Z;
  GasUsed : option Z;
  Time : option Z;
  Extra : list Z;
  Nonce : BlockNonce;
  PlotID : BlockNonce;
  GenSig : Hash;
  BaseTarget : option Z;
  DeadLine : option Z;
  LastTime : option Z
}.

#[export] Instance Header_eq_dec : EqDecision Header.
Proof. solve_decision. Defined.

(** [CopyHeader] replaces a nil [Time], [Difficulty], [Number], [GasLimit] or
    [GasUsed] by zero; the proof-of-capacity fields are copied as they are. *)
Definition copy_big (x : option Z) : option Z := Some (default 0 x).

Definition CopyHeader (h : Header) : Header :=
  mkHeader (ParentHash h) (UncleHash h) (Coinbase h) (Root h) (TxHash h) (ReceiptHash h)
    (Bloom h) (copy_big (Difficulty h)) (copy_big (Number h)) (copy_big (GasLimit h))
    (copy_big (GasUsed h)) (copy_big (Time h)) (Extra h) (Nonce h) (PlotID h) (GenSig h)
    (BaseTarget h) (DeadLine h) (LastTime h).

(** A block: header, uncles and (opaque here) transactions. *)
Record Block (Tx : Type) := mkBlock {
  header : Header;
  uncles : list Header;
  transactions : list Tx
}.
Arguments mkBlock {Tx} _ _ _.
Arguments header {Tx} _.
Arguments uncles {Tx} _.
Arguments transactions {Tx} _.

Definition Block_Header {Tx} (b : Block Tx) : Header := CopyHeader (header b).

Definition WithSeal {Tx} (b : Block Tx) (h : Header) : Block Tx :=
  mkBlock h (uncles b) (transactions b).

Definition WithBody {Tx} (b : Block Tx) (txs : list Tx) (us : list Header) : Block Tx :=
  mkBlock (CopyHeader (header b)) (map CopyHeader us) txs.

(** [big.Int.Uint64]: the low 64 bits of the magnitude. *)
Definition big_Uint64 (x : Z) : Z := u64 (Z.abs x).

(** Field updates used when sealing. *)
Definition set_seal (h : Header) (nonce plotID : BlockNonce) (genSig : Hash)
    (time baseTarget deadLine : Z) : Header :=
  mkHeader (ParentHash h) (UncleHash h) (Coinbase h) (Root h) (TxHash h) (ReceiptHash h)
    (Bloom h) (Difficulty h) (Number h) (GasLimit h) (GasUsed h) (Some time) (Extra h)
    nonce plotID genSig (Some baseTarget) (Some deadLine) (LastTime h).

Definition set_difficulty (h : Header) (d : Z) : Header :=
  mkHeader (ParentHash h) (UncleHash h) (Coinbase h) (Root h) (TxHash h) (ReceiptHash h)
    (Bloom h) (Some d) (Number h) (GasLimit h) (GasUsed h) (Time h) (Extra h)
    (Nonce h) (PlotID h) (GenSig h) (BaseTarget h) (DeadLine h) (LastTime h).

(** Every pointer is set, as after decoding, and fixed-size fields have their
    sizes; an address is 23 bytes long, the length of [Keccak256(...)[9:]]. *)
Record header_wf (h : Header) : Prop := {
  wf_diff : is_Some (Difficulty h); wf_number : is_Some (Number h);
  wf_limit : is_Some (GasLimit h); wf_used : is_Some (GasUsed h);
  wf_time : is_Some (Time h); wf_base : is_Some (BaseTarget h);
  wf_dead : is_Some (DeadLine h); wf_last : is_Some (LastTime h);
  wf_nonce : length (Nonce h) = 8%nat; wf_plot : length (PlotID h) = 8%nat;
  wf_gensig : length (GenSig h) = 32%nat; wf_gensig_bytes : bytes (GenSig h);
  wf_coinbase : length (Coinbase h) = 23%nat;
}.

Lemma CopyHeader_wf h : header_wf h -> CopyHeader h = h.
Proof.
  intros []. unfold CopyHeader. destruct h; simpl in *.
  repeat match goal with H : is_Some _ |- _ => destruct H as [? ->] end. done.
Qed.
