(* ===== verification/Dnpoc.v ===== *)
(** * The proof-of-capacity consensus engine

    [src/consensus/xdnoc/dnpoc.go]: header, seal and uncle verification, the
    base-target adjustment and block rewards, as pure functions of the chain
    ([ChainReader]), the clock readings and the block.  An [error] result is
    [Err], a nil dereference, slice fault or division by zero is [Panic].
    [header_hash] stands for [Header.Hash] (keccak of the RLP encoding); every
    theorem holds for any such function. *)
From S2P Require Import Prelude Shabal Poc Types.

(** ** Constants *)

Definition initBaseTarget : Z := 5000000000000000.
Definition maxBaseTarget : Z := 999999999999999999.
Definition blockReward : Z := 10 ^ 18.
Definition maxUncles : nat := 2.
Definition MaximumExtraDataSize : Z := 32.
Definition GasLimitBoundDivisor : Z := 1024.
Definition MinGasLimit : Z := 5000.
Definition MaxBig256 : Z := 2 ^ 256 - 1.
Definition MaxBig63 : Z := 2 ^ 63 - 1.

Inductive error :=
  | ErrUnknownAncestor
  | ErrFutureBlock
  | ErrInvalidNumber
  | errExtraTooLong (len : Z)
  | errLargeBlockTime
  | errZeroBlockTime
  | errGasLimitMax (limit : Z)
  | errGasUsed (used limit : Z)
  | errGasLimit (have parent bound : Z)
  | errTooManyUncles
  | errDuplicateUncle
  | errUncleIsAncestor
  | errDanglingUncle
  | errPlotIDMismatch
  | errDeadlineCompute
  | errDeadlineNotSatisfied
  | errTimeMismatch.

(** Using a pointer. *)
Definition deref {E A} (p : option A) : outcome E A := or_panic p.

(** ** The chain as the engine sees it *)
Record ChainReader (Tx : Type) := mkChain {
  GetHeader : Hash -> Z -> option Header;
  GetHeaderByNumber : Z -> option Header;
  GetBlock : Hash -> Z -> option (Block Tx)
}.
Arguments GetHeader {Tx} _ _ _.
Arguments GetHeaderByNumber {Tx} _ _.
Arguments GetBlock {Tx} _ _ _.

(** ** Seals *)

Section Seal.
Context {H : Type} `{Hasher H}.

(** The deadline the header's nonce and plot id earn: [ntarget / baseTarget],
    from the selected scoop of the regenerated cells. *)
Definition seal_deadline {E} (gensig : Hash) (number plotID nonce baseTarget : Z) : outcome E Z :=
  let genHash := GenHash gensig number in
  scoopID ← or_panic (GetScoopID genHash);
  let scoop := Z.to_nat scoopID in
  cells ← or_panic (GenCell nonce plotID);
  scoop_1 ← or_panic (slice cells (64 * scoop) (64 * scoop + 32));
  scoop_2 ← or_panic (slice cells (64 * scoop + 32) (64 * scoop + 64));
  let target := CalcTarget scoop_1 scoop_2 gensig in
  t ← or_panic (slice target 24 (length target));
  or_panic (CalcDeadLine (be_get t) baseTarget).

Definition VerifySeal (now : Z) (h : Header) : outcome error unit :=
  let gensig := GenSig h in
  n ← deref (Number h);
  let number := big_Uint64 n in
  plotID ← or_panic (Nonce_Uint64 (PlotID h));
  nonce ← or_panic (Nonce_Uint64 (Nonce h));
  addrPlotID ← or_panic (CalcPlotID (Coinbase h));
  _ ← guard_err (negb (plotID =? addrPlotID)) errPlotIDMismatch;
  baseTarget ← deref (BaseTarget h);
  deadline ← seal_deadline gensig number plotID nonce baseTarget;
  dl ← deref (DeadLine h);
  _ ← guard_err (negb (deadline =? dl)) errDeadlineCompute;
  lastTime ← deref (LastTime h);
  thisTime ← deref (Time h);
  _ ← guard_err (negb (deadline + lastTime <? thisTime)) errDeadlineNotSatisfied;
  guard_err (u64 now <? thisTime - 15) errTimeMismatch.

(** ** Headers *)

(** [verifyHeader]; [now1] is read for the timestamp check, [now2] inside
    [VerifySeal]. *)
Definition verifyHeader (now1 now2 : Z) (h parent : Header) (uncle seal : bool) : outcome error unit :=
  _ ← guard_err (MaximumExtraDataSize <? Z.of_nat (length (Extra h)))
        (errExtraTooLong (Z.of_nat (length (Extra h))));
  time ← deref (Time h);
  _ ← (if uncle then guard_err (MaxBig256 <? time) errLargeBlockTime
       else guard_err (now1 <? time) ErrFutureBlock);
  ptime ← deref (Time parent);
  _ ← guard_err (time <=? ptime) errZeroBlockTime;
  limit ← deref (GasLimit h);
  _ ← guard_err (MaxBig63 <? limit) (errGasLimitMax limit);
  used ← deref (GasUsed h);
  _ ← guard_err (limit <? used) (errGasUsed used limit);
  plimit ← deref (GasLimit parent);
  let diff := Z.abs (plimit - limit) in
  let bound := plimit / GasLimitBoundDivisor in
  _ ← guard_err ((bound <=? diff) || (limit <? MinGasLimit)) (errGasLimit limit plimit bound);
  number ← deref (Number h);
  pnumber ← deref (Number parent);
  _ ← guard_err (negb (number - pnumber =? 1)) ErrInvalidNumber;
  if seal then VerifySeal now2 h else Ok tt.

End Seal.

(** Account balances; an absent account has balance 0. *)
Abbreviation balances := (gmap (list Z) Z).

Section Engine.
Context {H : Type} `{Hasher H}.
Context {Tx : Type}.
Context (header_hash : Header -> Hash).

Definition Block_Hash (b : Block Tx) : Hash := header_hash (header b).

Definition VerifyHeader (chain : ChainReader Tx) (now1 now2 : Z) (h : Header) (seal : bool)
    : outcome error unit :=
  n ← deref (Number h);
  let number := big_Uint64 n in
  match GetHeader chain (header_hash h) number with
  | Some _ => Ok tt
  | None =>
      match GetHeader chain (ParentHash h) (u64 (number - 1)) with
      | None => Err ErrUnknownAncestor
      | Some parent => verifyHeader now1 now2 h parent false seal
      end
  end.

(** One item of a batch; [headers[index]] out of range panics. *)
Definition verifyHeaderWorker (chain : ChainReader Tx) (now1 now2 : Z) (headers : list Header)
    (seals : list bool) (index : nat) : outcome error unit :=
  h ← or_panic (headers !! index);
  parent ← (match index with
            | O =>
                n ← deref (Number h);
                Ok (GetHeader chain (ParentHash h) (u64 (big_Uint64 n - 1)))
            | S index' =>
                p ← or_panic (headers !! index');
                Ok (if decide (header_hash p = ParentHash h) then Some p else None)
            end);
  match parent with
  | None => Err ErrUnknownAncestor
  | Some parent =>
      n ← deref (Number h);
      match GetHeader chain (header_hash h) (big_Uint64 n) with
      | Some _ => Ok tt
      | None =>
          seal ← or_panic (seals !! index);
          verifyHeader now1 now2 h parent false seal
      end
  end.

(** ** Uncles *)

(** The walk over at most [fuel] ancestors. *)
Fixpoint gather_ancestors (fuel : nat) (chain : ChainReader Tx) (parent : Hash) (number : Z)
    (ancestors : gmap (list Z) Header) (us : gset (list Z)) : gmap (list Z) Header * gset (list Z) :=
  match fuel with
  | O => (ancestors, us)
  | S fuel' =>
      match GetBlock chain parent number with
      | None => (ancestors, us)
      | Some a =>
          gather_ancestors fuel' chain (ParentHash (header a)) (u64 (number - 1))
            (<[Block_Hash a := Block_Header a]> ancestors)
            (list_to_set (map header_hash (uncles a)) ∪ us)
      end
  end.

(** The loop over the block's uncles; [clock i] is the time read while the
    seal of the [i]-th uncle is checked. *)
Fixpoint check_uncles (clock : nat -> Z) (block : Block Tx) (ancestors : gmap (list Z) Header)
    (us : gset (list Z)) (i : nat) (l : list Header) : outcome error unit :=
  match l with
  | [] => Ok tt
  | uncle :: l' =>
      let hash := header_hash uncle in
      if decide (hash ∈ us) then Err errDuplicateUncle
      else if decide (is_Some (ancestors !! hash)) then Err errUncleIsAncestor
      else match ancestors !! ParentHash uncle with
           | None => Err errDanglingUncle
           | Some p =>
               if decide (ParentHash uncle = ParentHash (header block)) then Err errDanglingUncle
               else
                 _ ← verifyHeader 0 (clock i) uncle p true true;
                 check_uncles clock block ancestors ({[hash]} ∪ us) (S i) l'
           end
  end.

Definition VerifyUncles (chain : ChainReader Tx) (clock : nat -> Z) (block : Block Tx)
    : outcome error unit :=
  if (maxUncles <? length (uncles block))%nat then Err errTooManyUncles
  else
    n ← deref (Number (header block));
    let (ancestors, us) :=
      gather_ancestors 7 chain (ParentHash (header block)) (u64 (big_Uint64 n - 1)) ∅ ∅ in
    check_uncles clock block (<[Block_Hash block := Block_Header block]> ancestors)
      ({[Block_Hash block]} ∪ us) 0 (uncles block).

(** [Prepare] fixes the difficulty to one. *)
Definition Prepare (h : Header) : Header := set_difficulty h 1.

(** [Author]. *)
Definition Author (h : Header) : Address := Coinbase h.

(** ** The base target *)

(** The four most recent headers: [for i := number-1; i > number-5; i--]. *)
Fixpoint sum_recent (chain : ChainReader Tx) (idx : list Z) (aver timeDiff : Z) : option (Z * Z) :=
  match idx with
  | [] => Some (aver, timeDiff)
  | i :: idx' =>
      h ← GetHeaderByNumber chain i;
      b ← BaseTarget h;
      d ← DeadLine h;
      sum_recent chain idx' (aver + b) (timeDiff + d)
  end.

Definition calcBaseTarget (chain : ChainReader Tx) (number : Z) : option Z :=
  if number <=? 5 then Some initBaseTarget
  else
    '(aver, timeDiff) ← sum_recent chain [number - 1; number - 2; number - 3; number - 4] 0 0;
    let aver := aver / 4 in
    let timeDiff := timeDiff / 4 in
    let newBaseTarget := aver * timeDiff / 60 in
    let newBaseTarget := if newBaseTarget <? 0 then initBaseTarget else newBaseTarget in
    let saver := aver * 9 / 10 in
    Some (if newBaseTarget <? saver then saver
          else
            let baver := aver * 11 / 10 in
            if baver <? newBaseTarget then baver else newBaseTarget).

(** ** Rewards *)

Definition AddBalance (bs : balances) (a : Address) (amount : Z) : balances :=
  <[a := default 0 (bs !! a) + amount]> bs.

(** The uncle loop: pays each uncle's miner and grows the block reward. *)
Fixpoint uncle_rewards (number : Z) (us : list Header) (reward : Z) (bs : balances)
    : option (Z * balances) :=
  match us with
  | [] => Some (reward, bs)
  | uncle :: us' =>
      un ← Number uncle;
      let r := (un + 8 - number) * blockReward / 8 in
      uncle_rewards number us' (reward + blockReward / 32) (AddBalance bs (Coinbase uncle) r)
  end.

Definition PocRewards (bs : balances) (h : Header) (us : list Header) : option balances :=
  let reward := blockReward * 15 / 2 in
  match us with
  | [] => Some (AddBalance bs (Coinbase h) reward)
  | _ =>
      number ← Number h;
      '(reward, bs) ← uncle_rewards number us reward bs;
      Some (AddBalance bs (Coinbase h) reward)
  end.

End Engine.

(** ** What a seal proves *)

(** The value of a pointer field that is set. *)
Definition val (p : option Z) : Z := default 0 p.

Lemma deref_some {E} (p : option Z) : is_Some p -> @deref E Z p = Ok (val p).
Proof. by intros [x ->]. Qed.

Lemma xor_ref_bytes final l : bytes final -> bytes l -> bytes (xor_ref final l).
Proof.
  intros Hf Hl. apply Forall_lookup. intros k x. rewrite lookup_xor_ref.
  destruct (l !! k) as [c|] eqn:E; simpl; [|done]. intros [= <-].
  apply lxor_byte; [by eapply (Forall_lookup_1 _ _ _ _ Hl)|by apply lookup_total_byte].
Qed.

Lemma cell_at_bytes src i : bytes src -> bytes (cell_at src i).
Proof. intros. by apply bytes_take, bytes_drop. Qed.

#[global] Opaque GenCell.

Section SealProofs.
Context {H : Type} `{Hasher H}.

Lemma plot_ref_bytes nonce pub : bytes (plot_ref nonce pub).
Proof. apply xor_ref_bytes; [apply digest_bytes|apply cells_ref_bytes]. Qed.

Lemma BytesToHash_digest b : bytes b -> BytesToHash (hash_once b) = digest b.
Proof.
  intros Hb. rewrite hash_once_digest by done. by apply BytesToHash_id, digest_length.
Qed.

(** Scoop [k] of a plot: 64 bytes. *)
Definition scoop_of (plot : list Z) (k : nat) : list Z :=
  cell_at plot (2 * k) ++ cell_at plot (CELL_SIZE - (2 * k + 1)).

(** The generation hash of a block, and the last byte of it. *)
Definition gen_hash (gensig : Hash) (number : Z) : list Z := digest (gensig ++ PutUint64 number).

(** The 64-bit number a nonce achieves. *)
Definition seal_target (gensig : Hash) (number plotID nonce : Z) : Z :=
  let k := Z.to_nat (gen_hash gensig number !!! 31%nat) in
  be_get (drop 24 (digest (scoop_of (plot_ref nonce plotID) k ++ gensig))).

Lemma seal_target_range gensig number plotID nonce :
  bytes gensig -> 0 <= seal_target gensig number plotID nonce < 2 ^ 64.
Proof.
  intros Hg. unfold seal_target. set (d := digest _).
  assert (length d = 32%nat) as Hd.
  { apply digest_length, bytes_app. split; [|done]. apply bytes_app.
    split; apply cell_at_bytes, plot_ref_bytes. }
  pose proof (be_get_bound (drop 24 d)) as Hb. rewrite length_drop, Hd in Hb.
  apply Hb, bytes_drop, digest_bytes.
Qed.

(** What both sides of the protocol compute from the selected scoop. *)
Lemma seal_target_scoop gensig number :
  bytes gensig ->
  exists k, GetScoopID (GenHash gensig number) = Some (Z.of_nat k) /\ (k < 256)%nat /\
    forall plotID nonce, exists s1 s2,
      let cells := rearrange_ref (plot_ref nonce plotID) in
      slice cells (64 * k) (64 * k + 32) = Some s1 /\
      slice cells (64 * k + 32) (64 * k + 64) = Some s2 /\
      slice (CalcTarget s1 s2 gensig) 24 (length (CalcTarget s1 s2 gensig))
      = Some (drop 24 (CalcTarget s1 s2 gensig)) /\
      be_get (drop 24 (CalcTarget s1 s2 gensig)) = seal_target gensig number plotID nonce.
Proof.
  intros Hg.
  assert (bytes (gensig ++ PutUint64 number)) as Hgn by (apply bytes_app; split; [done|apply be_put_bytes]).
  assert (GenHash gensig number = gen_hash gensig number) as ->
    by (unfold GenHash; by rewrite BytesToHash_digest).
  assert (length (gen_hash gensig number) = 32%nat) as Hlen by (by apply digest_length).
  destruct (lookup_lt_is_Some_2 (gen_hash gensig number) 31) as [b Hb]; [lia|].
  assert (is_byte b) as Hbb by (eapply Forall_lookup_1; [apply digest_bytes|exact Hb]).
  destruct (scoop_of_byte _ _ Hb Hbb) as [-> Hr]. exists (Z.to_nat b).
  unfold is_byte in Hbb. split; [f_equal; lia|]. split; [lia|]. intros plotID nonce.
  destruct (scoop_rearrange_ref (plot_ref nonce plotID) (Z.to_nat b)) as [E1 E2];
    [apply length_plot_ref|sizes; lia|].
  eexists _, _. cbv zeta. split; [exact E1|]. split; [exact E2|].
  unfold seal_target. rewrite (list_lookup_total_correct _ _ _ Hb).
  set (sc := scoop_of (plot_ref nonce plotID) (Z.to_nat b)).
  assert (bytes (sc ++ gensig)) as Hsc.
  { apply bytes_app. split; [|done]. apply bytes_app. split; apply cell_at_bytes, plot_ref_bytes. }
  assert (CalcTarget (cell_at (plot_ref nonce plotID) (2 * Z.to_nat b))
    (cell_at (plot_ref nonce plotID) (CELL_SIZE - (2 * Z.to_nat b + 1))) gensig = digest (sc ++ gensig))
    as -> by (unfold CalcTarget; by rewrite BytesToHash_digest).
  rewrite slice_Some by (rewrite digest_length by done; lia). split; [|reflexivity].
  rewrite take_ge; [reflexivity|]. rewrite length_drop. lia.
Qed.

Lemma seal_deadline_eq {E} gensig number plotID nonce bt :
  bytes gensig ->
  seal_deadline (E:=E) gensig number plotID nonce bt
  = or_panic (CalcDeadLine (seal_target gensig number plotID nonce) bt).
Proof.
  intros Hg. unfold seal_deadline. cbv zeta.
  destruct (seal_target_scoop gensig number Hg) as (k & -> & Hk & Hs).
  destruct (Hs plotID nonce) as (s1 & s2 & E1 & E2 & E3 & <-). cbv zeta in E1, E2.
  rewrite or_panic_bind, Nat2Z.id, GenCell_eq, or_panic_bind, E1, or_panic_bind, E2, or_panic_bind.
  by rewrite E3, or_panic_bind.
Qed.


(** The whole header is well formed and its base target positive. *)
Definition seal_wf (h : Header) : Prop := header_wf h /\ 0 < val (BaseTarget h).

Lemma Uint64_8 l : length l = 8%nat -> Uint64 l = Some (be_get l).
Proof.
  intros Hl. unfold Uint64. rewrite decide_True by lia. by rewrite take_ge by lia.
Qed.

Lemma CalcPlotID_23 a : length a = 23%nat -> CalcPlotID a = Some (be_get (drop 15 a)).
Proof.
  intros Ha. unfold CalcPlotID. rewrite slice_Some, some_bind by lia.
  rewrite take_ge by (rewrite length_drop; lia). apply Uint64_8. rewrite length_drop. lia.
Qed.

(** The target of a header's own nonce and plot id. *)
Definition header_target (h : Header) : Z :=
  seal_target (GenSig h) (big_Uint64 (val (Number h))) (be_get (PlotID h)) (be_get (Nonce h)).

(** [VerifySeal] as a sequence of tests, for a header without nil fields. *)
Lemma VerifySeal_unfold now h :
  header_wf h ->
  VerifySeal now h =
    (_ ← guard_err (negb (be_get (PlotID h) =? be_get (drop 15 (Coinbase h)))) errPlotIDMismatch;
     deadline ← or_panic (CalcDeadLine (header_target h) (val (BaseTarget h)));
     _ ← guard_err (negb (deadline =? val (DeadLine h))) errDeadlineCompute;
     _ ← guard_err (negb (deadline + val (LastTime h) <? val (Time h))) errDeadlineNotSatisfied;
     guard_err (u64 now <? val (Time h) - 15) errTimeMismatch).
Proof.
  intros []. unfold VerifySeal, Nonce_Uint64. cbv zeta.
  rewrite (deref_some (Number h)), (deref_some (BaseTarget h)), (deref_some (DeadLine h)),
    (deref_some (LastTime h)), (deref_some (Time h)) by done.
  rewrite !Uint64_8, CalcPlotID_23 by done. autorewrite with outcome.
  destruct (be_get (PlotID h) =? _); [|done]. cbn [negb]. autorewrite with outcome.
  rewrite seal_deadline_eq by done. fold (header_target h).
  destruct (CalcDeadLine _ _) as [d|]; [|done]. by autorewrite with outcome.
Qed.

End SealProofs.

(** ** Properties of seals and headers *)

(** C1: exactly which seals are accepted.  A header with all fields set and a
    positive base target never makes [VerifySeal] panic, and it is accepted
    exactly when its plot id is that of its coinbase, the claimed deadline is
    the one its nonce earns, the deadline had passed since [LastTime] at the
    block's time, and the block's time is at most 15 seconds ahead. *)
Theorem VerifySeal_iff {H} `{Hasher H} now h :
  header_wf h -> 0 < val (BaseTarget h) ->
  VerifySeal now h <> Panic /\
  (VerifySeal now h = Ok tt <->
     be_get (PlotID h) = be_get (drop 15 (Coinbase h)) /\
     val (DeadLine h) = header_target h / val (BaseTarget h) /\
     val (DeadLine h) + val (LastTime h) < val (Time h) /\
     val (Time h) - 15 <= u64 now).
Proof.
  intros Hwf Hbt. rewrite VerifySeal_unfold by done.
  unfold CalcDeadLine. rewrite big_Div_pos by done. autorewrite with outcome.
  unfold guard_err.
  destruct (Z.eqb_spec (be_get (PlotID h)) (be_get (drop 15 (Coinbase h))));
    cbn [negb mbind outcome_bind]; [|naive_solver].
  destruct (Z.eqb_spec (header_target h / val (BaseTarget h)) (val (DeadLine h))) as [<-|];
    cbn [negb mbind outcome_bind]; [|naive_solver].
  destruct (Z.ltb_spec (header_target h / val (BaseTarget h) + val (LastTime h)) (val (Time h)));
    cbn [negb mbind outcome_bind]; [|split; [done|split; [done|lia]]].
  destruct (Z.ltb_spec (u64 now) (val (Time h) - 15)); split; try done; split; (done || lia).
Qed.

(** A small concrete header, for the witnesses below. *)
Definition sample_header (base dead last time : Z) : Header :=
  mkHeader (replicate 32 1) (replicate 32 2) (replicate 15 9 ++ PutUint64 77) (replicate 32 3)
    (replicate 32 4) (replicate 32 5) [] (Some 1) (Some 8) (Some 5000) (Some 0) (Some time) []
    (PutUint64 12) (PutUint64 77) (replicate 32 6) (Some base) (Some dead) (Some last).

Lemma sample_header_wf base dead last time : header_wf (sample_header base dead last time).
Proof.
  constructor; try reflexivity; try (eexists; reflexivity).
  apply Forall_replicate. unfold is_byte. lia.
Qed.

Lemma VerifySeal_iff_witness : VerifySeal 100 (sample_header 7 0 10 20) <> Panic.
Proof.
  apply (VerifySeal_iff 100 (sample_header 7 0 10 20)); [apply sample_header_wf|reflexivity].
Defined.

(** A header with base target zero crashes the verifier.  The base target
    is taken from the header and divided by without a check, so any otherwise
    well-formed header with [BaseTarget = 0] and the plot id of its own coinbase
    makes [VerifySeal] panic. *)
Theorem VerifySeal_zero_base_panics {H} `{Hasher H} now h :
  header_wf h -> BaseTarget h = Some 0 ->
  be_get (PlotID h) = be_get (drop 15 (Coinbase h)) ->
  VerifySeal now h = Panic.
Proof.
  intros Hwf Hb Hp. rewrite VerifySeal_unfold by done. rewrite Hb, Hp, Z.eqb_refl.
  reflexivity.
Qed.

Lemma VerifySeal_zero_base_panics_witness : VerifySeal 100 (sample_header 0 0 10 20) = Panic.
Proof.
  apply VerifySeal_zero_base_panics; [apply sample_header_wf|reflexivity|reflexivity].
Defined.

(** The header [h] with its proof-of-capacity claims replaced. *)
Definition forge (h : Header) : Header :=
  mkHeader (ParentHash h) (UncleHash h) (Coinbase h) (Root h) (TxHash h) (ReceiptHash h)
    (Bloom h) (Difficulty h) (Number h) (GasLimit h) (GasUsed h) (Time h) (Extra h)
    (Nonce h) (PlotID h) (GenSig h) (Some (2 ^ 64)) (Some 0) (Some (val (Time h) - 1)).

Lemma forge_accepted {H} `{Hasher H} now h :
  header_wf h -> be_get (PlotID h) = be_get (drop 15 (Coinbase h)) ->
  val (Time h) - 15 <= u64 now ->
  VerifySeal now (forge h) = Ok tt.
Proof.
  intros Hwf Hp Ht.
  assert (header_wf (forge h)) as Hwf' by (destruct Hwf; constructor; done || by eexists).
  rewrite VerifySeal_unfold by done. unfold CalcDeadLine.
  rewrite big_Div_pos by (cbn; lia). autorewrite with outcome.
  assert (header_target (forge h) / val (BaseTarget (forge h)) = 0) as ->.
  { apply Z.div_small, seal_target_range, Hwf. }
  change (PlotID (forge h)) with (PlotID h). change (Coinbase (forge h)) with (Coinbase h).
  rewrite Hp, (Z.eqb_refl (be_get _)). cbn [forge DeadLine LastTime Time]. set (t := val (Time h)) in *.
  cbn [negb Z.eqb guard_err mbind outcome_bind val default from_option id].
  replace (0 + (t - 1) <? t) with true by lia. cbn [negb guard_err mbind outcome_bind].
  by replace (u64 now <? t - 15) with false by lia.
Qed.

(** Seals can be forged without a plot.  Nothing ties [BaseTarget] and
    [LastTime] of a header to its parent, so every well-formed header with the
    plot id of its coinbase and a time that is not ahead of the clock, whatever
    its nonce and generation signature, passes [VerifySeal] after setting
    [BaseTarget] to 2^64, [DeadLine] to 0 and [LastTime] to [Time - 1]. *)
Theorem VerifySeal_forgeable {H} `{Hasher H} now h :
  header_wf h -> be_get (PlotID h) = be_get (drop 15 (Coinbase h)) ->
  val (Time h) - 15 <= u64 now ->
  VerifySeal now (forge h) = Ok tt.
Proof. apply forge_accepted. Qed.

Lemma VerifySeal_forgeable_witness : VerifySeal 100 (forge (sample_header 7 3 10 20)) = Ok tt.
Proof.
  apply VerifySeal_forgeable; [apply sample_header_wf|reflexivity|cbv; discriminate].
Defined.

(** C36: exactly which headers are accepted against a parent.  For headers
    without nil fields, [verifyHeader] accepts exactly when the extra data is
    at most 32 bytes, the time is after the parent's (and not in the future, or
    within 256 bits for an uncle), the gas limit is below 2^63, at least 5000
    and within a 1024th of the parent's, the gas used is within it, the number
    is the parent's successor and, if asked for, the seal verifies. *)
Theorem verifyHeader_iff {H} `{Hasher H} now1 now2 h p uncle seal :
  header_wf h -> header_wf p ->
  verifyHeader now1 now2 h p uncle seal = Ok tt <->
  Z.of_nat (length (Extra h)) <= 32 /\
  val (Time p) < val (Time h) /\
  (if uncle then val (Time h) < 2 ^ 256 else val (Time h) <= now1) /\
  val (GasLimit h) < 2 ^ 63 /\ val (GasUsed h) <= val (GasLimit h) /\
  Z.abs (val (GasLimit p) - val (GasLimit h)) < val (GasLimit p) / 1024 /\
  5000 <= val (GasLimit h) /\
  val (Number h) = val (Number p) + 1 /\
  (seal = true -> VerifySeal now2 h = Ok tt).
Proof.
  intros Hh Hp. destruct Hh, Hp. unfold verifyHeader. cbv zeta.
  rewrite !deref_some by done. autorewrite with outcome.
  unfold MaximumExtraDataSize, MaxBig256, MaxBig63, MinGasLimit, GasLimitBoundDivisor.
  split.
  - intros E.
    repeat (rewrite outcome_bind_ok in E; let G := fresh "G" in destruct E as (? & G & E)).
    assert (if uncle then val (Time h) < 2 ^ 256 else val (Time h) <= now1) as Ht.
    { destruct uncle;
        match goal with G : guard_err _ ?e = Ok _ |- _ =>
          match e with errLargeBlockTime => idtac | ErrFutureBlock => idtac end;
          apply guard_err_ok in G; lia end. }
    repeat match goal with G : guard_err _ _ = Ok _ |- _ => apply guard_err_ok in G end.
    split_and!; try lia; [done|]. by intros ->.
  - intros (H1 & H2 & H3 & H4 & H5 & H6 & H7 & H8 & H9).
    replace (32 <? Z.of_nat (length (Extra h))) with false by lia.
    replace (val (Time h) <=? val (Time p)) with false by lia.
    replace (2 ^ 63 - 1 <? val (GasLimit h)) with false by lia.
    replace (val (GasLimit h) <? val (GasUsed h)) with false by lia.
    replace ((val (GasLimit p) / 1024 <=? Z.abs (val (GasLimit p) - val (GasLimit h)))
      || (val (GasLimit h) <? 5000)) with false by lia.
    replace (val (Number h) - val (Number p) =? 1) with true by lia.
    assert ((if uncle then guard_err (2 ^ 256 - 1 <? val (Time h)) errLargeBlockTime
             else guard_err (now1 <? val (Time h)) ErrFutureBlock) = Ok tt) as ->.
    { destruct uncle; apply guard_err_ok; lia. }
    destruct seal; [|done]. rewrite (H9 eq_refl). done.
Qed.

Lemma verifyHeader_iff_witness :
  let h := sample_header 7 3 10 20 in
  let p := mkHeader [] [] (replicate 23 0) [] [] [] [] (Some 1) (Some 7) (Some 5100) (Some 0)
             (Some 19) [] (PutUint64 0) (PutUint64 0) (replicate 32 0) (Some 1) (Some 1) (Some 1) in
  verifyHeader 100 100 h p true false = Err (errGasLimit 5000 5100 4) /\
  ~ (verifyHeader 100 100 h p true false = Ok tt).
Proof.
  intros h p. split; [reflexivity|].
  assert (header_wf p) as Hp.
  { constructor; try reflexivity; try (eexists; reflexivity). apply bytes_replicate_0. }
  rewrite (verifyHeader_iff 100 100 h p true false (sample_header_wf 7 3 10 20) Hp).
  intros (_ & _ & _ & _ & _ & Hd & _). by cbv in Hd.
Defined.

(** ** The base target and rewards *)

(** The base target moves slowly.  From block 6 on, when the four
    preceding headers are on the chain with base targets [b 1..4] and deadlines
    [d 1..4], [calcBaseTarget] does not panic and returns the average base
    target scaled by average deadline over 60, clamped between 9/10 and 11/10
    of the average; it stays positive as long as the average is at least 2. *)
Theorem calcBaseTarget_clamped {Tx} (chain : ChainReader Tx) number (b d : Z -> Z) :
  5 < number ->
  (forall i, 1 <= i <= 4 -> 0 <= b i /\ 0 <= d i /\ exists h,
     GetHeaderByNumber chain (number - i) = Some h /\
     BaseTarget h = Some (b i) /\ DeadLine h = Some (d i)) ->
  let aver := (b 1 + b 2 + b 3 + b 4) / 4 in
  let timeDiff := (d 1 + d 2 + d 3 + d 4) / 4 in
  exists t, calcBaseTarget chain number = Some t /\
    t = Z.max (aver * 9 / 10) (Z.min (aver * 11 / 10) (aver * timeDiff / 60)) /\
    aver * 9 / 10 <= t <= aver * 11 / 10 /\
    (2 <= aver -> 0 < t).
Proof.
  intros Hn Hrec aver timeDiff.
  destruct (Hrec 1) as (Hb1 & Hd1 & h1 & E1 & B1 & D1); [lia|].
  destruct (Hrec 2) as (Hb2 & Hd2 & h2 & E2 & B2 & D2); [lia|].
  destruct (Hrec 3) as (Hb3 & Hd3 & h3 & E3 & B3 & D3); [lia|].
  destruct (Hrec 4) as (Hb4 & Hd4 & h4 & E4 & B4 & D4); [lia|].
  unfold calcBaseTarget. replace (number <=? 5) with false by lia.
  unfold sum_recent. rewrite E1, some_bind, B1, some_bind, D1, some_bind.
  rewrite E2, some_bind, B2, some_bind, D2, some_bind.
  rewrite E3, some_bind, B3, some_bind, D3, some_bind.
  rewrite E4, some_bind, B4, some_bind, D4, some_bind, some_bind. cbv zeta. rewrite !Z.add_0_l.
  fold aver timeDiff. assert (0 <= aver) by (unfold aver; lia).
  assert (0 <= timeDiff) by (unfold timeDiff; lia).
  assert (0 <= aver * timeDiff / 60) by (apply Z.div_pos; nia).
  replace (aver * timeDiff / 60 <? 0) with false by lia.
  set (new := aver * timeDiff / 60) in *. clearbody new aver.
  eexists. split; [reflexivity|].
  destruct (Z.ltb_spec new (aver * 9 / 10)), (Z.ltb_spec (aver * 11 / 10) new); split_and!; lia.
Qed.

Lemma calcBaseTarget_clamped_witness :
  let chain := mkChain nat (fun _ _ => None)
                 (fun _ => Some (sample_header 1000 66 10 20)) (fun _ _ => None) in
  exists t, calcBaseTarget chain 10 = Some t /\
    t = Z.max (1000 * 9 / 10) (Z.min (1000 * 11 / 10) (1000 * 66 / 60)) /\
    1000 * 9 / 10 <= t <= 1000 * 11 / 10 /\ (2 <= 1000 -> 0 < t).
Proof.
  intros chain. apply (calcBaseTarget_clamped chain 10 (fun _ => 1000) (fun _ => 66)).
  - reflexivity.
  - intros i _. split_and!; [lia|lia|]. eexists. split_and!; reflexivity.
Defined.

(** The sum of all balances. *)
Definition total (bs : balances) : Z := map_fold (fun _ v acc => v + acc) 0 bs.

Lemma total_insert_None bs a v : bs !! a = None -> total (<[a := v]> bs) = v + total bs.
Proof. intros. unfold total. apply map_fold_insert_L; [intros; lia|done]. Qed.

Lemma total_AddBalance bs a v : total (AddBalance bs a v) = total bs + v.
Proof.
  unfold AddBalance. destruct (bs !! a) as [x|] eqn:E; simpl.
  - rewrite <-(insert_delete_eq bs), total_insert_None by apply lookup_delete_eq.
    rewrite <-(insert_id _ _ _ E) at 2. rewrite <-insert_delete_eq.
    rewrite total_insert_None by apply lookup_delete_eq. lia.
  - rewrite total_insert_None by done. lia.
Qed.

(** What the uncles' miners get. *)
Definition uncle_sum (number : Z) (us : list Header) : Z :=
  foldr (fun u acc => (val (Number u) + 8 - number) * blockReward / 8 + acc) 0 us.

Lemma uncle_rewards_eq number us reward bs :
  Forall (fun u => is_Some (Number u)) us ->
  exists bs', uncle_rewards number us reward bs
      = Some (reward + Z.of_nat (length us) * (blockReward / 32), bs') /\
    total bs' = total bs + uncle_sum number us /\
    forall a, a ∉ map Coinbase us -> bs' !! a = bs !! a.
Proof.
  intros Hus. revert reward bs. induction Hus as [|u us [n Hn] Hus IH]; intros reward bs.
  - exists bs. simpl. split_and!; [by rewrite Z.add_0_r|lia|done].
  - cbn [uncle_rewards]. rewrite Hn, some_bind.
    destruct (IH (reward + blockReward / 32)
      (AddBalance bs (Coinbase u) ((n + 8 - number) * blockReward / 8))) as (bs' & -> & Ht & Ho).
    exists bs'. split_and!.
    + do 2 f_equal. simpl length. lia.
    + rewrite Ht, total_AddBalance. cbn [uncle_sum foldr]. rewrite Hn. simpl val.
      unfold uncle_sum. lia.
    + cbn [map]. intros a Ha. rewrite not_elem_of_cons in Ha. destruct Ha as [Hne Ha].
      rewrite Ho by done. unfold AddBalance. by rewrite lookup_insert_ne.
Qed.

(** Exactly what a block mints.  [PocRewards] increases the sum of all
    balances by 7.5 coins for the miner, a 32nd of a coin per uncle, and
    [(uncle number + 8 - number)/8] coins for each uncle's miner; accounts other
    than the coinbases involved keep their balance. *)
Theorem PocRewards_mints bs h us :
  is_Some (Number h) -> Forall (fun u => is_Some (Number u)) us ->
  exists bs', PocRewards bs h us = Some bs' /\
    total bs' = total bs + 7500000000000000000 + Z.of_nat (length us) * 31250000000000000
      + uncle_sum (val (Number h)) us /\
    forall a, a <> Coinbase h -> a ∉ map Coinbase us -> bs' !! a = bs !! a.
Proof.
  intros [n Hn] Hus. destruct us as [|u us].
  - eexists. split; [reflexivity|]. rewrite total_AddBalance.
    change (blockReward * 15 / 2) with 7500000000000000000. split; [simpl; lia|].
    intros a Ha _. unfold AddBalance. by rewrite lookup_insert_ne.
  - unfold PocRewards. rewrite Hn, some_bind.
    destruct (uncle_rewards_eq n (u :: us) (blockReward * 15 / 2) bs Hus) as (bs' & -> & Ht & Ho).
    rewrite some_bind. eexists. split; [reflexivity|]. rewrite total_AddBalance, Ht. simpl val. split.
    + change (blockReward * 15 / 2) with 7500000000000000000.
      change (blockReward / 32) with 31250000000000000. lia.
    + intros a Ha Hin. unfold AddBalance. rewrite lookup_insert_ne by done. by apply Ho.
Qed.

Lemma PocRewards_mints_witness :
  exists bs', PocRewards ∅ (sample_header 1 1 1 1) [sample_header 1 1 1 1] = Some bs' /\
    total bs' = total ∅ + 7500000000000000000 + 1 * 31250000000000000
      + uncle_sum 8 [sample_header 1 1 1 1] /\
    forall a, a <> Coinbase (sample_header 1 1 1 1) ->
      a ∉ map Coinbase [sample_header 1 1 1 1] -> bs' !! a = (∅ : balances) !! a.
Proof.
  apply (PocRewards_mints ∅ (sample_header 1 1 1 1) [sample_header 1 1 1 1]).
  - eexists; reflexivity.
  - constructor; [eexists; reflexivity|constructor].
Defined.

(** ** Uncle verification *)

Section UncleProofs.
Context {H : Type} `{Hasher H}.
Context {Tx : Type}.
Context (header_hash : Header -> Hash).

(** The blocks the ancestor walk visits. *)
Fixpoint ancestor_blocks (fuel : nat) (chain : ChainReader Tx) (parent : Hash) (number : Z)
    : list (Block Tx) :=
  match fuel with
  | O => []
  | S fuel' =>
      match GetBlock chain parent number with
      | None => []
      | Some a => a :: ancestor_blocks fuel' chain (ParentHash (header a)) (u64 (number - 1))
      end
  end.

Lemma gather_spec fuel chain parent number anc us anc' us' :
  gather_ancestors header_hash fuel chain parent number anc us = (anc', us') ->
  let blocks := ancestor_blocks fuel chain parent number in
  (forall k h, anc' !! k = Some h -> anc !! k = Some h \/
     exists a, a ∈ blocks /\ Block_Hash header_hash a = k /\ h = Block_Header a) /\
  (forall a, a ∈ blocks -> is_Some (anc' !! Block_Hash header_hash a)) /\
  (forall k, is_Some (anc !! k) -> is_Some (anc' !! k)) /\
  us ⊆ us' /\
  (forall a u, a ∈ blocks -> u ∈ uncles a -> header_hash u ∈ us').
Proof.
  revert parent number anc us. induction fuel as [|fuel IH];
    intros parent number anc us; cbn [gather_ancestors ancestor_blocks].
  { intros [= <- <-]. split_and!; set_solver. }
  destruct (GetBlock chain parent number) as [a|];
    [|intros [= <- <-]; split_and!; set_solver].
  intros E. destruct (IH _ _ _ _ E) as (H1 & H2 & H3 & H4 & H5). split_and!.
  - intros k h Hk. destruct (H1 k h Hk) as [Hi|(a' & ? & ? & ?)].
    + destruct (decide (Block_Hash header_hash a = k)) as [<-|Hne].
      * rewrite lookup_insert_eq in Hi. injection Hi as <-. right. exists a. set_solver.
      * rewrite lookup_insert_ne in Hi by done. by left.
    + right. exists a'. set_solver.
  - intros a' [->|Ha']%elem_of_cons; [|by apply H2]. apply H3. rewrite lookup_insert_eq. eauto.
  - intros k [h Hk]. apply H3. destruct (decide (Block_Hash header_hash a = k)) as [<-|Hne].
    + rewrite lookup_insert_eq. eauto.
    + rewrite lookup_insert_ne by done. eauto.
  - set_solver.
  - intros a' u [->|Ha']%elem_of_cons Hu; [|by eapply H5].
    apply H4, elem_of_union_l, elem_of_list_to_set, list_elem_of_fmap. eauto.
Qed.

Lemma check_uncles_sound (clock : nat -> Z) (block : Block Tx) (anc : gmap (list Z) Header)
    (us : gset (list Z)) i l :
  check_uncles header_hash clock block anc us i l = Ok tt ->
  NoDup (map header_hash l) /\
  forall u, u ∈ l -> (header_hash u ∉ us) /\ anc !! header_hash u = None /\
    ParentHash u <> ParentHash (header block) /\
    exists p now, anc !! ParentHash u = Some p /\ verifyHeader 0 now u p true true = Ok tt.
Proof.
  revert us i. induction l as [|u l IH]; intros us i; cbn [check_uncles map].
  { intros _. split; [constructor|set_solver]. }
  case_decide as Hin; [done|]. case_decide as Hanc; [done|].
  destruct (anc !! ParentHash u) as [p|] eqn:Hp; [|done]. case_decide as Hpar; [done|].
  rewrite outcome_bind_ok. intros ([] & Hv & E). destruct (IH _ _ E) as [Hnd Hall]. split.
  - constructor; [|done]. intros (v & Hv1 & Hv2)%list_elem_of_fmap.
    destruct (Hall v Hv2) as [Hno _]. set_solver.
  - intros v [->|Hv']%elem_of_cons.
    + split_and!; [done|by apply eq_None_not_Some|done|eauto].
    + destruct (Hall v Hv') as (Hno & ? & ? & ?). split_and!; [set_solver|done..].
Qed.

End UncleProofs.

(** Accepted uncles are genuine and rewarded once.  When [VerifyUncles]
    accepts a block there are at most two uncles, with distinct hashes; none is
    the block itself, one of its last seven ancestors or an uncle of one of
    these; and each is a child of one of these ancestors (not of the block's own
    parent) against which its header, seal included, verifies. *)
Theorem VerifyUncles_sound {H} `{Hasher H} {Tx} header_hash (chain : ChainReader Tx) clock block n :
  Number (header block) = Some n ->
  VerifyUncles header_hash chain clock block = Ok tt ->
  let blocks := ancestor_blocks 7 chain (ParentHash (header block)) (u64 (big_Uint64 n - 1)) in
  (length (uncles block) <= 2)%nat /\ NoDup (map header_hash (uncles block)) /\
  forall u, u ∈ uncles block ->
    (forall a, a ∈ block :: blocks -> header_hash u <> Block_Hash header_hash a) /\
    (forall a v, a ∈ blocks -> v ∈ uncles a -> header_hash u <> header_hash v) /\
    ParentHash u <> ParentHash (header block) /\
    exists a now, a ∈ block :: blocks /\ Block_Hash header_hash a = ParentHash u /\
      verifyHeader 0 now u (Block_Header a) true true = Ok tt.
Proof.
  intros Hn Hok blocks. unfold VerifyUncles, maxUncles in Hok. rewrite Hn in Hok.
  destruct (Nat.ltb_spec 2 (length (uncles block))) as [|Hlen]; [done|].
  unfold deref in Hok. rewrite or_panic_bind in Hok.
  destruct (gather_ancestors _ _ _ _ _ _ _) as [anc us] eqn:E.
  destruct (gather_spec _ _ _ _ _ _ _ _ _ E) as (H1 & H2 & _ & _ & H5). fold blocks in H1, H2, H5.
  destruct (check_uncles_sound _ _ _ _ _ _ _ Hok) as [Hnd Hall]. split_and!; [lia|done|].
  intros u Hu. destruct (Hall u Hu) as (Hno & Hanc & Hpar & p & now & Hp & Hv). split_and!.
  - intros a [->|Ha]%elem_of_cons Heq; [set_solver|].
    destruct (decide (Block_Hash header_hash block = header_hash u)) as [Hb|Hb]; [set_solver|].
    rewrite lookup_insert_ne in Hanc by done. destruct (H2 a Ha) as [? ?]. congruence.
  - intros a v Ha Hv' Heq. apply Hno, elem_of_union_r. rewrite Heq. by eapply H5.
  - done.
  - destruct (decide (Block_Hash header_hash block = ParentHash u)) as [Hb|Hb].
    + rewrite Hb, lookup_insert_eq in Hp. injection Hp as <-. exists block, now. set_solver.
    + rewrite lookup_insert_ne in Hp by done.
      destruct (H1 _ _ Hp) as [Hempty|(a & Ha & Hk & ->)]; [by rewrite lookup_empty in Hempty|].
      exists a, now. set_solver.
Qed.

(** A chain of three blocks whose last one includes an uncle. *)
Definition chain_header (parent : Hash) (number time : Z) : Header :=
  forge (mkHeader parent [] (replicate 15 9 ++ PutUint64 77) [] [] [] [] (Some 1) (Some number)
    (Some 9000) (Some 0) (Some time) [] (PutUint64 12) (PutUint64 77) (replicate 32 6) None None None).
Definition toy_hash (h : Header) : Hash := [val (Number h); val (Time h)].
Definition toy_block (parent : Hash) (number time : Z) (us : list Header) : Block nat :=
  mkBlock (chain_header parent number time) us [].
Definition toy_chain : ChainReader nat :=
  mkChain nat (fun _ _ => None) (fun _ => None) (fun hash _ =>
    if decide (hash = [8; 21]) then Some (toy_block [7; 11] 8 21 [])
    else if decide (hash = [7; 11]) then Some (toy_block [6; 1] 7 11 []) else None).
Definition toy_uncle : Header := chain_header [7; 11] 8 22.

Lemma chain_header_wf parent number time : header_wf (chain_header parent number time).
Proof.
  constructor; try reflexivity; try (eexists; reflexivity).
  apply Forall_replicate. unfold is_byte. lia.
Qed.

Lemma toy_uncle_seal {H} `{Hasher H} : VerifySeal 100 toy_uncle = Ok tt.
Proof.
  pose proof (forge_accepted 100 toy_uncle (chain_header_wf _ _ _)) as E.
  apply E; [reflexivity|cbv; discriminate].
Qed.

Lemma toy_uncles_verify {H} `{Hasher H} :
  VerifyUncles toy_hash toy_chain (fun _ => 100) (toy_block [8; 21] 9 31 [toy_uncle]) = Ok tt.
Proof.
  assert (verifyHeader 0 100 toy_uncle (Block_Header (toy_block [6; 1] 7 11 [])) true true = Ok tt) as Hv
    by exact toy_uncle_seal.
  unfold VerifyUncles. cbn [uncles toy_block length maxUncles Nat.ltb Nat.leb].
  unfold deref. cbn [header toy_block chain_header forge Number]. rewrite or_panic_bind.
  set (g := gather_ancestors _ _ _ _ _ _ _). vm_compute in g. subst g. cbv beta iota.
  cbn [check_uncles]. rewrite decide_False by (vm_compute; tauto || set_solver).
  rewrite decide_False by (by vm_compute; intros []).
  assert ((<[Block_Hash toy_hash (toy_block [8; 21] 9 31 [toy_uncle])
    := Block_Header (toy_block [8; 21] 9 31 [toy_uncle])]> _) !! ParentHash toy_uncle
    = Some (Block_Header (toy_block [6; 1] 7 11 []))) as -> by reflexivity.
  rewrite decide_False by done. rewrite Hv. done.
Qed.

Lemma VerifyUncles_sound_witness :
  let b := toy_block [8; 21] 9 31 [toy_uncle] in
  (length (uncles b) <= 2)%nat /\
  exists a now, a ∈ b :: ancestor_blocks 7 toy_chain [8; 21] 8 /\
    Block_Hash toy_hash a = ParentHash toy_uncle /\
    verifyHeader 0 now toy_uncle (Block_Header a) true true = Ok tt.
Proof.
  intros b. destruct (VerifyUncles_sound toy_hash toy_chain (fun _ => 100) b 9 eq_refl
    toy_uncles_verify) as (Hl & _ & Hu).
  split; [exact Hl|]. apply (Hu toy_uncle). apply list_elem_of_here.
Defined.
