(* ===== verification/VerifyPool.v ===== *)
(** * Concurrent header verification

    [VerifyHeaders] of [src/consensus/xdnoc/dnpoc.go]: a coordinator goroutine
    hands the indices of a batch to worker goroutines over the unbuffered
    channel [inputs], collects finished indices from the buffered channel
    [done] and emits the results in order on [errorsOut].  Goroutines and
    channels become a step relation; [verify i] is the result of
    [verifyHeaderWorker] for index [i].  The array [errors] starts out filled
    with the nil error, which would mean "valid", so emitting a slot too early
    would accept a bad header. *)
From S2P Require Import Prelude.

Section Pool.
Context {R : Type} (nil_error : R).
(** The batch: its size, the number of workers and each item's result. *)
Context (n workers : nat) (verify : nat -> R).

Inductive worker :=
  | Idle
  | Busy (index : nat)      (** verifying *)
  | Sending (index : nat).  (** [errors[index]] written, about to send on [done] *)

#[export] Instance worker_eq_dec : EqDecision worker.
Proof. solve_decision. Defined.

Record state := mkState {
  pool : list worker;
  nin : nat;                (** [in] *)
  nout : nat;               (** [out] *)
  checked : list bool;
  errors : list R;
  done : list nat;
  outs : list R;            (** what was sent on [errorsOut] *)
  returned : bool           (** the coordinator has returned *)
}.

Definition init : state :=
  mkState (replicate workers Idle) 0 0 (replicate n false) (replicate n nil_error) [] [] false.

(** [for checked[index] = true; checked[out]; out++ { ... }]: the new [out],
    the results sent, and whether the coordinator returns. *)
Fixpoint drain (fuel : nat) (ck : list bool) (errs : list R) (out : nat) (sent : list R)
    : nat * list R * bool :=
  match fuel with
  | O => (out, sent, false)
  | S fuel' =>
      if default false (ck !! out) then
        let sent := sent ++ [default nil_error (errs !! out)] in
        if (out =? n - 1)%nat then (out, sent, true) else drain fuel' ck errs (S out) sent
      else (out, sent, false)
  end.

(** One atomic action of the program. *)
Inductive step : state -> state -> Prop :=
  | step_dispatch w ws i o ck errs d s :
      ws !! w = Some Idle -> (i < n)%nat ->
      step (mkState ws i o ck errs d s false)
           (mkState (<[w := Busy i]> ws) (S i) o ck errs d s false)
  | step_verify w ws i o ck errs d s r k :
      ws !! w = Some (Busy k) ->
      step (mkState ws i o ck errs d s r)
           (mkState (<[w := Sending k]> ws) i o ck (<[k := verify k]> errs) d s r)
  | step_done w ws i o ck errs d s r k :
      ws !! w = Some (Sending k) -> (length d < workers)%nat ->
      step (mkState ws i o ck errs d s r)
           (mkState (<[w := Idle]> ws) i o ck errs (d ++ [k]) s r)
  | step_collect ws i o ck errs k d s o' s' r :
      let ck' := <[k := true]> ck in
      drain n ck' errs o s = (o', s', r) ->
      step (mkState ws i o ck errs (k :: d) s false) (mkState ws i o' ck' errs d s' r).

(** The caller may close [abort] at any time. *)
Inductive abort : state -> state -> Prop :=
  | abort_intro ws i o ck errs d s :
      abort (mkState ws i o ck errs d s false) (mkState ws i o ck errs d s true).

Definition step_or_abort (x y : state) : Prop := step x y \/ abort x y.

(** ** The invariant *)

Definition in_flight (w : worker) : list nat :=
  match w with Idle => [] | Busy i => [i] | Sending i => [i] end.

(** Indices handed out and not yet collected. *)
Definition open_indices (s : state) : list nat := done s ++ concat (map in_flight (pool s)).

(** Indices whose result is in [errors]: checked, queued, or being sent. *)
Definition computed (s : state) (k : nat) : Prop :=
  checked s !! k = Some true \/ k ∈ done s \/ Sending k ∈ pool s.

Record inv (s : state) : Prop := {
  inv_pool : length (pool s) = workers;
  inv_ck : length (checked s) = n;
  inv_errs : length (errors s) = n;
  inv_nin : (nin s <= n)%nat;
  inv_handed : forall k, (k < nin s)%nat <-> checked s !! k = Some true \/ k ∈ open_indices s;
  inv_nodup : NoDup (open_indices s);
  inv_fresh : forall k, k ∈ open_indices s -> checked s !! k = Some false;
  inv_computed : forall k, computed s k -> errors s !! k = Some (verify k);
  inv_outs : outs s = map verify (seq 0 (length (outs s)));
  inv_sent : forall k, (k < length (outs s))%nat -> checked s !! k = Some true;
  inv_running : returned s = false -> length (outs s) = nout s /\ checked s !! nout s = Some false;
}.

Context (Hn : (0 < n)%nat) (Hworkers : (0 < workers)%nat).

Lemma concat_idle m : concat (map in_flight (replicate m Idle)) = [].
Proof. induction m; simpl; auto. Qed.

Lemma pool_inv_init : inv init.
Proof.
  constructor; unfold open_indices, computed; cbn [init pool nin nout checked errors done outs returned];
    rewrite ?length_replicate, ?concat_idle; try done; try lia.
  - intros k. split; [lia|]. intros [[? _]%lookup_replicate|Hk]; [done|]. by apply not_elem_of_nil in Hk.
  - constructor.
  - intros k Hk. by apply not_elem_of_nil in Hk.
  - intros k [[? _]%lookup_replicate|[Hk|[? _]%elem_of_replicate]]; [done| |done].
    by apply not_elem_of_nil in Hk.
  - intros k Hk. simpl in Hk. lia.
  - intros _. split; [done|]. by apply lookup_replicate_2.
Qed.

(** The emitting loop: it sends exactly the checked results from [out] on. *)
Lemma drain_spec fuel ck errs out sent o' s' r :
  length ck = n -> (out < n)%nat -> (n - out <= fuel)%nat ->
  sent = map verify (seq 0 out) ->
  (forall k, (k < out)%nat -> ck !! k = Some true) ->
  (forall k, ck !! k = Some true -> errs !! k = Some (verify k)) ->
  drain fuel ck errs out sent = (o', s', r) ->
  s' = map verify (seq 0 (length s')) /\
  (forall k, (k < length s')%nat -> ck !! k = Some true) /\
  (r = false -> length s' = o' /\ ck !! o' = Some false) /\
  (r = true -> length s' = n).
Proof.
  intros Hck. revert out sent. induction fuel as [|fuel IH]; intros out sent Hout Hf Hs Hlow Herr;
    cbn [drain]; [lia|].
  assert (length sent = out) as Hls by (by rewrite Hs, length_map, length_seq).
  destruct (lookup_lt_is_Some_2 ck out) as [[] Eo]; [lia|..]; rewrite Eo; cbn [default from_option id].
  - rewrite (Herr _ Eo). cbn [default from_option id].
    assert (sent ++ [verify out] = map verify (seq 0 (S out))) as Hs'.
    { by rewrite seq_S, map_app, <-Hs. }
    assert (forall k, (k < S out)%nat -> ck !! k = Some true) as Hlow'.
    { intros k Hk. destruct (decide (k = out)) as [->|]; [done|]. apply Hlow. lia. }
    destruct (Nat.eqb_spec out (n - 1)) as [E|E].
    + intros [= <- <- <-]. rewrite Hs', length_map, length_seq.
      split_and!; [done|done|done|lia].
    + apply IH; [lia|lia|done..].
  - intros [= <- <- <-]. rewrite Hls. split_and!; [by rewrite Hs|done|done|done].
Qed.

(** Unfolds the projections of an explicit state. *)
Ltac fields := unfold open_indices, computed in *;
  cbn [pool nin nout checked errors done outs returned] in *.

Lemma sending_insert (ws : list worker) w x k :
  Sending k ∈ <[w := x]> ws -> x = Sending k \/ Sending k ∈ ws.
Proof.
  intros [j Hj]%list_elem_of_lookup. rewrite list_lookup_insert in Hj. case_decide.
  - injection Hj as ->. by left.
  - right. by eapply list_elem_of_lookup_2.
Qed.

Lemma inv_dispatch w (ws : list worker) i o ck errs d s :
  inv (mkState ws i o ck errs d s false) -> ws !! w = Some Idle -> (i < n)%nat ->
  inv (mkState (<[w := Busy i]> ws) (S i) o ck errs d s false).
Proof.
  intros [] Hw Hi. destruct (concat_map_insert in_flight ws w _ Hw) as (rest & E1 & E2).
  specialize (E2 (Busy i)). simpl in E1, E2. fields.
  assert (d ++ concat (map in_flight (<[w:=Busy i]> ws)) ≡ₚ i :: (d ++ concat (map in_flight ws)))
    as EP by (rewrite E1, E2; by rewrite Permutation_middle).
  assert (ck !! i = Some false) as Hcki.
  { destruct (lookup_lt_is_Some_2 ck i) as [[] E]; [lia| |done].
    assert (i < i)%nat; [|lia]. apply inv_handed0. by left. }
  assert (i ∉ d ++ concat (map in_flight ws)) as Hni.
  { intros Hin. assert (i < i)%nat; [|lia]. apply inv_handed0. by right. }
  constructor; fields; rewrite ?length_insert; try done.
  - intros k. rewrite EP, elem_of_cons. specialize (inv_handed0 k).
    destruct (decide (k = i)) as [->|Hne]; [split; [tauto|lia]|]. split.
    + intros Hk. assert (k < i)%nat as Hk' by lia. tauto.
    + intros Hk. enough (k < i)%nat by lia. tauto.
  - rewrite EP. by constructor.
  - intros k. rewrite EP, elem_of_cons. intros [->|?]; auto.
  - intros k [?|[?|[?|?]%sending_insert]]; auto; done.
Qed.

Lemma inv_verify w (ws : list worker) i o ck errs d s r k :
  inv (mkState ws i o ck errs d s r) -> ws !! w = Some (Busy k) ->
  inv (mkState (<[w := Sending k]> ws) i o ck (<[k := verify k]> errs) d s r).
Proof.
  intros [] Hw. destruct (concat_map_insert in_flight ws w _ Hw) as (rest & E1 & E2).
  specialize (E2 (Sending k)). simpl in E1, E2. fields.
  assert (d ++ concat (map in_flight (<[w:=Sending k]> ws)) ≡ₚ d ++ concat (map in_flight ws))
    as EP by (by rewrite E1, E2).
  assert (k < i)%nat as Hk.
  { apply inv_handed0. right. rewrite E1. set_solver. }
  constructor; fields; rewrite ?length_insert; try done.
  - intros j. by rewrite EP.
  - by rewrite EP.
  - intros j. rewrite EP. auto.
  - intros j Hj. rewrite list_lookup_insert. case_decide as Hd; [by destruct Hd as [-> _]|].
    apply inv_computed0. destruct Hj as [?|[?|[[= ->]|?]%sending_insert]]; auto.
    exfalso. apply Hd. lia.
Qed.

Lemma inv_done w (ws : list worker) i o ck errs d s r k :
  inv (mkState ws i o ck errs d s r) -> ws !! w = Some (Sending k) ->
  inv (mkState (<[w := Idle]> ws) i o ck errs (d ++ [k]) s r).
Proof.
  intros [] Hw. destruct (concat_map_insert in_flight ws w _ Hw) as (rest & E1 & E2).
  specialize (E2 Idle). simpl in E1, E2. fields.
  assert ((d ++ [k]) ++ concat (map in_flight (<[w:=Idle]> ws)) ≡ₚ d ++ concat (map in_flight ws))
    as EP by (rewrite E1, E2; by rewrite <-app_assoc).
  constructor; fields; rewrite ?length_insert; try done.
  - intros j. by rewrite EP.
  - by rewrite EP.
  - intros j. rewrite EP. auto.
  - intros j Hj. apply inv_computed0.
    destruct Hj as [?|[[?| ->%list_elem_of_singleton]%elem_of_app|[?|?]%sending_insert]]; auto; [|done].
    right; right. by eapply list_elem_of_lookup_2.
Qed.

Lemma inv_collect (ws : list worker) i o ck errs k d s o' s' r :
  inv (mkState ws i o ck errs (k :: d) s false) ->
  drain n (<[k := true]> ck) errs o s = (o', s', r) ->
  inv (mkState ws i o' (<[k := true]> ck) errs d s' r) /\ (r = true -> length s' = n).
Proof.
  intros [] Hdr. fields. destruct inv_running0 as [Hlen Ho]; [done|].
  assert (ck !! k = Some false) as Hk by (apply inv_fresh0; set_solver).
  pose proof (lookup_lt_Some _ _ _ Hk) as Hkn. pose proof (lookup_lt_Some _ _ _ Ho) as Hon.
  assert (forall j, <[k := true]> ck !! j = Some true <-> j = k \/ ck !! j = Some true) as Hck.
  { intros j. rewrite list_lookup_insert. case_decide as Hd; [destruct Hd as [-> _]; tauto|].
    split; [tauto|]. intros [->|?]; [lia|done]. }
  destruct (drain_spec n (<[k := true]> ck) errs o s o' s' r) as (H1 & H2 & H3 & H4).
  - by rewrite length_insert.
  - lia.
  - lia.
  - by rewrite <-Hlen.
  - intros j Hj. apply Hck. right. apply inv_sent0. lia.
  - intros j [->|Hj]%Hck; apply inv_computed0; [right; left; set_solver|by left].
  - done.
  - split; [|done]. cbn [app] in *. apply NoDup_cons in inv_nodup0 as [Hnk Hnd].
    constructor; fields; rewrite ?length_insert; try done.
    + intros j. rewrite inv_handed0, Hck, elem_of_cons. tauto.
    + intros j Hj. rewrite list_lookup_insert_ne; [by apply inv_fresh0, elem_of_cons; right|].
      by intros ->.
    + intros j [[->|?]%Hck|[?|?]]; apply inv_computed0; [right; left|by left|right; left|by right; right];
        set_solver.
Qed.

Lemma pool_inv_step x y : inv x -> step x y -> inv y.
Proof.
  intros Hx Hstep. destruct Hstep.
  - by apply inv_dispatch.
  - by apply inv_verify.
  - by apply inv_done.
  - by eapply inv_collect.
Qed.

Lemma inv_abort x y : inv x -> abort x y -> inv y.
Proof. intros [] Ha. destruct Ha. constructor; fields; done. Qed.

(** ** Progress *)

(** What remains to be done: four actions per index, fewer as it advances. *)
Definition weight (w : worker) : nat := match w with Idle => 0 | Busy _ => 3 | Sending _ => 2 end.
Definition remaining (s : state) : nat :=
  (4 * (n - nin s) + sum_list (map weight (pool s)) + length (done s))%nat.

Lemma weight_insert (ws : list worker) w x y :
  ws !! w = Some x ->
  (sum_list (map weight (<[w := y]> ws)) + weight x = sum_list (map weight ws) + weight y)%nat.
Proof.
  revert w. induction ws as [|a ws IH]; intros [|w] Hw; simpl in *; try done.
  - injection Hw as ->. lia.
  - specialize (IH _ Hw). lia.
Qed.

Lemma step_remaining x y : inv x -> step x y -> (remaining y < remaining x)%nat.
Proof.
  intros Hx Hstep. destruct Hstep; unfold remaining; fields; rewrite ?length_app; simpl;
    try match goal with H : ?ws !! ?w = Some ?x |- context [<[?w := ?y]> ?ws] =>
      pose proof (weight_insert ws w x y H) end; simpl in *; lia.
Qed.

(** While the coordinator runs, some goroutine can move. *)
Lemma progress s : inv s -> returned s = false -> exists s', step s s'.
Proof.
  intros [] Hr. destruct s as [ws i o ck errs d ot r]. fields. subst r.
  destruct d as [|k d].
  - destruct (decide (Exists (fun w => w <> Idle) ws)) as [Hex|Hidle].
    + apply Exists_exists in Hex as (x & [w Hw]%list_elem_of_lookup & Hx).
      destruct x as [|k|k]; [done| |].
      * eexists. by apply (step_verify w).
      * eexists. by apply (step_done w); [|simpl; lia].
    + destruct inv_running0 as [_ Ho]; [done|].
      assert (i < n)%nat as Hi.
      { pose proof (lookup_lt_Some _ _ _ Ho). destruct (decide (i = n)) as [->|]; [|lia].
        destruct (proj1 (inv_handed0 o)) as [?|Hin]; [lia|congruence|]. exfalso.
        apply list_elem_of_In, in_concat in Hin as (l & (w & <- & Hw)%in_map_iff & Hl).
        apply Hidle, Exists_exists. exists w. split; [by apply list_elem_of_In|]. by intros ->. }
      destruct (lookup_lt_is_Some_2 ws 0) as [x Hx]; [lia|].
      assert (x = Idle) as ->.
      { destruct (decide (x = Idle)); [done|]. exfalso. apply Hidle, Exists_exists.
        exists x. split; [by eapply list_elem_of_lookup_2|done]. }
      eexists. by apply (step_dispatch 0).
  - destruct (drain n (<[k := true]> ck) errs o ot) as [[o' s'] r] eqn:E.
    eexists. by apply step_collect.
Qed.

Lemma pool_reachable_inv s : rtc step_or_abort init s -> inv s.
Proof.
  intros Hr. eapply rtc_preserve; [|apply pool_inv_init|exact Hr].
  intros x y Hx [Hs|Ha]; [by eapply pool_inv_step|by eapply inv_abort].
Qed.

(** Without an abort the coordinator only returns after the last result. *)
Lemma returned_complete s :
  rtc step init s -> inv s /\ (returned s = true -> length (outs s) = n).
Proof.
  intros Hr. eapply (rtc_preserve step (fun s => inv s /\ (returned s = true -> length (outs s) = n)));
    [|split; [apply pool_inv_init|done]|exact Hr].
  intros x y [Hx Hc] Hstep. split; [by eapply pool_inv_step|]. destruct Hstep; fields; try done.
  by eapply inv_collect.
Qed.

Lemma nsteps_bound k s : nsteps step k init s -> inv s /\ (k + remaining s <= 4 * n)%nat.
Proof.
  assert (remaining init = 4 * n)%nat as H0.
  { unfold remaining. fields. cbn [init pool nin done length].
    assert (forall m, sum_list (map weight (replicate m Idle)) = 0%nat) as Hz
      by (induction m; simpl; auto).
    rewrite Hz. lia. }
  intros Hk. remember init as x eqn:Ex.
  assert (inv x) as Hx by (subst; apply pool_inv_init).
  assert (remaining x <= 4 * n)%nat as Hle by (subst; lia). clear Ex H0.
  cut (inv s /\ (k + remaining s <= remaining x)%nat); [intros [? ?]; split; [done|lia]|]. clear Hle.
  induction Hk as [|k x y z Hxy Hk IH]; [split; [done|lia]|].
  destruct (IH (pool_inv_step _ _ Hx Hxy)) as [Hz Hb]. split; [done|].
  pose proof (step_remaining _ _ Hx Hxy). lia.
Qed.

(** From every reachable state the coordinator can be driven to its return. *)
Lemma can_return s : rtc step init s -> exists s', rtc step s s' /\ returned s' = true.
Proof.
  intros Hr. remember (remaining s) as m eqn:Em. revert s Hr Em.
  induction (lt_wf m) as [m _ IH]. intros s Hr ->.
  destruct (returned s) eqn:E; [by exists s; split|].
  destruct (returned_complete _ Hr) as [Hi _].
  destruct (progress s Hi E) as [s1 Hs1].
  destruct (IH (remaining s1)) with (s := s1) as (s' & Hs' & Hret);
    [by apply step_remaining|by eapply rtc_r|done|].
  exists s'. split; [by eapply rtc_l|done].
Qed.

End Pool.

(** ** Properties *)

(** C37: results come out in order and are never invented.  In every
    interleaving of the coordinator, the workers and an abort by the caller,
    what has been sent on [errorsOut] is the list of the verification results
    of the first [k] headers of the batch, for some [k]. *)
Theorem results_in_order {R} (nil_error : R) n workers verify s :
  (0 < n)%nat -> (0 < workers)%nat ->
  rtc (step_or_abort nil_error n workers verify) (init nil_error n workers) s ->
  exists k, (k <= n)%nat /\ outs s = map verify (seq 0 k).
Proof.
  intros Hn Hw Hr. pose proof (pool_reachable_inv nil_error n workers verify Hn Hw s Hr) as [].
  exists (length (outs s)). split; [|done]. rewrite <-inv_ck0.
  destruct (decide (length (outs s) <= length (checked s))%nat) as [|Hgt]; [done|].
  assert (checked s !! length (checked s) = Some true) as E by (apply inv_sent0; lia).
  apply lookup_lt_Some in E. lia.
Qed.

(** Every batch is verified completely.  As long as the caller does not
    abort, whatever the schedule: a run takes at most four actions per header;
    until the coordinator returns some goroutine can act (no deadlock), so it
    can always be driven to its return; and when it has returned, the results
    of all headers have been sent, in order. *)
Theorem batch_completes {R} (nil_error : R) n workers verify s k :
  (0 < n)%nat -> (0 < workers)%nat ->
  nsteps (step nil_error n workers verify) k (init nil_error n workers) s ->
  (k <= 4 * n)%nat /\
  (returned s = false -> exists s', step nil_error n workers verify s s') /\
  (exists s', rtc (step nil_error n workers verify) s s' /\ returned s' = true) /\
  (returned s = true -> outs s = map verify (seq 0 n)).
Proof.
  intros Hn Hw Hk. assert (rtc (step nil_error n workers verify) (init nil_error n workers) s) as Hr
    by (apply rtc_nsteps; by exists k).
  destruct (nsteps_bound nil_error n workers verify Hn Hw k s Hk) as [Hi Hb].
  destruct (returned_complete nil_error n workers verify Hn Hw s Hr) as [_ Hc].
  split_and!; [lia|by apply progress|by apply can_return|].
  intros Hret. by rewrite (inv_outs _ _ _ _ Hi), Hc.
Qed.

(** An aborted batch can leak a goroutine.  With one worker and at least
    two headers there is a run after which the caller has aborted and the
    worker is stuck for good: it wants to send on [done], whose buffer is full
    and which nobody reads any more. *)
Theorem abort_can_leak_worker {R} (nil_error : R) n verify :
  (2 <= n)%nat ->
  exists s, rtc (step_or_abort nil_error n 1 verify) (init nil_error n 1) s /\
    returned s = true /\ pool s = [Sending 1] /\
    forall s', ~ step_or_abort nil_error n 1 verify s s'.
Proof.
  intros Hn. unfold init. cbn [replicate].
  eexists. split.
  - eapply rtc_l; [left; apply (step_dispatch _ _ _ _ 0); [reflexivity|lia]|].
    eapply rtc_l; [left; apply (step_verify _ _ _ _ 0); reflexivity|].
    eapply rtc_l; [left; apply (step_done _ _ _ _ 0); [reflexivity|simpl; lia]|].
    eapply rtc_l; [left; apply (step_dispatch _ _ _ _ 0); [reflexivity|lia]|].
    eapply rtc_l; [left; apply (step_verify _ _ _ _ 0); reflexivity|].
    eapply rtc_l; [right; apply abort_intro|]. apply rtc_refl.
  - split_and!; [done|done|]. intros s' [Hs|Ha]; [|inversion Ha].
    inversion Hs as [| ? ? ? ? ? ? ? ? ? ? Hw|? ? ? ? ? ? ? ? ? ? Hw Hlen|]; subst.
    + by destruct w as [|[|w]].
    + simpl in Hlen. lia.
Qed.

(** Two workers on a batch of three: the second header is done first, nothing
    is sent; then the first one, and two results are sent in order. *)
Lemma two_sent : exists s, rtc (step_or_abort 0 3 2 (fun i => Z.of_nat i + 10)) (init 0 3 2) s /\ outs s = [10; 11].
Proof.
  eexists. split.
  - eapply rtc_l; [left; apply (step_dispatch _ _ _ _ 0); [reflexivity|lia]|].
    eapply rtc_l; [left; apply (step_dispatch _ _ _ _ 1); [reflexivity|lia]|].
    eapply rtc_l; [left; apply (step_verify _ _ _ _ 1); reflexivity|].
    eapply rtc_l; [left; apply (step_done _ _ _ _ 1); [reflexivity|simpl; lia]|].
    eapply rtc_l; [left; apply step_collect; reflexivity|].
    eapply rtc_l; [left; apply (step_verify _ _ _ _ 0); reflexivity|].
    eapply rtc_l; [left; apply (step_done _ _ _ _ 0); [reflexivity|simpl; lia]|].
    eapply rtc_l; [left; apply step_collect; reflexivity|]. apply rtc_refl.
  - reflexivity.
Qed.

Lemma results_in_order_witness :
  exists s, outs s = [10; 11] /\ exists k, (k <= 3)%nat /\ outs s = map (fun i => Z.of_nat i + 10) (seq 0 k).
Proof.
  destruct two_sent as (s & Hs & Ho). exists s. split; [exact Ho|].
  apply (results_in_order 0 3 2 (fun i => Z.of_nat i + 10)); [lia|lia|exact Hs].
Defined.

Lemma batch_completes_witness :
  exists s', rtc (step 0 3 2 (fun i => Z.of_nat i)) (init 0 3 2) s' /\ returned s' = true.
Proof.
  apply (batch_completes 0 3 2 (fun i => Z.of_nat i) (init 0 3 2) 0); [lia|lia|constructor].
Defined.

Lemma abort_can_leak_worker_witness :
  exists s, rtc (step_or_abort 0 2 1 (fun i => Z.of_nat i)) (init 0 2 1) s /\
    returned s = true /\ pool s = [Sending 1] /\
    forall s', ~ step_or_abort 0 2 1 (fun i => Z.of_nat i) s s'.
Proof. apply abort_can_leak_worker. lia. Defined.
