(* ===== verification/Mine.v ===== *)
(** * Mining: searching the plots for the best deadline

    [mine] of [src/consensus/xdnoc/dnpoc.go].  Strings are byte lists.  The
    outside world is an environment record: the authorisation lookup
    [GetNodeByPlotID] (not part of the sources), the file system, the clock
    and the [abort] channel, the last two indexed by how often they have been
    consulted.  The search loops carry fuel, because a plot file named with a
    count of 0 makes the code loop until it is aborted. *)
From S2P Require Import Prelude Shabal Poc Plot Types Dnpoc.
#[local] Arguments Nat.mul : simpl never.
#[local] Arguments Z.eqb : simpl never.
#[local] Arguments Z.of_nat : simpl never.

(** ** Strings *)

Definition underscore : Z := 95.
Definition comma : Z := 44.
Definition slash : Z := 47.

(** [strings.Split(s, sep)] for a one-byte separator. *)
Fixpoint Split (sep : Z) (s : list Z) : list (list Z) :=
  match s with
  | [] => [[]]
  | c :: s' =>
      match Split sep s' with
      | [] => [[]]
      | w :: ws => if c =? sep then [] :: w :: ws else (c :: w) :: ws
      end
  end.

Definition is_digit (c : Z) : bool := (48 <=? c) && (c <=? 57).
Definition digits_value (s : list Z) : Z := foldl (fun acc c => acc * 10 + (c - 48)) 0 s.

(** [strconv.ParseUint(s, 10, 64)]. *)
Definition ParseUint (s : list Z) : option Z :=
  match s with
  | [] => None
  | _ => if forallb is_digit s && (digits_value s <? 2 ^ 64) then Some (digits_value s) else None
  end.

(** [strconv.Atoi]: an optional sign and a 64-bit signed value. *)
Definition Atoi (s : list Z) : option Z :=
  let '(neg, ds) := match s with
                    | c :: s' => if c =? 45 then (true, s') else if c =? 43 then (false, s') else (false, s)
                    | [] => (false, [])
                    end in
  match ds with
  | [] => None
  | _ =>
      if forallb is_digit ds then
        let v := digits_value ds in
        if neg then (if v <=? 2 ^ 63 then Some (- v) else None)
        else (if v <? 2 ^ 63 then Some v else None)
      else None
  end.

(** The file-name checks of the loop: plot id, first nonce, count. *)
Definition parse_name (addrPlotID : Z) (name : list Z) : option (Z * Z * Z) :=
  match Split underscore name with
  | [a; b; c] =>
      pubID ← ParseUint a;
      if negb (pubID =? addrPlotID) then None
      else
        nonce ← ParseUint b;
        total ← Atoi c;
        Some (pubID, nonce, total)
  | _ => None
  end.

(** ** The environment *)

Record Node := mkNode { MinNonce : Z; MaxNonce : Z }.

Record Env := mkEnv {
  GetNodeByPlotID : Z -> option Node;
  ReadFile : list Z -> option (list Z);      (** [ioutil.ReadFile], [os.Open] *)
  ReadDir : list Z -> option (list (list Z));
  aborted : nat -> bool;                      (** the [i]-th poll of [abort] *)
  clock : nat -> Z                            (** the [i]-th [time.Now().Unix()] *)
}.

(** [f.ReadAt(data, off)] into a fresh buffer of [len] bytes; a short read
    leaves zeros, and the error is ignored. *)
Definition ReadAt (content : list Z) (len off : nat) : list Z :=
  let got := take len (drop off content) in
  got ++ replicate (len - length got) 0.

(** The largest slice the run time allocates (linux/amd64). *)
Definition maxAlloc : Z := 2 ^ 48.

(** [make([]byte, 64*total)] and the read at [scoopID*64*total], both in
    64-bit [int] arithmetic. *)
Definition file_data (content : list Z) (scoopID total : Z) : option (list Z) :=
  let len := i64 (64 * total) in
  if (len <? 0) || (maxAlloc <? len) then None
  else
    let offset := i64 (scoopID * 64 * total) in
    Some (if offset <? 0 then replicate (Z.to_nat len) 0
          else ReadAt content (Z.to_nat len) (Z.to_nat offset)).

(** ** The search *)

(** The best candidate so far, and how often [abort] and the clock were
    consulted. *)
Record Best := mkBest {
  minDeadLine : Z; minPubID : Z; minNonce : Z; polls : nat; reads : nat
}.

(** How a loop ends. *)
Inductive result (Tx : Type) :=
  | Continue (b : Best)       (** fell through to the code after the loop *)
  | Found (blk : Block Tx)    (** sent on [found] *)
  | Discarded                 (** found, but [abort] won the send *)
  | Returned                  (** [return] without a block *)
  | Crashed                   (** run-time panic *)
  | OutOfFuel.
Arguments Continue {Tx} _.
Arguments Found {Tx} _.
Arguments Discarded {Tx}.
Arguments Returned {Tx}.
Arguments Crashed {Tx}.
Arguments OutOfFuel {Tx}.

Definition poll (b : Best) : Best :=
  mkBest (minDeadLine b) (minPubID b) (minNonce b) (S (polls b)) (reads b).
Definition tick (b : Best) : Best :=
  mkBest (minDeadLine b) (minPubID b) (minNonce b) (polls b) (S (reads b)).

Section Mine.
Context {H : Type} `{Hasher H} {Tx : Type}.
Context (env : Env) (blk : Block Tx) (lastTime : Z) (baseTarget : Z).
Context (addrPlotID : Z) (node : Node) (scoopID : Z).

Definition gensig : Hash := GenSig (Block_Header blk).

(** The sealed header, at time [now]. *)
Definition sealed (b : Best) (now : Z) : Header :=
  set_seal (CopyHeader (Block_Header blk)) (EncodeNonce (minNonce b)) (EncodeNonce (minPubID b)) gensig
    (u64 now) baseTarget (minDeadLine b).

(** The test at the clock reading, and the final [select]. *)
Definition try_found (b : Best) (k : Best -> result Tx) : result Tx :=
  let now := clock env (reads b) in
  let b := tick b in
  if minDeadLine b + lastTime <? u64 now then
    (if aborted env (polls b) then Discarded else Found (WithSeal blk (sealed b now)))
  else k b.

(** One authorised nonce: deadline from the 64 bytes at [64*index]. *)
Definition check_index (data : list Z) (pubID nonce : Z) (index : nat) (b : Best) : option Best :=
  scoop_1 ← slice data (64 * index) (64 * index + 32);
  scoop_2 ← slice data (64 * index + 32) (64 * index + 64);
  let target := CalcTarget scoop_1 scoop_2 gensig in
  t ← slice target 24 (length target);
  deadline ← CalcDeadLine (be_get t) baseTarget;
  Some (if deadline <? minDeadLine b
        then mkBest deadline pubID (u64 (nonce + Z.of_nat index)) (polls b) (reads b)
        else b).

(** The inner [for] over the nonces of one opened file, from [index] on. *)
Fixpoint scan (fuel : nat) (data : list Z) (pubID nonce total : Z) (index : nat) (b : Best) : result Tx :=
  match fuel with
  | O => OutOfFuel
  | S fuel' =>
      if aborted env (polls b) then Returned
      else
        let b := poll b in
        let next b :=
          if Z.of_nat (S index) =? total then Continue b
          else scan fuel' data pubID nonce total (S index) b in
        let nn := u64 (nonce + Z.of_nat index) in
        if (MinNonce node <=? nn) && (nn <=? MaxNonce node) then
          match check_index data pubID nonce index b with
          | None => Crashed
          | Some b => try_found b next
          end
        else next b
  end.

(** The loop body for one directory entry; a count of 0 repeats the first
    branch for ever. *)
Fixpoint scan_file (fuel : nat) (dirname name : list Z) (b : Best) : result Tx :=
  match fuel with
  | O => OutOfFuel
  | S fuel' =>
      if aborted env (polls b) then Returned
      else
        let b := poll b in
        match parse_name addrPlotID name with
        | None => Continue b
        | Some (pubID, nonce, total) =>
            match (match ReadFile env (dirname ++ [slash] ++ name) with
                   | None => Some []
                   | Some content => file_data content scoopID total
                   end) with
            | None => Crashed
            | Some data =>
                if total =? 0 then scan_file fuel' dirname name b
                else scan fuel' data pubID nonce total 0 b
            end
        end
  end.

Fixpoint scan_files (fuel : nat) (dirname : list Z) (names : list (list Z)) (b : Best) : result Tx :=
  match names with
  | [] => Continue b
  | name :: names' =>
      match scan_file fuel dirname name b with
      | Continue b => scan_files fuel dirname names' b
      | r => r
      end
  end.

Fixpoint scan_dirs (fuel : nat) (dirs : list (list Z)) (b : Best) : result Tx :=
  match dirs with
  | [] => Continue b
  | dirname :: dirs' =>
      match ReadDir env dirname with
      | None => Returned
      | Some names =>
          match scan_files fuel dirname names b with
          | Continue b => scan_dirs fuel dirs' b
          | r => r
          end
      end
  end.

(** The loop that waits for the best deadline to pass. *)
Fixpoint wait (fuel : nat) (b : Best) : result Tx :=
  match fuel with
  | O => OutOfFuel
  | S fuel' =>
      if aborted env (polls b) then Returned
      else try_found (poll b) (fun b => wait fuel' b)
  end.

End Mine.

(** The initial best deadline of 9999999999 seconds. *)
Definition best0 : Best := mkBest 9999999999 0 0 0 0.

Definition plot_path : list Z := [80; 76; 79; 84].   (** "PLOT" *)

(** [mine] on the block [blk] with base target [bt]. *)
Definition mine {H} `{Hasher H} {Tx} (env : Env) (fuel : nat) (blk : Block Tx) (bt : Z) : result Tx :=
  let hd := Block_Header blk in
  match Number hd, LastTime (header blk) with
  | Some n, Some lastTime =>
      match CalcPlotID (Coinbase hd) with
      | None => Crashed
      | Some addrPlotID =>
          match GetNodeByPlotID env addrPlotID with
          | None => Returned
          | Some node =>
              match GetScoopID (GenHash (gensig blk) (big_Uint64 n)) with
              | None => Crashed
              | Some scoopID =>
                  match ReadFile env plot_path with
                  | None => Returned
                  | Some dirBytes =>
                      let dirs := Split comma dirBytes in
                      match scan_dirs env blk lastTime bt addrPlotID node scoopID fuel
                              (take (length dirs - 1) dirs) best0 with
                      | Continue b => wait env blk lastTime bt fuel b
                      | r => r
                      end
                  end
              end
          end
      end
  | _, _ => Crashed
  end.

(** [Seal]: the base target for the block's height, then [mine]; the caller
    receives the block when [mine] sends one and nil when it stops first. *)
Definition Seal {H} `{Hasher H} {Tx} (chain : ChainReader Tx) (env : Env) (fuel : nat)
    (blk : Block Tx) : result Tx :=
  match Number (header blk) with
  | None => Crashed
  | Some n =>
      match calcBaseTarget chain (big_Uint64 n) with
      | None => Crashed
      | Some bt => mine env fuel blk bt
      end
  end.

(** ** Reading a genuine plot *)

Section Search.
Context {H : Type} `{Hasher H} {Tx : Type}.
Context (env : Env) (blk : Block Tx) (lastTime bt addrPlotID number : Z) (node : Node) (k : nat).
Hypothesis Hgensig : bytes (gensig blk).
Hypothesis Hbt : 0 < bt.
Hypothesis Hk : GetScoopID (GenHash (gensig blk) number) = Some (Z.of_nat k).

(** The deadline of one nonce, and the better of it and the best so far. *)
Definition deadline_of (pub nn : Z) : Z := seal_target (gensig blk) number pub nn / bt.

Definition improve (pub nn : Z) (b : Best) : Best :=
  if deadline_of pub nn <? minDeadLine b
  then mkBest (deadline_of pub nn) pub nn (polls b) (reads b) else b.

Lemma deadline_of_nonneg pub nn : 0 <= deadline_of pub nn.
Proof. apply Z.div_pos; [|done]. by apply seal_target_range. Qed.

Lemma scoop_bound : (k < 256)%nat.
Proof.
  destruct (seal_target_scoop (gensig blk) number Hgensig) as (k' & E & Hk' & _).
  rewrite Hk in E. simplify_eq. lia.
Qed.

(** The largest count for which the buffer can be allocated. *)
Definition max_total : Z := 2 ^ 42.

Lemma file_data_plot content pub nonce (n : nat) :
  is_plot content pub nonce n -> (0 < n)%nat -> Z.of_nat n <= max_total ->
  exists data, file_data content (Z.of_nat k) (Z.of_nat n) = Some data /\
    length data = (64 * n)%nat /\
    forall a b, (a <= b <= 64 * n)%nat ->
      slice data a b = slice content (64 * n * k + a) (64 * n * k + b).
Proof.
  intros [Hlen _] Hn Hmax. pose proof scoop_bound. pose proof SCOOPS_Z. unfold max_total in Hmax.
  assert (64 * n * k + 64 * n <= length content)%nat as Hfit by (rewrite Hlen; nia).
  assert (slice content (64 * n * k) (64 * n * k + 64 * n)
          = Some (take (64 * n) (drop (64 * n * k) content))) as Hs.
  { rewrite slice_Some by lia. do 2 f_equal. lia. }
  exists (take (64 * n) (drop (64 * n * k) content)). split; [|split].
  - unfold file_data, maxAlloc. cbv zeta. rewrite !i64_small by nia.
    replace (64 * Z.of_nat n <? 0) with false by lia.
    replace (2 ^ 48 <? 64 * Z.of_nat n) with false by lia. simpl orb.
    replace (Z.of_nat k * 64 * Z.of_nat n <? 0) with false by nia. cbn iota. f_equal.
    unfold ReadAt. cbv zeta. replace (Z.to_nat (64 * Z.of_nat n)) with (64 * n)%nat by lia.
    replace (Z.to_nat (Z.of_nat k * 64 * Z.of_nat n)) with (64 * n * k)%nat by lia.
    rewrite (slice_length _ _ _ _ Hs).
    replace (64 * n - (64 * n * k + 64 * n - 64 * n * k))%nat with 0%nat by lia. apply app_nil_r.
  - rewrite (slice_length _ _ _ _ Hs). lia.
  - intros a b Hab. symmetry. apply slice_sub with (b := (64 * n * k + 64 * n)%nat); [done|lia].
Qed.

(** On a genuine plot the miner computes the verifier's deadline. *)
Lemma check_index_plot content pub nonce (n q : nat) data b :
  is_plot content pub nonce n -> (q < n)%nat ->
  (forall a c, (a <= c <= 64 * n)%nat ->
     slice data a c = slice content (64 * n * k + a) (64 * n * k + c)) ->
  check_index blk bt data pub nonce q b = Some (improve pub (u64 (nonce + Z.of_nat q)) b).
Proof.
  intros [_ Hp] Hq Hd. pose proof scoop_bound. pose proof SCOOPS_Z.
  destruct (Hp k q) as (cells & Ec & Es); [lia|lia|].
  rewrite GenCell_eq in Ec. apply (inj Some) in Ec. subst cells.
  destruct (seal_target_scoop (gensig blk) number Hgensig) as (k' & E & _ & Ht).
  rewrite Hk in E. apply (inj Some), Nat2Z.inj in E. subst k'.
  destruct (Ht pub (u64 (nonce + Z.of_nat q))) as (s1 & s2 & E1 & E2 & E3 & E4). cbv zeta in E1, E2.
  assert (exists s, slice content (64 * n * k + 64 * q) (64 * n * k + 64 * q + 64) = Some s /\
    slice s 0 32 = Some s1 /\ slice s 32 64 = Some s2) as (s & Hs & F1 & F2).
  { apply slice_is_Some in E2 as Hb. destruct Hb as [Hb _].
    destruct (slice (rearrange_ref _) (64 * k) (64 * k + 64)) as [s|] eqn:Hc in Es;
      [|rewrite slice_Some in Hc by lia; discriminate].
    exists s. split; [exact Es|]. rewrite <-!(slice_sub _ _ _ _ _ _ Hc) by lia.
    rewrite Nat.add_0_r. split; [exact E1|exact E2]. }
  unfold check_index. rewrite !Hd by lia.
  replace (64 * n * k + 64 * q)%nat with (64 * n * k + 64 * q + 0)%nat at 1 by lia.
  rewrite !Nat.add_assoc, !(slice_sub _ _ _ _ _ _ Hs) by lia.
  rewrite F1, some_bind, F2, some_bind. cbv zeta. rewrite E3, some_bind, E4.
  unfold CalcDeadLine. rewrite big_Div_pos, some_bind by done. reflexivity.
Qed.

(** ** Soundness of the search

    The best candidate is the initial one or carries the deadline its nonce
    earns under the miner's own plot id. *)
Definition good (b : Best) : Prop :=
  minDeadLine b <= 9999999999 /\
  (minDeadLine b = 9999999999 \/
   minPubID b = addrPlotID /\ 0 <= minNonce b < 2 ^ 64 /\
   minDeadLine b = deadline_of (minPubID b) (minNonce b)).

Definition sound (r : result Tx) : Prop :=
  match r with
  | Continue b => good b
  | Found blk' => exists b i, good b /\ minDeadLine b + lastTime < u64 (clock env i) /\
      blk' = WithSeal blk (sealed blk bt b (clock env i))
  | _ => True
  end.

(** A file that belongs to the miner is a plot, if it can be read. *)
Definition genuine_file (dirname name : list Z) : Prop :=
  forall pub nonce total content,
    parse_name addrPlotID name = Some (pub, nonce, total) ->
    ReadFile env (dirname ++ [slash] ++ name) = Some content ->
    0 < total <= max_total /\ is_plot content pub nonce (Z.to_nat total).

Definition genuine : Prop :=
  forall dirname names name, ReadDir env dirname = Some names -> name ∈ names ->
    genuine_file dirname name.

Lemma parse_name_pub name pub nonce total :
  parse_name addrPlotID name = Some (pub, nonce, total) -> pub = addrPlotID.
Proof.
  unfold parse_name. destruct (Split _ _) as [|a [|b [|c []]]]; try done.
  destruct (ParseUint a) as [p|]; [|done]. rewrite some_bind.
  destruct (Z.eqb_spec p addrPlotID); simpl; [|done].
  destruct (ParseUint b); [|done]. rewrite some_bind.
  destruct (Atoi c); [|done]. rewrite some_bind. naive_solver.
Qed.

Lemma good_improve nn b : good b -> 0 <= nn < 2 ^ 64 -> good (improve addrPlotID nn b).
Proof.
  intros [Hle Hb] Hnn. unfold improve.
  destruct (Z.ltb_spec (deadline_of addrPlotID nn) (minDeadLine b)); [|done].
  split; simpl; [lia|]. by right.
Qed.

Lemma sound_try_found b f :
  good b -> (forall b, good b -> sound (f b)) -> sound (try_found env blk lastTime bt b f).
Proof.
  intros Hb Hf. unfold try_found. cbv zeta.
  destruct (Z.ltb_spec (minDeadLine (tick b) + lastTime) (u64 (clock env (reads b)))).
  - destruct (aborted _ _); [done|]. exists (tick b), (reads b). done.
  - by apply Hf.
Qed.

(** The data of a file either comes from a plot or is missing. *)
Definition data_ok (data : list Z) (pub nonce total : Z) : Prop :=
  data = [] \/
  exists content (n : nat), is_plot content pub nonce n /\ (0 < n)%nat /\ total = Z.of_nat n /\
    forall a c, (a <= c <= 64 * n)%nat ->
      slice data a c = slice content (64 * n * k + a) (64 * n * k + c).

Lemma sound_scan fuel data nonce total index b :
  data_ok data addrPlotID nonce total -> (total <= 0 \/ Z.of_nat index < total \/ data = []) ->
  good b -> sound (scan env blk lastTime bt node fuel data addrPlotID nonce total index b).
Proof.
  intros Hd. revert index b. induction fuel as [|fuel IH]; intros index b Hi Hb; [done|].
  simpl scan. destruct (aborted env (polls b)); [done|].
  assert (forall b, good b -> sound
    (if Z.of_nat (S index) =? total then Continue b
     else scan env blk lastTime bt node fuel data addrPlotID nonce total (S index) b)) as Hnext.
  { intros b' Hb'. destruct (Z.eqb_spec (Z.of_nat (S index)) total); [done|].
    apply IH; [|done]. destruct Hi as [Hi|[Hi|Hi] ]; [by left|right; left; lia|by do 2 right]. }
  destruct (_ && _); [|by apply Hnext].
  destruct Hd as [->|(content & n & Hp & Hn & -> & Hd)].
  - unfold check_index. destruct (slice [] (64 * index) (64 * index + 32)) eqn:E; [|done].
    apply slice_is_Some in E as [E _]. simpl in E. lia.
  - destruct Hi as [Hi|[Hi| ->] ]; [lia| |].
    + erewrite check_index_plot by (done || lia). apply sound_try_found; [|done].
      apply good_improve; [done|]. unfold u64. apply Z.mod_pos_bound. lia.
    + unfold check_index. destruct (slice [] (64 * index) (64 * index + 32)) eqn:E; [|done].
      apply slice_is_Some in E as [E _]. simpl in E. lia.
Qed.

Lemma sound_scan_file fuel dirname name b :
  genuine_file dirname name -> good b ->
  sound (scan_file env blk lastTime bt addrPlotID node (Z.of_nat k) fuel dirname name b).
Proof.
  intros Hg. revert b. induction fuel as [|fuel IH]; intros b Hb; [done|].
  simpl scan_file. destruct (aborted env (polls b)); [done|].
  destruct (parse_name _ _) as [[[pub nonce] total]|] eqn:Hp; [|done].
  pose proof (parse_name_pub _ _ _ _ Hp) as ->.
  destruct (ReadFile _ _) as [content|] eqn:Hr.
  - destruct (Hg _ _ _ _ Hp Hr) as [Ht Hpl].
    destruct (file_data_plot content addrPlotID nonce (Z.to_nat total)) as (data & E & _ & Hd);
      [done|lia|lia|]. rewrite Z2Nat.id in E by lia. rewrite E.
    destruct (Z.eqb_spec total 0); [lia|]. apply sound_scan; [|right; left; lia|done].
    right. exists content, (Z.to_nat total). split; [done|]. split; [lia|]. split; [lia|done].
  - destruct (Z.eqb_spec total 0); [by apply IH|].
    apply sound_scan; [by left|by do 2 right|done].
Qed.

Lemma sound_scan_dirs fuel dirs b :
  genuine -> good b ->
  sound (scan_dirs env blk lastTime bt addrPlotID node (Z.of_nat k) fuel dirs b).
Proof.
  intros Hg. revert b. induction dirs as [|d dirs IH]; intros b Hb; simpl; [done|].
  destruct (ReadDir env d) as [names|] eqn:Hr; [|done].
  assert (sound (scan_files env blk lastTime bt addrPlotID node (Z.of_nat k) fuel d names b)) as Hs.
  { specialize (Hg d names). revert b Hb. clear IH.
    assert (forall name, name ∈ names -> genuine_file d name) as Hn by (intros; by apply Hg).
    clear Hg Hr. induction names as [|name names IHn]; intros b Hb; simpl; [done|].
    assert (genuine_file d name) as Hgf by (apply Hn; left).
    pose proof (sound_scan_file fuel d name b Hgf Hb) as Hf.
    destruct (scan_file _ _ _ _ _ _ _ _ _ _ _); try done.
    apply IHn; [|done]. intros. apply Hn. by right. }
  destruct (scan_files _ _ _ _ _ _ _ _ _ _ _); try done. by apply IH.
Qed.

Lemma sound_wait fuel b : good b -> sound (wait env blk lastTime bt fuel b).
Proof.
  revert b. induction fuel as [|fuel IH]; intros b Hb; [done|].
  simpl wait. destruct (aborted _ _); [done|]. by apply sound_try_found.
Qed.

(** ** Completeness of the search *)

Definition auth (nn : Z) : bool := (MinNonce node <=? nn) && (nn <=? MaxNonce node).

(** The deadlines of the authorised nonces among [nonce+i .. nonce+i+m-1]. *)
Definition deadlines_from (pub nonce : Z) (i m : nat) : list Z :=
  map (deadline_of pub) (List.filter auth (map (fun q => u64 (nonce + Z.of_nat q)) (seq i m))).

Definition file_deadlines (name : list Z) : list Z :=
  match parse_name addrPlotID name with
  | None => []
  | Some (pub, nonce, total) => deadlines_from pub nonce 0 (Z.to_nat total)
  end.

Definition dir_deadlines (dirname : list Z) : list Z :=
  match ReadDir env dirname with
  | None => []
  | Some names => concat (map file_deadlines names)
  end.

(** [b'] is [b] after seeing the deadlines [ds], one clock reading for each. *)
Definition after (b : Best) (ds : list Z) (b' : Best) : Prop :=
  minDeadLine b' = foldl Z.min (minDeadLine b) ds /\ reads b' = (reads b + length ds)%nat.

Definition early (lo len : nat) : Prop :=
  forall i, (lo <= i < lo + len)%nat -> u64 (clock env i) <= lastTime.

Lemma after_app b ds b1 ds' b2 : after b ds b1 -> after b1 ds' b2 -> after b (ds ++ ds') b2.
Proof.
  intros [E1 R1] [E2 R2]. split; [by rewrite foldl_app, <-E1|]. rewrite length_app. lia.
Qed.

Lemma foldl_min_nonneg ds m : 0 <= m -> Forall (Z.le 0) ds -> 0 <= foldl Z.min m ds.
Proof. intros Hm Hds. revert m Hm. induction Hds; intros m Hm; simpl; [done|]. apply IHHds. lia. Qed.

Lemma deadlines_from_nonneg pub nonce i m : Forall (Z.le 0) (deadlines_from pub nonce i m).
Proof. apply Forall_forall. intros d [nn [-> _] ]%list_elem_of_fmap. apply deadline_of_nonneg. Qed.

Lemma file_deadlines_nonneg name : Forall (Z.le 0) (file_deadlines name).
Proof.
  unfold file_deadlines. destruct (parse_name _ _) as [ [ [] ] |]; [|constructor].
  apply deadlines_from_nonneg.
Qed.

Lemma after_nonneg b ds b' :
  after b ds b' -> 0 <= minDeadLine b -> Forall (Z.le 0) ds -> 0 <= minDeadLine b'.
Proof. intros [-> _] ??. by apply foldl_min_nonneg. Qed.

Lemma early_split lo l1 l2 : early lo (l1 + l2) -> early lo l1 /\ early (lo + l1) l2.
Proof. intros He. split; intros i Hi; apply He; lia. Qed.

Hypothesis Hrun : forall i, aborted env i = false.

Lemma try_found_early b f :
  0 <= minDeadLine b -> u64 (clock env (reads b)) <= lastTime ->
  try_found env blk lastTime bt b f = f (tick b).
Proof.
  intros Hb Hc. unfold try_found. cbv zeta. cbn [tick minDeadLine].
  destruct (Z.ltb_spec (minDeadLine b + lastTime) (u64 (clock env (reads b)))); [lia|done].
Qed.

Lemma improve_after pub nn b : after b [deadline_of pub nn] (tick (improve pub nn b)).
Proof.
  unfold improve. destruct (Z.ltb_spec (deadline_of pub nn) (minDeadLine b));
    split; simpl; lia.
Qed.

Lemma scan_complete content pub nonce (n : nat) data m fuel index b :
  is_plot content pub nonce n ->
  (forall a c, (a <= c <= 64 * n)%nat ->
     slice data a c = slice content (64 * n * k + a) (64 * n * k + c)) ->
  (index + S m = n)%nat -> (m < fuel)%nat -> 0 <= minDeadLine b ->
  early (reads b) (length (deadlines_from pub nonce index (S m))) ->
  exists b', scan env blk lastTime bt node fuel data pub nonce (Z.of_nat n) index b = Continue b' /\
    after b (deadlines_from pub nonce index (S m)) b'.
Proof.
  intros Hp Hd. revert fuel index b. induction m as [|m IH]; intros fuel index b Hn Hf Hb He;
    (destruct fuel as [|fuel]; [lia|]); simpl scan; rewrite Hrun;
    set (nn := u64 (nonce + Z.of_nat index)) in *; fold (auth nn);
    unfold deadlines_from in *; simpl seq in *; cbn [map List.filter] in *; fold nn in He |- *;
    destruct (auth nn) eqn:Ha; cbn [map length] in *.
  - rewrite (check_index_plot content pub nonce n index) by (done || lia). fold nn.
    rewrite try_found_early; [|unfold improve; destruct (_ <? _) eqn:E; simpl;
      [apply deadline_of_nonneg|done]|unfold improve; destruct (_ <? _); apply He; simpl; lia].
    rewrite (proj2 (Z.eqb_eq (Z.of_nat (S index)) (Z.of_nat n))) by lia.
    eexists. split; [done|]. apply (improve_after pub nn (poll b)).
  - rewrite (proj2 (Z.eqb_eq (Z.of_nat (S index)) (Z.of_nat n))) by lia. eexists. split; [done|].
    split; simpl; lia.
  - rewrite (check_index_plot content pub nonce n index) by (done || lia). fold nn.
    rewrite try_found_early; [|unfold improve; destruct (_ <? _) eqn:E; simpl;
      [apply deadline_of_nonneg|done]|unfold improve; destruct (_ <? _); apply He; simpl; lia].
    rewrite (proj2 (Z.eqb_neq (Z.of_nat (S index)) (Z.of_nat n))) by lia.
    pose proof (improve_after pub nn (poll b)) as Hi.
    destruct (IH fuel (S index) (tick (improve pub nn (poll b)))) as (b' & E & Hb'); [lia|lia| | |].
    + apply (after_nonneg _ _ _ Hi); [done|]. repeat constructor. apply deadline_of_nonneg.
    + destruct Hi as [_ ->]. intros i Hi. apply He. simpl in Hi |- *. lia.
    + exists b'. split; [exact E|]. apply (after_app _ _ _ _ _ Hi Hb').
  - rewrite (proj2 (Z.eqb_neq (Z.of_nat (S index)) (Z.of_nat n))) by lia.
    apply (IH fuel (S index) (poll b)); [lia|lia|done|done].
Qed.

(** The plots can be read, and [fuel] exceeds their counts. *)
Definition readable_file (fuel : nat) (dirname name : list Z) : Prop :=
  (0 < fuel)%nat /\
  forall pub nonce total, parse_name addrPlotID name = Some (pub, nonce, total) ->
    0 < total <= max_total /\ (Z.to_nat total < fuel)%nat /\
    exists content, ReadFile env (dirname ++ [slash] ++ name) = Some content /\
      is_plot content pub nonce (Z.to_nat total).

Definition readable_dir (fuel : nat) (dirname : list Z) : Prop :=
  exists names, ReadDir env dirname = Some names /\
    Forall (readable_file fuel dirname) names.

Lemma scan_file_complete fuel dirname name b :
  readable_file fuel dirname name -> 0 <= minDeadLine b ->
  early (reads b) (length (file_deadlines name)) ->
  exists b', scan_file env blk lastTime bt addrPlotID node (Z.of_nat k) fuel dirname name b
    = Continue b' /\ after b (file_deadlines name) b'.
Proof.
  intros [Hf Hr] Hb He. destruct fuel as [|fuel]; [lia|]. simpl scan_file. rewrite Hrun.
  unfold file_deadlines in *. destruct (parse_name _ _) as [[[pub nonce] total]|] eqn:Hp.
  - destruct (Hr _ _ _ eq_refl) as (Ht & Hfu & content & Hc & Hpl). simpl app in Hc. simpl app. rewrite Hc.
    destruct (file_data_plot content pub nonce (Z.to_nat total)) as (data & E & _ & Hd);
      [done|lia|lia|]. rewrite Z2Nat.id in E by lia. rewrite E.
    destruct (Z.eqb_spec total 0); [lia|].
    destruct (Z.to_nat total) as [|m] eqn:Em; [lia|].
    replace total with (Z.of_nat (S m)) by lia.
    apply (scan_complete content pub nonce (S m) data m fuel 0 (poll b)); (done || lia).
  - eexists. split; [done|]. split; simpl; lia.
Qed.

Lemma scan_files_complete fuel dirname names b :
  Forall (readable_file fuel dirname) names -> 0 <= minDeadLine b ->
  early (reads b) (length (concat (map file_deadlines names))) ->
  exists b', scan_files env blk lastTime bt addrPlotID node (Z.of_nat k) fuel dirname names b
    = Continue b' /\ after b (concat (map file_deadlines names)) b'.
Proof.
  intros Hr. revert b. induction Hr as [|name names Hn Hr IH]; intros b Hb He; simpl in *.
  - eexists. split; [done|]. split; simpl; lia.
  - rewrite length_app in He. apply early_split in He as [He1 He2].
    destruct (scan_file_complete fuel dirname name b) as (b1 & -> & H1); [done..|].
    destruct (IH b1) as (b2 & -> & H2).
    + eapply after_nonneg; [done|done|apply file_deadlines_nonneg].
    + destruct H1 as [_ ->]. done.
    + exists b2. split; [done|]. by eapply after_app.
Qed.

Lemma dir_deadlines_nonneg d : Forall (Z.le 0) (dir_deadlines d).
Proof.
  unfold dir_deadlines. destruct (ReadDir env d) as [names|]; [|constructor].
  induction names; simpl; [constructor|]. apply Forall_app. split; [apply file_deadlines_nonneg|done].
Qed.

Lemma scan_dirs_complete fuel dirs b :
  Forall (readable_dir fuel) dirs -> 0 <= minDeadLine b ->
  early (reads b) (length (concat (map dir_deadlines dirs))) ->
  exists b', scan_dirs env blk lastTime bt addrPlotID node (Z.of_nat k) fuel dirs b
    = Continue b' /\ after b (concat (map dir_deadlines dirs)) b'.
Proof.
  intros Hr. revert b. induction Hr as [|d dirs (names & Hd & Hn) Hr IH]; intros b Hb He; simpl in *.
  - eexists. split; [done|]. split; simpl; lia.
  - rewrite length_app in He. apply early_split in He as [He1 He2].
    pose proof (dir_deadlines_nonneg d) as Hnn. unfold dir_deadlines at 1 in He1.
    assert (dir_deadlines d = concat (map file_deadlines names)) as Ed
      by (unfold dir_deadlines; by rewrite Hd).
    rewrite Hd in He1 |- *. rewrite Ed in *.
    destruct (scan_files_complete fuel d names b) as (b1 & -> & H1); [done..|].
    destruct (IH b1) as (b2 & -> & H2).
    + by eapply after_nonneg.
    + destruct H1 as [_ ->]. done.
    + exists b2. split; [done|]. by eapply after_app.
Qed.

Lemma wait_complete W fuel b :
  (W < fuel)%nat -> minDeadLine b + lastTime < u64 (clock env (reads b + W)) ->
  exists b' i, wait env blk lastTime bt fuel b = Found (WithSeal blk (sealed blk bt b' (clock env i))) /\
    minDeadLine b' = minDeadLine b.
Proof.
  revert fuel b. induction W as [|W IH]; intros fuel b Hf Hc; (destruct fuel as [|fuel]; [lia|]);
    simpl wait; rewrite Hrun; unfold try_found; cbv zeta; cbn [poll tick minDeadLine reads polls];
    rewrite Hrun; destruct (Z.ltb_spec (minDeadLine b + lastTime) (u64 (clock env (reads b)))).
  1, 3: eexists _, _; split; [reflexivity|reflexivity].
  - rewrite Nat.add_0_r in Hc. lia.
  - apply (IH fuel (mkBest (minDeadLine b) (minPubID b) (minNonce b) (S (polls b)) (S (reads b)))); [lia|].
    cbn [minDeadLine reads]. by replace (S (reads b) + W)%nat with (reads b + S W)%nat by lia.
Qed.
End Search.

(** ** Sealed blocks *)

(** The fixed-size fields of a block's header have their Go array sizes. *)
Record block_wf {Tx} (blk : Block Tx) : Prop := {
  bwf_gensig : length (GenSig (header blk)) = 32%nat;
  bwf_gensig_bytes : bytes (GenSig (header blk));
  bwf_coinbase : length (Coinbase (header blk)) = 23%nat;
  bwf_coinbase_bytes : bytes (Coinbase (header blk))
}.

Lemma plot_id_range (a : list Z) :
  length a = 23%nat -> bytes a -> 0 <= be_get (drop 15 a) < 2 ^ 64.
Proof.
  intros Ha Hb. pose proof (be_get_bound (drop 15 a) (bytes_drop _ _ Hb)) as Hr.
  by rewrite length_drop, Ha in Hr.
Qed.

(** The plot id a miner uses. *)
Definition own_plot_id {Tx} (blk : Block Tx) : Z := be_get (drop 15 (Coinbase (header blk))).

Lemma val_Some x : val (Some x) = x.
Proof. reflexivity. Qed.

Section Sealed.
Context {H : Type} `{Hasher H} {Tx : Type}.
Context (env : Env) (blk : Block Tx) (lt bt : Z).
Hypothesis Hwf : block_wf blk.
Hypothesis Hlt : LastTime (header blk) = Some lt.
Hypothesis Hbt : 0 < bt.

Definition number_of : Z := big_Uint64 (default 0 (Number (header blk))).

Lemma sealed_wf b now : header_wf (sealed blk bt b now).
Proof.
  destruct Hwf. constructor; simpl; try done; try (by eexists); apply length_be_put.
Qed.

Lemma sealed_target b now :
  0 <= minPubID b < 2 ^ 64 -> 0 <= minNonce b < 2 ^ 64 ->
  header_target (sealed blk bt b now)
  = seal_target (gensig blk) number_of (minPubID b) (minNonce b).
Proof.
  intros Hp Hn. unfold header_target, sealed, EncodeNonce, PutUint64.
  cbn [set_seal GenSig Number PlotID Nonce CopyHeader Block_Header copy_big val default].
  rewrite !be_get_put_small by done. reflexivity.
Qed.

Lemma sealed_verifies b i now :
  good blk bt (own_plot_id blk) number_of b -> u64 (clock env i) <= lt + 9999999999 ->
  minDeadLine b + lt < u64 (clock env i) -> u64 (clock env i) - 15 <= u64 now ->
  VerifySeal now (sealed blk bt b (clock env i)) = Ok tt.
Proof.
  intros [_ [Hd|(Hp & Hn & Hd)] ] Hc Hlate Hnow; [lia|].
  pose proof (plot_id_range _ (bwf_coinbase _ Hwf) (bwf_coinbase_bytes _ Hwf)) as Hr.
  fold (own_plot_id blk) in Hr. rewrite <-Hp in Hr.
  rewrite VerifySeal_unfold by apply sealed_wf. rewrite sealed_target by done.
  cbn [sealed set_seal BaseTarget DeadLine LastTime Time PlotID Coinbase CopyHeader Block_Header val].
  unfold EncodeNonce, PutUint64. rewrite be_get_put_small by done. rewrite Hp in Hd |- *.
  fold (own_plot_id blk). rewrite Z.eqb_refl. unfold CalcDeadLine. rewrite big_Div_pos by done.
  unfold deadline_of in Hd. rewrite Hlt, !val_Some, <-Hd. autorewrite with outcome.
  rewrite Z.eqb_refl. cbn [negb]. rewrite (proj2 (Z.ltb_lt _ _) Hlate).
  rewrite (proj2 (Z.ltb_ge (u64 now) _)) by lia. reflexivity.
Qed.

(** The directories [mine] visits: all pieces of the list but the last. *)
Definition plot_dirs (dirBytes : list Z) : list (list Z) :=
  take (length (Split comma dirBytes) - 1) (Split comma dirBytes).

Lemma mine_unfold fuel node dirBytes :
  GetNodeByPlotID env (own_plot_id blk) = Some node -> ReadFile env plot_path = Some dirBytes ->
  exists k, GetScoopID (GenHash (gensig blk) number_of) = Some (Z.of_nat k) /\
    mine env fuel blk bt =
      match scan_dirs env blk lt bt (own_plot_id blk) node (Z.of_nat k) fuel (plot_dirs dirBytes) best0 with
      | Continue b => wait env blk lt bt fuel b
      | r => r
      end.
Proof.
  intros Hn Hp. destruct (seal_target_scoop (gensig blk) number_of) as (k & Ek & _ & _); [apply Hwf|].
  exists k. split; [exact Ek|]. unfold mine. cbv zeta.
  cbn [Block_Header CopyHeader Number copy_big Coinbase]. rewrite Hlt, CalcPlotID_23 by apply Hwf.
  fold (own_plot_id blk). rewrite Hn. fold number_of. rewrite Ek, Hp. reflexivity.
Qed.

Lemma good_best0 : good blk bt (own_plot_id blk) number_of best0.
Proof. split; [done|by left]. Qed.

Lemma mine_sound_gen fuel :
  genuine env (own_plot_id blk) ->
  sound env blk lt bt (own_plot_id blk) number_of (mine env fuel blk bt).
Proof.
  intros Hg.
  destruct (GetNodeByPlotID env (own_plot_id blk)) as [node|] eqn:En;
    [destruct (ReadFile env plot_path) as [dirBytes|] eqn:Ed|].
  - destruct (mine_unfold fuel node dirBytes En Ed) as (k & Ek & ->).
    pose proof (sound_scan_dirs env blk lt bt (own_plot_id blk) number_of node k
      (bwf_gensig_bytes _ Hwf) Hbt Ek fuel (plot_dirs dirBytes) best0 Hg good_best0) as Hs.
    destruct (scan_dirs _ _ _ _ _ _ _ _ _ _); try done. by apply sound_wait.
  - unfold mine. cbv zeta. cbn [Block_Header CopyHeader Number copy_big Coinbase].
    rewrite Hlt, CalcPlotID_23 by apply Hwf. fold (own_plot_id blk). rewrite En.
    destruct (GetScoopID _); [|done]. by rewrite Ed.
  - unfold mine. cbv zeta. cbn [Block_Header CopyHeader Number copy_big Coinbase].
    rewrite Hlt, CalcPlotID_23 by apply Hwf. fold (own_plot_id blk). by rewrite En.
Qed.

(** All deadlines the plots offer for the block. *)
Definition all_deadlines (node : Node) (dirBytes : list Z) : list Z :=
  concat (map (dir_deadlines env blk bt (own_plot_id blk) number_of node) (plot_dirs dirBytes)).

Lemma mine_complete fuel node dirBytes W :
  GetNodeByPlotID env (own_plot_id blk) = Some node -> ReadFile env plot_path = Some dirBytes ->
  (forall i, aborted env i = false) ->
  Forall (readable_dir env (own_plot_id blk) fuel) (plot_dirs dirBytes) -> (W < fuel)%nat ->
  early env lt 0 (length (all_deadlines node dirBytes)) ->
  let best := foldl Z.min 9999999999 (all_deadlines node dirBytes) in
  best + lt < u64 (clock env (length (all_deadlines node dirBytes) + W)) ->
  exists blk', mine env fuel blk bt = Found blk' /\ DeadLine (header blk') = Some best.
Proof.
  intros En Ed Ha Hr HW He best Hc.
  destruct (mine_unfold fuel node dirBytes En Ed) as (k & Ek & ->).
  destruct (scan_dirs_complete env blk lt bt (own_plot_id blk) number_of node k
    (bwf_gensig_bytes _ Hwf) Hbt Ek Ha fuel (plot_dirs dirBytes) best0 Hr) as (b & -> & Em & Er);
    [done|exact He|].
  destruct (wait_complete env blk lt bt Ha W fuel b HW) as (b' & i & -> & E).
  { rewrite Em, Er. exact Hc. }
  eexists. split; [reflexivity|]. cbn [WithSeal header sealed set_seal DeadLine]. by rewrite E, Em.
Qed.
End Sealed.

(** ** A concrete miner: one directory with one plot of one nonce *)

Definition plotted (n : nat) (pub nonce : Z) : list Z :=
  match plot_messages (H:=context) n pub nonce with
  | Some ms => foldl WriteAt (createFile 4096 (64 * n * SCOOPS)) (concat (map W ms))
  | None => []
  end.

Lemma plotted_ok n pub nonce : 0 <= nonce < 2 ^ 64 -> is_plot (plotted n pub nonce) pub nonce n.
Proof.
  intros Hn. destruct (plotted_is_plot (H:=context) n 4096 pub nonce Hn) as (ms & E & Hp); [lia|].
  unfold plotted. rewrite E. by apply Hp.
Qed.

#[local] Opaque plotted.

Definition sample_name : list Z := [55; 55; underscore; 53; underscore; 49].   (** 77_5_1 *)
Definition sample_dir : list Z := [100].

Definition sample_env : Env := mkEnv
  (fun p => if p =? 77 then Some (mkNode 0 1000) else None)
  (fun path => if decide (path = plot_path) then Some (sample_dir ++ [comma])
               else if decide (path = sample_dir ++ [slash] ++ sample_name) then Some (plotted 1 77 5)
               else None)
  (fun d => if decide (d = sample_dir) then Some [sample_name] else None)
  (fun _ => false)
  (fun i => match i with O => 10 | _ => 20 end).

Definition sample_block : Block unit := mkBlock (sample_header 0 0 10 0) [] [].

Lemma sample_block_wf : block_wf sample_block.
Proof.
  constructor; try reflexivity; simpl header; cbn [sample_header GenSig Coinbase].
  - apply Forall_replicate. unfold is_byte. lia.
  - apply bytes_app. split; [apply Forall_replicate; unfold is_byte; lia|apply be_put_bytes].
Qed.

Lemma sample_plot_id : own_plot_id sample_block = 77.
Proof. reflexivity. Qed.

Lemma sample_parse : parse_name 77 sample_name = Some (77, 5, 1).
Proof. reflexivity. Qed.

Lemma sample_read :
  ReadFile sample_env (sample_dir ++ [slash] ++ sample_name) = Some (plotted 1 77 5).
Proof. reflexivity. Qed.

Lemma sample_genuine : genuine (H:=context) sample_env 77.
Proof.
  intros dirname names name Hd Hn pub nonce total content Hp Hr. unfold sample_env in Hd. simpl in Hd.
  case_decide; [subst dirname|done]. injection Hd as <-. apply list_elem_of_singleton in Hn as ->.
  rewrite sample_parse in Hp. injection Hp as <- <- <-.
  rewrite sample_read in Hr. apply (inj Some) in Hr. rewrite <-Hr. clear.
  split; [done|]. change (Z.to_nat 1) with 1%nat. apply plotted_ok. done.
Qed.

Lemma sample_readable : readable_dir (H:=context) sample_env 77 10 sample_dir.
Proof.
  exists [sample_name]. split; [reflexivity|]. apply Forall_singleton. split; [lia|].
  intros pub nonce total Hp. rewrite sample_parse in Hp. injection Hp as <- <- <-.
  split; [done|]. split; [lia|]. exists (plotted 1 77 5).
  split; [apply sample_read|]. change (Z.to_nat 1) with 1%nat. apply plotted_ok. done.
Qed.

Lemma deadline_of_huge {H} `{Hasher H} {Tx} (blk : Block Tx) number pub nn :
  bytes (gensig blk) -> deadline_of blk (2 ^ 64) number pub nn = 0.
Proof. intros. by apply Z.div_small, seal_target_range. Qed.

Lemma sample_deadlines :
  all_deadlines (H:=context) sample_env sample_block (2 ^ 64) (mkNode 0 1000)
    (sample_dir ++ [comma]) = [0].
Proof.
  unfold all_deadlines. change (plot_dirs (sample_dir ++ [comma])) with [sample_dir].
  cbn [map concat]. rewrite app_nil_r, sample_plot_id. unfold dir_deadlines.
  change (ReadDir sample_env sample_dir) with (Some [sample_name]). cbn [map concat].
  rewrite app_nil_r. unfold file_deadlines. rewrite sample_parse. unfold deadlines_from.
  change (List.filter _ _) with [5]. cbn [map].
  rewrite deadline_of_huge by apply sample_block_wf. reflexivity.
Qed.

Lemma sample_early : early sample_env 10 0 1.
Proof. intros i Hi. replace i with 0%nat by lia. vm_compute. discriminate. Qed.

Lemma sample_dirs_readable :
  Forall (readable_dir (H:=context) sample_env (own_plot_id sample_block) 10)
    (plot_dirs (sample_dir ++ [comma])).
Proof.
  rewrite sample_plot_id. change (plot_dirs _) with [sample_dir].
  apply Forall_singleton, sample_readable.
Qed.

Lemma sample_found :
  exists blk', mine sample_env 10 sample_block (2 ^ 64) = Found blk' /\
    DeadLine (header blk') = Some 0.
Proof.
  destruct (mine_complete sample_env sample_block 10 (2 ^ 64) sample_block_wf eq_refl ltac:(lia)
    10 (mkNode 0 1000) (sample_dir ++ [comma]) 0) as (blk' & E & D).
  - reflexivity.
  - reflexivity.
  - reflexivity.
  - apply sample_dirs_readable.
  - lia.
  - rewrite sample_deadlines. apply sample_early.
  - rewrite sample_deadlines. reflexivity.
  - exists blk'. split; [exact E|]. rewrite D, sample_deadlines. reflexivity.
Qed.

(** ** Properties *)

(** C6: what the miner reports, the verifier accepts.  When the readable plot
    files of the miner's plot id are genuine plots (as the plotter writes
    them) and no clock reading is 9999999999 seconds past [LastTime], a block
    that [mine] sends has the same body as the one to be sealed and its header
    passes [VerifySeal] on any node whose clock is at most 15 seconds behind
    the block's time. *)
Theorem mine_sound {H} `{Hasher H} {Tx} (env : Env) fuel (blk blk' : Block Tx) bt lt :
  block_wf blk -> LastTime (header blk) = Some lt -> 0 < bt ->
  genuine env (own_plot_id blk) ->
  (forall i, u64 (clock env i) <= lt + 9999999999) ->
  mine env fuel blk bt = Found blk' ->
  uncles blk' = uncles blk /\ transactions blk' = transactions blk /\
  forall now, val (Time (header blk')) - 15 <= u64 now -> VerifySeal now (header blk') = Ok tt.
Proof.
  intros Hwf Hlt Hbt Hg Hc Hm.
  pose proof (mine_sound_gen env blk lt bt Hwf Hlt Hbt fuel Hg) as Hs. rewrite Hm in Hs.
  destruct Hs as (b & i & Hb & Hlate & ->). split; [reflexivity|]. split; [reflexivity|].
  intros now Hnow. by apply (sealed_verifies env blk lt bt Hwf Hlt Hbt).
Qed.

Lemma mine_sound_witness :
  exists blk', mine sample_env 10 sample_block (2 ^ 64) = Found blk' /\
    forall now, val (Time (header blk')) - 15 <= u64 now -> VerifySeal now (header blk') = Ok tt.
Proof.
  destruct sample_found as (blk' & E & _). exists blk'. split; [exact E|].
  refine (proj2 (proj2 (mine_sound sample_env 10 sample_block blk' (2 ^ 64) 10
    sample_block_wf eq_refl eq_refl _ _ E))).
  - rewrite sample_plot_id. apply sample_genuine.
  - intros [|i]; vm_compute; discriminate.
Defined.

(** The miner finds the best deadline.  When mining is not aborted, every
    listed directory and plot file can be read and is genuine, the scan ends
    before the clock passes [LastTime], and the clock passes the best deadline
    within [W] polls after the scan, then [mine] reports a block (with any
    fuel above the file counts and [W]), and its deadline is the least over
    all authorised nonces of all plots. *)
Theorem mine_finds_best {H} `{Hasher H} {Tx} (env : Env) (blk : Block Tx) lt bt fuel node dirBytes W :
  block_wf blk -> LastTime (header blk) = Some lt -> 0 < bt ->
  GetNodeByPlotID env (own_plot_id blk) = Some node -> ReadFile env plot_path = Some dirBytes ->
  (forall i, aborted env i = false) ->
  Forall (readable_dir env (own_plot_id blk) fuel) (plot_dirs dirBytes) -> (W < fuel)%nat ->
  early env lt 0 (length (all_deadlines env blk bt node dirBytes)) ->
  let best := foldl Z.min 9999999999 (all_deadlines env blk bt node dirBytes) in
  best + lt < u64 (clock env (length (all_deadlines env blk bt node dirBytes) + W)) ->
  exists blk', mine env fuel blk bt = Found blk' /\ DeadLine (header blk') = Some best.
Proof. intros. by apply mine_complete with (lt := lt) (W := W). Qed.

Lemma mine_finds_best_witness :
  exists blk', mine sample_env 10 sample_block (2 ^ 64) = Found blk' /\
    DeadLine (header blk') = Some (foldl Z.min 9999999999
      (all_deadlines (H:=context) sample_env sample_block (2 ^ 64) (mkNode 0 1000) (sample_dir ++ [comma]))).
Proof.
  apply (mine_finds_best sample_env sample_block 10 (2 ^ 64) 10 (mkNode 0 1000) (sample_dir ++ [comma]) 0).
  - apply sample_block_wf.
  - reflexivity.
  - lia.
  - reflexivity.
  - reflexivity.
  - reflexivity.
  - apply sample_dirs_readable.
  - lia.
  - rewrite sample_deadlines. apply sample_early.
  - rewrite sample_deadlines. reflexivity.
Defined.
