(* ===== verification/Rlp.v ===== *)
(** * RLP encoding

    [src/rlp/encode.go] and [src/rlp/raw.go]: the encode buffer, in which list
    headers are kept apart from string data until the end, its three ways of
    producing output, and the raw splitting functions.  Values are trees with
    one constructor per writer that [makeWriter] can choose; reflection, which
    picks the writer from the Go type, is not modelled. *)
From S2P Require Import Prelude.

(** ** Sizes and integers *)

Inductive Kind := Byte | String | List.

#[export] Instance Kind_eq_dec : EqDecision Kind.
Proof. solve_decision. Defined.

(** [intsize]: [i] is a [uint64], so eight rounds are enough. *)
Fixpoint intsize_loop (fuel : nat) (size i : Z) : Z :=
  match fuel with
  | O => size
  | S fuel' =>
      let i := Z.shiftr i 8 in
      if i =? 0 then size else intsize_loop fuel' (size + 1) i
  end.
Definition intsize (i : Z) : Z := intsize_loop 8 1 i.

Definition headsize (size : Z) : Z := if size <? 56 then 1 else 1 + intsize size.

Definition ListSize (contentSize : Z) : Z := u64 (headsize contentSize + contentSize).

(** The bytes [putint] writes; their number is its result. *)
Definition putint (i : Z) : list Z :=
  let at_ k := u8 (Z.shiftr i k) in
  if i <? 2 ^ 8 then [u8 i]
  else if i <? 2 ^ 16 then [at_ 8; u8 i]
  else if i <? 2 ^ 24 then [at_ 16; at_ 8; u8 i]
  else if i <? 2 ^ 32 then [at_ 24; at_ 16; at_ 8; u8 i]
  else if i <? 2 ^ 40 then [at_ 32; at_ 24; at_ 16; at_ 8; u8 i]
  else if i <? 2 ^ 48 then [at_ 40; at_ 32; at_ 24; at_ 16; at_ 8; u8 i]
  else if i <? 2 ^ 56 then [at_ 48; at_ 40; at_ 32; at_ 24; at_ 16; at_ 8; u8 i]
  else [at_ 56; at_ 48; at_ 40; at_ 32; at_ 24; at_ 16; at_ 8; u8 i].

Definition putint_size (i : Z) : Z := Z.of_nat (length (putint i)).

(** The bytes [puthead] writes. *)
Definition puthead (smalltag largetag size : Z) : list Z :=
  if size <? 56 then [u8 (smalltag + u8 size)]
  else u8 (largetag + u8 (putint_size size)) :: putint size.

(** ** The encode buffer *)

Record listhead := mkHead { offset : Z; hsize : Z }.

Record encbuf := mkBuf { str : list Z; lheads : list listhead; lhsize : Z }.

Definition reset_buf : encbuf := mkBuf [] [] 0.

Definition append (w : encbuf) (b : list Z) : encbuf := mkBuf (str w ++ b) (lheads w) (lhsize w).

Definition buf_size (w : encbuf) : Z := Z.of_nat (length (str w)) + lhsize w.

(** [listhead.encode] *)
Definition head_encode (h : listhead) : list Z := puthead 0xC0 0xF7 (hsize h).

Definition encodeStringHeader (w : encbuf) (size : Z) : encbuf :=
  if size <? 56 then append w [u8 (0x80 + u8 size)]
  else append w (u8 (0xB7 + u8 (putint_size size)) :: putint size).

Definition encodeString (w : encbuf) (b : list Z) : encbuf :=
  match b with
  | [c] => if c <=? 0x7F then append w [c] else append (encodeStringHeader w 1) b
  | _ => append (encodeStringHeader w (Z.of_nat (length b))) b
  end.

(** [list] returns the position of the new header in [lheads]. *)
Definition buf_list (w : encbuf) : encbuf * nat :=
  (mkBuf (str w) (lheads w ++ [mkHead (Z.of_nat (length (str w))) (lhsize w)]) (lhsize w),
   length (lheads w)).

Definition listEnd (w : encbuf) (lh : nat) : encbuf :=
  match lheads w !! lh with
  | None => w
  | Some h =>
      let sz := buf_size w - offset h - hsize h in
      mkBuf (str w) (<[lh := mkHead (offset h) sz]> (lheads w))
        (lhsize w + (if sz <? 56 then 1 else 1 + intsize sz))
  end.

(** ** Writers *)

Inductive enc_error := errNegativeBigInt.

(** What a nil pointer is encoded as, by the kind of its target. *)
Inductive nilkind := NilByteArray | NilStruct.

Inductive value :=
  | VRaw (b : list Z)                (** [RawValue] *)
  | VUint (i : Z)
  | VBool (b : bool)
  | VBig (i : option Z)              (** [*big.Int] *)
  | VBytes (b : list Z)              (** [[]byte], byte arrays, strings *)
  | VNilInterface
  | VNilPtr (k : nilkind)
  | VList (l : list value).          (** slices and structs *)

Definition writeUint (w : encbuf) (i : Z) : encbuf :=
  if i =? 0 then append w [0x80]
  else if i <? 128 then append w [u8 i]
  else append w (u8 (0x80 + u8 (putint_size i)) :: putint i).

Definition writeBool (w : encbuf) (b : bool) : encbuf := append w [if b then 0x01 else 0x80].

(** [big.Int.Bytes]: the minimal big-endian magnitude. *)
Definition big_Bytes (i : Z) : list Z := be_put (Z.to_nat ((Z.log2 i + 8) / 8)) i.

Definition writeBigInt (w : encbuf) (i : Z) : outcome enc_error encbuf :=
  if i <? 0 then Err errNegativeBigInt
  else if i =? 0 then Ok (append w [0x80])
  else Ok (encodeString w (big_Bytes i)).

Definition writeBigIntPtr (w : encbuf) (p : option Z) : outcome enc_error encbuf :=
  match p with
  | None => Ok (append w [0x80])
  | Some i => writeBigInt w i
  end.

Fixpoint writer (v : value) (w : encbuf) {struct v} : outcome enc_error encbuf :=
  match v with
  | VRaw b => Ok (append w b)
  | VUint i => Ok (writeUint w i)
  | VBool b => Ok (writeBool w b)
  | VBig p => writeBigIntPtr w p
  | VBytes b => Ok (encodeString w b)
  | VNilInterface => Ok (append w [0xC0])
  | VNilPtr NilByteArray => Ok (append w [0x80])
  | VNilPtr NilStruct => let '(w, lh) := buf_list w in Ok (listEnd w lh)
  | VList l =>
      let '(w, lh) := buf_list w in
      w ← (fix write_all (l : list value) (w : encbuf) : outcome enc_error encbuf :=
             match l with
             | [] => Ok w
             | v :: l' => w ← writer v w; write_all l' w
             end) l w;
      Ok (listEnd w lh)
  end.

(** ** Output *)

(** Writing into the preallocated output at [pos]; not fitting panics. *)
Definition put_at (out : list Z) (pos : nat) (b : list Z) : option (list Z) :=
  if decide (pos + length b <= length out)%nat then Some (memcpy out pos b) else None.

(** The loop of [toBytes] over the list headers: output, [pos], [strpos]. *)
Fixpoint toBytes_loop (s : list Z) (heads : list listhead) (out : list Z) (pos strpos : nat)
    : option (list Z * nat * nat) :=
  match heads with
  | [] => Some (out, pos, strpos)
  | h :: heads' =>
      piece ← slice s strpos (Z.to_nat (offset h));
      let n := Nat.min (length piece) (length out - pos) in
      let out := memcpy out pos (take n piece) in
      let pos := (pos + n)%nat in
      let strpos := (strpos + n)%nat in
      let enc := head_encode h in
      out ← put_at out pos enc;
      toBytes_loop s heads' out (pos + length enc) strpos
  end.

Definition toBytes (w : encbuf) : option (list Z) :=
  '(out, pos, strpos) ← toBytes_loop (str w) (lheads w) (replicate (Z.to_nat (buf_size w)) 0) 0 0;
  piece ← slice (str w) strpos (length (str w));
  Some (memcpy out pos (take (length out - pos) piece)).

Definition EncodeToBytes (v : value) : outcome enc_error (list Z) :=
  w ← writer v reset_buf;
  or_panic (toBytes w).

(** The chunks [toWriter] passes to a writer that accepts everything. *)
Fixpoint toWriter_loop (s : list Z) (heads : list listhead) (strpos : nat) : option (list (list Z)) :=
  match heads with
  | [] => if (strpos <? length s)%nat then p ← slice s strpos (length s); Some [p] else Some []
  | h :: heads' =>
      let off := Z.to_nat (offset h) in
      if (strpos <? off)%nat then
        p ← slice s strpos off;
        rest ← toWriter_loop s heads' off;
        Some (p :: head_encode h :: rest)
      else
        rest ← toWriter_loop s heads' strpos;
        Some (head_encode h :: rest)
  end.
Definition toWriter (w : encbuf) : option (list (list Z)) := toWriter_loop (str w) (lheads w) 0.

(** ** Reading the encoding back in pieces *)

(** [encReader]; [None] for [buf] is the released buffer at EOF, [None] for
    [piece] is nil. *)
Record encReader := mkReader {
  rbuf : option encbuf; lhpos : nat; rstrpos : nat; piece : option (list Z)
}.

(** [next] returns the piece and the new positions. *)
Definition next (r : encReader) : option (option (list Z) * encReader) :=
  match rbuf r with
  | None => Some (None, r)
  | Some w =>
      match piece r with
      | Some p => Some (Some p, r)
      | None =>
          match lheads w !! lhpos r with
          | Some h =>
              let off := Z.to_nat (offset h) in
              if (rstrpos r <? off)%nat then
                p ← slice (str w) (rstrpos r) off;
                Some (Some p, mkReader (Some w) (lhpos r) off None)
              else Some (Some (head_encode h), mkReader (Some w) (S (lhpos r)) (rstrpos r) None)
          | None =>
              if (rstrpos r <? length (str w))%nat then
                p ← slice (str w) (rstrpos r) (length (str w));
                Some (Some p, mkReader (Some w) (lhpos r) (length (str w)) None)
              else Some (None, r)
          end
      end
  end.

(** [Read] into a buffer with room for [room] bytes: the bytes delivered, and
    whether [io.EOF] came with them. *)
Fixpoint Read_loop (fuel : nat) (r : encReader) (room : nat) (got : list Z)
    : option (list Z * bool * encReader) :=
  match fuel with
  | O => None
  | S fuel' =>
      '(p, r) ← next r;
      match p with
      | None => Some (got, true, mkReader None (lhpos r) (rstrpos r) None)
      | Some p =>
          let nn := Nat.min room (length p) in
          let got := got ++ take nn p in
          if (nn <? length p)%nat
          then Some (got, false, mkReader (rbuf r) (lhpos r) (rstrpos r) (Some (drop nn p)))
          else Read_loop fuel' (mkReader (rbuf r) (lhpos r) (rstrpos r) None) (room - nn) got
      end
  end.

(** The pieces left: two per header and one at the end. *)
Definition Read (r : encReader) (room : nat) : option (list Z * bool * encReader) :=
  Read_loop (match rbuf r with None => 1 | Some w => 3 + 2 * length (lheads w) end) r room [].

Definition EncodeToReader (v : value) : outcome enc_error (Z * encReader) :=
  w ← writer v reset_buf;
  Ok (buf_size w, mkReader (Some w) 0 0 None).

(** ** Raw access *)

Inductive rlp_error :=
  | ErrUnexpectedEOF | EOF | EOL | ErrExpectedString | ErrExpectedList | ErrCanonInt
  | ErrCanonSize | ErrElemTooLarge | ErrValueTooLarge | ErrMoreThanOneValue
  | errNotInList | errNotAtEOL | errUintOverflow | errTooFewElements | errInvalidBool
  | errStringTooLong | errStringTooShort.

#[export] Instance rlp_error_eq_dec : EqDecision rlp_error.
Proof. solve_decision. Defined.

(** [b[0]<<8*(n-1) | ... | b[n-1]] *)
Fixpoint lor_be (l : list Z) : Z :=
  match l with
  | [] => 0
  | c :: l' => Z.lor (u64 (Z.shiftl c (8 * Z.of_nat (length l')))) (lor_be l')
  end.

Definition readSize (b : list Z) (slen : nat) : outcome rlp_error Z :=
  _ ← guard_err (length b <? slen)%nat ErrUnexpectedEOF;
  let s := lor_be (take slen b) in
  if s <? 56 then Err ErrCanonSize
  else
    b0 ← or_panic (b !! 0%nat);
    if b0 =? 0 then Err ErrCanonSize else Ok s.

Definition readKind (buf : list Z) : outcome rlp_error (Kind * Z * Z) :=
  match buf with
  | [] => Err ErrUnexpectedEOF
  | b :: tl =>
      '(k, tagsize, contentsize) ←
        (if b <? 0x80 then Ok (Byte, 0, 1)
         else if b <? 0xB8 then
           let cs := b - 0x80 in
           if cs =? 1 then
             c ← or_panic (tl !! 0%nat);
             if c <? 128 then Err ErrCanonSize else Ok (String, 1, cs)
           else Ok (String, 1, cs)
         else if b <? 0xC0 then
           cs ← readSize tl (Z.to_nat (b - 0xB7)); Ok (String, b - 0xB7 + 1, cs)
         else if b <? 0xF8 then Ok (List, 1, b - 0xC0)
         else cs ← readSize tl (Z.to_nat (b - 0xF7)); Ok (List, b - 0xF7 + 1, cs));
      if u64 (Z.of_nat (length buf) - tagsize) <? contentsize then Err ErrValueTooLarge
      else Ok (k, tagsize, contentsize)
  end.

Definition Split (b : list Z) : outcome rlp_error (Kind * list Z * list Z) :=
  '(k, ts, cs) ← readKind b;
  content ← or_panic (slice b (Z.to_nat ts) (Z.to_nat (ts + cs)));
  rest ← or_panic (slice b (Z.to_nat (ts + cs)) (length b));
  Ok (k, content, rest).

Definition SplitString (b : list Z) : outcome rlp_error (list Z * list Z) :=
  '(k, content, rest) ← Split b;
  if decide (k = List) then Err ErrExpectedString else Ok (content, rest).

Definition SplitList (b : list Z) : outcome rlp_error (list Z * list Z) :=
  '(k, content, rest) ← Split b;
  if decide (k = List) then Ok (content, rest) else Err ErrExpectedList.

(** [CountValues]; every value takes at least one byte. *)
Fixpoint CountValues_loop (fuel : nat) (i : Z) (b : list Z) : outcome rlp_error Z :=
  match b, fuel with
  | [], _ => Ok i
  | _, O => Panic
  | _, S fuel' =>
      '(_, tagsize, size) ← readKind b;
      b ← or_panic (slice b (Z.to_nat (tagsize + size)) (length b));
      CountValues_loop fuel' (i + 1) b
  end.
Definition CountValues (b : list Z) : outcome rlp_error Z := CountValues_loop (length b) 0 b.

(** ** Facts on sizes *)

Lemma intsize_loop_spec fuel size i (k : nat) :
  (1 <= k <= fuel)%nat -> 0 <= i < 256 ^ Z.of_nat k -> (k = 1%nat \/ 256 ^ (Z.of_nat k - 1) <= i) ->
  intsize_loop fuel size i = size + Z.of_nat k - 1.
Proof.
  revert size i k. induction fuel as [|fuel IH]; intros size i k Hk Hi Hlow; [lia|].
  simpl intsize_loop. rewrite Z.shiftr_div_pow2 by lia. change (2 ^ 8) with 256.
  destruct (Nat.eq_dec k 1) as [->|Hk1].
  - rewrite Z.div_small by lia. simpl. lia.
  - destruct Hlow as [|Hlow]; [done|].
    assert (256 ^ (Z.of_nat k - 1) = 256 * 256 ^ (Z.of_nat k - 2)) as E.
    { rewrite <-Z.pow_succ_r by lia. f_equal. lia. }
    assert (256 ^ Z.of_nat k = 256 * 256 ^ (Z.of_nat k - 1)) as E'.
    { rewrite <-Z.pow_succ_r by lia. f_equal. lia. }
    assert (0 < 256 ^ (Z.of_nat k - 2)) by (apply Z.pow_pos_nonneg; lia).
    assert (256 ^ (Z.of_nat k - 2) <= i / 256) by (apply Z.div_le_lower_bound; lia).
    assert (i / 256 < 256 ^ (Z.of_nat k - 1)) by (apply Z.div_lt_upper_bound; lia).
    destruct (Z.eqb_spec (i / 256) 0); [lia|].
    rewrite (IH (size + 1) (i / 256) (k - 1)%nat); [lia|lia| |].
    + replace (Z.of_nat (k - 1)) with (Z.of_nat k - 1) by lia. lia.
    + destruct (Nat.eq_dec k 2) as [->|]; [by left|right].
      by replace (Z.of_nat (k - 1) - 1) with (Z.of_nat k - 2) by lia.
Qed.

(** [k] is the number of bytes of [i]. *)
Record byte_size (i : Z) (k : nat) : Prop := {
  bs_range : (1 <= k <= 8)%nat;
  bs_upper : 0 <= i < 256 ^ Z.of_nat k;
  bs_lower : k = 1%nat \/ 256 ^ (Z.of_nat k - 1) <= i
}.

Lemma putint_cases i :
  0 <= i < 2 ^ 64 -> exists k, byte_size i k /\ putint i = be_put k i.
Proof.
  intros Hi. unfold putint. cbv zeta.
  destruct (Z.ltb_spec i (2 ^ 8));
    [exists 1%nat; split; [split; [lia|simpl; lia|by left]|simpl; by rewrite Z.shiftr_0_r]|].
  destruct (Z.ltb_spec i (2 ^ 16));
    [exists 2%nat; split; [split; [lia|simpl; lia|right; simpl; lia]|simpl; by rewrite Z.shiftr_0_r]|].
  destruct (Z.ltb_spec i (2 ^ 24));
    [exists 3%nat; split; [split; [lia|simpl; lia|right; simpl; lia]|simpl; by rewrite Z.shiftr_0_r]|].
  destruct (Z.ltb_spec i (2 ^ 32));
    [exists 4%nat; split; [split; [lia|simpl; lia|right; simpl; lia]|simpl; by rewrite Z.shiftr_0_r]|].
  destruct (Z.ltb_spec i (2 ^ 40));
    [exists 5%nat; split; [split; [lia|simpl; lia|right; simpl; lia]|simpl; by rewrite Z.shiftr_0_r]|].
  destruct (Z.ltb_spec i (2 ^ 48));
    [exists 6%nat; split; [split; [lia|simpl; lia|right; simpl; lia]|simpl; by rewrite Z.shiftr_0_r]|].
  destruct (Z.ltb_spec i (2 ^ 56));
    [exists 7%nat; split; [split; [lia|simpl; lia|right; simpl; lia]|simpl; by rewrite Z.shiftr_0_r]|].
  exists 8%nat. split; [split; [lia|simpl; lia|right; simpl; lia]|simpl; by rewrite Z.shiftr_0_r].
Qed.

Lemma byte_size_intsize i k : byte_size i k -> intsize i = Z.of_nat k.
Proof.
  intros []. unfold intsize. rewrite (intsize_loop_spec 8 1 i k) by done. lia.
Qed.

(** [putint] writes the minimal big-endian form, [intsize] bytes long. *)
Lemma putint_spec i :
  0 <= i < 2 ^ 64 ->
  byte_size i (Z.to_nat (intsize i)) /\ putint i = be_put (Z.to_nat (intsize i)) i /\
  putint_size i = intsize i /\ 1 <= intsize i <= 8.
Proof.
  intros Hi. destruct (putint_cases i Hi) as (k & Hk & E).
  unfold putint_size. rewrite E, length_be_put, (byte_size_intsize _ _ Hk), Nat2Z.id.
  destruct Hk. repeat split; try done; lia.
Qed.

Lemma byte_size_head i k : byte_size i k -> 0 < i -> exists c l, be_put k i = c :: l /\ 0 < c.
Proof.
  intros [Hr Hu Hl] Hpos. destruct k as [|k]; [lia|]. simpl be_put. eexists _, _. split; [done|].
  unfold u8. rewrite Z.shiftr_div_pow2 by lia.
  replace (2 ^ (8 * Z.of_nat k)) with (256 ^ Z.of_nat k) by (rewrite Z.pow_mul_r by lia; f_equal; lia).
  replace (Z.of_nat (S k) - 1) with (Z.of_nat k) in Hl by lia.
  rewrite Nat2Z.inj_succ, Z.pow_succ_r in Hu by lia.
  assert (0 < 256 ^ Z.of_nat k) by (apply Z.pow_pos_nonneg; lia).
  assert (256 ^ Z.of_nat k <= i) as Hle.
  { destruct Hl as [Hk|]; [|done]. replace (Z.of_nat k) with 0 by lia. simpl. lia. }
  assert (1 <= i / 256 ^ Z.of_nat k) by (apply Z.div_le_lower_bound; lia).
  assert (i / 256 ^ Z.of_nat k < 256) by (apply Z.div_lt_upper_bound; lia).
  rewrite Z.mod_small by lia. lia.
Qed.

Lemma puthead_length s l n :
  0 <= n < 2 ^ 64 -> Z.of_nat (length (puthead s l n)) = headsize n.
Proof.
  intros Hn. unfold puthead, headsize. destruct (Z.ltb_spec n 56); [done|].
  destruct (putint_spec n Hn) as (_ & _ & E & _). simpl length. unfold putint_size in E. lia.
Qed.

(** ** The encoding as a function

    The RLP rules: a single byte below 0x80 is itself, a string has a 0x80 or
    0xB7 header, a list has a 0xC0 or 0xF7 header over its items. *)
Definition enc_str (b : list Z) : list Z :=
  match b with
  | [c] => if c <=? 0x7F then [c] else puthead 0x80 0xB7 1 ++ b
  | _ => puthead 0x80 0xB7 (Z.of_nat (length b)) ++ b
  end.

Definition enc_list (p : list Z) : list Z := puthead 0xC0 0xF7 (Z.of_nat (length p)) ++ p.

(** An integer is the string of its minimal big-endian bytes. *)
Definition min_bytes (i : Z) : list Z := if i =? 0 then [] else big_Bytes i.

Fixpoint rlp (v : value) : outcome enc_error (list Z) :=
  match v with
  | VRaw b => Ok b
  | VUint i => Ok (enc_str (min_bytes i))
  | VBool b => Ok (enc_str (if b then [1] else []))
  | VBig None => Ok (enc_str [])
  | VBig (Some i) => if i <? 0 then Err errNegativeBigInt else Ok (enc_str (min_bytes i))
  | VBytes b => Ok (enc_str b)
  | VNilInterface => Ok (enc_list [])
  | VNilPtr NilByteArray => Ok (enc_str [])
  | VNilPtr NilStruct => Ok (enc_list [])
  | VList l =>
      p ← (fix rlp_all (l : list value) : outcome enc_error (list Z) :=
             match l with
             | [] => Ok []
             | v :: l' => a ← rlp v; b ← rlp_all l'; Ok (a ++ b)
             end) l;
      Ok (enc_list p)
  end.

(** The element loops, as functions of their own. *)
Fixpoint write_all (l : list value) (w : encbuf) : outcome enc_error encbuf :=
  match l with
  | [] => Ok w
  | v :: l' => w ← writer v w; write_all l' w
  end.

Fixpoint rlp_all (l : list value) : outcome enc_error (list Z) :=
  match l with
  | [] => Ok []
  | v :: l' => a ← rlp v; b ← rlp_all l'; Ok (a ++ b)
  end.

Lemma writer_list l w :
  writer (VList l) w
  = let '(w, lh) := buf_list w in w ← write_all l w; Ok (listEnd w lh).
Proof. reflexivity. Qed.

Lemma rlp_list l : rlp (VList l) = p ← rlp_all l; Ok (enc_list p).
Proof. reflexivity. Qed.

Fixpoint value_tree_ind (P : value -> Prop)
  (Hraw : forall b, P (VRaw b)) (Huint : forall i, P (VUint i)) (Hbool : forall b, P (VBool b))
  (Hbig : forall i, P (VBig i)) (Hbytes : forall b, P (VBytes b)) (Hni : P VNilInterface)
  (Hnp : forall k, P (VNilPtr k)) (Hlist : forall l, Forall P l -> P (VList l)) (v : value) : P v :=
  match v with
  | VRaw b => Hraw b | VUint i => Huint i | VBool b => Hbool b | VBig i => Hbig i
  | VBytes b => Hbytes b | VNilInterface => Hni | VNilPtr k => Hnp k
  | VList l => Hlist l ((fix go (l : list value) : Forall P l :=
      match l with
      | [] => List.Forall_nil P
      | v :: l' => List.Forall_cons P _ _
          (value_tree_ind P Hraw Huint Hbool Hbig Hbytes Hni Hnp Hlist v) (go l')
      end) l)
  end.

(** ** What a buffer stands for

    [flat base s hs]: string data [s] starting at offset [base], with the
    headers [hs] put in at their offsets. *)
Fixpoint flat (base : nat) (s : list Z) (hs : list listhead) : list Z :=
  match hs with
  | [] => s
  | h :: hs' =>
      let n := (Z.to_nat (offset h) - base)%nat in
      take n s ++ head_encode h ++ flat (Z.to_nat (offset h)) (drop n s) hs'
  end.

(** Offsets lie within the data and do not decrease. *)
Fixpoint placed (base : nat) (len : nat) (hs : list listhead) : Prop :=
  match hs with
  | [] => True
  | h :: hs' => 0 <= offset h /\ (base <= Z.to_nat (offset h) <= len)%nat /\
      placed (Z.to_nat (offset h)) len hs'
  end.

Definition heads_size (hs : list listhead) : Z :=
  foldr (fun h acc => Z.of_nat (length (head_encode h)) + acc) 0 hs.

Lemma heads_size_app hs1 hs2 : heads_size (hs1 ++ hs2) = heads_size hs1 + heads_size hs2.
Proof. induction hs1; simpl; lia. Qed.

Lemma heads_size_nonneg hs : 0 <= heads_size hs.
Proof. induction hs; simpl; lia. Qed.

Lemma flat_length base s hs :
  placed base (base + length s) hs ->
  Z.of_nat (length (flat base s hs)) = Z.of_nat (length s) + heads_size hs.
Proof.
  revert base s. induction hs as [|h hs IH]; intros base s Hp; simpl in *; [lia|].
  destruct Hp as (H0 & Hb & Hp). rewrite !length_app, length_take.
  specialize (IH (Z.to_nat (offset h)) (drop (Z.to_nat (offset h) - base) s)).
  rewrite length_drop in IH. rewrite !Nat2Z.inj_add, IH; [lia|].
  by replace (Z.to_nat (offset h) + (length s - (Z.to_nat (offset h) - base)))%nat
    with (base + length s)%nat by lia.
Qed.

Lemma placed_weaken base base' len hs : placed base len hs -> (base' <= base)%nat -> placed base' len hs.
Proof. destruct hs; simpl; [done|]. intros (? & ? & ?) ?. repeat split; (done || lia). Qed.

Lemma placed_extend base len len' hs : placed base len hs -> (len <= len')%nat -> placed base len' hs.
Proof.
  revert base. induction hs as [|h hs IH]; intros base; simpl; [done|].
  intros (? & ? & ?) ?. repeat split; [done|lia|lia|]. by apply IH.
Qed.

Lemma placed_app base m len hs1 hs2 :
  placed base m hs1 -> placed m len hs2 -> (base <= m <= len)%nat -> placed base len (hs1 ++ hs2).
Proof.
  revert base. induction hs1 as [|h hs1 IH]; intros base; simpl.
  - intros _ H2 Hle. eapply placed_weaken; [done|lia].
  - intros (? & ? & ?) ??. repeat split; [done|lia|lia|]. apply IH; (done || lia).
Qed.

(** Two consecutive stretches of data. *)
Lemma flat_app base s1 s2 hs1 hs2 :
  placed base (base + length s1) hs1 ->
  placed (base + length s1) (base + length s1 + length s2) hs2 ->
  flat base (s1 ++ s2) (hs1 ++ hs2) = flat base s1 hs1 ++ flat (base + length s1) s2 hs2.
Proof.
  revert base s1. induction hs1 as [|h hs1 IH]; intros base s1 H1 H2; simpl in *.
  - destruct hs2 as [|h hs2]; simpl; [done|]. destruct H2 as (_ & Hb & _).
    replace (Z.to_nat (offset h) - base)%nat with (length s1 + (Z.to_nat (offset h) - (base + length s1)))%nat by lia.
    rewrite take_app_add, drop_app_add, <-app_assoc. done.
  - destruct H1 as (H0 & Hb & H1).
    rewrite take_app_le, drop_app_le by lia. rewrite IH.
    + rewrite length_drop, <-!app_assoc. do 3 f_equal.
      by replace (Z.to_nat (offset h) + (length s1 - (Z.to_nat (offset h) - base)))%nat
        with (base + length s1)%nat by lia.
    + rewrite length_drop. by replace (Z.to_nat (offset h) + (length s1 - (Z.to_nat (offset h) - base)))%nat
        with (base + length s1)%nat by lia.
    + rewrite length_drop. by replace (Z.to_nat (offset h) + (length s1 - (Z.to_nat (offset h) - base)))%nat
        with (base + length s1)%nat by lia.
Qed.

(** ** The writers produce the encoding *)

(** Writing [b] to [w] appends data and headers that stand for [b]. *)
Definition writes (w w' : encbuf) (b : list Z) : Prop :=
  exists s hs, w' = mkBuf (str w ++ s) (lheads w ++ hs) (lhsize w + heads_size hs) /\
    placed (length (str w)) (length (str w) + length s) hs /\
    flat (length (str w)) s hs = b.

Lemma writes_append w b : writes w (append w b) b.
Proof.
  exists b, []. unfold append. rewrite app_nil_r. simpl. rewrite Z.add_0_r. done.
Qed.

Lemma append_append w a b : append (append w a) b = append w (a ++ b).
Proof. unfold append. simpl. by rewrite app_assoc. Qed.

Lemma writes_append_eq w b b' : b = b' -> writes w (append w b) b'.
Proof. intros <-. apply writes_append. Qed.

Lemma writes_trans w w1 w2 b1 b2 : writes w w1 b1 -> writes w1 w2 b2 -> writes w w2 (b1 ++ b2).
Proof.
  intros (s1 & h1 & -> & P1 & <-) (s2 & h2 & -> & P2 & <-). simpl in *.
  rewrite length_app in *. exists (s1 ++ s2), (h1 ++ h2). split; [|split].
  - rewrite !app_assoc, heads_size_app. f_equal. lia.
  - rewrite length_app. eapply placed_app; [exact P1| |lia]. by rewrite Nat.add_assoc.
  - apply flat_app; [done|]. done.
Qed.

Lemma encodeString_writes w b : writes w (encodeString w b) (enc_str b).
Proof.
  assert (forall n, encodeStringHeader w n = append w (puthead 0x80 0xB7 n)) as Hh.
  { intros n. unfold encodeStringHeader, puthead. by destruct (n <? 56). }
  unfold encodeString, enc_str.
  destruct b as [|c [|d l] ]; rewrite ?Hh, ?append_append; try apply writes_append.
  destruct (c <=? 0x7F); apply writes_append.
Qed.

Lemma big_Bytes_uint i :
  0 < i < 2 ^ 64 -> big_Bytes i = putint i /\ putint_size i = Z.of_nat (length (big_Bytes i)).
Proof.
  intros Hi. destruct (putint_spec i) as (Hb & E & E' & Hr); [lia|].
  unfold big_Bytes. destruct Hb as [Hk Hu Hl].
  assert (Z.to_nat ((Z.log2 i + 8) / 8) = Z.to_nat (intsize i)) as ->.
  { set (k := Z.of_nat (Z.to_nat (intsize i))) in *.
    assert (Z.log2 i < 8 * k).
    { apply Z.log2_lt_pow2; [lia|]. replace (2 ^ (8 * k)) with (256 ^ k); [lia|].
      rewrite Z.pow_mul_r by lia. done. }
    assert (8 * (k - 1) <= Z.log2 i).
    { destruct Hl as [Hl|Hl]; [pose proof (Z.log2_nonneg i); lia|].
      apply Z.log2_le_pow2; [lia|]. replace (2 ^ (8 * (k - 1))) with (256 ^ (k - 1)); [lia|].
      rewrite Z.pow_mul_r by lia. done. }
    assert ((Z.log2 i + 8) / 8 = k) as -> by (symmetry; apply Z.div_unique with (Z.log2 i - 8 * (k - 1)); lia).
    lia. }
  rewrite <-E. split; [done|]. rewrite E'. unfold putint_size in E'. lia.
Qed.

Lemma enc_str_long l :
  (forall c, l = [c] -> 0x7F < c) -> enc_str l = puthead 0x80 0xB7 (Z.of_nat (length l)) ++ l.
Proof.
  intros Hc. destruct l as [|c [|d l] ]; try done. unfold enc_str.
  rewrite (proj2 (Z.leb_gt _ _)); [done|]. by apply Hc.
Qed.

Lemma writeUint_writes w i : 0 <= i < 2 ^ 64 -> writes w (writeUint w i) (enc_str (min_bytes i)).
Proof.
  intros Hi. unfold writeUint, min_bytes.
  destruct (Z.eqb_spec i 0) as [->|]; [apply writes_append_eq; reflexivity|].
  destruct (big_Bytes_uint i) as [E1 E2]; [lia|].
  destruct (Z.ltb_spec i 128).
  - apply writes_append_eq. rewrite E1. unfold putint. cbv zeta.
    rewrite (proj2 (Z.ltb_lt _ _)) by lia. unfold enc_str, u8. rewrite Z.mod_small by lia.
    by rewrite (proj2 (Z.leb_le _ _)) by lia.
  - apply writes_append_eq. rewrite E1 in *.
    destruct (putint_spec i Hi) as ([_ Hu _] & E & Es & Hr).
    rewrite enc_str_long.
    + rewrite <-E2. unfold puthead. rewrite (proj2 (Z.ltb_lt _ _)) by lia. done.
    + intros c Hc. apply (f_equal be_get) in E. rewrite Hc, be_get_put_small in E by done.
      unfold be_get in E. simpl in E. lia.
Qed.

(** Closing a list whose elements stand for [p]. *)
Lemma list_writes w w' p :
  Z.of_nat (length p) < 2 ^ 64 ->
  writes (buf_list w).1 w' p -> writes w (listEnd w' (buf_list w).2) (enc_list p).
Proof.
  intros Hlen (s & hs & -> & Hp & Hf). cbn [buf_list fst snd str lheads lhsize] in *.
  pose proof (flat_length _ _ _ Hp) as Hfl. rewrite Hf in Hfl.
  unfold listEnd. cbn [lheads].
  rewrite <-app_assoc. cbn [app]. rewrite list_lookup_middle by done. cbv zeta. cbn [offset hsize].
  assert (buf_size (mkBuf (str w ++ s) (lheads w ++ mkHead (Z.of_nat (length (str w))) (lhsize w) :: hs)
    (lhsize w + heads_size hs)) - Z.of_nat (length (str w)) - lhsize w = Z.of_nat (length p)) as ->.
  { unfold buf_size. cbn [str lhsize]. rewrite length_app. lia. }
  set (h := mkHead (Z.of_nat (length (str w))) (Z.of_nat (length p))).
  exists s, (h :: hs). split; [|split].
  - cbn [str lhsize]. f_equal; [by rewrite insert_app_r_alt, Nat.sub_diag by lia|].
    simpl heads_size. unfold h at 1, head_encode. cbn [hsize].
    rewrite puthead_length by lia. unfold headsize. lia.
  - simpl. repeat split; [lia..|]. by rewrite Nat2Z.id.
  - cbn [flat]. change (offset h) with (Z.of_nat (length (str w))). rewrite Nat2Z.id, Nat.sub_diag.
    rewrite take_0, drop_0, Hf. done.
Qed.

(** Unsigned integers in range. *)
Fixpoint value_ok (v : value) : Prop :=
  match v with
  | VUint i => 0 <= i < 2 ^ 64
  | VList l => (fix all (l : list value) := match l with [] => True | v :: l' => value_ok v /\ all l' end) l
  | _ => True
  end.

Lemma value_ok_list l : value_ok (VList l) <-> Forall value_ok l.
Proof.
  simpl. induction l as [|v l IH]; split.
  - constructor.
  - done.
  - intros [? ?]. constructor; [done|by apply IH].
  - intros Hf. inversion Hf; subst. split; [done|by apply IH].
Qed.

Lemma rlp_not_panic v : rlp v <> Panic.
Proof.
  induction v as [b|i|b|p|b| |k|l Hl] using value_tree_ind; try done.
  - destruct p as [i|]; simpl; [|done]. by destruct (i <? 0).
  - by destruct k.
  - rewrite rlp_list. assert (rlp_all l <> Panic) as Ha.
    { induction Hl as [|v l Hv Hl IH]; simpl; [done|].
      destruct (rlp v); [|done|done]. rewrite ok_bind. by destruct (rlp_all l). }
    by destruct (rlp_all l).
Qed.

Definition writes_ok (v : value) : Prop := forall w,
  match rlp v with
  | Ok b => exists w', writer v w = Ok w' /\ (Z.of_nat (length b) < 2 ^ 64 -> writes w w' b)
  | Err e => writer v w = Err e
  | Panic => True
  end.

Lemma write_all_ok l w :
  Forall writes_ok l ->
  match rlp_all l with
  | Ok b => exists w', write_all l w = Ok w' /\ (Z.of_nat (length b) < 2 ^ 64 -> writes w w' b)
  | Err e => write_all l w = Err e
  | Panic => True
  end.
Proof.
  intros Hl. revert w. induction Hl as [|v l Hv Hl IH]; intros w; simpl.
  - exists w. split; [done|]. intros _. exists [], []. rewrite !app_nil_r. simpl.
    rewrite Z.add_0_r. by destruct w.
  - specialize (Hv w). destruct (rlp v) as [a|e|]; [|by rewrite Hv|done]. rewrite ok_bind.
    destruct Hv as (w1 & -> & Hw1). rewrite ok_bind. specialize (IH w1).
    destruct (rlp_all l) as [b|e|]; [|done|done]. rewrite ok_bind.
    destruct IH as (w2 & -> & Hw2). exists w2. split; [done|]. rewrite length_app. intros Hb.
    apply writes_trans with w1; [apply Hw1|apply Hw2]; lia.
Qed.

Lemma writer_ok v : value_ok v -> writes_ok v.
Proof.
  induction v as [b|i|b|p|b| |k|l Hl] using value_tree_ind; intros Hok w;
    [cbn [rlp writer]..|].
  - eexists. split; [done|]. intros _. apply writes_append.
  - eexists. split; [done|]. intros _. by apply writeUint_writes.
  - eexists. split; [done|]. intros _. apply writes_append_eq. by destruct b.
  - destruct p as [i|]; simpl; [|eexists; split; [done|]; intros _; by apply writes_append_eq].
    unfold writeBigInt, min_bytes. destruct (Z.ltb_spec i 0); [done|].
    destruct (Z.eqb_spec i 0); eexists; (split; [done|]); intros _;
      [by apply writes_append_eq|apply encodeString_writes].
  - eexists. split; [done|]. intros _. apply encodeString_writes.
  - eexists. split; [done|]. intros _. by apply writes_append_eq.
  - destruct k; eexists; (split; [done|]); intros _; [by apply writes_append_eq|].
    apply (list_writes w (buf_list w).1 []); [simpl; lia|]. exists [], []. rewrite !app_nil_r. simpl.
    rewrite Z.add_0_r. done.
  - rewrite writer_list, rlp_list. apply value_ok_list in Hok.
    assert (Forall writes_ok l) as Hall.
    { rewrite Forall_forall in Hl, Hok |- *. auto. }
    pose proof (write_all_ok l (buf_list w).1 Hall) as Hw. destruct (buf_list w) as [w0 lh] eqn:E0.
    cbn [fst] in Hw.
    destruct (rlp_all l) as [p|e|]; [|by rewrite Hw|done]. rewrite ok_bind.
    destruct Hw as (w' & -> & Hw). rewrite ok_bind. eexists. split; [done|]. intros Hlen.
    unfold enc_list in Hlen. rewrite length_app in Hlen.
    replace w0 with (buf_list w).1 in Hw by (by rewrite E0).
    replace lh with (buf_list w).2 by (by rewrite E0).
    apply list_writes; [lia|]. apply Hw. lia.
Qed.

(** ** The three ways out of the buffer agree *)

Lemma head_encode_nonempty h : (0 < length (head_encode h))%nat.
Proof. unfold head_encode, puthead. destruct (_ <? _); simpl; lia. Qed.

Lemma drop_to {A} (s : list A) a b : (a <= b)%nat -> drop (b - a) (drop a s) = drop b s.
Proof. intros. rewrite drop_drop. f_equal. lia. Qed.

Lemma flat_cons_at s h hs strpos :
  (strpos <= Z.to_nat (offset h))%nat ->
  flat strpos (drop strpos s) (h :: hs)
  = take (Z.to_nat (offset h) - strpos) (drop strpos s) ++ head_encode h
    ++ flat (Z.to_nat (offset h)) (drop (Z.to_nat (offset h)) s) hs.
Proof. intros. cbn [flat]. by rewrite drop_to. Qed.

Lemma toBytes_loop_ok s heads out pos strpos :
  placed strpos (length s) heads -> (strpos <= length s)%nat -> (pos <= length out)%nat ->
  (length out - pos = length (flat strpos (drop strpos s) heads))%nat ->
  exists out' pos' strpos', toBytes_loop s heads out pos strpos = Some (out', pos', strpos') /\
    (strpos' <= length s)%nat /\ (pos' + length (drop strpos' s) = length out')%nat /\
    take pos' out' ++ drop strpos' s = take pos out ++ flat strpos (drop strpos s) heads.
Proof.
  revert out pos strpos. induction heads as [|h heads IH]; intros out pos strpos Hp Hs Ho Hl.
  - exists out, pos, strpos. simpl in *. repeat split; (done || lia).
  - destruct Hp as (H0 & Hb & Hp). cbn [toBytes_loop]. rewrite slice_Some, some_bind by lia. cbv zeta.
    rewrite flat_cons_at in Hl |- * by lia.
    set (p := take (Z.to_nat (offset h) - strpos) (drop strpos s)) in *.
    assert (length p = Z.to_nat (offset h) - strpos)%nat as Hlp
      by (unfold p; rewrite length_take, length_drop; lia).
    rewrite !length_app in Hl.
    rewrite Nat.min_l by lia. rewrite (take_ge p) by lia.
    set (out1 := memcpy out pos p).
    assert (length out1 = length out) as Hl1 by (apply length_memcpy; lia).
    unfold put_at. rewrite decide_True by lia. rewrite some_bind.
    set (out2 := memcpy out1 (pos + length p) (head_encode h)).
    assert (length out2 = length out) as Hl2 by (unfold out2; rewrite length_memcpy; lia).
    replace (strpos + length p)%nat with (Z.to_nat (offset h)) by lia.
    destruct (IH out2 (pos + length p + length (head_encode h))%nat (Z.to_nat (offset h)))
      as (out' & pos' & strpos' & E & Hs' & Hl' & Ht); [done|lia|lia|lia|].
    exists out', pos', strpos'. split; [done|]. split; [done|]. split; [done|].
    rewrite Ht. unfold out2. rewrite take_memcpy by lia. unfold out1. rewrite take_memcpy by lia.
    by rewrite <-!app_assoc.
Qed.

Lemma toBytes_ok w :
  placed 0 (length (str w)) (lheads w) -> lhsize w = heads_size (lheads w) ->
  toBytes w = Some (flat 0 (str w) (lheads w)).
Proof.
  intros Hp Hs. unfold toBytes.
  pose proof (flat_length 0 (str w) (lheads w) Hp) as Hfl.
  destruct (toBytes_loop_ok (str w) (lheads w) (replicate (Z.to_nat (buf_size w)) 0) 0 0)
    as (out & pos & strpos & -> & Hsp & Hl & E); [done|lia|lia| |].
  { rewrite length_replicate, drop_0. unfold buf_size. lia. }
  rewrite some_bind. rewrite length_drop in Hl. rewrite slice_Some, some_bind by lia. f_equal.
  rewrite drop_0, take_0 in E. simpl in E. rewrite <-E.
  rewrite (take_ge (drop strpos (str w))) by (rewrite length_drop; lia).
  rewrite take_ge by (rewrite length_drop; lia). unfold memcpy.
  rewrite (drop_ge out) by (rewrite length_drop; lia). by rewrite app_nil_r.
Qed.

Lemma toWriter_loop_ok s heads strpos :
  placed strpos (length s) heads -> (strpos <= length s)%nat ->
  exists chunks, toWriter_loop s heads strpos = Some chunks /\
    concat chunks = flat strpos (drop strpos s) heads.
Proof.
  revert strpos. induction heads as [|h heads IH]; intros strpos Hp Hs; cbn [toWriter_loop].
  - destruct (Nat.ltb_spec strpos (length s)).
    + rewrite slice_Some, some_bind by lia. eexists. split; [done|]. simpl.
      rewrite app_nil_r. apply take_ge. rewrite length_drop. lia.
    + eexists. split; [done|]. simpl. by rewrite drop_ge by lia.
  - destruct Hp as (H0 & Hb & Hp). cbv zeta. rewrite flat_cons_at by lia.
    destruct (IH (Z.to_nat (offset h)) Hp) as (chunks & E & Hc); [lia|].
    destruct (Nat.ltb_spec strpos (Z.to_nat (offset h))).
    + rewrite slice_Some, some_bind by lia. rewrite E, some_bind. eexists. split; [done|].
      simpl. by rewrite Hc.
    + replace strpos with (Z.to_nat (offset h)) by lia. rewrite E, some_bind.
      eexists. split; [done|]. simpl. by rewrite Hc, Nat.sub_diag, take_0.
Qed.

(** ** The reader *)

(** The bytes a reader has still to deliver. *)
Definition left_in (w : encbuf) (lh pos : nat) : list Z :=
  flat pos (drop pos (str w)) (drop lh (lheads w)).

Definition left_bytes (r : encReader) : list Z :=
  match rbuf r with
  | None => []
  | Some w => default [] (piece r) ++ left_in w (lhpos r) (rstrpos r)
  end.

Definition reader_wf (r : encReader) : Prop :=
  match rbuf r with
  | None => True
  | Some w => placed (rstrpos r) (length (str w)) (drop (lhpos r) (lheads w)) /\
      (rstrpos r <= length (str w))%nat
  end.

Fixpoint pieces_left (base len : nat) (hs : list listhead) : nat :=
  match hs with
  | [] => if (base <? len)%nat then 1 else 0
  | h :: hs' => (if (base <? Z.to_nat (offset h))%nat then 1 else 0) + 1
                + pieces_left (Z.to_nat (offset h)) len hs'
  end.

Definition reader_pieces (r : encReader) : nat :=
  match rbuf r with
  | None => 0
  | Some w => match piece r with Some _ => 1 | None => 0 end
              + pieces_left (rstrpos r) (length (str w)) (drop (lhpos r) (lheads w))
  end.

Lemma pieces_left_bound base len hs : (pieces_left base len hs <= 1 + 2 * length hs)%nat.
Proof.
  revert base. induction hs as [|h hs IH]; intros base; simpl.
  - destruct (_ <? _)%nat; lia.
  - specialize (IH (Z.to_nat (offset h))). destruct (_ <? _)%nat; lia.
Qed.

(** [next] hands out the front of what is left. *)
Lemma next_ok r :
  reader_wf r ->
  exists p r', next r = Some (p, r') /\ rbuf r' = rbuf r /\
    match p with
    | None => left_bytes r = []
    | Some p =>
        let r1 := mkReader (rbuf r') (lhpos r') (rstrpos r') None in
        is_Some (rbuf r) /\ reader_wf r1 /\ left_bytes r = p ++ left_bytes r1 /\
        (reader_pieces r1 < reader_pieces r)%nat
    end.
Proof.
  destruct r as [ [w|] lh pos [p|] ]; unfold reader_wf, next; cbn [rbuf piece lhpos rstrpos].
  - intros [Hp Hs]. eexists _, _. split; [done|]. split; [done|]. cbv zeta. cbn. repeat split; (done || lia).
  - intros [Hp Hs]. destruct (lheads w !! lh) as [h|] eqn:Eh.
    + unfold left_bytes, left_in, reader_pieces. cbn [rbuf piece lhpos rstrpos default].
      rewrite (drop_S _ _ _ Eh) in *. destruct Hp as (H0 & Hb & Hp). cbv zeta.
      destruct (Nat.ltb_spec pos (Z.to_nat (offset h))).
      * rewrite slice_Some, some_bind by lia. eexists _, _. split; [done|]. split; [done|].
        cbn [rbuf piece lhpos rstrpos]. rewrite (drop_S _ _ _ Eh). split; [done|]. split; [|split].
        -- split; [|lia]. simpl. split; [done|]. split; [lia|]. done.
        -- simpl default. rewrite !app_nil_l, flat_cons_at by lia.
           rewrite (flat_cons_at (str w) h _ (Z.to_nat (offset h))) by lia.
           by rewrite Nat.sub_diag, take_0.
        -- cbn [pieces_left]. rewrite (proj2 (Nat.ltb_lt pos _)) by lia. rewrite Nat.ltb_irrefl. lia.
      * eexists _, _. split; [done|]. split; [done|]. cbn [rbuf piece lhpos rstrpos].
        assert (pos = Z.to_nat (offset h)) as -> by lia. split; [done|]. split; [done|]. split.
        -- simpl default. rewrite !app_nil_l, flat_cons_at, Nat.sub_diag, take_0 by lia. done.
        -- cbn [pieces_left]. lia.
    + unfold left_bytes, left_in, reader_pieces. cbn [rbuf piece lhpos rstrpos default].
      rewrite (drop_ge (lheads w) lh) in * by (by apply lookup_ge_None_1).
      destruct (Nat.ltb_spec pos (length (str w))).
      * rewrite slice_Some, some_bind by lia. eexists _, _. split; [done|]. split; [done|].
        cbn [rbuf piece lhpos rstrpos]. rewrite (drop_ge (lheads w) lh) by (by apply lookup_ge_None_1).
        split; [done|]. split; [simpl; split; [done|lia]|]. simpl. split.
        -- rewrite (drop_ge (str w) (length (str w))) by lia. rewrite app_nil_r.
           rewrite take_ge; [done|]. rewrite length_drop. lia.
        -- rewrite Nat.ltb_irrefl, (proj2 (Nat.ltb_lt pos _)) by lia. lia.
      * eexists _, _. split; [done|]. split; [done|]. simpl. apply drop_ge. lia.
  - intros _. by eexists _, _.
  - intros _. by eexists _, _.
Qed.

Lemma Read_loop_ok fuel r room got :
  reader_wf r -> (reader_pieces r < fuel)%nat ->
  exists r', Read_loop fuel r room got
      = Some (got ++ take room (left_bytes r), (length (left_bytes r) <=? room)%nat, r') /\
    reader_wf r' /\ left_bytes r' = drop room (left_bytes r).
Proof.
  revert r room got. induction fuel as [|fuel IH]; intros r room got Hwf Hf; [lia|].
  cbn [Read_loop]. destruct (next_ok r Hwf) as ([p|] & r1 & -> & Hb & Hp); rewrite some_bind.
  - destruct Hp as (Hs & Hwf1 & -> & Hlt).
    set (r2 := mkReader (rbuf r1) (lhpos r1) (rstrpos r1) None) in *. cbv zeta.
    destruct (Nat.ltb_spec (Nat.min room (length p)) (length p)).
    + rewrite Nat.min_l by lia. eexists. split; [|split].
      * rewrite take_app_le by lia.
        rewrite (proj2 (Nat.leb_gt (length (p ++ left_bytes r2)) room)) by (rewrite length_app; lia). done.
      * unfold reader_wf in *. subst r2. simpl in *. done.
      * unfold left_bytes at 1. simpl. destruct Hs as [w Hw]. rewrite Hb, Hw. simpl.
        rewrite drop_app_le by lia. f_equal. unfold left_bytes, r2. simpl. by rewrite Hb, Hw.
    + rewrite Nat.min_r by lia. rewrite take_ge by lia.
      destruct (IH r2 (room - length p)%nat (got ++ p) Hwf1) as (r' & -> & Hwf' & Hl'); [lia|].
      exists r'. split; [|split; [done|]].
      * rewrite take_app_ge, <-app_assoc, length_app by lia. do 3 f_equal.
        apply eq_true_iff_eq. rewrite !Nat.leb_le. lia.
      * rewrite Hl', drop_app_ge by lia. done.
  - rewrite Hp. simpl. eexists. rewrite take_nil, drop_nil, app_nil_r. done.
Qed.

Lemma Read_ok r room :
  reader_wf r ->
  exists r', Read r room
      = Some (take room (left_bytes r), (length (left_bytes r) <=? room)%nat, r') /\
    reader_wf r' /\ left_bytes r' = drop room (left_bytes r).
Proof.
  intros Hwf. unfold Read. apply (Read_loop_ok _ r room []); [done|].
  unfold reader_pieces. destruct (rbuf r) as [w|]; [|lia].
  pose proof (pieces_left_bound (rstrpos r) (length (str w)) (drop (lhpos r) (lheads w))) as Hb.
  rewrite length_drop in Hb. destruct (piece r); lia.
Qed.

(** A sequence of [Read] calls with the given buffer sizes. *)
Fixpoint reads (r : encReader) (rooms : list nat) : option (list (list Z * bool)) :=
  match rooms with
  | [] => Some []
  | n :: rooms' =>
      '(b, eof, r) ← Read r n;
      rest ← reads r rooms';
      Some ((b, eof) :: rest)
  end.

(** What reads of these sizes deliver from the bytes [b]. *)
Fixpoint deliver (b : list Z) (rooms : list nat) : list (list Z * bool) :=
  match rooms with
  | [] => []
  | n :: rooms' => (take n b, (length b <=? n)%nat) :: deliver (drop n b) rooms'
  end.

Lemma reads_ok r rooms : reader_wf r -> reads r rooms = Some (deliver (left_bytes r) rooms).
Proof.
  revert r. induction rooms as [|n rooms IH]; intros r Hwf; simpl; [done|].
  destruct (Read_ok r n Hwf) as (r' & -> & Hwf' & Hl). rewrite some_bind, IH by done.
  by rewrite some_bind, Hl.
Qed.

Lemma reset_writes w b :
  writes reset_buf w b ->
  placed 0 (length (str w)) (lheads w) /\ lhsize w = heads_size (lheads w) /\
  flat 0 (str w) (lheads w) = b.
Proof. intros (s & hs & -> & Hp & Hf). simpl in *. done. Qed.

(** ** Splitting *)

Lemma lor_be_spec l : bytes l -> (length l <= 8)%nat -> lor_be l = be_get l.
Proof.
  induction 1 as [|c l Hc Hl IH]; intros Hlen; [done|]. simpl in Hlen.
  cbn [lor_be]. rewrite IH, be_get_cons by lia.
  pose proof (be_get_bound l Hl) as Hb. unfold is_byte in Hc.
  assert (256 ^ Z.of_nat (length l) = 2 ^ (8 * Z.of_nat (length l))) as Ep
    by (rewrite Z.pow_mul_r by lia; done).
  rewrite Ep in *. unfold u64. rewrite Z.shiftl_mul_pow2 by lia.
  assert (0 < 2 ^ (8 * Z.of_nat (length l)) <= 2 ^ 56) as Hp.
  { split; [apply Z.pow_pos_nonneg; lia|apply Z.pow_le_mono_r; lia]. }
  rewrite Z.mod_small by nia. rewrite <-Z.shiftl_mul_pow2 by lia.
  symmetry. apply Z.add_nocarry_lor. apply Z.bits_inj'. intros i Hi. rewrite Z.land_spec, Z.bits_0.
  destruct (Z.lt_ge_cases i (8 * Z.of_nat (length l))).
  - by rewrite Z.shiftl_spec_low.
  - rewrite andb_comm. destruct (Z.eq_dec (be_get l) 0) as [->|]; [by rewrite Z.bits_0|].
    rewrite Z.bits_above_log2; [done|lia|]. apply Z.log2_lt_pow2; [lia|].
    eapply Z.lt_le_trans; [apply Hb|]. apply Z.pow_le_mono_r; lia.
Qed.

(** A length with its minimal number of bytes is read back. *)
Lemma readSize_putint n rest :
  56 <= n < 2 ^ 64 -> readSize (putint n ++ rest) (Z.to_nat (intsize n)) = Ok n.
Proof.
  intros Hn. destruct (putint_spec n) as (Hb & E & Es & Hr); [lia|].
  unfold readSize. rewrite E. rewrite length_app, length_be_put.
  rewrite (proj2 (Nat.ltb_ge _ _)) by lia. rewrite guard_err_pass.
  rewrite take_app_length' by (by rewrite length_be_put). cbv zeta.
  rewrite lor_be_spec; [|apply be_put_bytes|rewrite length_be_put; lia].
  rewrite be_get_put_small by apply Hb. rewrite (proj2 (Z.ltb_ge _ _)) by lia.
  destruct (byte_size_head _ _ Hb) as (c & l & -> & Hc); [lia|]. simpl.
  destruct (Z.eqb_spec c 0); [lia|done].
Qed.

Lemma byte_size_of_bytes c l :
  bytes (c :: l) -> 0 < c -> (length (c :: l) <= 8)%nat -> byte_size (be_get (c :: l)) (length (c :: l)).
Proof.
  intros Hb Hc Hl. split; [simpl in *; lia|by apply be_get_bound|].
  right. rewrite be_get_cons. inversion Hb as [|? ? ? Hb']; subst.
  pose proof (be_get_bound l Hb'). simpl length.
  replace (Z.of_nat (S (length l)) - 1) with (Z.of_nat (length l)) by lia. nia.
Qed.

Lemma readSize_inv b slen s :
  bytes b -> (1 <= slen <= 8)%nat -> readSize b slen = Ok s ->
  56 <= s < 2 ^ 64 /\ intsize s = Z.of_nat slen /\ take slen b = putint s /\ (slen <= length b)%nat.
Proof.
  intros Hb Hs. unfold readSize. destruct (Nat.ltb_spec (length b) slen); [done|].
  rewrite guard_err_pass. cbv zeta.
  assert (bytes (take slen b)) as Hbt by (by apply bytes_take).
  assert (length (take slen b) = slen) as Hlt by (rewrite length_take; lia).
  rewrite lor_be_spec by (done || lia).
  destruct (Z.ltb_spec (be_get (take slen b)) 56); [done|].
  destruct b as [|c b]; [simpl in *; lia|]. simpl (_ !! _). rewrite or_panic_bind.
  destruct (Z.eqb_spec c 0); [done|]. intros [= <-].
  destruct slen as [|k]; [lia|]. cbn [take] in *.
  assert (0 < c) by (inversion Hb; subst; unfold is_byte in *; lia).
  pose proof (byte_size_of_bytes c (take k b) Hbt) as Hbs. rewrite Hlt in Hbs.
  specialize (Hbs ltac:(done) ltac:(lia)).
  assert (be_get (c :: take k b) < 2 ^ 64).
  { destruct Hbs as [Hr Hu _]. eapply Z.lt_le_trans; [apply Hu|].
    change (2 ^ 64) with (256 ^ 8). apply Z.pow_le_mono_r; lia. }
  pose proof (byte_size_intsize _ _ Hbs) as Hi.
  split; [lia|]. split; [done|]. split; [|simpl in *; lia].
  destruct (putint_spec (be_get (c :: take k b))) as (_ & -> & _); [lia|].
  rewrite Hi, Nat2Z.id, <-Hlt. symmetry. by apply be_put_get.
Qed.

(** The first byte of a header, in both size ranges. *)
Lemma puthead_small s l n : 0 <= n < 56 -> 0 <= s <= 192 -> puthead s l n = [s + n].
Proof.
  intros. unfold puthead, u8. rewrite (proj2 (Z.ltb_lt _ _)) by lia.
  change (2 ^ 8) with 256. by rewrite !Z.mod_small by (rewrite ?Z.mod_small; lia).
Qed.

Lemma puthead_large s l n :
  56 <= n < 2 ^ 64 -> 0 <= l <= 247 -> puthead s l n = (l + intsize n) :: putint n.
Proof.
  intros. unfold puthead, u8. rewrite (proj2 (Z.ltb_ge _ _)) by lia.
  destruct (putint_spec n) as (_ & _ & -> & Hr); [lia|].
  change (2 ^ 8) with 256. by rewrite !Z.mod_small by (rewrite ?Z.mod_small; lia).
Qed.

Lemma intsize_range n : 0 <= n < 2 ^ 64 -> 1 <= intsize n <= 8.
Proof. intros Hn. apply (putint_spec n Hn). Qed.

Lemma length_puthead s l n :
  0 <= n < 2 ^ 64 -> length (puthead s l n) = Z.to_nat (headsize n) /\ 1 <= headsize n <= 9.
Proof.
  intros Hn. pose proof (puthead_length s l n Hn). pose proof (intsize_range n Hn).
  unfold headsize in *. destruct (n <? 56); lia.
Qed.

(** The tail test of [readKind]. *)
Lemma fits len ts cs :
  0 <= ts -> 0 <= cs -> ts + cs <= len -> len < 2 ^ 64 -> (u64 (len - ts) <? cs) = false.
Proof. intros. unfold u64. rewrite Z.mod_small by lia. lia. Qed.

Definition long_string (c : list Z) : Prop := forall x, c = [x] -> 0x7F < x.

Lemma readKind_string c rest :
  long_string c ->
  let n := Z.of_nat (length c) in
  Z.of_nat (length (puthead 0x80 0xB7 n ++ c ++ rest)) < 2 ^ 64 ->
  readKind (puthead 0x80 0xB7 n ++ c ++ rest) = Ok (String, headsize n, n).
Proof.
  intros Hlong n Hlen. rewrite !length_app in Hlen.
  destruct (length_puthead 0x80 0xB7 n) as [Hh Hr]; [lia|].
  assert (Z.of_nat (length (puthead 0x80 0xB7 n ++ c ++ rest)) = headsize n + n + Z.of_nat (length rest))
    as Hl by (rewrite !length_app; lia).
  unfold headsize in *. destruct (Z.ltb_spec n 56).
  - rewrite puthead_small in * by lia. cbn [app readKind] in *. rewrite Hl.
    replace (128 + n <? 128) with false by lia. replace (128 + n <? 184) with true by lia. cbv zeta.
    replace (128 + n - 128) with n by lia.
    destruct (Z.eqb_spec n 1) as [E1|].
    + destruct c as [|x [|] ]; simpl in *; try lia. specialize (Hlong x eq_refl).
      rewrite (proj2 (Z.ltb_ge x 128)) by lia. simpl. by rewrite fits by lia.
    + rewrite ok_bind, fits by lia. done.
  - rewrite puthead_large in * by lia. cbn [app readKind] in *. rewrite Hl.
    pose proof (intsize_range n ltac:(lia)).
    replace (183 + intsize n <? 128) with false by lia.
    replace (183 + intsize n <? 184) with false by lia.
    replace (183 + intsize n <? 192) with true by lia.
    replace (183 + intsize n - 183) with (intsize n) by lia.
    rewrite readSize_putint, !ok_bind, fits by lia. do 3 f_equal. lia.
Qed.

Lemma readKind_list c rest :
  let n := Z.of_nat (length c) in
  Z.of_nat (length (puthead 0xC0 0xF7 n ++ c ++ rest)) < 2 ^ 64 ->
  readKind (puthead 0xC0 0xF7 n ++ c ++ rest) = Ok (List, headsize n, n).
Proof.
  intros n Hlen. rewrite !length_app in Hlen.
  destruct (length_puthead 0xC0 0xF7 n) as [Hh Hr]; [lia|].
  assert (Z.of_nat (length (puthead 0xC0 0xF7 n ++ c ++ rest)) = headsize n + n + Z.of_nat (length rest))
    as Hl by (rewrite !length_app; lia).
  unfold headsize in *. destruct (Z.ltb_spec n 56).
  - rewrite puthead_small in * by lia. cbn [app readKind] in *. rewrite Hl.
    replace (192 + n <? 128) with false by lia. replace (192 + n <? 184) with false by lia.
    replace (192 + n <? 192) with false by lia. replace (192 + n <? 248) with true by lia.
    replace (192 + n - 192) with n by lia. rewrite ok_bind, fits by lia. done.
  - rewrite puthead_large in * by lia. cbn [app readKind] in *. rewrite Hl.
    pose proof (intsize_range n ltac:(lia)).
    replace (247 + intsize n <? 128) with false by lia.
    replace (247 + intsize n <? 184) with false by lia.
    replace (247 + intsize n <? 192) with false by lia.
    replace (247 + intsize n <? 248) with false by lia.
    replace (247 + intsize n - 247) with (intsize n) by lia.
    rewrite readSize_putint, !ok_bind, fits by lia. do 3 f_equal. lia.
Qed.

Definition kind_of (c : list Z) : Kind :=
  match c with [x] => if x <=? 0x7F then Byte else String | _ => String end.

Lemma enc_str_cases c :
  (exists x, c = [x] /\ x <= 0x7F /\ enc_str c = c /\ kind_of c = Byte) \/
  (long_string c /\ enc_str c = puthead 0x80 0xB7 (Z.of_nat (length c)) ++ c /\ kind_of c = String).
Proof.
  unfold long_string, enc_str, kind_of. destruct c as [|x [|y c] ].
  - right. done.
  - destruct (Z.leb_spec x 0x7F); [left; eauto|right]. split; [|done]. intros ? [= <-]. lia.
  - right. done.
Qed.

Lemma split_at ts cs (h c rest : list Z) :
  Z.to_nat ts = length h -> 0 <= ts -> cs = Z.of_nat (length c) ->
  slice (h ++ c ++ rest) (Z.to_nat ts) (Z.to_nat (ts + cs)) = Some c /\
  slice (h ++ c ++ rest) (Z.to_nat (ts + cs)) (length (h ++ c ++ rest)) = Some rest.
Proof.
  intros Hts H0 ->. rewrite !slice_Some by (rewrite !length_app; lia).
  replace (Z.to_nat (ts + Z.of_nat (length c))) with (length h + length c)%nat by lia. rewrite Hts.
  rewrite drop_app_length. split; f_equal.
  - rewrite take_app_le by lia. apply take_ge. lia.
  - rewrite app_assoc, drop_app_length' by (by rewrite length_app). apply take_ge.
    rewrite !length_app. lia.
Qed.

Lemma Split_enc_str c rest :
  bytes c -> Z.of_nat (length (enc_str c ++ rest)) < 2 ^ 64 ->
  Split (enc_str c ++ rest) = Ok (kind_of c, c, rest).
Proof.
  intros Hb Hlen. unfold Split.
  destruct (enc_str_cases c) as [(x & -> & Hx & E & ->)|(Hlong & E & ->)]; rewrite E in *.
  - cbn [app readKind]. rewrite (proj2 (Z.ltb_lt x 0x80)) by lia. rewrite ok_bind.
    rewrite fits by (simpl in *; lia). rewrite ok_bind.
    destruct (split_at 0 1 [] [x] rest) as [E1 E2]; [done..|]. simpl app in *. by rewrite E1, or_panic_bind, E2.
  - rewrite <-app_assoc in *. rewrite readKind_string, ok_bind by done.
    rewrite !length_app in Hlen. destruct (length_puthead 0x80 0xB7 (Z.of_nat (length c))) as [Hh Hr]; [lia|].
    destruct (split_at (headsize (Z.of_nat (length c))) (Z.of_nat (length c))
      (puthead 0x80 0xB7 (Z.of_nat (length c))) c rest) as [-> E2]; [lia..|].
    by rewrite or_panic_bind, E2.
Qed.

Lemma Split_enc_list c rest :
  Z.of_nat (length (enc_list c ++ rest)) < 2 ^ 64 ->
  Split (enc_list c ++ rest) = Ok (List, c, rest).
Proof.
  intros Hlen. unfold Split, enc_list in *. rewrite <-app_assoc in *.
  rewrite readKind_list, ok_bind by done.
  rewrite !length_app in Hlen. destruct (length_puthead 0xC0 0xF7 (Z.of_nat (length c))) as [Hh Hr]; [lia|].
  destruct (split_at (headsize (Z.of_nat (length c))) (Z.of_nat (length c))
    (puthead 0xC0 0xF7 (Z.of_nat (length c))) c rest) as [-> E2]; [lia..|].
  by rewrite or_panic_bind, E2.
Qed.

(** Decompose an input after its header. *)
Lemma content_of (tl : list Z) (k : nat) cs :
  (k <= length tl)%nat -> 0 <= cs -> cs <= Z.of_nat (length tl - k) ->
  exists c rest, tl = take k tl ++ c ++ rest /\ cs = Z.of_nat (length c).
Proof.
  intros Hk H0 Hcs. exists (take (Z.to_nat cs) (drop k tl)), (drop (Z.to_nat cs) (drop k tl)).
  rewrite !take_drop, length_take, length_drop. split; [done|]. lia.
Qed.

Lemma fits_inv len ts cs :
  0 <= ts <= len -> len < 2 ^ 64 -> (u64 (len - ts) <? cs) = false -> cs <= len - ts.
Proof. intros ?? Hf. unfold u64 in Hf. rewrite Z.mod_small in Hf by lia. lia. Qed.

(** What an accepted header means: the input starts with the canonical
    encoding of the content. *)
Definition reads_as (b : list Z) (k : Kind) (ts cs : Z) : Prop :=
  exists h c rest, b = h ++ c ++ rest /\ ts = Z.of_nat (length h) /\ cs = Z.of_nat (length c) /\
    ((k = List /\ h ++ c = enc_list c) \/ (k = kind_of c /\ h ++ c = enc_str c)).

Lemma long_string_kind c : long_string c -> kind_of c = String.
Proof.
  intros Hl. destruct (enc_str_cases c) as [(x & -> & Hx & _)|(_ & _ & ->)]; [|done].
  specialize (Hl x eq_refl). lia.
Qed.

(** A long header (0xB8.., 0xF8..) that was accepted. *)
Lemma long_header_inv b tl l cs :
  bytes tl -> Z.of_nat (length (b :: tl)) < 2 ^ 64 ->
  l + 1 <= b <= l + 8 -> 0 <= l <= 247 -> readSize tl (Z.to_nat (b - l)) = Ok cs ->
  (u64 (Z.of_nat (length (b :: tl)) - (b - l + 1)) <? cs) = false ->
  exists c rest, b :: tl = (puthead 0 l cs ++ c) ++ rest /\ cs = Z.of_nat (length c) /\
    56 <= cs < 2 ^ 64 /\ Z.of_nat (length (puthead 0 l cs)) = b - l + 1.
Proof.
  intros Hb Hlen Hr Hl Hs Hf. simpl length in *.
  apply readSize_inv in Hs as (Hcs & Hi & Ht & Hle); [|done|lia].
  apply fits_inv in Hf; [|lia|done].
  destruct (content_of tl (Z.to_nat (b - l)) cs) as (c & rest & E & Ec); [lia..|].
  exists c, rest. rewrite puthead_large by lia. rewrite Hi. split; [|split; [done|split; [done|]]].
  - rewrite E at 1. rewrite Ht. simpl. rewrite app_assoc. f_equal. lia.
  - simpl length. rewrite <-Ht, length_take. lia.
Qed.

Lemma readKind_inv b k ts cs :
  bytes b -> Z.of_nat (length b) < 2 ^ 64 -> readKind b = Ok (k, ts, cs) -> reads_as b k ts cs.
Proof.
  intros Hb Hlen Hk. destruct b as [|b tl]; [done|]. cbn [readKind] in Hk.
  inversion Hb as [|? ? Hbb Hbt]; subst. unfold is_byte in Hbb. simpl length in Hlen.
  apply outcome_bind_ok in Hk as ([ [k' ts'] cs'] & Hk & Hf).
  destruct (u64 _ <? cs') eqn:Ef in Hf; [done|]. injection Hf as -> -> ->.
  destruct (Z.ltb_spec b 0x80).
  { injection Hk as <- <- <-. exists [], [b], tl. repeat split. right. unfold kind_of, enc_str.
    rewrite (proj2 (Z.leb_le b 0x7F)) by lia. done. }
  destruct (Z.ltb_spec b 0xB8).
  { cbv zeta in Hk. assert (k = String /\ ts = 1 /\ cs = b - 0x80 /\ (cs = 1 -> forall x, tl !! 0%nat = Some x -> 128 <= x))
      as (-> & -> & -> & Hone).
    { destruct (Z.eqb_spec (b - 0x80) 1) as [E1|]; [|injection Hk as <- <- <-; repeat split; lia].
      apply outcome_bind_ok in Hk as (x & Hx & Hk). apply or_panic_ok in Hx.
      destruct (Z.ltb_spec x 128); [done|]. injection Hk as <- <- <-. repeat split.
      intros _ y Hy. rewrite Hx in Hy. injection Hy as <-. lia. }
    apply fits_inv in Ef; [|simpl length; lia|simpl length; lia]. simpl length in Ef.
    destruct (content_of tl 0 (b - 0x80)) as (c & rest & E & Ec); [lia..|]. simpl in E.
    assert (long_string c) as Hlong.
    { intros x ->. simpl in Ec. rewrite E in Hone. specialize (Hone Ec x eq_refl). lia. }
    exists [b], c, rest. repeat split; [by rewrite E at 1|done|]. right.
    split; [by rewrite long_string_kind|]. rewrite enc_str_long by done.
    rewrite puthead_small by lia. simpl. f_equal. lia. }
  destruct (Z.ltb_spec b 0xC0).
  { apply outcome_bind_ok in Hk as (cs' & Hs & Hk). injection Hk as <- <- ->.
    destruct (long_header_inv b tl 0xB7 cs) as (c & rest & E & -> & Hcs & Hh); [done|done|lia|lia|done|done|].
    exists (puthead 0 0xB7 (Z.of_nat (length c))), c, rest. rewrite app_assoc. repeat split; [done|lia|]. right.
    assert (long_string c) as Hlong by (intros x ->; simpl in Hcs; lia).
    split; [by rewrite long_string_kind|]. rewrite enc_str_long by done.
    by rewrite !puthead_large by lia. }
  destruct (Z.ltb_spec b 0xF8).
  { injection Hk as <- <- <-. apply fits_inv in Ef; [|simpl length; lia|simpl length; lia]. simpl length in Ef.
    destruct (content_of tl 0 (b - 0xC0)) as (c & rest & E & Ec); [lia..|]. simpl in E.
    exists [b], c, rest. repeat split; [by rewrite E at 1|done|]. left. split; [done|].
    unfold enc_list. rewrite puthead_small by lia. simpl. f_equal. lia. }
  apply outcome_bind_ok in Hk as (cs' & Hs & Hk). injection Hk as <- <- ->.
  destruct (long_header_inv b tl 0xF7 cs) as (c & rest & E & -> & Hcs & Hh); [done|done|lia|lia|done|done|].
  exists (puthead 0 0xF7 (Z.of_nat (length c))), c, rest. rewrite app_assoc. repeat split; [done|lia|]. left.
  split; [done|]. unfold enc_list. by rewrite !puthead_large by lia.
Qed.

Lemma readSize_not_panic b slen : (1 <= slen)%nat -> readSize b slen <> Panic.
Proof.
  intros Hs. unfold readSize. destruct (Nat.ltb_spec (length b) slen); [done|].
  rewrite guard_err_pass. cbv zeta. destruct (_ <? 56); [done|].
  destruct b as [|c b]; [simpl in *; lia|]. simpl. by destruct (c =? 0).
Qed.

Lemma readKind_panic b : bytes b -> readKind b = Panic <-> b = [0x81].
Proof.
  intros Hb. split; [|by intros ->]. destruct b as [|b tl]; [done|]. cbn [readKind].
  assert (forall o : outcome rlp_error (Kind * Z * Z),
    (o = Panic -> b :: tl = [0x81]) ->
    ('(k, tagsize, contentsize) ← o;
      if u64 (Z.of_nat (length (b :: tl)) - tagsize) <? contentsize then Err ErrValueTooLarge
      else Ok (k, tagsize, contentsize)) = Panic -> b :: tl = [0x81]) as Hbind.
  { intros [ [ [k ts] cs]|e|] Ho; [|done|auto]. rewrite ok_bind. by destruct (_ <? _). }
  apply Hbind. destruct (Z.ltb_spec b 0x80); [done|]. destruct (Z.ltb_spec b 0xB8).
  { cbv zeta. destruct (Z.eqb_spec (b - 0x80) 1); [|done]. destruct tl as [|x tl]; simpl.
    - intros _. f_equal. lia.
    - by destruct (x <? 128). }
  assert (forall n (k : Kind) (t : Z), (1 <= n)%nat ->
    (cs ← readSize tl n; Ok (E:=rlp_error) (k, t, cs)) = Panic -> b :: tl = [0x81]) as Hrs.
  { intros n k t Hn. pose proof (readSize_not_panic tl n Hn). by destruct (readSize tl n). }
  destruct (Z.ltb_spec b 0xC0); [apply Hrs; lia|].
  destruct (Z.ltb_spec b 0xF8); [done|apply Hrs; lia].
Qed.

(** ** Properties *)

(** C24: the encoder's three outputs are the RLP encoding.  For any value with
    64-bit unsigned integers, [EncodeToBytes], the chunks of [toWriter] and any
    sequence of [Read]s on the reader of [EncodeToReader] all yield the
    reference encoding [rlp v] (with the right size and EOF exactly at the
    end), or all fail on a negative big integer. *)
Theorem Encode_correct v :
  value_ok v ->
  match rlp v with
  | Ok b => Z.of_nat (length b) < 2 ^ 64 ->
      EncodeToBytes v = Ok b /\
      (exists w chunks, writer v reset_buf = Ok w /\ toWriter w = Some chunks /\ concat chunks = b) /\
      (exists r, EncodeToReader v = Ok (Z.of_nat (length b), r) /\
         forall rooms, reads r rooms = Some (deliver b rooms))
  | Err e => EncodeToBytes v = Err e /\ EncodeToReader v = Err e
  | Panic => False
  end.
Proof.
  intros Hv. pose proof (writer_ok v Hv reset_buf) as Hw. pose proof (rlp_not_panic v) as Hnp.
  unfold EncodeToBytes, EncodeToReader. destruct (rlp v) as [b|e|]; [|by rewrite Hw|done].
  intros Hlen. destruct Hw as (w & -> & Hw). rewrite !ok_bind.
  destruct (reset_writes w b (Hw Hlen)) as (Hp & Hs & Hf). split; [|split].
  - by rewrite toBytes_ok, Hf by done.
  - destruct (toWriter_loop_ok (str w) (lheads w) 0 Hp) as (chunks & E & Hc); [lia|].
    exists w, chunks. rewrite drop_0 in Hc. by rewrite Hc.
  - pose proof (flat_length 0 (str w) (lheads w) Hp) as Hl. rewrite Hf in Hl.
    eexists. split; [unfold buf_size; rewrite Hl, Hs; done|]. intros rooms.
    rewrite reads_ok by (split; [done|simpl; lia]). unfold left_bytes, left_in. simpl.
    by rewrite !drop_0, Hf.
Qed.

Lemma Encode_correct_witness :
  EncodeToBytes (VList [VUint 1024; VBytes [100; 111; 103]; VList []; VBig None])
  = Ok [201; 130; 4; 0; 131; 100; 111; 103; 192; 128].
Proof.
  assert (value_ok (VList [VUint 1024; VBytes [100; 111; 103]; VList []; VBig None])) as Hv
    by (simpl; lia).
  exact (proj1 (Encode_correct _ Hv eq_refl)).
Defined.

(** Splitting inverts encoding and accepts nothing else.  On any byte
    string shorter than 2^64, [Split] returns a content and a rest exactly
    when the input is the canonical encoding of that content as string or list
    followed by the rest; a non-canonical length or a needless header is
    rejected. *)
Theorem Split_canonical b k c rest :
  bytes b -> Z.of_nat (length b) < 2 ^ 64 ->
  Split b = Ok (k, c, rest) <->
  (k = List /\ b = enc_list c ++ rest) \/ (k = kind_of c /\ b = enc_str c ++ rest).
Proof.
  intros Hb Hlen. split.
  - intros Hs. unfold Split in Hs. apply outcome_bind_ok in Hs as ([ [k' ts] cs] & Hk & Hs).
    destruct (readKind_inv b k' ts cs Hb Hlen Hk) as (h & c' & r' & -> & -> & -> & Hc).
    destruct (split_at (Z.of_nat (length h)) (Z.of_nat (length c')) h c' r') as [E1 E2]; [lia..|].
    rewrite E1, or_panic_bind, E2, or_panic_bind in Hs. injection Hs as -> -> ->.
    rewrite app_assoc. destruct Hc as [ [-> ->]|[-> ->] ]; auto.
  - intros [ [-> ->]|[-> ->] ]; [by apply Split_enc_list|].
    apply Split_enc_str; [|done]. apply bytes_app in Hb as [Hb _].
    destruct (enc_str_cases c) as [(x & -> & _ & E & _)|(_ & E & _)]; rewrite E in Hb; [done|].
    by apply bytes_app in Hb as [_ Hb].
Qed.

Lemma Split_canonical_witness : Split [131; 100; 111; 103; 5] = Ok (String, [100; 111; 103], [5]).
Proof.
  apply (Split_canonical [131; 100; 111; 103; 5] String [100; 111; 103] [5]);
    [repeat constructor; unfold is_byte; lia|done|right; done].
Defined.

(** [Split] crashes on one input: the single byte 0x81, whose payload
    byte is read before the length of the input is tested.  On every other
    byte string it returns a value or an error. *)
Theorem Split_panics_iff b :
  bytes b -> Z.of_nat (length b) < 2 ^ 64 -> Split b = Panic <-> b = [0x81].
Proof.
  intros Hb Hlen. rewrite <-readKind_panic by done. unfold Split.
  destruct (readKind b) as [ [ [k ts] cs]|e|] eqn:Hk; [|done|done].
  destruct (readKind_inv b k ts cs Hb Hlen Hk) as (h & c & rest & -> & -> & -> & _).
  destruct (split_at (Z.of_nat (length h)) (Z.of_nat (length c)) h c rest) as [E1 E2]; [lia..|].
  by rewrite ok_bind, E1, or_panic_bind, E2, or_panic_bind.
Qed.

Lemma Split_panics_iff_witness : Split [0x81] = Panic.
Proof.
  apply (Split_panics_iff [0x81]); [repeat constructor; unfold is_byte; lia|done|done].
Defined.
