(* ===== verification/RlpStream.v ===== *)
(** * RLP decoding

    [Stream] of [src/rlp/decode.go] over a byte slice, and the decoders built
    on it for strings, integers, byte arrays and untyped values
    ([interface{}]).  Every operation returns a result and the stream it
    leaves behind, because Go mutates the stream on error paths as well. *)
From S2P Require Import Prelude Rlp.

(** ** The stream *)

Record listpos := mkPos { pos : Z; psize : Z }.

Record Stream := mkStream {
  input : list Z;            (** what the reader [r] has left *)
  remaining : Z;
  limited : bool;
  kind : option Kind;        (** [None] is [-1] *)
  size : Z;
  byteval : Z;
  kinderr : option rlp_error;
  stack : list listpos       (** innermost list first *)
}.

(** Results: a value or an error; [inr None] marks exhausted fuel. *)
Abbreviation res A := (A + option rlp_error)%type.
Definition SM (A : Type) : Type := Stream -> res A * Stream.

#[export] Instance SM_ret : MRet SM := fun A a s => (inl a, s).
#[export] Instance SM_bind : MBind SM := fun A B k m s =>
  match m s with
  | (inl a, s') => k a s'
  | (inr e, s') => (inr e, s')
  end.
Definition fail {A} (e : rlp_error) : SM A := fun s => (inr (Some e), s).
Definition out_of_fuel {A} : SM A := fun s => (inr None, s).
Definition gets {A} (f : Stream -> A) : SM A := fun s => (inl (f s), s).
Definition modify (f : Stream -> Stream) : SM unit := fun s => (inl tt, f s).
Definition catch {A B} (m : SM A) (k : res A -> SM B) : SM B := fun s => let '(r, s') := m s in k r s'.

Definition set_kind (k : option Kind) (s : Stream) : Stream :=
  mkStream (input s) (remaining s) (limited s) k (size s) (byteval s) (kinderr s) (stack s).
Definition set_input (i : list Z) (s : Stream) : Stream :=
  mkStream i (remaining s) (limited s) (kind s) (size s) (byteval s) (kinderr s) (stack s).
Definition set_remaining (r : Z) (s : Stream) : Stream :=
  mkStream (input s) r (limited s) (kind s) (size s) (byteval s) (kinderr s) (stack s).
Definition set_size (z : Z) (s : Stream) : Stream :=
  mkStream (input s) (remaining s) (limited s) (kind s) z (byteval s) (kinderr s) (stack s).
Definition set_byteval (b : Z) (s : Stream) : Stream :=
  mkStream (input s) (remaining s) (limited s) (kind s) (size s) b (kinderr s) (stack s).
Definition set_kinderr (e : option rlp_error) (s : Stream) : Stream :=
  mkStream (input s) (remaining s) (limited s) (kind s) (size s) (byteval s) e (stack s).
Definition set_stack (st : list listpos) (s : Stream) : Stream :=
  mkStream (input s) (remaining s) (limited s) (kind s) (size s) (byteval s) (kinderr s) st.

(** [NewStream(bytes.NewReader(b), uint64(len(b)))] *)
Definition NewStream (b : list Z) : Stream :=
  mkStream b (Z.of_nat (length b)) true None 0 0 None [].

(** ** Reading bytes *)

Definition willRead (n : Z) : SM unit :=
  _ ← modify (set_kind None);
  st ← gets stack;
  _ ← match st with
      | [] => mret tt
      | tos :: st' =>
          if u64 (psize tos - pos tos) <? n then fail ErrElemTooLarge
          else modify (set_stack (mkPos (u64 (pos tos + n)) (psize tos) :: st'))
      end;
  lim ← gets limited;
  if lim : bool then
    r ← gets remaining;
    if r <? n then fail ErrValueTooLarge else modify (set_remaining (r - n))
  else mret tt.

(** [readFull] into a buffer of [n] bytes. *)
Definition readFull (n : nat) : SM (list Z) :=
  _ ← willRead (Z.of_nat n);
  i ← gets input;
  _ ← modify (set_input (drop n i));
  if (length i <? n)%nat then fail ErrUnexpectedEOF else mret (take n i).

Definition readByte : SM Z :=
  _ ← willRead 1;
  i ← gets input;
  match i with
  | [] => fail ErrUnexpectedEOF
  | b :: i' => _ ← modify (set_input i'); mret b
  end.

Definition readUint (sz : Z) : SM Z :=
  if sz =? 0 then _ ← modify (set_kind None); mret 0
  else if sz =? 1 then readByte
  else
    b ← readFull (Z.to_nat sz);
    if default 0 (b !! 0%nat) =? 0 then fail ErrCanonSize
    else mret (be_get b).

(** The kind and size of the next value; the error is kept as a value because
    [Kind] caches it together with them. *)
Definition readKind : SM (Kind * Z * option rlp_error) :=
  st ← gets stack;
  catch readByte (fun r =>
    match r with
    | inr e =>
        let e := match e with
                 | Some ErrUnexpectedEOF => if decide (st = []) then EOF else ErrUnexpectedEOF
                 | Some ErrValueTooLarge => if decide (st = []) then EOF else ErrValueTooLarge
                 | Some e => e
                 | None => EOF
                 end in
        mret (Byte, 0, Some e)
    | inl b =>
        _ ← modify (set_byteval 0);
        let long k sz :=
          catch (readUint sz) (fun r =>
            match r with
            | inl n => mret (k, n, if n <? 56 then Some ErrCanonSize else None)
            | inr (Some e) => mret (k, 0, Some e)
            | inr None => out_of_fuel
            end) in
        if b <? 0x80 then _ ← modify (set_byteval b); mret (Byte, 0, None)
        else if b <? 0xB8 then mret (String, b - 0x80, None)
        else if b <? 0xC0 then long String (b - 0xB7)
        else if b <? 0xF8 then mret (List, b - 0xC0, None)
        else long List (b - 0xF7)
    end).

(** [Stream.Kind] *)
Definition Kind_ : SM (Kind * Z) :=
  k ← gets kind;
  st ← gets stack;
  match k with
  | Some k =>
      sz ← gets size;
      e ← gets kinderr;
      match e with Some e => fail e | None => mret (k, sz) end
  | None =>
      _ ← modify (set_kinderr None);
      let at_end := match st with tos :: _ => pos tos =? psize tos | [] => false end in
      if at_end then fail EOL
      else
        '(k, sz, e) ← readKind;
        lim ← gets limited;
        rem ← gets remaining;
        st ← gets stack;
        let e :=
          match e with
          | Some e => Some e
          | None =>
              match st with
              | [] => if lim && (rem <? sz) then Some ErrValueTooLarge else None
              | tos :: _ => if u64 (psize tos - pos tos) <? sz then Some ErrElemTooLarge else None
              end
          end in
        _ ← modify (fun s => set_kinderr e (set_size sz (set_kind (Some k) s)));
        match e with Some e => fail e | None => mret (k, sz) end
  end.

(** ** Values *)

(** [Stream.Bytes] *)
Definition Bytes : SM (list Z) :=
  '(k, sz) ← Kind_;
  match k with
  | Byte => _ ← modify (set_kind None); b ← gets byteval; mret [b]
  | String =>
      b ← readFull (Z.to_nat sz);
      if (sz =? 1) && (default 0 (b !! 0%nat) <? 128) then fail ErrCanonSize else mret b
  | List => fail ErrExpectedString
  end.

(** [Stream.Raw] *)
Definition Raw : SM (list Z) :=
  '(k, sz) ← Kind_;
  match k with
  | Byte => _ ← modify (set_kind None); b ← gets byteval; mret [b]
  | String => c ← readFull (Z.to_nat sz); mret (puthead 0x80 0xB7 sz ++ c)
  | List => c ← readFull (Z.to_nat sz); mret (puthead 0xC0 0xF7 sz ++ c)
  end.

(** [Stream.uint] *)
Definition uint (maxbits : Z) : SM Z :=
  '(k, sz) ← Kind_;
  match k with
  | Byte =>
      b ← gets byteval;
      if b =? 0 then fail ErrCanonInt else _ ← modify (set_kind None); mret b
  | String =>
      if maxbits / 8 <? sz then fail errUintOverflow
      else
        catch (readUint sz) (fun r =>
          match r with
          | inr (Some ErrCanonSize) => fail ErrCanonInt
          | inr (Some e) => fail e
          | inr None => out_of_fuel
          | inl v => if (0 <? sz) && (v <? 128) then fail ErrCanonSize else mret v
          end)
  | List => fail ErrExpectedString
  end.

Definition Bool : SM bool :=
  num ← uint 8;
  if num =? 0 then mret false else if num =? 1 then mret true else fail errInvalidBool.

(** [Stream.List] *)
Definition List_ : SM Z :=
  '(k, sz) ← Kind_;
  if decide (k = List) then
    _ ← modify (fun s => set_size 0 (set_kind None (set_stack (mkPos 0 sz :: stack s) s)));
    mret sz
  else fail ErrExpectedList.

Definition ListEnd : SM unit :=
  st ← gets stack;
  match st with
  | [] => fail errNotInList
  | tos :: st' =>
      if negb (pos tos =? psize tos) then fail errNotAtEOL
      else
        let st' := match st' with
                   | [] => []
                   | up :: st'' => mkPos (u64 (pos up + psize tos)) (psize up) :: st''
                   end in
        modify (fun s => set_size 0 (set_kind None (set_stack st' s)))
  end.

(** ** Decoders *)

(** [decodeBigInt] *)
Definition decodeBigInt : SM Z :=
  b ← Bytes;
  if (0 <? Z.of_nat (length b)) && (default 0 (b !! 0%nat) =? 0) then fail ErrCanonInt
  else mret (be_get b).

(** [decodeByteArray] into an array of [vlen] bytes; the error of [Uint] is
    dropped and its value stored. *)
Definition decodeByteArray (vlen : nat) : SM (list Z) :=
  '(k, sz) ← Kind_;
  match k with
  | Byte =>
      if (vlen =? 0)%nat then fail errStringTooLong
      else if (1 <? vlen)%nat then fail errStringTooShort
      else
        catch (uint 64) (fun r =>
          mret [u8 (match r with inl bv => bv | inr _ => 0 end)])
  | String =>
      if Z.of_nat vlen <? sz then fail errStringTooLong
      else if sz <? Z.of_nat vlen then fail errStringTooShort
      else
        b ← readFull vlen;
        if (sz =? 1) && (default 0 (b !! 0%nat) <? 128) then fail ErrCanonSize else mret b
  | List => fail ErrExpectedString
  end.

(** What an untyped value decodes to: [[]byte] or [[]interface{}]. *)
Inductive item :=
  | Str (b : list Z)
  | Lst (l : list item).

(** [decodeSliceElems]: elements until [EOL]. *)
Fixpoint decodeSliceElems {A} (elemdec : SM A) (n : nat) (acc : list A) : SM (list A) :=
  match n with
  | O => out_of_fuel
  | S n' =>
      catch elemdec (fun r =>
        match r with
        | inl a => decodeSliceElems elemdec n' (acc ++ [a])
        | inr (Some EOL) => mret acc
        | inr (Some e) => fail e
        | inr None => out_of_fuel
        end)
  end.

Definition decodeListSlice {A} (elemdec : SM A) (n : nat) : SM (list A) :=
  sz ← List_;
  if sz =? 0 then _ ← ListEnd; mret []
  else
    l ← decodeSliceElems elemdec n [];
    _ ← ListEnd;
    mret l.

(** [decodeInterface]; [fuel] bounds nesting and list lengths. *)
Fixpoint decodeInterface (fuel : nat) : SM item :=
  match fuel with
  | O => out_of_fuel
  | S f =>
      '(k, _) ← Kind_;
      if decide (k = List) then
        l ← decodeListSlice (decodeInterface f) f; mret (Lst l)
      else b ← Bytes; mret (Str b)
  end.

(** [DecodeBytes] into an [interface{}], and into other targets. *)
Definition DecodeBytes_with {A} (dec : SM A) (b : list Z) : res A :=
  let '(r, s) := dec (NewStream b) in
  match r with
  | inr e => inr e
  | inl a => if (0 <? length (input s))%nat then inr (Some ErrMoreThanOneValue) else inl a
  end.

Definition DecodeBytes (b : list Z) : res item := DecodeBytes_with (decodeInterface (S (length b))) b.

(** The encoding of an item. *)
Fixpoint enc (it : item) : list Z :=
  match it with
  | Str b => enc_str b
  | Lst l => enc_list (concat (map enc l))
  end.

Example decode_dog_cat :
  DecodeBytes [200; 131; 99; 97; 116; 131; 100; 111; 103]
  = inl (Lst [Str [99; 97; 116]; Str [100; 111; 103]]).
Proof. reflexivity. Qed.

(** ** Invariant *)

Fixpoint frames_ok (st : list listpos) : Prop :=
  match st with
  | [] => True
  | f :: st' =>
      0 <= pos f <= psize f /\ psize f < 2 ^ 64 /\
      match st' with [] => True | g :: _ => psize f <= psize g - pos g end /\
      frames_ok st'
  end.

(** How many bytes may still be read at this nesting level. *)
Definition room (s : Stream) : Z :=
  match stack s with
  | [] => Z.of_nat (length (input s))
  | f :: _ => psize f - pos f
  end.

Record inv (s : Stream) : Prop := {
  inv_limited : limited s = true;
  inv_remaining : remaining s = Z.of_nat (length (input s));
  inv_small : Z.of_nat (length (input s)) < 2 ^ 64;
  inv_frames : frames_ok (stack s);
  inv_room : room s <= Z.of_nat (length (input s))
}.

(** The stack after reading [n] bytes, and the stream up to what [Kind]
    caches. *)
Definition bump (n : Z) (st : list listpos) : list listpos :=
  match st with [] => [] | f :: st' => mkPos (pos f + n) (psize f) :: st' end.

Record moved (s : Stream) (n : nat) (s' : Stream) : Prop := {
  mv_input : input s' = drop n (input s);
  mv_stack : stack s' = bump (Z.of_nat n) (stack s);
  mv_inv : inv s'
}.

Lemma room_nonneg s : inv s -> 0 <= room s.
Proof. intros [_ _ _ Hf _]. unfold room. destruct (stack s); simpl in *; lia. Qed.

Lemma bump_frames n st :
  frames_ok st -> 0 <= n -> (match st with [] => True | f :: _ => n <= psize f - pos f end) ->
  frames_ok (bump n st).
Proof. destruct st as [|f st]; simpl; [done|]. intros (? & ? & ? & ?) ??. repeat split; (done || lia). Qed.

Lemma bump_bump a b st : bump a (bump b st) = bump (b + a) st.
Proof. destruct st as [|f st]; simpl; [done|]. do 2 f_equal. lia. Qed.

Lemma bump_0 st : bump 0 st = st.
Proof. destruct st as [| []]; simpl; [done|]. by rewrite Z.add_0_r. Qed.

Lemma moved_trans s a s1 b s2 : moved s a s1 -> moved s1 b s2 -> moved s (a + b) s2.
Proof.
  intros [I1 S1 _] [I2 S2 V2]. split; [|rewrite S2, S1, bump_bump; f_equal; lia|done].
  by rewrite I2, I1, drop_drop.
Qed.

Lemma moved_room s n s' :
  moved s n s' -> (n <= length (input s))%nat -> room s' = room s - Z.of_nat n.
Proof.
  intros [Hi Hs _] Hn. unfold room. rewrite Hs, Hi, length_drop.
  destruct (stack s); simpl; lia.
Qed.

Definition is_fail {A} (r : res A * Stream) : Prop := exists e s', r = (inr (Some e), s') /\ e <> EOL.

(** The stream after [n] bytes, with everything [Kind] caches chosen. *)
Definition read_state (s : Stream) (n : nat) : Stream :=
  mkStream (drop n (input s)) (remaining s - Z.of_nat n) (limited s) None (size s) (byteval s)
    (kinderr s) (bump (Z.of_nat n) (stack s)).

Lemma read_state_moved s n :
  inv s -> Z.of_nat n <= room s -> moved s n (read_state s n).
Proof.
  intros Hi Hn. pose proof Hi as [Hl Hr Hs Hf Hro].
  split; [done|done|]. unfold read_state.
  split; cbn [limited remaining input stack]; rewrite ?length_drop.
  - done.
  - lia.
  - lia.
  - apply bump_frames; [done|lia|]. unfold room in *. destruct (stack s); [done|]. lia.
  - unfold room in *. cbn [stack input]. rewrite length_drop. destruct (stack s); simpl; lia.
Qed.

Lemma willRead_spec n s :
  inv s -> 0 <= n ->
  if n <=? room s then
    willRead n s = (inl tt, mkStream (input s) (remaining s - n) (limited s) None (size s)
                              (byteval s) (kinderr s) (bump n (stack s)))
  else is_fail (willRead n s).
Proof.
  intros Hi Hn. pose proof Hi as [Hl Hr Hs Hf Hro]. unfold willRead, room, is_fail in *.
  destruct s as [i rem lim k sz bv ke st]. simpl in *. subst lim.
  unfold mbind, SM_bind, modify, gets, fail, mret, SM_ret, set_kind, set_stack, set_remaining. simpl.
  destruct st as [|f st]; simpl in *.
  - destruct (Z.leb_spec n (Z.of_nat (length i))).
    + by rewrite (proj2 (Z.ltb_ge rem n)) by lia.
    + rewrite (proj2 (Z.ltb_lt rem n)) by lia. eexists _, _. done.
  - destruct Hf as (Hp & Hps & _). unfold u64. rewrite Z.mod_small by lia.
    destruct (Z.leb_spec n (psize f - pos f)).
    + rewrite (proj2 (Z.ltb_ge (psize f - pos f) n)) by lia. simpl.
      rewrite (proj2 (Z.ltb_ge rem n)) by lia. by rewrite Z.mod_small by lia.
    + rewrite (proj2 (Z.ltb_lt (psize f - pos f) n)) by lia. eexists _, _. done.
Qed.

Lemma readFull_spec n s :
  inv s ->
  if Z.of_nat n <=? room s then
    readFull n s = (inl (take n (input s)), read_state s n)
  else is_fail (readFull n s).
Proof.
  intros Hi. pose proof (willRead_spec (Z.of_nat n) s Hi ltac:(lia)) as Hw. unfold readFull.
  destruct (Z.leb_spec (Z.of_nat n) (room s)).
  - unfold mbind, SM_bind. rewrite Hw. unfold gets, modify, mret, SM_ret, set_input. simpl.
    destruct Hi. rewrite (proj2 (Nat.ltb_ge _ _)) by lia. done.
  - destruct Hw as (e & s' & E & He). unfold mbind, SM_bind. rewrite E. by exists e, s'.
Qed.

Lemma readByte_spec s :
  inv s ->
  if 1 <=? room s then
    exists b, input s !! 0%nat = Some b /\ readByte s = (inl b, read_state s 1)
  else is_fail (readByte s).
Proof.
  intros Hi. pose proof (willRead_spec 1 s Hi ltac:(lia)) as Hw. unfold readByte.
  destruct (Z.leb_spec 1 (room s)).
  - unfold mbind, SM_bind. rewrite Hw. unfold gets, modify, mret, SM_ret, set_input. simpl.
    destruct Hi. destruct (input s) as [|b i] eqn:Ei; [simpl in *; lia|].
    exists b. split; [done|]. unfold read_state. rewrite Ei. done.
  - destruct Hw as (e & s' & E & He). unfold mbind, SM_bind. rewrite E. by exists e, s'.
Qed.

(** ** Headers *)

(** [h] is the header of a value of kind [k] and size [sz]; a single byte is
    its own header. *)
Definition header (k : Kind) (sz : Z) (h : list Z) (bv : Z) : Prop :=
  match k with
  | Byte => h = [bv] /\ 0 <= bv < 128 /\ sz = 0
  | String => h = puthead 0x80 0xB7 sz /\ 0 <= sz < 2 ^ 64
  | List => h = puthead 0xC0 0xF7 sz /\ 0 <= sz < 2 ^ 64
  end.

(** The minimal form of a length of at least 56. *)
Lemma long_size l :
  bytes l -> (1 <= length l <= 8)%nat -> 56 <= be_get l -> default 0 (l !! 0%nat) <> 0 ->
  l = putint (be_get l) /\ intsize (be_get l) = Z.of_nat (length l) /\ be_get l < 2 ^ 64.
Proof.
  intros Hb Hl H56 H0.
  assert (readSize l (length l) = Ok (be_get l)) as Hs.
  { unfold readSize. rewrite Nat.ltb_irrefl, guard_err_pass, take_ge by lia. cbv zeta.
    rewrite lor_be_spec by (done || lia). rewrite (proj2 (Z.ltb_ge _ _)) by lia.
    destruct l as [|c l]; [simpl in *; lia|]. simpl in H0 |- *. by destruct (Z.eqb_spec c 0). }
  apply readSize_inv in Hs as (Hr & Hi & Ht & _); [|done|lia].
  rewrite take_ge in Ht by lia. split; [done|]. split; [done|lia].
Qed.

Lemma putint_head n : 56 <= n < 2 ^ 64 -> default 0 (putint n !! 0%nat) <> 0.
Proof.
  intros Hn. destruct (putint_spec n) as (Hb & -> & _); [lia|].
  destruct (byte_size_head _ _ Hb) as (c & l & -> & Hc); [lia|]. simpl. lia.
Qed.

Lemma putint_get n : 0 <= n < 2 ^ 64 -> be_get (putint n) = n /\ length (putint n) = Z.to_nat (intsize n).
Proof.
  intros Hn. destruct (putint_spec n Hn) as ([_ Hu _] & -> & _).
  by rewrite be_get_put_small, length_be_put.
Qed.

(** [readUint] of a length with [n] bytes. *)
Lemma readUint_spec (n : nat) s :
  inv s -> (1 <= n <= 8)%nat ->
  (Z.of_nat n <= room s -> n = 1%nat \/ default 0 (input s !! 0%nat) <> 0 ->
     readUint (Z.of_nat n) s = (inl (be_get (take n (input s))), read_state s n)) /\
  (is_fail (readUint (Z.of_nat n) s) \/
   Z.of_nat n <= room s /\ (n = 1%nat \/ default 0 (input s !! 0%nat) <> 0)).
Proof.
  intros Hi Hn. pose proof Hi as [_ _ _ _ Hro]. unfold readUint.
  rewrite (proj2 (Z.eqb_neq (Z.of_nat n) 0)) by lia.
  destruct (Z.eqb_spec (Z.of_nat n) 1).
  - assert (n = 1%nat) as -> by lia. pose proof (readByte_spec s Hi) as Hb.
    change (Z.of_nat 1) with 1 in *. destruct (Z.leb_spec 1 (room s)); [|split; [lia|by left]].
    destruct Hb as (b & Hb & E). split; [|right; split; [done|by left]]. intros _ _. rewrite E.
    destruct (input s) as [|c i]; [done|]. simpl in Hb. injection Hb as ->. done.
  - pose proof (readFull_spec n s Hi) as Hf. rewrite Nat2Z.id.
    destruct (Z.leb_spec (Z.of_nat n) (room s)).
    + unfold mbind, SM_bind. rewrite Hf. rewrite lookup_take_lt by lia.
      split.
      * intros _ [->|Hne]; [lia|]. by rewrite (proj2 (Z.eqb_neq _ _) Hne).
      * destruct (Z.eqb_spec (default 0 (input s !! 0%nat)) 0) as [|Hne];
          [left; by eexists _, _|right; split; [done|by right]].
    + split; [lia|]. left. destruct Hf as (e & s' & E & He). unfold mbind, SM_bind. rewrite E.
      by exists e, s'.
Qed.

(** Only the cached fields differ. *)
Definition same_place (s s' : Stream) : Prop :=
  input s' = input s /\ stack s' = stack s /\ remaining s' = remaining s /\ limited s' = limited s.

Lemma same_place_room s s' : same_place s s' -> room s' = room s.
Proof. intros (E1 & E2 & _ & _). unfold room. by rewrite E1, E2. Qed.

Lemma same_place_inv s s' : inv s -> same_place s s' -> inv s'.
Proof.
  intros [] E. pose proof (same_place_room _ _ E) as Er. destruct E as (E1 & E2 & E3 & E4).
  split; congruence.
Qed.

Lemma same_place_moved s n s1 s2 : moved s n s1 -> same_place s1 s2 -> moved s n s2.
Proof.
  intros [Hi Hs Hv] E. pose proof (same_place_inv _ _ Hv E).
  destruct E as (E1 & E2 & E3 & E4). split; congruence.
Qed.

(** What [readKind] establishes: an error that is not [EOL], or a header. *)
Definition reads_header (s : Stream) (r : res (Kind * Z * option rlp_error) * Stream) : Prop :=
  exists k sz e s', r = (inl (k, sz, e), s') /\
    match e with
    | Some e => e <> EOL
    | None => exists h, header k sz h (byteval s') /\ input s = h ++ input s' /\ moved s (length h) s'
        /\ Z.of_nat (length h) <= room s
    end.

(** The length bytes after a long tag. *)
Definition read_long (k : Kind) (sz : Z) : SM (Kind * Z * option rlp_error) :=
  catch (readUint sz) (fun r =>
    match r with
    | inl n => mret (k, n, if n <? 56 then Some ErrCanonSize else None)
    | inr (Some e) => mret (k, 0, Some e)
    | inr None => out_of_fuel
    end).

(** [readKind] after the tag byte [b]. *)
Definition read_tag (b : Z) : SM (Kind * Z * option rlp_error) :=
  _ ← modify (set_byteval 0);
  if b <? 0x80 then _ ← modify (set_byteval b); mret (Byte, 0, None)
  else if b <? 0xB8 then mret (String, b - 0x80, None)
  else if b <? 0xC0 then read_long String (b - 0xB7)
  else if b <? 0xF8 then mret (List, b - 0xC0, None)
  else read_long List (b - 0xF7).

Lemma readKind_byte s b i :
  inv s -> 1 <= room s -> input s = b :: i -> readKind s = read_tag b (read_state s 1).
Proof.
  intros Hi Hr Hb. pose proof (readByte_spec s Hi) as Hs.
  rewrite (proj2 (Z.leb_le 1 (room s))) in Hs by done. destruct Hs as (b' & Eb & E).
  rewrite Hb in Eb. simpl in Eb. injection Eb as <-.
  unfold readKind. unfold mbind at 1, SM_bind at 1. unfold gets at 1. unfold catch at 1. rewrite E. done.
Qed.

Lemma read_long_sound k (n : nat) s :
  inv s -> (1 <= n <= 8)%nat -> bytes (input s) ->
  exists v e s', read_long k (Z.of_nat n) s = (inl (k, v, e), s') /\
    match e with
    | Some e => e <> EOL
    | None => s' = read_state s n /\ Z.of_nat n <= room s /\ take n (input s) = putint v /\
        intsize v = Z.of_nat n /\ 56 <= v < 2 ^ 64
    end.
Proof.
  intros Hi Hn Hb. pose proof Hi as [_ _ _ _ Hro]. unfold read_long, catch.
  destruct (readUint_spec n s Hi Hn) as [Hok [ (e & s' & E & He)|[Hroom Hfst] ] ].
  - rewrite E. eexists _, (Some e), _. done.
  - rewrite Hok by done. destruct (Z.ltb_spec (be_get (take n (input s))) 56).
    + eexists _, (Some ErrCanonSize), _. split; [reflexivity|done].
    + eexists _, None, _. split; [reflexivity|]. split; [done|]. split; [done|].
      assert (length (take n (input s)) = n) as Hl by (rewrite length_take; lia).
      destruct (long_size (take n (input s))) as (E1 & E2 & E3);
        [by apply bytes_take|lia|done| |rewrite Hl in E2; split; [done|split; [done|lia] ] ].
      rewrite lookup_take_lt by lia. destruct Hfst as [->|]; [|done].
      destruct (input s) as [|c i]; [simpl in *; lia|]. unfold be_get in H. simpl in H |- *. lia.
Qed.

Lemma read_long_complete k v s rest :
  inv s -> 56 <= v < 2 ^ 64 -> input s = putint v ++ rest ->
  Z.of_nat (length (putint v)) <= room s ->
  read_long k (intsize v) s = (inl (k, v, None), read_state s (length (putint v))).
Proof.
  intros Hi Hv Hin Hroom. destruct (putint_get v) as [Hg Hl]; [lia|].
  pose proof (intsize_range v ltac:(lia)) as Hr.
  destruct (readUint_spec (length (putint v)) s Hi) as [Hok _]; [lia|].
  unfold read_long, catch. replace (intsize v) with (Z.of_nat (length (putint v))) by lia.
  rewrite Hok; [|done|].
  - rewrite Hin, take_app_length, Hg, (proj2 (Z.ltb_ge v 56)) by lia. done.
  - right. rewrite Hin, lookup_app_l by lia. by apply putint_head.
Qed.

Lemma read_state_same s s' n : same_place s s' -> same_place (read_state s n) (read_state s' n).
Proof. intros (E1 & E2 & E3 & E4). unfold same_place, read_state. simpl. by rewrite E1, E2, E3, E4. Qed.

Lemma read_state_plus s a b :
  same_place (read_state s (a + b)) (read_state (read_state s a) b).
Proof.
  unfold same_place, read_state. simpl. rewrite drop_drop, bump_bump. repeat split; [f_equal; lia|lia].
Qed.

Lemma readKind_sound s :
  inv s -> 1 <= room s -> bytes (input s) -> reads_header s (readKind s).
Proof.
  intros Hi Hr Hb. pose proof Hi as [_ _ _ _ Hro].
  destruct (input s) as [|b i] eqn:Ei; [simpl in *; lia|].
  rewrite (readKind_byte s b i Hi Hr Ei). inversion Hb as [|? ? Hbb Hbi]; subst. unfold is_byte in Hbb.
  set (s1 := set_byteval 0 (read_state s 1)).
  assert (moved s 1 s1) as Hm
    by (eapply same_place_moved; [by apply read_state_moved|done]).
  assert (forall k (n : nat) t,
    (1 <= n <= 8)%nat ->
    (forall v, 56 <= v < 2 ^ 64 -> intsize v = Z.of_nat n -> header k v (b :: putint v) t) ->
    (forall sz h bv bv', k <> Byte -> header k sz h bv -> header k sz h bv') -> k <> Byte ->
    reads_header s (read_long k (Z.of_nat n) s1)) as Hlong.
  { intros k n t Hn Hh Hirr Hk.
    destruct (read_long_sound k n s1 (mv_inv _ _ _ Hm) Hn) as (v & e & s2 & E & He).
    { simpl. by rewrite Ei. }
    exists k, v, e, s2. split; [done|]. destruct e as [e|]; [done|].
    destruct He as (-> & Hroom & Ht & Hiv & Hv).
    rewrite (moved_room s 1 s1 Hm) in Hroom by (rewrite Ei; simpl; lia).
    destruct (putint_get v) as [_ Hlp]; [lia|]. simpl in Ht. rewrite Ei in Ht. simpl in Ht.
    exists (b :: putint v). split; [eapply Hirr, Hh; done|]. simpl length. rewrite Hlp, Hiv, Nat2Z.id.
    split; [|split; [|lia] ].
    - simpl. rewrite Ei, <-Ht. simpl. by rewrite take_drop.
    - eapply (moved_trans s 1 s1 n); [done|]. apply read_state_moved; [apply Hm|].
      rewrite (moved_room s 1 s1 Hm) by (rewrite Ei; simpl; lia). lia. }
  unfold read_tag. unfold mbind at 1, SM_bind at 1, modify at 1. fold s1.
  destruct (Z.ltb_spec b 0x80).
  { exists Byte, 0, None, (set_byteval b s1). split; [done|]. exists [b].
    split; [simpl; split; [done|lia]|]. split; [simpl; by rewrite Ei|]. split; [|simpl; lia].
    eapply (same_place_moved s 1 s1); [done|]. done. }
  destruct (Z.ltb_spec b 0xB8).
  { exists String, (b - 0x80), None, s1. split; [done|]. exists [b].
    split; [unfold header; rewrite puthead_small by lia; split; [f_equal; lia|lia]|].
    split; [simpl; by rewrite Ei|]. split; [done|simpl; lia]. }
  destruct (Z.ltb_spec b 0xC0).
  { replace (b - 183) with (Z.of_nat (Z.to_nat (b - 183))) by lia.
    apply (Hlong String _ 0); [lia| |done|done]. intros v Hv Hiv. simpl.
    rewrite puthead_large by lia. split; [f_equal; lia|lia]. }
  destruct (Z.ltb_spec b 0xF8).
  { exists List, (b - 0xC0), None, s1. split; [done|]. exists [b].
    split; [unfold header; rewrite puthead_small by lia; split; [f_equal; lia|lia]|].
    split; [simpl; by rewrite Ei|]. split; [done|simpl; lia]. }
  replace (b - 247) with (Z.of_nat (Z.to_nat (b - 247))) by lia.
  apply (Hlong List _ 0); [lia| |done|done]. intros v Hv Hiv. simpl.
  rewrite puthead_large by lia. split; [f_equal; lia|lia].
Qed.

Lemma readKind_complete s k sz h bv rest :
  inv s -> header k sz h bv -> input s = h ++ rest -> Z.of_nat (length h) <= room s ->
  exists s', readKind s = (inl (k, sz, None), s') /\ input s' = rest /\ moved s (length h) s' /\
    (k = Byte -> byteval s' = bv).
Proof.
  intros Hi Hh Hin Hroom.
  assert (exists b h', h = b :: h') as (b & h' & ->).
  { destruct h as [|b h']; [|eauto]. destruct k; simpl in Hh; [by destruct Hh|..];
      destruct Hh as [Hh Hsz]; destruct (length_puthead 0x80 0xB7 sz Hsz), (length_puthead 0xC0 0xF7 sz Hsz);
      apply (f_equal length) in Hh; simpl in Hh; lia. }
  simpl length in *. rewrite (readKind_byte s b (h' ++ rest)) by (done || lia).
  set (s1 := set_byteval 0 (read_state s 1)).
  assert (moved s 1 s1) as Hm
    by (eapply same_place_moved; [apply read_state_moved; [done|lia]|done]).
  assert (input s1 = h' ++ rest) as Hin1 by (simpl; by rewrite Hin).
  assert (room s1 = room s - 1) as Hr1 by (apply (moved_room s 1 s1 Hm); rewrite Hin; simpl; lia).
  assert (forall k' (l : Z) v, h' = putint v -> 56 <= v < 2 ^ 64 ->
    exists s', read_long k' (intsize v) s1 = (inl (k', v, None), s') /\ input s' = rest /\
      moved s (S (length h')) s') as Hlong.
  { intros k' l v -> Hv. eexists. split; [by apply (read_long_complete k' v s1 rest); [apply Hm| | |lia]|].
    split; [change (drop (length (putint v)) (input s1) = rest); by rewrite Hin1, drop_app_length|].
    apply (moved_trans s 1 s1 (length (putint v))); [done|]. apply read_state_moved; [apply Hm|lia]. }
  unfold read_tag. unfold mbind at 1, SM_bind at 1, modify at 1. fold s1.
  destruct k; simpl in Hh.
  - destruct Hh as ([= -> ->] & Hb & ->). rewrite (proj2 (Z.ltb_lt _ _)) by lia.
    exists (set_byteval bv s1). split; [done|]. split; [done|].
    split; [by apply (same_place_moved s 1 s1)|done].
  - destruct Hh as [Hh Hsz]. destruct (Z.lt_ge_cases sz 56).
    + rewrite puthead_small in Hh by lia. injection Hh as -> ->.
      rewrite (proj2 (Z.ltb_ge _ _)), (proj2 (Z.ltb_lt _ _)) by lia.
      exists s1. replace (128 + sz - 128) with sz by lia. done.
    + rewrite puthead_large in Hh by lia. injection Hh as -> Hh'.
      pose proof (intsize_range sz ltac:(lia)).
      rewrite (proj2 (Z.ltb_ge _ 0x80)), (proj2 (Z.ltb_ge _ 0xB8)), (proj2 (Z.ltb_lt _ 0xC0)) by lia.
      replace (183 + intsize sz - 183) with (intsize sz) by lia.
      destruct (Hlong String 0 sz Hh') as (s' & E & Hin' & Hm'); [lia|]. by exists s'.
  - destruct Hh as [Hh Hsz]. destruct (Z.lt_ge_cases sz 56).
    + rewrite puthead_small in Hh by lia. injection Hh as -> ->.
      rewrite (proj2 (Z.ltb_ge _ 0x80)), (proj2 (Z.ltb_ge _ 0xB8)), (proj2 (Z.ltb_ge _ 0xC0)),
        (proj2 (Z.ltb_lt _ _)) by lia.
      exists s1. replace (192 + sz - 192) with sz by lia. done.
    + rewrite puthead_large in Hh by lia. injection Hh as -> Hh'.
      pose proof (intsize_range sz ltac:(lia)).
      rewrite (proj2 (Z.ltb_ge _ 0x80)), (proj2 (Z.ltb_ge _ 0xB8)), (proj2 (Z.ltb_ge _ 0xC0)),
        (proj2 (Z.ltb_ge _ 0xF8)) by lia.
      replace (247 + intsize sz - 247) with (intsize sz) by lia.
      destruct (Hlong List 0 sz Hh') as (s' & E & Hin' & Hm'); [lia|]. by exists s'.
Qed.

(** ** [Kind] *)

(** [Kind] found a value of kind [k] and size [sz] and is placed after its
    header [h]. *)
Record at_value (s : Stream) (k : Kind) (sz : Z) (h : list Z) (s1 : Stream) : Prop := {
  av_header : header k sz h (byteval s1);
  av_input : input s = h ++ input s1;
  av_moved : moved s (length h) s1;
  av_kind : kind s1 = Some k;
  av_size : size s1 = sz;
  av_err : kinderr s1 = None;
  av_fits : Z.of_nat (length h) + sz <= room s
}.

(** What is left to do in [Kind] after [readKind]. *)
Definition finish_kind (p : Kind * Z * option rlp_error) : SM (Kind * Z) :=
  let '(k, sz, e) := p in
  lim ← gets limited;
  rem ← gets remaining;
  st ← gets stack;
  let e :=
    match e with
    | Some e => Some e
    | None =>
        match st with
        | [] => if lim && (rem <? sz) then Some ErrValueTooLarge else None
        | tos :: _ => if u64 (psize tos - pos tos) <? sz then Some ErrElemTooLarge else None
        end
    end in
  _ ← modify (fun s => set_kinderr e (set_size sz (set_kind (Some k) s)));
  match e with Some e => fail e | None => mret (k, sz) end.

Definition clean (s : Stream) : Stream := set_kinderr None s.

Lemma Kind_fresh s :
  inv s -> kind s = None ->
  Kind_ s = (if decide (stack s <> [] /\ room s = 0) then fail EOL else (p ← readKind; finish_kind p)) (clean s).
Proof.
  intros Hi Hk. unfold Kind_. unfold mbind at 1, SM_bind at 1, gets at 1. rewrite Hk.
  unfold mbind at 1, SM_bind at 1, gets at 1. unfold mbind at 1, SM_bind at 1, modify at 1.
  fold (clean s). unfold room. destruct (stack s) as [|f st] eqn:Es.
  - rewrite decide_False by naive_solver. done.
  - destruct (Z.eqb_spec (pos f) (psize f)).
    + rewrite decide_True; [done|]. split; [done|lia].
    + rewrite decide_False; [done|]. intros [_ ?]. lia.
Qed.

(** The size test of [Kind], under the invariant. *)
Lemma finish_kind_spec k sz s :
  inv s -> 0 <= sz ->
  let s2 e := set_kinderr e (set_size sz (set_kind (Some k) s)) in
  if sz <=? room s then finish_kind (k, sz, None) s = (inl (k, sz), s2 None)
  else is_fail (finish_kind (k, sz, None) s).
Proof.
  intros Hi Hsz s2. destruct Hi as [Hl Hr Hs Hf Hro]. unfold room in *.
  unfold finish_kind, mbind, SM_bind, gets, modify, is_fail. rewrite Hl, Hr.
  destruct (stack s) as [|f st].
  - simpl andb. destruct (Z.leb_spec sz (Z.of_nat (length (input s)))).
    + by rewrite (proj2 (Z.ltb_ge (Z.of_nat (length (input s))) sz)) by lia.
    + rewrite (proj2 (Z.ltb_lt (Z.of_nat (length (input s))) sz)) by lia. eexists _, _. done.
  - simpl in Hf. unfold u64. rewrite Z.mod_small by lia.
    destruct (Z.leb_spec sz (psize f - pos f)).
    + by rewrite (proj2 (Z.ltb_ge (psize f - pos f) sz)) by lia.
    + rewrite (proj2 (Z.ltb_lt (psize f - pos f) sz)) by lia. eexists _, _. done.
Qed.

Lemma clean_inv s : inv s -> inv (clean s).
Proof. intros Hi. by apply (same_place_inv s). Qed.

Lemma moved_clean s n s' : moved (clean s) n s' -> moved s n s'.
Proof. intros [Hi Hs Hv]. by split. Qed.

Lemma header_size_nonneg k sz h bv : header k sz h bv -> 0 <= sz.
Proof. destruct k; simpl; lia. Qed.

(** Either [EOL] at the end of a list, or an error, or a value. *)
Lemma Kind_sound s :
  inv s -> kind s = None -> bytes (input s) ->
  (stack s <> [] /\ room s = 0 /\ Kind_ s = (inr (Some EOL), clean s)) \/
  is_fail (Kind_ s) \/
  exists k sz h s1, Kind_ s = (inl (k, sz), s1) /\ at_value s k sz h s1.
Proof.
  intros Hi Hk Hb. rewrite (Kind_fresh s Hi Hk). case_decide as Hd; [left; destruct Hd; done|right].
  pose proof (clean_inv s Hi) as Hc. pose proof (room_nonneg s Hi) as Hr0.
  assert (room (clean s) = room s) as Hrc by done.
  destruct (Z.lt_ge_cases (room s) 1) as [Hlt|Hge].
  { left. pose proof (readByte_spec (clean s) Hc) as Hrb. rewrite Hrc in Hrb.
    rewrite (proj2 (Z.leb_gt 1 (room s))) in Hrb by lia. destruct Hrb as (e & s' & E & He).
    unfold mbind, SM_bind, readKind, gets, catch. unfold mbind, SM_bind. rewrite E.
    unfold mret, SM_ret, finish_kind, mbind, SM_bind, gets, modify, fail.
    eexists _, _. split; [reflexivity|].
    destruct e; try done; by case_decide. }
  destruct (readKind_sound (clean s) Hc Hge Hb) as (k & sz & e & s1 & E & He).
  unfold mbind at 1 2, SM_bind at 1 2. rewrite E. destruct e as [e|].
  { left. unfold finish_kind, mbind, SM_bind, gets, modify, fail. by eexists _, _. }
  destruct He as (h & Hh & Hin & Hm & Hlen).
  pose proof (header_size_nonneg _ _ _ _ Hh) as Hsz.
  pose proof (finish_kind_spec k sz s1 (mv_inv _ _ _ Hm) Hsz) as Hf. cbv zeta in Hf.
  destruct (Z.leb_spec sz (room s1)) as [Hle|]; [|by left].
  right. exists k, sz, h. eexists. split; [exact Hf|].
  rewrite (moved_room _ _ _ Hm) in Hle; [|destruct Hi; simpl in *; lia].
  split; try done; [|lia].
  apply moved_clean. by apply (same_place_moved (clean s) _ s1).
Qed.

Lemma Kind_complete s k sz h bv rest :
  inv s -> kind s = None -> header k sz h bv -> input s = h ++ rest ->
  Z.of_nat (length h) + sz <= room s -> (0 < length h)%nat ->
  exists s1, Kind_ s = (inl (k, sz), s1) /\ at_value s k sz h s1 /\ input s1 = rest /\
    (k = Byte -> byteval s1 = bv).
Proof.
  intros Hi Hk Hh Hin Hroom Hpos. pose proof (header_size_nonneg _ _ _ _ Hh) as Hsz.
  rewrite (Kind_fresh s Hi Hk). rewrite decide_False by lia.
  destruct (readKind_complete (clean s) k sz h bv rest (clean_inv s Hi) Hh Hin) as (s1 & E & Hin1 & Hm & Hbv).
  { change (room (clean s)) with (room s). lia. }
  unfold mbind at 1, SM_bind at 1. rewrite E.
  pose proof (finish_kind_spec k sz s1 (mv_inv _ _ _ Hm) Hsz) as Hf. cbv zeta in Hf.
  rewrite (moved_room _ _ _ Hm) in Hf by (simpl; rewrite Hin, length_app; lia).
  change (room (clean s)) with (room s) in Hf. rewrite (proj2 (Z.leb_le _ _)) in Hf by lia.
  eexists. split; [exact Hf|]. split; [|done].
  split; try done.
  - destruct k; simpl in *; [|done|done]. by rewrite Hbv.
  - by rewrite <-Hin1 in Hin.
  - apply moved_clean. by apply (same_place_moved (clean s) _ s1).
Qed.

(** ** Strings and lists at the current value *)

Lemma Kind_cached s k sz h s1 : at_value s k sz h s1 -> Kind_ s1 = (inl (k, sz), s1).
Proof.
  intros []. unfold Kind_, mbind, SM_bind, gets. rewrite av_kind0, av_size0, av_err0. done.
Qed.

Lemma at_value_room s k sz h s1 :
  inv s -> at_value s k sz h s1 -> inv s1 /\ 0 <= sz <= room s1 /\ room s1 = room s - Z.of_nat (length h).
Proof.
  intros Hi Hv. destruct Hv. pose proof (header_size_nonneg _ _ _ _ av_header0).
  rewrite (moved_room _ _ _ av_moved0) by (rewrite av_input0, length_app; lia).
  split; [apply av_moved0|]. lia.
Qed.

(** The outcome of reading one complete value [b] (in encoded form). *)
Record consumed (s : Stream) (b : list Z) (s' : Stream) : Prop := {
  co_input : input s = b ++ input s';
  co_moved : moved s (length b) s';
  co_kind : kind s' = None
}.

Lemma consumed_bytes s b s' : consumed s b s' -> bytes (input s) -> bytes (input s').
Proof. intros [-> _ _] Hb. by apply bytes_app in Hb as [_ Hb]. Qed.

Lemma take_of_app (n : nat) (l : list Z) : take n l ++ drop n l = l.
Proof. apply take_drop. Qed.

Lemma Bytes_at s k sz h s1 :
  at_value s k sz h s1 ->
  Bytes s1 =
    match k with
    | Byte => (inl [byteval s1], set_kind None s1)
    | String =>
        match readFull (Z.to_nat sz) s1 with
        | (inl b, s2) => if (sz =? 1) && (default 0 (b !! 0%nat) <? 128)
                         then (inr (Some ErrCanonSize), s2) else (inl b, s2)
        | (inr e, s2) => (inr e, s2)
        end
    | List => (inr (Some ErrExpectedString), s1)
    end.
Proof.
  intros Hv. unfold Bytes. unfold mbind at 1, SM_bind at 1. rewrite (Kind_cached _ _ _ _ _ Hv).
  destruct k; [done| |done]. unfold mbind, SM_bind. destruct (readFull _ s1) as [ [b|e] s2]; [|done].
  by destruct (_ && _).
Qed.

Lemma Bytes_sound s k sz h s1 :
  inv s -> at_value s k sz h s1 -> k <> List ->
  is_fail (Bytes s1) \/ exists b s2, Bytes s1 = (inl b, s2) /\ consumed s (enc_str b) s2.
Proof.
  intros Hi Hv Hk. destruct (at_value_room s k sz h s1 Hi Hv) as (Hi1 & Hsz & Hr1).
  rewrite (Bytes_at _ _ _ _ _ Hv).
  destruct Hv as [Hh Hin Hm _ _ _ Hfit]. destruct k; [| |done]; simpl in Hh.
  - right. destruct Hh as (-> & Hbv & ->). exists [byteval s1], (set_kind None s1). split; [reflexivity|].
    assert (enc_str [byteval s1] = [byteval s1]) as E
      by (unfold enc_str; by rewrite (proj2 (Z.leb_le _ 0x7F)) by lia).
    split; rewrite ?E; [done|by apply (same_place_moved s _ s1)|done].
  - destruct Hh as [-> Hsz']. pose proof (readFull_spec (Z.to_nat sz) s1 Hi1) as Hf.
    rewrite (proj2 (Z.leb_le _ _)) in Hf by lia. rewrite Hf.
    set (b := take (Z.to_nat sz) (input s1)).
    assert (length b = Z.to_nat sz) as Hlb by (unfold b; rewrite length_take; destruct Hi1; lia).
    destruct ((sz =? 1) && (default 0 (b !! 0%nat) <? 128)) eqn:Hc; [left; by eexists _, _|right].
    eexists _, _. split; [done|].
    assert (enc_str b = puthead 0x80 0xB7 sz ++ b) as E.
    { rewrite enc_str_long; [by rewrite Hlb, Z2Nat.id by lia|]. intros x Hx.
      rewrite Hx in Hlb, Hc. simpl in Hlb, Hc. rewrite (proj2 (Z.eqb_eq sz 1)) in Hc by lia. simpl in Hc. lia. }
    split; [| |done]; rewrite E.
    + rewrite Hin at 1. rewrite <-app_assoc. f_equal. symmetry. apply take_drop.
    + rewrite length_app, Hlb. eapply moved_trans; [done|]. apply read_state_moved; [done|lia].
Qed.

Lemma bytes_str_header b :
  bytes b -> Z.of_nat (length (enc_str b)) < 2 ^ 64 ->
  exists k sz h bv c, header k sz h bv /\ k <> List /\ enc_str b = h ++ c /\
    Z.of_nat (length c) = sz /\ (0 < length h)%nat /\
    (k = Byte -> b = [bv]) /\ (k = String -> c = b /\ long_string b).
Proof.
  intros Hb Hlen. destruct (enc_str_cases b) as [(x & -> & Hx & E & _)|(Hl & E & _)].
  - exists Byte, 0, [x], x, []. rewrite E. inversion Hb; subst. unfold is_byte in *.
    repeat split; (done || simpl; lia).
  - rewrite E, length_app in Hlen. exists String, (Z.of_nat (length b)), (puthead 0x80 0xB7 (Z.of_nat (length b))), 0, b.
    destruct (length_puthead 0x80 0xB7 (Z.of_nat (length b))); [lia|].
    split; [split; [done|lia]|]. split; [done|]. split; [done|]. split; [done|]. split; [lia|].
    split; [done|]. intros _. done.
Qed.

Lemma Bytes_complete s b rest :
  inv s -> kind s = None -> bytes b -> input s = enc_str b ++ rest ->
  Z.of_nat (length (enc_str b)) <= room s ->
  exists k sz h s1 s2, Kind_ s = (inl (k, sz), s1) /\ at_value s k sz h s1 /\ k <> List /\
    Bytes s1 = (inl b, s2) /\ consumed s (enc_str b) s2 /\ input s2 = rest.
Proof.
  intros Hi Hk Hb Hin Hroom. pose proof Hi as [_ _ Hsm _ Hro].
  destruct (bytes_str_header b Hb) as (k & sz & h & bv & c & Hh & Hkl & E & Hc & Hpos & Hbyte & Hstr); [lia|].
  destruct (Kind_complete s k sz h bv (c ++ rest) Hi Hk Hh) as (s1 & EK & Hv & Hin1 & Hbv).
  - by rewrite Hin, E, <-app_assoc.
  - rewrite E, length_app in Hroom. lia.
  - done.
  - destruct (Bytes_sound s k sz h s1 Hi Hv Hkl) as [Hf|(b' & s2 & EB & Hco)].
    + exfalso. destruct (at_value_room s k sz h s1 Hi Hv) as (Hi1 & Hsz & Hr1).
      destruct Hf as (e & s' & Ef & _). rewrite (Bytes_at _ _ _ _ _ Hv) in Ef.
      destruct k; [done| |done].
      destruct (Hstr eq_refl) as [-> Hl]. pose proof (readFull_spec (Z.to_nat sz) s1 Hi1) as Hrf.
      rewrite (proj2 (Z.leb_le _ _)) in Hrf by lia. rewrite Hrf in Ef.
      rewrite Hin1, take_app_length' in Ef by lia.
      destruct ((sz =? 1) && (default 0 (b !! 0%nat) <? 128)) eqn:Hcan; [|done].
      apply andb_prop in Hcan as [H1 H2]. destruct b as [|x [|] ]; simpl in *; try lia.
      specialize (Hl x eq_refl). lia.
    + assert (b' = b /\ input s2 = rest) as [-> Hr2].
      { pose proof (co_input _ _ _ Hco) as E2. rewrite Hin in E2.
        rewrite (Bytes_at _ _ _ _ _ Hv) in EB.
        destruct k; [| |done].
        - injection EB as <- <-. rewrite Hbv, (Hbyte eq_refl) in * by done. split; [done|]. simpl. rewrite Hin1.
          destruct c; [done|simpl in Hc; simpl in Hh; lia].
        - destruct (at_value_room s String sz h s1 Hi Hv) as (Hi1 & Hsz & Hr1).
          destruct (Hstr eq_refl) as [-> Hl]. pose proof (readFull_spec (Z.to_nat sz) s1 Hi1) as Hrf.
          rewrite (proj2 (Z.leb_le _ _)) in Hrf by lia. rewrite Hrf in EB.
          destruct (_ && _); [done|]. injection EB as <- <-. simpl.
          rewrite Hin1, take_app_length', drop_app_length' by lia. done. }
      exists k, sz, h, s1, s2. done.
Qed.

(** ** Lists *)

(** The stream inside a list of [sz] bytes. *)
Definition enter (s1 : Stream) (sz : Z) : Stream :=
  set_size 0 (set_kind None (set_stack (mkPos 0 sz :: stack s1) s1)).

Lemma List_at s sz h s1 : at_value s List sz h s1 -> List_ s1 = (inl sz, enter s1 sz).
Proof.
  intros Hv. unfold List_, mbind, SM_bind. rewrite (Kind_cached _ _ _ _ _ Hv).
  by rewrite decide_True.
Qed.

Lemma enter_inv s sz h s1 :
  inv s -> at_value s List sz h s1 -> inv (enter s1 sz) /\ room (enter s1 sz) = sz.
Proof.
  intros Hi Hv. destruct (at_value_room _ _ _ _ _ Hi Hv) as (Hi1 & Hsz & Hr).
  destruct Hv as [ [_ Hlt] _ _ _ _ _ _]. destruct Hi1 as [Hl Hrem Hsm Hf Hro].
  assert (room (enter s1 sz) = sz) as Hre by (unfold room; simpl; lia).
  split; [|done]. split; [done|done|done| |rewrite Hre; simpl; lia].
  simpl. repeat split; [lia..| |done].
  unfold room in Hsz. destruct (stack s1); [done|]. lia.
Qed.

(** Leaving a list whose [sz] bytes have been read. *)
Lemma ListEnd_at s sz h s1 (n : nat) s2 :
  inv s -> at_value s List sz h s1 -> moved (enter s1 sz) n s2 -> Z.of_nat n = sz ->
  exists s3, ListEnd s2 = (inl tt, s3) /\ moved s1 n s3 /\ kind s3 = None /\ input s3 = input s2.
Proof.
  intros Hi Hv [Hin Hst Hi2] Hn.
  destruct (at_value_room _ _ _ _ _ Hi Hv) as (Hi1 & Hsz & Hr).
  simpl in Hin, Hst. unfold ListEnd, mbind, SM_bind, gets, modify. rewrite Hst. cbn [pos psize].
  rewrite (proj2 (Z.eqb_eq _ _)) by lia. simpl negb. cbn iota.
  eexists. split; [reflexivity|]. split; [|done].
  assert (match stack s1 with
          | [] => []
          | up :: st'' => mkPos (u64 (pos up + sz)) (psize up) :: st''
          end = bump (Z.of_nat n) (stack s1)) as E.
  { destruct Hi1 as [_ _ _ Hf _]. unfold room in Hsz.
    destruct (stack s1) as [|g st]; [done|]. simpl in *. unfold u64. rewrite Z.mod_small by lia. by rewrite Hn. }
  assert (Z.of_nat n <= room s1) as Hle by lia.
  destruct (read_state_moved s1 n Hi1 Hle) as [_ _ Hir].
  split; [exact Hin|exact E|]. eapply same_place_inv; [exact Hir|].
  split; [exact Hin|]. split; [exact E|]. destruct Hi2 as [Hl2 Hr2 _ _ _]. destruct Hi1 as [Hl1 Hr1 _ _ Hro1].
  simpl. rewrite Hl1, Hl2, Hr1, Hr2. split; [|done]. rewrite Hin, length_drop. lia.
Qed.

(** ** Untyped values *)

Lemma enc_str_nonempty b : (0 < length (enc_str b))%nat.
Proof.
  destruct (enc_str_cases b) as [(x & -> & _ & -> & _)|(_ & -> & _)]; [simpl; lia|].
  rewrite length_app. unfold puthead. destruct (_ <? 56); simpl; lia.
Qed.

Lemma enc_nonempty it : (0 < length (enc it))%nat.
Proof.
  destruct it as [b|l]; simpl; [apply enc_str_nonempty|]. unfold enc_list, puthead.
  rewrite length_app. destruct (_ <? 56); simpl; lia.
Qed.

Definition enc_all (l : list item) : list Z := concat (map enc l).

Lemma consumed_trans s b1 s1 b2 s2 : consumed s b1 s1 -> consumed s1 b2 s2 -> consumed s (b1 ++ b2) s2.
Proof.
  intros [I1 M1 _] [I2 M2 K2]. split; [by rewrite I1, I2, app_assoc| |done].
  rewrite length_app. by eapply moved_trans.
Qed.

Lemma consumed_nil s s' : inv s -> kind s = None -> same_place s s' -> kind s' = None -> consumed s [] s'.
Proof.
  intros Hi Hk E Hk'. split; [by destruct E as (-> & _)| |done].
  apply (same_place_moved s 0 s); [|done]. split; [done|by rewrite bump_0|done].
Qed.

(** What a decoder of one value guarantees, with [fuel] as its bound. *)
Definition decodes (fuel : nat) (s : Stream) (r : res item * Stream) : Prop :=
  match r with
  | (inl it, s') => consumed s (enc it) s'
  | (inr (Some EOL), s') => stack s <> [] /\ room s = 0 /\ s' = clean s
  | (inr (Some _), _) => True
  | (inr None, _) => (fuel <= length (input s))%nat
  end.

Definition elems_decoded (n : nat) (acc : list item) (s : Stream) (r : res (list item) * Stream) : Prop :=
  match r with
  | (inl l, s') => exists l', l = acc ++ l' /\ consumed s (enc_all l') s' /\ room s' = 0
  | (inr (Some e), _) => e <> EOL
  | (inr None, _) => (n <= length (input s))%nat
  end.

Lemma decodeSliceElems_sound fuel n acc s dec :
  (forall s, inv s -> kind s = None -> bytes (input s) -> decodes fuel s (dec s)) ->
  (n <= fuel)%nat -> inv s -> kind s = None -> bytes (input s) ->
  elems_decoded n acc s (decodeSliceElems dec n acc s).
Proof.
  intros Hdec. revert acc s. induction n as [|n IH]; intros acc s Hn Hi Hk Hb; [simpl; lia|].
  cbn [decodeSliceElems]. unfold catch. specialize (Hdec s Hi Hk Hb).
  destruct (dec s) as [ [it|[e|] ] s1]; simpl in Hdec.
  - destruct Hdec as [Hin Hm Hk1].
    assert (bytes (input s1)) as Hb1 by (rewrite Hin in Hb; by apply bytes_app in Hb as [_ Hb]).
    specialize (IH (acc ++ [it]) s1 ltac:(lia) (mv_inv _ _ _ Hm) Hk1 Hb1).
    destruct (decodeSliceElems dec n (acc ++ [it]) s1) as [ [l|[e|] ] s2]; simpl in *.
    + destruct IH as (l' & -> & Hco & Hr). exists (it :: l'). split; [by rewrite <-app_assoc|].
      split; [|done]. by apply (consumed_trans s (enc it) s1).
    + done.
    + pose proof (enc_nonempty it). rewrite Hin, length_app. lia.
  - destruct e; try done. destruct Hdec as (Hst & Hr & ->). exists []. rewrite app_nil_r.
    split; [done|]. split; [|done]. by apply consumed_nil.
  - simpl. lia.
Qed.

(** A list value whose elements were decoded to [l]. *)
Lemma list_consumed s sz h s1 l s2 :
  inv s -> at_value s List sz h s1 -> consumed (enter s1 sz) (enc_all l) s2 -> room s2 = 0 ->
  exists s3, ListEnd s2 = (inl tt, s3) /\ consumed s (enc (Lst l)) s3 /\ input s3 = input s2.
Proof.
  intros Hi Hv [Hin Hm Hk2] Hr. destruct (enter_inv _ _ _ _ Hi Hv) as [Hie Hre].
  assert (Z.of_nat (length (enc_all l)) = sz) as Hsz.
  { pose proof (moved_room _ _ _ Hm) as Hmr. rewrite Hre, Hr in Hmr.
    rewrite Hin, length_app in Hmr. lia. }
  destruct (ListEnd_at s sz h s1 (length (enc_all l)) s2 Hi Hv Hm Hsz) as (s3 & E & Hm3 & Hk3 & Hi3).
  exists s3. split; [done|]. split; [|done]. destruct Hv as [ [-> _] Hin1 Hm1 _ _ _ _].
  assert (enc (Lst l) = puthead 0xC0 0xF7 sz ++ enc_all l) as Ee
    by (simpl; unfold enc_list; by rewrite <-Hsz).
  rewrite Ee. split; [|rewrite length_app; by eapply moved_trans|done].
  rewrite Hin1 at 1. rewrite <-app_assoc. f_equal. simpl in Hin. by rewrite Hin, Hi3.
Qed.

Lemma decodeInterface_sound fuel s :
  inv s -> kind s = None -> bytes (input s) -> decodes fuel s (decodeInterface fuel s).
Proof.
  revert s. induction fuel as [|f IH]; intros s Hi Hk Hb; [simpl; lia|].
  cbn [decodeInterface]. unfold mbind at 1, SM_bind at 1.
  destruct (Kind_sound s Hi Hk Hb) as [(Hst & Hr & E)|[(e & s' & E & He)|(k & sz & h & s1 & E & Hv)] ];
    rewrite E.
  - done.
  - by destruct e.
  - destruct (decide (k = List)) as [->|Hkl].
    + unfold decodeListSlice, mbind, SM_bind. rewrite (List_at _ _ _ _ Hv).
      destruct (enter_inv _ _ _ _ Hi Hv) as [Hie Hre]. destruct (Z.eqb_spec sz 0) as [->|].
      * destruct (list_consumed s 0 h s1 [] (enter s1 0) Hi Hv) as (s3 & E3 & Hco & _);
          [by apply consumed_nil|done|]. rewrite E3. done.
      * assert (bytes (input (enter s1 sz))) as Hbe.
        { simpl. destruct Hv as [_ Hin _ _ _ _ _]. rewrite Hin in Hb. by apply bytes_app in Hb as [_ Hb]. }
        pose proof (decodeSliceElems_sound f f [] (enter s1 sz) (decodeInterface f) IH (le_n f) Hie eq_refl Hbe)
          as Hel.
        destruct (decodeSliceElems (decodeInterface f) f [] (enter s1 sz)) as [ [l|[e|] ] s2]; simpl in Hel.
        -- destruct Hel as (l' & -> & Hco & Hr2).
           destruct (list_consumed s sz h s1 l' s2 Hi Hv Hco Hr2) as (s3 & E3 & Hco3 & _).
           rewrite E3. exact Hco3.
        -- by destruct e.
        -- simpl. destruct Hv as [ [-> Hsz] Hin _ _ _ _ _]. rewrite Hin, length_app.
           destruct (length_puthead 0xC0 0xF7 sz Hsz). lia.
    + unfold mbind, SM_bind.
      destruct (Bytes_sound s k sz h s1 Hi Hv Hkl) as [(e & s' & Ee & He)|(b & s2 & Eb & Hco)].
      * rewrite Ee. by destruct e.
      * rewrite Eb. exact Hco.
Qed.

(** Completeness, by induction on the item. *)
Fixpoint item_tree_ind (P : item -> Prop) (Hs : forall b, P (Str b))
    (Hl : forall l, Forall P l -> P (Lst l)) (it : item) : P it :=
  match it with
  | Str b => Hs b
  | Lst l => Hl l ((fix go (l : list item) : Forall P l :=
      match l with
      | [] => List.Forall_nil P
      | it :: l' => List.Forall_cons P _ _ (item_tree_ind P Hs Hl it) (go l')
      end) l)
  end.

Fixpoint item_bytes (it : item) : Prop :=
  match it with
  | Str b => bytes b
  | Lst l => (fix all (l : list item) : Prop := match l with [] => True | it :: l' => item_bytes it /\ all l' end) l
  end.

Lemma item_bytes_list l : item_bytes (Lst l) <-> Forall item_bytes l.
Proof.
  simpl. induction l as [|it l IH]; split.
  - constructor.
  - done.
  - intros [? ?]. constructor; [done|by apply IH].
  - intros Hf. inversion Hf; subst. split; [done|by apply IH].
Qed.

Definition decodes_to (it : item) : Prop := forall fuel s rest,
  inv s -> kind s = None -> item_bytes it -> input s = enc it ++ rest ->
  Z.of_nat (length (enc it)) <= room s -> (length (enc it) < fuel)%nat ->
  exists s', decodeInterface fuel s = (inl it, s') /\ consumed s (enc it) s' /\ input s' = rest.

Lemma decodeInterface_eol f s :
  inv s -> kind s = None -> stack s <> [] -> room s = 0 ->
  decodeInterface (S f) s = (inr (Some EOL), clean s).
Proof.
  intros Hi Hk Hst Hr. cbn [decodeInterface]. unfold mbind at 1, SM_bind at 1.
  rewrite (Kind_fresh s Hi Hk). by rewrite decide_True.
Qed.

Lemma elems_complete f n l acc s rest :
  Forall decodes_to l -> Forall item_bytes l -> inv s -> kind s = None -> stack s <> [] ->
  input s = enc_all l ++ rest -> Z.of_nat (length (enc_all l)) = room s ->
  (length (enc_all l) < n)%nat -> (length (enc_all l) < f)%nat ->
  exists s', decodeSliceElems (decodeInterface f) n acc s = (inl (acc ++ l), s') /\
    consumed s (enc_all l) s' /\ input s' = rest /\ room s' = 0.
Proof.
  intros Hl. revert n acc s. induction Hl as [|it l Hit Hl IH]; intros n acc s Hb Hi Hk Hst Hin Hr Hn Hf;
    (destruct n as [|n]; [simpl in *; lia|]); cbn [decodeSliceElems]; unfold catch.
  - destruct f as [|f]; [simpl in *; lia|]. simpl in Hr. rewrite decodeInterface_eol by (done || lia).
    exists (clean s). rewrite app_nil_r. split; [done|]. split; [by apply consumed_nil|].
    split; [exact Hin|]. by symmetry.
  - inversion Hb as [|? ? Hbi Hbl]; subst. unfold enc_all in *. cbn [map concat] in *.
    rewrite length_app in *. rewrite <-app_assoc in Hin.
    destruct (Hit f s (concat (map enc l) ++ rest) Hi Hk Hbi Hin) as (s1 & -> & Hco & Hin1); [lia|lia|].
    pose proof Hco as [_ Hm Hk1]. pose proof (enc_nonempty it).
    destruct (IH n (acc ++ [it]) s1 Hbl (mv_inv _ _ _ Hm) Hk1) as (s2 & -> & Hco2 & Hin2 & Hr2); try done.
    + rewrite (mv_stack _ _ _ Hm). by destruct (stack s).
    + rewrite (moved_room _ _ _ Hm) by (rewrite Hin, length_app; lia). lia.
    + lia.
    + lia.
    + exists s2. rewrite <-app_assoc. split; [done|]. split; [by eapply consumed_trans|]. done.
Qed.

Lemma decodeInterface_complete it : decodes_to it.
Proof.
  induction it as [b|l IH] using item_tree_ind; intros fuel s rest Hi Hk Hb Hin Hr Hf;
    (destruct fuel as [|f]; [lia|]); cbn [decodeInterface]; unfold mbind at 1, SM_bind at 1.
  - destruct (Bytes_complete s b rest Hi Hk Hb Hin Hr) as (k & sz & h & s1 & s2 & -> & Hv & Hkl & EB & Hco & Hin2).
    rewrite decide_False by done. unfold mbind, SM_bind. rewrite EB. by exists s2.
  - simpl in Hin. unfold enc_list in Hin. simpl in Hr, Hf. unfold enc_list in Hr, Hf. fold (enc_all l) in *.
    rewrite length_app in Hr, Hf. rewrite <-app_assoc in Hin. set (sz := Z.of_nat (length (enc_all l))) in *.
    pose proof Hi as [_ _ Hsm _ Hro].
    assert (header List sz (puthead 0xC0 0xF7 sz) 0) as Hh by (simpl; split; [done|lia]).
    destruct (length_puthead 0xC0 0xF7 sz) as [Hlh Hrh]; [lia|].
    destruct (Kind_complete s List sz _ 0 _ Hi Hk Hh Hin) as (s1 & -> & Hv & Hin1 & _); [lia|lia|].
    rewrite decide_True by done. unfold decodeListSlice, mbind, SM_bind. rewrite (List_at _ _ _ _ Hv).
    destruct (enter_inv _ _ _ _ Hi Hv) as [Hie Hre]. destruct (Z.eqb_spec sz 0) as [Hz|].
    + assert (l = []) as ->.
      { destruct l as [|it l]; [done|]. unfold sz, enc_all in Hz. cbn [map concat] in Hz.
        rewrite length_app in Hz. pose proof (enc_nonempty it). lia. }
      destruct (list_consumed s sz _ s1 [] (enter s1 sz) Hi Hv) as (s3 & E3 & Hco & Hi3);
        [by apply consumed_nil|lia|]. rewrite E3. exists s3. split; [done|]. split; [done|].
      rewrite Hi3. simpl. by rewrite Hin1.
    + apply item_bytes_list in Hb.
      destruct (elems_complete f f l [] (enter s1 sz) rest IH Hb Hie) as (s2 & -> & Hco & Hin2 & Hr2);
        try done; try lia.
      destruct (list_consumed s sz _ s1 l s2 Hi Hv Hco Hr2) as (s3 & -> & Hco3 & Hi3).
      exists s3. split; [done|]. split; [done|]. by rewrite Hi3.
Qed.

Lemma enc_bytes_inv it : bytes (enc it) -> item_bytes it.
Proof.
  induction it as [b|l IH] using item_tree_ind; simpl enc; intros Hb.
  - destruct (enc_str_cases b) as [(x & -> & _ & E & _)|(_ & E & _)]; rewrite E in Hb; [done|].
    by apply bytes_app in Hb as [_ Hb].
  - apply item_bytes_list. apply bytes_app in Hb as [_ Hb].
    induction IH as [|it l Hit IHl IH']; [constructor|]. cbn [map concat] in Hb.
    apply bytes_app in Hb as [H1 H2]. constructor; auto.
Qed.

Lemma NewStream_inv b : Z.of_nat (length b) < 2 ^ 64 -> inv (NewStream b).
Proof. intros Hb. split; unfold room; simpl; (done || lia). Qed.

Lemma consumed_all s b s' : consumed s b s' -> input s' = [] -> b = input s.
Proof. intros [-> _ _] ->. by rewrite app_nil_r. Qed.

(** A decoder that consumes exactly the encodings [e a] of its results [a]. *)
Lemma DecodeBytes_with_iff {A} (dec : SM A) (e : A -> list Z) b :
  (forall a s', dec (NewStream b) = (inl a, s') -> consumed (NewStream b) (e a) s') ->
  (forall a, b = e a -> exists s', dec (NewStream b) = (inl a, s') /\ input s' = []) ->
  forall a, DecodeBytes_with dec b = inl a <-> b = e a.
Proof.
  intros Hs Hc a. unfold DecodeBytes_with. split.
  - destruct (dec (NewStream b)) as [ [a'|err] s'] eqn:E; [|done].
    destruct (Nat.ltb_spec 0 (length (input s'))); [done|]. intros [= ->].
    symmetry. apply (consumed_all (NewStream b) (e a) s'); [by apply Hs|].
    destruct (input s'); [done|simpl in *; lia].
  - intros Hb. destruct (Hc a Hb) as (s' & -> & ->). done.
Qed.

(** ** Unsigned integers *)

Lemma readUint_string (n : nat) s :
  inv s -> (n <= 8)%nat -> Z.of_nat n <= room s ->
  readUint (Z.of_nat n) s =
    if (n =? 0)%nat then (inl 0, set_kind None s)
    else if (1 <? n)%nat && (default 0 (input s !! 0%nat) =? 0) then (inr (Some ErrCanonSize), read_state s n)
    else (inl (be_get (take n (input s))), read_state s n).
Proof.
  intros Hi Hn Hr. destruct (Nat.eqb_spec n 0) as [->|Hn0]; [done|].
  destruct (Nat.ltb_spec 1 n) as [H1|H1]; simpl andb.
  - destruct (Z.eqb_spec (default 0 (input s !! 0%nat)) 0) as [E|E].
    + unfold readUint. rewrite (proj2 (Z.eqb_neq (Z.of_nat n) 0)), (proj2 (Z.eqb_neq (Z.of_nat n) 1)) by lia.
      pose proof (readFull_spec n s Hi) as Hf. rewrite (proj2 (Z.leb_le _ _)) in Hf by lia.
      rewrite Nat2Z.id. unfold mbind, SM_bind. rewrite Hf, lookup_take_lt, E by lia. done.
    + apply (readUint_spec n s Hi); [lia|done|by right].
  - apply (readUint_spec n s Hi); [lia|done|left; lia].
Qed.

Lemma be_get_min_bytes i : 0 <= i < 2 ^ 64 -> be_get (min_bytes i) = i /\ bytes (min_bytes i).
Proof.
  intros Hi. unfold min_bytes. destruct (Z.eqb_spec i 0) as [->|]; [by split; [|constructor]|].
  destruct (big_Bytes_uint i) as [E _]; [lia|]. rewrite E.
  destruct (putint_spec i Hi) as (_ & E' & _). split; [by apply putint_get|]. rewrite E'. apply be_put_bytes.
Qed.

(** Bytes without a leading zero are the minimal form of their value. *)
Lemma min_bytes_canonical l :
  bytes l -> (length l <= 8)%nat -> (l = [] \/ default 0 (l !! 0%nat) <> 0) ->
  min_bytes (be_get l) = l /\ 0 <= be_get l < 2 ^ 64.
Proof.
  intros Hb Hl H0. destruct l as [|c l]; [done|]. destruct H0 as [|H0]; [done|]. simpl in H0.
  inversion Hb; subst. unfold is_byte in *.
  pose proof (byte_size_of_bytes c l Hb ltac:(lia) Hl) as Hs.
  pose proof (bs_upper _ _ Hs) as Hu. pose proof (be_get_bound (c :: l) Hb).
  assert (be_get (c :: l) < 2 ^ 64) as Hlt.
  { eapply Z.lt_le_trans; [apply Hu|]. change (2 ^ 64) with (256 ^ 8). apply Z.pow_le_mono_r; lia. }
  assert (0 < be_get (c :: l)) as Hpos.
  { rewrite be_get_cons. pose proof (be_get_bound l ltac:(done)).
    assert (0 < 256 ^ Z.of_nat (length l)) by (apply Z.pow_pos_nonneg; lia). nia. }
  split; [|lia]. unfold min_bytes. rewrite (proj2 (Z.eqb_neq _ _)) by lia.
  destruct (big_Bytes_uint (be_get (c :: l))) as [-> _]; [lia|].
  destruct (putint_spec (be_get (c :: l))) as (_ & -> & _); [lia|].
  rewrite (byte_size_intsize _ _ Hs), Nat2Z.id. by apply be_put_get.
Qed.

Lemma min_bytes_head i : 0 < i < 2 ^ 64 -> default 0 (min_bytes i !! 0%nat) <> 0 /\ (length (min_bytes i) <= 8)%nat.
Proof.
  intros Hi. unfold min_bytes. rewrite (proj2 (Z.eqb_neq _ _)) by lia.
  destruct (big_Bytes_uint i) as [-> _]; [lia|].
  destruct (putint_spec i) as (Hb & -> & _); [lia|]. rewrite length_be_put.
  split; [|apply Hb]. destruct (byte_size_head _ _ Hb) as (c & l & -> & Hc); [lia|]. simpl. lia.
Qed.

Lemma uint_at s k sz h s1 :
  inv s -> at_value s k sz h s1 ->
  uint 64 s1 =
    match k with
    | Byte => if byteval s1 =? 0 then (inr (Some ErrCanonInt), s1) else (inl (byteval s1), set_kind None s1)
    | String =>
        if 8 <? sz then (inr (Some errUintOverflow), s1)
        else if sz =? 0 then (inl 0, set_kind None s1)
        else
          let c := take (Z.to_nat sz) (input s1) in
          let s2 := read_state s1 (Z.to_nat sz) in
          if (1 <? sz) && (default 0 (c !! 0%nat) =? 0) then (inr (Some ErrCanonInt), s2)
          else if be_get c <? 128 then (inr (Some ErrCanonSize), s2) else (inl (be_get c), s2)
    | List => (inr (Some ErrExpectedString), s1)
    end.
Proof.
  intros Hi Hv. destruct (at_value_room _ _ _ _ _ Hi Hv) as (Hi1 & Hsz & _).
  unfold uint. unfold mbind at 1, SM_bind at 1. rewrite (Kind_cached _ _ _ _ _ Hv).
  change (64 / 8) with 8. destruct k; [|destruct (Z.ltb_spec 8 sz); [done|]|done].
  - unfold mbind, SM_bind, gets, modify. by destruct (byteval s1 =? 0).
  - unfold catch. pose proof (readUint_string (Z.to_nat sz) s1 Hi1 ltac:(lia) ltac:(lia)) as E.
    rewrite Z2Nat.id in E by lia. rewrite E. destruct (Z.eqb_spec sz 0) as [->|]; [done|].
    rewrite (proj2 (Nat.eqb_neq _ _)) by lia. cbv zeta. rewrite lookup_take_lt by lia.
    replace (1 <? Z.to_nat sz)%nat with (1 <? sz)
      by (apply eq_true_iff_eq; rewrite Z.ltb_lt, Nat.ltb_lt; lia).
    destruct ((1 <? sz) && _); [done|]. rewrite (proj2 (Z.ltb_lt 0 sz)) by lia. simpl.
    by destruct (_ <? 128).
Qed.

Lemma uint_sound s v s2 :
  inv s -> kind s = None -> bytes (input s) -> uint 64 s = (inl v, s2) ->
  consumed s (enc_str (min_bytes v)) s2 /\ 0 <= v < 2 ^ 64.
Proof.
  intros Hi Hk Hb Hu.
  assert (exists k sz h s1, Kind_ s = (inl (k, sz), s1) /\ at_value s k sz h s1 /\ uint 64 s1 = (inl v, s2))
    as (k & sz & h & s1 & E & Hv & Hu1).
  { unfold uint in Hu |- *. unfold mbind at 1, SM_bind at 1 in Hu.
    destruct (Kind_sound s Hi Hk Hb) as [(_ & _ & E)|[(e & s' & E & _)|(k & sz & h & s1 & E & Hv)] ];
      rewrite E in Hu; try done.
    exists k, sz, h, s1. split; [done|]. split; [done|]. unfold mbind at 1, SM_bind at 1.
    by rewrite (Kind_cached _ _ _ _ _ Hv). }
  rewrite (uint_at s k sz h s1 Hi Hv) in Hu1.
  destruct (Bytes_at s k sz h s1 Hv) as [].
  destruct (at_value_room _ _ _ _ _ Hi Hv) as (Hi1 & Hsz & Hr1).
  pose proof Hv as [Hh Hin Hm _ _ _ _]. destruct k; [| |done]; simpl in Hh.
  - destruct Hh as (-> & Hbv & ->). destruct (Z.eqb_spec (byteval s1) 0); [done|]. injection Hu1 as <- <-.
    destruct (min_bytes_canonical [byteval s1]) as [E1 E2];
      [repeat constructor; unfold is_byte; lia|simpl; lia|right; simpl; lia|].
    assert (be_get [byteval s1] = byteval s1) as Eb by (unfold be_get; simpl; lia).
    rewrite Eb in E1, E2. split; [|done]. rewrite E1.
    assert (enc_str [byteval s1] = [byteval s1]) as E'
      by (unfold enc_str; by rewrite (proj2 (Z.leb_le _ 0x7F)) by lia).
    rewrite E'. split; [done|by apply (same_place_moved s _ s1)|done].
  - destruct Hh as [-> Hsz']. destruct (Z.ltb_spec 8 sz); [done|].
    destruct (Z.eqb_spec sz 0) as [->|].
    { injection Hu1 as <- <-. split; [|lia]. split; [done|by apply (same_place_moved s _ s1)|done]. }
    cbv zeta in Hu1. set (c := take (Z.to_nat sz) (input s1)) in *.
    assert (length c = Z.to_nat sz) as Hlc by (unfold c; rewrite length_take; destruct Hi1; lia).
    destruct ((1 <? sz) && _) eqn:Hz; [done|]. destruct (Z.ltb_spec (be_get c) 128); [done|].
    injection Hu1 as <- <-.
    assert (bytes c) as Hbc.
    { unfold c. apply bytes_take. rewrite Hin in Hb. by apply bytes_app in Hb as [_ Hb]. }
    assert (default 0 (c !! 0%nat) <> 0) as Hc0.
    { destruct c as [|x [|y c'] ]; simpl in *; [lia| |].
      - unfold be_get in *. simpl in *. lia.
      - rewrite (proj2 (Z.ltb_lt 1 sz)) in Hz by lia. simpl in Hz. lia. }
    destruct (min_bytes_canonical c Hbc) as [E1 E2]; [lia|by right|]. split; [|done]. rewrite E1.
    rewrite enc_str_long by (intros x Hx; rewrite Hx in *; unfold be_get in *; simpl in *; lia).
    rewrite Hlc, Z2Nat.id by lia. split; [| |done].
    + rewrite Hin at 1. rewrite <-app_assoc. f_equal. symmetry. apply take_drop.
    + rewrite length_app, Hlc. eapply moved_trans; [done|]. apply read_state_moved; [done|lia].
Qed.

Lemma uint_complete s i rest :
  inv s -> kind s = None -> 0 <= i < 2 ^ 64 -> input s = enc_str (min_bytes i) ++ rest ->
  Z.of_nat (length (enc_str (min_bytes i))) <= room s ->
  exists s2, uint 64 s = (inl i, s2) /\ input s2 = rest.
Proof.
  intros Hi Hk Hr Hin Hroom. destruct (be_get_min_bytes i Hr) as [Hg Hb]. pose proof Hi as [_ _ Hsm _ Hro].
  destruct (bytes_str_header (min_bytes i) Hb) as (k & sz & h & bv & c & Hh & Hkl & E & Hc & Hpos & Hbyte & Hstr); [lia|].
  destruct (Kind_complete s k sz h bv (c ++ rest) Hi Hk Hh) as (s1 & EK & Hv & Hin1 & Hbv).
  - by rewrite Hin, E, <-app_assoc.
  - rewrite E, length_app in Hroom. lia.
  - done.
  - assert (uint 64 s = uint 64 s1) as ->.
    { unfold uint, mbind, SM_bind. by rewrite EK, (Kind_cached _ _ _ _ _ Hv). }
    rewrite (uint_at s k sz h s1 Hi Hv). destruct k; [| |done].
    + rewrite Hbv by done. pose proof (Hbyte eq_refl) as Eb. rewrite Eb in Hg. unfold be_get in Hg. simpl in Hg.
      assert (i <> 0) by (intros ->; done). rewrite (proj2 (Z.eqb_neq bv 0)) by lia.
      eexists. split; [f_equal; f_equal; lia|]. simpl. rewrite Hin1. simpl in Hh. destruct c; [done|simpl in Hc; lia].
    + destruct (Hstr eq_refl) as [-> Hl].
      destruct (Z.eq_dec i 0) as [->|Hi0]; [simpl in Hc; subst sz; eexists; split; [done|simpl; by rewrite Hin1]|].
      destruct (min_bytes_head i) as [H0 H8]; [lia|].
      assert (0 < length (min_bytes i))%nat by (destruct (min_bytes i); simpl in *; lia).
      rewrite (proj2 (Z.ltb_ge 8 sz)), (proj2 (Z.eqb_neq sz 0)) by lia. cbv zeta.
      rewrite Hin1, take_app_length' by lia. rewrite (proj2 (Z.eqb_neq _ _) H0), andb_false_r, Hg.
      assert (128 <= i).
      { destruct (min_bytes i) as [|x [|y l] ] eqn:Em; [simpl in *; lia| |].
        - specialize (Hl x eq_refl). unfold be_get in Hg. simpl in Hg. lia.
        - rewrite be_get_cons in Hg. inversion Hb as [|? ? Hx Hb']; subst. pose proof (be_get_bound _ Hb').
          simpl in H0. unfold is_byte in Hx. simpl length.
          assert (256 ^ 1 <= 256 ^ Z.of_nat (S (length l))) by (apply Z.pow_le_mono_r; lia).
          simpl length in *. nia. }
      rewrite (proj2 (Z.ltb_ge i 128)) by lia. eexists. split; [done|]. simpl.
      by rewrite Hin1, drop_app_length' by lia.
Qed.

(** ** Properties *)

(** C19: decoding is the exact inverse of encoding.  For every byte string
    shorter than 2^64, [DecodeBytes] into an untyped value terminates, and it
    returns the item [it] exactly when the input is the canonical encoding of
    [it]: encodings round-trip, and every accepted input is canonical. *)
Theorem DecodeBytes_iff b :
  bytes b -> Z.of_nat (length b) < 2 ^ 64 ->
  DecodeBytes b <> inr None /\ forall it, DecodeBytes b = inl it <-> b = enc it.
Proof.
  intros Hb Hlen. pose proof (NewStream_inv b Hlen) as Hi. split.
  - unfold DecodeBytes, DecodeBytes_with.
    pose proof (decodeInterface_sound (S (length b)) (NewStream b) Hi eq_refl Hb) as Hd.
    destruct (decodeInterface _ _) as [ [it|[e|] ] s']; [by destruct (_ <? _)%nat|done|simpl in Hd; lia].
  - apply DecodeBytes_with_iff.
    + intros it s' E. pose proof (decodeInterface_sound (S (length b)) (NewStream b) Hi eq_refl Hb) as Hd.
      by rewrite E in Hd.
    + intros it Hit. destruct (decodeInterface_complete it (S (length b)) (NewStream b) [])
        as (s' & E & _ & Hin); [done|done|apply enc_bytes_inv; by rewrite <-Hit
        |by rewrite app_nil_r|unfold room; simpl; by rewrite Hit|rewrite Hit; lia|by exists s'].
Qed.

Lemma DecodeBytes_iff_witness :
  DecodeBytes [200; 131; 99; 97; 116; 131; 100; 111; 103]
  = inl (Lst [Str [99; 97; 116]; Str [100; 111; 103] ]).
Proof.
  apply (DecodeBytes_iff [200; 131; 99; 97; 116; 131; 100; 111; 103]);
    [repeat constructor; unfold is_byte; lia|reflexivity|reflexivity].
Defined.

(** Unsigned integers.  [Uint] accepts exactly the inputs that [writeUint]
    produces, and returns the number written: leading zeros, numbers above 64
    bits and needless headers are rejected. *)
Theorem Uint_iff b :
  bytes b -> Z.of_nat (length b) < 2 ^ 64 ->
  forall i, DecodeBytes_with (uint 64) b = inl i <-> 0 <= i < 2 ^ 64 /\ EncodeToBytes (VUint i) = Ok b.
Proof.
  intros Hb Hlen i. pose proof (NewStream_inv b Hlen) as Hi.
  assert (forall j, 0 <= j < 2 ^ 64 -> EncodeToBytes (VUint j) = Ok (enc_str (min_bytes j))) as Henc.
  { intros j Hj. unfold EncodeToBytes. cbn [writer]. rewrite ok_bind.
    destruct (reset_writes _ _ (writeUint_writes reset_buf j Hj)) as (Hp & Hs & Hf).
    by rewrite toBytes_ok, Hf by done. }
  unfold DecodeBytes_with. split.
  - destruct (uint 64 (NewStream b)) as [ [v|e] s'] eqn:E; [|done].
    destruct (Nat.ltb_spec 0 (length (input s'))); [done|]. intros [= ->].
    destruct (uint_sound (NewStream b) i s' Hi eq_refl Hb E) as [Hco Hv]. split; [done|].
    rewrite Henc by done. f_equal. apply (consumed_all (NewStream b) _ s' Hco).
    destruct (input s'); [done|simpl in *; lia].
  - intros [Hv E]. rewrite Henc in E by done. injection E as <-.
    destruct (uint_complete (NewStream (enc_str (min_bytes i))) i []) as (s' & -> & ->);
      [done|done|done|by rewrite app_nil_r|done|done].
Qed.

Lemma Uint_iff_witness : DecodeBytes_with (uint 64) [130; 4; 0] = inl 1024.
Proof.
  apply (Uint_iff [130; 4; 0]); [repeat constructor; unfold is_byte; lia|reflexivity|].
  split; [lia|reflexivity].
Defined.

(** A zero byte is not consumed by a one-byte array.  Decoding a
    [[1]byte] from the value 0x00 succeeds, because the error of [Uint] on a
    zero byte is dropped, but leaves the stream on the same value: decoding
    again yields the same zero without reading any input, so the next field of
    a struct is read from this value instead of its own. *)
Theorem decodeByteArray_stuck s rest :
  inv s -> kind s = None -> input s = 0 :: rest -> 1 <= room s ->
  exists s', decodeByteArray 1 s = (inl [0], s') /\ decodeByteArray 1 s' = (inl [0], s') /\
    input s' = rest.
Proof.
  intros Hi Hk Hin Hr.
  destruct (Kind_complete s Byte 0 [0] 0 rest Hi Hk) as (s1 & E & Hv & Hin1 & Hbv);
    [simpl; split; [done|lia]|done|simpl; lia|simpl; lia|].
  assert (decodeByteArray 1 s1 = (inl [0], s1)) as E1.
  { unfold decodeByteArray. unfold mbind at 1, SM_bind at 1. rewrite (Kind_cached _ _ _ _ _ Hv). simpl.
    unfold catch. rewrite (uint_at s _ _ _ _ Hi Hv), Hbv by done. done. }
  exists s1. split; [|done]. rewrite <-E1. unfold decodeByteArray. unfold mbind, SM_bind.
  by rewrite E, (Kind_cached _ _ _ _ _ Hv).
Qed.

Lemma decodeByteArray_stuck_witness :
  exists s', decodeByteArray 1 (NewStream [0; 5]) = (inl [0], s') /\
    decodeByteArray 1 s' = (inl [0], s') /\ input s' = [5].
Proof.
  apply (decodeByteArray_stuck (NewStream [0; 5]) [5]);
    [apply NewStream_inv; reflexivity|reflexivity|reflexivity|vm_compute; discriminate].
Defined.
