(* ===== verification/TrieEncoding.v ===== *)
(** * Trie key encodings

    [src/trie/encoding.go]: key bytes, hex keys (one nibble per element, with
    16 as optional terminator) and the compact form stored on disk. *)
From S2P Require Import Prelude.

Definition hasTerm (s : list Z) : bool :=
  match last s with Some x => x =? 16 | None => false end.

(** [decodeNibbles], whose target always has half the length of its input; an
    odd number of nibbles runs past the end. *)
Fixpoint decodeNibbles (nibbles : list Z) : option (list Z) :=
  match nibbles with
  | [] => Some []
  | [_] => None
  | a :: b :: l => r ← decodeNibbles l; Some (Z.lor (u8 (Z.shiftl a 4)) b :: r)
  end.

Definition keybytesToHex (s : list Z) : list Z :=
  concat (map (fun b => [b / 16; b mod 16]) s) ++ [16].

Definition chop_term (hex : list Z) : list Z :=
  if hasTerm hex then take (length hex - 1) hex else hex.

Definition hexToKeybytes (hex : list Z) : option (list Z) :=
  let hex := chop_term hex in
  if negb (Z.land (Z.of_nat (length hex)) 1 =? 0) then None else decodeNibbles hex.

Definition hexToCompact (hex : list Z) : option (list Z) :=
  let terminator := if hasTerm hex then 1 else 0 in
  let hex := chop_term hex in
  let flag := Z.shiftl terminator 5 in
  if Z.land (Z.of_nat (length hex)) 1 =? 1 then
    match hex with
    | [] => None
    | x :: hex => r ← decodeNibbles hex; Some (Z.lor (Z.lor flag (Z.shiftl 1 4)) x :: r)
    end
  else r ← decodeNibbles hex; Some (flag :: r).

(** [base[0]] of an empty compact key is out of range. *)
Definition compactToHex (compact : list Z) : option (list Z) :=
  let base := keybytesToHex compact in
  let base := take (length base - 1) base in
  x ← base !! 0%nat;
  let base := if 2 <=? x then base ++ [16] else base in
  let chop := Z.to_nat (2 - Z.land x 1) in
  slice base chop (length base).

Fixpoint prefixLen (a b : list Z) : nat :=
  match a, b with
  | x :: a', y :: b' => if x =? y then S (prefixLen a' b') else 0
  | _, _ => 0
  end.

(** ** Hex keys *)

Definition is_nibble (x : Z) : Prop := 0 <= x < 16.
Definition nibbles (l : list Z) : Prop := Forall is_nibble l.

#[export] Instance is_nibble_dec x : Decision (is_nibble x).
Proof. unfold is_nibble. apply _. Defined.

(** A complete key: nibbles and the terminator. *)
Definition full_key (k : list Z) : Prop := exists l, k = l ++ [16] /\ nibbles l.

Lemma nibbles_app a b : nibbles (a ++ b) <-> nibbles a /\ nibbles b.
Proof. apply Forall_app. Qed.

Lemma nibbles_no_term l : nibbles l -> hasTerm l = false.
Proof.
  intros Hl. unfold hasTerm. destruct (last l) as [x|] eqn:E; [|done].
  apply last_Some in E as [l' ->]. apply nibbles_app in Hl as [_ Hx].
  inversion Hx; subst. unfold is_nibble in *. lia.
Qed.

Lemma hasTerm_snoc l x : hasTerm (l ++ [x]) = (x =? 16).
Proof. unfold hasTerm. by rewrite last_snoc. Qed.

Lemma chop_term_full l : chop_term (l ++ [16]) = l.
Proof.
  unfold chop_term. rewrite hasTerm_snoc. simpl. rewrite length_app. simpl.
  replace (length l + 1 - 1)%nat with (length l) by lia. apply take_app_length.
Qed.

Lemma chop_term_nibbles l : nibbles l -> chop_term l = l.
Proof. intros Hl. unfold chop_term. by rewrite nibbles_no_term. Qed.

Lemma prefixLen_le a b : (prefixLen a b <= length a)%nat /\ (prefixLen a b <= length b)%nat.
Proof.
  revert b. induction a as [|x a IH]; intros [|y b]; simpl; try lia.
  destruct (x =? y); [specialize (IH b); lia|lia].
Qed.

(** The common prefix is common, and the keys differ after it. *)
Lemma prefixLen_take a b : take (prefixLen a b) a = take (prefixLen a b) b.
Proof.
  revert b. induction a as [|x a IH]; intros [|y b]; simpl; try done.
  destruct (Z.eqb_spec x y) as [->|]; simpl; [by rewrite IH|done].
Qed.

Lemma prefixLen_differ a b x y :
  a !! prefixLen a b = Some x -> b !! prefixLen a b = Some y -> x <> y.
Proof.
  revert b. induction a as [|c a IH]; intros [|d b]; simpl; try done.
  destruct (Z.eqb_spec c d) as [->|Hne]; simpl; [apply IH|naive_solver].
Qed.

Lemma prefixLen_app k l : prefixLen (k ++ l) k = length k.
Proof. induction k as [|x k IH]; simpl; [by destruct l|]. by rewrite Z.eqb_refl, IH. Qed.

Lemma prefixLen_full a b : prefixLen a b = length b -> take (length b) a = b.
Proof. intros E. rewrite <-E, prefixLen_take, E. by apply take_ge. Qed.

(** ** Packing nibbles *)

Definition to_nibbles (s : list Z) : list Z := concat (map (fun b => [b / 16; b mod 16]) s).

Lemma keybytesToHex_eq s : keybytesToHex s = to_nibbles s ++ [16].
Proof. reflexivity. Qed.

Lemma to_nibbles_nibbles s : bytes s -> nibbles (to_nibbles s).
Proof.
  induction 1 as [|b s Hb Hs IH]; [constructor|]. unfold to_nibbles. simpl. unfold is_byte in Hb.
  repeat constructor; [lia..|done].
Qed.

Lemma length_to_nibbles s : length (to_nibbles s) = (2 * length s)%nat.
Proof. unfold to_nibbles. induction s; simpl; lia. Qed.

Lemma pack_nibbles a b :
  is_nibble a -> is_nibble b -> Z.lor (u8 (Z.shiftl a 4)) b = 16 * a + b.
Proof.
  unfold is_nibble. intros Ha Hb. rewrite Z.shiftl_mul_pow2 by lia. unfold u8.
  rewrite Z.mod_small by lia. rewrite <-Z.add_nocarry_lor; [lia|].
  apply Z.bits_inj'. intros i Hi. rewrite Z.land_spec, Z.bits_0, <-Z.shiftl_mul_pow2 by lia.
  destruct (Z.lt_ge_cases i 4); [by rewrite Z.shiftl_spec_low|].
  rewrite andb_comm. destruct (Z.eq_dec b 0) as [->|]; [by rewrite Z.bits_0|].
  rewrite Z.bits_above_log2; [done|lia|]. apply Z.log2_lt_pow2; [lia|].
  apply Z.lt_le_trans with (2 ^ 4); [lia|]. apply Z.pow_le_mono_r; lia.
Qed.

Lemma decodeNibbles_to_nibbles s : bytes s -> decodeNibbles (to_nibbles s) = Some s.
Proof.
  induction 1 as [|b s Hb Hs IH]; [done|]. unfold to_nibbles. simpl.
  fold (to_nibbles s). rewrite IH. simpl. unfold is_byte in Hb.
  rewrite pack_nibbles by (unfold is_nibble; lia). do 2 f_equal. lia.
Qed.

Lemma list_pair_ind (P : list Z -> Prop) :
  P [] -> (forall a, P [a]) -> (forall a b l, P l -> P (a :: b :: l)) -> forall l, P l.
Proof.
  intros H0 H1 H2. fix IH 1. intros [|a [|b l] ]; [done|apply H1|apply H2, IH].
Qed.

Lemma decodeNibbles_even l :
  nibbles l -> Nat.even (length l) = true ->
  exists s, decodeNibbles l = Some s /\ bytes s /\ to_nibbles s = l.
Proof.
  induction l as [|a|a b l IH] using list_pair_ind; intros Hl He.
  - exists []. split; [done|]. split; [constructor|done].
  - done.
  - inversion Hl as [|? ? Ha Hl']; subst. inversion Hl' as [|? ? Hb Hl'']; subst.
    destruct (IH Hl'' He) as (s & E & Hs & Ht). simpl. rewrite E. simpl. eexists. split; [done|].
    rewrite pack_nibbles by done. unfold is_nibble in *. split.
    + constructor; [unfold is_byte; lia|done].
    + unfold to_nibbles in *. simpl. rewrite Ht. repeat f_equal; lia.
Qed.

Lemma land_1_even n : (Z.land (Z.of_nat n) 1 =? 1) = negb (Nat.even n).
Proof.
  change 1 with (Z.ones 1) at 1. rewrite Z.land_ones by lia. change (2 ^ 1) with 2.
  rewrite <-Nat.negb_odd, negb_involutive. apply eq_true_iff_eq. rewrite Z.eqb_eq, Nat.odd_spec.
  split; [intros E; exists (n / 2)%nat; lia|intros [m ->]; lia].
Qed.

Lemma land_1_odd n : negb (Z.land (Z.of_nat n) 1 =? 0) = negb (Nat.even n).
Proof.
  rewrite <-land_1_even. change 1 with (Z.ones 1). rewrite Z.land_ones by lia. change (2 ^ 1) with 2.
  pose proof (Z.mod_pos_bound (Z.of_nat n) 2). change (Z.ones 1) with 1.
  destruct (Z.eqb_spec (Z.of_nat n mod 2) 0), (Z.eqb_spec (Z.of_nat n mod 2) 1); simpl; (done || lia).
Qed.

(** ** The compact form *)

(** The first byte of a compact key. *)
Lemma compact_flag (t : bool) x :
  is_nibble x ->
  Z.lor (Z.lor (Z.shiftl (if t then 1 else 0) 5) (Z.shiftl 1 4)) x = (if t then 48 else 16) + x.
Proof.
  intros Hx. unfold is_nibble in Hx.
  replace x with (Z.of_nat (Z.to_nat x)) by lia.
  assert (Z.to_nat x < 16)%nat as Hn by lia. revert Hn. generalize (Z.to_nat x). intros n Hn.
  do 16 (destruct n as [|n]; [by destruct t|]). lia.
Qed.

Lemma flag_byte (t : bool) : is_byte (Z.shiftl (if t then 1 else 0) 5).
Proof. destruct t; by vm_compute. Qed.

Lemma compactToHex_cons c r :
  is_byte c -> bytes r ->
  compactToHex (c :: r) =
    let base := (c / 16) :: (c mod 16) :: to_nibbles r ++ (if 2 <=? c / 16 then [16] else []) in
    Some (drop (Z.to_nat (2 - Z.land (c / 16) 1)) base).
Proof.
  intros Hc Hr. unfold compactToHex. rewrite keybytesToHex_eq. cbv zeta.
  replace (take _ _) with (to_nibbles (c :: r)).
  2:{ rewrite length_app. simpl length at 2.
      replace (length (to_nibbles (c :: r)) + 1 - 1)%nat with (length (to_nibbles (c :: r))) by lia.
      by rewrite take_app_length. }
  change (to_nibbles (c :: r)) with ((c / 16) :: (c mod 16) :: to_nibbles r).
  simpl lookup. rewrite some_bind.
  assert (0 <= Z.land (c / 16) 1 <= 1) as Hl.
  { rewrite (Z.land_ones _ 1) by lia. change (2 ^ 1) with 2. pose proof (Z.mod_pos_bound (c / 16) 2). lia. }
  set (b := if 2 <=? c / 16 then _ else _).
  assert (b = (c / 16) :: (c mod 16) :: to_nibbles r ++ (if 2 <=? c / 16 then [16] else [])) as ->
    by (unfold b; destruct (_ <=? _); rewrite ?app_nil_r; done).
  generalize dependent (Z.land (c / 16) 1). intros x Hx.
  rewrite slice_Some by (cbn [length]; lia).
  f_equal. apply take_ge. rewrite length_drop. done.
Qed.

(** Every key with or without terminator survives the trip to disk. *)
Lemma compact_roundtrip l (t : bool) :
  nibbles l ->
  exists c, hexToCompact (l ++ (if t then [16] else [])) = Some c /\ bytes c /\ c <> [] /\
    compactToHex c = Some (l ++ (if t then [16] else [])).
Proof.
  intros Hl. unfold hexToCompact. cbv zeta.
  assert (hasTerm (l ++ (if t then [16] else [])) = t) as ->.
  { destruct t; [by rewrite hasTerm_snoc|]. rewrite app_nil_r. by apply nibbles_no_term. }
  assert (chop_term (l ++ (if t then [16] else [])) = l) as ->.
  { destruct t; [apply chop_term_full|]. rewrite app_nil_r. by apply chop_term_nibbles. }
  rewrite land_1_even. destruct (Nat.even (length l)) eqn:He; cbn [negb].
  - destruct (decodeNibbles_even l Hl He) as (s & -> & Hs & Ht). rewrite some_bind.
    eexists. split; [done|]. split; [constructor; [apply flag_byte|done]|]. split; [done|].
    rewrite compactToHex_cons by (done || apply flag_byte).
    rewrite Ht. by destruct t.
  - destruct l as [|x l]; [done|]. inversion Hl as [|? ? Hx Hl']; subst.
    assert (Nat.even (length l) = true) as He'.
    { simpl length in He. rewrite Nat.even_succ, <-Nat.negb_even in He. by destruct (Nat.even (length l)). }
    destruct (decodeNibbles_even l Hl' He') as (s & -> & Hs & Ht). rewrite some_bind.
    rewrite compact_flag by done. eexists. split; [done|]. unfold is_nibble in Hx.
    assert (is_byte ((if t then 48 else 16) + x)) as Hb by (destruct t; unfold is_byte; lia).
    split; [by constructor|]. split; [done|]. rewrite compactToHex_cons by done.
    assert (((if t then 48 else 16) + x) / 16 = if t then 3 else 1) as -> by (destruct t; lia).
    assert (((if t then 48 else 16) + x) mod 16 = x) as -> by (destruct t; lia).
    rewrite Ht. by destruct t.
Qed.

Lemma keybytesToHex_full s : bytes s -> full_key (keybytesToHex s).
Proof. intros Hs. exists (to_nibbles s). split; [done|]. by apply to_nibbles_nibbles. Qed.

Lemma keybytesToHex_inj s1 s2 : bytes s1 -> bytes s2 -> keybytesToHex s1 = keybytesToHex s2 -> s1 = s2.
Proof.
  intros H1 H2 E. rewrite !keybytesToHex_eq in E. apply app_inj_tail in E as [E _].
  apply (f_equal decodeNibbles) in E. rewrite !decodeNibbles_to_nibbles in E by done. congruence.
Qed.

(** ** Properties *)

(** The three key encodings are interchangeable.  Key bytes survive the
    trip through the hex form, and every hex key, with or without terminator,
    survives the trip through the compact form, which always has at least one
    byte; no step panics. *)
Theorem key_encodings_roundtrip s l (t : bool) :
  bytes s -> nibbles l ->
  hexToKeybytes (keybytesToHex s) = Some s /\
  exists c, hexToCompact (l ++ (if t then [16] else [])) = Some c /\ bytes c /\ c <> [] /\
    compactToHex c = Some (l ++ (if t then [16] else [])).
Proof.
  intros Hs Hl. split; [|by apply compact_roundtrip].
  unfold hexToKeybytes. rewrite keybytesToHex_eq, chop_term_full. cbv zeta.
  rewrite land_1_odd, length_to_nibbles.
  replace (Nat.even (2 * length s)) with true by (symmetry; apply Nat.even_spec; eexists; done).
  by apply decodeNibbles_to_nibbles.
Qed.

Lemma key_encodings_roundtrip_witness :
  hexToKeybytes (keybytesToHex [0x12; 0xAB]) = Some [0x12; 0xAB] /\
  exists c, hexToCompact ([1; 2; 3] ++ [16]) = Some c /\ bytes c /\ c <> [] /\
    compactToHex c = Some ([1; 2; 3] ++ [16]).
Proof.
  apply (key_encodings_roundtrip [0x12; 0xAB] [1; 2; 3] true);
    repeat constructor; unfold is_byte, is_nibble; lia.
Defined.
