(* ===== verification/Trie.v ===== *)
(** * The Merkle Patricia trie

    [src/trie/node.go] (node types and decoding) and [src/trie/trie.go]
    (lookup, insertion, deletion).  [nil] is a node constructor; the database
    is a partial function from hashes to encodings.  Recursion is bounded by
    fuel, because a database could in principle contain a cycle of hashes;
    fuel that is too small shows as the error [OutOfFuel]. *)
From S2P Require Import Prelude Rlp TrieEncoding.
#[local] Arguments Nat.mul : simpl never.

(** ** Nodes *)

Record nodeFlag := mkFlag { fhash : option (list Z); gen : Z; dirty : bool }.

Inductive node :=
  | Nil
  | Full (children : list node) (flags : nodeFlag)
  | Short (key : list Z) (val : node) (flags : nodeFlag)
  | HashN (h : list Z)
  | ValueN (v : list Z).

#[export] Instance node_nil_dec (n : node) : Decision (n = Nil).
Proof. refine (match n with Nil => left eq_refl | _ => right _ end); discriminate. Defined.

(** ** Decoding *)

Inductive node_error :=
  | errEmptyBuffer | errRlp (e : rlp_error) | errElements (n : Z) | errOversized | errRefSize
  | errDecodeFuel.

(** RLP errors inside node decoding. *)
Definition from_rlp {A} (m : outcome rlp_error A) : outcome node_error A :=
  match m with Ok a => Ok a | Err e => Err (errRlp e) | Panic => Panic end.

Definition hashLen : nat := 32.

Section Decode.
Context (cachegen : Z).
Context (decodeNode : option (list Z) -> list Z -> outcome node_error node).

Definition decodeRef (buf : list Z) : outcome node_error (node * list Z) :=
  '(kind, val, rest) ← from_rlp (Split buf);
  match kind with
  | List =>
      if (hashLen <? length buf - length rest)%nat then Err errOversized
      else n ← decodeNode None buf; Ok (n, rest)
  | String =>
      if (length val =? 0)%nat then Ok (Nil, rest)
      else if (length val =? 32)%nat then Ok (HashN val, rest)
      else Err errRefSize
  | Byte => Err errRefSize
  end.

Definition decodeShort (hash : option (list Z)) (elems : list Z) : outcome node_error node :=
  '(kbuf, rest) ← from_rlp (SplitString elems);
  let flag := mkFlag hash cachegen false in
  key ← or_panic (compactToHex kbuf);
  if hasTerm key then
    '(val, _) ← from_rlp (SplitString rest);
    Ok (Short key (ValueN val) flag)
  else
    '(r, _) ← decodeRef rest;
    Ok (Short key r flag).

Fixpoint decode_children (n : nat) (elems : list Z) : outcome node_error (list node * list Z) :=
  match n with
  | O => Ok ([], elems)
  | S n' =>
      '(cld, rest) ← decodeRef elems;
      '(cs, rest) ← decode_children n' rest;
      Ok (cld :: cs, rest)
  end.

Definition decodeFull (hash : option (list Z)) (elems : list Z) : outcome node_error node :=
  '(cs, elems) ← decode_children 16 elems;
  '(val, _) ← from_rlp (SplitString elems);
  Ok (Full (cs ++ [if (length val =? 0)%nat then Nil else ValueN val]) (mkFlag hash cachegen false)).

End Decode.

(** [decodeNode]; embedded nodes are shorter than the node around them. *)
Fixpoint decodeNode (fuel : nat) (cachegen : Z) (hash : option (list Z)) (buf : list Z)
    : outcome node_error node :=
  match fuel with
  | O => Err errDecodeFuel
  | S fuel' =>
      if (length buf =? 0)%nat then Err errEmptyBuffer
      else
        '(elems, _) ← from_rlp (SplitList buf);
        match CountValues elems with
        | Panic => Panic
        | r =>
            let c := match r with Ok c => c | _ => 0 end in
            if c =? 2 then decodeShort cachegen (decodeNode fuel' cachegen) hash elems
            else if c =? 17 then decodeFull cachegen (decodeNode fuel' cachegen) hash elems
            else Err (errElements c)
        end
  end.

(** ** Operations *)

Inductive trie_error :=
  | MissingNodeError (hash path : list Z)
  | OutOfFuel.

Section Ops.
Context (db : list Z -> option (list Z)) (cachegen : Z).

Definition newFlag : nodeFlag := mkFlag None cachegen true.

(** [resolveHash]; [mustDecodeNode] panics on an undecodable node. *)
Definition resolveHash (h prefix : list Z) : outcome trie_error node :=
  match db h with
  | None => Err (MissingNodeError h prefix)
  | Some enc =>
      match decodeNode (S (length enc)) cachegen (Some h) enc with
      | Ok n => Ok n
      | _ => Panic
      end
  end.

Definition set_gen (f : nodeFlag) : nodeFlag := mkFlag (fhash f) cachegen (dirty f).

(** The value, the replacement node and whether anything was resolved. *)
Fixpoint tryGet (fuel : nat) (orig : node) (key : list Z) (pos : nat)
    : outcome trie_error (option (list Z) * node * bool) :=
  match fuel with
  | O => Err OutOfFuel
  | S fuel' =>
      match orig with
      | Nil => Ok (None, Nil, false)
      | ValueN v => Ok (Some v, orig, false)
      | Short k val f =>
          if (length key - pos <? length k)%nat
             || negb (bool_decide (k = take (length k) (drop pos key)))
          then Ok (None, orig, false)
          else
            '(value, newnode, didResolve) ← tryGet fuel' val key (pos + length k);
            Ok (value, if didResolve : bool then Short k newnode (set_gen f) else orig, didResolve)
      | Full cs f =>
          x ← or_panic (key !! pos);
          c ← or_panic (cs !! Z.to_nat x);
          '(value, newnode, didResolve) ← tryGet fuel' c key (pos + 1);
          Ok (value,
              if didResolve : bool then Full (<[Z.to_nat x := newnode]> cs) (set_gen f) else orig,
              didResolve)
      | HashN h =>
          child ← resolveHash h (take pos key);
          '(value, newnode, _) ← tryGet fuel' child key pos;
          Ok (value, newnode, true)
      end
  end.

Fixpoint insert (fuel : nat) (n : node) (prefix key : list Z) (value : node)
    : outcome trie_error (bool * node) :=
  match fuel with
  | O => Err OutOfFuel
  | S fuel' =>
      match key with
      | [] =>
          match n with
          | ValueN v =>
              match value with
              | ValueN v' => Ok (negb (bool_decide (v = v')), value)
              | _ => Panic
              end
          | _ => Ok (true, value)
          end
      | k0 :: krest =>
          match n with
          | Short k val f =>
              let matchlen := prefixLen key k in
              if (matchlen =? length k)%nat then
                '(d, nn) ← insert fuel' val (prefix ++ take matchlen key) (drop matchlen key) value;
                if d : bool then Ok (true, Short k nn newFlag) else Ok (false, n)
              else
                x ← or_panic (k !! matchlen);
                y ← or_panic (key !! matchlen);
                '(_, c1) ← insert fuel' Nil (prefix ++ take (S matchlen) k) (drop (S matchlen) k) val;
                '(_, c2) ← insert fuel' Nil (prefix ++ take (S matchlen) key) (drop (S matchlen) key) value;
                let branch := Full (<[Z.to_nat y := c2]> (<[Z.to_nat x := c1]> (replicate 17 Nil))) newFlag in
                if (matchlen =? 0)%nat then Ok (true, branch)
                else Ok (true, Short (take matchlen key) branch newFlag)
          | Full cs f =>
              c ← or_panic (cs !! Z.to_nat k0);
              '(d, nn) ← insert fuel' c (prefix ++ [k0]) krest value;
              if d : bool then Ok (true, Full (<[Z.to_nat k0 := nn]> cs) newFlag) else Ok (false, n)
          | Nil => Ok (true, Short key value newFlag)
          | HashN h =>
              rn ← resolveHash h prefix;
              '(d, nn) ← insert fuel' rn prefix key value;
              if d : bool then Ok (true, nn) else Ok (false, rn)
          | ValueN _ => Panic
          end
      end
  end.

(** The loop over the children: the only non-nil one, if there is only one. *)
Fixpoint only_child (i : nat) (cs : list node) (pos : Z) : Z :=
  match cs with
  | [] => pos
  | Nil :: cs' => only_child (S i) cs' pos
  | _ :: cs' => if pos =? -1 then only_child (S i) cs' (Z.of_nat i) else -2
  end.

Definition resolve (n : node) (prefix : list Z) : outcome trie_error node :=
  match n with HashN h => resolveHash h prefix | _ => Ok n end.

Fixpoint delete (fuel : nat) (n : node) (prefix key : list Z) : outcome trie_error (bool * node) :=
  match fuel with
  | O => Err OutOfFuel
  | S fuel' =>
      match n with
      | Short k val f =>
          let matchlen := prefixLen key k in
          if (matchlen <? length k)%nat then Ok (false, n)
          else if (matchlen =? length key)%nat then Ok (true, Nil)
          else
            '(d, child) ← delete fuel' val (prefix ++ take (length k) key) (drop (length k) key);
            if d : bool then
              match child with
              | Short k' val' _ => Ok (true, Short (k ++ k') val' newFlag)
              | _ => Ok (true, Short k child newFlag)
              end
            else Ok (false, n)
      | Full cs f =>
          match key with
          | [] => Panic
          | k0 :: krest =>
              c ← or_panic (cs !! Z.to_nat k0);
              '(d, nn) ← delete fuel' c (prefix ++ [k0]) krest;
              if d : bool then
                let cs := <[Z.to_nat k0 := nn]> cs in
                let pos := only_child 0 cs (-1) in
                if 0 <=? pos then
                  c ← or_panic (cs !! Z.to_nat pos);
                  cnode ← (if negb (pos =? 16) then resolve c prefix else Ok Nil);
                  match cnode with
                  | Short k' val' _ => Ok (true, Short (pos :: k') val' newFlag)
                  | _ => Ok (true, Short [pos] c newFlag)
                  end
                else Ok (true, Full cs newFlag)
              else Ok (false, n)
          end
      | ValueN _ => Ok (true, Nil)
      | Nil => Ok (false, Nil)
      | HashN h =>
          rn ← resolveHash h prefix;
          '(d, nn) ← delete fuel' rn prefix key;
          if d : bool then Ok (true, nn) else Ok (false, rn)
      end
  end.

End Ops.

(** ** Contents *)

(** ** Keys *)

(** Keys at a position: [true] is the position after the terminator. *)
Definition key_ok (b : bool) (key : list Z) : Prop := if b then key = [] else full_key key.

Lemma full_key_cons x k :
  full_key (x :: k) <-> (x = 16 /\ k = []) \/ (is_nibble x /\ full_key k).
Proof.
  split.
  - intros (l & E & Hl). destruct l as [|y l]; simpl in E; injection E as -> ->; [by left|right].
    inversion Hl; subst. split; [done|by exists l].
  - intros [[-> ->]|[Hx (l & -> & Hl)] ]; [exists []; split; [done|constructor]|].
    exists (x :: l). split; [done|by constructor].
Qed.

Lemma full_key_app k l : nibbles k -> full_key (k ++ l) <-> full_key l.
Proof.
  induction 1 as [|x k Hx Hk IH]; [done|]. simpl. rewrite full_key_cons, IH. unfold is_nibble in Hx.
  split; [|by right]. intros [[-> _]|[_ ?] ]; [lia|done].
Qed.

Lemma full_key_not_nil : ~ full_key [].
Proof. intros (l & E & _). by destruct l. Qed.

Lemma full_key_range x k : full_key (x :: k) -> 0 <= x <= 16.
Proof. rewrite full_key_cons. unfold is_nibble. lia. Qed.

(** The position below child [x]. *)
Lemma full_key_child x k : full_key (x :: k) <-> 0 <= x <= 16 /\ key_ok (Z.to_nat x =? 16)%nat k.
Proof.
  rewrite full_key_cons. unfold key_ok, is_nibble. destruct (Nat.eqb_spec (Z.to_nat x) 16).
  - split; [intros [[-> ->]|]; [done|lia]|]. intros [? ->]. left. split; [lia|done].
  - split; [intros [[-> ->]|[? ?] ]; [lia|split; [lia|done] ]|]. intros [? ?]. right. split; [lia|done].
Qed.

Lemma full_key_no_extend k l : full_key k -> full_key (k ++ l) -> l = [].
Proof.
  intros (m & -> & Hm). rewrite <-app_assoc, full_key_app by done. simpl. rewrite full_key_cons.
  intros [[_ ->]|[Hx _] ]; [done|]. unfold is_nibble in Hx. lia.
Qed.

(** Where two keys that are not prefixes of each other part. *)
Lemma keys_part key k :
  full_key key -> (full_key k \/ nibbles k) -> prefixLen key k <> length k ->
  exists p x kr y yr, k = p ++ x :: kr /\ key = p ++ y :: yr /\ x <> y /\ nibbles p /\
    prefixLen key k = length p.
Proof.
  intros Hkey. revert k. induction key as [|y key IH]; intros k Hk Hne; [by apply full_key_not_nil in Hkey|].
  destruct k as [|x k]; [done|]. simpl in *. destruct (Z.eqb_spec y x) as [->|Hxy].
  - apply full_key_cons in Hkey as [[-> ->]|[Hx Hkey] ].
    + exfalso. destruct Hk as [Hk|Hk].
      * apply full_key_cons in Hk as [[_ ->]|[Hx _] ]; [simpl in Hne; lia|unfold is_nibble in Hx; lia].
      * inversion Hk; subst. unfold is_nibble in *. lia.
    + destruct (IH Hkey k) as (p & x' & kr & y' & yr & -> & -> & Hne' & Hp & E).
      * destruct Hk as [Hk|Hk]; [|right; by inversion Hk].
        apply full_key_cons in Hk as [[-> _]|[_ ?] ]; [unfold is_nibble in Hx; lia|by left].
      * lia.
      * exists (x :: p), x', kr, y', yr. repeat split; [done|by constructor|]. simpl. lia.
  - exists [], x, k, y, key. repeat split; [done|constructor].
Qed.

(** A key that has the key of a short node as prefix. *)
Lemma short_match (k key : list Z) :
  (length key <? length k)%nat || negb (bool_decide (k = take (length k) key)) = false <->
  exists key', key = k ++ key'.
Proof.
  rewrite orb_false_iff, negb_false_iff, bool_decide_eq_true, Nat.ltb_ge. split.
  - intros [Hl E]. exists (drop (length k) key). rewrite E at 1. by rewrite take_drop.
  - intros [key' ->]. rewrite length_app, take_app_length. split; [lia|done].
Qed.

Section Contents.
Context (db : list Z -> option (list Z)) (cachegen : Z).

(** The node a hash stands for. *)
Definition stored (h : list Z) (n : node) : Prop := resolveHash db cachegen h [] = Ok n.

Lemma stored_resolve h n prefix : stored h n -> resolveHash db cachegen h prefix = Ok n.
Proof.
  unfold stored, resolveHash. destruct (db h); [|done]. by destruct (decodeNode _ _ _ _).
Qed.

(** [has n key v]: below [n], [key] leads to the value [v]. *)
Inductive has : node -> list Z -> list Z -> Prop :=
  | has_value v : has (ValueN v) [] v
  | has_short k val f key v : has val key v -> has (Short k val f) (k ++ key) v
  | has_full cs f x c key v :
      0 <= x -> cs !! Z.to_nat x = Some c -> has c key v -> has (Full cs f) (x :: key) v
  | has_hash h n key v : stored h n -> has n key v -> has (HashN h) key v.

Lemma has_nil k v : ~ has Nil k v.
Proof. inversion 1. Qed.

Lemma has_value_iff v0 k v : has (ValueN v0) k v <-> k = [] /\ v = v0.
Proof. split; [by inversion 1|]. intros [-> ->]. constructor. Qed.

Lemma has_short_iff k n f key v :
  has (Short k n f) key v <-> exists key', key = k ++ key' /\ has n key' v.
Proof. split; [inversion 1; subst; eauto|]. intros (key' & -> & Hh). by constructor. Qed.

Lemma has_full_iff cs f key v :
  has (Full cs f) key v <->
  exists x key' c, key = x :: key' /\ 0 <= x /\ cs !! Z.to_nat x = Some c /\ has c key' v.
Proof. split; [inversion 1; subst; eauto 10|]. intros (x & key' & c & -> & ? & ? & ?). by econstructor. Qed.

Lemma has_hash_iff h n key v : stored h n -> has (HashN h) key v <-> has n key v.
Proof.
  intros Hs. split; [|by econstructor]. inversion 1 as [| | |? n' ? ? Hs' ?]; subst.
  unfold stored in *. rewrite Hs in Hs'. by simplify_eq.
Qed.

(** ** Well-formed subtries

    [wf true] is the position after the terminator, where only a value can
    be.  Short nodes end in a value or lead to a branch, a branch has at least
    two children, and hashes stand for short or full nodes. *)
Definition is_hash (n : node) : bool := match n with HashN _ => true | _ => false end.

Definition branch (n : node) : Prop :=
  match n with
  | Full _ _ => True
  | HashN h => exists cs f, stored h (Full cs f)
  | _ => False
  end.

Definition two_children (cs : list node) : Prop :=
  exists (i j : nat) c d, i <> j /\ cs !! i = Some c /\ c <> Nil /\ cs !! j = Some d /\ d <> Nil.

Inductive wf : bool -> node -> Prop :=
  | wf_value v : v <> [] -> wf true (ValueN v)
  | wf_leaf k v f : full_key k -> v <> [] -> wf false (Short k (ValueN v) f)
  | wf_ext k n f : k <> [] -> nibbles k -> branch n -> wf false n -> wf false (Short k n f)
  | wf_full cs f :
      length cs = 17%nat -> two_children cs ->
      (forall i c, cs !! i = Some c -> c <> Nil -> wf (i =? 16)%nat c) ->
      wf false (Full cs f)
  | wf_hash h n : stored h n -> is_hash n = false -> wf false n -> wf false (HashN h).

Definition wf0 (b : bool) (n : node) : Prop := n = Nil \/ wf b n.

Lemma wf_not_nil b n : wf b n -> n <> Nil.
Proof. by inversion 1. Qed.

(** ** What the contents of a well-formed subtrie look like *)

Lemma has_key_ok b n key v : wf b n -> has n key v -> key_ok b key /\ v <> [].
Proof.
  intros Hwf. revert key v. induction Hwf as [v0 Hv|k v0 f Hk Hv|k n f Hne Hk Hb Hw IH|cs f Hl H2 Hc IH|h n Hs Hh Hw IH];
    intros key v Hh'.
  - apply has_value_iff in Hh' as [-> ->]. done.
  - apply has_short_iff in Hh' as (key' & -> & Hh'). apply has_value_iff in Hh' as [-> ->].
    by rewrite app_nil_r.
  - apply has_short_iff in Hh' as (key' & -> & Hh'). apply IH in Hh' as [Hk' Hv]. simpl in *.
    by rewrite full_key_app.
  - apply has_full_iff in Hh' as (x & key' & c & -> & Hx & Hcx & Hh').
    assert (c <> Nil) as Hcn by (intros ->; by apply has_nil in Hh').
    apply (IH _ _ Hcx Hcn) in Hh' as [Hk' Hv]. split; [|done]. simpl. apply full_key_child.
    apply lookup_lt_Some in Hcx. split; [lia|done].
  - apply (has_hash_iff h n) in Hh'; [|done]. by apply IH.
Qed.

Lemma wf_nonempty b n : wf b n -> exists key v, has n key v.
Proof.
  induction 1 as [v0 Hv|k v0 f Hk Hv|k n f Hne Hk Hb Hw IH|cs f Hl H2 Hc IH|h n Hs Hh Hw IH].
  - exists [], v0. constructor.
  - exists (k ++ []), v0. constructor. constructor.
  - destruct IH as (key & v & Hh). exists (k ++ key), v. by constructor.
  - destruct H2 as (i & j & c & d & _ & Hi & Hcn & _). destruct (IH i c Hi Hcn) as (key & v & Hh).
    exists (Z.of_nat i :: key), v. apply (has_full _ _ _ c); [lia|by rewrite Nat2Z.id|done].
  - destruct IH as (key & v & Hh'). exists key, v. by econstructor.
Qed.

(** At most one value per key. *)
Lemma has_unique n key v v' : has n key v -> has n key v' -> v = v'.
Proof.
  intros Hh. revert v'. induction Hh as [v|k val f key v Hh IH|cs f x c key v Hx Hc Hh IH|h n key v Hs Hh IH];
    intros v' Hh'.
  - by apply has_value_iff in Hh' as [_ ->].
  - apply has_short_iff in Hh' as (key' & E & Hh'). apply app_inv_head in E. subst. by apply IH.
  - apply has_full_iff in Hh' as (x' & key' & c' & E & _ & Hc' & Hh'). injection E as <- <-.
    rewrite Hc in Hc'. simplify_eq. by apply IH.
  - apply (has_hash_iff h n) in Hh'; [|done]. by apply IH.
Qed.

(** Fuel for a key below a node; resolving a hash takes one extra step. *)
Definition need (n : node) (key : list Z) : nat := (2 * length key + (if is_hash n then 1 else 0))%nat.

(** [n'] is [n] with hashes resolved. *)
Definition same (b : bool) (n n' : node) : Prop :=
  (wf b n -> wf b n') /\ (branch n -> branch n') /\ (forall k v, has n' k v <-> has n k v).

Lemma same_refl b n : same b n n.
Proof. done. Qed.

Lemma same_hash h n : stored h n -> is_hash n = false -> same false (HashN h) n.
Proof.
  intros Hs Hn. split; [|split].
  - inversion 1 as [| | | |? n' Hs' _ Hw]; subst. unfold stored in *. rewrite Hs in Hs'. by simplify_eq.
  - simpl. intros (cs & f & Hs'). unfold stored in *. rewrite Hs in Hs'. by simplify_eq.
  - intros k v. symmetry. by apply has_hash_iff.
Qed.

(** Replacing a child by an equivalent one. *)
Lemma two_children_insert cs i (c c' : node) :
  two_children cs -> cs !! i = Some c -> c' <> Nil -> two_children (<[i := c']> cs).
Proof.
  intros (a & b & x & y & Hab & Ha & Hx & Hb & Hy) Hi Hc'.
  assert (i < length cs)%nat as Hlt by (by apply lookup_lt_Some in Hi).
  assert (forall j z, cs !! j = Some z -> z <> Nil -> exists z', <[i := c']> cs !! j = Some z' /\ z' <> Nil) as Hj.
  { intros j z Hz Hzn. destruct (decide (i = j)) as [<-|].
    - exists c'. by rewrite list_lookup_insert_eq.
    - exists z. by rewrite list_lookup_insert_ne. }
  destruct (Hj a x Ha Hx) as (x' & Hx' & ?), (Hj b y Hb Hy) as (y' & Hy' & ?).
  by exists a, b, x', y'.
Qed.

Lemma wf_full_insert cs f f' i c' :
  wf false (Full cs f) -> (i < 17)%nat -> wf (i =? 16)%nat c' -> two_children (<[i := c']> cs) ->
  wf false (Full (<[i := c']> cs) f').
Proof.
  inversion 1 as [| | |? ? Hl H2 Hc|]; subst. intros Hi Hw H2'.
  constructor; [by rewrite length_insert|done|]. intros j d Hj Hd.
  destruct (decide (i = j)) as [<-|].
  - rewrite list_lookup_insert_eq in Hj by lia. by simplify_eq.
  - rewrite list_lookup_insert_ne in Hj by done. by apply Hc.
Qed.

Lemma has_full_insert cs f f' (i : nat) c c' key v :
  cs !! i = Some c ->
  has (Full (<[i := c']> cs) f') key v <->
  (exists key', key = Z.of_nat i :: key' /\ has c' key' v) \/
  ((forall key', key <> Z.of_nat i :: key') /\ has (Full cs f) key v).
Proof.
  intros Hi. assert (i < length cs)%nat by (by apply lookup_lt_Some in Hi). rewrite !has_full_iff. split.
  - intros (x & key' & d & -> & Hx & Hd & Hh). destruct (decide (Z.to_nat x = i)) as [E|Hne].
    + left. rewrite E, list_lookup_insert_eq in Hd by done. simplify_eq. exists key'. split; [f_equal; lia|done].
    + right. rewrite list_lookup_insert_ne in Hd by done. split; [intros k' [= -> _]; lia|]. by exists x, key', d.
  - intros [(key' & -> & Hh)|[Hne (x & key' & d & -> & Hx & Hd & Hh)] ].
    + exists (Z.of_nat i), key', c'. rewrite Nat2Z.id, list_lookup_insert_eq by done. repeat split; (done || lia).
    + exists x, key', d. rewrite list_lookup_insert_ne; [done|]. intros ->. apply (Hne key'). f_equal. lia.
Qed.

Lemma same_short k n n' f f' : same false n n' -> k <> [] -> nibbles k ->
  wf false (Short k n f) -> (forall v, n <> ValueN v) -> same false (Short k n f) (Short k n' f').
Proof.
  intros (Hw & Hb & Hh) Hne Hk Hwf Hnv. split; [|split; [done|]].
  - intros _. inversion Hwf as [|? ? ? ? ?|? ? ? ? ? ? ?| |]; subst; [by destruct (Hnv v)|].
    constructor; auto.
  - intros key v. rewrite !has_short_iff. by setoid_rewrite Hh.
Qed.

Lemma same_full cs f f' i c c' :
  cs !! i = Some c -> c <> Nil -> same (i =? 16)%nat c c' -> wf false (Full cs f) ->
  same false (Full cs f) (Full (<[i := c']> cs) f').
Proof.
  intros Hi Hcn (Hw & Hb & Hh) Hwf. pose proof Hwf as Hwf'. inversion Hwf as [| | |? ? Hl H2 Hc|]; subst.
  assert (i < 17)%nat by (rewrite <-Hl; by apply lookup_lt_Some in Hi).
  assert (wf (i =? 16)%nat c') as Hwc by (by apply Hw, Hc).
  split; [|split; [done|]].
  - intros _. eapply wf_full_insert; [done|done|done|].
    eapply two_children_insert; [done|done|by eapply wf_not_nil].
  - intros key v. rewrite (has_full_insert cs f f' i c c') by done. setoid_rewrite Hh. split.
    + intros [(key' & -> & Hk)|[_ Hk] ]; [|done]. apply (has_full _ _ _ c); [lia|by rewrite Nat2Z.id|done].
    + intros Hk. apply has_full_iff in Hk as (x & key' & d & -> & Hx & Hd & Hk).
      destruct (decide (Z.to_nat x = i)) as [E|Hne].
      * left. exists key'. rewrite E, Hi in Hd. simplify_eq. split; [f_equal; lia|done].
      * right. split; [intros k' [= -> _]; lia|]. by apply (has_full _ _ _ d).
Qed.

(** ** Lookup *)

Lemma tryGet_spec fuel b n pre key :
  wf0 b n -> key_ok b key -> (need n key < fuel)%nat ->
  exists r n' did, tryGet db cachegen fuel n (pre ++ key) (length pre) = Ok (r, n', did) /\
    (forall v, r = Some v <-> has n key v) /\ same b n n' /\ (did = true -> n <> Nil /\ b = false).
Proof.
  revert b n pre key. induction fuel as [|fuel IH]; intros b n pre key Hwf Hkey Hf; [lia|].
  destruct Hwf as [->|Hwf].
  { eexists _, _, _. split; [reflexivity|]. split; [|by split; [apply same_refl|]].
    intros v. split; [done|]. intros Hh. by apply has_nil in Hh. }
  cbn [tryGet]. destruct n as [|cs f|k val f|h|v0]; [by inversion Hwf| | | |].
  - assert (b = false) as -> by (by inversion Hwf). simpl in Hkey. pose proof Hwf as Hw.
    inversion Hwf as [| | |? ? Hl H2 Hc|]; subst.
    destruct key as [|x key]; [by apply full_key_not_nil in Hkey|].
    rewrite list_lookup_middle, or_panic_bind by done.
    apply full_key_child in Hkey as [Hx Hkey].
    destruct (lookup_lt_is_Some_2 cs (Z.to_nat x)) as [c Hcx]; [lia|]. rewrite Hcx, or_panic_bind.
    replace (pre ++ x :: key) with ((pre ++ [x]) ++ key) by (by rewrite <-app_assoc).
    replace (length pre + 1)%nat with (length (pre ++ [x])) by (by rewrite length_app).
    destruct (IH (Z.to_nat x =? 16)%nat c (pre ++ [x]) key) as (r & n' & did & -> & Hr & Hs & Hd).
    + destruct (decide (c = Nil)); [by left|right; by apply Hc].
    + done.
    + unfold need in *. simpl in *. destruct (is_hash c); lia.
    + rewrite ok_bind. eexists _, _, _. split; [done|]. split; [|split; [|by intros _]].
      * intros v. rewrite Hr, has_full_iff. split.
        -- intros Hh. exists x, key, c. repeat split; (done || lia).
        -- intros (x' & key' & c' & E & _ & Hc' & Hh). injection E as <- <-. rewrite Hcx in Hc'. by simplify_eq.
      * destruct did; [|apply same_refl]. eapply same_full; [done|by apply Hd|done|done].
  - assert (b = false) as -> by (by inversion Hwf). simpl in Hkey.
    rewrite drop_app_length, length_app, Nat.add_comm, Nat.add_sub.
    destruct (_ || _) eqn:Hm.
    { eexists _, _, _. split; [reflexivity|]. split; [|by split; [apply same_refl|]].
      intros v. split; [done|]. intros (key' & -> & _)%has_short_iff.
      assert (exists key'', k ++ key' = k ++ key'') as Hp by eauto. apply short_match in Hp. congruence. }
    apply short_match in Hm as [key' ->].
    assert (exists b', wf b' val /\ key_ok b' key' /\ k <> [] /\ (b' = false -> nibbles k /\ (forall v, val <> ValueN v)))
      as (b' & Hwv & Hk' & Hkn & Hext).
    { inversion Hwf as [|? v ? Hfk Hv|? ? ? Hne Hn Hb Hw| |]; subst.
      - exists true. split; [by constructor|]. split; [by eapply full_key_no_extend|]. split; [|done].
        intros ->. by apply full_key_not_nil in Hfk.
      - exists false. split; [done|]. split; [by apply full_key_app in Hkey|]. split; [done|].
        intros _. split; [done|]. intros v ->. done. }
    rewrite app_assoc. rewrite <-length_app.
    destruct (IH b' val (pre ++ k) key') as (r & n' & did & -> & Hr & Hs & Hd).
    + by right.
    + done.
    + unfold need in *. rewrite length_app in Hf. destruct k; [done|]. simpl in *. destruct (is_hash val); lia.
    + rewrite ok_bind. eexists _, _, _. split; [done|]. split; [|split; [|by intros _]].
      * intros v. rewrite Hr, has_short_iff. split; [intros Hh; by exists key'|].
        intros (key'' & E & Hh). apply app_inv_head in E. by subst.
      * destruct did; [|apply same_refl]. destruct b'.
        -- by destruct (Hd eq_refl).
        -- destruct (Hext eq_refl). by apply same_short.
  - inversion Hwf as [| | | |? n Hs Hn Hw]; subst. rewrite (stored_resolve _ _ _ Hs), ok_bind.
    destruct (IH false n pre key) as (r & n' & did & -> & Hr & Hsm & Hd); [by right|done| |].
    { unfold need in *. rewrite Hn. simpl in Hf. lia. }
    rewrite ok_bind. eexists _, _, _. split; [done|]. split; [|split; [|by intros _]].
    + intros v. rewrite Hr. symmetry. by apply has_hash_iff.
    + destruct (same_hash h n Hs Hn) as (H1 & H2 & H3), Hsm as (H4 & H5 & H6).
      split; [|split]; [auto|auto|]. intros k v. by rewrite H6.
  - assert (b = true) as -> by (by inversion Hwf). simpl in Hkey. subst key.
    eexists _, _, _. split; [reflexivity|]. split; [|by split; [apply same_refl|]].
    intros v. rewrite has_value_iff. split; [by intros [= ->]|by intros [_ ->]].
Qed.

(** ** Insertion *)

(** The contents after [key] was set to [v]. *)
Definition updated (n n' : node) (key v : list Z) : Prop :=
  forall k' v', has n' k' v' <-> (k' = key /\ v' = v) \/ (k' <> key /\ has n k' v').

(** What [insert] makes of the rest of a key: the value or a leaf. *)
Definition tail_node (key : list Z) (n : node) : node :=
  match key with [] => n | _ => Short key n (newFlag cachegen) end.

Lemma insert_nil fuel prefix key n :
  (0 < fuel)%nat -> insert db cachegen fuel Nil prefix key n = Ok (true, tail_node key n).
Proof. destruct fuel; [lia|]. by destruct key. Qed.

Lemma tail_has key n k v : has (tail_node key n) k v <-> exists k', k = key ++ k' /\ has n k' v.
Proof.
  unfold tail_node. destruct key as [|x key]; [|apply has_short_iff]. simpl. naive_solver.
Qed.

Lemma tail_leaf x key v :
  full_key (x :: key) -> v <> [] -> wf (Z.to_nat x =? 16)%nat (tail_node key (ValueN v)).
Proof.
  rewrite full_key_child. intros [Hx Hk] Hv. unfold key_ok in Hk. destruct (Z.to_nat x =? 16)%nat.
  - subst. by constructor.
  - destruct key; [by apply full_key_not_nil in Hk|]. by constructor.
Qed.

Lemma tail_ext x key n :
  nibbles (x :: key) -> branch n -> wf false n -> wf (Z.to_nat x =? 16)%nat (tail_node key n).
Proof.
  intros Hk Hb Hw. inversion Hk as [|? ? Hx Hk']; subst. unfold is_nibble in Hx.
  rewrite (proj2 (Nat.eqb_neq _ _)) by lia. destruct key; [done|]. by constructor.
Qed.

(** A new branch with two children. *)
Definition fork (x y : Z) (c1 c2 : node) : node :=
  Full (<[Z.to_nat y := c2]> (<[Z.to_nat x := c1]> (replicate 17 Nil))) (newFlag cachegen).

Lemma fork_lookup x y c1 c2 (i : nat) c :
  0 <= x <= 16 -> 0 <= y <= 16 -> x <> y ->
  <[Z.to_nat y := c2]> (<[Z.to_nat x := c1]> (replicate 17 Nil)) !! i = Some c ->
  (i = Z.to_nat y /\ c = c2) \/ (i = Z.to_nat x /\ c = c1) \/ c = Nil.
Proof.
  intros Hx Hy Hne Hi. destruct (decide (i = Z.to_nat y)) as [->|Hiy].
  - rewrite list_lookup_insert_eq in Hi by (rewrite length_insert, length_replicate; lia). left. naive_solver.
  - rewrite list_lookup_insert_ne in Hi by done. destruct (decide (i = Z.to_nat x)) as [->|Hix].
    + rewrite list_lookup_insert_eq in Hi by (rewrite length_replicate; lia). naive_solver.
    + rewrite list_lookup_insert_ne in Hi by done. apply lookup_replicate in Hi as [-> _]. by do 2 right.
Qed.

Lemma fork_lookup_x x y c1 c2 :
  0 <= x <= 16 -> 0 <= y <= 16 -> x <> y ->
  <[Z.to_nat y := c2]> (<[Z.to_nat x := c1]> (replicate 17 Nil)) !! Z.to_nat x = Some c1 /\
  <[Z.to_nat y := c2]> (<[Z.to_nat x := c1]> (replicate 17 Nil)) !! Z.to_nat y = Some c2.
Proof.
  intros. rewrite list_lookup_insert_ne by lia.
  rewrite !list_lookup_insert_eq by (rewrite ?length_insert, length_replicate; lia). done.
Qed.

Lemma fork_wf x y c1 c2 :
  0 <= x <= 16 -> 0 <= y <= 16 -> x <> y ->
  wf (Z.to_nat x =? 16)%nat c1 -> wf (Z.to_nat y =? 16)%nat c2 -> wf false (fork x y c1 c2).
Proof.
  intros Hx Hy Hne H1 H2. destruct (fork_lookup_x x y c1 c2 Hx Hy Hne) as [Ex Ey]. constructor.
  - by rewrite !length_insert, length_replicate.
  - exists (Z.to_nat x), (Z.to_nat y), c1, c2. split; [lia|]. eauto 10 using wf_not_nil.
  - intros i c Hi Hc. destruct (fork_lookup x y c1 c2 i c Hx Hy Hne Hi) as [[-> ->]|[[-> ->]| ->] ]; done.
Qed.

Lemma fork_has x y c1 c2 k v :
  0 <= x <= 16 -> 0 <= y <= 16 -> x <> y ->
  has (fork x y c1 c2) k v <->
  (exists k', k = x :: k' /\ has c1 k' v) \/ (exists k', k = y :: k' /\ has c2 k' v).
Proof.
  intros Hx Hy Hne. destruct (fork_lookup_x x y c1 c2 Hx Hy Hne) as [Ex Ey].
  unfold fork. rewrite has_full_iff. split.
  - intros (z & k' & c & -> & Hz & Hc & Hh).
    destruct (fork_lookup x y c1 c2 _ _ Hx Hy Hne Hc) as [[E ->]|[[E ->]| ->] ].
    + right. exists k'. split; [f_equal; lia|done].
    + left. exists k'. split; [f_equal; lia|done].
    + by apply has_nil in Hh.
  - intros [(k' & -> & Hh)|(k' & -> & Hh)]; eexists _, k', _; (split; [done|]); (split; [|split; [|done] ]);
      (done || lia).
Qed.

(** Splitting a short node where the keys part. *)
Lemma split_short p x kr y yr n v f :
  wf false (Short (p ++ x :: kr) n f) -> full_key (p ++ y :: yr) -> x <> y -> nibbles p -> v <> [] ->
  let b := fork x y (tail_node kr n) (tail_node yr (ValueN v)) in
  let n' := match p with [] => b | _ => Short p b (newFlag cachegen) end in
  wf false n' /\ updated (Short (p ++ x :: kr) n f) n' (p ++ y :: yr) v.
Proof.
  intros Hwf Hkey Hne Hp Hv b n'. apply full_key_app in Hkey as Hy; [|done].
  pose proof (full_key_range _ _ Hy) as Hyr.
  assert (0 <= x <= 16 /\ wf (Z.to_nat x =? 16)%nat (tail_node kr n)) as [Hx Hc1].
  { inversion Hwf as [|? v0 ? Hk Hv0|? ? ? Hk0 Hk Hb Hw| |]; subst.
    - apply full_key_app in Hk; [|done]. split; [by eapply full_key_range|by apply tail_leaf].
    - apply nibbles_app in Hk as [_ Hk]. split; [|by apply tail_ext].
      inversion Hk; subst. unfold is_nibble in *. lia. }
  assert (wf (Z.to_nat y =? 16)%nat (tail_node yr (ValueN v))) as Hc2 by (by apply tail_leaf).
  assert (wf false b) as Hb by (by apply fork_wf).
  split.
  - subst n'. destruct p; [done|]. by constructor.
  - assert (forall k' v', has n' k' v' <-> exists k'', k' = p ++ k'' /\ has b k'' v') as Hn'.
    { intros k' v'. subst n'. destruct p as [|z p]; [simpl; naive_solver|]. apply has_short_iff. }
    intros k' v'. rewrite Hn', has_short_iff. unfold b.
    setoid_rewrite fork_has; [|done..]. setoid_rewrite tail_has. setoid_rewrite has_value_iff. split.
    + intros (k'' & -> & [(k3 & -> & k4 & -> & Hh)|(k3 & -> & k4 & -> & -> & ->)]).
      * right. split; [intros E; apply app_inv_head in E; congruence|]. exists k4. by rewrite <-app_assoc.
      * left. by rewrite app_nil_r.
    + intros [[-> ->]|[Hk' (k4 & -> & Hh)] ].
      * exists (y :: yr). split; [done|]. right. exists yr. split; [done|]. exists []. by rewrite app_nil_r.
      * exists (x :: kr ++ k4). split; [by rewrite <-app_assoc|]. left. eauto.
Qed.

(** Updating below a prefix, and in one child. *)
Lemma updated_short k n n' f f' key v :
  updated n n' key v -> updated (Short k n f) (Short k n' f') (k ++ key) v.
Proof.
  unfold updated at 1. intros Hu k' v'. rewrite !has_short_iff. setoid_rewrite Hu. split.
  - intros (k2 & -> & [[-> ->]|[Hne Hh] ]); [by left|right]. split; [intros E; by apply app_inv_head in E|eauto].
  - intros [[-> ->]|[Hne (k2 & -> & Hh)] ]; [eauto|]. exists k2. split; [done|]. right. split; [congruence|done].
Qed.

Lemma updated_full cs f f' x c c' key v :
  0 <= x -> cs !! Z.to_nat x = Some c -> updated c c' key v ->
  updated (Full cs f) (Full (<[Z.to_nat x := c']> cs) f') (x :: key) v.
Proof.
  unfold updated at 1. intros Hx Hc Hu k' v'. rewrite (has_full_insert cs f f' _ c c') by done. rewrite Z2Nat.id by done.
  setoid_rewrite Hu. split.
  - intros [(k2 & -> & [[-> ->]|[Hne Hh] ])|[Hne Hh] ].
    + by left.
    + right. split; [congruence|]. by apply (has_full _ _ _ c).
    + right. split; [intros ->; by apply (Hne key)|done].
  - intros [[-> ->]|[Hne Hh] ]; [left; eauto|].
    apply has_full_iff in Hh as (z & k2 & d & -> & Hz & Hd & Hh).
    destruct (decide (z = x)) as [->|Hzx].
    + left. exists k2. split; [done|]. right. rewrite Hc in Hd. simplify_eq. split; [congruence|done].
    + right. split; [intros k3 [= -> _]; done|]. by apply (has_full _ _ _ d).
Qed.

Lemma updated_same n n1 n' key v :
  (forall k v, has n1 k v <-> has n k v) -> updated n1 n' key v -> updated n n' key v.
Proof. intros Hs Hu k' v'. by rewrite (Hu k' v'), Hs. Qed.

(** No change: the value was already there. *)
Lemma updated_unchanged n n' key v :
  updated n n' key v -> (forall k v, has n' k v <-> has n k v) -> updated n n key v.
Proof. intros Hu Hs k' v'. by rewrite <-(Hu k' v'), Hs. Qed.

(** [Nil] gains its first value. *)
Lemma updated_nil key v : updated Nil (Short key (ValueN v) (newFlag cachegen)) key v.
Proof.
  intros k' v'. rewrite has_short_iff. setoid_rewrite has_value_iff. split.
  - intros (k2 & -> & -> & ->). left. by rewrite app_nil_r.
  - intros [[-> ->]|[_ Hh] ]; [exists []; by rewrite app_nil_r|by apply has_nil in Hh].
Qed.

Definition inserted (b : bool) (n : node) (key v : list Z) (r : outcome trie_error (bool * node)) : Prop :=
  exists d n', r = Ok (d, n') /\ wf b n' /\ updated n n' key v /\ (branch n -> branch n') /\
    (d = false -> forall k v, has n' k v <-> has n k v).

(** The calls [insert] makes below a node are right. *)
Definition inserts_below (fuel : nat) (v : list Z) : Prop :=
  forall b n prefix key, wf0 b n -> key_ok b key -> (need n key < fuel)%nat ->
    inserted b n key v (insert db cachegen fuel n prefix key (ValueN v)).

Lemma insert_value_case fuel n prefix v :
  wf0 true n -> v <> [] -> inserted true n [] v (insert db cachegen (S fuel) n prefix [] (ValueN v)).
Proof.
  intros Hwf Hv. cbn [insert]. assert (wf true (ValueN v)) by (by constructor). destruct Hwf as [->|Hwf].
  - eexists _, _. split; [reflexivity|]. split; [done|]. split; [|done].
    intros k' v'. rewrite has_value_iff. split; [by left|]. intros [?|[_ Hh] ]; [done|by apply has_nil in Hh].
  - inversion Hwf as [v0| | | |]; subst. eexists _, _. split; [reflexivity|]. split; [done|]. split; [|split; [done|]].
    + intros k' v'. rewrite !has_value_iff. naive_solver.
    + intros Hd k' v'. rewrite !has_value_iff. apply negb_false_iff, bool_decide_eq_true in Hd. by subst.
Qed.

Lemma has_full_same_child cs f f' x c c' :
  0 <= x -> cs !! Z.to_nat x = Some c -> (forall k v, has c' k v <-> has c k v) ->
  forall k v, has (Full (<[Z.to_nat x := c']> cs) f') k v <-> has (Full cs f) k v.
Proof.
  intros Hx Hcx Hd k' v'. rewrite (has_full_insert cs f f' _ c c') by done. rewrite Z2Nat.id by lia.
  setoid_rewrite Hd. split.
  - intros [(k2 & -> & Hh)|[_ Hh] ]; [|done]. apply (has_full _ _ _ c); [lia|done|done].
  - intros Hh. apply has_full_iff in Hh as (z & k2 & e & -> & Hz & He & Hh).
    destruct (decide (z = x)) as [->|]; [left; rewrite Hcx in He; simplify_eq; eauto|right].
    split; [intros k3 [= -> _]; done|]. by apply (has_full _ _ _ e).
Qed.

Lemma two_children_set cs x c c' :
  two_children cs -> cs !! x = Some c -> c' <> Nil -> two_children (<[x := c']> cs).
Proof.
  intros H2 Hcx Hc'. destruct (decide (c = Nil)) as [->|Hcn]; [|by eapply two_children_insert].
  destruct H2 as (i & j & a & a' & Hij & Hi & Ha & Hj & Ha').
  exists x, i, c', a. rewrite list_lookup_insert_eq by (by eapply lookup_lt_Some).
  assert (x <> i) by (intros <-; by simplify_eq).
  rewrite list_lookup_insert_ne by done. eauto 10.
Qed.

Lemma insert_full_case fuel cs f prefix k0 krest v :
  inserts_below fuel v -> wf false (Full cs f) -> full_key (k0 :: krest) ->
  (need (Full cs f) (k0 :: krest) < S fuel)%nat ->
  inserted false (Full cs f) (k0 :: krest) v
    (insert db cachegen (S fuel) (Full cs f) prefix (k0 :: krest) (ValueN v)).
Proof.
  intros IH Hw Hkey Hf. cbn [insert]. inversion Hw as [| | |? ? Hl H2 Hc|]; subst.
  apply full_key_child in Hkey as [Hx Hkey].
  destruct (lookup_lt_is_Some_2 cs (Z.to_nat k0)) as [c Hcx]; [lia|]. rewrite Hcx, or_panic_bind.
  destruct (IH (Z.to_nat k0 =? 16)%nat c (prefix ++ [k0]) krest) as (d & n' & -> & Hw' & Hu & _ & Hd);
    [destruct (decide (c = Nil)); [by left|right; by apply Hc]|done
    |unfold need in *; simpl in *; destruct (is_hash c); lia|].
  rewrite ok_bind. pose proof (updated_full cs f (newFlag cachegen) k0 c n' krest v ltac:(lia) Hcx Hu) as Huf.
  destruct d; eexists _, _; (split; [reflexivity|]).
  - split; [|by split]. eapply wf_full_insert; [done|lia|done|].
    eapply two_children_set; [done|done|by eapply wf_not_nil].
  - split; [done|]. split; [|by split]. apply (updated_unchanged _ _ _ _ Huf).
    apply (has_full_same_child cs f _ k0 c); [lia|done|by apply Hd].
Qed.

(** The child of a short node can be replaced by one of the same sort. *)
Lemma short_child k val f key' :
  wf false (Short k val f) -> full_key (k ++ key') ->
  exists b', wf b' val /\ key_ok b' key' /\ k <> [] /\
    forall n' f', wf b' n' -> (branch val -> branch n') -> wf false (Short k n' f').
Proof.
  intros Hwf Hkey. inversion Hwf as [|? w ? Hfk Hw|? ? ? Hne Hn Hb Hw| |]; subst.
  - exists true. split; [by constructor|]. split; [by eapply full_key_no_extend|].
    split; [intros ->; by apply full_key_not_nil in Hfk|]. intros n' f' Hn' _. inversion Hn'; subst. by constructor.
  - exists false. split; [done|]. split; [by apply full_key_app in Hkey|]. split; [done|].
    intros n' f' Hn' Hbr. constructor; auto.
Qed.

Lemma insert_short_case fuel k val f prefix key key' v :
  inserts_below fuel v -> wf false (Short k val f) -> full_key key -> key = k ++ key' ->
  (need (Short k val f) key < S fuel)%nat ->
  inserted false (Short k val f) key v (
    '(d, nn) ← insert db cachegen fuel val (prefix ++ take (length k) key) key' (ValueN v);
    if d : bool then Ok (true, Short k nn (newFlag cachegen)) else Ok (false, Short k val f)).
Proof.
  intros IH Hwf Hkey Ek Hf. rewrite Ek in Hkey.
  destruct (short_child k val f key' Hwf Hkey) as (b' & Hwv & Hk' & Hkn & Hre).
  destruct (IH b' val (prefix ++ take (length k) key) key') as (d & n' & -> & Hw' & Hu & Hbr & Hd);
    [by right|done|unfold need in *; rewrite Ek, length_app in Hf; destruct k; [done|simpl in *; destruct (is_hash val); lia]|].
  rewrite ok_bind. pose proof (updated_short k val n' f (newFlag cachegen) key' v Hu) as Hus. rewrite <-Ek in Hus.
  destruct d; eexists _, _; (split; [reflexivity|]).
  - split; [|by split]. by apply Hre.
  - split; [done|]. split; [|by split]. apply (updated_unchanged _ _ _ _ Hus). intros k2 v2.
    rewrite !has_short_iff. by setoid_rewrite (Hd eq_refl).
Qed.

Lemma insert_spec fuel b n prefix key v :
  wf0 b n -> key_ok b key -> v <> [] -> (need n key < fuel)%nat ->
  inserted b n key v (insert db cachegen fuel n prefix key (ValueN v)).
Proof.
  intros Hwf Hkey Hv. revert b n prefix key Hwf Hkey.
  induction fuel as [|fuel IH]; intros b n prefix key Hwf Hkey Hf; [lia|].
  destruct b; simpl in Hkey; [subst key; by apply insert_value_case|].
  destruct key as [|k0 krest]; [by apply full_key_not_nil in Hkey|].
  destruct Hwf as [->|Hwf].
  { eexists _, _. split; [reflexivity|]. split; [by constructor|]. split; [apply updated_nil|done]. }
  destruct n as [|cs f|k val f|h|v0]; [by inversion Hwf| | | |by inversion Hwf]; [by apply insert_full_case| |].
  - cbn [insert]. destruct (Nat.eqb_spec (prefixLen (k0 :: krest) k) (length k)) as [E|E].
    + apply prefixLen_full in E as Et. rewrite E. apply insert_short_case; [done|done|done| |done].
      transitivity (take (length k) (k0 :: krest) ++ drop (length k) (k0 :: krest)); [by rewrite take_drop|by rewrite Et].
    + destruct (keys_part (k0 :: krest) k Hkey) as (p & x & kr & y & yr & -> & Ek & Hne & Hp & El);
      [inversion Hwf; subst; auto|done|].
    rewrite El, Ek. rewrite !list_lookup_middle, !or_panic_bind by done.
    rewrite !insert_nil by (unfold need in Hf; simpl in Hf; lia). rewrite !ok_bind.
    replace (drop (S (length p)) (p ++ x :: kr)) with kr by (by rewrite cons_middle, app_assoc, drop_app_length' by (rewrite length_app; simpl; lia)).
    replace (drop (S (length p)) (p ++ y :: yr)) with yr by (by rewrite cons_middle, app_assoc, drop_app_length' by (rewrite length_app; simpl; lia)).
    rewrite take_app_length. rewrite Ek in Hkey.
    destruct (split_short p x kr y yr val v f Hwf Hkey Hne Hp Hv) as [Hw' Hu'].
    destruct p as [|z p]; simpl (_ =? _)%nat; cbn iota; eexists _, _; (split; [reflexivity|]);
      (split; [exact Hw'|]); (split; [exact Hu'|done]).
  - cbn [insert]. inversion Hwf as [| | | |? n Hs Hn Hw]; subst. rewrite (stored_resolve _ _ _ Hs), ok_bind.
    destruct (IH false n prefix (k0 :: krest)) as (d & n' & -> & Hw' & Hu & Hbr & Hd);
      [by right|done|unfold need in *; rewrite Hn; simpl in Hf |- *; lia|].
    rewrite ok_bind. destruct (same_hash h n Hs Hn) as (_ & Hbh & Hhs).
    assert (updated (HashN h) n' (k0 :: krest) v) as Hu' by (eapply updated_same; [|done]; done).
    destruct d; eexists _, _; (split; [reflexivity|]).
    * split; [done|]. split; [done|]. split; [auto|done].
    * split; [done|]. split; [|split; [auto|done]].
      eapply updated_same; [exact Hhs|]. apply (updated_unchanged _ n'); auto.
Qed.

(** ** Deletion *)

Definition removed (n n' : node) (key : list Z) : Prop :=
  forall k' v', has n' k' v' <-> k' <> key /\ has n k' v'.

Lemma removed_short k n n' f f' key :
  removed n n' key -> removed (Short k n f) (Short k n' f') (k ++ key).
Proof.
  unfold removed at 1. intros Hr k' v'. rewrite !has_short_iff. setoid_rewrite Hr. split.
  - intros (k2 & -> & Hne & Hh). split; [intros E; by apply app_inv_head in E|eauto].
  - intros [Hne (k2 & -> & Hh)]. exists k2. split; [done|]. split; [congruence|done].
Qed.

Lemma removed_full cs f f' x c c' key :
  0 <= x -> cs !! Z.to_nat x = Some c -> removed c c' key ->
  removed (Full cs f) (Full (<[Z.to_nat x := c']> cs) f') (x :: key).
Proof.
  unfold removed at 1. intros Hx Hc Hr k' v'.
  rewrite (has_full_insert cs f f' _ c c') by done. rewrite Z2Nat.id by done. setoid_rewrite Hr. split.
  - intros [(k2 & -> & Hne & Hh)|[Hne Hh] ].
    + split; [congruence|]. by apply (has_full _ _ _ c).
    + split; [intros ->; by apply (Hne key)|done].
  - intros [Hne Hh]. apply has_full_iff in Hh as (z & k2 & d & -> & Hz & Hd & Hh).
    destruct (decide (z = x)) as [->|Hzx].
    + left. exists k2. split; [done|]. rewrite Hc in Hd. simplify_eq. split; [congruence|done].
    + right. split; [intros k3 [= -> _]; done|]. by apply (has_full _ _ _ d).
Qed.

Lemma removed_same n n1 n' key :
  (forall k v, has n1 k v <-> has n k v) -> removed n1 n' key -> removed n n' key.
Proof. intros Hs Hr k' v'. by rewrite (Hr k' v'), Hs. Qed.

Lemma removed_to n n' n2 key :
  removed n n' key -> (forall k v, has n2 k v <-> has n' k v) -> removed n n2 key.
Proof. intros Hr Hs k' v'. by rewrite Hs, (Hr k' v'). Qed.

(** What the loop over the children finds. *)
Lemma only_child_two i cs p : p <> -1 -> Forall (eq Nil) cs -> only_child i cs p = p.
Proof. intros Hp Hc. revert i. induction Hc as [|c cs <- Hc IH]; intros i; simpl; [done|]. apply IH. Qed.

Lemma only_child_seen i cs p :
  0 <= p -> only_child i cs p = p /\ Forall (eq Nil) cs \/
  only_child i cs p = -2 /\ exists (j : nat) c, cs !! j = Some c /\ c <> Nil.
Proof.
  intros Hp. revert i. induction cs as [|c cs IH]; intros i; [left; by split|].
  destruct (decide (c = Nil)) as [->|Hc].
  - simpl. destruct (IH (S i)) as [[-> Hf]|[-> (j & d & Hj & Hd)] ]; [left; split; [done|by constructor]|right].
    split; [done|]. by exists (S j), d.
  - right. split; [|by exists 0%nat, c]. destruct c; [done|..]; simpl;
      by rewrite (proj2 (Z.eqb_neq p (-1))) by lia.
Qed.

(** Either exactly one child is left, or at least two, or none. *)
Lemma only_child_spec i cs :
  (only_child i cs (-1) = -1 /\ Forall (eq Nil) cs) \/
  (only_child i cs (-1) = -2 /\ two_children cs) \/
  exists (j : nat) c, only_child i cs (-1) = Z.of_nat (i + j) /\ cs !! j = Some c /\ c <> Nil /\
    forall j' c', cs !! j' = Some c' -> c' <> Nil -> j' = j.
Proof.
  revert i. induction cs as [|c cs IH]; intros i; [left; by split|].
  destruct (decide (c = Nil)) as [->|Hc].
  - simpl. destruct (IH (S i)) as [[-> Hf]|[[-> (a & b & x & y & Hab & Ha & Hx & Hb & Hy)]|(j & c & -> & Hj & Hcn & Hu)] ].
    + left. split; [done|by constructor].
    + right; left. split; [done|]. exists (S a), (S b), x, y. repeat split; (done || lia).
    + right; right. exists (S j), c. split; [lia|]. split; [done|]. split; [done|].
      intros [|j'] c' Hj' Hc'; simpl in Hj'; [by simplify_eq|]. f_equal. by eapply Hu.
  - right. assert (only_child i (c :: cs) (-1) = only_child (S i) cs (Z.of_nat i)) as -> by (by destruct c).
    destruct (only_child_seen (S i) cs (Z.of_nat i)) as [[-> Hf]|[-> (j & d & Hj & Hd)] ]; [lia|right|left].
    + exists 0%nat, c. split; [lia|]. split; [done|]. split; [done|]. intros [|j'] c' Hj' Hc'; [done|].
      simpl in Hj'. exfalso. apply Hc'. symmetry. by apply (Forall_lookup_1 _ _ _ _ Hf Hj').
    + split; [done|]. exists 0%nat, (S j), c, d. done.
Qed.

(** A branch reduced to its only child [c] at [p]. *)
Lemma has_only cs f (p : nat) c k v :
  cs !! p = Some c -> (forall j' c', cs !! j' = Some c' -> c' <> Nil -> j' = p) ->
  has (Full cs f) k v <-> exists k', k = Z.of_nat p :: k' /\ has c k' v.
Proof.
  intros Hp Hu. rewrite has_full_iff. split.
  - intros (x & k' & d & -> & Hx & Hd & Hh). exists k'.
    assert (d <> Nil) by (intros ->; by apply has_nil in Hh).
    assert (Z.to_nat x = p) as E by (by eapply Hu). rewrite E, Hp in Hd. simplify_eq. split; [f_equal; lia|done].
  - intros (k' & -> & Hh). exists (Z.of_nat p), k', c. rewrite Nat2Z.id. repeat split; (done || lia).
Qed.

(** Prefixing a short node's key. *)
Lemma short_merge k k' val f f' :
  nibbles k -> wf false (Short k' val f) ->
  wf false (Short (k ++ k') val f') /\
  forall key v, has (Short (k ++ k') val f') key v <-> exists key', key = k ++ key' /\ has (Short k' val f) key' v.
Proof.
  intros Hk Hw. split.
  - inversion Hw as [|? v ? Hfk Hv|? ? ? Hne Hn Hb Hw'| |]; subst.
    + constructor; [by apply full_key_app|done].
    + constructor; [intros E; by apply app_eq_nil in E as [_ ?]|by apply nibbles_app|done|done].
  - intros key v. rewrite has_short_iff. setoid_rewrite has_short_iff. split.
    + intros (k2 & -> & Hh). exists (k' ++ k2). rewrite app_assoc. eauto.
    + intros (k2 & -> & k3 & -> & Hh). exists k3. by rewrite app_assoc.
Qed.

(** The reduction of a branch with the single child [c]. *)
Definition reduced (p : Z) (c : node) (prefix : list Z) : outcome trie_error (bool * node) :=
  cnode ← (if negb (p =? 16) then resolve db cachegen c prefix else Ok Nil);
  match cnode with
  | Short k' val' _ => Ok (true, Short (p :: k') val' (newFlag cachegen))
  | _ => Ok (true, Short [p] c (newFlag cachegen))
  end.

Lemma reduced_spec (p : nat) c prefix :
  (p < 17)%nat -> wf (p =? 16)%nat c ->
  exists n', reduced (Z.of_nat p) c prefix = Ok (true, n') /\ wf false n' /\ is_hash n' = false /\
    forall k v, has n' k v <-> exists k', k = Z.of_nat p :: k' /\ has c k' v.
Proof.
  intros Hp Hw. unfold reduced. destruct (Nat.eqb_spec p 16) as [->|Hne].
  - inversion Hw as [v Hv| | | |]; subst. simpl. eexists. split; [reflexivity|].
    split; [constructor; [exists []; split; [done|constructor]|done]|]. split; [done|].
    intros k v'. apply has_short_iff.
  - rewrite (proj2 (Z.eqb_neq (Z.of_nat p) 16)) by lia. cbn [negb].
    assert (nibbles [Z.of_nat p]) as Hn by (repeat constructor; unfold is_nibble; lia).
    assert (exists cn, resolve db cachegen c prefix = Ok cn /\ is_hash cn = false /\ wf false cn /\
      (branch cn -> branch c) /\ forall k v, has cn k v <-> has c k v) as (cn & -> & Hh & Hwc & Hb & Hs).
    { unfold resolve. destruct c as [|cs f|k val f|h|v]; try (eexists; split; [reflexivity|]; done).
      inversion Hw as [| | | |? n Hst Hn' Hwn]; subst. exists n. split; [by apply stored_resolve|].
      split; [done|]. split; [done|]. split; [|intros; symmetry; by apply has_hash_iff].
      destruct n; [done| |done|done|done]. intros _. simpl. eauto. }
    rewrite ok_bind. destruct cn as [|cs f|k val f|h|v]; [by inversion Hwc| | |done|by inversion Hwc].
    + eexists. split; [reflexivity|]. split; [by constructor; [| |apply Hb|]|]. split; [done|].
      intros k v. rewrite has_short_iff. done.
    + destruct (short_merge [Z.of_nat p] k val f (newFlag cachegen) Hn Hwc) as [Hw' Hh'].
      eexists. split; [reflexivity|]. split; [done|]. split; [done|].
      intros key v. rewrite (Hh' key v). by setoid_rewrite Hs.
Qed.

Definition deleted (b : bool) (n : node) (key : list Z) (r : outcome trie_error (bool * node)) : Prop :=
  exists d n', r = Ok (d, n') /\ wf0 b n' /\ removed n n' key /\ (branch n -> n' <> Nil) /\
    (d = true -> is_hash n' = false) /\
    (d = false -> forall k v, has n' k v <-> has n k v).

(** Nothing to delete: [key] is absent. *)
Lemma deleted_absent b n key :
  wf0 b n -> (forall v, ~ has n key v) -> deleted b n key (Ok (false, n)).
Proof.
  intros Hw Ha. exists false, n. split; [done|]. split; [done|]. split; [|split; [by intros ? ->|done] ].
  intros k' v'. split; [|by intros [_ ?] ]. intros Hh. split; [|done]. intros ->. by apply (Ha v').
Qed.

(** The recursive call found nothing. *)
Lemma deleted_unchanged b n n' key :
  wf b n -> removed n n' key -> (forall k v, has n' k v <-> has n k v) -> deleted b n key (Ok (false, n)).
Proof.
  intros Hw Hr Hs. apply deleted_absent; [by right|]. intros v Hh. apply Hs, Hr in Hh as [? _]. done.
Qed.

Lemma delete_short_step k val f key' d child :
  nibbles k -> k <> [] -> branch val -> wf false val -> full_key (k ++ key') ->
  wf0 false child -> removed val child key' -> (branch val -> child <> Nil) ->
  (d = true -> is_hash child = false) -> (d = false -> forall k v, has child k v <-> has val k v) ->
  deleted false (Short k val f) (k ++ key')
    (if d : bool then
       match child with
       | Short k' val' _ => Ok (true, Short (k ++ k') val' (newFlag cachegen))
       | _ => Ok (true, Short k child (newFlag cachegen))
       end
     else Ok (false, Short k val f)).
Proof.
  intros Hk Hkn Hb Hw Hkey Hwc Hr Hnil Hh Hd.
  pose proof (removed_short k val child f (newFlag cachegen) key' Hr) as Hrs. destruct d.
  - destruct Hwc as [->|Hwc]; [by destruct (Hnil Hb)|]. specialize (Hh eq_refl).
    destruct child as [|cs g|k' val' g|h|v]; [by inversion Hwc| | |done|by inversion Hwc].
    + eexists _, _. split; [reflexivity|]. split; [right; by constructor|]. done.
    + destruct (short_merge k k' val' g (newFlag cachegen) Hk Hwc) as [Hw' Hh'].
      eexists _, _. split; [reflexivity|]. split; [by right|]. split; [|done].
      eapply removed_to; [exact Hrs|]. intros key v. rewrite (Hh' key v). by rewrite has_short_iff.
  - eapply deleted_unchanged; [by constructor|exact Hrs|]. intros key v.
    rewrite !has_short_iff. by setoid_rewrite (Hd eq_refl).
Qed.

Lemma delete_full_step cs f x key c d nn prefix :
  wf false (Full cs f) -> 0 <= x <= 16 -> cs !! Z.to_nat x = Some c ->
  wf0 (Z.to_nat x =? 16)%nat nn -> removed c nn key ->
  (d = false -> forall k v, has nn k v <-> has c k v) ->
  deleted false (Full cs f) (x :: key)
    (if d : bool then
       let cs := <[Z.to_nat x := nn]> cs in
       let pos := only_child 0 cs (-1) in
       if 0 <=? pos then
         c ← or_panic (cs !! Z.to_nat pos); reduced pos c prefix
       else Ok (true, Full cs (newFlag cachegen))
     else Ok (false, Full cs f)).
Proof.
  intros Hwf Hx Hc Hwn Hr Hd. pose proof Hwf as Hw. inversion Hwf as [| | |? ? Hl H2 Hcs|]; subst.
  pose proof (removed_full cs f (newFlag cachegen) x c nn key ltac:(lia) Hc Hr) as Hrf.
  assert (Z.to_nat x < length cs)%nat as Hlt by lia. destruct d.
  - cbv zeta. set (cs' := <[Z.to_nat x := nn]> cs) in *.
    assert (forall i e, cs' !! i = Some e -> e <> Nil -> wf (i =? 16)%nat e) as Hcs'.
    { intros i e Hi He. unfold cs' in Hi. destruct (decide (Z.to_nat x = i)) as [<-|].
      - rewrite list_lookup_insert_eq in Hi by done. simplify_eq. by destruct Hwn.
      - rewrite list_lookup_insert_ne in Hi by done. by apply Hcs. }
    destruct (only_child_spec 0 cs') as [[_ Hf]|[[-> H2']|(p & e & -> & Hp & He & Hu)] ].
    + exfalso. destruct H2 as (i & j & a & a' & Hij & Hi & Ha & Hj & Ha').
      assert (exists m z, m <> Z.to_nat x /\ cs !! m = Some z /\ z <> Nil) as (m & z & Hm & Hz & Hzn).
      { destruct (decide (i = Z.to_nat x)); [exists j, a'|exists i, a]; (split; [lia|done]). }
      apply Hzn. symmetry. apply (Forall_lookup_1 _ cs' m z); [done|]. unfold cs'.
      by rewrite list_lookup_insert_ne.
    + eexists _, _. split; [reflexivity|]. split; [|done]. right.
      constructor; [unfold cs'; by rewrite length_insert|done|done].
    + simpl (0 + p)%nat. rewrite (proj2 (Z.leb_le 0 _)), Nat2Z.id, Hp, or_panic_bind by lia.
      assert (p < 17)%nat as Hp17 by (apply lookup_lt_Some in Hp; unfold cs' in Hp; rewrite length_insert in Hp; lia).
      destruct (reduced_spec p e prefix Hp17 (Hcs' p e Hp He)) as (n' & -> & Hw' & Hh' & Hhas).
      eexists _, _. split; [reflexivity|]. split; [by right|]. split; [|split; [|done] ].
      * eapply removed_to; [exact Hrf|]. intros k v. rewrite (Hhas k v). symmetry. by apply has_only.
      * intros _. by eapply wf_not_nil.
  - eapply deleted_unchanged; [done|exact Hrf|]. intros k v.
    rewrite (has_full_insert cs f (newFlag cachegen) _ c nn) by done. rewrite Z2Nat.id by lia.
    setoid_rewrite (Hd eq_refl). split.
    + intros [(k2 & -> & Hh)|[_ Hh] ]; [|done]. apply (has_full _ _ _ c); [lia|done|done].
    + intros Hh. apply has_full_iff in Hh as (z & k2 & e & -> & Hz & He & Hh).
      destruct (decide (z = x)) as [->|]; [left; rewrite Hc in He; simplify_eq; eauto|right].
      split; [intros k3 [= -> _]; done|]. by apply (has_full _ _ _ e).
Qed.

Lemma delete_spec fuel b n prefix key :
  wf0 b n -> key_ok b key -> (need n key < fuel)%nat ->
  deleted b n key (delete db cachegen fuel n prefix key).
Proof.
  revert b n prefix key. induction fuel as [|fuel IH]; intros b n prefix key Hwf Hkey Hf; [lia|].
  destruct Hwf as [->|Hwf]; [apply deleted_absent; [by left|intros v; apply has_nil]|].
  cbn [delete]. destruct n as [|cs f|k val f|h|v0]; [by inversion Hwf| | | |].
  - assert (b = false) as -> by (by inversion Hwf). simpl in Hkey. pose proof Hwf as Hw.
    inversion Hwf as [| | |? ? Hl H2 Hc|]; subst.
    destruct key as [|x key]; [by apply full_key_not_nil in Hkey|].
    apply full_key_child in Hkey as [Hx Hkey].
    destruct (lookup_lt_is_Some_2 cs (Z.to_nat x)) as [c Hcx]; [lia|]. rewrite Hcx, or_panic_bind.
    destruct (IH (Z.to_nat x =? 16)%nat c (prefix ++ [x]) key) as (d & nn & -> & Hwn & Hr & _ & _ & Hd);
      [destruct (decide (c = Nil)); [by left|right; by apply Hc]|done
      |unfold need in *; simpl in *; destruct (is_hash c); lia|].
    rewrite ok_bind. by eapply delete_full_step.
  - assert (b = false) as -> by (by inversion Hwf). simpl in Hkey. cbv zeta.
    destruct (Nat.ltb_spec (prefixLen key k) (length k)) as [Hlt|Hge].
    { apply deleted_absent; [by right|]. intros v Hh. apply has_short_iff in Hh as (k2 & -> & _).
      rewrite prefixLen_app in Hlt. lia. }
    pose proof (prefixLen_le key k) as Hle. assert (prefixLen key k = length k) as E by lia.
    assert (exists key', key = k ++ key') as [key' Ek].
    { exists (drop (length k) key). rewrite <-(prefixLen_full _ _ E) at 1. by rewrite take_drop. }
    destruct (Nat.eqb_spec (prefixLen key k) (length key)) as [El|El].
    + assert (key' = []) as Ek' by (apply length_zero_iff_nil; rewrite Ek, length_app in El; rewrite <-Ek in El; lia).
      rewrite Ek', app_nil_r in Ek. subst key. inversion Hwf as [|? v ? Hfk Hv|? ? ? Hne Hn Hb Hw| |]; subst.
      * eexists _, _. split; [reflexivity|]. split; [by left|]. split; [|by repeat split].
        intros k' v'. split; [intros Hh; by apply has_nil in Hh|]. intros [Hne Hh].
        apply has_short_iff in Hh as (k2 & -> & Hh). apply has_value_iff in Hh as [-> _].
        by rewrite app_nil_r in Hne.
      * exfalso. rewrite <-(app_nil_r k), full_key_app in Hkey by done. by apply full_key_not_nil in Hkey.
    + subst key. inversion Hwf as [|? v ? Hfk Hv|? ? ? Hne Hn Hb Hw| |]; subst.
      { exfalso. apply full_key_no_extend in Hkey; [|done]. apply El. by rewrite E, Hkey, app_nil_r. }
      rewrite drop_app_length.
      destruct (IH false val (prefix ++ take (length k) (k ++ key')) key')
        as (d & child & -> & Hwc & Hr & Hnil & Hh & Hd);
        [by right|by apply full_key_app in Hkey
        |unfold need in *; rewrite length_app in Hf; destruct k; [done|simpl in *; destruct (is_hash val); lia]|].
      rewrite ok_bind. by apply delete_short_step.
  - inversion Hwf as [| | | |? n Hs Hn Hw]; subst. rewrite (stored_resolve _ _ _ Hs), ok_bind.
    destruct (IH false n prefix key) as (d & n' & -> & Hw' & Hr & Hnil & Hh & Hd);
      [by right|done|unfold need in *; rewrite Hn; simpl in Hf |- *; lia|].
    rewrite ok_bind. destruct (same_hash h n Hs Hn) as (_ & Hbh & Hhs).
    destruct d; eexists _, _; (split; [reflexivity|]).
    + split; [done|]. split; [by eapply removed_same|]. split; [auto|done].
    + split; [by right|]. split; [|split; [intros _; by eapply wf_not_nil|done] ].
      eapply removed_same; [exact Hhs|]. eapply removed_to; [exact Hr|]. intros k v. symmetry. auto.
  - assert (b = true) as -> by (by inversion Hwf). simpl in Hkey. subst key.
    eexists _, _. split; [reflexivity|]. split; [by left|]. split; [|by repeat split].
    intros k' v'. split; [intros Hh; by apply has_nil in Hh|]. intros [Hne Hh].
    by apply has_value_iff in Hh as [-> _].
Qed.
End Contents.

(** ** Canonical form *)

Fixpoint loaded (n : node) : bool :=
  match n with
  | HashN _ => false
  | Full cs _ => forallb loaded cs
  | Short _ v _ => loaded v
  | _ => true
  end.

(** The node without its cache flags. *)
Definition flag0 : nodeFlag := mkFlag None 0 false.
Fixpoint erase (n : node) : node :=
  match n with
  | Full cs _ => Full (map erase cs) flag0
  | Short k v _ => Short k (erase v) flag0
  | _ => n
  end.

Section Canonical.
Context (db : list Z -> option (list Z)) (cachegen : Z).
#[local] Abbreviation has := (has db cachegen).
#[local] Abbreviation wf := (wf db cachegen).

(** Two keys that part right at the branch. *)
Lemma full_parts cs f :
  wf false (Full cs f) ->
  exists a ka va b kb vb, a <> b /\ has (Full cs f) (a :: ka) va /\ has (Full cs f) (b :: kb) vb.
Proof.
  inversion 1 as [| | |? ? Hl (i & j & c & d & Hij & Hi & Hc & Hj & Hd) Hcs|]; subst.
  destruct (wf_nonempty _ _ _ _ (Hcs i c Hi Hc)) as (ka & va & Ha).
  destruct (wf_nonempty _ _ _ _ (Hcs j d Hj Hd)) as (kb & vb & Hb).
  exists (Z.of_nat i), ka, va, (Z.of_nat j), kb, vb. split; [lia|].
  split; econstructor; (lia || (rewrite Nat2Z.id; done) || done).
Qed.

Lemma ext_prefix k cs f g n' k' f' :
  wf false (Full cs g) ->
  (forall key v, has (Short k (Full cs g) f) key v -> has (Short k' n' f') key v) ->
  exists l, k = k' ++ l.
Proof.
  intros Hw Hs. destruct (full_parts cs g Hw) as (a & ka & va & b & kb & vb & Hab & Ha & Hb).
  pose proof (Hs _ _ (has_short db cachegen k _ f _ _ Ha)) as H1.
  pose proof (Hs _ _ (has_short db cachegen k _ f _ _ Hb)) as H2.
  apply has_short_iff in H1 as (k1 & E1 & _), H2 as (k2 & E2 & _).
  apply app_eq_inv in E1 as [(l & E & _)|(l & E & E1)]; [by exists l|].
  destruct l as [|x l]; [exists []; by rewrite app_nil_r in *|].
  rewrite E in E2. rewrite <-app_assoc in E2. apply app_inv_head in E2. simpl in *. congruence.
Qed.

Lemma branch_loaded n : branch db cachegen n -> loaded n = true -> exists cs f, n = Full cs f.
Proof. destruct n; simpl; try done. eauto. Qed.

(** A leaf holds one key; a branch holds two. *)
Lemma leaf_not_branch k v f n k0 cs g :
  wf false (Full cs g) -> (forall key v, has n key v <-> exists key', key = k0 ++ key' /\ has (Full cs g) key' v) ->
  ~ (forall key v', has (Short k (ValueN v) f) key v' <-> has n key v').
Proof.
  intros Hw Hn Hs. destruct (full_parts cs g Hw) as (a & ka & va & b & kb & vb & Hab & Ha & Hb).
  assert (forall key v', has (Full cs g) key v' -> k0 ++ key = k) as Hk.
  { intros key v' Hh. assert (has (Short k (ValueN v) f) (k0 ++ key) v') as Hl by (apply Hs, Hn; eauto).
    apply has_short_iff in Hl as (k' & E & Hl). apply has_value_iff in Hl as [-> _]. by rewrite app_nil_r in E. }
  pose proof (Hk _ _ Ha) as E1. pose proof (Hk _ _ Hb) as E2. rewrite <-E1 in E2.
  apply app_inv_head in E2. congruence.
Qed.

Lemma ext_not_full k n f cs g :
  k <> [] -> wf false (Full cs g) -> ~ (forall key v, has (Full cs g) key v -> has (Short k n f) key v).
Proof.
  intros Hk Hw Hs. destruct (full_parts cs g Hw) as (a & ka & va & b & kb & vb & Hab & Ha & Hb).
  apply Hs, has_short_iff in Ha as (k1 & E1 & _). apply Hs, has_short_iff in Hb as (k2 & E2 & _).
  destruct k as [|x k]; [done|]. simpl in *. congruence.
Qed.

Lemma short_same k n f n' f' :
  (forall key v, has (Short k n f) key v <-> has (Short k n' f') key v) ->
  forall key v, has n key v -> has n' key v.
Proof.
  intros Heq key v Hh. assert (has (Short k n' f') (k ++ key) v) as Hh' by (apply Heq; by constructor).
  apply has_short_iff in Hh' as (k' & E' & Hh'). apply app_inv_head in E'. by subst.
Qed.

Lemma full_same cs f cs' f' i c c' :
  length cs = 17%nat -> cs !! i = Some c -> cs' !! i = Some c' ->
  (forall key v, has (Full cs f) key v <-> has (Full cs' f') key v) ->
  forall key v, has c key v -> has c' key v.
Proof.
  intros Hl Hc Hc' Heq key v Hh.
  assert (has (Full cs' f') (Z.of_nat i :: key) v) as Hh'.
  { apply Heq, (has_full _ _ _ _ _ c); [lia|by rewrite Nat2Z.id|done]. }
  apply has_full_iff in Hh' as (x & key' & d & E & _ & Hd & Hh'). injection E as <- <-.
  rewrite Nat2Z.id, Hc' in Hd. by simplify_eq.
Qed.

Lemma nil_same b c :
  (c <> Nil -> wf b c) -> (forall key v, has c key v -> has Nil key v) -> c = Nil.
Proof.
  intros Hw Hs. destruct (decide (c = Nil)) as [->|Hn]; [done|].
  destruct (wf_nonempty _ _ _ _ (Hw Hn)) as (key & v & Hh). apply Hs in Hh. by apply has_nil in Hh.
Qed.

Lemma ext_same k k' cs cs' f f' g g' :
  wf false (Full cs g) -> wf false (Full cs' g') ->
  (forall key v, has (Short k (Full cs g) f) key v <-> has (Short k' (Full cs' g') f') key v) -> k = k'.
Proof.
  intros Hw Hw' Heq.
  destruct (ext_prefix k cs f g (Full cs' g') k' f' Hw) as [l ->]; [intros; by apply Heq|].
  destruct (ext_prefix k' cs' f' g' (Full cs g) (k' ++ l) f Hw') as [l' E]; [intros; by apply Heq|].
  apply (f_equal length) in E. rewrite !length_app in E.
  destruct l; [by rewrite app_nil_r|simpl in E; lia].
Qed.

Lemma children_same cs f cs' f' :
  length cs = 17%nat -> length cs' = 17%nat ->
  (forall key v, has (Full cs f) key v <-> has (Full cs' f') key v) ->
  (forall i c c', cs !! i = Some c -> cs' !! i = Some c' ->
     (forall key v, has c key v <-> has c' key v) -> erase c = erase c') ->
  map erase cs = map erase cs'.
Proof.
  intros Hl Hl' Heq Hc. apply list_eq_same_length with 17%nat; [by rewrite length_map|by rewrite length_map|].
  intros i x y Hi Hx Hy. rewrite list_lookup_fmap in Hx, Hy.
  destruct (cs !! i) as [c|] eqn:E1; [|done]. destruct (cs' !! i) as [c'|] eqn:E2; [|done].
  simpl in Hx, Hy. simplify_eq. apply (Hc i c c' E1 E2). intros key v. split.
  - by apply (full_same cs f cs' f' i).
  - apply (full_same cs' f' cs f i); [done|done|done|]. intros; symmetry; apply Heq.
Qed.

Lemma loaded_child cs f i c : loaded (Full cs f) = true -> cs !! i = Some c -> loaded c = true.
Proof.
  simpl. rewrite forallb_forall. intros Hl Hc. apply Hl, list_elem_of_In, list_elem_of_lookup. eauto.
Qed.

Lemma wf_canonical b n1 n2 :
  wf b n1 -> wf b n2 -> loaded n1 = true -> loaded n2 = true ->
  (forall k v, has n1 k v <-> has n2 k v) -> erase n1 = erase n2.
Proof.
  intros Hw1. revert n2. induction Hw1 as [v Hv|k v f Hk Hv|k n f Hne Hk Hb Hw IH|cs f Hl H2 Hc IH|h n Hs Hh Hw IH];
    intros n2 Hw2 Hl1 Hl2 Heq.
  - inversion Hw2 as [v2| | | |]; subst. assert (has (ValueN v2) [] v) as Hh by (apply Heq; constructor).
    apply has_value_iff in Hh as [_ ->]. done.
  - inversion Hw2 as [|k2 v2 f2 Hk2 Hv2|k2 n f2 Hne2 Hk2 Hb2 Hw|cs f2 Hlc|]; subst; [| | |done].
    + assert (has (Short k2 (ValueN v2) f2) (k ++ []) v) as Hh by (apply Heq; repeat constructor).
      apply has_short_iff in Hh as (k' & E & Hh). apply has_value_iff in Hh as [-> ->].
      rewrite !app_nil_r in E. by subst.
    + destruct (branch_loaded n Hb2 Hl2) as (cs & g & ->). exfalso.
      eapply (leaf_not_branch k v f (Short k2 (Full cs g) f2) k2 cs g Hw); [intros; apply has_short_iff|done].
    + exfalso. eapply (leaf_not_branch k v f (Full cs f2) [] cs f2 Hw2); [simpl; naive_solver|done].
  - destruct (branch_loaded n Hb Hl1) as (cs & g & ->).
    inversion Hw2 as [|k2 v2 f2 Hk2 Hv2|k2 n f2 Hne2 Hk2 Hb2 Hw2'|cs2 f2 Hlc|]; subst; [| | |done].
    + exfalso. eapply (leaf_not_branch k2 v2 f2 (Short k (Full cs g) f) k cs g Hw);
        [intros; apply has_short_iff|intros; symmetry; apply Heq].
    + destruct (branch_loaded n Hb2 Hl2) as (cs2 & g2 & ->).
      pose proof (ext_same k k2 cs cs2 f f2 g g2 Hw Hw2' Heq) as <-.
      change (Short k (erase (Full cs g)) flag0 = Short k (erase (Full cs2 g2)) flag0).
      f_equal. apply IH; [done|done|done|]. intros key v. split; [by apply (short_same k _ f _ f2)|].
      apply (short_same k _ f2 _ f). intros; symmetry; apply Heq.
    + exfalso. eapply (ext_not_full k (Full cs g) f cs2 f2); [done|done|]. intros. by apply Heq.
  - assert (wf false (Full cs f)) as Hw1 by (by constructor).
    inversion Hw2 as [|k2 v2 f2 Hk2 Hv2|k2 n f2 Hne2 Hk2 Hb2 Hw2'|cs2 f2 Hlc H22 Hc2|]; subst; [| | |done].
    + exfalso. eapply (leaf_not_branch k2 v2 f2 (Full cs f) [] cs f Hw1); [simpl; naive_solver|intros; symmetry; apply Heq].
    + exfalso. eapply (ext_not_full k2 n f2 cs f); [done|done|]. intros. by apply Heq.
    + simpl. f_equal. apply (children_same cs f cs2 f2 Hl Hlc Heq). intros i c1 c2 E1 E2 Hch.
      destruct (decide (c1 = Nil)) as [->|H1].
      { symmetry. f_equal. eapply nil_same; [exact (Hc2 i c2 E2)|]. intros; by apply Hch. }
      apply (IH i c1 E1 H1); [|exact (loaded_child cs f i c1 Hl1 E1)|exact (loaded_child cs2 f2 i c2 Hl2 E2)|done].
      apply Hc2; [done|]. intros ->. apply H1. eapply nil_same; [exact (Hc i c1 E1)|]. intros; by apply Hch.
  - done.
Qed.

End Canonical.
