(* ===== verification/TrieOps.v ===== *)
(** * Tries as maps

    The exported operations of [src/trie/trie.go] on a [Trie] attached to a
    database ([New], [TryGet], [TryUpdate], [TryDelete] and their logging
    versions [Get], [Update], [Delete]), and the refinement theorem: a trie is
    a finite map from byte strings to non-empty byte strings.  The shape of
    the tree is a function of that map, whatever the order of the updates.

    An operation returns its result and the trie it leaves; the trie is the
    old one when the operation fails. *)
From S2P Require Import Prelude Rlp TrieEncoding Trie.

Record Trie := mkTrie {
  troot : node;
  tdb : list Z -> option (list Z);
  originalRoot : list Z;
  tcachegen : Z;
  cachelimit : Z
}.

Definition set_root (t : Trie) (n : node) : Trie :=
  mkTrie n (tdb t) (originalRoot t) (tcachegen t) (cachelimit t).

Definition SetCacheLimit (t : Trie) (l : Z) : Trie :=
  mkTrie (troot t) (tdb t) (originalRoot t) (tcachegen t) l.

(** [emptyRoot]: the hash of the empty trie. *)
Definition emptyRoot : list Z :=
  [0x56; 0xe8; 0x1f; 0x17; 0x1b; 0xcc; 0x55; 0xa6; 0xff; 0x83; 0x45; 0xe6; 0x92; 0xc0; 0xf8; 0x6e;
   0x5b; 0x48; 0xe0; 0x1b; 0x99; 0x6c; 0xad; 0xc0; 0x01; 0x62; 0x2f; 0xb5; 0xe3; 0x63; 0xb4; 0x21].

(** [New], with a database that is not [nil]. *)
Definition New (root : list Z) (db : list Z -> option (list Z)) : outcome trie_error Trie :=
  if bool_decide (root <> replicate 32 0) && bool_decide (root <> emptyRoot) then
    rootnode ← resolveHash db 0 root [];
    Ok (mkTrie rootnode db root 0 0)
  else Ok (mkTrie Nil db root 0 0).

(** Enough for every key of the trie: one call per nibble and one for each
    hash on the way. *)
Definition fuel_for (k : list Z) : nat := (2 * length k + 2)%nat.

Definition TryGet (t : Trie) (key : list Z) : outcome trie_error (option (list Z)) * Trie :=
  let k := keybytesToHex key in
  match tryGet (tdb t) (tcachegen t) (fuel_for k) (troot t) k 0 with
  | Ok (value, newroot, didResolve) => (Ok value, if didResolve then set_root t newroot else t)
  | Err e => (Err e, t)
  | Panic => (Panic, t)
  end.

Definition update_root (t : Trie) (r : outcome trie_error (bool * node)) : outcome trie_error unit * Trie :=
  match r with
  | Ok (_, n) => (Ok tt, set_root t n)
  | Err e => (Err e, t)
  | Panic => (Panic, t)
  end.

Definition TryDelete (t : Trie) (key : list Z) : outcome trie_error unit * Trie :=
  let k := keybytesToHex key in
  update_root t (delete (tdb t) (tcachegen t) (fuel_for k) (troot t) [] k).

Definition TryUpdate (t : Trie) (key value : list Z) : outcome trie_error unit * Trie :=
  let k := keybytesToHex key in
  if negb (length value =? 0)%nat then
    update_root t (insert (tdb t) (tcachegen t) (fuel_for k) (troot t) [] k (ValueN value))
  else
    update_root t (delete (tdb t) (tcachegen t) (fuel_for k) (troot t) [] k).

(** The versions that log the error; [None] is a panic. *)
Definition Get (t : Trie) (key : list Z) : option (option (list Z) * Trie) :=
  match TryGet t key with
  | (Ok v, t') => Some (v, t')
  | (Err _, t') => Some (None, t')
  | (Panic, _) => None
  end.

Definition logged (r : outcome trie_error unit * Trie) : option Trie :=
  match r with
  | (Panic, _) => None
  | (_, t') => Some t'
  end.

Definition Update (t : Trie) (key value : list Z) : option Trie := logged (TryUpdate t key value).
Definition Delete (t : Trie) (key : list Z) : option Trie := logged (TryDelete t key).

(** ** The map of a trie *)

Abbreviation kvmap := (gmap (list Z) (list Z)).

(** [t] is in normal form and holds the bindings of [m] and no others. *)
Record models (t : Trie) (m : kvmap) : Prop := mk_models {
  models_wf : wf0 (tdb t) (tcachegen t) false (troot t);
  models_has k v : has (tdb t) (tcachegen t) (troot t) k v <->
    exists key, bytes key /\ k = keybytesToHex key /\ m !! key = Some v
}.

Lemma models_lookup t m key v :
  models t m -> bytes key -> has (tdb t) (tcachegen t) (troot t) (keybytesToHex key) v <-> m !! key = Some v.
Proof.
  intros Hm Hk. rewrite (models_has t m Hm). split.
  - intros (key' & Hk' & E & Hl). apply keybytesToHex_inj in E; [by subst|done|done].
  - intros Hl. by exists key.
Qed.

Lemma need_fuel n k : (need n k < fuel_for k)%nat.
Proof. unfold need, fuel_for. destruct (is_hash n); lia. Qed.

Lemma models_get t m key :
  models t m -> bytes key -> exists t', TryGet t key = (Ok (m !! key), t') /\ models t' m.
Proof.
  intros Hm Hk. unfold TryGet. cbv zeta.
  destruct (tryGet_spec (tdb t) (tcachegen t) (fuel_for (keybytesToHex key)) false (troot t) [] (keybytesToHex key))
    as (r & n' & did & E & Hr & (Hw & _ & Hs) & Hd);
    [apply (models_wf t m Hm)|by apply keybytesToHex_full|apply need_fuel|].
  simpl in E. rewrite E. exists (if did then set_root t n' else t).
  assert (r = m !! key) as ->.
  { apply option_eq. intros v. rewrite Hr. by apply models_lookup. }
  split; [done|]. destruct did; [|done]. constructor.
  - right. apply Hw. destruct (models_wf t m Hm) as [E0|]; [|done]. by destruct (Hd eq_refl).
  - intros k v. rewrite <-(models_has t m Hm). apply Hs.
Qed.

Lemma models_insert t m key v :
  models t m -> bytes key -> v <> [] ->
  exists t', TryUpdate t key v = (Ok tt, t') /\ models t' (<[key := v]> m).
Proof.
  intros Hm Hk Hv. unfold TryUpdate. cbv zeta. destruct v as [|v0 v]; [done|]. simpl (negb _).
  destruct (insert_spec (tdb t) (tcachegen t) (fuel_for (keybytesToHex key)) false (troot t) [] (keybytesToHex key)
    (v0 :: v)) as (d & n' & E & Hw & Hu & _);
    [apply (models_wf t m Hm)|by apply keybytesToHex_full|done|apply need_fuel|].
  rewrite E. simpl. eexists. split; [done|]. constructor; [by right|].
  intros k' v'. simpl. rewrite (Hu k' v'), (models_has t m Hm). split.
  - intros [ [-> ->]|[Hne (key' & Hk' & -> & Hl)] ]; [exists key; by rewrite lookup_insert_eq|].
    exists key'. rewrite lookup_insert_ne by congruence. done.
  - intros (key' & Hk' & -> & Hl). destruct (decide (key = key')) as [<-|Hne].
    + rewrite lookup_insert_eq in Hl. left. by simplify_eq.
    + rewrite lookup_insert_ne in Hl by done. right. split; [|by exists key'].
      intros E'. apply keybytesToHex_inj in E'; [by subst|done|done].
Qed.

Lemma models_delete t m key :
  models t m -> bytes key ->
  exists t', TryDelete t key = (Ok tt, t') /\ models t' (base.delete key m).
Proof.
  intros Hm Hk. unfold TryDelete. cbv zeta.
  destruct (delete_spec (tdb t) (tcachegen t) (fuel_for (keybytesToHex key)) false (troot t) [] (keybytesToHex key))
    as (d & n' & E & Hw & Hu & _);
    [apply (models_wf t m Hm)|by apply keybytesToHex_full|apply need_fuel|].
  rewrite E. simpl. eexists. split; [done|]. constructor; [done|].
  intros k' v'. simpl. rewrite (Hu k' v'), (models_has t m Hm). split.
  - intros [Hne (key' & Hk' & -> & Hl)]. exists key'. rewrite lookup_delete_ne by congruence. done.
  - intros (key' & Hk' & -> & Hl). apply lookup_delete_Some in Hl as [Hne Hl]. split; [|by exists key'].
    intros E'. apply keybytesToHex_inj in E'; [by subst|done|done].
Qed.

(** The effect of an update on the map: an empty value deletes. *)
Definition put (m : kvmap) (kv : list Z * list Z) : kvmap :=
  if (length kv.2 =? 0)%nat then base.delete kv.1 m else <[kv.1 := kv.2]> m.

Lemma models_update t m key v :
  models t m -> bytes key -> exists t', TryUpdate t key v = (Ok tt, t') /\ models t' (put m (key, v)).
Proof.
  intros Hm Hk. unfold put. simpl. destruct v as [|v0 v].
  - by apply (models_delete t m key).
  - by apply models_insert.
Qed.

Lemma models_nil db g orig gen : models (mkTrie Nil db orig g gen) ∅.
Proof.
  constructor; [by left|]. intros k v. simpl. split; [intros Hh; by apply has_nil in Hh|].
  intros (key & _ & _ & Hl). by rewrite lookup_empty in Hl.
Qed.

(** [Update] in sequence. *)
Fixpoint updates (t : Trie) (ops : list (list Z * list Z)) : option Trie :=
  match ops with
  | [] => Some t
  | (k, v) :: ops' => t' ← Update t k v; updates t' ops'
  end.

Lemma TryUpdate_frame t key v :
  let t' := (TryUpdate t key v).2 in tdb t' = tdb t /\ tcachegen t' = tcachegen t.
Proof.
  unfold TryUpdate, update_root. cbv zeta. destruct (negb _).
  - by destruct (Trie.insert _ _ _ _ _ _ _) as [ [d n]|e|].
  - by destruct (Trie.delete _ _ _ _ _ _) as [ [d n]|e|].
Qed.

Lemma updates_models t m ops :
  models t m -> Forall (fun kv => bytes kv.1) ops ->
  exists t', updates t ops = Some t' /\ models t' (foldl put m ops) /\
    tdb t' = tdb t /\ tcachegen t' = tcachegen t.
Proof.
  revert t m. induction ops as [|[k v] ops IH]; intros t m Hm Hops; [by exists t|].
  inversion Hops as [|? ? Hk Hops']; subst. destruct (models_update t m k v Hm Hk) as (t1 & E & Hm1).
  destruct (TryUpdate_frame t k v) as [Ed Eg]. rewrite E in Ed, Eg. simpl in Ed, Eg.
  destruct (IH t1 _ Hm1 Hops') as (t2 & E2 & Hm2 & Ed2 & Eg2).
  exists t2. simpl. unfold Update. rewrite E. cbn [logged]. rewrite some_bind.
  split; [done|]. split; [done|]. split; congruence.
Qed.

(** A tree over an empty database has no unresolved part. *)
Lemma wf_no_db_loaded g b n : wf (fun _ => None) g b n -> loaded n = true.
Proof.
  induction 1 as [v0 Hv|k v0 f Hk Hv|k n f Hne Hk Hb Hw IH|cs f Hl H2 Hc IH|h n Hs Hh Hw IH]; [done|done|done| |done].
  simpl. apply forallb_forall. intros c Hin. apply list_elem_of_In, list_elem_of_lookup in Hin as [i Hi].
  destruct (decide (c = Nil)) as [->|Hn]; [done|]. by apply (IH i).
Qed.

Lemma models_canonical t1 t2 m :
  models t1 m -> models t2 m ->
  tdb t1 = (fun _ => None) -> tdb t2 = (fun _ => None) -> tcachegen t1 = tcachegen t2 ->
  erase (troot t1) = erase (troot t2).
Proof.
  intros [W1 H1] [W2 H2] D1 D2 G. rewrite D1, <-?G in *. rewrite D2 in *.
  assert (forall k v, has (fun _ => None) (tcachegen t1) (troot t1) k v <->
                      has (fun _ => None) (tcachegen t1) (troot t2) k v) as Hs
    by (intros; rewrite H1; symmetry; apply H2).
  destruct W1 as [E1|W1], W2 as [E2|W2].
  - by rewrite E1, E2.
  - f_equal. symmetry. rewrite E1. eapply nil_same; [intros _; exact W2|].
    intros. rewrite <-E1. by apply Hs.
  - f_equal. rewrite E2. eapply nil_same; [intros _; exact W1|]. intros. rewrite <-E2. by apply Hs.
  - eapply wf_canonical; [exact W1|exact W2| | |exact Hs]; by eapply wf_no_db_loaded.
Qed.

(** ** Properties *)

(** C11: A trie implements a finite map from byte strings to non-empty byte
    strings.  Over a trie in normal form, resolved from its database or not,
    [TryGet] returns the binding of the key, [TryUpdate] sets it (deletes it
    for an empty value), [TryDelete] removes it; none fails, none runs out of
    fuel, and each leaves a trie in normal form for the new map. *)
Theorem trie_refines_map t m key v :
  models t m -> bytes key ->
  (exists t', TryGet t key = (Ok (m !! key), t') /\ models t' m) /\
  (exists t', TryUpdate t key v = (Ok tt, t') /\
     models t' (if (length v =? 0)%nat then base.delete key m else <[key := v]> m)) /\
  (exists t', TryDelete t key = (Ok tt, t') /\ models t' (base.delete key m)).
Proof.
  intros Hm Hk. split; [by apply models_get|]. split; [|by apply models_delete].
  by apply (models_update t m key v).
Qed.

(** C35: The tree depends on the contents only.  Two sequences of updates of
    an empty trie over a fresh database that end in the same map both succeed
    and build the same tree, cache flags apart. *)
Theorem history_independent ops1 ops2 root :
  Forall (fun kv => bytes kv.1) ops1 -> Forall (fun kv => bytes kv.1) ops2 ->
  foldl put ∅ ops1 = foldl put ∅ ops2 ->
  let t0 := mkTrie Nil (fun _ => None) root 0 0 in
  exists t1 t2, updates t0 ops1 = Some t1 /\ updates t0 ops2 = Some t2 /\
    erase (troot t1) = erase (troot t2).
Proof.
  intros H1 H2 E t0. pose proof (models_nil (fun _ => None) 0 root 0) as H0.
  destruct (updates_models t0 ∅ ops1 H0 H1) as (t1 & E1 & M1 & D1 & G1).
  destruct (updates_models t0 ∅ ops2 H0 H2) as (t2 & E2 & M2 & D2 & G2).
  exists t1, t2. split; [done|]. split; [done|]. rewrite <-E in M2.
  apply (models_canonical t1 t2 _ M1 M2); [done|done|congruence].
Qed.

(** A trie whose root is still in the database: one leaf, key [0x12], value [5]. *)
Definition sample_hash : list Z := replicate 32 1.
Definition sample_db (h : list Z) : option (list Z) :=
  if bool_decide (h = sample_hash) then Some [0xc4; 0x82; 0x20; 0x12; 5] else None.
Definition sample_trie : Trie := mkTrie (HashN sample_hash) sample_db sample_hash 0 0.

Lemma sample_trie_models : models sample_trie {[ [0x12] := [5] ]}.
Proof.
  set (leaf := Short [1; 2; 16] (ValueN [5]) (mkFlag (Some sample_hash) 0 false)).
  assert (stored sample_db 0 sample_hash leaf) as Hs by (by vm_compute).
  assert (bytes [0x12]) by (repeat constructor; by vm_compute).
  constructor; simpl.
  - right. eapply wf_hash; [exact Hs|done|]. constructor; [|done]. exists [1; 2]. split; [done|].
    repeat constructor; by vm_compute.
  - intros k v. split.
    + intros Hh. exists [0x12]. inversion Hh as [| | |? n ? ? Hs' Hl]; subst.
      unfold stored in *. rewrite Hs in Hs'. injection Hs' as <-.
      apply has_short_iff in Hl as (k' & -> & Hl). apply has_value_iff in Hl as [-> ->]. done.
    + intros (key & _ & -> & Hl). apply lookup_singleton_Some in Hl as [<- <-].
      eapply has_hash; [exact Hs|]. apply (has_short _ _ [1; 2; 16] _ _ []). constructor.
Qed.

Lemma trie_refines_map_witness :
  (exists t', TryGet sample_trie [0x12] = (Ok (Some [5]), t') /\ models t' {[ [0x12] := [5] ]}) /\
  (exists t', TryUpdate sample_trie [0x12] [] = (Ok tt, t') /\ models t' ∅).
Proof.
  destruct (trie_refines_map sample_trie _ [0x12] [] sample_trie_models) as (Hg & Hu & _).
  { repeat constructor; by vm_compute. }
  rewrite lookup_singleton_eq in Hg. split; [exact Hg|].
  simpl in Hu. rewrite delete_singleton_eq in Hu. exact Hu.
Defined.

Definition sample_ops1 : list (list Z * list Z) := [([0x12], [5]); ([0x13], [6]); ([0x12; 0x34], [7])].
Definition sample_ops2 : list (list Z * list Z) :=
  [([0x99], [1]); ([0x12; 0x34], [7]); ([0x13], [6]); ([0x99], []); ([0x12], [5])].

Lemma history_independent_witness :
  exists t1 t2, updates (mkTrie Nil (fun _ => None) [] 0 0) sample_ops1 = Some t1 /\
    updates (mkTrie Nil (fun _ => None) [] 0 0) sample_ops2 = Some t2 /\
    erase (troot t1) = erase (troot t2) /\ troot t1 <> Nil.
Proof.
  destruct (history_independent sample_ops1 sample_ops2 []) as (t1 & t2 & E1 & E2 & E).
  - repeat constructor; by vm_compute.
  - repeat constructor; by vm_compute.
  - by vm_compute.
  - exists t1, t2. split; [exact E1|]. split; [exact E2|]. split; [exact E|].
    intros E0. vm_compute in E1. injection E1 as <-. discriminate E0.
Defined.
