(* ===== verification/TrieProof.v ===== *)
(** * Merkle proofs

    [VerifyProof] of [src/trie/proof.go].  The proof is a database of encoded
    nodes keyed by their hash, filled by an untrusted peer.  The loop over the
    nodes is bounded by fuel; on a key of a trie, one node per nibble of the
    key is enough. *)
From S2P Require Import Prelude Rlp TrieEncoding Trie TrieOps.

Inductive proof_error :=
  | ProofMissing (i : Z) (hash : list Z)
  | BadNode (i : Z) (e : node_error)
  | ProofFuel.

(** [get] walks down a decoded node; [None] is an index out of range. *)
Fixpoint get (tn : node) (key : list Z) : option (list Z * node) :=
  match tn with
  | Short k v _ =>
      if (length key <? length k)%nat || negb (bool_decide (k = take (length k) key)) then Some ([], Nil)
      else get v (drop (length k) key)
  | Full cs _ =>
      match key with
      | [] => None
      | x :: key' =>
          (fix child (cs : list node) (i : nat) :=
             match cs, i with
             | [], _ => None
             | c :: _, O => get c key'
             | _ :: cs', S i' => child cs' i'
             end) cs (Z.to_nat x)
      end
  | HashN _ => Some (key, tn)
  | Nil => Some (key, Nil)
  | ValueN _ => Some ([], tn)
  end.

Fixpoint verify_loop (fuel : nat) (proofDb : list Z -> option (list Z)) (key wantHash : list Z) (i : Z)
    : outcome proof_error (option (list Z) * Z) :=
  match fuel with
  | O => Err ProofFuel
  | S fuel' =>
      match proofDb wantHash with
      | None => Err (ProofMissing i wantHash)
      | Some buf =>
          match decodeNode (S (length buf)) 0 (Some wantHash) buf with
          | Panic => Panic
          | Err e => Err (BadNode i e)
          | Ok n =>
              '(keyrest, cld) ← or_panic (get n key);
              match cld with
              | Nil => Ok (None, i)
              | HashN h => verify_loop fuel' proofDb keyrest h (i + 1)
              | ValueN v => Ok (Some v, i + 1)
              | _ => Panic
              end
          end
      end
  end.

(** [VerifyProof]: the value (if any) and the number of nodes used. *)
Definition VerifyProof (rootHash key : list Z) (proofDb : list Z -> option (list Z))
    : outcome proof_error (option (list Z) * Z) :=
  let key := keybytesToHex key in
  verify_loop (S (length key)) proofDb key rootHash 0.

Lemma get_full cs f x key : get (Full cs f) (x :: key) = c ← cs !! Z.to_nat x; get c key.
Proof.
  simpl. generalize (Z.to_nat x). induction cs as [|c cs IH]; intros [|i]; [done|done|done|]. apply IH.
Qed.

Section Verify.
Context (db proofDb : list Z -> option (list Z)).
#[local] Abbreviation has := (has db 0).
#[local] Abbreviation wf := (wf db 0).

(** Where the walk through [n] along [key] ends. *)
Inductive walk (n : node) (key : list Z) : list Z -> node -> Prop :=
  | walk_absent kr : (forall v, ~ has n key v) -> walk n key kr Nil
  | walk_value v : has n key v -> walk n key [] (ValueN v)
  | walk_hash kr h :
      wf false (HashN h) -> full_key kr -> (forall v, has n key v <-> has (HashN h) kr v) ->
      (length kr <= length key)%nat -> (is_hash n = false -> (length kr < length key)%nat) ->
      walk n key kr (HashN h).

Lemma walk_down n key c key' kr r :
  (forall v, has n key v <-> has c key' v) -> is_hash n = false -> (length key' < length key)%nat ->
  walk c key' kr r -> walk n key kr r.
Proof.
  intros Hs Hn Hl. inversion 1 as [? Ha|v Hv|? h Hw Hf Hi Hle Hlt]; subst.
  - constructor. intros v. rewrite Hs. apply Ha.
  - constructor. by apply Hs.
  - constructor; [done|done| |lia|lia]. intros v. by rewrite Hs.
Qed.

Lemma get_walk b n : wf0 db 0 b n -> forall key, key_ok b key ->
  exists kr r, get n key = Some (kr, r) /\ walk n key kr r.
Proof.
  intros [->|Hwf]; [intros key _; exists key, Nil; split; [done|]; constructor; intros v; apply has_nil|].
  induction Hwf as [v0 Hv|k v0 f Hk Hv|k n f Hne Hk Hb Hw IH|cs f Hl H2 Hc IH|h n Hs Hh Hw IH]; intros key Hkey.
  - simpl in Hkey. subst key. exists [], (ValueN v0). split; [done|]. constructor. constructor.
  - cbn [get]. destruct (_ || _) eqn:Hm.
    + eexists _, _. split; [done|]. constructor. intros v Hh. apply has_short_iff in Hh as (key' & E & _).
      assert (exists key', key = k ++ key') as Hp by eauto. apply short_match in Hp. congruence.
    + apply short_match in Hm as [key' ->]. exists [], (ValueN v0). split; [done|].
      pose proof (full_key_no_extend _ _ Hk Hkey) as ->. constructor. constructor. constructor.
  - cbn [get]. destruct (_ || _) eqn:Hm.
    + eexists _, _. split; [done|]. constructor. intros v Hh. apply has_short_iff in Hh as (key' & E & _).
      assert (exists key', key = k ++ key') as Hp by eauto. apply short_match in Hp. congruence.
    + apply short_match in Hm as [key' ->]. rewrite drop_app_length.
      destruct (IH key') as (kr & r & E & Hr); [by apply full_key_app in Hkey|].
      exists kr, r. split; [done|]. apply (walk_down _ _ n key'); [|done| |done].
      * intros v. rewrite has_short_iff. split; [|by exists key']. intros (k2 & E2 & Hh).
        apply app_inv_head in E2. by subst.
      * rewrite length_app. destruct k; [done|simpl; lia].
  - destruct key as [|x key]; [by apply full_key_not_nil in Hkey|]. rewrite get_full.
    apply full_key_child in Hkey as [Hx Hkey].
    destruct (lookup_lt_is_Some_2 cs (Z.to_nat x)) as [c Hcx]; [lia|]. rewrite Hcx, some_bind.
    assert (forall v, has (Full cs f) (x :: key) v <-> has c key v) as Hs.
    { intros v. rewrite has_full_iff. split; [|intros Hh; exists x, key, c; repeat split; (done || lia)].
      intros (x' & key' & c' & E & _ & Hc' & Hh). injection E as <- <-. rewrite Hcx in Hc'. by simplify_eq. }
    destruct (decide (c = Nil)) as [->|Hcn].
    + exists key, Nil. split; [done|]. constructor. intros v. rewrite Hs. apply has_nil.
    + destruct (IH _ _ Hcx Hcn key Hkey) as (kr & r & E & Hr). exists kr, r. split; [done|].
      apply (walk_down _ _ c key); [done|done|simpl; lia|done].
  - exists key, (HashN h). split; [done|]. constructor; [by econstructor|done|done|done|done].
Qed.

(** ** The loop *)

Lemma stored_decode h n :
  stored db 0 h n -> exists enc, db h = Some enc /\ decodeNode (S (length enc)) 0 (Some h) enc = Ok n.
Proof.
  unfold stored, resolveHash. destruct (db h) as [enc|]; [|done].
  destruct (decodeNode _ _ _ _) eqn:E; [|done|done]. intros [= ->]. by exists enc.
Qed.

(** The proof holds no node that differs from the trie's. *)
Definition agrees : Prop := forall h e e', proofDb h = Some e -> db h = Some e' -> e = e'.

Lemma verify_loop_spec fuel key want i :
  agrees -> wf false (HashN want) -> full_key key -> (length key < fuel)%nat ->
  (exists r j, verify_loop fuel proofDb key want i = Ok (r, j) /\ forall v, r = Some v <-> has (HashN want) key v) \/
  (exists h j, verify_loop fuel proofDb key want i = Err (ProofMissing j h) /\ proofDb h = None /\ is_Some (db h)).
Proof.
  intros Hag. revert key want i. induction fuel as [|fuel IH]; intros key want i Hw Hkey Hf; [lia|].
  inversion Hw as [| | | |? n Hs Hn Hwn]; subst. destruct (stored_decode _ _ Hs) as (enc & Hdb & Hdec).
  cbn [verify_loop]. destruct (proofDb want) as [buf|] eqn:Hp.
  2:{ right. exists want, i. rewrite Hdb. eauto. }
  rewrite (Hag _ _ _ Hp Hdb), Hdec. destruct (get_walk false n (or_intror Hwn) key Hkey) as (kr & r & -> & Hwalk).
  rewrite or_panic_bind. destruct Hwalk as [kr Ha|v Hv|kr h Hwh Hfk Hsame Hle Hlt].
  - left. exists None, i. split; [done|]. intros v. rewrite (has_hash_iff db 0 want n) by done.
    split; [done|]. intros Hv. by apply Ha in Hv.
  - left. exists (Some v), (i + 1). split; [done|]. intros v'. rewrite (has_hash_iff db 0 want n) by done.
    split; [by intros [= <-]|]. intros Hv'. f_equal. by eapply has_unique.
  - destruct (IH kr h (i + 1) Hwh Hfk) as [(r & j & E & Hr)|(h' & j & E & Hm)].
    + specialize (Hlt Hn). lia.
    + left. exists r, j. split; [done|]. intros v. rewrite Hr, (has_hash_iff db 0 want n) by done. by rewrite Hsame.
    + right. by exists h', j.
Qed.

End Verify.

(** Content-addressed databases without a hash collision between them agree. *)
Lemma content_agrees (keccak : list Z -> list Z) db proofDb :
  (forall h e, db h = Some e -> h = keccak e) ->
  (forall h e, proofDb h = Some e -> h = keccak e) ->
  (forall h1 h2 e1 e2, db h1 = Some e1 -> proofDb h2 = Some e2 -> keccak e1 = keccak e2 -> e1 = e2) ->
  agrees db proofDb.
Proof.
  intros Hdb Hp Hc h e e' He He'. symmetry. apply (Hc h h); [done|done|].
  by rewrite <-(Hdb h e'), <-(Hp h e).
Qed.

(** ** Properties *)

(** C13: Merkle proofs are sound and complete.  Let a trie with root hash
    [root] hold the map [m], and let a proof be keyed by hashes with no
    collision against the trie's nodes.  Whatever nodes the peer put in it,
    [VerifyProof] returns the binding of the key in [m] (its value, or nothing
    when the key is absent) or reports a node of the trie that the proof
    lacks; it never returns a wrong answer, never panics on such a proof, and
    always answers when the proof lacks no node. *)
Theorem VerifyProof_sound (keccak : list Z -> list Z) db proofDb root orig lim m key :
  models (mkTrie (HashN root) db orig 0 lim) m -> bytes key ->
  (forall h e, db h = Some e -> h = keccak e) ->
  (forall h e, proofDb h = Some e -> h = keccak e) ->
  (forall h1 h2 e1 e2, db h1 = Some e1 -> proofDb h2 = Some e2 -> keccak e1 = keccak e2 -> e1 = e2) ->
  (exists n, VerifyProof root key proofDb = Ok (m !! key, n)) \/
  (exists i h, VerifyProof root key proofDb = Err (ProofMissing i h) /\ proofDb h = None /\ is_Some (db h)).
Proof.
  intros Hm Hk Hdb Hp Hc. destruct (models_wf _ _ Hm) as [E|Hwf]; [done|]. simpl in Hwf. unfold VerifyProof. cbv zeta.
  destruct (verify_loop_spec db proofDb (S (length (keybytesToHex key))) (keybytesToHex key) root 0)
    as [(r & n & E & Hr)|(h & i & E & Hh)];
    [by eapply content_agrees|done|by apply keybytesToHex_full|lia| |right; by exists i, h].
  left. exists n. rewrite E. do 2 f_equal. apply option_eq. intros v. rewrite Hr.
  by apply (models_lookup (mkTrie (HashN root) db orig 0 lim)).
Qed.

(** A stand-in for the hash: constant on all but one encoding. *)
Definition sample_keccak (e : list Z) : list Z :=
  if bool_decide (e = [0xc4; 0x82; 0x20; 0x12; 5]) then sample_hash else replicate 32 2.

Lemma VerifyProof_sound_witness :
  VerifyProof sample_hash [0x12] sample_db = Ok (Some [5], 1) /\
  ((exists n, VerifyProof sample_hash [0x12] sample_db = Ok (Some [5], n)) \/
   (exists i h, VerifyProof sample_hash [0x12] sample_db = Err (ProofMissing i h) /\
      sample_db h = None /\ is_Some (sample_db h))).
Proof.
  split; [by vm_compute|].
  assert (forall h e, sample_db h = Some e -> h = sample_keccak e) as Hk.
  { intros h e. unfold sample_db. case_bool_decide; [|done]. intros [= <-]. by subst. }
  pose proof (VerifyProof_sound sample_keccak sample_db sample_db sample_hash sample_hash 0
    {[ [0x12] := [5] ]} [0x12] sample_trie_models) as H.
  rewrite lookup_singleton_eq in H. apply H; [repeat constructor; by vm_compute|exact Hk|exact Hk|].
  intros h1 h2 e1 e2. unfold sample_db. do 2 case_bool_decide; intros E1 E2 _; congruence.
Defined.
