(* ===== verification/State.v ===== *)
(** * The state database

    [src/core/state]: state objects ([state_object.go]), the state database
    with its caches ([statedb.go]) and the journal of changes that snapshots
    are made of ([journal.go]).

    The tries and the code store behind the state are an interface, the class
    [Database] below; its methods are those of the Go interfaces [Database]
    and [Trie] ([database.go]).  [AddressLength] is declared in a file of
    [common] that is not among the sources, so it is a parameter too.  A Go map from addresses to object pointers is
    a finite map to objects: an object is only reachable through the map or
    through the journal entry that replaced it.  [onDirty] is [true] while the
    callback of an object is set.  [None] in [option StateDB] is a panic. *)
From S2P Require Import Prelude Rlp RlpStream Types.

(** [BytesTo_N_] of [types_template.go] for a type of [size] bytes: the last
    [size] bytes, zeros in front. *)
Definition BytesToN (size : nat) (b : list Z) : list Z :=
  let b := drop (length b - size) b in replicate (size - length b) 0 ++ b.

Definition BytesToHash (b : list Z) : Hash := BytesToN 32 b.

Definition zeroHash : Hash := replicate 32 0.

(** ** The store behind the state *)

Class Database := {
  trie : Type;
  db_error : Type;
  TryGet : trie -> list Z -> option (list Z) * option db_error;
  TryUpdate : trie -> list Z -> list Z -> trie * option db_error;
  TryDelete : trie -> list Z -> trie * option db_error;
  Hash_of : trie -> Hash;
  OpenTrie : Hash -> db_error + trie;
  OpenStorageTrie : Hash -> Hash -> db_error + trie;
  ContractCode : Hash -> Hash -> option (list Z) * option db_error;
  ContractCodeSize : Hash -> Hash -> Z * option db_error;
  dbw : Type;
  Put : dbw -> list Z -> list Z -> db_error + dbw;
  Trie_CommitTo : trie -> dbw -> db_error + (Hash * trie * dbw);
  Keccak256 : list Z -> Hash;
  AddressLength : nat
}.

(** The order in which Go ranges over a map is arbitrary. *)
Class MapOrder := {
  range_map {V} : gmap (list Z) V -> list (list Z * V);
  range_perm {V} (m : gmap (list Z) V) : range_map m ≡ₚ map_to_list m
}.

(** The errors a state remembers. *)
Inductive state_error `{Database} :=
  | DbError (e : db_error)
  | OpenError (e : db_error)
  | CodeError (h : Hash) (e : db_error)
  | RlpError (e : rlp_error).

Record Account := mkAccount { aNonce : Z; aBalance : Z; aRoot : Hash; aCodeHash : Hash }.

(** The account in the main trie: an RLP list of the four fields. *)
Definition encodeAccount (a : Account) : outcome enc_error (list Z) :=
  EncodeToBytes (VList [VUint (aNonce a); VBig (Some (aBalance a)); VBytes (aRoot a); VBytes (aCodeHash a)]).

Definition account_decoder : SM Account :=
  _ ← List_;
  nonce ← uint 64;
  balance ← decodeBigInt;
  root ← decodeByteArray 32;
  codehash ← Bytes;
  _ ← ListEnd;
  mret (mkAccount nonce balance root codehash).

Definition decodeAccount (enc : list Z) : option Account :=
  match DecodeBytes_with account_decoder enc with inl a => Some a | inr _ => None end.

Record Log := mkLog {
  lAddress : Address; lTopics : list Hash; lData : list Z; lBlockNumber : Z;
  lTxHash : Hash; lTxIndex : Z; lBlockHash : Hash; lIndex : Z
}.

Section State.
Context {DB : Database}.

Definition emptyCodeHash : Hash := Keccak256 [].

(** ** State objects *)

Record stateObject := mkObject {
  address : Address;
  data : Account;
  odbErr : option state_error;
  otrie : option trie;
  code : option (list Z);
  cachedStorage : gmap Hash Hash;
  dirtyStorage : gmap Hash Hash;
  dirtyCode : bool;
  suicided : bool;
  touched : bool;
  deleted : bool;
  onDirty : bool
}.

Definition addrHash (o : stateObject) : Hash := Keccak256 (address o).

Definition set_data (o : stateObject) (a : Account) : stateObject :=
  mkObject (address o) a (odbErr o) (otrie o) (code o) (cachedStorage o) (dirtyStorage o)
    (dirtyCode o) (suicided o) (touched o) (deleted o) (onDirty o).
Definition set_odbErr (o : stateObject) (e : option state_error) : stateObject :=
  mkObject (address o) (data o) e (otrie o) (code o) (cachedStorage o) (dirtyStorage o)
    (dirtyCode o) (suicided o) (touched o) (deleted o) (onDirty o).
Definition set_otrie (o : stateObject) (t : option trie) : stateObject :=
  mkObject (address o) (data o) (odbErr o) t (code o) (cachedStorage o) (dirtyStorage o)
    (dirtyCode o) (suicided o) (touched o) (deleted o) (onDirty o).
Definition set_code (o : stateObject) (c : option (list Z)) (dirty : bool) : stateObject :=
  mkObject (address o) (data o) (odbErr o) (otrie o) c (cachedStorage o) (dirtyStorage o)
    dirty (suicided o) (touched o) (deleted o) (onDirty o).
Definition set_storage (o : stateObject) (cached dirty : gmap Hash Hash) : stateObject :=
  mkObject (address o) (data o) (odbErr o) (otrie o) (code o) cached dirty
    (dirtyCode o) (suicided o) (touched o) (deleted o) (onDirty o).
Definition set_flags (o : stateObject) (sui tou del dir : bool) : stateObject :=
  mkObject (address o) (data o) (odbErr o) (otrie o) (code o) (cachedStorage o) (dirtyStorage o)
    (dirtyCode o) sui tou del dir.

Definition empty (o : stateObject) : bool :=
  (aNonce (data o) =? 0) && (aBalance (data o) =? 0) && bool_decide (aCodeHash (data o) = emptyCodeHash).

(** [newObject] with the callback set; a fresh account has a nil balance and
    code hash, which become zero and the hash of nothing. *)
Definition newObject (addr : Address) (a : Account) : stateObject :=
  mkObject addr a None None None ∅ ∅ false false false false true.

Definition freshAccount : Account := mkAccount 0 0 zeroHash emptyCodeHash.

Definition first_error (e e' : option state_error) : option state_error :=
  match e with None => e' | Some _ => e end.

Definition obj_setError (o : stateObject) (e : option state_error) : stateObject :=
  set_odbErr o (first_error (odbErr o) e).

(** [getTrie]: the storage trie, now loaded.  A nil trie would be a panic of
    its user; the empty root always opens. *)
Definition getTrie (o : stateObject) : option (trie * stateObject) :=
  match otrie o with
  | Some t => Some (t, o)
  | None =>
      match OpenStorageTrie (addrHash o) (aRoot (data o)) with
      | inr t => Some (t, set_otrie o (Some t))
      | inl e =>
          match OpenStorageTrie (addrHash o) zeroHash with
          | inr t => Some (t, obj_setError (set_otrie o (Some t)) (Some (OpenError e)))
          | inl _ => None
          end
      end
  end.

(** The value of a storage slot as the trie has it; [None] is a panic. *)
Definition decode_slot (enc : option (list Z)) : option (Hash * option state_error) :=
  match enc with
  | None | Some [] => Some (zeroHash, None)
  | Some enc =>
      match Split enc with
      | Ok (_, content, _) => Some (BytesToHash content, None)
      | Err e => Some (zeroHash, Some (RlpError e))
      | Panic => None
      end
  end.

Definition obj_GetState (o : stateObject) (key : Hash) : option (Hash * stateObject) :=
  match cachedStorage o !! key with
  | Some value => Some (value, o)
  | None =>
      '(tr, o) ← getTrie o;
      match TryGet tr key with
      | (_, Some e) => Some (zeroHash, obj_setError o (Some (DbError e)))
      | (enc, None) =>
          '(value, err) ← decode_slot enc;
          let o := obj_setError o err in
          if bool_decide (value <> zeroHash)
          then Some (value, set_storage o (<[key := value]> (cachedStorage o)) (dirtyStorage o))
          else Some (value, o)
      end
  end.

(** [Code]: the code, now loaded. *)
Definition obj_Code (o : stateObject) : option (list Z) * stateObject :=
  match code o with
  | Some c => (Some c, o)
  | None =>
      if bool_decide (aCodeHash (data o) = emptyCodeHash) then (None, o)
      else
        let '(c, err) := ContractCode (addrHash o) (BytesToHash (aCodeHash (data o))) in
        (c, set_code (obj_setError o (CodeError (aCodeHash (data o)) <$> err)) c (dirtyCode o))
  end.

(** ** The journal *)

Inductive journalEntry :=
  | createObjectChange (account : Address)
  | resetObjectChange (prev : stateObject)
  | suicideChange (account : Address) (prev : bool) (prevbalance : Z)
  | balanceChange (account : Address) (prev : Z)
  | nonceChange (account : Address) (prev : Z)
  | storageChange (account : Address) (key prevalue : Hash)
  | codeChange (account : Address) (prevcode : option (list Z)) (prevhash : Hash)
  | refundChange (prev : Z)
  | addLogChange (txhash : Hash)
  | addPreimageChange (hash : Hash)
  | touchChange (account : Address) (prev prevDirty : bool).

Record revision := mkRevision { rid : Z; journalIndex : nat }.

(** ** The state *)

(** The journal is kept newest entry first. *)
Record StateDB := mkState {
  strie : trie;
  stateObjects : gmap Address stateObject;
  stateObjectsDirty : gset Address;
  dbErr : option state_error;
  refund : Z;
  thash : Hash;
  bhash : Hash;
  txIndex : Z;
  logs : gmap Hash (list Log);
  logSize : Z;
  preimages : gmap Hash (list Z);
  journal : list journalEntry;
  validRevisions : list revision;
  nextRevisionId : Z
}.

Definition with_objects (s : StateDB) (objs : gmap Address stateObject) (d : gset Address) : StateDB :=
  mkState (strie s) objs d (dbErr s) (refund s) (thash s) (bhash s) (txIndex s) (logs s)
    (logSize s) (preimages s) (journal s) (validRevisions s) (nextRevisionId s).
Definition with_trie (s : StateDB) (t : trie) : StateDB :=
  mkState t (stateObjects s) (stateObjectsDirty s) (dbErr s) (refund s) (thash s) (bhash s) (txIndex s) (logs s)
    (logSize s) (preimages s) (journal s) (validRevisions s) (nextRevisionId s).
Definition setError (s : StateDB) (e : option state_error) : StateDB :=
  mkState (strie s) (stateObjects s) (stateObjectsDirty s) (first_error (dbErr s) e) (refund s) (thash s)
    (bhash s) (txIndex s) (logs s) (logSize s) (preimages s) (journal s) (validRevisions s) (nextRevisionId s).
Definition with_refund (s : StateDB) (r : Z) : StateDB :=
  mkState (strie s) (stateObjects s) (stateObjectsDirty s) (dbErr s) r (thash s) (bhash s) (txIndex s) (logs s)
    (logSize s) (preimages s) (journal s) (validRevisions s) (nextRevisionId s).
Definition with_logs (s : StateDB) (l : gmap Hash (list Log)) (n : Z) : StateDB :=
  mkState (strie s) (stateObjects s) (stateObjectsDirty s) (dbErr s) (refund s) (thash s) (bhash s) (txIndex s) l
    n (preimages s) (journal s) (validRevisions s) (nextRevisionId s).
Definition with_preimages (s : StateDB) (p : gmap Hash (list Z)) : StateDB :=
  mkState (strie s) (stateObjects s) (stateObjectsDirty s) (dbErr s) (refund s) (thash s) (bhash s) (txIndex s) (logs s)
    (logSize s) p (journal s) (validRevisions s) (nextRevisionId s).
Definition with_journal (s : StateDB) (j : list journalEntry) (v : list revision) (next : Z) : StateDB :=
  mkState (strie s) (stateObjects s) (stateObjectsDirty s) (dbErr s) (refund s) (thash s) (bhash s) (txIndex s) (logs s)
    (logSize s) (preimages s) j v next.

Definition log_change (s : StateDB) (e : journalEntry) : StateDB :=
  with_journal s (e :: journal s) (validRevisions s) (nextRevisionId s).

Definition New (root : Hash) : db_error + StateDB :=
  match OpenTrie root with
  | inl e => inl e
  | inr tr => inr (mkState tr ∅ ∅ None 0 zeroHash zeroHash 0 ∅ 0 ∅ [] [] 0)
  end.

(** ** Objects of the state *)

Definition setStateObject (s : StateDB) (o : stateObject) : StateDB :=
  with_objects s (<[address o := o]> (stateObjects s)) (stateObjectsDirty s).

(** [onDirty], when it is still set. *)
Definition mark_dirty (s : StateDB) (o : stateObject) : StateDB * stateObject :=
  if onDirty o
  then (with_objects s (stateObjects s) ({[ address o ]} ∪ stateObjectsDirty s),
        set_flags o (suicided o) (touched o) (deleted o) false)
  else (s, o).

Definition loadAccount (tr : trie) (addr : Address) : option Account :=
  match (TryGet tr addr).1 with
  | None | Some [] => None
  | Some enc => decodeAccount enc
  end.

(** [getStateObject]: a live object, or one loaded from the trie. *)
Definition getStateObject (s : StateDB) (addr : Address) : option stateObject * StateDB :=
  match stateObjects s !! addr with
  | Some obj => (if deleted obj then None else Some obj, s)
  | None =>
      match TryGet (strie s) addr with
      | (None, err) | (Some [], err) => (None, setError s (DbError <$> err))
      | (Some enc, _) =>
          match decodeAccount enc with
          | None => (None, s)
          | Some a => let obj := newObject addr a in (Some obj, setStateObject s obj)
          end
      end
  end.

Definition obj_setBalance (s : StateDB) (o : stateObject) (amount : Z) : StateDB * stateObject :=
  mark_dirty s (set_data o (mkAccount (aNonce (data o)) amount (aRoot (data o)) (aCodeHash (data o)))).
Definition obj_setNonce (s : StateDB) (o : stateObject) (nonce : Z) : StateDB * stateObject :=
  mark_dirty s (set_data o (mkAccount nonce (aBalance (data o)) (aRoot (data o)) (aCodeHash (data o)))).
Definition obj_setCode (s : StateDB) (o : stateObject) (codeHash : Hash) (c : option (list Z)) : StateDB * stateObject :=
  mark_dirty s (set_code (set_data o (mkAccount (aNonce (data o)) (aBalance (data o)) (aRoot (data o)) codeHash)) c true).
Definition obj_setState (s : StateDB) (o : stateObject) (key value : Hash) : StateDB * stateObject :=
  mark_dirty s (set_storage o (<[key := value]> (cachedStorage o)) (<[key := value]> (dirtyStorage o))).
Definition markSuicided (s : StateDB) (o : stateObject) : StateDB * stateObject :=
  mark_dirty s (set_flags o true (touched o) (deleted o) (onDirty o)).
Definition touch (s : StateDB) (o : stateObject) : StateDB * stateObject :=
  let s := log_change s (touchChange (address o) (touched o) (negb (onDirty o))) in
  let '(s, o) := mark_dirty s o in
  (s, set_flags o (suicided o) true (deleted o) (onDirty o)).

(** The object is in the map, so changing it changes the map. *)
Definition store_object (r : StateDB * stateObject) : StateDB := setStateObject r.1 r.2.

(** [createObject]: the new object, the one it replaces, the state. *)
Definition createObject (s : StateDB) (addr : Address) : stateObject * option stateObject * StateDB :=
  let '(prev, s) := getStateObject s addr in
  let '(s, newobj) := obj_setNonce s (newObject addr freshAccount) 0 in
  let s := log_change s (match prev with
                         | None => createObjectChange addr
                         | Some p => resetObjectChange p
                         end) in
  (newobj, prev, setStateObject s newobj).

Definition GetOrNewStateObject (s : StateDB) (addr : Address) : stateObject * StateDB :=
  match getStateObject s addr with
  | (Some o, s) => if deleted o then let '(o, _, s) := createObject s addr in (o, s) else (o, s)
  | (None, s) => let '(o, _, s) := createObject s addr in (o, s)
  end.

(** ** Changes *)

Definition obj_SetBalance (s : StateDB) (o : stateObject) (amount : Z) : StateDB :=
  store_object (obj_setBalance (log_change s (balanceChange (address o) (aBalance (data o)))) o amount).

Definition AddBalance (s : StateDB) (addr : Address) (amount : Z) : StateDB :=
  let '(o, s) := GetOrNewStateObject s addr in
  if amount =? 0 then (if empty o then store_object (touch s o) else s)
  else obj_SetBalance s o (aBalance (data o) + amount).

Definition SubBalance (s : StateDB) (addr : Address) (amount : Z) : StateDB :=
  let '(o, s) := GetOrNewStateObject s addr in
  if amount =? 0 then s else obj_SetBalance s o (aBalance (data o) - amount).

Definition SetBalance (s : StateDB) (addr : Address) (amount : Z) : StateDB :=
  let '(o, s) := GetOrNewStateObject s addr in obj_SetBalance s o amount.

Definition SetNonce (s : StateDB) (addr : Address) (nonce : Z) : StateDB :=
  let '(o, s) := GetOrNewStateObject s addr in
  store_object (obj_setNonce (log_change s (nonceChange (address o) (aNonce (data o)))) o nonce).

Definition SetCode (s : StateDB) (addr : Address) (c : option (list Z)) : StateDB :=
  let '(o, s) := GetOrNewStateObject s addr in
  let '(prevcode, o) := obj_Code o in
  let s := log_change s (codeChange (address o) prevcode (aCodeHash (data o))) in
  store_object (obj_setCode s o (Keccak256 (default [] c)) c).

Definition SetState (s : StateDB) (addr : Address) (key value : Hash) : option StateDB :=
  let '(o, s) := GetOrNewStateObject s addr in
  '(prevalue, o) ← obj_GetState o key;
  let s := log_change s (storageChange (address o) key prevalue) in
  Some (store_object (obj_setState s o key value)).

Definition Suicide (s : StateDB) (addr : Address) : bool * StateDB :=
  match getStateObject s addr with
  | (None, s) => (false, s)
  | (Some o, s) =>
      let s := log_change s (suicideChange addr (suicided o) (aBalance (data o))) in
      let '(s, o) := markSuicided s o in
      (true, setStateObject s (set_data o (mkAccount (aNonce (data o)) 0 (aRoot (data o)) (aCodeHash (data o)))))
  end.

Definition CreateAccount (s : StateDB) (addr : Address) : StateDB :=
  let '(new, prev, s) := createObject s addr in
  match prev with
  | None => s
  | Some p => store_object (obj_setBalance s new (aBalance (data p)))
  end.

Definition AddLog (s : StateDB) (l : Log) : StateDB :=
  let s := log_change s (addLogChange (thash s)) in
  let l := mkLog (lAddress l) (lTopics l) (lData l) (lBlockNumber l) (thash s) (u64 (txIndex s)) (bhash s) (logSize s) in
  with_logs s (<[thash s := default [] (logs s !! thash s) ++ [l]]> (logs s)) (u64 (logSize s + 1)).

Definition AddPreimage (s : StateDB) (hash : Hash) (preimage : list Z) : StateDB :=
  match preimages s !! hash with
  | Some _ => s
  | None =>
      let s := log_change s (addPreimageChange hash) in
      with_preimages s (<[hash := preimage]> (preimages s))
  end.

Definition AddRefund (s : StateDB) (gas : Z) : StateDB :=
  let s := log_change s (refundChange (refund s)) in
  with_refund s (refund s + gas).

Definition Prepare (s : StateDB) (th bh : Hash) (ti : Z) : StateDB :=
  mkState (strie s) (stateObjects s) (stateObjectsDirty s) (dbErr s) (refund s) th bh ti (logs s)
    (logSize s) (preimages s) (journal s) (validRevisions s) (nextRevisionId s).

(** ** Reads *)

Definition Exist (s : StateDB) (addr : Address) : bool * StateDB :=
  let '(o, s) := getStateObject s addr in (bool_decide (is_Some o), s).

Definition Empty (s : StateDB) (addr : Address) : bool * StateDB :=
  let '(o, s) := getStateObject s addr in
  (match o with None => true | Some o => empty o end, s).

Definition GetBalance (s : StateDB) (addr : Address) : Z * StateDB :=
  let '(o, s) := getStateObject s addr in
  (match o with None => 0 | Some o => aBalance (data o) end, s).

Definition GetNonce (s : StateDB) (addr : Address) : Z * StateDB :=
  let '(o, s) := getStateObject s addr in
  (match o with None => 0 | Some o => aNonce (data o) end, s).

Definition GetCode (s : StateDB) (addr : Address) : option (list Z) * StateDB :=
  let '(o, s) := getStateObject s addr in
  match o with
  | None => (None, s)
  | Some o => let '(c, o) := obj_Code o in (c, setStateObject s o)
  end.

Definition GetCodeSize (s : StateDB) (addr : Address) : Z * StateDB :=
  let '(o, s) := getStateObject s addr in
  match o with
  | None => (0, s)
  | Some o =>
      match code o with
      | Some c => (Z.of_nat (length c), s)
      | None =>
          let '(size, err) := ContractCodeSize (addrHash o) (BytesToHash (aCodeHash (data o))) in
          (size, setError s (DbError <$> err))
      end
  end.

Definition GetCodeHash (s : StateDB) (addr : Address) : Hash * StateDB :=
  let '(o, s) := getStateObject s addr in
  (match o with None => zeroHash | Some o => BytesToHash (aCodeHash (data o)) end, s).

Definition GetState (s : StateDB) (addr : Address) (key : Hash) : option (Hash * StateDB) :=
  let '(o, s) := getStateObject s addr in
  match o with
  | None => Some (zeroHash, s)
  | Some o => '(v, o) ← obj_GetState o key; Some (v, setStateObject s o)
  end.

Definition HasSuicided (s : StateDB) (addr : Address) : bool * StateDB :=
  let '(o, s) := getStateObject s addr in
  (match o with None => false | Some o => suicided o end, s).

Definition GetLogs (s : StateDB) (hash : Hash) : list Log := default [] (logs s !! hash).

(** ** Snapshots *)

Definition ripemd : Address := BytesToN AddressLength (replicate 19 0 ++ [3]).

(** [undo] of each entry; [None] is the use of a missing object. *)
Definition undo (e : journalEntry) (s : StateDB) : option StateDB :=
  match e with
  | createObjectChange a =>
      Some (with_objects s (delete a (stateObjects s)) (stateObjectsDirty s ∖ {[ a ]}))
  | resetObjectChange prev => Some (setStateObject s prev)
  | suicideChange a prev prevbalance =>
      match getStateObject s a with
      | (None, s) => Some s
      | (Some o, s) =>
          Some (store_object (obj_setBalance s (set_flags o prev (touched o) (deleted o) (onDirty o)) prevbalance))
      end
  | touchChange a prev prevDirty =>
      if negb prev && bool_decide (a <> ripemd) then
        match getStateObject s a with
        | (None, _) => None
        | (Some o, s) =>
            let s := setStateObject s (set_flags o (suicided o) prev (deleted o) (onDirty o)) in
            Some (if prevDirty then s else with_objects s (stateObjects s) (stateObjectsDirty s ∖ {[ a ]}))
        end
      else Some s
  | balanceChange a prev =>
      match getStateObject s a with
      | (None, _) => None
      | (Some o, s) => Some (store_object (obj_setBalance s o prev))
      end
  | nonceChange a prev =>
      match getStateObject s a with
      | (None, _) => None
      | (Some o, s) => Some (store_object (obj_setNonce s o prev))
      end
  | codeChange a prevcode prevhash =>
      match getStateObject s a with
      | (None, _) => None
      | (Some o, s) => Some (store_object (obj_setCode s o (BytesToHash prevhash) prevcode))
      end
  | storageChange a key prevalue =>
      match getStateObject s a with
      | (None, _) => None
      | (Some o, s) => Some (store_object (obj_setState s o key prevalue))
      end
  | refundChange prev => Some (with_refund s prev)
  | addLogChange txhash =>
      let l := default [] (logs s !! txhash) in
      if (length l =? 1)%nat then Some (with_logs s (delete txhash (logs s)) (u64 (logSize s - 1)))
      else
        match l with
        | [] => None
        | _ => Some (with_logs s (<[txhash := take (length l - 1) l]> (logs s)) (u64 (logSize s - 1)))
        end
  | addPreimageChange hash => Some (with_preimages s (delete hash (preimages s)))
  end.

(** The loop from the newest entry down. *)
Fixpoint undo_all (es : list journalEntry) (s : StateDB) : option StateDB :=
  match es with
  | [] => Some s
  | e :: es' => s ← undo e s; undo_all es' s
  end.

Definition Snapshot (s : StateDB) : Z * StateDB :=
  let id := nextRevisionId s in
  (id, with_journal s (journal s) (validRevisions s ++ [mkRevision id (length (journal s))]) (id + 1)).

Definition RevertToSnapshot (s : StateDB) (revid : Z) : option StateDB :=
  let idx := sort_Search (length (validRevisions s))
    (fun i => match validRevisions s !! i with Some r => revid <=? rid r | None => true end) in
  match validRevisions s !! idx with
  | None => None
  | Some r =>
      if negb (rid r =? revid) then None
      else
        let j := journal s in
        s ← undo_all (take (length j - journalIndex r) j) s;
        Some (with_journal s (drop (length j - journalIndex r) j) (take idx (validRevisions s)) (nextRevisionId s))
  end.

Definition clearJournalAndRefund (s : StateDB) : StateDB :=
  with_refund (with_journal s [] [] (nextRevisionId s)) 0.

(** ** Writing to the tries *)

Context {MO : MapOrder}.

(** [bytes.TrimLeft(value[:], "\x00")] *)
Fixpoint trim_left (b : list Z) : list Z :=
  match b with
  | x :: b' => if x =? 0 then trim_left b' else b
  | [] => []
  end.

(** One dirty slot written to the storage trie. *)
Definition write_slot (tr : trie) (key value : Hash) : trie * option state_error :=
  if bool_decide (value = zeroHash) then
    let '(tr, e) := TryDelete tr key in (tr, DbError <$> e)
  else
    let v := match EncodeToBytes (VBytes (trim_left value)) with Ok v => v | _ => [] end in
    let '(tr, e) := TryUpdate tr key v in (tr, DbError <$> e).

Fixpoint write_slots (kvs : list (Hash * Hash)) (tr : trie) (o : stateObject) : trie * stateObject :=
  match kvs with
  | [] => (tr, o)
  | (key, value) :: kvs' =>
      let o := set_storage o (cachedStorage o) (delete key (dirtyStorage o)) in
      let '(tr, e) := write_slot tr key value in
      write_slots kvs' tr (obj_setError o e)
  end.

Definition updateTrie (o : stateObject) : option (trie * stateObject) :=
  '(tr, o) ← getTrie o;
  let '(tr, o) := write_slots (range_map (dirtyStorage o)) tr o in
  Some (tr, set_otrie o (Some tr)).

Definition set_root (o : stateObject) (root : Hash) : stateObject :=
  set_data o (mkAccount (aNonce (data o)) (aBalance (data o)) root (aCodeHash (data o))).

Definition updateRoot (o : stateObject) : option stateObject :=
  '(tr, o) ← updateTrie o;
  Some (set_root o (Hash_of tr)).

(** [updateStateObject]; an account that cannot be encoded is a panic. *)
Definition updateStateObject (s : StateDB) (o : stateObject) : option StateDB :=
  match encodeAccount (data o) with
  | Ok enc => let '(tr, e) := TryUpdate (strie s) (address o) enc in Some (setError (with_trie s tr) (DbError <$> e))
  | _ => None
  end.

Definition deleteStateObject (s : StateDB) (o : stateObject) : StateDB :=
  let s := setStateObject s (set_flags o (suicided o) (touched o) true (onDirty o)) in
  let '(tr, e) := TryDelete (strie s) (address o) in
  setError (with_trie s tr) (DbError <$> e).

Definition finalise_one (deleteEmptyObjects : bool) (s : StateDB) (addr : Address) : option StateDB :=
  o ← stateObjects s !! addr;
  if suicided o || (deleteEmptyObjects && empty o) then Some (deleteStateObject s o)
  else
    o ← updateRoot o;
    updateStateObject (setStateObject s o) o.

Fixpoint finalise_all (deleteEmptyObjects : bool) (addrs : list Address) (s : StateDB) : option StateDB :=
  match addrs with
  | [] => Some s
  | a :: addrs' => s ← finalise_one deleteEmptyObjects s a; finalise_all deleteEmptyObjects addrs' s
  end.

(** The dirty addresses, in the order of the map. *)
Definition range_dirty (s : StateDB) : list Address := (range_map (gset_to_gmap () (stateObjectsDirty s))).*1.

Definition Finalise (s : StateDB) (deleteEmptyObjects : bool) : option StateDB :=
  s ← finalise_all deleteEmptyObjects (range_dirty s) s;
  Some (clearJournalAndRefund s).

Definition IntermediateRoot (s : StateDB) (deleteEmptyObjects : bool) : option (Hash * StateDB) :=
  s ← Finalise s deleteEmptyObjects;
  Some (Hash_of (strie s), s).

Definition Reset (s : StateDB) (root : Hash) : option db_error * StateDB :=
  match OpenTrie root with
  | inl e => (Some e, s)
  | inr tr => (None, clearJournalAndRefund
      (mkState tr ∅ ∅ (dbErr s) (refund s) zeroHash zeroHash 0 ∅ 0 ∅ (journal s) (validRevisions s) (nextRevisionId s)))
  end.

(** [deepCopy]; the trie copy is a value. *)
Definition deepCopy (o : stateObject) (dirty : bool) : stateObject :=
  mkObject (address o) (data o) None (otrie o) (code o) (dirtyStorage o) (dirtyStorage o)
    (dirtyCode o) (suicided o) false (deleted o) dirty.

(** [StorageTrie]: of a copy, so that the state keeps its own. *)
Definition StorageTrie (s : StateDB) (a : Address) : option (option trie * StateDB) :=
  let '(o, s) := getStateObject s a in
  match o with
  | None => Some (None, s)
  | Some o => '(tr, _) ← updateTrie (deepCopy o false); Some (Some tr, s)
  end.

(** [Copy]: the dirty objects only; a dirty address without object is a
    panic.  The account trie is shared with the original. *)
Fixpoint copy_objects (addrs : list Address) (s : StateDB) (c : StateDB) : option StateDB :=
  match addrs with
  | [] => Some c
  | a :: addrs' =>
      o ← stateObjects s !! a;
      copy_objects addrs' s (with_objects c (<[a := deepCopy o true]> (stateObjects c)) ({[ a ]} ∪ stateObjectsDirty c))
  end.

Definition Copy (s : StateDB) : option StateDB :=
  copy_objects (range_dirty s) s
    (mkState (strie s) ∅ ∅ None (refund s) zeroHash zeroHash 0 (logs s) (logSize s) (preimages s) [] [] 0).

Fixpoint flag_suicides (addrs : list Address) (s : StateDB) : option StateDB :=
  match addrs with
  | [] => Some s
  | a :: addrs' =>
      o ← stateObjects s !! a;
      let s := if suicided o then setStateObject s (set_flags o (suicided o) (touched o) true (onDirty o)) else s in
      flag_suicides addrs' (with_objects s (stateObjects s) (stateObjectsDirty s ∖ {[ a ]}))
  end.

Definition DeleteSuicides (s : StateDB) : option StateDB :=
  let s := clearJournalAndRefund s in flag_suicides (range_dirty s) s.

(** ** Committing *)

Inductive commit_error := CommitDb (e : db_error) | CommitObject (e : state_error).

Definition CommitTrie (o : stateObject) (w : dbw) : option (option commit_error * stateObject * dbw) :=
  '(tr, o) ← updateTrie o;
  match odbErr o with
  | Some e => Some (Some (CommitObject e), o, w)
  | None =>
      match Trie_CommitTo tr w with
      | inl e => Some (Some (CommitDb e), o, w)
      | inr (root, tr, w) => Some (None, set_root (set_otrie o (Some tr)) root, w)
      end
  end.

(** One live object of the loop of [CommitTo]. *)
Definition commit_one (deleteEmptyObjects : bool) (s : StateDB) (w : dbw) (addr : Address) (o : stateObject)
    : option (option commit_error * StateDB * dbw) :=
  let isDirty := bool_decide (addr ∈ stateObjectsDirty s) in
  let done (r : option commit_error * StateDB * dbw) :=
    let '(e, s, w) := r in (e, with_objects s (stateObjects s) (stateObjectsDirty s ∖ {[ addr ]}), w) in
  if suicided o || (isDirty && deleteEmptyObjects && empty o) then Some (done (None, deleteStateObject s o, w))
  else if isDirty then
    let code_put := match code o with
                    | Some c => if dirtyCode o then Some (Put w (aCodeHash (data o)) c) else None
                    | None => None
                    end in
    match code_put with
    | Some (inl e) => Some (Some (CommitDb e), s, w)
    | _ =>
        let '(o, w) := match code_put with
                       | Some (inr w) => (set_code o (code o) false, w)
                       | _ => (o, w)
                       end in
        '(e, o, w) ← CommitTrie o w;
        match e with
        | Some e => Some (Some e, setStateObject s o, w)
        | None => s ← updateStateObject (setStateObject s o) o; Some (done (None, s, w))
        end
    end
  else Some (done (None, s, w)).

Fixpoint commit_all (deleteEmptyObjects : bool) (objs : list (Address * stateObject)) (s : StateDB) (w : dbw)
    : option (option commit_error * StateDB * dbw) :=
  match objs with
  | [] => Some (None, s, w)
  | (a, o) :: objs' =>
      '(e, s, w) ← commit_one deleteEmptyObjects s w a o;
      match e with
      | Some e => Some (Some e, s, w)
      | None => commit_all deleteEmptyObjects objs' s w
      end
  end.

(** [CommitTo]: the root or the error, the state, the writer. *)
Definition CommitTo (s : StateDB) (w : dbw) (deleteEmptyObjects : bool)
    : option ((commit_error + Hash) * StateDB * dbw) :=
  '(e, s, w) ← commit_all deleteEmptyObjects (range_map (stateObjects s)) s w;
  match e with
  | Some e => Some (inl e, clearJournalAndRefund s, w)
  | None =>
      match Trie_CommitTo (strie s) w with
      | inl e => Some (inl (CommitDb e), clearJournalAndRefund s, w)
      | inr (root, tr, w) => Some (inr root, clearJournalAndRefund (with_trie s tr), w)
      end
  end.

End State.
