(* ===== verification/StateRevert.v ===== *)
(** * Snapshots restore the state

    Two states are equivalent when no read tells them apart.  Undoing the
    journal entries of an operation leads back to a state equivalent to the
    one before it, whatever happened in between was undone first; hence
    [RevertToSnapshot] undoes everything since the snapshot. *)
From S2P Require Import Prelude Rlp RlpStream Types State.

Section Revert.
Context {DB : Database}.
Implicit Types (s t u : StateDB) (o : stateObject) (a : Address) (e : journalEntry).

(** ** What can be read of an object and of a state *)

Definition slot o (key : Hash) : option Hash := fst <$> obj_GetState o key.
Definition codeof o : option (list Z) := (obj_Code o).1.

Record obj_eq o o' : Prop := mk_obj_eq {
  eq_address : address o = address o';
  eq_data : data o = data o';
  eq_code : codeof o = codeof o';
  eq_slot key : slot o key = slot o' key;
  eq_suicided : suicided o = suicided o'
}.

Definition lookup_obj s a : option stateObject := (getStateObject s a).1.

Record frame s s' : Prop := mk_frame {
  fr_trie : strie s = strie s';
  fr_refund : refund s = refund s';
  fr_thash : thash s = thash s';
  fr_bhash : bhash s = bhash s';
  fr_txIndex : txIndex s = txIndex s';
  fr_logs h : GetLogs s h = GetLogs s' h;
  fr_logSize : logSize s = logSize s';
  fr_preimages : preimages s = preimages s'
}.

Record state_eq s s' : Prop := mk_state_eq {
  se_frame : frame s s';
  se_obj a : option_Forall2 obj_eq (lookup_obj s a) (lookup_obj s' a)
}.

#[export] Instance obj_eq_equiv : Equivalence obj_eq.
Proof.
  split.
  - by constructor.
  - intros o o' []. by constructor.
  - intros o1 o2 o3 [] []. constructor; congruence.
Qed.

#[export] Instance frame_equiv : Equivalence frame.
Proof.
  split.
  - by constructor.
  - intros s s' []. by constructor.
  - intros s1 s2 s3 [] []. constructor; congruence.
Qed.

#[export] Instance state_eq_equiv : Equivalence state_eq.
Proof.
  split.
  - intros s. constructor; [done|]. intros a. destruct (lookup_obj s a); by constructor.
  - intros s s' [Hf Ho]. constructor; [by symmetry|]. intros a. destruct (Ho a); constructor. by symmetry.
  - intros s1 s2 s3 [Hf Ho] [Hf' Ho']. constructor; [by etrans|]. intros a. specialize (Ho a). specialize (Ho' a).
    destruct Ho; inversion Ho'; subst; constructor. by etrans.
Qed.

(** ** Looking objects up *)

Definition live o : option stateObject := if deleted o then None else Some o.

Definition loaded_obj (tr : trie) a : option stateObject := newObject a <$> loadAccount tr a.

Lemma lookup_obj_eq s a :
  lookup_obj s a = match stateObjects s !! a with
                   | Some o => live o
                   | None => loaded_obj (strie s) a
                   end.
Proof.
  unfold lookup_obj, getStateObject, loaded_obj, loadAccount. destruct (stateObjects s !! a); [done|].
  destruct (TryGet (strie s) a) as [ [ [|x enc]|] err]; [done| |done]. simpl. by destruct (decodeAccount _).
Qed.

(** Same objects, same trie: same lookups. *)
Lemma lookup_obj_ext s s' a :
  stateObjects s !! a = stateObjects s' !! a -> strie s = strie s' -> lookup_obj s a = lookup_obj s' a.
Proof. intros E1 E2. by rewrite !lookup_obj_eq, E1, E2. Qed.

Lemma lookup_obj_live s a o : lookup_obj s a = Some o -> deleted o = false.
Proof.
  rewrite lookup_obj_eq. destruct (stateObjects s !! a) as [o'|].
  - unfold live. destruct (deleted o') eqn:E; [done|]. by intros [= <-].
  - unfold loaded_obj. destruct (loadAccount _ _); [|done]. by intros [= <-].
Qed.

(** ** The invariant *)

Definition entry_ok e : Prop :=
  match e with
  | resetObjectChange prev => deleted prev = false /\ length (aCodeHash (data prev)) = 32%nat
  | codeChange _ _ prevhash => length prevhash = 32%nat
  | _ => True
  end.

Record revs_ok (l : list revision) (next : Z) (len : nat) : Prop := mk_revs_ok {
  rv_id (i j : nat) r r' : (i < j)%nat -> l !! i = Some r -> l !! j = Some r' ->
    rid r < rid r' /\ (journalIndex r <= journalIndex r')%nat;
  rv_top (i : nat) r : l !! i = Some r -> rid r < next /\ (journalIndex r <= len)%nat
}.

(** The objects: filed under their address, code hashes of 32 bytes, and
    deleted objects are gone from the trie. *)
Record owf s : Prop := mk_owf {
  sw_addr a o : stateObjects s !! a = Some o -> address o = a;
  sw_hash a o : stateObjects s !! a = Some o -> length (aCodeHash (data o)) = 32%nat;
  sw_load a acc : loadAccount (strie s) a = Some acc -> length (aCodeHash acc) = 32%nat;
  sw_gone a o : stateObjects s !! a = Some o -> deleted o = true -> loadAccount (strie s) a = None;
  sw_log : 0 <= logSize s < 2 ^ 64
}.

Record swf s : Prop := mk_swf {
  sw_objects : owf s;
  sw_journal : Forall entry_ok (journal s);
  sw_revs : revs_ok (validRevisions s) (nextRevisionId s) (length (journal s))
}.

Lemma lookup_obj_ok s a o :
  owf s -> lookup_obj s a = Some o -> address o = a /\ deleted o = false /\ length (aCodeHash (data o)) = 32%nat.
Proof.
  intros Hw Hl. pose proof (lookup_obj_live _ _ _ Hl) as Hd. rewrite lookup_obj_eq in Hl.
  destruct (stateObjects s !! a) as [o'|] eqn:E.
  - unfold live in Hl. destruct (deleted o'); [done|]. injection Hl as <-.
    split; [by apply (sw_addr s Hw)|]. split; [done|by apply (sw_hash s Hw a)].
  - unfold loaded_obj in Hl. destruct (loadAccount _ _) as [acc|] eqn:El; [|done]. injection Hl as <-.
    split; [done|]. split; [done|]. by apply (sw_load s Hw a).
Qed.

(** ** Reading an object *)

Definition obj_trie o : option trie := fst <$> getTrie o.

Definition trie_slot (tr : trie) (key : Hash) : option Hash :=
  match TryGet tr key with
  | (_, Some _) => Some zeroHash
  | (enc, None) => fst <$> decode_slot enc
  end.

Lemma slot_eq o key :
  slot o key = match cachedStorage o !! key with
               | Some v => Some v
               | None => tr ← obj_trie o; trie_slot tr key
               end.
Proof.
  unfold slot, obj_GetState, obj_trie, trie_slot. destruct (cachedStorage o !! key); [done|].
  destruct (getTrie o) as [ [tr o1]|]; [|done]. cbn [mbind option_bind fmap option_fmap option_map fst].
  destruct (TryGet tr key) as [enc [err|] ]; [done|]. destruct (decode_slot enc) as [ [v err]|]; [|done].
  cbn [mbind option_bind]. by case_bool_decide.
Qed.

Lemma codeof_eq o :
  codeof o = match code o with
             | Some c => Some c
             | None => if bool_decide (aCodeHash (data o) = emptyCodeHash) then None
                       else (ContractCode (addrHash o) (BytesToHash (aCodeHash (data o)))).1
             end.
Proof.
  unfold codeof, obj_Code. destruct (code o); [done|]. case_bool_decide; [done|]. by destruct (ContractCode _ _).
Qed.

(** What the storage trie depends on. *)
Lemma obj_trie_ext o o' :
  otrie o = otrie o' -> address o = address o' -> aRoot (data o) = aRoot (data o') -> obj_trie o = obj_trie o'.
Proof.
  unfold obj_trie, getTrie, addrHash. intros E1 E2 E3. rewrite <-E1, <-E2, <-E3. destruct (otrie o); [done|].
  destruct (OpenStorageTrie _ (aRoot (data o))); [|done]. by destruct (OpenStorageTrie _ _).
Qed.

Lemma getTrie_obj o tr o1 :
  getTrie o = Some (tr, o1) ->
  obj_trie o1 = Some tr /\ obj_trie o = Some tr /\ cachedStorage o1 = cachedStorage o /\ address o1 = address o /\
  data o1 = data o /\ code o1 = code o /\ suicided o1 = suicided o /\ deleted o1 = deleted o.
Proof.
  intros E. assert (obj_trie o = Some tr) as Ho by (unfold obj_trie; by rewrite E).
  assert (otrie o1 = Some tr) as Ht.
  { unfold getTrie in E. destruct (otrie o) eqn:Eo; [by injection E as <- <-|].
    destruct (OpenStorageTrie (addrHash o) (aRoot (data o))); [|by injection E as <- <-].
    destruct (OpenStorageTrie _ _); [done|]. by injection E as <- <-. }
  split; [unfold obj_trie, getTrie; by rewrite Ht|]. split; [done|]. revert E. unfold getTrie.
  destruct (otrie o); [by intros [= <- <-]|]. destruct (OpenStorageTrie (addrHash o) (aRoot (data o))).
  - destruct (OpenStorageTrie _ _); [done|]. by intros [= <- <-].
  - by intros [= <- <-].
Qed.

Lemma obj_GetState_eq o key v o1 :
  obj_GetState o key = Some (v, o1) -> slot o key = Some v /\ obj_eq o1 o /\ deleted o1 = deleted o.
Proof.
  intros E. split; [unfold slot; by rewrite E|]. unfold obj_GetState in E.
  destruct (cachedStorage o !! key) as [w|] eqn:Hc; [by injection E as <- <-|].
  destruct (getTrie o) as [ [tr o2]|] eqn:Ht; [|done]. rewrite some_bind in E.
  destruct (getTrie_obj _ _ _ Ht) as (T1 & T2 & C & A & D & Co & S & De).
  assert (forall o3, otrie o3 = otrie o2 -> address o3 = address o2 -> data o3 = data o2 -> code o3 = code o2 ->
    suicided o3 = suicided o2 -> deleted o3 = deleted o2 -> 
    (forall k, cachedStorage o3 !! k = cachedStorage o2 !! k \/ (k = key /\ exists w, cachedStorage o3 !! k = Some w /\ trie_slot tr key = Some w)) ->
    obj_eq o3 o /\ deleted o3 = deleted o) as H3.
  { intros o3 X1 X2 X3 X4 X5 X6 X7. split; [|congruence]. constructor; [congruence|congruence| | |congruence].
    - rewrite !codeof_eq. unfold addrHash. by rewrite X4, Co, X3, D, X2, A.
    - intros k. rewrite !slot_eq. assert (obj_trie o3 = Some tr) as -> by (rewrite <-T1; apply obj_trie_ext; congruence).
      rewrite T2, !some_bind. destruct (X7 k) as [->|[-> (w & -> & Hw)] ]; [by rewrite C|]. by rewrite Hc. }
  destruct (TryGet tr key) as [enc [err|] ] eqn:Hg.
  - injection E as <- <-. apply H3; try done. intros k. by left.
  - destruct (decode_slot enc) as [ [w err]|] eqn:Hd; [|done]. rewrite some_bind in E.
    destruct (bool_decide (w <> zeroHash)); injection E as <- <-; (apply H3; try done); [|intros k; by left].
    intros k. simpl. destruct (decide (k = key)) as [->|Hk]; [|left; by rewrite lookup_insert_ne].
    right. split; [done|]. exists w. rewrite lookup_insert_eq. split; [done|]. unfold trie_slot. by rewrite Hg, Hd.
Qed.

Lemma obj_Code_eq o c o1 :
  obj_Code o = (c, o1) -> codeof o = c /\ obj_eq o1 o /\ deleted o1 = deleted o.
Proof.
  intros E. split; [unfold codeof; by rewrite E|]. unfold obj_Code in E.
  destruct (code o) as [c0|] eqn:Hc; [by injection E as <- <-|].
  destruct (bool_decide _) eqn:Hb; [by injection E as <- <-|].
  destruct (ContractCode _ _) as [c' err] eqn:Hcc. injection E as <- <-. split; [|done].
  constructor; [done|done| | |done].
  - rewrite !codeof_eq. simpl. unfold addrHash in *. simpl. rewrite Hc, Hb, Hcc. simpl. by destruct c'.
  - intros key. rewrite !slot_eq. simpl. by rewrite (obj_trie_ext _ o) by done.
Qed.

(** Same fields, same reads. *)
Lemma obj_eq_fields o o' :
  address o = address o' -> data o = data o' -> otrie o = otrie o' -> code o = code o' ->
  cachedStorage o = cachedStorage o' -> suicided o = suicided o' -> obj_eq o o'.
Proof.
  intros E1 E2 E3 E4 E5 E6. constructor; [done|done| | |done].
  - rewrite !codeof_eq. unfold addrHash. by rewrite E1, E2, E4.
  - intros key. rewrite !slot_eq, E5. by rewrite (obj_trie_ext o o') by congruence.
Qed.

(** ** Writing an object *)

Definition rest s := (strie s, refund s, thash s, bhash s, txIndex s, logs s, logSize s, preimages s).
Definition hist s := (journal s, validRevisions s, nextRevisionId s).

Lemma rest_frame s s' : rest s = rest s' -> frame s s'.
Proof. intros [= E1 E2 E3 E4 E5 E6 E7 E8]. constructor; try done. intros h. unfold GetLogs. by rewrite E6. Qed.

(** [s'] is [s] with [o], up to equivalence, as the object at [a]. *)
Definition puts s a o s' : Prop :=
  exists o1, obj_eq o1 o /\ deleted o1 = deleted o /\
    stateObjects s' = <[a := o1]> (stateObjects s) /\ rest s' = rest s.

Lemma puts_lookup s a o s' :
  puts s a o s' -> deleted o = false ->
  (exists o1, lookup_obj s' a = Some o1 /\ obj_eq o1 o) /\ forall b, b <> a -> lookup_obj s' b = lookup_obj s b.
Proof.
  intros (o1 & He & Hd & Ho & Hr) Hdel. split.
  - exists o1. split; [|done]. rewrite lookup_obj_eq, Ho, lookup_insert_eq. unfold live. by rewrite Hd, Hdel.
  - intros b Hb. apply lookup_obj_ext; [by rewrite Ho, lookup_insert_ne|]. by injection Hr.
Qed.

Lemma puts_state_eq s t a o o' s' t' :
  state_eq s t -> obj_eq o o' -> deleted o = false -> deleted o' = false ->
  puts s a o s' -> puts t a o' t' -> state_eq s' t'.
Proof.
  intros [Hf Hl] He Hd Hd' Hs Ht.
  destruct (puts_lookup _ _ _ _ Hs Hd) as [(o1 & E1 & He1) Hne], (puts_lookup _ _ _ _ Ht Hd') as [(o2 & E2 & He2) Hne'].
  destruct Hs as (_ & _ & _ & _ & Hrs), Ht as (_ & _ & _ & _ & Hrt). constructor.
  - rewrite (rest_frame _ _ Hrs), (rest_frame _ _ Hrt). done.
  - intros b. destruct (decide (b = a)) as [->|Hb]; [|by rewrite Hne, Hne' by done].
    rewrite E1, E2. constructor. rewrite He1, He2. done.
Qed.

Lemma puts_back s a o o' o'' s' t :
  lookup_obj s a = Some o -> puts s a o' s' -> puts s' a o'' t -> obj_eq o'' o -> deleted o'' = false ->
  state_eq t s.
Proof.
  intros Hl (o1 & _ & _ & Ho1 & Hr1) Ht He Hd.
  destruct (puts_lookup _ _ _ _ Ht Hd) as [(o2 & E2 & He2) Hne]. destruct Ht as (_ & _ & _ & _ & Hrt). constructor.
  - apply rest_frame. by rewrite Hrt.
  - intros b. destruct (decide (b = a)) as [->|Hb]; [rewrite E2, Hl; constructor; by rewrite He2|].
    rewrite Hne by done. rewrite (lookup_obj_ext s' s b); [|by rewrite Ho1, lookup_insert_ne|by injection Hr1].
    by destruct (lookup_obj s b); constructor.
Qed.

Lemma mark_dirty_spec s o s1 o1 :
  mark_dirty s o = (s1, o1) ->
  stateObjects s1 = stateObjects s /\ rest s1 = rest s /\ hist s1 = hist s /\ obj_eq o1 o /\ deleted o1 = deleted o.
Proof.
  unfold mark_dirty. destruct (onDirty o); [|by intros [= <- <-]]. intros [= <- <-].
  split; [done|]. split; [done|]. split; [done|]. split; [|done]. by apply obj_eq_fields.
Qed.

Lemma store_dirty s o a :
  address o = a -> puts s a o (store_object (mark_dirty s o)) /\ hist (store_object (mark_dirty s o)) = hist s.
Proof.
  intros Ha. destruct (mark_dirty s o) as [s1 o1] eqn:E.
  destruct (mark_dirty_spec _ _ _ _ E) as (Ho & Hr & Hh & He & Hd). split; [|done]. exists o1.
  split; [done|]. split; [done|]. unfold store_object, setStateObject. simpl.
  rewrite Ho, (eq_address _ _ He), Ha. done.
Qed.

Lemma getStateObject_Some s a o s1 :
  getStateObject s a = (Some o, s1) ->
  lookup_obj s a = Some o /\ stateObjects s1 = <[a := o]> (stateObjects s) /\ rest s1 = rest s /\ hist s1 = hist s.
Proof.
  intros E. split; [unfold lookup_obj; by rewrite E|]. unfold getStateObject in E.
  destruct (stateObjects s !! a) as [o'|] eqn:Ho.
  - destruct (deleted o'); [done|]. injection E as -> <-. by rewrite insert_id.
  - destruct (TryGet (strie s) a) as [ [ [|x enc]|] err]; [done| |done].
    destruct (decodeAccount _); [|done]. injection E as <- <-. done.
Qed.

Lemma getStateObject_None s a s1 :
  getStateObject s a = (None, s1) ->
  lookup_obj s a = None /\ stateObjects s1 = stateObjects s /\ rest s1 = rest s /\ hist s1 = hist s.
Proof.
  intros E. split; [unfold lookup_obj; by rewrite E|]. unfold getStateObject in E.
  destruct (stateObjects s !! a) as [o'|] eqn:Ho.
  - destruct (deleted o'); [|done]. by injection E as <-.
  - destruct (TryGet (strie s) a) as [ [ [|x enc]|] err]; [by injection E as <-| |by injection E as <-].
    destruct (decodeAccount _); [done|]. by injection E as <-.
Qed.

(** Loading an object changes nothing that can be read. *)
Lemma getStateObject_eq s a r s1 :
  getStateObject s a = (r, s1) ->
  r = lookup_obj s a /\ state_eq s1 s /\ hist s1 = hist s /\ (forall b, lookup_obj s1 b = lookup_obj s b).
Proof.
  intros E. assert (r = lookup_obj s a /\ rest s1 = rest s /\ hist s1 = hist s /\
    forall b, lookup_obj s1 b = lookup_obj s b) as (H1 & H2 & H3 & H4).
  { destruct r as [o|].
    - destruct (getStateObject_Some _ _ _ _ E) as (Hl & Ho & Hr & Hh). split; [done|]. split; [done|]. split; [done|].
      intros b. destruct (decide (b = a)) as [->|Hb].
      + rewrite Hl, lookup_obj_eq, Ho, lookup_insert_eq. unfold live. by rewrite (lookup_obj_live _ _ _ Hl).
      + apply lookup_obj_ext; [by rewrite Ho, lookup_insert_ne|by injection Hr].
    - destruct (getStateObject_None _ _ _ E) as (Hl & Ho & Hr & Hh). split; [done|]. split; [done|]. split; [done|].
      intros b. apply lookup_obj_ext; [by rewrite Ho|by injection Hr]. }
  split; [done|]. split; [|done]. constructor; [by apply rest_frame|]. intros b. rewrite H4.
  by destruct (lookup_obj s b); constructor.
Qed.

(** ** Undoing respects the equivalence *)

Definition with_balance o (b : Z) : stateObject :=
  set_data o (mkAccount (aNonce (data o)) b (aRoot (data o)) (aCodeHash (data o))).
Definition with_nonce o (n : Z) : stateObject :=
  set_data o (mkAccount n (aBalance (data o)) (aRoot (data o)) (aCodeHash (data o))).
Definition with_code o (h : Hash) (c : option (list Z)) : stateObject :=
  set_code (set_data o (mkAccount (aNonce (data o)) (aBalance (data o)) (aRoot (data o)) h)) c true.
Definition with_slot o (key value : Hash) : stateObject :=
  set_storage o (<[key := value]> (cachedStorage o)) (<[key := value]> (dirtyStorage o)).

(** The object and the change of it that an entry undoes with. *)
Definition undo_fun e : option (Address * (stateObject -> stateObject)) :=
  match e with
  | suicideChange a prev b =>
      Some (a, fun o => with_balance (set_flags o prev (touched o) (deleted o) (onDirty o)) b)
  | balanceChange a b => Some (a, fun o => with_balance o b)
  | nonceChange a n => Some (a, fun o => with_nonce o n)
  | codeChange a c h => Some (a, fun o => with_code o (BytesToHash h) c)
  | storageChange a key v => Some (a, fun o => with_slot o key v)
  | touchChange a prev _ =>
      if negb prev && bool_decide (a <> ripemd)
      then Some (a, fun o => set_flags o (suicided o) prev (deleted o) (onDirty o)) else None
  | _ => None
  end.

Definition is_suicide e : bool := match e with suicideChange _ _ _ => true | _ => false end.

Lemma slot_with_slot o key value k :
  slot (with_slot o key value) k = if decide (k = key) then Some value else slot o k.
Proof.
  rewrite !slot_eq. simpl. destruct (decide (k = key)) as [->|Hk]; [by rewrite lookup_insert_eq|].
  rewrite lookup_insert_ne by done. by rewrite (obj_trie_ext _ o) by done.
Qed.

(** Changing fields other than the storage. *)
Lemma obj_eq_change o o' p p' :
  obj_eq o o' -> otrie p = otrie o -> cachedStorage p = cachedStorage o -> aRoot (data p) = aRoot (data o) ->
  address p = address o -> otrie p' = otrie o' -> cachedStorage p' = cachedStorage o' ->
  aRoot (data p') = aRoot (data o') -> address p' = address o' ->
  data p = data p' -> codeof p = codeof p' -> suicided p = suicided p' -> obj_eq p p'.
Proof.
  intros He A1 A2 A3 A4 B1 B2 B3 B4 E1 E2 E3. pose proof (eq_address _ _ He).
  constructor; [congruence|done|done| |done]. intros key. pose proof (eq_slot _ _ He key) as Hs.
  rewrite !slot_eq in *. rewrite A2, B2, (obj_trie_ext p o), (obj_trie_ext p' o') by done. done.
Qed.

Lemma codeof_same o o' p p' :
  obj_eq o o' -> address p = address o -> address p' = address o' -> code p = code o -> code p' = code o' ->
  aCodeHash (data p) = aCodeHash (data o) -> aCodeHash (data p') = aCodeHash (data o') -> codeof p = codeof p'.
Proof.
  intros He A1 A2 A3 A4 A5 A6. pose proof (eq_code _ _ He) as Hc. rewrite !codeof_eq in *. unfold addrHash in *.
  by rewrite A1, A2, A3, A4, A5, A6.
Qed.

Lemma undo_fun_proper e a f o o' :
  undo_fun e = Some (a, f) -> obj_eq o o' ->
  obj_eq (f o) (f o') /\ deleted (f o) = deleted o /\ address (f o) = address o.
Proof.
  intros Ef He. pose proof (eq_data _ _ He) as Hd. pose proof (eq_address _ _ He) as Ha.
  destruct e; try discriminate Ef; cbn [undo_fun] in Ef;
    [| | | | |destruct (negb prev && _); [|discriminate Ef] ]; injection Ef as <- <-; (split; [|done]).
  - apply (obj_eq_change o o'); try done; [simpl; congruence|by apply (codeof_same o o')].
  - apply (obj_eq_change o o'); try done; [simpl; congruence|by apply (codeof_same o o')|apply He].
  - apply (obj_eq_change o o'); try done; [simpl; congruence|by apply (codeof_same o o')|apply He].
  - constructor; [done|done|by apply (codeof_same o o')| |apply He]. intros k. rewrite !slot_with_slot.
    by rewrite (eq_slot _ _ He).
  - apply (obj_eq_change o o'); try done; [simpl; congruence| |apply He].
    rewrite !codeof_eq. simpl. unfold addrHash. simpl. by rewrite Ha.
  - apply (obj_eq_change o o'); try done; [by apply (codeof_same o o')|apply He].
Qed.

(** What [undo] does with an entry of an object that is there. *)
Lemma undo_puts e a f s o :
  undo_fun e = Some (a, f) -> lookup_obj s a = Some o -> address o = a ->
  exists t, undo e s = Some t /\ puts s a (f o) t /\ hist t = hist s.
Proof.
  intros Ef Hl Ha. destruct (getStateObject s a) as [r s1] eqn:Eg.
  destruct (getStateObject_eq _ _ _ _ Eg) as (Er & _ & Hh & _). rewrite Hl in Er. subst r.
  destruct (getStateObject_Some _ _ _ _ Eg) as (_ & Ho & Hr & _).
  assert (forall o', address o' = a -> puts s a o' (store_object (mark_dirty s1 o')) /\
    hist (store_object (mark_dirty s1 o')) = hist s) as Hst.
  { intros o' Ho'. destruct (store_dirty s1 o' a Ho') as [(o1 & H1 & H2 & H3 & H4) H5].
    split; [|by rewrite H5]. exists o1. split; [done|]. split; [done|]. rewrite H3, Ho, H4. by rewrite insert_insert_eq. }
  destruct e; try discriminate Ef; cbn [undo_fun] in Ef;
    [| | | | |destruct (negb prev && _) eqn:Ep; [|discriminate Ef] ]; injection Ef as <- <-; unfold undo; rewrite Eg;
    [eexists; split; [reflexivity|]; by apply Hst..|].
  rewrite Ep. eexists. split; [reflexivity|]. split.
  - eexists. split; [reflexivity|]. split; [reflexivity|]. destruct prevDirty; simpl; rewrite Ha, Ho, insert_insert_eq;
      (split; [done|exact Hr]).
  - destruct prevDirty; exact Hh.
Qed.

Definition addr_ok s : Prop := forall a o, lookup_obj s a = Some o -> address o = a.

Lemma state_eq_lookup s s' a o :
  state_eq s s' -> lookup_obj s a = Some o -> exists o', lookup_obj s' a = Some o' /\ obj_eq o o'.
Proof. intros Hs Hl. pose proof (se_obj _ _ Hs a) as H. rewrite Hl in H. inversion H; subst. eauto. Qed.

Lemma state_eq_addr_ok s s' : state_eq s s' -> addr_ok s -> addr_ok s'.
Proof.
  intros Hs Ha a o' Hl. symmetry in Hs. destruct (state_eq_lookup _ _ _ _ Hs Hl) as (o & Ho & He).
  rewrite (eq_address _ _ He). by apply Ha.
Qed.

(** An entry of an object that is not there. *)
Lemma undo_missing e a f s t :
  undo_fun e = Some (a, f) -> lookup_obj s a = None -> undo e s = Some t ->
  is_suicide e = true /\ state_eq t s /\ hist t = hist s /\ stateObjects t = stateObjects s /\ rest t = rest s.
Proof.
  intros Ef Hl. destruct (getStateObject s a) as [r s1] eqn:Eg.
  destruct (getStateObject_eq _ _ _ _ Eg) as (Er & Hse & Hh & _). rewrite Hl in Er. subst r.
  destruct (getStateObject_None _ _ _ Eg) as (_ & Ho & Hr & _).
  destruct e; try discriminate Ef; cbn [undo_fun] in Ef;
    [| | | | |destruct (negb prev && _) eqn:Ep; [|discriminate Ef] ]; injection Ef as <- <-; unfold undo; rewrite Eg;
    try rewrite Ep; try done.
  intros [= <-]. done.
Qed.

Lemma undo_suicide_missing e a f s :
  undo_fun e = Some (a, f) -> is_suicide e = true -> lookup_obj s a = None -> exists t, undo e s = Some t.
Proof.
  intros Ef He Hl. destruct e; try done. injection Ef as <- <-. unfold undo.
  destruct (getStateObject s account) as [r s1] eqn:Eg.
  destruct (getStateObject_eq _ _ _ _ Eg) as (Er & _). rewrite Hl in Er. subst r. eauto.
Qed.

(** The same change outside the objects on both sides. *)
Lemma state_eq_frame s s' t t' :
  state_eq s s' -> stateObjects t = stateObjects s -> stateObjects t' = stateObjects s' ->
  strie t = strie s -> strie t' = strie s' -> frame t t' -> state_eq t t'.
Proof.
  intros Hs E1 E2 E3 E4 Hf. constructor; [done|]. intros a.
  rewrite (lookup_obj_ext t s), (lookup_obj_ext t' s') by congruence. apply Hs.
Qed.

Lemma undo_other_proper e s s' t :
  undo_fun e = None -> entry_ok e -> state_eq s s' -> undo e s = Some t ->
  exists t', undo e s' = Some t' /\ state_eq t t'.
Proof.
  intros Ef He Hs. pose proof (se_frame _ _ Hs) as [F1 F2 F3 F4 F5 F6 F7 F8].
  destruct e; try discriminate Ef; cbn [undo].
  - intros [= <-]. eexists. split; [done|]. constructor; [by constructor|]. intros a. rewrite !lookup_obj_eq. simpl.
    destruct (decide (a = account)) as [->|Ha].
    + rewrite !lookup_delete_eq, F1. by destruct (loaded_obj _ _); constructor.
    + rewrite !lookup_delete_ne by done. pose proof (se_obj _ _ Hs a) as H. by rewrite !lookup_obj_eq in H.
  - intros [= <-]. eexists. split; [done|]. destruct He as [Hd _].
    eapply (puts_state_eq s s' (address prev) prev prev); [done|done|done|done| |]; by exists prev.
  - intros [= <-]. eexists. split; [done|]. by eapply (state_eq_frame s s').
  - fold (GetLogs s txhash). fold (GetLogs s' txhash). rewrite <-F6.
    destruct (_ =? 1)%nat; [|destruct (GetLogs s txhash) eqn:El; [done|] ]; intros [= <-]; (eexists; split; [done|]);
      (eapply (state_eq_frame s s'); [done|done|done|done|done|]); constructor; simpl; try congruence; intros h;
      unfold GetLogs in *; simpl;
      (destruct (decide (h = txhash)) as [->|Hh];
        [by rewrite ?lookup_delete_eq, ?lookup_insert_eq
        |rewrite ?lookup_delete_ne, ?lookup_insert_ne by done; apply F6]).
  - intros [= <-]. eexists. split; [done|]. eapply (state_eq_frame s s'); [done|done|done|done|done|].
    constructor; simpl; try congruence. done.
  - cbn [undo_fun] in Ef. destruct (negb prev && _); [done|]. intros [= <-]. eauto.
Qed.

Lemma undo_proper e s s' t :
  entry_ok e -> addr_ok s -> state_eq s s' -> undo e s = Some t ->
  exists t', undo e s' = Some t' /\ state_eq t t'.
Proof.
  intros He Ha Hs Hu. destruct (undo_fun e) as [ [a f]|] eqn:Ef; [|by eapply undo_other_proper].
  destruct (lookup_obj s a) as [o|] eqn:Hl.
  - destruct (state_eq_lookup _ _ _ _ Hs Hl) as (o' & Hl' & Ho).
    pose proof (Ha _ _ Hl) as Hao. pose proof (eq_address _ _ Ho) as Hao'.
    destruct (undo_puts e a f s o Ef Hl Hao) as (t1 & E1 & Hp & _). rewrite Hu in E1. injection E1 as <-.
    destruct (undo_puts e a f s' o' Ef Hl') as (t' & E' & Hp' & _); [congruence|]. exists t'. split; [done|].
    destruct (undo_fun_proper e a f o o' Ef Ho) as (H1 & H2 & _). destruct (undo_fun_proper e a f o' o' Ef) as (_ & H3 & _); [done|].
    apply (puts_state_eq s s' a (f o) (f o')); [done|done| | |done|done].
    + rewrite H2. by eapply lookup_obj_live.
    + rewrite H3. by eapply lookup_obj_live.
  - destruct (undo_missing _ _ _ _ _ Ef Hl Hu) as (Hsu & Ht & _).
    assert (lookup_obj s' a = None) as Hl' by (pose proof (se_obj _ _ Hs a) as H; rewrite Hl in H; by inversion H).
    destruct (undo_suicide_missing _ _ _ _ Ef Hsu Hl') as [t' E']. exists t'. split; [done|].
    destruct (undo_missing _ _ _ _ _ Ef Hl' E') as (_ & Ht' & _). by rewrite Ht, Ht'.
Qed.

(** ** Undoing preserves the invariant *)

Lemma owf_addr_ok s : owf s -> addr_ok s.
Proof. intros Hw a o Hl. by apply (lookup_obj_ok s). Qed.

(** The objects and what of the state the invariant looks at. *)
Lemma owf_ext s t :
  owf s -> stateObjects t = stateObjects s -> strie t = strie s -> 0 <= logSize t < 2 ^ 64 -> owf t.
Proof. intros [] E1 E2 E3. constructor; rewrite ?E1, ?E2; done. Qed.

Lemma rest_owf s t : owf s -> stateObjects t = stateObjects s -> rest t = rest s -> owf t.
Proof. intros Hw E [= E1 _ _ _ _ _ E2 _]. apply (owf_ext s); [done|done|done|]. rewrite E2. apply Hw. Qed.

Lemma puts_owf s a o t :
  owf s -> puts s a o t -> address o = a -> deleted o = false -> length (aCodeHash (data o)) = 32%nat -> owf t.
Proof.
  intros Hw (o1 & He & Hd & Ho & Hr) Ha Hdel Hh. injection Hr as E1 _ _ _ _ _ E2 _.
  constructor; rewrite ?E1, ?E2; [| |apply Hw| |apply Hw]; intros b p; rewrite Ho;
    (destruct (decide (b = a)) as [->|Hb]; [rewrite lookup_insert_eq; intros [= <-]|rewrite lookup_insert_ne by done; apply Hw]).
  - by rewrite (eq_address _ _ He).
  - by rewrite (eq_data _ _ He).
  - congruence.
Qed.

Lemma BytesToHash_length b : length (BytesToHash b) = 32%nat.
Proof. unfold BytesToHash, BytesToN. rewrite length_app, length_replicate, length_drop. lia. Qed.

Lemma undo_fun_hash e a f o :
  undo_fun e = Some (a, f) -> length (aCodeHash (data o)) = 32%nat -> length (aCodeHash (data (f o))) = 32%nat.
Proof.
  intros Ef Hh. destruct e; try discriminate Ef; cbn [undo_fun] in Ef;
    [| | | | |destruct (negb prev && _); [|discriminate Ef] ]; injection Ef as <- <-; simpl; try done.
  apply BytesToHash_length.
Qed.

Lemma u64_bounds z : 0 <= u64 z < 2 ^ 64.
Proof. unfold u64. apply Z.mod_pos_bound. lia. Qed.

Lemma undo_owf e s t :
  entry_ok e -> owf s -> undo e s = Some t -> owf t /\ hist t = hist s /\ strie t = strie s.
Proof.
  intros He Hw Hu. destruct (undo_fun e) as [ [a f]|] eqn:Ef.
  - destruct (lookup_obj s a) as [o|] eqn:Hl.
    + destruct (lookup_obj_ok s a o Hw Hl) as (Ha & Hd & Hh).
      destruct (undo_puts e a f s o Ef Hl Ha) as (t1 & E1 & Hp & Hhist). rewrite Hu in E1. injection E1 as <-.
      destruct (undo_fun_proper e a f o o Ef) as (_ & Hd' & Ha'); [done|].
      split; [|split; [done|destruct Hp as (_ & _ & _ & _ & Hr); by injection Hr] ].
      apply (puts_owf s a (f o)); [done|done|congruence|congruence|]. by eapply undo_fun_hash.
    + destruct (undo_missing _ _ _ _ _ Ef Hl Hu) as (_ & _ & Hh & Ho & Hr).
      split; [by apply (rest_owf s)|]. split; [done|]. by injection Hr.
  - destruct e; try discriminate Ef; cbn [undo] in Hu.
    + injection Hu as <-. split; [|done]. constructor; simpl; [| |apply Hw| |apply Hw]; intros b p [_ Hb]%lookup_delete_Some; by eauto using sw_addr, sw_hash, sw_gone.
    + injection Hu as <-. split; [|done]. destruct He. apply (puts_owf s (address prev) prev); try done. by exists prev.
    + injection Hu as <-. split; [|done]. by apply (owf_ext s); [| | |apply Hw].
    + fold (GetLogs s txhash) in Hu. destruct (_ =? 1)%nat; [|destruct (GetLogs s txhash); [done|] ]; injection Hu as <-;
        (split; [|done]); (apply (owf_ext s); [done|done|done|apply u64_bounds]).
    + injection Hu as <-. split; [|done]. by apply (owf_ext s); [| | |apply Hw].
    + cbn [undo_fun] in Ef. destruct (negb prev && _); [done|]. by injection Hu as <-.
Qed.

Lemma undo_all_owf es s t :
  Forall entry_ok es -> owf s -> undo_all es s = Some t -> owf t /\ hist t = hist s /\ strie t = strie s.
Proof.
  intros He. revert s. induction He as [|e es He Hes IH]; intros s Hw; [by intros [= <-]|].
  cbn [undo_all]. destruct (undo e s) as [s1|] eqn:E; [|done]. rewrite some_bind. intros Hu.
  destruct (undo_owf e s s1 He Hw E) as (H1 & H2 & H3). destruct (IH s1 H1 Hu) as (H4 & H5 & H6).
  split; [done|]. split; congruence.
Qed.

Lemma undo_all_proper es s s' t :
  Forall entry_ok es -> owf s -> state_eq s s' -> undo_all es s = Some t ->
  exists t', undo_all es s' = Some t' /\ state_eq t t'.
Proof.
  intros He. revert s s'. induction He as [|e es He Hes IH]; intros s s' Hw Hs; [intros [= <-]; eauto|].
  cbn [undo_all]. destruct (undo e s) as [s1|] eqn:E; [|done]. rewrite some_bind. intros Hu.
  destruct (undo_proper e s s' s1 He (owf_addr_ok s Hw) Hs E) as (s1' & E' & Hs1). rewrite E', some_bind.
  apply (IH s1); [by eapply undo_owf|done|done].
Qed.

Lemma undo_all_app es1 es2 s : undo_all (es1 ++ es2) s = t ← undo_all es1 s; undo_all es2 t.
Proof.
  revert s. induction es1 as [|e es1 IH]; intros s; [done|]. simpl. destruct (undo e s); [|done]. simpl. apply IH.
Qed.

(** ** Operations and the entries they log *)

(** From [s] to [s'], [es] was logged, and undoing [es] leads back. *)
Record change s (es : list journalEntry) s' : Prop := mk_change {
  ch_hist : hist s' = (es ++ journal s, validRevisions s, nextRevisionId s);
  ch_entries : Forall entry_ok es;
  ch_owf : owf s';
  ch_back : exists t, undo_all es s' = Some t /\ state_eq t s
}.

Lemma change_trans s es1 s1 es2 s2 : change s es1 s1 -> change s1 es2 s2 -> change s (es2 ++ es1) s2.
Proof.
  intros [H1 E1 W1 (t1 & U1 & B1)] [H2 E2 W2 (t2 & U2 & B2)]. constructor.
  - injection H1 as J1 V1 N1. rewrite H2, J1, V1, N1. by rewrite app_assoc.
  - by apply Forall_app.
  - done.
  - rewrite undo_all_app, U2, some_bind. symmetry in B2.
    destruct (undo_all_proper es1 s1 t2 t1 E1 W1 B2 U1) as (t' & U' & B'). exists t'. split; [done|]. by rewrite <-B'.
Qed.

Lemma change_nil s s' : owf s' -> hist s' = hist s -> state_eq s' s -> change s [] s'.
Proof. intros Hw Hh Hs. constructor; [done|constructor|done|]. eauto. Qed.

Lemma change_one s e s' t :
  hist s' = (e :: journal s, validRevisions s, nextRevisionId s) -> entry_ok e -> owf s' ->
  undo e s' = Some t -> state_eq t s -> change s [e] s'.
Proof.
  intros Hh He Hw Hu Hs. constructor; [done|by repeat constructor|done|]. exists t. cbn [undo_all]. by rewrite Hu.
Qed.

Lemma owf_read s s' : owf s -> stateObjects s' = stateObjects s -> rest s' = rest s -> hist s' = hist s -> change s [] s'.
Proof.
  intros Hw Ho Hr Hh. apply change_nil; [by apply (rest_owf s)|done|]. constructor; [by apply rest_frame|].
  intros a. rewrite (lookup_obj_ext s' s); [|by rewrite Ho|by injection Hr]. by destruct (lookup_obj s a); constructor.
Qed.

(** An equivalent object in the place of a live one. *)
Lemma change_same_object s a o p s' :
  owf s -> lookup_obj s a = Some o -> puts s a p s' -> obj_eq p o -> deleted p = false -> owf s' /\ state_eq s' s.
Proof.
  intros Hw Hl Hp He Hd. destruct (lookup_obj_ok s a o Hw Hl) as (Ha & Hdo & Hh).
  pose proof (eq_address _ _ He). pose proof (eq_data _ _ He) as Hda. split.
  - apply (puts_owf s a p); [done|done|congruence|done|]. by rewrite Hda.
  - destruct (puts_lookup _ _ _ _ Hp Hd) as [(o1 & E1 & He1) Hne]. destruct Hp as (_ & _ & _ & _ & Hr).
    constructor; [by apply rest_frame|]. intros b. destruct (decide (b = a)) as [->|Hb].
    + rewrite E1, Hl. constructor. by rewrite He1.
    + rewrite Hne by done. by destruct (lookup_obj s b); constructor.
Qed.

Lemma change_object s a o e p s' f :
  owf s -> lookup_obj s a = Some o -> undo_fun e = Some (a, f) -> entry_ok e -> puts s a p s' ->
  hist s' = (e :: journal s, validRevisions s, nextRevisionId s) ->
  address p = a -> deleted p = false -> length (aCodeHash (data p)) = 32%nat -> obj_eq (f p) o ->
  change s [e] s'.
Proof.
  intros Hw Hl Ef He Hp Hh Ha Hd Hlen Hback. pose proof (puts_owf s a p s' Hw Hp Ha Hd Hlen) as Hw'.
  destruct (puts_lookup _ _ _ _ Hp Hd) as [(o1 & E1 & He1) _].
  destruct (undo_puts e a f s' o1 Ef E1) as (t & Hu & Hpt & _); [by rewrite (eq_address _ _ He1)|].
  apply (change_one s e s' t); [done|done|done|done|].
  destruct (undo_fun_proper e a f o1 p Ef He1) as (H1 & H2 & _).
  apply (puts_back s a o p (f o1) s' t); [done|done|done|by rewrite H1|].
  rewrite H2. by eapply lookup_obj_live.
Qed.

Lemma getStateObject_change s a r s1 : owf s -> getStateObject s a = (r, s1) -> change s [] s1.
Proof.
  intros Hw E. destruct r as [o|].
  - destruct (getStateObject_Some _ _ _ _ E) as (Hl & Ho & Hr & Hh).
    destruct (change_same_object s a o o s1) as [Hw1 Hs1];
      [done|done|by exists o|done|by eapply lookup_obj_live|]. by apply change_nil.
  - destruct (getStateObject_None _ _ _ E) as (Hl & Ho & Hr & Hh). by apply owf_read.
Qed.

(** Nothing live at [a], and nothing in the trie either. *)
Lemma lookup_None_load s a : owf s -> lookup_obj s a = None -> loaded_obj (strie s) a = None.
Proof.
  intros Hw. rewrite lookup_obj_eq. destruct (stateObjects s !! a) as [o|] eqn:E; [|done].
  unfold live. destruct (deleted o) eqn:Hd; [|done]. intros _. unfold loaded_obj. by rewrite (sw_gone s Hw a o E Hd).
Qed.

Context (Keccak_length : forall b, length (Keccak256 b) = 32%nat).

Lemma createObject_change s a o prev s1 :
  owf s -> createObject s a = (o, prev, s1) ->
  prev = lookup_obj s a /\ lookup_obj s1 a = Some o /\ stateObjects s1 !! a = Some o /\
  obj_eq o (newObject a freshAccount) /\ puts s a o s1 /\
  change s [match prev with None => createObjectChange a | Some q => resetObjectChange q end] s1.
Proof.
  intros Hw. unfold createObject. destruct (getStateObject s a) as [r s0] eqn:Eg.
  destruct (getStateObject_eq _ _ _ _ Eg) as (-> & _ & Hh0 & _).
  pose proof (ch_owf _ _ _ (getStateObject_change s a _ s0 Hw Eg)) as Hw0.
  assert (exists p, stateObjects s0 = p /\ rest s0 = rest s /\ forall x, <[a := x]> p = <[a := x]> (stateObjects s))
    as (p & Ep & Er & Ei).
  { destruct (lookup_obj s a) as [q|].
    - destruct (getStateObject_Some _ _ _ _ Eg) as (_ & Ho & Hr & _). exists (<[a := q]> (stateObjects s)).
      split; [done|]. split; [done|]. intros x. by rewrite insert_insert_eq.
    - destruct (getStateObject_None _ _ _ Eg) as (_ & Ho & Hr & _). by exists (stateObjects s). }
  set (e := match lookup_obj s a with None => createObjectChange a | Some q => resetObjectChange q end).
  cbn [obj_setNonce mark_dirty]. unfold obj_setNonce, mark_dirty. cbn [onDirty set_data newObject].
  intros [= <- <- <-]. set (new := set_flags _ _ _ _ _).
  set (s2 := setStateObject _ new).
  assert (obj_eq new (newObject a freshAccount)) as Hnew by (by apply obj_eq_fields).
  assert (puts s a new s2) as Hp.
  { exists new. split; [done|]. split; [done|]. split; [simpl; by rewrite Ep, Ei|exact Er]. }
  assert (owf s2) as Hw2 by (apply (puts_owf s a new); [done|done|done|done|apply Keccak_length]).
  split; [done|]. split; [rewrite lookup_obj_eq; simpl; by rewrite lookup_insert_eq|].
  split; [simpl; by rewrite lookup_insert_eq|]. split; [done|]. split; [done|]. fold e.
  assert (hist s2 = (e :: journal s, validRevisions s, nextRevisionId s)) as Hh2.
  { injection Hh0 as J V N. unfold hist, s2. simpl. by rewrite J, V, N. }
  unfold e in *. destruct (lookup_obj s a) as [q|] eqn:Hl.
  - destruct (lookup_obj_ok s a q Hw Hl) as (Ha & Hd & Hlen).
    apply (change_one s _ s2 (setStateObject s2 q)); [done|done|done|done|].
    apply (puts_back s a q new q s2); [done|done| |done|done]. rewrite <-Ha at 1. by exists q.
  - eapply (change_one s _ s2); [done|done|done|reflexivity|]. constructor.
    + apply rest_frame. exact Er.
    + intros b. destruct (decide (b = a)) as [->|Hb].
      * rewrite Hl, lookup_obj_eq. simpl. rewrite lookup_delete_eq.
        injection Er as Et _ _ _ _ _ _ _. rewrite Et. by rewrite (lookup_None_load s a Hw Hl); constructor.
      * rewrite (lookup_obj_ext _ s); [by destruct (lookup_obj s b); constructor| |simpl; by injection Er].
        simpl. rewrite lookup_delete_ne by done. by rewrite Ep, Ei, lookup_insert_ne by done.
Qed.

Lemma GetOrNew_change s a o s1 :
  owf s -> GetOrNewStateObject s a = (o, s1) -> (exists es, change s es s1) /\ lookup_obj s1 a = Some o.
Proof.
  intros Hw. unfold GetOrNewStateObject. destruct (getStateObject s a) as [ [q|] s0] eqn:Eg.
  - destruct (getStateObject_Some _ _ _ _ Eg) as (Hl & _).
    destruct (getStateObject_eq _ _ _ _ Eg) as (_ & _ & _ & Hlk).
    rewrite (lookup_obj_live _ _ _ Hl). intros [= <- <-]. split; [|by rewrite Hlk].
    exists []. by eapply getStateObject_change.
  - pose proof (getStateObject_change s a _ s0 Hw Eg) as H0.
    destruct (createObject s0 a) as [ [q prev] s2] eqn:Ec. intros [= <- <-].
    destruct (createObject_change s0 a q prev s2 (ch_owf _ _ _ H0) Ec) as (_ & Hl & _ & _ & _ & H1).
    split; [|done]. eexists. by eapply change_trans.
Qed.

(** Logging an entry and storing a changed object. *)
Lemma store_change s a o e p f :
  owf s -> lookup_obj s a = Some o -> undo_fun e = Some (a, f) -> entry_ok e ->
  address p = a -> deleted p = false -> length (aCodeHash (data p)) = 32%nat -> obj_eq (f p) o ->
  change s [e] (store_object (mark_dirty (log_change s e) p)).
Proof.
  intros Hw Hl Ef He Ha Hd Hlen Hb. destruct (store_dirty (log_change s e) p a Ha) as [(o1 & H1 & H2 & H3 & H4) Hh].
  apply (change_object s a o e p _ f); [done|done|done|done| |exact Hh|done|done|done|done].
  exists o1. split; [done|]. split; [done|]. split; [exact H3|exact H4].
Qed.

Lemma obj_SetBalance_change s a o b :
  owf s -> lookup_obj s a = Some o -> exists e, change s [e] (obj_SetBalance s o b).
Proof.
  intros Hw Hl. destruct (lookup_obj_ok s a o Hw Hl) as (Ha & Hd & Hh). rewrite <-Ha in Hl.
  eexists. unfold obj_SetBalance, obj_setBalance.
  eapply (store_change s (address o) o (balanceChange (address o) (aBalance (data o)))); [done|done|reflexivity|done|done|done|done|].
  apply obj_eq_fields; try done. simpl. by destruct (data o).
Qed.

Lemma touch_change s a o :
  owf s -> lookup_obj s a = Some o -> exists e, change s [e] (store_object (touch s o)).
Proof.
  intros Hw Hl. destruct (lookup_obj_ok s a o Hw Hl) as (Ha & Hd & Hh).
  set (e := touchChange (address o) (touched o) (negb (onDirty o))). exists e.
  unfold touch. fold e. destruct (mark_dirty (log_change s e) o) as [s1 o1] eqn:Em.
  destruct (mark_dirty_spec _ _ _ _ Em) as (Ho & Hr & Hhi & He1 & Hd1).
  set (p := set_flags o1 (suicided o1) true (deleted o1) (onDirty o1)).
  assert (obj_eq p o) as Hp by (rewrite <-He1; by apply obj_eq_fields).
  assert (puts s a p (store_object (s1, p))) as Hput.
  { exists p. split; [done|]. split; [done|]. split; [|exact Hr].
    unfold store_object, setStateObject. simpl. by rewrite (eq_address _ _ He1), Ha, Ho. }
  destruct (undo_fun e) as [ [a' f]|] eqn:Ef.
  - assert (a' = a /\ obj_eq (f p) p) as [-> Hf].
    { cbn [undo_fun e] in Ef. unfold e in Ef. cbn [undo_fun] in Ef. destruct (_ && _); [|done]. injection Ef as <- <-.
      split; [done|]. by apply obj_eq_fields. }
    apply (change_object s a o e p _ f); [done|done|done|done|done|exact Hhi|
      by rewrite (eq_address _ _ Hp)|simpl; congruence|by rewrite (eq_data _ _ Hp)|by rewrite Hf].
  - destruct (change_same_object s a o p _ Hw Hl Hput Hp) as [Hw' Hs']; [simpl; congruence|].
    apply (change_one s e _ (store_object (s1, p))); [exact Hhi|done|done| |done].
    unfold e in *. cbn [undo_fun undo] in *. by destruct (_ && _).
Qed.

Lemma AddBalance_change s a v : owf s -> exists es, change s es (AddBalance s a v).
Proof.
  intros Hw. unfold AddBalance. destruct (GetOrNewStateObject s a) as [o s1] eqn:Eg.
  destruct (GetOrNew_change s a o s1 Hw Eg) as [ [es H1] Hl]. pose proof (ch_owf _ _ _ H1) as Hw1.
  destruct (v =? 0); [destruct (empty o)|].
  - destruct (touch_change s1 a o Hw1 Hl) as [e H2]. eexists. by eapply change_trans.
  - eauto.
  - destruct (obj_SetBalance_change s1 a o (aBalance (data o) + v) Hw1 Hl) as [e H2]. eexists. by eapply change_trans.
Qed.

Lemma SubBalance_change s a v : owf s -> exists es, change s es (SubBalance s a v).
Proof.
  intros Hw. unfold SubBalance. destruct (GetOrNewStateObject s a) as [o s1] eqn:Eg.
  destruct (GetOrNew_change s a o s1 Hw Eg) as [ [es H1] Hl]. pose proof (ch_owf _ _ _ H1) as Hw1.
  destruct (v =? 0); [eauto|].
  destruct (obj_SetBalance_change s1 a o (aBalance (data o) - v) Hw1 Hl) as [e H2]. eexists. by eapply change_trans.
Qed.

Lemma SetBalance_change s a v : owf s -> exists es, change s es (SetBalance s a v).
Proof.
  intros Hw. unfold SetBalance. destruct (GetOrNewStateObject s a) as [o s1] eqn:Eg.
  destruct (GetOrNew_change s a o s1 Hw Eg) as [ [es H1] Hl]. pose proof (ch_owf _ _ _ H1) as Hw1.
  destruct (obj_SetBalance_change s1 a o v Hw1 Hl) as [e H2]. eexists. by eapply change_trans.
Qed.

Lemma SetNonce_change s a n : owf s -> exists es, change s es (SetNonce s a n).
Proof.
  intros Hw. unfold SetNonce. destruct (GetOrNewStateObject s a) as [o s1] eqn:Eg.
  destruct (GetOrNew_change s a o s1 Hw Eg) as [ [es H1] Hl]. pose proof (ch_owf _ _ _ H1) as Hw1.
  destruct (lookup_obj_ok s1 a o Hw1 Hl) as (Ha & Hd & Hh). rewrite <-Ha in Hl.
  eexists. eapply change_trans; [exact H1|].
  eapply (store_change s1 (address o) o (nonceChange (address o) (aNonce (data o)))); [done|done|reflexivity|done|done|done|done|].
  apply obj_eq_fields; try done. simpl. by destruct (data o).
Qed.

Lemma BytesToHash_hash b : length b = 32%nat -> BytesToHash b = b.
Proof. intros E. unfold BytesToHash, BytesToN. rewrite E, Nat.sub_diag, drop_0, E, Nat.sub_diag. done. Qed.

Lemma SetCode_change s a c : owf s -> exists es, change s es (SetCode s a c).
Proof.
  intros Hw. unfold SetCode. destruct (GetOrNewStateObject s a) as [o s1] eqn:Eg.
  destruct (GetOrNew_change s a o s1 Hw Eg) as [ [es H1] Hl]. pose proof (ch_owf _ _ _ H1) as Hw1.
  destruct (lookup_obj_ok s1 a o Hw1 Hl) as (Ha & Hd & Hh).
  destruct (obj_Code o) as [prevcode o1] eqn:Ec. destruct (obj_Code_eq _ _ _ Ec) as (Hc & He & Hd1).
  pose proof (eq_address _ _ He) as Ea. pose proof (eq_data _ _ He) as Ed.
  rewrite Ea, Ed, Ha. eexists. eapply change_trans; [exact H1|].
  eapply (store_change s1 a o (codeChange a prevcode (aCodeHash (data o))) (with_code o1 (Keccak256 (default [] c)) c));
    [done|done|reflexivity|done|simpl; congruence|simpl; congruence|simpl; apply Keccak_length|].
  rewrite BytesToHash_hash by done. transitivity o1; [|done].
  constructor; [done|simpl; rewrite <-Ed; by destruct (data o1)| | |done].
  - transitivity prevcode; [|by rewrite (eq_code _ _ He)]. rewrite codeof_eq. simpl. destruct prevcode; [done|].
    rewrite codeof_eq in Hc. destruct (code o); [done|]. unfold addrHash in *. simpl. by rewrite Ea.
  - intros key. rewrite !slot_eq. simpl. by rewrite (obj_trie_ext _ o1) by done.
Qed.

Lemma SetState_change s a key v s' : owf s -> SetState s a key v = Some s' -> exists es, change s es s'.
Proof.
  intros Hw. unfold SetState. destruct (GetOrNewStateObject s a) as [o s1] eqn:Eg.
  destruct (GetOrNew_change s a o s1 Hw Eg) as [ [es H1] Hl]. pose proof (ch_owf _ _ _ H1) as Hw1.
  destruct (lookup_obj_ok s1 a o Hw1 Hl) as (Ha & Hd & Hh).
  destruct (obj_GetState o key) as [ [prev o1]|] eqn:Ec; [|done]. rewrite some_bind. intros [= <-].
  destruct (obj_GetState_eq _ _ _ _ Ec) as (Hs & He & Hd1).
  pose proof (eq_address _ _ He) as Ea. pose proof (eq_data _ _ He) as Ed.
  rewrite Ea, Ha. eexists. eapply change_trans; [exact H1|].
  eapply (store_change s1 a o (storageChange a key prev) (with_slot o1 key v));
    [done|done|reflexivity|done|simpl; congruence|simpl; congruence|simpl; congruence|].
  constructor; [done|done| | |apply He].
  - rewrite <-(eq_code _ _ He). by apply (codeof_same o1 o1).
  - intros k. rewrite !slot_with_slot. destruct (decide (k = key)) as [->|]; [done|]. apply He.
Qed.

Lemma Suicide_change s a : owf s -> exists es, change s es (Suicide s a).2.
Proof.
  intros Hw. unfold Suicide. destruct (getStateObject s a) as [ [o|] s1] eqn:Eg;
    [|exists []; by eapply getStateObject_change].
  pose proof (getStateObject_change s a _ s1 Hw Eg) as H1. pose proof (ch_owf _ _ _ H1) as Hw1.
  destruct (getStateObject_Some _ _ _ _ Eg) as (Hl0 & _).
  destruct (getStateObject_eq _ _ _ _ Eg) as (_ & _ & _ & Hlk). assert (lookup_obj s1 a = Some o) as Hl by (by rewrite Hlk).
  destruct (lookup_obj_ok s1 a o Hw1 Hl) as (Ha & Hd & Hh).
  set (e := suicideChange a (suicided o) (aBalance (data o))).
  unfold markSuicided. set (q := set_flags o true (touched o) (deleted o) (onDirty o)).
  destruct (mark_dirty (log_change s1 e) q) as [s2 o2] eqn:Em.
  destruct (mark_dirty_spec _ _ _ _ Em) as (Ho & Hr & Hhi & He & Hd2). simpl.
  eexists. eapply change_trans; [exact H1|]. pose proof (eq_address _ _ He) as Ea. pose proof (eq_data _ _ He) as Ed.
  eapply (change_object s1 a o e (with_balance q 0)); [done|done|reflexivity|done| |exact Hhi|done|done|done|].
  - exists (with_balance o2 0). split; [|split; [done|split; [|exact Hr] ] ].
    + apply (obj_eq_change o2 q); try done; [simpl; by rewrite Ed|by apply (codeof_same o2 q)|apply He].
    + unfold setStateObject. simpl. rewrite Ea, Ho. simpl. by rewrite Ha.
  - apply obj_eq_fields; try done. simpl. by destruct (data o).
Qed.

Lemma CreateAccount_change s a : owf s -> exists es, change s es (CreateAccount s a).
Proof.
  intros Hw. unfold CreateAccount. destruct (createObject s a) as [ [new prev] s1] eqn:Ec.
  destruct (createObject_change s a new prev s1 Hw Ec) as (Hp & Hl1 & _ & Hn & Hput & Hc).
  destruct prev as [q|]; [|eauto]. symmetry in Hp.
  pose proof (ch_owf _ _ _ Hc) as Hw1. destruct (lookup_obj_ok s1 a new Hw1 Hl1) as (Ha & Hd & Hh).
  destruct (lookup_obj_ok s a q Hw Hp) as (Haq & Hdq & Hhq).
  exists [resetObjectChange q]. unfold obj_setBalance. set (p := set_data _ _).
  destruct (store_dirty s1 p a Ha) as [Hps Hhs]. pose proof (puts_owf s1 a p _ Hw1 Hps Ha Hd Hh) as Hw2.
  eapply change_one; [rewrite Hhs; apply Hc|done|done|reflexivity|].
  apply (puts_back s a q p q (store_object (mark_dirty s1 p))); [done| | |done|done].
  - destruct Hps as (o1 & X1 & X2 & X3 & X4), Hput as (o0 & _ & _ & Y3 & Y4). exists o1.
    split; [done|]. split; [done|]. split; [by rewrite X3, Y3, insert_insert_eq|by rewrite X4].
  - rewrite <-Haq at 1. by exists q.
Qed.

Lemma AddLog_change s l : owf s -> exists es, change s es (AddLog s l).
Proof.
  intros Hw. exists [addLogChange (thash s)]. unfold AddLog. simpl. set (l' := mkLog _ _ _ _ _ _ _ _).
  set (s' := with_logs _ _ _).
  assert (owf s') as Hw' by (apply (owf_ext s); [done|done|done|apply u64_bounds]).
  pose proof (sw_log s Hw) as Hn.
  assert (u64 (u64 (logSize s + 1) - 1) = logSize s) as Hsz.
  { unfold u64. rewrite Zminus_mod_idemp_l. rewrite Z.mod_small by lia. lia. }
  fold (GetLogs s (thash s)) in s'. set (old := GetLogs s (thash s)) in *.
  assert (default [] (logs s' !! thash s) = old ++ [l']) as Hl by (simpl; by rewrite lookup_insert_eq).
  eapply (change_one s _ s' (with_logs s' (if (length (old ++ [l']) =? 1)%nat then delete (thash s) (logs s')
    else <[thash s := take (length (old ++ [l']) - 1) (old ++ [l'])]> (logs s')) (u64 (logSize s' - 1)))); [done|done|done| |].
  - cbn [undo]. rewrite Hl. destruct (_ =? 1)%nat eqn:E; [done|]. destruct (old ++ [l']) eqn:E'; [by destruct old|]. done.
  - eapply (state_eq_frame s s); [done|by destruct (_ =? 1)%nat|done|done|done|]. constructor; try done.
    intros h. unfold GetLogs. simpl. rewrite length_app. simpl.
    destruct (decide (h = thash s)) as [->|Hh].
    + fold old. destruct (Nat.eqb_spec (length old + 1) 1) as [E|E].
      * rewrite lookup_delete_eq. simpl. symmetry. apply nil_length_inv. fold old in E. change (length old = 0)%nat. lia.
      * rewrite lookup_insert_eq. simpl. replace (length old + 1 - 1)%nat with (length old) by lia. by rewrite take_app_length.
    + destruct (_ =? 1)%nat; by rewrite ?lookup_delete_ne, ?lookup_insert_ne by done.
Qed.

Lemma AddPreimage_change s h p : owf s -> exists es, change s es (AddPreimage s h p).
Proof.
  intros Hw. unfold AddPreimage. destruct (preimages s !! h) eqn:Eh; [exists []; by apply change_nil|].
  exists [addPreimageChange h]. eapply change_one; [done|done|by apply (owf_ext s); [| | |apply Hw]|reflexivity|].
  eapply (state_eq_frame s s); [done|done|done|done|done|]. constructor; try done. simpl. by rewrite delete_insert_id.
Qed.

Lemma AddRefund_change s g : owf s -> exists es, change s es (AddRefund s g).
Proof.
  intros Hw. exists [refundChange (refund s)]. eapply change_one; [done|done|by apply (owf_ext s); [| | |apply Hw]|reflexivity|].
  by eapply (state_eq_frame s s).
Qed.

(** Reads that may load an object, its code or a slot. *)
Lemma load_change s a o p s1 :
  owf s -> getStateObject s a = (Some o, s1) -> obj_eq p o -> deleted p = deleted o -> change s [] (setStateObject s1 p).
Proof.
  intros Hw Eg He Hd. destruct (getStateObject_Some _ _ _ _ Eg) as (Hl & Ho & Hr & Hh).
  destruct (lookup_obj_ok s a o Hw Hl) as (Ha & Hdo & _).
  destruct (change_same_object s a o p (setStateObject s1 p)) as [Hw' Hs'];
    [done|done| |done|congruence|by apply change_nil].
  exists p. split; [done|]. split; [done|]. split; [|exact Hr].
  simpl. by rewrite Ho, (eq_address _ _ He), Ha, insert_insert_eq.
Qed.

Lemma GetCode_change s a : owf s -> change s [] (GetCode s a).2.
Proof.
  intros Hw. unfold GetCode. destruct (getStateObject s a) as [ [o|] s1] eqn:Eg; [|by eapply getStateObject_change].
  destruct (obj_Code o) as [c p] eqn:Ec. destruct (obj_Code_eq _ _ _ Ec) as (_ & He & Hd). by eapply load_change.
Qed.

Lemma GetState_change s a key v s' : owf s -> GetState s a key = Some (v, s') -> change s [] s'.
Proof.
  intros Hw. unfold GetState. destruct (getStateObject s a) as [ [o|] s1] eqn:Eg;
    [|intros [= <- <-]; by eapply getStateObject_change].
  destruct (obj_GetState o key) as [ [w p]|] eqn:Ec; [|done]. rewrite some_bind. intros [= <- <-].
  destruct (obj_GetState_eq _ _ _ _ Ec) as (_ & He & Hd). by eapply load_change.
Qed.

Lemma GetCodeSize_change s a : owf s -> change s [] (GetCodeSize s a).2.
Proof.
  intros Hw. unfold GetCodeSize. destruct (getStateObject s a) as [r s1] eqn:Eg.
  pose proof (getStateObject_change s a r s1 Hw Eg) as H1. destruct r as [o|]; [|done].
  destruct (code o); [done|]. destruct (ContractCodeSize _ _) as [sz err]. simpl.
  apply (change_trans s [] s1 []); [done|]. apply owf_read; [apply H1|done|done|done].
Qed.

(** ** Sequences of operations *)

Inductive op :=
  | opAddBalance a (v : Z) | opSubBalance a (v : Z) | opSetBalance a (v : Z) | opSetNonce a (n : Z)
  | opSetCode a (c : option (list Z)) | opSetState a (key v : Hash) | opSuicide a | opCreateAccount a
  | opAddLog (l : Log) | opAddPreimage (h : Hash) (p : list Z) | opAddRefund (g : Z)
  | opExist a | opEmpty a | opGetBalance a | opGetNonce a | opGetCode a | opGetCodeSize a | opGetCodeHash a
  | opGetState a (key : Hash) | opHasSuicided a
  | opSnapshot | opRevert (id : Z).

Definition run_op (p : op) s : option StateDB :=
  match p with
  | opAddBalance a v => Some (AddBalance s a v)
  | opSubBalance a v => Some (SubBalance s a v)
  | opSetBalance a v => Some (SetBalance s a v)
  | opSetNonce a n => Some (SetNonce s a n)
  | opSetCode a c => Some (SetCode s a c)
  | opSetState a key v => SetState s a key v
  | opSuicide a => Some (Suicide s a).2
  | opCreateAccount a => Some (CreateAccount s a)
  | opAddLog l => Some (AddLog s l)
  | opAddPreimage h p => Some (AddPreimage s h p)
  | opAddRefund g => Some (AddRefund s g)
  | opExist a => Some (Exist s a).2
  | opEmpty a => Some (Empty s a).2
  | opGetBalance a => Some (GetBalance s a).2
  | opGetNonce a => Some (GetNonce s a).2
  | opGetCode a => Some (GetCode s a).2
  | opGetCodeSize a => Some (GetCodeSize s a).2
  | opGetCodeHash a => Some (GetCodeHash s a).2
  | opGetState a key => snd <$> GetState s a key
  | opHasSuicided a => Some (HasSuicided s a).2
  | opSnapshot => Some (Snapshot s).2
  | opRevert id => RevertToSnapshot s id
  end.

Fixpoint run (ops : list op) s : option StateDB :=
  match ops with
  | [] => Some s
  | p :: ops' => s ← run_op p s; run ops' s
  end.

Definition is_revision (p : op) : bool := match p with opSnapshot | opRevert _ => true | _ => false end.

Lemma run_op_change p s s' : owf s -> is_revision p = false -> run_op p s = Some s' -> exists es, change s es s'.
Proof.
  intros Hw Hp Hr. destruct p; try discriminate Hp; cbn [run_op] in Hr;
    try (injection Hr as <-; eauto using AddBalance_change, SubBalance_change, SetBalance_change, SetNonce_change,
      SetCode_change, Suicide_change, CreateAccount_change, AddLog_change, AddPreimage_change, AddRefund_change,
      GetCode_change, GetCodeSize_change; fail).
  - by eapply SetState_change.
  - injection Hr as <-. exists []. unfold Exist. destruct (getStateObject s a) eqn:E. by eapply getStateObject_change.
  - injection Hr as <-. exists []. unfold Empty. destruct (getStateObject s a) eqn:E. by eapply getStateObject_change.
  - injection Hr as <-. exists []. unfold GetBalance. destruct (getStateObject s a) eqn:E. by eapply getStateObject_change.
  - injection Hr as <-. exists []. unfold GetNonce. destruct (getStateObject s a) eqn:E. by eapply getStateObject_change.
  - injection Hr as <-. exists []. unfold GetCodeHash. destruct (getStateObject s a) eqn:E. by eapply getStateObject_change.
  - destruct (GetState s a key) as [ [v s1]|] eqn:E; [|done]. injection Hr as <-. exists []. by eapply GetState_change.
  - injection Hr as <-. exists []. unfold HasSuicided. destruct (getStateObject s a) eqn:E. by eapply getStateObject_change.
Qed.

(** ** The stack of revisions *)

Lemma revs_mono l next len revid (i j : nat) :
  revs_ok l next len -> (i <= j)%nat ->
  match l !! i with Some r => revid <=? rid r | None => true end = true ->
  match l !! j with Some r => revid <=? rid r | None => true end = true.
Proof.
  intros Hr Hij Hi. destruct (decide (i = j)) as [<-|Hne]; [done|].
  destruct (l !! j) as [r'|] eqn:Ej; [|done]. destruct (lookup_lt_is_Some_2 l i) as [r Ei].
  { apply lookup_lt_Some in Ej. lia. }
  rewrite Ei in Hi. apply Z.leb_le in Hi. apply Z.leb_le.
  destruct (rv_id _ _ _ Hr i j r r' ltac:(lia) Ei Ej). lia.
Qed.

Lemma RevertToSnapshot_at s (i : nat) r :
  swf s -> validRevisions s !! i = Some r ->
  RevertToSnapshot s (rid r) =
    t ← undo_all (take (length (journal s) - journalIndex r) (journal s)) s;
    Some (with_journal t (drop (length (journal s) - journalIndex r) (journal s)) (take i (validRevisions t)) (nextRevisionId t)).
Proof.
  intros Hw Hi. pose proof (sw_revs s Hw) as Hr. unfold RevertToSnapshot. cbv zeta.
  destruct (sort_Search_spec (length (validRevisions s))
    (fun i => match validRevisions s !! i with Some r' => rid r <=? rid r' | None => true end)) as (H1 & H2 & H3);
    [intros; by eapply (revs_mono _ _ _ _ a b)|].
  set (k := sort_Search _ _) in *. pose proof (lookup_lt_Some _ _ _ Hi) as Hlt.
  assert (k = i) as ->.
  { destruct (Nat.lt_trichotomy k i) as [Hk|[Hk|Hk] ]; [|done|].
    - specialize (H3 ltac:(lia)). destruct (lookup_lt_is_Some_2 (validRevisions s) k) as [r' Ek]; [lia|].
      simpl in H3. rewrite Ek in H3. apply Z.leb_le in H3. destruct (rv_id _ _ _ Hr k i r' r Hk Ek Hi). lia.
    - specialize (H2 i Hk). simpl in H2. rewrite Hi in H2. apply Z.leb_gt in H2. lia. }
  rewrite Hi, Z.eqb_refl. done.
Qed.

Lemma RevertToSnapshot_found s revid s' :
  RevertToSnapshot s revid = Some s' -> exists (i : nat) r, validRevisions s !! i = Some r /\ rid r = revid.
Proof.
  unfold RevertToSnapshot. cbv zeta. destruct (validRevisions s !! _) as [r|] eqn:E; [|done].
  destruct (Z.eqb_spec (rid r) revid) as [Hr|]; [|done]. eauto.
Qed.

(** The state between a snapshot of [s0] and its reversal. *)
Record since s0 (id : Z) s : Prop := mk_since {
  si_swf : swf s;
  si_back : exists es, journal s = es ++ journal s0 /\ exists t, undo_all es s = Some t /\ state_eq t s0;
  si_revs : exists extra, validRevisions s = validRevisions s0 ++ mkRevision id (length (journal s0)) :: extra
}.

Lemma change_swf s es s' : swf s -> change s es s' -> swf s'.
Proof.
  intros [Hw Hj Hr] [Hh He Hw' _]. injection Hh as J V N. constructor; [done| |].
  - rewrite J. by apply Forall_app.
  - rewrite J, V, N, length_app. destruct Hr as [R1 R2]. constructor; [done|]. intros i r Hi.
    destruct (R2 i r Hi). split; lia.
Qed.

Lemma change_since s0 id s es s' : since s0 id s -> change s es s' -> since s0 id s'.
Proof.
  intros [Hw (es0 & J0 & t0 & U0 & B0) Hr] Hc. pose proof (change_swf _ _ _ Hw Hc) as Hw'.
  destruct Hc as [Hh He Hwo (t & U & B)]. injection Hh as J V N.
  constructor; [done| |by rewrite V]. exists (es ++ es0). split; [by rewrite J, J0, app_assoc|].
  rewrite undo_all_app, U, some_bind. symmetry in B.
  assert (Forall entry_ok es0) as He0.
  { pose proof (sw_journal s Hw) as Hj. rewrite J0 in Hj. by apply Forall_app in Hj as [? _]. }
  destruct (undo_all_proper es0 s t t0 He0 (sw_objects s Hw) B U0) as (t' & U' & B').
  exists t'. split; [done|]. by rewrite <-B'.
Qed.

Lemma state_eq_hist s j v n : state_eq s (with_journal s j v n).
Proof. by eapply (state_eq_frame s s). Qed.

Lemma undo_all_hist es s j v n t :
  Forall entry_ok es -> owf s -> undo_all es s = Some t ->
  exists t', undo_all es (with_journal s j v n) = Some t' /\ state_eq t t'.
Proof. intros He Hw. apply undo_all_proper; [done|done|apply state_eq_hist]. Qed.

Lemma entries_split s es rest : swf s -> journal s = es ++ rest -> Forall entry_ok es /\ Forall entry_ok rest.
Proof. intros Hw E. apply Forall_app. rewrite <-E. apply Hw. Qed.

Lemma Snapshot_swf s : swf s -> swf (Snapshot s).2.
Proof.
  intros [Hw Hj [R1 R2] ]. constructor; [by apply (rest_owf s)|done|]. simpl. constructor.
  - intros i j r r' Hij Hi Hj'. apply lookup_app_Some in Hj' as [Hj'|[Hlen Hj'] ].
    + rewrite lookup_app_l in Hi by (apply lookup_lt_Some in Hj'; lia). by apply (R1 i j).
    + apply list_lookup_singleton_Some in Hj' as [Ej <-]. simpl.
      rewrite lookup_app_l in Hi by lia. destruct (R2 i r Hi). lia.
  - intros i r Hi. apply lookup_app_Some in Hi as [Hi|[_ Hi] ].
    + destruct (R2 i r Hi). lia.
    + apply list_lookup_singleton_Some in Hi as [_ <-]. simpl. lia.
Qed.

Lemma Snapshot_since s0 id s : since s0 id s -> since s0 id (Snapshot s).2.
Proof.
  intros [Hw (es & J & t & U & B) (extra & V)]. constructor; [by apply Snapshot_swf| |].
  - exists es. split; [done|]. destruct (entries_split s es _ Hw J) as [He _].
    destruct (undo_all_hist es s (journal s) (validRevisions s ++ [mkRevision (nextRevisionId s) (length (journal s))])
      (nextRevisionId s + 1) t He (sw_objects s Hw) U) as (t' & U' & B').
    exists t'. split; [done|]. by rewrite <-B'.
  - simpl. rewrite V. eexists. by rewrite <-app_assoc.
Qed.

(** The state after reverting to the revision at place [i]. *)
Lemma Revert_swf s (i : nat) r s' :
  swf s -> validRevisions s !! i = Some r -> RevertToSnapshot s (rid r) = Some s' ->
  exists t es rest, journal s = es ++ rest /\ length rest = journalIndex r /\ undo_all es s = Some t /\
    s' = with_journal t rest (take i (validRevisions s)) (nextRevisionId s) /\ swf s' /\ owf t.
Proof.
  intros Hw Hi. rewrite (RevertToSnapshot_at s i r Hw Hi). set (n := (length (journal s) - journalIndex r)%nat).
  destruct (undo_all (take n (journal s)) s) as [t|] eqn:U; [|done]. rewrite some_bind. intros [= <-].
  pose proof (sw_revs s Hw) as [R1 R2]. destruct (R2 i r Hi) as [_ Hle].
  destruct (entries_split s (take n (journal s)) (drop n (journal s)) Hw) as [He1 He2]; [by rewrite take_drop|].
  destruct (undo_all_owf _ s t He1 (sw_objects s Hw) U) as (Hwt & Hh & _). injection Hh as J V N.
  exists t, (take n (journal s)), (drop n (journal s)). split; [by rewrite take_drop|].
  assert (length (drop n (journal s)) = journalIndex r) as Hlen by (rewrite length_drop; lia).
  split; [done|]. split; [done|]. rewrite V, N. split; [done|]. split; [|done].
  constructor; [by apply (rest_owf t)|done|]. cbn [validRevisions nextRevisionId journal with_journal]. rewrite Hlen.
  constructor.
  - intros a b x y Hab Ha Hb. rewrite lookup_take in Ha, Hb. repeat case_decide; try done. by apply (R1 a b).
  - intros a x Ha. rewrite lookup_take in Ha. case_decide as Hlt; [|done].
    destruct (R1 a i x r Hlt Ha Hi), (R2 a x Ha). lia.
Qed.

Lemma Revert_since s0 id s id' s' :
  since s0 id s -> id < id' -> RevertToSnapshot s id' = Some s' -> since s0 id s'.
Proof.
  intros [Hw (es & J & t & U & B) (extra & V)] Hid Hr.
  destruct (RevertToSnapshot_found _ _ _ Hr) as (i & r & Hi & <-).
  destruct (Revert_swf s i r s' Hw Hi Hr) as (t1 & es1 & rst & J1 & L1 & U1 & -> & Hw' & Hwt).
  (* the revision is above ours *)
  assert (validRevisions s !! length (validRevisions s0) = Some (mkRevision id (length (journal s0)))) as Hk
    by (rewrite V; by apply list_lookup_middle).
  pose proof (sw_revs s Hw) as [R1 _].
  assert (length (validRevisions s0) < i)%nat as Hlt.
  { destruct (Nat.lt_trichotomy i (length (validRevisions s0))) as [Hc|[Hc|Hc] ]; [| |done].
    - destruct (R1 _ _ _ _ Hc Hi Hk). simpl in *. lia.
    - subst i. rewrite Hk in Hi. injection Hi as <-. simpl in Hid. lia. }
  destruct (R1 _ _ _ _ Hlt Hk Hi) as [_ Hji]. simpl in Hji.
  (* hence its entries are the newest of ours *)
  assert (exists es2, es = es1 ++ es2 /\ rst = es2 ++ journal s0) as (es2 & -> & ->).
  { rewrite J in J1. apply app_eq_inv in J1 as [(l & E1 & E2)|(l & E1 & E2)]; [by exists l|].
    assert (l = []) as ->; [|exists []; rewrite ?app_nil_r in *; simpl in *; by subst].
    apply nil_length_inv. rewrite E2, length_app in Hji. lia. }
  rewrite undo_all_app, U1, some_bind in U.
  destruct (entries_split s es1 _ Hw J1) as [_ He]. apply Forall_app in He as [He2 _]. constructor; [done| |].
  - exists es2. split; [done|].
    destruct (undo_all_hist es2 t1 (es2 ++ journal s0) (take i (validRevisions s)) (nextRevisionId s) t He2 Hwt U)
      as (t' & U' & B'). exists t'. split; [done|]. by rewrite <-B'.
  - exists (take (i - length (validRevisions s0) - 1) extra). simpl. rewrite V.
    rewrite take_app_ge by lia.
    replace (i - length (validRevisions s0))%nat with (S (i - length (validRevisions s0) - 1)) at 1 by lia. done.
Qed.

(** The reversal itself. *)
Lemma since_revert s0 id s :
  since s0 id s ->
  exists s3, RevertToSnapshot s id = Some s3 /\ state_eq s3 s0 /\
    journal s3 = journal s0 /\ validRevisions s3 = validRevisions s0 /\ swf s3.
Proof.
  intros [Hw2 (es & J & t & U & B) (extra & V)].
  assert (validRevisions s !! length (validRevisions s0) = Some (mkRevision id (length (journal s0)))) as Hk
    by (rewrite V; by apply list_lookup_middle).
  pose proof (RevertToSnapshot_at s _ _ Hw2 Hk) as Hr. cbn [rid journalIndex] in Hr.
  replace (length (journal s) - length (journal s0))%nat with (length es) in Hr by (rewrite J, length_app; lia).
  rewrite J, take_app_length, drop_app_length, U, some_bind in Hr. eexists. split; [exact Hr|].
  destruct (Revert_swf s _ _ _ Hw2 Hk Hr) as (t1 & _ & _ & _ & _ & _ & _ & Hw3 & _).
  destruct (entries_split s es _ Hw2 J) as [He _].
  destruct (undo_all_owf es s t He (sw_objects _ Hw2) U) as (Hwt & Hh & _). injection Hh as _ Vt _.
  split; [|split; [done|split; [|done] ] ].
  - etrans; [|exact B]. symmetry. apply state_eq_hist.
  - simpl. rewrite Vt, V. by rewrite take_app_length.
Qed.

Lemma since_start s0 : swf s0 -> since s0 (nextRevisionId s0) (Snapshot s0).2.
Proof.
  intros Hw. constructor; [by apply Snapshot_swf| |by exists []].
  exists []. split; [done|]. eexists. split; [done|]. symmetry. apply state_eq_hist.
Qed.

Lemma since_run s0 id ops s s' :
  since s0 id s -> (forall i, opRevert i ∈ ops -> id < i) -> run ops s = Some s' -> since s0 id s'.
Proof.
  revert s. induction ops as [|p ops IH]; intros s Hs Hops; [by intros [= <-]|]. cbn [run].
  destruct (run_op p s) as [s1|] eqn:E; [|done]. rewrite some_bind.
  assert (since s0 id s1) as Hs1.
  { destruct (is_revision p) eqn:Ep.
    - destruct p; try discriminate Ep; cbn [run_op] in E; [injection E as <-; by apply Snapshot_since|].
      apply (Revert_since s0 id s id0); [done| |done]. apply Hops. by left.
    - destruct (run_op_change p s s1 (sw_objects s (si_swf _ _ _ Hs)) Ep E) as [es Hc]. by eapply change_since. }
  apply IH; [done|]. intros i Hi. apply Hops. by right.
Qed.

(** ** Reads of equivalent states *)

Context (code_size : forall h c, (ContractCodeSize h c).1 = Z.of_nat (length (default [] (ContractCode h c).1))).

(** Everything the exported getters return. *)
Record same_reads s s' : Prop := mk_same_reads {
  rd_Exist a : (Exist s a).1 = (Exist s' a).1;
  rd_Empty a : (Empty s a).1 = (Empty s' a).1;
  rd_Balance a : (GetBalance s a).1 = (GetBalance s' a).1;
  rd_Nonce a : (GetNonce s a).1 = (GetNonce s' a).1;
  rd_Code a : (GetCode s a).1 = (GetCode s' a).1;
  rd_CodeSize a : (GetCodeSize s a).1 = (GetCodeSize s' a).1;
  rd_CodeHash a : (GetCodeHash s a).1 = (GetCodeHash s' a).1;
  rd_State a key : fst <$> GetState s a key = fst <$> GetState s' a key;
  rd_Suicided a : (HasSuicided s a).1 = (HasSuicided s' a).1;
  rd_Logs h : GetLogs s h = GetLogs s' h;
  rd_logSize : logSize s = logSize s';
  rd_preimages : preimages s = preimages s';
  rd_refund : refund s = refund s'
}.

Lemma code_size_eq o o' :
  obj_eq o o' ->
  match code o with Some c => Z.of_nat (length c)
  | None => (ContractCodeSize (addrHash o) (BytesToHash (aCodeHash (data o)))).1 end =
  match code o' with Some c => Z.of_nat (length c)
  | None => (ContractCodeSize (addrHash o') (BytesToHash (aCodeHash (data o')))).1 end.
Proof.
  intros He. pose proof (eq_code _ _ He) as Hc. rewrite !codeof_eq in Hc. unfold addrHash in *.
  rewrite <-(eq_address _ _ He), <-(eq_data _ _ He) in *. rewrite code_size.
  destruct (code o) as [c|], (code o') as [c'|]; [by injection Hc as ->| | |done];
    (destruct (bool_decide _); [done|]); [rewrite <-Hc|rewrite Hc]; done.
Qed.

Lemma state_eq_reads s s' : owf s -> state_eq s s' -> same_reads s s'.
Proof.
  intros Hw Hs.
  assert (forall a, match lookup_obj s a, lookup_obj s' a with
    | Some o, Some o' => obj_eq o o' /\ length (aCodeHash (data o)) = 32%nat
    | None, None => True | _, _ => False end) as Ho.
  { intros a. pose proof (se_obj _ _ Hs a) as H. destruct (lookup_obj s a) as [o|] eqn:E; inversion H; [|done].
    split; [done|]. by apply (lookup_obj_ok s a). }
  destruct (se_frame _ _ Hs) as [_ F2 _ _ _ F6 F7 F8].
  constructor; try done; intros a; specialize (Ho a); unfold lookup_obj in Ho;
    unfold Exist, Empty, GetBalance, GetNonce, GetCode, GetCodeSize, GetCodeHash, GetState, HasSuicided;
    destruct (getStateObject s a) as [ [o|] s1], (getStateObject s' a) as [ [o'|] s1']; simpl in Ho; try done;
    destruct Ho as [He Hl].
  - unfold empty. by rewrite (eq_data _ _ He).
  - simpl. by rewrite (eq_data _ _ He).
  - simpl. by rewrite (eq_data _ _ He).
  - pose proof (eq_code _ _ He) as Hc. unfold codeof in Hc. by destruct (obj_Code o), (obj_Code o').
  - pose proof (code_size_eq o o' He) as Hc.
    destruct (code o), (code o'); try done; destruct (ContractCodeSize _ _); try done; by destruct (ContractCodeSize _ _).
  - simpl. by rewrite (eq_data _ _ He).
  - intros key. pose proof (eq_slot _ _ He key) as Hk. unfold slot in Hk.
    destruct (obj_GetState o key) as [ [v p]|], (obj_GetState o' key) as [ [v' p']|]; done.
  - simpl. apply He.
Qed.

(** ** Properties *)

(** C10: [RevertToSnapshot] undoes everything since the snapshot.  Take a
    snapshot, run any sequence of state changes, reads and nested snapshots
    and reversals (of later snapshots) that does not panic, and revert: the
    reversal does not panic, every getter returns what it returned when the
    snapshot was taken, and the journal, the stack of revisions and the
    invariant are those of that state.  The changes may create, overwrite,
    self-destruct and touch accounts, in any order. *)
Theorem RevertToSnapshot_restores s0 ops s2 :
  swf s0 ->
  let '(id, s1) := Snapshot s0 in
  (forall i, opRevert i ∈ ops -> id < i) ->
  run ops s1 = Some s2 ->
  exists s3, RevertToSnapshot s2 id = Some s3 /\ same_reads s3 s0 /\
    journal s3 = journal s0 /\ validRevisions s3 = validRevisions s0 /\ swf s3.
Proof.
  intros Hw. simpl. intros Hops Hrun.
  destruct (since_revert s0 _ s2 (since_run s0 _ ops _ s2 (since_start s0 Hw) Hops Hrun)) as (s3 & Hr & He & Hj & Hv & Hw3).
  exists s3. split; [done|]. split; [by apply state_eq_reads; [apply Hw3|]|done].
Qed.

End Revert.

(** ** A state over maps *)

Module Sample.

(** Tries are maps, and the database opens the trie [t0]. *)
Definition mapDB (t0 : gmap (list Z) (list Z)) : Database := {|
  trie := gmap (list Z) (list Z);
  db_error := unit;
  TryGet t k := (t !! k, None);
  TryUpdate t k v := (<[k := v]> t, None);
  TryDelete t k := (delete k t, None);
  Hash_of _ := zeroHash;
  OpenTrie _ := inr t0;
  OpenStorageTrie _ _ := inr ∅;
  ContractCode _ _ := (None, Some tt);
  ContractCodeSize _ _ := (0, Some tt);
  dbw := gmap (list Z) (list Z);
  Put w k v := inr (<[k := v]> w);
  Trie_CommitTo t w := inr (zeroHash, t, w);
  Keccak256 b := replicate 31 0 ++ [u8 (Z.of_nat (length b))];
  AddressLength := 23
|}.

#[local] Instance emptyDB : Database := mapDB ∅.

Definition alice : Address := replicate 22 0 ++ [1].
Definition bob : Address := replicate 22 0 ++ [2].
Definition one : Hash := replicate 31 0 ++ [1].

(** An account in the trie. *)
Definition account_enc (a : Account) : list Z :=
  match encodeAccount a with Ok e => e | _ => [] end.

Definition s0 : StateDB :=
  mkState {[ alice := account_enc (mkAccount 7 100 zeroHash emptyCodeHash) ]} ∅ ∅ None 0 zeroHash zeroHash 0 ∅ 0 ∅ [] [] 0.

Definition ops : list op :=
  [opSubBalance alice 30; opAddBalance bob 30; opSetState bob one one; opSnapshot; opCreateAccount alice;
   opSetCode alice (Some [1; 2; 3]); opRevert 1; opSuicide alice; opAddBalance bob 0;
   opAddLog (mkLog bob [one] [9] 1 zeroHash 0 zeroHash 0); opAddRefund 5; opGetState bob zeroHash].

Lemma s0_swf : swf s0.
Proof.
  constructor; [|constructor|].
  - constructor; try (intros a o Ho; simpl in Ho; by rewrite lookup_empty in Ho); [|done].
    intros a acc. unfold loadAccount. change (TryGet (strie s0) a) with (strie s0 !! a, @None unit). simpl.
    destruct (decide (a = alice)) as [->|Hne].
    + rewrite lookup_singleton_eq. intros E.
      assert (Some (mkAccount 7 100 zeroHash emptyCodeHash) = Some acc) as [= <-] by (rewrite <-E; by vm_compute). done.
    + by rewrite lookup_singleton_ne.
  - constructor; [intros i j r r' _ Hi|intros i r Hi]; simpl in Hi; by rewrite lookup_nil in Hi.
Qed.

Definition s2 : StateDB := default s0 (run ops (Snapshot s0).2).

Lemma run_s2 : run ops (Snapshot s0).2 = Some s2.
Proof.
  assert ((if run ops (Snapshot s0).2 then true else false) = true) as H by (vm_compute; reflexivity).
  unfold s2. destruct (run ops (Snapshot s0).2); [reflexivity|discriminate H].
Qed.

Lemma ops_later : forall i, opRevert i ∈ ops -> 0 < i.
Proof.
  intros i Hi. unfold ops in Hi. rewrite !elem_of_cons, elem_of_nil in Hi.
  destruct_or! Hi; try discriminate Hi. injection Hi as ->. lia.
Qed.

Lemma RevertToSnapshot_restores_witness :
  (GetBalance s2 bob).1 = 30 /\ (GetBalance s2 alice).1 = 0 /\
  exists s3, RevertToSnapshot s2 0 = Some s3 /\ (GetBalance s3 alice).1 = 100 /\ (Exist s3 bob).1 = false /\ same_reads s3 s0.
Proof.
  split; [vm_compute; reflexivity|]. split; [vm_compute; reflexivity|].
  assert (exists s3, RevertToSnapshot s2 0 = Some s3 /\ same_reads s3 s0 /\
    journal s3 = journal s0 /\ validRevisions s3 = validRevisions s0 /\ swf s3) as (s3 & Hr & Hs & _).
  { refine (RevertToSnapshot_restores (DB := emptyDB) _ _ s0 ops s2 s0_swf ops_later run_s2).
    - intros b. apply length_app.
    - intros h c. reflexivity. }
  exists s3. split; [exact Hr|]. split; [rewrite (rd_Balance _ _ Hs); vm_compute; reflexivity|].
  split; [rewrite (rd_Exist _ _ Hs); vm_compute; reflexivity|]. exact Hs.
Defined.

End Sample.
