(* ===== verification/StateCodec.v ===== *)
(** * The encodings of the state

    Accounts in the main trie ([Account] of [state_object.go], written by
    [updateStateObject] and read by [getStateObject]) and storage slots
    (written by [updateTrie], read by [GetState]) survive the trip through
    their RLP encodings. *)
From S2P Require Import Prelude Rlp RlpStream Types State.

Lemma EncodeToBytes_ok v b :
  value_ok v -> rlp v = Ok b -> Z.of_nat (length b) < 2 ^ 64 -> EncodeToBytes v = Ok b.
Proof.
  intros Hv E Hlen. pose proof (writer_ok v Hv reset_buf) as Hw. rewrite E in Hw. unfold EncodeToBytes.
  destruct Hw as (w & -> & Hw). rewrite ok_bind. destruct (reset_writes w b (Hw Hlen)) as (Hp & Hs & Hf).
  by rewrite toBytes_ok, Hf.
Qed.

(** ** Decoders of one field *)

(** [dec] reads the encoding [b] as [a]. *)
Definition field_ok {A} (dec : SM A) (a : A) (b : list Z) : Prop := forall s rest,
  inv s -> kind s = None -> bytes (input s) -> input s = b ++ rest -> Z.of_nat (length b) <= room s ->
  exists s', dec s = (inl a, s') /\ consumed s b s' /\ input s' = rest.

Lemma SM_bind_ok {A B} (dec : SM A) (k : A -> SM B) s a s' :
  dec s = (inl a, s') -> (dec ≫= k) s = k a s'.
Proof. intros E. unfold mbind, SM_bind. by rewrite E. Qed.

Lemma uint_field i : 0 <= i < 2 ^ 64 -> field_ok (uint 64) i (enc_str (min_bytes i)).
Proof.
  intros Hi s rest Hs Hk Hb Hin Hr. destruct (uint_complete s i rest Hs Hk Hi Hin Hr) as (s' & E & Hin').
  exists s'. split; [done|]. split; [|done]. by destruct (uint_sound s i s' Hs Hk Hb E).
Qed.

Lemma Bytes_field b : bytes b -> field_ok Bytes b (enc_str b).
Proof.
  intros Hb s rest Hs Hk _ Hin Hr.
  destruct (Bytes_complete s b rest Hs Hk Hb Hin Hr) as (k & sz & h & s1 & s2 & EK & Hv & _ & EB & Hco & Hin').
  exists s2. split; [|done]. unfold Bytes in *. rewrite (SM_bind_ok _ _ _ _ _ EK).
  by rewrite (SM_bind_ok _ _ _ _ _ (Kind_cached _ _ _ _ _ Hv)) in EB.
Qed.

Lemma big_Bytes_spec i : 0 < i -> be_get (big_Bytes i) = i /\ default 0 (big_Bytes i !! 0%nat) <> 0.
Proof.
  intros Hi. unfold big_Bytes. pose proof (Z.log2_nonneg i) as Hn. destruct (Z.log2_spec i Hi) as [Hlo Hhi].
  set (k := Z.to_nat ((Z.log2 i + 8) / 8)).
  assert (Z.of_nat k = (Z.log2 i + 8) / 8) as Hk by (unfold k; rewrite Z2Nat.id; [done|apply Z.div_pos; lia]).
  assert (8 * (Z.of_nat k - 1) <= Z.log2 i < 8 * Z.of_nat k) as Hb by lia.
  assert (i < 256 ^ Z.of_nat k) as Hlt.
  { change 256 with (2 ^ 8). rewrite <-Z.pow_mul_r by lia. eapply Z.lt_le_trans; [exact Hhi|]. apply Z.pow_le_mono_r; lia. }
  assert (be_get (be_put k i) = i) as Hg by (apply be_get_put_small; lia). split; [done|].
  pose proof (be_put_bytes k i) as Hby. pose proof (length_be_put k i) as Hl.
  destruct (be_put k i) as [|c l] eqn:E; [simpl in Hl; lia|]. simpl. intros ->.
  rewrite be_get_cons in Hg. assert (bytes l) as Hby' by (by inversion Hby). pose proof (be_get_bound l Hby') as Hbd.
  assert (256 ^ Z.of_nat (length l) <= i); [|lia].
  transitivity (2 ^ Z.log2 i); [|lia]. change 256 with (2 ^ 8). rewrite <-Z.pow_mul_r by lia.
  apply Z.pow_le_mono_r; [lia|]. simpl in Hl. lia.
Qed.

Lemma min_bytes_big i :
  0 <= i -> bytes (min_bytes i) /\ be_get (min_bytes i) = i /\ (i <> 0 -> default 0 (min_bytes i !! 0%nat) <> 0).
Proof.
  intros Hi. unfold min_bytes. destruct (Z.eqb_spec i 0) as [->|]; [split; [constructor|done]|].
  destruct (big_Bytes_spec i) as [H1 H2]; [lia|]. split; [apply be_put_bytes|done].
Qed.

Lemma decodeBigInt_field i : 0 <= i -> field_ok decodeBigInt i (enc_str (min_bytes i)).
Proof.
  intros Hi s rest Hs Hk Hb Hin Hr. destruct (min_bytes_big i Hi) as (Hby & Hg & H0).
  destruct (Bytes_field _ Hby s rest Hs Hk Hb Hin Hr) as (s' & E & Hco & Hin'). exists s'. split; [|done].
  unfold decodeBigInt. rewrite (SM_bind_ok _ _ _ _ _ E). rewrite Hg.
  destruct (Z.eq_dec i 0) as [->|Hne]; [done|]. rewrite (proj2 (Z.eqb_neq _ _) (H0 Hne)), andb_false_r. done.
Qed.

(** A byte array of more than one byte. *)
Lemma decodeByteArray_field (n : nat) b :
  (1 < n)%nat -> length b = n -> bytes b -> field_ok (decodeByteArray n) b (enc_str b).
Proof.
  intros Hn Hl Hb s rest Hs Hk _ Hin Hr. pose proof Hs as [_ _ Hsm _ Hro].
  destruct (bytes_str_header b Hb) as (k & sz & h & bv & c & Hh & Hkl & E & Hc & Hpos & Hbyte & Hstr); [lia|].
  destruct k; [by rewrite (Hbyte eq_refl) in Hl; simpl in Hl; lia| |done]. destruct (Hstr eq_refl) as [-> Hlong].
  destruct (Kind_complete s String sz h bv (b ++ rest) Hs Hk Hh) as (s1 & EK & Hv & Hin1 & _);
    [by rewrite Hin, E, <-app_assoc|rewrite E, length_app in Hr; lia|done|].
  destruct (at_value_room s String sz h s1 Hs Hv) as (Hi1 & Hsz & Hr1).
  pose proof (readFull_spec n s1 Hi1) as Hrf. rewrite (proj2 (Z.leb_le _ _)) in Hrf by lia.
  rewrite Hin1, take_app_length' in Hrf by done.
  unfold decodeByteArray. rewrite (SM_bind_ok _ _ _ _ _ EK).
  rewrite (proj2 (Z.ltb_ge (Z.of_nat n) sz)), (proj2 (Z.ltb_ge sz (Z.of_nat n))) by lia.
  rewrite (SM_bind_ok _ _ _ _ _ Hrf). rewrite (proj2 (Z.eqb_neq sz 1)) by lia. simpl andb. cbn iota.
  eexists. split; [reflexivity|]. split; [|simpl; by rewrite Hin1, drop_app_length'].
  destruct Hv as [_ Hinv Hm _ _ _ _]. split; [|rewrite E, length_app; eapply moved_trans; [done|]|done].
  - simpl. rewrite Hin1, drop_app_length' by done. done.
  - rewrite Hl. apply read_state_moved; [done|lia].
Qed.

(** ** Structs *)

Lemma field_step {A} (dec : SM A) a b s rest :
  field_ok dec a b -> inv s -> kind s = None -> bytes (input s) -> input s = b ++ rest ->
  Z.of_nat (length b) <= room s ->
  exists s', dec s = (inl a, s') /\ consumed s b s' /\ input s' = rest /\ inv s' /\ kind s' = None /\
    bytes (input s') /\ room s' = room s - Z.of_nat (length b).
Proof.
  intros Hf Hs Hk Hb Hin Hr. destruct (Hf s rest Hs Hk Hb Hin Hr) as (s' & E & Hco & Hin'). exists s'.
  pose proof Hco as [_ Hm Hk']. split; [done|]. split; [done|]. split; [done|]. split; [apply Hm|]. split; [done|].
  split; [by eapply consumed_bytes|]. apply (moved_room _ _ _ Hm). rewrite Hin, length_app. lia.
Qed.

(** Entering a list that holds [p], at the start of a byte string. *)
Lemma list_start p :
  Z.of_nat (length (enc_list p)) < 2 ^ 64 ->
  exists h s1, let s := NewStream (enc_list p) in let sz := Z.of_nat (length p) in
    List_ s = (inl sz, enter s1 sz) /\ at_value s List sz h s1 /\ inv s /\
    input (enter s1 sz) = p /\ inv (enter s1 sz) /\ room (enter s1 sz) = sz.
Proof.
  intros Hlen. set (s := NewStream (enc_list p)). set (sz := Z.of_nat (length p)).
  pose proof (NewStream_inv _ Hlen) as Hs. fold s in Hs. unfold enc_list in Hlen. rewrite length_app in Hlen. fold sz in Hlen.
  destruct (length_puthead 0xC0 0xF7 sz) as [Hlh Hrh]; [lia|].
  assert (RlpStream.header List sz (puthead 0xC0 0xF7 sz) 0) as Hh by (simpl; split; [done|lia]).
  destruct (Kind_complete s List sz (puthead 0xC0 0xF7 sz) 0 p Hs eq_refl Hh eq_refl) as (s1 & EK & Hv & Hin1 & _).
  - unfold room. simpl. unfold enc_list. rewrite length_app. fold sz. lia.
  - lia.
  - exists (puthead 0xC0 0xF7 sz), s1. destruct (enter_inv _ _ _ _ Hs Hv) as [Hie Hre].
    split; [|done]. unfold List_. rewrite (SM_bind_ok _ _ _ _ _ EK). rewrite decide_True by done. done.
Qed.

(** ** Accounts *)

Record account_ok (a : Account) : Prop := mk_account_ok {
  ac_nonce : 0 <= aNonce a < 2 ^ 64;
  ac_balance : 0 <= aBalance a < 2 ^ 256;
  ac_root : length (aRoot a) = 32%nat /\ bytes (aRoot a);
  ac_code : length (aCodeHash a) = 32%nat /\ bytes (aCodeHash a)
}.

Definition account_fields (a : Account) : list Z :=
  enc_str (min_bytes (aNonce a)) ++ enc_str (min_bytes (aBalance a)) ++ enc_str (aRoot a) ++ enc_str (aCodeHash a).

Lemma enc_str_bytes b : bytes b -> Z.of_nat (length b) < 2 ^ 64 -> bytes (enc_str b).
Proof.
  intros Hb Hl. destruct (enc_str_cases b) as [(x & -> & Hx & -> & _)|(_ & -> & _)]; [done|].
  apply bytes_app. split; [|done]. unfold puthead. destruct (Z.ltb_spec (Z.of_nat (length b)) 56).
  - constructor; [|constructor]. unfold is_byte, u8. apply Z.mod_pos_bound. lia.
  - destruct (putint_spec (Z.of_nat (length b))) as (_ & -> & _); [lia|].
    constructor; [unfold is_byte, u8; apply Z.mod_pos_bound; lia|apply be_put_bytes].
Qed.

Lemma min_bytes_length i (n : nat) : 0 <= i < 256 ^ Z.of_nat n -> (length (min_bytes i) <= n)%nat.
Proof.
  intros Hi. unfold min_bytes. destruct (Z.eqb_spec i 0); [simpl; lia|]. unfold big_Bytes. rewrite length_be_put.
  assert (Z.log2 i < 8 * Z.of_nat n); [|lia].
  apply Z.log2_lt_pow2; [lia|]. rewrite Z.pow_mul_r by lia. change (2 ^ 8) with 256. lia.
Qed.

Lemma enc_str_short b : (length b <= 55)%nat -> (length (enc_str b) <= S (length b))%nat.
Proof.
  intros Hl. destruct (enc_str_cases b) as [(x & -> & _ & -> & _)|(_ & -> & _)]; [simpl; lia|].
  rewrite length_app. unfold puthead. rewrite (proj2 (Z.ltb_lt _ _)) by lia. simpl. lia.
Qed.

Lemma account_fields_ok a :
  account_ok a -> bytes (account_fields a) /\ (length (account_fields a) <= 108)%nat.
Proof.
  intros [Hn Hb [Hr Hrb] [Hc Hcb] ]. unfold account_fields.
  destruct (min_bytes_big (aNonce a)) as (Nb & _); [lia|]. destruct (min_bytes_big (aBalance a)) as (Bb & _); [lia|].
  pose proof (min_bytes_length (aNonce a) 8 ltac:(lia)). pose proof (min_bytes_length (aBalance a) 32 ltac:(lia)).
  pose proof (enc_str_short (min_bytes (aNonce a)) ltac:(lia)). pose proof (enc_str_short (min_bytes (aBalance a)) ltac:(lia)).
  pose proof (enc_str_short (aRoot a) ltac:(lia)). pose proof (enc_str_short (aCodeHash a) ltac:(lia)).
  split; [|rewrite !length_app; lia].
  rewrite !bytes_app. split; [|split; [|split] ]; apply enc_str_bytes; (done || lia).
Qed.

Lemma encodeAccount_eq a : account_ok a -> encodeAccount a = Ok (enc_list (account_fields a)).
Proof.
  intros Ha. destruct (account_fields_ok a Ha) as [_ Hl]. destruct Ha as [Hn Hb _ _].
  apply EncodeToBytes_ok; [by simpl| |].
  - simpl. rewrite (proj2 (Z.ltb_ge (aBalance a) 0)) by lia. simpl. rewrite app_nil_r. unfold account_fields. done.
  - unfold enc_list. rewrite length_app. destruct (length_puthead 0xC0 0xF7 (Z.of_nat (length (account_fields a)))); [lia|]. lia.
Qed.

(** What [updateStateObject] writes, [getStateObject] reads. *)
Lemma account_roundtrip a :
  account_ok a -> exists enc, encodeAccount a = Ok enc /\ enc <> [] /\ decodeAccount enc = Some a.
Proof.
  intros Ha. rewrite (encodeAccount_eq a Ha). eexists. split; [done|].
  destruct (account_fields_ok a Ha) as [Hby Hl]. destruct Ha as [Hn Hb [Hr Hrb] [Hc Hcb] ].
  destruct (length_puthead 0xC0 0xF7 (Z.of_nat (length (account_fields a)))) as [Hlh Hrh]; [lia|].
  assert (Z.of_nat (length (enc_list (account_fields a))) < 2 ^ 64) as Hlen by (unfold enc_list; rewrite length_app; lia).
  split; [intros E; unfold enc_list in E; apply app_eq_nil in E as [E _]; rewrite E in Hlh; simpl in Hlh; lia|].
  unfold decodeAccount, DecodeBytes_with.
  destruct (list_start _ Hlen) as (h & s1 & EL & Hv & Hi0 & Hin & Hie & Hre).
  set (s := NewStream _) in *. set (sz := Z.of_nat _) in *. unfold account_decoder.
  rewrite (SM_bind_ok _ _ _ _ _ EL).
  assert (bytes (input (enter s1 sz))) as Hbe by (by rewrite Hin).
  unfold account_fields in Hin, Hby. rewrite <-?app_assoc in Hin.
  assert (Z.of_nat (length (account_fields a)) = sz) as Hsz by done. unfold account_fields in Hsz. rewrite !length_app in Hsz.
  destruct (field_step _ _ _ _ _ (uint_field _ Hn) Hie eq_refl Hbe Hin) as (s2 & E2 & C2 & I2 & V2 & K2 & B2 & R2); [lia|].
  rewrite (SM_bind_ok _ _ _ _ _ E2).
  destruct (field_step _ _ _ _ _ (decodeBigInt_field (aBalance a) ltac:(lia)) V2 K2 B2 I2) as (s3 & E3 & C3 & I3 & V3 & K3 & B3 & R3); [lia|].
  rewrite (SM_bind_ok _ _ _ _ _ E3).
  destruct (field_step _ _ _ _ _ (decodeByteArray_field 32 (aRoot a) ltac:(lia) Hr Hrb) V3 K3 B3 I3)
    as (s4 & E4 & C4 & I4 & V4 & K4 & B4 & R4); [lia|].
  rewrite (SM_bind_ok _ _ _ _ _ E4). rewrite <-(app_nil_r (enc_str (aCodeHash a))) in I4.
  destruct (field_step _ _ _ _ _ (Bytes_field _ Hcb) V4 K4 B4 I4) as (s5 & E5 & C5 & I5 & V5 & K5 & B5 & R5); [lia|].
  rewrite (SM_bind_ok _ _ _ _ _ E5).
  pose proof (consumed_trans _ _ _ _ _ C2 (consumed_trans _ _ _ _ _ C3 (consumed_trans _ _ _ _ _ C4 C5))) as Hco.
  destruct (ListEnd_at s sz h s1 _ s5 Hi0 Hv (co_moved _ _ _ Hco)) as (s6 & E6 & _ & _ & I6); [rewrite !length_app; lia|].
  rewrite (SM_bind_ok _ _ _ _ _ E6). unfold mret, SM_ret. rewrite I6, I5. simpl. by destruct a.
Qed.

(** ** Storage slots *)

Lemma trim_left_split b : exists n, b = replicate n 0 ++ trim_left b.
Proof.
  induction b as [|x b [n IH] ]; [by exists 0%nat|]. simpl. destruct (Z.eqb_spec x 0) as [->|].
  - exists (S n). simpl. by rewrite <-IH.
  - by exists 0%nat.
Qed.

Lemma BytesToHash_trim v : length v = 32%nat -> BytesToHash (trim_left v) = v.
Proof.
  intros Hl. destruct (trim_left_split v) as [n E]. assert (n + length (trim_left v) = 32)%nat as Hn.
  { apply (f_equal length) in E. rewrite length_app, length_replicate in E. lia. }
  unfold BytesToHash, BytesToN. replace (length (trim_left v) - 32)%nat with 0%nat by lia. rewrite drop_0.
  replace (32 - length (trim_left v))%nat with n by lia. by symmetry.
Qed.

Section Slots.
Context {DB : Database}.

(** What [updateTrie] writes for a slot, [GetState] reads. *)
Lemma slot_roundtrip v :
  length v = 32%nat -> bytes v ->
  exists enc, EncodeToBytes (VBytes (trim_left v)) = Ok enc /\ enc <> [] /\ decode_slot (Some enc) = Some (v, None).
Proof.
  intros Hl Hb. destruct (trim_left_split v) as [n E].
  assert (bytes (trim_left v)) as Hbt by (rewrite E in Hb; by apply bytes_app in Hb as [_ ?]).
  assert (length (trim_left v) <= 32)%nat as Hlt by (apply (f_equal length) in E; rewrite length_app in E; lia).
  pose proof (enc_str_short (trim_left v) ltac:(lia)) as Hs. pose proof (enc_str_nonempty (trim_left v)).
  exists (enc_str (trim_left v)). split; [apply EncodeToBytes_ok; [done|done|lia]|].
  split; [intros E0; rewrite E0 in *; simpl in *; lia|].
  pose proof (Split_enc_str (trim_left v) [] Hbt) as Hsp. rewrite app_nil_r in Hsp. unfold decode_slot.
  rewrite Hsp by lia. rewrite BytesToHash_trim by done. destruct (enc_str (trim_left v)); [simpl in *; lia|done].
Qed.

End Slots.
