(* ===== verification/StateFinalise.v ===== *)
(** * Writing the state to the tries

    [Finalise] of [src/core/state/statedb.go] writes the dirty objects, and
    only those, to the account trie, for every order in which Go may range
    over its maps.  The rest of the file shows two ways in which a change
    misses this: an account whose touch was reverted is never marked dirty
    again, and a copy of the state shares its account trie with the original. *)
From S2P Require Import Prelude Rlp RlpStream Types State StateRevert StateCodec.

(** The tries as maps with all their nodes at hand, see [trie_refines_map]
    for the trie package. *)
Class TrieLaws `{DB : Database} := {
  get_update t k v k' : v <> [] -> TryGet (TryUpdate t k v).1 k' = if decide (k' = k) then (Some v, None) else TryGet t k';
  update_ok t k v : (TryUpdate t k v).2 = None;
  get_delete t k k' : TryGet (TryDelete t k).1 k' = if decide (k' = k) then (None, None) else TryGet t k';
  delete_ok t k : (TryDelete t k).2 = None;
  open_zero h : exists t, OpenStorageTrie h zeroHash = inr t;
  hash_ok t : length (Hash_of t) = 32%nat /\ bytes (Hash_of t);
  keccak_ok b : length (Keccak256 b) = 32%nat /\ bytes (Keccak256 b)
}.

Section Finalise.
Context {DB : Database} {MO : MapOrder} {TL : TrieLaws}.
Implicit Types (s t : StateDB) (o : stateObject) (a : Address).

(** ** Storage *)

Definition slots_ok (m : gmap Hash Hash) : Prop := forall key v, m !! key = Some v -> length v = 32%nat /\ bytes v.

Lemma write_slot_get tr key v k :
  length v = 32%nat -> bytes v ->
  trie_slot (write_slot tr key v).1 k = if decide (k = key) then Some v else trie_slot tr k.
Proof.
  intros Hl Hb. unfold write_slot. case_bool_decide as Hz.
  - pose proof (get_delete tr key k) as Hg. destruct (TryDelete tr key) as [tr' e]. simpl in *.
    unfold trie_slot. rewrite Hg. repeat case_decide; [by rewrite Hz|done|done|done].
  - destruct (slot_roundtrip v Hl Hb) as (enc & -> & Hne & Hd).
    pose proof (get_update tr key enc k Hne) as Hg. destruct (TryUpdate tr key enc) as [tr' e]. cbn [fst] in Hg |- *.
    unfold trie_slot. rewrite Hg. repeat case_decide; [by rewrite Hd|done|done|done].
Qed.

Lemma write_slots_spec kvs tr o :
  NoDup kvs.*1 -> (forall key v, (key, v) ∈ kvs -> length v = 32%nat /\ bytes v) ->
  let r := write_slots kvs tr o in
  (forall k, trie_slot r.1 k = match list_to_map (M := gmap Hash Hash) kvs !! k with Some v => Some v | None => trie_slot tr k end) /\
  data r.2 = data o /\ address r.2 = address o /\ suicided r.2 = suicided o /\ deleted r.2 = deleted o.
Proof.
  revert tr o. induction kvs as [|[key v] kvs IH]; intros tr o Hnd Hok; simpl.
  - split; [|done]. intros k. by rewrite lookup_empty.
  - destruct (write_slot tr key v) as [tr' e] eqn:Ew. simpl in Hnd. apply NoDup_cons in Hnd as [Hnin Hnd].
    destruct (IH tr' (obj_setError (set_storage o (cachedStorage o) (delete key (dirtyStorage o))) e) Hnd) as (Hk & Hrest);
      [intros; eapply Hok; by right|].
    split; [|done]. intros k. rewrite Hk. destruct (Hok key v) as [Hl Hb]; [by left|].
    pose proof (write_slot_get tr key v k Hl Hb) as Hw. rewrite Ew in Hw. simpl in Hw.
    destruct (decide (k = key)) as [->|Hne].
    + rewrite lookup_insert_eq. assert (list_to_map (M := gmap Hash Hash) kvs !! key = None) as ->; [|done].
      by apply not_elem_of_list_to_map_1.
    + rewrite lookup_insert_ne by done. by rewrite Hw.
Qed.

Lemma getTrie_some o : exists tr o1, getTrie o = Some (tr, o1).
Proof.
  unfold getTrie. destruct (otrie o); [eauto|]. destruct (OpenStorageTrie _ (aRoot (data o))); [|eauto].
  destruct (open_zero (addrHash o)) as [t0 ->]. eauto.
Qed.

(** The storage trie [updateTrie] leaves. *)
Lemma updateTrie_spec o :
  slots_ok (dirtyStorage o) ->
  exists tr o1, updateTrie o = Some (tr, o1) /\
    (forall k, trie_slot tr k = match dirtyStorage o !! k with Some v => Some v | None => tr0 ← obj_trie o; trie_slot tr0 k end) /\
    data o1 = data o /\ address o1 = address o /\ suicided o1 = suicided o /\ deleted o1 = deleted o.
Proof.
  intros Hok. unfold updateTrie. destruct (getTrie_some o) as (tr & o1 & E). rewrite E, some_bind.
  destruct (getTrie_obj _ _ _ E) as (_ & Ht & _ & Ha & Hd & _ & Hs & Hde).
  assert (dirtyStorage o1 = dirtyStorage o) as Hds.
  { unfold getTrie in E. destruct (otrie o); [by injection E as <- <-|].
    destruct (OpenStorageTrie _ (aRoot (data o))); [|by injection E as <- <-].
    destruct (OpenStorageTrie _ _); [done|]. by injection E as <- <-. }
  pose proof (range_perm (dirtyStorage o1)) as Hp.
  destruct (write_slots_spec (range_map (dirtyStorage o1)) tr o1) as (Hk & Hd1 & Ha1 & Hs1 & Hde1).
  - rewrite Hp. apply NoDup_fst_map_to_list.
  - intros key v Hin. rewrite Hp in Hin. apply elem_of_map_to_list in Hin. rewrite Hds in Hin. by eapply Hok.
  - destruct (write_slots _ _ _) as [tr' o2]. simpl in *. exists tr', (set_otrie o2 (Some tr')).
    split; [done|]. split; [|repeat split; simpl; congruence].
    intros k. rewrite Hk, Ht, some_bind, <-Hds.
    by rewrite (list_to_map_proper _ (map_to_list (dirtyStorage o1))), list_to_map_to_list;
      [|rewrite Hp; apply NoDup_fst_map_to_list|].
Qed.

(** ** Accounts *)

(** An object that can be written. *)
Record writable a o : Prop := mk_writable {
  wr_addr : address o = a;
  wr_nonce : 0 <= aNonce (data o) < 2 ^ 64;
  wr_balance : 0 <= aBalance (data o) < 2 ^ 256;
  wr_code : length (aCodeHash (data o)) = 32%nat /\ bytes (aCodeHash (data o));
  wr_slots : slots_ok (dirtyStorage o)
}.

(** What the trie has for [a] once [o] was finalised. *)
Definition finalised (del : bool) o (acc : option Account) : Prop :=
  if suicided o || (del && empty o) then acc = None
  else exists tr, acc = Some (mkAccount (aNonce (data o)) (aBalance (data o)) (Hash_of tr) (aCodeHash (data o))) /\
    forall k, trie_slot tr k = match dirtyStorage o !! k with Some v => Some v | None => tr0 ← obj_trie o; trie_slot tr0 k end.

Lemma loadAccount_ext (tr tr' : trie) a : TryGet tr a = TryGet tr' a -> loadAccount tr a = loadAccount tr' a.
Proof. unfold loadAccount. by intros ->. Qed.

Lemma deleteStateObject_spec s o :
  let s' := deleteStateObject s o in
  stateObjects s' = <[address o := set_flags o (suicided o) (touched o) true (onDirty o)]> (stateObjects s) /\
  stateObjectsDirty s' = stateObjectsDirty s /\ strie s' = (TryDelete (strie s) (address o)).1.
Proof. unfold deleteStateObject. simpl. by destruct (TryDelete _ _). Qed.

Lemma finalise_one_spec del s a o :
  stateObjects s !! a = Some o -> writable a o ->
  exists s', finalise_one del s a = Some s' /\ finalised del o (loadAccount (strie s') a) /\
    (suicided o || (del && empty o) = true -> exists o', stateObjects s' !! a = Some o' /\ deleted o' = true) /\
    (forall b, b <> a -> TryGet (strie s') b = TryGet (strie s) b /\ stateObjects s' !! b = stateObjects s !! b) /\
    stateObjectsDirty s' = stateObjectsDirty s.
Proof.
  intros Ho [Ha Hn Hb Hc Hs]. unfold finalise_one. rewrite Ho, some_bind. unfold finalised.
  destruct (suicided o || (del && empty o)) eqn:Hdel.
  - exists (deleteStateObject s o). split; [reflexivity|]. destruct (deleteStateObject_spec s o) as (E1 & E2 & E3).
    rewrite E1, E2, E3, Ha. split; [unfold loadAccount; by rewrite get_delete, decide_True|].
    split; [intros _; eexists; by rewrite lookup_insert_eq|].
    split; [|done]. intros b Hb'. rewrite get_delete, decide_False by done. by rewrite lookup_insert_ne.
  - unfold updateRoot. destruct (updateTrie_spec o Hs) as (tr & o1 & -> & Hk & Hd1 & Ha1 & _). rewrite !some_bind.
    unfold updateStateObject. simpl. rewrite Hd1.
    set (acc := mkAccount _ _ _ _). assert (account_ok acc) as Hacc by (constructor; [done|done|apply hash_ok|done]).
    destruct (account_roundtrip acc Hacc) as (enc & -> & Hne & Hdec). rewrite Ha1, Ha.
    pose proof (fun k => get_update (strie s) a enc k Hne) as Hg. destruct (TryUpdate (strie s) a enc) as [tr' e]. simpl in *.
    eexists. split; [reflexivity|]. simpl. split.
    + exists tr. split; [|done]. unfold loadAccount. rewrite Hg, decide_True by done. simpl. by destruct enc.
    + split; [done|]. split; [|done]. intros b Hb'. rewrite Hg, decide_False by done. simpl. rewrite ?Ha1, ?Ha. by rewrite lookup_insert_ne by done.
Qed.

Lemma finalise_all_spec del addrs s :
  NoDup addrs -> (forall a, a ∈ addrs -> exists o, stateObjects s !! a = Some o /\ writable a o) ->
  exists s', finalise_all del addrs s = Some s' /\
    (forall a, a ∉ addrs -> TryGet (strie s') a = TryGet (strie s) a /\ stateObjects s' !! a = stateObjects s !! a) /\
    (forall a o, a ∈ addrs -> stateObjects s !! a = Some o -> finalised del o (loadAccount (strie s') a) /\
       (suicided o || (del && empty o) = true -> exists o', stateObjects s' !! a = Some o' /\ deleted o' = true)) /\
    stateObjectsDirty s' = stateObjectsDirty s.
Proof.
  intros Hnd. revert s. induction Hnd as [|a addrs Hnin Hnd IH]; intros s Hw.
  - exists s. split; [done|]. split; [done|]. split; [|done]. intros a o Ha. by apply elem_of_nil in Ha.
  - destruct (Hw a) as (o & Ho & Hwo); [by left|].
    destruct (finalise_one_spec del s a o Ho Hwo) as (s1 & E1 & Hf & Hdel & Hne & Hd1). simpl. rewrite E1, some_bind.
    destruct (IH s1) as (s2 & E2 & Hout & Hin & Hd2).
    { intros b Hb. destruct (Hw b) as (p & Hp & Hwp); [by right|]. exists p. split; [|done].
      destruct (Hne b) as [_ ->]; [by intros ->|done]. }
    exists s2. split; [done|]. split; [|split; [|congruence] ].
    + intros b Hb. apply not_elem_of_cons in Hb as [Hba Hb]. destruct (Hout b Hb) as [-> ->]. by apply Hne.
    + intros b p Hb Hp. apply elem_of_cons in Hb as [->|Hb].
      * rewrite Ho in Hp. injection Hp as <-. destruct (Hout a Hnin) as [Et Eo].
        rewrite (loadAccount_ext _ _ _ Et), Eo. done.
      * apply Hin; [done|]. destruct (Hne b) as [_ ->]; [by intros ->|done].
Qed.

Lemma range_dirty_spec s : NoDup (range_dirty s) /\ forall a, a ∈ range_dirty s <-> a ∈ stateObjectsDirty s.
Proof.
  unfold range_dirty. pose proof (range_perm (gset_to_gmap () (stateObjectsDirty s))) as Hp. split.
  - rewrite Hp. apply NoDup_fst_map_to_list.
  - intros a. rewrite Hp, list_elem_of_fmap. split.
    + intros ([b []] & -> & Hin). apply elem_of_map_to_list, lookup_gset_to_gmap_Some in Hin. by destruct Hin.
    + intros Ha. exists (a, ()). split; [done|]. apply elem_of_map_to_list, lookup_gset_to_gmap_Some. done.
Qed.

Lemma Finalise_spec s del :
  (forall a, a ∈ stateObjectsDirty s -> exists o, stateObjects s !! a = Some o /\ writable a o) ->
  exists s', Finalise s del = Some s' /\ journal s' = [] /\ validRevisions s' = [] /\ refund s' = 0 /\
    (forall a, a ∉ stateObjectsDirty s -> loadAccount (strie s') a = loadAccount (strie s) a) /\
    (forall a o, a ∈ stateObjectsDirty s -> stateObjects s !! a = Some o ->
       finalised del o (loadAccount (strie s') a) /\
       (suicided o || (del && empty o) = true -> (Exist s' a).1 = false)).
Proof.
  intros Hw. destruct (range_dirty_spec s) as [Hnd Hr]. unfold Finalise.
  destruct (finalise_all_spec del (range_dirty s) s Hnd) as (s1 & E & Hout & Hin & _).
  { intros a Ha. apply Hw. by apply Hr. }
  rewrite E, some_bind. eexists. split; [reflexivity|]. split; [done|]. split; [done|]. split; [done|]. split.
  - intros a Ha. apply loadAccount_ext. apply Hout. by rewrite Hr.
  - intros a o Ha Ho. destruct (Hin a o) as [Hf Hd]; [by apply Hr|done|]. split; [done|]. intros Hdel.
    destruct (Hd Hdel) as (o' & Ho' & Hdel'). unfold Exist, getStateObject. simpl. rewrite Ho', Hdel'. done.
Qed.

(** ** Properties *)

(** C17: [Finalise] writes exactly the dirty accounts.  Over complete tries
    and for every iteration order, if the dirty addresses have objects with
    64-bit nonces and 256-bit balances, [Finalise] does not panic; a dirty
    account that self-destructed (or is empty, when empty accounts are
    deleted) is gone from the account trie and no longer exists; every other
    dirty account reads back from the trie with its nonce, balance and code
    hash and the root of a storage trie that holds its dirty slots over its
    old ones; accounts that are not dirty keep the trie entry they had; the
    journal and the refund are cleared. *)
Theorem Finalise_writes s del :
  (forall a, a ∈ stateObjectsDirty s -> exists o, stateObjects s !! a = Some o /\ writable a o) ->
  exists s', Finalise s del = Some s' /\ journal s' = [] /\ validRevisions s' = [] /\ refund s' = 0 /\
    (forall a, a ∉ stateObjectsDirty s -> loadAccount (strie s') a = loadAccount (strie s) a) /\
    (forall a o, a ∈ stateObjectsDirty s -> stateObjects s !! a = Some o ->
       finalised del o (loadAccount (strie s') a) /\
       (suicided o || (del && empty o) = true -> (Exist s' a).1 = false)).
Proof. apply Finalise_spec. Qed.

(** The account of [a] in the trie of a new state. *)
Lemma new_getStateObject s a acc :
  stateObjects s = ∅ -> loadAccount (strie s) a = Some acc ->
  getStateObject s a = (Some (newObject a acc), setStateObject s (newObject a acc)).
Proof.
  intros Ho Hl. unfold getStateObject, loadAccount in *. rewrite Ho, lookup_empty.
  destruct (TryGet (strie s) a) as [ [ [|x enc]|] err]; [done| |done]. simpl in Hl. by rewrite Hl.
Qed.

Lemma GetOrNew_live s a o :
  stateObjects s !! a = Some o -> deleted o = false -> GetOrNewStateObject s a = (o, s).
Proof. intros Ho Hd. unfold GetOrNewStateObject, getStateObject. by rewrite Ho, Hd, Hd. Qed.

Lemma Finalise_clean s del : stateObjectsDirty s = ∅ -> Finalise s del = Some (clearJournalAndRefund s).
Proof.
  intros Hd. unfold Finalise. assert (range_dirty s = []) as ->; [|done].
  destruct (range_dirty_spec s) as [_ Hr]. destruct (range_dirty s) as [|a l]; [done|].
  assert (a ∈ stateObjectsDirty s) as Ha by (apply Hr; by left). rewrite Hd in Ha. by apply not_elem_of_empty in Ha.
Qed.

(** A reverted touch loses later changes of the account.  In a fresh
    state, let [a] be an empty account of the trie.  After a snapshot, a
    transfer of zero to [a] and the reversal of the snapshot, a transfer of
    [v] is visible through [GetBalance], but [a] is not marked dirty (undoing
    the touch took the mark away, and the callback that would set it again was
    used up), so [Finalise] leaves the account trie as it was and the [v] are
    gone from the state root. *)
Theorem reverted_touch_loses_transfer root s a acc v del :
  New root = inr s -> loadAccount (strie s) a = Some acc ->
  aNonce acc = 0 -> aBalance acc = 0 -> aCodeHash acc = emptyCodeHash -> a <> ripemd -> v <> 0 ->
  let '(id, s1) := Snapshot s in
  exists s2 s3, RevertToSnapshot (AddBalance s1 a 0) id = Some s2 /\ AddBalance s2 a v = s3 /\
    (GetBalance s3 a).1 = v /\ stateObjectsDirty s3 = ∅ /\
    exists s4, Finalise s3 del = Some s4 /\ strie s4 = strie s /\ loadAccount (strie s4) a = Some acc.
Proof.
  intros Hnew Hl Hn Hb Hc Ha Hv. unfold New in Hnew. destruct (OpenTrie root) as [e|tr] eqn:Eo; [done|].
  injection Hnew as <-. simpl in Hl. set (s := mkState _ _ _ _ _ _ _ _ _ _ _ _ _ _). set (o := newObject a acc).
  simpl. set (s1 := with_journal s _ _ _).
  assert (empty o = true) as Hempty by (unfold empty; simpl; rewrite Hn, Hb, Hc; by rewrite bool_decide_eq_true_2).
  assert (AddBalance s1 a 0 = store_object (touch (setStateObject s1 o) o)) as E1.
  { unfold AddBalance, GetOrNewStateObject. rewrite (new_getStateObject s1 a acc) by done. fold o. simpl (deleted o). cbn iota.
    by rewrite Hempty. }
  rewrite E1. set (o1 := set_flags o false true false false).
  set (s2 := store_object _).
  assert (stateObjects s2 = <[a := o1]> (<[a := o]> ∅)) as Eo2 by done.
  assert (journal s2 = [touchChange a false false]) as Ej by done.
  assert (validRevisions s2 = [mkRevision 0 0]) as Ev by done.
  set (o2 := set_flags o1 false false false false).
  set (s3 := with_journal (with_objects s2 (<[a := o2]> (stateObjects s2)) (stateObjectsDirty s2 ∖ {[a]})) [] [] 1).
  assert (RevertToSnapshot s2 0 = Some s3) as E2.
  { unfold RevertToSnapshot. rewrite Ev, Ej. cbn [length sort_Search search_loop Nat.ltb Nat.leb Nat.div2 Nat.add lookup list_lookup rid].
    simpl. rewrite bool_decide_eq_true_2 by done. unfold getStateObject. rewrite Eo2, lookup_insert_eq. simpl. done. }
  assert (stateObjects s3 !! a = Some o2) as Eo3 by (simpl; by rewrite lookup_insert_eq).
  set (s4 := obj_SetBalance s3 o2 v).
  assert (AddBalance s3 a v = s4) as E3.
  { unfold AddBalance. rewrite (GetOrNew_live s3 a o2 Eo3 eq_refl). cbn beta iota zeta.
    rewrite (proj2 (Z.eqb_neq v 0)) by done. assert (aBalance (data o2) = 0) as -> by done. done. }
  exists s3, s4. split; [done|]. split; [done|].
  assert (stateObjectsDirty s4 = ∅) as Ed.
  { change (stateObjectsDirty s4) with (({[a]} ∪ ∅ : gset Address) ∖ {[a]}). set_solver. }
  split; [|split; [done|] ].
  - assert (stateObjects s4 !! a = Some (with_balance o2 v)) as E4 by (simpl; by rewrite lookup_insert_eq).
    unfold GetBalance, getStateObject. by rewrite E4.
  - rewrite (Finalise_clean s4 del Ed). eexists. split; [reflexivity|]. done.
Qed.

Lemma getStateObject_dirty s a r s1 : getStateObject s a = (r, s1) -> stateObjectsDirty s1 = stateObjectsDirty s.
Proof.
  unfold getStateObject. destruct (stateObjects s !! a); [by intros [= _ <-]|].
  destruct (TryGet _ _) as [ [ [|x enc]|] err]; [by intros [= _ <-]| |by intros [= _ <-]].
  destruct (decodeAccount _); by intros [= _ <-].
Qed.

(** The original after the account trie of its copy became that of [c]: both
    hold the same trie pointer. *)
Definition sharing s (c : StateDB) : StateDB := with_trie s (strie c).

(** A copy is not independent.  [Copy] copies the pointer to the account
    trie, so finalising a copy changes the original: a balance set in the copy
    of a new state, for an account that does not exist, is what the original
    returns for it once the copy was finalised. *)
Theorem Copy_shares_trie root s a v :
  New root = inr s -> loadAccount (strie s) a = None -> 0 <= v < 2 ^ 256 ->
  exists c c', Copy s = Some c /\ Finalise (SetBalance c a v) false = Some c' /\
    (GetBalance s a).1 = 0 /\ (GetBalance (sharing s c') a).1 = v.
Proof.
  intros Hnew Hl Hv. unfold New in Hnew. destruct (OpenTrie root) as [e|tr] eqn:Eo; [done|].
  injection Hnew as <-. simpl in Hl. set (s := mkState _ _ _ _ _ _ _ _ _ _ _ _ _ _).
  assert (lookup_obj s a = None) as Hs by (rewrite lookup_obj_eq; simpl; unfold loaded_obj; by rewrite Hl).
  assert (Copy s = Some s) as Ec.
  { unfold Copy. destruct (range_dirty_spec s) as [_ Hr]. destruct (range_dirty s) as [|b l]; [done|].
    assert (b ∈ stateObjectsDirty s) as Hb by (apply Hr; by left). by apply not_elem_of_empty in Hb. }
  destruct (getStateObject s a) as [r s1] eqn:Eg.
  assert (r = None) as -> by (unfold lookup_obj in Hs; by rewrite Eg in Hs).
  destruct (getStateObject_None _ _ _ Eg) as (_ & Ho1 & Hr1 & _). injection Hr1 as Et1 _ _ _ _ _ _ _.
  destruct (getStateObject s1 a) as [r s2] eqn:Eg2.
  assert (lookup_obj s1 a = None) as Hs1 by (by rewrite (lookup_obj_ext s1 s) by (by rewrite ?Ho1)).
  assert (r = None) as -> by (unfold lookup_obj in Hs1; by rewrite Eg2 in Hs1).
  destruct (getStateObject_None _ _ _ Eg2) as (_ & Ho2 & Hr2 & _). injection Hr2 as Et2 _ _ _ _ _ _ _.
  assert (stateObjectsDirty s2 = ∅) as Ed2.
  { by rewrite (getStateObject_dirty _ _ _ _ Eg2), (getStateObject_dirty _ _ _ _ Eg). }
  set (o := set_flags (with_balance (newObject a freshAccount) v) false false false false).
  assert (exists s3, SetBalance s a v = s3 /\ stateObjects s3 !! a = Some o /\ stateObjectsDirty s3 = {[a]}) as (s3 & E3 & Ho3 & Hd3).
  { eexists. split; [reflexivity|]. unfold SetBalance, GetOrNewStateObject. rewrite Eg. unfold createObject. rewrite Eg2. simpl.
    rewrite Ed2. split; [by rewrite lookup_insert_eq|]. set_solver. }
  destruct (Finalise_spec s3 false) as (c' & Ef & _ & _ & _ & _ & Hin).
  { intros b Hb. rewrite Hd3 in Hb. apply elem_of_singleton in Hb as ->. exists o. split; [done|].
    constructor; simpl; [done|lia|done|apply keccak_ok|]. intros key w. by rewrite lookup_empty. }
  exists s, c'. split; [done|]. split; [by rewrite E3|]. split; [unfold GetBalance; by rewrite Eg|].
  destruct (Hin a o) as [Hf _]; [rewrite Hd3; set_solver|done|]. unfold finalised in Hf. simpl in Hf.
  destruct Hf as (tr' & Hf & _). unfold GetBalance. rewrite (new_getStateObject (sharing s c') a _ eq_refl Hf). done.
Qed.

End Finalise.

(** ** A state over maps *)

Module Sample.
Import StateRevert.Sample.

#[local] Instance listOrder : MapOrder := {| range_map V := map_to_list; range_perm V m := reflexivity (map_to_list m) |}.

Lemma mapLaws t0 : @TrieLaws (mapDB t0).
Proof.
  constructor; simpl; try done.
  - intros t k v k' _. case_decide as H; [subst; by rewrite lookup_insert_eq|by rewrite lookup_insert_ne].
  - intros t k k'. case_decide as H; [subst; by rewrite lookup_delete_eq|by rewrite lookup_delete_ne].
  - intros h. by exists ∅.
  - intros t. split; [done|]. by apply bytes_replicate_0.
  - intros b. split; [done|]. repeat constructor; unfold is_byte, u8; try lia; apply Z.mod_pos_bound; lia.
Qed.

#[local] Existing Instance emptyDB.
#[local] Instance emptyLaws : TrieLaws := mapLaws ∅.

(** Alice self-destructed; bob has a balance and a changed slot. *)
Definition alice_obj : stateObject := set_flags (newObject alice freshAccount) true false false false.
Definition bob_obj : stateObject :=
  set_flags (set_storage (newObject bob (mkAccount 1 30 zeroHash emptyCodeHash)) {[one := one]} {[one := one]}) false false false false.
Definition paid : StateDB :=
  mkState ∅ (<[alice := alice_obj]> {[bob := bob_obj]}) {[alice; bob]} None 5 zeroHash zeroHash 0 ∅ 0 ∅ [] [] 0.

Lemma paid_lookup : stateObjects paid !! alice = Some alice_obj /\ stateObjects paid !! bob = Some bob_obj.
Proof.
  change (stateObjects paid) with (<[alice := alice_obj]> ({[bob := bob_obj]} : gmap Address stateObject)).
  rewrite lookup_insert_eq, lookup_insert_ne, lookup_singleton_eq by done. done.
Qed.

Lemma one_ok : length one = 32%nat /\ bytes one.
Proof. split; [done|]. repeat constructor; unfold is_byte; lia. Qed.

Lemma paid_writable : forall a, a ∈ stateObjectsDirty paid -> exists o, stateObjects paid !! a = Some o /\ writable a o.
Proof.
  intros a Ha. change (a ∈ ({[alice; bob]} : gset Address)) in Ha. destruct paid_lookup as [La Lb].
  apply elem_of_union in Ha as [ ->%elem_of_singleton| ->%elem_of_singleton].
  - exists alice_obj. split; [exact La|]. constructor; [reflexivity|simpl; lia|simpl; lia|apply keccak_ok|].
    intros k v. simpl. by rewrite lookup_empty.
  - exists bob_obj. split; [exact Lb|]. constructor; [reflexivity|simpl; lia|simpl; lia|apply keccak_ok|].
    intros k v. simpl. rewrite lookup_singleton_Some. intros [_ <-]. apply one_ok.
Qed.

Lemma paid_dirty : alice ∈ stateObjectsDirty paid /\ bob ∈ stateObjectsDirty paid.
Proof.
  change (stateObjectsDirty paid) with ({[alice; bob]} : gset Address).
  split; [by apply elem_of_union_l, elem_of_singleton|by apply elem_of_union_r, elem_of_singleton].
Qed.

Lemma Finalise_writes_witness :
  exists s', Finalise paid true = Some s' /\ (Exist s' alice).1 = false /\
    finalised true bob_obj (loadAccount (strie s') bob).
Proof.
  destruct (Finalise_writes paid true paid_writable) as (s' & E & _ & _ & _ & _ & Hin).
  destruct paid_lookup as [La Lb]. exists s'. split; [exact E|]. split.
  - exact (proj2 (Hin alice alice_obj (proj1 paid_dirty) La) eq_refl).
  - exact (proj1 (Hin bob bob_obj (proj2 paid_dirty) Lb)).
Defined.

(** A database with an empty account. *)
Definition touched_trie : gmap (list Z) (list Z) := {[ alice := account_enc (mkAccount 0 0 zeroHash emptyCodeHash) ]}.

Lemma touched_trie_load : @loadAccount (mapDB touched_trie) touched_trie alice = Some (mkAccount 0 0 zeroHash emptyCodeHash).
Proof. vm_compute. reflexivity. Qed.

Lemma reverted_touch_loses_transfer_witness :
  exists s s2 s4, @New (mapDB touched_trie) zeroHash = inr s /\
    @RevertToSnapshot (mapDB touched_trie) (@AddBalance (mapDB touched_trie) (@Snapshot (mapDB touched_trie) s).2 alice 0) 0 = Some s2 /\
    (@GetBalance (mapDB touched_trie) (@AddBalance (mapDB touched_trie) s2 alice 8) alice).1 = 8 /\
    @Finalise (mapDB touched_trie) listOrder (@AddBalance (mapDB touched_trie) s2 alice 8) true = Some s4 /\
    @loadAccount (mapDB touched_trie) (@strie (mapDB touched_trie) s4) alice = Some (mkAccount 0 0 zeroHash emptyCodeHash).
Proof.
  destruct (@reverted_touch_loses_transfer (mapDB touched_trie) listOrder (mapLaws touched_trie) zeroHash _ alice
    (mkAccount 0 0 zeroHash emptyCodeHash) 8 true eq_refl touched_trie_load eq_refl eq_refl eq_refl)
    as (s2 & s3 & E1 & <- & E3 & E4 & s4 & E5 & E6 & E7); [discriminate|discriminate|].
  eexists _, s2, s4. split; [reflexivity|]. split; [exact E1|]. split; [exact E3|]. split; [exact E5|exact E7].
Defined.

Definition fresh : StateDB := mkState (∅ : gmap (list Z) (list Z)) ∅ ∅ None 0 zeroHash zeroHash 0 ∅ 0 ∅ [] [] 0.

Lemma Copy_shares_trie_witness :
  New zeroHash = inr fresh /\
  exists c c', Copy fresh = Some c /\ Finalise (SetBalance c bob 9) false = Some c' /\
    (GetBalance fresh bob).1 = 0 /\ (GetBalance (sharing fresh c') bob).1 = 9.
Proof. split; [reflexivity|]. apply (Copy_shares_trie zeroHash fresh bob 9); [reflexivity|reflexivity|lia]. Defined.

End Sample.
