(* ===== verification/VmMath.v ===== *)
(** * Integer helpers of the virtual machine

    [src/common/math] ([big.go], [integer.go]), the padding functions of
    [src/common/bytes.go] and [src/core/vm/common.go].  A [*big.Int] is an
    integer; the functions that overwrite an argument return its new value
    where a caller uses it.  [big.Int.Bits] is the list of 64-bit words of the
    magnitude, least significant first. *)
From S2P Require Import Prelude Rlp Types.

Definition tt255 : Z := 2 ^ 255.
Definition tt256 : Z := 2 ^ 256.
Definition tt256m1 : Z := tt256 - 1.
Definition MaxUint64 : Z := 2 ^ 64 - 1.
Definition wordBits : Z := 64.
Definition wordBytes : nat := 8.

(** ** math/big *)

Definition BitLen (x : Z) : Z := if x =? 0 then 0 else Z.log2 (Z.abs x) + 1.

Fixpoint words_of (n : nat) (x : Z) : list Z :=
  match n with
  | O => []
  | S n' => x mod 2 ^ 64 :: words_of n' (x / 2 ^ 64)
  end.

Definition big_Bits (x : Z) : list Z := words_of (Z.to_nat ((BitLen x + 63) / 64)) (Z.abs x).

Definition big_Int64 (x : Z) : Z := i64 x.

(** ** common/math *)

Definition BigMax (x y : Z) : Z := if x <? y then y else x.
Definition BigMin (x y : Z) : Z := if y <? x then y else x.

Definition U256 (x : Z) : Z := Z.land x tt256m1.
Definition S256 (x : Z) : Z := if x <? tt255 then x else x - tt256.

Fixpoint exp_bits (n : nat) (word result base : Z) : Z * Z :=
  match n with
  | O => (result, base)
  | S n' =>
      let result := if Z.land word 1 =? 1 then U256 (result * base) else result in
      exp_bits n' (Z.shiftr word 1) result (U256 (base * base))
  end.

Fixpoint exp_words (ws : list Z) (result base : Z) : Z :=
  match ws with
  | [] => result
  | w :: ws' => let '(result, base) := exp_bits (Z.to_nat wordBits) w result base in exp_words ws' result base
  end.

Definition Exp (base exponent : Z) : Z := exp_words (big_Bits exponent) 1 base.

Definition bigEndianByteAt (bigint : Z) (n : nat) : Z :=
  match big_Bits bigint !! (n / wordBytes)%nat with
  | None => 0
  | Some word => u8 (Z.shiftr word (8 * Z.of_nat (n mod wordBytes)))
  end.

Definition Byte_at (bigint : Z) (padlength n : nat) : Z :=
  if (padlength <=? n)%nat then 0 else bigEndianByteAt bigint (padlength - 1 - n).

(** [ReadBits] into a buffer whose [i] last places are still to be written. *)
Fixpoint read_word (j i : nat) (d : Z) (buf : list Z) : nat * list Z :=
  match j, i with
  | S j', S i' => read_word j' i' (Z.shiftr d 8) (<[i' := u8 d]> buf)
  | _, _ => (i, buf)
  end.

Fixpoint read_words (ws : list Z) (i : nat) (buf : list Z) : list Z :=
  match ws with
  | [] => buf
  | d :: ws' => let '(i, buf) := read_word wordBytes i d buf in read_words ws' i buf
  end.

Definition ReadBits (bigint : Z) (buf : list Z) : list Z := read_words (big_Bits bigint) (length buf) buf.

Definition PaddedBigBytes (bigint : Z) (n : nat) : list Z :=
  if Z.of_nat n <=? BitLen bigint / 8 then min_bytes bigint else ReadBits bigint (replicate n 0).

Definition SafeSub (x y : Z) : Z * bool := (u64 (x - y), x <? y).
Definition SafeAdd (x y : Z) : Z * bool := (u64 (x + y), MaxUint64 - x <? y).
Definition SafeMul (x y : Z) : Z * bool :=
  if (x =? 0) || (y =? 0) then (0, false) else (u64 (x * y), MaxUint64 / x <? y).

(** ** common/bytes.go *)

Definition RightPadBytes (slice : list Z) (l : Z) : list Z :=
  if l <=? Z.of_nat (length slice) then slice else slice ++ replicate (Z.to_nat l - length slice) 0.

Definition LeftPadBytes (slice : list Z) (l : Z) : list Z :=
  if l <=? Z.of_nat (length slice) then slice else replicate (Z.to_nat l - length slice) 0 ++ slice.

(** ** core/vm/common.go *)

Definition calcMemSize (off l : Z) : Z := if l =? 0 then 0 else off + l.

(** [data[a:b]] with 64-bit bounds. *)
Definition slice64 (data : list Z) (a b : Z) : option (list Z) := slice data (Z.to_nat a) (Z.to_nat b).

Definition getData (data : list Z) (start size : Z) : option (list Z) :=
  let len := Z.of_nat (length data) in
  let start := if len <? start then len else start in
  let stop := u64 (start + size) in
  let stop := if len <? stop then len else stop in
  s ← slice64 data start stop;
  Some (RightPadBytes s (i64 size)).

Definition getDataBig (data : list Z) (start size : Z) : option (list Z) :=
  let dlen := Z.of_nat (length data) in
  let s := BigMin start dlen in
  let e := BigMin (s + size) dlen in
  d ← slice64 data (big_Uint64 s) (big_Uint64 e);
  Some (RightPadBytes d (i64 (big_Uint64 size))).

Definition bigUint64 (v : Z) : Z * bool := (big_Uint64 v, 64 <? BitLen v).

Definition toWordSize (size : Z) : Z :=
  if MaxUint64 - 31 <? size then MaxUint64 / 32 + 1 else (size + 31) / 32.

Definition allZero (b : list Z) : bool := forallb (fun x => x =? 0) b.

(** ** Words *)

Definition word (x : Z) : Prop := 0 <= x < tt256.

Lemma word_lit x : (0 <=? x) && (x <? tt256) = true -> word x.
Proof. rewrite andb_true_iff, Z.leb_le, Z.ltb_lt. done. Qed.

Lemma U256_mod x : U256 x = x mod 2 ^ 256.
Proof. unfold U256, tt256m1, tt256. rewrite <-Z.land_ones by lia. by rewrite Z.ones_equiv, Z.sub_1_r. Qed.

Lemma U256_word x : word (U256 x).
Proof. rewrite U256_mod. unfold word, tt256. apply Z.mod_pos_bound. lia. Qed.

Lemma U256_small x : word x -> U256 x = x.
Proof. intros Hx. rewrite U256_mod. by apply Z.mod_small. Qed.

Lemma word_land x y : word x -> word y -> word (Z.land x y).
Proof. apply (land_uint 256). lia. Qed.
Lemma word_lor x y : word x -> word y -> word (Z.lor x y).
Proof. apply (lor_uint 256). lia. Qed.
Lemma word_lxor x y : word x -> word y -> word (Z.lxor x y).
Proof. apply (lxor_uint 256). lia. Qed.

Lemma u64_small x : 0 <= x < 2 ^ 64 -> u64 x = x.
Proof. intros. unfold u64. by apply Z.mod_small. Qed.
Lemma i64_id x : 0 <= x < 2 ^ 63 -> i64 x = x.
Proof. intros. unfold i64. rewrite Z.mod_small by lia. lia. Qed.
Lemma big_Uint64_small x : 0 <= x < 2 ^ 64 -> big_Uint64 x = x.
Proof. intros. unfold big_Uint64. rewrite Z.abs_eq by lia. by apply u64_small. Qed.
Lemma u64_word x : word (u64 x).
Proof. unfold word, u64, tt256. pose proof (Z.mod_pos_bound x (2 ^ 64)). lia. Qed.
Lemma big_Uint64_range x : 0 <= big_Uint64 x < 2 ^ 64.
Proof. apply Z.mod_pos_bound. lia. Qed.

Lemma be_get_word b : bytes b -> (length b <= 32)%nat -> word (be_get b).
Proof.
  intros Hb Hl. pose proof (be_get_bound b Hb). split; [lia|]. unfold tt256.
  change (2 ^ 256) with (256 ^ 32). apply Z.lt_le_trans with (256 ^ Z.of_nat (length b)); [lia|].
  apply Z.pow_le_mono_r; lia.
Qed.

(** ** Lengths in bits *)

Lemma BitLen_le x k : 0 <= x -> 0 <= k -> BitLen x <= k <-> x < 2 ^ k.
Proof.
  intros Hx Hk. unfold BitLen. rewrite Z.abs_eq by lia. destruct (Z.eqb_spec x 0) as [->|Hne].
  - split; [|lia]. intros _. apply Z.pow_pos_nonneg; lia.
  - pose proof (Z.log2_lt_pow2 x k ltac:(lia)). lia.
Qed.

Lemma BitLen_nonneg x : 0 <= BitLen x.
Proof. unfold BitLen. case_match; [lia|]. pose proof (Z.log2_nonneg (Z.abs x)). lia. Qed.

Lemma bigUint64_spec v : 0 <= v -> bigUint64 v = (big_Uint64 v, 2 ^ 64 <=? v).
Proof.
  intros Hv. unfold bigUint64. f_equal. pose proof (BitLen_le v 64 Hv ltac:(lia)).
  destruct (Z.ltb_spec 64 (BitLen v)), (Z.leb_spec (2 ^ 64) v); lia.
Qed.

(** ** Checked arithmetic *)

Lemma SafeAdd_spec x y : 0 <= x < 2 ^ 64 -> 0 <= y < 2 ^ 64 ->
  SafeAdd x y = (u64 (x + y), 2 ^ 64 <=? x + y).
Proof.
  intros Hx Hy. unfold SafeAdd, MaxUint64. f_equal.
  destruct (Z.ltb_spec (2 ^ 64 - 1 - x) y), (Z.leb_spec (2 ^ 64) (x + y)); lia.
Qed.

Lemma SafeMul_spec x y : 0 <= x < 2 ^ 64 -> 0 <= y < 2 ^ 64 ->
  SafeMul x y = (u64 (x * y), 2 ^ 64 <=? x * y).
Proof.
  intros Hx Hy. unfold SafeMul, MaxUint64. destruct (Z.eqb_spec x 0) as [->|Hx0]; [done|].
  destruct (Z.eqb_spec y 0) as [->|Hy0]; [by rewrite Z.mul_0_r|]. simpl orb. cbv iota. f_equal.
  pose proof (Z.div_lt_upper_bound (2 ^ 64 - 1) x y ltac:(lia)) as H1.
  pose proof (Z.div_le_lower_bound (2 ^ 64 - 1) x y ltac:(lia)) as H2.
  destruct (Z.ltb_spec ((2 ^ 64 - 1) / x) y), (Z.leb_spec (2 ^ 64) (x * y)); lia.
Qed.

Lemma toWordSize_spec size : 0 <= size < 2 ^ 64 ->
  0 <= toWordSize size <= 2 ^ 59 /\ size <= 32 * toWordSize size /\ 32 * toWordSize size < size + 32.
Proof.
  intros Hs. unfold toWordSize, MaxUint64. destruct (Z.ltb_spec (2 ^ 64 - 1 - 31) size).
  - change ((2 ^ 64 - 1) / 32 + 1) with (2 ^ 59). lia.
  - pose proof (Z.div_mod (size + 31) 32 ltac:(lia)). pose proof (Z.mod_pos_bound (size + 31) 32 ltac:(lia)). lia.
Qed.

(** ** Exponentiation *)

Lemma exp_bits_spec n w r b :
  0 <= w -> 0 <= r < 2 ^ 256 ->
  exists b', exp_bits n w r b = ((r * b ^ (w mod 2 ^ Z.of_nat n)) mod 2 ^ 256, b') /\
    b' mod 2 ^ 256 = b ^ (2 ^ Z.of_nat n) mod 2 ^ 256.
Proof.
  revert w r b. induction n as [|n IH]; intros w r b Hw Hr.
  - simpl. exists b. change (2 ^ 0) with 1. rewrite Z.mod_1_r, !Z.pow_0_r, Z.pow_1_r, Z.mul_1_r.
    by rewrite (Z.mod_small r) by done.
  - cbn [exp_bits]. set (r' := if _ : bool then _ else r).
    assert (r' = (r * b ^ (w mod 2)) mod 2 ^ 256) as Hr'.
    { subst r'. change 1 with (Z.ones 1) at 1. rewrite Z.land_ones by lia. change (2 ^ 1) with 2.
      pose proof (Z.mod_pos_bound w 2 ltac:(lia)). destruct (Z.eqb_spec (w mod 2) 1) as [->|].
      - by rewrite U256_mod, Z.pow_1_r.
      - replace (w mod 2) with 0 by lia. by rewrite Z.pow_0_r, Z.mul_1_r, Z.mod_small. }
    destruct (IH (Z.shiftr w 1) r' (U256 (b * b))) as (b' & -> & Hb').
    { by apply Z.shiftr_nonneg. } { rewrite Hr'. apply Z.mod_pos_bound. lia. }
    exists b'. rewrite Z.shiftr_div_pow2 by lia. change (2 ^ 1) with 2.
    assert (2 ^ Z.of_nat (S n) = 2 * 2 ^ Z.of_nat n) as E2 by (rewrite Nat2Z.inj_succ, Z.pow_succ_r; lia).
    assert (0 < 2 ^ Z.of_nat n) as Hp by (apply Z.pow_pos_nonneg; lia).
    split.
    + f_equal. rewrite Hr', U256_mod, Z.mul_mod_idemp_l by lia.
      rewrite <-(Z.mul_mod_idemp_r _ (((b * b) mod 2 ^ 256) ^ _)) by lia. rewrite Z.mod_pow_l.
      rewrite Z.mul_mod_idemp_r by lia. f_equal. rewrite <-Z.mul_assoc. f_equal.
      rewrite <-Z.pow_2_r, <-Z.pow_mul_r by (try apply Z.mod_pos_bound; lia).
      rewrite <-Z.pow_add_r by (pose proof (Z.mod_pos_bound w 2); pose proof (Z.mod_pos_bound (w / 2) (2 ^ Z.of_nat n)); lia).
      f_equal. rewrite E2, Z.rem_mul_r by lia. lia.
    + rewrite Hb', U256_mod, Z.mod_pow_l. rewrite E2, Z.pow_mul_r by lia. by rewrite Z.pow_2_r.
Qed.

Lemma words_of_word n x : Forall (fun w => 0 <= w < 2 ^ 64) (words_of n x).
Proof.
  revert x. induction n as [|n IH]; intros x; constructor; [|apply IH]. apply Z.mod_pos_bound. lia.
Qed.

Lemma exp_words_spec n x r b :
  0 <= x < 2 ^ (64 * Z.of_nat n) -> 0 <= r < 2 ^ 256 ->
  exp_words (words_of n x) r b = (r * b ^ x) mod 2 ^ 256.
Proof.
  revert x r b. induction n as [|n IH]; intros x r b Hx Hr.
  - replace x with 0 by (change (2 ^ (64 * Z.of_nat 0)) with 1 in Hx; lia). simpl.
    by rewrite Z.mul_1_r, Z.mod_small.
  - cbn [words_of exp_words]. pose proof (Z.mod_pos_bound x (2 ^ 64) ltac:(lia)) as Hm.
    assert (0 <= x / 2 ^ 64) as Hq by (apply Z.div_pos; lia).
    assert (x / 2 ^ 64 < 2 ^ (64 * Z.of_nat n)) as Hq'.
    { apply Z.div_lt_upper_bound; [lia|]. rewrite <-Z.pow_add_r by lia.
      replace (64 + 64 * Z.of_nat n) with (64 * Z.of_nat (S n)) by lia. lia. }
    assert (x mod 2 ^ 64 + 2 ^ 64 * (x / 2 ^ 64) = x) as Hx' by (pose proof (Z.div_mod x (2 ^ 64)); lia).
    pose proof (exp_bits_spec (Z.to_nat wordBits) (x mod 2 ^ 64) r b ltac:(lia) Hr) as (b' & -> & Hb').
    change (Z.of_nat (Z.to_nat wordBits)) with 64 in *. rewrite (Z.mod_mod x (2 ^ 64)) by done.
    rewrite IH by (done || by apply Z.mod_pos_bound).
    rewrite Z.mul_mod_idemp_l by done. rewrite <-Z.mul_mod_idemp_r, <-(Z.mod_pow_l b'), Hb', Z.mod_pow_l by done.
    rewrite Z.mul_mod_idemp_r by done. f_equal. rewrite <-Z.mul_assoc. f_equal.
    rewrite <-Z.pow_mul_r, <-Z.pow_add_r, Hx' by (try apply Z.mul_nonneg_nonneg; done || apply Hm). done.
Qed.

Lemma big_Bits_bound x : 0 <= x -> x < 2 ^ (64 * Z.of_nat (Z.to_nat ((BitLen x + 63) / 64))).
Proof.
  intros Hx. pose proof (BitLen_nonneg x) as Hn.
  assert (0 <= (BitLen x + 63) / 64) as Hd by (apply Z.div_pos; lia). rewrite Z2Nat.id by done.
  apply BitLen_le; [done|lia|]. pose proof (Z.div_mod (BitLen x + 63) 64 ltac:(lia)).
  pose proof (Z.mod_pos_bound (BitLen x + 63) 64 ltac:(lia)). lia.
Qed.

(** Exponentiation by squaring is exponentiation modulo 2^256. *)
Lemma Exp_spec base exponent : 0 <= exponent -> Exp base exponent = base ^ exponent mod 2 ^ 256.
Proof.
  intros He. unfold Exp, big_Bits. rewrite Z.abs_eq by done. rewrite exp_words_spec; [by rewrite Z.mul_1_l| |lia].
  split; [done|by apply big_Bits_bound].
Qed.
