(* ===== verification/VmAnalysis.v ===== *)
(** * Jump destination analysis

    [src/core/vm/analysis.go]: the bit vector that tells code from the data of
    push instructions, and the cache of these vectors by code hash that a
    contract shares with the contracts it calls.  An index outside the vector
    is a panic. *)
From S2P Require Import Prelude Types VmMath.

Definition PUSH1 : Z := 0x60.
Definition PUSH32 : Z := 0x7f.
Definition JUMPDEST_byte : Z := 0x5b.

Abbreviation bitvec := (list Z).

Definition or_at (bits : bitvec) (i : nat) (mask : Z) : option bitvec :=
  b ← bits !! i; Some (<[i := Z.lor b mask]> bits).

Definition set (bits : bitvec) (pos : nat) : option bitvec :=
  or_at bits (pos / 8) (Z.shiftr 0x80 (Z.of_nat (pos mod 8))).

Definition set8 (bits : bitvec) (pos : nat) : option bitvec :=
  let low := Z.shiftr 0xFF (Z.of_nat (pos mod 8)) in
  bits ← or_at bits (pos / 8) low;
  or_at bits (pos / 8 + 1) (Z.lxor 0xFF low).

Definition codeSegment (bits : bitvec) (pos : nat) : option bool :=
  b ← bits !! (pos / 8)%nat; Some (Z.land b (Z.shiftr 0x80 (Z.of_nat (pos mod 8))) =? 0).

(** The two loops over the data of a push. *)
Fixpoint mark8 (fuel numbits : nat) (bits : bitvec) (pc : nat) : option (nat * bitvec * nat) :=
  match fuel with
  | O => Some (numbits, bits, pc)
  | S fuel' =>
      if (8 <=? numbits)%nat then bits ← set8 bits pc; mark8 fuel' (numbits - 8) bits (pc + 8)
      else Some (numbits, bits, pc)
  end.

Fixpoint mark1 (numbits : nat) (bits : bitvec) (pc : nat) : option (bitvec * nat) :=
  match numbits with
  | O => Some (bits, pc)
  | S numbits' => bits ← set bits pc; mark1 numbits' bits (S pc)
  end.

Definition mark (numbits : nat) (bits : bitvec) (pc : nat) : option (bitvec * nat) :=
  '(numbits, bits, pc) ← mark8 numbits numbits bits pc; mark1 numbits bits pc.

Definition is_push (op : Z) : bool := (PUSH1 <=? op) && (op <=? PUSH32).

Fixpoint bitmap_loop (fuel : nat) (code : list Z) (bits : bitvec) (pc : nat) : option bitvec :=
  match fuel with
  | O => Some bits
  | S fuel' =>
      match code !! pc with
      | None => Some bits
      | Some op =>
          if is_push op then
            '(bits, pc) ← mark (Z.to_nat (op - PUSH1 + 1)) bits (S pc);
            bitmap_loop fuel' code bits pc
          else bitmap_loop fuel' code bits (S pc)
      end
  end.

Definition codeBitmap (code : list Z) : option bitvec :=
  bitmap_loop (length code) code (replicate (length code / 8 + 1 + 4) 0) 0.

Abbreviation destinations := (gmap Hash bitvec).

Definition has (d : destinations) (codehash : Hash) (code : list Z) (dest : Z) : option (bool * destinations) :=
  let udest := big_Uint64 dest in
  if (63 <=? BitLen dest) || (Z.of_nat (length code) <=? udest) then Some (false, d)
  else
    '(m, d) ← match d !! codehash with
              | Some m => Some (m, d)
              | None => m ← codeBitmap code; Some (m, <[codehash := m]> d)
              end;
    op ← code !! Z.to_nat udest;
    if op =? JUMPDEST_byte then seg ← codeSegment m (Z.to_nat udest); Some (seg, d)
    else Some (false, d).

(** ** Bits of a vector *)

Definition bit (bits : bitvec) (i : nat) : bool :=
  Z.testbit (default 0 (bits !! (i / 8)%nat)) (7 - Z.of_nat (i mod 8)).

Lemma codeSegment_bit bits pos :
  (pos / 8 < length bits)%nat -> codeSegment bits pos = Some (negb (bit bits pos)).
Proof.
  intros Hl. destruct (lookup_lt_is_Some_2 bits (pos / 8) Hl) as [b Hb].
  unfold codeSegment, bit. rewrite Hb, some_bind. change (default 0 (Some b)) with b. f_equal.
  pose proof (Nat.mod_upper_bound pos 8 ltac:(lia)) as Hr. set (r := (pos mod 8)%nat) in *.
  replace (Z.shiftr 128 (Z.of_nat r)) with (2 ^ (7 - Z.of_nat r))
    by (clearbody r; do 8 (destruct r as [|r]; [done|]); lia).
  destruct (Z.testbit b (7 - Z.of_nat r)) eqn:E; simpl negb.
  - apply Z.eqb_neq. intros E0. assert (Z.testbit (Z.land b (2 ^ (7 - Z.of_nat r))) (7 - Z.of_nat r) = true) as H
      by (by rewrite Z.land_spec, E, Z.pow2_bits_true by lia). by rewrite E0, Z.bits_0 in H.
  - apply Z.eqb_eq. apply Z.bits_inj'. intros n Hn. rewrite Z.land_spec, Z.bits_0.
    destruct (decide (n = 7 - Z.of_nat r)) as [->|Hne]; [by rewrite E|].
    rewrite (Z.pow2_bits_false (7 - Z.of_nat r) n) by lia. apply andb_false_r.
Qed.

Lemma or_at_spec bits i mask :
  (i < length bits)%nat ->
  exists bits', or_at bits i mask = Some bits' /\ length bits' = length bits /\
    forall p, bit bits' p = bit bits p ||
      (bool_decide (p / 8 = i)%nat && Z.testbit mask (7 - Z.of_nat (p mod 8))).
Proof.
  intros Hi. destruct (lookup_lt_is_Some_2 bits i Hi) as [b Hb]. unfold or_at. rewrite Hb, some_bind.
  eexists. split; [done|]. split; [apply length_insert|]. intros p. unfold bit. case_bool_decide as Hp.
  - subst i. rewrite list_lookup_insert_eq by done. rewrite Hb. rewrite andb_true_l. apply Z.lor_spec.
  - rewrite list_lookup_insert_ne by done. by rewrite andb_false_l, orb_false_r.
Qed.

Lemma div_mod_8 (p : nat) : (p = 8 * (p / 8) + p mod 8 /\ p mod 8 < 8)%nat.
Proof. split; [apply Nat.div_mod_eq|apply Nat.mod_upper_bound; lia]. Qed.

Lemma testbit_0x80 (r j : nat) : (r < 8)%nat -> (j < 8)%nat ->
  Z.testbit (Z.shiftr 0x80 (Z.of_nat r)) (7 - Z.of_nat j) = bool_decide (j = r).
Proof. intros. do 8 (destruct r as [|r]; [do 8 (destruct j as [|j]; [done|]); lia|]). lia. Qed.

Lemma testbit_0xFF (r j : nat) : (r < 8)%nat -> (j < 8)%nat ->
  Z.testbit (Z.shiftr 0xFF (Z.of_nat r)) (7 - Z.of_nat j) = bool_decide (r <= j)%nat /\
  Z.testbit (Z.lxor 0xFF (Z.shiftr 0xFF (Z.of_nat r))) (7 - Z.of_nat j) = bool_decide (j < r)%nat.
Proof. intros. do 8 (destruct r as [|r]; [do 8 (destruct j as [|j]; [done|]); lia|]). lia. Qed.

Lemma set_spec bits pos :
  (pos / 8 < length bits)%nat ->
  exists bits', set bits pos = Some bits' /\ length bits' = length bits /\
    forall p, bit bits' p = bit bits p || bool_decide (p = pos).
Proof.
  intros Hl. destruct (or_at_spec bits (pos / 8) (Z.shiftr 0x80 (Z.of_nat (pos mod 8))) Hl) as (b' & E & L & H).
  exists b'. split; [done|]. split; [done|]. intros p. rewrite H. f_equal.
  pose proof (div_mod_8 p) as [Ep Hp]. pose proof (div_mod_8 pos) as [Eq Hq].
  rewrite testbit_0x80 by done. rewrite <-bool_decide_and. apply bool_decide_ext.
  split; [intros [E1 E2]; rewrite Ep, Eq; lia|by intros ->].
Qed.

Lemma set8_spec bits pos :
  (pos / 8 + 1 < length bits)%nat ->
  exists bits', set8 bits pos = Some bits' /\ length bits' = length bits /\
    forall p, bit bits' p = bit bits p || bool_decide (pos <= p < pos + 8)%nat.
Proof.
  intros Hl. unfold set8. set (low := Z.shiftr _ _).
  destruct (or_at_spec bits (pos / 8) low) as (b1 & -> & L1 & H1); [lia|]. rewrite some_bind.
  destruct (or_at_spec b1 (pos / 8 + 1) (Z.lxor 0xFF low)) as (b2 & -> & L2 & H2); [lia|].
  exists b2. split; [done|]. split; [lia|]. intros p. rewrite H2, H1, <-orb_assoc. f_equal. subst low.
  pose proof (div_mod_8 p) as [Ep Hp]. pose proof (div_mod_8 pos) as [Eq Hq].
  destruct (testbit_0xFF (pos mod 8) (p mod 8) Hq Hp) as [-> ->].
  rewrite <-!bool_decide_and, <-bool_decide_or. apply bool_decide_ext.
  set (a := (p / 8)%nat) in *. set (b := (pos / 8)%nat) in *. lia.
Qed.

(** ** The reference: instruction starts *)

(** The places a sweep over the code from the start stops at. *)
Definition next_pc (code : list Z) (pc : nat) : nat :=
  match code !! pc with
  | Some op => if is_push op then pc + 1 + Z.to_nat (op - PUSH1 + 1) else S pc
  | None => pc
  end.

Inductive starts (code : list Z) : nat -> Prop :=
  | starts_0 : starts code 0
  | starts_next pc : starts code pc -> (pc < length code)%nat -> starts code (next_pc code pc).

Lemma next_pc_gt code pc : (pc < length code)%nat -> (pc < next_pc code pc)%nat.
Proof.
  intros Hl. unfold next_pc. destruct (lookup_lt_is_Some_2 code pc Hl) as [op ->]. destruct (is_push op); lia.
Qed.

(** Instructions do not overlap. *)
Lemma starts_disjoint code p pc :
  starts code p -> starts code pc -> (p < pc)%nat -> (next_pc code p <= pc)%nat.
Proof.
  revert p. induction (lt_wf pc) as [pc _ IH]; intros p Hp Hpc Hlt. destruct Hpc as [|r Hr Hl]; [lia|].
  pose proof (next_pc_gt code r Hl). destruct (Nat.lt_trichotomy p r) as [H1|[->|H1] ]; [|done|].
  - specialize (IH r ltac:(lia) p Hp Hr H1). lia.
  - specialize (IH p Hlt r Hr Hp H1). lia.
Qed.

(** ** The loops *)

Lemma mark8_spec fuel numbits bits pc :
  (numbits < 8 * fuel + 8)%nat -> ((pc + numbits) / 8 < length bits)%nat ->
  exists rest bits', mark8 fuel numbits bits pc = Some (rest, bits', pc + numbits - rest)%nat /\
    (rest <= numbits)%nat /\ length bits' = length bits /\
    forall p, bit bits' p = bit bits p || bool_decide (pc <= p < pc + numbits - rest)%nat.
Proof.
  revert numbits bits pc. induction fuel as [|fuel IH]; intros numbits bits pc Hf Hl; cbn [mark8].
  - exists numbits, bits. replace (pc + numbits - numbits)%nat with pc by lia. repeat split; [done|].
    intros p. rewrite bool_decide_eq_false_2 by lia. by rewrite orb_false_r.
  - destruct (Nat.leb_spec 8 numbits) as [H8|H8].
    + assert ((pc + 8) / 8 <= (pc + numbits) / 8)%nat as Hle by (apply Nat.Div0.div_le_mono; lia).
      replace (pc + 8)%nat with (pc + 1 * 8)%nat in Hle by lia. rewrite Nat.div_add in Hle by lia.
      destruct (set8_spec bits pc) as (b1 & -> & L1 & H1); [lia|]. rewrite some_bind.
      destruct (IH (numbits - 8)%nat b1 (pc + 8)%nat) as (rest & b2 & -> & Hr & L2 & H2).
      { lia. }
      { rewrite L1. by replace (pc + 8 + (numbits - 8))%nat with (pc + numbits)%nat by lia. }
      exists rest, b2. split; [do 2 f_equal; lia|]. split; [lia|]. split; [congruence|]. intros p.
      rewrite H2, H1, <-orb_assoc. f_equal. rewrite <-bool_decide_or. apply bool_decide_ext. lia.
    + exists numbits, bits. replace (pc + numbits - numbits)%nat with pc by lia. repeat split; [done|].
      intros p. rewrite bool_decide_eq_false_2 by lia. by rewrite orb_false_r.
Qed.

Lemma mark1_spec numbits bits pc :
  ((pc + numbits) / 8 < length bits)%nat ->
  exists bits', mark1 numbits bits pc = Some (bits', pc + numbits)%nat /\ length bits' = length bits /\
    forall p, bit bits' p = bit bits p || bool_decide (pc <= p < pc + numbits)%nat.
Proof.
  revert bits pc. induction numbits as [|n IH]; intros bits pc Hl; cbn [mark1].
  - exists bits. rewrite Nat.add_0_r. repeat split. intros p. rewrite bool_decide_eq_false_2 by lia.
    by rewrite orb_false_r.
  - assert (pc / 8 <= (pc + S n) / 8)%nat by (apply Nat.Div0.div_le_mono; lia).
    destruct (set_spec bits pc) as (b1 & -> & L1 & H1); [lia|]. rewrite some_bind.
    destruct (IH b1 (S pc)) as (b2 & -> & L2 & H2).
    { rewrite L1. by replace (S pc + n)%nat with (pc + S n)%nat by lia. }
    exists b2. split; [do 2 f_equal; lia|]. split; [congruence|]. intros p.
    rewrite H2, H1, <-orb_assoc. f_equal. rewrite <-bool_decide_or. apply bool_decide_ext. lia.
Qed.

Lemma mark_spec numbits bits pc :
  ((pc + numbits) / 8 < length bits)%nat ->
  exists bits', mark numbits bits pc = Some (bits', pc + numbits)%nat /\ length bits' = length bits /\
    forall p, bit bits' p = bit bits p || bool_decide (pc <= p < pc + numbits)%nat.
Proof.
  intros Hl. unfold mark. destruct (mark8_spec numbits numbits bits pc) as (rest & b1 & -> & Hr & L1 & H1); [lia|done|].
  rewrite some_bind. destruct (mark1_spec rest b1 (pc + numbits - rest)) as (b2 & -> & L2 & H2).
  { rewrite L1. by replace (pc + numbits - rest + rest)%nat with (pc + numbits)%nat by lia. }
  exists b2. split; [do 2 f_equal; lia|]. split; [congruence|]. intros p.
  rewrite H2, H1, <-orb_assoc. f_equal. rewrite <-bool_decide_or. apply bool_decide_ext. lia.
Qed.

(** Up to [pc] the vector marks what is not an instruction. *)
Record marked (code : list Z) (bits : bitvec) (pc : nat) : Prop := mk_marked {
  mk_start : starts code pc;
  mk_below p : (p < pc)%nat -> bit bits p = false <-> starts code p;
  mk_above p : (pc <= p)%nat -> bit bits p = false
}.

Lemma marked_next code bits pc bits' :
  marked code bits pc -> (pc < length code)%nat ->
  (forall p, bit bits' p = bit bits p || bool_decide (S pc <= p < next_pc code pc)%nat) ->
  marked code bits' (next_pc code pc).
Proof.
  intros [Hs Hb Ha] Hl Hbits. pose proof (next_pc_gt code pc Hl). constructor.
  - by apply starts_next.
  - intros p Hp. rewrite Hbits. destruct (Nat.lt_trichotomy p pc) as [H1|[->|H1] ].
    + rewrite bool_decide_eq_false_2 by lia. rewrite orb_false_r. by apply Hb.
    + rewrite bool_decide_eq_false_2 by lia. by rewrite orb_false_r, (Ha pc) by done.
    + rewrite bool_decide_eq_true_2 by lia. rewrite orb_true_r. split; [done|]. intros Hst.
      pose proof (starts_disjoint code pc p Hs Hst H1). lia.
  - intros p Hp. rewrite Hbits, (Ha p) by lia. by rewrite bool_decide_eq_false_2 by lia.
Qed.

Lemma bitmap_loop_spec fuel code bits pc :
  marked code bits pc -> (length code <= fuel + pc)%nat -> length bits = (length code / 8 + 1 + 4)%nat ->
  exists bits', bitmap_loop fuel code bits pc = Some bits' /\ length bits' = length bits /\
    forall p, (p < length code)%nat -> bit bits' p = false <-> starts code p.
Proof.
  revert bits pc. induction fuel as [|fuel IH]; intros bits pc Hm Hf Hlen; cbn [bitmap_loop].
  { exists bits. repeat split; try done; intros; (apply (mk_below _ _ _ Hm); [lia|done]). }
  destruct (code !! pc) as [op|] eqn:Eop.
  2: { apply lookup_ge_None in Eop. exists bits.
       repeat split; try done; intros; (apply (mk_below _ _ _ Hm); [lia|done]). }
  pose proof (lookup_lt_Some _ _ _ Eop) as Hl. pose proof (next_pc_gt code pc Hl) as Hgt.
  assert (next_pc code pc = if is_push op then pc + 1 + Z.to_nat (op - PUSH1 + 1) else S pc)%nat as Enext
    by (unfold next_pc; by rewrite Eop).
  destruct (is_push op) eqn:Ep.
  - assert (Z.to_nat (op - PUSH1 + 1) <= 32)%nat as Hn
      by (unfold is_push, PUSH1, PUSH32 in *; rewrite andb_true_iff, !Z.leb_le in Ep; lia).
    set (n := Z.to_nat (op - PUSH1 + 1)) in *.
    destruct (mark_spec n bits (S pc)) as (b1 & -> & L1 & H1).
    { assert ((S pc + n) / 8 <= (length code + 4 * 8) / 8)%nat as Hle by (apply Nat.Div0.div_le_mono; lia).
      rewrite Nat.div_add in Hle by lia. lia. }
    rewrite some_bind. replace (S pc + n)%nat with (next_pc code pc) by lia.
    destruct (IH b1 (next_pc code pc)) as (b2 & -> & L2 & H2); [|lia|lia|by exists b2; rewrite L2, L1].
    apply (marked_next code bits pc); [done|done|]. intros p. rewrite H1, Enext. f_equal. apply bool_decide_ext. lia.
  - replace (S pc) with (next_pc code pc) by lia. apply IH; [|lia|done].
    apply (marked_next code bits pc); [done|done|]. intros p. rewrite bool_decide_eq_false_2 by lia.
    by rewrite orb_false_r.
Qed.

Lemma codeBitmap_spec code :
  exists bits, codeBitmap code = Some bits /\ length bits = (length code / 8 + 1 + 4)%nat /\
    forall p, (p < length code)%nat -> bit bits p = false <-> starts code p.
Proof.
  unfold codeBitmap. set (n := (length code / 8 + 1 + 4)%nat).
  destruct (bitmap_loop_spec (length code) code (replicate n 0) 0) as (b & -> & L & H).
  - constructor; [constructor|lia|]. intros p _. unfold bit.
    destruct (replicate n 0 !! (p / 8)%nat) as [x|] eqn:E; [|apply Z.bits_0].
    apply lookup_replicate in E as [-> _]. apply Z.bits_0.
  - lia.
  - apply length_replicate.
  - exists b. rewrite L, length_replicate. done.
Qed.

(** ** Properties *)

(** What the cache holds for a code is the analysis of that code. *)
Definition cached (d : destinations) (codehash : Hash) (code : list Z) : Prop :=
  forall m, d !! codehash = Some m -> codeBitmap code = Some m.

(** C34: the jump destination analysis is exact.  With a cache that holds the
    right vector for this code, or none, [has] does not panic, accepts a
    destination exactly when it is the start of an instruction of the code
    (in a sweep that skips the data of pushes) and that instruction is
    JUMPDEST, and leaves a right cache. *)
Theorem has_iff d codehash code dest :
  cached d codehash code -> 0 <= dest -> Z.of_nat (length code) < 2 ^ 62 ->
  exists b d', has d codehash code dest = Some (b, d') /\ cached d' codehash code /\
    (b = true <-> starts code (Z.to_nat dest) /\ code !! Z.to_nat dest = Some JUMPDEST_byte).
Proof.
  intros Hd Hdest Hlen. unfold has. destruct (codeBitmap_spec code) as (m & Em & Lm & Hm).
  destruct ((63 <=? BitLen dest) || (Z.of_nat (length code) <=? big_Uint64 dest)) eqn:Eg.
  { exists false, d. split; [done|]. split; [done|]. split; [done|]. intros [_ Hop].
    apply lookup_lt_Some in Hop. pose proof (BitLen_le dest 62 Hdest ltac:(lia)).
    rewrite big_Uint64_small in Eg by lia. apply orb_true_iff in Eg as [Eg|Eg]; apply Z.leb_le in Eg; lia. }
  apply orb_false_iff in Eg as [E1 E2]. apply Z.leb_gt in E1, E2.
  pose proof (BitLen_le dest 62 Hdest ltac:(lia)) as Hbl. rewrite big_Uint64_small in E2 |- * by lia.
  assert (Z.to_nat dest < length code)%nat as Hlt by lia.
  destruct (lookup_lt_is_Some_2 code _ Hlt) as [op Eop].
  assert (exists d', match d !! codehash with
    | Some m => Some (m, d) | None => m ← codeBitmap code; Some (m, <[codehash := m]> d) end = Some (m, d') /\
    cached d' codehash code) as (d' & -> & Hd').
  { destruct (d !! codehash) as [m'|] eqn:Ed.
    - exists d. split; [|done]. apply Hd in Ed. congruence.
    - exists (<[codehash := m]> d). rewrite Em, some_bind. split; [done|]. intros m'. by rewrite lookup_insert_eq, Em. }
  rewrite some_bind, Eop, some_bind. destruct (Z.eqb_spec op JUMPDEST_byte) as [->|Hne].
  - rewrite codeSegment_bit by (rewrite Lm; apply Nat.lt_le_trans with (length code / 8 + 1)%nat;
      [|lia]; pose proof (Nat.Div0.div_le_mono (Z.to_nat dest) (length code) 8); lia).
    rewrite some_bind. eexists _, _. split; [done|]. split; [done|]. rewrite negb_true_iff, Hm by done. naive_solver.
  - exists false, d'. split; [done|]. split; [done|]. split; [done|]. intros [_ [= ->] ]. done.
Qed.

(** PUSH1 0x5b; JUMPDEST: the data byte 0x5b is no destination. *)
Lemma has_iff_witness :
  cached ∅ [] [0x60; 0x5b; 0x5b] /\
  exists b d', has ∅ [] [0x60; 0x5b; 0x5b] 2 = Some (b, d') /\ cached d' [] [0x60; 0x5b; 0x5b] /\
    (b = true <-> starts [0x60; 0x5b; 0x5b] 2 /\ [0x60; 0x5b; 0x5b] !! 2%nat = Some JUMPDEST_byte).
Proof.
  assert (cached ∅ [] [0x60; 0x5b; 0x5b]) as H by (intros m; by rewrite lookup_empty).
  split; [exact H|]. apply (has_iff ∅ [] [0x60; 0x5b; 0x5b] 2 H); [lia|simpl; lia].
Defined.
