(* ===== verification/Vm.v ===== *)
(** * The virtual machine

    [src/core/vm]: the contract, stack and memory of a running contract
    ([contract.go], [stack.go], [memory.go]), gas ([gas.go], [gas_table.go]),
    instructions ([opcodes.go], [instructions.go], [memory_table.go],
    [stack_table.go], [jump_table.go]), the interpreter ([interpreter.go]) and
    calls between contracts ([evm.go]); the fork rules of
    [src/params/config.go] and the transfers of [src/core/evm.go].

    The state behind the machine is the interface [StateDB] of [interface.go],
    the class [Host] below.  Integers on the stack are never shared: every
    instruction pushes a new integer or one it popped, so they are values
    here, and the pool of spare integers ([intpool.go]) is left out.  The head
    of a [stack] is its top.  The map of jump destinations is shared by a
    contract and the contracts it calls, so it is part of the machine.
    Tracing, the JIT and the integer pool check are switched off.  [Panic] is
    a Go panic; [Err OutOfFuel] is a run that the recursion depth given to the
    interpreter did not suffice for. *)
From S2P Require Import Prelude Rlp Types VmMath VmAnalysis.

(** ** Parameters of the protocol *)

Definition CallValueTransferGas : Z := 9000.
Definition CallNewAccountGas : Z := 25000.
Definition QuadCoeffDiv : Z := 512.
Definition SstoreSetGas : Z := 20000.
Definition LogDataGas : Z := 8.
Definition CallStipend : Z := 2300.
Definition Sha3Gas : Z := 30.
Definition Sha3WordGas : Z := 6.
Definition SstoreResetGas : Z := 5000.
Definition SstoreClearGas : Z := 5000.
Definition SstoreRefundGas : Z := 15000.
Definition JumpdestGas : Z := 1.
Definition CreateDataGas : Z := 200.
Definition CallCreateDepth : Z := 1024.
Definition LogGas : Z := 375.
Definition CopyGas : Z := 3.
Definition StackLimit : Z := 1024.
Definition LogTopicGas : Z := 375.
Definition CreateGas : Z := 32000.
Definition SuicideRefundGas : Z := 24000.
Definition MemoryGas : Z := 3.
Definition MaxCodeSize : Z := 24576.

Record GasTable := mkGasTable {
  ExtcodeSize : Z; ExtcodeCopy : Z; Balance : Z; SLoad : Z; Calls : Z; Suicide : Z; ExpByte : Z;
  CreateBySuicide : Z
}.

Definition GasTableHomestead : GasTable := mkGasTable 20 20 20 50 40 0 10 0.
Definition GasTableEIP150 : GasTable := mkGasTable 700 700 400 200 700 5000 10 25000.
Definition GasTableEIP158 : GasTable := mkGasTable 700 700 400 200 700 5000 50 25000.

Record ChainConfig := mkChainConfig {
  HomesteadBlock : option Z; EIP150Block : option Z; EIP158Block : option Z; ByzantiumBlock : option Z
}.

Definition isForked (s head : option Z) : bool :=
  match s, head with Some s, Some head => s <=? head | _, _ => false end.

Definition IsHomestead (c : ChainConfig) (num : Z) : bool := isForked (HomesteadBlock c) (Some num).
Definition IsEIP150 (c : ChainConfig) (num : Z) : bool := isForked (EIP150Block c) (Some num).
Definition IsEIP158 (c : ChainConfig) (num : Z) : bool := isForked (EIP158Block c) (Some num).
Definition IsByzantium (c : ChainConfig) (num : Z) : bool := isForked (ByzantiumBlock c) (Some num).

Definition config_GasTable (c : ChainConfig) (num : Z) : GasTable :=
  if IsEIP158 c num then GasTableEIP158
  else if IsEIP150 c num then GasTableEIP150
  else GasTableHomestead.

(** ** Errors and interfaces *)

Inductive vmerror :=
  | ErrOutOfGas | ErrCodeStoreOutOfGas | ErrDepth | ErrInsufficientBalance | ErrContractAddressCollision
  | errWriteProtection | errReturnDataOutOfBounds | errExecutionReverted | errMaxCodeSizeExceeded
  | errGasUintOverflow | errInvalidOpcode (op : Z) | errStackUnderflow (have want : Z) | errStackLimit (len : Z)
  | errInvalidJump (op dest : Z) | errNotOnCurve | errInvalidCurvePoint | errBadPairingInput.

#[export] Instance vmerror_dec : EqDecision vmerror.
Proof. solve_decision. Defined.

Record PrecompiledContract := mkPrecompiled {
  RequiredGas : list Z -> Z;
  PRun : list Z -> option (list Z * option vmerror)
}.

(** The [StateDB] interface; getters may fill caches.  [GetRefund] returns a
    pointer to the counter itself: [db_GetRefund] reads it, [db_PutRefund]
    writes through the pointer.  [precompiled] is the table of precompiled
    contracts, for Byzantium and before. *)
Class Host := {
  SDB : Type;
  db_CreateAccount : SDB -> Address -> SDB;
  db_SubBalance : SDB -> Address -> Z -> SDB;
  db_AddBalance : SDB -> Address -> Z -> SDB;
  db_GetBalance : SDB -> Address -> Z * SDB;
  db_GetNonce : SDB -> Address -> Z * SDB;
  db_SetNonce : SDB -> Address -> Z -> SDB;
  db_GetCodeHash : SDB -> Address -> Hash * SDB;
  db_GetCode : SDB -> Address -> list Z * SDB;
  db_SetCode : SDB -> Address -> list Z -> SDB;
  db_GetCodeSize : SDB -> Address -> Z * SDB;
  db_AddRefund : SDB -> Z -> SDB;
  db_GetRefund : SDB -> Z;
  db_PutRefund : SDB -> Z -> SDB;
  db_GetState : SDB -> Address -> Hash -> option (Hash * SDB);
  db_SetState : SDB -> Address -> Hash -> Hash -> option SDB;
  db_Suicide : SDB -> Address -> bool * SDB;
  db_HasSuicided : SDB -> Address -> bool * SDB;
  db_Exist : SDB -> Address -> bool * SDB;
  db_Empty : SDB -> Address -> bool * SDB;
  db_RevertToSnapshot : SDB -> Z -> option SDB;
  db_Snapshot : SDB -> Z * SDB;
  db_AddLog : SDB -> Address -> list Hash -> list Z -> Z -> SDB;
  db_AddPreimage : SDB -> Hash -> list Z -> SDB;
  vKeccak256 : list Z -> Hash;
  vAddressLength : nat;
  precompiled : bool -> Address -> option PrecompiledContract
}.

Inductive out_of_fuel := OutOfFuel.

(** ** Addresses, hashes and words *)

Section Machine.
Context {HO : Host}.

Definition BytesTo (size : nat) (b : list Z) : list Z :=
  let b := drop (length b - size) b in replicate (size - length b) 0 ++ b.

Definition BigToAddress (x : Z) : Address := BytesTo vAddressLength (min_bytes x).
Definition BigToHash (x : Z) : Hash := BytesTo 32 (min_bytes x).
Definition EmptyHash (h : Hash) : bool := bool_decide (h = replicate 32 0).

Definition CreateAddress (b : Address) (nonce : Z) : Address :=
  let data := match EncodeToBytes (VList [VBytes b; VUint nonce]) with Ok d => d | _ => [] end in
  BytesTo vAddressLength (drop 9 (vKeccak256 data)).

(** ** Contract, memory and stack *)

Record Contract := mkContract {
  CallerAddress : Address;
  self : Address;
  Code : list Z;
  CodeHash : Hash;
  CodeAddr : option Address;
  Input : list Z;
  Gas : Z;
  cvalue : Z
}.

Definition set_gas (c : Contract) (g : Z) : Contract :=
  mkContract (CallerAddress c) (self c) (Code c) (CodeHash c) (CodeAddr c) (Input c) g (cvalue c).
Definition set_input (c : Contract) (i : list Z) : Contract :=
  mkContract (CallerAddress c) (self c) (Code c) (CodeHash c) (CodeAddr c) i (Gas c) (cvalue c).

Definition UseGas (c : Contract) (gas : Z) : bool * Contract :=
  if Gas c <? gas then (false, c) else (true, set_gas c (u64 (Gas c - gas))).

Definition GetByte (c : Contract) (n : Z) : Z :=
  if n <? Z.of_nat (length (Code c)) then default 0 (Code c !! Z.to_nat n) else 0.

Definition SetCallCode (c : Contract) (addr : option Address) (hash : Hash) (code : list Z) : Contract :=
  mkContract (CallerAddress c) (self c) code hash addr (Input c) (Gas c) (cvalue c).

(** What a call comes from: an account outside the machine or a contract. *)
Inductive ContractRef :=
  | AccountRef (a : Address)
  | ContractCaller (c : Contract).

Definition ref_Address (r : ContractRef) : Address :=
  match r with AccountRef a => a | ContractCaller c => self c end.

Record Memory := mkMemory { mstore : list Z; lastGasCost : Z }.

Definition mem_Set (m : Memory) (offset size : Z) (v : list Z) : option Memory :=
  if Z.of_nat (length (mstore m)) <? size then None
  else if 0 <? size then
    let stop := u64 (offset + size) in
    if (offset <=? stop) && (stop <=? Z.of_nat (length (mstore m)))
    then Some (mkMemory (memcpy (mstore m) (Z.to_nat offset) (take (Z.to_nat size) v)) (lastGasCost m))
    else None
  else Some m.

Definition mem_Resize (m : Memory) (size : Z) : Memory :=
  if Z.of_nat (length (mstore m)) <? size
  then mkMemory (mstore m ++ replicate (Z.to_nat size - length (mstore m)) 0) (lastGasCost m)
  else m.

(** [Get] copies and [GetPtr] points into the memory, which does not change
    any more where the code uses [GetPtr].  Go bounds a slice expression by the
    capacity of the array; here, and in [mem_Set], a bound past the length is
    already a panic.  The interpreter resizes the memory before each access, so
    that neither happens in a run: the safety lemmas of VmSafe exclude both. *)
Definition mem_Get (m : Memory) (offset size : Z) : option (list Z) :=
  if size =? 0 then Some []
  else if offset <? Z.of_nat (length (mstore m)) then
    let stop := i64 (offset + size) in
    if (0 <=? offset) && (0 <=? size) && (offset <=? stop) && (stop <=? Z.of_nat (length (mstore m)))
    then Some (take (Z.to_nat size) (drop (Z.to_nat offset) (mstore m)))
    else None
  else Some [].

Definition mem_GetPtr (m : Memory) (offset size : Z) : option (list Z) := mem_Get m offset size.

Definition Back (st : list Z) (n : nat) : option Z := st !! n.

Definition require (st : list Z) (n : Z) : option vmerror :=
  if Z.of_nat (length st) <? n then Some (errStackUnderflow (Z.of_nat (length st)) n) else None.

Definition makeStackFunc (pop push : Z) (st : list Z) : option vmerror :=
  match require st pop with
  | Some e => Some e
  | None =>
      if StackLimit <? Z.of_nat (length st) + push - pop then Some (errStackLimit (Z.of_nat (length st)))
      else None
  end.

Definition makeDupStackFunc (n : Z) : list Z -> option vmerror := makeStackFunc n (n + 1).
Definition makeSwapStackFunc (n : Z) : list Z -> option vmerror := makeStackFunc n n.

(** ** The machine *)

Record Context_ := mkContext {
  Origin : Address; GasPrice : Z; ctx_Coinbase : Address; ctx_GasLimit : Z; BlockNumber : Z; ctx_Time : Z;
  ctx_Difficulty : Z; GetHash : Z -> Hash
}.

Record Config := mkConfig { NoRecursion : bool; DisableGasMetering : bool; EnablePreimageRecording : bool }.

(** What does not change during a call; [aborted i] is what the [i]-th check
    of the abort flag sees. *)
Record Env := mkEnv {
  ctx : Context_; chainConfig : ChainConfig; vmConfig : Config; aborted : nat -> bool
}.

Record EVM := mkEVM {
  StateDB : SDB; depth : Z; readOnly : bool; returnData : list Z; jumpdests : destinations; polls : nat
}.

Definition set_db (e : EVM) (d : SDB) : EVM := mkEVM d (depth e) (readOnly e) (returnData e) (jumpdests e) (polls e).
Definition set_depth (e : EVM) (n : Z) : EVM := mkEVM (StateDB e) n (readOnly e) (returnData e) (jumpdests e) (polls e).
Definition set_readOnly (e : EVM) (b : bool) : EVM := mkEVM (StateDB e) (depth e) b (returnData e) (jumpdests e) (polls e).
Definition set_returnData (e : EVM) (r : list Z) : EVM := mkEVM (StateDB e) (depth e) (readOnly e) r (jumpdests e) (polls e).
Definition set_jumpdests (e : EVM) (d : destinations) : EVM := mkEVM (StateDB e) (depth e) (readOnly e) (returnData e) d (polls e).
Definition poll (e : EVM) : EVM := mkEVM (StateDB e) (depth e) (readOnly e) (returnData e) (jumpdests e) (S (polls e)).

(** The variables of [Run]. *)
Record Frame := mkFrame { pc : Z; stack : list Z; memory : Memory; contract : Contract }.

Definition set_stack (f : Frame) (st : list Z) : Frame := mkFrame (pc f) st (memory f) (contract f).
Definition set_memory (f : Frame) (m : Memory) : Frame := mkFrame (pc f) (stack f) m (contract f).
Definition set_pc (f : Frame) (p : Z) : Frame := mkFrame p (stack f) (memory f) (contract f).
Definition set_contract (f : Frame) (c : Contract) : Frame := mkFrame (pc f) (stack f) (memory f) c.

Abbreviation M := (outcome out_of_fuel).
Definition result : Type := list Z * option vmerror * EVM * Frame.
Definition exec : Type := EVM -> Frame -> M result.

Definition CanTransfer (d : SDB) (addr : Address) (amount : Z) : bool * SDB :=
  let '(b, d) := db_GetBalance d addr in (amount <=? b, d).

Definition Transfer (d : SDB) (sender recipient : Address) (amount : Z) : SDB :=
  db_AddBalance (db_SubBalance d sender amount) recipient amount.

(** ** Instructions on the stack *)

Definition done_ (e : EVM) (f : Frame) (st : list Z) : M result := Ok ([], None, e, set_stack f st).

Definition op0 (x : EVM -> Frame -> Z) : exec := fun e f => done_ e f (x e f :: stack f).

Definition op1 (g : Z -> Z) : exec := fun e f =>
  match stack f with x :: s => done_ e f (g x :: s) | _ => Panic end.

Definition op2 (g : Z -> Z -> Z) : exec := fun e f =>
  match stack f with x :: y :: s => done_ e f (g x y :: s) | _ => Panic end.

Definition op3 (g : Z -> Z -> Z -> Z) : exec := fun e f =>
  match stack f with x :: y :: z :: s => done_ e f (g x y z :: s) | _ => Panic end.

Definition flag (b : bool) : Z := if b then 1 else 0.

Definition opAdd : exec := op2 (fun x y => U256 (x + y)).
Definition opSub : exec := op2 (fun x y => U256 (x - y)).
Definition opMul : exec := op2 (fun x y => U256 (x * y)).
Definition opDiv : exec := op2 (fun x y => if negb (y =? 0) then U256 (x / y) else 0).
Definition opSdiv : exec := op2 (fun x y =>
  let x := S256 x in
  let y := S256 y in
  if y =? 0 then 0
  else
    let n := if x * y <? 0 then -1 else 1 in
    U256 (Z.abs x / Z.abs y * n)).
Definition opMod : exec := op2 (fun x y => if y =? 0 then 0 else U256 (x mod y)).
Definition opSmod : exec := op2 (fun x y =>
  let x := S256 x in
  let y := S256 y in
  if y =? 0 then 0
  else
    let n := if x <? 0 then -1 else 1 in
    U256 (Z.abs x mod Z.abs y * n)).
Definition opExp : exec := op2 Exp.

Definition opSignExtend : exec := fun e f =>
  match stack f with
  | back :: s =>
      if back <? 31 then
        let bit := u64 (big_Uint64 back * 8 + 7) in
        match s with
        | num :: s =>
            let mask := Z.shiftl 1 bit - 1 in
            let num := if Z.testbit num bit then Z.lor num (Z.lnot mask) else Z.land num mask in
            done_ e f (U256 num :: s)
        | [] => Panic
        end
      else done_ e f s
  | [] => Panic
  end.

Definition opNot : exec := op1 (fun x => U256 (Z.lnot x)).
Definition opLt : exec := op2 (fun x y => flag (x <? y)).
Definition opGt : exec := op2 (fun x y => flag (y <? x)).
Definition opSlt : exec := op2 (fun x y => flag (S256 x <? S256 (S256 y))).
Definition opSgt : exec := op2 (fun x y => flag (S256 y <? S256 x)).
Definition opEq : exec := op2 (fun x y => flag (x =? y)).
Definition opIszero : exec := op1 (fun x => flag (negb (0 <? x))).
Definition opAnd : exec := op2 Z.land.
Definition opOr : exec := op2 Z.lor.
Definition opXor : exec := op2 Z.lxor.
Definition opByte : exec := op2 (fun th val =>
  if th <? 32 then Byte_at val 32 (Z.to_nat (i64 th)) else 0).
Definition opAddmod : exec := op3 (fun x y z => if 0 <? z then U256 ((x + y) mod z) else 0).
Definition opMulmod : exec := op3 (fun x y z => if 0 <? z then U256 ((x * y) mod z) else 0).

Definition opPop : exec := fun e f => match stack f with _ :: s => done_ e f s | [] => Panic end.

Definition makeDup (n : nat) : exec := fun e f =>
  x ← or_panic (stack f !! (n - 1)%nat); done_ e f (x :: stack f).

Definition makeSwap (n : nat) : exec := fun e f =>
  x ← or_panic (stack f !! n);
  top ← or_panic (stack f !! 0%nat);
  done_ e f (<[0%nat := x]> (<[n := top]> (stack f))).

Definition makePush (size : Z) (pushByteSize : nat) : exec := fun e f =>
  let code := Code (contract f) in
  let codeLen := Z.of_nat (length code) in
  let next := i64 (u64 (pc f + 1)) in
  let startMin := if next <? codeLen then next else codeLen in
  let endMin := if startMin + Z.of_nat pushByteSize <? codeLen then startMin + Z.of_nat pushByteSize else codeLen in
  if startMin <? 0 then Panic
  else
    d ← or_panic (slice64 code startMin endMin);
    let x := be_get (RightPadBytes d (Z.of_nat pushByteSize)) in
    Ok ([], None, e, set_pc (set_stack f (x :: stack f)) (u64 (pc f + size))).

Definition opPc : exec := op0 (fun _ f => pc f).
Definition opMsize : exec := op0 (fun _ f => Z.of_nat (length (mstore (memory f)))).
Definition opGas : exec := op0 (fun _ f => Gas (contract f)).
Definition opJumpdest : exec := fun e f => Ok ([], None, e, f).
Definition opStop : exec := fun e f => Ok ([], None, e, f).

Definition jump_to (e : EVM) (f : Frame) (pos : Z) (s : list Z) : M result :=
  '(b, d) ← or_panic (has (jumpdests e) (CodeHash (contract f)) (Code (contract f)) pos);
  let e := set_jumpdests e d in
  if b : bool then Ok ([], None, e, set_pc (set_stack f s) (big_Uint64 pos))
  else Ok ([], Some (errInvalidJump (GetByte (contract f) (big_Uint64 pos)) pos), e, set_stack f s).

Definition opJump : exec := fun e f =>
  match stack f with pos :: s => jump_to e f pos s | [] => Panic end.

Definition opJumpi : exec := fun e f =>
  match stack f with
  | pos :: cond :: s =>
      if negb (cond =? 0) then jump_to e f pos s
      else Ok ([], None, e, set_pc (set_stack f s) (u64 (pc f + 1)))
  | _ => Panic
  end.

(** ** Instructions on memory, environment and state *)

Section Instructions.
Context (env : Env).

Definition number : Z := BlockNumber (ctx env).
Definition is_homestead : bool := IsHomestead (chainConfig env) number.
Definition is_eip150 : bool := IsEIP150 (chainConfig env) number.
Definition is_eip158 : bool := IsEIP158 (chainConfig env) number.
Definition is_byzantium : bool := IsByzantium (chainConfig env) number.

Definition opSha3 : exec := fun e f =>
  match stack f with
  | offset :: size :: s =>
      data ← or_panic (mem_Get (memory f) (big_Int64 offset) (big_Int64 size));
      let hash := vKeccak256 data in
      let e := if EnablePreimageRecording (vmConfig env)
               then set_db e (db_AddPreimage (StateDB e) (BytesTo 32 hash) data) else e in
      done_ e f (be_get hash :: s)
  | _ => Panic
  end.

Definition opAddress : exec := op0 (fun _ f => be_get (self (contract f))).

Definition opBalance : exec := fun e f =>
  match stack f with
  | x :: s =>
      let '(b, d) := db_GetBalance (StateDB e) (BigToAddress x) in done_ (set_db e d) f (b :: s)
  | [] => Panic
  end.

Definition opOrigin : exec := op0 (fun _ _ => be_get (Origin (ctx env))).
Definition opCaller : exec := op0 (fun _ f => be_get (CallerAddress (contract f))).
Definition opCallValue : exec := op0 (fun _ f => cvalue (contract f)).

Definition opCallDataLoad : exec := fun e f =>
  match stack f with
  | x :: s => d ← or_panic (getDataBig (Input (contract f)) x 32); done_ e f (be_get d :: s)
  | [] => Panic
  end.

Definition opCallDataSize : exec := op0 (fun _ f => Z.of_nat (length (Input (contract f)))).

(** The tail of the copying instructions: [memory.Set] with 64-bit arguments. *)
Definition copy_to (e : EVM) (f : Frame) (memOffset length : Z) (d s : list Z) : M result :=
  m ← or_panic (mem_Set (memory f) (big_Uint64 memOffset) (big_Uint64 length) d);
  done_ e (set_memory f m) s.

Definition opCallDataCopy : exec := fun e f =>
  match stack f with
  | memOffset :: dataOffset :: length :: s =>
      d ← or_panic (getDataBig (Input (contract f)) dataOffset length);
      copy_to e f memOffset length d s
  | _ => Panic
  end.

Definition opReturnDataSize : exec := op0 (fun e _ => Z.of_nat (length (returnData e))).

Definition opReturnDataCopy : exec := fun e f =>
  match stack f with
  | memOffset :: dataOffset :: len :: s =>
      let stop := dataOffset + len in
      if (64 <? BitLen stop) || (Z.of_nat (length (returnData e)) <? big_Uint64 stop)
      then Ok ([], Some errReturnDataOutOfBounds, e, set_stack f s)
      else
        d ← or_panic (slice64 (returnData e) (big_Uint64 dataOffset) (big_Uint64 stop));
        copy_to e f memOffset len d s
  | _ => Panic
  end.

Definition opExtCodeSize : exec := fun e f =>
  match stack f with
  | a :: s => let '(n, d) := db_GetCodeSize (StateDB e) (BigToAddress a) in done_ (set_db e d) f (n :: s)
  | [] => Panic
  end.

Definition opCodeSize : exec := op0 (fun _ f => Z.of_nat (length (Code (contract f)))).

Definition opCodeCopy : exec := fun e f =>
  match stack f with
  | memOffset :: codeOffset :: length :: s =>
      d ← or_panic (getDataBig (Code (contract f)) codeOffset length);
      copy_to e f memOffset length d s
  | _ => Panic
  end.

Definition opExtCodeCopy : exec := fun e f =>
  match stack f with
  | a :: memOffset :: codeOffset :: length :: s =>
      let '(c, db) := db_GetCode (StateDB e) (BigToAddress a) in
      d ← or_panic (getDataBig c codeOffset length);
      copy_to (set_db e db) f memOffset length d s
  | _ => Panic
  end.

Definition opGasprice : exec := op0 (fun _ _ => GasPrice (ctx env)).

Definition opBlockhash : exec := op1 (fun num =>
  let n := number - 257 in
  if (n <? num) && (num <? number) then be_get (GetHash (ctx env) (big_Uint64 num)) else 0).

Definition opCoinbase : exec := op0 (fun _ _ => be_get (ctx_Coinbase (ctx env))).
Definition opTimestamp : exec := op0 (fun _ _ => U256 (ctx_Time (ctx env))).
Definition opNumber : exec := op0 (fun _ _ => U256 number).
Definition opDifficulty : exec := op0 (fun _ _ => U256 (ctx_Difficulty (ctx env))).
Definition opGasLimit : exec := op0 (fun _ _ => U256 (ctx_GasLimit (ctx env))).

Definition opMload : exec := fun e f =>
  match stack f with
  | offset :: s => d ← or_panic (mem_Get (memory f) (big_Int64 offset) 32); done_ e f (be_get d :: s)
  | [] => Panic
  end.

Definition opMstore : exec := fun e f =>
  match stack f with
  | mStart :: val :: s =>
      m ← or_panic (mem_Set (memory f) (big_Uint64 mStart) 32 (PaddedBigBytes val 32));
      done_ e (set_memory f m) s
  | _ => Panic
  end.

Definition opMstore8 : exec := fun e f =>
  match stack f with
  | off :: val :: s =>
      let off := big_Int64 off in
      let m := mstore (memory f) in
      if (0 <=? off) && (off <? Z.of_nat (length m))
      then done_ e (set_memory f (mkMemory (<[Z.to_nat off := Z.land (big_Int64 val) 0xff]> m) (lastGasCost (memory f)))) s
      else Panic
  | _ => Panic
  end.

Definition opSload : exec := fun e f =>
  match stack f with
  | x :: s =>
      '(v, d) ← or_panic (db_GetState (StateDB e) (self (contract f)) (BigToHash x));
      done_ (set_db e d) f (be_get v :: s)
  | [] => Panic
  end.

Definition opSstore : exec := fun e f =>
  match stack f with
  | x :: val :: s =>
      d ← or_panic (db_SetState (StateDB e) (self (contract f)) (BigToHash x) (BigToHash val));
      done_ (set_db e d) f s
  | _ => Panic
  end.

(** [GetPtr] and the end of [RETURN] and [REVERT]. *)
Definition opReturn : exec := fun e f =>
  match stack f with
  | offset :: size :: s =>
      ret ← or_panic (mem_GetPtr (memory f) (big_Int64 offset) (big_Int64 size));
      Ok (ret, None, e, set_stack f s)
  | _ => Panic
  end.

Definition opRevert : exec := opReturn.

Definition opSuicide : exec := fun e f =>
  let '(balance, d) := db_GetBalance (StateDB e) (self (contract f)) in
  match stack f with
  | x :: s =>
      let d := db_AddBalance d (BigToAddress x) balance in
      let '(_, d) := db_Suicide d (self (contract f)) in
      done_ (set_db e d) f s
  | [] => Panic
  end.

Definition makeLog (size : nat) : exec := fun e f =>
  match stack f with
  | mStart :: mSize :: s =>
      if (length s <? size)%nat then Panic
      else
        let topics := BigToHash <$> take size s in
        d ← or_panic (mem_Get (memory f) (big_Int64 mStart) (big_Int64 mSize));
        let db := db_AddLog (StateDB e) (self (contract f)) topics d (big_Uint64 number) in
        done_ (set_db e db) f (drop size s)
  | _ => Panic
  end.

(** ** Calls

    The instructions that call are given the functions of [evm.go] they call. *)

Record Callees := mkCallees {
  to_Call : EVM -> ContractRef -> Address -> list Z -> Z -> Z -> M (list Z * Z * option vmerror * EVM);
  to_CallCode : EVM -> Contract -> Address -> list Z -> Z -> Z -> M (list Z * Z * option vmerror * EVM);
  to_DelegateCall : EVM -> Contract -> Address -> list Z -> Z -> M (list Z * Z * option vmerror * EVM);
  to_StaticCall : EVM -> Contract -> Address -> list Z -> Z -> M (list Z * Z * option vmerror * EVM);
  to_Create : EVM -> ContractRef -> list Z -> Z -> Z -> M (list Z * Address * Z * option vmerror * EVM)
}.

Context (callees : Callees).

(** The common end of the call instructions. *)
Definition end_call (f : Frame) (s : list Z) (retOffset retSize : Z)
    (r : list Z * Z * option vmerror * EVM) : M result :=
  let '(ret, returnGas, err, e) := r in
  let st := (match err with Some _ => 0 | None => 1 end) :: s in
  m ← (if bool_decide (err = None \/ err = Some errExecutionReverted)
       then or_panic (mem_Set (memory f) (big_Uint64 retOffset) (big_Uint64 retSize) ret) else Ok (memory f));
  let c := set_gas (contract f) (u64 (Gas (contract f) + returnGas)) in
  Ok (ret, None, e, set_contract (set_memory (set_stack f st) m) c).

Definition with_stipend (gas value : Z) : Z := if negb (value =? 0) then u64 (gas + CallStipend) else gas.

Definition opCall : exec := fun e f =>
  match stack f with
  | g :: addr :: value :: inOffset :: inSize :: retOffset :: retSize :: s =>
      let gas := big_Uint64 g in
      let value := U256 value in
      args ← or_panic (mem_Get (memory f) (big_Int64 inOffset) (big_Int64 inSize));
      r ← to_Call callees e (ContractCaller (contract f)) (BigToAddress addr) args (with_stipend gas value) value;
      end_call f s retOffset retSize r
  | _ => Panic
  end.

Definition opCallCode : exec := fun e f =>
  match stack f with
  | g :: addr :: value :: inOffset :: inSize :: retOffset :: retSize :: s =>
      let gas := big_Uint64 g in
      let value := U256 value in
      args ← or_panic (mem_Get (memory f) (big_Int64 inOffset) (big_Int64 inSize));
      r ← to_CallCode callees e (contract f) (BigToAddress addr) args (with_stipend gas value) value;
      end_call f s retOffset retSize r
  | _ => Panic
  end.

Definition opDelegateCall : exec := fun e f =>
  match stack f with
  | g :: to :: inOffset :: inSize :: outOffset :: outSize :: s =>
      args ← or_panic (mem_Get (memory f) (big_Int64 inOffset) (big_Int64 inSize));
      r ← to_DelegateCall callees e (contract f) (BigToAddress to) args (big_Uint64 g);
      end_call f s outOffset outSize r
  | _ => Panic
  end.

Definition opStaticCall : exec := fun e f =>
  match stack f with
  | g :: addr :: inOffset :: inSize :: retOffset :: retSize :: s =>
      args ← or_panic (mem_Get (memory f) (big_Int64 inOffset) (big_Int64 inSize));
      r ← to_StaticCall callees e (contract f) (BigToAddress addr) args (big_Uint64 g);
      end_call f s retOffset retSize r
  | _ => Panic
  end.

Definition opCreate : exec := fun e f =>
  match stack f with
  | value :: offset :: size :: s =>
      input ← or_panic (mem_Get (memory f) (big_Int64 offset) (big_Int64 size));
      let gas := Gas (contract f) in
      let gas := if is_eip150 then u64 (gas - gas / 64) else gas in
      let c := (UseGas (contract f) gas).2 in
      '(res, addr, returnGas, suberr, e) ← to_Create callees e (ContractCaller c) input gas value;
      let top :=
        if is_homestead && bool_decide (suberr = Some ErrCodeStoreOutOfGas) then 0
        else if bool_decide (suberr <> None /\ suberr <> Some ErrCodeStoreOutOfGas) then 0
        else be_get addr in
      let c := set_gas c (u64 (Gas c + returnGas)) in
      let ret := if bool_decide (suberr = Some errExecutionReverted) then res else [] in
      Ok (ret, None, e, set_contract (set_stack f (top :: s)) c)
  | _ => Panic
  end.

(** ** Memory sizes *)

Definition mem_size (off len : nat) (st : list Z) : option Z :=
  o ← Back st off; l ← Back st len; Some (calcMemSize o l).

Definition mem_const (len : Z) (st : list Z) : option Z := o ← Back st 0; Some (calcMemSize o len).

Definition mem_two (off1 len1 off2 len2 : nat) (st : list Z) : option Z :=
  x ← mem_size off1 len1 st; y ← mem_size off2 len2 st; Some (BigMax x y).

Definition memorySha3 := mem_size 0 1.
Definition memoryCallDataCopy := mem_size 0 2.
Definition memoryReturnDataCopy := mem_size 0 2.
Definition memoryCodeCopy := mem_size 0 2.
Definition memoryExtCodeCopy := mem_size 1 3.
Definition memoryMLoad := mem_const 32.
Definition memoryMStore8 := mem_const 1.
Definition memoryMStore := mem_const 32.
Definition memoryCreate := mem_size 1 2.
Definition memoryCall := mem_two 5 6 3 4.
Definition memoryDelegateCall := mem_two 4 5 2 3.
Definition memoryStaticCall := mem_two 4 5 2 3.
Definition memoryReturn := mem_size 0 1.
Definition memoryRevert := mem_size 0 1.
Definition memoryLog := mem_size 0 1.

(** ** Gas

    A gas function may read the state, grow the recorded memory fee and
    replace the top of the stack.  The inner [None] is [errGasUintOverflow]. *)

Definition GasQuickStep : Z := 2.
Definition GasFastestStep : Z := 3.
Definition GasFastStep : Z := 5.
Definition GasMidStep : Z := 8.
Definition GasSlowStep : Z := 10.
Definition GasExtStep : Z := 20.

Definition gasFunc : Type := GasTable -> EVM -> Frame -> Z -> option (option Z * EVM * Frame).

Definition safe_add (x y : Z) : option Z := let '(r, o) := SafeAdd x y in if o : bool then None else Some r.
Definition safe_mul (x y : Z) : option Z := let '(r, o) := SafeMul x y in if o : bool then None else Some r.
Definition to_u64 (v : Z) : option Z := let '(r, o) := bigUint64 v in if o : bool then None else Some r.

Definition memoryGasCost (mem : Memory) (newMemSize : Z) : option Z * Memory :=
  if newMemSize =? 0 then (Some 0, mem)
  else if 0xffffffffe0 <? newMemSize then (None, mem)
  else
    let newMemSizeWords := toWordSize newMemSize in
    let newMemSize := u64 (newMemSizeWords * 32) in
    if Z.of_nat (length (mstore mem)) <? newMemSize then
      let square := u64 (newMemSizeWords * newMemSizeWords) in
      let linCoef := u64 (newMemSizeWords * MemoryGas) in
      let quadCoef := square / QuadCoeffDiv in
      let newTotalFee := u64 (linCoef + quadCoef) in
      (Some (u64 (newTotalFee - lastGasCost mem)), mkMemory (mstore mem) newTotalFee)
    else (Some 0, mem).

Definition constGasFunc (gas : Z) : gasFunc := fun _ e f _ => Some (Some gas, e, f).
Definition gasPush : gasFunc := constGasFunc GasFastestStep.
Definition gasSwap : gasFunc := constGasFunc GasFastestStep.
Definition gasDup : gasFunc := constGasFunc GasFastestStep.

(** The memory fee, and then what [k] makes of it. *)
Definition with_memory_gas (k : Z -> option Z) (e : EVM) (f : Frame) (memorySize : Z) : option (option Z * EVM * Frame) :=
  let '(g, m) := memoryGasCost (memory f) memorySize in Some (g ≫= k, e, set_memory f m).

(** Memory fee, a base fee and a fee per word of the size at [back]. *)
Definition gas_words (base per : Z) (back : nat) : gasFunc := fun _ e f memorySize =>
  n ← Back (stack f) back;
  with_memory_gas (fun gas =>
    gas ← safe_add gas base;
    words ← to_u64 n;
    words ← safe_mul (toWordSize words) per;
    safe_add gas words) e f memorySize.

Definition gasCallDataCopy : gasFunc := gas_words GasFastestStep CopyGas 2.
Definition gasReturnDataCopy : gasFunc := gas_words GasFastestStep CopyGas 2.
Definition gasCodeCopy : gasFunc := gas_words GasFastestStep CopyGas 2.
Definition gasSha3 : gasFunc := gas_words Sha3Gas Sha3WordGas 1.
Definition gasExtCodeCopy : gasFunc := fun gt => gas_words (ExtcodeCopy gt) CopyGas 3 gt.

Definition gas_plus (base : Z) : gasFunc := fun _ => with_memory_gas (fun gas => safe_add gas base).

Definition gasMLoad : gasFunc := gas_plus GasFastestStep.
Definition gasMStore8 : gasFunc := gas_plus GasFastestStep.
Definition gasMStore : gasFunc := gas_plus GasFastestStep.
Definition gasCreate : gasFunc := gas_plus CreateGas.
Definition gasReturn : gasFunc := fun _ => with_memory_gas Some.
Definition gasRevert : gasFunc := fun _ => with_memory_gas Some.

Definition gasBalance : gasFunc := fun gt e f _ => Some (Some (Balance gt), e, f).
Definition gasExtCodeSize : gasFunc := fun gt e f _ => Some (Some (ExtcodeSize gt), e, f).
Definition gasSLoad : gasFunc := fun gt e f _ => Some (Some (SLoad gt), e, f).

Definition gasExp : gasFunc := fun gt e f _ =>
  x ← stack f !! 1%nat;
  let expByteLen := (BitLen x + 7) / 8 in
  Some (safe_add (u64 (expByteLen * ExpByte gt)) GasSlowStep, e, f).

Definition gasSStore : gasFunc := fun _ e f _ =>
  y ← Back (stack f) 1;
  x ← Back (stack f) 0;
  '(val, d) ← db_GetState (StateDB e) (self (contract f)) (BigToHash x);
  let e := set_db e d in
  if EmptyHash val && negb (EmptyHash (BigToHash y)) then Some (Some SstoreSetGas, e, f)
  else if negb (EmptyHash val) && EmptyHash (BigToHash y)
  then Some (Some SstoreClearGas, set_db e (db_AddRefund (StateDB e) SstoreRefundGas), f)
  else Some (Some SstoreResetGas, e, f).

Definition makeGasLog (n : Z) : gasFunc := fun _ e f memorySize =>
  size ← Back (stack f) 1;
  match to_u64 size with
  | None => Some (None, e, f)
  | Some requestedSize =>
      with_memory_gas (fun gas =>
        gas ← safe_add gas LogGas;
        gas ← safe_add gas (u64 (n * LogTopicGas));
        memorySizeGas ← safe_mul requestedSize LogDataGas;
        safe_add gas memorySizeGas) e f memorySize
  end.

Definition callGas (gt : GasTable) (availableGas base callCost : Z) : option Z :=
  let plain := if 64 <? BitLen callCost then None else Some (big_Uint64 callCost) in
  if 0 <? CreateBySuicide gt then
    let availableGas := u64 (availableGas - base) in
    let gas := u64 (availableGas - availableGas / 64) in
    if (64 <? BitLen callCost) || (gas <? big_Uint64 callCost) then Some gas else plain
  else plain.

(** The end of the gas functions of calls: memory fee, the gas handed on,
    which replaces the top of the stack, and their sum. *)
Definition gas_call (base : Z) : gasFunc := fun gt e f memorySize =>
  top ← Back (stack f) 0;
  let '(mg, m) := memoryGasCost (memory f) memorySize in
  let f := set_memory f m in
  match (mg ≫= safe_add base) with
  | None => Some (None, e, f)
  | Some gas =>
      match callGas gt (Gas (contract f)) gas top with
      | None => Some (None, e, f)
      | Some cg => Some (safe_add gas cg, e, set_stack f (<[0%nat := cg]> (stack f)))
      end
  end.

Definition gasCall : gasFunc := fun gt e f memorySize =>
  v ← Back (stack f) 2;
  a ← Back (stack f) 1;
  let transfersValue := negb (v =? 0) in
  let '(new, d) :=
    if is_eip158 then
      if transfersValue then db_Empty (StateDB e) (BigToAddress a) else (false, StateDB e)
    else let '(ex, d) := db_Exist (StateDB e) (BigToAddress a) in (negb ex, d) in
  let gas := Calls gt in
  let gas := if new : bool then u64 (gas + CallNewAccountGas) else gas in
  let gas := if transfersValue then u64 (gas + CallValueTransferGas) else gas in
  gas_call gas gt (set_db e d) f memorySize.

Definition gasCallCode : gasFunc := fun gt e f memorySize =>
  v ← Back (stack f) 2;
  let gas := Calls gt in
  let gas := if negb (v =? 0) then u64 (gas + CallValueTransferGas) else gas in
  gas_call gas gt e f memorySize.

Definition gasDelegateCall : gasFunc := fun gt => gas_call (Calls gt) gt.
Definition gasStaticCall : gasFunc := fun gt => gas_call (Calls gt) gt.

Definition gasSuicide : gasFunc := fun gt e f _ =>
  a ← (if is_eip150 then Back (stack f) 0 else Some 0);
  let address := BigToAddress a in
  let '(gas, d) :=
    if is_eip150 then
      if is_eip158 then
        let '(em, d) := db_Empty (StateDB e) address in
        if em : bool then
          let '(b, d) := db_GetBalance d (self (contract f)) in
          (if negb (b =? 0) then u64 (Suicide gt + CreateBySuicide gt) else Suicide gt, d)
        else (Suicide gt, d)
      else
        let '(ex, d) := db_Exist (StateDB e) address in
        (if negb ex then u64 (Suicide gt + CreateBySuicide gt) else Suicide gt, d)
    else (0, StateDB e) in
  let '(hs, d) := db_HasSuicided d (self (contract f)) in
  let d := if negb hs then db_AddRefund d SuicideRefundGas else d in
  Some (Some gas, set_db e d, f).

(** ** Opcodes and the jump table *)

Inductive OpCode :=
  | STOP | ADD | MUL | SUB | DIV | SDIV | MOD | SMOD | ADDMOD | MULMOD | EXP | SIGNEXTEND
  | LT | GT | SLT | SGT | EQ | ISZERO | AND | OR | XOR | NOT | BYTE | SHA3
  | ADDRESS | BALANCE | ORIGIN | CALLER | CALLVALUE | CALLDATALOAD | CALLDATASIZE | CALLDATACOPY | CODESIZE
  | CODECOPY | GASPRICE | EXTCODESIZE | EXTCODECOPY | RETURNDATASIZE | RETURNDATACOPY
  | BLOCKHASH | COINBASE | TIMESTAMP | NUMBER | DIFFICULTY | GASLIMIT
  | POP | MLOAD | MSTORE | MSTORE8 | SLOAD | SSTORE | JUMP | JUMPI | PC | MSIZE | GAS | JUMPDEST
  | PUSH (n : nat) | DUP (n : nat) | SWAP (n : nat) | LOG (n : nat)
  | CREATE | CALL | CALLCODE | RETURN | DELEGATECALL | STATICCALL | REVERT | SELFDESTRUCT.

Definition opcodes_from (base : Z) : list OpCode -> list (Z * OpCode) :=
  imap (fun i op => (base + Z.of_nat i, op)).

Definition opcodes : list (Z * OpCode) :=
  opcodes_from 0x00 [STOP; ADD; MUL; SUB; DIV; SDIV; MOD; SMOD; ADDMOD; MULMOD; EXP; SIGNEXTEND] ++
  opcodes_from 0x10 [LT; GT; SLT; SGT; EQ; ISZERO; AND; OR; XOR; NOT; BYTE] ++
  [(0x20, SHA3)] ++
  opcodes_from 0x30 [ADDRESS; BALANCE; ORIGIN; CALLER; CALLVALUE; CALLDATALOAD; CALLDATASIZE; CALLDATACOPY;
    CODESIZE; CODECOPY; GASPRICE; EXTCODESIZE; EXTCODECOPY; RETURNDATASIZE; RETURNDATACOPY] ++
  opcodes_from 0x40 [BLOCKHASH; COINBASE; TIMESTAMP; NUMBER; DIFFICULTY; GASLIMIT] ++
  opcodes_from 0x50 [POP; MLOAD; MSTORE; MSTORE8; SLOAD; SSTORE; JUMP; JUMPI; PC; MSIZE; GAS; JUMPDEST] ++
  opcodes_from 0x60 (PUSH <$> seq 1 32) ++ opcodes_from 0x80 (DUP <$> seq 1 16) ++
  opcodes_from 0x90 (SWAP <$> seq 1 16) ++ opcodes_from 0xa0 (LOG <$> seq 0 5) ++
  opcodes_from 0xf0 [CREATE; CALL; CALLCODE; RETURN; DELEGATECALL] ++
  [(0xfa, STATICCALL); (0xfd, REVERT); (0xff, SELFDESTRUCT)].

Definition OpCode_of (b : Z) : option OpCode := snd <$> List.find (fun p => p.1 =? b) opcodes.

Record operation := mkOp {
  execute : exec;
  gasCost : gasFunc;
  validateStack : list Z -> option vmerror;
  memorySize : option (list Z -> option Z);
  halts : bool; jumps : bool; writes : bool; reverts : bool; returns : bool
}.

(** An operation without memory, and the flags that some operations set. *)
Definition plain (x : exec) (g : gasFunc) (pop push : Z) : operation :=
  mkOp x g (makeStackFunc pop push) None false false false false false.
Definition with_mem (o : operation) (m : list Z -> option Z) : operation :=
  mkOp (execute o) (gasCost o) (validateStack o) (Some m) (halts o) (jumps o) (writes o) (reverts o) (returns o).
Definition that_halts (o : operation) : operation :=
  mkOp (execute o) (gasCost o) (validateStack o) (memorySize o) true (jumps o) (writes o) (reverts o) (returns o).
Definition that_jumps (o : operation) : operation :=
  mkOp (execute o) (gasCost o) (validateStack o) (memorySize o) (halts o) true (writes o) (reverts o) (returns o).
Definition that_writes (o : operation) : operation :=
  mkOp (execute o) (gasCost o) (validateStack o) (memorySize o) (halts o) (jumps o) true (reverts o) (returns o).
Definition that_returns (o : operation) : operation :=
  mkOp (execute o) (gasCost o) (validateStack o) (memorySize o) (halts o) (jumps o) (writes o) (reverts o) true.
Definition that_reverts (o : operation) : operation :=
  mkOp (execute o) (gasCost o) (validateStack o) (memorySize o) (halts o) (jumps o) (writes o) true (returns o).

Definition frontierInstructionSet (op : OpCode) : option operation :=
  let quick := constGasFunc GasQuickStep in
  let fastest := constGasFunc GasFastestStep in
  let fast := constGasFunc GasFastStep in
  let mid := constGasFunc GasMidStep in
  match op with
  | STOP => Some (that_halts (plain opStop (constGasFunc 0) 0 0))
  | ADD => Some (plain opAdd fastest 2 1)
  | MUL => Some (plain opMul fast 2 1)
  | SUB => Some (plain opSub fastest 2 1)
  | DIV => Some (plain opDiv fast 2 1)
  | SDIV => Some (plain opSdiv fast 2 1)
  | MOD => Some (plain opMod fast 2 1)
  | SMOD => Some (plain opSmod fast 2 1)
  | ADDMOD => Some (plain opAddmod mid 3 1)
  | MULMOD => Some (plain opMulmod mid 3 1)
  | EXP => Some (plain opExp gasExp 2 1)
  | SIGNEXTEND => Some (plain opSignExtend fast 2 1)
  | LT => Some (plain opLt fastest 2 1)
  | GT => Some (plain opGt fastest 2 1)
  | SLT => Some (plain opSlt fastest 2 1)
  | SGT => Some (plain opSgt fastest 2 1)
  | EQ => Some (plain opEq fastest 2 1)
  | ISZERO => Some (plain opIszero fastest 1 1)
  | AND => Some (plain opAnd fastest 2 1)
  | XOR => Some (plain opXor fastest 2 1)
  | OR => Some (plain opOr fastest 2 1)
  | NOT => Some (plain opNot fastest 1 1)
  | BYTE => Some (plain opByte fastest 2 1)
  | SHA3 => Some (with_mem (plain opSha3 gasSha3 2 1) memorySha3)
  | ADDRESS => Some (plain opAddress quick 0 1)
  | BALANCE => Some (plain opBalance gasBalance 1 1)
  | ORIGIN => Some (plain opOrigin quick 0 1)
  | CALLER => Some (plain opCaller quick 0 1)
  | CALLVALUE => Some (plain opCallValue quick 0 1)
  | CALLDATALOAD => Some (plain opCallDataLoad fastest 1 1)
  | CALLDATASIZE => Some (plain opCallDataSize quick 0 1)
  | CALLDATACOPY => Some (with_mem (plain opCallDataCopy gasCallDataCopy 3 0) memoryCallDataCopy)
  | CODESIZE => Some (plain opCodeSize quick 0 1)
  | CODECOPY => Some (with_mem (plain opCodeCopy gasCodeCopy 3 0) memoryCodeCopy)
  | GASPRICE => Some (plain opGasprice quick 0 1)
  | EXTCODESIZE => Some (plain opExtCodeSize gasExtCodeSize 1 1)
  | EXTCODECOPY => Some (with_mem (plain opExtCodeCopy gasExtCodeCopy 4 0) memoryExtCodeCopy)
  | BLOCKHASH => Some (plain opBlockhash (constGasFunc GasExtStep) 1 1)
  | COINBASE => Some (plain opCoinbase quick 0 1)
  | TIMESTAMP => Some (plain opTimestamp quick 0 1)
  | NUMBER => Some (plain opNumber quick 0 1)
  | DIFFICULTY => Some (plain opDifficulty quick 0 1)
  | GASLIMIT => Some (plain opGasLimit quick 0 1)
  | POP => Some (plain opPop quick 1 0)
  | MLOAD => Some (with_mem (plain opMload gasMLoad 1 1) memoryMLoad)
  | MSTORE => Some (with_mem (plain opMstore gasMStore 2 0) memoryMStore)
  | MSTORE8 => Some (with_mem (plain opMstore8 gasMStore8 2 0) memoryMStore8)
  | SLOAD => Some (plain opSload gasSLoad 1 1)
  | SSTORE => Some (that_writes (plain opSstore gasSStore 2 0))
  | JUMP => Some (that_jumps (plain opJump mid 1 0))
  | JUMPI => Some (that_jumps (plain opJumpi (constGasFunc GasSlowStep) 2 0))
  | PC => Some (plain opPc quick 0 1)
  | MSIZE => Some (plain opMsize quick 0 1)
  | GAS => Some (plain opGas quick 0 1)
  | JUMPDEST => Some (plain opJumpdest (constGasFunc JumpdestGas) 0 0)
  | PUSH n => Some (plain (makePush (Z.of_nat n) n) gasPush 0 1)
  | DUP n => Some (mkOp (makeDup n) gasDup (makeDupStackFunc (Z.of_nat n)) None false false false false false)
  | SWAP n => Some (mkOp (makeSwap n) gasSwap (makeSwapStackFunc (Z.of_nat n + 1)) None false false false false false)
  | LOG n => Some (that_writes (with_mem (plain (makeLog n) (makeGasLog (Z.of_nat n)) (Z.of_nat n + 2) 0) memoryLog))
  | CREATE => Some (that_returns (that_writes (with_mem (plain opCreate gasCreate 3 1) memoryCreate)))
  | CALL => Some (that_returns (with_mem (plain opCall gasCall 7 1) memoryCall))
  | CALLCODE => Some (that_returns (with_mem (plain opCallCode gasCallCode 7 1) memoryCall))
  | RETURN => Some (that_halts (with_mem (plain opReturn gasReturn 2 0) memoryReturn))
  | SELFDESTRUCT => Some (that_halts (that_writes (plain opSuicide gasSuicide 1 0)))
  | RETURNDATASIZE | RETURNDATACOPY | DELEGATECALL | STATICCALL | REVERT => None
  end.

Definition homesteadInstructionSet (op : OpCode) : option operation :=
  match op with
  | DELEGATECALL => Some (that_returns (with_mem (plain opDelegateCall gasDelegateCall 6 1) memoryDelegateCall))
  | _ => frontierInstructionSet op
  end.

Definition byzantiumInstructionSet (op : OpCode) : option operation :=
  match op with
  | STATICCALL => Some (that_returns (with_mem (plain opStaticCall gasStaticCall 6 1) memoryStaticCall))
  | RETURNDATASIZE => Some (plain opReturnDataSize (constGasFunc GasQuickStep) 0 1)
  | RETURNDATACOPY => Some (with_mem (plain opReturnDataCopy gasReturnDataCopy 3 0) memoryReturnDataCopy)
  | REVERT => Some (that_returns (that_reverts (with_mem (plain opRevert gasRevert 2 0) memoryRevert)))
  | _ => homesteadInstructionSet op
  end.

(** The table [NewInterpreter] chooses. *)
Definition jump_table (op : OpCode) : option operation :=
  if is_byzantium then byzantiumInstructionSet op
  else if is_homestead then homesteadInstructionSet op
  else frontierInstructionSet op.

(** ** The interpreter *)

Definition enforceRestrictions (e : EVM) (op : OpCode) (o : operation) (st : list Z) : option (option vmerror) :=
  if is_byzantium && readOnly e then
    if writes o then Some (Some errWriteProtection)
    else
      match op with
      | CALL => v ← Back st 2; Some (if 0 <? BitLen v then Some errWriteProtection else None)
      | _ => Some None
      end
  else Some None.

(** The size the memory must have, in whole words; the inner [None] is an
    overflow. *)
Definition memory_needed (o : operation) (st : list Z) : option (option Z) :=
  match memorySize o with
  | None => Some (Some 0)
  | Some ms => v ← ms st; Some (n ← to_u64 v; safe_mul (toWordSize n) 32)
  end.

Definition stop_with (err : vmerror) (e : EVM) (f : Frame) : M result := Ok ([], Some err, e, f).

(** Gas for the operation. *)
Definition charge (o : operation) (e : EVM) (f : Frame) (size : Z) : option (bool * EVM * Frame) :=
  if DisableGasMetering (vmConfig env) then Some (true, e, f)
  else
    '(cost, e, f) ← gasCost o (config_GasTable (chainConfig env) number) e f size;
    match cost with
    | None => Some (false, e, f)
    | Some cost => let '(ok, c) := UseGas (contract f) cost in Some (ok, e, set_contract f c)
    end.

End Instructions.

Section Interpreter.
Context (env : Env).

(** One round of the loop for a valid operation; [again] is the next round. *)
Definition step (callees : Callees) (again : EVM -> Frame -> M result) (op : OpCode) (o : operation)
    (e : EVM) (f : Frame) : M result :=
  match validateStack o (stack f) with
  | Some err => stop_with err e f
  | None =>
      r ← or_panic (enforceRestrictions env e op o (stack f));
      match r with
      | Some err => stop_with err e f
      | None =>
          n ← or_panic (memory_needed o (stack f));
          match n with
          | None => stop_with errGasUintOverflow e f
          | Some size =>
              '(ok, e, f) ← or_panic (charge env o e f size);
              if ok : bool then
                let f := if 0 <? size then set_memory f (mem_Resize (memory f) size) else f in
                '(res, err, e, f) ← execute o e f;
                let e := if returns o then set_returnData e res else e in
                match err with
                | Some err => stop_with err e f
                | None =>
                    if reverts o then Ok (res, Some errExecutionReverted, e, f)
                    else if halts o then Ok (res, None, e, f)
                    else again e (if jumps o then f else set_pc f (u64 (pc f + 1)))
                end
              else stop_with ErrOutOfGas e f
          end
      end
  end.

(** [loop] of [Run] is given as a parameter to the functions of [evm.go]. *)
Definition Loop : Type := EVM -> Frame -> M result.

Definition Run (loop : Loop) (e : EVM) (c : Contract) (input : list Z) : M (list Z * option vmerror * EVM * Contract) :=
  let d := depth e in
  let e := set_returnData (set_depth e (d + 1)) [] in
  if (length (Code c) =? 0)%nat then Ok ([], None, set_depth e d, c)
  else
    '(ret, err, e, f) ← loop e (mkFrame 0 [] (mkMemory [] 0) (set_input c input));
    Ok (ret, err, set_depth e d, contract f).

Definition RunPrecompiledContract (p : PrecompiledContract) (input : list Z) (c : Contract)
    : option (list Z * option vmerror * Contract) :=
  let gas := RequiredGas p input in
  let '(ok, c) := UseGas c gas in
  if ok : bool then '(ret, err) ← PRun p input; Some (ret, err, c)
  else Some ([], Some ErrOutOfGas, c).

Definition run (loop : Loop) (e : EVM) (c : Contract) (input : list Z) : M (list Z * option vmerror * EVM * Contract) :=
  match CodeAddr c ≫= precompiled (is_byzantium env) with
  | Some p => '(ret, err, c) ← or_panic (RunPrecompiledContract p input c); Ok (ret, err, e, c)
  | None => Run loop e c input
  end.

(** ** evm.go *)

(** [NewContract]: a call from outside starts with no analysed code. *)
Definition NewContract (e : EVM) (caller : ContractRef) (object : Address) (v gas : Z) : Contract * EVM :=
  (mkContract (ref_Address caller) object [] [] None [] gas v,
   match caller with AccountRef _ => set_jumpdests e ∅ | ContractCaller _ => e end).

Definition AsDelegate (parent c : Contract) : Contract :=
  mkContract (CallerAddress parent) (self c) (Code c) (CodeHash c) (CodeAddr c) (Input c) (Gas c) (cvalue parent).

(** The code of [addr] goes into the contract. *)
Definition load_code (e : EVM) (c : Contract) (addr : Address) : Contract * EVM :=
  let '(h, d) := db_GetCodeHash (StateDB e) addr in
  let '(code, d) := db_GetCode d addr in
  (SetCallCode c (Some addr) h code, set_db e d).

(** After [run]: an error reverts the state and, unless the code asked for
    it, uses up the gas. *)
Definition end_run (snapshot : Z) (r : list Z * option vmerror * EVM * Contract)
    : M (list Z * Z * option vmerror * EVM) :=
  let '(ret, err, e, c) := r in
  match err with
  | None => Ok (ret, Gas c, err, e)
  | Some er =>
      d ← or_panic (db_RevertToSnapshot (StateDB e) snapshot);
      let c := if bool_decide (er = errExecutionReverted) then c else (UseGas c (Gas c)).2 in
      Ok (ret, Gas c, err, set_db e d)
  end.

Definition too_deep (e : EVM) : bool := CallCreateDepth <? depth e.
Definition no_recursion (e : EVM) : bool := NoRecursion (vmConfig env) && (0 <? depth e).

Definition Call (loop : Loop) (e : EVM) (caller : ContractRef) (addr : Address) (input : list Z) (gas v : Z)
    : M (list Z * Z * option vmerror * EVM) :=
  if no_recursion e then Ok ([], gas, None, e)
  else if too_deep e then Ok ([], gas, Some ErrDepth, e)
  else
    let '(can, d) := CanTransfer (StateDB e) (ref_Address caller) v in
    let e := set_db e d in
    if negb can then Ok ([], gas, Some ErrInsufficientBalance, e)
    else
      let '(snapshot, d) := db_Snapshot (StateDB e) in
      let '(ex, d) := db_Exist d addr in
      let e := set_db e d in
      if negb ex && bool_decide (precompiled (is_byzantium env) addr = None) && is_eip158 env && (v =? 0)
      then Ok ([], gas, None, e)
      else
        let d := if ex then d else db_CreateAccount d addr in
        let d := Transfer d (ref_Address caller) addr v in
        let '(c, e) := NewContract (set_db e d) caller addr v gas in
        let '(c, e) := load_code e c addr in
        r ← run loop e c input;
        end_run snapshot r.

Definition CallCode (loop : Loop) (e : EVM) (caller : Contract) (addr : Address) (input : list Z) (gas v : Z)
    : M (list Z * Z * option vmerror * EVM) :=
  if no_recursion e then Ok ([], gas, None, e)
  else if too_deep e then Ok ([], gas, Some ErrDepth, e)
  else
    let '(can, d) := CanTransfer (StateDB e) (self caller) v in
    let e := set_db e d in
    if negb can then Ok ([], gas, Some ErrInsufficientBalance, e)
    else
      let '(snapshot, d) := db_Snapshot (StateDB e) in
      let '(c, e) := NewContract (set_db e d) (ContractCaller caller) (self caller) v gas in
      let '(c, e) := load_code e c addr in
      r ← run loop e c input;
      end_run snapshot r.

Definition DelegateCall (loop : Loop) (e : EVM) (caller : Contract) (addr : Address) (input : list Z) (gas : Z)
    : M (list Z * Z * option vmerror * EVM) :=
  if no_recursion e then Ok ([], gas, None, e)
  else if too_deep e then Ok ([], gas, Some ErrDepth, e)
  else
    let '(snapshot, d) := db_Snapshot (StateDB e) in
    let '(c, e) := NewContract (set_db e d) (ContractCaller caller) (self caller) 0 gas in
    let '(c, e) := load_code e (AsDelegate caller c) addr in
    r ← run loop e c input;
    end_run snapshot r.

Definition StaticCall (loop : Loop) (e : EVM) (caller : Contract) (addr : Address) (input : list Z) (gas : Z)
    : M (list Z * Z * option vmerror * EVM) :=
  if no_recursion e then Ok ([], gas, None, e)
  else if too_deep e then Ok ([], gas, Some ErrDepth, e)
  else
    let was := readOnly e in
    let e := set_readOnly e true in
    let '(snapshot, d) := db_Snapshot (StateDB e) in
    let '(c, e) := NewContract (set_db e d) (ContractCaller caller) addr 0 gas in
    let '(c, e) := load_code e c addr in
    r ← run loop e c input;
    '(ret, leftOverGas, err, e) ← end_run snapshot r;
    Ok (ret, leftOverGas, err, set_readOnly e was).

Definition emptyCode : Hash := vKeccak256 [].

(** After [run] in [Create]: the code that was returned is paid for and
    stored, or the state goes back. *)
Definition end_create (snapshot : Z) (contractAddr : Address) (r : list Z * option vmerror * EVM * Contract)
    : M (list Z * Address * Z * option vmerror * EVM) :=
  let '(ret, err, e, c) := r in
  let maxCodeSizeExceeded := is_eip158 env && (MaxCodeSize <? Z.of_nat (length ret)) in
  let '(err, e, c) :=
    if bool_decide (err = None) && negb maxCodeSizeExceeded then
      let createDataGas := u64 (Z.of_nat (length ret) * CreateDataGas) in
      let '(ok, c) := UseGas c createDataGas in
      if ok : bool then (None, set_db e (db_SetCode (StateDB e) contractAddr ret), c)
      else (Some ErrCodeStoreOutOfGas, e, c)
    else (err, e, c) in
  let undo := maxCodeSizeExceeded ||
    match err with
    | None => false
    | Some er => is_homestead env || bool_decide (er <> ErrCodeStoreOutOfGas)
    end in
  '(e, c) ← (if undo then
      d ← or_panic (db_RevertToSnapshot (StateDB e) snapshot);
      let c := if bool_decide (err = Some errExecutionReverted) then c else (UseGas c (Gas c)).2 in
      Ok (set_db e d, c)
    else Ok (e, c));
  let err := if maxCodeSizeExceeded && bool_decide (err = None) then Some errMaxCodeSizeExceeded else err in
  Ok (ret, contractAddr, Gas c, err, e).

Definition Create (loop : Loop) (e : EVM) (caller : ContractRef) (code : list Z) (gas v : Z)
    : M (list Z * Address * Z * option vmerror * EVM) :=
  let noAddress := replicate vAddressLength 0 in
  if too_deep e then Ok ([], noAddress, gas, Some ErrDepth, e)
  else
    let '(can, d) := CanTransfer (StateDB e) (ref_Address caller) v in
    if negb can then Ok ([], noAddress, gas, Some ErrInsufficientBalance, set_db e d)
    else
      let '(nonce, d) := db_GetNonce d (ref_Address caller) in
      let d := db_SetNonce d (ref_Address caller) (u64 (nonce + 1)) in
      let contractAddr := CreateAddress (ref_Address caller) nonce in
      let '(contractHash, d) := db_GetCodeHash d contractAddr in
      let '(n, d) := db_GetNonce d contractAddr in
      if negb (n =? 0) || (negb (EmptyHash contractHash) && bool_decide (contractHash <> emptyCode))
      then Ok ([], noAddress, 0, Some ErrContractAddressCollision, set_db e d)
      else
        let '(snapshot, d) := db_Snapshot d in
        let d := db_CreateAccount d contractAddr in
        let d := if is_eip158 env then db_SetNonce d contractAddr 1 else d in
        let d := Transfer d (ref_Address caller) contractAddr v in
        let '(c, e) := NewContract (set_db e d) caller contractAddr v gas in
        let c := SetCallCode c (Some contractAddr) (vKeccak256 code) code in
        if no_recursion e then Ok ([], contractAddr, gas, None, e)
        else
          r ← run loop e c [];
          end_create snapshot contractAddr r.

Definition callees (loop : Loop) : Callees :=
  mkCallees (Call loop) (CallCode loop) (DelegateCall loop) (StaticCall loop) (Create loop).

(** The loop of [Run].  The fuel bounds the rounds and, with them, the depth
    of calls. *)
Fixpoint loop (fuel : nat) (e : EVM) (f : Frame) : M result :=
  match fuel with
  | O => Err OutOfFuel
  | S fuel' =>
      if aborted env (polls e) then Ok ([], None, poll e, f)
      else
        let e := poll e in
        let b := GetByte (contract f) (pc f) in
        let cs := callees (loop fuel') in
        match OpCode_of b ≫= (fun op => pair op <$> jump_table env cs op) with
        | None => stop_with (errInvalidOpcode b) e f
        | Some (op, o) => step cs (loop fuel') op o e f
        end
  end.

End Interpreter.

End Machine.
