(* ===== verification/VmLaws.v ===== *)
(** * What the virtual machine relies on

    [HostLaws] states what the state, the hash function and the precompiled
    contracts promise to the machine of [Vm.v]: which operations keep the
    state well formed, what the getters return, and that a snapshot can be
    reverted to after any operations.  The theorems about the machine are
    proved against this class.  The rest of the file is about balances: the
    funds of the accounts together never exceed a bound. *)
From S2P Require Import Prelude Types VmMath VmAnalysis Vm.

(** Bytes that fit a Go slice with room to spare. *)
Definition blob (b : list Z) : Prop := bytes b /\ Z.of_nat (length b) < 2 ^ 62.

Definition hash_ok (h : Hash) : Prop := bytes h /\ length h = 32%nat.

Definition upd (f : Address -> Z) (a : Address) (x : Z) (b : Address) : Z := if decide (b = a) then x else f b.

(** [same] is that all getters return the same; [later d d'] that [d'] comes
    from [d] by operations that keep the snapshots taken before [d]. *)
Class HostLaws {HO : Host} := {
  st_ok : SDB -> Prop;
  later : SDB -> SDB -> Prop;
  same : SDB -> SDB -> Prop;
  bal : SDB -> Address -> Z;
  code : SDB -> Address -> list Z;
  codehash : SDB -> Address -> Hash;
  nonce : SDB -> Address -> Z;
  reads d d' := st_ok d' /\ later d d' /\ same d d';
  quiet d d' := st_ok d' /\ later d d' /\ forall a, bal d' a = bal d a;
  later_refl d : later d d;
  later_trans d1 d2 d3 : later d1 d2 -> later d2 d3 -> later d1 d3;
  same_equiv : Equivalence same;
  same_bal d d' a : same d d' -> bal d a = bal d' a;
  same_nonce d d' a : same d d' -> nonce d a = nonce d' a;
  same_code d d' a : same d d' -> code d a = code d' a /\ codehash d a = codehash d' a;
  code_ok d a : st_ok d -> blob (code d a) /\ (code d a <> [] -> codehash d a = vKeccak256 (code d a));
  ok_GetBalance d a b d' : st_ok d -> db_GetBalance d a = (b, d') -> b = bal d a /\ reads d d';
  ok_GetNonce d a n d' : st_ok d -> db_GetNonce d a = (n, d') -> n = nonce d a /\ reads d d';
  ok_GetCodeHash d a h d' : st_ok d -> db_GetCodeHash d a = (h, d') -> h = codehash d a /\ reads d d';
  ok_GetCode d a c d' : st_ok d -> db_GetCode d a = (c, d') -> c = code d a /\ reads d d';
  ok_GetCodeSize d a n d' : st_ok d -> db_GetCodeSize d a = (n, d') -> word n /\ reads d d';
  ok_HasSuicided d a b d' : st_ok d -> db_HasSuicided d a = (b, d') -> reads d d';
  ok_Exist d a b d' : st_ok d -> db_Exist d a = (b, d') -> reads d d' /\ (b = false -> bal d a = 0 /\ nonce d a = 0);
  ok_Empty d a b d' : st_ok d -> db_Empty d a = (b, d') -> reads d d';
  ok_GetState d a k : st_ok d -> hash_ok k ->
    exists v d', db_GetState d a k = Some (v, d') /\ hash_ok v /\ reads d d';
  ok_SetState d a k v : st_ok d -> hash_ok k -> hash_ok v -> exists d', db_SetState d a k v = Some d' /\ quiet d d';
  ok_SetNonce d a n : st_ok d ->
    quiet d (db_SetNonce d a n) /\ forall b, nonce (db_SetNonce d a n) b = upd (nonce d) a n b;
  ok_SetCode d a c : st_ok d -> blob c -> quiet d (db_SetCode d a c);
  ok_AddRefund d g : st_ok d -> 0 <= g -> quiet d (db_AddRefund d g);
  ok_GetRefund d : st_ok d -> 0 <= db_GetRefund d;
  ok_PutRefund d r : st_ok d -> 0 <= r ->
    st_ok (db_PutRefund d r) /\ forall a, bal (db_PutRefund d r) a = bal d a /\ nonce (db_PutRefund d r) a = nonce d a;
  ok_AddLog d a ts b n : st_ok d -> quiet d (db_AddLog d a ts b n);
  ok_AddPreimage d h p : st_ok d -> quiet d (db_AddPreimage d h p);
  ok_CreateAccount d a : st_ok d ->
    quiet d (db_CreateAccount d a) /\ forall b, nonce (db_CreateAccount d a) b = upd (nonce d) a 0 b;
  ok_AddBalance d a v : st_ok d ->
    st_ok (db_AddBalance d a v) /\ later d (db_AddBalance d a v) /\
    forall b, bal (db_AddBalance d a v) b = upd (bal d) a (bal d a + v) b /\ nonce (db_AddBalance d a v) b = nonce d b;
  ok_SubBalance d a v : st_ok d ->
    st_ok (db_SubBalance d a v) /\ later d (db_SubBalance d a v) /\
    forall b, bal (db_SubBalance d a v) b = upd (bal d) a (bal d a - v) b /\ nonce (db_SubBalance d a v) b = nonce d b;
  ok_Suicide d a r d' : st_ok d -> db_Suicide d a = (r, d') ->
    st_ok d' /\ later d d' /\ forall b, bal d' b = upd (bal d) a 0 b;
  ok_Snapshot d id d1 : st_ok d -> db_Snapshot d = (id, d1) ->
    reads d d1 /\ forall d2, st_ok d2 -> later d1 d2 ->
      exists d3, db_RevertToSnapshot d2 id = Some d3 /\ reads d d3;
  keccak_ok b : hash_ok (vKeccak256 b);
  keccak_length c c' : blob c -> blob c' -> vKeccak256 c = vKeccak256 c' -> length c = length c';
  address_length : (vAddressLength <= 32)%nat;
  precompiled_ok byz a p input : precompiled byz a = Some p -> blob input ->
    0 <= RequiredGas p input /\
    (RequiredGas p input < 2 ^ 36 -> exists ret err, PRun p input = Some (ret, err) /\ blob ret) /\
    (forall ret, PRun p input <> Some (ret, Some ErrInsufficientBalance))
}.

Section Laws.
Context {HO : Host} {HL : HostLaws}.
Implicit Types (d : SDB) (a : Address).

#[export] Instance same_Equivalence : Equivalence same := same_equiv.

(** ** Funds *)

Definition total (f : Address -> Z) (l : list Address) : Z := foldr Z.add 0 (f <$> l).

(** Nobody is in debt and all balances together are at most [B]. *)
Record funds (B : Z) (f : Address -> Z) : Prop := mk_funds {
  fu_pos a : 0 <= f a;
  fu_total l : NoDup l -> total f l <= B
}.

Lemma total_upd f a x l : NoDup l -> total (upd f a x) l = total f l + (if decide (a ∈ l) then x - f a else 0).
Proof.
  unfold total. induction 1 as [|b l Hb _ IH]; [rewrite decide_False by apply not_elem_of_nil; done|].
  cbn [fmap list_fmap foldr]. rewrite IH. unfold upd at 1. destruct (decide (b = a)) as [->|Hne].
  - rewrite (decide_False (P := a ∈ l)) by done. rewrite decide_True by (by left). lia.
  - destruct (decide (a ∈ l)) as [Hin|Hin].
    + rewrite decide_True by (by right). lia.
    + rewrite decide_False; [lia|]. intros [?|?]%elem_of_cons; congruence.
Qed.

Lemma total_ext f g l : (forall a, f a = g a) -> total f l = total g l.
Proof. intros E. unfold total. f_equal. by apply list_fmap_ext. Qed.

Lemma funds_ext B f g : (forall a, g a = f a) -> funds B f -> funds B g.
Proof. intros E [H1 H2]. constructor; [intros a; by rewrite E|]. intros l Hl. rewrite (total_ext g f l E). by apply H2. Qed.

Lemma funds_bal B f a : funds B f -> f a <= B.
Proof.
  intros H. pose proof (fu_total _ _ H [a] ltac:(repeat constructor; set_solver)) as Ht. unfold total in Ht. simpl in Ht. lia.
Qed.

(** Moving [v] from [s] to [r]. *)
Lemma funds_move B f s r v :
  funds B f -> 0 <= v <= f s ->
  funds B (upd (upd f s (f s - v)) r (upd f s (f s - v) r + v)).
Proof.
  intros H Hv. constructor.
  - intros a. pose proof (fu_pos _ _ H a). pose proof (fu_pos _ _ H r). unfold upd. repeat case_decide; subst; lia.
  - intros l Hl. rewrite !total_upd by done. pose proof (fu_total _ _ H l Hl) as Ht.
    destruct (decide (r ∈ l)) as [Hr|Hr], (decide (s ∈ l)) as [Hs|Hs]; try lia.
    assert (NoDup (s :: l)) as Hl' by (by constructor). pose proof (fu_total _ _ H _ Hl') as Ht'.
    change (total f (s :: l)) with (f s + total f l) in Ht'. lia.
Qed.

Lemma funds_lower B f a x : funds B f -> 0 <= x <= f a -> funds B (upd f a x).
Proof.
  intros H Hx. constructor.
  - intros b. pose proof (fu_pos _ _ H b). unfold upd. case_decide; lia.
  - intros l Hl. rewrite total_upd by done. pose proof (fu_total _ _ H l Hl). case_decide; lia.
Qed.

(** Funds that leave the accounts, and new ones. *)
Lemma funds_pay B f a v : funds B f -> 0 <= v <= f a -> funds (B - v) (upd f a (f a - v)).
Proof.
  intros H Hv. constructor.
  - intros b. pose proof (fu_pos _ _ H b). unfold upd. case_decide; lia.
  - intros l Hl. rewrite total_upd by done. case_decide as Ha; [pose proof (fu_total _ _ H l Hl); lia|].
    assert (NoDup (a :: l)) as Hl' by (by constructor). pose proof (fu_total _ _ H _ Hl') as Ht.
    change (total f (a :: l)) with (f a + total f l) in Ht. lia.
Qed.

Lemma funds_gain B f a v : funds B f -> 0 <= v -> funds (B + v) (upd f a (f a + v)).
Proof.
  intros H Hv. constructor.
  - intros b. pose proof (fu_pos _ _ H b). unfold upd. case_decide; subst; lia.
  - intros l Hl. rewrite total_upd by done. pose proof (fu_total _ _ H l Hl). case_decide; lia.
Qed.

Lemma quiet_funds B d d' : quiet d d' -> funds B (bal d) -> funds B (bal d').
Proof. intros (_ & _ & H). by apply funds_ext. Qed.

Lemma reads_funds B d d' : reads d d' -> funds B (bal d) -> funds B (bal d').
Proof. intros (_ & _ & H). apply funds_ext. intros a. symmetry. by apply same_bal. Qed.

(** A transfer of what the sender has. *)
Lemma Transfer_ok B d s r v :
  st_ok d -> funds B (bal d) -> 0 <= v <= bal d s ->
  st_ok (Transfer d s r v) /\ later d (Transfer d s r v) /\ funds B (bal (Transfer d s r v)).
Proof.
  intros Hd Hf Hv. unfold Transfer. destruct (ok_SubBalance d s v Hd) as (H1 & L1 & B1).
  destruct (ok_AddBalance _ r v H1) as (H2 & L2 & B2). split; [done|]. split; [by eapply later_trans|].
  eapply funds_ext; [|by apply (funds_move B (bal d) s r v)].
  intros a. rewrite (proj1 (B2 a)). unfold upd. case_decide; rewrite (proj1 (B1 _)); unfold upd; by repeat case_decide.
Qed.

(** A contract that destroys itself leaves its funds to [r]. *)
Lemma Suicide_funds B d d1 x r s d' :
  st_ok d -> funds B (bal d) -> db_AddBalance d r (bal d s) = d1 -> db_Suicide d1 s = (x, d') ->
  st_ok d' /\ later d d' /\ funds B (bal d').
Proof.
  intros Hd Hf <- Es. destruct (ok_AddBalance d r (bal d s) Hd) as (H1 & L1 & B1).
  destruct (ok_Suicide _ s x d' H1 Es) as (H2 & L2 & B2). split; [done|]. split; [by eapply later_trans|].
  assert (forall b, bal (db_AddBalance d r (bal d s)) b = upd (bal d) r (bal d r + bal d s) b) as B1' by (intros b; apply B1).
  pose proof (fu_pos _ _ Hf s) as Hs. destruct (decide (s = r)) as [->|Hne].
  - eapply funds_ext; [|apply (funds_lower B (bal d) r 0); [done|lia]].
    intros a. rewrite B2. unfold upd. case_decide; [done|]. rewrite B1'. unfold upd. by rewrite decide_False.
  - eapply funds_ext; [|apply (funds_move B (bal d) s r (bal d s)); [done|lia]].
    intros a. rewrite B2. unfold upd. repeat case_decide; subst; rewrite ?B1'; unfold upd;
      repeat case_decide; subst; try done; try lia.
Qed.

End Laws.
