(* ===== verification/VmSafe.v ===== *)
(** * The machine is well typed and terminates

    For a machine over a state that satisfies [HostLaws]: the instructions,
    the interpreter and the calls keep the types of what they work on (words
    below 2^256 on a stack of at most 1024, bytes in memory, 64-bit gas), do
    not panic, use gas in every round and so terminate, leave the state as it
    was when a call fails, and create no funds. *)
From S2P Require Import Prelude Rlp Types VmMath VmAnalysis Vm VmLaws.

Create HintDb vm.

(** ** Memory *)

Section Memory.

Lemma blob_bytes b : blob b -> bytes b. Proof. by intros []. Qed.
Lemma blob_nil : blob []. Proof. split; [constructor|simpl; lia]. Qed.

Lemma blob_take n b : blob b -> blob (take n b).
Proof. intros [Hb Hl]. split; [by apply bytes_take|]. rewrite length_take. lia. Qed.
Lemma blob_drop n b : blob b -> blob (drop n b).
Proof. intros [Hb Hl]. split; [by apply bytes_drop|]. rewrite length_drop. lia. Qed.

(** The range of [size] bytes at [off] lies in a memory of [len] bytes. *)
Definition fits (off size len : Z) : Prop := size <> 0 -> off + size <= len.

Lemma mem_Get_ok m off size :
  blob (mstore m) -> word off -> word size -> fits off size (Z.of_nat (length (mstore m))) ->
  exists d, mem_Get m (big_Int64 off) (big_Int64 size) = Some d /\ blob d /\ Z.of_nat (length d) = size.
Proof.
  intros Hb Ho Hs Hf. unfold mem_Get, big_Int64. destruct Hb as [Hb Hl]. destruct Ho, Hs.
  destruct (decide (size = 0)) as [->|Hne]; [exists []; split; [done|]; split; [apply blob_nil|done]|].
  specialize (Hf Hne). rewrite !i64_id by lia. rewrite (proj2 (Z.eqb_neq size 0)) by done.
  rewrite (proj2 (Z.ltb_lt off _)) by lia. rewrite !(proj2 (Z.leb_le _ _)) by lia. simpl andb. cbv iota.
  eexists. split; [done|]. split; [by apply blob_take, blob_drop|].
  rewrite length_take, length_drop. lia.
Qed.

Lemma mem_Set_ok m off size v :
  blob (mstore m) -> word off -> word size -> fits off size (Z.of_nat (length (mstore m))) -> bytes v ->
  exists m', mem_Set m (big_Uint64 off) (big_Uint64 size) v = Some m' /\ blob (mstore m') /\
    length (mstore m') = length (mstore m).
Proof.
  intros Hb Ho Hs Hf Hv. unfold mem_Set. destruct Hb as [Hb Hl]. destruct Ho, Hs.
  destruct (decide (size = 0)) as [->|Hne].
  { change (big_Uint64 0) with 0. rewrite (proj2 (Z.ltb_ge _ 0)) by lia. by exists m. }
  specialize (Hf Hne). rewrite !big_Uint64_small by lia. rewrite (proj2 (Z.ltb_ge _ size)) by lia.
  rewrite (proj2 (Z.ltb_lt 0 size)) by lia. rewrite u64_small by lia. rewrite !(proj2 (Z.leb_le _ _)) by lia.
  simpl andb. cbv iota. eexists. split; [done|]. cbn [mstore].
  assert (length (memcpy (mstore m) (Z.to_nat off) (take (Z.to_nat size) v)) = length (mstore m)) as El
    by (apply length_memcpy; rewrite length_take; lia).
  split; [|done]. split; [|by rewrite El]. apply memcpy_bytes; [done|by apply bytes_take].
Qed.

Lemma mem_Resize_ok m size :
  blob (mstore m) -> 0 <= size < 2 ^ 62 ->
  blob (mstore (mem_Resize m size)) /\ size <= Z.of_nat (length (mstore (mem_Resize m size))) /\
  (length (mstore m) <= length (mstore (mem_Resize m size)))%nat.
Proof.
  intros [Hb Hl] Hs. unfold mem_Resize. destruct (Z.ltb_spec (Z.of_nat (length (mstore m))) size); [|done].
  cbn [mstore]. unfold blob. rewrite length_app, length_replicate. repeat split; try lia.
  apply bytes_app. split; [done|apply bytes_replicate_0].
Qed.

Lemma getDataBig_ok data start size :
  blob data -> 0 <= start -> 0 <= size < 2 ^ 62 ->
  exists d, getDataBig data start size = Some d /\ blob d /\ Z.of_nat (length d) = size.
Proof.
  intros [Hb Hl] Hst Hsz. unfold getDataBig, BigMin. set (n := Z.of_nat (length data)) in *.
  set (s := if n <? start then n else start). assert (0 <= s <= n) as Hs by (subst s; destruct (Z.ltb_spec n start); lia).
  set (e := if n <? s + size then n else s + size).
  assert (s <= e <= n /\ e - s <= size) as He by (subst e; destruct (Z.ltb_spec n (s + size)); lia).
  rewrite !big_Uint64_small by lia. unfold slice64. rewrite slice_Some by lia. rewrite some_bind.
  set (l := take _ _). assert (Z.of_nat (length l) = e - s) as El by (subst l; rewrite length_take, length_drop; lia).
  assert (bytes l) as Hbl by (by apply bytes_take, bytes_drop).
  rewrite i64_id by lia. unfold RightPadBytes. destruct (Z.leb_spec size (Z.of_nat (length l))).
  - exists l. split; [done|]. split; [split; [done|lia]|lia].
  - eexists. split; [done|]. unfold blob. rewrite length_app, length_replicate. split; [|lia]. split; [|lia].
    apply bytes_app. split; [done|apply bytes_replicate_0].
Qed.

Lemma BytesTo_ok size b : bytes b -> bytes (BytesTo size b) /\ length (BytesTo size b) = size.
Proof.
  intros Hb. unfold BytesTo. split.
  - apply bytes_app. split; [apply bytes_replicate_0|by apply bytes_drop].
  - rewrite length_app, length_replicate, length_drop. lia.
Qed.

Lemma min_bytes_ok x : bytes (min_bytes x).
Proof. unfold min_bytes, big_Bytes. case_match; [constructor|apply be_put_bytes]. Qed.

Lemma BigToHash_ok x : hash_ok (BigToHash x).
Proof. apply BytesTo_ok, min_bytes_ok. Qed.

Lemma read_word_bytes j i d buf : bytes buf -> bytes (read_word j i d buf).2.
Proof.
  revert i d buf. induction j as [|j IH]; intros i d buf Hb; [by destruct i|]. destruct i as [|i]; [done|].
  apply IH. apply Forall_insert; [done|apply u8_is_byte].
Qed.

Lemma read_words_bytes ws i buf : bytes buf -> bytes (read_words ws i buf).
Proof.
  revert i buf. induction ws as [|w ws IH]; intros i buf Hb; [done|]. cbn [read_words].
  pose proof (read_word_bytes wordBytes i w buf Hb). destruct (read_word wordBytes i w buf). by apply IH.
Qed.

Lemma PaddedBigBytes_bytes x n : bytes (PaddedBigBytes x n).
Proof.
  unfold PaddedBigBytes. case_match; [apply min_bytes_ok|]. apply read_words_bytes, bytes_replicate_0.
Qed.

End Memory.

Section Safe.
Context {HO : Host} {HL : HostLaws} (env : Env) (B : Z).
Implicit Types (e : EVM) (f : Frame) (c : Contract).

(** ** Invariants *)

Definition addr_ok (a : Address) : Prop := bytes a /\ (length a <= 32)%nat.

(** The surroundings of a call: gas is metered and what the instructions push
    is a word. *)
Record env_ok : Prop := mk_env_ok {
  en_metered : DisableGasMetering (vmConfig env) = false;
  en_price : word (GasPrice (ctx env));
  en_origin : addr_ok (Origin (ctx env));
  en_coinbase : addr_ok (ctx_Coinbase (ctx env));
  en_hash n : hash_ok (GetHash (ctx env) n);
  en_funds : B < 2 ^ 256
}.

(** A cached vector has the length that belongs to the code. *)
Definition cache_ok (d : destinations) : Prop :=
  forall b m, blob b -> d !! vKeccak256 b = Some m -> length m = (length b / 8 + 1 + 4)%nat.

Record evm_ok e : Prop := mk_evm_ok {
  ev_db : st_ok (StateDB e);
  ev_funds : funds B (bal (StateDB e));
  ev_cache : cache_ok (jumpdests e);
  ev_data : blob (returnData e)
}.

(** From [e] to [e'] by running code. *)
Record moved e e' : Prop := mk_moved {
  mv_ok : evm_ok e';
  mv_later : later (StateDB e) (StateDB e');
  mv_depth : depth e' = depth e;
  mv_static : readOnly e' = readOnly e
}.

Record contract_ok c : Prop := mk_contract_ok {
  co_caller : addr_ok (CallerAddress c);
  co_self : addr_ok (self c);
  co_code : blob (Code c);
  co_hash : Code c <> [] -> CodeHash c = vKeccak256 (Code c);
  co_input : blob (Input c);
  co_gas : 0 <= Gas c < 2 ^ 36;
  co_value : word (cvalue c)
}.

Record frame_ok f : Prop := mk_frame_ok {
  fr_stack : Forall word (stack f);
  fr_mem : blob (mstore (memory f));
  fr_contract : contract_ok (contract f);
  fr_code : Code (contract f) <> [];
  fr_pc : 0 <= pc f < 2 ^ 64
}.

Context (env_good : env_ok).

Lemma vm_moved_trans e1 e2 e3 : moved e1 e2 -> moved e2 e3 -> moved e1 e3.
Proof. intros [] []. constructor; [done|by eapply later_trans|congruence|congruence]. Qed.

Lemma moved_reads e d : evm_ok e -> reads (StateDB e) d -> moved e (set_db e d).
Proof.
  intros [] Hr. constructor; [|apply Hr|done|done]. constructor; [apply Hr|by eapply reads_funds|done|done].
Qed.

Lemma moved_quiet e d : evm_ok e -> quiet (StateDB e) d -> moved e (set_db e d).
Proof.
  intros [] Hr. constructor; [|apply Hr|done|done]. constructor; [apply Hr|by eapply quiet_funds|done|done].
Qed.

Lemma moved_refl e : evm_ok e -> moved e e.
Proof. intros H. by constructor; [|apply later_refl|..]. Qed.

Lemma has_ok d b dest :
  cache_ok d -> blob b -> 0 <= dest ->
  exists r d', has d (vKeccak256 b) b dest = Some (r, d') /\ cache_ok d' /\ (r = true -> dest < Z.of_nat (length b)).
Proof.
  intros Hd Hb Hdest. unfold has. destruct (codeBitmap_spec b) as (m & Em & Lm & _).
  destruct ((63 <=? BitLen dest) || (Z.of_nat (length b) <=? big_Uint64 dest)) eqn:Eg; [by exists false, d|].
  apply orb_false_iff in Eg as [E1 E2]. apply Z.leb_gt in E1, E2.
  pose proof (BitLen_le dest 62 Hdest ltac:(lia)) as Hbl. rewrite big_Uint64_small in E2 |- * by lia.
  assert (exists m' d', match d !! vKeccak256 b with
    | Some m => Some (m, d) | None => m ← codeBitmap b; Some (m, <[vKeccak256 b := m]> d) end = Some (m', d') /\
    length m' = (length b / 8 + 1 + 4)%nat /\ cache_ok d') as (m' & d' & -> & Lm' & Hd').
  { destruct (d !! vKeccak256 b) as [m'|] eqn:Ed; [exists m', d; eauto|].
    exists m, (<[vKeccak256 b := m]> d). rewrite Em, some_bind. split; [done|]. split; [done|]. intros b' x Hb'.
    destruct (decide (vKeccak256 b' = vKeccak256 b)) as [E|E].
    - rewrite E, lookup_insert_eq. intros [= <-]. by rewrite (keccak_length b' b).
    - rewrite lookup_insert_ne by done. by apply Hd. }
  assert (Z.to_nat dest < length b)%nat as Hlt by lia. destruct (lookup_lt_is_Some_2 b _ Hlt) as [op Eop].
  rewrite some_bind, Eop, some_bind. destruct (op =? JUMPDEST_byte); [|by exists false, d'].
  rewrite codeSegment_bit, some_bind by (rewrite Lm'; pose proof (Nat.Div0.div_le_mono (Z.to_nat dest) (length b) 8); lia).
  eexists _, d'. split; [done|]. by split.
Qed.

(** ** Instructions

    [exec_ok x pop push room]: with [pop] items on the stack and the memory
    [room] asks for, [x] does not panic, replaces them by [push] words, and
    keeps contract and machine well formed. *)
Definition exec_ok (x : exec) (pop push : nat) (room : Frame -> Prop) : Prop :=
  forall e f, evm_ok e -> frame_ok f -> (pop <= length (stack f))%nat -> room f ->
  exists res err e' f', x e f = Ok (res, err, e', f') /\ moved e e' /\ blob res /\ frame_ok f' /\
    Gas (contract f') <= Gas (contract f) /\ (length (stack f') + pop = length (stack f) + push)%nat.

Definition anywhere f : Prop := True.

(** The frame with other words on its stack. *)
Lemma frame_stack f st : frame_ok f -> Forall word st -> frame_ok (set_stack f st).
Proof. intros [] Hs. by constructor. Qed.

Lemma frame_memory f m : frame_ok f -> blob (mstore m) -> frame_ok (set_memory f m).
Proof. intros [] Hs. by constructor. Qed.

Lemma frame_pc f p : frame_ok f -> 0 <= p < 2 ^ 64 -> frame_ok (set_pc f p).
Proof. intros [] Hs. by constructor. Qed.

(** An instruction that leaves [st] and goes on. *)
Lemma done_ok e0 e f st g (n k : nat) :
  moved e0 e -> frame_ok f -> Forall word st -> Gas (contract f) <= g -> (length st + n = k)%nat ->
  exists res err e' f', done_ e f st = Ok (res, err, e', f') /\ moved e0 e' /\ blob res /\ frame_ok f' /\
    Gas (contract f') <= g /\ (length (stack f') + n = k)%nat.
Proof.
  intros. eexists _, _, _, _. split; [done|]. split; [done|]. split; [apply blob_nil|]. by split; [apply frame_stack|].
Qed.

Lemma op0_ok x : (forall e f, evm_ok e -> frame_ok f -> word (x e f)) -> exec_ok (op0 x) 0 1 anywhere.
Proof.
  intros Hx e f He Hf _ _. apply done_ok; [by apply moved_refl|done| |done|simpl; lia].
  constructor; [by apply Hx|apply Hf].
Qed.

Lemma op1_ok g : (forall x, word x -> word (g x)) -> exec_ok (op1 g) 1 1 anywhere.
Proof.
  intros Hg e f He Hf Hl _. unfold op1. pose proof (fr_stack f Hf) as Hs.
  destruct (stack f) as [|x s]; [simpl in Hl; lia|]. inversion_clear Hs.
  apply done_ok; [by apply moved_refl|done| |done|simpl; lia]. constructor; auto.
Qed.

Lemma op2_ok g : (forall x y, word x -> word y -> word (g x y)) -> exec_ok (op2 g) 2 1 anywhere.
Proof.
  intros Hg e f He Hf Hl _. unfold op2. pose proof (fr_stack f Hf) as Hs.
  destruct (stack f) as [|x [|y s] ]; [simpl in Hl; lia..|]. decompose_Forall.
  apply done_ok; [by apply moved_refl|done| |done|simpl; lia]. constructor; auto.
Qed.

Lemma op3_ok g : (forall x y z, word x -> word y -> word z -> word (g x y z)) -> exec_ok (op3 g) 3 1 anywhere.
Proof.
  intros Hg e f He Hf Hl _. unfold op3. pose proof (fr_stack f Hf) as Hs.
  destruct (stack f) as [|x [|y [|z s] ] ]; [simpl in Hl; lia..|]. decompose_Forall.
  apply done_ok; [by apply moved_refl|done| |done|simpl; lia]. constructor; auto.
Qed.

Lemma word_0 : word 0. Proof. by apply word_lit. Qed.
Lemma word_1 : word 1. Proof. by apply word_lit. Qed.
Lemma flag_word b : word (flag b). Proof. destruct b; [apply word_1|apply word_0]. Qed.
Lemma byte_word x : is_byte x -> word x. Proof. unfold is_byte, word, tt256. lia. Qed.
Lemma length_word {A} (l : list A) : Z.of_nat (length l) < 2 ^ 62 -> word (Z.of_nat (length l)).
Proof. unfold word, tt256. lia. Qed.
Lemma addr_word a : addr_ok a -> word (be_get a). Proof. intros [? ?]. by apply be_get_word. Qed.
Lemma hash_word h : hash_ok h -> word (be_get h). Proof. intros [? ?]. apply be_get_word; [done|lia]. Qed.

Lemma Exp_word x y : word y -> word (Exp x y).
Proof. intros [Hy _]. rewrite Exp_spec by done. unfold word, tt256. apply Z.mod_pos_bound. lia. Qed.

Lemma Byte_at_word x n k : word (Byte_at x n k).
Proof.
  unfold Byte_at. case_match; [apply word_0|]. unfold bigEndianByteAt.
  case_match; [apply byte_word, u8_is_byte|apply word_0].
Qed.

#[local] Hint Resolve U256_word word_0 word_1 flag_word word_land word_lor word_lxor Exp_word Byte_at_word
  moved_refl addr_word hash_word blob_nil Z.le_refl : vm.

(** The instructions that compute a word from words. *)
Ltac arith lemma := apply lemma; intros; cbv zeta; repeat case_match; auto with vm.

Lemma arithmetic_ok :
  exec_ok opAdd 2 1 anywhere /\ exec_ok opSub 2 1 anywhere /\ exec_ok opMul 2 1 anywhere /\
  exec_ok opDiv 2 1 anywhere /\ exec_ok opSdiv 2 1 anywhere /\ exec_ok opMod 2 1 anywhere /\
  exec_ok opSmod 2 1 anywhere /\ exec_ok opAddmod 3 1 anywhere /\ exec_ok opMulmod 3 1 anywhere /\
  exec_ok opExp 2 1 anywhere /\ exec_ok opLt 2 1 anywhere /\ exec_ok opGt 2 1 anywhere /\
  exec_ok opSlt 2 1 anywhere /\ exec_ok opSgt 2 1 anywhere /\ exec_ok opEq 2 1 anywhere /\
  exec_ok opIszero 1 1 anywhere /\ exec_ok opAnd 2 1 anywhere /\ exec_ok opOr 2 1 anywhere /\
  exec_ok opXor 2 1 anywhere /\ exec_ok opNot 1 1 anywhere /\ exec_ok opByte 2 1 anywhere.
Proof.
  repeat match goal with |- _ /\ _ => split end;
    solve [arith op2_ok | arith op3_ok | arith op1_ok].
Qed.

Lemma opSignExtend_ok : exec_ok opSignExtend 2 1 anywhere.
Proof.
  intros e f He Hf Hl _. unfold opSignExtend. pose proof (fr_stack f Hf) as Hs.
  destruct (stack f) as [|x [|y s] ]; [simpl in Hl; lia..|]. decompose_Forall.
  case_match; (apply done_ok; [auto with vm|done| |done|simpl; lia]; constructor; auto with vm).
Qed.

Lemma opPop_ok : exec_ok opPop 1 0 anywhere.
Proof.
  intros e f He Hf Hl _. unfold opPop. pose proof (fr_stack f Hf) as Hs.
  destruct (stack f) as [|x s]; [simpl in Hl; lia..|]. decompose_Forall.
  apply done_ok; [auto with vm|done| |done|simpl; lia]; auto.
Qed.

Lemma makeDup_ok n : (0 < n)%nat -> exec_ok (makeDup n) n (n + 1) anywhere.
Proof.
  intros Hn e f He Hf Hl _. unfold makeDup. pose proof (fr_stack f Hf) as Hs.
  destruct (lookup_lt_is_Some_2 (stack f) (n - 1)) as [x Ex]; [lia|]. rewrite Ex, or_panic_bind.
  apply done_ok; [auto with vm|done| |done|simpl; lia]. constructor; [|done].
  by eapply Forall_lookup_1 in Ex.
Qed.

Lemma makeSwap_ok n : exec_ok (makeSwap n) (n + 1) (n + 1) anywhere.
Proof.
  intros e f He Hf Hl _. unfold makeSwap. pose proof (fr_stack f Hf) as Hs.
  destruct (lookup_lt_is_Some_2 (stack f) n) as [x Ex]; [lia|].
  destruct (lookup_lt_is_Some_2 (stack f) 0) as [y Ey]; [lia|]. rewrite Ex, or_panic_bind, Ey, or_panic_bind.
  apply done_ok; [auto with vm|done| |done|rewrite !length_insert; lia].
  apply Forall_insert; [apply Forall_insert; [done|]|]; by eapply Forall_lookup_1.
Qed.

(** The program counter is on the code. *)
Definition on_code f : Prop := pc f < Z.of_nat (length (Code (contract f))).

Lemma makePush_ok n : (n <= 32)%nat -> exec_ok (makePush (Z.of_nat n) n) 0 1 on_code.
Proof.
  intros Hn e f He Hf _ Hon. unfold on_code in Hon. unfold makePush. destruct (fr_pc f Hf).
  destruct (co_code _ (fr_contract f Hf)) as [Hb Hlen]. set (code := Code (contract f)) in *.
  rewrite u64_small, i64_id by lia.
  set (s := if pc f + 1 <? _ then _ else _).
  assert (0 <= s <= Z.of_nat (length code)) as Hs by (subst s; case_match; lia).
  set (t := if s + _ <? _ then _ else _).
  assert (s <= t <= Z.of_nat (length code) /\ t - s <= Z.of_nat n) as Ht
    by (subst t; destruct (Z.ltb_spec (s + Z.of_nat n) (Z.of_nat (length code))); lia).
  rewrite (proj2 (Z.ltb_ge s 0)) by lia. unfold slice64. rewrite slice_Some by lia. rewrite or_panic_bind.
  set (d := take _ _). assert (Z.of_nat (length d) = t - s) as Ed by (subst d; rewrite length_take, length_drop; lia).
  assert (bytes d) as Hd by (by apply bytes_take, bytes_drop).
  eexists _, _, _, _. split; [done|]. split; [auto with vm|]. split; [apply blob_nil|].
  split; [|split; [done|simpl; lia]].
  apply frame_pc; [apply frame_stack; [done|]|unfold u64; apply Z.mod_pos_bound; lia].
  constructor; [|apply Hf]. unfold RightPadBytes. case_match; [apply be_get_word; [done|lia]|].
  apply be_get_word; [apply bytes_app; split; [done|apply bytes_replicate_0]|].
  rewrite length_app, length_replicate. lia.
Qed.

Lemma jump_to_ok e f pos s k n :
  evm_ok e -> frame_ok f -> word pos -> Forall word s -> (length s + n = k)%nat ->
  exists res err e' f', jump_to e f pos s = Ok (res, err, e', f') /\ moved e e' /\ blob res /\ frame_ok f' /\
    Gas (contract f') <= Gas (contract f) /\ (length (stack f') + n = k)%nat.
Proof.
  intros He Hf Hp Hs Hk. unfold jump_to. destruct (fr_contract f Hf) as [_ _ Hb Hh _ _ _].
  rewrite (Hh (fr_code f Hf)).
  destruct (has_ok (jumpdests e) (Code (contract f)) pos (ev_cache e He) Hb) as (r & d & -> & Hd & _); [apply Hp|].
  rewrite or_panic_bind.
  assert (moved e (set_jumpdests e d)) as Hm by (constructor; [by destruct He|apply later_refl|done|done]).
  destruct r; eexists _, _, _, _; (split; [done|]; split; [done|]; split; [apply blob_nil|]).
  - split; [|done]. apply frame_pc; [by apply frame_stack|apply big_Uint64_range].
  - split; [by apply frame_stack|done].
Qed.

Lemma opJump_ok : exec_ok opJump 1 0 anywhere.
Proof.
  intros e f He Hf Hl _. unfold opJump. pose proof (fr_stack f Hf) as Hs.
  destruct (stack f) as [|x s]; [simpl in Hl; lia..|]. decompose_Forall. apply jump_to_ok; try done; simpl; lia.
Qed.

Lemma opJumpi_ok : exec_ok opJumpi 2 0 anywhere.
Proof.
  intros e f He Hf Hl _. unfold opJumpi. pose proof (fr_stack f Hf) as Hs.
  destruct (stack f) as [|x [|y s] ]; [simpl in Hl; lia..|]. decompose_Forall.
  case_match; [apply jump_to_ok; try done; simpl; lia|].
  eexists _, _, _, _. split; [done|]. split; [auto with vm|]. split; [apply blob_nil|].
  split; [|split; [done|simpl; lia]]. apply frame_pc; [by apply frame_stack|]. apply Z.mod_pos_bound. lia.
Qed.

Lemma nothing_ok : exec_ok opJumpdest 0 0 anywhere /\ exec_ok opStop 0 0 anywhere.
Proof.
  split; intros e f He Hf _ _; eexists _, _, _, _; (split; [done|]; split; [auto with vm|]; split; [apply blob_nil|]; done).
Qed.

Lemma gas_word c : contract_ok c -> word (Gas c).
Proof. intros Hc. destruct (co_gas c Hc). unfold word, tt256. lia. Qed.

Lemma pc_word f : frame_ok f -> word (pc f).
Proof. intros Hf. destruct (fr_pc f Hf). unfold word, tt256. lia. Qed.

#[local] Hint Resolve gas_word pc_word length_word : vm.

Lemma readings_ok :
  exec_ok opPc 0 1 anywhere /\ exec_ok opMsize 0 1 anywhere /\ exec_ok opGas 0 1 anywhere /\
  exec_ok opAddress 0 1 anywhere /\ exec_ok (opOrigin env) 0 1 anywhere /\ exec_ok opCaller 0 1 anywhere /\
  exec_ok opCallValue 0 1 anywhere /\ exec_ok opCallDataSize 0 1 anywhere /\ exec_ok opCodeSize 0 1 anywhere /\
  exec_ok (opGasprice env) 0 1 anywhere /\ exec_ok (opCoinbase env) 0 1 anywhere /\
  exec_ok (opTimestamp env) 0 1 anywhere /\ exec_ok (opNumber env) 0 1 anywhere /\
  exec_ok (opDifficulty env) 0 1 anywhere /\ exec_ok (opGasLimit env) 0 1 anywhere /\
  exec_ok opReturnDataSize 0 1 anywhere.
Proof.
  destruct env_good. repeat match goal with |- _ /\ _ => split end; apply op0_ok; intros e f He Hf;
    pose proof (fr_contract f Hf) as Hc; pose proof Hc as []; auto with vm.
  - apply length_word, (fr_mem f Hf).
  - apply length_word. by destruct (co_input _ Hc).
  - apply length_word. by destruct (co_code _ Hc).
  - apply length_word, (ev_data e He).
Qed.

Lemma opBlockhash_ok : exec_ok (opBlockhash env) 1 1 anywhere.
Proof. apply op1_ok. intros x Hx. cbv zeta. case_match; [apply hash_word, env_good|apply word_0]. Qed.

(** The memory has the size an instruction asks for. *)
Definition roomy (ms : list Z -> option Z) f : Prop :=
  forall v, ms (stack f) = Some v -> v <= Z.of_nat (length (mstore (memory f))).

Lemma roomy_fits off len st o l f :
  stack f = st -> st !! off = Some o -> st !! len = Some l -> word o -> word l ->
  roomy (mem_size off len) f -> fits o l (Z.of_nat (length (mstore (memory f)))).
Proof.
  intros <- Eo El Ho Hl Hr Hne. specialize (Hr (o + l)). apply Hr. unfold mem_size, Back.
  rewrite Eo, some_bind, El, some_bind. unfold calcMemSize. by rewrite (proj2 (Z.eqb_neq l 0)).
Qed.

Lemma roomy_const off st o len f :
  stack f = o :: st -> len <> 0 -> roomy (mem_const len) f -> off = o ->
  fits off len (Z.of_nat (length (mstore (memory f)))).
Proof.
  intros Es Hl Hr -> _. apply (Hr (o + len)). unfold mem_const, Back. rewrite Es. simpl.
  unfold calcMemSize. by rewrite (proj2 (Z.eqb_neq len 0)).
Qed.

Lemma fits_size o l len : word o -> word l -> fits o l len -> 0 <= l /\ (l = 0 \/ l <= len).
Proof. unfold fits. intros [] [] Hf. destruct (decide (l = 0)) as [|Hn]; [lia|]. specialize (Hf Hn). lia. Qed.

Lemma opSha3_ok : exec_ok (opSha3 env) 2 1 (roomy memorySha3).
Proof.
  intros e f He Hf Hl Hr. unfold opSha3. pose proof (fr_stack f Hf) as Hs.
  destruct (stack f) as [|o [|n s] ] eqn:Es; [simpl in Hl; lia..|]. decompose_Forall.
  destruct (mem_Get_ok (memory f) o n) as (d & -> & Hd & _); [apply Hf|done|done|by eapply (roomy_fits 0 1)|].
  rewrite or_panic_bind. cbv zeta. apply done_ok; [|done| |done|simpl; lia].
  - case_match; [|auto with vm]. apply moved_quiet; [done|]. apply ok_AddPreimage. apply He.
  - constructor; [apply hash_word, keccak_ok|done].
Qed.

Lemma opBalance_ok : exec_ok opBalance 1 1 anywhere.
Proof.
  intros e f He Hf Hl _. unfold opBalance. pose proof (fr_stack f Hf) as Hs.
  destruct (stack f) as [|x s]; [simpl in Hl; lia..|]. decompose_Forall.
  destruct (db_GetBalance _ _) as [b d] eqn:E. destruct (ok_GetBalance _ _ _ _ (ev_db e He) E) as [-> Hrd].
  apply done_ok; [by apply moved_reads|done| |done|simpl; lia]. constructor; [|done]. split; [apply He|].
  pose proof (funds_bal B _ (BigToAddress x) (ev_funds e He)). pose proof (en_funds env_good). unfold tt256. lia.
Qed.

Lemma opExtCodeSize_ok : exec_ok opExtCodeSize 1 1 anywhere.
Proof.
  intros e f He Hf Hl _. unfold opExtCodeSize. pose proof (fr_stack f Hf) as Hs.
  destruct (stack f) as [|x s]; [simpl in Hl; lia..|]. decompose_Forall.
  destruct (db_GetCodeSize _ _) as [b d] eqn:E. destruct (ok_GetCodeSize _ _ _ _ (ev_db e He) E) as [Hb Hrd].
  apply done_ok; [by apply moved_reads|done| |done|simpl; lia]. by constructor.
Qed.

Lemma opCallDataLoad_ok : exec_ok opCallDataLoad 1 1 anywhere.
Proof.
  intros e f He Hf Hl _. unfold opCallDataLoad. pose proof (fr_stack f Hf) as Hs.
  destruct (stack f) as [|x s]; [simpl in Hl; lia..|]. inversion_clear Hs as [|? ? [Hx _] Hs'].
  destruct (getDataBig_ok (Input (contract f)) x 32) as (d & -> & [Hd _] & Hn);
    [apply (co_input _ (fr_contract f Hf))|done|lia|].
  rewrite or_panic_bind. apply done_ok; [auto with vm|done| |done|simpl; lia].
  constructor; [|done]. apply be_get_word; [done|lia].
Qed.

Lemma copy_to_ok e0 e f o l d s g n k :
  moved e0 e -> frame_ok f -> word o -> word l -> fits o l (Z.of_nat (length (mstore (memory f)))) -> bytes d ->
  Forall word s -> Gas (contract f) <= g -> (length s + n = k)%nat ->
  exists res err e' f', copy_to e f o l d s = Ok (res, err, e', f') /\ moved e0 e' /\ blob res /\ frame_ok f' /\
    Gas (contract f') <= g /\ (length (stack f') + n = k)%nat.
Proof.
  intros Hm Hf Ho Hl Hfit Hd Hs Hc Hk. unfold copy_to.
  destruct (mem_Set_ok (memory f) o l d) as (m & -> & Hm' & _); [apply Hf|done..|]. rewrite or_panic_bind.
  apply done_ok; try done. by apply frame_memory.
Qed.

(** A memory range of an instruction has a length below 2^62. *)
Lemma small_length f o l :
  frame_ok f -> word o -> word l -> fits o l (Z.of_nat (length (mstore (memory f)))) -> 0 <= l < 2 ^ 62.
Proof. intros Hf Ho Hl Hfit. destruct (fits_size _ _ _ Ho Hl Hfit). destruct (fr_mem f Hf). lia. Qed.

Lemma copies_ok :
  exec_ok opCallDataCopy 3 0 (roomy memoryCallDataCopy) /\ exec_ok opCodeCopy 3 0 (roomy memoryCodeCopy).
Proof.
  split; intros e f He Hf Hl Hr; unfold opCallDataCopy, opCodeCopy; pose proof (fr_stack f Hf) as Hs;
    (destruct (stack f) as [|o [|x [|l s] ] ] eqn:Es; [simpl in Hl; lia..|]); decompose_Forall;
    (assert (fits o l (Z.of_nat (length (mstore (memory f))))) as Hfit by (by eapply (roomy_fits 0 2)));
    pose proof (small_length f o l) as Hn.
  - destruct (getDataBig_ok (Input (contract f)) x l) as (d & -> & [Hd _] & _); [apply (co_input _ (fr_contract f Hf))|apply H0|auto|].
    rewrite or_panic_bind. apply copy_to_ok; auto with vm. simpl. lia.
  - destruct (getDataBig_ok (Code (contract f)) x l) as (d & -> & [Hd _] & _); [apply (co_code _ (fr_contract f Hf))|apply H0|auto|].
    rewrite or_panic_bind. apply copy_to_ok; auto with vm. simpl. lia.
Qed.

Lemma opReturnDataCopy_ok : exec_ok opReturnDataCopy 3 0 (roomy memoryReturnDataCopy).
Proof.
  intros e f He Hf Hl Hr. unfold opReturnDataCopy. pose proof (fr_stack f Hf) as Hs.
  destruct (stack f) as [|o [|x [|l s] ] ] eqn:Es; [simpl in Hl; lia..|]. decompose_Forall.
  assert (fits o l (Z.of_nat (length (mstore (memory f))))) as Hfit by (by eapply (roomy_fits 0 2)).
  destruct (ev_data e He) as [Hb Hlen]. case_match eqn:E.
  - eexists _, _, _, _. split; [done|]. split; [auto with vm|]. split; [apply blob_nil|].
    split; [by apply frame_stack|]. split; [done|]. simpl. lia.
  - apply orb_false_iff in E as [E1 E2]. apply Z.ltb_ge in E1, E2.
    assert (0 <= x /\ 0 <= l) as [Hx Hl'] by (unfold word in *; lia).
    pose proof (BitLen_le (x + l) 64 ltac:(lia) ltac:(lia)) as Hbl.
    rewrite big_Uint64_small in E2 by lia. rewrite !big_Uint64_small by lia.
    unfold slice64. rewrite slice_Some by lia. rewrite or_panic_bind.
    apply copy_to_ok; auto with vm; [by apply bytes_take, bytes_drop|simpl; lia].
Qed.

Lemma opExtCodeCopy_ok : exec_ok opExtCodeCopy 4 0 (roomy memoryExtCodeCopy).
Proof.
  intros e f He Hf Hl Hr. unfold opExtCodeCopy. pose proof (fr_stack f Hf) as Hs.
  destruct (stack f) as [|a [|o [|x [|l s] ] ] ] eqn:Es; [simpl in Hl; lia..|].
  inversion_clear Hs as [|? ? Ha Hs1]. inversion_clear Hs1 as [|? ? Ho Hs2].
  inversion_clear Hs2 as [|? ? Hx Hs3]. inversion_clear Hs3 as [|? ? Hl' Hs4].
  assert (fits o l (Z.of_nat (length (mstore (memory f))))) as Hfit by (by eapply (roomy_fits 1 3)).
  destruct (db_GetCode _ _) as [c d] eqn:E. destruct (ok_GetCode _ _ _ _ (ev_db e He) E) as [-> Hrd].
  destruct (getDataBig_ok (code (StateDB e) (BigToAddress a)) x l) as (b & -> & [Hb _] & _);
    [apply code_ok, He|apply Hx|by eapply (small_length f o l)|].
  rewrite or_panic_bind. apply copy_to_ok; auto with vm; [by apply moved_reads|simpl; lia].
Qed.

Lemma opMload_ok : exec_ok opMload 1 1 (roomy memoryMLoad).
Proof.
  intros e f He Hf Hl Hr. unfold opMload. pose proof (fr_stack f Hf) as Hs.
  destruct (stack f) as [|o s] eqn:Es; [simpl in Hl; lia..|]. inversion_clear Hs as [|? ? Ho Hs'].
  change 32 with (big_Int64 32).
  destruct (mem_Get_ok (memory f) o 32) as (d & -> & [Hd _] & Hn);
    [apply Hf|done|by apply word_lit|by eapply (roomy_const o s)|].
  rewrite or_panic_bind. apply done_ok; [auto with vm|done| |done|simpl; lia].
  constructor; [|done]. apply be_get_word; [done|lia].
Qed.

Lemma opMstore_ok : exec_ok opMstore 2 0 (roomy memoryMStore).
Proof.
  intros e f He Hf Hl Hr. unfold opMstore. pose proof (fr_stack f Hf) as Hs.
  destruct (stack f) as [|o [|x s] ] eqn:Es; [simpl in Hl; lia..|]. inversion_clear Hs as [|? ? Ho Hs'].
  inversion_clear Hs' as [|? ? Hx Hs'']. change (mem_Set ?m ?o 32 ?v) with (mem_Set m o (big_Uint64 32) v).
  destruct (mem_Set_ok (memory f) o 32 (PaddedBigBytes x 32)) as (m & -> & Hm & _);
    [apply Hf|done|by apply word_lit|by eapply (roomy_const o (x :: s))|apply PaddedBigBytes_bytes|].
  rewrite or_panic_bind. apply done_ok; [auto with vm|by apply frame_memory|done|done|simpl; lia].
Qed.

Lemma land_255_byte x : is_byte (Z.land x 0xff).
Proof. change 0xff with (Z.ones 8). rewrite Z.land_ones by lia. apply Z.mod_pos_bound. lia. Qed.

Lemma opMstore8_ok : exec_ok opMstore8 2 0 (roomy memoryMStore8).
Proof.
  intros e f He Hf Hl Hr. unfold opMstore8. pose proof (fr_stack f Hf) as Hs.
  destruct (stack f) as [|o [|x s] ] eqn:Es; [simpl in Hl; lia..|]. inversion_clear Hs as [|? ? Ho Hs'].
  inversion_clear Hs' as [|? ? Hx Hs'']. destruct (fr_mem f Hf) as [Hb Hlen].
  assert (fits o 1 (Z.of_nat (length (mstore (memory f))))) as Hfit by (by eapply (roomy_const o (x :: s))).
  specialize (Hfit ltac:(lia)). unfold big_Int64 at 1 2. destruct Ho. rewrite i64_id by lia.
  rewrite (proj2 (Z.leb_le 0 o)), (proj2 (Z.ltb_lt o _)) by lia. simpl andb. cbv iota.
  apply done_ok; [auto with vm| |done|done|simpl; lia]. apply frame_memory; [done|]. unfold blob. cbn [mstore].
  rewrite length_insert. split; [|done]. apply Forall_insert; [done|apply land_255_byte].
Qed.

Lemma opSload_ok : exec_ok opSload 1 1 anywhere.
Proof.
  intros e f He Hf Hl Hr. unfold opSload. pose proof (fr_stack f Hf) as Hs.
  destruct (stack f) as [|x s] eqn:Es; [simpl in Hl; lia..|]. decompose_Forall.
  destruct (ok_GetState (StateDB e) (self (contract f)) (BigToHash x)) as (v & d & -> & Hv & Hrd);
    [apply He|apply BigToHash_ok|].
  rewrite or_panic_bind. apply done_ok; [by apply moved_reads|done| |done|simpl; lia]. constructor; auto with vm.
Qed.

Lemma opSstore_ok : exec_ok opSstore 2 0 anywhere.
Proof.
  intros e f He Hf Hl Hr. unfold opSstore. pose proof (fr_stack f Hf) as Hs.
  destruct (stack f) as [|x [|y s] ] eqn:Es; [simpl in Hl; lia..|]. decompose_Forall.
  destruct (ok_SetState (StateDB e) (self (contract f)) (BigToHash x) (BigToHash y)) as (d & -> & Hq);
    [apply He|apply BigToHash_ok..|].
  rewrite or_panic_bind. apply done_ok; [by apply moved_quiet|done|done|done|simpl; lia].
Qed.

Lemma opReturn_ok : exec_ok opReturn 2 0 (roomy memoryReturn).
Proof.
  intros e f He Hf Hl Hr. unfold opReturn, mem_GetPtr. pose proof (fr_stack f Hf) as Hs.
  destruct (stack f) as [|o [|n s] ] eqn:Es; [simpl in Hl; lia..|]. decompose_Forall.
  destruct (mem_Get_ok (memory f) o n) as (d & -> & Hd & _); [apply Hf|done|done|by eapply (roomy_fits 0 1)|].
  rewrite or_panic_bind. eexists _, _, _, _. split; [done|]. split; [auto with vm|]. split; [done|].
  split; [by apply frame_stack|]. split; [done|simpl; lia].
Qed.

Lemma opSuicide_ok : exec_ok opSuicide 1 0 anywhere.
Proof.
  intros e f He Hf Hl Hr. unfold opSuicide. pose proof (fr_stack f Hf) as Hs.
  destruct (db_GetBalance _ _) as [b d] eqn:E. destruct (ok_GetBalance _ _ _ _ (ev_db e He) E) as [-> Hrd].
  destruct (stack f) as [|x s] eqn:Es; [simpl in Hl; lia..|]. decompose_Forall.
  destruct (db_Suicide _ _) as [r d'] eqn:E'. destruct Hrd as (Hd & Hlt & Hsame).
  assert (bal (StateDB e) (self (contract f)) = bal d (self (contract f))) as Eb by (by apply same_bal).
  rewrite Eb in E'. assert (funds B (bal d)) as Hfd by (eapply reads_funds; [|apply He]; done).
  destruct (Suicide_funds B d (db_AddBalance d (BigToAddress x) (bal d (self (contract f)))) r (BigToAddress x)
    (self (contract f)) d' Hd Hfd eq_refl E') as (H1 & L1 & F1).
  apply done_ok; [|done|done|done|simpl; lia]. destruct He. constructor; [by constructor|by eapply later_trans|done|done].
Qed.

Lemma makeLog_ok n : exec_ok (makeLog env n) (n + 2) 0 (roomy memoryLog).
Proof.
  intros e f He Hf Hl Hr. unfold makeLog. pose proof (fr_stack f Hf) as Hs.
  destruct (stack f) as [|o [|l s] ] eqn:Es; [simpl in Hl; lia..|]. decompose_Forall. cbn [length] in Hl.
  rewrite (proj2 (Nat.ltb_ge (length s) n)) by lia. cbv zeta.
  destruct (mem_Get_ok (memory f) o l) as (d & -> & Hd & _); [apply Hf|done|done|by eapply (roomy_fits 0 1)|].
  rewrite or_panic_bind. apply done_ok; [|done|by apply Forall_drop|done|rewrite length_drop; simpl; lia].
  apply moved_quiet; [done|]. apply ok_AddLog, He.
Qed.

(** ** Gas *)

Lemma safe_add_Some x y r :
  0 <= x < 2 ^ 64 -> 0 <= y < 2 ^ 64 -> safe_add x y = Some r -> r = x + y /\ x + y < 2 ^ 64.
Proof.
  intros Hx Hy. unfold safe_add. rewrite SafeAdd_spec by done. destruct (Z.leb_spec (2 ^ 64) (x + y)); [done|].
  intros [= <-]. rewrite u64_small by lia. lia.
Qed.

Lemma safe_mul_Some x y r :
  0 <= x < 2 ^ 64 -> 0 <= y < 2 ^ 64 -> safe_mul x y = Some r -> r = x * y /\ x * y < 2 ^ 64.
Proof.
  intros Hx Hy. unfold safe_mul. rewrite SafeMul_spec by done. destruct (Z.leb_spec (2 ^ 64) (x * y)); [done|].
  intros [= <-]. rewrite u64_small; lia.
Qed.

Lemma to_u64_Some v r : 0 <= v -> to_u64 v = Some r -> r = v /\ 0 <= v < 2 ^ 64.
Proof.
  intros Hv. unfold to_u64. rewrite bigUint64_spec by done. destruct (Z.leb_spec (2 ^ 64) v); [done|].
  intros [= <-]. rewrite big_Uint64_small; lia.
Qed.

Definition gt : GasTable := config_GasTable (chainConfig env) (number env).

Lemma gt_range :
  (0 < ExtcodeSize gt < 1000 /\ 0 < ExtcodeCopy gt < 1000 /\ 0 < Balance gt < 1000 /\ 0 < SLoad gt < 1000) /\
  40 <= Calls gt < 1000 /\ 0 < ExpByte gt < 100 /\ 0 <= Suicide gt < 10000 /\ 0 <= CreateBySuicide gt < 100000.
Proof. unfold gt, config_GasTable. repeat case_match; simpl; lia. Qed.

(** The largest memory that can be paid for. *)
Definition max_mem : Z := 0xffffffffe0.

Lemma memoryGasCost_ok m size g m' :
  memoryGasCost m size = (g, m') -> 0 <= size ->
  mstore m' = mstore m /\ forall x, g = Some x -> 0 <= x < 2 ^ 64 /\ size <= max_mem.
Proof.
  unfold memoryGasCost. intros E Hs. destruct (Z.eqb_spec size 0) as [->|Hne].
  { injection E as <- <-. split; [done|]. intros x [= <-]. unfold max_mem. lia. }
  destruct (Z.ltb_spec 0xffffffffe0 size); [by injection E as <- <-|]. cbv zeta in E.
  case_match; injection E as <- <-; (split; [done|]; intros x [= <-]; split; [|done]).
  - apply Z.mod_pos_bound. lia.
  - lia.
Qed.

(** [gas_ok g pop low]: with [pop] items on the stack the gas function [g]
    does not panic; it leaves stack, memory contents and contract alone, and
    what it asks for is at least [low] and pays for the memory. *)
Definition gas_ok (G : gasFunc) (pop : nat) (low : Z) : Prop :=
  forall e f size, evm_ok e -> frame_ok f -> (pop <= length (stack f))%nat -> 0 <= size < 2 ^ 64 ->
  exists cost e1 m1, G gt e f size = Some (cost, e1, set_memory f m1) /\ moved e e1 /\
    mstore m1 = mstore (memory f) /\
    forall g, cost = Some g -> low <= g < 2 ^ 64.

(** The gas function also pays for the memory. *)
Definition gas_mem (G : gasFunc) : Prop :=
  forall e f size cost e1 f1, G gt e f size = Some (cost, e1, f1) -> 0 <= size < 2 ^ 64 -> cost <> None -> size <= max_mem.

Lemma set_memory_same f : set_memory f (memory f) = f.
Proof. by destruct f. Qed.

Lemma fixed_gas e f (g low : Z) :
  evm_ok e -> low <= g < 2 ^ 64 ->
  exists cost e1 m1, Some (Some g, e, f) = Some (cost, e1, set_memory f m1) /\ moved e e1 /\
    mstore m1 = mstore (memory f) /\ forall x, cost = Some x -> low <= x < 2 ^ 64.
Proof.
  intros He Hg. exists (Some g), e, (memory f). rewrite set_memory_same. split; [done|].
  split; [by apply moved_refl|]. split; [done|]. by intros x [= <-].
Qed.

Lemma constGas_ok n : 0 <= n < 2 ^ 64 -> gas_ok (constGasFunc n) 0 n.
Proof. intros Hn e f size He _ _ _. apply fixed_gas; [done|lia]. Qed.

Lemma table_gas_ok : gas_ok gasBalance 0 1 /\ gas_ok gasExtCodeSize 0 1 /\ gas_ok gasSLoad 0 1.
Proof. pose proof gt_range. split; [|split]; intros e f size He _ _ _; (apply fixed_gas; [done|lia]). Qed.

Lemma with_memory_gas_ok k low e f size :
  evm_ok e -> 0 <= size -> (forall g r, 0 <= g < 2 ^ 64 -> k g = Some r -> low <= r < 2 ^ 64) ->
  exists cost e1 m1, with_memory_gas k e f size = Some (cost, e1, set_memory f m1) /\ moved e e1 /\
    mstore m1 = mstore (memory f) /\ forall g, cost = Some g -> low <= g < 2 ^ 64.
Proof.
  intros He Hs Hk. unfold with_memory_gas. destruct (memoryGasCost (memory f) size) as [g m] eqn:E.
  destruct (memoryGasCost_ok _ _ _ _ E Hs) as [Hm Hg].
  eexists _, e, m. split; [done|]. split; [by apply moved_refl|]. split; [done|]. intros r Hr.
  destruct g as [x|]; [|done]. destruct (Hg x eq_refl). by apply (Hk x).
Qed.

Lemma with_memory_gas_mem k e f size cost e1 f1 :
  with_memory_gas k e f size = Some (cost, e1, f1) -> 0 <= size -> cost <> None -> size <= max_mem.
Proof.
  unfold with_memory_gas. destruct (memoryGasCost (memory f) size) as [g m] eqn:E. intros [= <- _ _] Hs Hc.
  destruct (memoryGasCost_ok _ _ _ _ E Hs) as [_ Hg]. destruct g as [x|]; [|done]. by destruct (Hg x eq_refl).
Qed.

Lemma gas_words_ok base per back :
  0 <= base < 2 ^ 64 -> 0 <= per < 2 ^ 64 -> gas_ok (gas_words base per back) (S back) base /\ gas_mem (gas_words base per back).
Proof.
  intros Hb Hp. split.
  - intros e f size He Hf Hl Hs. unfold gas_words, Back.
    destruct (lookup_lt_is_Some_2 (stack f) back) as [n En]; [lia|]. rewrite En, some_bind.
    apply with_memory_gas_ok; [done|lia|]. intros g r Hg Hr.
    assert (word n) as Hn by (eapply Forall_lookup_1; [apply Hf|done]).
    destruct (safe_add g base) as [x|] eqn:E1; [|done]. apply safe_add_Some in E1 as [-> E1]; [|done..].
    rewrite some_bind in Hr. destruct (to_u64 n) as [w|] eqn:E2; [|done]. apply to_u64_Some in E2 as [-> E2]; [|apply Hn].
    rewrite some_bind in Hr. destruct (toWordSize_spec n E2) as (Hw & _).
    destruct (safe_mul _ per) as [y|] eqn:E3; [|done]. apply safe_mul_Some in E3 as [-> E3]; [|lia|done].
    rewrite some_bind in Hr. apply safe_add_Some in Hr as [-> Hr]; nia.
  - intros e f size cost e1 f1 E Hs Hc. unfold gas_words in E. destruct (Back _ _); [|done]. rewrite some_bind in E.
    eapply with_memory_gas_mem; [done|lia|done].
Qed.

Lemma gas_plus_ok base : 0 <= base < 2 ^ 64 -> gas_ok (gas_plus base) 0 base /\ gas_mem (gas_plus base).
Proof.
  intros Hb. split.
  - intros e f size He Hf _ Hs. apply with_memory_gas_ok; [done|lia|]. intros g r Hg Hr.
    apply safe_add_Some in Hr as [-> Hr]; lia.
  - intros e f size cost e1 f1 E Hs Hc. eapply with_memory_gas_mem; [done|lia|done].
Qed.

Lemma gasReturn_ok : gas_ok gasReturn 0 0 /\ gas_mem gasReturn.
Proof.
  split.
  - intros e f size He Hf _ Hs. apply with_memory_gas_ok; [done|lia|]. intros g r Hg [= <-]. done.
  - intros e f size cost e1 f1 E Hs Hc. eapply with_memory_gas_mem; [done|lia|done].
Qed.

Lemma makeGasLog_ok n : (n <= 4)%nat -> gas_ok (makeGasLog (Z.of_nat n)) 2 1 /\ gas_mem (makeGasLog (Z.of_nat n)).
Proof.
  intros Hn. split.
  - intros e f size He Hf Hl Hs. unfold makeGasLog, Back.
    destruct (lookup_lt_is_Some_2 (stack f) 1) as [l El]; [lia|]. rewrite El, some_bind.
    assert (word l) as Hw by (eapply Forall_lookup_1; [apply Hf|done]).
    destruct (to_u64 l) as [w|] eqn:E.
    + apply to_u64_Some in E as [-> E]; [|apply Hw]. apply with_memory_gas_ok; [done|lia|]. intros g r Hg Hr.
      destruct (safe_add g LogGas) as [x|] eqn:E1; [|done]. apply safe_add_Some in E1 as [-> E1]; [|done|unfold LogGas; lia].
      rewrite some_bind in Hr. unfold LogGas, LogTopicGas, LogDataGas in *. rewrite (u64_small (Z.of_nat n * 375)) in Hr by lia.
      destruct (safe_add _ (_ * 375)) as [y|] eqn:E2; [|done]. apply safe_add_Some in E2 as [-> E2]; [|lia..].
      rewrite some_bind in Hr. destruct (safe_mul l 8) as [z|] eqn:E3; [|done].
      apply safe_mul_Some in E3 as [-> E3]; [|lia..]. rewrite some_bind in Hr. apply safe_add_Some in Hr as [-> Hr]; lia.
    + exists None, e, (memory f). rewrite set_memory_same. split; [done|]. split; [by apply moved_refl|]. done.
  - intros e f size cost e1 f1 E Hs Hc. unfold makeGasLog in E. destruct (Back _ _) as [l|]; [|done].
    rewrite some_bind in E. destruct (to_u64 l); [|by injection E as <- _ _]. eapply with_memory_gas_mem; [done|lia|done].
Qed.

Lemma gasExp_ok : gas_ok gasExp 2 1.
Proof.
  intros e f size He Hf Hl _. unfold gasExp. destruct (lookup_lt_is_Some_2 (stack f) 1) as [x Ex]; [lia|].
  rewrite Ex, some_bind. assert (word x) as [Hx Hx'] by (eapply Forall_lookup_1; [apply Hf|done]). cbv zeta.
  assert (0 <= (BitLen x + 7) / 8 <= 33) as Hb.
  { pose proof (BitLen_nonneg x). pose proof (proj2 (BitLen_le x 256 Hx ltac:(lia)) Hx'). split;
      [apply Z.div_pos; lia|]. apply Z.div_le_upper_bound; lia. }
  pose proof gt_range as (_ & _ & Hg & _). rewrite u64_small by nia.
  eexists _, e, (memory f). rewrite set_memory_same. split; [done|]. split; [by apply moved_refl|]. split; [done|].
  intros g Hr. apply safe_add_Some in Hr as [-> Hr]; unfold GasSlowStep in *; nia.
Qed.

Lemma gasSStore_ok : gas_ok gasSStore 2 1.
Proof.
  intros e f size He Hf Hl _. unfold gasSStore, Back. destruct (lookup_lt_is_Some_2 (stack f) 1) as [y Ey]; [lia|].
  destruct (lookup_lt_is_Some_2 (stack f) 0) as [x Ex]; [lia|]. rewrite Ey, some_bind, Ex, some_bind.
  destruct (ok_GetState (StateDB e) (self (contract f)) (BigToHash x)) as (v & d & -> & Hv & Hrd);
    [apply He|apply BigToHash_ok|]. rewrite some_bind. cbv zeta.
  pose proof (moved_reads e d He Hrd) as Hm.
  unfold SstoreSetGas, SstoreClearGas, SstoreResetGas.
  repeat case_match; eexists _, _, (memory f); rewrite set_memory_same;
    (split; [done|]; split; [|split; [done|intros g [= <-]; lia]]); [done| |done].
  eapply vm_moved_trans; [done|]. apply moved_quiet; [apply Hm|]. apply ok_AddRefund; [apply Hm|done].
Qed.

Lemma gasSuicide_ok : gas_ok (gasSuicide env) 1 0.
Proof.
  intros e f size He Hf Hl _. unfold gasSuicide, Back. destruct (lookup_lt_is_Some_2 (stack f) 0) as [x Ex]; [lia|].
  rewrite Ex. replace (if is_eip150 env then Some x else Some 0) with (Some (if is_eip150 env then x else 0)) by (by case_match).
  rewrite some_bind. cbv zeta. set (a := BigToAddress _).
  assert (forall y, 0 <= u64 y < 2 ^ 64) as Hu by (intros; apply Z.mod_pos_bound; lia).
  pose proof gt_range as (_ & _ & _ & Hg & _).
  set (r := if is_eip150 env then _ else (0, StateDB e)).
  assert (exists g d, r = (g, d) /\ 0 <= g < 2 ^ 64 /\ moved e (set_db e d)) as (g & d & -> & Hg' & Hm).
  { subst r. destruct (is_eip150 env); [destruct (is_eip158 env)|].
    - destruct (db_Empty _ a) as [em d] eqn:E1. pose proof (moved_reads e d He (ok_Empty _ _ _ _ (ev_db e He) E1)) as Hm.
      destruct em; [|eexists _, _; split; [done|]; split; [lia|done]].
      destruct (db_GetBalance d _) as [b d'] eqn:E2.
      destruct (ok_GetBalance _ _ _ _ (ev_db _ (mv_ok _ _ Hm)) E2) as [_ Hrd].
      eexists _, d'. split; [done|]. split; [case_match; [apply Hu|lia]|].
      eapply vm_moved_trans; [exact Hm|]. apply (moved_reads (set_db e d)); [apply Hm|done].
    - destruct (db_Exist _ a) as [ex d] eqn:E1. pose proof (moved_reads e d He (proj1 (ok_Exist _ _ _ _ (ev_db e He) E1))) as Hm.
      eexists _, d. split; [done|]. split; [case_match; [apply Hu|lia]|done].
    - eexists _, _. split; [done|]. split; [lia|]. destruct e. by apply moved_refl. }
  destruct (db_HasSuicided d _) as [hs d1] eqn:E3.
  assert (moved e (set_db e d1)) as Hm1.
  { eapply vm_moved_trans; [exact Hm|]. apply (moved_reads (set_db e d)); [apply Hm|].
    eapply ok_HasSuicided; [|done]. apply (ev_db _ (mv_ok _ _ Hm)). }
  eexists _, _, (memory f). rewrite set_memory_same. split; [done|]. split; [|split; [done|by intros ? [= <-]]].
  destruct hs; [done|]. eapply vm_moved_trans; [exact Hm1|]. apply (moved_quiet (set_db e d1)); [apply Hm1|].
  apply ok_AddRefund; [apply (ev_db _ (mv_ok _ _ Hm1))|done].
Qed.

(** ** Operations *)

Lemma makeStackFunc_None pop push st :
  makeStackFunc pop push st = None <-> pop <= Z.of_nat (length st) /\ Z.of_nat (length st) + push - pop <= 1024.
Proof.
  unfold makeStackFunc, require, StackLimit. destruct (Z.ltb_spec (Z.of_nat (length st)) pop).
  - split; [done|lia].
  - case_match eqn:E; [apply Z.ltb_lt in E|apply Z.ltb_ge in E]; split; try done; lia.
Qed.

(** The memory an operation asks for can be read off the stack. *)
Definition ms_total (ms : list Z -> option Z) (pop : nat) : Prop :=
  forall st, (pop <= length st)%nat -> Forall word st -> exists v, ms st = Some v /\ 0 <= v.

Lemma mem_size_total off len pop : (off < pop)%nat -> (len < pop)%nat -> ms_total (mem_size off len) pop.
Proof.
  intros Ho Hl st Hp Hs. destruct (lookup_lt_is_Some_2 st off) as [o Eo]; [lia|].
  destruct (lookup_lt_is_Some_2 st len) as [l El]; [lia|].
  assert (word o) as [? _] by (by eapply Forall_lookup_1). assert (word l) as [? _] by (by eapply Forall_lookup_1).
  unfold mem_size, Back. rewrite Eo, some_bind, El, some_bind. eexists. split; [done|].
  unfold calcMemSize. case_match; lia.
Qed.

Lemma mem_const_total len pop : (0 < pop)%nat -> 0 <= len -> ms_total (mem_const len) pop.
Proof.
  intros Ho Hl st Hp Hs. destruct (lookup_lt_is_Some_2 st 0) as [o Eo]; [lia|].
  assert (word o) as [? _] by (by eapply Forall_lookup_1). unfold mem_const, Back. rewrite Eo, some_bind.
  eexists. split; [done|]. unfold calcMemSize. case_match; lia.
Qed.

Lemma mem_two_total o1 l1 o2 l2 pop :
  (o1 < pop)%nat -> (l1 < pop)%nat -> (o2 < pop)%nat -> (l2 < pop)%nat -> ms_total (mem_two o1 l1 o2 l2) pop.
Proof.
  intros ? ? ? ? st Hp Hs. destruct (mem_size_total o1 l1 pop) with st as (v & Ev & Hv); [done..|].
  destruct (mem_size_total o2 l2 pop) with st as (w & Ew & Hw); [done..|].
  unfold mem_two. rewrite Ev, some_bind, Ew, some_bind. eexists. split; [done|]. unfold BigMax. case_match; lia.
Qed.

(** The size in words covers what was asked for. *)
Lemma memory_needed_ok o st ms pop :
  memorySize o = Some ms -> ms_total ms pop -> (pop <= length st)%nat -> Forall word st ->
  exists v n, ms st = Some v /\ memory_needed o st = Some n /\
    forall size, n = Some size -> 0 <= v <= size /\ size < 2 ^ 64.
Proof.
  intros Em Ht Hp Hs. destruct (Ht st Hp Hs) as (v & Ev & Hv). exists v. unfold memory_needed.
  rewrite Em, Ev, some_bind. eexists. split; [done|]. split; [done|]. intros size Hsz.
  destruct (to_u64 v) as [w|] eqn:E; [|done]. apply to_u64_Some in E as [-> E]; [|done]. rewrite some_bind in Hsz.
  destruct (toWordSize_spec v E) as (H1 & H2 & H3). apply safe_mul_Some in Hsz as [-> Hsz]; lia.
Qed.

Definition resized f size : Frame := if 0 <? size then set_memory f (mem_Resize (memory f) size) else f.

(** What holds of an operation: its memory size, gas and execution succeed,
    keep everything well formed, and use gas unless the operation ends the
    run.  [N] bounds the gas. *)
Definition op_ok (N : Z) (o : operation) (op : OpCode) : Prop :=
  forall e f, evm_ok e -> frame_ok f -> Gas (contract f) <= N -> (length (stack f) <= 1024)%nat -> (op = STOP \/ on_code f) ->
  validateStack o (stack f) = None ->
  exists n, memory_needed o (stack f) = Some n /\ forall size, n = Some size ->
  exists ok e1 f1, charge env o e f size = Some (ok, e1, f1) /\ moved e e1 /\ frame_ok f1 /\
    Gas (contract f1) <= Gas (contract f) /\
    (ok = true -> exists res err e3 f3, execute o e1 (resized f1 size) = Ok (res, err, e3, f3) /\
      moved e1 e3 /\ blob res /\ frame_ok f3 /\ (length (stack f3) <= 1024)%nat /\
      Gas (contract f3) <= Gas (contract f) /\
      (halts o = false -> reverts o = false -> Gas (contract f3) < Gas (contract f))).

Lemma contract_gas c g : contract_ok c -> 0 <= g < 2 ^ 36 -> contract_ok (set_gas c g).
Proof. intros [] Hg. by constructor. Qed.

Lemma frame_contract f c :
  frame_ok f -> contract_ok c -> Code c <> [] -> frame_ok (set_contract f c).
Proof. intros [] Hc Hn. by constructor. Qed.

Lemma frame_resized f size :
  frame_ok f -> 0 <= size <= max_mem ->
  frame_ok (resized f size) /\ size <= Z.of_nat (length (mstore (memory (resized f size)))) /\
  stack (resized f size) = stack f /\ contract (resized f size) = contract f /\ pc (resized f size) = pc f.
Proof.
  intros Hf Hs. unfold resized, max_mem in *. destruct (Z.ltb_spec 0 size).
  - destruct (mem_Resize_ok (memory f) size (fr_mem f Hf)) as (H1 & H2 & _); [lia|].
    split; [by apply frame_memory|]. done.
  - split; [done|]. split; [lia|done].
Qed.

(** Charging for a frame whose gas function returned [cost]. *)
Lemma charge_ok o e f size cost e1 f1 :
  gasCost o gt e f size = Some (cost, e1, f1) -> frame_ok f1 -> contract f1 = contract f ->
  (forall g, cost = Some g -> 0 <= g) ->
  exists ok f2, charge env o e f size = Some (ok, e1, f2) /\ frame_ok f2 /\ Gas (contract f2) <= Gas (contract f) /\
    (ok = true -> exists g, cost = Some g /\ g <= Gas (contract f) /\
       f2 = set_contract f1 (set_gas (contract f) (Gas (contract f) - g))).
Proof.
  intros E Hf Hc Hg. unfold charge. rewrite (en_metered env_good). fold gt. rewrite E, some_bind.
  destruct cost as [g|]; [|eexists false, f1; rewrite Hc; done].
  specialize (Hg g eq_refl). pose proof (co_gas _ (fr_contract f1 Hf)) as Hgas. unfold UseGas.
  destruct (Z.ltb_spec (Gas (contract f1)) g).
  - eexists false, _. split; [done|]. rewrite Hc in *. split; [|done]. destruct f1. simpl in Hc. subst. done.
  - rewrite u64_small by lia. rewrite Hc in *. eexists true, _. split; [done|]. split.
    + apply frame_contract; [done| |rewrite <-Hc; apply Hf]. apply contract_gas; [rewrite <-Hc; apply Hf|lia].
    + split; [simpl; lia|]. intros _. exists g. done.
Qed.

Lemma op_intro N o op (pop push : nat) low room :
  validateStack o = makeStackFunc (Z.of_nat pop) (Z.of_nat push) ->
  gas_ok (gasCost o) pop low -> exec_ok (execute o) pop push room -> 0 <= low ->
  (1 <= low \/ halts o = true \/ reverts o = true) ->
  match memorySize o with
  | None => forall f, (op = STOP \/ on_code f) -> room f
  | Some ms =>
      gas_mem (gasCost o) /\ (forall f, roomy ms f -> Gas (contract f) + low <= N -> room f) /\ ms_total ms pop
  end -> op_ok N o op.
Proof.
  intros Hv Hg Hx Hlow Huse Hm e f He Hf HN Hlen Hon Hval. rewrite Hv in Hval. apply makeStackFunc_None in Hval as [V1 V2].
  assert (exists n, memory_needed o (stack f) = Some n /\ forall size, n = Some size ->
    0 <= size < 2 ^ 64 /\ match memorySize o with None => size = 0 | Some ms => exists v, ms (stack f) = Some v /\ v <= size end)
    as (n & En & Hn).
  { destruct (memorySize o) as [ms|] eqn:Em.
    - destruct (memory_needed_ok o (stack f) ms pop Em) as (v & n & Ev & En & Hn); [apply Hm|lia|apply Hf|].
      exists n. split; [done|]. intros size Hs. destruct (Hn size Hs). split; [lia|]. exists v. split; [done|lia].
    - exists (Some 0). unfold memory_needed. rewrite Em. split; [done|]. intros size [= <-]. split; [lia|done]. }
  exists n. split; [done|]. intros size Hsize. destruct (Hn size Hsize) as [Hs Hms].
  destruct (Hg e f size He Hf) as (cost & e1 & m1 & Eg & Hmv & Hst & Hc); [lia|done|].
  destruct (charge_ok o e f size cost e1 _ Eg) as (ok & f2 & Ec & Hf2 & Hle & Hok).
  { apply frame_memory; [done|]. rewrite Hst. apply Hf. } { done. } { intros g ->. destruct (Hc g eq_refl). lia. }
  exists ok, e1, f2. split; [done|]. split; [done|]. split; [done|]. split; [done|]. intros ->.
  destruct (Hok eq_refl) as (g & -> & Hgle & Ef2). destruct (Hc g eq_refl) as [Hg1 _].
  assert (size <= max_mem) as Hmax.
  { destruct (memorySize o) as [ms|]; [|subst; unfold max_mem; lia]. destruct Hm as [Hm _]. by eapply Hm. }
  destruct (frame_resized f2 size Hf2) as (Hfr & Hl & Es & Ecn & Ep); [lia|].
  destruct (Hx e1 (resized f2 size)) as (res & err & e3 & f3 & Ex & Hm3 & Hb & Hf3 & Hc3 & Hl3);
    [apply Hmv|done|rewrite Es; subst f2; simpl; lia| |].
  { destruct (memorySize o) as [ms|].
    - destruct Hm as (_ & Hroom & _). destruct Hms as (v & Ev & Hv'). apply Hroom; [|rewrite Ecn; subst f2; simpl; lia].
      intros v' E'. rewrite Es in E'. subst f2. simpl in E'. rewrite Ev in E'. injection E' as <-. lia.
    - apply Hm. unfold on_code in *. rewrite Ep, Ecn. by subst f2. }
  exists res, err, e3, f3. split; [done|]. split; [done|]. split; [done|]. split; [done|].
  rewrite Ecn in Hc3. subst f2. rewrite Es in Hl3. simpl in Hl3, Hc3. split; [lia|]. split; [lia|].
  intros Hh Hr. destruct Huse as [?|[?|?] ]; [lia|congruence..].
Qed.

(** ** Calls *)

(** After a call with [gas]. *)
Definition called e (gas : Z) (ret : list Z) (left_ : Z) e' : Prop := moved e e' /\ blob ret /\ 0 <= left_ <= gas.

(** Calls with less than [N] gas return. *)
Record callees_ok (cs : Callees) (N : Z) : Prop := mk_callees_ok {
  ca_Call e c a input gas v :
    evm_ok e -> contract_ok c -> addr_ok a -> blob input -> 0 <= gas < N -> word v ->
    exists ret left_ err e', to_Call cs e (ContractCaller c) a input gas v = Ok (ret, left_, err, e') /\ called e gas ret left_ e';
  ca_CallCode e c a input gas v :
    evm_ok e -> contract_ok c -> addr_ok a -> blob input -> 0 <= gas < N -> word v ->
    exists ret left_ err e', to_CallCode cs e c a input gas v = Ok (ret, left_, err, e') /\ called e gas ret left_ e';
  ca_DelegateCall e c a input gas :
    evm_ok e -> contract_ok c -> addr_ok a -> blob input -> 0 <= gas < N ->
    exists ret left_ err e', to_DelegateCall cs e c a input gas = Ok (ret, left_, err, e') /\ called e gas ret left_ e';
  ca_StaticCall e c a input gas :
    evm_ok e -> contract_ok c -> addr_ok a -> blob input -> 0 <= gas < N ->
    exists ret left_ err e', to_StaticCall cs e c a input gas = Ok (ret, left_, err, e') /\ called e gas ret left_ e';
  ca_Create e c input gas v :
    evm_ok e -> contract_ok c -> blob input -> 0 <= gas < N -> word v ->
    exists ret addr left_ err e', to_Create cs e (ContractCaller c) input gas v = Ok (ret, addr, left_, err, e') /\
      called e gas ret left_ e' /\ addr_ok addr
}.

Lemma BytesTo_addr b : bytes b -> addr_ok (BytesTo vAddressLength b).
Proof. intros Hb. destruct (BytesTo_ok vAddressLength b Hb) as [H1 H2]. split; [done|]. rewrite H2. apply address_length. Qed.

Lemma BigToAddress_ok x : addr_ok (BigToAddress x).
Proof. apply BytesTo_addr, min_bytes_ok. Qed.

Lemma callGas_range available base cost cg : word cost -> callGas gt available base cost = Some cg -> 0 <= cg < 2 ^ 64.
Proof.
  intros Hw. unfold callGas. cbv zeta. pose proof (big_Uint64_range cost).
  repeat case_match; intros [= <-]; try done; apply Z.mod_pos_bound; lia.
Qed.

(** A gas function of a call asks for [base] and the gas handed on, which it
    puts on the stack. *)
Definition call_gas_ok (G : gasFunc) (pop : nat) (base : list Z -> Z) : Prop :=
  forall e f size, evm_ok e -> frame_ok f -> (pop <= length (stack f))%nat -> 0 <= size < 2 ^ 64 ->
  exists cost e1 f1, G gt e f size = Some (cost, e1, f1) /\ moved e e1 /\ frame_ok f1 /\ contract f1 = contract f /\
    (forall g, cost = Some g -> size <= max_mem /\ exists cg, stack f1 = <[0%nat := cg]> (stack f) /\ 0 <= cg < 2 ^ 64 /\
      base (stack f) + cg <= g).

Lemma gas_call_ok e f size b :
  evm_ok e -> frame_ok f -> (0 < length (stack f))%nat -> 0 <= size < 2 ^ 64 -> 0 <= b < 2 ^ 63 ->
  exists cost f1, gas_call b gt e f size = Some (cost, e, f1) /\ frame_ok f1 /\ contract f1 = contract f /\
    (forall g, cost = Some g -> size <= max_mem /\ exists cg, stack f1 = <[0%nat := cg]> (stack f) /\ 0 <= cg < 2 ^ 64 /\ b + cg <= g).
Proof.
  intros He Hf Hl Hs Hb. unfold gas_call, Back. destruct (lookup_lt_is_Some_2 (stack f) 0) as [top Et]; [lia|].
  rewrite Et, some_bind. assert (word top) as Hw by (eapply Forall_lookup_1; [apply Hf|done]).
  destruct (memoryGasCost (memory f) size) as [mg m] eqn:Em.
  destruct (memoryGasCost_ok _ _ _ _ Em) as [Hm Hmg]; [lia|]. cbv zeta.
  assert (frame_ok (set_memory f m)) as Hf1 by (apply frame_memory; [done|rewrite Hm; apply Hf]).
  destruct (mg ≫= safe_add b) as [gas|] eqn:Eg; [|by eexists None, _].
  destruct mg as [x|]; [|done]. rewrite some_bind in Eg. destruct (Hmg x eq_refl) as [Hx Hmax].
  apply safe_add_Some in Eg as [-> Eg]; [|lia|done].
  destruct (callGas gt _ _ top) as [cg|] eqn:Ec; [|by eexists None, _]. apply callGas_range in Ec; [|done].
  eexists _, _. split; [done|]. split; [|split; [done|]].
  - apply frame_stack; [done|]. apply Forall_insert; [apply Hf|]. unfold word, tt256. lia.
  - intros g Hg. apply safe_add_Some in Hg as [-> Hg]; [|lia|done]. split; [done|]. exists cg. split; [done|]. lia.
Qed.

(** What a call costs besides the gas handed on. *)
Definition call_base (st : list Z) : Z := if default 0 (st !! 2%nat) =? 0 then 40 else 9040.

Lemma gasCall_ok : call_gas_ok (gasCall env) 7 call_base.
Proof.
  intros e f size He Hf Hl Hs. unfold gasCall, Back. destruct (lookup_lt_is_Some_2 (stack f) 2) as [v Ev]; [lia|].
  destruct (lookup_lt_is_Some_2 (stack f) 1) as [a Ea]; [lia|]. rewrite Ev, some_bind, Ea, some_bind. cbv zeta.
  set (r := if is_eip158 env then _ else _).
  assert (exists b d, r = (b, d) /\ moved e (set_db e d)) as (b & d & -> & Hm).
  { assert (moved e (set_db e (StateDB e))) as Hsame by (destruct e; by apply moved_refl).
    destruct (db_Empty (StateDB e) (BigToAddress a)) as [em d1] eqn:E1.
    destruct (db_Exist (StateDB e) (BigToAddress a)) as [ex d2] eqn:E2.
    pose proof (moved_reads e d1 He (ok_Empty _ _ _ _ (ev_db e He) E1)).
    pose proof (moved_reads e d2 He (proj1 (ok_Exist _ _ _ _ (ev_db e He) E2))).
    subst r. destruct (is_eip158 env); [destruct (negb (v =? 0))|]; eauto. }
  pose proof gt_range as (_ & Hc & _). set (n := if negb (v =? 0) then _ else _).
  assert (call_base (stack f) <= n < 2 ^ 63) as Hn.
  { subst n. unfold call_base, CallValueTransferGas, CallNewAccountGas. rewrite Ev. cbn [default from_option id].
    destruct (v =? 0), b; cbn [negb]; rewrite ?(u64_small (Calls gt + 25000)) by lia; rewrite ?u64_small by lia; lia. }
  destruct (gas_call_ok (set_db e d) f size n) as (cost & f1 & -> & Hf1 & Hc1 & Hg); [apply Hm|done|lia|done| |].
  { unfold call_base in Hn. case_match; lia. }
  eexists _, _, _. split; [done|]. split; [done|]. split; [done|]. split; [done|]. intros g E.
  destruct (Hg g E) as (H1 & cg & H2 & H3 & H4). split; [done|]. exists cg. split; [done|]. split; [done|]. lia.
Qed.

Lemma gasCallCode_ok : call_gas_ok gasCallCode 7 call_base.
Proof.
  intros e f size He Hf Hl Hs. unfold gasCallCode, Back. destruct (lookup_lt_is_Some_2 (stack f) 2) as [v Ev]; [lia|].
  rewrite Ev, some_bind. cbv zeta.
  pose proof gt_range as (_ & Hc & _). set (n := if negb (v =? 0) then _ else _).
  assert (call_base (stack f) <= n < 2 ^ 63) as Hn.
  { subst n. unfold call_base, CallValueTransferGas. rewrite Ev. cbn [default from_option id].
    destruct (v =? 0); cbn [negb]; rewrite ?u64_small; lia. }
  destruct (gas_call_ok e f size n) as (cost & f1 & -> & Hf1 & Hc1 & Hg); [done|done|lia|done| |].
  { unfold call_base in Hn. case_match; lia. }
  eexists _, _, _. split; [done|]. split; [by apply moved_refl|]. split; [done|]. split; [done|]. intros g E.
  destruct (Hg g E) as (H1 & cg & H2 & H3 & H4). split; [done|]. exists cg. split; [done|]. split; [done|]. lia.
Qed.

Lemma gasOtherCall_ok : call_gas_ok gasDelegateCall 6 (fun _ => 40) /\ call_gas_ok gasStaticCall 6 (fun _ => 40).
Proof.
  pose proof gt_range as (_ & Hc & _).
  split; intros e f size He Hf Hl Hs; unfold gasDelegateCall, gasStaticCall;
    (destruct (gas_call_ok e f size (Calls gt)) as (cost & f1 & -> & Hf1 & Hc1 & Hg); [done|done|lia|done|lia|]);
    (eexists _, _, _; split; [done|]; split; [by apply moved_refl|]; split; [done|]; split; [done|]; intros g E;
     destruct (Hg g E) as (H1 & cg & H2 & H3 & H4); split; [done|]; exists cg; split; [done|]; split; [done|]; lia).
Qed.

Section CallOps.
Context (N : Z) (cs : Callees) (cs_ok : callees_ok cs N).

Lemma end_call_ok e f s ro rs gas ret left_ err e' :
  called e gas ret left_ e' -> frame_ok f -> Forall word s -> word ro -> word rs ->
  fits ro rs (Z.of_nat (length (mstore (memory f)))) -> Gas (contract f) + gas < 2 ^ 36 ->
  exists f3, end_call f s ro rs (ret, left_, err, e') = Ok (ret, None, e', f3) /\ frame_ok f3 /\
    length (stack f3) = S (length s) /\ Gas (contract f3) <= Gas (contract f) + gas.
Proof.
  intros (Hm & Hr & Hle) Hf Hs Hro Hrs Hfit Hgas. unfold end_call.
  set (m := if bool_decide _ then _ else _).
  assert (exists m', m = Ok m' /\ blob (mstore m')) as (m' & -> & Hm').
  { subst m. case_match; [|exists (memory f); split; [done|apply Hf]].
    destruct (mem_Set_ok (memory f) ro rs ret) as (m' & -> & Hm' & _); [apply Hf|done..|apply Hr|]. by exists m'. }
  rewrite ok_bind. pose proof (co_gas _ (fr_contract f Hf)). rewrite u64_small by lia.
  eexists. split; [done|]. split; [|simpl; split; [done|lia]].
  apply frame_contract; [|apply contract_gas; [apply Hf|lia]|apply Hf].
  apply frame_memory; [|done]. apply frame_stack; [done|]. constructor; [|done]. by destruct err; auto with vm.
Qed.

(** The gas a value transfer adds to what is handed on. *)
Definition stipend (st : list Z) : Z := if default 0 (st !! 2%nat) =? 0 then 0 else 2300.
Definition no_stipend (st : list Z) : Z := 0.

Definition call_exec_ok (x : exec) (pop : nat) (ms : list Z -> option Z) (stip : list Z -> Z) : Prop :=
  forall e f cg, evm_ok e -> frame_ok f -> (pop <= length (stack f))%nat -> roomy ms f ->
  stack f !! 0%nat = Some cg -> 0 <= cg < 2 ^ 64 -> cg + stip (stack f) < N ->
  Gas (contract f) + cg + stip (stack f) < 2 ^ 36 ->
  exists res err e3 f3, x e f = Ok (res, err, e3, f3) /\ moved e e3 /\ blob res /\ frame_ok f3 /\
    (length (stack f3) + pop = length (stack f) + 1)%nat /\
    Gas (contract f3) <= Gas (contract f) + cg + stip (stack f).

Lemma roomy_two o1 l1 o2 l2 f a b x y :
  stack f !! o1 = Some a -> stack f !! l1 = Some b -> stack f !! o2 = Some x -> stack f !! l2 = Some y ->
  roomy (mem_two o1 l1 o2 l2) f ->
  fits a b (Z.of_nat (length (mstore (memory f)))) /\ fits x y (Z.of_nat (length (mstore (memory f)))).
Proof.
  intros E1 E2 E3 E4 Hr.
  assert (BigMax (calcMemSize a b) (calcMemSize x y) <= Z.of_nat (length (mstore (memory f)))) as H.
  { apply Hr. unfold mem_two, mem_size, Back. by rewrite E1, some_bind, E2, some_bind, E3, some_bind, E4, some_bind. }
  unfold BigMax, calcMemSize in H. split; intros Hne; repeat case_match;
    repeat match goal with H : (_ <? _) = true |- _ => apply Z.ltb_lt in H | H : (_ <? _) = false |- _ => apply Z.ltb_ge in H
           | H : (_ =? _) = true |- _ => apply Z.eqb_eq in H end; lia.
Qed.

Lemma with_stipend_ok cg v st :
  word v -> st !! 2%nat = Some v -> 0 <= cg -> cg + stipend st < 2 ^ 36 -> with_stipend (big_Uint64 cg) (U256 v) = cg + stipend st.
Proof.
  intros Hv E Hcg Hlt. unfold with_stipend, stipend in *. rewrite E in *. cbn [default from_option id] in *.
  rewrite U256_small by done. unfold CallStipend. destruct (v =? 0); cbn [negb]; rewrite big_Uint64_small by lia; [lia|].
  rewrite u64_small; lia.
Qed.

Lemma opCall_ok : call_exec_ok (opCall cs) 7 memoryCall stipend /\ call_exec_ok (opCallCode cs) 7 memoryCall stipend.
Proof.
  split; intros e f cg He Hf Hl Hr E0 Hcg HN Hgas; unfold opCall, opCallCode; pose proof (fr_stack f Hf) as Hs;
    (destruct (stack f) as [|g [|a [|v [|io [|isz [|ro [|rs s] ] ] ] ] ] ] eqn:Es; [simpl in Hl; lia..|]);
    injection E0 as ->; rewrite !Forall_cons in Hs; destruct Hs as (Hg & Ha & Hv & Hio & His & Hro & Hrs & Hs);
    (destruct (roomy_two 5 6 3 4 f ro rs io isz) as [F1 F2]; [by rewrite Es..|done|]); cbv zeta;
    (destruct (mem_Get_ok (memory f) io isz) as (args & -> & Hargs & _); [apply Hf|done..|]); rewrite or_panic_bind;
    pose proof (co_gas _ (fr_contract f Hf));
    rewrite (with_stipend_ok cg v (cg :: a :: v :: io :: isz :: ro :: rs :: s)) by (done || lia);
    set (gas := cg + stipend _) in *;
    assert (0 <= gas) by (subst gas; unfold stipend; case_match; lia).
  - destruct (ca_Call cs N cs_ok e (contract f) (BigToAddress a) args gas (U256 v)) as (ret & lft & err & e' & -> & Hcalled);
      [done|apply Hf|apply BigToAddress_ok|done|lia|apply U256_word|]. rewrite ok_bind.
    destruct (end_call_ok e f s ro rs gas ret lft err e') as (f3 & -> & Hf3 & Hl3 & Hg3); [done..|lia|].
    eexists _, _, _, f3. split; [done|]. split; [apply Hcalled|]. split; [apply Hcalled|]. split; [done|].
    rewrite Hl3. cbn [length]. split; lia.
  - destruct (ca_CallCode cs N cs_ok e (contract f) (BigToAddress a) args gas (U256 v)) as (ret & lft & err & e' & -> & Hcalled);
      [done|apply Hf|apply BigToAddress_ok|done|lia|apply U256_word|]. rewrite ok_bind.
    destruct (end_call_ok e f s ro rs gas ret lft err e') as (f3 & -> & Hf3 & Hl3 & Hg3); [done..|lia|].
    eexists _, _, _, f3. split; [done|]. split; [apply Hcalled|]. split; [apply Hcalled|]. split; [done|].
    rewrite Hl3. cbn [length]. split; lia.
Qed.

Lemma opDelegateCall_ok :
  call_exec_ok (opDelegateCall cs) 6 memoryDelegateCall no_stipend /\ call_exec_ok (opStaticCall cs) 6 memoryStaticCall no_stipend.
Proof.
  split; intros e f cg He Hf Hl Hr E0 Hcg HN Hgas; unfold opDelegateCall, opStaticCall, no_stipend in *; pose proof (fr_stack f Hf) as Hs;
    (destruct (stack f) as [|g [|a [|io [|isz [|ro [|rs s] ] ] ] ] ] eqn:Es; [simpl in Hl; lia..|]);
    injection E0 as ->; rewrite !Forall_cons in Hs; destruct Hs as (Hg & Ha & Hio & His & Hro & Hrs & Hs);
    (destruct (roomy_two 4 5 2 3 f ro rs io isz) as [F1 F2]; [by rewrite Es..|done|]); cbv zeta;
    (destruct (mem_Get_ok (memory f) io isz) as (args & -> & Hargs & _); [apply Hf|done..|]); rewrite or_panic_bind;
    pose proof (co_gas _ (fr_contract f Hf)); rewrite (big_Uint64_small cg) by lia.
  - destruct (ca_DelegateCall cs N cs_ok e (contract f) (BigToAddress a) args cg) as (ret & lft & err & e' & -> & Hcalled);
      [done|apply Hf|apply BigToAddress_ok|done|lia|]. rewrite ok_bind.
    destruct (end_call_ok e f s ro rs cg ret lft err e') as (f3 & -> & Hf3 & Hl3 & Hg3); [done..|lia|].
    eexists _, _, _, f3. split; [done|]. split; [apply Hcalled|]. split; [apply Hcalled|]. split; [done|].
    rewrite Hl3. cbn [length]. split; lia.
  - destruct (ca_StaticCall cs N cs_ok e (contract f) (BigToAddress a) args cg) as (ret & lft & err & e' & -> & Hcalled);
      [done|apply Hf|apply BigToAddress_ok|done|lia|]. rewrite ok_bind.
    destruct (end_call_ok e f s ro rs cg ret lft err e') as (f3 & -> & Hf3 & Hl3 & Hg3); [done..|lia|].
    eexists _, _, _, f3. split; [done|]. split; [apply Hcalled|]. split; [apply Hcalled|]. split; [done|].
    rewrite Hl3. cbn [length]. split; lia.
Qed.

Lemma opCreate_ok : exec_ok (opCreate env cs) 3 1 (fun f => roomy memoryCreate f /\ Gas (contract f) < N).
Proof.
  intros e f He Hf Hl [Hr HN]. unfold opCreate. pose proof (fr_stack f Hf) as Hs.
  destruct (stack f) as [|v [|o [|n s] ] ] eqn:Es; [simpl in Hl; lia..|].
  rewrite !Forall_cons in Hs. destruct Hs as (Hv & Ho & Hn & Hs).
  destruct (mem_Get_ok (memory f) o n) as (d & -> & Hd & _); [apply Hf|done|done|by eapply (roomy_fits 1 2)|].
  rewrite or_panic_bind. cbv zeta. pose proof (co_gas _ (fr_contract f Hf)) as Hg.
  set (gas := if is_eip150 env then _ else _).
  assert (0 <= gas <= Gas (contract f)) as Hgas.
  { subst gas. case_match; [|lia]. pose proof (Z.div_pos (Gas (contract f)) 64 ltac:(lia) ltac:(lia)).
    pose proof (Z.div_le_upper_bound (Gas (contract f)) 64 (Gas (contract f)) ltac:(lia) ltac:(lia)).
    rewrite u64_small; lia. }
  unfold UseGas. rewrite (proj2 (Z.ltb_ge (Gas (contract f)) gas)) by lia. cbn [snd]. rewrite u64_small by lia.
  set (c := set_gas (contract f) _). assert (contract_ok c) as Hc by (apply contract_gas; [apply Hf|lia]).
  destruct (ca_Create cs N cs_ok e c d gas v) as (ret & addr & lft & err & e' & -> & (Hm & Hb & Hle) & Ha); [done..|lia|done|].
  rewrite ok_bind. eexists _, _, _, _. split; [done|]. split; [done|].
  split; [case_match; [done|apply blob_nil]|]. subst c. simpl in *.
  split; [|split; [rewrite u64_small by lia; lia|simpl; lia]].
  apply frame_contract; [|rewrite u64_small by lia; apply contract_gas; [done|lia]|apply Hf].
  apply frame_stack; [done|]. constructor; [|done]. repeat case_match; auto with vm.
Qed.

Lemma call_op_intro o op (pop : nat) ms stip base :
  validateStack o = makeStackFunc (Z.of_nat pop) 1 -> (0 < pop)%nat ->
  call_gas_ok (gasCost o) pop base -> call_exec_ok (execute o) pop ms stip ->
  memorySize o = Some ms -> ms_total ms pop ->
  (forall st x, ms (<[0%nat := x]> st) = ms st /\ stip (<[0%nat := x]> st) = stip st) ->
  (forall st, 0 <= stip st < base st) -> op_ok N o op.
Proof.
  intros Hv Hpop Hg Hx Em Hms Hins Hstip e f He Hf HN Hlen Hon Hval. rewrite Hv in Hval.
  apply makeStackFunc_None in Hval as [V1 V2].
  destruct (memory_needed_ok o (stack f) ms pop Em Hms) as (v & n & Ev & En & Hn); [lia|apply Hf|].
  exists n. split; [done|]. intros size Hsize. destruct (Hn size Hsize) as [Hs1 Hs2].
  destruct (Hg e f size He Hf) as (cost & e1 & f1 & Eg & Hmv & Hf1 & Hc1 & Hc); [lia|lia|].
  pose proof (Hstip (stack f)) as Hst. pose proof (co_gas _ (fr_contract f Hf)) as Hgas.
  destruct (charge_ok o e f size cost e1 f1 Eg Hf1 Hc1) as (ok & f2 & Ec & Hf2 & Hle & Hok).
  { intros g ->. destruct (Hc g eq_refl) as (_ & cg & _ & ? & ?). lia. }
  exists ok, e1, f2. split; [done|]. split; [done|]. split; [done|]. split; [done|]. intros ->.
  destruct (Hok eq_refl) as (g & -> & Hgle & Ef2). destruct (Hc g eq_refl) as (Hmax & cg & Est & Hcg & Hb).
  destruct (frame_resized f2 size Hf2) as (Hfr & Hl & Es & Ecn & Ep); [lia|].
  assert (stack (resized f2 size) = <[0%nat := cg]> (stack f)) as Est2 by (rewrite Es; subst f2; done).
  destruct (Hins (stack f) cg) as [I1 I2].
  assert (Gas (contract (resized f2 size)) = Gas (contract f) - g) as Eg2 by (rewrite Ecn; subst f2; done).
  destruct (Hx e1 (resized f2 size) cg) as (res & err & e3 & f3 & Ex & Hm3 & Hb3 & Hf3 & Hl3 & Hg3).
  { apply Hmv. } { done. } { rewrite Est2, length_insert. lia. }
  { intros v' E'. rewrite Est2, I1, Ev in E'. injection E' as <-. lia. }
  { rewrite Est2. apply list_lookup_insert_eq. lia. } { done. } { rewrite Est2, I2. lia. } { rewrite Est2, I2, Eg2. lia. }
  rewrite Est2, length_insert in Hl3. rewrite Est2, I2, Eg2 in Hg3.
  exists res, err, e3, f3. split; [done|]. split; [done|]. split; [done|]. split; [done|]. split; [lia|]. split; [lia|].
  intros _ _. lia.
Qed.

Lemma lookup_top (st : list Z) i x : (0 < i)%nat -> (<[0%nat := x]> st) !! i = st !! i.
Proof. intros Hi. apply list_lookup_insert_ne. lia. Qed.

Lemma stipend_top st x : stipend (<[0%nat := x]> st) = stipend st.
Proof. unfold stipend. by rewrite lookup_top by lia. Qed.

Lemma mem_two_top o1 l1 o2 l2 st x :
  (0 < o1)%nat -> (0 < l1)%nat -> (0 < o2)%nat -> (0 < l2)%nat ->
  mem_two o1 l1 o2 l2 (<[0%nat := x]> st) = mem_two o1 l1 o2 l2 st.
Proof. intros. unfold mem_two, mem_size, Back. by rewrite !lookup_top. Qed.

(** ** The jump table *)

Definition valid_op (op : OpCode) : Prop :=
  match op with
  | PUSH n => (1 <= n <= 32)%nat
  | DUP n => (1 <= n <= 16)%nat
  | SWAP n => (1 <= n <= 16)%nat
  | LOG n => (n <= 4)%nat
  | _ => True
  end.

Lemma OpCode_of_valid b op : OpCode_of b = Some op -> valid_op op.
Proof.
  unfold OpCode_of. destruct (List.find _ opcodes) as [ [x y]|] eqn:E; [|done]. intros [= <-].
  apply List.find_some in E as [E _]. assert (Forall (fun p => valid_op p.2) opcodes) as H.
  { unfold opcodes, opcodes_from. simpl. repeat constructor; simpl; lia. }
  rewrite Forall_forall in H. by apply (H (x, y)), list_elem_of_In.
Qed.

Lemma gas_ok_weaken G p q low low' : gas_ok G p low -> (p <= q)%nat -> low' <= low -> gas_ok G q low'.
Proof.
  intros HG Hp Hl e f size He Hf Hq Hs. destruct (HG e f size He Hf) as (cost & e1 & m1 & E & Hm & Hst & Hc); [lia|done|].
  exists cost, e1, m1. split; [done|]. split; [done|]. split; [done|]. intros g Hg. destruct (Hc g Hg). lia.
Qed.

Ltac op_side := first [done | lia | by left | by right; left | by right; right | by intros ? ?; exact I | idtac].

(** An operation without memory that does not end the run. *)
Lemma plain_ok x g zp zq op (p pop push : nat) low :
  exec_ok x pop push anywhere -> zp = Z.of_nat pop -> zq = Z.of_nat push ->
  gas_ok g p low -> (p <= pop)%nat -> 1 <= low -> op_ok N (plain x g zp zq) op.
Proof.
  intros Hx -> -> Hg Hp Hl. apply (op_intro N _ _ pop push low anywhere); op_side.
  eapply gas_ok_weaken; [done|done|lia].
Qed.

Lemma const_op_ok x zp zq op (pop push : nat) n :
  exec_ok x pop push anywhere -> zp = Z.of_nat pop -> zq = Z.of_nat push -> 1 <= n < 2 ^ 64 ->
  op_ok N (plain x (constGasFunc n) zp zq) op.
Proof. intros Hx Ep Eq Hn. apply (plain_ok _ _ _ _ _ 0 pop push n); try done; [apply constGas_ok; lia|lia|lia]. Qed.

(** An operation with memory that does not end the run. *)
Lemma mem_op_ok x g zp zq op (p pop push : nat) low ms :
  exec_ok x pop push (roomy ms) -> zp = Z.of_nat pop -> zq = Z.of_nat push ->
  gas_ok g p low /\ gas_mem g -> (p <= pop)%nat -> 1 <= low -> ms_total ms pop ->
  op_ok N (with_mem (plain x g zp zq) ms) op.
Proof.
  intros Hx -> -> [Hg Hm] Hp Hl Hms. apply (op_intro N _ _ pop push low (roomy ms)); op_side.
  eapply gas_ok_weaken; [done|done|lia].
Qed.

Ltac const_op := eapply const_op_ok; [eassumption|reflexivity|reflexivity|unfold GasQuickStep, GasFastestStep,
  GasFastStep, GasMidStep, GasSlowStep, GasExtStep, JumpdestGas; lia].
Ltac by_size := first [apply mem_size_total; lia | apply mem_const_total; lia | apply mem_two_total; lia].

Lemma frontier_ok op o : valid_op op -> frontierInstructionSet env cs op = Some o -> op_ok N o op.
Proof.
  intros Hop. pose proof arithmetic_ok as Ha. pose proof readings_ok as Hr. pose proof opSignExtend_ok.
  pose proof opPop_ok. pose proof opBalance_ok. pose proof opExtCodeSize_ok. pose proof opCallDataLoad_ok.
  pose proof opBlockhash_ok. pose proof opJump_ok. pose proof opJumpi_ok. pose proof nothing_ok as [Hjd Hstop].
  destruct_and! Ha. destruct_and! Hr. pose proof table_gas_ok as (Hgb & Hgs & Hgl). pose proof gt_range.
  destruct op; intros [= <-]; try const_op; try (eapply plain_ok; [eassumption|done|done|eassumption|lia|lia]).
  - (* STOP *) apply (op_intro N _ _ 0 0 0 anywhere); op_side. apply constGas_ok; lia.
  - eapply plain_ok; [eassumption|done|done|apply gasExp_ok|lia|lia].
  - eapply mem_op_ok; [apply opSha3_ok|done|done|apply gas_words_ok; by unfold Sha3Gas, Sha3WordGas|lia|by unfold Sha3Gas|by_size].
  - eapply mem_op_ok; [apply copies_ok|done|done|by apply gas_words_ok|lia|by unfold GasFastestStep|by_size].
  - eapply mem_op_ok; [apply copies_ok|done|done|by apply gas_words_ok|lia|by unfold GasFastestStep|by_size].
  - assert (gas_ok gasExtCodeCopy 4 (ExtcodeCopy gt) /\ gas_mem gasExtCodeCopy) as HG
      by (destruct (gas_words_ok (ExtcodeCopy gt) CopyGas 3) as [G1 G2]; [lia|done|]; split; [exact G1|exact G2]).
    eapply mem_op_ok; [apply opExtCodeCopy_ok|done|done|exact HG|lia|lia|by_size].
  - eapply mem_op_ok; [apply opMload_ok|done|done|by apply gas_plus_ok|lia|by unfold GasFastestStep|by_size].
  - eapply mem_op_ok; [apply opMstore_ok|done|done|by apply gas_plus_ok|lia|by unfold GasFastestStep|by_size].
  - eapply mem_op_ok; [apply opMstore8_ok|done|done|by apply gas_plus_ok|lia|by unfold GasFastestStep|by_size].
  - eapply plain_ok; [apply opSload_ok|done|done|eassumption|lia|lia].
  - apply (op_intro N _ _ 2 0 1 anywhere); op_side; [apply gasSStore_ok|apply opSstore_ok].
  - simpl in Hop. apply (op_intro N _ _ 0 1 GasFastestStep on_code); op_side;
      [by apply constGas_ok|apply makePush_ok; lia|]. by intros f [?|?].
  - simpl in Hop. apply (op_intro N _ _ n (n + 1) GasFastestStep anywhere); op_side;
      [by rewrite Nat2Z.inj_add|eapply gas_ok_weaken; [by apply constGas_ok|lia|done]|apply makeDup_ok; lia].
  - simpl in Hop. apply (op_intro N _ _ (n + 1) (n + 1) GasFastestStep anywhere); op_side;
      [by rewrite Nat2Z.inj_add|eapply gas_ok_weaken; [by apply constGas_ok|lia|done]|apply makeSwap_ok].
  - simpl in Hop. destruct (makeGasLog_ok n Hop) as [G1 G2].
    apply (op_intro N _ _ (n + 2) 0 1 (roomy memoryLog)); op_side;
      [by rewrite Nat2Z.inj_add|eapply gas_ok_weaken; [done|lia|done]|apply makeLog_ok|].
    split; [done|]. split; [done|]. by_size.
  - destruct (gas_plus_ok CreateGas) as [G1 G2]; [done|].
    apply (op_intro N _ _ 3 1 CreateGas (fun f => roomy memoryCreate f /\ Gas (contract f) < N)); op_side;
      [eapply gas_ok_weaken; [done|lia|done]|apply opCreate_ok|].
    split; [done|]. split; [|by_size]. intros f Hf Hg. split; [done|]. unfold CreateGas in Hg. lia.
  - apply (call_op_intro _ _ 7 memoryCall stipend call_base); try done; [lia|apply gasCall_ok|apply opCall_ok|by_size| |].
    + intros st x. split; [by apply mem_two_top; lia|apply stipend_top].
    + intros st. unfold stipend, call_base. case_match; lia.
  - apply (call_op_intro _ _ 7 memoryCall stipend call_base); try done; [lia|apply gasCallCode_ok|apply opCall_ok|by_size| |].
    + intros st x. split; [by apply mem_two_top; lia|apply stipend_top].
    + intros st. unfold stipend, call_base. case_match; lia.
  - destruct gasReturn_ok as [G1 G2]. apply (op_intro N _ _ 2 0 0 (roomy memoryReturn)); op_side;
      [eapply gas_ok_weaken; [done|lia|done]|apply opReturn_ok|]. split; [done|]. split; [done|]. by_size.
  - apply (op_intro N _ _ 1 0 0 anywhere); op_side; [apply gasSuicide_ok|apply opSuicide_ok].
Qed.

Lemma homestead_ok op o : valid_op op -> homesteadInstructionSet env cs op = Some o -> op_ok N o op.
Proof.
  intros Hop Ho. destruct op; try (by apply frontier_ok). injection Ho as <-.
  apply (call_op_intro _ _ 6 memoryDelegateCall no_stipend (fun _ => 40)); try done;
    [lia|apply gasOtherCall_ok|apply opDelegateCall_ok|by_size|].
  intros st x. split; [by apply mem_two_top; lia|done].
Qed.

Lemma byzantium_ok op o : valid_op op -> byzantiumInstructionSet env cs op = Some o -> op_ok N o op.
Proof.
  intros Hop Ho. pose proof readings_ok as Hr. destruct_and! Hr.
  destruct op; try (by apply homestead_ok); injection Ho as <-.
  - const_op.
  - eapply mem_op_ok; [apply opReturnDataCopy_ok|done|done|by apply gas_words_ok|lia|by unfold GasFastestStep|by_size].
  - apply (call_op_intro _ _ 6 memoryStaticCall no_stipend (fun _ => 40)); try done;
      [lia|apply gasOtherCall_ok|apply opDelegateCall_ok|by_size|].
    intros st x. split; [by apply mem_two_top; lia|done].
  - destruct gasReturn_ok as [G1 G2]. apply (op_intro N _ _ 2 0 0 (roomy memoryRevert)); op_side;
      [eapply gas_ok_weaken; [done|lia|done]|apply opReturn_ok|]. split; [done|]. split; [done|]. by_size.
Qed.

Lemma jump_table_ok op o : valid_op op -> jump_table env cs op = Some o -> op_ok N o op.
Proof. unfold jump_table. repeat case_match; [apply byzantium_ok|apply homestead_ok|apply frontier_ok]. Qed.

End CallOps.

(** ** Running code *)

(** The loop returns for every frame with less than [N] gas. *)
Definition loop_ok (L : Loop) (N : Z) : Prop :=
  forall e f, evm_ok e -> frame_ok f -> (length (stack f) <= 1024)%nat -> Gas (contract f) < N ->
  exists ret err e' f', L e f = Ok (ret, err, e', f') /\ moved e e' /\ blob ret /\ frame_ok f' /\
    Gas (contract f') <= Gas (contract f).

Section Run.
Context (N : Z) (L : Loop) (N_small : N <= 2 ^ 36) (L_ok : loop_ok L N).

Lemma Run_ok e c input :
  evm_ok e -> contract_ok c -> blob input -> Gas c < N ->
  exists ret err e' c', Run L e c input = Ok (ret, err, e', c') /\ moved e e' /\ blob ret /\ contract_ok c' /\ Gas c' <= Gas c.
Proof.
  intros He Hc Hi Hg. unfold Run. cbv zeta. set (e1 := set_returnData _ _).
  assert (evm_ok e1) as He1 by (destruct He; constructor; try done; apply blob_nil).
  destruct (Nat.eqb_spec (length (Code c)) 0) as [E|E].
  - eexists _, _, _, c. split; [done|]. split; [|split; [apply blob_nil|done]].
    constructor; [by destruct He1|apply later_refl|done|done].
  - destruct (L_ok e1 (mkFrame 0 [] (mkMemory [] 0) (set_input c input))) as (ret & err & e2 & f2 & -> & Hm & Hr & Hf2 & Hle).
    { done. } { constructor; [constructor|apply blob_nil|by destruct Hc|by intros E0; apply E; cbn in E0; rewrite E0|simpl; lia]. }
    { simpl. lia. } { done. }
    rewrite ok_bind. eexists _, _, _, _. split; [done|]. split; [|split; [done|split; [apply Hf2|done]]].
    destruct Hm as [Hok Hl Hd Hs]. constructor; [by destruct Hok|done|done|done].
Qed.

Lemma run_ok e c input :
  evm_ok e -> contract_ok c -> blob input -> Gas c < N ->
  exists ret err e' c', run env L e c input = Ok (ret, err, e', c') /\ moved e e' /\ blob ret /\ contract_ok c' /\ Gas c' <= Gas c.
Proof.
  intros He Hc Hi Hg. unfold run. destruct (CodeAddr c ≫= precompiled _) as [p|] eqn:E; [|by apply Run_ok].
  destruct (CodeAddr c) as [a|]; [|done]. rewrite some_bind in E.
  destruct (precompiled_ok _ _ _ input E Hi) as (Hg0 & Hrun & _). pose proof (co_gas c Hc) as Hgas.
  unfold RunPrecompiledContract, UseGas. destruct (Z.ltb_spec (Gas c) (RequiredGas p input)).
  - rewrite or_panic_bind. eexists _, _, e, c. split; [done|]. split; [by apply moved_refl|]. split; [apply blob_nil|done].
  - destruct Hrun as (ret & err & -> & Hr); [lia|]. rewrite some_bind, or_panic_bind, u64_small by lia.
    eexists _, _, e, _. split; [done|]. split; [by apply moved_refl|]. split; [done|].
    split; [apply contract_gas; [done|lia]|simpl; lia].
Qed.

(** The machine after a snapshot, and what reverting to it gives. *)
Lemma snapshot_ok e id d :
  evm_ok e -> db_Snapshot (StateDB e) = (id, d) ->
  moved e (set_db e d) /\ same (StateDB e) d /\
  forall e2, evm_ok e2 -> later d (StateDB e2) ->
    exists d3, db_RevertToSnapshot (StateDB e2) id = Some d3 /\ reads (StateDB e) d3.
Proof.
  intros He E. destruct (ok_Snapshot _ _ _ (ev_db e He) E) as [Hr Hback]. split; [by apply moved_reads|].
  split; [apply Hr|]. intros e2 He2 Hl. apply Hback; [apply He2|done].
Qed.

(** Back to the state [d] after running in [e2]. *)
Lemma reverted e e2 d3 :
  evm_ok e -> moved e e2 -> reads (StateDB e) d3 -> moved e (set_db e2 d3) /\ same (StateDB e) d3.
Proof.
  intros He [[Hd Hf Hc Hr] Hl Hdp Hs] (H1 & H2 & H3). split; [|done]. constructor; [|done|done|done].
  constructor; [done| |done|done]. eapply reads_funds; [|apply He]. done.
Qed.

Lemma UseGas_all c : contract_ok c -> contract_ok (UseGas c (Gas c)).2 /\ Gas (UseGas c (Gas c)).2 = 0.
Proof.
  intros Hc. unfold UseGas. rewrite (proj2 (Z.ltb_ge (Gas c) (Gas c))) by lia. cbn [snd]. rewrite Z.sub_diag.
  split; [|done]. apply contract_gas; [done|]. change (u64 0) with 0. lia.
Qed.

(** The common end of the calls: from [e], through a snapshot [id], [d1] and
    the machine [e1] the code starts in. *)
Lemma end_run_ok e id d1 e1 c input :
  evm_ok e -> db_Snapshot (StateDB e) = (id, d1) -> moved e e1 -> later d1 (StateDB e1) ->
  contract_ok c -> blob input -> Gas c < N ->
  exists ret left_ err e', (r ← run env L e1 c input; end_run id r) = Ok (ret, left_, err, e') /\
    called e (Gas c) ret left_ e' /\ (err <> None -> same (StateDB e) (StateDB e')).
Proof.
  intros He Es Hm1 Hl1 Hc Hi Hg. destruct (snapshot_ok e id d1 He Es) as (_ & _ & Hback).
  destruct (run_ok e1 c input (mv_ok _ _ Hm1) Hc Hi Hg) as (ret & err & e2 & c2 & -> & Hm2 & Hr & Hc2 & Hle).
  rewrite ok_bind. unfold end_run. pose proof (co_gas c2 Hc2). pose proof (vm_moved_trans _ _ _ Hm1 Hm2) as Hm.
  destruct err as [er|].
  - destruct (Hback e2) as (d3 & -> & Hrd); [apply Hm2|eapply later_trans; [done|apply Hm2]|]. rewrite or_panic_bind.
    destruct (reverted e e2 d3 He Hm Hrd) as [Hm3 Hsame]. destruct (UseGas_all c2 Hc2) as [_ E0].
    eexists _, _, _, _. split; [done|]. split; [|done]. split; [done|]. split; [done|]. case_match; rewrite ?E0; lia.
  - eexists _, _, _, _. split; [done|]. split; [|done]. split; [done|]. split; [done|]. lia.
Qed.

(** A contract before its code is loaded. *)
Record shell_ok c : Prop := mk_shell_ok {
  sh_caller : addr_ok (CallerAddress c);
  sh_self : addr_ok (self c);
  sh_input : blob (Input c);
  sh_gas : 0 <= Gas c < 2 ^ 36;
  sh_value : word (cvalue c)
}.

Lemma load_code_ok e c a c' e' :
  evm_ok e -> shell_ok c -> load_code e c a = (c', e') ->
  moved e e' /\ same (StateDB e) (StateDB e') /\ contract_ok c' /\ Gas c' = Gas c.
Proof.
  intros He Hc. unfold load_code. destruct (db_GetCodeHash (StateDB e) a) as [h d] eqn:E1.
  destruct (ok_GetCodeHash _ _ _ _ (ev_db e He) E1) as [-> R1].
  destruct (db_GetCode d a) as [b d'] eqn:E2. destruct (ok_GetCode d a b d' ltac:(apply R1) E2) as [-> R2].
  intros [= <- <-]. pose proof (moved_reads e d He R1) as Hm1.
  assert (moved e (set_db e d')) as Hm.
  { eapply vm_moved_trans; [exact Hm1|]. apply (moved_reads (set_db e d)); [apply Hm1|done]. }
  split; [done|]. split; [transitivity d; [apply R1|apply R2]|]. split; [|done].
  destruct (same_code (StateDB e) d a ltac:(apply R1)) as [Ec Eh]. destruct (code_ok (StateDB e) a (ev_db e He)) as [Hb Hk].
  rewrite <-Ec. destruct Hc. by constructor.
Qed.

Definition ref_ok (r : ContractRef) : Prop :=
  match r with AccountRef a => addr_ok a | ContractCaller c => contract_ok c end.

Lemma ref_addr r : ref_ok r -> addr_ok (ref_Address r).
Proof. destruct r as [a|c]; [done|]. intros Hc. apply Hc. Qed.

Lemma NewContract_ok e r a v gas c e' :
  evm_ok e -> ref_ok r -> addr_ok a -> word v -> 0 <= gas < 2 ^ 36 -> NewContract e r a v gas = (c, e') ->
  moved e e' /\ StateDB e' = StateDB e /\ shell_ok c /\ Gas c = gas.
Proof.
  intros He Hr Ha Hv Hg [= <- <-]. split.
  - destruct r; [|by apply moved_refl]. constructor; [|apply later_refl|done|done]. by destruct He.
  - split; [by destruct r|]. split; [|done]. constructor; try done; [by apply ref_addr|apply blob_nil].
Qed.

Lemma moved_db e d : evm_ok e -> st_ok d -> later (StateDB e) d -> funds B (bal d) -> moved e (set_db e d).
Proof. intros []. by constructor. Qed.

Lemma CanTransfer_ok e a v can d :
  evm_ok e -> CanTransfer (StateDB e) a v = (can, d) ->
  moved e (set_db e d) /\ reads (StateDB e) d /\ (can = true -> v <= bal d a).
Proof.
  intros He. unfold CanTransfer. destruct (db_GetBalance (StateDB e) a) as [b d'] eqn:E.
  destruct (ok_GetBalance _ _ _ _ (ev_db e He) E) as [-> Hr]. intros [= <- <-]. split; [by apply moved_reads|].
  split; [done|]. intros Hle%Z.leb_le. by rewrite <-(same_bal (StateDB e)); [|apply Hr].
Qed.

(** What a call from [e] with some gas gives. *)
Definition call_ok e (gas : Z) (r : outcome out_of_fuel (list Z * Z * option vmerror * EVM)) : Prop :=
  exists ret left_ err e', r = Ok (ret, left_, err, e') /\ called e gas ret left_ e' /\
    (err <> None -> same (StateDB e) (StateDB e')).

(** A call that goes no further. *)
Lemma call_stops e e' gas err : moved e e' -> same (StateDB e) (StateDB e') -> 0 <= gas -> call_ok e gas (Ok ([], gas, err, e')).
Proof. intros Hm Hs Hg. eexists _, _, _, _. split; [done|]. split; [|done]. split; [done|]. split; [apply blob_nil|lia]. Qed.

Lemma call_after e e1 gas r : moved e e1 -> same (StateDB e) (StateDB e1) -> call_ok e1 gas r -> call_ok e gas r.
Proof.
  intros Hm Hs (ret & l & err & e' & -> & (Hm1 & Hr) & Hs1). eexists _, _, _, _. split; [done|].
  split; [split; [by eapply vm_moved_trans|done]|]. intros Herr. transitivity (StateDB e1); [done|by apply Hs1].
Qed.

(** From the snapshot of [e] through the loading of the code to the end. *)
Lemma enter_ok e id d1 e1 c a input :
  evm_ok e -> db_Snapshot (StateDB e) = (id, d1) -> moved e e1 -> later d1 (StateDB e1) ->
  shell_ok c -> blob input -> Gas c < N ->
  call_ok e (Gas c) (let '(c, e) := load_code e1 c a in r ← run env L e c input; end_run id r).
Proof.
  intros He Es Hm1 Hl1 Hc Hi Hg. destruct (load_code e1 c a) as [c2 e2] eqn:E.
  destruct (load_code_ok _ _ _ _ _ (mv_ok _ _ Hm1) Hc E) as (Hm2 & _ & Hc2 & Hg2).
  rewrite <-Hg2 in Hg |- *. apply (end_run_ok e id d1 e2 c2 input); [done|done|by eapply vm_moved_trans| |done|done|lia].
  eapply later_trans; [done|apply Hm2].
Qed.

Ltac call_guards e He :=
  destruct (no_recursion env e); [apply call_stops; [by apply moved_refl|done|lia]|];
  destruct (too_deep e); [apply call_stops; [by apply moved_refl|done|lia]|].

Lemma CallCode_ok e c a input gas v :
  evm_ok e -> contract_ok c -> blob input -> 0 <= gas < N -> word v -> call_ok e gas (CallCode env L e c a input gas v).
Proof.
  intros He Hc Hi Hg Hv. unfold CallCode. call_guards e He.
  destruct (CanTransfer _ _ _) as [can d] eqn:E1. destruct (CanTransfer_ok e _ _ _ _ He E1) as (Hm1 & Hr1 & _).
  destruct can; cbn [negb]; [|apply call_stops; [done|apply Hr1|lia]].
  destruct (db_Snapshot _) as [id d1] eqn:E2. destruct (snapshot_ok _ _ _ (mv_ok _ _ Hm1) E2) as (Hm2 & _ & _).
  assert (0 <= gas < 2 ^ 36) as Hg' by lia. destruct (NewContract _ _ _ _ _) as [c1 e1] eqn:E3.
  destruct (NewContract_ok _ (ContractCaller c) _ _ _ _ _ (mv_ok _ _ Hm2) Hc (co_self c Hc) Hv Hg' E3) as (Hm3 & Ed3 & Hc1 & Hg1);
    subst gas.
  eapply call_after; [exact Hm1|apply Hr1|]. apply (enter_ok _ id d1);
    [apply Hm1|done|by eapply vm_moved_trans|rewrite Ed3; apply later_refl|done|done|lia].
Qed.

Lemma AsDelegate_ok parent c : contract_ok parent -> shell_ok c -> shell_ok (AsDelegate parent c).
Proof. intros [] []. by constructor. Qed.

Lemma DelegateCall_ok e c a input gas :
  evm_ok e -> contract_ok c -> blob input -> 0 <= gas < N -> call_ok e gas (DelegateCall env L e c a input gas).
Proof.
  intros He Hc Hi Hg. unfold DelegateCall. call_guards e He.
  destruct (db_Snapshot _) as [id d1] eqn:E2. destruct (snapshot_ok _ _ _ He E2) as (Hm2 & _ & _).
  assert (0 <= gas < 2 ^ 36) as Hg' by lia. destruct (NewContract _ _ _ _ _) as [c1 e1] eqn:E3.
  destruct (NewContract_ok _ (ContractCaller c) _ _ _ _ _ (mv_ok _ _ Hm2) Hc (co_self c Hc) word_0 Hg' E3) as (Hm3 & Ed3 & Hc1 & Hg1);
    subst gas.
  apply (enter_ok _ id d1 e1 (AsDelegate c c1)); [done|done|by eapply vm_moved_trans|rewrite Ed3; apply later_refl|by apply AsDelegate_ok|done|simpl; lia].
Qed.

Lemma static_ok e b : evm_ok e -> evm_ok (set_readOnly e b).
Proof. intros []. by constructor. Qed.

Lemma StaticCall_ok e c a input gas :
  evm_ok e -> contract_ok c -> addr_ok a -> blob input -> 0 <= gas < N -> call_ok e gas (StaticCall env L e c a input gas).
Proof.
  intros He Hc Ha Hi Hg. unfold StaticCall. call_guards e He. cbv zeta. pose proof (static_ok e true He) as Hes.
  destruct (db_Snapshot _) as [id d1] eqn:E2. destruct (snapshot_ok _ _ _ Hes E2) as (Hm2 & _ & _).
  assert (0 <= gas < 2 ^ 36) as Hg' by lia. destruct (NewContract _ _ _ _ _) as [c1 e1] eqn:E3.
  destruct (NewContract_ok _ (ContractCaller c) _ _ _ _ _ (mv_ok _ _ Hm2) Hc Ha word_0 Hg' E3) as (Hm3 & Ed3 & Hc1 & Hg1);
    subst gas.
  destruct (enter_ok (set_readOnly e true) id d1 e1 c1 a input) as (ret & l & err & e' & E & (Hm5 & Hr5) & Hs5);
    [done|done|by eapply vm_moved_trans|rewrite Ed3; apply later_refl|done|done|lia|].
  destruct (load_code e1 c1 a) as [c2 e2]. destruct (run env L e2 c2 input) as [r| |]; try done.
  rewrite ok_bind in E |- *. rewrite E, ok_bind. eexists _, _, _, _. split; [done|]. split; [|done].
  split; [|done]. destruct Hm5. constructor; [by apply static_ok|done|done|done].
Qed.

(** A transfer the sender can pay, with the recipient made if need be. *)
Lemma paid e s r v d :
  evm_ok e -> quiet (StateDB e) d -> 0 <= v <= bal (StateDB e) s -> moved e (set_db e (Transfer d s r v)).
Proof.
  intros He (H1 & H2 & H3) Hv. destruct (Transfer_ok B d s r v H1) as (H4 & H5 & H6).
  - eapply quiet_funds; [|apply He]. done.
  - by rewrite H3.
  - apply moved_db; [done|done|by eapply later_trans|done].
Qed.

Lemma reads_quiet d d' : reads d d' -> quiet d d'.
Proof. intros (H1 & H2 & H3). split; [done|]. split; [done|]. intros a. symmetry. by apply same_bal. Qed.

Lemma quiet_trans d1 d2 d3 : quiet d1 d2 -> quiet d2 d3 -> quiet d1 d3.
Proof. intros (H1 & H2 & H3) (H4 & H5 & H6). split; [done|]. split; [by eapply later_trans|]. intros a. by rewrite H6, H3. Qed.

Lemma Call_ok e r a input gas v :
  evm_ok e -> ref_ok r -> addr_ok a -> blob input -> 0 <= gas < N -> word v -> call_ok e gas (Call env L e r a input gas v).
Proof.
  intros He Hrf Ha Hi Hg Hv. unfold Call. call_guards e He.
  destruct (CanTransfer _ _ _) as [can d] eqn:E1. destruct (CanTransfer_ok e _ _ _ _ He E1) as (Hm1 & Hr1 & Hcan).
  destruct can; cbn [negb]; [|apply call_stops; [done|apply Hr1|lia]].
  eapply call_after; [exact Hm1|apply Hr1|]. pose proof (mv_ok _ _ Hm1) as He1.
  destruct (db_Snapshot _) as [id d1] eqn:E2. destruct (ok_Snapshot _ _ _ (ev_db _ He1) E2) as [R2 _].
  destruct (db_Exist d1 a) as [ex d2] eqn:E3. destruct (ok_Exist _ _ _ _ ltac:(apply R2) E3) as [R3 _].
  assert (reads d d2) as R by (split; [apply R3|]; split; [eapply later_trans; [apply R2|apply R3]|transitivity d1; [apply R2|apply R3]]).
  case_match; [apply call_stops; [by apply (moved_reads (set_db e d))|apply R|lia]|].
  assert (quiet d2 (if ex then d2 else db_CreateAccount d2 a)) as Hq.
  { destruct ex; [|apply ok_CreateAccount; apply R]. split; [apply R|]. split; [apply later_refl|done]. }
  set (d3 := if ex then _ else _) in *. set (d4 := Transfer d3 _ _ _).
  assert (moved (set_db e d) (set_db e d4)) as Hm4.
  { apply (paid (set_db e d)); [done|eapply quiet_trans; [by apply reads_quiet|done]|]. split; [apply Hv|by apply Hcan]. }
  assert (later d1 d4) as Hl4.
  { destruct (paid (set_db e d2) (ref_Address r) a v d3) as [_ Hl _ _]; [by apply (moved_reads (set_db e d))|done| |].
    - split; [apply Hv|]. cbn [StateDB set_db]. rewrite <-(same_bal d) by apply R. by apply Hcan.
    - eapply later_trans; [apply R3|exact Hl]. }
  assert (0 <= gas < 2 ^ 36) as Hg' by lia. destruct (NewContract _ _ _ _ _) as [c1 e1] eqn:E4.
  destruct (NewContract_ok (set_db e d4) _ _ _ _ _ _ (mv_ok _ _ Hm4) Hrf Ha Hv Hg' E4) as (Hm5 & Ed5 & Hc1 & Hg1); subst gas.
  apply (enter_ok (set_db e d) id d1 e1 c1 a input); [done|done|by eapply vm_moved_trans|by rewrite Ed5|done|done|lia].
Qed.

Definition create_ok e (gas : Z) (r : outcome out_of_fuel (list Z * Address * Z * option vmerror * EVM)) : Prop :=
  exists ret addr left_ err e', r = Ok (ret, addr, left_, err, e') /\ called e gas ret left_ e' /\ addr_ok addr.

Lemma create_after e e1 gas r : moved e e1 -> create_ok e1 gas r -> create_ok e gas r.
Proof.
  intros Hm (ret & a & l & err & e' & -> & (Hm1 & Hr) & Ha). eexists _, _, _, _, _. split; [done|].
  split; [|done]. split; [by eapply vm_moved_trans|done].
Qed.

Lemma no_address : addr_ok (replicate vAddressLength 0).
Proof. split; [apply bytes_replicate_0|]. rewrite length_replicate. apply address_length. Qed.

Lemma create_stops e e' gas left_ a err : moved e e' -> 0 <= left_ <= gas -> addr_ok a -> create_ok e gas (Ok ([], a, left_, err, e')).
Proof. intros Hm Hg Ha. eexists _, _, _, _, _. split; [done|]. split; [|done]. split; [done|]. split; [apply blob_nil|done]. Qed.

(** Storing the code: the machine moves on and no gas comes back. *)
Lemma store_code_ok e c a ret err b :
  evm_ok e -> contract_ok c -> blob ret ->
  exists err' e' c',
    (if bool_decide (err = None) && negb b then
       let '(ok, c) := UseGas c (u64 (Z.of_nat (length ret) * CreateDataGas)) in
       if ok : bool then (None, set_db e (db_SetCode (StateDB e) a ret), c) else (Some ErrCodeStoreOutOfGas, e, c)
     else (err, e, c)) = (err', e', c') /\
    moved e e' /\ contract_ok c' /\ Gas c' <= Gas c.
Proof.
  intros He Hc Hr. pose proof (moved_refl e He). destruct (_ && _); [|by eexists _, _, _].
  unfold UseGas. set (g := u64 _). assert (0 <= g) by (apply Z.mod_pos_bound; lia). pose proof (co_gas c Hc).
  destruct (Z.ltb_spec (Gas c) g).
  - eexists _, _, _. split; [done|]. split; [done|]. split; [done|lia].
  - eexists _, _, _. split; [done|]. split; [apply moved_quiet; [done|]; apply ok_SetCode; [apply He|done]|].
    rewrite u64_small by lia. split; [apply contract_gas; [done|lia]|simpl; lia].
Qed.

Lemma end_create_ok e id d1 e2 c2 a ret err gas :
  evm_ok e -> db_Snapshot (StateDB e) = (id, d1) -> moved e e2 -> later d1 (StateDB e2) ->
  contract_ok c2 -> blob ret -> addr_ok a -> Gas c2 <= gas ->
  create_ok e gas (end_create env id a (ret, err, e2, c2)).
Proof.
  intros He Es Hm Hl Hc Hr Ha Hg. unfold end_create. cbv zeta. set (big := is_eip158 env && _).
  destruct (store_code_ok e2 c2 a ret err big) as (err' & e3 & c3 & -> & Hm3 & Hc3 & Hg3); [apply Hm|done|done|].
  pose proof (vm_moved_trans _ _ _ Hm Hm3) as Hm'. pose proof (co_gas c3 Hc3). destruct (_ || _).
  - destruct (snapshot_ok e id d1 He Es) as (_ & _ & Hback).
    destruct (Hback e3) as (d3 & -> & Hrd); [apply Hm3|eapply later_trans; [done|apply Hm3]|]. rewrite or_panic_bind.
    destruct (reverted e e3 d3 He Hm' Hrd) as [Hm4 _]. destruct (UseGas_all c3 Hc3) as [_ E0]. rewrite ok_bind.
    eexists _, _, _, _, _. split; [done|]. split; [|done]. split; [done|]. split; [done|]. case_match; rewrite ?E0; lia.
  - rewrite ok_bind. eexists _, _, _, _, _. split; [done|]. split; [|done]. split; [done|]. split; [done|]. lia.
Qed.

Lemma CreateAddress_ok b n : addr_ok (CreateAddress b n).
Proof. unfold CreateAddress. apply BytesTo_addr. apply Forall_drop. apply keccak_ok. Qed.

(** The account of a new contract, with its endowment. *)
Lemma new_account_ok e s a v d6 :
  evm_ok e -> quiet (StateDB e) d6 -> 0 <= v <= bal (StateDB e) s ->
  let d := db_CreateAccount d6 a in
  let d := if is_eip158 env then db_SetNonce d a 1 else d in
  moved e (set_db e (Transfer d s a v)) /\ later d6 (Transfer d s a v).
Proof.
  intros He Hq Hv d d'. assert (quiet d6 d) as Hq1 by (apply ok_CreateAccount, Hq).
  assert (quiet d6 d') as Hq2.
  { unfold d'. destruct (is_eip158 env); [|done]. eapply quiet_trans; [exact Hq1|]. apply ok_SetNonce, Hq1. }
  split; [apply paid; [done|by eapply quiet_trans|done]|]. pose proof (moved_quiet e d6 He Hq) as Hm.
  destruct (paid (set_db e d6) s a v d') as [_ Hl _ _]; [apply Hm|done| |done]. destruct Hq as (_ & _ & Hb).
  cbn [StateDB set_db]. by rewrite Hb.
Qed.

Lemma Create_ok e r code gas v :
  evm_ok e -> ref_ok r -> blob code -> 0 <= gas < N -> word v -> create_ok e gas (Create env L e r code gas v).
Proof.
  intros He Hrf Hi Hg Hv. unfold Create. cbv zeta.
  destruct (too_deep e); [apply create_stops; [by apply moved_refl|lia|apply no_address]|].
  destruct (CanTransfer _ _ _) as [can d0] eqn:E0. destruct (CanTransfer_ok e _ _ _ _ He E0) as (Hm0 & R0 & Hcan).
  destruct can; cbn [negb]; [|apply create_stops; [done|lia|apply no_address]].
  destruct (db_GetNonce d0 _) as [nonce d1] eqn:E1. destruct (ok_GetNonce _ _ _ _ ltac:(apply R0) E1) as [_ R1].
  set (a := CreateAddress _ _). set (d2 := db_SetNonce d1 _ _).
  assert (quiet d1 d2) as R2 by apply ok_SetNonce, R1.
  destruct (db_GetCodeHash d2 a) as [h d3] eqn:E3. destruct (ok_GetCodeHash _ _ _ _ ltac:(apply R2) E3) as [_ R3].
  destruct (db_GetNonce d3 a) as [n d4] eqn:E4. destruct (ok_GetNonce _ _ _ _ ltac:(apply R3) E4) as [_ R4].
  assert (quiet d0 d4) as Hq by (eapply quiet_trans; [by apply reads_quiet|]; eapply quiet_trans; [exact R2|]; eapply quiet_trans; by apply reads_quiet).
  assert (moved e (set_db e d4)) as Hm4 by (apply moved_quiet; [done|]; eapply quiet_trans; [by apply reads_quiet|done]).
  case_match; [apply create_stops; [done|lia|apply no_address]|]. eapply create_after; [exact Hm4|].
  destruct (db_Snapshot d4) as [id d5] eqn:E5. destruct (ok_Snapshot d4 id d5 ltac:(apply R4) E5) as [R5 _].
  destruct (new_account_ok (set_db e d4) (ref_Address r) a v d5) as [Hm7 Hl7]; [apply Hm4|by apply reads_quiet| |].
  { split; [apply Hv|]. destruct Hq as (_ & _ & Hb). cbn [StateDB set_db]. rewrite Hb. by apply Hcan. }
  set (d7 := Transfer _ _ _ _) in *. pose proof (CreateAddress_ok (ref_Address r) nonce) as Ha. fold a in Ha.
  assert (0 <= gas < 2 ^ 36) as Hg' by lia. destruct (NewContract _ _ _ _ _) as [c1 e1] eqn:E8.
  destruct (NewContract_ok (set_db e d7) _ _ _ _ _ _ (mv_ok _ _ Hm7) Hrf Ha Hv Hg' E8) as (Hm8 & Ed8 & Hc1 & Hg1).
  pose proof (vm_moved_trans _ _ _ Hm7 Hm8) as Hm. destruct (no_recursion env e1); [apply create_stops; [done|lia|done]|].
  destruct (run_ok e1 (SetCallCode c1 (Some a) (vKeccak256 code) code) []) as (ret & err & e9 & c9 & -> & Hm9 & Hr9 & Hc9 & Hg9).
  { apply Hm8. } { by destruct Hc1. } { apply blob_nil. } { simpl. lia. }
  rewrite ok_bind. apply (end_create_ok (set_db e d4) id d5); try done; [apply Hm4|by eapply vm_moved_trans| |].
  - eapply later_trans; [|apply Hm9]. by rewrite Ed8.
  - etransitivity; [exact Hg9|]. simpl. lia.
Qed.

Lemma callees_loop_ok : callees_ok (callees env L) N.
Proof.
  constructor; intros; cbn [to_Call to_CallCode to_DelegateCall to_StaticCall to_Create callees].
  - destruct (Call_ok e (ContractCaller c) a input gas v) as (? & ? & ? & ? & -> & ? & _); try done. by eexists _, _, _, _.
  - destruct (CallCode_ok e c a input gas v) as (? & ? & ? & ? & -> & ? & _); try done. by eexists _, _, _, _.
  - destruct (DelegateCall_ok e c a input gas) as (? & ? & ? & ? & -> & ? & _); try done. by eexists _, _, _, _.
  - destruct (StaticCall_ok e c a input gas) as (? & ? & ? & ? & -> & ? & _); try done. by eexists _, _, _, _.
  - by apply (Create_ok e (ContractCaller c) input gas v).
Qed.

End Run.

(** ** The loop *)

Lemma on_code_byte f op : OpCode_of (GetByte (contract f) (pc f)) = Some op -> op = STOP \/ on_code f.
Proof.
  unfold GetByte, on_code. destruct (Z.ltb_spec (pc f) (Z.of_nat (length (Code (contract f))))); [by right|].
  intros [= <-]. by left.
Qed.

Lemma CALL_stack cs o : jump_table env cs CALL = Some o -> validateStack o = makeStackFunc 7 1.
Proof. unfold jump_table. by repeat case_match; intros [= <-]. Qed.

Lemma enforce_ok cs e op o st :
  jump_table env cs op = Some o -> validateStack o st = None -> exists r, enforceRestrictions env e op o st = Some r.
Proof.
  intros Ej Ev. unfold enforceRestrictions. destruct (_ && _); [|by eexists]. destruct (writes o); [by eexists|].
  destruct op; try by eexists. rewrite (CALL_stack _ _ Ej) in Ev. apply makeStackFunc_None in Ev as [Ev _].
  destruct st as [|x [|y [|z st]]]; simpl in Ev; try lia. by eexists.
Qed.

(** What a run from [e] and [f] gives. *)
Definition run_ends e f (r : outcome out_of_fuel result) : Prop :=
  exists ret err e' f', r = Ok (ret, err, e', f') /\ moved e e' /\ blob ret /\ frame_ok f' /\
    Gas (contract f') <= Gas (contract f).

Lemma stop_ok e f err : evm_ok e -> frame_ok f -> run_ends e f (stop_with err e f).
Proof. intros He Hf. eexists _, _, _, _. split; [done|]. split; [by apply moved_refl|]. split; [apply blob_nil|done]. Qed.

Lemma run_ends_trans e f e1 f1 r :
  moved e e1 -> Gas (contract f1) <= Gas (contract f) -> run_ends e1 f1 r -> run_ends e f r.
Proof.
  intros Hm Hg (ret & err & e' & f' & -> & Hm1 & Hr & Hf & Hg1). eexists _, _, _, _. split; [done|].
  split; [by eapply vm_moved_trans|]. split; [done|]. split; [done|lia].
Qed.

Lemma returned_ok e r (b : bool) : evm_ok e -> blob r -> moved e (if b then set_returnData e r else e).
Proof. intros He Hr. destruct b; [|by apply moved_refl]. constructor; [by destruct He|apply later_refl|done|done]. Qed.

Lemma step_ok N cs again op o e f :
  op_ok N o op -> jump_table env cs op = Some o -> loop_ok again (Gas (contract f)) ->
  evm_ok e -> frame_ok f -> Gas (contract f) <= N -> (length (stack f) <= 1024)%nat -> (op = STOP \/ on_code f) ->
  run_ends e f (step env cs again op o e f).
Proof.
  intros Ho Ej Hagain He Hf HN Hst Hon. unfold step. destruct (validateStack o (stack f)) eqn:Ev; [by apply stop_ok|].
  destruct (enforce_ok cs e op o _ Ej Ev) as [r ->]. rewrite or_panic_bind. destruct r; [by apply stop_ok|].
  destruct (Ho e f He Hf HN Hst Hon Ev) as (n & -> & Hn). rewrite or_panic_bind.
  destruct n as [size|]; [|by apply stop_ok]. destruct (Hn size eq_refl) as (ok & e1 & f1 & -> & Hm1 & Hf1 & Hg1 & Hx).
  rewrite or_panic_bind. destruct ok; [|eapply run_ends_trans; [exact Hm1|done|apply stop_ok; [apply Hm1|done]]].
  destruct (Hx eq_refl) as (res & err & e3 & f3 & Ex & Hm3 & Hr3 & Hf3 & Hs3 & Hg3 & Hlt). unfold resized in Ex. cbv zeta.
  rewrite Ex, ok_bind. pose proof (returned_ok e3 res (returns o) (mv_ok _ _ Hm3) Hr3) as Hm4. set (e4 := if returns o then _ else _) in *.
  assert (moved e e4) as Hm by eauto using vm_moved_trans.
  destruct err; [eapply run_ends_trans; [exact Hm|done|apply stop_ok; [apply Hm|done]]|].
  destruct (reverts o); [by eexists _, _, _, _|]. destruct (halts o); [by eexists _, _, _, _|].
  specialize (Hlt eq_refl eq_refl). set (f4 := if jumps o then _ else _).
  assert (frame_ok f4 /\ stack f4 = stack f3 /\ contract f4 = contract f3) as (Hf4 & Es4 & Ec4).
  { unfold f4. destruct (jumps o); [done|]. split; [apply frame_pc; [done|]|done]. apply Z.mod_pos_bound. lia. }
  eapply run_ends_trans; [exact Hm|by rewrite Ec4|]. apply Hagain; [apply Hm|done|by rewrite Es4|by rewrite Ec4].
Qed.

Lemma poll_ok e : evm_ok e -> moved e (poll e).
Proof. intros He. constructor; [by destruct He|apply later_refl|done|done]. Qed.

Lemma loop_ok_le L N N' : N' <= N -> loop_ok L N -> loop_ok L N'.
Proof. intros Hle H e f He Hf Hs Hg. apply H; [done..|lia]. Qed.

(** With more fuel than gas the loop returns: every call passes on less gas
    than there is, and every operation that does not end the run uses some. *)
Lemma loop_total n : loop_ok (loop env n) (Z.of_nat n).
Proof.
  induction n as [|n IH]; intros e f He Hf Hs Hg.
  - pose proof (co_gas _ (fr_contract f Hf)). lia.
  - pose proof (co_gas _ (fr_contract f Hf)) as Hgas. cbn [loop]. pose proof (poll_ok e He) as Hp.
    destruct (aborted env (polls e)).
    + eexists _, _, _, _. split; [done|]. split; [done|]. split; [apply blob_nil|done].
    + cbv zeta. destruct (OpCode_of _) as [op|] eqn:Eop; cbn [mbind option_bind].
      2:{ eapply run_ends_trans; [exact Hp|done|apply stop_ok; [apply Hp|done]]. }
      destruct (jump_table env _ op) as [o|] eqn:Ej; cbn [fmap option_fmap option_map].
      2:{ eapply run_ends_trans; [exact Hp|done|apply stop_ok; [apply Hp|done]]. }
      eapply run_ends_trans; [exact Hp|done|]. set (N := Z.min (Z.of_nat n) (2 ^ 36)).
      apply (step_ok N _ _ op); [|done|apply (loop_ok_le _ (Z.of_nat n)); [lia|done]|apply Hp|done|lia|done|by apply on_code_byte].
      eapply jump_table_ok; [|by eapply OpCode_of_valid|exact Ej].
      apply callees_loop_ok; [lia|]. apply (loop_ok_le _ (Z.of_nat n)); [lia|done].
Qed.

End Safe.
