(* ===== verification/VmFuel.v ===== *)
(** * The fuel of the virtual machine does not matter

    A run of [loop] that returns returns the same with more fuel.  [le_out]
    orders results: running out of fuel is below everything.  Every function
    of the machine that is given the loop, or the calls built from it, is
    monotone in it. *)
From S2P Require Import Prelude Types VmMath VmAnalysis Vm.

Section Fuel.
Context {HO : Host} (env : Env).

Definition le_out {A} (m m' : outcome out_of_fuel A) : Prop := m = Err OutOfFuel \/ m = m'.

#[local] Infix "⊑" := le_out (at level 70).

Lemma le_refl {A} (m : outcome out_of_fuel A) : m ⊑ m.
Proof. by right. Qed.

Lemma le_bind {A B} (m m' : outcome out_of_fuel A) (k k' : A -> outcome out_of_fuel B) :
  m ⊑ m' -> (forall x, k x ⊑ k' x) -> (m ≫= k) ⊑ (m' ≫= k').
Proof. intros [-> | ->] Hk; [by left|]. destruct m' as [x| |]; [apply Hk|by right|by right]. Qed.

Hint Resolve le_refl : core.

(** [L'] returns whenever [L] does. *)
Definition le_loop (L L' : Loop) : Prop := forall e f, L e f ⊑ L' e f.

Record le_callees (cs cs' : Callees) : Prop := mk_le_callees {
  le_Call e r a i g v : to_Call cs e r a i g v ⊑ to_Call cs' e r a i g v;
  le_CallCode e c a i g v : to_CallCode cs e c a i g v ⊑ to_CallCode cs' e c a i g v;
  le_DelegateCall e c a i g : to_DelegateCall cs e c a i g ⊑ to_DelegateCall cs' e c a i g;
  le_StaticCall e c a i g : to_StaticCall cs e c a i g ⊑ to_StaticCall cs' e c a i g;
  le_Create e r i g v : to_Create cs e r i g v ⊑ to_Create cs' e r i g v
}.

Lemma run_mono L L' e c i : le_loop L L' -> run env L e c i ⊑ run env L' e c i.
Proof.
  intros HL. unfold run, Run. cbv zeta. destruct (CodeAddr c ≫= _); [done|]. destruct (_ =? 0)%nat; [done|].
  apply le_bind; [apply HL|done].
Qed.

Lemma callees_mono L L' : le_loop L L' -> le_callees (callees env L) (callees env L').
Proof.
  intros HL. pose proof (run_mono L L') as Hr.
  constructor; intros; cbn [callees to_Call to_CallCode to_DelegateCall to_StaticCall to_Create];
    unfold Call, CallCode, DelegateCall, StaticCall, Create; cbv zeta;
    repeat case_match; try done; apply le_bind; auto.
Qed.

(** The same operation but for what it executes. *)
Record le_op (o o' : operation) : Prop := mk_le_op {
  lo_execute e f : execute o e f ⊑ execute o' e f;
  lo_gas : gasCost o = gasCost o';
  lo_stack : validateStack o = validateStack o';
  lo_mem : memorySize o = memorySize o';
  lo_flags : (halts o, jumps o, writes o, reverts o, returns o) = (halts o', jumps o', writes o', reverts o', returns o')
}.

Lemma calls_mono cs cs' e f :
  le_callees cs cs' ->
  opCall cs e f ⊑ opCall cs' e f /\ opCallCode cs e f ⊑ opCallCode cs' e f /\
  opDelegateCall cs e f ⊑ opDelegateCall cs' e f /\ opStaticCall cs e f ⊑ opStaticCall cs' e f /\
  opCreate env cs e f ⊑ opCreate env cs' e f.
Proof.
  intros []. unfold opCall, opCallCode, opDelegateCall, opStaticCall, opCreate.
  split_and!; repeat (case_match; try done); cbv zeta; (apply le_bind; [done|]); intros args; by apply le_bind.
Qed.

Lemma jump_table_mono cs cs' op :
  le_callees cs cs' -> option_Forall2 le_op (jump_table env cs op) (jump_table env cs' op).
Proof.
  intros Hcs. assert (forall o, option_Forall2 le_op o o) as Hrefl by (intros [o|]; constructor; by constructor).
  unfold jump_table. destruct op; try apply Hrefl; repeat case_match; try apply Hrefl; constructor;
    (constructor; [|done..]); intros e f; destruct (calls_mono cs cs' e f Hcs) as (? & ? & ? & ? & ?); done.
Qed.

Lemma step_mono cs cs' again again' op o o' e f :
  le_loop again again' -> le_op o o' -> step env cs again op o e f ⊑ step env cs' again' op o' e f.
Proof.
  intros Ha [Hx Hg Hs Hm Hf]. injection Hf as Hh Hj Hw Hr Hre. unfold step. rewrite <-Hs.
  destruct (validateStack o (stack f)); [done|]. unfold enforceRestrictions, memory_needed, charge.
  rewrite <-Hm, <-Hg, <-Hh, <-Hj, <-Hw, <-Hr, <-Hre.
  apply le_bind; [done|]. intros [err|]; [done|]. apply le_bind; [done|]. intros [size|]; [|done].
  apply le_bind; [done|]. intros [ [ok e1] f1]. destruct ok; [|done]. cbv zeta. apply le_bind; [apply Hx|].
  intros [ [ [res err] e2] f2]. destruct err; [done|]. destruct (reverts o); [done|]. destruct (halts o); [done|]. apply Ha.
Qed.

Lemma loop_mono n n' : (n <= n')%nat -> le_loop (loop env n) (loop env n').
Proof.
  revert n'. induction n as [|n IH]; intros n' Hle e f; [by left|]. destruct n' as [|n']; [lia|].
  assert (le_loop (loop env n) (loop env n')) as Hl by (apply IH; lia). cbn [loop]. destruct (aborted env (polls e)); [done|].
  cbv zeta. destruct (OpCode_of _) as [op|]; [|done]. cbn [mbind option_bind].
  destruct (jump_table_mono _ _ op (callees_mono _ _ Hl)) as [o o' Ho|]; [|done]. cbn [fmap option_fmap option_map].
  by apply step_mono.
Qed.

(** More fuel, same result. *)
Lemma more_fuel {A} (F : Loop -> outcome out_of_fuel A) n n' x :
  (forall L L', le_loop L L' -> F L ⊑ F L') -> (n <= n')%nat -> F (loop env n) = Ok x -> F (loop env n') = Ok x.
Proof. intros HF Hle Hx. destruct (HF _ _ (loop_mono n n' Hle)) as [E|E]; congruence. Qed.

Lemma Call_more_fuel n n' e r a i g v x :
  (n <= n')%nat -> Call env (loop env n) e r a i g v = Ok x -> Call env (loop env n') e r a i g v = Ok x.
Proof. apply (more_fuel (fun L => Call env L e r a i g v)). intros L L' HL. apply (callees_mono L L' HL). Qed.

Lemma Create_more_fuel n n' e r i g v x :
  (n <= n')%nat -> Create env (loop env n) e r i g v = Ok x -> Create env (loop env n') e r i g v = Ok x.
Proof. apply (more_fuel (fun L => Create env L e r i g v)). intros L L' HL. apply (callees_mono L L' HL). Qed.

End Fuel.
