(* ===== verification/VmErrors.v ===== *)
(** * Where the errors of the machine come from

    [ErrInsufficientBalance] is the one error of the machine that makes a
    transaction invalid.  It is only ever returned by the check of the balance
    at the start of a call or creation; errors of nested calls end up as a
    zero on the stack and never leave the running contract. *)
From S2P Require Import Prelude Types VmMath VmAnalysis Vm VmLaws VmSafe.

Section Errors.
Context {HO : Host} {HL : HostLaws} (env : Env).

(** The run of a contract does not report a missing balance. *)
Definition solvent (err : option vmerror) : Prop := err <> Some ErrInsufficientBalance.

Definition solvent_result (r : outcome out_of_fuel result) : Prop :=
  match r with Ok (_, err, _, _) => solvent err | _ => True end.

Lemma solvent_bind {A} (m : outcome out_of_fuel A) k :
  (forall x, solvent_result (k x)) -> solvent_result (m ≫= k).
Proof. intros Hk. destruct m; simpl; auto. Qed.

Definition solvent_exec (x : exec) : Prop := forall e f, solvent_result (x e f).

Ltac solvent :=
  intros; unfold solvent_exec; intros;
  repeat first [ exact I | progress cbn beta zeta | progress unfold done_, jump_to
               | apply solvent_bind; intros ? | case_match | by unfold solvent_result, solvent ].

Lemma plain_solvent :
  (forall x, solvent_exec (op0 x)) /\ (forall g, solvent_exec (op1 g)) /\ (forall g, solvent_exec (op2 g)) /\
  (forall g, solvent_exec (op3 g)) /\ (forall n, solvent_exec (makeDup n)) /\ (forall n, solvent_exec (makeSwap n)) /\
  (forall s n, solvent_exec (makePush s n)) /\ solvent_exec opSignExtend /\ solvent_exec opPop /\
  solvent_exec opJump /\ solvent_exec opJumpi /\ solvent_exec opJumpdest /\ solvent_exec opStop.
Proof.
  unfold op0, op1, op2, op3, makeDup, makeSwap, makePush, opSignExtend, opPop, opJump, opJumpi, opJumpdest, opStop.
  repeat split; solvent.
Qed.

Lemma memory_solvent :
  solvent_exec (opSha3 env) /\ solvent_exec opBalance /\ solvent_exec opCallDataLoad /\ solvent_exec opCallDataCopy /\
  solvent_exec opReturnDataCopy /\ solvent_exec opExtCodeSize /\ solvent_exec opCodeCopy /\ solvent_exec opExtCodeCopy /\
  solvent_exec opMload /\ solvent_exec opMstore /\ solvent_exec opMstore8 /\ solvent_exec opSload /\
  solvent_exec opSstore /\ solvent_exec opReturn /\ solvent_exec opSuicide /\ (forall n, solvent_exec (makeLog env n)).
Proof.
  unfold opSha3, opBalance, opCallDataLoad, opCallDataCopy, opReturnDataCopy, opExtCodeSize, opCodeCopy, opExtCodeCopy,
    opMload, opMstore, opMstore8, opSload, opSstore, opReturn, opSuicide, makeLog, copy_to.
  repeat split; solvent.
Qed.

Lemma calls_solvent cs :
  solvent_exec (opCall cs) /\ solvent_exec (opCallCode cs) /\ solvent_exec (opDelegateCall cs) /\
  solvent_exec (opStaticCall cs) /\ solvent_exec (opCreate env cs).
Proof.
  unfold opCall, opCallCode, opDelegateCall, opStaticCall, opCreate, end_call. repeat split; solvent.
Qed.

Lemma makeStackFunc_solvent pop push st : solvent (makeStackFunc pop push st).
Proof. unfold makeStackFunc, require. by repeat case_match; simplify_eq. Qed.

Definition solvent_op (o : operation) : Prop := solvent_exec (execute o) /\ forall st, solvent (validateStack o st).

Lemma frontier_solvent cs op o : frontierInstructionSet env cs op = Some o -> solvent_op o.
Proof.
  destruct plain_solvent as (H0 & H1 & H2 & H3 & ?). destruct memory_solvent as (?&?&?&?&?&?&?&?&?&?&?&?&?&?&?&?).
  destruct (calls_solvent cs) as (?&?&?&?&?).
  destruct op; intros [= <-]; (split; [|apply makeStackFunc_solvent]);
    cbn [execute plain with_mem that_halts that_jumps that_writes that_returns that_reverts];
    first [apply H0|apply H1|apply H2|apply H3|naive_solver].
Qed.

Lemma jump_table_solvent cs op o : jump_table env cs op = Some o -> solvent_op o.
Proof.
  destruct memory_solvent as (?&?&?&?&?&?&?&?&?&?&?&?&?&?&?&?). destruct (calls_solvent cs) as (?&?&?&?&?).
  assert (forall o, homesteadInstructionSet env cs op = Some o -> solvent_op o) as Hh.
  { intros o'. destruct op; try apply frontier_solvent. intros [= <-]. by split; [|apply makeStackFunc_solvent]. }
  unfold jump_table. destruct (is_byzantium env); [|destruct (is_homestead env); [apply Hh|apply frontier_solvent]].
  destruct op; try apply Hh; intros [= <-]; (split; [|apply makeStackFunc_solvent]); done.
Qed.

Lemma step_solvent cs again op o e f :
  solvent_exec again -> solvent_exec (execute o) -> (forall st err, validateStack o st = Some err -> solvent (Some err)) ->
  solvent_result (step env cs again op o e f).
Proof.
  intros Ha Ho Hv. unfold step. destruct (validateStack o (stack f)) as [err|] eqn:Ev; [by eapply Hv|].
  assert (forall r, enforceRestrictions env e op o (stack f) = Some r -> solvent r) as Hr.
  { intros r. unfold enforceRestrictions. destruct op; repeat case_match; try (by intros [= <-]).
    destruct (Back (stack f) 2); [|done]. simpl. by case_match; intros [= <-]. }
  destruct (enforceRestrictions env e op o (stack f)) as [r|]; [|exact I]. cbn. destruct r as [err|]; [by apply Hr|].
  apply solvent_bind. intros [size|]; [|done]. apply solvent_bind. intros [ [ok e1] f1]. destruct ok; [|done].
  pose proof (Ho e1 (if 0 <? size then set_memory f1 (mem_Resize (memory f1) size) else f1)) as Hx.
  destruct (execute o e1 _) as [ [ [ [res err] e2] f2]| |]; cbn in Hx |- *; [|done|done].
  destruct err; [done|]. destruct (reverts o); [done|]. destruct (halts o); [done|]. apply Ha.
Qed.

Lemma loop_solvent n : solvent_exec (loop env n).
Proof.
  induction n as [|n IH]; intros e f; [exact I|]. cbn [loop]. destruct (aborted env (polls e)); [done|]. cbv zeta.
  destruct (OpCode_of _ ≫= _) as [ [op o]|] eqn:E; [|done].
  destruct (OpCode_of _) as [op'|]; [|done]. rewrite some_bind in E.
  destruct (jump_table env (callees env (loop env n)) op') as [o'|] eqn:Ej; [|done]. injection E as <- <-.
  destruct (jump_table_solvent _ _ _ Ej) as [Hx Hv]. apply step_solvent; [exact IH|done|]. intros st err <-. apply Hv.
Qed.

Lemma run_solvent n e c input ret err e' c' :
  blob input -> run env (loop env n) e c input = Ok (ret, err, e', c') -> solvent err.
Proof.
  intros Hi. unfold run. destruct (CodeAddr c ≫= precompiled _) as [p|] eqn:Ep.
  - destruct (CodeAddr c) as [a|]; [|done]. rewrite some_bind in Ep. destruct (precompiled_ok _ _ _ input Ep Hi) as (_ & _ & Hp).
    unfold RunPrecompiledContract. destruct (UseGas c _) as [ok c1]. destruct ok; [|by intros [= <- <- <- <-]].
    destruct (PRun p input) as [ [r er]|] eqn:Er; [|done]. intros [= <- <- <- <-] ->. by apply (Hp r).
  - unfold Run. case_match; [by intros [= <- <- <- <-]|].
    match goal with |- context [loop env n ?e0 ?f0] => pose proof (loop_solvent n e0 f0) as Hl; destruct (loop env n e0 f0) as [ [ [ [r er] e1] f1]| |] end;
      [|done|done]. by intros [= <- <- <- <-].
Qed.

(** ** When a call or creation reports it *)

Lemma end_run_error id ret err e c ret' l err' e' : end_run id (ret, err, e, c) = Ok (ret', l, err', e') -> err' = err.
Proof. unfold end_run. destruct err; [|by intros [= <- <- <- <-]]. destruct (db_RevertToSnapshot _ _); [|done]. by intros [= <- <- <- <-]. Qed.

Lemma end_create_error id a ret err e c ret' a' l err' e' :
  solvent err -> end_create env id a (ret, err, e, c) = Ok (ret', a', l, err', e') -> solvent err'.
Proof.
  intros Hs. unfold end_create. cbv zeta. set (big := is_eip158 env && _).
  set (r := if bool_decide (err = None) && negb big then _ else _).
  assert (solvent r.1.1) as Hr. { subst r. repeat case_match; simpl; done. }
  destruct r as [ [er e1] c1]. simpl in Hr. destruct (_ || match er with _ => _ end).
  - destruct (db_RevertToSnapshot _ _); [|done]. simpl. intros [= <- <- <- <- <-]. by case_match.
  - simpl. intros [= <- <- <- <- <-]. by case_match.
Qed.

Context (B : Z).

(** A call from outside, hence at depth zero. *)
Lemma Call_broke n e a to input gas v ret l err e' :
  evm_ok B e -> depth e = 0 -> blob input ->
  Call env (loop env n) e (AccountRef a) to input gas v = Ok (ret, l, err, e') ->
  err = Some ErrInsufficientBalance <-> bal (StateDB e) a < v.
Proof.
  intros He Hd Hi. unfold Call, no_recursion, too_deep. rewrite Hd, andb_false_r. change (CallCreateDepth <? 0) with false.
  cbn [ref_Address]. unfold CanTransfer. destruct (db_GetBalance (StateDB e) a) as [b d] eqn:Eb.
  destruct (ok_GetBalance _ _ _ _ (ev_db _ _ He) Eb) as [-> _]. destruct (Z.leb_spec v (bal (StateDB e) a)); cbn [negb];
    [|intros [= <- <- <- <-]; split; [lia|done]].
  destruct (db_Snapshot _) as [id d1]. destruct (db_Exist d1 to) as [ex d2]. case_match; [intros [= <- <- <- <-]; split; [done|lia]|].
  destruct (NewContract _ _ _ _ _) as [c1 e1]. destruct (load_code _ _ _) as [c2 e2].
  destruct (run env (loop env n) e2 c2 input) as [ [ [ [r er] e3] c3]| |] eqn:Er; [|done|done]. rewrite ok_bind.
  intros ->%end_run_error. pose proof (run_solvent _ _ _ _ _ _ _ _ Hi Er) as Hs. split; [by intros ->|lia].
Qed.

Lemma Create_broke n e a code gas v ret ad l err e' :
  evm_ok B e -> depth e = 0 ->
  Create env (loop env n) e (AccountRef a) code gas v = Ok (ret, ad, l, err, e') ->
  err = Some ErrInsufficientBalance <-> bal (StateDB e) a < v.
Proof.
  intros He Hd. unfold Create, no_recursion, too_deep. rewrite Hd. change (CallCreateDepth <? 0) with false.
  cbn [ref_Address]. unfold CanTransfer. destruct (db_GetBalance (StateDB e) a) as [b d] eqn:Eb.
  destruct (ok_GetBalance _ _ _ _ (ev_db _ _ He) Eb) as [-> _]. destruct (Z.leb_spec v (bal (StateDB e) a)); cbn [negb];
    [|intros [= <- <- <- <- <-]; split; [lia|done]].
  destruct (db_GetNonce d a) as [n0 d0]. destruct (db_GetCodeHash _ _) as [h d1]. destruct (db_GetNonce d1 _) as [n1 d2].
  case_match; [intros [= <- <- <- <- <-]; split; [done|lia]|]. destruct (db_Snapshot d2) as [id d3].
  destruct (NewContract _ _ _ _ _) as [c1 e1] eqn:Ec.
  assert (depth e1 = 0) as Hd1 by (unfold NewContract in Ec; by injection Ec as <- <-). rewrite Hd1, andb_false_r.
  destruct (run env (loop env n) e1 _ []) as [ [ [ [r er] e3] c3]| |] eqn:Er; [|done|done]. rewrite ok_bind.
  intros Hend. pose proof (run_solvent _ _ _ _ _ _ _ _ blob_nil Er) as Hs. apply end_create_error in Hend; [|done]. split; [by intros ->|lia].
Qed.

End Errors.
