(* ===== verification/VmState.v ===== *)
(** * The virtual machine over the state database

    [StateHost] gives the machine of [Vm.v] the state of [State.v], and
    [StateLaws] proves that this state keeps the promises of [HostLaws]: the
    getters return what the objects hold, every change can be reverted, and
    only the operations on balances change balances.  With it the theorems
    about the machine become theorems about the two together. *)
From S2P Require Import Prelude Types Rlp State StateRevert VmMath VmAnalysis Vm VmLaws VmSafe.

(** What is assumed of the store: hashes of 32 bytes that tell codes of
    different length apart, an empty trie at the empty root, and code sizes
    that are the sizes of the codes. *)
Class StoreLaws {DB : Database} := {
  hash_bytes b : hash_ok (Keccak256 b);
  hash_length c c' : blob c -> blob c' -> Keccak256 c = Keccak256 c' -> length c = length c';
  address_size : (AddressLength <= 32)%nat;
  empty_root h : exists t, OpenStorageTrie h zeroHash = inr t /\ forall key, TryGet t key = (None, None);
  size_fits h c : 0 <= (ContractCodeSize h c).1 < 2 ^ 64;
  size_length h c : (ContractCodeSize h c).1 = Z.of_nat (length (default [] (ContractCode h c).1))
}.

Section Host.
Context {DB : Database} (contracts : bool -> Address -> option PrecompiledContract).

(** The code of an account as the machine sees it; storing no code stores a
    nil slice. *)
Definition vm_GetCode (s : State.StateDB) (a : Address) : list Z * State.StateDB :=
  let '(c, s) := GetCode s a in (default [] c, s).

Definition vm_SetCode (s : State.StateDB) (a : Address) (c : list Z) : State.StateDB :=
  SetCode s a (match c with [] => None | _ => Some c end).

Definition vm_AddLog (s : State.StateDB) (a : Address) (topics : list Hash) (d : list Z) (number : Z) : State.StateDB :=
  AddLog s (mkLog a topics d number zeroHash 0 zeroHash 0).

Definition StateHost : Host := {|
  SDB := State.StateDB;
  db_CreateAccount := CreateAccount;
  db_SubBalance := SubBalance;
  db_AddBalance := AddBalance;
  db_GetBalance := GetBalance;
  db_GetNonce := GetNonce;
  db_SetNonce := SetNonce;
  db_GetCodeHash := GetCodeHash;
  db_GetCode := vm_GetCode;
  db_SetCode := vm_SetCode;
  db_GetCodeSize := GetCodeSize;
  db_AddRefund := AddRefund;
  db_GetRefund := refund;
  db_PutRefund := with_refund;
  db_GetState := GetState;
  db_SetState := SetState;
  db_Suicide := State.Suicide;
  db_HasSuicided := HasSuicided;
  db_Exist := Exist;
  db_Empty := Empty;
  db_RevertToSnapshot := RevertToSnapshot;
  db_Snapshot := Snapshot;
  db_AddLog := vm_AddLog;
  db_AddPreimage := AddPreimage;
  vKeccak256 := Keccak256;
  vAddressLength := AddressLength;
  precompiled := contracts
|}.

End Host.

Section Objects.
Context {DB : Database} {SL : StoreLaws}.
Implicit Types (s t : State.StateDB) (o p : stateObject) (a b : Address).

(** ** Well-formed objects *)

(** The code fits and has the hash the account says; every slot can be read. *)
Record good_obj o : Prop := mk_good_obj {
  go_code : blob (default [] (codeof o));
  go_hash : default [] (codeof o) <> [] -> aCodeHash (data o) = Keccak256 (default [] (codeof o));
  go_slot key : hash_ok key -> exists v, slot o key = Some v /\ hash_ok v
}.

Definition good s : Prop := forall a o, lookup_obj s a = Some o -> good_obj o.

Lemma good_obj_eq o o' : obj_eq o o' -> good_obj o -> good_obj o'.
Proof.
  intros He [H1 H2 H3]. pose proof (eq_code _ _ He) as Hc. pose proof (eq_data _ _ He) as Hd. constructor.
  - by rewrite <-Hc.
  - by rewrite <-Hc, <-Hd.
  - intros key Hk. rewrite <-(eq_slot _ _ He). by apply H3.
Qed.

Lemma good_state_eq s s' : state_eq s s' -> good s -> good s'.
Proof.
  intros Hs Hg a o Hl. symmetry in Hs. destruct (state_eq_lookup _ _ _ _ Hs Hl) as (o' & Hl' & He).
  eapply good_obj_eq; [by symmetry|]. by eapply Hg.
Qed.

Lemma zeroHash_ok : hash_ok zeroHash.
Proof. split; [apply bytes_replicate_0|done]. Qed.

Lemma fresh_good a : good_obj (newObject a freshAccount).
Proof.
  constructor.
  - rewrite codeof_eq. simpl. rewrite bool_decide_eq_true_2 by done. apply blob_nil.
  - rewrite codeof_eq. simpl. by rewrite bool_decide_eq_true_2.
  - intros key _. rewrite slot_eq. simpl. rewrite lookup_empty. unfold obj_trie, getTrie. simpl.
    destruct (empty_root (addrHash (newObject a freshAccount))) as (t & -> & Ht). simpl. unfold trie_slot.
    rewrite Ht. simpl. eexists. split; [done|]. apply zeroHash_ok.
Qed.

(** ** What a change does to the objects *)

(** [s'] is [s] with [p] at [a], as far as can be read. *)
Record sets s a p s' : Prop := mk_sets {
  st_at : exists o, lookup_obj s' a = Some o /\ obj_eq o p;
  st_others b : b <> a -> option_Forall2 obj_eq (lookup_obj s' b) (lookup_obj s b)
}.

Lemma sets_good s a p s' : sets s a p s' -> good s -> good_obj p -> good s'.
Proof.
  intros [(o & Hl & He) Hne] Hg Hp b o' Hl'. destruct (decide (b = a)) as [->|Hb].
  - rewrite Hl in Hl'. injection Hl' as <-. eapply good_obj_eq; [by symmetry|done].
  - specialize (Hne b Hb). rewrite Hl' in Hne. inversion Hne; subst. eapply good_obj_eq; [by symmetry|]. by eapply Hg.
Qed.

Definition balance s a : Z := match lookup_obj s a with Some o => aBalance (data o) | None => 0 end.

Lemma sets_balance s a p s' : sets s a p s' -> forall b, balance s' b = upd (balance s) a (aBalance (data p)) b.
Proof.
  intros [(o & Hl & He) Hne] b. unfold balance, upd. case_decide as Hb.
  - subst. by rewrite Hl, (eq_data _ _ He).
  - destruct (Hne b Hb) as [x y Hxy|]; [by rewrite (eq_data _ _ Hxy)|done].
Qed.

Definition account_nonce s a : Z := match lookup_obj s a with Some o => aNonce (data o) | None => 0 end.

Lemma sets_nonce s a p s' : sets s a p s' -> forall b, account_nonce s' b = upd (account_nonce s) a (aNonce (data p)) b.
Proof.
  intros [(o & Hl & He) Hne] b. unfold account_nonce, upd. case_decide as Hb.
  - subst. by rewrite Hl, (eq_data _ _ He).
  - destruct (Hne b Hb) as [x y Hxy|]; [by rewrite (eq_data _ _ Hxy)|done].
Qed.

Lemma sets_puts s s1 a o s' :
  (forall b, b <> a -> option_Forall2 obj_eq (lookup_obj s1 b) (lookup_obj s b)) ->
  puts s1 a o s' -> deleted o = false -> sets s a o s'.
Proof. intros Hs Hp Hd. destruct (puts_lookup _ _ _ _ Hp Hd) as [H1 H2]. constructor; [done|]. intros b Hb. rewrite H2 by done. by apply Hs. Qed.

(** The object at [a], or the one that would be made. *)
Definition cur s a : stateObject := default (newObject a freshAccount) (lookup_obj s a).

Lemma cur_good s a : good s -> good_obj (cur s a).
Proof. intros Hg. unfold cur. destruct (lookup_obj s a) eqn:E; [by eapply Hg|apply fresh_good]. Qed.

Lemma nonce_cur s a : account_nonce s a = aNonce (data (cur s a)).
Proof. unfold account_nonce, cur. by destruct (lookup_obj s a). Qed.

Lemma balance_cur s a : balance s a = aBalance (data (cur s a)).
Proof. unfold balance, cur. by destruct (lookup_obj s a). Qed.

Lemma opt_refl (x : option stateObject) : option_Forall2 obj_eq x x.
Proof. by destruct x; constructor. Qed.

Lemma Keccak_size b : length (Keccak256 b) = 32%nat.
Proof. apply hash_bytes. Qed.

Lemma createObject_sets s a o prev s1 :
  owf s -> createObject s a = (o, prev, s1) ->
  prev = lookup_obj s a /\ lookup_obj s1 a = Some o /\ obj_eq o (newObject a freshAccount) /\
  forall b, b <> a -> option_Forall2 obj_eq (lookup_obj s1 b) (lookup_obj s b).
Proof.
  intros Hw Hc. destruct (createObject_change Keccak_size s a o prev s1 Hw Hc) as (H1 & H2 & _ & H4 & H5 & H6).
  split; [done|]. split; [done|]. split; [done|]. intros b Hb.
  destruct (puts_lookup _ _ _ _ H5) as [_ Hne]; [by eapply lookup_obj_live|]. rewrite Hne by done. apply opt_refl.
Qed.

(** The object to change. *)
Lemma GetOrNew_sets s a o s1 :
  owf s -> GetOrNewStateObject s a = (o, s1) ->
  owf s1 /\ lookup_obj s1 a = Some o /\ obj_eq o (cur s a) /\
  forall b, b <> a -> option_Forall2 obj_eq (lookup_obj s1 b) (lookup_obj s b).
Proof.
  intros Hw E. destruct (GetOrNew_change Keccak_size s a o s1 Hw E) as [ [es Hc] Hl]. split; [apply Hc|]. split; [done|].
  unfold GetOrNewStateObject in E. unfold cur. destruct (getStateObject s a) as [ [q|] s0] eqn:Eg;
    destruct (getStateObject_eq _ _ _ _ Eg) as (Er & _ & _ & Hlk); rewrite <-Er.
  - symmetry in Er. rewrite (lookup_obj_live _ _ _ Er) in E. injection E as <- <-. split; [done|].
    intros b _. rewrite Hlk. apply opt_refl.
  - pose proof (getStateObject_change s a _ s0 Hw Eg) as H0. destruct (createObject s0 a) as [ [q prev] s2] eqn:Ec.
    injection E as <- <-. destruct (createObject_sets s0 a q prev s2 (ch_owf _ _ _ H0) Ec) as (_ & _ & H3 & H4).
    split; [done|]. intros b Hb. rewrite <-Hlk. by apply H4.
Qed.

Lemma stored_sets s s1 a e p :
  address p = a -> deleted p = false ->
  (forall b, b <> a -> option_Forall2 obj_eq (lookup_obj s1 b) (lookup_obj s b)) ->
  sets s a p (store_object (mark_dirty (log_change s1 e) p)).
Proof.
  intros Ha Hd Hs. destruct (store_dirty (log_change s1 e) p a Ha) as [Hp _].
  eapply (sets_puts s (log_change s1 e)); [|done|done]. intros b Hb. rewrite (lookup_obj_ext (log_change s1 e) s1) by done. by apply Hs.
Qed.

Lemma sets_proper s a p q s' : obj_eq p q -> sets s a p s' -> sets s a q s'.
Proof. intros He [(o & Hl & Ho) Hne]. constructor; [|done]. exists o. split; [done|]. by rewrite Ho. Qed.

Lemma with_balance_eq o o' v : obj_eq o o' -> obj_eq (with_balance o v) (with_balance o' v).
Proof. intros He. by apply (undo_fun_proper (balanceChange (address o) v) (address o) (fun o => with_balance o v)). Qed.

Lemma with_nonce_eq o o' v : obj_eq o o' -> obj_eq (with_nonce o v) (with_nonce o' v).
Proof. intros He. by apply (undo_fun_proper (nonceChange (address o) v) (address o) (fun o => with_nonce o v)). Qed.

Lemma with_slot_eq o o' k v : obj_eq o o' -> obj_eq (with_slot o k v) (with_slot o' k v).
Proof. intros He. by apply (undo_fun_proper (storageChange (address o) k v) (address o) (fun o => with_slot o k v)). Qed.

Lemma same_data_sets s s1 a o :
  owf s1 -> lookup_obj s1 a = Some o -> obj_eq o (cur s a) ->
  (forall b, b <> a -> option_Forall2 obj_eq (lookup_obj s1 b) (lookup_obj s b)) -> sets s a (cur s a) s1.
Proof. intros Hw Hl He Hne. constructor; [by exists o|done]. Qed.

Lemma with_balance_same o : obj_eq (with_balance o (aBalance (data o))) o.
Proof. apply obj_eq_fields; try done. simpl. by destruct (data o). Qed.

Lemma obj_SetBalance_sets s s1 a o v :
  owf s1 -> lookup_obj s1 a = Some o -> obj_eq o (cur s a) ->
  (forall b, b <> a -> option_Forall2 obj_eq (lookup_obj s1 b) (lookup_obj s b)) ->
  sets s a (with_balance (cur s a) v) (obj_SetBalance s1 o v).
Proof.
  intros Hw Hl He Hne. destruct (lookup_obj_ok s1 a o Hw Hl) as (Ha & Hd & _).
  eapply sets_proper; [by apply with_balance_eq|]. by apply stored_sets.
Qed.

Lemma SubBalance_sets s a v : owf s -> sets s a (with_balance (cur s a) (aBalance (data (cur s a)) - v)) (SubBalance s a v).
Proof.
  intros Hw. unfold SubBalance. destruct (GetOrNewStateObject s a) as [o s1] eqn:E.
  destruct (GetOrNew_sets s a o s1 Hw E) as (Hw1 & Hl & He & Hne). destruct (Z.eqb_spec v 0) as [->|].
  - rewrite Z.sub_0_r. eapply sets_proper; [symmetry; apply with_balance_same|]. by eapply same_data_sets.
  - rewrite (eq_data _ _ He). by apply obj_SetBalance_sets.
Qed.

Lemma AddBalance_sets s a v : owf s -> sets s a (with_balance (cur s a) (aBalance (data (cur s a)) + v)) (AddBalance s a v).
Proof.
  intros Hw. unfold AddBalance. destruct (GetOrNewStateObject s a) as [o s1] eqn:E.
  destruct (GetOrNew_sets s a o s1 Hw E) as (Hw1 & Hl & He & Hne). destruct (Z.eqb_spec v 0) as [->|].
  - rewrite Z.add_0_r. eapply sets_proper; [symmetry; apply with_balance_same|].
    destruct (empty o); [|by eapply same_data_sets]. destruct (lookup_obj_ok s1 a o Hw1 Hl) as (Ha & Hd & _).
    unfold touch. set (e := touchChange _ _ _). destruct (mark_dirty (log_change s1 e) o) as [s2 o2] eqn:Em.
    destruct (mark_dirty_spec _ _ _ _ Em) as (Ho & Hr & _ & He2 & Hd2).
    assert (obj_eq (set_flags o2 (suicided o2) true (deleted o2) (onDirty o2)) (cur s a)) as He3.
    { rewrite <-He, <-He2. by apply obj_eq_fields. }
    eapply sets_proper; [exact He3|]. apply (sets_puts s s1); [done| |simpl; congruence].
    eexists. split; [reflexivity|]. split; [done|]. split; [|exact Hr]. unfold store_object, setStateObject. simpl.
    by rewrite (eq_address _ _ He2), Ha, Ho.
  - rewrite (eq_data _ _ He). by apply obj_SetBalance_sets.
Qed.

Lemma SetNonce_sets s a n : owf s -> sets s a (with_nonce (cur s a) n) (SetNonce s a n).
Proof.
  intros Hw. unfold SetNonce. destruct (GetOrNewStateObject s a) as [o s1] eqn:E.
  destruct (GetOrNew_sets s a o s1 Hw E) as (Hw1 & Hl & He & Hne). destruct (lookup_obj_ok s1 a o Hw1 Hl) as (Ha & Hd & _).
  eapply sets_proper; [by apply with_nonce_eq|]. by apply stored_sets.
Qed.

Lemma with_code_eq o o' h c : length h = 32%nat -> obj_eq o o' -> obj_eq (with_code o h c) (with_code o' h c).
Proof.
  intros Hh He.
  pose proof (undo_fun_proper (codeChange (address o) c h) (address o) (fun o => with_code o (BytesToHash h) c) o o' eq_refl He) as [H _].
  by rewrite BytesToHash_hash in H.
Qed.

Lemma SetCode_sets s a c : owf s -> sets s a (with_code (cur s a) (Keccak256 (default [] c)) c) (SetCode s a c).
Proof.
  intros Hw. unfold SetCode. destruct (GetOrNewStateObject s a) as [o s1] eqn:E.
  destruct (GetOrNew_sets s a o s1 Hw E) as (Hw1 & Hl & He & Hne). destruct (lookup_obj_ok s1 a o Hw1 Hl) as (Ha & Hd & _).
  destruct (obj_Code o) as [prevcode o1] eqn:Ec. destruct (obj_Code_eq _ _ _ Ec) as (_ & He1 & Hd1).
  eapply sets_proper; [apply with_code_eq; [apply Keccak_size|rewrite <-He; exact He1]|].
  apply stored_sets; [|simpl; congruence|done]. simpl. by rewrite (eq_address _ _ He1).
Qed.

Lemma SetState_sets s a key v : owf s -> good s -> hash_ok key ->
  exists s', SetState s a key v = Some s' /\ sets s a (with_slot (cur s a) key v) s'.
Proof.
  intros Hw Hg Hk. unfold SetState. destruct (GetOrNewStateObject s a) as [o s1] eqn:E.
  destruct (GetOrNew_sets s a o s1 Hw E) as (Hw1 & Hl & He & Hne). destruct (lookup_obj_ok s1 a o Hw1 Hl) as (Ha & Hd & _).
  destruct (go_slot _ (cur_good s a Hg) key Hk) as (w & Hw' & _). rewrite <-(eq_slot _ _ He) in Hw'. unfold slot in Hw'.
  destruct (obj_GetState o key) as [ [prev o1]|] eqn:Ec; [|done]. rewrite some_bind. eexists. split; [done|].
  destruct (obj_GetState_eq _ _ _ _ Ec) as (_ & He1 & Hd1).
  eapply sets_proper; [apply with_slot_eq; rewrite <-He; exact He1|].
  apply stored_sets; [|simpl; congruence|done]. simpl. by rewrite (eq_address _ _ He1).
Qed.

Lemma CreateAccount_sets s a : owf s ->
  sets s a (with_balance (newObject a freshAccount) (aBalance (data (cur s a)))) (CreateAccount s a).
Proof.
  intros Hw. unfold CreateAccount. destruct (createObject s a) as [ [new prev] s1] eqn:Ec.
  destruct (createObject_sets s a new prev s1 Hw Ec) as (Hp & Hl1 & Hn & Hne). unfold cur. rewrite <-Hp.
  destruct prev as [q|]; simpl.
  - pose proof (lookup_obj_live _ _ _ Hl1). destruct (store_dirty s1 (with_balance new (aBalance (data q))) a) as [Hps _].
    { simpl. by rewrite (eq_address _ _ Hn). }
    eapply sets_proper; [by apply with_balance_eq|]. by apply (sets_puts s s1).
  - constructor; [|done]. exists new. split; [done|]. rewrite Hn. by apply obj_eq_fields.
Qed.

(** A contract that destroys itself keeps everything but its balance. *)
Definition killed o : stateObject := with_balance (set_flags o true (touched o) (deleted o) (onDirty o)) 0.

Lemma Suicide_sets s a o : owf s -> lookup_obj s a = Some o -> sets s a (killed o) (State.Suicide s a).2.
Proof.
  intros Hw Hl. unfold State.Suicide. destruct (getStateObject s a) as [r s1] eqn:Eg.
  destruct (getStateObject_eq _ _ _ _ Eg) as (Er & _ & _ & Hlk). rewrite Hl in Er. subst r.
  destruct (lookup_obj_ok s a o Hw Hl) as (Ha & Hd & _). unfold markSuicided. set (e := suicideChange _ _ _).
  set (q := set_flags o true (touched o) (deleted o) (onDirty o)).
  destruct (mark_dirty (log_change s1 e) q) as [s2 o2] eqn:Em. destruct (mark_dirty_spec _ _ _ _ Em) as (Ho & Hr & _ & He & Hd2).
  change (sets s a (with_balance q 0) (setStateObject s2 (with_balance o2 0))).
  eapply sets_proper; [by apply with_balance_eq|]. apply (sets_puts s s1); [intros b _; rewrite Hlk; apply opt_refl| |simpl; by rewrite Hd2].
  eexists. split; [reflexivity|]. split; [done|]. split; [|exact Hr]. unfold setStateObject. simpl.
  rewrite (eq_address _ _ He : address o2 = address o), Ha, Ho. done.
Qed.

(** ** The changed objects are well formed *)

(** Changes that leave code and storage alone. *)
Lemma same_good o p :
  good_obj o -> otrie p = otrie o -> cachedStorage p = cachedStorage o -> aRoot (data p) = aRoot (data o) ->
  address p = address o -> State.code p = State.code o -> aCodeHash (data p) = aCodeHash (data o) -> good_obj p.
Proof.
  intros [H1 H2 H3] A1 A2 A3 A4 A5 A6. assert (codeof p = codeof o) as Hc by (by apply (codeof_same o o)).
  constructor; [by rewrite Hc|by rewrite Hc, A6|]. intros key Hk. destruct (H3 key Hk) as (v & Hs & Hv). exists v.
  split; [|done]. rewrite <-Hs, !slot_eq, A2. by rewrite (obj_trie_ext p o).
Qed.

Lemma with_code_good o c :
  good_obj o -> blob c ->
  good_obj (with_code o (Keccak256 (default [] (match c with [] => None | _ => Some c end))) (match c with [] => None | _ => Some c end)).
Proof.
  intros [H1 H2 H3] Hb. constructor.
  - destruct c; rewrite codeof_eq; simpl; [|done]. rewrite bool_decide_eq_true_2 by done. apply blob_nil.
  - destruct c; rewrite codeof_eq; simpl; [|done]. by rewrite bool_decide_eq_true_2.
  - intros key Hk. destruct (H3 key Hk) as (v & Hs & Hv). exists v. split; [|done]. rewrite <-Hs, !slot_eq. simpl.
    by rewrite (obj_trie_ext _ o).
Qed.

Lemma with_slot_good o k v : good_obj o -> hash_ok v -> good_obj (with_slot o k v).
Proof.
  intros [H1 H2 H3] Hv. assert (codeof (with_slot o k v) = codeof o) as Hc by (by apply (codeof_same o o)).
  constructor; [by rewrite Hc|by rewrite Hc|]. intros key Hk. rewrite slot_with_slot.
  case_decide; [by exists v|by apply H3].
Qed.

End Objects.

Section Laws.
Context {DB : Database} {SL : StoreLaws} (contracts : bool -> Address -> option PrecompiledContract).
Implicit Types (s t : State.StateDB) (o p : stateObject) (a b : Address).

(** ** The refund counter *)

Lemma getStateObject_refund s a : refund (getStateObject s a).2 = refund s.
Proof. unfold getStateObject. repeat case_match; done. Qed.

Lemma mark_dirty_refund s o : refund (mark_dirty s o).1 = refund s.
Proof. unfold mark_dirty. by case_match. Qed.

Lemma store_refund s o : refund (store_object (mark_dirty s o)) = refund s.
Proof. unfold store_object. simpl. apply mark_dirty_refund. Qed.

Lemma createObject_refund s a : refund (createObject s a).2 = refund s.
Proof.
  unfold createObject. pose proof (getStateObject_refund s a) as H. destruct (getStateObject s a) as [r s1]. simpl in H.
  unfold obj_setNonce. pose proof (mark_dirty_refund s1 (set_data (newObject a freshAccount) (mkAccount 0 0 zeroHash emptyCodeHash))) as H'.
  destruct (mark_dirty _ _) as [s2 o]. simpl in *. congruence.
Qed.

Lemma GetOrNew_refund s a : refund (GetOrNewStateObject s a).2 = refund s.
Proof.
  unfold GetOrNewStateObject. pose proof (getStateObject_refund s a) as H. destruct (getStateObject s a) as [ [o|] s1]; simpl in H;
    [destruct (deleted o); [|done]|]; pose proof (createObject_refund s1 a) as H'; destruct (createObject s1 a) as [ [? ?] ?]; simpl in *; congruence.
Qed.

Lemma setters_refund s a :
  (forall v, refund (AddBalance s a v) = refund s) /\ (forall v, refund (SubBalance s a v) = refund s) /\
  (forall n, refund (SetNonce s a n) = refund s) /\ (forall c, refund (SetCode s a c) = refund s) /\
  (forall k v s', SetState s a k v = Some s' -> refund s' = refund s) /\ refund (CreateAccount s a) = refund s /\
  refund (State.Suicide s a).2 = refund s.
Proof.
  unfold AddBalance, SubBalance, SetNonce, SetCode, SetState, CreateAccount, State.Suicide, obj_SetBalance.
  pose proof (GetOrNew_refund s a) as H. destruct (GetOrNewStateObject s a) as [o s1]. simpl in H.
  pose proof (createObject_refund s a) as H1. destruct (createObject s a) as [ [new prev] s2]. simpl in H1.
  pose proof (getStateObject_refund s a) as H2. destruct (getStateObject s a) as [r s3]. simpl in H2.
  split; [|split; [|split; [|split; [|split; [|split]]]]].
  - intros v. repeat case_match; [|done|].
    + unfold touch. pose proof (mark_dirty_refund (log_change s1 (touchChange (address o) (touched o) (negb (onDirty o)))) o) as Hm.
      destruct (mark_dirty _ _). unfold store_object. simpl in *. congruence.
    + unfold obj_setBalance. by rewrite store_refund.
  - intros v. case_match; [done|]. unfold obj_setBalance. by rewrite store_refund.
  - intros n. unfold obj_setNonce. by rewrite store_refund.
  - intros c. destruct (obj_Code o). unfold obj_setCode. by rewrite store_refund.
  - intros k v s' E. destruct (obj_GetState o k) as [ [p q]|]; [|done]. injection E as <-. unfold obj_setState. by rewrite store_refund.
  - destruct prev; [|done]. unfold obj_setBalance. by rewrite store_refund.
  - destruct r as [q|]; [|done]. unfold markSuicided.
    pose proof (mark_dirty_refund (log_change s3 (suicideChange a (suicided q) (aBalance (data q)))) (set_flags q true (touched q) (deleted q) (onDirty q))) as Hm.
    destruct (mark_dirty _ _). simpl in *. congruence.
Qed.

(** ** The laws *)

Definition state_ok s : Prop := swf s /\ good s /\ 0 <= refund s.

(** Snapshots of before still work. *)
Definition keeps s s' : Prop := forall s0 id, since s0 id s -> since s0 id s'.

Definition account_code s a : list Z := default [] (lookup_obj s a ≫= codeof).
Definition account_hash s a : Hash := match lookup_obj s a with Some o => aCodeHash (data o) | None => zeroHash end.

Definition read_only s s' : Prop := state_ok s' /\ keeps s s' /\ state_eq s s'.
Definition same_funds s s' : Prop := state_ok s' /\ keeps s s' /\ forall a, balance s' a = balance s a.

Lemma change_keeps s es s' : change s es s' -> keeps s s'.
Proof. intros Hc s0 id Hs. by eapply change_since. Qed.

Lemma change_ok s es s' : state_ok s -> change s es s' -> good s' -> 0 <= refund s' -> state_ok s' /\ keeps s s'.
Proof. intros [Hw _] Hc Hg Hr. split; [split; [by eapply change_swf|done]|by eapply change_keeps]. Qed.

Lemma change_reads s s' : state_ok s -> change s [] s' -> read_only s s'.
Proof.
  intros Hs Hc. destruct (ch_back _ _ _ Hc) as (t & [= ->] & He). symmetry in He.
  destruct (change_ok s [] t Hs Hc) as [H1 H2]; [eapply good_state_eq; [exact He|apply Hs]| |done].
  rewrite <-(fr_refund _ _ (se_frame _ _ He)). apply Hs.
Qed.

Lemma sets_ok s es a p s' :
  state_ok s -> change s es s' -> sets s a p s' -> good_obj p -> refund s' = refund s -> state_ok s' /\ keeps s s'.
Proof. intros Hs Hc Hp Hg Hr. eapply change_ok; [done|done| |rewrite Hr; apply Hs]. eapply sets_good; [done|apply Hs|done]. Qed.

Lemma sets_same s es a p s' :
  state_ok s -> change s es s' -> sets s a p s' -> good_obj p -> refund s' = refund s ->
  aBalance (data p) = aBalance (data (cur s a)) -> same_funds s s'.
Proof.
  intros Hs Hc Hp Hg Hr Hb. destruct (sets_ok s es a p s' Hs Hc Hp Hg Hr) as [H1 H2]. split; [done|]. split; [done|].
  intros b. rewrite (sets_balance _ _ _ _ Hp). unfold upd. case_decide; [|done]. subst. by rewrite Hb, <-balance_cur.
Qed.

Lemma state_eq_balance s s' a : state_eq s s' -> balance s a = balance s' a.
Proof. intros Hs. unfold balance. destruct (se_obj _ _ Hs a) as [o o' He|]; [by rewrite (eq_data _ _ He)|done]. Qed.

Lemma state_eq_nonce s s' a : state_eq s s' -> account_nonce s a = account_nonce s' a.
Proof. intros Hs. unfold account_nonce. destruct (se_obj _ _ Hs a) as [o o' He|]; [by rewrite (eq_data _ _ He)|done]. Qed.

Lemma state_eq_code s s' a : state_eq s s' -> account_code s a = account_code s' a /\ account_hash s a = account_hash s' a.
Proof.
  intros Hs. unfold account_code, account_hash. destruct (se_obj _ _ Hs a) as [o o' He|]; [|done].
  by rewrite !some_bind, (eq_code _ _ He), (eq_data _ _ He).
Qed.

Lemma account_code_ok s a :
  state_ok s -> blob (account_code s a) /\ (account_code s a <> [] -> account_hash s a = Keccak256 (account_code s a)).
Proof.
  intros (_ & Hg & _). unfold account_code, account_hash. destruct (lookup_obj s a) as [o|] eqn:E; simpl.
  - destruct (Hg a o E). done.
  - split; [apply blob_nil|done].
Qed.

(** Getters that only load the object. *)
Lemma getter_ok {A} (f : option stateObject -> A) s a x s' :
  state_ok s -> (let '(o, s) := getStateObject s a in (f o, s)) = (x, s') -> x = f (lookup_obj s a) /\ read_only s s'.
Proof.
  intros Hs. destruct (getStateObject s a) as [r s1] eqn:E. intros [= <- <-].
  destruct (getStateObject_eq _ _ _ _ E) as (-> & _). split; [done|]. apply change_reads; [done|].
  eapply getStateObject_change; [apply Hs|done].
Qed.

Lemma GetCode_ok s a c s' : state_ok s -> vm_GetCode s a = (c, s') -> c = account_code s a /\ read_only s s'.
Proof.
  intros Hs. unfold vm_GetCode. pose proof (GetCode_change s a ltac:(apply Hs)) as Hc.
  destruct (GetCode s a) as [k s1] eqn:E. intros [= <- <-]. split; [|by apply change_reads].
  unfold account_code, GetCode, lookup_obj in *. destruct (getStateObject s a) as [ [o|] s2]; [|by injection E as <- <-].
  simpl. unfold codeof. destruct (obj_Code o). by injection E as <- <-.
Qed.

Lemma GetCodeSize_ok s a n s' : state_ok s -> GetCodeSize s a = (n, s') -> word n /\ read_only s s'.
Proof.
  intros Hs E. pose proof (GetCodeSize_change s a ltac:(apply Hs)) as Hc. rewrite E in Hc. split; [|by apply change_reads].
  unfold GetCodeSize in E. destruct (getStateObject s a) as [ [o|] s1] eqn:Eg; [|injection E as <- <-; apply word_0].
  destruct (State.code o) as [c|] eqn:Ec.
  - injection E as <- <-. assert (lookup_obj s a = Some o) as Hl by (unfold lookup_obj; by rewrite Eg).
    destruct (go_code o) as [_ Hb]; [by apply (proj1 (proj2 Hs) a)|]. rewrite codeof_eq, Ec in Hb. simpl in Hb. unfold word, tt256. lia.
  - destruct (ContractCodeSize _ _) as [sz err] eqn:Ez. injection E as <- <-.
    pose proof (size_fits (addrHash o) (BytesToHash (aCodeHash (data o)))) as Hz. rewrite Ez in Hz. simpl in Hz.
    unfold word, tt256. lia.
Qed.

Lemma GetState_ok s a k : state_ok s -> hash_ok k -> exists v s', GetState s a k = Some (v, s') /\ hash_ok v /\ read_only s s'.
Proof.
  intros Hs Hk. assert (exists v s', GetState s a k = Some (v, s') /\ hash_ok v) as (v & s' & E & Hv).
  { unfold GetState. destruct (getStateObject s a) as [ [o|] s1] eqn:Eg; [|by eexists _, _; split; [done|apply zeroHash_ok]].
    assert (lookup_obj s a = Some o) as Hl by (unfold lookup_obj; by rewrite Eg).
    destruct (go_slot o (proj1 (proj2 Hs) a o Hl) k Hk) as (v & Hsl & Hv). unfold slot in Hsl.
    destruct (obj_GetState o k) as [ [w o']|]; [|done]. injection Hsl as ->. rewrite some_bind. by eexists _, _. }
  exists v, s'. split; [done|]. split; [done|]. apply change_reads; [done|]. eapply GetState_change; [apply Hs|done].
Qed.

(** Changes outside the objects. *)
Lemma aside_ok s es s' :
  state_ok s -> change s es s' -> stateObjects s' = stateObjects s -> strie s' = strie s -> 0 <= refund s' -> same_funds s s'.
Proof.
  intros Hs Hc Ho Ht Hr. assert (forall a, lookup_obj s' a = lookup_obj s a) as Hl by (intros a; apply lookup_obj_ext; congruence).
  destruct (change_ok s es s' Hs Hc) as [H1 H2]; [intros a o; rewrite Hl; apply Hs|done|]. split; [done|]. split; [done|].
  intros a. unfold balance. by rewrite Hl.
Qed.

Lemma AddRefund_ok s g : state_ok s -> 0 <= g -> same_funds s (AddRefund s g).
Proof.
  intros Hs Hg. destruct (AddRefund_change s g ltac:(apply Hs)) as [es Hc]. eapply aside_ok; [done|exact Hc|done|done|].
  simpl. destruct Hs as (_ & _ & Hr). lia.
Qed.

Lemma AddLog_ok s a ts d n : state_ok s -> same_funds s (vm_AddLog s a ts d n).
Proof. intros Hs. unfold vm_AddLog. destruct (AddLog_change s (mkLog a ts d n zeroHash 0 zeroHash 0) ltac:(apply Hs)) as [es Hc].
  eapply aside_ok; [done|exact Hc|done|done|apply Hs]. Qed.

Lemma AddPreimage_ok s h img : state_ok s -> same_funds s (AddPreimage s h img).
Proof.
  intros Hs. destruct (AddPreimage_change s h img ltac:(apply Hs)) as [es Hc].
  eapply aside_ok; [done|exact Hc| | |]; unfold AddPreimage; destruct (preimages s !! h); try done; apply Hs.
Qed.

Lemma SetNonce_ok s a n :
  state_ok s -> same_funds s (SetNonce s a n) /\ forall b, account_nonce (SetNonce s a n) b = upd (account_nonce s) a n b.
Proof.
  intros Hs. destruct (SetNonce_change Keccak_size s a n ltac:(apply Hs)) as [es Hc].
  pose proof (SetNonce_sets s a n ltac:(apply Hs)) as Hp. split; [|apply (sets_nonce _ _ _ _ Hp)].
  eapply sets_same; [done|exact Hc|exact Hp| |apply setters_refund|done]. eapply same_good; [apply (cur_good s a), Hs|done..].
Qed.

Lemma SetCode_ok s a c : state_ok s -> blob c -> same_funds s (vm_SetCode s a c).
Proof.
  intros Hs Hb. unfold vm_SetCode. set (k := match c with [] => None | _ => Some c end).
  destruct (SetCode_change Keccak_size s a k ltac:(apply Hs)) as [es Hc].
  eapply sets_same; [done|exact Hc|apply SetCode_sets, Hs| |apply setters_refund|done]. apply with_code_good; [apply cur_good, Hs|done].
Qed.

Lemma SetState_ok s a k v : state_ok s -> hash_ok k -> hash_ok v -> exists s', SetState s a k v = Some s' /\ same_funds s s'.
Proof.
  intros Hs Hk Hv. destruct (SetState_sets s a k v) as (s' & E & Hp); [apply Hs|apply Hs|done|]. exists s'. split; [done|].
  destruct (SetState_change Keccak_size s a k v s' ltac:(apply Hs) E) as [es Hc].
  eapply sets_same; [done|exact Hc|done| |by eapply setters_refund|done]. apply with_slot_good; [apply cur_good, Hs|done].
Qed.

Lemma CreateAccount_ok s a :
  state_ok s -> same_funds s (CreateAccount s a) /\ forall b, account_nonce (CreateAccount s a) b = upd (account_nonce s) a 0 b.
Proof.
  intros Hs. destruct (CreateAccount_change Keccak_size s a ltac:(apply Hs)) as [es Hc].
  pose proof (CreateAccount_sets s a ltac:(apply Hs)) as Hp. split; [|apply (sets_nonce _ _ _ _ Hp)].
  eapply sets_same; [done|exact Hc|exact Hp| |apply setters_refund|done]. eapply same_good; [apply (fresh_good a)|done..].
Qed.

(** A new balance: nothing else changes. *)
Lemma balance_set s es a v s' :
  state_ok s -> change s es s' -> sets s a (with_balance (cur s a) v) s' -> refund s' = refund s ->
  state_ok s' /\ keeps s s' /\ forall b, balance s' b = upd (balance s) a v b /\ account_nonce s' b = account_nonce s b.
Proof.
  intros Hs Hc Hp Hr. destruct (sets_ok s es a _ _ Hs Hc Hp) as [H1 H2]; [|done|].
  - eapply same_good; [apply (cur_good s a), Hs|done..].
  - split; [done|]. split; [done|]. intros b. rewrite (sets_balance _ _ _ _ Hp), (sets_nonce _ _ _ _ Hp). split; [done|].
    unfold upd. case_decide; [|done]. subst. by rewrite nonce_cur.
Qed.

Lemma AddBalance_ok s a v :
  state_ok s -> state_ok (AddBalance s a v) /\ keeps s (AddBalance s a v) /\
  forall b, balance (AddBalance s a v) b = upd (balance s) a (balance s a + v) b /\
    account_nonce (AddBalance s a v) b = account_nonce s b.
Proof.
  intros Hs. destruct (AddBalance_change Keccak_size s a v ltac:(apply Hs)) as [es Hc]. rewrite balance_cur.
  eapply balance_set; [done|exact Hc|apply AddBalance_sets, Hs|apply setters_refund].
Qed.

Lemma SubBalance_ok s a v :
  state_ok s -> state_ok (SubBalance s a v) /\ keeps s (SubBalance s a v) /\
  forall b, balance (SubBalance s a v) b = upd (balance s) a (balance s a - v) b /\
    account_nonce (SubBalance s a v) b = account_nonce s b.
Proof.
  intros Hs. destruct (SubBalance_change Keccak_size s a v ltac:(apply Hs)) as [es Hc]. rewrite balance_cur.
  eapply balance_set; [done|exact Hc|apply SubBalance_sets, Hs|apply setters_refund].
Qed.

Lemma PutRefund_ok s r :
  state_ok s -> 0 <= r ->
  state_ok (with_refund s r) /\ forall a, balance (with_refund s r) a = balance s a /\ account_nonce (with_refund s r) a = account_nonce s a.
Proof.
  intros (Hw & Hg & _) Hr. assert (forall a, lookup_obj (with_refund s r) a = lookup_obj s a) as Hl by (intros a; by apply lookup_obj_ext).
  split; [|intros a; unfold balance, account_nonce; by rewrite Hl]. split; [|split; [intros a o; rewrite Hl; apply Hg|done]].
  destruct Hw as [Ho Hj Hv]. constructor; [|done|done]. apply (owf_ext s); [done|done|done|apply Ho].
Qed.

Lemma Suicide_ok s a r s' :
  state_ok s -> State.Suicide s a = (r, s') -> state_ok s' /\ keeps s s' /\ forall b, balance s' b = upd (balance s) a 0 b.
Proof.
  intros Hs E. destruct (Suicide_change s a ltac:(apply Hs)) as [es Hc]. rewrite E in Hc. simpl in Hc.
  destruct (setters_refund s a) as (_ & _ & _ & _ & _ & _ & Hr). rewrite E in Hr. simpl in Hr.
  destruct (lookup_obj s a) as [o|] eqn:Hl.
  - pose proof (Suicide_sets s a o ltac:(apply Hs) Hl) as Hp. rewrite E in Hp. simpl in Hp.
    destruct (sets_ok s es a _ _ Hs Hc Hp) as [H1 H2]; [eapply same_good; [apply (proj1 (proj2 Hs) a o Hl)|done..]|done|].
    split; [done|]. split; [done|]. intros b. by rewrite (sets_balance _ _ _ _ Hp).
  - unfold State.Suicide in E. destruct (getStateObject s a) as [x s1] eqn:Eg.
    destruct (getStateObject_eq _ _ _ _ Eg) as (Er & _). rewrite Hl in Er. subst x. injection E as <- <-.
    destruct (change_reads s s1) as (H1 & H2 & H3); [done|eapply getStateObject_change; [apply Hs|done]|].
    split; [done|]. split; [done|]. intros b. rewrite <-(state_eq_balance _ _ _ H3). unfold upd. case_decide; [|done].
    subst. unfold balance. by rewrite Hl.
Qed.

Lemma Snapshot_ok s id s1 :
  state_ok s -> Snapshot s = (id, s1) ->
  read_only s s1 /\ forall s2, state_ok s2 -> keeps s1 s2 -> exists s3, RevertToSnapshot s2 id = Some s3 /\ read_only s s3.
Proof.
  intros Hs E. assert (s1 = (Snapshot s).2) as -> by (by rewrite E). assert (id = nextRevisionId s) as -> by (by injection E).
  assert (state_eq s (Snapshot s).2) as He by apply state_eq_hist. split.
  - split; [split; [apply Snapshot_swf, Hs|split; [eapply good_state_eq; [done|apply Hs]|apply Hs]]|]. split; [|done].
    intros s0 id. apply Snapshot_since.
  - intros s2 Hs2 Hk. pose proof (Hk _ _ (since_start s ltac:(apply Hs))) as Hsince.
    destruct (since_revert _ _ _ Hsince) as (s3 & Hr & He3 & _ & _ & Hw3). symmetry in He3. exists s3. split; [done|].
    split; [split; [done|split; [eapply good_state_eq; [done|apply Hs]|rewrite <-(fr_refund _ _ (se_frame _ _ He3)); apply Hs]]|].
    split; [|done]. intros s0 id0 H0.
    apply (Revert_since s0 id0 s2 (nextRevisionId s)); [apply Hk, Snapshot_since, H0| |done].
    destruct (si_revs _ _ _ H0) as (extra & V). destruct (sw_revs _ (si_swf _ _ _ H0)) as [_ R2].
    destruct (R2 (length (validRevisions s0)) (mkRevision id0 (length (journal s0)))) as [R _]; [|done].
    rewrite V. by apply list_lookup_middle.
Qed.

(** ** The instance *)

Context (contracts_ok : forall byz a pc input, contracts byz a = Some pc -> blob input ->
  0 <= RequiredGas pc input /\
  (RequiredGas pc input < 2 ^ 36 -> exists ret err, PRun pc input = Some (ret, err) /\ blob ret) /\
  (forall ret, PRun pc input <> Some (ret, Some ErrInsufficientBalance))).

#[local] Instance the_host : Host := StateHost contracts.

Definition StateLaws : HostLaws.
Proof.
  refine {| st_ok := state_ok : SDB -> Prop; later := keeps : SDB -> SDB -> Prop; same := state_eq : SDB -> SDB -> Prop;
    bal := balance : SDB -> _; VmLaws.code := account_code : SDB -> _; codehash := account_hash : SDB -> _;
    nonce := account_nonce : SDB -> _ |}.
  - by intros s s0 id.
  - intros s1 s2 s3 H1 H2 s0 id Hs. by apply H2, H1.
  - apply state_eq_balance.
  - apply state_eq_nonce.
  - apply state_eq_code.
  - apply account_code_ok.
  - intros s a b s' Hs E. by apply (getter_ok (fun r : option stateObject => match r with None => 0 | Some o => aBalance (data o) end) s a b s' Hs) in E.
  - intros s a n s' Hs E. by apply (getter_ok (fun r : option stateObject => match r with None => 0 | Some o => aNonce (data o) end) s a n s' Hs) in E.
  - intros s a h s' Hs E.
    apply (getter_ok (fun r : option stateObject => match r with None => zeroHash | Some o => BytesToHash (aCodeHash (data o)) end) s a h s' Hs) in E as [-> ?].
    split; [|done]. unfold account_hash. destruct (lookup_obj s a) as [o|] eqn:El; [|done].
    apply BytesToHash_hash. apply (lookup_obj_ok s a o); [apply Hs|done].
  - apply GetCode_ok.
  - apply GetCodeSize_ok.
  - intros s a b s' Hs E. by apply (getter_ok (fun r : option stateObject => match r with None => false | Some o => suicided o end) s a b s' Hs) in E as [_ ?].
  - intros s a b s' Hs E. apply (getter_ok (fun r : option stateObject => bool_decide (is_Some r)) s a b s' Hs) in E as [-> ?].
    split; [done|]. intros Hn%bool_decide_eq_false. unfold balance, account_nonce.
    destruct (lookup_obj s a); [by destruct Hn|done].
  - intros s a b s' Hs E. by apply (getter_ok (fun r : option stateObject => match r with None => true | Some o => empty o end) s a b s' Hs) in E as [_ ?].
  - apply GetState_ok.
  - apply SetState_ok.
  - apply SetNonce_ok.
  - apply SetCode_ok.
  - apply AddRefund_ok.
  - intros s Hs. apply Hs.
  - apply PutRefund_ok.
  - apply AddLog_ok.
  - apply AddPreimage_ok.
  - apply CreateAccount_ok.
  - apply AddBalance_ok.
  - apply SubBalance_ok.
  - apply Suicide_ok.
  - apply Snapshot_ok.
  - apply hash_bytes.
  - apply hash_length.
  - apply address_size.
  - apply contracts_ok.
Defined.

End Laws.
