(* ===== verification/VmPrecompiles.v ===== *)
(** * The precompiled contracts

    [contracts.go] of [core/vm]: the gas and the behaviour of the eight
    native contracts and the two tables they are in.  The hash functions, the
    recovery of public keys and the pairing curve are the class [Crypto].
    A Go panic is [None].  [contracts_run] shows that no contract panics when
    its gas is below [2 ^ 36], which is what the machine relies on. *)
From S2P Require Import Prelude Types Rlp State StateCodec VmMath VmAnalysis Vm VmLaws VmSafe.
From Stdlib Require Import Zpow_facts.

(** [G1] and [G2] are the groups of the package [bn256]; [Unmarshal] returns
    nothing for a point that is not on the curve. *)
Class Crypto := {
  Sum256 : list Z -> list Z;
  Ripemd160 : list Z -> list Z;
  CKeccak256 : list Z -> list Z;
  Ecrecover : list Z -> list Z -> option (list Z);
  G1 : Type;
  G2 : Type;
  G1_Unmarshal : list Z -> option G1;
  G1_CurvePoints : G1 -> Z * Z;
  G1_Add : G1 -> G1 -> G1;
  G1_ScalarMult : G1 -> Z -> G1;
  G1_Marshal : G1 -> list Z;
  G2_Unmarshal : list Z -> option G2;
  G2_CurvePoints : G2 -> (Z * Z) * (Z * Z);
  PairingCheck : list G1 -> list G2 -> bool
}.

(** ** params and crypto.go *)

Definition EcrecoverGas : Z := 3000.
Definition Sha256BaseGas : Z := 60.
Definition Sha256PerWordGas : Z := 12.
Definition Ripemd160BaseGas : Z := 600.
Definition Ripemd160PerWordGas : Z := 120.
Definition IdentityBaseGas : Z := 15.
Definition IdentityPerWordGas : Z := 3.
Definition ModExpQuadCoeffDiv : Z := 20.
Definition Bn256AddGas : Z := 500.
Definition Bn256ScalarMulGas : Z := 40000.
Definition Bn256PairingBaseGas : Z := 100000.
Definition Bn256PairingPerPointGas : Z := 80000.

Definition secp256k1_N : Z := 0xfffffffffffffffffffffffffffffffebaaedce6af48a03bbfd25e8cd0364141.
Definition secp256k1_halfN : Z := secp256k1_N / 2.

Definition ValidateSignatureValues (v r s : Z) (homestead : bool) : bool :=
  if (r <? 1) || (s <? 1) then false
  else if homestead && (secp256k1_halfN <? s) then false
  else (r <? secp256k1_N) && (s <? secp256k1_N) && ((v =? 0) || (v =? 1)).

(** The prime of [bn256/constants.go]. *)
Definition bn256_P : Z := 21888242871839275222246405745257275088696311157297823662689037894645226208583.

Section Contracts.
Context {CR : Crypto}.

(** ** Hashes and signatures *)

(** [ecrecover.Run]: the result, and what the caller's slice holds after:
    [append] writes [v] behind the signature, into the caller's slice when
    that is long enough. *)
Definition ecrecover_Run (input : list Z) : option (list Z * option vmerror * list Z) :=
  let caller := input in
  let input := RightPadBytes input 128 in
  rb ← slice input 64 96;
  sb ← slice input 96 128;
  x ← input !! 63%nat;
  let r := be_get rb in
  let s := be_get sb in
  let v := u8 (x - 27) in
  pad ← slice input 32 63;
  if negb (allZero pad) || negb (ValidateSignatureValues v r s false) then Some ([], None, caller)
  else
    hash ← slice input 0 32;
    sig ← slice input 64 128;
    let caller := if (128 <? length caller)%nat then <[128%nat := v]> caller else caller in
    match Ecrecover hash (sig ++ [v]) with
    | None => Some ([], None, caller)
    | Some pubKey =>
        p ← slice pubKey 1 (length pubKey);
        h ← slice (CKeccak256 p) 9 (length (CKeccak256 p));
        Some (LeftPadBytes h 32, None, caller)
    end.

Definition ecrecover : PrecompiledContract :=
  mkPrecompiled (fun _ => EcrecoverGas) (fun input => fst <$> ecrecover_Run input).

Definition words_gas (input : list Z) (perWord base : Z) : Z :=
  u64 (u64 (Z.of_nat (length input) + 31) / 32 * perWord + base).

Definition sha256hash : PrecompiledContract :=
  mkPrecompiled (fun input => words_gas input Sha256PerWordGas Sha256BaseGas) (fun input => Some (Sum256 input, None)).

Definition ripemd160hash : PrecompiledContract :=
  mkPrecompiled (fun input => words_gas input Ripemd160PerWordGas Ripemd160BaseGas)
    (fun input => Some (LeftPadBytes (Ripemd160 input) 32, None)).

Definition dataCopy : PrecompiledContract :=
  mkPrecompiled (fun input => words_gas input IdentityPerWordGas IdentityBaseGas) (fun input => Some (input, None)).

(** ** bigModExp *)

(** The three lengths and the operands behind them. *)
Definition modexp_lens (input : list Z) : option (Z * Z * Z) :=
  b ← getData input 0 32;
  e ← getData input 32 32;
  m ← getData input 64 32;
  Some (be_get b, be_get e, be_get m).

Definition modexp_args (input : list Z) : list Z := if (96 <? length input)%nat then drop 96 input else [].

(** The first 32 bytes of the exponent. *)
Definition modexp_expHead (input : list Z) (baseLen expLen : Z) : option Z :=
  if Z.of_nat (length input) <=? baseLen then Some 0
  else if 32 <? expLen then be_get <$> getData input (big_Uint64 baseLen) 32
  else be_get <$> getData input (big_Uint64 baseLen) (big_Uint64 expLen).

Definition modexp_adjExpLen (expLen expHead : Z) : Z :=
  let bitlen := BitLen expHead in
  let msb := if 0 <? bitlen then bitlen - 1 else 0 in
  (if 32 <? expLen then 8 * (expLen - 32) else 0) + msb.

Definition modexp_complexity (g : Z) : Z :=
  if g <=? 64 then g * g
  else if g <=? 1024 then g * g / 4 + (96 * g - 3072)
  else g * g / 16 + (480 * g - 199680).

(** [bigModExp.RequiredGas]; [None] is a panic. *)
Definition bigModExp_RequiredGas (input : list Z) : option Z :=
  '(baseLen, expLen, modLen) ← modexp_lens input;
  let input := modexp_args input in
  expHead ← modexp_expHead input baseLen expLen;
  let gas := modexp_complexity (BigMax modLen baseLen) in
  let gas := gas * BigMax (modexp_adjExpLen expLen expHead) 1 in
  let gas := gas / ModExpQuadCoeffDiv in
  Some (if 64 <? BitLen gas then MaxUint64 else big_Uint64 gas).

Definition bigModExp_Run (input : list Z) : option (list Z * option vmerror) :=
  '(b, e, m) ← modexp_lens input;
  let baseLen := big_Uint64 b in
  let expLen := big_Uint64 e in
  let modLen := big_Uint64 m in
  let input := modexp_args input in
  if (baseLen =? 0) && (modLen =? 0) then Some ([], None)
  else
    base ← be_get <$> getData input 0 baseLen;
    exp ← be_get <$> getData input baseLen expLen;
    mod_ ← be_get <$> getData input (u64 (baseLen + expLen)) modLen;
    if BitLen mod_ =? 0 then Some (LeftPadBytes [] (i64 modLen), None)
    else Some (LeftPadBytes (min_bytes (Zpow_mod base exp mod_)) (i64 modLen), None).

Definition bigModExp : PrecompiledContract :=
  mkPrecompiled (fun input => default 0 (bigModExp_RequiredGas input)) bigModExp_Run.

(** ** The pairing curve *)

Definition newCurvePoint (b : list Z) : vmerror + G1 :=
  match G1_Unmarshal b with
  | None => inl errNotOnCurve
  | Some p =>
      let '(gx, gy) := G1_CurvePoints p in
      if (bn256_P <=? gx) || (bn256_P <=? gy) then inl errInvalidCurvePoint else inr p
  end.

Definition newTwistPoint (b : list Z) : vmerror + G2 :=
  match G2_Unmarshal b with
  | None => inl errNotOnCurve
  | Some p =>
      let '((xr, xi), (yr, yi)) := G2_CurvePoints p in
      if (bn256_P <=? xr) || (bn256_P <=? xi) || (bn256_P <=? yr) || (bn256_P <=? yi)
      then inl errInvalidCurvePoint else inr p
  end.

Definition bn256Add_Run (input : list Z) : option (list Z * option vmerror) :=
  a ← getData input 0 64;
  match newCurvePoint a with
  | inl err => Some ([], Some err)
  | inr x =>
      b ← getData input 64 64;
      match newCurvePoint b with
      | inl err => Some ([], Some err)
      | inr y => Some (G1_Marshal (G1_Add x y), None)
      end
  end.

Definition bn256Add : PrecompiledContract := mkPrecompiled (fun _ => Bn256AddGas) bn256Add_Run.

Definition bn256ScalarMul_Run (input : list Z) : option (list Z * option vmerror) :=
  a ← getData input 0 64;
  match newCurvePoint a with
  | inl err => Some ([], Some err)
  | inr p =>
      k ← getData input 64 32;
      Some (G1_Marshal (G1_ScalarMult p (be_get k)), None)
  end.

Definition bn256ScalarMul : PrecompiledContract := mkPrecompiled (fun _ => Bn256ScalarMulGas) bn256ScalarMul_Run.

(** The pairs from place [i] on; [n] bounds the rounds. *)
Fixpoint pairing_points (n i : nat) (input : list Z) (cs : list G1) (ts : list G2) : option (vmerror + list G1 * list G2) :=
  if (i <? length input)%nat then
    match n with
    | O => None
    | S n' =>
        cb ← slice input i (i + 64);
        match newCurvePoint cb with
        | inl err => Some (inl err)
        | inr c =>
            tb ← slice input (i + 64) (i + 192);
            match newTwistPoint tb with
            | inl err => Some (inl err)
            | inr t => pairing_points n' (i + 192) input (cs ++ [c]) (ts ++ [t])
            end
        end
    end
  else Some (inr (cs, ts)).

Definition true32Byte : list Z := replicate 31 0 ++ [1].
Definition false32Byte : list Z := replicate 32 0.

Definition bn256Pairing_Run (input : list Z) : option (list Z * option vmerror) :=
  if (0 <? length input mod 192)%nat then Some ([], Some errBadPairingInput)
  else
    r ← pairing_points (length input / 192) 0 input [] [];
    match r with
    | inl err => Some ([], Some err)
    | inr (cs, ts) => Some (if PairingCheck cs ts then true32Byte else false32Byte, None)
    end.

Definition bn256Pairing : PrecompiledContract :=
  mkPrecompiled (fun input => u64 (Bn256PairingBaseGas + Z.of_nat (length input) / 192 * Bn256PairingPerPointGas)) bn256Pairing_Run.

(** ** The tables *)

Definition PrecompiledContractsHomestead : list (Z * PrecompiledContract) :=
  [(1, ecrecover); (2, sha256hash); (3, ripemd160hash); (4, dataCopy)].

Definition PrecompiledContractsByzantium : list (Z * PrecompiledContract) :=
  PrecompiledContractsHomestead ++ [(5, bigModExp); (6, bn256Add); (7, bn256ScalarMul); (8, bn256Pairing)].

(** The contract at an address of [size] bytes. *)
Definition contract_at (size : nat) (byzantium : bool) (a : Address) : option PrecompiledContract :=
  snd <$> List.find (fun p => bool_decide (BytesToN size [p.1] = a))
    (if byzantium then PrecompiledContractsByzantium else PrecompiledContractsHomestead).

(** ** No contract panics *)

(** What the primitives return. *)
Class CryptoLaws := {
  Sum256_bytes b : hash_ok (Sum256 b);
  Ripemd160_bytes b : bytes (Ripemd160 b) /\ length (Ripemd160 b) = 20%nat;
  CKeccak_bytes b : hash_ok (CKeccak256 b);
  Ecrecover_bytes h sig k : Ecrecover h sig = Some k -> bytes k /\ length k = 65%nat;
  Marshal_bytes p : bytes (G1_Marshal p) /\ length (G1_Marshal p) = 64%nat
}.

Context {CL : CryptoLaws}.

(** The contract runs on [input] if its gas is below the bound. *)
Definition runs_on (p : PrecompiledContract) (input : list Z) : Prop :=
  0 <= RequiredGas p input /\
  (RequiredGas p input < 2 ^ 36 -> exists ret err, PRun p input = Some (ret, err) /\ blob ret).

Lemma blob_short b : bytes b -> (length b <= 1000)%nat -> blob b.
Proof. intros Hb Hl. split; [done|lia]. Qed.

Lemma LeftPad_blob b l : blob b -> l < 2 ^ 62 -> blob (LeftPadBytes b l).
Proof.
  intros [Hb Hl] Hn. unfold LeftPadBytes. destruct (Z.leb_spec l (Z.of_nat (length b))); [done|]. split.
  - apply bytes_app. split; [apply bytes_replicate_0|done].
  - rewrite length_app, length_replicate. lia.
Qed.

Lemma slice_bytes l a b x : bytes l -> slice l a b = Some x -> bytes x.
Proof. intros Hb. unfold slice. case_decide; [|done]. intros [= <-]. by apply bytes_take, bytes_drop. Qed.

Lemma getData_ok data start size :
  blob data -> 0 <= start -> 0 <= size < 2 ^ 62 ->
  exists d, getData data start size = Some d /\ bytes d /\ Z.of_nat (length d) = size.
Proof.
  intros [Hb Hl] Hst Hsz. unfold getData. set (n := Z.of_nat (length data)) in *.
  set (s := if n <? start then n else start). assert (0 <= s <= n) as Hs by (subst s; destruct (Z.ltb_spec n start); lia).
  rewrite u64_small by lia. set (e := if n <? s + size then n else s + size).
  assert (s <= e <= n /\ e - s <= size) as He by (subst e; destruct (Z.ltb_spec n (s + size)); lia).
  unfold slice64. rewrite slice_Some by lia. rewrite some_bind.
  set (l := take _ _). assert (Z.of_nat (length l) = e - s) as El by (subst l; rewrite length_take, length_drop; lia).
  assert (bytes l) as Hbl by (by apply bytes_take, bytes_drop).
  rewrite i64_id by lia. unfold RightPadBytes. destruct (Z.leb_spec size (Z.of_nat (length l))).
  - exists l. split; [done|]. split; [done|lia].
  - eexists. split; [done|]. rewrite length_app, length_replicate. split; [|lia].
    apply bytes_app. split; [done|apply bytes_replicate_0].
Qed.

Lemma RightPad_ok b (n : nat) : bytes b -> bytes (RightPadBytes b (Z.of_nat n)) /\ (n <= length (RightPadBytes b (Z.of_nat n)))%nat.
Proof.
  intros Hb. unfold RightPadBytes. destruct (Z.leb_spec (Z.of_nat n) (Z.of_nat (length b))); [split; [done|lia]|].
  rewrite length_app, length_replicate. split; [apply bytes_app; split; [done|apply bytes_replicate_0]|lia].
Qed.

Lemma ecrecover_runs input : blob input -> runs_on ecrecover input.
Proof.
  intros [Hb _]. split; [done|]. intros _. cbn [PRun ecrecover]. unfold ecrecover_Run. cbv zeta.
  destruct (RightPad_ok input 128 Hb) as [Hp Hl]. change (Z.of_nat 128) with 128 in *. set (l := RightPadBytes input 128) in *.
  rewrite (slice_Some l 64 96), (slice_Some l 96 128), (slice_Some l 32 63), (slice_Some l 0 32), (slice_Some l 64 128) by lia.
  rewrite !some_bind. destruct (lookup_lt_is_Some_2 l 63 ltac:(lia)) as [x ->]. rewrite !some_bind.
  case_match; [eexists _, _; split; [done|apply blob_nil]|]. destruct (Ecrecover _ _) as [k|] eqn:Ek;
    [|eexists _, _; split; [done|apply blob_nil]].
  destruct (Ecrecover_bytes _ _ _ Ek) as [Hk Hkl]. rewrite (slice_Some k) by lia. rewrite some_bind. set (p := take _ (drop 1 k)).
  destruct (CKeccak_bytes p) as [Hh Hhl]. rewrite (slice_Some (CKeccak256 p)) by lia. rewrite some_bind.
  eexists _, _. split; [done|]. apply LeftPad_blob; [|lia]. apply blob_short; [by apply bytes_take, bytes_drop|].
  rewrite length_take, length_drop. lia.
Qed.

Lemma words_gas_pos input w b : 0 <= words_gas input w b.
Proof. apply Z.mod_pos_bound. lia. Qed.

Lemma sha256hash_runs input : blob input -> runs_on sha256hash input.
Proof.
  intros _. split; [apply words_gas_pos|]. intros _. eexists _, _. split; [done|].
  destruct (Sum256_bytes input). apply blob_short; [done|lia].
Qed.

Lemma ripemd160hash_runs input : blob input -> runs_on ripemd160hash input.
Proof.
  intros _. split; [apply words_gas_pos|]. intros _. eexists _, _. split; [done|].
  destruct (Ripemd160_bytes input). apply LeftPad_blob; [apply blob_short; [done|lia]|lia].
Qed.

Lemma dataCopy_runs input : blob input -> runs_on dataCopy input.
Proof. intros Hb. split; [apply words_gas_pos|]. intros _. by eexists _, _. Qed.

Lemma bn256Add_runs input : blob input -> runs_on bn256Add input.
Proof.
  intros Hb. split; [done|]. intros _. cbn [PRun bn256Add]. unfold bn256Add_Run.
  destruct (getData_ok input 0 64 Hb) as (a & -> & _); [lia..|]. rewrite some_bind.
  destruct (newCurvePoint a) as [err|x]; [eexists _, _; split; [done|apply blob_nil]|].
  destruct (getData_ok input 64 64 Hb) as (b & -> & _); [lia..|]. rewrite some_bind.
  destruct (newCurvePoint b) as [err|y]; [eexists _, _; split; [done|apply blob_nil]|].
  eexists _, _. split; [done|]. destruct (Marshal_bytes (G1_Add x y)). apply blob_short; [done|lia].
Qed.

Lemma bn256ScalarMul_runs input : blob input -> runs_on bn256ScalarMul input.
Proof.
  intros Hb. split; [done|]. intros _. cbn [PRun bn256ScalarMul]. unfold bn256ScalarMul_Run.
  destruct (getData_ok input 0 64 Hb) as (a & -> & _); [lia..|]. rewrite some_bind.
  destruct (newCurvePoint a) as [err|x]; [eexists _, _; split; [done|apply blob_nil]|].
  destruct (getData_ok input 64 32 Hb) as (b & -> & _); [lia..|]. rewrite some_bind.
  eexists _, _. split; [done|]. destruct (Marshal_bytes (G1_ScalarMult x (be_get b))). apply blob_short; [done|lia].
Qed.

(** The rounds suffice, and every slice of the loop is in range. *)
Lemma pairing_points_total n k input cs ts :
  length input = (192 * (k + n))%nat -> exists r, pairing_points n (192 * k) input cs ts = Some r.
Proof.
  revert k cs ts. induction n as [|n IH]; intros k cs ts Hl; cbn [pairing_points].
  - destruct (Nat.ltb_spec (192 * k) (length input)); [lia|by eexists].
  - destruct (Nat.ltb_spec (192 * k) (length input)); [|by eexists].
    rewrite (slice_Some input (192 * k)), (slice_Some input (192 * k + 64)) by lia. rewrite some_bind.
    destruct (newCurvePoint _); [by eexists|]. rewrite some_bind. destruct (newTwistPoint _); [by eexists|].
    replace (192 * k + 192)%nat with (192 * S k)%nat by lia. apply IH. lia.
Qed.

Lemma bn256Pairing_runs input : blob input -> runs_on bn256Pairing input.
Proof.
  intros Hb. split; [apply Z.mod_pos_bound; lia|]. intros _. cbn [PRun bn256Pairing]. unfold bn256Pairing_Run.
  destruct (Nat.ltb_spec 0 (length input mod 192)) as [H|H]; [eexists _, _; split; [done|apply blob_nil]|].
  assert (length input = (192 * (0 + length input / 192))%nat) as Hl.
  { pose proof (Nat.div_mod (length input) 192). lia. }
  destruct (pairing_points_total _ 0 input [] [] Hl) as [r E]. change (192 * 0)%nat with 0%nat in E. rewrite E, some_bind.
  destruct r as [err|[cs ts] ]; [eexists _, _; split; [done|apply blob_nil]|].
  eexists _, _. split; [done|]. assert (bytes true32Byte) as H1 by (by apply (bool_decide_unpack _); vm_compute).
  destruct (PairingCheck cs ts); apply blob_short; [done|simpl; lia|apply bytes_replicate_0|simpl; lia].
Qed.

(** ** bigModExp *)

Lemma modexp_lens_ok input :
  blob input -> exists b e m, modexp_lens input = Some (b, e, m) /\ 0 <= b /\ 0 <= e /\ 0 <= m.
Proof.
  intros Hb. unfold modexp_lens.
  destruct (getData_ok input 0 32 Hb) as (x & -> & Hx & _); [lia..|]. rewrite some_bind.
  destruct (getData_ok input 32 32 Hb) as (y & -> & Hy & _); [lia..|]. rewrite some_bind.
  destruct (getData_ok input 64 32 Hb) as (z & -> & Hz & _); [lia..|]. rewrite some_bind.
  eexists _, _, _. split; [done|]. pose proof (be_get_bound x Hx). pose proof (be_get_bound y Hy). pose proof (be_get_bound z Hz). lia.
Qed.

Lemma modexp_args_blob input : blob input -> blob (modexp_args input).
Proof.
  intros [Hb Hl]. unfold modexp_args. case_match; [|apply blob_nil]. split; [by apply bytes_drop|]. rewrite length_drop. lia.
Qed.

Lemma modexp_expHead_ok input b e : blob input -> 0 <= b -> 0 <= e -> exists h, modexp_expHead input b e = Some h.
Proof.
  intros Hi Hb He. unfold modexp_expHead. case_match; [by eexists|]. destruct (Z.ltb_spec 32 e).
  - destruct (getData_ok input (big_Uint64 b) 32 Hi) as (d & -> & _); [apply big_Uint64_range|lia|by eexists].
  - rewrite (big_Uint64_small e) by lia.
    destruct (getData_ok input (big_Uint64 b) e Hi) as (d & -> & _); [apply big_Uint64_range|lia|by eexists].
Qed.

Lemma modexp_complexity_pos g : 0 <= g -> 0 <= modexp_complexity g.
Proof.
  intros Hg. unfold modexp_complexity. destruct (Z.leb_spec g 64); [nia|]. destruct (Z.leb_spec g 1024).
  - pose proof (Z.div_pos (g * g) 4). nia.
  - pose proof (Z.div_pos (g * g) 16). nia.
Qed.

(** A price bounds what is paid for: at least the length itself. *)
Lemma modexp_complexity_ge g : 0 <= g -> g <= modexp_complexity g.
Proof.
  intros Hg. unfold modexp_complexity. destruct (Z.leb_spec g 64); [nia|]. destruct (Z.leb_spec g 1024).
  - pose proof (Z.div_pos (g * g) 4). nia.
  - pose proof (Z.div_pos (g * g) 16). nia.
Qed.

Lemma modexp_adj_ge e h : 0 <= e -> 8 * (e - 32) <= BigMax (modexp_adjExpLen e h) 1 /\ 1 <= BigMax (modexp_adjExpLen e h) 1.
Proof.
  intros He. unfold modexp_adjExpLen, BigMax. set (msb := if 0 <? BitLen h then _ else _).
  assert (0 <= msb) by (unfold msb; destruct (Z.ltb_spec 0 (BitLen h)); lia).
  destruct (Z.ltb_spec 32 e); case_match; rewrite ?Z.ltb_lt, ?Z.ltb_ge in *; lia.
Qed.

(** What can be paid for is short. *)
Lemma bigModExp_gas input :
  blob input ->
  exists b e m g, modexp_lens input = Some (b, e, m) /\ 0 <= b /\ 0 <= e /\ 0 <= m /\
    bigModExp_RequiredGas input = Some g /\ 0 <= g /\
    (g < 2 ^ 36 -> b < 2 ^ 42 /\ m < 2 ^ 42 /\ (0 < b \/ 0 < m -> e < 2 ^ 42)).
Proof.
  intros Hi. destruct (modexp_lens_ok input Hi) as (b & e & m & E & Hb & He & Hm).
  destruct (modexp_expHead_ok (modexp_args input) b e (modexp_args_blob _ Hi) Hb He) as [h Eh].
  unfold bigModExp_RequiredGas. rewrite E, some_bind, Eh, some_bind. eexists _, _, _, _. split; [done|].
  split; [done|]. split; [done|]. split; [done|]. split; [done|].
  assert (0 <= BigMax m b /\ m <= BigMax m b /\ b <= BigMax m b) as (Hx & Hxm & Hxb).
  { unfold BigMax. destruct (Z.ltb_spec m b); lia. }
  pose proof (modexp_complexity_ge _ Hx) as Hc. set (c := modexp_complexity _) in *.
  destruct (modexp_adj_ge e h He) as [Ha Ha1]. set (a := BigMax (modexp_adjExpLen e h) 1) in *.
  unfold ModExpQuadCoeffDiv. assert (0 <= c * a / 20) as Hq by (apply Z.div_pos; nia).
  set (q := c * a / 20) in *. assert (c * a < 20 * (q + 1)) as Hqa by (pose proof (Z.mod_pos_bound (c * a) 20); pose proof (Z.div_mod (c * a) 20); unfold q; lia).
  pose proof (BitLen_le q 64 Hq ltac:(lia)) as HBL. destruct (Z.ltb_spec 64 (BitLen q)).
  - unfold MaxUint64. split; [lia|]. lia.
  - rewrite big_Uint64_small by lia. split; [done|]. intros Hlt.
    assert (c <= c * a) by nia. split; [lia|]. split; [lia|]. intros Hne. assert (a <= c * a) by nia. lia.
Qed.

Lemma be_get_nonneg d : bytes d -> 0 <= be_get d.
Proof. intros Hd. pose proof (be_get_bound d Hd). lia. Qed.

(** The result of the exponentiation fits the modulus. *)
Lemma modexp_result base e md (n : nat) : 0 < md < 256 ^ Z.of_nat n -> 0 <= e -> (length (min_bytes (Zpow_mod base e md)) <= n)%nat.
Proof.
  intros Hm He. rewrite Zpow_mod_correct by lia. apply min_bytes_length. pose proof (Z.mod_pos_bound (base ^ e) md). lia.
Qed.

Lemma bigModExp_runs input : blob input -> runs_on bigModExp input.
Proof.
  intros Hi. destruct (bigModExp_gas input Hi) as (b & e & m & g & El & Hb & He & Hm & Eg & Hg & Hsmall).
  unfold runs_on. cbn [RequiredGas PRun bigModExp]. rewrite Eg. split; [done|]. cbn [default]. intros Hlt.
  destruct (Hsmall Hlt) as (Hb' & Hm' & He'). unfold bigModExp_Run. rewrite El, some_bind. cbv zeta.
  rewrite (big_Uint64_small b), (big_Uint64_small m) by lia.
  destruct ((b =? 0) && (m =? 0)) eqn:E0; [eexists _, _; split; [done|apply blob_nil]|].
  assert (e < 2 ^ 42) by (apply He'; rewrite andb_false_iff, !Z.eqb_neq in E0; lia).
  rewrite (big_Uint64_small e), u64_small by lia. pose proof (modexp_args_blob input Hi) as Ha. set (args := modexp_args input) in *.
  destruct (getData_ok args 0 b Ha) as (x & -> & Hx & _); [lia..|]. cbn [fmap option_fmap option_map]. rewrite some_bind.
  destruct (getData_ok args b e Ha) as (y & -> & Hy & _); [lia..|]. cbn [fmap option_fmap option_map]. rewrite some_bind.
  destruct (getData_ok args (b + e) m Ha) as (z & -> & Hz & Hzl); [lia..|]. cbn [fmap option_fmap option_map]. rewrite some_bind.
  rewrite i64_id by lia. destruct (BitLen (be_get z) =? 0) eqn:Ez.
  - eexists _, _. split; [done|]. apply LeftPad_blob; [apply blob_nil|lia].
  - eexists _, _. split; [done|]. apply LeftPad_blob; [|lia]. split; [apply min_bytes_ok|].
    pose proof (be_get_bound z Hz). pose proof (be_get_nonneg y Hy).
    assert (be_get z <> 0) by (intros E; by rewrite E in Ez).
    pose proof (modexp_result (be_get x) (be_get y) (be_get z) (length z)). lia.
Qed.

(** Every contract of the tables runs when its gas is below the bound. *)
Lemma contracts_run size byz a p input : contract_at size byz a = Some p -> blob input -> runs_on p input.
Proof.
  intros E Hb. unfold contract_at in E. destruct (List.find _ _) as [ [k q]|] eqn:Ef; [|done]. injection E as <-.
  apply List.find_some in Ef as [Hin _].
  assert (In (k, q) PrecompiledContractsByzantium) as Hin'.
  { destruct byz; [done|]. apply in_or_app. by left. }
  clear Hin. simpl in Hin'. destruct_or! Hin'; try (injection Hin' as <- <-); [apply ecrecover_runs|apply sha256hash_runs|
    apply ripemd160hash_runs|apply dataCopy_runs|apply bigModExp_runs|apply bn256Add_runs|apply bn256ScalarMul_runs|
    apply bn256Pairing_runs]; done.
Qed.

(** The errors are about points of the curve. *)
Lemma newCurvePoint_error b err : newCurvePoint b = inl err -> err = errNotOnCurve \/ err = errInvalidCurvePoint.
Proof. unfold newCurvePoint. repeat case_match; intros [= <-]; auto. Qed.

Lemma newTwistPoint_error b err : newTwistPoint b = inl err -> err = errNotOnCurve \/ err = errInvalidCurvePoint.
Proof. unfold newTwistPoint. repeat case_match; intros [= <-]; auto. Qed.

Lemma pairing_points_error n i input cs ts err :
  pairing_points n i input cs ts = Some (inl err) -> err = errNotOnCurve \/ err = errInvalidCurvePoint.
Proof.
  revert i cs ts. induction n as [|n IH]; intros i cs ts; simpl; (case_match; [|done]); [done|].
  destruct (slice input i (i + 64)) as [cb|]; [|done]. simpl. destruct (newCurvePoint cb) as [e|c] eqn:E1;
    [intros [= <-]; by eapply newCurvePoint_error|].
  destruct (slice input (i + 64) (i + 192)) as [tb|]; [|done]. simpl. destruct (newTwistPoint tb) as [e|t] eqn:E2;
    [intros [= <-]; by eapply newTwistPoint_error|]. apply IH.
Qed.

Ltac no_such_error :=
  repeat match goal with
    | |- (_ ≫= _) = Some _ -> _ => let E := fresh in intros E; apply bind_Some in E as (? & ? & E); revert E
    | |- _ => progress cbn beta zeta
    | |- context [match ?x with _ => _ end] => destruct x eqn:?
    | |- Some _ = Some _ -> _ => let E := fresh in intros E; injection E as <- <-
    | |- None = Some _ -> _ => discriminate
    | H : newCurvePoint _ = inl _ |- _ => apply newCurvePoint_error in H as [-> | ->]
    | H : pairing_points _ _ _ _ _ = Some (inl _) |- _ => apply pairing_points_error in H as [-> | ->]
    | |- _ => done
    end.

Lemma contracts_errors size byz a p input ret err :
  contract_at size byz a = Some p -> PRun p input = Some (ret, err) -> err <> Some ErrInsufficientBalance.
Proof.
  intros E. unfold contract_at in E. destruct (List.find _ _) as [ [k q]|] eqn:Ef; [|done]. injection E as <-.
  apply List.find_some in Ef as [Hin _].
  assert (In (k, q) PrecompiledContractsByzantium) as Hin'.
  { destruct byz; [done|]. apply in_or_app. by left. }
  clear Hin. simpl in Hin'. destruct_or! Hin'; try (injection Hin' as <- <-); try done;
    cbn [PRun ecrecover sha256hash ripemd160hash dataCopy bigModExp bn256Add bn256ScalarMul bn256Pairing]; try (by intros [= <- <-]).
  - destruct (ecrecover_Run input) as [ [ [r o] b]|] eqn:Er; [|done]. intros [= <- <-]. revert Er. unfold ecrecover_Run. no_such_error.
  - unfold bigModExp_Run. no_such_error.
  - unfold bn256Add_Run. no_such_error.
  - unfold bn256ScalarMul_Run. no_such_error.
  - unfold bn256Pairing_Run. no_such_error.
Qed.

(** What the machine relies on. *)
Lemma contracts_ok size byz a p input :
  contract_at size byz a = Some p -> blob input ->
  0 <= RequiredGas p input /\
  (RequiredGas p input < 2 ^ 36 -> exists ret err, PRun p input = Some (ret, err) /\ blob ret) /\
  (forall ret, PRun p input <> Some (ret, Some ErrInsufficientBalance)).
Proof.
  intros E Hb. destruct (contracts_run _ _ _ _ _ E Hb) as [H1 H2]. split; [done|]. split; [done|].
  intros ret Hr. by apply (contracts_errors _ _ _ _ _ _ _ E Hr).
Qed.

End Contracts.

(** ** What bigModExp computes *)

Lemma getData_exact pre x post :
  blob (pre ++ x ++ post) -> getData (pre ++ x ++ post) (Z.of_nat (length pre)) (Z.of_nat (length x)) = Some x.
Proof.
  intros [_ Hl]. unfold getData. rewrite !length_app in *. rewrite (proj2 (Z.ltb_ge _ _)) by lia. rewrite u64_small by lia.
  rewrite (proj2 (Z.ltb_ge _ (_ + _))) by lia. unfold slice64. rewrite slice_Some by (rewrite !length_app; lia).
  rewrite some_bind, Nat2Z.id, drop_app_length. replace (_ - length pre)%nat with (length x) by lia.
  rewrite take_app_length. f_equal. rewrite i64_id by lia. unfold RightPadBytes. by rewrite Z.leb_refl.
Qed.

Lemma be_get_zeros n : be_get (replicate n 0) = 0.
Proof. induction n; [done|]. cbn [replicate]. rewrite be_get_cons. lia. Qed.

(** Padding the minimal bytes of a number gives its bytes. *)
Lemma LeftPad_number v (n : nat) : 0 <= v < 256 ^ Z.of_nat n -> LeftPadBytes (min_bytes v) (Z.of_nat n) = be_put n v.
Proof.
  intros Hv. destruct (min_bytes_big v) as (Hb & Hg & _); [lia|]. pose proof (min_bytes_length v n Hv) as Hl.
  assert (LeftPadBytes (min_bytes v) (Z.of_nat n) = replicate (n - length (min_bytes v)) 0 ++ min_bytes v) as ->.
  { unfold LeftPadBytes. destruct (Z.leb_spec (Z.of_nat n) (Z.of_nat (length (min_bytes v)))).
    - by replace (n - length (min_bytes v))%nat with 0%nat by lia.
    - by rewrite Nat2Z.id. }
  apply be_get_inj; [apply bytes_app; split; [apply bytes_replicate_0|done]|apply be_put_bytes| |].
  - rewrite length_app, length_replicate, length_be_put. lia.
  - rewrite be_get_put_small by done. rewrite be_get_app, Hg, be_get_zeros. lia.
Qed.

(** An input of [bigModExp]. *)
Definition modexp_input (b e m : list Z) : list Z :=
  be_put 32 (Z.of_nat (length b)) ++ be_put 32 (Z.of_nat (length e)) ++ be_put 32 (Z.of_nat (length m)) ++ b ++ e ++ m.

Lemma modexp_input_blob b e m :
  bytes b -> bytes e -> bytes m -> Z.of_nat (length b + length e + length m) < 2 ^ 32 -> blob (modexp_input b e m).
Proof.
  intros Hb He Hm Hl. split.
  - unfold modexp_input. rewrite !bytes_app. eauto 10 using be_put_bytes.
  - unfold modexp_input. rewrite !length_app, !length_be_put. lia.
Qed.

Lemma modexp_input_lens b e m :
  bytes b -> bytes e -> bytes m -> Z.of_nat (length b + length e + length m) < 2 ^ 32 ->
  modexp_lens (modexp_input b e m) = Some (Z.of_nat (length b), Z.of_nat (length e), Z.of_nat (length m)) /\
  modexp_args (modexp_input b e m) = b ++ e ++ m.
Proof.
  intros Hb He Hm Hl. pose proof (modexp_input_blob b e m Hb He Hm Hl) as Hbl. unfold modexp_input in *.
  set (x := be_put 32 (Z.of_nat (length b))) in *. set (y := be_put 32 (Z.of_nat (length e))) in *.
  set (z := be_put 32 (Z.of_nat (length m))) in *. unfold modexp_lens.
  assert (length x = 32 /\ length y = 32 /\ length z = 32)%nat as (Hx & Hy & Hz) by (unfold x, y, z; by rewrite !length_be_put).
  assert (be_get x = Z.of_nat (length b) /\ be_get y = Z.of_nat (length e) /\ be_get z = Z.of_nat (length m)) as (Vx & Vy & Vz)
    by (unfold x, y, z; rewrite !be_get_put_small; [done|lia..]).
  clearbody x y z.
  pose proof (getData_exact [] x (y ++ z ++ b ++ e ++ m) Hbl) as G1. rewrite Hx in G1. 
  rewrite (G1 : getData (x ++ y ++ z ++ b ++ e ++ m) 0 32 = Some x), some_bind.
  pose proof (getData_exact x y (z ++ b ++ e ++ m) Hbl) as G2. rewrite Hx, Hy in G2. 
  rewrite (G2 : getData (x ++ y ++ z ++ b ++ e ++ m) 32 32 = Some y), some_bind.
  pose proof (getData_exact (x ++ y) z (b ++ e ++ m)) as G3. rewrite <-!app_assoc, length_app, Hx, Hy, Hz in G3.
  rewrite (G3 Hbl : getData (x ++ y ++ z ++ b ++ e ++ m) 64 32 = Some z), some_bind. split.
  - by rewrite Vx, Vy, Vz.
  - unfold modexp_args. rewrite !length_app, Hx, Hy, Hz. destruct (length b + (length e + length m))%nat eqn:E.
    + destruct b, e, m; simpl in *; try lia. done.
    + rewrite (proj2 (Nat.ltb_lt _ _)) by lia.
      replace 96%nat with (length (x ++ y ++ z)) by (rewrite !length_app; lia).
      rewrite !app_assoc, <-(app_assoc x y z), <-(app_assoc _ b), <-(app_assoc _ _ m). by rewrite drop_app_length.
Qed.

(** [bigModExp.Run] is modular exponentiation.  Given the three lengths
    as 32-byte words and then base, exponent and modulus, it returns
    [base ^ exponent mod modulus] in as many bytes as the modulus has, and
    zero bytes for the modulus zero, for operands of any length together
    below [2 ^ 32]. *)
Theorem bigModExp_spec b e m :
  bytes b -> bytes e -> bytes m -> Z.of_nat (length b + length e + length m) < 2 ^ 32 -> b <> [] \/ m <> [] ->
  bigModExp_Run (modexp_input b e m) =
    Some (be_put (length m) (if be_get m =? 0 then 0 else be_get b ^ be_get e mod be_get m), None).
Proof.
  intros Hb He Hm Hl Hne. destruct (modexp_input_lens b e m Hb He Hm Hl) as [E1 E2]. unfold bigModExp_Run.
  rewrite E1, some_bind, E2. cbv zeta. rewrite !big_Uint64_small by lia.
  assert ((Z.of_nat (length b) =? 0) && (Z.of_nat (length m) =? 0) = false) as ->.
  { rewrite andb_false_iff, !Z.eqb_neq. destruct Hne as [Hne|Hne]; [left|right]; destruct b, m; simpl; try done; lia. }
  assert (blob (b ++ e ++ m)) as Hbl by (split; [by rewrite !bytes_app|rewrite !length_app; lia]).
  pose proof (getData_exact [] b (e ++ m) Hbl) as G1. rewrite (G1 : getData (b ++ e ++ m) 0 _ = Some b). cbn [fmap option_fmap option_map]. rewrite some_bind.
  rewrite (getData_exact b e m Hbl). cbn [fmap option_fmap option_map]. rewrite some_bind, u64_small by lia.
  pose proof (getData_exact (b ++ e) m []) as G3. rewrite app_nil_r, length_app, Nat2Z.inj_add, <-app_assoc in G3.
  rewrite (G3 Hbl). cbn [fmap option_fmap option_map]. rewrite some_bind, i64_id by lia.
  pose proof (be_get_bound m Hm) as Hbm. pose proof (be_get_nonneg e He). destruct (Z.eqb_spec (be_get m) 0) as [E0|E0].
  - rewrite E0. do 2 f_equal. apply (LeftPad_number 0). lia.
  - assert (BitLen (be_get m) =? 0 = false) as -> by (apply Z.eqb_neq; pose proof (BitLen_le (be_get m) 0); lia).
    do 2 f_equal. rewrite Zpow_mod_correct by lia. apply LeftPad_number. pose proof (Z.mod_pos_bound (be_get b ^ be_get e) (be_get m)). lia.
Qed.

Lemma bigModExp_spec_witness : bigModExp_Run (modexp_input [3] [1; 0] [251]) = Some ([227], None).
Proof.
  replace (Some ([227], None)) with (Some (be_put 1 (if be_get [251] =? 0 then 0 else be_get [3] ^ be_get [1; 0] mod be_get [251]), @None vmerror)).
  - apply (bigModExp_spec [3] [1; 0] [251]); [by repeat constructor..|simpl; lia|by left].
  - vm_compute. reflexivity.
Defined.

(** ** Two inputs that are not handled well *)

(** [getData] adds start and size without looking at the carry: a base of one
    byte and an exponent of [2 ^ 64 - 1] bytes make [bigModExp] panic.  The
    price of this input is an amount of gas that fits 64 bits. *)
Lemma bigModExp_wraps :
  let input := be_put 32 1 ++ be_put 32 (2 ^ 64 - 1) ++ be_put 32 0 ++ [1] in
  bigModExp_RequiredGas input = Some 7378697629483820633 /\ bigModExp_Run input = None.
Proof. vm_compute. split; reflexivity. Qed.

(** [ecrecover] writes into an input of more than 128 bytes. *)
Lemma ecrecover_writes_input {CR : Crypto} :
  let input := replicate 63 0 ++ [27] ++ be_put 32 1 ++ be_put 32 1 ++ [5; 6] in
  Ecrecover (take 32 input) (be_put 32 1 ++ be_put 32 1 ++ [0]) = None ->
  ecrecover_Run input = Some ([], None, take 128 input ++ [0; 6]).
Proof.
  cbv zeta. set (input := _ ++ _). intros E. unfold ecrecover_Run. cbv zeta.
  change (RightPadBytes input 128) with input.
  change (slice input 64 96) with (Some (be_put 32 1)). change (slice input 96 128) with (Some (be_put 32 1)).
  change (input !! 63%nat) with (Some 27). change (slice input 32 63) with (Some (replicate 31 0)). rewrite !some_bind.
  change (negb _ || negb _) with false. cbv iota. change (slice input 0 32) with (Some (take 32 input)).
  change (slice input 64 128) with (Some (be_put 32 1 ++ be_put 32 1)). rewrite !some_bind.
  change (u8 (27 - 27)) with 0. rewrite <-app_assoc, E. reflexivity.
Qed.
