(* ===== verification/VmArith.v ===== *)
(** * The arithmetic instructions of the virtual machine

    [arith] is the arithmetic of 256-bit words as the instructions are
    defined: addition and multiplication modulo [2 ^ 256], signed operations
    on two's complement with the quotient rounded towards zero, a zero divisor
    giving zero.  The instructions compute it with truncation masks, signs
    taken apart, sign bits tested and set, bytes picked out of 64-bit limbs
    and exponentiation by squaring. *)
From S2P Require Import Prelude Types VmMath VmAnalysis Vm.

(** The number a word stands for in two's complement. *)
Definition signed (x : Z) : Z := if x <? 2 ^ 255 then x else x - 2 ^ 256.

(** [x] as a number of [n] bits in two's complement. *)
Definition extend (n x : Z) : Z := let v := x mod 2 ^ n in if v <? 2 ^ (n - 1) then v else v - 2 ^ n.

(** The result on top of the stack, and the rest of the stack. *)
Definition arith (op : OpCode) (st : list Z) : option (Z * list Z) :=
  match op, st with
  | ADD, x :: y :: s => Some ((x + y) mod 2 ^ 256, s)
  | MUL, x :: y :: s => Some ((x * y) mod 2 ^ 256, s)
  | SUB, x :: y :: s => Some ((x - y) mod 2 ^ 256, s)
  | DIV, x :: y :: s => Some (if y =? 0 then 0 else x / y, s)
  | SDIV, x :: y :: s => Some (if y =? 0 then 0 else Z.quot (signed x) (signed y) mod 2 ^ 256, s)
  | MOD, x :: y :: s => Some (if y =? 0 then 0 else x mod y, s)
  | SMOD, x :: y :: s => Some (if y =? 0 then 0 else Z.rem (signed x) (signed y) mod 2 ^ 256, s)
  | ADDMOD, x :: y :: z :: s => Some (if z =? 0 then 0 else (x + y) mod z, s)
  | MULMOD, x :: y :: z :: s => Some (if z =? 0 then 0 else (x * y) mod z, s)
  | EXP, x :: y :: s => Some (x ^ y mod 2 ^ 256, s)
  | SIGNEXTEND, k :: x :: s => Some (if k <? 31 then extend (8 * (k + 1)) x mod 2 ^ 256 else x, s)
  | LT, x :: y :: s => Some (flag (x <? y), s)
  | GT, x :: y :: s => Some (flag (y <? x), s)
  | SLT, x :: y :: s => Some (flag (signed x <? signed y), s)
  | SGT, x :: y :: s => Some (flag (signed y <? signed x), s)
  | EQ, x :: y :: s => Some (flag (x =? y), s)
  | ISZERO, x :: s => Some (flag (x =? 0), s)
  | AND, x :: y :: s => Some (Z.land x y, s)
  | OR, x :: y :: s => Some (Z.lor x y, s)
  | XOR, x :: y :: s => Some (Z.lxor x y, s)
  | NOT, x :: s => Some (2 ^ 256 - 1 - x, s)
  | BYTE, i :: x :: s => Some (if i <? 32 then x / 256 ^ (31 - i) mod 256 else 0, s)
  | _, _ => None
  end.

(** ** Signs *)

Lemma S256_signed x : S256 x = signed x.
Proof. done. Qed.

Lemma signed_range x : word x -> - 2 ^ 255 <= signed x < 2 ^ 255.
Proof. unfold word, tt256, signed. intros Hx. destruct (Z.ltb_spec x (2 ^ 255)); lia. Qed.

Lemma signed_zero x : word x -> (signed x =? 0) = (x =? 0).
Proof. unfold word, tt256, signed. intros Hx. destruct (Z.ltb_spec x (2 ^ 255)), (Z.eqb_spec x 0); lia. Qed.

(** Signing twice is signing once. *)
Lemma signed_signed x : word x -> signed (signed x) = signed x.
Proof. intros Hx. pose proof (signed_range x Hx). unfold signed at 1. by rewrite (proj2 (Z.ltb_lt _ _)) by lia. Qed.

Lemma sdiv_value x y :
  y <> 0 -> U256 (Z.abs x / Z.abs y * (if x * y <? 0 then -1 else 1)) = Z.quot x y mod 2 ^ 256.
Proof.
  intros Hy. rewrite U256_mod. f_equal. rewrite <-Z.quot_div_nonneg by lia.
  pose proof (Z.quot_abs x y Hy) as E. rewrite E. clear E.
  destruct (Z.ltb_spec (x * y) 0) as [H|H].
  - assert (Z.quot x y <= 0).
    { destruct (Z.lt_trichotomy y 0) as [|[|]]; [|lia|].
      - rewrite <-(Z.opp_involutive y), Z.quot_opp_r by lia. pose proof (Z.quot_pos x (- y)). nia.
      - rewrite <-(Z.opp_involutive x), Z.quot_opp_l by lia. pose proof (Z.quot_pos (- x) y). nia. }
    lia.
  - assert (0 <= Z.quot x y).
    { destruct (Z.lt_trichotomy y 0) as [|[|]]; [|lia|].
      - rewrite <-(Z.opp_involutive x), <-(Z.opp_involutive y), Z.quot_opp_opp by lia. apply Z.quot_pos; nia.
      - apply Z.quot_pos; nia. }
    lia.
Qed.

Lemma smod_value x y : y <> 0 -> U256 (Z.abs x mod Z.abs y * (if x <? 0 then -1 else 1)) = Z.rem x y mod 2 ^ 256.
Proof.
  intros Hy. rewrite U256_mod. f_equal. rewrite <-Z.rem_mod_nonneg, Z.rem_abs by lia.
  destruct (Z.ltb_spec x 0).
  - pose proof (Z.rem_nonpos x y Hy). lia.
  - pose proof (Z.rem_nonneg x y Hy). lia.
Qed.

(** ** Bits and bytes *)

(** Setting all bits from [b] on. *)
Lemma lor_high x b : 0 <= b -> Z.lor x (Z.lnot (Z.shiftl 1 b - 1)) = x mod 2 ^ b - 2 ^ b.
Proof.
  intros Hb. rewrite Z.shiftl_1_l, Z.sub_1_r, <-Z.ones_equiv. rewrite <-(Z.lnot_involutive x) at 1. rewrite <-Z.lnot_land, Z.land_ones by done.
  assert (0 < 2 ^ b) by (apply Z.pow_pos_nonneg; lia). unfold Z.lnot.
  replace (Z.pred (- x)) with (2 ^ b - 1 - x mod 2 ^ b + - (x / 2 ^ b + 1) * 2 ^ b) by (pose proof (Z.div_mod x (2 ^ b)); lia).
  pose proof (Z.mod_pos_bound x (2 ^ b)). rewrite Z.mod_add, Z.mod_small by lia. lia.
Qed.

(** The top bit of the low [n + 1] bits. *)
Lemma mod_succ_bit x n : 0 <= n -> x mod 2 ^ (n + 1) = x mod 2 ^ n + (if Z.testbit x n then 2 ^ n else 0).
Proof.
  intros Hn. rewrite Z.pow_add_r, Z.pow_1_r, Z.rem_mul_r by lia. rewrite <-Z.testbit_spec' by done.
  destruct (Z.testbit x n); simpl Z.b2z; lia.
Qed.

Lemma signextend_value k x :
  0 <= k < 31 -> word x ->
  let bit := u64 (big_Uint64 k * 8 + 7) in
  U256 (if Z.testbit x bit then Z.lor x (Z.lnot (Z.shiftl 1 bit - 1)) else Z.land x (Z.shiftl 1 bit - 1)) =
    extend (8 * (k + 1)) x mod 2 ^ 256.
Proof.
  intros Hk Hx bit. assert (bit = 8 * k + 7) as Eb by (unfold bit; rewrite big_Uint64_small, u64_small; lia).
  rewrite U256_mod. f_equal. unfold extend. replace (8 * (k + 1)) with (bit + 1) by lia.
  rewrite mod_succ_bit by lia. replace (bit + 1 - 1) with bit by lia.
  assert (0 < 2 ^ bit) by (apply Z.pow_pos_nonneg; lia). pose proof (Z.mod_pos_bound x (2 ^ bit)). destruct (Z.testbit x bit).
  - rewrite lor_high by lia. rewrite (proj2 (Z.ltb_ge _ _)) by lia. rewrite Z.pow_add_r by lia. lia.
  - rewrite Z.shiftl_1_l, Z.sub_1_r, <-Z.ones_equiv, Z.land_ones by lia.
    rewrite (proj2 (Z.ltb_lt _ _)) by lia. lia.
Qed.

Lemma words_of_lookup n x (i : nat) :
  words_of n x !! i = if (i <? n)%nat then Some (x / 2 ^ (64 * Z.of_nat i) mod 2 ^ 64) else None.
Proof.
  revert x i. induction n as [|n IH]; intros x i; [done|]. destruct i as [|i]; cbn [words_of].
  - change (64 * Z.of_nat 0) with 0. simpl lookup. by rewrite Z.pow_0_r, Z.div_1_r.
  - change ((x mod 2 ^ 64 :: words_of n (x / 2 ^ 64)) !! S i) with (words_of n (x / 2 ^ 64) !! i). rewrite IH.
    rewrite Z.div_div by (try apply Z.pow_pos_nonneg; lia). rewrite <-Z.pow_add_r by lia.
    replace (64 + 64 * Z.of_nat i) with (64 * Z.of_nat (S i)) by lia. done.
Qed.

Lemma byte_of_word y r : 0 <= r < 8 -> u8 (Z.shiftr (y mod 2 ^ 64) (8 * r)) = y / 2 ^ (8 * r) mod 256.
Proof.
  intros Hr. unfold u8. change 256 with (2 ^ 8). rewrite Z.shiftr_div_pow2 by lia. apply Z.bits_inj'. intros n Hn.
  destruct (Z.lt_ge_cases n 8).
  - rewrite !Z.mod_pow2_bits_low, !Z.div_pow2_bits, Z.mod_pow2_bits_low by lia. done.
  - by rewrite !Z.mod_pow2_bits_high by lia.
Qed.

Lemma byte_value x (i : nat) : 0 <= x -> bigEndianByteAt x i = x / 256 ^ Z.of_nat i mod 256.
Proof.
  intros Hx. unfold bigEndianByteAt, big_Bits. rewrite Z.abs_eq by done. set (n := Z.to_nat _). rewrite words_of_lookup.
  unfold wordBytes. assert (256 ^ Z.of_nat i = 2 ^ (64 * Z.of_nat (i / 8)) * 2 ^ (8 * Z.of_nat (i mod 8))) as E.
  { change 256 with (2 ^ 8). rewrite <-Z.pow_mul_r, <-Z.pow_add_r by lia. f_equal. pose proof (Nat.div_mod i 8). lia. }
  pose proof (Nat.mod_upper_bound i 8). destruct (Nat.ltb_spec (i / 8) n) as [H1|H1].
  - rewrite byte_of_word by lia. rewrite Z.div_div, <-E by (try apply Z.pow_pos_nonneg; lia). done.
  - rewrite Z.div_small; [done|]. split; [done|]. eapply Z.lt_le_trans; [apply big_Bits_bound; done|]. fold n. rewrite E.
    assert (0 < 2 ^ (8 * Z.of_nat (i mod 8))) by (apply Z.pow_pos_nonneg; lia).
    assert (2 ^ (64 * Z.of_nat n) <= 2 ^ (64 * Z.of_nat (i / 8))) by (apply Z.pow_le_mono_r; lia). nia.
Qed.

Lemma U256_fits x : 0 <= x < 2 ^ 256 -> U256 x = x.
Proof. apply U256_small. Qed.

Lemma div_word x y : word x -> word y -> 0 <= x / y < 2 ^ 256.
Proof.
  unfold word, tt256. intros Hx Hy. destruct (Z.eq_dec y 0) as [->|]; [by rewrite Zdiv_0_r|]. split; [apply Z.div_pos; lia|].
  apply Z.div_lt_upper_bound; nia.
Qed.

Lemma mod_word x y : word y -> y <> 0 -> 0 <= x mod y < 2 ^ 256.
Proof. unfold word, tt256. intros Hy Hne. pose proof (Z.mod_pos_bound x y). lia. Qed.

Lemma not_value x : word x -> U256 (Z.lnot x) = 2 ^ 256 - 1 - x.
Proof.
  unfold word, tt256. intros Hx. rewrite U256_mod. unfold Z.lnot.
  replace (Z.pred (- x)) with (2 ^ 256 - 1 - x + -1 * 2 ^ 256) by lia. rewrite Z.mod_add, Z.mod_small by lia. done.
Qed.

Lemma byte_instr i x : word i -> word x ->
  (if i <? 32 then Byte_at x 32 (Z.to_nat (i64 i)) else 0) = (if i <? 32 then x / 256 ^ (31 - i) mod 256 else 0).
Proof.
  unfold word. intros [Hi _] [Hx _]. destruct (Z.ltb_spec i 32); [|done]. rewrite i64_id by lia. unfold Byte_at.
  destruct (Nat.leb_spec 32 (Z.to_nat i)); [lia|]. rewrite byte_value by done. do 2 f_equal. f_equal. lia.
Qed.

Lemma div_instr x y : word x -> word y -> (if negb (y =? 0) then U256 (x / y) else 0) = (if y =? 0 then 0 else x / y).
Proof. intros Hx Hy. destruct (y =? 0); [done|]. by apply U256_fits, div_word. Qed.

Lemma mod_instr x y : word y -> (if y =? 0 then 0 else U256 (x mod y)) = (if y =? 0 then 0 else x mod y).
Proof. intros Hy. destruct (Z.eqb_spec y 0); [done|]. by apply U256_fits, mod_word. Qed.

Lemma pos_mod_instr x z : word z -> (if 0 <? z then U256 (x mod z) else 0) = (if z =? 0 then 0 else x mod z).
Proof.
  intros Hz. destruct (Z.ltb_spec 0 z), (Z.eqb_spec z 0); unfold word in *; try lia. by apply U256_fits, mod_word.
Qed.

Lemma sdiv_instr x y : word y ->
  (if S256 y =? 0 then 0 else U256 (Z.abs (S256 x) / Z.abs (S256 y) * (if S256 x * S256 y <? 0 then -1 else 1))) =
  (if y =? 0 then 0 else Z.quot (signed x) (signed y) mod 2 ^ 256).
Proof.
  intros Hy. rewrite !S256_signed, signed_zero by done. destruct (Z.eqb_spec y 0); [done|].
  apply sdiv_value. intros E%Z.eqb_eq. rewrite signed_zero in E by done. lia.
Qed.

Lemma smod_instr x y : word y ->
  (if S256 y =? 0 then 0 else U256 (Z.abs (S256 x) mod Z.abs (S256 y) * (if S256 x <? 0 then -1 else 1))) =
  (if y =? 0 then 0 else Z.rem (signed x) (signed y) mod 2 ^ 256).
Proof.
  intros Hy. rewrite !S256_signed, signed_zero by done. destruct (Z.eqb_spec y 0); [done|].
  apply smod_value. intros E%Z.eqb_eq. rewrite signed_zero in E by done. lia.
Qed.

Lemma slt_instr x y : word y -> flag (S256 x <? S256 (S256 y)) = flag (signed x <? signed y).
Proof. intros Hy. by rewrite !S256_signed, signed_signed. Qed.

Lemma iszero_instr x : word x -> flag (negb (0 <? x)) = flag (x =? 0).
Proof. unfold word. intros Hx. destruct (Z.ltb_spec 0 x), (Z.eqb_spec x 0); lia || done. Qed.

Lemma exp_instr x y : word y -> Exp x y = x ^ y mod 2 ^ 256.
Proof. intros [Hy _]. by apply Exp_spec. Qed.

Create HintDb arith.
#[local] Hint Resolve U256_mod div_instr mod_instr pos_mod_instr sdiv_instr smod_instr slt_instr iszero_instr exp_instr not_value byte_instr : arith.

Section Arith.
Context {HO : Host} (env : Env) (cs : Callees).

(** The code of the instruction, whatever the set it is in. *)
Lemma arith_table op o st r s :
  jump_table env cs op = Some o -> arith op st = Some (r, s) -> frontierInstructionSet env cs op = Some o.
Proof.
  intros Ej Ea. assert (byzantiumInstructionSet env cs op = frontierInstructionSet env cs op /\
    homesteadInstructionSet env cs op = frontierInstructionSet env cs op) as [E1 E2] by (by destruct op).
  unfold jump_table in Ej. destruct (is_byzantium env); [by rewrite <-E1|]. destruct (is_homestead env); [by rewrite <-E2|done].
Qed.

(** Instructions on one, two and three words. *)
Lemma op1_value (g h : Z -> Z) e f r s :
  match stack f with x :: s => Some (h x, s) | _ => None end = Some (r, s) -> Forall word (stack f) ->
  (forall x, word x -> g x = h x) -> op1 g e f = Ok ([], None, e, set_stack f (r :: s)).
Proof.
  unfold op1, done_. destruct (stack f) as [|x st]; [done|]. intros [= <- <-] Hw Hg.
  inversion Hw; subst. by rewrite Hg.
Qed.

Lemma op2_value (g h : Z -> Z -> Z) e f r s :
  match stack f with x :: y :: s => Some (h x y, s) | _ => None end = Some (r, s) -> Forall word (stack f) ->
  (forall x y, word x -> word y -> g x y = h x y) -> op2 g e f = Ok ([], None, e, set_stack f (r :: s)).
Proof.
  unfold op2, done_. destruct (stack f) as [|x [|y st] ]; [done|done|]. intros [= <- <-] Hw Hg.
  rewrite !Forall_cons in Hw. rewrite Hg by tauto. done.
Qed.

Lemma op3_value (g h : Z -> Z -> Z -> Z) e f r s :
  match stack f with x :: y :: z :: s => Some (h x y z, s) | _ => None end = Some (r, s) -> Forall word (stack f) ->
  (forall x y z, word x -> word y -> word z -> g x y z = h x y z) -> op3 g e f = Ok ([], None, e, set_stack f (r :: s)).
Proof.
  unfold op3, done_. destruct (stack f) as [|x [|y [|z st] ] ]; [done..|]. intros [= <- <-] Hw Hg.
  rewrite !Forall_cons in Hw. rewrite Hg by tauto. done.
Qed.

Lemma signextend_ok e f r s :
  arith SIGNEXTEND (stack f) = Some (r, s) -> Forall word (stack f) -> opSignExtend e f = Ok ([], None, e, set_stack f (r :: s)).
Proof.
  unfold opSignExtend, done_. destruct (stack f) as [|k [|x st] ]; [done|done|]. intros [= <- <-] Hw.
  rewrite !Forall_cons in Hw. destruct Hw as ([Hk _] & Hx & _). destruct (Z.ltb_spec k 31); [|done].
  cbv zeta. by rewrite signextend_value.
Qed.

(** C20: the arithmetic instructions compute 256-bit arithmetic.  For every
    instruction set and every stack of words, ADD, MUL, SUB, DIV, SDIV, MOD,
    SMOD, ADDMOD, MULMOD, EXP, SIGNEXTEND, the comparisons, the bit
    operations and BYTE take their operands off the stack and push the value
    [arith] defines, and change nothing else.  In particular the
    square-and-multiply [math.Exp], the sign handling of the signed
    operations, the mask of SIGNEXTEND and the byte taken from the limbs of
    a big integer are right on all words. *)
Theorem arithmetic_correct op o e f r s :
  jump_table env cs op = Some o -> Forall word (stack f) -> arith op (stack f) = Some (r, s) ->
  execute o e f = Ok ([], None, e, set_stack f (r :: s)).
Proof.
  intros Ej Hw Ea. pose proof (arith_table op o _ r s Ej Ea) as Eo. clear Ej.
  destruct op; try discriminate Ea; injection Eo as <-; cbn [execute plain arith] in *;
    try (by apply signextend_ok); first [eapply op1_value|eapply op2_value|eapply op3_value];
    try (exact Ea || done); intros; cbv zeta; auto with arith.
Qed.

End Arith.
