(* ===== verification/VmCorrect.v ===== *)
(** * Calls and creations over the state database

    The virtual machine of [Vm.v] with the state of [State.v] and the
    precompiled contracts of [VmPrecompiles.v]: the theorems about
    [evm.Call] and [evm.Create] as a whole. *)
From S2P Require Import Prelude Types Rlp State StateRevert VmMath VmAnalysis Vm VmLaws VmSafe VmFuel VmState VmPrecompiles VmArith.

Section Correct.
Context {DB : Database} {SL : StoreLaws} {CR : Crypto} {CL : CryptoLaws}.

#[local] Instance vm_host : Host := StateHost (contract_at AddressLength).
#[local] Instance vm_laws : HostLaws := StateLaws (contract_at AddressLength) (contracts_ok AddressLength).

Implicit Types (e : EVM) (a : Address).

(** A call from outside: the machine and its surroundings are well formed and
    the gas is below the bound. *)
Record call_from_outside (env : Env) (B : Z) e (caller : Address) (input : list Z) (gas v : Z) : Prop := mk_from_outside {
  fo_env : env_ok env B;
  fo_evm : evm_ok B e;
  fo_caller : addr_ok caller;
  fo_input : blob input;
  fo_gas : 0 <= gas < 2 ^ 36;
  fo_value : word v
}.

Lemma loop_enough env B (fuel : nat) gas :
  env_ok env B -> gas < Z.of_nat fuel -> 0 <= gas < 2 ^ 36 -> loop_ok B (loop env fuel) (gas + 1).
Proof. intros He Hf Hg. apply (loop_ok_le _ _ (Z.of_nat fuel)); [lia|]. by apply loop_total. Qed.

Lemma outside_Call env B e caller a input gas v (fuel : nat) :
  call_from_outside env B e caller input gas v -> addr_ok a -> gas < Z.of_nat fuel ->
  call_ok B e gas (Call env (loop env fuel) e (AccountRef caller) a input gas v).
Proof. intros [] Ha Hf. apply (Call_ok env B) with (N := gas + 1); try done; [lia|by apply loop_enough|lia]. Qed.

Lemma outside_Create env B e caller input gas v (fuel : nat) :
  call_from_outside env B e caller input gas v -> gas < Z.of_nat fuel ->
  create_ok B e gas (Create env (loop env fuel) e (AccountRef caller) input gas v).
Proof. intros [] Hf. apply (Create_ok env B) with (N := gas + 1); try done; [lia|by apply loop_enough|lia]. Qed.

(** C3: the virtual machine is type safe and terminates.  A call from
    outside with less than [2 ^ 36] gas, to any address, with any input and any
    contract code in the state, returns: it never panics (no stack underflow, no slice or memory
    access out of range, no missing snapshot), and any fuel above the gas gives
    the same result, so the loop and the nested calls end by the gas alone.
    The machine that is left is well formed again (words on the stack, memory
    of bytes, objects and journal of the state consistent, analyses of jump
    destinations that fit their code), call depth and read-only mode are as
    before, and no gas is created. *)
Theorem Call_returns env B e caller a input gas v :
  call_from_outside env B e caller input gas v -> addr_ok a ->
  exists ret left_ err e',
    (forall fuel : nat, gas < Z.of_nat fuel ->
       Call env (loop env fuel) e (AccountRef caller) a input gas v = Ok (ret, left_, err, e')) /\
    evm_ok B e' /\ depth e' = depth e /\ readOnly e' = readOnly e /\ blob ret /\ 0 <= left_ <= gas.
Proof.
  intros Ho Ha. pose proof (fo_gas _ _ _ _ _ _ _ Ho) as Hg.
  destruct (outside_Call env B e caller a input gas v (Z.to_nat (gas + 1)) Ho Ha) as (ret & l & err & e' & E & (Hm & Hr & Hl) & _); [lia|].
  exists ret, l, err, e'. split; [|destruct Hm; done]. intros fuel Hf. eapply Call_more_fuel; [|exact E]. lia.
Qed.

(** C5: a failed call changes nothing.  When a call from outside ends in an
    error (out of gas, stack, jump, revert, depth, balance or any other), every
    getter of the state returns what it returned before the call: balances,
    nonces, code, storage, logs and refunds, whatever the code and the nested
    calls did. *)
Theorem failed_Call_reverts env B e caller a input gas v (fuel : nat) ret left_ err e' :
  call_from_outside env B e caller input gas v -> addr_ok a -> gas < Z.of_nat fuel ->
  Call env (loop env fuel) e (AccountRef caller) a input gas v = Ok (ret, left_, Some err, e') ->
  same_reads (StateDB e' : State.StateDB) (StateDB e : State.StateDB).
Proof.
  intros Ho Ha Hf E. destruct (outside_Call env B e caller a input gas v fuel Ho Ha Hf) as (r & l & er & e1 & E1 & (Hm & _) & Hs).
  rewrite E in E1. injection E1 as <- <- <- <-. apply state_eq_reads; [apply size_length|apply (ev_db _ _ (mv_ok _ _ _ Hm))|].
  symmetry. by apply Hs.
Qed.

(** C18: the machine creates no money.  If the balances of all accounts
    together are at most [B] and none is negative, this still holds after any
    call or contract creation from outside, successful or not: transfers,
    nested calls, refunds of failed calls and self-destructing contracts only
    move funds or burn them. *)
Theorem no_funds_created env B e caller a input gas v (fuel : nat) :
  call_from_outside env B e caller input gas v -> addr_ok a -> gas < Z.of_nat fuel ->
  exists e1 e2,
    (exists ret left_ err, Call env (loop env fuel) e (AccountRef caller) a input gas v = Ok (ret, left_, err, e1)) /\
    (exists ret addr left_ err, Create env (loop env fuel) e (AccountRef caller) input gas v = Ok (ret, addr, left_, err, e2)) /\
    forall e', e' = e1 \/ e' = e2 ->
      (forall b, 0 <= balance (StateDB e') b) /\ forall l, NoDup l -> total (balance (StateDB e')) l <= B.
Proof.
  intros Ho Ha Hf. destruct (outside_Call env B e caller a input gas v fuel Ho Ha Hf) as (r & l & er & e1 & E1 & (Hm1 & _) & _).
  destruct (outside_Create env B e caller input gas v fuel Ho Hf) as (r2 & ad & l2 & er2 & e2 & E2 & (Hm2 & _) & _).
  exists e1, e2. split; [eauto|]. split; [eauto 6|]. intros e' [-> | ->];
    [destruct (ev_funds _ _ (mv_ok _ _ _ Hm1))|destruct (ev_funds _ _ (mv_ok _ _ _ Hm2))]; done.
Qed.

End Correct.

(** ** A machine with two accounts *)

Module Sample.

(** Tries are maps; the hash of some bytes is their number. *)
#[local] Instance countDB : Database := {|
  trie := gmap (list Z) (list Z);
  db_error := unit;
  TryGet t k := (t !! k, None);
  TryUpdate t k v := (<[k := v]> t, None);
  TryDelete t k := (delete k t, None);
  Hash_of _ := zeroHash;
  OpenTrie _ := inr ∅;
  OpenStorageTrie _ _ := inr ∅;
  ContractCode _ _ := (None, Some tt);
  ContractCodeSize _ _ := (0, Some tt);
  dbw := gmap (list Z) (list Z);
  Put w k v := inr (<[k := v]> w);
  Trie_CommitTo t w := inr (zeroHash, t, w);
  Keccak256 b := be_put 32 (Z.of_nat (length b));
  AddressLength := 23
|}.

Lemma count_hash (b : list Z) : hash_ok (be_put 32 (Z.of_nat (length b))).
Proof. split; [apply be_put_bytes|apply length_be_put]. Qed.

#[local] Instance count_laws : StoreLaws.
Proof.
  constructor.
  - apply count_hash.
  - intros c c' [_ H1] [_ H2] E. apply (f_equal be_get) in E. cbn [Keccak256 countDB] in E.
    rewrite !be_get_put_small in E by lia. lia.
  - cbn. lia.
  - intros h. exists ∅. split; [done|]. intros key. cbn. by rewrite lookup_empty.
  - intros h c. cbn. lia.
  - done.
Qed.

#[local] Instance noCrypto : Crypto := {|
  Sum256 b := be_put 32 (Z.of_nat (length b));
  Ripemd160 b := be_put 20 (Z.of_nat (length b));
  CKeccak256 b := be_put 32 (Z.of_nat (length b));
  Ecrecover _ _ := None;
  G1 := unit;
  G2 := unit;
  G1_Unmarshal _ := None;
  G1_CurvePoints _ := (0, 0);
  G1_Add _ _ := tt;
  G1_ScalarMult _ _ := tt;
  G1_Marshal _ := be_put 64 0;
  G2_Unmarshal _ := None;
  G2_CurvePoints _ := ((0, 0), (0, 0));
  PairingCheck _ _ := true
|}.

#[local] Instance noCrypto_laws : CryptoLaws.
Proof.
  constructor.
  - apply count_hash.
  - intros b. split; [apply be_put_bytes|apply length_be_put].
  - apply count_hash.
  - discriminate.
  - intros p. split; [apply be_put_bytes|apply length_be_put].
Qed.

#[local] Instance host : Host := vm_host.
#[local] Instance laws : HostLaws := vm_laws.

Definition alice : Address := replicate 22 0 ++ [21].
Definition bob : Address := replicate 22 0 ++ [22].

(** [PUSH1 1, PUSH1 0, SSTORE] and then an invalid opcode. *)
Definition program : list Z := [0x60; 1; 0x60; 0; 0x55; 0xfe].

Definition empty_state : State.StateDB := mkState (∅ : gmap (list Z) (list Z)) ∅ ∅ None 0 zeroHash zeroHash 0 ∅ 0 ∅ [] [] 0.
Definition funded : State.StateDB := AddBalance empty_state alice 100.
Definition state : State.StateDB := vm_SetCode funded bob program.

Definition machine : EVM := mkEVM (state : SDB) 0 false [] ∅ 0.

Definition env : Env := mkEnv (mkContext alice 1 alice 1000000 10 0 1 (fun _ => zeroHash))
  (mkChainConfig (Some 0) (Some 0) (Some 0) (Some 0)) (mkConfig false false false) (fun _ => false).

Lemma empty_lookup a : lookup_obj empty_state a = None.
Proof. rewrite lookup_obj_eq. cbn. unfold loaded_obj, loadAccount. cbn. by rewrite !lookup_empty. Qed.

Lemma empty_ok : state_ok empty_state.
Proof.
  split; [|split; [intros a o Hl; by rewrite empty_lookup in Hl|done]]. constructor; [|constructor|].
  - constructor; cbn; try (intros a o Ho; by rewrite lookup_empty in Ho); [|lia].
    intros a acc. unfold loadAccount. cbn. by rewrite lookup_empty.
  - constructor; cbn; intros; by rewrite lookup_nil in *.
Qed.

Lemma funded_ok : state_ok funded.
Proof. apply AddBalance_ok, empty_ok. Qed.

Lemma program_blob : blob program.
Proof. split; [by repeat constructor|simpl; lia]. Qed.

Lemma state_good : state_ok state /\ forall a, balance state a = upd (fun _ => 0) alice 100 a.
Proof.
  destruct (SetCode_ok funded bob program funded_ok program_blob) as (H1 & _ & H2). split; [done|]. intros a. rewrite H2.
  destruct (AddBalance_ok empty_state alice 100 empty_ok) as (_ & _ & Hb). fold funded in Hb. rewrite (proj1 (Hb a)).
  unfold upd. unfold balance. by rewrite !empty_lookup.
Qed.

Lemma one_account (a : Address) (x : Z) : 0 <= x -> funds x (upd (fun _ => 0) a x).
Proof.
  intros Hx. constructor; [intros b; unfold upd; case_decide; lia|]. intros l Hl. rewrite total_upd by done.
  assert (total (fun _ => 0) l = 0) as -> by (clear Hl; unfold total; induction l as [|b l IH]; [done|by rewrite fmap_cons]). case_decide; lia.
Qed.

Lemma machine_ok : evm_ok 100 machine.
Proof.
  destruct state_good as [H1 H2]. constructor; [done| | |apply blob_nil].
  - eapply funds_ext; [exact H2|]. by apply one_account.
  - intros b m _ Hm. cbn in Hm. by rewrite lookup_empty in Hm.
Qed.

Lemma address_ok (x : Z) : is_byte x -> addr_ok (replicate 22 0 ++ [x]).
Proof. intros Hx. split; [apply bytes_app; split; [apply bytes_replicate_0|by constructor]|simpl; lia]. Qed.

Lemma from_outside (gas v : Z) : 0 <= gas < 2 ^ 36 -> word v -> call_from_outside env 100 machine alice [] gas v.
Proof.
  intros Hg Hv. constructor; [|apply machine_ok|by apply address_ok|apply blob_nil|done|done].
  constructor; [done|by apply word_lit|by apply address_ok|by apply address_ok|intros n; apply zeroHash_ok|lia].
Qed.

Lemma bob_ok : addr_ok bob.
Proof. by apply address_ok. Qed.

(** The fuel for [30000] gas. *)
Definition fuel : nat := Z.to_nat 30001.

Definition result := Call env (loop env fuel) machine (AccountRef alice) bob [] 30000 7.

Lemma Call_returns_witness :
  exists ret left_ err e', result = Ok (ret, left_, err, e') /\ evm_ok 100 e' /\ 0 <= left_ <= 30000.
Proof.
  destruct (Call_returns env 100 machine alice bob [] 30000 7) as (ret & l & err & e' & E & H1 & _ & _ & _ & H2).
  - apply from_outside; [lia|by apply word_lit].
  - apply bob_ok.
  - exists ret, l, err, e'. split; [apply E; unfold fuel; lia|]. split; [exact H1|exact H2].
Defined.

Lemma result_fails : exists ret left_ e', result = Ok (ret, left_, Some (errInvalidOpcode 0xfe), e').
Proof.
  assert (match result with
          | Ok (_, _, Some err, _) => bool_decide (err = errInvalidOpcode 0xfe)
          | _ => false
          end = true) as H by (vm_compute; reflexivity).
  destruct result as [ [ [ [ret l] [err|] ] e']| |]; try discriminate H.
  apply bool_decide_eq_true in H as ->. eauto.
Qed.

Lemma failed_Call_reverts_witness :
  exists ret left_ e', result = Ok (ret, left_, Some (errInvalidOpcode 0xfe), e') /\
    (GetBalance (StateDB e' : State.StateDB) alice).1 = 100 /\ (GetBalance (StateDB e' : State.StateDB) bob).1 = 0.
Proof.
  destruct result_fails as (ret & l & e' & E). exists ret, l, e'. split; [exact E|].
  assert (same_reads (StateDB e' : State.StateDB) (StateDB machine : State.StateDB)) as Hs.
  { apply (failed_Call_reverts env 100 machine alice bob [] 30000 7 fuel ret l (errInvalidOpcode 0xfe) e').
    - apply from_outside; [lia|by apply word_lit].
    - apply bob_ok.
    - unfold fuel. lia.
    - exact E. }
  split; [rewrite (rd_Balance _ _ Hs)|rewrite (rd_Balance _ _ Hs)]; vm_compute; reflexivity.
Defined.

Lemma no_funds_created_witness :
  exists ret left_ err e', result = Ok (ret, left_, err, e') /\ balance (StateDB e') alice + (balance (StateDB e') bob + 0) <= 100.
Proof.
  destruct (no_funds_created env 100 machine alice bob [] 30000 7 fuel) as (e1 & e2 & (ret & l & err & E) & _ & H).
  - apply from_outside; [lia|by apply word_lit].
  - apply bob_ok.
  - unfold fuel. lia.
  - exists ret, l, err, e1. split; [exact E|]. destruct (H e1 (or_introl eq_refl)) as [_ Ht].
    apply (Ht [alice; bob]). apply (bool_decide_unpack _). vm_compute. exact I.
Defined.

(** [-7] divided by [2] is [-3]. *)
Definition dividing : Frame := mkFrame 0 [2 ^ 256 - 7; 2] (mkMemory [] 0) (mkContract alice bob [0x05] [] None [] 10 0).

Lemma arithmetic_correct_witness :
  opSdiv machine dividing = Ok ([], None, machine, set_stack dividing [2 ^ 256 - 3]).
Proof.
  apply (arithmetic_correct env (callees env (loop env 0)) SDIV (plain opSdiv (constGasFunc GasFastStep) 2 1) machine dividing (2 ^ 256 - 3) []).
  - reflexivity.
  - constructor; [by apply word_lit|]. constructor; [by apply word_lit|constructor].
  - reflexivity.
Defined.

End Sample.
