(* ===== verification/StateTransition.v ===== *)
(** * Applying a transaction to the state

    [src/core/state_transition.go] and [src/core/gaspool.go] over the virtual
    machine of [Vm.v]: buying gas, the intrinsic gas, the call or creation, the
    refund and the fee.  [st.state] and [st.evm.StateDB] are one object, the
    state of the machine here.  The gas pool is shared by the transactions of a
    block, so the transition returns it also when it fails.  [refundGas]
    multiplies a number it got from [math.BigMin], which may be the refund
    counter of the state itself; [db_PutRefund] is that write. *)
From S2P Require Import Prelude Types State VmMath VmAnalysis Vm VmLaws VmSafe VmFuel VmErrors VmState VmPrecompiles VmCorrect.

Definition TxGas : Z := 21000.
Definition TxGasContractCreation : Z := 53000.
Definition TxDataZeroGas : Z := 4.
Definition TxDataNonZeroGas : Z := 68.

Inductive core_error :=
  | ErrNonceTooHigh | ErrNonceTooLow | errInsufficientBalanceForGas | ErrGasLimitReached
  | VmError (e : vmerror).

#[export] Instance core_error_dec : EqDecision core_error.
Proof. solve_decision. Defined.

(** The interface [Message], by what its methods return. *)
Record Message := mkMessage {
  mFrom : Address; mTo : option Address; mGasPrice : Z; mGas : Z; mValue : Z;
  mNonce : Z; mCheckNonce : bool; mData : list Z
}.

(** ** The gas pool *)

Definition AddGas (gp amount : Z) : Z := gp + amount.

Definition SubGas (gp amount : Z) : option core_error * Z :=
  if gp <? amount then (Some ErrGasLimitReached, gp) else (None, gp - amount).

(** ** The transition *)

Definition IntrinsicGas (data : list Z) (contractCreation homestead : bool) : Z :=
  let igas := if contractCreation && homestead then TxGasContractCreation else TxGas in
  if (0 <? length data)%nat then
    let nz := Z.of_nat (length (filter (fun byt => byt <> 0) data)) in
    let igas := igas + nz * TxDataNonZeroGas in
    igas + (Z.of_nat (length data) - nz) * TxDataZeroGas
  else igas.

Section Transition.
Context {HO : Host}.

Record StateTransition := mkST {
  gp : Z; msg : Message; st_gas : Z; st_gasPrice : Z; initialGas : Z; st_value : Z; st_data : list Z; st_evm : EVM
}.

Definition set_gp (st : StateTransition) (g : Z) : StateTransition :=
  mkST g (msg st) (st_gas st) (st_gasPrice st) (initialGas st) (st_value st) (st_data st) (st_evm st).
Definition put_gas (st : StateTransition) (g : Z) : StateTransition :=
  mkST (gp st) (msg st) g (st_gasPrice st) (initialGas st) (st_value st) (st_data st) (st_evm st).
Definition put_initialGas (st : StateTransition) (g : Z) : StateTransition :=
  mkST (gp st) (msg st) (st_gas st) (st_gasPrice st) g (st_value st) (st_data st) (st_evm st).
Definition put_evm (st : StateTransition) (e : EVM) : StateTransition :=
  mkST (gp st) (msg st) (st_gas st) (st_gasPrice st) (initialGas st) (st_value st) (st_data st) e.
Definition put_db (st : StateTransition) (d : SDB) : StateTransition := put_evm st (set_db (st_evm st) d).
Definition st_state (st : StateTransition) : SDB := StateDB (st_evm st).

Definition NewStateTransition (e : EVM) (m : Message) (g : Z) : StateTransition :=
  mkST g m 0 (mGasPrice m) 0 (mValue m) (mData m) e.

(** An account that does not exist yet is created. *)
Definition ensure (st : StateTransition) (a : Address) : StateTransition :=
  let '(ex, d) := db_Exist (st_state st) a in
  put_db st (if ex : bool then d else db_CreateAccount d a).

Definition from (st : StateTransition) : Address * StateTransition :=
  (mFrom (msg st), ensure st (mFrom (msg st))).

Definition to (st : StateTransition) : Address * StateTransition :=
  match mTo (msg st) with
  | None => (replicate vAddressLength 0, st)
  | Some a => (a, ensure st a)
  end.

Definition useGas (st : StateTransition) (amount : Z) : option core_error * StateTransition :=
  if st_gas st <? amount then (Some (VmError ErrOutOfGas), st)
  else (None, put_gas st (u64 (st_gas st - amount))).

Definition buyGas (st : StateTransition) : option core_error * StateTransition :=
  let mgas := mGas (msg st) in
  if 64 <? BitLen mgas then (Some (VmError ErrOutOfGas), st)
  else
    let mgval := mgas * st_gasPrice st in
    let '(sender, st) := from st in
    let '(b, d) := db_GetBalance (st_state st) sender in
    let st := put_db st d in
    if b <? mgval then (Some errInsufficientBalanceForGas, st)
    else
      match SubGas (gp st) mgas with
      | (Some err, _) => (Some err, st)
      | (None, g) =>
          let st := set_gp st g in
          let st := put_gas st (u64 (st_gas st + big_Uint64 mgas)) in
          let st := put_initialGas st mgas in
          (None, put_db st (db_SubBalance (st_state st) sender mgval))
      end.

Definition preCheck (st : StateTransition) : option core_error * StateTransition :=
  let '(sender, st) := from st in
  if mCheckNonce (msg st) then
    let '(nonce, d) := db_GetNonce (st_state st) sender in
    let st := put_db st d in
    if nonce <? mNonce (msg st) then (Some ErrNonceTooHigh, st)
    else if mNonce (msg st) <? nonce then (Some ErrNonceTooLow, st)
    else buyGas st
  else buyGas st.

Definition gasUsed (st : StateTransition) : Z := initialGas st - st_gas st.

Definition refundGas (st : StateTransition) : StateTransition :=
  let '(sender, st) := from st in
  let remaining := st_gas st * st_gasPrice st in
  let st := put_db st (db_AddBalance (st_state st) sender remaining) in
  let uhalf := gasUsed st / 2 in
  let counter := db_GetRefund (st_state st) in
  let refund := BigMin uhalf counter in
  let st := put_gas st (u64 (st_gas st + big_Uint64 refund)) in
  let paid := refund * st_gasPrice st in
  let st := if counter <? uhalf then put_db st (db_PutRefund (st_state st) paid) else st in
  let st := put_db st (db_AddBalance (st_state st) sender paid) in
  set_gp st (AddGas (gp st) (st_gas st)).

Context (env : Env) (loop : Loop).

(** The call or the creation: what it returns, its error, the state after. *)
Definition execute_message (sender : Address) (st : StateTransition)
    : outcome out_of_fuel (list Z * option vmerror * StateTransition) :=
  match mTo (msg st) with
  | None =>
      '(ret, _, left_, vmerr, e) ← Create env loop (st_evm st) (AccountRef sender) (st_data st) (st_gas st) (st_value st);
      Ok (ret, vmerr, put_evm (put_gas st left_) e)
  | Some _ =>
      let '(nonce, d) := db_GetNonce (st_state st) sender in
      let st := put_db st (db_SetNonce d sender (u64 (nonce + 1))) in
      let '(dest, st) := to st in
      '(ret, left_, vmerr, e) ← Call env loop (st_evm st) (AccountRef sender) dest (st_data st) (st_gas st) (st_value st);
      Ok (ret, vmerr, put_evm (put_gas st left_) e)
  end.

(** [TransitionDb]: the error, or the bytes returned, the gas required, the
    gas used and whether the machine failed. *)
Definition TransitionDb (st : StateTransition)
    : outcome out_of_fuel ((core_error + list Z * Z * Z * bool) * StateTransition) :=
  match preCheck st with
  | (Some err, st) => Ok (inl err, st)
  | (None, st) =>
      let '(sender, st) := from st in
      let contractCreation := bool_decide (mTo (msg st) = None) in
      let intrinsicGas := IntrinsicGas (st_data st) contractCreation (is_homestead env) in
      if 64 <? BitLen intrinsicGas then Ok (inl (VmError ErrOutOfGas), st)
      else
        match useGas st (big_Uint64 intrinsicGas) with
        | (Some err, st) => Ok (inl err, st)
        | (None, st) =>
            '(ret, vmerr, st) ← execute_message sender st;
            if bool_decide (vmerr = Some ErrInsufficientBalance) then Ok (inl (VmError ErrInsufficientBalance), st)
            else
              let requiredGas := gasUsed st in
              let st := refundGas st in
              let fee := gasUsed st * st_gasPrice st in
              let st := put_db st (db_AddBalance (st_state st) (ctx_Coinbase (ctx env)) fee) in
              Ok (inr (ret, requiredGas, gasUsed st, bool_decide (vmerr <> None)), st)
        end
  end.

End Transition.

(** [ApplyMessage]: what comes back besides the changed state and pool. *)
Definition ApplyMessage {HO : Host} (env : Env) (loop : Loop) (e : EVM) (m : Message) (g : Z)
    : outcome out_of_fuel ((core_error + list Z * Z * bool) * StateTransition) :=
  '(r, st) ← TransitionDb env loop (NewStateTransition e m g);
  Ok (match r with inl err => inl err | inr (ret, _, used, failed) => inr (ret, used, failed) end, st).

(** ** What the transition does *)

Section Theorems.
Context {HO : Host} {HL : HostLaws} (env : Env) (B : Z) (env_good : env_ok env B).
Implicit Types (e : EVM) (st : StateTransition) (m : Message) (d : SDB).

(** A message a transaction of a block turns into. *)
Record message_ok m : Prop := mk_message_ok {
  me_from : addr_ok (mFrom m);
  me_to a : mTo m = Some a -> addr_ok a;
  me_price : 0 <= mGasPrice m;
  me_gas : 0 <= mGas m;
  me_value : word (mValue m);
  me_data : blob (mData m)
}.

(** Nothing changes but what the state has loaded or created. *)
Definition idle d d' : Prop := quiet d d' /\ forall a, nonce d' a = nonce d a.

Lemma idle_trans d1 d2 d3 : idle d1 d2 -> idle d2 d3 -> idle d1 d3.
Proof. intros [H1 N1] [H2 N2]. split; [by eapply quiet_trans|]. intros a. by rewrite N2, N1. Qed.

Lemma idle_refl d : st_ok d -> idle d d.
Proof. intros H. split; [|done]. split; [exact H|]. split; [apply later_refl|done]. Qed.

Lemma reads_idle d d' : reads d d' -> idle d d'.
Proof. intros H. split; [by apply reads_quiet|]. intros a. symmetry. apply same_nonce, H. Qed.

Lemma ensure_ok st a : st_ok (st_state st) -> exists d, ensure st a = put_db st d /\ idle (st_state st) d.
Proof.
  intros Hd. unfold ensure. destruct (db_Exist (st_state st) a) as [ex d] eqn:E.
  destruct (ok_Exist _ _ _ _ Hd E) as [Hr H0]. eexists. split; [done|]. apply (idle_trans _ d); [by apply reads_idle|].
  destruct ex; [split; [split; [apply Hr|]; split; [apply later_refl|done]|done]|].
  destruct (ok_CreateAccount d a ltac:(apply Hr)) as [Hq Hn]. split; [done|]. intros b. rewrite Hn. unfold upd. case_decide; [|done].
  subst. rewrite <-(same_nonce (st_state st)) by apply Hr. symmetry. by apply H0.
Qed.

Lemma evm_bound b b' e : b <= b' -> evm_ok b e -> evm_ok b' e.
Proof. intros Hb [H1 [F1 F2] H3 H4]. constructor; try done. constructor; [done|]. intros l Hl. specialize (F2 l Hl). lia. Qed.

Lemma idle_evm b e d : evm_ok b e -> idle (StateDB e) d -> evm_ok b (set_db e d).
Proof. intros He [Hq _]. by apply (moved_quiet b e d). Qed.

Lemma credit b e a v : evm_ok b e -> 0 <= v -> evm_ok (b + v) (set_db e (db_AddBalance (StateDB e) a v)).
Proof.
  intros [H1 H2 H3 H4] Hv. destruct (ok_AddBalance (StateDB e) a v H1) as (S1 & _ & Hb). constructor; try done.
  eapply funds_ext; [intros c; apply (Hb c)|]. by apply funds_gain.
Qed.

Lemma debit b e a v : evm_ok b e -> 0 <= v <= bal (StateDB e) a -> evm_ok (b - v) (set_db e (db_SubBalance (StateDB e) a v)).
Proof.
  intros [H1 H2 H3 H4] Hv. destruct (ok_SubBalance (StateDB e) a v H1) as (S1 & _ & Hb). constructor; try done.
  eapply funds_ext; [intros c; apply (Hb c)|]. by apply funds_pay.
Qed.

(** What an amount for the account [b] adds to the balance of [a]. *)
Definition share (a b : Address) (v : Z) : Z := if decide (a = b) then v else 0.

Lemma AddBalance_share d a v b : st_ok d -> bal (db_AddBalance d a v) b = bal d b + share b a v.
Proof.
  intros Hd. destruct (ok_AddBalance d a v Hd) as (_ & _ & Hb). rewrite (proj1 (Hb b)). unfold upd, share. case_decide; [by subst|lia].
Qed.

Lemma share_add a b v w : share a b v + share a b w = share a b (v + w).
Proof. unfold share. case_decide; lia. Qed.

(** The errors before any gas is bought, in the order of the checks. *)
Definition precheck_error m (n b g : Z) : option core_error :=
  if mCheckNonce m && (n <? mNonce m) then Some ErrNonceTooHigh
  else if mCheckNonce m && (mNonce m <? n) then Some ErrNonceTooLow
  else if 2 ^ 64 <=? mGas m then Some (VmError ErrOutOfGas)
  else if b <? mGas m * mGasPrice m then Some errInsufficientBalanceForGas
  else if g <? mGas m then Some ErrGasLimitReached
  else None.

(** A transition that has only read. *)
Definition started st : Prop := st_gas st = 0 /\ st_gasPrice st = mGasPrice (msg st) /\ 0 <= mGas (msg st).

(** The state after [buyGas] from [st], with the state database [d]. *)
Definition bought st d : StateTransition :=
  mkST (gp st - mGas (msg st)) (msg st) (mGas (msg st)) (st_gasPrice st) (mGas (msg st)) (st_value st) (st_data st)
    (set_db (st_evm st) d).

Definition sender_pays st d : Prop :=
  let a := mFrom (msg st) in
  let cost := mGas (msg st) * mGasPrice (msg st) in
  st_ok d /\ (forall b, bal d b = upd (bal (st_state st)) a (bal (st_state st) a - cost) b) /\
  forall b, nonce d b = nonce (st_state st) b.

Lemma buyGas_spec st :
  started st -> st_ok (st_state st) ->
  match precheck_error (mkMessage (mFrom (msg st)) None (mGasPrice (msg st)) (mGas (msg st)) 0 0 false []) 0
          (bal (st_state st) (mFrom (msg st))) (gp st) with
  | Some err => exists d, buyGas st = (Some err, put_db st d) /\ idle (st_state st) d
  | None => exists d, buyGas st = (None, bought st d) /\ sender_pays st d
  end.
Proof.
  intros (Hg & Hp & Hm) Hd. unfold precheck_error, buyGas, from, SubGas. cbn [mCheckNonce andb mGas mGasPrice].
  destruct (Z.ltb_spec 64 (BitLen (mGas (msg st)))) as [Hb|Hb].
  { rewrite (proj2 (Z.leb_le _ _)) by (destruct (Z.le_gt_cases (2 ^ 64) (mGas (msg st))) as [?|H%BitLen_le]; lia).
    exists (st_state st). split; [by destruct st as [? ? ? ? ? ? ? []]|apply idle_refl; exact Hd]. }
  apply BitLen_le in Hb; [|lia|lia]. rewrite (proj2 (Z.leb_gt _ _)) by lia. rewrite Hp.
  destruct (ensure_ok st (mFrom (msg st)) Hd) as (d & -> & Hi).
  destruct (db_GetBalance (st_state (put_db st d)) _) as [b d'] eqn:Eb.
  destruct (ok_GetBalance _ _ _ _ ltac:(apply Hi) Eb) as [-> Hr].
  assert (idle (st_state st) d') as Hi' by (eapply idle_trans; [exact Hi|by apply reads_idle]).
  assert (forall a, bal d' a = bal (st_state st) a) as Hbal by apply Hi'.
  replace (bal (st_state (put_db st d)) (mFrom (msg st))) with (bal (st_state st) (mFrom (msg st))) by (symmetry; apply Hi).
  destruct (_ <? mGas (msg st) * _); [by exists d'|]. cbn [gp msg put_db put_evm].
  destruct (gp st <? mGas (msg st)); [by exists d'|].
  exists (db_SubBalance d' (mFrom (msg st)) (mGas (msg st) * mGasPrice (msg st))). split.
  - unfold bought, put_db, put_evm, put_initialGas, put_gas, set_gp, st_state, set_db.
    cbn [gp msg st_gas st_gasPrice initialGas st_value st_data st_evm StateDB depth readOnly returnData jumpdests polls].
    by rewrite Hg, Z.add_0_l, big_Uint64_small, u64_small, Hp by lia.
  - destruct (ok_SubBalance d' (mFrom (msg st)) (mGas (msg st) * mGasPrice (msg st)) ltac:(apply Hi')) as (S1 & _ & Hs).
    unfold sender_pays. cbn [st_state put_gas put_initialGas set_gp put_db put_evm StateDB set_db st_evm].
    split; [done|]. split; intros a; destruct (Hs a) as [E1 E2]; [rewrite E1; unfold upd; by rewrite !Hbal|rewrite E2; apply Hi'].
Qed.

Lemma preCheck_spec st :
  started st -> st_ok (st_state st) ->
  match precheck_error (msg st) (nonce (st_state st) (mFrom (msg st))) (bal (st_state st) (mFrom (msg st))) (gp st) with
  | Some err => exists d, preCheck st = (Some err, put_db st d) /\ idle (st_state st) d
  | None => exists d, preCheck st = (None, bought st d) /\ sender_pays st d
  end.
Proof.
  intros Hs Hd. unfold preCheck, from. destruct (ensure_ok st (mFrom (msg st)) Hd) as (d & -> & Hi).
  assert (forall d', idle (st_state st) d' ->
    match precheck_error (mkMessage (mFrom (msg st)) None (mGasPrice (msg st)) (mGas (msg st)) 0 0 false []) 0
            (bal (st_state st) (mFrom (msg st))) (gp st) with
    | Some err => exists d, buyGas (put_db st d') = (Some err, put_db st d) /\ idle (st_state st) d
    | None => exists d, buyGas (put_db st d') = (None, bought st d) /\ sender_pays st d
    end) as Hbuy.
  { intros d' Hi'. pose proof (buyGas_spec (put_db st d') Hs ltac:(apply Hi')) as H.
    change (st_state (put_db st d')) with d' in H. cbn [msg gp put_db put_evm] in H.
    replace (bal d' (mFrom (msg st))) with (bal (st_state st) (mFrom (msg st))) in H by (symmetry; apply Hi').
    destruct (precheck_error _ _ _ _) as [err|]; destruct H as (d2 & E & H2); exists d2; (split; [exact E|]).
    - by eapply idle_trans.
    - destruct H2 as (S1 & S2 & S3). split; [done|]. split; intros b; [rewrite S2|rewrite S3; apply Hi']. cbn [msg put_db put_evm].
      change (st_state (put_db st d')) with d'. unfold upd. destruct Hi' as [(_ & _ & Hb) _]. by rewrite !Hb. }
  unfold precheck_error in *. cbn [mCheckNonce andb mGas mGasPrice msg put_db put_evm] in *.
  destruct (mCheckNonce (msg st)); cbn [andb]; [|by apply Hbuy].
  destruct (db_GetNonce (st_state (put_db st d)) _) as [n d'] eqn:En.
  destruct (ok_GetNonce _ _ _ _ ltac:(apply Hi) En) as [-> Hr].
  assert (idle (st_state st) d') as Hi' by (eapply idle_trans; [exact Hi|by apply reads_idle]).
  change (st_state (put_db st d)) with d. replace (nonce d (mFrom (msg st))) with (nonce (st_state st) (mFrom (msg st))) by (symmetry; apply Hi).
  cbn [msg put_db put_evm]. destruct (_ <? mNonce (msg st)); [by exists d'|]. destruct (mNonce (msg st) <? _); [by exists d'|].
  apply (Hbuy d' Hi').
Qed.

Lemma IntrinsicGas_pos data c h : 21000 <= IntrinsicGas data c h.
Proof.
  unfold IntrinsicGas, TxGas, TxGasContractCreation, TxDataNonZeroGas, TxDataZeroGas. cbv zeta.
  pose proof (length_filter (fun byt => byt <> 0) data). repeat case_match; lia.
Qed.

Lemma env_bound b : b <= B -> env_ok env b.
Proof. intros Hb. destruct env_good. constructor; try done. lia. Qed.

Lemma loop_runs b (fuel : nat) gas :
  b <= B -> gas < Z.of_nat fuel -> 0 <= gas < 2 ^ 36 -> loop_ok b (loop env fuel) (gas + 1).
Proof.
  intros Hb Hf Hg. apply (loop_ok_le _ _ (Z.of_nat fuel)); [lia|]. apply loop_total. by apply env_bound.
Qed.

(** The machine runs the message. *)
Lemma execute_message_ok b sender st (fuel : nat) :
  b <= B -> evm_ok b (st_evm st) -> depth (st_evm st) = 0 -> addr_ok sender -> (forall a, mTo (msg st) = Some a -> addr_ok a) ->
  0 <= st_gas st < 2 ^ 36 -> st_gas st < Z.of_nat fuel -> word (st_value st) -> blob (st_data st) ->
  exists ret vmerr left_ e, execute_message env (loop env fuel) sender st = Ok (ret, vmerr, put_evm (put_gas st left_) e) /\
    evm_ok b e /\ 0 <= left_ <= st_gas st /\
    (vmerr = Some ErrInsufficientBalance <-> bal (st_state st) sender < st_value st).
Proof.
  intros Hb He Hd Ha Hto Hg Hf Hv Hi. pose proof (loop_runs b fuel (st_gas st) Hb Hf Hg) as Hloop. pose proof (env_bound b Hb) as Hen.
  unfold execute_message. destruct (mTo (msg st)) as [a|] eqn:Eto.
  - destruct (db_GetNonce (st_state st) sender) as [n d] eqn:En.
    destruct (ok_GetNonce _ _ _ _ (ev_db _ _ He) En) as [-> Hr].
    destruct (ok_SetNonce d sender (u64 (nonce (st_state st) sender + 1)) ltac:(apply Hr)) as [Hq _].
    set (d1 := db_SetNonce d _ _) in *. unfold to. cbn [msg put_db put_evm]. rewrite Eto.
    destruct (ensure_ok (put_db st d1) a ltac:(apply Hq)) as (d2 & -> & Hi2).
    assert (quiet (st_state st) d2) as Hq2.
    { eapply quiet_trans; [by apply reads_quiet|]. eapply quiet_trans; [exact Hq|apply Hi2]. }
    assert (evm_ok b (set_db (st_evm st) d2)) as He2 by (by apply (moved_quiet b (st_evm st) d2)).
    destruct (Call_ok env b (st_gas st + 1) (loop env fuel) ltac:(lia) Hloop (set_db (st_evm st) d2) (AccountRef sender) a
      (st_data st) (st_gas st) (st_value st)) as (ret & l & err & e & E & (Hm & _ & Hl) & _); [done|done|by apply Hto|done|lia|done|].
    pose proof (Call_broke env b fuel _ _ _ _ _ _ _ _ _ _ He2 Hd Hi E) as Hbr. cbn [StateDB set_db] in Hbr.
    replace (bal d2 sender) with (bal (st_state st) sender) in Hbr by (symmetry; apply Hq2).
    exists ret, err, l, e. cbn [st_evm put_db put_evm st_data st_gas st_value]. change (set_db (set_db (st_evm st) d1) d2) with (set_db (st_evm st) d2).
    rewrite E. split; [done|]. split; [apply Hm|]. done.
  - destruct (Create_ok env b (st_gas st + 1) (loop env fuel) ltac:(lia) Hloop (st_evm st) (AccountRef sender)
      (st_data st) (st_gas st) (st_value st)) as (ret & ad & l & err & e & E & (Hm & _ & Hl) & _); [done|done|done|lia|done|].
    pose proof (Create_broke env b fuel _ _ _ _ _ _ _ _ _ _ He Hd E) as Hbr.
    exists ret, err, l, e. rewrite E. split; [done|]. split; [apply Hm|]. done.
Qed.

Lemma refundGas_ok b st :
  evm_ok b (st_evm st) -> 0 <= st_gas st <= initialGas st -> initialGas st < 2 ^ 36 -> 0 <= st_gasPrice st ->
  exists refund e, 0 <= refund <= gasUsed st / 2 /\ evm_ok (b + (st_gas st + refund) * st_gasPrice st) e /\
    (forall a, bal (StateDB e) a = bal (st_state st) a + share a (mFrom (msg st)) ((st_gas st + refund) * st_gasPrice st)) /\
    refundGas st = mkST (gp st + (st_gas st + refund)) (msg st) (st_gas st + refund) (st_gasPrice st) (initialGas st)
      (st_value st) (st_data st) e.
Proof.
  intros He Hg Hi Hp. unfold refundGas, from. destruct (ensure_ok st (mFrom (msg st)) (ev_db _ _ He)) as (d & -> & Hid).
  pose proof (idle_evm _ _ _ He Hid) as He1. set (sender := mFrom (msg st)) in *.
  pose proof (credit _ _ sender (st_gas st * st_gasPrice st) He1 ltac:(nia)) as He2. cbn [StateDB set_db] in He2.
  unfold gasUsed. cbn [st_gas st_gasPrice initialGas put_db put_evm st_state st_evm StateDB set_db msg gp].
  set (d1 := db_AddBalance d sender _) in *. set (half := (initialGas st - st_gas st) / 2).
  assert (0 <= half <= initialGas st - st_gas st) as Hh by (subst half; split; [apply Z.div_pos; lia|apply Z.div_le_upper_bound; lia]).
  pose proof (ok_GetRefund d1 (ev_db _ _ He2)) as Hc. set (counter := db_GetRefund d1) in *.
  set (refund := BigMin half counter). assert (0 <= refund <= half) as Hr by (subst refund; unfold BigMin; case_match; lia).
  rewrite big_Uint64_small by lia. rewrite u64_small by lia.
  set (paid := refund * st_gasPrice st). assert (0 <= paid) as Hpaid by (subst paid; nia).
  set (d2 := if counter <? half then db_PutRefund d1 paid else d1).
  assert (evm_ok (b + st_gas st * st_gasPrice st) (set_db (st_evm st) d2) /\ forall a, bal d2 a = bal d1 a) as [He3 Hb2].
  { subst d2. case_match; [|done]. destruct He2 as [H1 H2 H3 H4]. destruct (ok_PutRefund d1 paid H1 Hpaid) as [H5 H6].
    split; [|intros a; apply (H6 a)]. constructor; try done. eapply funds_ext; [intros a; apply (H6 a)|done]. }
  pose proof (credit _ _ sender paid He3 Hpaid) as He4. cbn [StateDB set_db] in He4.
  exists refund, (set_db (st_evm st) (db_AddBalance d2 sender paid)). split; [done|]. split.
  - replace (b + (st_gas st + refund) * st_gasPrice st) with (b + st_gas st * st_gasPrice st + paid) by (subst paid; lia). done.
  - split; [|subst d2; by destruct (counter <? half)]. intros a. cbn [StateDB set_db].
    rewrite (AddBalance_share d2 sender paid a) by apply He3. rewrite Hb2. subst d1.
    rewrite (AddBalance_share d) by apply Hid. destruct Hid as [(_ & _ & Hb) _]. rewrite Hb, <-Z.add_assoc, share_add.
    subst paid. f_equal. f_equal. lia.
Qed.

(** The errors of a transition, in the order of the checks: those of
    [preCheck], the intrinsic gas, and the value to be sent. *)
Definition transition_error m (n b g : Z) : option core_error :=
  match precheck_error m n b g with
  | Some err => Some err
  | None =>
      if mGas m <? IntrinsicGas (mData m) (bool_decide (mTo m = None)) (is_homestead env) then Some (VmError ErrOutOfGas)
      else if b - mGas m * mGasPrice m <? mValue m then Some (VmError ErrInsufficientBalance)
      else None
  end.

Record applies e m (g : Z) (fuel : nat) : Prop := mk_applies {
  ap_evm : evm_ok B e;
  ap_depth : depth e = 0;
  ap_message : message_ok m;
  ap_pool : 0 <= g < 2 ^ 36;
  ap_fuel : mGas m < Z.of_nat fuel
}.

Definition intrinsic m : Z := IntrinsicGas (mData m) (bool_decide (mTo m = None)) (is_homestead env).

(** Paying for the intrinsic cost. *)
Lemma charge_intrinsic st igas {A} (k : StateTransition -> outcome out_of_fuel ((core_error + A) * StateTransition)) :
  0 <= st_gas st < 2 ^ 64 -> 0 <= igas ->
  (if 64 <? BitLen igas then Ok (inl (VmError ErrOutOfGas), st)
   else match useGas st (big_Uint64 igas) with
        | (Some err, st) => Ok (inl err, st)
        | (None, st) => k st
        end) =
  if st_gas st <? igas then Ok (inl (VmError ErrOutOfGas), st) else k (put_gas st (st_gas st - igas)).
Proof.
  intros Hg Hi. destruct (Z.ltb_spec 64 (BitLen igas)) as [Hb|Hb].
  - rewrite (proj2 (Z.ltb_lt _ _)); [done|]. destruct (Z.le_gt_cases (2 ^ 64) igas) as [?|H]; [lia|].
    apply (BitLen_le _ 64) in H; lia.
  - apply BitLen_le in Hb; [|lia|lia]. rewrite big_Uint64_small by lia. unfold useGas.
    destruct (Z.ltb_spec (st_gas st) igas); [done|]. by rewrite u64_small by lia.
Qed.

(** How a message that ran was paid.  Before the run, in [st1], the sender has
    paid for all its gas and the intrinsic part is used; after it, in [st2], the
    gas that is not used goes back to the sender, as unused gas and as a refund
    of at most half of what was required, and the rest to the coinbase. *)
Record settled e m (fuel : nat) (ret : list Z) (used : Z) (failed : bool) (d' : SDB) (st1 st2 : StateTransition)
    (vmerr : option vmerror) : Prop := mk_settled {
  se_message : msg st1 = m /\ st_data st1 = mData m /\ st_value st1 = mValue m;
  se_gas : st_gas st1 = mGas m - intrinsic m;
  se_bought a : bal (st_state st1) a = bal (StateDB e) a - share a (mFrom m) (mGas m * mGasPrice m);
  se_run : execute_message env (loop env fuel) (mFrom m) st1 = Ok (ret, vmerr, st2);
  se_failed : failed = bool_decide (vmerr <> None);
  se_used : let required := mGas m - st_gas st2 in
    intrinsic m <= required <= mGas m /\ required - required / 2 <= used <= required;
  se_paid a : bal d' a = bal (st_state st2) a + share a (mFrom m) ((mGas m - used) * mGasPrice m)
    + share a (ctx_Coinbase (ctx env)) (used * mGasPrice m)
}.

(** The outcome of a transition: whether it fails is decided by the checks,
    the machine stays well formed and the gas adds up. *)
Definition transition_outcome e m (g : Z) (fuel : nat) (r : core_error + list Z * Z * Z * bool) (st' : StateTransition) : Prop :=
  let n := nonce (StateDB e) (mFrom m) in
  let b := bal (StateDB e) (mFrom m) in
  evm_ok B (st_evm st') /\
  match transition_error m n b g with
  | Some err => r = inl err /\ gp st' = match precheck_error m n b g with Some _ => g | None => g - mGas m end
  | None => exists ret required used failed, r = inr (ret, required, used, failed) /\ gp st' = g - used /\
      exists st1 st2 vmerr, settled e m fuel ret used failed (StateDB (st_evm st')) st1 st2 vmerr
  end.

(** From the purchase of the gas on. *)
Lemma after_purchase e m g d (fuel : nat) :
  applies e m g fuel -> mGas m <= g -> mGas m * mGasPrice m <= bal (StateDB e) (mFrom m) ->
  precheck_error m (nonce (StateDB e) (mFrom m)) (bal (StateDB e) (mFrom m)) g = None ->
  sender_pays (NewStateTransition e m g) d ->
  preCheck (NewStateTransition e m g) = (None, bought (NewStateTransition e m g) d) ->
  exists r st', TransitionDb env (loop env fuel) (NewStateTransition e m g) = Ok (r, st') /\ transition_outcome e m g fuel r st'.
Proof.
  intros [He Hde Hm Hg Hf] Hgas Hcost Hpre (Sd & Sb & Sn) E. pose proof (me_gas m Hm) as Hg0. pose proof (me_price m Hm) as Hp0.
  set (cost := mGas m * mGasPrice m) in *. assert (0 <= cost) as Hc0 by (subst cost; nia).
  unfold TransitionDb. rewrite E. unfold transition_outcome, transition_error. rewrite Hpre. fold (intrinsic m) cost.
  set (st1 := bought _ d). assert (evm_ok (B - cost) (st_evm st1)) as He1.
  { destruct He as [H1 H2 H3 H4]. constructor; [done| |done|done]. cbn. eapply funds_ext; [exact Sb|]. by apply funds_pay. }
  unfold from. destruct (ensure_ok st1 (mFrom (msg st1)) Sd) as (d2 & -> & Hi2). pose proof (idle_evm _ _ _ He1 Hi2) as He2.
  set (st2 := put_db st1 d2). change (IntrinsicGas (st_data st2) _ _) with (intrinsic m).
  assert (evm_ok B (st_evm st2)) as HeB by (eapply evm_bound; [|exact He2]; lia).
  pose proof (IntrinsicGas_pos (mData m) (bool_decide (mTo m = None)) (is_homestead env)) as Hip. fold (intrinsic m) in Hip.
  rewrite charge_intrinsic by (cbn; lia). change (st_gas st2) with (mGas m). change (mFrom (msg st1)) with (mFrom m).
  destruct (Z.ltb_spec (mGas m) (intrinsic m)) as [Hlt|Hge]; [by eexists _, _|].
  set (st3 := put_gas st2 (mGas m - intrinsic m)).
  destruct (execute_message_ok (B - cost) (mFrom m) st3 fuel) as (ret & vmerr & l & e4 & Erun & He4 & Hl & Hbr);
    [lia|exact He2|exact Hde|apply Hm|apply Hm|cbn; lia|cbn; lia|apply Hm|apply Hm|].
  assert (forall a, bal (st_state st3) a = bal (StateDB e) a - share a (mFrom m) cost) as Hb3.
  { intros a. change (st_state st3) with d2. destruct Hi2 as [(_ & _ & Hb2) _]. rewrite Hb2. change (st_state st1) with d. rewrite Sb.
    change (st_state (NewStateTransition e m g)) with (StateDB e). change (mFrom (msg (NewStateTransition e m g))) with (mFrom m).
    unfold upd, share. case_decide as Ha; [by rewrite Ha|by rewrite Z.sub_0_r]. }
  rewrite Erun, ok_bind. rewrite Hb3 in Hbr. unfold share at 1 in Hbr. rewrite decide_True in Hbr by done.
  change (st_value st3) with (mValue m) in Hbr. change (st_gas st3) with (mGas m - intrinsic m) in Hl.
  destruct (Z.ltb_spec (bal (StateDB e) (mFrom m) - cost) (mValue m)) as [Hlow|Hhigh].
  { rewrite bool_decide_eq_true_2 by (by apply Hbr). eexists _, _. split; [reflexivity|].
    split; [eapply evm_bound; [|exact He4]; lia|split; [reflexivity|reflexivity]]. }
  rewrite bool_decide_eq_false_2 by (rewrite Hbr; lia). set (st5 := put_evm (put_gas st3 l) e4).
  destruct (refundGas_ok (B - cost) st5) as (refund & e6 & Hr & He6 & Hb6 & ->); [done|cbn; lia|cbn; lia|done|].
  assert (gasUsed st5 = mGas m - l) as Hu by done. rewrite Hu in *.
  assert (refund <= mGas m - l) by (transitivity ((mGas m - l) / 2); [lia|apply Z.div_le_upper_bound; lia]).
  eexists _, _. split; [reflexivity|]. unfold gasUsed. cbn. split.
  - pose proof (credit _ _ (ctx_Coinbase (ctx env)) ((mGas m - (l + refund)) * mGasPrice m) He6 ltac:(nia)) as He7.
    cbn in He7. replace (B - cost + (l + refund) * mGasPrice m + (mGas m - (l + refund)) * mGasPrice m) with B in He7 by (subst cost; lia). exact He7.
  - eexists _, _, _, _. split; [done|]. split; [lia|]. exists st3, st5, vmerr. constructor; [done|done|exact Hb3|exact Erun|done| |].
    + change (st_gas st5) with l. lia.
    + intros a. cbn [StateDB set_db st_state st_evm put_db put_evm]. rewrite AddBalance_share by apply He6. rewrite Hb6.
      change (st_state st5) with (StateDB e4). change (mFrom (msg st5)) with (mFrom m). change (st_gas st5) with l.
      change (st_gasPrice st5) with (mGasPrice m). f_equal. f_equal. f_equal. lia.
Qed.

Lemma TransitionDb_spec e m g (fuel : nat) :
  applies e m g fuel ->
  exists r st', TransitionDb env (loop env fuel) (NewStateTransition e m g) = Ok (r, st') /\ transition_outcome e m g fuel r st'.
Proof.
  intros Ha. pose proof Ha as [He Hde Hm Hg Hf].
  pose proof (preCheck_spec (NewStateTransition e m g) ltac:(by split; [|split; [|apply Hm]]) (ev_db _ _ He)) as Hpc.
  change (st_state (NewStateTransition e m g)) with (StateDB e) in Hpc. cbn [msg gp NewStateTransition] in Hpc.
  destruct (precheck_error _ _ _ _) as [err|] eqn:Epre; destruct Hpc as (d & E & H).
  - unfold TransitionDb. rewrite E. eexists _, _. split; [done|]. unfold transition_outcome, transition_error. rewrite Epre.
    split; [|done]. by apply (idle_evm B e d).
  - apply (after_purchase e m g d fuel Ha); try done; unfold precheck_error in Epre; repeat case_match; try done;
      repeat match goal with H : (_ <? _) = false |- _ => apply Z.ltb_ge in H end; lia.
Qed.

Lemma execute_message_more_fuel (n n' : nat) sender st x :
  (n <= n')%nat -> execute_message env (loop env n) sender st = Ok x -> execute_message env (loop env n') sender st = Ok x.
Proof.
  intros Hn. unfold execute_message. destruct (mTo (msg st)) as [rcpt|].
  - destruct (db_GetNonce _ _) as [k d]. destruct (to _) as [a st1]. intros (y & Ey & Hy)%outcome_bind_ok.
    by rewrite (Call_more_fuel _ n n' _ _ _ _ _ _ _ Hn Ey).
  - intros (y & Ey & Hy)%outcome_bind_ok. by rewrite (Create_more_fuel _ n n' _ _ _ _ _ _ Hn Ey).
Qed.

Lemma TransitionDb_more_fuel (n n' : nat) st x :
  (n <= n')%nat -> TransitionDb env (loop env n) st = Ok x -> TransitionDb env (loop env n') st = Ok x.
Proof.
  intros Hn. unfold TransitionDb. destruct (preCheck st) as [ [err|] st1]; [done|]. destruct (from st1) as [sender st2]. cbv zeta.
  destruct (64 <? BitLen _); [done|]. destruct (useGas _ _) as [ [err|] st3]; [done|].
  intros (y & Ey & Hy)%outcome_bind_ok. by rewrite (execute_message_more_fuel n n' _ _ _ Hn Ey).
Qed.

(** A message for a machine at rest and a pool of gas. *)
Record message_for e m (g : Z) : Prop := mk_message_for {
  mf_evm : evm_ok B e;
  mf_depth : depth e = 0;
  mf_message : message_ok m;
  mf_pool : 0 <= g < 2 ^ 36
}.

Lemma settled_more_fuel e m (n n' : nat) ret used failed d' st1 st2 vmerr :
  (n <= n')%nat -> settled e m n ret used failed d' st1 st2 vmerr -> settled e m n' ret used failed d' st1 st2 vmerr.
Proof. intros Hn []. constructor; try done. by apply (execute_message_more_fuel n n'). Qed.

Lemma ApplyMessage_spec e m g :
  message_for e m g ->
  exists r st', transition_outcome e m g (Z.to_nat (mGas m + 1)) r st' /\ forall fuel : nat, mGas m < Z.of_nat fuel ->
      ApplyMessage env (loop env fuel) e m g =
      Ok (match r with inl err => inl err | inr (ret, _, used, failed) => inr (ret, used, failed) end, st').
Proof.
  intros [H1 H2 H3 H4]. pose proof (me_gas m H3).
  destruct (TransitionDb_spec e m g (Z.to_nat (mGas m + 1))) as (r & st' & E & Ho); [constructor; [done|done|done|done|lia]|].
  exists r, st'. split; [done|]. intros fuel Hf. unfold ApplyMessage.
  by rewrite (TransitionDb_more_fuel (Z.to_nat (mGas m + 1)) fuel _ _ ltac:(lia) E).
Qed.

(** C21: with less than [2 ^ 36] gas in the pool, applying a message ends without
    a panic, for all fuel above its gas, and whether it is valid is decided by
    its own fields, the sender's nonce and balance and the gas pool: the first
    of the checks in [transition_error] that fails is the error that comes
    back, and when none fails there is none, whatever code the message runs.
    An error before gas is bought leaves the pool as it was; a later one (the
    intrinsic gas or the value to send) has taken the gas of the message out
    of the pool although the message did not run. *)
Theorem ApplyMessage_decides e m g :
  message_for e m g ->
  let n := nonce (StateDB e) (mFrom m) in
  let b := bal (StateDB e) (mFrom m) in
  exists r st',
    (forall fuel : nat, mGas m < Z.of_nat fuel -> ApplyMessage env (loop env fuel) e m g = Ok (r, st')) /\
    match transition_error m n b g with
    | Some err => r = inl err /\ gp st' = match precheck_error m n b g with Some _ => g | None => g - mGas m end
    | None => exists ret used failed, r = inr (ret, used, failed)
    end.
Proof.
  intros Hm n b. destruct (ApplyMessage_spec e m g Hm) as (r & st' & [_ Ho] & E). eexists _, st'. split; [exact E|].
  fold n b in Ho. destruct (transition_error m n b g); [by destruct Ho as [-> ->]|].
  destruct Ho as (ret & rq & us & fa & -> & _). eauto.
Qed.

(** C4: a valid message pays for exactly the gas it uses.  With less than
    [2 ^ 36] gas in the pool, applying a message that passes the checks debits
    the sender with the price of all its gas, runs the call or creation on what
    is left after the intrinsic gas, and then returns the price of [mGas - used]
    to the sender and pays the price of [used] to the coinbase; no other balance
    changes but by the run.  The gas used is what the run and the intrinsic cost
    required, less a refund of at most half of it, and the pool shrinks by it.
    Nobody ends up in debt, and all balances together stay below the bound of
    the start, also when the message fails. *)
Theorem ApplyMessage_conserves e m g :
  message_for e m g ->
  exists r st',
    (forall fuel : nat, mGas m < Z.of_nat fuel -> ApplyMessage env (loop env fuel) e m g = Ok (r, st')) /\
    (forall a, 0 <= bal (StateDB (st_evm st')) a) /\ (forall l, NoDup l -> total (bal (StateDB (st_evm st'))) l <= B) /\
    forall ret used failed, r = inr (ret, used, failed) ->
      intrinsic m <= 2 * used /\ used <= mGas m /\ gp st' = g - used /\
      exists st1 st2 vmerr, forall fuel : nat, mGas m < Z.of_nat fuel ->
        settled e m fuel ret used failed (StateDB (st_evm st')) st1 st2 vmerr.
Proof.
  intros Hm. destruct (ApplyMessage_spec e m g Hm) as (r & st' & [He Ho] & E). eexists _, st'. split; [exact E|].
  destruct (ev_funds _ _ He) as [F1 F2]. split; [exact F1|]. split; [exact F2|]. intros ret used failed Hr.
  destruct (transition_error _ _ _ _); [by destruct Ho as [-> _]|].
  destruct Ho as (ret' & rq & us & fa & -> & Hgp & st1 & st2 & vmerr & Hs). injection Hr as <- <- <-.
  pose proof (se_used _ _ _ _ _ _ _ _ _ _ Hs) as [H1 H2]. set (required := mGas m - st_gas st2) in *.
  pose proof (Z.mul_div_le required 2). pose proof (me_gas m (mf_message _ _ _ Hm)).
  split; [lia|]. split; [lia|]. split; [done|]. exists st1, st2, vmerr. intros fuel Hf. eapply settled_more_fuel; [|exact Hs]. lia.
Qed.

End Theorems.

(** ** A payment *)

Module Sample.
Import VmCorrect.Sample.

#[local] Existing Instances countDB count_laws noCrypto noCrypto_laws host laws.

(** Alice has funds for the gas of a message to Bob, whose code fails. *)
Definition rich : EVM := set_db machine (db_AddBalance (StateDB machine) alice 1000000).

Definition payment : Message := mkMessage alice (Some bob) 2 60000 7 0 true [1; 0; 3].

Lemma env_good : env_ok env 1000100.
Proof.
  constructor; [done|by apply word_lit|by apply address_ok|by apply address_ok|intros n; apply zeroHash_ok|lia].
Qed.

Lemma payment_for : message_for 1000100 rich payment 100000.
Proof.
  constructor; [apply (credit 100 machine alice 1000000); [apply machine_ok|lia]|done| |lia].
  constructor; [by apply address_ok|intros a [= <-]; apply bob_ok|cbn; lia|cbn; lia|by apply word_lit|].
  split; [by repeat constructor|cbn; lia].
Qed.

Lemma ApplyMessage_decides_witness :
  exists r st', ApplyMessage env (loop env (Z.to_nat 60001)) rich payment 100000 = Ok (r, st') /\
    exists ret used failed, r = inr (ret, used, failed).
Proof.
  destruct (ApplyMessage_decides env 1000100 env_good rich payment 100000 payment_for) as (r & st' & E & H).
  exists r, st'. split; [apply E; cbn; lia|]. revert H.
  replace (transition_error env payment _ _ 100000) with (@None core_error) by (vm_compute; reflexivity). exact id.
Defined.

(** Seven coins for Dave, in a block of Carol: of 60000 gas at the price of two,
    the message uses 21072, which Carol gets. *)
Definition carol : Address := replicate 22 0 ++ [23].
Definition dave : Address := replicate 22 0 ++ [24].

Definition block_env : Env := mkEnv (mkContext alice 2 carol 1000000 10 0 1 (fun _ => zeroHash))
  (mkChainConfig (Some 0) (Some 0) (Some 0) (Some 0)) (mkConfig false false false) (fun _ => false).

Definition gift : Message := mkMessage alice (Some dave) 2 60000 7 0 true [1; 0].

Lemma block_env_good : env_ok block_env 1000100.
Proof.
  constructor; [done|by apply word_lit|by apply address_ok|by apply address_ok|intros n; apply zeroHash_ok|lia].
Qed.

Lemma gift_for : message_for 1000100 rich gift 100000.
Proof.
  constructor; [apply payment_for|done| |lia].
  constructor; [by apply address_ok|intros a [= <-]; by apply address_ok|cbn; lia|cbn; lia|by apply word_lit|].
  split; [by repeat constructor|cbn; lia].
Qed.

Lemma ApplyMessage_conserves_witness :
  exists st' st1 st2 vmerr, ApplyMessage block_env (loop block_env (Z.to_nat 60001)) rich gift 100000 = Ok (inr ([], 21072, false), st') /\
    settled block_env rich gift (Z.to_nat 60001) [] 21072 false (StateDB (st_evm st')) st1 st2 vmerr /\
    bal (StateDB (st_evm st')) alice = 1000100 - 7 - 2 * 21072 /\ bal (StateDB (st_evm st')) carol = 2 * 21072.
Proof.
  destruct (ApplyMessage_conserves block_env 1000100 block_env_good rich gift 100000 gift_for) as (r & st' & E & _ & _ & H).
  specialize (E (Z.to_nat 60001) ltac:(cbn; lia)).
  pose (result := match ApplyMessage block_env (loop block_env (Z.to_nat 60001)) rich gift 100000 with
    | Ok (r, st) => Some (r, bal (StateDB (st_evm st)) alice, bal (StateDB (st_evm st)) carol)
    | _ => None
    end).
  assert (result = Some (inr ([], 21072, false), 957949, 42144)) as Hv by (vm_compute; reflexivity).
  subst result. rewrite E in Hv. injection Hv as -> Ha Hc.
  destruct (H _ _ _ eq_refl) as (_ & _ & _ & st1 & st2 & vmerr & Hs). exists st', st1, st2, vmerr.
  split; [exact E|]. split; [apply Hs; cbn; lia|]. split; [exact Ha|exact Hc].
Defined.

End Sample.
