(* ===== verification/Heap.v ===== *)
(** * Heaps and sorting

    The Go package [container/heap] on a slice, as [src/core/tx_list.go] uses
    it: [up], [down], [Init], [Push], [Pop] and [Remove], which move elements
    by swapping.  [Less] compares a key of the elements.  The fuel of [up] and
    [down] is the size of the heap, which bounds their rounds.  The rest of
    the file is about sorted lists: there is only one way to sort elements
    with different keys. *)
From S2P Require Import Prelude.
From stdpp Require Import sorting.

Local Open Scope Z_scope.

Section Heap.
Context {A : Type} (key : A -> Z).
Implicit Types (h : list A) (i j m n : nat).

Definition less_at h i j : bool :=
  match h !! i, h !! j with Some x, Some y => key x <? key y | _, _ => false end.

Definition swap h i j : list A :=
  match h !! i, h !! j with Some x, Some y => <[i := y]> (<[j := x]> h) | _, _ => h end.

Fixpoint up (fuel : nat) h j : list A :=
  match fuel with
  | O => h
  | S fuel' =>
      let i := ((j - 1) / 2)%nat in
      if (i =? j)%nat || negb (less_at h j i) then h else up fuel' (swap h i j) i
  end.

(** The heap and the place the element ended up at. *)
Fixpoint down (fuel : nat) h i n : list A * nat :=
  match fuel with
  | O => (h, i)
  | S fuel' =>
      let j1 := (2 * i + 1)%nat in
      if (n <=? j1)%nat then (h, i)
      else
        let j2 := (j1 + 1)%nat in
        let j := if (j2 <? n)%nat && less_at h j2 j1 then j2 else j1 in
        if negb (less_at h j i) then (h, i) else down fuel' (swap h i j) j n
  end.

(** The loop of [Init] over the places below [i], downwards. *)
Fixpoint init_from i h n : list A :=
  match i with
  | O => h
  | S i' => init_from i' (down n h i' n).1 n
  end.

Definition heap_Init h : list A := init_from (length h / 2) h (length h).

Definition heap_Push h (x : A) : list A := up (length h + 1) (h ++ [x]) (length h).

(** [Pop] of the interface: the last element and the slice without it. *)
Definition pop_last h : option (A * list A) :=
  x ← last h; Some (x, take (length h - 1) h).

Definition heap_Pop h : option (A * list A) :=
  if (length h =? 0)%nat then None
  else
    let n := (length h - 1)%nat in
    pop_last (down n (swap h 0 n) 0 n).1.

Definition heap_Remove h i : option (A * list A) :=
  if (length h <=? i)%nat then None
  else
    let n := (length h - 1)%nat in
    if (n =? i)%nat then pop_last h
    else
      let '(h, i') := down n (swap h i n) i n in
      pop_last (if (i <? i')%nat then h else up (length h) h i).

(** ** Swapping *)

Definition at_ h i : Z := default 0 (key <$> h !! i).

Lemma swap_lookup h i j m :
  (i < length h)%nat -> (j < length h)%nat ->
  swap h i j !! m = if decide (m = i) then h !! j else if decide (m = j) then h !! i else h !! m.
Proof.
  intros Hi Hj. unfold swap. destruct (lookup_lt_is_Some_2 h i Hi) as [x Ex]. destruct (lookup_lt_is_Some_2 h j Hj) as [y Ey].
  rewrite Ex, Ey. case_decide; [subst; by rewrite list_lookup_insert_eq by (rewrite length_insert; lia)|].
  rewrite list_lookup_insert_ne by done. case_decide; [subst; by rewrite list_lookup_insert_eq|].
  by rewrite list_lookup_insert_ne.
Qed.

Lemma swap_at h i j m :
  (i < length h)%nat -> (j < length h)%nat ->
  at_ (swap h i j) m = if decide (m = i) then at_ h j else if decide (m = j) then at_ h i else at_ h m.
Proof. intros Hi Hj. unfold at_. rewrite swap_lookup by done. by repeat case_decide. Qed.

Lemma swap_at_ne h i j m :
  (i < length h)%nat -> (j < length h)%nat -> m <> i -> m <> j -> at_ (swap h i j) m = at_ h m.
Proof. intros. rewrite swap_at by done. by rewrite !decide_False. Qed.

Lemma swap_length h i j : length (swap h i j) = length h.
Proof. unfold swap. repeat case_match; by rewrite ?length_insert. Qed.

Lemma swap_perm h i j : swap h i j ≡ₚ h.
Proof.
  unfold swap. destruct (h !! i) as [x|] eqn:Ei; [|done]. destruct (h !! j) as [y|] eqn:Ej; [|done].
  destruct (decide (i = j)) as [->|Hne]; [by rewrite list_insert_insert_eq, list_insert_id by congruence|].
  apply Permutation_inj. split; [by rewrite !length_insert|].
  exists (fun m => if decide (m = i) then j else if decide (m = j) then i else m). split.
  - intros a b. repeat case_decide; congruence.
  - intros m. destruct (decide (m = i)) as [->|Hmi].
    + rewrite list_lookup_insert_eq by (rewrite length_insert; by eapply lookup_lt_Some). done.
    + rewrite list_lookup_insert_ne by done. destruct (decide (m = j)) as [->|Hmj].
      * rewrite list_lookup_insert_eq by (by eapply lookup_lt_Some). done.
      * by rewrite list_lookup_insert_ne.
Qed.

Lemma less_at_spec h i j : (i < length h)%nat -> (j < length h)%nat -> less_at h i j = (at_ h i <? at_ h j).
Proof.
  intros Hi Hj. unfold less_at, at_. destruct (lookup_lt_is_Some_2 h i Hi) as [x ->].
  by destruct (lookup_lt_is_Some_2 h j Hj) as [y ->].
Qed.

(** ** The heap order *)

Definition par m : nat := ((m - 1) / 2)%nat.

Definition edge h m : Prop := at_ h (par m) <= at_ h m.

(** The order within the first [n] places, for parents from [lo] on. *)
Definition heap_from (lo n : nat) h : Prop := forall m, (0 < m < n)%nat -> (lo <= par m)%nat -> edge h m.

Definition heap_ok h : Prop := heap_from 0 (length h) h.

Lemma par_lt m : (0 < m)%nat -> (par m < m)%nat.
Proof. unfold par. intros. apply Nat.Div0.div_lt_upper_bound. lia. Qed.

Lemma par_children m i : (0 < m)%nat -> par m = i <-> m = (2 * i + 1)%nat \/ m = (2 * i + 2)%nat.
Proof.
  intros Hm. unfold par. pose proof (Nat.div_mod_eq (m - 1) 2). pose proof (Nat.mod_upper_bound (m - 1) 2). lia.
Qed.

(** Everything in order but [j] and its parent. *)
Definition up_inv h j : Prop :=
  (forall m, (0 < m < length h)%nat -> m <> j -> edge h m) /\
  (forall m, (0 < m < length h)%nat -> par m = j -> (0 < j)%nat -> at_ h (par j) <= at_ h m).

Lemma up_ok fuel h j :
  (j < length h)%nat -> (j < fuel)%nat -> up_inv h j -> heap_ok (up fuel h j) /\ up fuel h j ≡ₚ h.
Proof.
  revert h j. induction fuel as [|fuel IH]; intros h j Hj Hf [H1 H2]; [lia|]. cbn [up]. fold (par j).
  destruct (Nat.eqb_spec (par j) j) as [Ej|Ej]; cbn [orb].
  { split; [|done]. intros m Hm _. apply H1; [done|]. intros ->. pose proof (par_lt j). lia. }
  assert (0 < j)%nat as Hj0 by (destruct j; [done|lia]). pose proof (par_lt j Hj0) as Hp.
  rewrite less_at_spec by lia. destruct (Z.ltb_spec (at_ h j) (at_ h (par j))) as [Hlt|Hge]; cbn [negb].
  2:{ split; [|done]. intros m Hm _. destruct (decide (m = j)) as [->|Hne]; [exact Hge|by apply H1]. }
  destruct (IH (swap h (par j) j) (par j)) as [I1 I2]; [rewrite swap_length; lia|lia| |split; [done|by rewrite I2, swap_perm]].
  split; rewrite swap_length; intros m Hm; unfold edge.
  - intros Hmi. pose proof (par_lt m ltac:(lia)). rewrite !swap_at by lia. rewrite (decide_False (P := m = par j)) by done.
    destruct (decide (m = j)) as [->|Hmj]; [rewrite decide_True by done; lia|].
    destruct (decide (par m = par j)) as [Ep|Ep].
    + assert (edge h m) as He by (by apply H1). unfold edge in He. rewrite Ep in He. lia.
    + destruct (decide (par m = j)) as [Epj|Epj]; [by apply H2|by apply H1].
  - intros Em Hi. pose proof (par_lt (par j) Hi). rewrite !swap_at by lia.
    rewrite (decide_False (P := par (par j) = par j)), (decide_False (P := par (par j) = j)) by lia.
    assert (edge h (par j)) as He by (apply H1; lia). unfold edge in He. pose proof (par_lt m ltac:(lia)).
    destruct (decide (m = par j)) as [->|Hm1]; [lia|]. destruct (decide (m = j)) as [->|Hm2]; [done|].
    assert (edge h m) as Hem by (by apply H1). unfold edge in Hem. rewrite Em in Hem. lia.
Qed.

(** Everything from [lo] on in order but around [i]; the children of [i] are
    not below its parent. *)
Definition down_inv lo n h i : Prop :=
  (forall m, (0 < m < n)%nat -> (lo <= par m)%nat -> m <> i -> par m <> i -> edge h m) /\
  (forall m, (0 < m < n)%nat -> par m = i -> (0 < i)%nat -> (lo <= par i)%nat -> at_ h (par i) <= at_ h m).

(** Either nothing moved, and only [i] and its parent may be out of order, or
    all is in order. *)
Lemma down_ok fuel lo h i n h' i' :
  (n <= length h)%nat -> (i < n)%nat -> (n <= i + fuel)%nat -> (lo <= i)%nat -> down_inv lo n h i ->
  down fuel h i n = (h', i') ->
  h' ≡ₚ h /\ (forall m, (n <= m)%nat -> h' !! m = h !! m) /\ (i <= i')%nat /\
  (i' = i -> h' = h /\ forall m, (0 < m < n)%nat -> (lo <= par m)%nat -> m <> i -> edge h' m) /\
  ((i < i')%nat -> heap_from lo n h').
Proof.
  revert h i. induction fuel as [|fuel IH]; intros h i Hn Hi Hf Hlo [H1 H2]; [lia|]. cbn [down].
  destruct (Nat.leb_spec n (2 * i + 1)) as [Hj1|Hj1].
  { intros [= <- <-]. split; [done|]. split; [done|]. split; [done|]. split; [|lia]. intros _. split; [done|].
    intros m Hm Hl Hne. apply H1; try done. intros Ep%par_children; lia. }
  set (j := if _ && _ then _ else _).
  assert ((j = 2 * i + 1 \/ j = 2 * i + 1 + 1)%nat /\ (j < n)%nat /\
    forall m, (0 < m < n)%nat -> par m = i -> at_ h j <= at_ h m) as (Hjc & Hjn & Hmin).
  { assert (forall m, (0 < m)%nat -> par m = i -> (m = 2 * i + 1 \/ m = 2 * i + 1 + 1)%nat) as Hc
      by (intros m Hm0 Hpm; apply par_children in Hpm; lia).
    subst j. destruct (Nat.ltb_spec (2 * i + 1 + 1) n) as [Hj2|Hj2]; cbn [andb].
    - rewrite less_at_spec by lia. destruct (Z.ltb_spec (at_ h (2 * i + 1 + 1)) (at_ h (2 * i + 1))) as [Hl|Hl];
        (split; [lia|]; split; [lia|]); intros m Hm Hpm; destruct (Hc m ltac:(lia) Hpm) as [-> | ->]; lia.
    - split; [lia|]. split; [lia|]. intros m Hm Hpm. destruct (Hc m ltac:(lia) Hpm) as [-> | ->]; lia. }
  assert (par j = i) as Hpj by (apply par_children; lia).
  rewrite less_at_spec by lia. destruct (Z.ltb_spec (at_ h j) (at_ h i)) as [Hlt|Hge]; cbn [negb].
  2:{ intros [= <- <-]. split; [done|]. split; [done|]. split; [done|]. split; [|lia]. intros _. split; [done|].
      intros m Hm Hl Hne. destruct (decide (par m = i)) as [Ep|Ep]; [|by apply H1]. unfold edge. rewrite Ep.
      transitivity (at_ h j); [done|by apply Hmin]. }
  intros E. destruct (IH (swap h i j) j) as (I1 & I2 & I3 & I4 & I5); rewrite ?swap_length; [lia|lia|lia|lia| |exact E|].
  - split; intros m Hm; unfold edge; pose proof (par_lt m ltac:(lia)); rewrite !swap_at by lia.
    + intros Hl Hmj Hpm. rewrite (decide_False (P := m = j)) by done. rewrite (decide_False (P := par m = j)) by done.
      destruct (decide (m = i)) as [->|Hmi].
      * rewrite (decide_False (P := par i = i)) by lia. apply H2; [lia|done|lia|done].
      * destruct (decide (par m = i)) as [Ep|Ep]; [by apply Hmin|by apply H1].
    + intros Ep Hj0 _. rewrite Hpj, (decide_True (P := i = i)) by done. pose proof (par_lt j Hj0).
      rewrite (decide_False (P := m = i)), (decide_False (P := m = j)) by lia.
      assert (edge h m) as He by (apply H1; lia). unfold edge in He. by rewrite Ep in He.
  - split; [by rewrite I1, swap_perm|]. split; [intros m Hm; rewrite I2, swap_lookup by lia; by rewrite !decide_False by lia|].
    split; [lia|]. split; [lia|]. intros _. destruct (decide (i' = j)) as [Eij|Nij]; [|apply I5; lia].
    destruct (I4 Eij) as [-> I6]. intros m Hm Hl. destruct (decide (m = j)) as [->|Hmj]; [|by apply I6].
    unfold edge. rewrite Hpj, !swap_at by lia. rewrite decide_True by done. rewrite (decide_False (P := j = i)), decide_True by lia. lia.
Qed.

(** ** The operations *)

Lemma at_app_l h l m : (m < length h)%nat -> at_ (h ++ l) m = at_ h m.
Proof. intros Hm. unfold at_. by rewrite lookup_app_l. Qed.

Lemma heap_Push_ok h x : heap_ok h -> heap_ok (heap_Push h x) /\ heap_Push h x ≡ₚ x :: h.
Proof.
  intros Hh. unfold heap_Push. destruct (up_ok (length h + 1) (h ++ [x]) (length h)) as [H1 H2]; [rewrite length_app; simpl; lia|lia| |].
  - split; intros m Hm; rewrite length_app in Hm; simpl in Hm; pose proof (par_lt m ltac:(lia)).
    + intros Hne. unfold edge. rewrite !at_app_l by lia. apply Hh; lia.
    + lia.
  - split; [done|]. rewrite H2. symmetry. apply Permutation_cons_append.
Qed.

Lemma heap_head h x y : heap_ok h -> head h = Some x -> y ∈ h -> key x <= key y.
Proof.
  intros Hh Hx [m Hm]%list_elem_of_lookup. assert (at_ h 0 = key x) as <- by (by destruct h; [|injection Hx as ->]).
  assert (at_ h m = key y) as <- by (unfold at_; by rewrite Hm). apply lookup_lt_Some in Hm. clear Hx y.
  induction m as [m IH] using lt_wf_ind. destruct m as [|m]; [done|]. pose proof (par_lt (S m) ltac:(lia)).
  transitivity (at_ h (par (S m))); [apply IH; lia|]. apply Hh; lia.
Qed.

Lemma pop_last_ok h : h <> [] -> exists x, pop_last h = Some (x, take (length h - 1) h) /\ h = take (length h - 1) h ++ [x].
Proof.
  intros Hne. destruct (last h) as [x|] eqn:E; [|by apply last_None in E]. exists x. unfold pop_last. rewrite E. split; [done|].
  apply last_Some in E as [l ->]. rewrite length_app. simpl. replace (length l + 1 - 1)%nat with (length l) by lia.
  by rewrite take_app_length.
Qed.

Lemma heap_from_take n h : heap_from 0 n h -> (n <= length h)%nat -> heap_ok (take n h).
Proof.
  intros Hh Hn m Hm _. rewrite length_take in Hm. pose proof (par_lt m ltac:(lia)). unfold edge, at_.
  rewrite !lookup_take_lt by lia. apply Hh; lia.
Qed.

Lemma heap_Pop_ok h :
  heap_ok h -> h <> [] ->
  exists x h', heap_Pop h = Some (x, h') /\ head h = Some x /\ h ≡ₚ x :: h' /\ heap_ok h' /\ forall y, y ∈ h -> key x <= key y.
Proof.
  intros Hh Hne. assert (0 < length h)%nat as Hlen by (destruct h; [done|simpl; lia]). unfold heap_Pop. rewrite (proj2 (Nat.eqb_neq _ _)) by lia.
  set (n := (length h - 1)%nat). destruct (head h) as [x|] eqn:Ex; [|by destruct h]. assert (h !! 0%nat = Some x) as Hx by (by destruct h).
  destruct (down n (swap h 0 n) 0 n) as [h1 i1] eqn:Ed. cbn [fst].
  assert (h1 ≡ₚ h /\ h1 !! n = Some x /\ heap_from 0 n h1) as (P1 & L1 & H1).
  { destruct (decide (n = 0)%nat) as [En|En].
    - rewrite En in Ed |- *. injection Ed as <- <-. split; [by rewrite swap_perm|]. split; [|intros m; lia].
      rewrite swap_lookup by lia. by rewrite decide_True.
    - destruct (down_ok n 0 (swap h 0 n) 0 n h1 i1) as (D1 & D2 & D3 & D4 & D5); rewrite ?swap_length; [lia|lia|lia|lia| |done|].
      + split; intros m Hm; [|lia]. intros _ Hm0 Hpm. pose proof (par_lt m ltac:(lia)). unfold edge. rewrite !swap_at_ne by lia. apply Hh; lia.
      + split; [by rewrite D1, swap_perm|]. split; [rewrite D2, swap_lookup by lia; by rewrite decide_False, decide_True by lia|].
        destruct (decide (i1 = 0)%nat) as [E0|N0]; [|apply D5; lia]. destruct (D4 E0) as [_ D6]. intros m Hm Hl. apply D6; lia. }
  assert (length h1 = length h) as Hl1 by (by rewrite P1). destruct (pop_last_ok h1) as (z & -> & Ez); [by intros ->|].
  rewrite Hl1 in *. fold n in Ez |- *. assert (z = x) as ->.
  { rewrite Ez, lookup_app_r in L1 by (rewrite length_take; lia). rewrite length_take, Hl1 in L1.
    replace (n - n `min` length h)%nat with 0%nat in L1 by lia. by injection L1. }
  exists x, (take n h1). split; [done|]. split; [done|]. split; [|split].
  - rewrite <-P1. rewrite Ez at 1. symmetry. apply Permutation_cons_append.
  - apply heap_from_take; [done|lia].
  - intros y Hy. by apply (heap_head h).
Qed.

Lemma init_from_ok i h n :
  n = length h -> (i <= n / 2)%nat -> heap_from i n h -> heap_from 0 n (init_from i h n) /\ init_from i h n ≡ₚ h.
Proof.
  revert h. induction i as [|i IH]; intros h Hn Hi Hh; [done|]. cbn [init_from].
  pose proof (Nat.Div0.mul_div_le n 2) as Hd. destruct (down n h i n) as [h1 i1] eqn:Ed.
  destruct (down_ok n i h i n h1 i1) as (D1 & _ & D3 & D4 & D5); [lia|lia|lia|lia| |done|].
  - split; intros m Hm; [|pose proof (par_lt i); lia]. intros Hl _ Hpm. apply Hh; [done|lia].
  - destruct (IH h1) as [I1 I2]; [by rewrite D1|lia| |split; [done|by rewrite I2]].
    destruct (decide (i1 = i)) as [E|N]; [|apply D5; lia]. destruct (D4 E) as [_ D6]. intros m Hm Hl.
    apply D6; [done|done|]. intros ->. pose proof (par_lt i ltac:(lia)). lia.
Qed.

Lemma heap_Init_ok h : heap_ok (heap_Init h) /\ heap_Init h ≡ₚ h.
Proof.
  destruct (init_from_ok (length h / 2) h (length h)) as [H1 H2]; [done|done| |].
  - intros m Hm Hl. exfalso. pose proof (Nat.div_mod_eq (length h) 2). pose proof (Nat.mod_upper_bound (length h) 2).
    pose proof (Nat.Div0.mul_div_le (m - 1) 2). unfold par in Hl. lia.
  - split; [|done]. unfold heap_ok. replace (length (heap_Init h)) with (length h); [done|]. symmetry. by apply Permutation_length.
Qed.

(** Moving a heap without its last place up from [i] does not touch that
    place. *)
Lemma up_app fuel h l j : (j < length h)%nat -> up fuel (h ++ l) j = up fuel h j ++ l.
Proof.
  revert h j. induction fuel as [|fuel IH]; intros h j Hj; [done|]. cbn [up]. fold (par j).
  assert (par j <= j)%nat as Hp by (destruct j; [done|pose proof (par_lt (S j)); lia]).
  assert (less_at (h ++ l) j (par j) = less_at h j (par j)) as -> by (unfold less_at; by rewrite !lookup_app_l by lia).
  destruct (_ || _); [done|]. assert (swap (h ++ l) (par j) j = swap h (par j) j ++ l) as ->.
  { unfold swap. rewrite !lookup_app_l by lia. destruct (lookup_lt_is_Some_2 h (par j)) as [x ->]; [lia|].
    destruct (lookup_lt_is_Some_2 h j) as [y ->]; [done|]. rewrite (insert_app_l _ _ j) by done.
    by rewrite insert_app_l by (rewrite length_insert; lia). }
  apply IH. rewrite swap_length. lia.
Qed.

Lemma up_length fuel h j : length (up fuel h j) = length h.
Proof. revert h j. induction fuel as [|fuel IH]; intros h j; [done|]. cbn [up]. case_match; [done|]. by rewrite IH, swap_length. Qed.

Lemma pop_last_app h x : pop_last (h ++ [x]) = Some (x, h).
Proof.
  unfold pop_last. rewrite last_snoc, length_app. simpl. replace (length h + 1 - 1)%nat with (length h) by lia.
  by rewrite take_app_length.
Qed.

Lemma heap_Remove_ok h i x :
  heap_ok h -> h !! i = Some x -> exists h', heap_Remove h i = Some (x, h') /\ h ≡ₚ x :: h' /\ heap_ok h'.
Proof.
  intros Hh Hx. pose proof (lookup_lt_Some _ _ _ Hx) as Hi. unfold heap_Remove. rewrite (proj2 (Nat.leb_gt _ _)) by lia.
  set (n := (length h - 1)%nat). destruct (Nat.eqb_spec n i) as [<-|Hne].
  { destruct (pop_last_ok h) as (z & -> & Ez); [by intros ->|]. assert (z = x) as ->.
    { rewrite Ez, lookup_app_r in Hx by (rewrite length_take; lia). rewrite length_take in Hx.
      replace (n - (length h - 1) `min` length h)%nat with 0%nat in Hx by lia. by injection Hx. }
    eexists. split; [done|]. split; [rewrite Ez at 1; symmetry; apply Permutation_cons_append|].
    apply heap_from_take; [intros m Hm _; apply Hh; lia|lia]. }
  assert (forall m, (0 < m < n)%nat -> par m = i -> (0 < i)%nat -> at_ h (par i) <= at_ h m) as grandparent.
  { intros m Hm Ep Hi0. assert (edge h i) as E1 by (apply Hh; lia). assert (edge h m) as E2 by (apply Hh; lia). unfold edge in *. rewrite Ep in E2. lia. }
  destruct (down n (swap h i n) i n) as [h1 i1] eqn:Ed.
  destruct (down_ok n 0 (swap h i n) i n h1 i1) as (D1 & D2 & D3 & D4 & D5); rewrite ?swap_length; [lia|lia|lia|lia| |done|].
  { split; intros m Hm; pose proof (par_lt m ltac:(lia)); unfold edge.
    - intros _ Hmi Hpm. rewrite !swap_at_ne by lia. apply Hh; lia.
    - intros Ep Hi0 _. pose proof (par_lt i Hi0). rewrite !swap_at_ne by lia. by apply grandparent. }
  assert (length h1 = S n) as Hl1 by (rewrite D1, swap_length; lia).
  assert (h1 = take n h1 ++ [x]) as E1.
  { rewrite <-(take_drop n h1) at 1. f_equal. assert (h1 !! n = Some x) as Hn.
    { rewrite D2, swap_lookup by lia. by rewrite decide_False, decide_True by lia. }
    rewrite (drop_S _ x) by done. by rewrite drop_ge by lia. }
  set (g := take n h1) in *. assert (length g = n) as Hg by (subst g; rewrite length_take; lia).
  assert (h ≡ₚ x :: g) as Hp by (rewrite <-(swap_perm h i n), <-D1, E1; symmetry; apply Permutation_cons_append).
  assert (forall m, (m < n)%nat -> at_ g m = at_ h1 m) as Hat by (intros m Hm; rewrite E1, at_app_l by lia; done).
  destruct (Nat.ltb_spec i i1) as [Hlt|Hge].
  - rewrite E1, pop_last_app. exists g. split; [done|]. split; [done|]. apply heap_from_take; [by apply D5|lia].
  - destruct (D4 ltac:(lia)) as [_ D6]. rewrite Hl1, E1, up_app, pop_last_app by lia. eexists. split; [done|].
    destruct (up_ok (S n) g i) as [U1 U2]; [lia|lia| |split; [by rewrite U2|done]].
    assert (forall m, (0 < m < n)%nat -> m <> i -> edge g m) as Hedge.
    { intros m Hm Hmi. pose proof (par_lt m ltac:(lia)). unfold edge. rewrite !Hat by lia. apply D6; lia. }
    split; rewrite Hg; intros m Hm; [by apply Hedge|]. intros Ep Hi0. pose proof (par_lt m ltac:(lia)). pose proof (par_lt i Hi0).
    rewrite !Hat by lia. destruct (D4 ltac:(lia)) as [-> _]. rewrite !swap_at_ne by lia. by apply grandparent.
Qed.

(** ** Sorting *)

Definition key_le (x y : A) : Prop := key x <= key y.

#[local] Instance key_le_dec x y : Decision (key_le x y).
Proof. unfold key_le. apply _. Defined.
#[local] Instance key_le_total : Total key_le.
Proof. intros x y. unfold key_le. lia. Qed.
#[local] Instance key_le_trans : Transitive key_le.
Proof. intros x y z. unfold key_le. lia. Qed.

Definition sort_by (l : list A) : list A := merge_sort key_le l.

Definition ascending (l : list A) : Prop := StronglySorted (fun x y => key x < key y) l.

Lemma sort_by_perm l : sort_by l ≡ₚ l.
Proof. apply merge_sort_Permutation. Qed.

Lemma sort_by_ascending l : NoDup (key <$> l) -> ascending (sort_by l).
Proof.
  intros Hnd. assert (StronglySorted key_le (sort_by l)) as Hs by (apply StronglySorted_merge_sort; apply _).
  rewrite <-(sort_by_perm l) in Hnd. unfold ascending. induction Hs as [|x l' Hs IH Hx]; [constructor|].
  apply NoDup_cons in Hnd as [Hn Hnd]. constructor; [by apply IH|]. rewrite Forall_forall in *. intros y Hy.
  specialize (Hx y Hy). unfold key_le in Hx. assert (key x <> key y); [|lia]. intros E. apply Hn. rewrite E. by apply list_elem_of_fmap_2.
Qed.

Lemma ascending_nodup l : ascending l -> NoDup (key <$> l).
Proof.
  induction 1 as [|x l Hs IH Hx]; [constructor|]. rewrite fmap_cons. constructor; [|done].
  intros (y & E & Hy)%list_elem_of_fmap. rewrite Forall_forall in Hx. specialize (Hx y Hy). lia.
Qed.

(** The elements determine the sorted list. *)
Lemma ascending_unique l1 l2 : ascending l1 -> ascending l2 -> l1 ≡ₚ l2 -> l1 = l2.
Proof.
  intros H1. revert l2. induction H1 as [|x l1 Hs IH Hx]; intros l2 H2 Hp; [by apply Permutation_nil_l in Hp|].
  destruct H2 as [|y l2 Hs2 Hy]; [by apply Permutation_nil_r in Hp|].
  assert (x = y) as ->.
  { rewrite Forall_forall in *. assert (x ∈ y :: l2) as [->|Hin]%elem_of_cons by (rewrite <-Hp; by left); [done|].
    assert (y ∈ x :: l1) as [->|Hin']%elem_of_cons by (rewrite Hp; by left); [done|].
    specialize (Hx y Hin'). specialize (Hy x Hin). lia. }
  f_equal. apply IH; [done|]. by apply Permutation_cons_inv in Hp.
Qed.

Lemma sort_by_unique l l' : NoDup (key <$> l) -> l ≡ₚ l' -> sort_by l = sort_by l'.
Proof.
  intros Hnd Hp. apply ascending_unique; [by apply sort_by_ascending|apply sort_by_ascending; by rewrite <-Hp|by rewrite !sort_by_perm].
Qed.

Lemma ascending_app l1 l2 :
  ascending (l1 ++ l2) <-> ascending l1 /\ ascending l2 /\ forall x y, x ∈ l1 -> y ∈ l2 -> key x < key y.
Proof.
  unfold ascending. induction l1 as [|z l1 IH]; simpl.
  - split; [intros H; split; [constructor|split; [done|intros x y Hx; by apply elem_of_nil in Hx]]|by intros (_ & ? & _)].
  - split.
    + intros H. apply StronglySorted_inv in H as [H Hz]. apply IH in H as (A1 & A2 & A3). apply Forall_app in Hz as [Z1 Z2].
      split; [by constructor|]. split; [done|]. intros x y [->|Hx]%elem_of_cons Hy; [by eapply Forall_forall in Z2|by apply A3].
    + intros (A1 & A2 & A3). apply StronglySorted_inv in A1 as [A1 Z1]. constructor.
      * apply IH. split; [done|]. split; [done|]. intros x y Hx. apply A3. by right.
      * apply Forall_app. split; [done|]. apply Forall_forall. intros y Hy. apply A3; [by left|done].
Qed.

End Heap.
