(* ===== verification/TxList.v ===== *)
(** * Transaction lists of the pool

    [src/core/tx_list.go]: the nonce-sorted map of one account's transactions
    with its heap of nonces and its cache, and the list with cost and gas caps
    built on it.  The price heap is in [TxPriced].

    The transaction type is declared in a file that is not among the sources;
    the class [Transaction] is what its methods return, and [tx_Sender] what
    [types.Sender] returns for it with the signer of the pool, beside an error
    the address [no_Sender]; the hash of a
    transaction identifies it.  A nonce of the heap
    without a transaction would put a nil pointer into a result: [None] in an
    [option] here, as a panic is.  Go ranges over a map in any order, the
    class [RangeOrder].  The order in which the elements of equal keys are
    sorted is not used: nonces are unique in a map. *)
From S2P Require Import Prelude Types Heap.

Class Transaction := {
  tx : Type;
  tx_Nonce : tx -> Z;
  tx_GasPrice : tx -> Z;
  tx_Gas : tx -> Z;
  tx_Cost : tx -> Z;
  tx_Hash : tx -> Hash;
  tx_Sender : tx -> option Address;
  no_Sender : Address;
  tx_Size : tx -> Z;
  tx_Value : tx -> Z;
  tx_Data : tx -> list Z;
  tx_To : tx -> option Address;
  tx_eq_dec :: EqDecision tx;
  Nonce_range t : 0 <= tx_Nonce t < 2 ^ 64;
  Hash_inj :: Inj (=) (=) tx_Hash
}.

Class RangeOrder := {
  range {K} `{Countable K} {V} : gmap K V -> list (K * V);
  range_is_perm {K} `{Countable K} {V} (m : gmap K V) : range m ≡ₚ map_to_list m
}.

Section TxList.
Context {TX : Transaction} {RO : RangeOrder}.

(** ** txSortedMap *)

Record txSortedMap := mkSortedMap {
  items : gmap Z tx;
  index : list Z;
  cache : option (list tx)
}.

Definition newTxSortedMap : txSortedMap := mkSortedMap ∅ [] None.

Definition sm_Get (m : txSortedMap) (nonce : Z) : option tx := items m !! nonce.

Definition sm_Put (m : txSortedMap) (t : tx) : txSortedMap :=
  let nonce := tx_Nonce t in
  let idx := match items m !! nonce with None => heap_Push id (index m) nonce | Some _ => index m end in
  mkSortedMap (<[nonce := t]> (items m)) idx None.

(** The loop of [Forward]: the transactions removed, the maps left. *)
Fixpoint forward_loop (fuel : nat) (threshold : Z) (its : gmap Z tx) (idx : list Z) : option (list tx * gmap Z tx * list Z) :=
  match head idx with
  | None => Some ([], its, idx)
  | Some top =>
      if top <? threshold then
        match fuel with
        | O => None
        | S fuel' =>
            '(nonce, idx) ← heap_Pop id idx;
            t ← its !! nonce;
            '(removed, its, idx) ← forward_loop fuel' threshold (delete nonce its) idx;
            Some (t :: removed, its, idx)
        end
      else Some ([], its, idx)
  end.

Definition sm_Forward (m : txSortedMap) (threshold : Z) : option (list tx * txSortedMap) :=
  '(removed, its, idx) ← forward_loop (length (index m)) threshold (items m) (index m);
  c ← match cache m with
      | None => Some None
      | Some c => c ← slice c (length removed) (length c); Some (Some c)
      end;
  Some (removed, mkSortedMap its idx c).

Definition sm_Filter (m : txSortedMap) (f : tx -> bool) : list tx * txSortedMap :=
  let '(removed, its) :=
    foldl (fun '(removed, its) '(nonce, t) => if f t then (removed ++ [t], delete nonce its) else (removed, its))
      ([], items m) (range (items m)) in
  if (0 <? length removed)%nat
  then (removed, mkSortedMap its (heap_Init id (range its).*1) None)
  else (removed, mkSortedMap its (index m) (cache m)).

(** The loop of [Cap], for [size] from [size] down to [threshold]. *)
Fixpoint cap_loop (rounds size : nat) (idx : list Z) (its : gmap Z tx) : option (list tx * gmap Z tx) :=
  match rounds with
  | O => Some ([], its)
  | S rounds' =>
      nonce ← idx !! (size - 1)%nat;
      t ← its !! nonce;
      '(drops, its) ← cap_loop rounds' (size - 1) idx (delete nonce its);
      Some (t :: drops, its)
  end.

Definition sm_Cap (m : txSortedMap) (threshold : nat) : option (list tx * txSortedMap) :=
  if (size (items m) <=? threshold)%nat then Some ([], m)
  else
    let idx := sort_by id (index m) in
    '(drops, its) ← cap_loop (size (items m) - threshold) (size (items m)) idx (items m);
    idx ← slice idx 0 threshold;
    c ← match cache m with
        | None => Some None
        | Some c => if (length c <? length drops)%nat then None else Some (Some (take (length c - length drops) c))
        end;
    Some (drops, mkSortedMap its (heap_Init id idx) c).

Definition sm_Remove (m : txSortedMap) (nonce : Z) : option (bool * txSortedMap) :=
  match items m !! nonce with
  | None => Some (false, m)
  | Some _ =>
      idx ← match list_find (eq nonce) (index m) with
            | Some (i, _) => snd <$> heap_Remove id (index m) i
            | None => Some (index m)
            end;
      Some (true, mkSortedMap (delete nonce (items m)) idx None)
  end.

Fixpoint ready_loop (fuel : nat) (next : Z) (its : gmap Z tx) (idx : list Z) : option (list tx * gmap Z tx * list Z) :=
  match head idx with
  | None => Some ([], its, idx)
  | Some top =>
      if top =? next then
        match fuel with
        | O => None
        | S fuel' =>
            t ← its !! next;
            '(_, idx) ← heap_Pop id idx;
            '(ready, its, idx) ← ready_loop fuel' (u64 (next + 1)) (delete next its) idx;
            Some (t :: ready, its, idx)
        end
      else Some ([], its, idx)
  end.

Definition sm_Ready (m : txSortedMap) (start : Z) : option (list tx * txSortedMap) :=
  match head (index m) with
  | None => Some ([], m)
  | Some top =>
      if start <? top then Some ([], m)
      else
        '(ready, its, idx) ← ready_loop (length (index m)) top (items m) (index m);
        Some (ready, mkSortedMap its idx None)
  end.

Definition sm_Len (m : txSortedMap) : nat := size (items m).

Definition sm_Flatten (m : txSortedMap) : list tx * txSortedMap :=
  let c := match cache m with Some c => c | None => sort_by tx_Nonce (range (items m)).*2 end in
  (c, mkSortedMap (items m) (index m) (Some c)).

(** ** txList *)

Record txList := mkTxList { strict : bool; txs : txSortedMap; costcap : Z; gascap : Z }.

Definition set_txs (l : txList) (m : txSortedMap) : txList := mkTxList (strict l) m (costcap l) (gascap l).

Definition newTxList (strict : bool) : txList := mkTxList strict newTxSortedMap 0 0.

Definition Overlaps (l : txList) (t : tx) : bool := bool_decide (is_Some (sm_Get (txs l) (tx_Nonce t))).

(** The price a replacement must reach: the comparison is with 64-bit
    arithmetic on the percentage only. *)
Definition priced_out (old t : tx) (priceBump : Z) : bool :=
  let threshold := tx_GasPrice old * i64 (100 + i64 priceBump) / 100 in
  (tx_GasPrice t <=? tx_GasPrice old) || (tx_GasPrice t <? threshold).

Definition list_Add (l : txList) (t : tx) (priceBump : Z) : bool * option tx * txList :=
  let old := sm_Get (txs l) (tx_Nonce t) in
  if match old with Some o => priced_out o t priceBump | None => false end then (false, None, l)
  else
    let m := sm_Put (txs l) t in
    let cost := if costcap l <? tx_Cost t then tx_Cost t else costcap l in
    let gas := if gascap l <? tx_Gas t then tx_Gas t else gascap l in
    (true, old, mkTxList (strict l) m cost gas).

Definition list_Forward (l : txList) (threshold : Z) : option (list tx * txList) :=
  '(removed, m) ← sm_Forward (txs l) threshold; Some (removed, set_txs l m).

Definition MaxUint64 : Z := 2 ^ 64 - 1.

Definition list_Filter (l : txList) (costLimit gasLimit : Z) : list tx * list tx * txList :=
  if (costcap l <=? costLimit) && (gascap l <=? gasLimit) then ([], [], l)
  else
    let l := mkTxList (strict l) (txs l) costLimit gasLimit in
    let '(removed, m) := sm_Filter (txs l) (fun t => (costLimit <? tx_Cost t) || (gasLimit <? tx_Gas t)) in
    if strict l && (0 <? length removed)%nat then
      let lowest := foldl (fun lowest t => if tx_Nonce t <? lowest then tx_Nonce t else lowest) MaxUint64 removed in
      let '(invalids, m) := sm_Filter m (fun t => lowest <? tx_Nonce t) in
      (removed, invalids, set_txs l m)
    else (removed, [], set_txs l m).

Definition list_Cap (l : txList) (threshold : nat) : option (list tx * txList) :=
  '(drops, m) ← sm_Cap (txs l) threshold; Some (drops, set_txs l m).

Definition list_Remove (l : txList) (t : tx) : option (bool * list tx * txList) :=
  let nonce := tx_Nonce t in
  '(removed, m) ← sm_Remove (txs l) nonce;
  if negb removed then Some (false, [], set_txs l m)
  else if strict l then
    let '(invalids, m) := sm_Filter m (fun t => nonce <? tx_Nonce t) in
    Some (true, invalids, set_txs l m)
  else Some (true, [], set_txs l m).

Definition list_Ready (l : txList) (start : Z) : option (list tx * txList) :=
  '(ready, m) ← sm_Ready (txs l) start; Some (ready, set_txs l m).

Definition list_Len (l : txList) : nat := sm_Len (txs l).
Definition list_Empty (l : txList) : bool := (list_Len l =? 0)%nat.

Definition list_Flatten (l : txList) : list tx * txList :=
  let '(ts, m) := sm_Flatten (txs l) in (ts, set_txs l m).

(** ** The sorted map as a list

    What a [txSortedMap] stands for: its transactions by ascending nonce. *)

Implicit Types (m : txSortedMap) (its : gmap Z tx) (t : tx) (l : list tx).

Definition keyed its : Prop := forall n t, its !! n = Some t -> tx_Nonce t = n.

Definition values its : list tx := (map_to_list its).*2.

Definition by_nonce its : list tx := sort_by tx_Nonce (values its).

Abbreviation sorted_txs := (ascending tx_Nonce).

Lemma elem_values its t : keyed its -> t ∈ values its <-> its !! tx_Nonce t = Some t.
Proof.
  intros Hk. unfold values. rewrite list_elem_of_fmap. split.
  - intros ([n t'] & -> & Hin). apply elem_of_map_to_list in Hin. simpl. by rewrite (Hk _ _ Hin).
  - intros Ht. exists (tx_Nonce t, t). split; [done|]. by apply elem_of_map_to_list.
Qed.

Lemma values_nonces its : keyed its -> tx_Nonce <$> values its = (map_to_list its).*1.
Proof.
  intros Hk. unfold values. rewrite <-list_fmap_compose. apply list_fmap_ext. intros i [n t] Hin. simpl. apply Hk.
  apply elem_of_map_to_list. by eapply list_elem_of_lookup_2.
Qed.

Lemma by_nonce_sorted its : keyed its -> sorted_txs (by_nonce its).
Proof. intros Hk. apply sort_by_ascending. rewrite values_nonces by done. apply NoDup_fst_map_to_list. Qed.

Lemma elem_by_nonce its t : keyed its -> t ∈ by_nonce its <-> its !! tx_Nonce t = Some t.
Proof. intros Hk. unfold by_nonce. rewrite sort_by_perm. by apply elem_values. Qed.

Lemma sorted_NoDup l : sorted_txs l -> NoDup l.
Proof. intros H. by eapply NoDup_fmap_1, ascending_nodup. Qed.

Lemma by_nonce_NoDup its : keyed its -> NoDup (by_nonce its).
Proof. intros Hk. by apply sorted_NoDup, by_nonce_sorted. Qed.

Lemma by_nonce_unique its l :
  keyed its -> sorted_txs l -> (forall t, t ∈ l <-> its !! tx_Nonce t = Some t) -> by_nonce its = l.
Proof.
  intros Hk Hs He. apply (ascending_unique tx_Nonce); [by apply by_nonce_sorted|done|].
  apply NoDup_Permutation; [by apply by_nonce_NoDup|by apply sorted_NoDup|]. intros t. by rewrite elem_by_nonce, He.
Qed.

Lemma by_nonce_length its : length (by_nonce its) = size its.
Proof. unfold by_nonce. rewrite (Permutation_length (sort_by_perm _ _)). unfold values. by rewrite length_fmap, length_map_to_list. Qed.

Lemma sorted_filter (P : tx -> Prop) `{!forall t, Decision (P t)} l : sorted_txs l -> sorted_txs (filter P l).
Proof.
  induction 1 as [|t l Hs IH Ht]; [constructor|]. rewrite filter_cons. case_decide; [|done]. constructor; [done|].
  rewrite Forall_forall in *. intros u [_ Hu]%list_elem_of_filter. by apply Ht.
Qed.

Lemma by_nonce_filter its (P : tx -> Prop) `{!forall t, Decision (P t)} :
  keyed its -> by_nonce (filter (fun nt => P nt.2) its) = filter P (by_nonce its) /\ keyed (filter (fun nt => P nt.2) its).
Proof.
  intros Hk. assert (keyed (filter (fun nt => P nt.2) its)) as Hk'.
  { intros n t [Hn _]%map_lookup_filter_Some. by apply Hk. }
  split; [|done]. apply by_nonce_unique; [done|by apply sorted_filter, by_nonce_sorted|]. intros t.
  by rewrite list_elem_of_filter, elem_by_nonce, map_lookup_filter_Some, (comm and).
Qed.

Lemma keyed_delete its n : keyed its -> keyed (delete n its).
Proof. intros Hk k t [_ Ht]%lookup_delete_Some. by apply Hk. Qed.

Lemma by_nonce_delete its n : keyed its -> by_nonce (delete n its) = filter (fun t => tx_Nonce t <> n) (by_nonce its).
Proof.
  intros Hk. apply by_nonce_unique; [by apply keyed_delete|by apply sorted_filter, by_nonce_sorted|].
  intros t. rewrite list_elem_of_filter, elem_by_nonce, lookup_delete_Some by done. naive_solver.
Qed.

(** The least nonce first. *)
Lemma by_nonce_least its n t :
  keyed its -> its !! n = Some t -> (forall k, is_Some (its !! k) -> n <= k) -> by_nonce its = t :: by_nonce (delete n its).
Proof.
  intros Hk Ht Hmin. pose proof (keyed_delete its n Hk) as Hk'. apply by_nonce_unique; [done| |].
  - constructor; [by apply by_nonce_sorted|]. apply Forall_forall. intros u Hu. apply elem_by_nonce in Hu; [|done].
    apply lookup_delete_Some in Hu as [Hne Hu]. rewrite (Hk _ _ Ht). specialize (Hmin _ (mk_is_Some _ _ Hu)). lia.
  - intros u. rewrite elem_of_cons, elem_by_nonce, lookup_delete_Some by done. split.
    + intros [->|[_ Hu]]; [by rewrite (Hk _ _ Ht)|done].
    + intros Hu. destruct (decide (n = tx_Nonce u)) as [->|Hne]; [left; congruence|by right].
Qed.

(** ** The invariant *)

Record sm_ok m : Prop := mk_sm_ok {
  sm_keyed : keyed (items m);
  sm_heap : heap_ok id (index m);
  sm_index : index m ≡ₚ (map_to_list (items m)).*1;
  sm_cached c : cache m = Some c -> c = by_nonce (items m)
}.

Definition contents m : list tx := by_nonce (items m).

Lemma elem_index its idx n : idx ≡ₚ (map_to_list its).*1 -> n ∈ idx <-> is_Some (its !! n).
Proof.
  intros ->. rewrite list_elem_of_fmap. split.
  - intros ([k t] & -> & Hin). apply elem_of_map_to_list in Hin. eauto.
  - intros [t Ht]. exists (n, t). split; [done|]. by apply elem_of_map_to_list.
Qed.

Lemma index_NoDup its idx : idx ≡ₚ (map_to_list its).*1 -> NoDup idx.
Proof. intros ->. apply NoDup_fst_map_to_list. Qed.

(** Deleting a nonce from the map and from the index. *)
Lemma index_delete its idx idx' n :
  idx ≡ₚ (map_to_list its).*1 -> idx ≡ₚ n :: idx' -> idx' ≡ₚ (map_to_list (delete n its)).*1.
Proof.
  intros H1 H2. pose proof (index_NoDup _ _ H1) as Hnd. rewrite H2 in Hnd. apply NoDup_cons in Hnd as [Hn Hnd].
  apply NoDup_Permutation; [done|apply NoDup_fst_map_to_list|]. intros k.
  rewrite (elem_index (delete n its) (map_to_list (delete n its)).*1) by done. rewrite lookup_delete_is_Some, <-(elem_index its idx) by done. rewrite H2, elem_of_cons.
  split; [intros Hk; split; [by intros ->|by right]|by intros [? [?|?]]].
Qed.

Lemma index_insert its idx n t :
  idx ≡ₚ (map_to_list its).*1 -> its !! n = None -> n :: idx ≡ₚ (map_to_list (<[n := t]> its)).*1.
Proof. intros H Hn. rewrite map_to_list_insert by done. rewrite fmap_cons. by rewrite H. Qed.

(** ** The operations on the list *)

(** Insertion by nonce; a transaction with the same nonce is replaced. *)
Fixpoint put_tx t l : list tx :=
  match l with
  | [] => [t]
  | u :: l' =>
      if tx_Nonce t <? tx_Nonce u then t :: l
      else if tx_Nonce t =? tx_Nonce u then t :: l'
      else u :: put_tx t l'
  end.

(** The transactions at the start whose nonces count up from [n]. *)
Fixpoint run_from (n : Z) l : list tx :=
  match l with
  | u :: l' => if tx_Nonce u =? n then u :: run_from (n + 1) l' else []
  | [] => []
  end.

Fixpoint take_while (f : tx -> bool) l : list tx :=
  match l with t :: l' => if f t then t :: take_while f l' else [] | [] => [] end.

(** What [Ready] takes: nothing, or the run at the start of the list. *)
Definition ready_txs (start : Z) l : list tx :=
  match l with
  | t :: _ => if start <? tx_Nonce t then [] else run_from (tx_Nonce t) l
  | [] => []
  end.

Lemma elem_put_tx t l u : sorted_txs l -> u ∈ put_tx t l <-> u = t \/ (u ∈ l /\ tx_Nonce u <> tx_Nonce t).
Proof.
  induction 1 as [|v l Hs IH Hv]; simpl; [set_solver|]. rewrite Forall_forall in Hv.
  destruct (Z.ltb_spec (tx_Nonce t) (tx_Nonce v)) as [Hlt|Hge]; [|destruct (Z.eqb_spec (tx_Nonce t) (tx_Nonce v)) as [He|Hne]].
  - rewrite !elem_of_cons. split; [|naive_solver]. intros [->|[->|Hu]]; [by left|right; split; [by left|lia]|].
    right. split; [by right|]. specialize (Hv u Hu). lia.
  - rewrite !elem_of_cons. split.
    + intros [->|Hu]; [by left|]. right. split; [by right|]. specialize (Hv u Hu). lia.
    + intros [->|[ [->|Hu] Hn]]; [by left|lia|by right].
  - rewrite !elem_of_cons, IH. naive_solver lia.
Qed.

Lemma put_tx_sorted t l : sorted_txs l -> sorted_txs (put_tx t l).
Proof.
  intros Hl. induction Hl as [|v l Hs IH Hv]; simpl; [by repeat constructor|].
  destruct (Z.ltb_spec (tx_Nonce t) (tx_Nonce v)) as [Hlt|Hge]; [|destruct (Z.eqb_spec (tx_Nonce t) (tx_Nonce v)) as [He|Hne]].
  - constructor; [by constructor|]. constructor; [done|]. eapply Forall_impl; [exact Hv|]. simpl. lia.
  - constructor; [done|]. by rewrite He.
  - constructor; [done|]. rewrite Forall_forall in *. intros u [->|[Hu _]]%elem_put_tx; [lia|by apply Hv|done].
Qed.

Lemma sm_Put_ok m t : sm_ok m -> sm_ok (sm_Put m t) /\ contents (sm_Put m t) = put_tx t (contents m).
Proof.
  intros [Hk Hh Hi Hc]. assert (keyed (<[tx_Nonce t := t]> (items m))) as Hk'.
  { intros n u [ [<- <-]|[_ Hu] ]%lookup_insert_Some; [done|by apply Hk]. }
  split.
  - unfold sm_Put. constructor; simpl; [done| | |done].
    + destruct (items m !! tx_Nonce t); [done|]. by apply heap_Push_ok.
    + destruct (items m !! tx_Nonce t) as [o|] eqn:E.
      * rewrite Hi. apply NoDup_Permutation; [apply NoDup_fst_map_to_list..|]. intros n.
        rewrite (elem_index (items m) (map_to_list (items m)).*1), (elem_index (<[tx_Nonce t:=t]> (items m)) (map_to_list (<[tx_Nonce t:=t]> (items m))).*1) by done.
        rewrite lookup_insert_is_Some. split; [|by intros [<-|[_ ?] ]; eauto]. intros H.
        destruct (decide (tx_Nonce t = n)); [by left|by right].
      * destruct (heap_Push_ok id (index m) (tx_Nonce t) Hh) as [_ ->]. by apply index_insert.
  - unfold contents. apply by_nonce_unique; [done|by apply put_tx_sorted, by_nonce_sorted|]. intros u.
    rewrite elem_put_tx, elem_by_nonce by (by apply by_nonce_sorted || done). simpl. rewrite lookup_insert_Some. split.
    + intros [->|[Hu Hn] ]; [by left|]. right. split; [by intros E|done].
    + intros [ [E ->]|[Hn Hu] ]; [by left|]. right. split; [done|by intros E].
Qed.

Lemma forward_loop_ok (fuel : nat) th its idx :
  (length idx <= fuel)%nat -> keyed its -> heap_ok id idx -> idx ≡ₚ (map_to_list its).*1 ->
  exists removed its' idx', forward_loop fuel th its idx = Some (removed, its', idx') /\
    keyed its' /\ heap_ok id idx' /\ idx' ≡ₚ (map_to_list its').*1 /\ by_nonce its = removed ++ by_nonce its' /\
    Forall (fun t => tx_Nonce t < th) removed /\ Forall (fun t => th <= tx_Nonce t) (by_nonce its').
Proof.
  revert its idx. induction fuel as [|fuel IH]; intros its idx Hf Hk Hh Hi.
  all: assert (head idx = None \/ (exists top, head idx = Some top /\ th <= top) ->
    Forall (fun t => th <= tx_Nonce t) (by_nonce its)) as Hstop by
    (intros Hd; apply Forall_forall; intros t Ht%elem_by_nonce; [|done]; apply mk_is_Some in Ht; rewrite <-(elem_index its idx) in Ht by done;
      destruct Hd as [Hd|(top & Hd & Hle)]; [destruct idx; [by apply elem_of_nil in Ht|done]|];
      pose proof (heap_head id idx top _ Hh Hd Ht) as Hm; unfold id in Hm; lia).
  all: cbn [forward_loop]; destruct (head idx) as [top|] eqn:Ehd; [destruct (Z.ltb_spec top th) as [Hlt|Hge]|].
  all: try (eexists [], its, idx; split; [done|]; split; [done|]; split; [done|]; split; [done|]; split; [done|]; split; [constructor|]; apply Hstop; eauto).
  - destruct idx; [done|simpl in Hf; lia].
  - destruct (heap_Pop_ok id idx Hh) as (x & idx1 & -> & Ex & Hp & Hh1 & Hmin); [by intros ->|]. rewrite Ehd in Ex. injection Ex as <-.
    rewrite some_bind. assert (top ∈ idx) as Hin by (rewrite Hp; by left).
    rewrite (elem_index its idx) in Hin by done. destruct Hin as [t Ht]. rewrite Ht, some_bind.
    destruct (IH (delete top its) idx1) as (removed & its' & idx' & -> & I1 & I2 & I3 & I4 & I5 & I6);
      [rewrite Hp in Hf; simpl in Hf; lia|by apply keyed_delete|done|by eapply index_delete|].
    rewrite some_bind. eexists _, _, _. split; [done|]. split; [done|]. split; [done|]. split; [done|]. split; [|split; [|done]].
    + rewrite (by_nonce_least its top t), I4 by (done || (intros k Hk0; rewrite <-(elem_index its idx) in Hk0 by done; by apply Hmin)). done.
    + constructor; [by rewrite (Hk _ _ Ht)|done].
Qed.

Lemma filter_all (P : tx -> Prop) `{!forall t, Decision (P t)} l : Forall P l -> filter P l = l.
Proof. induction 1 as [|t l Ht _ IH]; [done|]. by rewrite filter_cons_True, IH. Qed.

Lemma filter_none (P : tx -> Prop) `{!forall t, Decision (P t)} l : Forall (fun t => ~ P t) l -> filter P l = [].
Proof. induction 1 as [|t l Ht _ IH]; [done|]. by rewrite filter_cons_False, IH. Qed.

Lemma filter_bool_split (f : tx -> bool) l : filter (fun t => f t = true) l ++ filter (fun t => f t = false) l ≡ₚ l.
Proof.
  induction l as [|t l IH]; [done|]. destruct (f t) eqn:E.
  - rewrite filter_cons_True, filter_cons_False by congruence. simpl. by rewrite IH.
  - rewrite filter_cons_False, filter_cons_True by congruence. rewrite <-Permutation_middle. by rewrite IH.
Qed.

Lemma take_while_all (f : tx -> bool) l : Forall (fun t => f t = true) l -> take_while f l = l.
Proof. induction 1 as [|t l Ht _ IH]; [done|]. simpl. by rewrite Ht, IH. Qed.

Lemma filter_split l1 l2 th :
  Forall (fun t => tx_Nonce t < th) l1 -> Forall (fun t => th <= tx_Nonce t) l2 ->
  filter (fun t => tx_Nonce t < th) (l1 ++ l2) = l1 /\ filter (fun t => th <= tx_Nonce t) (l1 ++ l2) = l2.
Proof.
  intros H1 H2. rewrite !filter_app. split.
  - rewrite (filter_all _ l1) by done. rewrite filter_none; [by rewrite app_nil_r|].
    eapply Forall_impl; [exact H2|]. simpl. lia.
  - rewrite (filter_none _ l1); [by rewrite filter_all|]. eapply Forall_impl; [exact H1|]. simpl. lia.
Qed.

Lemma sm_Forward_ok m th :
  sm_ok m ->
  exists removed m', sm_Forward m th = Some (removed, m') /\ sm_ok m' /\
    removed = filter (fun t => tx_Nonce t < th) (contents m) /\ contents m' = filter (fun t => th <= tx_Nonce t) (contents m).
Proof.
  intros [Hk Hh Hi Hc]. unfold sm_Forward, contents.
  destruct (forward_loop_ok (length (index m)) th (items m) (index m)) as (removed & its & idx & -> & F1 & F2 & F3 & F4 & F5 & F6); [done..|].
  rewrite some_bind. destruct (filter_split _ _ _ F5 F6) as [G1 G2]. rewrite F4, G1, G2.
  assert (forall c, cache m = Some c -> slice c (length removed) (length c) = Some (by_nonce its)) as Hsl.
  { intros c E. rewrite (Hc c E), F4. rewrite slice_Some by (rewrite length_app; lia). f_equal.
    rewrite drop_app_length, length_app. rewrite take_ge; [done|lia]. }
  destruct (cache m) as [c|].
  - rewrite (Hsl c eq_refl), !some_bind. eexists _, _. split; [done|]. split; [|done]. constructor; try done. simpl. congruence.
  - rewrite some_bind. eexists _, _. split; [done|]. split; [|done]. by constructor.
Qed.

(** The loop of [Filter] splits the map. *)
Lemma filter_loop_ok (f : tx -> bool) kvs removed its :
  NoDup kvs.*1 ->
  let r := foldl (fun '(removed, its) '(nonce, t) => if f t then (removed ++ [t], delete nonce its) else (removed, its)) (removed, its) kvs in
  r.1 = removed ++ filter (fun t => f t = true) kvs.*2 /\
  (forall n, r.2 !! n = if bool_decide (Exists (fun nt => nt.1 = n /\ f nt.2 = true) kvs) then None else its !! n).
Proof.
  revert removed its. induction kvs as [|[k t] kvs IH]; intros removed its Hnd; cbn [foldl fst snd fmap list_fmap].
  - rewrite app_nil_r. split; [done|]. intros n. rewrite bool_decide_eq_false_2; [done|]. intros H. by inversion H.
  - apply NoDup_cons in Hnd as [Hk Hnd]. destruct (f t) eqn:E.
    + destruct (IH (removed ++ [t]) (delete k its) Hnd) as [I1 I2]. split.
      * rewrite I1, <-app_assoc. by rewrite filter_cons_True.
      * intros n. rewrite I2. destruct (decide (k = n)) as [->|Hne].
        -- rewrite lookup_delete_eq. rewrite (bool_decide_eq_true_2 (Exists _ ((n, t) :: kvs))) by (by left). by case_match.
        -- rewrite lookup_delete_ne by done. erewrite bool_decide_ext; [reflexivity|]. rewrite Exists_cons. simpl. naive_solver.
    + destruct (IH removed its Hnd) as [I1 I2]. split.
      * rewrite I1. rewrite filter_cons_False by (by rewrite E). done.
      * intros n. rewrite I2. erewrite bool_decide_ext; [reflexivity|]. rewrite Exists_cons. simpl. naive_solver congruence.
Qed.

Lemma sm_Filter_ok m (f : tx -> bool) :
  sm_ok m ->
  exists removed m', sm_Filter m f = (removed, m') /\ sm_ok m' /\
    removed ≡ₚ filter (fun t => f t = true) (contents m) /\ contents m' = filter (fun t => f t = false) (contents m).
Proof.
  intros [Hk Hh Hi Hc]. unfold sm_Filter, contents. pose proof (range_is_perm (items m)) as Hr.
  destruct (filter_loop_ok f (range (items m)) [] (items m)) as [E1 E2]; [rewrite Hr; apply NoDup_fst_map_to_list|].
  destruct (foldl _ _ _) as [removed its]. simpl in E1, E2.
  assert (removed ≡ₚ filter (fun t => f t = true) (by_nonce (items m))) as Hrem.
  { rewrite E1. apply filter_Permutation. unfold by_nonce. rewrite sort_by_perm. unfold values. by rewrite Hr. }
  assert (its = filter (fun nt => f nt.2 = false) (items m)) as ->.
  { apply map_eq. intros n. rewrite E2, map_lookup_filter. destruct (items m !! n) as [t|] eqn:Et; simpl; [|by case_match].
    case_bool_decide as Hx.
    - apply Exists_exists in Hx as ([k u] & Hin & Hkn & Hf). simpl in *. subst k. rewrite Hr in Hin. apply elem_of_map_to_list in Hin.
      rewrite option_guard_False; [done|]. simpl. congruence.
    - rewrite option_guard_True; [done|]. simpl. destruct (f t) eqn:Ef; [|done]. exfalso. apply Hx, Exists_exists. exists (n, t).
      rewrite Hr. split; [by apply elem_of_map_to_list|done]. }
  destruct (by_nonce_filter (items m) (fun t => f t = false) Hk) as [Hb Hk'].
  destruct (Nat.ltb_spec 0 (length removed)) as [Hlen|Hlen]; eexists _, _; (split; [done|]); (split; [|split; [done|exact Hb]]).
  - destruct (heap_Init_ok id (range (filter (fun nt => f nt.2 = false) (items m))).*1) as [H1 H2].
    constructor; simpl; [done|done| |done]. rewrite H2. by rewrite range_is_perm.
  - assert (removed = []) as -> by (by destruct removed; [|simpl in Hlen; lia]).
    assert (filter (fun nt => f nt.2 = false) (items m) = items m) as ->.
    { apply map_filter_id. intros n t Ht. simpl. destruct (f t) eqn:Ef; [|done]. exfalso.
      assert (t ∈ @nil tx) as []%elem_of_nil. rewrite Hrem, list_elem_of_filter. split; [done|].
      apply elem_by_nonce; [done|]. by rewrite (Hk _ _ Ht). }
    by constructor.
Qed.

(** The sorted index is the nonces of the sorted transactions. *)
Lemma sorted_index its idx : keyed its -> idx ≡ₚ (map_to_list its).*1 -> sort_by id idx = tx_Nonce <$> by_nonce its.
Proof.
  intros Hk Hi. apply (ascending_unique id).
  - apply sort_by_ascending. rewrite list_fmap_id. by eapply index_NoDup.
  - pose proof (by_nonce_sorted its Hk) as Hs. induction Hs as [|t l Hs IH Ht]; [constructor|]. rewrite fmap_cons. constructor; [done|].
    by apply Forall_fmap.
  - rewrite sort_by_perm, Hi. unfold by_nonce. by rewrite sort_by_perm, values_nonces.
Qed.

(** Deleting the greatest nonce. *)
Lemma by_nonce_greatest its l t : keyed its -> by_nonce its = l ++ [t] -> by_nonce (delete (tx_Nonce t) its) = l.
Proof.
  intros Hk E. rewrite by_nonce_delete, E, filter_app by done. rewrite (filter_all _ l), (filter_none _ [t]), app_nil_r; [done| |].
  - constructor; [lia|constructor].
  - pose proof (by_nonce_sorted its Hk) as Hs. rewrite E in Hs. apply ascending_app in Hs as (_ & _ & H).
    apply Forall_forall. intros u Hu. specialize (H u t Hu ltac:(by left)). lia.
Qed.

Lemma cap_loop_ok rounds n l its :
  keyed its -> by_nonce its = take n l -> (rounds <= n <= length l)%nat ->
  exists its', cap_loop rounds n (tx_Nonce <$> l) its = Some (reverse (drop (n - rounds) (take n l)), its') /\
    keyed its' /\ by_nonce its' = take (n - rounds) l.
Proof.
  revert n its. induction rounds as [|r IH]; intros n its Hk Hb Hr; cbn [cap_loop].
  - exists its. rewrite Nat.sub_0_r. rewrite drop_ge by (rewrite length_take; lia). done.
  - destruct (lookup_lt_is_Some_2 l (n - 1)) as [t Ht]; [lia|]. rewrite list_lookup_fmap, Ht. cbn [fmap option_fmap option_map]. rewrite some_bind.
    assert (take n l = take (n - 1) l ++ [t]) as Et by (replace n with (S (n - 1)) at 1 by lia; by apply take_S_r).
    assert (its !! tx_Nonce t = Some t) as Hits.
    { apply elem_by_nonce; [done|]. rewrite Hb, Et. apply elem_of_app. right. by left. }
    rewrite Hits, some_bind. destruct (IH (n - 1)%nat (delete (tx_Nonce t) its)) as (its' & E & I1 & I2);
      [by apply keyed_delete|apply by_nonce_greatest; [done|by rewrite Hb]|lia|].
    rewrite E, some_bind. exists its'. split; [|split; [done|]; rewrite I2; f_equal; lia].
    f_equal. f_equal. rewrite Et. rewrite drop_app_le by (rewrite length_take; lia). rewrite reverse_snoc. f_equal. f_equal. f_equal. lia.
Qed.

Lemma sm_Cap_ok m (threshold : nat) :
  sm_ok m ->
  exists m', sm_Cap m threshold = Some (reverse (drop threshold (contents m)), m') /\ sm_ok m' /\
    contents m' = take threshold (contents m).
Proof.
  intros [Hk Hh Hi Hc]. unfold sm_Cap, contents. pose proof (by_nonce_length (items m)) as Hl.
  destruct (Nat.leb_spec (size (items m)) threshold) as [Hle|Hgt].
  { exists m. rewrite drop_ge, take_ge by lia. split; [done|]. split; [by constructor|done]. }
  rewrite (sorted_index (items m)) by done. set (l := by_nonce (items m)) in *.
  destruct (cap_loop_ok (size (items m) - threshold) (size (items m)) l (items m)) as (its & -> & K1 & K2);
    [done|by rewrite take_ge by lia|lia|].
  replace (size (items m) - (size (items m) - threshold))%nat with threshold in * by lia. rewrite (take_ge l) by lia.
  rewrite some_bind, slice_Some by (rewrite length_fmap; lia). rewrite some_bind, drop_0, Nat.sub_0_r.
  assert (forall c, cache m = Some c -> (length c <? length (reverse (drop threshold l)))%nat = false /\
    take (length c - length (reverse (drop threshold l))) c = take threshold l) as Hcache.
  { intros c E. rewrite (Hc c E). fold l. rewrite length_reverse, length_drop. rewrite (proj2 (Nat.ltb_ge _ _)) by lia.
    split; [done|]. f_equal. lia. }
  assert (heap_ok id (heap_Init id (take threshold (tx_Nonce <$> l))) /\
    heap_Init id (take threshold (tx_Nonce <$> l)) ≡ₚ (map_to_list its).*1) as [HI1 HI2].
  { destruct (heap_Init_ok id (take threshold (tx_Nonce <$> l))) as [H1 H2]. split; [done|]. rewrite H2, <-fmap_take, <-K2.
    rewrite <-values_nonces by done. unfold by_nonce. by rewrite sort_by_perm. }
  destruct (cache m) as [c|].
  - destruct (Hcache c eq_refl) as [-> E2]. rewrite some_bind. eexists. split; [done|]. split; [|done]. constructor; try done. simpl. congruence.
  - rewrite some_bind. eexists. split; [done|]. split; [|done]. by constructor.
Qed.

Lemma sm_Remove_ok m n :
  sm_ok m ->
  exists m', sm_Remove m n = Some (bool_decide (n ∈ tx_Nonce <$> contents m), m') /\ sm_ok m' /\
    contents m' = filter (fun t => tx_Nonce t <> n) (contents m).
Proof.
  intros Hm. pose proof Hm as [Hk Hh Hi Hc]. unfold sm_Remove, contents. destruct (items m !! n) as [t|] eqn:Et.
  - rewrite bool_decide_eq_true_2 by (apply list_elem_of_fmap; exists t; rewrite elem_by_nonce by done; by rewrite (Hk _ _ Et)).
    assert (n ∈ index m) as Hin by (rewrite (elem_index (items m)) by done; eauto).
    destruct (list_find (eq n) (index m)) as [ [i k]|] eqn:Ef; [|apply list_find_None in Ef; rewrite Forall_forall in Ef; by destruct (Ef n)].
    apply list_find_Some in Ef as (Hik & <- & _). destruct (heap_Remove_ok id (index m) i n Hh Hik) as (idx & -> & Hp & Hh').
    cbn [fmap option_fmap option_map snd]. rewrite some_bind. eexists. split; [done|]. split; [|by apply by_nonce_delete].
    constructor; simpl; [by apply keyed_delete|done|by eapply index_delete|done].
  - rewrite bool_decide_eq_false_2 by (intros (t & -> & Ht)%list_elem_of_fmap; rewrite elem_by_nonce in Ht by done; congruence).
    exists m. split; [done|]. split; [done|]. symmetry. apply filter_all, Forall_forall. intros t Ht <-.
    rewrite elem_by_nonce in Ht by done. congruence.
Qed.

Lemma ready_loop_ok (fuel : nat) next its idx :
  (length idx <= fuel)%nat -> keyed its -> heap_ok id idx -> idx ≡ₚ (map_to_list its).*1 ->
  (forall k, is_Some (its !! k) -> next <= k) -> 0 <= next < 2 ^ 64 \/ its = ∅ ->
  exists ready its' idx', ready_loop fuel next its idx = Some (ready, its', idx') /\
    keyed its' /\ heap_ok id idx' /\ idx' ≡ₚ (map_to_list its').*1 /\
    ready = run_from next (by_nonce its) /\ by_nonce its = ready ++ by_nonce its'.
Proof.
  revert next its idx. induction fuel as [|fuel IH]; intros next its idx Hf Hk Hh Hi Hlow Hrange.
  all: cbn [ready_loop]; destruct (head idx) as [top|] eqn:Ehd.
  all: try (assert (idx = []) as -> by (by destruct idx); assert (its = ∅) as -> by
    (apply map_to_list_empty_iff; symmetry in Hi; by apply Permutation_nil_r, fmap_nil_inv in Hi);
    by eexists [], ∅, []).
  - destruct idx; [done|simpl in Hf; lia].
  - assert (is_Some (its !! top)) as [t Ht] by (apply (elem_index its idx); [done|]; destruct idx; [done|]; injection Ehd as ->; by left).
    assert (forall k, is_Some (its !! k) -> top <= k) as Hmin.
    { intros k Hk0. rewrite <-(elem_index its idx) in Hk0 by done. by apply (heap_head id idx top k Hh). }
    pose proof (by_nonce_least its top t Hk Ht Hmin) as Hl.
    destruct (Z.eqb_spec top next) as [->|Hne].
    2:{ eexists [], its, idx. split; [done|]. repeat split; try done. rewrite Hl. simpl. rewrite (Hk _ _ Ht).
        by rewrite (proj2 (Z.eqb_neq _ _)). }
    rewrite Ht, some_bind. destruct (heap_Pop_ok id idx Hh) as (x & idx1 & -> & Ex & Hp & Hh1 & _); [by intros ->|].
    rewrite Ehd in Ex. injection Ex as <-. rewrite some_bind.
    assert (0 <= next < 2 ^ 64) as Hr by (pose proof (Nonce_range t) as H; by rewrite (Hk _ _ Ht) in H).
    assert (forall k, is_Some (delete next its !! k) -> next + 1 <= k < 2 ^ 64) as Hlow'.
    { intros k [u [Hne Hu]%lookup_delete_Some]. pose proof (Nonce_range u) as H. rewrite (Hk _ _ Hu) in H.
      specialize (Hlow k (mk_is_Some _ _ Hu)). lia. }
    assert (u64 (next + 1) = next + 1 \/ delete next its = ∅) as Hwrap.
    { destruct (decide (next + 1 = 2 ^ 64)); [right|left; unfold u64; by rewrite Z.mod_small by lia].
      apply map_empty. intros k. destruct (delete next its !! k) eqn:E; [|done]. specialize (Hlow' k (mk_is_Some _ _ E)). lia. }
    destruct (IH (u64 (next + 1)) (delete next its) idx1) as (ready & its' & idx' & -> & I1 & I2 & I3 & I4 & I5);
      [rewrite Hp in Hf; simpl in Hf; lia|by apply keyed_delete|done|by eapply index_delete| | |].
    + intros k Hk0. destruct Hwrap as [-> | E]; [by apply Hlow'|]. rewrite E, lookup_empty in Hk0. by destruct Hk0.
    + left. unfold u64. apply Z.mod_pos_bound. lia.
    + rewrite some_bind. eexists _, _, _. split; [done|]. split; [done|]. split; [done|]. split; [done|]. split.
      * rewrite Hl. simpl. rewrite (Hk _ _ Ht), Z.eqb_refl. f_equal. rewrite I4. destruct Hwrap as [-> | E]; [done|]. by rewrite E.
      * rewrite Hl, I5. done.
Qed.

Lemma sm_Ready_ok m start :
  sm_ok m ->
  exists m', sm_Ready m start = Some (ready_txs start (contents m), m') /\ sm_ok m' /\
    contents m' = drop (length (ready_txs start (contents m))) (contents m).
Proof.
  intros Hm. pose proof Hm as [Hk Hh Hi Hc]. unfold sm_Ready, contents. destruct (head (index m)) as [top|] eqn:Ehd.
  - assert (is_Some (items m !! top)) as [t Ht] by
      (apply (elem_index (items m) (index m)); [done|]; destruct (index m); [done|]; injection Ehd as ->; by left).
    assert (forall k, is_Some (items m !! k) -> top <= k) as Hmin.
    { intros k Hk0. rewrite <-(elem_index (items m) (index m)) in Hk0 by done. by apply (heap_head id (index m) top k Hh). }
    assert (0 <= top < 2 ^ 64) as Hr by (pose proof (Nonce_range t) as H; by rewrite (Hk _ _ Ht) in H).
    pose proof (by_nonce_least (items m) top t Hk Ht Hmin) as Hl.
    destruct (ready_loop_ok (length (index m)) top (items m) (index m)) as (ready & its & idx & E & R1 & R2 & R3 & R4 & R5); [done..|by left|].
    assert (ready_txs start (by_nonce (items m)) = if start <? top then [] else ready) as ->.
    { rewrite R4, Hl. unfold ready_txs. by rewrite (Hk _ _ Ht). }
    rewrite E, some_bind. destruct (start <? top); [by exists m|]. eexists. split; [done|]. split; [by constructor|].
    rewrite R5 at 1. by rewrite drop_app_length.
  - assert (by_nonce (items m) = []) as E0; [|rewrite E0; by exists m].
    apply length_zero_iff_nil. rewrite by_nonce_length, <-length_map_to_list, <-(length_fmap fst), <-Hi. by destruct (index m).
Qed.

Lemma sm_Flatten_ok m : sm_ok m -> exists m', sm_Flatten m = (contents m, m') /\ sm_ok m' /\ contents m' = contents m.
Proof.
  intros [Hk Hh Hi Hc]. unfold sm_Flatten, contents.
  assert ((match cache m with Some c => c | None => sort_by tx_Nonce (range (items m)).*2 end) = by_nonce (items m)) as ->.
  { destruct (cache m) as [c|]; [by apply Hc|]. apply sort_by_unique; [|by rewrite range_is_perm].
    rewrite range_is_perm. fold (values (items m)). rewrite values_nonces by done. apply NoDup_fst_map_to_list. }
  eexists. split; [done|]. split; [|done]. constructor; try done. simpl. by intros c [= <-].
Qed.

Lemma sm_Get_ok m n : sm_ok m -> sm_Get m n = head (filter (fun t => tx_Nonce t = n) (contents m)).
Proof.
  intros [Hk _ _ _]. unfold sm_Get, contents. destruct (items m !! n) as [t|] eqn:Et.
  - destruct (filter (fun t => tx_Nonce t = n) (by_nonce (items m))) as [|u l] eqn:E.
    + exfalso. assert (t ∈ @nil tx) as []%elem_of_nil. rewrite <-E, list_elem_of_filter, elem_by_nonce by done.
      by rewrite (Hk _ _ Et).
    + assert (u ∈ u :: l) as Hu by (by left). rewrite <-E, list_elem_of_filter, elem_by_nonce in Hu by done.
      destruct Hu as [Hn Hu]. simpl. congruence.
  - rewrite filter_none; [done|]. apply Forall_forall. intros t Ht <-. rewrite elem_by_nonce in Ht by done. congruence.
Qed.

(** ** Refinement *)

Inductive sm_call :=
  | CGet (nonce : Z) | CPut (t : tx) | CForward (threshold : Z) | CFilter (f : tx -> bool) | CCap (threshold : nat)
  | CRemove (nonce : Z) | CReady (start : Z) | CLen | CFlatten.

Inductive sm_reply := RDone | RTx (t : option tx) | RTxs (l : list tx) | RBool (b : bool) | RLen (n : nat).

Definition sm_do m (c : sm_call) : option (sm_reply * txSortedMap) :=
  match c with
  | CGet n => Some (RTx (sm_Get m n), m)
  | CPut t => Some (RDone, sm_Put m t)
  | CForward th => '(r, m) ← sm_Forward m th; Some (RTxs r, m)
  | CFilter f => let '(r, m) := sm_Filter m f in Some (RTxs r, m)
  | CCap k => '(r, m) ← sm_Cap m k; Some (RTxs r, m)
  | CRemove n => '(b, m) ← sm_Remove m n; Some (RBool b, m)
  | CReady n => '(r, m) ← sm_Ready m n; Some (RTxs r, m)
  | CLen => Some (RLen (sm_Len m), m)
  | CFlatten => let '(r, m) := sm_Flatten m in Some (RTxs r, m)
  end.

(** The same calls on the sorted list. *)
Definition list_do l (c : sm_call) : sm_reply * list tx :=
  match c with
  | CGet n => (RTx (head (filter (fun t => tx_Nonce t = n) l)), l)
  | CPut t => (RDone, put_tx t l)
  | CForward th => (RTxs (filter (fun t => tx_Nonce t < th) l), filter (fun t => th <= tx_Nonce t) l)
  | CFilter f => (RTxs (filter (fun t => f t = true) l), filter (fun t => f t = false) l)
  | CCap k => (RTxs (reverse (drop k l)), take k l)
  | CRemove n => (RBool (bool_decide (n ∈ tx_Nonce <$> l)), filter (fun t => tx_Nonce t <> n) l)
  | CReady start => (RTxs (ready_txs start l), drop (length (ready_txs start l)) l)
  | CLen => (RLen (length l), l)
  | CFlatten => (RTxs l, l)
  end.

(** Replies agree; [Filter] returns its transactions in the order of the map. *)
Definition same_reply (c : sm_call) (r r' : sm_reply) : Prop :=
  match c, r, r' with
  | CFilter _, RTxs l, RTxs l' => l ≡ₚ l'
  | _, _, _ => r = r'
  end.

Lemma sm_do_ok m c :
  sm_ok m -> exists r m', sm_do m c = Some (r, m') /\ sm_ok m' /\ same_reply c r (list_do (contents m) c).1 /\
    contents m' = (list_do (contents m) c).2.
Proof.
  intros Hm. destruct c; cbn [sm_do list_do same_reply fst snd].
  - eexists _, m. split; [done|]. split; [done|]. by rewrite sm_Get_ok.
  - destruct (sm_Put_ok m t Hm). by eexists _, _.
  - destruct (sm_Forward_ok m threshold Hm) as (r & m' & -> & H1 & -> & H3). by eexists _, _.
  - destruct (sm_Filter_ok m f Hm) as (r & m' & -> & H1 & H2 & H3). by eexists _, _.
  - destruct (sm_Cap_ok m threshold Hm) as (m' & -> & H1 & H2). by eexists _, _.
  - destruct (sm_Remove_ok m nonce Hm) as (m' & -> & H1 & H2). by eexists _, _.
  - destruct (sm_Ready_ok m start Hm) as (m' & -> & H1 & H2). by eexists _, _.
  - eexists _, m. split; [done|]. split; [done|]. unfold sm_Len, contents. by rewrite by_nonce_length.
  - destruct (sm_Flatten_ok m Hm) as (m' & -> & H1 & H2). by eexists _, _.
Qed.

Fixpoint sm_run m (cs : list sm_call) : option (list sm_reply * txSortedMap) :=
  match cs with
  | [] => Some ([], m)
  | c :: cs' => '(r, m) ← sm_do m c; '(rs, m) ← sm_run m cs'; Some (r :: rs, m)
  end.

Fixpoint list_run l (cs : list sm_call) : list sm_reply :=
  match cs with
  | [] => []
  | c :: cs' => let '(r, l) := list_do l c in r :: list_run l cs'
  end.

Definition same_replies (cs : list sm_call) (rs rs' : list sm_reply) : Prop :=
  Forall2 (fun c p => same_reply c p.1 p.2) cs (zip rs rs') /\ length rs = length cs /\ length rs' = length cs.

Lemma sm_run_ok m cs :
  sm_ok m -> exists rs m', sm_run m cs = Some (rs, m') /\ sm_ok m' /\ same_replies cs rs (list_run (contents m) cs).
Proof.
  revert m. induction cs as [|c cs IH]; intros m Hm; cbn [sm_run list_run].
  - eexists _, m. split; [done|]. split; [done|]. split; [constructor|done].
  - destruct (sm_do_ok m c Hm) as (r & m1 & -> & H1 & H2 & H3). rewrite some_bind.
    destruct (IH m1 H1) as (rs & m2 & -> & I1 & I2 & I3 & I4). rewrite some_bind. rewrite H3 in I2, I4.
    destruct (list_do (contents m) c) as [r' l']. eexists _, m2. split; [done|]. split; [done|].
    split; [by constructor|simpl in *; lia].
Qed.

Lemma new_sm_ok : sm_ok newTxSortedMap /\ contents newTxSortedMap = [].
Proof.
  split; [|reflexivity]. constructor; simpl; [intros n t H; by rewrite lookup_empty in H|intros m; simpl; lia|reflexivity|done].
Qed.

(** C30: the sorted map of the pool refines a list of transactions sorted by
    nonce.  Any sequence of calls on a new [txSortedMap], with its heap of
    nonces and its cache, succeeds without panic, and every call returns what
    the same call returns on the sorted list: [Forward] and [Ready] take
    transactions off the front, [Cap] off the back, [Filter] and [Remove] by
    their predicate, [Flatten] is the whole list, for every order in which Go
    may range over the map. *)
Theorem txSortedMap_refines cs :
  exists rs m, sm_run newTxSortedMap cs = Some (rs, m) /\ same_replies cs rs (list_run [] cs).
Proof.
  destruct new_sm_ok as [H1 H2]. destruct (sm_run_ok _ cs H1) as (rs & m & E & _ & H). rewrite H2 in H. eauto.
Qed.

(** ** The list with its caps *)

Implicit Types (L : txList).

Definition list_txs L : list tx := contents (txs L).

Record list_ok L : Prop := mk_list_ok {
  lo_map : sm_ok (txs L);
  lo_cost t : t ∈ list_txs L -> tx_Cost t <= costcap L;
  lo_gas t : t ∈ list_txs L -> tx_Gas t <= gascap L
}.

(** A map with fewer transactions below the same caps. *)
Lemma list_sub L m : list_ok L -> sm_ok m -> (forall t, t ∈ contents m -> t ∈ list_txs L) -> list_ok (set_txs L m).
Proof. intros [] Hm Hs. constructor; [done|..]; intros t Ht; eauto. Qed.

Lemma new_list_ok b : list_ok (newTxList b) /\ list_txs (newTxList b) = [].
Proof.
  destruct new_sm_ok as [H1 H2]. split; [|done]. constructor; [done|..]; intros t Ht; unfold list_txs in Ht; simpl in Ht;
    rewrite H2 in Ht; by apply elem_of_nil in Ht.
Qed.

Lemma list_Add_ok L t bump b old L' :
  list_ok L -> list_Add L t bump = (b, old, L') ->
  list_ok L' /\ list_txs L' = if b then put_tx t (list_txs L) else list_txs L.
Proof.
  intros [H1 H2 H3]. unfold list_Add. destruct (match sm_Get _ _ with Some _ => _ | None => _ end); [by intros [= <- <- <-]|].
  intros [= <- <- <-]. destruct (sm_Put_ok (txs L) t H1) as [P1 P2]. split; [|done].
  assert (forall u, u ∈ contents (sm_Put (txs L) t) -> u = t \/ u ∈ list_txs L) as Hin.
  { intros u. rewrite P2, elem_put_tx by (apply by_nonce_sorted, H1). intros [->|[Hu _] ]; [by left|by right]. }
  constructor; [done|..]; simpl; intros u [->|Hu]%Hin.
  - case_match eqn:E; [done|]. by apply Z.ltb_ge in E.
  - specialize (H2 u Hu). case_match eqn:E; [|done]. apply Z.ltb_lt in E. lia.
  - case_match eqn:E; [done|]. by apply Z.ltb_ge in E.
  - specialize (H3 u Hu). case_match eqn:E; [|done]. apply Z.ltb_lt in E. lia.
Qed.

Lemma list_sorted L : list_ok L -> sorted_txs (list_txs L).
Proof. intros [ [Hk _ _ _] _ _]. by apply by_nonce_sorted. Qed.

Lemma list_Get_elem L n t : list_ok L -> sm_Get (txs L) n = Some t <-> t ∈ list_txs L /\ tx_Nonce t = n.
Proof.
  intros [ [Hk _ _ _] _ _]. unfold sm_Get, list_txs, contents. rewrite elem_by_nonce by done. split; [|by intros [? <-] ].
  intros E. specialize (Hk n t E) as En. by rewrite En.
Qed.

(** What [Add] returns and how the list changes. *)
Lemma list_Add_spec L t bump :
  list_ok L ->
  exists b old L', list_Add L t bump = (b, old, L') /\ list_ok L' /\ strict L' = strict L /\
    (if b then old = sm_Get (txs L) (tx_Nonce t) /\ list_txs L' = put_tx t (list_txs L)
     else L' = L /\ exists o, o ∈ list_txs L /\ tx_Nonce o = tx_Nonce t /\ priced_out o t bump = true).
Proof.
  intros HL. destruct (list_Add L t bump) as [ [b old] L'] eqn:E. exists b, old, L'. split; [done|].
  destruct (list_Add_ok _ _ _ _ _ _ HL E) as [H1 H2]. split; [done|]. unfold list_Add in E.
  destruct (sm_Get (txs L) (tx_Nonce t)) as [o|] eqn:Eo; [destruct (priced_out o t bump) eqn:Ep|]; injection E as <- <- <-;
    (split; [done|]); [|by split..]. apply list_Get_elem in Eo as [? ?]; [|done]. by split; [|exists o].
Qed.

Lemma list_Forward_ok L th :
  list_ok L ->
  exists L', list_Forward L th = Some (filter (fun t => tx_Nonce t < th) (list_txs L), L') /\ list_ok L' /\ strict L' = strict L /\
    list_txs L' = filter (fun t => th <= tx_Nonce t) (list_txs L).
Proof.
  intros HL. unfold list_Forward. destruct (sm_Forward_ok (txs L) th (lo_map _ HL)) as (r & m & -> & H1 & -> & H3). rewrite some_bind.
  exists (set_txs L m). split; [done|]. split; [|done]. apply list_sub; [done|done|]. intros t. rewrite H3. by intros [_ ?]%list_elem_of_filter.
Qed.

Lemma list_Cap_ok L k :
  list_ok L ->
  exists L', list_Cap L k = Some (reverse (drop k (list_txs L)), L') /\ list_ok L' /\ strict L' = strict L /\ list_txs L' = take k (list_txs L).
Proof.
  intros HL. unfold list_Cap. destruct (sm_Cap_ok (txs L) k (lo_map _ HL)) as (m & -> & H1 & H2). rewrite some_bind.
  exists (set_txs L m). split; [done|]. split; [|done]. apply list_sub; [done|done|]. intros t. rewrite H2. intros (i & Hi & _)%elem_of_take. by eapply list_elem_of_lookup_2.
Qed.

Lemma list_Ready_ok L start :
  list_ok L ->
  exists L', list_Ready L start = Some (ready_txs start (list_txs L), L') /\ list_ok L' /\ strict L' = strict L /\
    list_txs L' = drop (length (ready_txs start (list_txs L))) (list_txs L).
Proof.
  intros HL. unfold list_Ready. destruct (sm_Ready_ok (txs L) start (lo_map _ HL)) as (m & -> & H1 & H2). rewrite some_bind.
  exists (set_txs L m). split; [done|]. split; [|done]. apply list_sub; [done|done|]. intros t. rewrite H2. intros Ht.
  rewrite <-(take_drop (length (ready_txs start (contents (txs L)))) (list_txs L)). apply elem_of_app. by right.
Qed.

Lemma list_Flatten_ok L :
  list_ok L -> exists L', list_Flatten L = (list_txs L, L') /\ list_ok L' /\ strict L' = strict L /\ list_txs L' = list_txs L.
Proof.
  intros HL. unfold list_Flatten. destruct (sm_Flatten_ok (txs L) (lo_map _ HL)) as (m & -> & H1 & H2).
  exists (set_txs L m). split; [done|]. split; [|done]. apply list_sub; [done|done|]. intros t. by rewrite H2.
Qed.

Lemma list_Len_ok L : list_Len L = length (list_txs L).
Proof. unfold list_Len, sm_Len, list_txs, contents. by rewrite by_nonce_length. Qed.

Lemma list_Empty_ok L : list_Empty L = bool_decide (list_txs L = []).
Proof. unfold list_Empty. rewrite list_Len_ok. by destruct (list_txs L). Qed.

(** Removing a nonce: a strict list keeps what is below it. *)
Lemma list_Remove_ok L t :
  list_ok L ->
  let n := tx_Nonce t in
  exists invalids L', list_Remove L t = Some (bool_decide (n ∈ tx_Nonce <$> list_txs L), invalids, L') /\ list_ok L' /\ strict L' = strict L /\
    (if bool_decide (n ∈ tx_Nonce <$> list_txs L) && strict L
     then invalids ≡ₚ filter (fun u => n < tx_Nonce u) (list_txs L) /\ list_txs L' = filter (fun u => tx_Nonce u < n) (list_txs L)
     else invalids = [] /\ list_txs L' = filter (fun u => tx_Nonce u <> n) (list_txs L)).
Proof.
  intros HL n. unfold list_Remove. fold n. destruct (sm_Remove_ok (txs L) n (lo_map _ HL)) as (m & -> & H1 & H2). rewrite some_bind.
  change (contents (txs L)) with (list_txs L) in *.
  assert (list_ok (set_txs L m)) as Hm by (apply list_sub; [done|done|]; intros u; rewrite H2; by intros [_ ?]%list_elem_of_filter).
  destruct (bool_decide (n ∈ tx_Nonce <$> list_txs L)); cbn [negb andb]; [|by exists [], (set_txs L m)].
  destruct (strict L) eqn:Es; [|by exists [], (set_txs L m)].
  destruct (sm_Filter_ok m (fun t => n <? tx_Nonce t) H1) as (invalids & m' & -> & F1 & F2 & F3).
  exists invalids, (set_txs L m'). split; [done|]. split; [|split; [done|split] ].
  - apply list_sub; [done|done|]. intros u. rewrite F3, H2, !list_elem_of_filter. by intros [_ [_ ?] ].
  - rewrite F2, H2, list_filter_filter. erewrite list_filter_iff; [done|]. intros u. simpl. rewrite Z.ltb_lt. lia.
  - change (list_txs (set_txs L m')) with (contents m'). rewrite F3, H2, list_filter_filter. apply list_filter_iff. intros u. rewrite Z.ltb_ge. lia.
Qed.

(** A transaction within the limits. *)
Definition affordable (costLimit gasLimit : Z) t : bool := (tx_Cost t <=? costLimit) && (tx_Gas t <=? gasLimit).

(** Below the least nonce that is filtered out is the part before it. *)
Lemma take_while_below (f : tx -> bool) l n :
  sorted_txs l -> (exists t, t ∈ l /\ f t = false /\ tx_Nonce t = n) ->
  (forall t, t ∈ l -> f t = false -> n <= tx_Nonce t) ->
  filter (fun t => tx_Nonce t <= n) (filter (fun t => f t = true) l) = take_while f l.
Proof.
  induction 1 as [|u l Hs IH Hu]; intros (t & Ht & Hf & Hn) Hmin; [by apply elem_of_nil in Ht|]. simpl. rewrite Forall_forall in Hu.
  destruct (f u) eqn:Eu.
  - rewrite filter_cons_True by done. apply elem_of_cons in Ht as [->|Ht]; [congruence|]. specialize (Hu t Ht) as Hlt.
    rewrite filter_cons_True by lia. f_equal. apply IH; [by exists t|]. intros v Hv. apply Hmin. by right.
  - rewrite filter_cons_False by congruence. apply filter_none, Forall_forall. intros v [_ Hv]%list_elem_of_filter.
    specialize (Hu v Hv). specialize (Hmin u ltac:(by left) Eu). lia.
Qed.

Lemma lowest_ok (n0 : Z) l :
  let low := foldl (fun lowest t => if tx_Nonce t <? lowest then tx_Nonce t else lowest) n0 l in
  low <= n0 /\ (forall t, t ∈ l -> low <= tx_Nonce t) /\ (low = n0 \/ exists t, t ∈ l /\ tx_Nonce t = low).
Proof.
  revert n0. induction l as [|u l IH]; intros n0; simpl; [split; [done|]; split; [intros t Ht; by apply elem_of_nil in Ht|by left]|].
  destruct (IH (if tx_Nonce u <? n0 then tx_Nonce u else n0)) as (I1 & I2 & I3). cbv zeta in *.
  destruct (Z.ltb_spec (tx_Nonce u) n0) as [Hlt|Hge].
  - split; [lia|]. split; [intros t [->|Ht]%elem_of_cons; [lia|by apply I2]|]. right.
    destruct I3 as [->|(t & Ht & E)]; [exists u; split; [by left|done]|exists t; split; [by right|done]].
  - split; [lia|]. split; [intros t [->|Ht]%elem_of_cons; [lia|by apply I2]|].
    destruct I3 as [->|(t & Ht & E)]; [by left|right; exists t; split; [by right|done]].
Qed.

(** The first filter of [Filter]: its predicate is the opposite of
    [affordable]. *)
Lemma not_affordable c g t : (c <? tx_Cost t) || (g <? tx_Gas t) = negb (affordable c g t).
Proof. unfold affordable. rewrite negb_andb, !Z.leb_antisym, !negb_involutive. done. Qed.

Lemma list_Filter_ok L c g :
  list_ok L ->
  exists removed invalids L', list_Filter L c g = (removed, invalids, L') /\ list_ok L' /\ strict L' = strict L /\
    removed ≡ₚ filter (fun t => affordable c g t = false) (list_txs L) /\
    (if strict L
     then list_txs L' = take_while (affordable c g) (list_txs L) /\ removed ++ invalids ++ list_txs L' ≡ₚ list_txs L
     else list_txs L' = filter (fun t => affordable c g t = true) (list_txs L) /\ invalids = []).
Proof.
  intros HL. pose proof HL as [H1 H2 H3]. unfold list_Filter. destruct ((costcap L <=? c) && (gascap L <=? g)) eqn:Ecap.
  - apply andb_true_iff in Ecap as [E1%Z.leb_le E2%Z.leb_le].
    assert (Forall (fun t => affordable c g t = true) (list_txs L)) as Hall.
    { apply Forall_forall. intros t Ht. unfold affordable. apply andb_true_iff. rewrite !Z.leb_le. split; [specialize (H2 t Ht)|specialize (H3 t Ht)]; lia. }
    exists [], [], L. split; [done|]. split; [done|]. split; [done|]. split.
    + rewrite filter_none; [done|]. eapply Forall_impl; [exact Hall|]. simpl. congruence.
    + rewrite filter_all by done. destruct (strict L); [|done]. split; [|done]. by rewrite take_while_all.
  - cbn [txs strict]. destruct (sm_Filter_ok (txs L) (fun t => (c <? tx_Cost t) || (g <? tx_Gas t)) H1) as (removed & m & -> & M1 & M2 & M3).
    assert (removed ≡ₚ filter (fun t => affordable c g t = false) (list_txs L)) as Hrem.
    { rewrite M2. erewrite list_filter_iff; [done|]. intros t. rewrite not_affordable. by destruct (affordable c g t). }
    assert (contents m = filter (fun t => affordable c g t = true) (list_txs L)) as Hm.
    { rewrite M3. apply list_filter_iff. intros t. rewrite not_affordable. by destruct (affordable c g t). }
    set (L1 := mkTxList (strict L) (txs L) c g).
    assert (forall m', sm_ok m' -> (forall t, t ∈ contents m' -> t ∈ contents m) -> list_ok (set_txs L1 m')) as Hok.
    { intros m' Hm' Hs. constructor; [done|..]; intros t Ht%Hs; rewrite Hm, list_elem_of_filter in Ht; destruct Ht as [Ha _];
        unfold affordable in Ha; apply andb_true_iff in Ha as [?%Z.leb_le ?%Z.leb_le]; done. }
    destruct (strict L && (0 <? length removed)%nat) eqn:Estrict.
    + apply andb_true_iff in Estrict as [Es El%Nat.ltb_lt]. set (low := foldl _ _ _).
      destruct (lowest_ok MaxUint64 removed) as (_ & Hlow & Hmem). fold low in Hlow, Hmem.
      assert (exists t, t ∈ removed /\ tx_Nonce t = low) as (t0 & Ht0 & En0).
      { destruct Hmem as [E|?]; [|done]. destruct removed as [|u r]; [simpl in El; lia|]. exists u. split; [by left|].
        specialize (Hlow u ltac:(by left)). pose proof (Nonce_range u). unfold MaxUint64 in E. lia. }
      destruct (sm_Filter_ok m (fun t => low <? tx_Nonce t) M1) as (invalids & m2 & -> & N1 & N2 & N3).
      exists removed, invalids, (set_txs L1 m2). split; [done|]. split; [apply Hok; [done|]; intros t; rewrite N3; by intros [_ ?]%list_elem_of_filter|].
      split; [done|]. split; [done|]. rewrite Es. change (list_txs (set_txs L1 m2)) with (contents m2). split.
      * rewrite N3. erewrite list_filter_iff; [|intros t; apply Z.ltb_ge]. rewrite Hm. apply take_while_below.
        -- apply by_nonce_sorted, H1.
        -- exists t0. rewrite Hrem, list_elem_of_filter in Ht0. naive_solver.
        -- intros t Ht Hf. apply Hlow. rewrite Hrem, list_elem_of_filter. done.
      * rewrite N2, N3, filter_bool_split, Hrem, Hm, (comm app). apply filter_bool_split.
    + exists removed, [], (set_txs L1 m). split; [done|]. split; [by apply Hok|]. split; [done|]. split; [done|].
      change (list_txs (set_txs L1 m)) with (contents m). apply andb_false_iff in Estrict. destruct (strict L); [|done].
      destruct Estrict as [?|El%Nat.ltb_ge]; [done|]. destruct removed; [|simpl in El; lia]. simpl.
      assert (Forall (fun t => affordable c g t = true) (list_txs L)) as Hall.
      { apply Forall_forall. intros t Ht. destruct (affordable c g t) eqn:E; [done|]. exfalso.
        assert (t ∈ @nil tx) as []%elem_of_nil. rewrite Hrem, list_elem_of_filter. done. }
      rewrite Hm, filter_all by done. by rewrite take_while_all.
Qed.

(** [Filter] of a transaction list removes exactly the transactions that
    cost more than the account has or need more gas than a block allows, also
    where the cached caps let it return at once.  In a strict list, which must
    have no gaps, what stays is the part before the first of them; everything
    after it comes back as removed or as invalidated, and nothing is lost. *)
Theorem txList_Filter_exact L c g :
  list_ok L ->
  exists removed invalids L', list_Filter L c g = (removed, invalids, L') /\ list_ok L' /\ strict L' = strict L /\
    removed ≡ₚ filter (fun t => affordable c g t = false) (list_txs L) /\
    (if strict L
     then list_txs L' = take_while (affordable c g) (list_txs L) /\ removed ++ invalids ++ list_txs L' ≡ₚ list_txs L
     else list_txs L' = filter (fun t => affordable c g t = true) (list_txs L) /\ invalids = []).
Proof. apply list_Filter_ok. Qed.

End TxList.

(** ** Three transactions *)

Module Sample.

(** A transaction of nonce, gas price, gas and cost. *)
#[local] Instance plainTx : Transaction.
Proof.
  refine {| tx := nat * Z * Z * Z; tx_Nonce t := Z.of_nat t.1.1.1 mod 2 ^ 64; tx_GasPrice t := t.1.1.2; tx_Gas t := t.1.2; tx_Cost t := t.2;
    tx_Hash t := [Z.of_nat t.1.1.1; t.1.1.2; t.1.2; t.2]; tx_Sender t := Some [t.1.1.2]; no_Sender := []; tx_Size t := 100; tx_Value t := 0;
    tx_Data t := []; tx_To t := None |}.
  - intros t. apply Z.mod_pos_bound. lia.
  - intros [ [ [n1 p1] g1] c1] [ [ [n2 p2] g2] c2] [= E1%Nat2Z.inj -> -> ->]. simpl in E1. by subst.
Defined.

#[local] Instance plainOrder : RangeOrder := {| range K _ _ V m := map_to_list m; range_is_perm K _ _ V m := reflexivity _ |}.

Definition t1 : tx := (1%nat, 10, 21000, 300).
Definition t2 : tx := (2%nat, 10, 21000, 900).
Definition t3 : tx := (3%nat, 10, 21000, 200).

Definition three : txList := (list_Add (list_Add (list_Add (newTxList true) t2 10).2 t1 10).2 t3 10).2.

Lemma three_ok : list_ok three.
Proof.
  assert (forall L t, list_ok L -> list_ok (list_Add L t 10).2) as Hadd.
  { intros L t HL. destruct (list_Add L t 10) as [ [b old] L'] eqn:E. by destruct (list_Add_ok L t 10 b old L' HL E). }
  apply Hadd, Hadd, Hadd, new_list_ok.
Qed.

(** The second one costs too much: it is removed, the third invalidated. *)
Lemma txList_Filter_exact_witness :
  exists removed invalids L', list_Filter three 500 30000 = (removed, invalids, L') /\
    removed = [t2] /\ invalids = [t3] /\ list_txs L' = [t1].
Proof.
  destruct (txList_Filter_exact three 500 30000 three_ok) as (removed & invalids & L' & E & _ & _ & _ & H & _).
  assert (E1 := f_equal fst E). vm_compute in E1. injection E1 as <- <-.
  exists [t2], [t3], L'. repeat split; [exact E|]. rewrite H. vm_compute. reflexivity.
Defined.

End Sample.
