(* ===== verification/TxPriced.v ===== *)
(** * The price heap of the pool

    [src/core/tx_list.go]: [priceHeap], the heap of gas prices, and
    [txPricedList], which finds the cheapest transactions of the pool.  The
    list holds a pointer to the map of all transactions of the pool; that map
    is the argument [all] of the operations here.  An entry of the heap whose
    hash is no longer in [all] is stale.  The set of local accounts
    ([accountSet] of [src/core/tx_pool.go]) is a set of addresses.  Popping
    from a heap that is not empty always returns an element, so the loops
    carry the number of elements as fuel. *)
From S2P Require Import Prelude Types Heap TxList.

Section TxPriced.
Context {TX : Transaction} {RO : RangeOrder}.

Definition accountSet := gset Address.

Definition contains (locals : accountSet) (addr : Address) : bool := bool_decide (addr ∈ locals).

Definition containsTx (locals : accountSet) (t : tx) : bool :=
  match tx_Sender t with Some addr => contains locals addr | None => false end.

Abbreviation txMap := (gmap Hash tx).

Record txPricedList := mkPriced { priced_items : list tx; stales : Z }.

Definition newTxPricedList : txPricedList := mkPriced [] 0.

Definition known (all : txMap) (t : tx) : bool := bool_decide (is_Some (all !! tx_Hash t)).

Definition priced_Put (p : txPricedList) (t : tx) : txPricedList :=
  mkPriced (heap_Push tx_GasPrice (priced_items p) t) (stales p).

Definition priced_Removed (all : txMap) (p : txPricedList) : txPricedList :=
  let stales := stales p + 1 in
  if stales <=? Z.of_nat (length (priced_items p)) ÷ 4 then mkPriced (priced_items p) stales
  else mkPriced (heap_Init tx_GasPrice (range all).*2) 0.

(** The loop of [Cap]: what it drops, what it saves, the heap and the counter
    at its end. *)
Fixpoint cap_prices (fuel : nat) (all : txMap) (locals : accountSet) (threshold : Z) (its : list tx) (stales : Z) :
    option (list tx * list tx * list tx * Z) :=
  match its with
  | [] => Some ([], [], [], stales)
  | _ =>
      match fuel with
      | O => None
      | S fuel' =>
          '(t, its) ← heap_Pop tx_GasPrice its;
          if negb (known all t) then cap_prices fuel' all locals threshold its (stales - 1)
          else if threshold <=? tx_GasPrice t then Some ([], [t], its, stales)
          else
            '(drop, save, its, stales) ← cap_prices fuel' all locals threshold its stales;
            if containsTx locals t then Some (drop, t :: save, its, stales) else Some (t :: drop, save, its, stales)
      end
  end.

Definition priced_Cap (all : txMap) (locals : accountSet) (p : txPricedList) (threshold : Z) : option (list tx * txPricedList) :=
  '(drop, save, its, stales) ← cap_prices (length (priced_items p)) all locals threshold (priced_items p) (stales p);
  Some (drop, mkPriced (foldl (heap_Push tx_GasPrice) its save) stales).

(** The loop of [Underpriced] that discards stale entries at the start. *)
Fixpoint drop_stale (fuel : nat) (all : txMap) (its : list tx) (stales : Z) : option (list tx * Z) :=
  match its with
  | [] => Some ([], stales)
  | head :: _ =>
      if negb (known all head) then
        match fuel with
        | O => None
        | S fuel' => '(_, its) ← heap_Pop tx_GasPrice its; drop_stale fuel' all its (stales - 1)
        end
      else Some (its, stales)
  end.

Definition Underpriced (all : txMap) (locals : accountSet) (p : txPricedList) (t : tx) : option (bool * txPricedList) :=
  if containsTx locals t then Some (false, p)
  else
    '(its, stales) ← drop_stale (length (priced_items p)) all (priced_items p) (stales p);
    Some (match its with
          | [] => false
          | cheapest :: _ => tx_GasPrice t <=? tx_GasPrice cheapest
          end, mkPriced its stales).

(** The loop of [Discard]. *)
Fixpoint discard_loop (fuel : nat) (all : txMap) (locals : accountSet) (count : Z) (its : list tx) (stales : Z) :
    option (list tx * list tx * list tx * Z) :=
  match its with
  | [] => Some ([], [], [], stales)
  | _ =>
      if count <=? 0 then Some ([], [], its, stales)
      else
        match fuel with
        | O => None
        | S fuel' =>
            '(t, its) ← heap_Pop tx_GasPrice its;
            if negb (known all t) then discard_loop fuel' all locals count its (stales - 1)
            else if containsTx locals t then
              '(drop, save, its, stales) ← discard_loop fuel' all locals count its stales;
              Some (drop, t :: save, its, stales)
            else
              '(drop, save, its, stales) ← discard_loop fuel' all locals (count - 1) its stales;
              Some (t :: drop, save, its, stales)
        end
  end.

(** [make] panics on a negative capacity. *)
Definition Discard (all : txMap) (locals : accountSet) (p : txPricedList) (count : Z) : option (list tx * txPricedList) :=
  if count <? 0 then None
  else
    '(drop, save, its, stales) ← discard_loop (length (priced_items p)) all locals count (priced_items p) (stales p);
    Some (drop, mkPriced (foldl (heap_Push tx_GasPrice) its save) stales).

(** ** Invariant

    The heap is a heap, and every transaction of the pool is in it, but for
    those of [D], which the pool is about to remove. *)

Implicit Types (all : txMap) (p : txPricedList) (locals : accountSet) (t u : tx) (D : list tx).

Definition hashed all : Prop := forall h t, all !! h = Some t -> tx_Hash t = h.

Definition price_heap (its : list tx) : Prop := heap_ok tx_GasPrice its.

Record priced_ok D all p : Prop := mk_priced_ok {
  po_heap : price_heap (priced_items p);
  po_all h t : all !! h = Some t -> t ∈ D \/ t ∈ priced_items p
}.

Lemma known_spec all t : hashed all -> known all t = true <-> all !! tx_Hash t = Some t.
Proof.
  intros Hh. unfold known. rewrite bool_decide_eq_true. split; [|by eexists]. intros [u Hu].
  rewrite Hu. f_equal. by apply (inj tx_Hash), Hh.
Qed.

Lemma new_priced_ok : priced_ok [] ∅ newTxPricedList.
Proof. constructor; [intros m; simpl; lia|]. intros h t H. by rewrite lookup_empty in H. Qed.

(** Adding to the map and the heap. *)
Lemma priced_Put_ok D all p t : priced_ok D all p -> priced_ok D (<[tx_Hash t := t]> all) (priced_Put p t).
Proof.
  intros [H1 H2]. destruct (heap_Push_ok tx_GasPrice (priced_items p) t H1) as [P1 P2]. constructor; [done|]. simpl.
  intros h u. rewrite P2, elem_of_cons. intros [[_ ->]|[_ Hu]]%lookup_insert_Some; [by auto|]. destruct (H2 _ _ Hu); auto.
Qed.

Lemma priced_sub D all all' p : priced_ok D all p -> all' ⊆ all -> priced_ok D all' p.
Proof. intros [H1 H2] Hs. constructor; [done|]. intros h t Ht. eapply H2, lookup_weaken; eauto. Qed.

Lemma priced_Removed_ok D all p : priced_ok D all p -> priced_ok D all (priced_Removed all p).
Proof.
  intros [H1 H2]. unfold priced_Removed. case_match; [by constructor|].
  destruct (heap_Init_ok tx_GasPrice (range all).*2) as [I1 I2]. constructor; [done|]. simpl. intros h t Ht. right.
  rewrite I2, range_is_perm. apply list_elem_of_fmap. exists (h, t). split; [done|]. by apply elem_of_map_to_list.
Qed.

(** Removing a transaction from the map. *)
Lemma priced_delete_ok D D' all p t :
  hashed all -> priced_ok D all p -> (forall u, u ∈ D -> u = t \/ u ∈ D') -> priced_ok D' (delete (tx_Hash t) all) p.
Proof.
  intros Hh [H1 H2] HD. constructor; [done|]. intros h u [Hne Hu]%lookup_delete_Some.
  destruct (H2 _ _ Hu) as [[->|?]%HD|?]; [by destruct Hne; apply Hh|by left|by right].
Qed.

Lemma push_all_ok its save :
  price_heap its ->
  price_heap (foldl (heap_Push tx_GasPrice) its save) /\ foldl (heap_Push tx_GasPrice) its save ≡ₚ save ++ its.
Proof.
  revert its. induction save as [|t save IH]; intros its Hi; [done|]. simpl.
  destruct (heap_Push_ok tx_GasPrice its t Hi) as [P1 P2]. destruct (IH _ P1) as [I1 I2]. split; [done|].
  rewrite I2, P2. by rewrite Permutation_middle.
Qed.

(** ** The loops

    All three take the cheapest entry off the heap. *)

Definition stale all t : Prop := known all t = false.
Definition live_remote all locals t : Prop := known all t = true /\ containsTx locals t = false.

#[global] Instance live_remote_dec all locals t : Decision (live_remote all locals t).
Proof. unfold live_remote. apply _. Defined.

(** The heap [its] was split into what was dropped and saved, stale entries,
    and a heap of entries that are not cheaper than what was dropped. *)
Definition split_heap all locals (its drop save gone its' : list tx) : Prop :=
  its ≡ₚ drop ++ save ++ gone ++ its' /\ price_heap its' /\ Forall (stale all) gone /\
  Forall (live_remote all locals) drop /\ (forall d u, d ∈ drop -> u ∈ its' -> tx_GasPrice d <= tx_GasPrice u).

Lemma pop_cons its :
  price_heap its -> its <> [] ->
  exists t h, heap_Pop tx_GasPrice its = Some (t, h) /\ its ≡ₚ t :: h /\ price_heap h /\ forall u, u ∈ h -> tx_GasPrice t <= tx_GasPrice u.
Proof.
  intros Hh Hne. destruct (heap_Pop_ok _ its Hh Hne) as (t & h & -> & _ & Hp & Hh' & Hmin). exists t, h.
  split; [done|]. split; [done|]. split; [done|]. intros u Hu. apply Hmin. rewrite Hp. by right.
Qed.

Lemma split_gone all locals its h t drop save gone its' :
  its ≡ₚ t :: h -> stale all t -> split_heap all locals h drop save gone its' ->
  split_heap all locals its drop save (t :: gone) its'.
Proof.
  intros Hp Ht (S1 & S2 & S3 & S4 & S5). split; [|split; [done|split; [by constructor|done]]]. rewrite Hp, S1. simpl. solve_Permutation.
Qed.

Lemma split_save all locals its h t drop save gone its' :
  its ≡ₚ t :: h -> split_heap all locals h drop save gone its' ->
  split_heap all locals its drop (t :: save) gone its'.
Proof. intros Hp (S1 & S2 & S3 & S4 & S5). split; [|done]. rewrite Hp, S1. simpl. solve_Permutation. Qed.

Lemma split_drop all locals its h t drop save gone its' :
  its ≡ₚ t :: h -> (forall u, u ∈ h -> tx_GasPrice t <= tx_GasPrice u) -> live_remote all locals t ->
  split_heap all locals h drop save gone its' ->
  split_heap all locals its (t :: drop) save gone its'.
Proof.
  intros Hp Hmin Ht (S1 & S2 & S3 & S4 & S5). split; [rewrite Hp, S1; done|]. split; [done|]. split; [done|]. split; [by constructor|].
  intros d u [->|Hd]%elem_of_cons Hu; [|by apply S5]. apply Hmin. rewrite S1, !elem_of_app. auto.
Qed.

Lemma split_nil all locals its : price_heap its -> split_heap all locals its [] [] [] its.
Proof.
  intros Hh. split; [done|]. split; [done|]. split; [done|]. split; [done|]. intros d u Hd. by apply elem_of_nil in Hd.
Qed.

Lemma discard_loop_ok fuel all locals count its stales :
  price_heap its -> (length its <= fuel)%nat -> 0 <= count ->
  exists drop save gone its', discard_loop fuel all locals count its stales = Some (drop, save, its', stales - Z.of_nat (length gone)) /\
    split_heap all locals its drop save gone its' /\ Forall (fun t => containsTx locals t = true) save /\
    Z.of_nat (length drop) <= count /\ (its' = [] \/ Z.of_nat (length drop) = count).
Proof.
  revert count its stales. induction fuel as [|fuel IH]; intros count its stales Hh Hf Hc; (destruct its as [|x its0];
    [exists [], [], [], []; rewrite Z.sub_0_r; split; [done|]; split; [by apply split_nil|]; simpl; auto with lia|]); [simpl in Hf; lia|].
  destruct (pop_cons (x :: its0)) as (t & h & Ep & Hp & Hh' & Hmin); [done..|]. set (its := x :: its0) in *. cbn [discard_loop].
  unfold its at 1. cbv iota. fold its. apply Permutation_length in Hp as Hlen. cbn [length] in Hlen.
  destruct (Z.leb_spec count 0) as [Hc0|Hc0].
  { exists [], [], [], its. rewrite Z.sub_0_r. split; [done|]. split; [by apply split_nil|]. simpl. auto with lia. }
  rewrite Ep, some_bind. destruct (known all t) eqn:Ek; cbn [negb]; [destruct (containsTx locals t) eqn:El|].
  - destruct (IH count h stales Hh' ltac:(lia) Hc) as (drop & save & gone & its' & -> & Hs & H2 & H3 & H4). rewrite some_bind.
    exists drop, (t :: save), gone, its'. split; [done|]. split; [by eapply split_save|]. split; [by constructor|done].
  - destruct (IH (count - 1) h stales Hh' ltac:(lia) ltac:(lia)) as (drop & save & gone & its' & -> & Hs & H2 & H3 & H4). rewrite some_bind.
    exists (t :: drop), save, gone, its'. split; [done|]. split; [by eapply split_drop|]. split; [done|]. simpl. destruct H4; auto with lia.
  - destruct (IH count h (stales - 1) Hh' ltac:(lia) Hc) as (drop & save & gone & its' & -> & Hs & H2 & H3 & H4).
    exists drop, save, (t :: gone), its'. split; [do 2 f_equal; simpl; lia|]. split; [by eapply split_gone|done].
Qed.

Lemma cap_prices_ok fuel all locals threshold its stales :
  price_heap its -> (length its <= fuel)%nat ->
  exists drop save gone its', cap_prices fuel all locals threshold its stales = Some (drop, save, its', stales - Z.of_nat (length gone)) /\
    split_heap all locals its drop save gone its' /\ Forall (fun t => tx_GasPrice t < threshold) drop /\
    Forall (fun t => containsTx locals t = true \/ threshold <= tx_GasPrice t) (save ++ its').
Proof.
  revert its stales. induction fuel as [|fuel IH]; intros its stales Hh Hf; (destruct its as [|x its0];
    [exists [], [], [], []; rewrite Z.sub_0_r; split; [done|]; split; [by apply split_nil|done]|]); [simpl in Hf; lia|].
  destruct (pop_cons (x :: its0)) as (t & h & Ep & Hp & Hh' & Hmin); [done..|]. set (its := x :: its0) in *. cbn [cap_prices].
  unfold its at 1. cbv iota. fold its. apply Permutation_length in Hp as Hlen. cbn [length] in Hlen.
  rewrite Ep, some_bind. destruct (known all t) eqn:Ek; cbn [negb].
  2:{ destruct (IH h (stales - 1) Hh' ltac:(lia)) as (drop & save & gone & its' & -> & Hs & H2).
    exists drop, save, (t :: gone), its'. split; [do 2 f_equal; simpl; lia|]. split; [by eapply split_gone|done]. }
  destruct (Z.leb_spec threshold (tx_GasPrice t)) as [Hle|Hlt].
  { exists [], [t], [], h. rewrite Z.sub_0_r. split; [done|]. split; [by eapply split_save, split_nil|]. split; [done|].
    constructor; [by right|]. apply Forall_forall. intros u Hu. right. specialize (Hmin u Hu). lia. }
  destruct (IH h stales Hh' ltac:(lia)) as (drop & save & gone & its' & -> & Hs & H2 & H3). rewrite some_bind.
  destruct (containsTx locals t) eqn:El.
  - exists drop, (t :: save), gone, its'. split; [done|]. split; [by eapply split_save|]. split; [done|]. constructor; [by left|done].
  - exists (t :: drop), save, gone, its'. split; [done|]. split; [by eapply split_drop|]. split; [by constructor|done].
Qed.

Lemma drop_stale_ok fuel all its stales :
  price_heap its -> (length its <= fuel)%nat ->
  exists gone its', drop_stale fuel all its stales = Some (its', stales - Z.of_nat (length gone)) /\
    split_heap all ∅ its [] [] gone its' /\ (forall t, head its' = Some t -> known all t = true).
Proof.
  revert its stales. induction fuel as [|fuel IH]; intros its stales Hh Hf; (destruct its as [|x its0];
    [exists [], []; rewrite Z.sub_0_r; split; [done|]; split; [by apply split_nil|done]|]); [simpl in Hf; lia|].
  destruct (heap_Pop_ok tx_GasPrice (x :: its0)) as (t & h & Ep & [= <-] & Hp & Hh' & _); [done..|]. set (its := x :: its0) in *. cbn [drop_stale].
  unfold its at 1. cbv iota. fold its. apply Permutation_length in Hp as Hlen. cbn [length] in Hlen.
  destruct (known all x) eqn:Ek; cbn [negb].
  - exists [], its. rewrite Z.sub_0_r. split; [done|]. split; [by apply split_nil|]. by intros t [= <-].
  - rewrite Ep, some_bind. destruct (IH h (stales - 1) Hh' ltac:(lia)) as (gone & its' & -> & Hs & H2).
    exists (x :: gone), its'. split; [do 2 f_equal; simpl; lia|]. split; [by eapply split_gone|done].
Qed.

(** ** The operations *)

Lemma split_filter all locals its drop save gone its' (P : tx -> Prop) `{!forall t, Decision (P t)} :
  split_heap all locals its drop save gone its' -> (forall t, P t -> known all t = true) -> Forall P drop ->
  (forall t, t ∈ save -> ~ P t) -> filter P its ≡ₚ drop ++ filter P its'.
Proof.
  intros (S1 & _ & S3 & _) Hk Hd Hs. rewrite S1, !filter_app, filter_all by done.
  rewrite (filter_none _ save) by (apply Forall_forall; intros t Ht; by apply Hs).
  rewrite (filter_none _ gone); [done|]. eapply Forall_impl; [exact S3|]. intros t Ht HP. apply Hk in HP. unfold stale in Ht. congruence.
Qed.

(** Putting back what was saved restores the invariant, up to what was
    dropped. *)
Lemma split_priced D all locals p drop save gone its' stales' :
  hashed all -> priced_ok D all p -> split_heap all locals (priced_items p) drop save gone its' ->
  priced_ok (drop ++ D) all (mkPriced (foldl (heap_Push tx_GasPrice) its' save) stales').
Proof.
  intros Hh [_ H2] (S1 & S2 & S3 & _). destruct (push_all_ok its' save S2) as [P1 P2]. constructor; [done|]. simpl.
  intros h t Ht. rewrite P2, !elem_of_app. destruct (H2 h t Ht) as [?|Hin]; [auto|].
  rewrite S1, !elem_of_app in Hin. destruct Hin as [?|[?|[Hg|?] ] ]; auto. exfalso. rewrite Forall_forall in S3.
  specialize (S3 t Hg). unfold stale in S3. rewrite (proj2 (known_spec all t Hh)) in S3; [done|]. by rewrite (Hh h t Ht).
Qed.

Lemma Discard_ok D all locals p count :
  hashed all -> priced_ok D all p -> 0 <= count ->
  exists drop gone p', Discard all locals p count = Some (drop, p') /\ priced_ok (drop ++ D) all p' /\
    priced_items p ≡ₚ drop ++ gone ++ priced_items p' /\ Forall (stale all) gone /\ stales p' = stales p - Z.of_nat (length gone) /\
    Forall (live_remote all locals) drop /\
    length drop = Nat.min (Z.to_nat count) (length (filter (live_remote all locals) (priced_items p))) /\
    (forall d u, d ∈ drop -> u ∈ priced_items p' -> live_remote all locals u -> tx_GasPrice d <= tx_GasPrice u).
Proof.
  intros Hh Hp Hc. unfold Discard. rewrite (proj2 (Z.ltb_ge count 0)) by done.
  destruct (discard_loop_ok (length (priced_items p)) all locals count (priced_items p) (stales p)) as
    (drop & save & gone & its' & -> & Hs & H1 & H2 & H3); [apply Hp|done|done|]. rewrite some_bind.
  pose proof Hs as (S1 & S2 & S3 & S4 & S5). destruct (push_all_ok its' save S2) as [_ P2]. rewrite Forall_forall in H1.
  eexists drop, gone, _. split; [done|]. split; [by eapply split_priced|]. simpl. split; [rewrite P2, S1; solve_Permutation|].
  split; [done|]. split; [done|]. split; [done|]. split.
  - rewrite (split_filter _ _ _ _ _ _ _ (live_remote all locals) Hs); [|by intros t []|done|intros t Ht []; by rewrite H1 in *].
    rewrite length_app. destruct H3 as [->|H3]; simpl; lia.
  - intros d u Hd. rewrite P2, elem_of_app. intros [Hu|Hu] [_ Hr]; [by rewrite H1 in Hr|by apply S5].
Qed.

Lemma priced_Cap_ok D all locals p threshold :
  hashed all -> priced_ok D all p ->
  exists drop p', priced_Cap all locals p threshold = Some (drop, p') /\ priced_ok (drop ++ D) all p' /\
    drop ≡ₚ filter (fun t => live_remote all locals t /\ tx_GasPrice t < threshold) (priced_items p).
Proof.
  intros Hh Hp. unfold priced_Cap.
  destruct (cap_prices_ok (length (priced_items p)) all locals threshold (priced_items p) (stales p)) as
    (drop & save & gone & its' & -> & Hs & H1 & H2); [apply Hp|done|]. rewrite some_bind.
  pose proof Hs as (S1 & S2 & S3 & S4 & S5). apply Forall_app in H2 as [H2 H3]. rewrite Forall_forall in H2.
  eexists drop, _. split; [done|]. split; [by eapply split_priced|]. rewrite split_filter; [|exact Hs|intros t [ [Hk _] _]; exact Hk|rewrite Forall_forall in *; naive_solver|].
  - rewrite (filter_none _ its'), (right_id_L [] _); [done|]. eapply Forall_impl; [exact H3|]. intros t [El|El] [ [_ Hr] Hlt]; [congruence|lia].
  - intros t Ht [ [_ Hr] Hlt]. destruct (H2 t Ht); [congruence|lia].
Qed.

Lemma Underpriced_ok all locals p t :
  hashed all -> priced_ok [] all p ->
  exists b p', Underpriced all locals p t = Some (b, p') /\ priced_ok [] all p' /\
    (b = true <-> containsTx locals t = false /\ all <> ∅ /\ forall h u, all !! h = Some u -> tx_GasPrice t <= tx_GasPrice u).
Proof.
  intros Hh Hp. unfold Underpriced. destruct (containsTx locals t) eqn:El; [exists false, p; split; [done|]; split; [done|]; split; [done|by intros [] ]|].
  destruct (drop_stale_ok (length (priced_items p)) all (priced_items p) (stales p)) as (gone & its' & -> & Hs & Hk); [apply Hp|done|].
  rewrite some_bind. eexists _, _. split; [done|].
  pose proof (split_priced _ _ _ _ _ _ _ _ (stales p - Z.of_nat (length gone)) Hh Hp Hs) as Hp'. simpl in Hp'. split; [done|].
  destruct Hp' as [_ Hin]. simpl in Hin. assert (forall h u, all !! h = Some u -> u ∈ its') as Hall.
  { intros h u Hu. destruct (Hin h u Hu) as [Hn|?]; [by apply elem_of_nil in Hn|done]. }
  destruct its' as [|c its'].
  { split; [done|]. intros (_ & Hne & _). destruct (map_choose all Hne) as (h & u & Hu). specialize (Hall h u Hu). by apply elem_of_nil in Hall. }
  rewrite Z.leb_le. destruct Hs as (_ & Hheap & _). specialize (Hk c eq_refl). apply known_spec in Hk; [|done]. split.
  - intros Hle. split; [done|]. split; [intros ->; by rewrite lookup_empty in Hk|]. intros h u Hu. transitivity (tx_GasPrice c); [done|]. apply (heap_head _ (c :: its')); [done|done|by eapply Hall].
  - intros (_ & _ & Hle). by eapply Hle.
Qed.

(** C31: the price heap finds the cheapest transactions of the pool, stale
    entries or not.  [Discard] returns as many transactions of accounts that
    are not local as are asked for, or all there are, none of them dearer than
    one it leaves, and the heap still holds all others.  [Underpriced] is true
    exactly if the transaction is not local and pays no more than every
    transaction of the pool, which is not empty. *)
Theorem price_heap_cheapest all locals p count t :
  hashed all -> priced_ok [] all p -> 0 <= count ->
  (exists drop p', Discard all locals p count = Some (drop, p') /\ priced_ok drop all p' /\ Forall (live_remote all locals) drop /\
     length drop = Nat.min (Z.to_nat count) (length (filter (live_remote all locals) (priced_items p))) /\
     forall d h u, d ∈ drop -> all !! h = Some u -> containsTx locals u = false -> u ∉ drop -> tx_GasPrice d <= tx_GasPrice u) /\
  (exists b p', Underpriced all locals p t = Some (b, p') /\ priced_ok [] all p' /\
     (b = true <-> containsTx locals t = false /\ all <> ∅ /\ forall h u, all !! h = Some u -> tx_GasPrice t <= tx_GasPrice u)).
Proof.
  intros Hh Hp Hc. split; [|by apply Underpriced_ok].
  destruct (Discard_ok [] all locals p count Hh Hp Hc) as (drop & gone & p' & E & H1 & _ & _ & _ & H2 & H3 & H4). rewrite (right_id_L [] app) in H1.
  exists drop, p'. do 4 (split; [done|]). intros d h u Hd Hu Hl Hn. assert (tx_Hash u = h) as <- by (by apply Hh).
  destruct (po_all _ _ _ H1 _ _ Hu) as [?|Hin]; [done|]. apply H4; [done|done|]. split; [|done]. by apply known_spec.
Qed.

End TxPriced.

(** ** A heap of three transactions, one of them stale *)

Module Sample.
Import TxList.Sample.
#[local] Existing Instances plainTx plainOrder.

Definition q1 : tx := (1%nat, 30, 21000, 300).
Definition q2 : tx := (2%nat, 10, 21000, 300).
Definition q3 : tx := (3%nat, 20, 21000, 300).

Definition heap3 : txPricedList := priced_Put (priced_Put (priced_Put newTxPricedList q1) q2) q3.
Definition all2 : gmap Hash tx := delete (tx_Hash q2) (<[tx_Hash q3 := q3]> (<[tx_Hash q2 := q2]> (<[tx_Hash q1 := q1]> ∅))).

Lemma heap3_ok : hashed all2 /\ priced_ok [] all2 heap3.
Proof.
  split.
  - intros h t Ht. unfold all2 in Ht. apply lookup_delete_Some in Ht as [_ Ht]. repeat (apply lookup_insert_Some in Ht as [[<- <-]|[_ Ht] ]; [done|]). by rewrite lookup_empty in Ht.
  - apply (priced_sub _ (<[tx_Hash q3 := q3]> (<[tx_Hash q2 := q2]> (<[tx_Hash q1 := q1]> ∅)))); [|apply delete_subseteq].
    apply priced_Put_ok, priced_Put_ok, priced_Put_ok, new_priced_ok.
Qed.

(** The stale entry is the cheapest; of the others [q3] is dropped. *)
Lemma price_heap_cheapest_witness :
  exists drop p', Discard all2 ∅ heap3 1 = Some (drop, p') /\ drop = [q3] /\ priced_ok drop all2 p'.
Proof.
  destruct heap3_ok as [Hh Hp]. destruct (price_heap_cheapest all2 ∅ heap3 1 q1 Hh Hp ltac:(lia)) as ((drop & p' & E & H & _) & _).
  assert (drop = [q3]) as Ed by (apply (f_equal (fmap fst)) in E; vm_compute in E; by injection E).
  exists drop, p'. split; [exact E|]. split; [exact Ed|exact H].
Defined.

End Sample.
