(* ===== verification/ManagedState.v ===== *)
(** * Managed nonces

    [src/core/state/managed_state.go]: the copy of the state in which the pool
    tracks the nonces its pending transactions will use.  Of the embedded
    [StateDB] the file only reads and sets nonces; [ms_nonce] is the nonce of
    every account there, zero for an account that does not exist.  An account
    is tracked by the nonce it started from and one flag per nonce handed out
    after it. *)
From S2P Require Import Prelude Types.

Record account := mkAccount { nstart : Z; nonces : list bool }.

Record ManagedState := mkMS { ms_nonce : Address -> Z; accounts : gmap Address account }.

Definition ManageState (nonce : Address -> Z) : ManagedState := mkMS nonce ∅.

Definition newAccount (nonce : Z) : account := mkAccount nonce [].

Definition hasAccount (ms : ManagedState) (addr : Address) : bool := bool_decide (is_Some (accounts ms !! addr)).

Definition set_account (ms : ManagedState) (addr : Address) (a : account) : ManagedState :=
  mkMS (ms_nonce ms) (<[addr := a]> (accounts ms)).

Definition next_nonce (a : account) : Z := u64 (Z.of_nat (length (nonces a)) + nstart a).

Definition getAccount (ms : ManagedState) (addr : Address) : account * ManagedState :=
  match accounts ms !! addr with
  | None => let a := newAccount (ms_nonce ms addr) in (a, set_account ms addr a)
  | Some a =>
      if next_nonce a <? ms_nonce ms addr
      then let a := newAccount (ms_nonce ms addr) in (a, set_account ms addr a)
      else (a, ms)
  end.

(** The slice expression panics beyond the length, which the guard excludes. *)
Definition ms_RemoveNonce (ms : ManagedState) (addr : Address) (n : Z) : ManagedState :=
  if hasAccount ms addr then
    let '(a, ms) := getAccount ms addr in
    let k := u64 (n - nstart a) in
    if k <=? Z.of_nat (length (nonces a)) then set_account ms addr (mkAccount (nstart a) (take (Z.to_nat k) (nonces a))) else ms
  else ms.

Definition ms_NewNonce (ms : ManagedState) (addr : Address) : Z * ManagedState :=
  let '(a, ms) := getAccount ms addr in
  match list_find (eq false) (nonces a) with
  | Some (i, _) => (u64 (nstart a + Z.of_nat i), ms)
  | None =>
      let nonces := nonces a ++ [true] in
      (u64 (Z.of_nat (length nonces - 1) + nstart a), set_account ms addr (mkAccount (nstart a) nonces))
  end.

Definition ms_GetNonce (ms : ManagedState) (addr : Address) : Z * ManagedState :=
  if hasAccount ms addr then let '(a, ms) := getAccount ms addr in (next_nonce a, ms) else (ms_nonce ms addr, ms).

Definition ms_SetNonce (ms : ManagedState) (addr : Address) (nonce : Z) : ManagedState :=
  let ms := mkMS (fun a => if decide (a = addr) then nonce else ms_nonce ms a) (accounts ms) in
  set_account ms addr (newAccount nonce).

Definition ms_HasAccount (ms : ManagedState) (addr : Address) : bool := hasAccount ms addr.

(** ** The nonce of an account

    Nonces are 64-bit, all flags are set, and no tracked account is behind the
    state it was taken from. *)

Record ms_ok (ms : ManagedState) : Prop := mk_ms_ok {
  mo_nonce addr : 0 <= ms_nonce ms addr < 2 ^ 64;
  mo_account addr a : accounts ms !! addr = Some a -> 0 <= nstart a /\ Forall (eq true) (nonces a) /\
    nstart a + Z.of_nat (length (nonces a)) < 2 ^ 64 /\ ms_nonce ms addr <= nstart a + Z.of_nat (length (nonces a))
}.

(** The next nonce of an account. *)
Definition pending_nonce (ms : ManagedState) (addr : Address) : Z := (ms_GetNonce ms addr).1.

Lemma pending_nonce_eq ms addr :
  ms_ok ms ->
  pending_nonce ms addr = match accounts ms !! addr with Some a => nstart a + Z.of_nat (length (nonces a)) | None => ms_nonce ms addr end.
Proof.
  intros [H1 H2]. unfold pending_nonce, ms_GetNonce, hasAccount, getAccount. destruct (accounts ms !! addr) as [a|] eqn:E; simpl.
  - destruct (H2 addr a E) as (A1 & A2 & A3 & A4). assert (next_nonce a = nstart a + Z.of_nat (length (nonces a))) as En
      by (unfold next_nonce, u64; rewrite Z.mod_small; lia).
    by rewrite (proj2 (Z.ltb_ge _ _)) by lia.
  - done.
Qed.

Lemma set_account_ok ms addr a :
  ms_ok ms -> 0 <= nstart a -> Forall (eq true) (nonces a) -> nstart a + Z.of_nat (length (nonces a)) < 2 ^ 64 ->
  ms_nonce ms addr <= nstart a + Z.of_nat (length (nonces a)) -> ms_ok (set_account ms addr a).
Proof.
  intros [H1 H2] A1 A2 A3 A4. constructor; [done|]. simpl. intros b c [[<- <-]|[Hne Hb]]%lookup_insert_Some; [done|by apply H2].
Qed.

Lemma set_account_nonce ms addr a b :
  ms_ok (set_account ms addr a) -> ms_ok ms ->
  pending_nonce (set_account ms addr a) b = if decide (b = addr) then nstart a + Z.of_nat (length (nonces a)) else pending_nonce ms b.
Proof.
  intros H1 H2. rewrite !pending_nonce_eq by done. simpl. case_decide as E; [by rewrite E, lookup_insert_eq|by rewrite lookup_insert_ne].
Qed.

Lemma getAccount_ok ms addr :
  ms_ok ms -> exists a ms', getAccount ms addr = (a, ms') /\ ms_ok ms' /\ accounts ms' !! addr = Some a /\
    next_nonce a = pending_nonce ms addr /\ nstart a + Z.of_nat (length (nonces a)) = pending_nonce ms addr /\
    (forall b, pending_nonce ms' b = pending_nonce ms b).
Proof.
  intros Hm. pose proof Hm as [H1 H2]. unfold getAccount. rewrite (pending_nonce_eq ms addr) by done. destruct (accounts ms !! addr) as [a|] eqn:E.
  - destruct (H2 addr a E) as (A1 & A2 & A3 & A4). assert (next_nonce a = nstart a + Z.of_nat (length (nonces a))) as En
      by (unfold next_nonce, u64; rewrite Z.mod_small; lia).
    rewrite (proj2 (Z.ltb_ge _ _)) by lia. by exists a, ms.
  - set (a := newAccount (ms_nonce ms addr)). specialize (H1 addr) as H3.
    assert (ms_ok (set_account ms addr a)) as Hok by (apply set_account_ok; simpl; try done; lia).
    exists a, (set_account ms addr a). split; [done|]. split; [done|]. split; [by apply lookup_insert_eq|].
    split; [by apply Z.mod_small|]. split; [simpl; lia|]. intros b. rewrite set_account_nonce by done. case_decide as Eb; [|done].
    rewrite Eb, (pending_nonce_eq ms addr), E by done. simpl. lia.
Qed.

Lemma ms_GetNonce_ok ms addr :
  ms_ok ms -> exists ms', ms_GetNonce ms addr = (pending_nonce ms addr, ms') /\ ms_ok ms' /\ forall b, pending_nonce ms' b = pending_nonce ms b.
Proof.
  intros Hm. unfold pending_nonce at 1, ms_GetNonce. destruct (hasAccount ms addr); [|by exists ms].
  destruct (getAccount_ok ms addr Hm) as (a & ms' & -> & H1 & H2 & H3 & H4 & H5). by exists ms'.
Qed.

Lemma ms_SetNonce_ok ms addr n :
  ms_ok ms -> 0 <= n < 2 ^ 64 ->
  ms_ok (ms_SetNonce ms addr n) /\ forall b, pending_nonce (ms_SetNonce ms addr n) b = if decide (b = addr) then n else pending_nonce ms b.
Proof.
  intros Hm Hn. pose proof Hm as [H1 H2]. assert (ms_ok (ms_SetNonce ms addr n)) as Hok.
  { constructor; simpl; [intros b; by case_decide|]. intros b c [[<- <-]|[Hne Hb]]%lookup_insert_Some.
    - rewrite decide_True by done. simpl. split; [lia|]. split; [done|]. lia.
    - rewrite decide_False by done. by apply H2. }
  split; [done|]. intros b. rewrite !pending_nonce_eq by done. simpl.
  case_decide as E; [rewrite E, lookup_insert_eq; simpl; lia|by rewrite lookup_insert_ne].
Qed.

Lemma ManageState_ok nonce :
  (forall addr, 0 <= nonce addr < 2 ^ 64) -> ms_ok (ManageState nonce) /\ forall addr, pending_nonce (ManageState nonce) addr = nonce addr.
Proof. intros H. split; [constructor; [done|]; intros addr a Ha; simpl in Ha; by rewrite lookup_empty in Ha|done]. Qed.

Lemma ms_NewNonce_ok ms addr :
  ms_ok ms -> pending_nonce ms addr + 1 < 2 ^ 64 ->
  exists ms', ms_NewNonce ms addr = (pending_nonce ms addr, ms') /\ ms_ok ms' /\
    forall b, pending_nonce ms' b = if decide (b = addr) then pending_nonce ms addr + 1 else pending_nonce ms b.
Proof.
  intros Hm Hlt. unfold ms_NewNonce. destruct (getAccount_ok ms addr Hm) as (a & ms1 & -> & H1 & H2 & H3 & H4 & H5).
  destruct (mo_account _ H1 addr a H2) as (A1 & A2 & A3 & A4).
  destruct (list_find (eq false) (nonces a)) as [ [i x]|] eqn:Ef.
  { apply list_find_Some in Ef as (Ei & <- & _). apply list_elem_of_lookup_2 in Ei. rewrite Forall_forall in A2. by specialize (A2 _ Ei). }
  set (a' := mkAccount (nstart a) (nonces a ++ [true])).
  assert (Z.of_nat (length (nonces a')) = Z.of_nat (length (nonces a)) + 1) as El by (simpl; rewrite length_app; simpl; lia).
  assert (ms_ok (set_account ms1 addr a')) as Hok.
  { apply set_account_ok; rewrite ?El; [done|done|apply Forall_app; by auto|simpl; lia|simpl; lia]. }
  eexists. split; [|split; [exact Hok|]].
  - f_equal. rewrite length_app. simpl. rewrite <-H3. unfold next_nonce. do 2 f_equal. lia.
  - intros b. rewrite set_account_nonce, El, H5 by done. case_decide; simpl; lia.
Qed.

(** Removing a nonce that was handed out takes back all later ones. *)
Lemma ms_RemoveNonce_ok ms addr n a :
  ms_ok ms -> accounts ms !! addr = Some a -> nstart a <= n -> n <= pending_nonce ms addr -> ms_nonce ms addr <= n ->
  ms_ok (ms_RemoveNonce ms addr n) /\ forall b, pending_nonce (ms_RemoveNonce ms addr n) b = if decide (b = addr) then n else pending_nonce ms b.
Proof.
  intros Hm Ha Hn1 Hn2 Hn3. unfold ms_RemoveNonce, hasAccount. rewrite bool_decide_eq_true_2 by (by rewrite Ha).
  destruct (mo_account _ Hm addr a Ha) as (A1 & A2 & A3 & A4). rewrite (pending_nonce_eq ms addr), Ha in Hn2 by done.
  assert (getAccount ms addr = (a, ms)) as ->.
  { unfold getAccount. rewrite Ha. unfold next_nonce, u64. rewrite Z.mod_small, (proj2 (Z.ltb_ge _ _)) by lia. done. }
  assert (u64 (n - nstart a) = n - nstart a) as -> by (apply Z.mod_small; lia). rewrite (proj2 (Z.leb_le _ _)) by lia.
  set (a' := mkAccount _ _). assert (Z.of_nat (length (nonces a')) = n - nstart a) as El by (simpl; rewrite length_take; lia).
  assert (ms_ok (set_account ms addr a')) as Hok by (apply set_account_ok; rewrite ?El; simpl; try done; [by apply Forall_take|lia|lia]).
  split; [done|]. intros b. rewrite set_account_nonce, El by done. case_decide; simpl; lia.
Qed.
