(* ===== verification/TxPool.v ===== *)
(** * The transaction pool

    [src/core/tx_pool.go]: the pool of pending and queued transactions, with
    its limits, its price heap and its reactions to new chain heads.

    A Go panic (a nil list, an index out of range) is [None].  The pool's
    mutable lists are values stored back into its maps.  Parameters, since
    their code is not among the sources: the transaction type (class
    [Transaction]) with [types.TxDifference], and the priority queue [prque],
    which pops a value of greatest priority.  Go leaves open in which order it
    ranges over a map ([RangeOrder]) and in which order [sort.Sort] puts
    addresses of equal heartbeat.  The reads of the head state
    and of the chain are records; [Now n] is the [n]-th reading of the clock,
    in nanoseconds.  Events sent to subscribers are kept in [sent]; log
    messages and metrics are left out.  The journal is the list of the
    transactions in its file, whose writes are taken to succeed. *)
From Stdlib Require Import Sorted.
From S2P Require Import Vm StateTransition.
From S2P Require Import Prelude Types Heap TxList TxPriced ManagedState.

Class PoolEnv {TX : Transaction} := {
  TxDifference : list tx -> list tx -> list tx;
  prque_Pop : list (Address * Z) -> option (Address * list (Address * Z));
  prque_Pop_max l : l <> [] ->
    exists a pr l', prque_Pop l = Some (a, l') /\ l ≡ₚ (a, pr) :: l' /\ forall b q, (b, q) ∈ l -> q <= pr;
  sort_Sort : list (Address * Z) -> list (Address * Z);
  sort_Sort_perm l : sort_Sort l ≡ₚ l;
  sort_Sort_sorted l : StronglySorted (fun x y => x.2 <= y.2) (sort_Sort l);
  header_Hash : Header -> Hash;
  Now : nat -> Z
}.

(** ** Floating point

    Integers rounded to the nearest one with [p] significant bits, ties to
    even: the conversion of an integer to [float32] ([p] = 24) and [float64]
    ([p] = 53). *)
Definition round_bits (p z : Z) : Z :=
  if z <? 2 ^ p then z
  else
    let e := Z.log2 z + 1 - p in
    let q := z / 2 ^ e in
    let r := z mod 2 ^ e in
    (if (2 ^ (e - 1) <? r) || ((r =? 2 ^ (e - 1)) && Z.odd q) then q + 1 else q) * 2 ^ e.

Definition float32 : Z -> Z := round_bits 24.
Definition float64 : Z -> Z := round_bits 53.

(** ** Configuration *)

Record TxPoolConfig := mkConfig {
  NoLocals : bool; Journal : bool; Rejournal : Z;
  PriceLimit : Z; PriceBump : Z;
  AccountSlots : Z; GlobalSlots : Z; AccountQueue : Z; GlobalQueue : Z;
  Lifetime : Z
}.

Definition second : Z := 1000000000.

Definition DefaultTxPoolConfig : TxPoolConfig :=
  mkConfig false true (3600 * second) 1 10 16 4096 64 1024 (3 * 3600 * second).

Definition sanitize (conf : TxPoolConfig) : TxPoolConfig :=
  mkConfig (NoLocals conf) (Journal conf)
    (if Rejournal conf <? second then second else Rejournal conf)
    (if PriceLimit conf <? 1 then PriceLimit DefaultTxPoolConfig else PriceLimit conf)
    (if PriceBump conf <? 1 then PriceBump DefaultTxPoolConfig else PriceBump conf)
    (AccountSlots conf) (GlobalSlots conf) (AccountQueue conf) (GlobalQueue conf) (Lifetime conf).

Inductive pool_error :=
  | KnownTransaction | ErrInvalidSender | ErrNonceTooLow | ErrUnderpriced | ErrReplaceUnderpriced | ErrInsufficientFunds
  | ErrIntrinsicGas | ErrGasLimit | ErrNegativeValue | ErrOversizedData.

Inductive TxStatus := TxStatusUnknown | TxStatusQueued | TxStatusPending | TxStatusIncluded.

(** The reads the pool makes of the state of the chain's head. *)
Record HeadState := mkHead { GetNonce : Address -> Z; GetBalance : Address -> Z }.

(** A walk over the chain: its result, the end of the chain, a nil pointer, or
    more blocks than the numbers allow for. *)
Inductive walk (A : Type) := Found (a : A) | Unrooted | NilPointer | OutOfFuel.
Arguments Found {A} a.
Arguments Unrooted {A}.
Arguments NilPointer {A}.
Arguments OutOfFuel {A}.

#[export] Instance walk_bind : MBind walk := fun _ _ k m =>
  match m with Found a => k a | Unrooted => Unrooted | NilPointer => NilPointer | OutOfFuel => OutOfFuel end.

Definition deref {A} (m : option A) : walk A := match m with Some a => Found a | None => NilPointer end.

Section TxPool.
Context {TX : Transaction} {RO : RangeOrder} {PE : PoolEnv}.

(** The interface [blockChain]. *)
Record blockChain := mkChain {
  CurrentBlock : Block tx;
  GetBlock : Hash -> Z -> option (Block tx);
  StateAt : Hash -> option HeadState
}.

Record TxPool := mkPool {
  config : TxPoolConfig;
  gasPrice : Z;
  currentState : HeadState;
  pendingState : ManagedState;
  currentMaxGas : Z;
  locals : accountSet;
  journal : option (list tx);
  pending : gmap Address txList;
  queue : gmap Address txList;
  beats : gmap Address Z;
  all : gmap Hash tx;
  priced : txPricedList;
  homestead : bool;
  sent : list tx;
  ticks : nat
}.

Implicit Types (p : TxPool) (t : tx) (addr : Address).

(** Assignments to one or two fields. *)
Definition set_pending p m := mkPool (config p) (gasPrice p) (currentState p) (pendingState p) (currentMaxGas p) (locals p) (journal p)
  m (queue p) (beats p) (all p) (priced p) (homestead p) (sent p) (ticks p).
Definition set_queue p m := mkPool (config p) (gasPrice p) (currentState p) (pendingState p) (currentMaxGas p) (locals p) (journal p)
  (pending p) m (beats p) (all p) (priced p) (homestead p) (sent p) (ticks p).
Definition set_beats p m n := mkPool (config p) (gasPrice p) (currentState p) (pendingState p) (currentMaxGas p) (locals p) (journal p)
  (pending p) (queue p) m (all p) (priced p) (homestead p) (sent p) n.
Definition set_all p m pl := mkPool (config p) (gasPrice p) (currentState p) (pendingState p) (currentMaxGas p) (locals p) (journal p)
  (pending p) (queue p) (beats p) m pl (homestead p) (sent p) (ticks p).
Definition set_priced p pl := set_all p (all p) pl.
Definition set_pendingState p ms := mkPool (config p) (gasPrice p) (currentState p) ms (currentMaxGas p) (locals p) (journal p)
  (pending p) (queue p) (beats p) (all p) (priced p) (homestead p) (sent p) (ticks p).
Definition set_head p st ms gas := mkPool (config p) (gasPrice p) st ms gas (locals p) (journal p)
  (pending p) (queue p) (beats p) (all p) (priced p) (homestead p) (sent p) (ticks p).
Definition set_locals p ls := mkPool (config p) (gasPrice p) (currentState p) (pendingState p) (currentMaxGas p) ls (journal p)
  (pending p) (queue p) (beats p) (all p) (priced p) (homestead p) (sent p) (ticks p).
Definition set_journal p j := mkPool (config p) (gasPrice p) (currentState p) (pendingState p) (currentMaxGas p) (locals p) j
  (pending p) (queue p) (beats p) (all p) (priced p) (homestead p) (sent p) (ticks p).
Definition set_gasPrice p price := mkPool (config p) price (currentState p) (pendingState p) (currentMaxGas p) (locals p) (journal p)
  (pending p) (queue p) (beats p) (all p) (priced p) (homestead p) (sent p) (ticks p).
Definition set_homestead p b := mkPool (config p) (gasPrice p) (currentState p) (pendingState p) (currentMaxGas p) (locals p) (journal p)
  (pending p) (queue p) (beats p) (all p) (priced p) b (sent p) (ticks p).
Definition send_event p t := mkPool (config p) (gasPrice p) (currentState p) (pendingState p) (currentMaxGas p) (locals p) (journal p)
  (pending p) (queue p) (beats p) (all p) (priced p) (homestead p) (sent p ++ [t]) (ticks p).

(** A loop whose body may panic. *)
Fixpoint each {A} (body : A -> TxPool -> option TxPool) (l : list A) p : option TxPool :=
  match l with
  | [] => Some p
  | x :: l' => p ← body x p; each body l' p
  end.

(** [from, _ := types.Sender(pool.signer, tx)]. *)
Definition sender t : Address := default no_Sender (tx_Sender t).

(** [delete(pool.all, hash); pool.priced.Removed()]. *)
Definition forget p (hash : Hash) : TxPool :=
  let m := delete hash (all p) in set_all p m (priced_Removed m (priced p)).

(** [pool.all[tx.Hash()] = tx; pool.priced.Put(tx)]. *)
Definition track p t : TxPool := set_all p (<[tx_Hash t := t]> (all p)) (priced_Put (priced p) t).

Definition journalTx p addr t : TxPool :=
  match journal p with
  | Some j => if contains (locals p) addr then set_journal p (Some (j ++ [t])) else p
  | None => p
  end.

Definition validateTx p t (local : bool) : option pool_error :=
  if 32 * 1024 <? tx_Size t then Some ErrOversizedData
  else if tx_Value t <? 0 then Some ErrNegativeValue
  else if currentMaxGas p <? tx_Gas t then Some ErrGasLimit
  else
    match tx_Sender t with
    | None => Some ErrInvalidSender
    | Some from =>
        let local := local || contains (locals p) from in
        if negb local && (tx_GasPrice t <? gasPrice p) then Some ErrUnderpriced
        else if tx_Nonce t <? GetNonce (currentState p) from then Some ErrNonceTooLow
        else if GetBalance (currentState p) from <? tx_Cost t then Some ErrInsufficientFunds
        else if tx_Gas t <? IntrinsicGas (tx_Data t) (bool_decide (tx_To t = None)) (homestead p) then Some ErrIntrinsicGas
        else None
    end.

(** [pool.enqueueTx(tx.Hash(), tx)]. *)
Definition enqueueTx p t : (bool + pool_error) * TxPool :=
  let from := sender t in
  let list := default (newTxList false) (queue p !! from) in
  let '(inserted, old, list) := list_Add list t (PriceBump (config p)) in
  let p := set_queue p (<[from := list]> (queue p)) in
  if negb inserted then (inr ErrReplaceUnderpriced, p)
  else
    let p := match old with Some old => forget p (tx_Hash old) | None => p end in
    (inl (bool_decide (is_Some old)), track p t).

(** [pool.promoteTx(addr, tx.Hash(), tx)]. *)
Definition promoteTx addr p t : TxPool :=
  let list := default (newTxList true) (pending p !! addr) in
  let '(inserted, old, list) := list_Add list t (PriceBump (config p)) in
  let p := set_pending p (<[addr := list]> (pending p)) in
  if negb inserted then forget p (tx_Hash t)
  else
    let p := match old with Some old => forget p (tx_Hash old) | None => p end in
    let p := match all p !! tx_Hash t with None => track p t | Some _ => p end in
    let p := set_beats p (<[addr := Now (ticks p)]> (beats p)) (S (ticks p)) in
    let p := set_pendingState p (ms_SetNonce (pendingState p) addr (u64 (tx_Nonce t + 1))) in
    send_event p t.

(** [if nonce := tx.Nonce(); pool.pendingState.GetNonce(addr) > nonce {
    pool.pendingState.SetNonce(addr, nonce) }]. *)
Definition lower_nonce p addr (nonce : Z) : TxPool :=
  let '(n, ms) := ms_GetNonce (pendingState p) addr in
  set_pendingState p (if nonce <? n then ms_SetNonce ms addr nonce else ms).

(** The part of [removeTx] on the pending list; whether it removed. *)
Definition remove_pending p addr t : option (bool * TxPool) :=
  match pending p !! addr with
  | None => Some (false, p)
  | Some list =>
      '(removed, invalids, list) ← list_Remove list t;
      let p := set_pending p (<[addr := list]> (pending p)) in
      if removed : bool then
        let p :=
          if list_Empty list then set_beats (set_pending p (delete addr (pending p))) (delete addr (beats p)) (ticks p)
          else foldl (fun p t => (enqueueTx p t).2) p invalids in
        Some (true, lower_nonce p addr (tx_Nonce t))
      else Some (false, p)
  end.

Definition removeTx (hash : Hash) p : option TxPool :=
  match all p !! hash with
  | None => Some p
  | Some t =>
      let addr := sender t in
      '(removed, p) ← remove_pending (forget p hash) addr t;
      if removed : bool then Some p
      else
        match queue p !! addr with
        | None => Some p
        | Some future =>
            '(_, _, future) ← list_Remove future t;
            let p := set_queue p (<[addr := future]> (queue p)) in
            Some (if list_Empty future then set_queue p (delete addr (queue p)) else p)
        end
  end.
(** ** Adding *)

(** The part of [add] that makes room in a full pool. *)
Definition make_room p t : option (option pool_error * TxPool) :=
  let conf := config p in
  if u64 (GlobalSlots conf + GlobalQueue conf) <=? Z.of_nat (size (all p)) then
    '(underpriced, pl) ← Underpriced (all p) (locals p) (priced p) t;
    let p := set_priced p pl in
    if underpriced : bool then Some (Some ErrUnderpriced, p)
    else
      let count := Z.of_nat (size (all p)) - i64 (u64 (GlobalSlots conf + GlobalQueue conf - 1)) in
      '(drop, pl) ← Discard (all p) (locals p) (priced p) count;
      p ← each (fun t => removeTx (tx_Hash t)) drop (set_priced p pl);
      Some (None, p)
  else Some (None, p).

(** The part of [add] for a nonce that is already pending. *)
Definition replace_pending p from (list : txList) t : (bool + pool_error) * TxPool :=
  let '(inserted, old, list) := list_Add list t (PriceBump (config p)) in
  let p := set_pending p (<[from := list]> (pending p)) in
  if negb inserted then (inr ErrReplaceUnderpriced, p)
  else
    let p := match old with Some old => forget p (tx_Hash old) | None => p end in
    let p := send_event (journalTx (track p t) from t) t in
    (inl (bool_decide (is_Some old)), p).

(** The part of [add] for the queue. *)
Definition add_queued p from t (local : bool) : (bool + pool_error) * TxPool :=
  match enqueueTx p t with
  | (inr err, p) => (inr err, p)
  | (inl replace, p) =>
      let p := if local then set_locals p ({[from]} ∪ locals p) else p in
      (inl replace, journalTx p from t)
  end.

Definition add p t (local : bool) : option ((bool + pool_error) * TxPool) :=
  if bool_decide (is_Some (all p !! tx_Hash t)) then Some (inr KnownTransaction, p)
  else
    match validateTx p t local with
    | Some err => Some (inr err, p)
    | None =>
        '(err, p) ← make_room p t;
        match err with
        | Some err => Some (inr err, p)
        | None =>
            let from := sender t in
            Some match pending p !! from with
                 | Some list => if Overlaps list t then replace_pending p from list t else add_queued p from t local
                 | None => add_queued p from t local
                 end
        end
    end.

(** ** Promotion *)

Definition forget_all p (ts : list tx) : TxPool := foldl (fun p t => forget p (tx_Hash t)) p ts.

Definition put_queue p addr (list : txList) : TxPool := set_queue p (<[addr := list]> (queue p)).
Definition put_pending p addr (list : txList) : TxPool := set_pending p (<[addr := list]> (pending p)).

(** [list.Cap(int(limit))] for a 64-bit limit: a negative one panics. *)
Definition cap_list (L : txList) (limit : Z) : option (list tx * txList) :=
  if i64 limit <? 0 then None else list_Cap L (Z.to_nat (i64 limit)).

(** The body of the first loop of [promoteExecutables]: dropping what is too
    old or too costly, promoting, and dropping what is over the limit. *)
Definition clean_account addr (list : txList) p : option (txList * TxPool) :=
  '(old, list) ← list_Forward list (GetNonce (currentState p) addr);
  let p := forget_all (put_queue p addr list) old in
  let '(drops, _, list) := list_Filter list (GetBalance (currentState p) addr) (currentMaxGas p) in
  Some (list, forget_all (put_queue p addr list) drops).

Definition cap_account addr (list : txList) p : option TxPool :=
  '(drops, list) ← (if contains (locals p) addr then Some ([], list) else cap_list list (AccountQueue (config p)));
  let p := forget_all (put_queue p addr list) drops in
  Some (if list_Empty list then set_queue p (delete addr (queue p)) else p).

Definition promote_account addr p : option TxPool :=
  match queue p !! addr with
  | None => Some p
  | Some list =>
      '(list, p) ← clean_account addr list p;
      let '(n, ms) := ms_GetNonce (pendingState p) addr in
      '(ready, list) ← list_Ready list n;
      cap_account addr list (foldl (promoteTx addr) (put_queue (set_pendingState p ms) addr list) ready)
  end.

Definition count_txs (m : gmap Address txList) : Z := Z.of_nat (sum_list_with (fun al => list_Len al.2) (range m)).

(** Dropping the last pending transaction of an account. *)
Definition cap_one addr p : option TxPool :=
  list ← pending p !! addr;
  if list_Empty list then None
  else
    '(drops, list) ← list_Cap list (list_Len list - 1);
    Some (foldl (fun p t => lower_nonce (forget p (tx_Hash t)) addr (tx_Nonce t)) (put_pending p addr list) drops).

(** The loops that drop one transaction of every offender per round, as long
    as too many are pending and the last offender has more than [limit]. *)
Fixpoint level (fuel : nat) (offenders : list Address) (limit : Z) p (pend : Z) : option (TxPool * Z) :=
  if GlobalSlots (config p) <? pend then
    addr ← last offenders;
    list ← pending p !! addr;
    if limit <? Z.of_nat (list_Len list) then
      match fuel with
      | O => None
      | S fuel' => p ← each cap_one offenders p; level fuel' offenders limit p (pend - Z.of_nat (length offenders))
      end
    else Some (p, pend)
  else Some (p, pend).

Definition level_fuel p (offenders : list Address) : nat :=
  default 0%nat (addr ← last offenders; list ← pending p !! addr; Some (list_Len list)).

(** The loop over the spammers: those found to offend, the pool, and the
    number of pending transactions. *)
Fixpoint equalize (fuel : nat) (spammers : list (Address * Z)) (offenders : list Address) p (pend : Z) :
    option (list Address * TxPool * Z) :=
  if (GlobalSlots (config p) <? pend) && negb (bool_decide (spammers = [])) then
    match fuel with
    | O => None
    | S fuel' =>
        '(offender, spammers) ← prque_Pop spammers;
        '(p, pend) ← (if (0 <? length offenders)%nat then
                        list ← pending p !! offender;
                        level (level_fuel p offenders) offenders (Z.of_nat (list_Len list)) p pend
                      else Some (p, pend));
        equalize fuel' spammers (offenders ++ [offender]) p pend
    end
  else Some (offenders, p, pend).

Definition is_spammer p (al : Address * txList) : bool :=
  negb (contains (locals p) al.1) && (AccountSlots (config p) <? Z.of_nat (list_Len al.2)).

Definition spammers_of p : list (Address * Z) :=
  (fun al => (al.1, float32 (Z.of_nat (list_Len al.2)))) <$> filter (fun al => is_spammer p al = true) (range (pending p)).

(** The second part of [promoteExecutables]. *)
Definition truncate_pending p : option TxPool :=
  let pend := count_txs (pending p) in
  if GlobalSlots (config p) <? pend then
    let spammers := spammers_of p in
    '(offenders, p, pend) ← equalize (length spammers) spammers [] p pend;
    if (GlobalSlots (config p) <? pend) && (0 <? length offenders)%nat
    then fst <$> level (level_fuel p offenders) offenders (AccountSlots (config p)) p pend
    else Some p
  else Some p.

(** The zero value of [time.Time], in nanoseconds from 1970. *)
Definition zeroTime : Z := -62135596800 * second.

(** The loop that drops queued transactions, over the addresses from the last
    one on. *)
Fixpoint drop_queued (addrs : list Address) (drop : Z) p : option TxPool :=
  match addrs with
  | [] => Some p
  | addr :: addrs' =>
      if drop <=? 0 then Some p
      else
        list ← queue p !! addr;
        let size := Z.of_nat (list_Len list) in
        let '(ts, list) := list_Flatten list in
        let p := put_queue p addr list in
        if size <=? drop then
          p ← each (fun t => removeTx (tx_Hash t)) ts p;
          drop_queued addrs' (drop - size) p
        else
          p ← each (fun t => removeTx (tx_Hash t)) (take (Z.to_nat drop) (reverse ts)) p;
          drop_queued addrs' 0 p
  end.

(** The third part of [promoteExecutables]. *)
Definition truncate_queue p : option TxPool :=
  let queued := count_txs (queue p) in
  if GlobalQueue (config p) <? queued then
    let addresses := (fun addr => (addr, default zeroTime (beats p !! addr))) <$>
      filter (fun addr => contains (locals p) addr = false) (range (queue p)).*1 in
    drop_queued (reverse (sort_Sort addresses).*1) (queued - GlobalQueue (config p)) p
  else Some p.

Definition promoteExecutables (accounts : option (list Address)) p : option TxPool :=
  let accounts := match accounts with Some l => l | None => (range (queue p)).*1 end in
  p ← each promote_account accounts p;
  p ← truncate_pending p;
  truncate_queue p.

(** ** Demotion *)

Definition enqueue_all p (ts : list tx) : TxPool := foldl (fun p t => (enqueueTx p t).2) p ts.

Definition demote_account addr p : option TxPool :=
  list ← pending p !! addr;
  let nonce := GetNonce (currentState p) addr in
  '(old, list) ← list_Forward list nonce;
  let p := forget_all (put_pending p addr list) old in
  let '(drops, invalids, list) := list_Filter list (GetBalance (currentState p) addr) (currentMaxGas p) in
  let p := forget_all (put_pending p addr list) drops in
  let p := enqueue_all p invalids in
  '(gapped, list) ← (if (0 <? list_Len list)%nat && bool_decide (sm_Get (txs list) nonce = None) then list_Cap list 0 else Some ([], list));
  let p := enqueue_all (put_pending p addr list) gapped in
  Some (if list_Empty list then set_beats (set_pending p (delete addr (pending p))) (delete addr (beats p)) (ticks p) else p).

Definition demoteUnexecutables p : option TxPool := each demote_account (range (pending p)).*1 p.

(** ** New chain heads *)

Definition NumberU64 (b : Block tx) : walk Z := n ← deref (Number (header b)); Found (big_Uint64 n).
Definition block_Hash (b : Block tx) : Hash := header_Hash (header b).

(** The first two loops of [reset]: back from [b] until its number is not above
    [stop], gathering transactions. *)
Fixpoint unwind (fuel : nat) (chain : blockChain) (b : Block tx) (stop : Z) (txs : list tx) : walk (Block tx * list tx) :=
  n ← NumberU64 b;
  if stop <? n then
    match fuel with
    | O => OutOfFuel
    | S fuel' =>
        match GetBlock chain (ParentHash (header b)) (u64 (n - 1)) with
        | None => Unrooted
        | Some b' => unwind fuel' chain b' stop (txs ++ transactions b)
        end
    end
  else Found (b, txs).

(** The third loop: back from both until they meet. *)
Fixpoint unwind_both (fuel : nat) (chain : blockChain) (rem add : Block tx) (discarded included : list tx) : walk (list tx * list tx) :=
  if decide (block_Hash rem = block_Hash add) then Found (discarded, included)
  else
    match fuel with
    | O => OutOfFuel
    | S fuel' =>
        n ← NumberU64 rem;
        match GetBlock chain (ParentHash (header rem)) (u64 (n - 1)) with
        | None => Unrooted
        | Some rem' =>
            n ← NumberU64 add;
            match GetBlock chain (ParentHash (header add)) (u64 (n - 1)) with
            | None => Unrooted
            | Some add' => unwind_both fuel' chain rem' add' (discarded ++ transactions rem) (included ++ transactions add)
            end
        end
    end.

(** The transactions to inject again after a reorganisation.  The conversion
    of a float to [uint64] is exact below [2 ^ 64]. *)
Definition reorg (chain : blockChain) (oldHead newHead : Header) : walk (list tx) :=
  oldN ← deref (Number oldHead);
  newN ← deref (Number newHead);
  let oldNum := big_Uint64 oldN in
  let newNum := big_Uint64 newN in
  let depth := float64 (Z.abs (float64 oldNum - float64 newNum)) in
  if 64 <? depth then Found []
  else
    rem ← deref (GetBlock chain (header_Hash oldHead) oldNum);
    add ← deref (GetBlock chain (header_Hash newHead) newNum);
    addN ← NumberU64 add;
    remN ← NumberU64 rem;
    '(rem, discarded) ← unwind (Z.to_nat remN) chain rem addN [];
    remN ← NumberU64 rem;
    '(add, included) ← unwind (Z.to_nat addN) chain add remN [];
    '(discarded, included) ← unwind_both (Z.to_nat (remN + 1)) chain rem add discarded included;
    Found (TxDifference discarded included).

(** [pool.addTxsLocked]. *)
Fixpoint add_loop p (ts : list tx) (local : bool) (dirty : gmap Address unit) :
    option (list (option pool_error) * gmap Address unit * TxPool) :=
  match ts with
  | [] => Some ([], dirty, p)
  | t :: ts' =>
      '(r, p) ← add p t local;
      let '(err, dirty) :=
        match r with
        | inr err => (Some err, dirty)
        | inl replace => (None, if replace : bool then dirty else <[sender t := tt]> dirty)
        end in
      '(errs, dirty, p) ← add_loop p ts' local dirty;
      Some (err :: errs, dirty, p)
  end.

Definition addTxsLocked p (ts : list tx) (local : bool) : option (list (option pool_error) * TxPool) :=
  '(errs, dirty, p) ← add_loop p ts local ∅;
  p ← (if (0 <? size dirty)%nat then promoteExecutables (Some (range dirty).*1) p else Some p);
  Some (errs, p).

(** The loop of [reset] over the pending lists. *)
Definition update_nonce addr p : option TxPool :=
  list ← pending p !! addr;
  let '(ts, list) := list_Flatten list in
  t ← last ts;
  let p := put_pending p addr list in
  Some (set_pendingState p (ms_SetNonce (pendingState p) addr (u64 (tx_Nonce t + 1)))).

(** [reset] from where the transactions to inject are known. *)
Definition reset_to (chain : blockChain) (newHead : option Header) (reinject : list tx) p : option TxPool :=
  let newHead := default (Block_Header (CurrentBlock chain)) newHead in
  match StateAt chain (Root newHead) with
  | None => Some p
  | Some st =>
      gas ← GasLimit newHead;
      let p := set_head p st (ManageState (GetNonce st)) gas in
      '(_, p) ← addTxsLocked p reinject false;
      p ← demoteUnexecutables p;
      p ← each update_nonce (range (pending p)).*1 p;
      promoteExecutables None p
  end.

Definition reset (chain : blockChain) (oldHead newHead : option Header) p : option TxPool :=
  match oldHead with
  | None => reset_to chain newHead [] p
  | Some old =>
      new ← newHead;
      if decide (header_Hash old = ParentHash new) then reset_to chain newHead [] p
      else
        match reorg chain old new with
        | Found reinject => reset_to chain newHead reinject p
        | Unrooted => Some p
        | NilPointer | OutOfFuel => None
        end
  end.

(** ** The interface of the pool *)

Definition addTx p t (local : bool) : option (option pool_error * TxPool) :=
  '(r, p) ← add p t local;
  match r with
  | inr err => Some (Some err, p)
  | inl replace =>
      p ← (if replace : bool then Some p else promoteExecutables (Some [sender t]) p);
      Some (None, p)
  end.

Definition AddLocal p t := addTx p t (negb (NoLocals (config p))).
Definition AddRemote p t := addTx p t false.
Definition AddLocals p ts := addTxsLocked p ts (negb (NoLocals (config p))).
Definition AddRemotes p ts := addTxsLocked p ts false.

Definition SetGasPrice p (price : Z) : option TxPool :=
  let p := set_gasPrice p price in
  '(drop, pl) ← priced_Cap (all p) (locals p) (priced p) price;
  each (fun t => removeTx (tx_Hash t)) drop (set_priced p pl).

Definition pool_stats p : Z * Z := (count_txs (pending p), count_txs (queue p)).

(** The status of a transaction; an account without pending list has a nil
    pointer there. *)
Definition Status p (hashes : list Hash) : option (list TxStatus) :=
  mapM (fun hash =>
    match all p !! hash with
    | None => Some TxStatusUnknown
    | Some t =>
        list ← pending p !! sender t;
        Some (if bool_decide (is_Some (sm_Get (txs list) (tx_Nonce t))) then TxStatusPending else TxStatusQueued)
    end) hashes.

Definition pool_Get p (hash : Hash) : option tx := all p !! hash.

(** The lists of all accounts, flattened, which fills their caches. *)
Definition flatten_all (m : gmap Address txList) : gmap Address (list tx) * gmap Address txList :=
  (fst ∘ list_Flatten <$> m, snd ∘ list_Flatten <$> m).

Definition Content p : gmap Address (list tx) * gmap Address (list tx) * TxPool :=
  let '(pend, lists) := flatten_all (pending p) in
  let '(queued, qlists) := flatten_all (queue p) in
  (pend, queued, set_queue (set_pending p lists) qlists).

Definition Pending p : gmap Address (list tx) * TxPool :=
  let '(pend, lists) := flatten_all (pending p) in (pend, set_pending p lists).

(** The transactions of a local account. *)
Definition local_of p addr : list tx * TxPool :=
  let '(pend, p) :=
    match pending p !! addr with Some list => let '(ts, list) := list_Flatten list in (ts, put_pending p addr list) | None => ([], p) end in
  let '(queued, p) :=
    match queue p !! addr with Some list => let '(ts, list) := list_Flatten list in (ts, put_queue p addr list) | None => ([], p) end in
  (pend ++ queued, p).

(** All local transactions, by account in the order of the range. *)
Fixpoint local_from p (addrs : list Address) : list (list tx) * TxPool :=
  match addrs with
  | [] => ([], p)
  | addr :: addrs' =>
      let '(ts, p) := local_of p addr in
      let '(tss, p) := local_from p addrs' in
      (ts :: tss, p)
  end.

(** [pool.journal.rotate(pool.local())]: the journal is written anew. *)
Definition rotate p : TxPool :=
  let '(tss, p) := local_from p (range (gset_to_gmap tt (locals p))).*1 in set_journal p (Some (concat tss)).

(** [time.Since], saturating as [time.Time.Sub] does. *)
Definition since (now then_ : Z) : Z := Z.max (- 2 ^ 63) (Z.min (2 ^ 63 - 1) (now - then_)).

(** The body of the eviction loop. *)
Definition evict_account addr p : option TxPool :=
  if contains (locals p) addr then Some p
  else
    let now := Now (ticks p) in
    let p := set_beats p (beats p) (S (ticks p)) in
    if Lifetime (config p) <? since now (default zeroTime (beats p !! addr)) then
      list ← queue p !! addr;
      let '(ts, list) := list_Flatten list in
      each (fun t => removeTx (tx_Hash t)) ts (put_queue p addr list)
    else Some p.

Definition evict p : option TxPool := each evict_account (range (queue p)).*1 p.

Definition empty_pool (conf : TxPoolConfig) : TxPool :=
  mkPool conf (PriceLimit conf) (mkHead (fun _ => 0) (fun _ => 0)) (ManageState (fun _ => 0)) 0 ∅ None ∅ ∅ ∅ ∅
    newTxPricedList false [] 0.

(** [NewTxPool] with the transactions of the journal file.  While they are
    loaded, the journal writes to nowhere. *)
Definition NewTxPool (conf : TxPoolConfig) (chain : blockChain) (file : list tx) : option TxPool :=
  let conf := sanitize conf in
  p ← reset chain None (Some (Block_Header (CurrentBlock chain))) (empty_pool conf);
  if negb (NoLocals conf) && Journal conf then
    p ← each (fun t p => snd <$> AddLocal p t) file p;
    Some (rotate p)
  else Some p.

(** ** The event loop and the callers *)

Inductive pool_event :=
  | HeadEvent (chain : blockChain) (b : Block tx)
  | EvictTick
  | JournalTick
  | CallAddLocals (ts : list tx)
  | CallAddRemotes (ts : list tx)
  | CallAddLocal (t : tx)
  | CallAddRemote (t : tx)
  | CallSetGasPrice (price : Z)
  | CallPending
  | CallContent.

(** The pool and the head the loop saw last. *)
Definition pool_step (c : ChainConfig) (e : pool_event) (s : TxPool * Block tx) : option (TxPool * Block tx) :=
  let '(p, head) := s in
  match e with
  | HeadEvent chain b =>
      n ← Number (header b);
      let p := if IsHomestead c n then set_homestead p true else p in
      p ← reset chain (Some (Block_Header head)) (Some (Block_Header b)) p;
      Some (p, b)
  | EvictTick => p ← evict p; Some (p, head)
  | JournalTick => Some (match journal p with Some _ => rotate p | None => p end, head)
  | CallAddLocals ts => '(_, p) ← AddLocals p ts; Some (p, head)
  | CallAddRemotes ts => '(_, p) ← AddRemotes p ts; Some (p, head)
  | CallAddLocal t => '(_, p) ← AddLocal p t; Some (p, head)
  | CallAddRemote t => '(_, p) ← AddRemote p t; Some (p, head)
  | CallSetGasPrice price => p ← SetGasPrice p price; Some (p, head)
  | CallPending => Some ((Pending p).2, head)
  | CallContent => Some ((Content p).2, head)
  end.

End TxPool.
