(* ===== verification/TxPoolInv.v ===== *)
(** * The invariant of the transaction pool

    The lists of the pool are well formed, a transaction is in at most one of
    them and under its sender, everything in a list is also in the map of all
    transactions and in the price heap, and every operation of the pool keeps
    this and does not panic. *)
From S2P Require Import Vm StateTransition.
From S2P Require Import Prelude Types Heap TxList TxPriced ManagedState TxPool.

Section Inv.
Context {TX : Transaction} {RO : RangeOrder} {PE : PoolEnv}.
Implicit Types (p : TxPool) (t u x : tx) (a addr : Address) (ts l D X : list tx).

(** The transactions of an account. *)
Definition txs_at (m : gmap Address txList) a : list tx := match m !! a with Some L => list_txs L | None => [] end.
Definition ptxs p a : list tx := txs_at (pending p) a.
Definition qtxs p a : list tx := txs_at (queue p) a.

Definition lists_ok (b : bool) (m : gmap Address txList) : Prop := forall a L, m !! a = Some L -> list_ok L /\ strict L = b.

(** [D] are transactions that may be missing in the price heap, [X] some that
    may be missing in the map of all transactions. *)
Record pool_ok D X p : Prop := mk_pool_ok {
  ok_pending : lists_ok true (pending p);
  ok_queue : lists_ok false (queue p);
  ok_member a t : t ∈ ptxs p a \/ t ∈ qtxs p a -> tx_Sender t = Some a /\ (t ∈ X \/ all p !! tx_Hash t = Some t);
  ok_disjoint a t u : t ∈ ptxs p a -> u ∈ qtxs p a -> tx_Nonce t <> tx_Nonce u;
  ok_hashed : hashed (all p);
  ok_signed h t : all p !! h = Some t -> is_Some (tx_Sender t);
  ok_priced : priced_ok D (all p) (priced p);
  ok_ms : ms_ok (pendingState p);
  ok_head a : 0 <= GetNonce (currentState p) a < 2 ^ 64
}.

(** The parts of the pool that only [reset] and [add] change, and no new
    transactions. *)
Definition same_env p p' : Prop :=
  config p' = config p /\ currentState p' = currentState p /\ currentMaxGas p' = currentMaxGas p /\ locals p' = locals p /\
  all p' ⊆ all p.

Definition pnonce p a : Z := pending_nonce (pendingState p) a.

(** ** Maps of lists *)

Lemma txs_at_insert m a L b : txs_at (<[a := L]> m) b = if decide (b = a) then list_txs L else txs_at m b.
Proof. unfold txs_at. case_decide as E; [by rewrite E, lookup_insert_eq|by rewrite lookup_insert_ne]. Qed.

Lemma txs_at_delete m a b : txs_at (delete a m) b = if decide (b = a) then [] else txs_at m b.
Proof. unfold txs_at. case_decide as E; [by rewrite E, lookup_delete_eq|by rewrite lookup_delete_ne]. Qed.

Lemma txs_at_Some m a L : m !! a = Some L -> txs_at m a = list_txs L.
Proof. unfold txs_at. by intros ->. Qed.

Lemma lists_insert b m a L : lists_ok b m -> list_ok L -> strict L = b -> lists_ok b (<[a := L]> m).
Proof. intros Hm H1 H2 c L' [[_ <-]|[_ Hc]]%lookup_insert_Some; [done|by eapply Hm]. Qed.

Lemma lists_delete b m a : lists_ok b m -> lists_ok b (delete a m).
Proof. intros Hm c L' [_ Hc]%lookup_delete_Some. by eapply Hm. Qed.

Lemma lists_default b m a : lists_ok b m -> list_ok (default (newTxList b) (m !! a)) /\ strict (default (newTxList b) (m !! a)) = b /\
  list_txs (default (newTxList b) (m !! a)) = txs_at m a.
Proof.
  intros Hm. unfold txs_at. destruct (m !! a) as [L|] eqn:E; simpl; [by destruct (Hm a L E)|]. by destruct (new_list_ok b).
Qed.

Lemma txs_at_sorted b m a : lists_ok b m -> ascending tx_Nonce (txs_at m a).
Proof. intros Hm. unfold txs_at. destruct (m !! a) as [L|] eqn:E; [|constructor]. apply list_sorted. by apply (Hm a L E). Qed.

Lemma same_nonce_eq l t u : ascending tx_Nonce l -> t ∈ l -> u ∈ l -> tx_Nonce t = tx_Nonce u -> t = u.
Proof.
  intros Hs Ht Hu E. apply ascending_nodup in Hs. apply list_elem_of_lookup in Ht as [i Hi]. apply list_elem_of_lookup in Hu as [j Hj].
  assert (i = j) as ->; [|congruence]. eapply (NoDup_lookup (tx_Nonce <$> l)); [done|by rewrite list_lookup_fmap, Hi|].
  rewrite list_lookup_fmap, Hj. simpl. by rewrite E.
Qed.

Lemma same_env_refl p : same_env p p.
Proof. done. Qed.
Lemma same_env_trans p1 p2 p3 : same_env p1 p2 -> same_env p2 p3 -> same_env p1 p3.
Proof. unfold same_env. intros (A1 & A2 & A3 & A4 & A5) (B1 & B2 & B3 & B4 & B5). repeat split; try congruence. by etrans. Qed.

Lemma same_env_forget p h : same_env p (forget p h).
Proof. do 4 (split; [done|]). apply delete_subseteq. Qed.

(** ** Transactions taken out of the lists

    They belong to one account, are known to the pool, and their nonces are
    free there. *)

Definition outside p a t : Prop := forall u, u ∈ ptxs p a \/ u ∈ qtxs p a -> tx_Nonce u <> tx_Nonce t.

Definition held p a ts : Prop :=
  NoDup (tx_Nonce <$> ts) /\ forall t, t ∈ ts -> tx_Sender t = Some a /\ all p !! tx_Hash t = Some t /\ outside p a t.

Lemma held_nil p a : held p a [].
Proof. split; [constructor|]. intros t Ht. by apply elem_of_nil in Ht. Qed.

Lemma held_perm p a ts ts' : ts ≡ₚ ts' -> held p a ts -> held p a ts'.
Proof. intros Hp [H1 H2]. split; [by rewrite <-Hp|]. intros t. rewrite <-Hp. apply H2. Qed.

Lemma held_app p a ts ts' : held p a (ts ++ ts') -> held p a ts /\ held p a ts'.
Proof.
  intros [H1 H2]. rewrite fmap_app in H1. apply NoDup_app in H1 as (N1 & _ & N3).
  split; (split; [done|]); intros t Ht; apply H2, elem_of_app; auto.
Qed.

Lemma change_X D X X' p :
  pool_ok D X p -> (forall a x, x ∈ X -> x ∈ X' \/ (x ∉ ptxs p a /\ x ∉ qtxs p a)) -> pool_ok D X' p.
Proof.
  intros [H1 H2 H3 H4 H5 H6 H7 H8 H9] Hx. constructor; try done. intros a t Ht. destruct (H3 a t Ht) as [Hs [HX|Ha] ]; [|by auto].
  split; [done|]. destruct (Hx a t HX) as [?|[] ]; naive_solver.
Qed.

Lemma drop_X D X p : pool_ok D X p -> (forall a x, x ∈ X -> x ∉ ptxs p a /\ x ∉ qtxs p a) -> pool_ok D [] p.
Proof. intros Hp Hx. eapply change_X; [done|]. intros a x H. right. by apply Hx. Qed.

(** ** Forgetting and tracking *)

Lemma forget_ok D D' X p t :
  pool_ok D X p -> (forall u, u ∈ D -> u = t \/ u ∈ D') -> pool_ok D' (t :: X) (forget p (tx_Hash t)).
Proof.
  intros [H1 H2 H3 H4 H5 H6 H7 H8 H9] HD. constructor; simpl; try done.
  - intros a u Hu. destruct (H3 a u Hu) as [Hs Ha]. split; [done|]. rewrite elem_of_cons.
    destruct (decide (u = t)) as [->|Hne]; [by auto|]. destruct Ha as [?|Ha]; [by auto|]. right.
    rewrite lookup_delete_ne; [done|]. intros E. by apply Hne, (inj tx_Hash).
  - intros h u [_ Hu]%lookup_delete_Some. by apply H5.
  - intros h u [_ Hu]%lookup_delete_Some. by eapply H6.
  - by eapply priced_Removed_ok, priced_delete_ok.
Qed.

Lemma held_not_in D X p a ts t b : pool_ok D X p -> held p a ts -> t ∈ ts -> t ∉ ptxs p b /\ t ∉ qtxs p b.
Proof.
  intros Hp [_ Hh] Ht. destruct (Hh t Ht) as (Hs & _ & Ho).
  split; intros Hin; (destruct (ok_member _ _ _ Hp b t) as [Hs' _]; [by auto|]); assert (b = a) as -> by congruence; (eapply Ho; [|done]); auto.
Qed.

Lemma forget_held_ok D p a t ts :
  pool_ok D [] p -> held p a (t :: ts) -> pool_ok D [] (forget p (tx_Hash t)) /\ held (forget p (tx_Hash t)) a ts.
Proof.
  intros Hp Hh. split.
  - eapply drop_X; [by apply (forget_ok D D); auto|]. intros b x [->|Hx]%elem_of_cons; [|by apply elem_of_nil in Hx].
    eapply (held_not_in _ _ p); [done|done|by left].
  - destruct Hh as [H1 H2]. apply NoDup_cons in H1 as [N1 N2]. split; [done|]. intros u Hu.
    destruct (H2 u ltac:(by right)) as (Hs & Ha & Ho). split; [done|]. split; [|done]. simpl. rewrite lookup_delete_ne; [done|].
    intros E%(inj tx_Hash). subst u. apply N1. by apply list_elem_of_fmap_2.
Qed.

Lemma forget_app_ok D p a ts us :
  pool_ok D [] p -> held p a (ts ++ us) -> pool_ok D [] (forget_all p ts) /\ held (forget_all p ts) a us /\
  pending (forget_all p ts) = pending p /\ queue (forget_all p ts) = queue p /\ pendingState (forget_all p ts) = pendingState p /\
  same_env p (forget_all p ts).
Proof.
  unfold forget_all. revert p. induction ts as [|t ts IH]; intros p Hp Hh; [done|]. simpl.
  destruct (forget_held_ok D p a t (ts ++ us) Hp Hh) as [Hp' Hh']. destruct (IH _ Hp' Hh') as (I1 & I2 & I3 & I4 & I5 & I6).
  do 5 (split; [done|]). by eapply same_env_trans; [apply same_env_forget|].
Qed.

Lemma forget_all_ok D p a ts :
  pool_ok D [] p -> held p a ts -> pool_ok D [] (forget_all p ts) /\
  pending (forget_all p ts) = pending p /\ queue (forget_all p ts) = queue p /\ pendingState (forget_all p ts) = pendingState p /\
  same_env p (forget_all p ts).
Proof.
  intros Hp Hh. rewrite <-(right_id_L [] app ts) in Hh. by destruct (forget_app_ok D p a ts [] Hp Hh) as (? & _ & ?).
Qed.

(** A transaction enters the map of all, known before or not. *)
Lemma track_ok D X p t :
  pool_ok D X p -> is_Some (tx_Sender t) -> pool_ok D X (track p t).
Proof.
  intros [H1 H2 H3 H4 H5 H6 H7 H8 H9] Hs. constructor; simpl; try done.
  - intros a u Hu. destruct (H3 a u Hu) as [Hs' Ha]. split; [done|]. destruct Ha as [?|Ha]; [by auto|]. right.
    destruct (decide (u = t)) as [->|Hne]; [apply lookup_insert_eq|]. rewrite lookup_insert_ne; [done|]. intros E. by apply Hne, (inj tx_Hash).
  - intros h u [[<- <-]|[_ Hu]]%lookup_insert_Some; [done|by apply H5].
  - intros h u [[<- <-]|[_ Hu]]%lookup_insert_Some; [done|by eapply H6].
  - by apply priced_Put_ok.
Qed.

Lemma track_X D X p t : pool_ok D (t :: X) (track p t) -> pool_ok D X (track p t).
Proof.
  intros [H1 H2 H3 H4 H5 H6 H7 H8 H9]. constructor; try done. intros a u Hu. destruct (H3 a u Hu) as [Hs Ha]. split; [done|].
  destruct Ha as [[->|?]%elem_of_cons|?]; [right; simpl; apply lookup_insert_eq|by auto..].
Qed.

(** ** Replacing a list by a smaller one *)

Lemma put_queue_sub D X p a L L' :
  pool_ok D X p -> queue p !! a = Some L -> list_ok L' -> strict L' = false -> (forall t, t ∈ list_txs L' -> t ∈ list_txs L) ->
  pool_ok D X (put_queue p a L').
Proof.
  intros [H1 H2 H3 H4 H5 H6 H7 H8 H9] HL HL' Hs Hsub.
  assert (forall b t, t ∈ qtxs (put_queue p a L') b -> t ∈ qtxs p b) as Hq.
  { intros b t. unfold qtxs, put_queue. simpl. rewrite txs_at_insert. case_decide as E; [|done]. rewrite E, (txs_at_Some _ _ _ HL). apply Hsub. }
  constructor; try done; simpl; [by apply lists_insert|..].
  - intros b t [Ht|Ht%Hq]; apply H3; auto.
  - intros b t u Ht Hu%Hq. by eapply H4.
Qed.

Lemma put_pending_sub D X p a L L' :
  pool_ok D X p -> pending p !! a = Some L -> list_ok L' -> strict L' = true -> (forall t, t ∈ list_txs L' -> t ∈ list_txs L) ->
  pool_ok D X (put_pending p a L').
Proof.
  intros [H1 H2 H3 H4 H5 H6 H7 H8 H9] HL HL' Hs Hsub.
  assert (forall b t, t ∈ ptxs (put_pending p a L') b -> t ∈ ptxs p b) as Hq.
  { intros b t. unfold ptxs, put_pending. simpl. rewrite txs_at_insert. case_decide as E; [|done]. rewrite E, (txs_at_Some _ _ _ HL). apply Hsub. }
  constructor; try done; simpl; [by apply lists_insert|..].
  - intros b t [Ht%Hq|Ht]; apply H3; auto.
  - intros b t u Ht%Hq Hu. by eapply H4.
Qed.

(** What is taken out of a list is held. *)
Lemma held_split (l1 l2 l : list tx) t u :
  ascending tx_Nonce l -> l ≡ₚ l1 ++ l2 -> t ∈ l1 -> u ∈ l2 -> tx_Nonce t <> tx_Nonce u.
Proof.
  intros Hs%ascending_nodup Hp Ht Hu E. rewrite Hp, fmap_app in Hs. apply NoDup_app in Hs as (_ & Hd & _).
  apply (Hd (tx_Nonce t)); [by apply list_elem_of_fmap_2|]. rewrite E. by apply list_elem_of_fmap_2.
Qed.

Lemma held_nodup (l1 l2 l : list tx) : ascending tx_Nonce l -> l ≡ₚ l1 ++ l2 -> NoDup (tx_Nonce <$> l1).
Proof. intros Hs%ascending_nodup Hp. rewrite Hp, fmap_app in Hs. by apply NoDup_app in Hs as (? & _ & _). Qed.

Lemma put_queue_split D p a L L' ts :
  pool_ok D [] p -> queue p !! a = Some L -> list_ok L' -> strict L' = false -> list_txs L ≡ₚ ts ++ list_txs L' ->
  pool_ok D [] (put_queue p a L') /\ held (put_queue p a L') a ts.
Proof.
  intros Hp HL HL' Hs Hperm. pose proof (list_sorted _ (proj1 (ok_queue _ _ _ Hp a L HL))) as Hsort.
  assert (forall t, t ∈ ts -> t ∈ qtxs p a) as Hts by (intros t Ht; unfold qtxs; rewrite (txs_at_Some _ _ _ HL), Hperm; apply elem_of_app; auto).
  split; [eapply put_queue_sub; try done; intros t Ht; rewrite Hperm; apply elem_of_app; auto|].
  split; [by eapply held_nodup|]. intros t Ht. destruct (ok_member _ _ _ Hp a t) as [Hse [Hx|Ha] ]; [by auto|by apply elem_of_nil in Hx|].
  split; [done|]. split; [done|]. intros u [Hu|Hu].
  - eapply (ok_disjoint _ _ _ Hp a); [done|]. by apply Hts.
  - unfold qtxs, put_queue in Hu. simpl in Hu. rewrite txs_at_insert, decide_True in Hu by done. apply not_eq_sym. by eapply held_split.
Qed.

Lemma put_pending_split D p a L L' ts :
  pool_ok D [] p -> pending p !! a = Some L -> list_ok L' -> strict L' = true -> list_txs L ≡ₚ ts ++ list_txs L' ->
  pool_ok D [] (put_pending p a L') /\ held (put_pending p a L') a ts.
Proof.
  intros Hp HL HL' Hs Hperm. pose proof (list_sorted _ (proj1 (ok_pending _ _ _ Hp a L HL))) as Hsort.
  assert (forall t, t ∈ ts -> t ∈ ptxs p a) as Hts by (intros t Ht; unfold ptxs; rewrite (txs_at_Some _ _ _ HL), Hperm; apply elem_of_app; auto).
  split; [eapply put_pending_sub; try done; intros t Ht; rewrite Hperm; apply elem_of_app; auto|].
  split; [by eapply held_nodup|]. intros t Ht. destruct (ok_member _ _ _ Hp a t) as [Hse [Hx|Ha] ]; [by auto|by apply elem_of_nil in Hx|].
  split; [done|]. split; [done|]. intros u [Hu|Hu].
  - unfold ptxs, put_pending in Hu. simpl in Hu. rewrite txs_at_insert, decide_True in Hu by done. apply not_eq_sym. by eapply held_split.
  - apply not_eq_sym. eapply (ok_disjoint _ _ _ Hp a); [|done]. by apply Hts.
Qed.

(** ** Adding to a list *)

Lemma put_pending_add D X p a L' t :
  pool_ok D X p -> list_ok L' -> strict L' = true -> list_txs L' = put_tx t (ptxs p a) -> tx_Sender t = Some a ->
  (t ∈ X \/ all p !! tx_Hash t = Some t) -> (forall u, u ∈ qtxs p a -> tx_Nonce t <> tx_Nonce u) ->
  pool_ok D X (put_pending p a L').
Proof.
  intros [H1 H2 H3 H4 H5 H6 H7 H8 H9] HL' Hs HL Hse Hall Hq.
  assert (forall b u, u ∈ ptxs (put_pending p a L') b -> (b = a /\ u = t) \/ u ∈ ptxs p b) as Hin.
  { intros b u. unfold ptxs, put_pending. simpl. rewrite txs_at_insert. case_decide as E; [|by auto]. rewrite E, HL.
    intros [->|[Hu _]]%elem_put_tx; [by auto|by auto|by eapply txs_at_sorted]. }
  constructor; try done; simpl; [by apply lists_insert|..].
  - intros b u [[[-> ->]|Hu]%Hin|Hu]; [done|apply H3; auto..].
  - intros b u v [[-> ->]|Hu]%Hin Hv; [by apply Hq|by eapply H4].
Qed.

Lemma put_queue_add D X p a L' t :
  pool_ok D X p -> list_ok L' -> strict L' = false -> list_txs L' = put_tx t (qtxs p a) -> tx_Sender t = Some a ->
  (t ∈ X \/ all p !! tx_Hash t = Some t) -> (forall u, u ∈ ptxs p a -> tx_Nonce t <> tx_Nonce u) ->
  pool_ok D X (put_queue p a L').
Proof.
  intros [H1 H2 H3 H4 H5 H6 H7 H8 H9] HL' Hs HL Hse Hall Hq.
  assert (forall b u, u ∈ qtxs (put_queue p a L') b -> (b = a /\ u = t) \/ u ∈ qtxs p b) as Hin.
  { intros b u. unfold qtxs, put_queue. simpl. rewrite txs_at_insert. case_decide as E; [|by auto]. rewrite E, HL.
    intros [->|[Hu _]]%elem_put_tx; [by auto|by auto|by eapply txs_at_sorted]. }
  constructor; try done; simpl; [by apply lists_insert|..].
  - intros b u [Hu|[[-> ->]|Hu]%Hin]; [apply H3; by auto|done|apply H3; by auto].
  - intros b u v Hu [[-> ->]|Hv]%Hin; [apply not_eq_sym; by apply Hq|by eapply H4].
Qed.

(** A transaction whose nonce is free is always inserted. *)
Lemma list_Add_free L t bump :
  list_ok L -> (forall u, u ∈ list_txs L -> tx_Nonce u <> tx_Nonce t) ->
  exists L', list_Add L t bump = (true, None, L') /\ list_ok L' /\ strict L' = strict L /\ list_txs L' = put_tx t (list_txs L).
Proof.
  intros HL Hf. destruct (list_Add_spec L t bump HL) as (b & old & L' & -> & H1 & H2 & H3). exists L'. destruct b.
  - destruct H3 as [-> H3]. split; [|done]. destruct (sm_Get (txs L) (tx_Nonce t)) as [o|] eqn:Eo; [|done].
    apply list_Get_elem in Eo as [Ho E]; [|done]. by destruct (Hf o Ho).
  - destruct H3 as (_ & o & Ho & E & _). by destruct (Hf o Ho).
Qed.

Lemma promoteTx_ok D p a t ts :
  pool_ok D [] p -> held p a (t :: ts) ->
  let p' := promoteTx a p t in
  pool_ok D [] p' /\ held p' a ts /\ same_env p p' /\ queue p' = queue p /\ all p' = all p /\
  (forall b, ptxs p' b = if decide (b = a) then put_tx t (ptxs p a) else ptxs p b) /\
  (forall b, pnonce p' b = if decide (b = a) then u64 (tx_Nonce t + 1) else pnonce p b).
Proof.
  intros Hp Hh. destruct Hh as [N1 Hh]. destruct (Hh t ltac:(by left)) as (Hs & Ha & Ho). unfold promoteTx.
  destruct (lists_default true (pending p) a (ok_pending _ _ _ Hp)) as (L1 & L2 & L3). set (L := default _ _) in *.
  destruct (list_Add_free L t (PriceBump (config p)) L1) as (L' & -> & A1 & A2 & A3); [intros u; rewrite L3; intros Hu; apply Ho; by auto|].
  cbn [negb]. simpl. rewrite Ha. rewrite L3 in A3. rewrite L2 in A2.
  assert (pool_ok D [] (put_pending p a L')) as Hp1 by (eapply put_pending_add; try done; [by right|]; intros u Hu; apply not_eq_sym, Ho; by auto).
  destruct (ms_SetNonce_ok (pendingState p) a (u64 (tx_Nonce t + 1)) (ok_ms _ _ _ Hp)) as [M1 M2]; [by apply Z.mod_pos_bound|].
  assert (forall b, ptxs (put_pending p a L') b = if decide (b = a) then put_tx t (ptxs p a) else ptxs p b) as Hpt.
  { intros b. unfold ptxs at 1, put_pending. simpl. rewrite txs_at_insert, A3. done. }
  split; [by destruct Hp1; constructor|]. split; [|by repeat split]. apply NoDup_cons in N1 as [N1 N2]. split; [done|]. intros u Hu.
  destruct (Hh u ltac:(by right)) as (Hs' & Ha' & Ho'). split; [done|]. split; [done|]. intros v [Hv|Hv]; [|by apply Ho'; auto].
  change (v ∈ ptxs (put_pending p a L') a) in Hv. rewrite Hpt, decide_True in Hv by done.
  apply elem_put_tx in Hv as [->|[Hv _] ]; [|apply Ho'; by auto|eapply txs_at_sorted, Hp].
  intros E. apply N1. rewrite E. by apply list_elem_of_fmap_2.
Qed.

Lemma promote_all_ok D p a ts :
  pool_ok D [] p -> held p a ts ->
  let p' := foldl (promoteTx a) p ts in
  pool_ok D [] p' /\ same_env p p' /\ queue p' = queue p /\ all p' = all p /\
  (forall b, ptxs p' b = if decide (b = a) then foldl (fun l t => put_tx t l) (ptxs p a) ts else ptxs p b) /\
  (forall b, pnonce p' b = if decide (b = a) then foldl (fun _ t => u64 (tx_Nonce t + 1)) (pnonce p a) ts else pnonce p b).
Proof.
  revert p. induction ts as [|t ts IH]; intros p Hp Hh; simpl.
  - do 4 (split; [done|]). split; intros b; by case_decide; subst.
  - destruct (promoteTx_ok D p a t ts Hp Hh) as (H1 & H2 & H3 & H4 & Hal & H5 & H6).
    destruct (IH _ H1 H2) as (I1 & I2 & I3 & Ial & I4 & I5). split; [done|]. split; [by eapply same_env_trans|]. split; [by rewrite I3|].
    split; [by rewrite Ial|]. split; intros b; [rewrite I4, !H5|rewrite I5, !H6]; rewrite (decide_True (P := a = a)) by done; by case_decide.
Qed.

(** Putting a held transaction into the queue. *)
Lemma enqueue_held_ok D p a t ts :
  pool_ok D [] p -> held p a (t :: ts) ->
  exists p', enqueueTx p t = (inl false, p') /\ pool_ok D [] p' /\ held p' a ts /\ same_env p p' /\ pending p' = pending p /\
    pendingState p' = pendingState p /\ all p' = all p /\ (forall b, qtxs p' b = if decide (b = a) then put_tx t (qtxs p a) else qtxs p b) /\
    (forall b, b <> a -> queue p' !! b = queue p !! b).
Proof.
  intros Hp Hh. destruct Hh as [N1 Hh]. destruct (Hh t ltac:(by left)) as (Hs & Ha & Ho). unfold enqueueTx.
  assert (sender t = a) as -> by (unfold sender; by rewrite Hs).
  destruct (lists_default false (queue p) a (ok_queue _ _ _ Hp)) as (L1 & L2 & L3). set (L := default _ _) in *.
  destruct (list_Add_free L t (PriceBump (config p)) L1) as (L' & -> & A1 & A2 & A3); [intros u; rewrite L3; intros Hu; apply Ho; by auto|].
  cbn [negb]. rewrite L3 in A3. rewrite L2 in A2. eexists. split; [done|].
  assert (pool_ok D [] (put_queue p a L')) as Hp1 by (eapply put_queue_add; try done; [by right|]; intros u Hu; apply not_eq_sym, Ho; by auto).
  assert (forall b, qtxs (put_queue p a L') b = if decide (b = a) then put_tx t (qtxs p a) else qtxs p b) as Hpt.
  { intros b. unfold qtxs at 1, put_queue. simpl. rewrite txs_at_insert, A3. done. }
  assert (<[tx_Hash t := t]> (all p) = all p) as Eall by (by apply insert_id).
  assert (same_env p (track (put_queue p a L') t)) as Hse by (do 4 (split; [done|]); simpl; by rewrite Eall).
  split; [by apply track_ok; [|rewrite Hs]|]. split; [|do 5 (split; [done|]); intros b Hb; by apply lookup_insert_ne]. apply NoDup_cons in N1 as [N1 N2]. split; [done|]. intros u Hu.
  destruct (Hh u ltac:(by right)) as (Hs' & Ha' & Ho'). split; [done|]. split.
  - simpl. destruct (decide (u = t)) as [->|Hne]; [apply lookup_insert_eq|]. rewrite lookup_insert_ne; [done|]. intros E. by apply Hne, (inj tx_Hash).
  - intros v [Hv|Hv]; [by apply Ho'; auto|]. change (v ∈ qtxs (put_queue p a L') a) in Hv. rewrite Hpt, decide_True in Hv by done.
    apply elem_put_tx in Hv as [->|[Hv _] ]; [|apply Ho'; by auto|eapply txs_at_sorted, Hp].
    intros E. apply N1. rewrite E. by apply list_elem_of_fmap_2.
Qed.

Lemma enqueue_all_ok D p a ts :
  pool_ok D [] p -> held p a ts ->
  let p' := enqueue_all p ts in
  pool_ok D [] p' /\ same_env p p' /\ pending p' = pending p /\ pendingState p' = pendingState p /\ all p' = all p /\
  (forall b, qtxs p' b = if decide (b = a) then foldl (fun l t => put_tx t l) (qtxs p a) ts else qtxs p b) /\
  (forall b, b <> a -> queue p' !! b = queue p !! b).
Proof.
  unfold enqueue_all. revert p. induction ts as [|t ts IH]; intros p Hp Hh; simpl.
  - do 5 (split; [done|]). split; [intros b; by case_decide; subst|done].
  - destruct (enqueue_held_ok D p a t ts Hp Hh) as (p1 & -> & H1 & H2 & H3 & H4 & H5 & Hal & H6 & H7). simpl.
    destruct (IH _ H1 H2) as (I1 & I2 & I3 & I4 & Ial & I5 & I6). split; [done|]. split; [by eapply same_env_trans|]. split; [by rewrite I3|]. split; [by rewrite I4|].
    split; [by rewrite Ial|].
    split; [intros b; rewrite I5, !H6, (decide_True (P := a = a)) by done; by case_decide|]. intros b Hb. by rewrite I6, H7.
Qed.

(** ** Removing *)

Lemma lower_nonce_ok D X p a n :
  pool_ok D X p -> 0 <= n < 2 ^ 64 ->
  pool_ok D X (lower_nonce p a n) /\ same_env p (lower_nonce p a n) /\
  pending (lower_nonce p a n) = pending p /\ queue (lower_nonce p a n) = queue p /\ all (lower_nonce p a n) = all p /\
  (forall b, pnonce (lower_nonce p a n) b = if decide (b = a) then Z.min n (pnonce p a) else pnonce p b).
Proof.
  intros Hp Hn. unfold lower_nonce. destruct (ms_GetNonce_ok (pendingState p) a (ok_ms _ _ _ Hp)) as (ms & -> & M1 & M2).
  assert (forall ms', ms_ok ms' -> pool_ok D X (set_pendingState p ms')) as Hset by (intros ms' ?; by destruct Hp; constructor).
  fold (pnonce p a). destruct (Z.ltb_spec n (pnonce p a)) as [Hlt|Hge]; unfold pnonce in *.
  - destruct (ms_SetNonce_ok ms a n M1 Hn) as [S1 S2]. split; [by apply Hset|]. do 4 (split; [done|]). intros b. simpl.
    rewrite S2, M2. case_decide; [lia|done].
  - split; [by apply Hset|]. do 4 (split; [done|]). intros b. simpl. rewrite M2. case_decide as E; [subst; lia|done].
Qed.

(** What [removeTx] does to the lists of the sender of [t]. *)
Definition removed_at p t p' : Prop :=
  let a := sender t in
  let n := tx_Nonce t in
  (forall b, b <> a -> ptxs p' b = ptxs p b /\ qtxs p' b = qtxs p b /\ pnonce p' b = pnonce p b /\ queue p' !! b = queue p !! b) /\
  if decide (n ∈ tx_Nonce <$> ptxs p a)
  then ptxs p' a = filter (fun u => tx_Nonce u < n) (ptxs p a) /\ pnonce p' a = Z.min n (pnonce p a) /\
    exists invalids, invalids ≡ₚ filter (fun u => n < tx_Nonce u) (ptxs p a) /\
      qtxs p' a = if decide (ptxs p' a = []) then qtxs p a else foldl (fun l t => put_tx t l) (qtxs p a) invalids
  else ptxs p' a = ptxs p a /\ pnonce p' a = pnonce p a /\ qtxs p' a = filter (fun u => tx_Nonce u <> n) (qtxs p a).

Lemma filter_id_ne l n : n ∉ tx_Nonce <$> l -> filter (fun u => tx_Nonce u <> n) l = l.
Proof. intros Hn. apply filter_all, Forall_forall. intros u Hu <-. apply Hn. by apply list_elem_of_fmap_2. Qed.

(** A list split at a nonce. *)
Lemma split_at_nonce l t n :
  ascending tx_Nonce l -> t ∈ l -> tx_Nonce t = n ->
  l ≡ₚ (t :: filter (fun u => n < tx_Nonce u) l) ++ filter (fun u => tx_Nonce u < n) l.
Proof.
  intros Hs Ht Hn. pose proof (sorted_NoDup _ Hs) as Hnd. simpl. apply NoDup_Permutation; [done|apply NoDup_cons; split|].
  - rewrite elem_of_app, !list_elem_of_filter. lia.
  - apply NoDup_app. split; [by apply NoDup_filter|]. split; [|by apply NoDup_filter]. intros u. rewrite !list_elem_of_filter. lia.
  - intros u. rewrite elem_of_cons, elem_of_app, !list_elem_of_filter. split; [|by intros [->|[ []|[] ] ] ].
    intros Hu. destruct (Z.lt_trichotomy (tx_Nonce u) n) as [?|[E|?] ]; [by auto|left|by auto]. eapply same_nonce_eq; [done|done|done|]. congruence.
Qed.

Lemma all_lookup D X p t u : pool_ok D X p -> all p !! tx_Hash t = Some u -> u = t.
Proof. intros Hp E. apply (inj tx_Hash). by apply (ok_hashed _ _ _ Hp). Qed.

Lemma delete_pending_ok D X p a :
  pool_ok D X p -> ptxs p a = [] ->
  let p' := set_beats (set_pending p (delete a (pending p))) (delete a (beats p)) (ticks p) in
  pool_ok D X p' /\ forall b, ptxs p' b = ptxs p b.
Proof.
  intros [H1 H2 H3 H4 H5 H6 H7 H8 H9] Ha p'.
  assert (forall b, ptxs p' b = ptxs p b) as Hpt by (intros b; unfold ptxs at 1; simpl; rewrite txs_at_delete; case_decide as E; [by subst|done]).
  split; [|done]. constructor; try done; [by apply lists_delete|..]; intros b t; rewrite Hpt; [apply H3|apply H4].
Qed.

Lemma delete_queue_ok D X p a :
  pool_ok D X p -> qtxs p a = [] ->
  let p' := set_queue p (delete a (queue p)) in
  pool_ok D X p' /\ forall b, qtxs p' b = qtxs p b.
Proof.
  intros [H1 H2 H3 H4 H5 H6 H7 H8 H9] Ha p'.
  assert (forall b, qtxs p' b = qtxs p b) as Hpt by (intros b; unfold qtxs at 1; simpl; rewrite txs_at_delete; case_decide as E; [by subst|done]).
  split; [|done]. constructor; try done; [by apply lists_delete|..]; intros b t; [rewrite Hpt; apply H3|intros u; rewrite Hpt; apply H4].
Qed.

(** The list shrinks below the nonce of the forgotten [t]; the transactions
    above are held. *)
Lemma remove_pending_held D p a t L L' invalids :
  let n := tx_Nonce t in
  pool_ok D [t] p -> tx_Sender t = Some a -> pending p !! a = Some L -> n ∈ tx_Nonce <$> list_txs L -> list_ok L' -> strict L' = true ->
  invalids ≡ₚ filter (fun u => n < tx_Nonce u) (list_txs L) -> list_txs L' = filter (fun u => tx_Nonce u < n) (list_txs L) ->
  pool_ok D [] (put_pending p a L') /\ held (put_pending p a L') a invalids.
Proof.
  intros n Hp Hs EL (u & Eu & Hu)%list_elem_of_fmap L1 L2 R3 R4. set (p1 := put_pending p a L').
  assert (ptxs p a = list_txs L) as EP by (unfold ptxs; by apply txs_at_Some). rewrite <-EP in *.
  assert (ptxs p1 a = list_txs L') as EP1 by (unfold p1, ptxs, put_pending; simpl; rewrite txs_at_insert; by rewrite decide_True).
  assert (pool_ok D [t] p1) as Hp1.
  { eapply put_pending_sub; try done. intros v. rewrite R4, EP. by intros [_ ?]%list_elem_of_filter. }
  assert (forall v, v ∈ qtxs p a -> tx_Nonce v <> n) as Hq.
  { intros v Hv. apply not_eq_sym. rewrite Eu. by eapply (ok_disjoint _ _ _ Hp a). }
  split.
  - eapply drop_X; [done|]. intros b x [->|[]%elem_of_nil]%elem_of_cons. split; intros Hin;
      (destruct (ok_member _ _ _ Hp1 b t) as [Hb _]; [by auto|]); assert (b = a) as -> by congruence.
    + rewrite EP1, R4, list_elem_of_filter in Hin. lia.
    + by apply (Hq t Hin).
  - split; [rewrite R3; eapply ascending_nodup, sorted_filter, txs_at_sorted, Hp|]. intros v. rewrite R3, list_elem_of_filter. intros [Hlt Hv].
    destruct (ok_member _ _ _ Hp a v) as [Hsv [[->|[]%elem_of_nil]%elem_of_cons|Ha] ]; [by auto|lia|]. split; [done|]. split; [done|].
    intros w [Hw|Hw]; [rewrite EP1, R4, list_elem_of_filter in Hw; lia|]. apply not_eq_sym. by eapply (ok_disjoint _ _ _ Hp a).
Qed.

(** The pending part of a removal.  Before, [t] is forgotten. *)
Lemma remove_pending_ok D p a t :
  pool_ok D [t] p -> tx_Sender t = Some a -> all p !! tx_Hash t = None ->
  exists b p', remove_pending p a t = Some (b, p') /\ b = bool_decide (tx_Nonce t ∈ tx_Nonce <$> ptxs p a) /\ same_env p p' /\ all p' = all p /\
    if b : bool then pool_ok D [] p' /\ removed_at p t p'
    else pool_ok D [t] p' /\ queue p' = queue p /\ pendingState p' = pendingState p /\ (forall c, ptxs p' c = ptxs p c).
Proof.
  intros Hp Hs Hn. unfold remove_pending. destruct (pending p !! a) as [L|] eqn:EL.
  2:{ exists false, p. assert (ptxs p a = []) as -> by (unfold ptxs, txs_at; by rewrite EL). done. }
  assert (ptxs p a = list_txs L) as EP by (unfold ptxs; by apply txs_at_Some). rewrite EP.
  destruct (ok_pending _ _ _ Hp a L EL) as [L1 L2]. destruct (list_Remove_ok L t L1) as (invalids & L' & -> & R1 & R2 & R3). rewrite some_bind.
  rewrite L2 in R2, R3. rewrite andb_true_r in R3. fold (put_pending p a L').
  assert (forall c, ptxs (put_pending p a L') c = if decide (c = a) then list_txs L' else ptxs p c) as Hpt.
  { intros c. unfold ptxs at 1, put_pending. simpl. apply txs_at_insert. }
  assert (pool_ok D [t] (put_pending p a L')) as Hp1.
  { eapply put_pending_sub; try done. intros u. case_match; destruct R3 as [_ ->]; by intros [_ ?]%list_elem_of_filter. }
  case_bool_decide as En.
  2:{ eexists _, _. split; [done|]. split; [done|]. split; [done|]. split; [done|]. split; [done|]. split; [done|]. split; [done|].
      destruct R3 as [_ R3]. rewrite filter_id_ne in R3 by done. intros c. rewrite Hpt. case_decide as Ec; [subst c; congruence|done]. }
  destruct R3 as [R3 R4]. destruct (remove_pending_held D p a t L L' invalids) as [Hp2 Hh]; [done..|]. set (p1 := put_pending p a L') in *.
  set (p2 := if list_Empty L' then _ else _).
  assert (pool_ok D [] p2 /\ same_env p p2 /\ all p2 = all p /\ pendingState p2 = pendingState p /\ (forall c, ptxs p2 c = ptxs p1 c) /\
    (forall c, c <> a -> queue p2 !! c = queue p !! c) /\ forall c, qtxs p2 c = if decide (c = a /\ list_txs L' <> []) then foldl (fun l t => put_tx t l) (qtxs p a) invalids else qtxs p c) as (Q1 & Q2 & Q3 & Q4 & Q5 & Q7 & Q6).
  { unfold p2. rewrite list_Empty_ok. case_bool_decide as Ee.
    - destruct (delete_pending_ok D [] p1 a Hp2) as [D1 D2]; [by rewrite Hpt, decide_True by done|].
      do 6 (split; [done|]). intros c. by rewrite decide_False by naive_solver.
    - fold (enqueue_all p1 invalids). destruct (enqueue_all_ok D p1 a invalids Hp2 Hh) as (E1 & E2 & E3 & E4 & E5 & E6 & E7).
      split; [done|]. split; [done|]. split; [done|]. split; [done|]. split; [intros c; unfold ptxs; by rewrite E3|]. split; [done|].
      intros c. rewrite E6. case_decide as Ec; [subst; by rewrite decide_True by done|]. by rewrite decide_False by naive_solver. }
  destruct (lower_nonce_ok D [] p2 a (tx_Nonce t) Q1 (Nonce_range t)) as (N1 & N2 & N3 & N4 & N5 & N6).
  assert (forall c, ptxs (lower_nonce p2 a (tx_Nonce t)) c = if decide (c = a) then list_txs L' else ptxs p c) as Hpt2.
  { intros c. unfold ptxs at 1. rewrite N3. fold (ptxs p2 c). by rewrite Q5. }
  assert (forall c, pnonce p2 c = pnonce p c) as Hpn by (intros c; unfold pnonce; by rewrite Q4).
  eexists true, _. split; [done|]. split; [done|]. split; [by eapply same_env_trans|]. split; [by rewrite N5|]. split; [done|].
  unfold removed_at. assert (sender t = a) as -> by (unfold sender; by rewrite Hs). split.
  - intros c Hc. rewrite Hpt2, N6, Hpn, !decide_False by done. unfold qtxs at 1. rewrite N4. fold (qtxs p2 c).
    rewrite Q6, decide_False by naive_solver. do 3 (split; [done|]). by apply Q7.
  - rewrite EP, decide_True by done. rewrite Hpt2, N6, Hpn, !decide_True by done. split; [done|]. split; [done|]. exists invalids. split; [done|].
    unfold qtxs at 1. rewrite N4. fold (qtxs p2 a). rewrite Q6. destruct (decide (list_txs L' = [])) as [E|E]; [by rewrite decide_False by naive_solver|].
    by rewrite decide_True.
Qed.

Lemma removed_at_queue D p t p1 p' a :
  pool_ok D [] p -> tx_Sender t = Some a -> tx_Nonce t ∉ tx_Nonce <$> ptxs p a ->
  (forall c, ptxs p' c = ptxs p c) -> pendingState p' = pendingState p ->
  (forall c, qtxs p' c = if decide (c = a) then filter (fun u => tx_Nonce u <> tx_Nonce t) (qtxs p a) else qtxs p c) ->
  (forall c, c <> a -> queue p' !! c = queue p !! c) -> p1 = p -> removed_at p1 t p'.
Proof.
  intros Hp Hs Hn H1 H2 H3 H4 ->. unfold removed_at. assert (sender t = a) as -> by (unfold sender; by rewrite Hs). split.
  - intros b Hb. rewrite H1, H3, decide_False, H4 by done. unfold pnonce. by rewrite H2.
  - rewrite decide_False by done. rewrite H1, H3, decide_True by done. unfold pnonce. by rewrite H2.
Qed.

(** The queue part of a removal. *)
Lemma remove_queue_ok D p a t :
  pool_ok D [t] p -> tx_Sender t = Some a -> tx_Nonce t ∉ tx_Nonce <$> ptxs p a ->
  exists p', match queue p !! a with
             | None => Some p
             | Some future =>
                 '(_, _, future) ← list_Remove future t;
                 let p := set_queue p (<[a := future]> (queue p)) in
                 Some (if list_Empty future then set_queue p (delete a (queue p)) else p)
             end = Some p' /\
    pool_ok D [] p' /\ same_env p p' /\ all p' = all p /\ pending p' = pending p /\ pendingState p' = pendingState p /\
    (forall c, qtxs p' c = if decide (c = a) then filter (fun u => tx_Nonce u <> tx_Nonce t) (qtxs p a) else qtxs p c) /\
    forall c, c <> a -> queue p' !! c = queue p !! c.
Proof.
  intros Hp Hs Hn.
  assert (forall p', pool_ok D [t] p' -> pending p' = pending p -> t ∉ qtxs p' a -> pool_ok D [] p') as Hdrop.
  { intros p' Hp' Ep Hq. eapply drop_X; [done|]. intros b x [->|[]%elem_of_nil]%elem_of_cons. split; intros Hin;
      (destruct (ok_member _ _ _ Hp' b t) as [Hb _]; [by auto|]); assert (b = a) as -> by congruence; [|done].
    apply Hn, list_elem_of_fmap_2. unfold ptxs in *. by rewrite <-Ep. }
  destruct (queue p !! a) as [Q|] eqn:EQ.
  2:{ assert (qtxs p a = []) as Eq by (unfold qtxs, txs_at; by rewrite EQ). exists p. split; [done|].
      split; [apply Hdrop; [done|done|]; rewrite Eq; by intros ?%elem_of_nil|]. do 4 (split; [done|]).
      split; [|done]. intros c. case_decide as Ec; [subst; by rewrite Eq|done]. }
  assert (qtxs p a = list_txs Q) as EP by (unfold qtxs; by apply txs_at_Some).
  destruct (ok_queue _ _ _ Hp a Q EQ) as [L1 L2]. destruct (list_Remove_ok Q t L1) as (invalids & Q' & -> & R1 & R2 & R3). rewrite some_bind.
  rewrite L2, andb_false_r in R3. rewrite L2 in R2. destruct R3 as [_ R3]. fold (put_queue p a Q').
  assert (pool_ok D [t] (put_queue p a Q')) as Hp1 by (eapply put_queue_sub; try done; intros u; rewrite R3; by intros [_ ?]%list_elem_of_filter).
  assert (forall c, qtxs (put_queue p a Q') c = if decide (c = a) then list_txs Q' else qtxs p c) as Hqt.
  { intros c. unfold qtxs at 1, put_queue. simpl. apply txs_at_insert. }
  assert (t ∉ list_txs Q') as Ht by (rewrite R3, list_elem_of_filter; by intros [? _]).
  rewrite list_Empty_ok. case_bool_decide as Ee; eexists; (split; [done|]).
  - destruct (delete_queue_ok D [t] (put_queue p a Q') a Hp1) as [D1 D2]; [by rewrite Hqt, decide_True by done|].
    split; [apply Hdrop; [done|done|]; rewrite D2, Hqt, decide_True by done; done|]. do 4 (split; [done|]).
    split; [intros c; rewrite D2, Hqt, EP; case_decide; [by rewrite R3|done]|]. intros c Hc. simpl. by rewrite lookup_delete_ne, lookup_insert_ne.
  - split; [apply Hdrop; [done|done|]; rewrite Hqt, decide_True by done; done|]. do 4 (split; [done|]).
    split; [intros c; rewrite Hqt, EP; case_decide; [by rewrite R3|done]|]. intros c Hc. simpl. by rewrite lookup_insert_ne.
Qed.

Lemma removeTx_ok D D' p t :
  pool_ok D [] p -> (forall u, u ∈ D -> u = t \/ u ∈ D') ->
  exists p', removeTx (tx_Hash t) p = Some p' /\ pool_ok D' [] p' /\ same_env p p' /\ all p' = delete (tx_Hash t) (all p) /\
    match all p !! tx_Hash t with None => p' = p | Some _ => removed_at p t p' end.
Proof.
  intros Hp HD. unfold removeTx. destruct (all p !! tx_Hash t) as [t'|] eqn:Et.
  2:{ exists p. split; [done|]. split; [|by rewrite delete_id]. destruct Hp as [H1 H2 H3 H4 H5 H6 H7 H8 H9]. constructor; try done.
      rewrite <-(delete_id (all p) (tx_Hash t)) by done. by eapply priced_delete_ok. }
  assert (t' = t) as -> by (by eapply all_lookup). destruct (ok_signed _ _ _ Hp _ _ Et) as [a Hs].
  assert (sender t = a) as Es by (unfold sender; by rewrite Hs). rewrite Es.
  pose proof (forget_ok D D' [] p t Hp HD) as Hf. pose proof (same_env_forget p (tx_Hash t)) as Hse. destruct (remove_pending_ok D' (forget p (tx_Hash t)) a t) as (b & p1 & -> & Eb & H1 & H2 & H3);
    [done|done|simpl; apply lookup_delete_eq|]. rewrite some_bind. change (ptxs (forget p (tx_Hash t)) a) with (ptxs p a) in Eb. destruct b.
  - destruct H3 as [H3 H4]. exists p1. split; [done|]. split; [done|]. split; [by eapply same_env_trans|]. split; [by rewrite H2|]. exact H4.
  - destruct H3 as (H3 & H4 & H5 & H6). symmetry in Eb. apply bool_decide_eq_false in Eb.
    destruct (remove_queue_ok D' p1 a t H3 Hs) as (p2 & E2 & Q1 & Q2 & Q3 & Q4 & Q5 & Q6 & Q7); [by rewrite H6|].
    exists p2. split; [exact E2|]. split; [done|]. split; [eapply same_env_trans, Q2; by eapply same_env_trans|]. split; [by rewrite Q3, H2|].
    assert (forall c, qtxs p1 c = qtxs p c) as Eq by (intros c; unfold qtxs; by rewrite H4).
    eapply removed_at_queue; [exact Hp|done|exact Eb| | | | |done].
    + intros c. unfold ptxs at 1. rewrite Q4. apply H6.
    + by rewrite Q5, H5.
    + intros c. by rewrite Q6, !Eq.
    + intros c Hc. by rewrite Q7, H4.
Qed.

(** ** Promotion *)

Lemma run_from_prefix n l : run_from n l ++ drop (length (run_from n l)) l = l.
Proof. revert n. induction l as [|u l IH]; intros n; simpl; [done|]. case_match; [|done]. simpl. by rewrite IH. Qed.

Lemma ready_prefix start l : ready_txs start l ++ drop (length (ready_txs start l)) l = l.
Proof. unfold ready_txs. destruct l as [|u l]; [done|]. case_match; [done|]. apply run_from_prefix. Qed.

Lemma filter_lt_split th l : l ≡ₚ filter (fun t => tx_Nonce t < th) l ++ filter (fun t => th <= tx_Nonce t) l.
Proof.
  rewrite <-(filter_app_complement (fun t => tx_Nonce t < th) l) at 1. f_equiv. erewrite list_filter_iff; [done|]. intros u. simpl. lia.
Qed.

Definition config_ok (c : TxPoolConfig) : Prop := 0 <= AccountQueue c < 2 ^ 63.

(** What is left in the queue of an account after dropping what is too old or
    too costly, and what of it is ready. *)
Definition payable p a : list tx :=
  filter (fun t => affordable (GetBalance (currentState p) a) (currentMaxGas p) t = true)
    (filter (fun t => GetNonce (currentState p) a <= tx_Nonce t) (qtxs p a)).
Definition ready p a : list tx := ready_txs (pnonce p a) (payable p a).
Definition unready p a : list tx := drop (length (ready p a)) (payable p a).

Definition promoted_at p a p' : Prop :=
  (forall b, b <> a -> ptxs p' b = ptxs p b /\ qtxs p' b = qtxs p b /\ pnonce p' b = pnonce p b) /\
  ptxs p' a = foldl (fun l t => put_tx t l) (ptxs p a) (ready p a) /\
  pnonce p' a = foldl (fun _ t => u64 (tx_Nonce t + 1)) (pnonce p a) (ready p a) /\
  qtxs p' a = if contains (locals p) a then unready p a else take (Z.to_nat (AccountQueue (config p))) (unready p a).

(** Taking transactions out of the queue for good. *)
Lemma shrink_queue_ok D p a L L' ts :
  pool_ok D [] p -> queue p !! a = Some L -> list_ok L' -> strict L' = false -> list_txs L ≡ₚ ts ++ list_txs L' ->
  let p' := forget_all (put_queue p a L') ts in
  pool_ok D [] p' /\ same_env p p' /\ pending p' = pending p /\ pendingState p' = pendingState p /\
  queue p' = <[a := L']> (queue p).
Proof.
  intros Hp HL HL' Hs Hperm. destruct (put_queue_split D p a L L' ts Hp HL HL' Hs Hperm) as [Hp1 Hh].
  destruct (forget_all_ok D _ a ts Hp1 Hh) as (F1 & F2 & F3 & F4 & F5). split; [done|]. split; [done|]. split; [by rewrite F2|].
  split; [by rewrite F4|by rewrite F3].
Qed.

Lemma shrink_pending_ok D p a L L' ts :
  pool_ok D [] p -> pending p !! a = Some L -> list_ok L' -> strict L' = true -> list_txs L ≡ₚ ts ++ list_txs L' ->
  let p' := forget_all (put_pending p a L') ts in
  pool_ok D [] p' /\ same_env p p' /\ queue p' = queue p /\ pendingState p' = pendingState p /\
  pending p' = <[a := L']> (pending p).
Proof.
  intros Hp HL HL' Hs Hperm. destruct (put_pending_split D p a L L' ts Hp HL HL' Hs Hperm) as [Hp1 Hh].
  destruct (forget_all_ok D _ a ts Hp1 Hh) as (F1 & F2 & F3 & F4 & F5). split; [done|]. split; [done|]. split; [by rewrite F3|].
  split; [by rewrite F4|by rewrite F2].
Qed.

Lemma cap_list_ok L k :
  list_ok L -> 0 <= k < 2 ^ 63 ->
  exists L', cap_list L k = Some (reverse (drop (Z.to_nat k) (list_txs L)), L') /\ list_ok L' /\ strict L' = strict L /\
    list_txs L' = take (Z.to_nat k) (list_txs L).
Proof.
  intros HL Hk. unfold cap_list. assert (i64 k = k) as -> by (unfold i64; rewrite Z.mod_small; lia).
  rewrite (proj2 (Z.ltb_ge _ _)) by lia. by apply list_Cap_ok.
Qed.

(** The end of [promote_account]: the cap, and the list if it is empty. *)
Lemma cap_account_ok D p a L :
  pool_ok D [] p -> queue p !! a = Some L -> config_ok (config p) ->
  exists p', cap_account a L p = Some p' /\
    pool_ok D [] p' /\ same_env p p' /\ pending p' = pending p /\ pendingState p' = pendingState p /\
    (forall c, qtxs p' c = if decide (c = a) then
       if contains (locals p) a then list_txs L else take (Z.to_nat (AccountQueue (config p))) (list_txs L) else qtxs p c).
Proof.
  intros Hp HL Hc. unfold cap_account. destruct (ok_queue _ _ _ Hp a L HL) as [L1 L2].
  assert (exists drops L', (if contains (locals p) a then Some ([], L) else cap_list L (AccountQueue (config p))) = Some (drops, L') /\
    list_ok L' /\ strict L' = false /\ list_txs L ≡ₚ drops ++ list_txs L' /\
    list_txs L' = if contains (locals p) a then list_txs L else take (Z.to_nat (AccountQueue (config p))) (list_txs L))
    as (drops & L' & -> & A1 & A2 & A3 & A4).
  { destruct (contains (locals p) a); [by exists [], L|]. destruct (cap_list_ok L _ L1 Hc) as (L' & -> & C1 & C2 & C3).
    eexists _, L'. split; [done|]. split; [done|]. split; [congruence|]. split; [|done].
    rewrite C3, reverse_Permutation, (comm app). by rewrite take_drop. }
  rewrite some_bind. destruct (shrink_queue_ok D p a L L' drops) as (S1 & S2 & S3 & S4 & S5); [done..|]. set (p1 := forget_all _ _) in *.
  assert (forall c, qtxs p1 c = if decide (c = a) then list_txs L' else qtxs p c) as Hq by (intros c; unfold qtxs at 1; rewrite S5; apply txs_at_insert).
  rewrite <-A4. rewrite list_Empty_ok. case_bool_decide as Ee; eexists; (split; [done|]); [|done].
  destruct (delete_queue_ok D [] p1 a S1) as [D1 D2]; [by rewrite Hq, decide_True by done|]. split; [done|]. split; [done|]. split; [done|]. split; [done|].
  intros c. by rewrite D2.
Qed.

(** The beginning of [promote_account]: what is too old or too costly goes. *)
Lemma clean_account_ok D p a L :
  pool_ok D [] p -> queue p !! a = Some L ->
  exists p' L', clean_account a L p = Some (L', p') /\
    pool_ok D [] p' /\ same_env p p' /\ pending p' = pending p /\ pendingState p' = pendingState p /\
    queue p' = <[a := L']> (queue p) /\ list_ok L' /\ strict L' = false /\ list_txs L' = payable p a.
Proof.
  intros Hp HL. destruct (ok_queue _ _ _ Hp a L HL) as [L1 L2].
  destruct (list_Forward_ok L (GetNonce (currentState p) a) L1) as (La & Ea & A1 & A2 & A3).
  destruct (shrink_queue_ok D p a L La (filter (fun t => tx_Nonce t < GetNonce (currentState p) a) (list_txs L))) as (S1 & S2 & S3 & S4 & S5);
    [done|done|done|congruence|rewrite A3; apply filter_lt_split|]. set (p1 := forget_all _ _) in *.
  pose proof S2 as (_ & Ecs & Emg & _ & _).
  destruct (list_Filter_ok La (GetBalance (currentState p1) a) (currentMaxGas p1) A1) as (removed & inv & Lb & Eb & B1 & B2 & B3 & B4).
  rewrite A2, L2 in B2, B4. destruct B4 as [B4 B5].
  destruct (shrink_queue_ok D p1 a La Lb removed) as (T1 & T2 & T3 & T4 & T5);
    [done|by rewrite S5, lookup_insert_eq|done|done|rewrite B3, B4, (comm app); symmetry; apply filter_bool_split|]. set (p2 := forget_all (put_queue p1 a Lb) removed) in *.
  exists p2, Lb. split; [unfold clean_account; rewrite Ea, some_bind; cbv beta iota zeta; fold p1; rewrite Eb; done|]. split; [done|].
  split; [by eapply same_env_trans|]. split; [by rewrite T3|]. split; [by rewrite T4|]. split; [by rewrite T5, S5, insert_insert_eq|].
  split; [done|]. split; [done|]. rewrite B4, A3, Ecs, Emg. unfold payable, qtxs. by rewrite (txs_at_Some _ _ _ HL).
Qed.

Lemma set_pendingState_ok D X p ms : pool_ok D X p -> ms_ok ms -> pool_ok D X (set_pendingState p ms).
Proof. intros [H1 H2 H3 H4 H5 H6 H7 H8 H9] Hm. by constructor. Qed.

Lemma promote_account_ok D p a :
  pool_ok D [] p -> config_ok (config p) ->
  exists p', promote_account a p = Some p' /\ pool_ok D [] p' /\ same_env p p' /\ promoted_at p a p'.
Proof.
  intros Hp Hc. unfold promote_account. destruct (queue p !! a) as [L|] eqn:HL.
  2:{ assert (payable p a = []) as Ep by (unfold payable, qtxs, txs_at; by rewrite HL). exists p. split; [done|]. split; [done|]. split; [done|].
      unfold promoted_at, ready, unready, ready. rewrite Ep. simpl. split; [done|]. split; [done|]. split; [done|].
      unfold qtxs, txs_at. rewrite HL. case_match; [done|]. by rewrite take_nil. }
  destruct (clean_account_ok D p a L Hp HL) as (p1 & L1 & -> & H1 & H2 & H3 & H4 & H5 & H6 & H7 & H8). rewrite some_bind.
  destruct (ms_GetNonce_ok (pendingState p1) a (ok_ms _ _ _ H1)) as (ms & -> & M1 & M2). rewrite H4 in M2 |- *. fold (pnonce p a).
  destruct (list_Ready_ok L1 (pnonce p a) H6) as (L2 & -> & R1 & R2 & R3). rewrite some_bind. rewrite H8 in R3 |- *. fold (ready p a) in R3 |- *.
  pose proof (set_pendingState_ok D [] p1 ms H1 M1) as H1'. set (p2 := set_pendingState p1 ms) in *.
  destruct (put_queue_split D p2 a L1 L2 (ready p a)) as [S1 S2];
    [done|change (queue p2) with (queue p1); by rewrite H5, lookup_insert_eq|done|congruence|rewrite R3, H8; unfold ready at 1 2; by rewrite ready_prefix|].
  destruct (promote_all_ok D (put_queue p2 a L2) a (ready p a) S1 S2) as (P1 & P2 & P3 & _ & P4 & P5). set (p3 := foldl _ _ _) in *.
  pose proof (same_env_trans _ _ _ H2 (P2 : same_env p1 p3)) as He. pose proof He as (Ec & _ & _ & El & _).
  destruct (cap_account_ok D p3 a L2) as (p4 & -> & C1 & C2 & C3 & C4 & C5); [done|rewrite P3; simpl; apply lookup_insert_eq|by rewrite Ec|].
  exists p4. split; [done|]. split; [done|]. split; [by eapply same_env_trans|].
  assert (forall b, ptxs p4 b = ptxs p3 b) as X1 by (intros b; unfold ptxs; by rewrite C3).
  assert (forall b, pnonce p4 b = pnonce p3 b) as X2 by (intros b; unfold pnonce; by rewrite C4).
  assert (forall b, ptxs (put_queue p2 a L2) b = ptxs p b) as X3 by (intros b; unfold ptxs; simpl; by rewrite H3).
  assert (forall b, pnonce (put_queue p2 a L2) b = pnonce p b) as X4 by (intros b; unfold pnonce; simpl; apply M2).
  unfold promoted_at. split; [|split; [|split] ].
  - intros b Hb. rewrite X1, X2, P4, P5, C5, !decide_False, X3, X4 by done. split; [done|]. split; [|done].
    unfold qtxs. rewrite P3. simpl. rewrite H5, !txs_at_insert, !decide_False by done. done.
  - by rewrite X1, P4, decide_True, X3 by done.
  - by rewrite X2, P5, decide_True, X4 by done.
  - rewrite C5, decide_True, Ec, El, R3 by done. by unfold unready.
Qed.

End Inv.
