(* ===== verification/TxPoolLimits.v ===== *)
(** * The limits of the transaction pool

    The second and third part of [promoteExecutables]: when too many
    transactions are pending, the accounts with most of them lose their last
    ones until all is below the limit or no account has more than its slots;
    when too many are queued, whole queues go.  The changes of the pool are
    recorded as sequences of elementary moves, which [TxPoolPending] uses. *)
From S2P Require Import Vm StateTransition.
From S2P Require Import Prelude Types Heap TxList TxPriced ManagedState TxPool TxPoolInv.

Section Limits.
Context {TX : Transaction} {RO : RangeOrder} {PE : PoolEnv}.
Implicit Types (p : TxPool) (t u x : tx) (a addr : Address) (ts l D X : list tx).

(** ** Moves *)

(** The last pending transaction [t] of an account goes. *)
Definition capped_at p a l t p' : Prop :=
  ptxs p a = l ++ [t] /\ ptxs p' a = l /\ pnonce p' a = Z.min (tx_Nonce t) (pnonce p a) /\
  (forall b, b <> a -> ptxs p' b = ptxs p b /\ pnonce p' b = pnonce p b) /\ forall b, qtxs p' b = qtxs p b.

Definition same_txs p p' : Prop := forall b, ptxs p' b = ptxs p b /\ qtxs p' b = qtxs p b /\ pnonce p' b = pnonce p b.

Inductive move p p' : Prop :=
  | move_removed t : is_Some (all p !! tx_Hash t) -> removed_at p t p' -> move p p'
  | move_promoted a : promoted_at p a p' -> move p p'
  | move_capped a l t : capped_at p a l t p' -> move p p'
  | move_same : same_txs p p' -> move p p'.

Definition wf p : Prop := exists D, pool_ok D [] p.

Definition step p p' : Prop := wf p /\ wf p' /\ same_env p p' /\ move p p'.

Lemma steps_env p p' : rtc step p p' -> same_env p p'.
Proof. induction 1 as [p|p1 p2 p3 (_ & _ & He & _) _ IH]; [done|by eapply same_env_trans]. Qed.

Lemma step_once D D' p p' : pool_ok D [] p -> pool_ok D' [] p' -> same_env p p' -> move p p' -> rtc step p p'.
Proof. intros H1 H2 H3 H4. apply rtc_once. split; [by exists D|]. split; [by exists D'|]. done. Qed.

(** ** Counting *)

Lemma count_perm (m : gmap Address txList) : count_txs m = Z.of_nat (sum_list_with (fun al => list_Len al.2) (map_to_list m)).
Proof. unfold count_txs. by rewrite range_is_perm. Qed.

Lemma pending_count_insert (m : gmap Address txList) a L :
  count_txs (<[a := L]> m) = count_txs m - Z.of_nat (length (txs_at m a)) + Z.of_nat (length (list_txs L)).
Proof.
  rewrite !count_perm. rewrite <-insert_delete_eq, map_to_list_insert by apply lookup_delete_eq. simpl. rewrite list_Len_ok.
  unfold txs_at. destruct (m !! a) as [L0|] eqn:E.
  - rewrite <-(map_to_list_delete m a L0 E). simpl. rewrite list_Len_ok. lia.
  - rewrite delete_id by done. simpl. lia.
Qed.

Lemma count_delete (m : gmap Address txList) a : count_txs (delete a m) = count_txs m - Z.of_nat (length (txs_at m a)).
Proof.
  rewrite !count_perm. unfold txs_at. destruct (m !! a) as [L0|] eqn:E.
  - rewrite <-(map_to_list_delete m a L0 E). simpl. rewrite list_Len_ok. lia.
  - rewrite delete_id by done. simpl. lia.
Qed.

(** ** Dropping pending transactions *)

Definition plen p a : nat := length (ptxs p a).

Lemma cap_one_ok D p a l t :
  pool_ok D [] p -> ptxs p a = l ++ [t] ->
  exists p', cap_one a p = Some p' /\ pool_ok D [] p' /\ rtc step p p' /\ queue p' = queue p /\ dom (pending p') = dom (pending p) /\
    (forall b, ptxs p' b = if decide (b = a) then l else ptxs p b) /\ count_txs (pending p') = count_txs (pending p) - 1.
Proof.
  intros Hp El. unfold cap_one. destruct (pending p !! a) as [L|] eqn:HL; [|unfold ptxs, txs_at in El; rewrite HL in El; by destruct l].
  destruct (ok_pending _ _ _ Hp a L HL) as [L1 L2]. assert (list_txs L = l ++ [t]) as EL by (rewrite <-El; unfold ptxs; symmetry; by apply txs_at_Some).
  rewrite some_bind, list_Empty_ok, bool_decide_eq_false_2 by (rewrite EL; by destruct l). cbv iota.
  rewrite list_Len_ok. destruct (list_Cap_ok L (length (list_txs L) - 1) L1) as (L' & -> & C1 & C2 & C3). rewrite some_bind.
  assert (length (list_txs L) - 1 = length l)%nat as En by (rewrite EL, length_app; simpl; lia). rewrite En in *. rewrite EL in C3 |- *.
  rewrite take_app_length in C3. rewrite drop_app_length. simpl.
  destruct (put_pending_split D p a L L' [t]) as [P1 P2]; [done|done|done|congruence|rewrite EL, C3; by rewrite (comm app)|].
  destruct (forget_held_ok D _ a t [] P1 P2) as [F1 _]. destruct (lower_nonce_ok D [] _ a (tx_Nonce t) F1 (Nonce_range t)) as (N1 & N2 & N3 & N4 & _ & N6).
  set (p' := lower_nonce _ _ _) in *. exists p'. split; [done|]. split; [done|].
  assert (forall b, ptxs p' b = if decide (b = a) then l else ptxs p b) as Hpt.
  { intros b. unfold ptxs at 1. rewrite N3. simpl. rewrite txs_at_insert, C3. done. }
  assert (same_env p p') as Henv by (eapply same_env_trans, N2; eapply same_env_trans, same_env_forget; done).
  split.
  - eapply step_once; [done|done|done|]. apply (move_capped _ _ a l t). split; [done|]. rewrite Hpt, decide_True by done. split; [done|].
    rewrite N6, decide_True by done. split; [done|]. split; [intros b Hb; by rewrite Hpt, N6, !decide_False by done|].
    intros b. unfold qtxs. by rewrite N4.
  - split; [by rewrite N4|]. split; [rewrite N3; simpl; apply dom_insert_lookup_L; by eexists|]. split; [done|].
    rewrite N3. simpl. rewrite pending_count_insert, C3. unfold ptxs in El. rewrite El, length_app. simpl. lia.
Qed.

Lemma cap_each_ok D p (offs : list Address) :
  pool_ok D [] p -> NoDup offs -> (forall a, a ∈ offs -> (0 < plen p a)%nat) ->
  exists p', each cap_one offs p = Some p' /\ pool_ok D [] p' /\ rtc step p p' /\ queue p' = queue p /\ dom (pending p') = dom (pending p) /\
    (forall b, ptxs p' b = if decide (b ∈ offs) then take (plen p b - 1) (ptxs p b) else ptxs p b) /\
    count_txs (pending p') = count_txs (pending p) - Z.of_nat (length offs).
Proof.
  revert p. induction offs as [|a offs IH]; intros p Hp Hnd Hlen.
  { exists p. do 3 (split; [done|]). split; [done|]. split; [done|]. split; [|simpl; lia]. intros b. by rewrite decide_False by apply not_elem_of_nil. }
  apply NoDup_cons in Hnd as [Hn Hnd]. simpl. specialize (Hlen a ltac:(by left)) as Ha. unfold plen in Ha.
  destruct (exists_last (l := ptxs p a)) as (l & t & El); [by intros E; rewrite E in Ha; simpl in Ha; lia|].
  destruct (cap_one_ok D p a l t Hp El) as (p1 & -> & H1 & H2 & H3 & H4 & H5 & H6). rewrite some_bind.
  destruct (IH p1 H1 Hnd) as (p2 & -> & I1 & I2 & I3 & I4 & I5 & I6).
  { intros b Hb. unfold plen. rewrite H5, decide_False by (by intros ->). apply Hlen. by right. }
  exists p2. split; [done|]. split; [done|]. split; [by etrans|]. split; [congruence|]. split; [congruence|]. split; [|simpl; lia].
  intros b. rewrite I5. unfold plen. destruct (decide (b = a)) as [->|Hb].
  - rewrite decide_False, H5, decide_True by done. rewrite decide_True by (by left). rewrite El, length_app. simpl.
    replace (length l + 1 - 1)%nat with (length l) by lia. by rewrite take_app_length.
  - rewrite !H5, !(decide_False (P := b = a)) by done. destruct (decide (b ∈ offs)) as [Hin|Hin]; [by rewrite decide_True by (by right)|].
    by rewrite decide_False by (rewrite elem_of_cons; naive_solver).
Qed.

(** The leveling loop takes [k] from every offender, and leaves each at least
    [limit] of what it had. *)
Definition leveled p (offs : list Address) o limit p' : Prop :=
  rtc step p p' /\ queue p' = queue p /\ dom (pending p') = dom (pending p) /\
  exists k, (forall b, ptxs p' b = if decide (b ∈ offs) then take (plen p b - k) (ptxs p b) else ptxs p b) /\
    (k = 0%nat \/ limit <= Z.of_nat (plen p o) - Z.of_nat k) /\
    (count_txs (pending p') <= GlobalSlots (config p) \/ Z.of_nat (plen p o) - Z.of_nat k <= limit).

Lemma leveled_stop p offs o limit :
  count_txs (pending p) <= GlobalSlots (config p) \/ Z.of_nat (plen p o) <= limit -> leveled p offs o limit p.
Proof.
  intros H. do 3 (split; [done|]). exists 0%nat. split; [|split; [by left|by rewrite Z.sub_0_r] ].
  intros b. rewrite Nat.sub_0_r. unfold plen. rewrite take_ge by done. by case_decide.
Qed.

Lemma leveled_step p p1 p' offs o limit :
  rtc step p p1 -> queue p1 = queue p -> dom (pending p1) = dom (pending p) -> config p1 = config p -> o ∈ offs ->
  (forall a, a ∈ offs -> plen p a = plen p o) -> limit < Z.of_nat (plen p o) -> 0 <= limit ->
  (forall b, ptxs p1 b = if decide (b ∈ offs) then take (plen p b - 1) (ptxs p b) else ptxs p b) ->
  leveled p1 offs o limit p' -> leveled p offs o limit p'.
Proof.
  intros H1 H2 H3 Hc Ho Hoff Hlt Hlim H5 (I1 & I2 & I3 & k & I4 & I5 & I6). split; [by etrans|]. split; [congruence|]. split; [congruence|].
  assert (plen p1 o = (plen p o - 1)%nat) as Eo by (unfold plen at 1; rewrite H5, decide_True, length_take by done; unfold plen; lia).
  exists (S k). rewrite <-Hc. split; [|split; [right; destruct I5; lia|destruct I6; [by left|right; lia] ] ].
  intros b. rewrite I4, H5. case_decide as Eb; [|done]. rewrite take_take. f_equal. unfold plen at 1. rewrite H5, decide_True, length_take by done.
  unfold plen. lia.
Qed.

Lemma level_ok D fuel p (offs : list Address) o limit :
  pool_ok D [] p -> NoDup offs -> last offs = Some o -> (forall a, a ∈ offs -> a ∈ dom (pending p) /\ plen p a = plen p o) ->
  0 <= limit -> (plen p o <= fuel)%nat ->
  exists p', level fuel offs limit p (count_txs (pending p)) = Some (p', count_txs (pending p')) /\ pool_ok D [] p' /\ leveled p offs o limit p'.
Proof.
  revert p. induction fuel as [|fuel IH]; intros p Hp Hnd Hl Hoff Hlim Hf; cbn [level];
    (destruct (Z.ltb_spec (GlobalSlots (config p)) (count_txs (pending p))) as [Hgt|Hle];
      [|exists p; split; [done|]; split; [done|]; apply leveled_stop; by left]);
    pose proof (last_Some_elem_of _ _ Hl) as Ho; destruct (Hoff o Ho) as [[L HL]%elem_of_dom _]; rewrite Hl, some_bind, HL, some_bind, list_Len_ok;
    (assert (length (list_txs L) = plen p o) as -> by (unfold plen, ptxs; by rewrite (txs_at_Some _ _ _ HL)));
    (destruct (Z.ltb_spec limit (Z.of_nat (plen p o))) as [Hlt|Hge]; [|exists p; split; [done|]; split; [done|]; apply leveled_stop; by right]); [lia|].
  destruct (cap_each_ok D p offs Hp Hnd) as (p1 & -> & H1 & H2 & H3 & H4 & H5 & H6); [intros a Ha; destruct (Hoff a Ha); lia|]. rewrite some_bind, <-H6.
  pose proof (steps_env _ _ H2) as (Hc & _).
  assert (forall a, a ∈ offs -> plen p1 a = (plen p o - 1)%nat) as Hlen.
  { intros a Ha. unfold plen at 1. rewrite H5, decide_True, length_take by done. destruct (Hoff a Ha) as [_ E]. unfold plen in *. lia. }
  destruct (IH p1 H1 Hnd Hl) as (p2 & -> & I1 & I2); [|done|rewrite Hlen by done; lia|].
  { intros a Ha. rewrite H4, !Hlen by done. split; [|done]. by apply Hoff. }
  exists p2. split; [done|]. split; [done|]. eapply leveled_step; try done. intros a Ha. by apply Hoff.
Qed.

(** ** Equalizing *)

(** Against the pool [p0] every account keeps its first transactions, at least
    as many as its slots, and local accounts all of them. *)
Definition kept p0 p : Prop :=
  forall b, (exists n, ptxs p b = take n (ptxs p0 b)) /\ (contains (locals p0) b = true -> ptxs p b = ptxs p0 b) /\
    Z.min (Z.of_nat (plen p0 b)) (AccountSlots (config p0)) <= Z.of_nat (plen p b).

Record equal_ok p0 p (offs : list Address) (sp : list (Address * Z)) : Prop := mk_equal_ok {
  eo_env : same_env p0 p;
  eo_nodup : NoDup (offs ++ sp.*1);
  eo_account a : a ∈ offs ++ sp.*1 -> a ∈ dom (pending p) /\ contains (locals p0) a = false;
  eo_spam a q : (a, q) ∈ sp -> q = Z.of_nat (plen p a) /\ AccountSlots (config p0) < Z.of_nat (plen p a);
  eo_offs a : a ∈ offs -> AccountSlots (config p0) <= Z.of_nat (plen p a);
  eo_equal a b : GlobalSlots (config p0) < count_txs (pending p) -> a ∈ offs ->
    (b ∈ offs -> plen p b = plen p a) /\ (b ∈ sp.*1 -> (plen p b <= plen p a)%nat);
  eo_kept : kept p0 p
}.

Lemma kept_leveled p0 p p' offs o limit :
  same_env p0 p -> kept p0 p -> leveled p offs o limit p' -> AccountSlots (config p0) <= limit ->
  (forall a, a ∈ offs -> contains (locals p0) a = false /\ plen p a = plen p o) -> kept p0 p'.
Proof.
  intros He Hk (_ & _ & _ & k & H1 & H2 & H3) Hlim Hoff b. destruct (Hk b) as ((n & En) & Hl & Hm).
  unfold plen. rewrite H1. case_decide as Eb; [|split; [by eauto|by split] ]. destruct (Hoff b Eb) as [E1 E2]. split; [|split].
  - rewrite En, take_take. eauto.
  - by rewrite E1.
  - rewrite length_take. fold (plen p b) (plen p0 b). destruct H2 as [->|H2]; lia.
Qed.

(** One more spammer is popped and becomes an offender. *)
Lemma equalize_step D p0 p offs sp o sp1 pr :
  pool_ok D [] p -> equal_ok p0 p offs sp -> GlobalSlots (config p) < count_txs (pending p) ->
  sp ≡ₚ (o, pr) :: sp1 -> (forall b q, (b, q) ∈ sp -> q <= pr) -> 0 <= AccountSlots (config p0) ->
  exists p', (if (0 <? length offs)%nat then
                list ← pending p !! o;
                level (level_fuel p offs) offs (Z.of_nat (list_Len list)) p (count_txs (pending p))
              else Some (p, count_txs (pending p))) = Some (p', count_txs (pending p')) /\
    pool_ok D [] p' /\ rtc step p p' /\ queue p' = queue p /\ equal_ok p0 p' (offs ++ [o]) sp1.
Proof.
  intros Hp [He Hnd Hacc Hsp Hof Heq Hk] Hgt Hperm Hmax Has. pose proof He as (Ec & _). rewrite Ec in Hgt.
  assert (offs ++ sp.*1 ≡ₚ (offs ++ [o]) ++ sp1.*1) as Hp2 by (rewrite Hperm; simpl; by rewrite <-(assoc_L app)).
  assert ((o, pr) ∈ sp) as Hin by (rewrite Hperm; by left). destruct (Hsp o pr Hin) as [Epr Hlt].
  assert (o ∈ sp.*1) as Hin1 by (apply list_elem_of_fmap; by exists (o, pr)).
  destruct (Hacc o) as [[L HL]%elem_of_dom Hlo]; [apply elem_of_app; by right|].
  assert (forall a q, (a, q) ∈ sp1 -> (a, q) ∈ sp) as Hsub by (intros a q Haq; rewrite Hperm; by right).
  assert (forall b, b ∈ sp1.*1 -> (plen p b <= plen p o)%nat) as Hless.
  { intros b ([b' q] & -> & Hb)%list_elem_of_fmap. simpl. destruct (Hsp b' q (Hsub _ _ Hb)) as [Eq _]. specialize (Hmax b' q (Hsub _ _ Hb)). lia. }
  destruct (last offs) as [z|] eqn:Ez.
  2:{ apply last_None in Ez as ->. exists p. do 4 (split; [done|]). simpl. constructor; try done.
      - by rewrite <-Hp2.
      - intros a Ha. apply Hacc. by rewrite Hp2.
      - intros a q Ha. by apply Hsp, Hsub.
      - intros a [->|[]%elem_of_nil]%elem_of_cons. lia.
      - intros a b _ [->|[]%elem_of_nil]%elem_of_cons. split; [by intros [->|[]%elem_of_nil]%elem_of_cons|by apply Hless]. }
  pose proof (last_Some_elem_of _ _ Ez) as Hz. assert (0 <? length offs = true)%nat as -> by (destruct offs; [done|by apply Nat.ltb_lt; simpl; lia]).
  rewrite HL, some_bind, list_Len_ok. assert (length (list_txs L) = plen p o) as -> by (unfold plen, ptxs; by rewrite (txs_at_Some _ _ _ HL)).
  assert (level_fuel p offs = plen p z) as ->.
  { destruct (Hacc z) as [[Lz HLz]%elem_of_dom _]; [apply elem_of_app; by left|]. unfold level_fuel. rewrite Ez. simpl. rewrite HLz. simpl.
    rewrite list_Len_ok. unfold plen, ptxs. by rewrite (txs_at_Some _ _ _ HLz). }
  assert (forall a, a ∈ offs -> plen p a = plen p z) as Hall by (intros a Ha; by apply (Heq z a)).
  destruct (level_ok D (plen p z) p offs z (Z.of_nat (plen p o))) as (p' & -> & Hp' & Hlev);
    [done|by apply NoDup_app in Hnd as (? & _)|done| |lia|done|].
  { intros a Ha. split; [|by apply Hall]. apply Hacc, elem_of_app. by left. }
  exists p'. split; [done|]. split; [done|]. pose proof Hlev as (Hst & Hq & Hdom & k & H1 & H2 & H3). split; [done|]. split; [done|].
  assert (forall b, b ∉ offs -> ptxs p' b = ptxs p b) as Hsame by (intros b Hb; by rewrite H1, decide_False).
  assert (forall b, b ∈ sp.*1 -> b ∉ offs) as Hnot by (intros b Hb Hb'; apply NoDup_app in Hnd as (_ & Hd & _); by apply (Hd b)).
  assert (forall a, a ∈ offs -> plen p' a = (plen p z - k)%nat) as Hlen.
  { intros a Ha. unfold plen at 1. rewrite H1, decide_True, length_take by done. fold (plen p a). rewrite Hall by done. lia. }
  assert (forall b, b ∈ sp.*1 -> plen p' b = plen p b) as Hplen by (intros b Hb; unfold plen; by rewrite Hsame by (by apply Hnot)).
  assert (plen p o <= plen p z)%nat as Hoz by (by apply (Heq z o)).
  assert (forall b, b ∈ sp1.*1 -> b ∈ sp.*1) as Hsub1 by (intros b ([b' q] & -> & Hb)%list_elem_of_fmap; apply list_elem_of_fmap; exists (b', q); auto).
  constructor.
  - eapply same_env_trans; [done|by apply steps_env].
  - by rewrite <-Hp2.
  - intros a Ha. rewrite Hdom. apply Hacc. by rewrite Hp2.
  - intros a q Ha. rewrite Hplen by (apply Hsub1, list_elem_of_fmap; by exists (a, q)). by apply Hsp, Hsub.
  - intros a [Ha|[->|[]%elem_of_nil]%elem_of_cons]%elem_of_app; [rewrite Hlen by done; destruct H2; lia|rewrite Hplen by done; lia].
  - intros a b Hc Ha. rewrite <-Ec in Hc. assert (plen p z - k = plen p o)%nat as Ek by (destruct H2, H3; lia).
    assert (forall c, c ∈ offs ++ [o] -> plen p' c = plen p o) as Hcc.
    { intros c [Hc'|[->|[]%elem_of_nil]%elem_of_cons]%elem_of_app; [rewrite Hlen by done; lia|by rewrite Hplen by done]. }
    rewrite (Hcc a Ha). split; [apply Hcc|]. intros Hb. rewrite Hplen by (by apply Hsub1). by apply Hless.
  - eapply (kept_leveled p0 p p' offs z); [done|done|done|lia|]. intros a Ha. split; [|by apply Hall]. apply Hacc, elem_of_app. by left.
Qed.

Lemma equalize_ok D fuel p0 p offs sp :
  pool_ok D [] p -> equal_ok p0 p offs sp -> (length sp <= fuel)%nat -> 0 <= AccountSlots (config p0) ->
  exists p' offs' sp', equalize fuel sp offs p (count_txs (pending p)) = Some (offs', p', count_txs (pending p')) /\
    pool_ok D [] p' /\ rtc step p p' /\ queue p' = queue p /\ equal_ok p0 p' offs' sp' /\ offs ++ sp.*1 ≡ₚ offs' ++ sp'.*1 /\
    (count_txs (pending p') <= GlobalSlots (config p0) \/ sp' = []).
Proof.
  revert p offs sp. induction fuel as [|fuel IH]; intros p offs sp Hp Heq Hf Has; cbn [equalize]; pose proof (eo_env _ _ _ _ Heq) as (Ec & _).
  - destruct sp; [|simpl in Hf; lia]. rewrite andb_false_r. by exists p, offs, []; repeat (split; [by auto|]); auto.
  - destruct (Z.ltb_spec (GlobalSlots (config p)) (count_txs (pending p))) as [Hgt|Hle]; cbn [andb].
    2:{ rewrite Ec in Hle. by exists p, offs, sp; repeat (split; [by auto|]); auto. }
    case_bool_decide as Es; cbn [negb]; [subst; by exists p, offs, []; repeat (split; [by auto|]); auto|].
    destruct (prque_Pop_max sp Es) as (o & pr & sp1 & -> & Hperm & Hmax). rewrite some_bind.
    destruct (equalize_step D p0 p offs sp o sp1 pr) as (p1 & -> & H1 & H2 & H3 & H4); [done..|]. rewrite some_bind.
    apply Permutation_length in Hperm as Hlen. simpl in Hlen. destruct (IH p1 (offs ++ [o]) sp1) as (p2 & offs2 & sp2 & -> & I1 & I2 & I3 & I4 & I5 & I6); [done|done|lia|done|].
    exists p2, offs2, sp2. split; [done|]. split; [done|]. split; [by etrans|]. split; [congruence|]. split; [done|]. split; [|done].
    rewrite <-I5, Hperm. simpl. by rewrite <-(assoc_L app).
Qed.

(** Numbers of transactions of an account that [float32] represents. *)
Definition small p : Prop := forall a, contains (locals p) a = false -> Z.of_nat (plen p a) < 2 ^ 24.

Lemma float32_small z : z < 2 ^ 24 -> float32 z = z.
Proof. intros Hz. unfold float32, round_bits. by rewrite (proj2 (Z.ltb_lt _ _)). Qed.

Lemma plen_lookup p a L : pending p !! a = Some L -> list_Len L = plen p a.
Proof. intros HL. rewrite list_Len_ok. unfold plen, ptxs. by rewrite (txs_at_Some _ _ _ HL). Qed.

Lemma elem_spammers p a q :
  (a, q) ∈ spammers_of p <-> a ∈ dom (pending p) /\ contains (locals p) a = false /\
    AccountSlots (config p) < Z.of_nat (plen p a) /\ q = float32 (Z.of_nat (plen p a)).
Proof.
  unfold spammers_of. rewrite list_elem_of_fmap, elem_of_dom. split.
  - intros ([a' L] & [= -> ->] & [Hs Hin]%list_elem_of_filter). rewrite range_is_perm in Hin. apply elem_of_map_to_list in Hin. simpl in *.
    unfold is_spammer in Hs. apply andb_true_iff in Hs as [H1%negb_true_iff H2%Z.ltb_lt]. simpl in *. rewrite (plen_lookup _ _ _ Hin) in *. eauto.
  - intros ([L HL] & H1 & H2 & ->). exists (a, L). simpl. rewrite (plen_lookup _ _ _ HL). split; [done|]. apply list_elem_of_filter.
    rewrite range_is_perm. split; [|by apply elem_of_map_to_list]. unfold is_spammer. simpl. rewrite (plen_lookup _ _ _ HL), H1. simpl. by apply Z.ltb_lt.
Qed.

Lemma spammers_equal p : 0 <= AccountSlots (config p) -> small p -> equal_ok p p [] (spammers_of p).
Proof.
  intros Has Hsm. constructor; simpl.
  - done.
  - unfold spammers_of. rewrite <-list_fmap_compose. assert (NoDup (range (pending p)).*1) as Hnd by (rewrite range_is_perm; apply NoDup_fst_map_to_list).
    revert Hnd. generalize (range (pending p)). intros l Hnd. induction l as [|[b L] l IH]; simpl; [constructor|].
    apply NoDup_cons in Hnd as [Hn Hnd]. rewrite filter_cons. case_decide; [|by apply IH]. simpl. constructor; [|by apply IH].
    intros ([c L'] & E & [_ Hc]%list_elem_of_filter)%list_elem_of_fmap. simpl in E. subst. apply Hn, list_elem_of_fmap. by exists (c, L').
  - intros a ([a' q] & -> & (H1 & H2 & _)%elem_spammers)%list_elem_of_fmap. done.
  - intros a q (H1 & H2 & H3 & ->)%elem_spammers. by rewrite float32_small by (by apply Hsm).
  - by intros a ?%elem_of_nil.
  - by intros a b _ ?%elem_of_nil.
  - intros b. split; [exists (length (ptxs p b)); by rewrite take_ge|]. split; [done|]. lia.
Qed.

Lemma truncate_pending_ok D p :
  pool_ok D [] p -> 0 <= AccountSlots (config p) -> small p ->
  exists p', truncate_pending p = Some p' /\ pool_ok D [] p' /\ rtc step p p' /\ queue p' = queue p /\ kept p p' /\
    (count_txs (pending p') <= GlobalSlots (config p) \/
     forall a, contains (locals p) a = false -> Z.of_nat (plen p' a) <= AccountSlots (config p)).
Proof.
  intros Hp Has Hsm. pose proof (spammers_equal p Has Hsm) as Heq. unfold truncate_pending.
  destruct (Z.ltb_spec (GlobalSlots (config p)) (count_txs (pending p))) as [Hgt|Hle].
  2:{ exists p. do 4 (split; [done|]). split; [apply Heq|by left]. }
  destruct (equalize_ok D (length (spammers_of p)) p p [] (spammers_of p) Hp Heq ltac:(done) Has) as (p1 & offs & sp & -> & H1 & H2 & H3 & H4 & H5 & H6).
  rewrite some_bind. pose proof H4 as [He Hnd Hacc Hsp Hof Heq1 Hk]. pose proof He as (Ec & _ & _ & El & _).
  assert (forall a, contains (locals p) a = false -> a ∉ offs ++ sp.*1 -> Z.of_nat (plen p1 a) <= AccountSlots (config p)) as Hrest.
  { intros a Ha Hn. destruct (Hk a) as ((n & En) & _). rewrite <-H5 in Hn. simpl in Hn.
    destruct (Z.le_gt_cases (Z.of_nat (plen p a)) (AccountSlots (config p))) as [Hl|Hg].
    - unfold plen. rewrite En, length_take. unfold plen in Hl. lia.
    - exfalso. apply Hn, list_elem_of_fmap. exists (a, float32 (Z.of_nat (plen p a))). split; [done|]. apply elem_spammers. split; [|done].
      apply elem_of_dom. destruct (pending p !! a) eqn:E; [by eexists|]. unfold plen, ptxs, txs_at in Hg. rewrite E in Hg. simpl in Hg. lia. }
  rewrite Ec. destruct (Z.ltb_spec (GlobalSlots (config p)) (count_txs (pending p1))) as [Hgt1|Hle1]; cbn [andb].
  2:{ exists p1. do 4 (split; [done|]). split; [done|by left]. }
  destruct H6 as [?| ->]; [lia|]. destruct (last offs) as [z|] eqn:Ez.
  2:{ apply last_None in Ez as ->. exists p1. do 4 (split; [done|]). split; [done|]. right. intros a Ha. apply Hrest; [done|]. apply not_elem_of_nil. }
  pose proof (last_Some_elem_of _ _ Ez) as Hz. assert (0 <? length offs = true)%nat as -> by (destruct offs; [done|by apply Nat.ltb_lt; simpl; lia]).
  assert (level_fuel p1 offs = plen p1 z) as ->.
  { destruct (Hacc z) as [[Lz HLz]%elem_of_dom _]; [apply elem_of_app; by left|]. unfold level_fuel. rewrite Ez. simpl. rewrite HLz. simpl. by apply plen_lookup. }
  assert (forall a, a ∈ offs -> plen p1 a = plen p1 z) as Hall by (intros a Ha; by apply (Heq1 z a)). simpl in Hnd. rewrite (right_id_L [] app) in Hnd.
  destruct (level_ok D (plen p1 z) p1 offs z (AccountSlots (config p))) as (p2 & -> & Hp2 & Hlev); [done|done|done| |done|done|].
  { intros a Ha. split; [|by apply Hall]. apply Hacc, elem_of_app. by left. }
  exists p2. split; [done|]. split; [done|]. pose proof Hlev as (Hst & Hq & Hdom & k & L1 & L2 & L3). split; [by etrans|]. split; [congruence|].
  split; [eapply (kept_leveled p p1 p2 offs z); try done; intros a Ha; split; [apply Hacc, elem_of_app; by left|by apply Hall]|].
  destruct L3 as [L3|L3]; [left; by rewrite <-Ec|right]. intros a Ha. unfold plen. rewrite L1. case_decide as Eo.
  - rewrite length_take, Hall by done. lia.
  - apply Hrest; [done|]. simpl. by rewrite (right_id_L [] app).
Qed.

(** ** Dropping queued transactions *)

Lemma sum_list_with_ext {A} (f g : A -> nat) (l : list A) :
  (forall y, y ∈ l -> f y = g y) -> sum_list_with f l = sum_list_with g l.
Proof. induction l as [|z l IH]; intros H; [done|]. simpl. rewrite H by (by left). f_equal. apply IH. intros y Hy. apply H. by right. Qed.

(** The count only depends on the transactions. *)
Lemma count_over (m : gmap Address txList) (S : gset Address) :
  dom m ⊆ S -> count_txs m = Z.of_nat (sum_list_with (fun a => length (txs_at m a)) (elements S)).
Proof.
  revert S. induction m as [|a L m Hn IH] using map_ind; intros S HS.
  - rewrite count_perm, map_to_list_empty. simpl. f_equal. induction (elements S) as [|a l IHl]; [done|]. simpl. rewrite <-IHl. done.
  - rewrite dom_insert_L in HS. rewrite pending_count_insert. unfold txs_at at 1. rewrite Hn. rewrite (IH (S ∖ {[a]})).
    2:{ intros b Hb. apply elem_of_difference. split; [set_solver|]. rewrite elem_of_singleton. intros ->. by apply elem_of_dom in Hb as [? ?]; simplify_eq. }
    assert (S = {[a]} ∪ S ∖ {[a]}) as ES by (apply set_eq; intros b; destruct (decide (b = a)); set_solver).
    rewrite ES at 2. rewrite elements_union_singleton by set_solver. simpl. rewrite txs_at_insert, decide_True by done.
    rewrite (sum_list_with_ext (fun b => length (txs_at (<[a := L]> m) b)) (fun b => length (txs_at m b))); [lia|]. intros b Hb. rewrite txs_at_insert, decide_False; [done|].
    intros ->. apply elem_of_elements in Hb. set_solver.
Qed.

Lemma count_update (m m' : gmap Address txList) a l :
  (forall b, txs_at m' b = if decide (b = a) then l else txs_at m b) ->
  count_txs m' = count_txs m - Z.of_nat (length (txs_at m a)) + Z.of_nat (length l).
Proof.
  intros H. set (S := dom m ∪ dom m' ∪ {[a]} : gset Address). rewrite (count_over m S), (count_over m' S) by set_solver.
  assert (S = {[a]} ∪ S ∖ {[a]}) as ES by (apply set_eq; intros b; destruct (decide (b = a)); set_solver).
  rewrite ES. rewrite elements_union_singleton by set_solver. simpl. rewrite H, decide_True by done.
  rewrite (sum_list_with_ext (fun b => length (txs_at m' b)) (fun b => length (txs_at m b))); [lia|]. intros b Hb. rewrite H, decide_False; [done|].
  intros ->. apply elem_of_elements in Hb. set_solver.
Qed.

Lemma count_same (m m' : gmap Address txList) : (forall b, txs_at m' b = txs_at m b) -> count_txs m' = count_txs m.
Proof.
  intros H. rewrite (count_over m (dom m ∪ dom m')), (count_over m' (dom m ∪ dom m')) by set_solver. f_equal.
  apply sum_list_with_ext. intros b _. by rewrite H.
Qed.

Lemma filter_drop_one l t :
  ascending tx_Nonce l -> t ∈ l -> length l = S (length (filter (fun u => tx_Nonce u <> tx_Nonce t) l)).
Proof.
  intros Hs Ht. rewrite <-(filter_app_complement (fun u => tx_Nonce u <> tx_Nonce t) l) at 1. rewrite length_app.
  assert (filter (fun u => ~ tx_Nonce u <> tx_Nonce t) l = [t]) as ->; [|simpl; lia].
  apply Permutation_singleton_r, NoDup_Permutation; [by apply NoDup_filter, sorted_NoDup|apply NoDup_singleton|].
  intros u. rewrite list_elem_of_filter, list_elem_of_singleton. split; [|intros ->; split; [lia|done] ].
  intros [E Hu]. eapply same_nonce_eq; try done. lia.
Qed.

(** Removing transactions of the queue of one account. *)
Lemma remove_queued D p a ts :
  pool_ok D [] p -> NoDup ts -> (forall t, t ∈ ts -> t ∈ qtxs p a) ->
  exists p', each (fun t => removeTx (tx_Hash t)) ts p = Some p' /\ pool_ok D [] p' /\ rtc step p p' /\
    (forall b, ptxs p' b = ptxs p b) /\ (forall b, b <> a -> qtxs p' b = qtxs p b /\ queue p' !! b = queue p !! b) /\
    (forall t, t ∈ qtxs p' a <-> t ∈ qtxs p a /\ t ∉ ts) /\ count_txs (queue p') = count_txs (queue p) - Z.of_nat (length ts).
Proof.
  revert p. induction ts as [|t ts IH]; intros p Hp Hnd Hsub; simpl.
  { exists p. do 3 (split; [done|]). split; [done|]. split; [done|]. split; [|lia]. intros t. split; [|by intros [? _] ]. intros Ht. split; [done|]. by intros ?%elem_of_nil. }
  apply NoDup_cons in Hnd as [Hn Hnd]. specialize (Hsub t ltac:(by left)) as Ht.
  destruct (ok_member _ _ _ Hp a t) as [Hs [[]%elem_of_nil|Ha] ]; [by auto|].
  destruct (removeTx_ok D D p t Hp ltac:(by auto)) as (p1 & -> & H1 & H2 & H3 & H4). rewrite some_bind, Ha in *.
  assert (rtc step p p1) as Hst by (eapply step_once; [done|done|done|]; apply (move_removed _ _ t); [by rewrite Ha|done]).
  unfold removed_at in H4. assert (sender t = a) as Es by (unfold sender; by rewrite Hs). rewrite Es in H4. destruct H4 as [H4 H5].
  rewrite decide_False in H5.
  2:{ intros (u & Eu & Hu)%list_elem_of_fmap. by apply (ok_disjoint _ _ _ Hp a u t Hu Ht). }
  destruct H5 as (H5 & H6 & H7). assert (ascending tx_Nonce (qtxs p a)) as Hsort by (eapply txs_at_sorted, Hp).
  assert (forall u, u ∈ qtxs p1 a <-> u ∈ qtxs p a /\ u <> t) as Hin.
  { intros u. rewrite H7, list_elem_of_filter. split; [intros [E Hu]; split; [done|by intros ->]|]. intros [Hu Hne]. split; [|done].
    intros E. apply Hne. by eapply same_nonce_eq. }
  assert (count_txs (queue p1) = count_txs (queue p) - 1) as Hcount.
  { rewrite (count_update (queue p) (queue p1) a (qtxs p1 a)).
    - unfold qtxs in *. rewrite (filter_drop_one _ t Hsort Ht), <-H7. lia.
    - intros b. case_decide as Eb; [by subst|]. by apply H4. }
  destruct (IH p1 H1 Hnd) as (p2 & -> & I1 & I2 & I3 & I4 & I5 & I6).
  { intros u Hu. apply Hin. split; [apply Hsub; by right|]. by intros ->. }
  exists p2. split; [done|]. split; [done|]. split; [by etrans|]. split.
  { intros b. rewrite I3. destruct (decide (b = a)) as [->|Hb]; [done|by apply H4]. }
  split; [intros b Hb; destruct (I4 b Hb) as [-> ->]; destruct (H4 b Hb) as (_ & -> & _ & ->); done|].
  split; [|simpl; lia]. intros u. rewrite I5, Hin, not_elem_of_cons. naive_solver.
Qed.

(** Flattening a list only fills its cache. *)
Lemma put_queue_same D p a L L' :
  pool_ok D [] p -> queue p !! a = Some L -> list_ok L' -> strict L' = false -> list_txs L' = list_txs L ->
  pool_ok D [] (put_queue p a L') /\ rtc step p (put_queue p a L') /\ (forall b, qtxs (put_queue p a L') b = qtxs p b).
Proof.
  intros Hp HL H1 H2 H3. assert (pool_ok D [] (put_queue p a L')) as Hp' by (eapply put_queue_sub; try done; by rewrite H3).
  assert (forall b, qtxs (put_queue p a L') b = qtxs p b) as Hq.
  { intros b. unfold qtxs, put_queue. simpl. rewrite txs_at_insert. case_decide as E; [|done]. subst. by rewrite H3, (txs_at_Some _ _ _ HL). }
  split; [done|]. split; [|done]. eapply step_once; [done|done|done|]. apply move_same. intros b. by rewrite Hq.
Qed.

Lemma put_pending_same D p a L L' :
  pool_ok D [] p -> pending p !! a = Some L -> list_ok L' -> strict L' = true -> list_txs L' = list_txs L ->
  pool_ok D [] (put_pending p a L') /\ rtc step p (put_pending p a L') /\ (forall b, ptxs (put_pending p a L') b = ptxs p b).
Proof.
  intros Hp HL H1 H2 H3. assert (pool_ok D [] (put_pending p a L')) as Hp' by (eapply put_pending_sub; try done; by rewrite H3).
  assert (forall b, ptxs (put_pending p a L') b = ptxs p b) as Hq.
  { intros b. unfold ptxs, put_pending. simpl. rewrite txs_at_insert. case_decide as E; [|done]. subst. by rewrite H3, (txs_at_Some _ _ _ HL). }
  split; [done|]. split; [|done]. eapply step_once; [done|done|done|]. apply move_same. intros b. by rewrite Hq.
Qed.

(** What dropping from the queues of [addrs] leaves. *)
Definition dequeued p (addrs : list Address) (drop : Z) p' : Prop :=
  rtc step p p' /\ (forall b, ptxs p' b = ptxs p b) /\ (forall b, b ∉ addrs -> qtxs p' b = qtxs p b) /\
  (count_txs (queue p') = count_txs (queue p) - drop \/ forall a, a ∈ addrs -> qtxs p' a = []).

Lemma take_reverse_sub k l t : t ∈ take k (reverse l) -> t ∈ l.
Proof. intros (i & Hi & _)%elem_of_take. by eapply elem_of_reverse, list_elem_of_lookup_2. Qed.

Lemma drop_queued_ok D addrs dropn p :
  pool_ok D [] p -> NoDup addrs -> (forall a, a ∈ addrs -> is_Some (queue p !! a)) -> 0 <= dropn ->
  exists p', drop_queued addrs dropn p = Some p' /\ pool_ok D [] p' /\ dequeued p addrs dropn p'.
Proof.
  revert dropn p. induction addrs as [|a addrs IH]; intros dropn p Hp Hnd Hdom Hd; cbn [drop_queued].
  { exists p. do 2 (split; [done|]). do 3 (split; [done|]). right. by intros a ?%elem_of_nil. }
  destruct (Z.leb_spec dropn 0) as [H0|H0].
  { exists p. do 2 (split; [done|]). do 3 (split; [done|]). left. lia. }
  apply NoDup_cons in Hnd as [Hn Hnd]. destruct (Hdom a ltac:(by left)) as [L HL]. rewrite HL, some_bind.
  destruct (ok_queue _ _ _ Hp a L HL) as [L1 L2]. destruct (list_Flatten_ok L L1) as (L' & -> & F1 & F2 & F3). rewrite list_Len_ok.
  destruct (put_queue_same D p a L L') as (P1 & P2 & P3); [done|done|done|congruence|done|]. set (p1 := put_queue p a L') in *.
  assert (qtxs p a = list_txs L) as Eq by (unfold qtxs; by apply txs_at_Some). rewrite <-Eq.
  assert (NoDup (qtxs p a)) as Hqnd by (eapply sorted_NoDup, txs_at_sorted, Hp).
  assert (count_txs (queue p1) = count_txs (queue p)) as Hc1 by (by apply count_same).
  assert (forall b, b ∈ addrs -> is_Some (queue p1 !! b)) as Hdom1.
  { intros b Hb. unfold p1, put_queue. simpl. rewrite lookup_insert_ne by (by intros ->). apply Hdom. by right. }
  destruct (Z.leb_spec (Z.of_nat (length (qtxs p a))) dropn) as [Hle|Hgt].
  - destruct (remove_queued D p1 a (qtxs p a) P1 Hqnd) as (p2 & -> & R1 & R2 & R3 & R4 & R5 & R6); [intros t; by rewrite P3|]. rewrite some_bind.
    assert (qtxs p2 a = []) as Ee by (apply elem_of_nil_inv; intros t [Ht Hn']%R5; rewrite P3 in Ht; done).
    destruct (IH (dropn - Z.of_nat (length (qtxs p a))) p2 R1 Hnd) as (p3 & -> & I1 & I2 & I3 & I4 & I5); [|lia|].
    { intros b Hb. destruct (R4 b) as [_ ->]; [by intros ->|]. by apply Hdom1. }
    exists p3. split; [done|]. split; [done|]. split; [by etrans; [done|]; etrans|]. split; [intros b; by rewrite I3, R3|].
    split; [intros b [Hb1 Hb2]%not_elem_of_cons; rewrite I4 by done; destruct (R4 b Hb1) as [-> _]; by rewrite P3|].
    destruct I5 as [I5|I5]; [left; lia|right]. intros b [->|Hb]%elem_of_cons; [by rewrite I4|by apply I5].
  - destruct (remove_queued D p1 a (take (Z.to_nat dropn) (reverse (qtxs p a))) P1) as (p2 & -> & R1 & R2 & R3 & R4 & R5 & R6).
    { eapply sublist_NoDup; [|by apply sublist_take]. by rewrite reverse_Permutation. }
    { intros t Ht%take_reverse_sub. by rewrite P3. }
    rewrite some_bind. assert (drop_queued addrs 0 p2 = Some p2) as -> by (by destruct addrs).
    exists p2. split; [done|]. split; [done|]. split; [by etrans|]. split; [done|].
    split; [intros b [Hb1 Hb2]%not_elem_of_cons; destruct (R4 b Hb1) as [-> _]; by rewrite P3|].
    left. rewrite R6, length_take, length_reverse. lia.
Qed.

Lemma truncate_queue_ok D p :
  pool_ok D [] p ->
  exists p', truncate_queue p = Some p' /\ pool_ok D [] p' /\ rtc step p p' /\ (forall b, ptxs p' b = ptxs p b) /\
    (forall b, contains (locals p) b = true -> qtxs p' b = qtxs p b) /\
    (count_txs (queue p') <= GlobalQueue (config p) \/ forall a, contains (locals p) a = false -> qtxs p' a = []).
Proof.
  intros Hp. unfold truncate_queue. destruct (Z.ltb_spec (GlobalQueue (config p)) (count_txs (queue p))) as [Hgt|Hle].
  2:{ exists p. do 5 (split; [done|]). by left. }
  set (addrs := reverse _). assert (addrs ≡ₚ filter (fun a => contains (locals p) a = false) (range (queue p)).*1) as Hperm.
  { unfold addrs. rewrite reverse_Permutation, sort_Sort_perm, <-list_fmap_compose. by rewrite list_fmap_id. }
  assert (forall a, a ∈ addrs <-> contains (locals p) a = false /\ is_Some (queue p !! a)) as Hin.
  { intros a. rewrite Hperm, list_elem_of_filter, list_elem_of_fmap. f_equiv. split.
    - intros ([a' L] & -> & Ha). rewrite range_is_perm in Ha. apply elem_of_map_to_list in Ha. by eexists.
    - intros [L HL]. exists (a, L). rewrite range_is_perm. split; [done|by apply elem_of_map_to_list]. }
  destruct (drop_queued_ok D addrs (count_txs (queue p) - GlobalQueue (config p)) p Hp) as (p' & -> & H1 & H2 & H3 & H4 & H5).
  - rewrite Hperm. apply NoDup_filter. rewrite range_is_perm. apply NoDup_fst_map_to_list.
  - intros a Ha. by apply Hin.
  - lia.
  - exists p'. do 4 (split; [done|]). split; [intros b Hb; apply H4; rewrite Hin; intros [E _]; congruence|].
    destruct H5 as [H5|H5]; [left; lia|right]. intros a Ha. destruct (queue p !! a) as [L|] eqn:E; [apply H5, Hin; split; [done|by rewrite E]|].
    rewrite H4; [unfold qtxs, txs_at; by rewrite E|]. rewrite Hin, E. by intros [_ [] ].
Qed.

(** ** [promoteExecutables] *)

(** The transactions of accounts that are not local. *)
Definition remotes p : gmap Hash tx := filter (fun ht => containsTx (locals p) ht.2 = false) (all p).

Lemma remotes_env p p' : same_env p p' -> (size (remotes p') <= size (remotes p))%nat.
Proof.
  intros (_ & _ & _ & El & Hs). unfold remotes. rewrite El. apply map_subseteq_size. by apply map_filter_subseteq_mono.
Qed.

Lemma remote_sender p a t : contains (locals p) a = false -> tx_Sender t = Some a -> containsTx (locals p) t = false.
Proof. intros H1 H2. unfold containsTx. by rewrite H2. Qed.

Lemma plen_remotes D p a : pool_ok D [] p -> contains (locals p) a = false -> (plen p a <= size (remotes p))%nat.
Proof.
  intros Hp Ha. assert (NoDup (ptxs p a)) as Hnd by (eapply sorted_NoDup, txs_at_sorted, Hp).
  assert (NoDup (tx_Hash <$> ptxs p a)) as Hnd' by (by apply (NoDup_fmap_2 tx_Hash)).
  unfold plen. rewrite <-(length_fmap tx_Hash (ptxs p a)), <-(size_list_to_set (C := gset Hash) _ Hnd'), <-size_dom.
  apply subseteq_size. intros h (t & -> & Ht)%elem_of_list_to_set%list_elem_of_fmap. apply elem_of_dom. exists t.
  destruct (ok_member _ _ _ Hp a t) as [Hs [[]%elem_of_nil|Hal] ]; [by auto|]. apply map_lookup_filter_Some. split; [done|]. by eapply remote_sender.
Qed.

Record bounded p : Prop := mk_bounded {
  bd_queue : config_ok (config p);
  bd_slots : 0 <= AccountSlots (config p);
  bd_remotes : Z.of_nat (size (remotes p)) < 2 ^ 24
}.

Lemma bounded_env p p' : same_env p p' -> bounded p -> bounded p'.
Proof. intros He []. pose proof (remotes_env _ _ He). destruct He as (Ec & _). constructor; [by rewrite Ec|by rewrite Ec|lia]. Qed.

Lemma bounded_small D p : pool_ok D [] p -> bounded p -> small p.
Proof. intros Hp [_ _ Hb] a Ha. pose proof (plen_remotes D p a Hp Ha). lia. Qed.

(** Not too many transactions, or none that may be dropped. *)
Definition limited p : Prop :=
  (count_txs (pending p) <= GlobalSlots (config p) \/
   forall a, contains (locals p) a = false -> Z.of_nat (plen p a) <= AccountSlots (config p)) /\
  (count_txs (queue p) <= GlobalQueue (config p) \/ forall a, contains (locals p) a = false -> qtxs p a = []).

Lemma promote_each_ok D p (accounts : list Address) :
  pool_ok D [] p -> bounded p -> exists p', each promote_account accounts p = Some p' /\ pool_ok D [] p' /\ rtc step p p'.
Proof.
  revert p. induction accounts as [|a accounts IH]; intros p Hp Hb; simpl; [by exists p|].
  destruct (promote_account_ok D p a Hp (bd_queue _ Hb)) as (p1 & -> & H1 & H2 & H3). rewrite some_bind.
  destruct (IH p1 H1) as (p2 & -> & I1 & I2); [by eapply bounded_env|]. exists p2. split; [done|]. split; [done|].
  etrans; [|done]. eapply step_once; [done|done|done|]. by apply (move_promoted _ _ a).
Qed.

Lemma truncate_ok D p :
  pool_ok D [] p -> bounded p ->
  exists p1 p2, truncate_pending p = Some p1 /\ truncate_queue p1 = Some p2 /\ pool_ok D [] p2 /\ rtc step p p2 /\ kept p p2 /\ limited p2 /\
    forall a, contains (locals p) a = true -> qtxs p2 a = qtxs p a.
Proof.
  intros Hp Hb. destruct (truncate_pending_ok D p Hp (bd_slots _ Hb) (bounded_small D p Hp Hb)) as (p1 & -> & H1 & H2 & H3 & H4 & H5).
  destruct (truncate_queue_ok D p1 H1) as (p2 & E2 & Q1 & Q2 & Q3 & Q4 & Q5). exists p1, p2. split; [done|]. split; [done|]. split; [done|].
  split; [by etrans|]. pose proof (steps_env _ _ H2) as (Ec & _ & _ & El & _). pose proof (steps_env _ _ Q2) as (Ec2 & _ & _ & El2 & _).
  split; [intros b; unfold plen; rewrite Q3; apply H4|]. split.
  - unfold limited. rewrite Ec2, El2, Ec, El. rewrite Ec, El in Q5. split; [|done].
    rewrite (count_same (pending p1) (pending p2)) by done. destruct H5 as [?|H5]; [by left|right]. intros a Ha. unfold plen. rewrite Q3. by apply H5.
  - intros a Ha. rewrite Q4 by (by rewrite El). unfold qtxs. by rewrite H3.
Qed.

Lemma promoteExecutables_ok D accounts p :
  pool_ok D [] p -> bounded p ->
  exists p', promoteExecutables accounts p = Some p' /\ pool_ok D [] p' /\ rtc step p p' /\ limited p'.
Proof.
  intros Hp Hb. unfold promoteExecutables. destruct (promote_each_ok D p (match accounts with Some l => l | None => (range (queue p)).*1 end) Hp Hb) as (p1 & -> & H1 & H2).
  rewrite some_bind. destruct (truncate_ok D p1 H1) as (p2 & p3 & -> & E3 & T1 & T2 & _ & T4 & _); [eapply bounded_env; [by apply steps_env|done]|].
  rewrite some_bind. exists p3. split; [done|]. split; [done|]. split; [by etrans|done].
Qed.

(** C27: the pool enforces its limits and keeps its guarantees.  On a
    consistent pool with fewer than [2 ^ 24] transactions of accounts that are
    not local, [promoteExecutables] first promotes what is ready of the given
    accounts, or of all, which is the pool [p1], and ends without panic in a
    pool [p2] where at most [GlobalSlots] transactions are pending, or no
    account but local ones has more than its [AccountSlots]; and at most
    [GlobalQueue] are queued, or only local ones are.  From [p1] to [p2] accounts
    lose their last pending transactions only, never fewer than [AccountSlots]
    are left to them, and local accounts lose nothing. *)
Theorem pool_limits accounts p :
  pool_ok [] [] p -> bounded p ->
  exists p1 p2, each promote_account (match accounts with Some l => l | None => (range (queue p)).*1 end) p = Some p1 /\
    promoteExecutables accounts p = Some p2 /\ limited p2 /\
    (forall a, (exists n, ptxs p2 a = take n (ptxs p1 a)) /\
       Z.min (Z.of_nat (plen p1 a)) (AccountSlots (config p)) <= Z.of_nat (plen p2 a)) /\
    (forall a, contains (locals p) a = true -> ptxs p2 a = ptxs p1 a /\ qtxs p2 a = qtxs p1 a).
Proof.
  intros Hp Hb. unfold promoteExecutables. cbv zeta. set (accts := match accounts with Some _ => _ | None => _ end).
  destruct (promote_each_ok [] p accts Hp Hb) as (p1 & E1 & H1 & H2). rewrite E1, some_bind.
  pose proof (steps_env _ _ H2) as He. pose proof He as (Ec & _ & _ & El & _).
  destruct (truncate_ok [] p1 H1 (bounded_env _ _ He Hb)) as (q & p2 & E2 & E3 & _ & _ & Hk & Hl & Hq). rewrite E2, some_bind.
  exists p1, p2. split; [done|]. split; [done|]. split; [done|]. rewrite <-Ec, <-El.
  split; intros a; [|intros Ha]; destruct (Hk a) as (K1 & K2 & K3); [done|]. split; [by apply K2|by apply Hq].
Qed.

End Limits.
