(* ===== verification/TxPoolAdd.v ===== *)
(** * Adding transactions to the pool

    [add] and its callers keep the invariant and do not panic, and the number
    of transactions of accounts that are not local stays below the sum of the
    limits. *)
From S2P Require Import Vm StateTransition.
From S2P Require Import Prelude Types Heap TxList TxPriced ManagedState TxPool TxPoolInv TxPoolLimits.

Section Add.
Context {TX : Transaction} {RO : RangeOrder} {PE : PoolEnv}.
Implicit Types (p : TxPool) (t u x : tx) (a addr : Address) (ts l D X : list tx).

(** ** Making room *)

Lemma set_priced_ok D D' X p pl : pool_ok D X p -> priced_ok D' (all p) pl -> pool_ok D' X (set_priced p pl).
Proof. intros [H1 H2 H3 H4 H5 H6 H7 H8 H9] Hpl. by constructor. Qed.

Lemma set_priced_step D D' p pl : pool_ok D [] p -> priced_ok D' (all p) pl -> pool_ok D' [] (set_priced p pl) /\ rtc step p (set_priced p pl).
Proof.
  intros Hp Hpl. pose proof (set_priced_ok D D' [] p pl Hp Hpl) as Hp'. split; [done|]. eapply step_once; [done|done|done|]. by apply move_same.
Qed.

(** Removing transactions, of which some are not in the price heap. *)
Lemma remove_each_ok D p ts :
  pool_ok D [] p -> (forall u, u ∈ D -> u ∈ ts) ->
  exists p', each (fun t => removeTx (tx_Hash t)) ts p = Some p' /\ pool_ok [] [] p' /\ rtc step p p' /\
    forall t, t ∈ ts -> all p' !! tx_Hash t = None.
Proof.
  revert D p. induction ts as [|t ts IH]; intros D p Hp HD; simpl.
  - exists p. split; [done|]. assert (D = []) as -> by (apply elem_of_nil_inv; intros u Hu; by apply HD, elem_of_nil in Hu).
    split; [done|]. split; [done|]. by intros t ?%elem_of_nil.
  - set (D' := filter (fun u => u <> t) D). destruct (removeTx_ok D D' p t Hp) as (p1 & -> & H1 & H2 & H3 & H4).
    { intros u Hu. destruct (decide (u = t)); [by left|right]. by apply list_elem_of_filter. }
    rewrite some_bind. destruct (IH D' p1 H1) as (p2 & -> & I1 & I2 & I3).
    { intros u [Hne Hu]%list_elem_of_filter. apply HD in Hu as [->|?]%elem_of_cons; done. }
    exists p2. split; [done|]. split; [done|]. split.
    + etrans; [|done]. destruct (all p !! tx_Hash t) eqn:Et; [|by rewrite H4].
      eapply step_once; [done|done|done|]. apply (move_removed _ _ t); [by rewrite Et|done].
    + intros u [->|Hu]%elem_of_cons; [|by apply I3]. pose proof (steps_env _ _ I2) as (_ & _ & _ & _ & Hs).
      destruct (all p2 !! tx_Hash t) as [v|] eqn:Ev; [|done]. eapply lookup_weaken in Ev; [|done]. rewrite H3, lookup_delete_eq in Ev. done.
Qed.

Definition limit (c : TxPoolConfig) : Z := GlobalSlots c + GlobalQueue c.

(** The configurations the theorems are about; the defaults are far below. *)
Record config_good (c : TxPoolConfig) : Prop := mk_config_good {
  cg_queue : config_ok c;
  cg_account : 0 <= AccountSlots c;
  cg_slots : 0 <= GlobalSlots c;
  cg_global : 0 <= GlobalQueue c;
  cg_limit : limit c < 2 ^ 24
}.

Record good p : Prop := mk_good {
  gd_pool : pool_ok [] [] p;
  gd_config : config_good (config p);
  gd_remotes : Z.of_nat (size (remotes p)) <= Z.max 1 (limit (config p))
}.

Lemma good_bounded p : good p -> bounded p.
Proof. intros [H1 [] H3]. constructor; [done|done|lia]. Qed.

Lemma good_steps p p' : good p -> pool_ok [] [] p' -> rtc step p p' -> good p'.
Proof.
  intros [H1 H2 H3] Hp He%steps_env. pose proof (remotes_env _ _ He). destruct He as (Ec & _).
  constructor; [done|by rewrite Ec|rewrite Ec; lia].
Qed.

Lemma remotes_shrink p p' t :
  same_env p p' -> remotes p !! tx_Hash t = Some t -> all p' !! tx_Hash t = None -> (size (remotes p') < size (remotes p))%nat.
Proof.
  intros (_ & _ & _ & El & Hs) Ht Hn. apply map_subset_size. apply map_subset_alt. split.
  - unfold remotes. rewrite El. by apply map_filter_subseteq_mono.
  - exists (tx_Hash t). rewrite Ht. split; [|done]. unfold remotes. by apply map_lookup_filter_None_2; left.
Qed.

Lemma remotes_all p : (size (remotes p) <= size (all p))%nat.
Proof. apply map_subseteq_size, map_filter_subseteq. Qed.

Lemma make_room_ok p t :
  good p ->
  exists err p', make_room p t = Some (err, p') /\ pool_ok [] [] p' /\ rtc step p p' /\
    (err = None -> Z.of_nat (size (remotes p')) < Z.max 1 (limit (config p))).
Proof.
  intros [Hp Hc Hr]. pose proof Hc as [_ _ C1 C2 C3]. unfold limit in *. unfold make_room.
  assert (u64 (GlobalSlots (config p) + GlobalQueue (config p)) = GlobalSlots (config p) + GlobalQueue (config p)) as -> by (apply Z.mod_small; lia).
  pose proof (remotes_all p) as Hra. destruct (Z.leb_spec (GlobalSlots (config p) + GlobalQueue (config p)) (Z.of_nat (size (all p)))) as [Hfull|Hfree].
  2:{ exists None, p. do 3 (split; [done|]). intros _. lia. }
  destruct (Underpriced_ok (all p) (locals p) (priced p) t (ok_hashed _ _ _ Hp) (ok_priced _ _ _ Hp)) as (b & pl & -> & U1 & _). rewrite some_bind.
  destruct (set_priced_step [] [] p pl Hp U1) as [P1 P2]. set (p1 := set_priced p pl) in *. destruct b; [by exists (Some ErrUnderpriced), p1|].
  set (count := Z.of_nat (size (all p1)) - _). assert (1 <= count) as Hcount.
  { unfold count. simpl. unfold i64. assert (-1 <= (u64 (GlobalSlots (config p) + GlobalQueue (config p) - 1) + 2 ^ 63) mod 2 ^ 64 - 2 ^ 63 <= GlobalSlots (config p) + GlobalQueue (config p) - 1); [|lia].
    unfold u64. destruct (decide (GlobalSlots (config p) + GlobalQueue (config p) = 0)) as [->|]; [done|].
    rewrite (Z.mod_small (_ - 1)) by lia. rewrite Z.mod_small by lia. lia. }
  destruct (Discard_ok [] (all p1) (locals p1) (priced p1) count (ok_hashed _ _ _ P1) (ok_priced _ _ _ P1) ltac:(lia)) as
    (drop & gone & pl2 & -> & D1 & D2 & D3 & D4 & D5 & D6 & D7). rewrite some_bind. rewrite (right_id_L [] app) in D1.
  destruct (set_priced_step [] drop p1 pl2 P1 D1) as [S1 S2]. set (p2 := set_priced p1 pl2) in *.
  destruct (remove_each_ok drop p2 drop S1 ltac:(done)) as (p3 & -> & R1 & R2 & R3). rewrite some_bind.
  exists None, p3. split; [done|]. split; [done|]. assert (rtc step p p3) as Hst by (etrans; [done|]; by etrans). split; [done|]. intros _.
  destruct (decide (remotes p = ∅)) as [E|E].
  { pose proof (remotes_env _ _ (steps_env _ _ Hst)) as Hsz. rewrite E, map_size_empty in Hsz. lia. }
  assert (exists d, d ∈ drop) as [d Hd].
  { apply map_choose in E as (h & u & [Hu Hl]%map_lookup_filter_Some). simpl in Hl.
    assert (tx_Hash u = h) as <- by (by apply (ok_hashed _ _ _ Hp)).
    destruct (po_all _ _ _ (ok_priced _ _ _ P1) _ u Hu) as [[]%elem_of_nil|Hin].
    assert (u ∈ filter (live_remote (all p1) (locals p1)) (priced_items (priced p1))) as Hin'.
    { apply list_elem_of_filter. split; [|done]. split; [|done]. by apply known_spec; [apply P1|]. }
    destruct drop as [|d drop]; [|exists d; by left]. simpl in D6. destruct (filter _ _); [by apply elem_of_nil in Hin'|simpl in D6; lia]. }
  rewrite Forall_forall in D5. destruct (D5 d Hd) as [Dk Dl]. apply known_spec in Dk; [|apply P1].
  pose proof (remotes_shrink p p3 d (steps_env _ _ Hst)) as Hsh. specialize (R3 d Hd).
  assert (remotes p !! tx_Hash d = Some d) as Hd' by (by apply map_lookup_filter_Some). specialize (Hsh Hd' R3). lia.
Qed.

(** ** Inserting *)

(** What adding [t] does: it takes the place of a pending transaction with its
    nonce, or goes to the queue. *)
Definition added_at p t p' : Prop :=
  exists a, tx_Sender t = Some a /\
    (forall b, b <> a -> ptxs p' b = ptxs p b /\ qtxs p' b = qtxs p b) /\ (forall b, pnonce p' b = pnonce p b) /\
    if decide (tx_Nonce t ∈ tx_Nonce <$> ptxs p a)
    then ptxs p' a = put_tx t (ptxs p a) /\ qtxs p' a = qtxs p a
    else ptxs p' a = ptxs p a /\ qtxs p' a = put_tx t (qtxs p a).

Definition add_env p t p' : Prop :=
  config p' = config p /\ currentState p' = currentState p /\ currentMaxGas p' = currentMaxGas p /\ locals p ⊆ locals p' /\
  all p' ⊆ <[tx_Hash t := t]> (all p).

Lemma weaken_X D X p : pool_ok D [] p -> pool_ok D X p.
Proof. intros Hp. eapply change_X; [done|]. by intros a x ?%elem_of_nil. Qed.

(** The list gets [t], the old transaction with its nonce is forgotten. *)
Lemma swap_in_ok D p1 a old t :
  pool_ok D [t] p1 -> tx_Sender t = Some a -> t ∈ ptxs p1 a \/ t ∈ qtxs p1 a -> (forall o, old = Some o -> o <> t /\ tx_Sender o = Some a /\ tx_Nonce o = tx_Nonce t) ->
  pool_ok D [] (track (match old with Some o => forget p1 (tx_Hash o) | None => p1 end) t).
Proof.
  intros Hp Hs Hin Hold. apply track_X, track_ok; [|by rewrite Hs]. destruct old as [o|]; [|done]. destruct (Hold o eq_refl) as (Hne & Ho & En).
  eapply change_X; [apply (forget_ok D D); [done|by auto]|]. intros b x [->|Hx]%elem_of_cons; [|by left]. right.
  change (o ∉ ptxs p1 b /\ o ∉ qtxs p1 b). assert (forall b, o ∈ ptxs p1 b \/ o ∈ qtxs p1 b -> False) as H; [|by split; intros ?; apply (H b); auto].
  clear b. intros b Hb. destruct (ok_member _ _ _ Hp b o Hb) as [Hb' _]. assert (b = a) as -> by congruence.
  assert (ascending tx_Nonce (ptxs p1 a)) as S1 by (eapply txs_at_sorted, Hp). assert (ascending tx_Nonce (qtxs p1 a)) as S2 by (eapply txs_at_sorted, Hp).
  destruct Hin as [Hi|Hi], Hb as [Hb|Hb].
  - apply Hne. by apply (same_nonce_eq (ptxs p1 a)).
  - by apply (ok_disjoint _ _ _ Hp a t o).
  - by apply (ok_disjoint _ _ _ Hp a o t).
  - apply Hne. by apply (same_nonce_eq (qtxs p1 a)).
Qed.

Lemma journalTx_ok D X p a t : pool_ok D X p -> pool_ok D X (journalTx p a t).
Proof. intros Hp. unfold journalTx. repeat case_match; try done. by destruct Hp; constructor. Qed.

Lemma journalTx_same p a t :
  config (journalTx p a t) = config p /\ currentState (journalTx p a t) = currentState p /\ currentMaxGas (journalTx p a t) = currentMaxGas p /\
  locals (journalTx p a t) = locals p /\ all (journalTx p a t) = all p /\ pending (journalTx p a t) = pending p /\ queue (journalTx p a t) = queue p /\
  pendingState (journalTx p a t) = pendingState p.
Proof. unfold journalTx. by repeat case_match. Qed.

Lemma elem_put_new l t : ascending tx_Nonce l -> t ∈ put_tx t l.
Proof. intros Hs. apply elem_put_tx; [done|]. by left. Qed.

Lemma track_old_env p p1 old t :
  config p1 = config p -> currentState p1 = currentState p -> currentMaxGas p1 = currentMaxGas p -> locals p1 = locals p -> all p1 = all p ->
  add_env p t (track (match old with Some o => forget p1 (tx_Hash o) | None => p1 end) t).
Proof.
  intros E1 E2 E3 E4 E5. destruct old as [o|]; unfold add_env; simpl; rewrite E1, E2, E3, E4, E5; do 4 (split; [done|]); [|done].
  apply insert_mono, delete_subseteq.
Qed.

Lemma replace_pending_ok p a L t :
  pool_ok [] [] p -> pending p !! a = Some L -> tx_Sender t = Some a -> all p !! tx_Hash t = None -> Overlaps L t = true ->
  exists r p', replace_pending p a L t = (r, p') /\ pool_ok [] [] p' /\
    match r with inr _ => rtc step p p' | inl b => b = true /\ add_env p t p' /\ added_at p t p' end.
Proof.
  intros Hp HL Hs Hn Hov. destruct (ok_pending _ _ _ Hp a L HL) as [L1 L2]. assert (ptxs p a = list_txs L) as EP by (unfold ptxs; by apply txs_at_Some).
  unfold Overlaps in Hov. apply bool_decide_eq_true in Hov as [o Ho]. pose proof Ho as Ho'. apply list_Get_elem in Ho' as [Hin En]; [|done]. rewrite <-EP in Hin.
  unfold replace_pending. destruct (list_Add_spec L t (PriceBump (config p)) L1) as (b & old & L' & -> & A1 & A2 & A3). fold (put_pending p a L').
  rewrite L2 in A2. destruct b; cbn [negb].
  2:{ destruct A3 as [-> _]. destruct (put_pending_same [] p a L L) as (Q1 & Q2 & _); [done..|]. by eexists (inr _), _. }
  destruct A3 as [-> A3]. rewrite Ho. rewrite <-EP in A3. set (p1 := put_pending p a L').
  assert (forall u, u ∈ qtxs p a -> tx_Nonce t <> tx_Nonce u) as Hq by (intros u Hu; rewrite <-En; by eapply (ok_disjoint _ _ _ Hp a)).
  assert (pool_ok [] [t] p1) as Hp1 by (eapply put_pending_add; try done; [by apply weaken_X|left; by left]).
  assert (ascending tx_Nonce (ptxs p a)) as Hsort by (eapply txs_at_sorted, Hp).
  assert (forall b, ptxs p1 b = if decide (b = a) then put_tx t (ptxs p a) else ptxs p b) as Hpt.
  { intros b. unfold p1, ptxs at 1, put_pending. simpl. rewrite txs_at_insert, A3. done. }
  destruct (ok_member _ _ _ Hp a o) as [Hso [[]%elem_of_nil|Hao] ]; [by auto|].
  pose proof (swap_in_ok [] p1 a (Some o) t Hp1 Hs) as Hsw. set (p2 := track _ t) in *.
  assert (pool_ok [] [] p2) as Hp2.
  { apply Hsw; [left; rewrite Hpt, decide_True by done; by apply elem_put_new|]. intros o' [= <-]. split; [intros ->; congruence|done]. }
  exists (inl true). eexists. split; [done|]. destruct (journalTx_same p2 a t) as (J1 & J2 & J3 & J4 & J5 & J6 & J7 & J8).
  split; [destruct (journalTx_ok [] [] p2 a t Hp2); by constructor|]. split; [done|]. split.
  - destruct (track_old_env p p1 (Some o) t) as (T1 & T2 & T3 & T4 & T5); [done..|]. fold p2 in T1, T2, T3, T4, T5.
    unfold add_env. simpl. by rewrite J1, J2, J3, J4, J5.
  - exists a. split; [done|]. unfold ptxs, qtxs, pnonce. simpl. rewrite J6, J7, J8. fold (ptxs p a) (qtxs p a). split; [|split; [done|] ].
    + intros b Hb. split; [|done]. specialize (Hpt b). by rewrite decide_False in Hpt.
    + rewrite decide_True by (rewrite <-En; by apply list_elem_of_fmap_2). specialize (Hpt a). by rewrite decide_True in Hpt.
Qed.

Lemma add_queued_ok p a t local :
  pool_ok [] [] p -> tx_Sender t = Some a -> all p !! tx_Hash t = None -> tx_Nonce t ∉ tx_Nonce <$> ptxs p a ->
  exists r p', add_queued p a t local = (r, p') /\ pool_ok [] [] p' /\
    match r with inr _ => rtc step p p' | inl _ => add_env p t p' /\ added_at p t p' end.
Proof.
  intros Hp Hs Hn Hov. unfold add_queued, enqueueTx. assert (sender t = a) as -> by (unfold sender; by rewrite Hs).
  destruct (lists_default false (queue p) a (ok_queue _ _ _ Hp)) as (L1 & L2 & L3). set (L := default _ _) in *.
  destruct (list_Add_spec L t (PriceBump (config p)) L1) as (b & old & L' & -> & A1 & A2 & A3). fold (put_queue p a L'). rewrite L2 in A2. destruct b; cbn [negb].
  2:{ destruct A3 as (-> & o & Ho & _). assert (queue p !! a = Some L) as HL.
      { unfold L in *. destruct (queue p !! a) as [L0|]; [done|]. simpl in Ho. destruct (new_list_ok false) as [_ E]. rewrite E in Ho. by apply elem_of_nil in Ho. }
      destruct (put_queue_same [] p a L L) as (Q1 & Q2 & _); [done..|]. by eexists (inr _), _. }
  destruct A3 as [Eold A3]. rewrite L3 in A3. fold (qtxs p a) in A3. set (p1 := put_queue p a L').
  assert (forall u, u ∈ ptxs p a -> tx_Nonce t <> tx_Nonce u) as Hq by (intros u Hu E; apply Hov; rewrite E; by apply list_elem_of_fmap_2).
  assert (pool_ok [] [t] p1) as Hp1 by (eapply put_queue_add; try done; [by apply weaken_X|left; by left]).
  assert (ascending tx_Nonce (qtxs p a)) as Hsort by (eapply txs_at_sorted, Hp).
  assert (forall b, qtxs p1 b = if decide (b = a) then put_tx t (qtxs p a) else qtxs p b) as Hpt.
  { intros b. unfold p1, qtxs at 1, put_queue. simpl. rewrite txs_at_insert, A3. done. }
  pose proof (swap_in_ok [] p1 a old t Hp1 Hs) as Hsw. set (p2 := track _ t) in *.
  assert (pool_ok [] [] p2) as Hp2.
  { apply Hsw; [right; rewrite Hpt, decide_True by done; by apply elem_put_new|]. intros o ->. symmetry in Eold.
    apply list_Get_elem in Eold as [Ho En]; [|done]. rewrite L3 in Ho. destruct (ok_member _ _ _ Hp a o) as [Hso [[]%elem_of_nil|Hao] ]; [by auto|].
    split; [intros ->; congruence|done]. }
  set (p3 := if local then _ else p2). assert (pool_ok [] [] p3) as Hp3 by (unfold p3; destruct local; [by destruct Hp2; constructor|done]).
  eexists (inl _), _. split; [done|]. destruct (journalTx_same p3 a t) as (J1 & J2 & J3 & J4 & J5 & J6 & J7 & J8). split; [by apply journalTx_ok|].
  destruct (track_old_env p p1 old t) as (T1 & T2 & T3 & T4 & T5); [done..|]. fold p2 in T1, T2, T3, T4, T5. split.
  - unfold add_env. rewrite J1, J2, J3, J4, J5. unfold p3. destruct local; simpl; [|done]. do 3 (split; [done|]). split; [set_solver|done].
  - exists a. split; [done|]. unfold ptxs, qtxs, pnonce. rewrite J6, J7, J8. fold (ptxs p a) (qtxs p a).
    assert (pending p3 = pending p /\ queue p3 = queue p1 /\ pendingState p3 = pendingState p) as (-> & -> & ->)
      by (unfold p3, p2; destruct local, old; done).
    split; [|split; [done|] ].
    + intros b Hb. split; [done|]. specialize (Hpt b). by rewrite decide_False in Hpt.
    + rewrite decide_False by done. specialize (Hpt a). by rewrite decide_True in Hpt.
Qed.

(** ** [add] and its callers *)

Lemma validate_ok p t local :
  validateTx p t local = None ->
  exists a, tx_Sender t = Some a /\ affordable (GetBalance (currentState p) a) (currentMaxGas p) t = true /\ GetNonce (currentState p) a <= tx_Nonce t.
Proof.
  unfold validateTx, affordable. destruct (32 * 1024 <? tx_Size t); [done|]. destruct (tx_Value t <? 0); [done|].
  destruct (Z.ltb_spec (currentMaxGas p) (tx_Gas t)); [done|]. destruct (tx_Sender t) as [a|]; [|done]. case_match; [done|].
  destruct (Z.ltb_spec (tx_Nonce t) (GetNonce (currentState p) a)); [done|].
  destruct (Z.ltb_spec (GetBalance (currentState p) a) (tx_Cost t)); [done|]. intros _. exists a. split; [done|]. split; [|done].
  apply andb_true_iff. rewrite !Z.leb_le. done.
Qed.

(** A valid transaction, one of [ts], enters the pool. *)
Definition add_step ts p p' : Prop :=
  wf p /\ wf p' /\ exists t a, t ∈ ts /\ tx_Sender t = Some a /\ affordable (GetBalance (currentState p) a) (currentMaxGas p) t = true /\
    GetNonce (currentState p) a <= tx_Nonce t /\ add_env p t p' /\ added_at p t p'.

(** Moves and additions of transactions of [ts]. *)
Definition evolve ts : TxPool -> TxPool -> Prop := rtc (fun p p' => step p p' \/ add_step ts p p').

Lemma steps_evolve ts p p' : rtc step p p' -> evolve ts p p'.
Proof. apply rtc_subrel. by left. Qed.

Lemma evolve_mono ts ts' p p' : ts ⊆ ts' -> evolve ts p p' -> evolve ts' p p'.
Proof.
  intros Hs. apply rtc_subrel. intros q q' [H|(H1 & H2 & t & a & Ht & H)]; [by left|right].
  split; [done|]. split; [done|]. exists t, a. split; [by apply Hs|done].
Qed.

(** The settings [add] keeps. *)
Definition same_head p p' : Prop :=
  config p' = config p /\ currentState p' = currentState p /\ currentMaxGas p' = currentMaxGas p.

Lemma evolve_head ts p p' : evolve ts p p' -> same_head p p'.
Proof.
  induction 1 as [p|p1 p2 p3 H _ (I1 & I2 & I3)]; [done|]. unfold same_head.
  assert (config p2 = config p1 /\ currentState p2 = currentState p1 /\ currentMaxGas p2 = currentMaxGas p1) as (E1 & E2 & E3).
  { destruct H as [(_ & _ & (E1 & E2 & E3 & _) & _)|(_ & _ & t & a & _ & _ & _ & _ & (E1 & E2 & E3 & _) & _)]; done. }
  repeat split; congruence.
Qed.

Lemma remotes_add p t p' : add_env p t p' -> (size (remotes p') <= S (size (remotes p)))%nat.
Proof.
  intros (_ & _ & _ & El & Hs). transitivity (size (<[tx_Hash t := t]> (remotes p))); [|rewrite map_size_insert; case_match; simpl; lia].
  apply map_subseteq_size, map_subseteq_spec. intros h u [Hu Hl]%map_lookup_filter_Some. simpl in Hl. eapply lookup_weaken in Hu; [|done].
  apply lookup_insert_Some in Hu as [[<- <-]|[Hne Hu] ]; [apply lookup_insert_eq|]. rewrite lookup_insert_ne by done.
  apply map_lookup_filter_Some. split; [done|]. simpl. unfold containsTx, contains in *. destruct (tx_Sender u); [|done].
  rewrite bool_decide_eq_false in *. set_solver.
Qed.

Lemma add_ok p t local : good p -> exists r p', add p t local = Some (r, p') /\ good p' /\ evolve [t] p p'.
Proof.
  intros Hg. pose proof Hg as [Hp Hc Hr]. unfold add. case_bool_decide as Ek; [by eexists _, p|].
  destruct (validateTx p t local) as [err|] eqn:Ev; [by eexists _, p|].
  destruct (validate_ok p t local Ev) as (a & Hs & Haf & Hnon). assert (sender t = a) as Es by (unfold sender; by rewrite Hs).
  destruct (make_room_ok p t Hg) as (err & p1 & -> & P1 & P2 & P3). rewrite some_bind. pose proof (good_steps p p1 Hg P1 P2) as Hg1.
  destruct err as [err|]; [exists (inr err), p1; split; [done|]; split; [done|by apply steps_evolve]|]. specialize (P3 eq_refl). rewrite Es.
  pose proof (steps_env _ _ P2) as (E1 & E2 & E3 & E4 & E5).
  assert (all p1 !! tx_Hash t = None) as Hn.
  { destruct (all p1 !! tx_Hash t) as [u|] eqn:Eu; [|done]. eapply lookup_weaken in Eu; [|done]. destruct Ek. by eexists. }
  assert (forall r p', pool_ok [] [] p' -> (match r : bool + pool_error with inr _ => rtc step p1 p' | inl _ => add_env p1 t p' /\ added_at p1 t p' end) ->
    good p' /\ evolve [t] p p') as Hend.
  { intros r p' Hp' Hr'. destruct r as [b|err].
    - destruct Hr' as [He Ha]. pose proof (remotes_add _ _ _ He) as Hsz. pose proof He as (F1 & F2 & F3 & _). split.
      + constructor; [done|by rewrite F1, E1|]. rewrite F1, E1. lia.
      + etrans; [by apply steps_evolve|]. apply rtc_once. right. split; [by exists []|]. split; [by exists []|]. exists t, a. split; [by left|]. rewrite E2, E3. done.
    - split; [by eapply (good_steps p1)|]. apply steps_evolve. by etrans. }
  destruct (pending p1 !! a) as [L|] eqn:HL; [destruct (Overlaps L t) eqn:Eo|].
  - destruct (replace_pending_ok p1 a L t P1 HL Hs Hn Eo) as (r & p' & -> & Q1 & Q2). exists r, p'. split; [done|]. apply (Hend r); [done|].
    destruct r; [by destruct Q2 as (_ & ? & ?)|done].
  - destruct (add_queued_ok p1 a t local P1 Hs Hn) as (r & p' & -> & Q1 & Q2); [|exists r, p'; split; [done|by apply (Hend r)] ].
    intros (u & Eu & Hu)%list_elem_of_fmap. unfold Overlaps in Eo. apply bool_decide_eq_false in Eo. apply Eo. exists u.
    apply list_Get_elem; [by apply (ok_pending _ _ _ P1 a L)|]. unfold ptxs in Hu. by rewrite (txs_at_Some _ _ _ HL) in Hu.
  - destruct (add_queued_ok p1 a t local P1 Hs Hn) as (r & p' & -> & Q1 & Q2); [|exists r, p'; split; [done|by apply (Hend r)] ].
    unfold ptxs, txs_at. rewrite HL. by intros ?%elem_of_nil.
Qed.

Lemma promote_good accounts p : good p -> exists p', promoteExecutables accounts p = Some p' /\ good p' /\ evolve [] p p' /\ limited p'.
Proof.
  intros Hg. destruct (promoteExecutables_ok [] accounts p (gd_pool _ Hg) (good_bounded _ Hg)) as (p' & -> & H1 & H2 & H3).
  exists p'. split; [done|]. split; [by eapply good_steps|]. split; [by apply steps_evolve|done].
Qed.

Lemma addTx_ok p t local : good p -> exists r p', addTx p t local = Some (r, p') /\ good p' /\ evolve [t] p p'.
Proof.
  intros Hg. unfold addTx. destruct (add_ok p t local Hg) as (r & p1 & -> & H1 & H2). rewrite some_bind. destruct r as [ []|err]; simpl; [by eexists _, _| |by eexists _, _].
  destruct (promote_good (Some [sender t]) p1 H1) as (p2 & -> & P1 & P2 & _). simpl. eexists _, p2. split; [done|]. split; [done|]. etrans; [done|]. eapply evolve_mono; [|done]. set_solver.
Qed.

Lemma add_loop_ok p ts local dirty : good p -> exists errs dirty' p', add_loop p ts local dirty = Some (errs, dirty', p') /\ good p' /\ evolve ts p p'.
Proof.
  revert p dirty. induction ts as [|t ts IH]; intros p dirty Hg; simpl; [by eexists _, _, p|].
  destruct (add_ok p t local Hg) as (r & p1 & -> & H1 & H2). rewrite some_bind. destruct (match r with inl _ => _ | inr _ => _ end) as [err dirty1].
  destruct (IH p1 dirty1 H1) as (errs & dirty' & p2 & -> & I1 & I2). rewrite some_bind. eexists _, _, p2. split; [done|]. split; [done|].
  etrans; (eapply evolve_mono; [|done]); set_solver.
Qed.

Lemma addTxsLocked_ok p ts local : good p -> exists errs p', addTxsLocked p ts local = Some (errs, p') /\ good p' /\ evolve ts p p'.
Proof.
  intros Hg. unfold addTxsLocked. destruct (add_loop_ok p ts local ∅ Hg) as (errs & dirty & p1 & -> & H1 & H2). rewrite some_bind.
  destruct (0 <? size dirty)%nat; [|by eexists _, p1]. destruct (promote_good (Some (range dirty).*1) p1 H1) as (p2 & -> & P1 & P2 & _).
  rewrite some_bind. eexists _, p2. split; [done|]. split; [done|]. etrans; [done|]. eapply evolve_mono; [|done]. set_solver.
Qed.

End Add.
