(* ===== verification/TxPoolReset.v ===== *)
(** * New heads, evictions and the event loop of the pool

    The remaining operations of the pool keep the invariant too, and with
    them every run of the event loop and the callers. *)
From Stdlib Require Import Sorted.
From S2P Require Import Vm StateTransition.
From S2P Require Import Prelude Types Heap TxList TxPriced ManagedState TxPool TxPoolInv TxPoolLimits TxPoolAdd.

Section Reset.
Context {TX : Transaction} {RO : RangeOrder} {PE : PoolEnv}.
Implicit Types (p : TxPool) (t u x : tx) (a addr : Address) (ts l D X : list tx).

(** ** Demotion *)

(** What stays pending of an account: from the nonce of the state on, up to
    the first transaction it cannot pay. *)
Definition payable_run p a : list tx :=
  take_while (affordable (GetBalance (currentState p) a) (currentMaxGas p))
    (filter (fun t => GetNonce (currentState p) a <= tx_Nonce t) (ptxs p a)).

Definition starts_at (n : Z) l : bool := match l with t :: _ => tx_Nonce t =? n | [] => false end.

Definition demoted p a : list tx := if starts_at (GetNonce (currentState p) a) (payable_run p a) then payable_run p a else [].

Lemma take_while_sub f l t : t ∈ take_while f l -> t ∈ l.
Proof.
  induction l as [|u l IH]; simpl; [done|]. destruct (f u); [|by intros ?%elem_of_nil]. intros [->|?]%elem_of_cons; [by left|right; by apply IH].
Qed.

Lemma take_while_prefix f l : exists l', l = take_while f l ++ l'.
Proof. induction l as [|u l [l' IH] ]; simpl; [by exists []|]. destruct (f u); [|by eexists]. exists l'. simpl. by rewrite <-IH. Qed.

Lemma take_while_sorted f l : ascending tx_Nonce l -> ascending tx_Nonce (take_while f l).
Proof. intros Hs. destruct (take_while_prefix f l) as [l' E]. rewrite E in Hs. by apply ascending_app in Hs as (? & _). Qed.

(** The check for a gap in front. *)
Lemma gap_check L n :
  list_ok L -> (forall t, t ∈ list_txs L -> n <= tx_Nonce t) ->
  (0 <? list_Len L)%nat && bool_decide (sm_Get (txs L) n = None) = negb (starts_at n (list_txs L)) && negb (bool_decide (list_txs L = [])).
Proof.
  intros HL Hn. rewrite list_Len_ok. pose proof (list_sorted L HL) as Hs. destruct (list_txs L) as [|t l] eqn:E; [done|]. simpl.
  rewrite andb_true_r. destruct (Z.eqb_spec (tx_Nonce t) n) as [Et|Et]; simpl.
  - apply bool_decide_eq_false. intros Hnone. assert (sm_Get (txs L) n = Some t) as E2; [|congruence]. apply list_Get_elem; [done|]. rewrite E. split; [by left|done].
  - apply bool_decide_eq_true. destruct (sm_Get (txs L) n) as [u|] eqn:Eu; [|done]. exfalso. apply list_Get_elem in Eu as [Hu En]; [|done]. rewrite E in Hu.
    apply elem_of_cons in Hu as [->|Hu]; [done|]. apply StronglySorted_inv in Hs as [_ Hs]. rewrite Forall_forall in Hs. specialize (Hs u Hu).
    specialize (Hn t ltac:(by left)). lia.
Qed.

Lemma demote_account_ok D p a :
  pool_ok D [] p -> is_Some (pending p !! a) ->
  exists p', demote_account a p = Some p' /\ pool_ok D [] p' /\ same_env p p' /\ pendingState p' = pendingState p /\
    ptxs p' a = demoted p a /\ (forall b, b <> a -> pending p' !! b = pending p !! b) /\ (demoted p a = [] -> pending p' !! a = None).
Proof.
  intros Hp [L HL]. destruct (ok_pending _ _ _ Hp a L HL) as [L1 L2]. unfold demote_account. rewrite HL, some_bind.
  assert (ptxs p a = list_txs L) as EP by (unfold ptxs; by apply txs_at_Some).
  set (cur := GetNonce (currentState p) a). destruct (list_Forward_ok L cur L1) as (La & -> & A1 & A2 & A3). rewrite some_bind.
  destruct (shrink_pending_ok D p a L La (filter (fun t => tx_Nonce t < cur) (list_txs L))) as (S1 & S2 & S3 & S4 & S5);
    [done|done|done|congruence|rewrite A3; apply filter_lt_split|]. set (p1 := forget_all _ _) in *. pose proof S2 as (_ & Ecs & Emg & _).
  destruct (list_Filter_ok La (GetBalance (currentState p1) a) (currentMaxGas p1) A1) as (removed & inv & Lb & -> & B1 & B2 & B3 & B4).
  rewrite A2, L2 in B2, B4. destruct B4 as [B4 B5]. rewrite Ecs, Emg, A3, <-EP in B4. change (list_txs Lb = payable_run p a) in B4.
  destruct (put_pending_split D p1 a La Lb (removed ++ inv)) as [T1 T2]; [done|by rewrite S5, lookup_insert_eq|done|done|by rewrite <-(assoc_L app)|].
  destruct (forget_app_ok D _ a removed inv T1 T2) as (F1 & F2 & F3 & F4 & F5 & F6). set (p2 := forget_all (put_pending p1 a Lb) removed) in *.
  destruct (enqueue_all_ok D p2 a inv F1 F2) as (G1 & G2 & G3 & G4 & _). set (p3 := enqueue_all p2 inv) in *.
  assert (pending p3 = <[a := Lb]> (pending p)) as Ep3 by (rewrite G3, F3; simpl; by rewrite S5, insert_insert_eq).
  assert (same_env p p3) as He3 by (eapply same_env_trans; [exact S2|]; eapply same_env_trans; [exact (F6 : same_env p1 p2)|done]).
  rewrite gap_check; [|done|intros t; rewrite B4; intros Ht%take_while_sub; apply list_elem_of_filter in Ht as [? _]; done]. rewrite B4.
  assert (pendingState p3 = pendingState p) as Ems by (rewrite G4, F5; simpl; exact S4).
  assert (exists gapped Lc, (if negb (starts_at cur (payable_run p a)) && negb (bool_decide (payable_run p a = [])) then list_Cap Lb 0 else Some ([], Lb)) =
    Some (gapped, Lc) /\ list_ok Lc /\ strict Lc = true /\ list_txs Lb ≡ₚ gapped ++ list_txs Lc /\ list_txs Lc = demoted p a) as (gapped & Lc & -> & C1 & C2 & C3 & C4).
  { unfold demoted. fold cur. destruct (starts_at cur (payable_run p a)) eqn:Est; simpl; [by exists [], Lb|].
    case_bool_decide as Ee; simpl; [exists [], Lb; split; [done|]; split; [done|]; split; [done|]; split; [done|]; congruence|].
    destruct (list_Cap_ok Lb 0 B1) as (Lc & -> & C1 & C2 & C3). eexists _, Lc. split; [done|]. split; [done|]. split; [congruence|].
    split; [|done]. rewrite C3, drop_0, take_0, (right_id_L [] app). symmetry. apply reverse_Permutation. }
  rewrite some_bind. destruct (put_pending_split D p3 a Lb Lc gapped) as [U1 U2]; [done|by rewrite Ep3, lookup_insert_eq|done|done|done|].
  destruct (enqueue_all_ok D _ a gapped U1 U2) as (V1 & V2 & V3 & V4 & _). set (p4 := enqueue_all (put_pending p3 a Lc) gapped) in *.
  assert (pending p4 = <[a := Lc]> (pending p)) as Ep4 by (rewrite V3; simpl; by rewrite Ep3, insert_insert_eq).
  assert (same_env p p4) as He4 by (eapply same_env_trans; [exact He3|exact (V2 : same_env p3 p4)]).
  assert (ptxs p4 a = demoted p a) as Ept by (unfold ptxs; rewrite Ep4, txs_at_insert, decide_True by done; done).
  rewrite list_Empty_ok. case_bool_decide as Ee; eexists; (split; [done|]).
  - destruct (delete_pending_ok D [] p4 a V1) as [D1 D2]; [by rewrite Ept, <-C4|]. split; [done|]. split; [done|]. split; [simpl; by rewrite V4|].
    split; [by rewrite D2|]. split; [|intros _; simpl; apply lookup_delete_eq]. intros b Hb. simpl. by rewrite lookup_delete_ne, Ep4, lookup_insert_ne.
  - split; [done|]. split; [done|]. split; [by rewrite V4|]. split; [done|]. split; [intros b Hb; by rewrite Ep4, lookup_insert_ne|congruence].
Qed.

Lemma demoted_env p p1 a : same_env p p1 -> ptxs p1 a = ptxs p a -> demoted p1 a = demoted p a.
Proof. intros (_ & E1 & E2 & _) E3. unfold demoted, payable_run. by rewrite E1, E2, E3. Qed.

Lemma demoted_nil p a : ptxs p a = [] -> demoted p a = [].
Proof. intros E. unfold demoted, payable_run. by rewrite E. Qed.

Lemma demote_each_ok D p (addrs : list Address) :
  pool_ok D [] p -> NoDup addrs -> (forall a, a ∈ addrs -> is_Some (pending p !! a)) ->
  exists p', each demote_account addrs p = Some p' /\ pool_ok D [] p' /\ same_env p p' /\ pendingState p' = pendingState p /\
    (forall a, a ∈ addrs -> ptxs p' a = demoted p a /\ (demoted p a = [] -> pending p' !! a = None)) /\
    (forall a, a ∉ addrs -> pending p' !! a = pending p !! a).
Proof.
  revert p. induction addrs as [|a addrs IH]; intros p Hp Hnd Hdom; simpl.
  { exists p. do 4 (split; [done|]). split; [by intros a ?%elem_of_nil|done]. }
  apply NoDup_cons in Hnd as [Hn Hnd]. destruct (demote_account_ok D p a Hp (Hdom a ltac:(by left))) as (p1 & -> & H1 & H2 & H3 & H4 & H5 & H6).
  rewrite some_bind. assert (forall b, b <> a -> ptxs p1 b = ptxs p b) as Hpt by (intros b Hb; unfold ptxs, txs_at; by rewrite H5).
  destruct (IH p1 H1 Hnd) as (p2 & -> & I1 & I2 & I3 & I4 & I5).
  { intros b Hb. rewrite H5 by (by intros ->). apply Hdom. by right. }
  exists p2. split; [done|]. split; [done|]. split; [by eapply same_env_trans|]. split; [congruence|]. split.
  - intros b [->|Hb]%elem_of_cons.
    + rewrite I5 by done. split; [|done]. unfold ptxs, txs_at in *. by rewrite I5.
    + assert (b <> a) as Hne by (by intros ->). rewrite <-(demoted_env p p1 b) by auto. by apply I4.
  - intros b [Hb1 Hb2]%not_elem_of_cons. by rewrite I5, H5.
Qed.

Lemma elem_range_keys {V} (m : gmap Address V) a : a ∈ (range m).*1 <-> is_Some (m !! a).
Proof.
  rewrite range_is_perm, list_elem_of_fmap. split.
  - intros ([a' v] & -> & Hv%elem_of_map_to_list). by eexists.
  - intros [v Hv]. exists (a, v). split; [done|by apply elem_of_map_to_list].
Qed.

Lemma range_keys_nodup {V} (m : gmap Address V) : NoDup (range m).*1.
Proof. rewrite range_is_perm. apply NoDup_fst_map_to_list. Qed.

Lemma demoteUnexecutables_ok D p :
  pool_ok D [] p ->
  exists p', demoteUnexecutables p = Some p' /\ pool_ok D [] p' /\ same_env p p' /\ pendingState p' = pendingState p /\
    (forall a, ptxs p' a = demoted p a) /\ (forall a L, pending p' !! a = Some L -> list_txs L <> []).
Proof.
  intros Hp. unfold demoteUnexecutables. destruct (demote_each_ok D p (range (pending p)).*1 Hp (range_keys_nodup _)) as (p' & -> & H1 & H2 & H3 & H4 & H5);
    [intros a; by rewrite elem_range_keys|]. exists p'. do 4 (split; [done|]).
  assert (forall a, a ∉ (range (pending p)).*1 -> pending p !! a = None) as Hnone by (intros a Ha; rewrite elem_range_keys in Ha; by destruct (pending p !! a); [destruct Ha|]).
  split.
  - intros a. destruct (decide (a ∈ (range (pending p)).*1)) as [Ha|Ha]; [by apply H4|]. specialize (Hnone a Ha).
    unfold ptxs, txs_at. rewrite H5, Hnone by done. symmetry. apply demoted_nil. unfold ptxs, txs_at. by rewrite Hnone.
  - intros a L HL E. destruct (decide (a ∈ (range (pending p)).*1)) as [Ha|Ha].
    + destruct (H4 a Ha) as [Ept Hd]. rewrite Hd in HL; [done|]. rewrite <-Ept. unfold ptxs. by rewrite (txs_at_Some _ _ _ HL).
    + rewrite H5, Hnone in HL by done. done.
Qed.

(** ** The nonces after a reset *)

Definition last_nonce p a : Z := match last (ptxs p a) with Some t => u64 (tx_Nonce t + 1) | None => pnonce p a end.

Lemma update_each_ok D p (addrs : list Address) :
  pool_ok D [] p -> NoDup addrs -> (forall a, a ∈ addrs -> exists L, pending p !! a = Some L /\ list_txs L <> []) ->
  exists p', each update_nonce addrs p = Some p' /\ pool_ok D [] p' /\ same_env p p' /\ queue p' = queue p /\
    (forall a, ptxs p' a = ptxs p a) /\ (forall a, pnonce p' a = if decide (a ∈ addrs) then last_nonce p a else pnonce p a).
Proof.
  revert p. induction addrs as [|a addrs IH]; intros p Hp Hnd Hdom; cbn [each].
  { exists p. do 5 (split; [done|]). intros a. by rewrite decide_False by apply not_elem_of_nil. }
  apply NoDup_cons in Hnd as [Hn Hnd]. destruct (Hdom a ltac:(by left)) as (L & HL & Hne). unfold update_nonce at 2. rewrite HL, some_bind.
  destruct (ok_pending _ _ _ Hp a L HL) as [L1 L2]. destruct (list_Flatten_ok L L1) as (L' & -> & F1 & F2 & F3).
  destruct (last (list_txs L)) as [t|] eqn:El; [|by apply last_None in El]. rewrite some_bind.
  destruct (put_pending_same D p a L L') as (P1 & P2 & P3); [done|done|done|congruence|done|]. set (p1 := put_pending p a L') in *.
  destruct (ms_SetNonce_ok (pendingState p1) a (u64 (tx_Nonce t + 1)) (ok_ms _ _ _ P1)) as [M1 M2]; [by apply Z.mod_pos_bound|].
  pose proof (set_pendingState_ok D [] p1 _ P1 M1) as Q1. set (p2 := set_pendingState p1 _) in *. rewrite some_bind.
  destruct (IH p2 Q1 Hnd) as (p3 & -> & I1 & I2 & I3 & I4 & I5).
  { intros b Hb. assert (b <> a) as Hba by (by intros ->). destruct (Hdom b ltac:(by right)) as (Lb & HLb & Hneb). exists Lb. split; [|done].
    simpl. by rewrite lookup_insert_ne. }
  exists p3. split; [done|]. split; [done|]. split; [eapply same_env_trans; [|exact I2]; exact (steps_env _ _ P2)|]. split; [done|].
  assert (forall b, ptxs p2 b = ptxs p b) as Hpt by exact P3. split; [intros b; by rewrite I4, Hpt|].
  assert (forall b, pnonce p2 b = if decide (b = a) then u64 (tx_Nonce t + 1) else pnonce p b) as Hpn by exact M2.
  intros b. rewrite I5. unfold last_nonce. rewrite Hpt, Hpn. destruct (decide (b = a)) as [->|Hb].
  - rewrite (decide_False (P := a ∈ addrs)), decide_True by (done || by left). unfold ptxs. by rewrite (txs_at_Some _ _ _ HL), El.
  - destruct (decide (b ∈ addrs)) as [Hin|Hin]; [by rewrite decide_True by (by right)|]. by rewrite decide_False by (rewrite elem_of_cons; naive_solver).
Qed.

(** ** Walking back the chain *)

(** Blocks have the number they are asked for, which is below the last one of
    64 bits, and states have 64-bit nonces. *)
Record chain_ok (chain : blockChain) : Prop := mk_chain_ok {
  ch_block h n b : GetBlock chain h n = Some b -> NumberU64 b = Found n /\ 0 <= n < 2 ^ 64 - 1;
  ch_state r st : StateAt chain r = Some st -> forall a, 0 <= GetNonce st a < 2 ^ 64
}.

Lemma unwind_ok chain fuel b n stop l :
  chain_ok chain -> NumberU64 b = Found n -> 0 <= stop -> 0 <= n < 2 ^ 64 - 1 -> n <= Z.of_nat fuel ->
  unwind fuel chain b stop l = Unrooted \/ exists b' m l', unwind fuel chain b stop l = Found (b', l') /\ NumberU64 b' = Found m /\ 0 <= m <= n /\ (m <= stop).
Proof.
  intros Hc. revert b n l. induction fuel as [|fuel IH]; intros b n l Hb Hs Hn Hf; cbn [unwind]; rewrite Hb; cbn [mbind walk_bind];
    (destruct (Z.ltb_spec stop n) as [Hlt|Hge]; [|right; exists b, n, l; split; [done|]; split; [done|]; lia]); [lia|].
  assert (u64 (n - 1) = n - 1) as -> by (apply Z.mod_small; lia).
  destruct (GetBlock chain _ (n - 1)) as [b'|] eqn:Eb; [|by left]. destruct (ch_block _ Hc _ _ _ Eb) as [Hb' Hn'].
  destruct (IH b' (n - 1) (l ++ transactions b) Hb' Hs Hn' ltac:(lia)) as [?|(c & m & l' & E & H1 & H2 & H3)]; [by left|right].
  exists c, m, l'. split; [done|]. split; [done|]. lia.
Qed.

Lemma unwind_both_ok chain fuel rem add n m d i :
  chain_ok chain -> NumberU64 rem = Found n -> NumberU64 add = Found m -> 0 <= n < 2 ^ 64 - 1 -> 0 <= m < 2 ^ 64 - 1 -> n < Z.of_nat fuel ->
  unwind_both fuel chain rem add d i = Unrooted \/ exists d' i', unwind_both fuel chain rem add d i = Found (d', i').
Proof.
  intros Hc. revert rem add n m d i. induction fuel as [|fuel IH]; intros rem add n m d i Hr Ha Hn Hm Hf; [lia|]; cbn [unwind_both].
  case_decide; [right; by eexists _, _|]. rewrite Hr. cbn [mbind walk_bind].
  destruct (GetBlock chain _ (u64 (n - 1))) as [rem'|] eqn:Er; [|by left]. destruct (ch_block _ Hc _ _ _ Er) as [Hr' Hn'].
  assert (u64 (n - 1) = n - 1 /\ 1 <= n) as [En H1].
  { destruct (decide (n = 0)) as [->|]; [unfold u64 in Hn'; change ((0 - 1) mod 2 ^ 64) with (2 ^ 64 - 1) in Hn'; lia|].
    split; [apply Z.mod_small|]; lia. }
  rewrite Ha. cbn [mbind walk_bind]. destruct (GetBlock chain _ (u64 (m - 1))) as [add'|] eqn:Ea; [|by left]. destruct (ch_block _ Hc _ _ _ Ea) as [Ha' Hm'].
  eapply IH; [exact Hr'|exact Ha'|done|done|lia].
Qed.

Definition knows (chain : blockChain) (h : Header) : Prop :=
  exists n, Number h = Some n /\ is_Some (GetBlock chain (header_Hash h) (big_Uint64 n)).

Lemma reorg_ok chain old new :
  chain_ok chain -> knows chain old -> knows chain new -> reorg chain old new = Unrooted \/ exists l, reorg chain old new = Found l.
Proof.
  intros Hc (n & En & rem & Er) (m & Em & add & Ea). unfold reorg. rewrite En, Em. cbn [deref mbind walk_bind].
  destruct (64 <? _); [right; by eexists|]. rewrite Er, Ea. cbn [deref mbind walk_bind].
  destruct (ch_block _ Hc _ _ _ Er) as [Hr Hn]. destruct (ch_block _ Hc _ _ _ Ea) as [Ha Hm]. rewrite Hr, Ha. cbn [mbind walk_bind].
  destruct (unwind_ok chain (Z.to_nat (big_Uint64 n)) rem (big_Uint64 n) (big_Uint64 m) []) as [->|(rem1 & n1 & d & -> & H1 & H2 & H3)]; [done|done|lia|done|lia|by left|].
  cbn [mbind walk_bind]. rewrite H1. cbn [mbind walk_bind].
  destruct (unwind_ok chain (Z.to_nat (big_Uint64 m)) add (big_Uint64 m) n1 []) as [->|(add1 & m1 & i & -> & I1 & I2 & I3)]; [done|done|lia|done|lia|by left|].
  cbn [mbind walk_bind].
  destruct (unwind_both_ok chain (Z.to_nat (n1 + 1)) rem1 add1 n1 m1 d i) as [->|(d' & i' & ->)]; [done|done|done|lia|lia|lia|by left|]. right. by eexists.
Qed.

(** ** Resets *)

Lemma set_head_good p st gas :
  good p -> (forall a, 0 <= GetNonce st a < 2 ^ 64) -> good (set_head p st (ManageState (GetNonce st)) gas).
Proof.
  intros [ [H1 H2 H3 H4 H5 H6 H7 H8 H9] Hc Hr] Hst. constructor; [|done|done]. destruct (ManageState_ok (GetNonce st) Hst) as [M1 _]. by constructor.
Qed.

Lemma reset_to_ok chain newHead reinject p :
  chain_ok chain -> is_Some (GasLimit (default (Block_Header (CurrentBlock chain)) newHead)) -> good p ->
  exists p', reset_to chain newHead reinject p = Some p' /\ good p'.
Proof.
  intros Hc [gas Hgas] Hg. unfold reset_to. rewrite Hgas. destruct (StateAt chain _) as [st|] eqn:Est; [|by exists p]. rewrite some_bind.
  pose proof (set_head_good p st gas Hg (ch_state _ Hc _ _ Est)) as Hg1. set (p1 := set_head _ _ _ _) in *.
  destruct (addTxsLocked_ok p1 reinject false Hg1) as (errs & p2 & -> & G2 & _). rewrite some_bind.
  destruct (demoteUnexecutables_ok [] p2 (gd_pool _ G2)) as (p3 & -> & D1 & D2 & D3 & D4 & D5). rewrite some_bind.
  destruct (update_each_ok [] p3 (range (pending p3)).*1 D1 (range_keys_nodup _)) as (p4 & -> & U1 & U2 & _).
  { intros a [L HL]%elem_range_keys. exists L. split; [done|]. by eapply D5. }
  rewrite some_bind. assert (good p4) as G4.
  { pose proof (same_env_trans _ _ _ D2 U2) as He. destruct G2 as [_ Hc2 Hr2]. pose proof (remotes_env _ _ He). pose proof He as (Ec & _).
    constructor; [done|by rewrite Ec|rewrite Ec; lia]. }
  destruct (promote_good None p4 G4) as (p5 & -> & P1 & _). by exists p5.
Qed.

Lemma Block_Header_gas (b : Block tx) : is_Some (GasLimit (Block_Header b)).
Proof. by eexists. Qed.

Lemma reset_ok chain old (b : Block tx) p :
  chain_ok chain -> good p ->
  (header_Hash old = ParentHash (header b) \/ (knows chain old /\ knows chain (Block_Header b))) ->
  exists p', reset chain (Some old) (Some (Block_Header b)) p = Some p' /\ good p'.
Proof.
  intros Hc Hg Hk. unfold reset. rewrite some_bind. simpl ParentHash. case_decide as E; [by apply reset_to_ok; [|apply Block_Header_gas|]|].
  destruct Hk as [?|[K1 K2] ]; [done|]. destruct (reorg_ok chain old (Block_Header b) Hc K1 K2) as [->|[l ->] ]; [by exists p|].
  apply reset_to_ok; [done|apply Block_Header_gas|done].
Qed.

(** ** The other operations *)

(** Pools that only differ in parts the invariant does not mention. *)
Lemma good_same p p' :
  good p -> config p' = config p -> currentState p' = currentState p -> pendingState p' = pendingState p -> locals p' = locals p ->
  pending p' = pending p -> queue p' = queue p -> all p' = all p -> priced p' = priced p -> good p'.
Proof.
  intros [ [H1 H2 H3 H4 H5 H6 H7 H8 H9] Hc Hr] E1 E2 E3 E4 E5 E6 E7 E8. constructor; [|by rewrite E1|unfold remotes in *; by rewrite E1, E4, E7].
  constructor; unfold ptxs, qtxs in *; rewrite ?E2, ?E3, ?E5, ?E6, ?E7, ?E8; done.
Qed.

Lemma same_evolve p p' : good p -> good p' -> same_env p p' -> same_txs p p' -> evolve [] p p'.
Proof. intros [H1 _ _] [H2 _ _] He Ht. apply steps_evolve. eapply step_once; [done|done|done|]. by apply move_same. Qed.

Lemma evict_each_ok p (addrs : list Address) :
  good p -> NoDup addrs -> (forall a, a ∈ addrs -> is_Some (queue p !! a)) ->
  exists p', each evict_account addrs p = Some p' /\ good p' /\ evolve [] p p'.
Proof.
  revert p. induction addrs as [|a addrs IH]; intros p Hg Hnd Hdom; cbn [each]; [by exists p|].
  apply NoDup_cons in Hnd as [Hn Hnd]. destruct (Hdom a ltac:(by left)) as [L HL].
  assert (exists p1, evict_account a p = Some p1 /\ good p1 /\ evolve [] p p1 /\ forall b, b <> a -> queue p1 !! b = queue p !! b) as (p1 & -> & G1 & Hev & Hq).
  { unfold evict_account. destruct (contains (locals p) a); [by exists p|]. set (p0 := set_beats p (beats p) (S (ticks p))).
    assert (good p0) as G0 by (by apply (good_same p)). assert (evolve [] p p0) as E0 by (by apply same_evolve). destruct (_ <? _); [|by exists p0]. change (queue p0) with (queue p). rewrite HL, some_bind.
    destruct (ok_queue _ _ _ (gd_pool _ Hg) a L HL) as [L1 L2]. destruct (list_Flatten_ok L L1) as (L' & -> & F1 & F2 & F3).
    destruct (put_queue_same [] p0 a L L') as (P1 & P2 & P3); [apply G0|done|done|congruence|done|].
    assert (qtxs p0 a = list_txs L) as Eq by (unfold qtxs; by apply txs_at_Some).
    destruct (remove_queued [] (put_queue p0 a L') a (list_txs L) P1) as (p1 & -> & R1 & R2 & _ & R4 & _);
      [by eapply sorted_NoDup, list_sorted|intros t; by rewrite P3, Eq|]. exists p1. split; [done|].
    split; [apply (good_steps p0); [done|done|by etrans]|]. split; [etrans; [done|]; apply steps_evolve; by etrans|]. intros b Hb. destruct (R4 b Hb) as [_ ->]. simpl. by rewrite lookup_insert_ne. }
  rewrite some_bind. destruct (IH p1 G1 Hnd) as (p2 & -> & I1 & I2); [intros b Hb; rewrite Hq by (by intros ->); apply Hdom; by right|].
  exists p2. split; [done|]. split; [done|]. by etrans.
Qed.

Lemma evict_ok p : good p -> exists p', evict p = Some p' /\ good p' /\ evolve [] p p'.
Proof. intros Hg. apply evict_each_ok; [done|apply range_keys_nodup|]. intros a. by rewrite elem_range_keys. Qed.

Lemma SetGasPrice_ok p price : good p -> exists p', SetGasPrice p price = Some p' /\ good p' /\ evolve [] p p'.
Proof.
  intros Hg. unfold SetGasPrice. assert (good (set_gasPrice p price)) as Hg1 by (by apply (good_same p)). set (p1 := set_gasPrice p price) in *.
  pose proof (gd_pool _ Hg1) as P1. destruct (priced_Cap_ok [] (all p1) (locals p1) (priced p1) price (ok_hashed _ _ _ P1) (ok_priced _ _ _ P1)) as (drop & pl & -> & C1 & _).
  rewrite some_bind. rewrite (right_id_L [] app) in C1. destruct (set_priced_step [] drop p1 pl P1 C1) as [S1 S2].
  destruct (remove_each_ok drop _ drop S1 ltac:(done)) as (p2 & -> & R1 & R2 & _). exists p2. split; [done|].
  split; [apply (good_steps p1); [done|done|by etrans]|]. etrans; [by apply (same_evolve p p1)|]. apply steps_evolve. by etrans.
Qed.

Lemma local_of_ok p a : good p -> good (local_of p a).2 /\ evolve [] p (local_of p a).2.
Proof.
  intros Hg. unfold local_of.
  assert (forall p, good p -> let p' := (match pending p !! a with Some list => let '(ts, list) := list_Flatten list in (ts, put_pending p a list) | None => ([], p) end).2 in
    good p' /\ evolve [] p p') as Hpe.
  { intros q Hq. destruct (pending q !! a) as [L|] eqn:HL; [|done]. destruct (ok_pending _ _ _ (gd_pool _ Hq) a L HL) as [L1 L2].
    destruct (list_Flatten_ok L L1) as (L' & -> & F1 & F2 & F3). destruct (put_pending_same [] q a L L') as (P1 & P2 & P3); [apply Hq|done|done|congruence|done|].
    split; [by eapply good_steps|by apply steps_evolve]. }
  specialize (Hpe p Hg). destruct (match pending p !! a with Some _ => _ | None => _ end) as [pend p1]. simpl in Hpe. destruct Hpe as [G1 E1].
  destruct (queue p1 !! a) as [L|] eqn:HL; [|done]. destruct (ok_queue _ _ _ (gd_pool _ G1) a L HL) as [L1 L2].
  destruct (list_Flatten_ok L L1) as (L' & -> & F1 & F2 & F3). destruct (put_queue_same [] p1 a L L') as (P1 & P2 & P3); [apply G1|done|done|congruence|done|].
  split; [by eapply good_steps|]. etrans; [done|by apply steps_evolve].
Qed.

Lemma rotate_ok p : good p -> good (rotate p) /\ evolve [] p (rotate p).
Proof.
  intros Hg. unfold rotate. assert (forall addrs p, good p -> good (local_from p addrs).2 /\ evolve [] p (local_from p addrs).2) as H.
  { clear p Hg. intros addrs. induction addrs as [|a addrs IH]; intros p Hg; [done|]. simpl. destruct (local_of_ok p a Hg) as [H1 H2].
    destruct (local_of p a) as [ts p1]. destruct (IH p1 H1) as [I1 I2]. destruct (local_from p1 addrs). split; [done|by etrans]. }
  specialize (H (range (gset_to_gmap tt (locals p))).*1 p Hg). destruct (local_from p _) as [tss p1]. simpl in H. destruct H as [G1 E1].
  assert (good (set_journal p1 (Some (concat tss)))) as G2 by (by apply (good_same p1)). split; [done|]. etrans; [done|]. by apply same_evolve.
Qed.

Lemma flatten_lists b m : lists_ok b m -> lists_ok b (flatten_all m).2 /\ forall a, txs_at (flatten_all m).2 a = txs_at m a.
Proof.
  intros Hm. assert (forall L, list_ok L -> strict L = b -> list_ok (list_Flatten L).2 /\ strict (list_Flatten L).2 = b /\ list_txs (list_Flatten L).2 = list_txs L) as HF.
  { intros L HL Hs. destruct (list_Flatten_ok L HL) as (L' & -> & F1 & F2 & F3). simpl. split; [done|]. split; [congruence|done]. }
  split.
  - intros a L. change (flatten_all m).2 with (snd ∘ list_Flatten <$> m). rewrite lookup_fmap. intros (L0 & HL0 & ->)%fmap_Some. destruct (Hm a L0 HL0). simpl. by destruct (HF L0) as (? & ? & _).
  - intros a. change (flatten_all m).2 with (snd ∘ list_Flatten <$> m). unfold txs_at. rewrite lookup_fmap. destruct (m !! a) as [L0|] eqn:E; [|done].
    destruct (Hm a L0 E). simpl. by apply HF.
Qed.

Lemma set_lists_good p mp mq :
  good p -> lists_ok true mp -> lists_ok false mq -> (forall a, txs_at mp a = ptxs p a) -> (forall a, txs_at mq a = qtxs p a) ->
  good (set_queue (set_pending p mp) mq) /\ evolve [] p (set_queue (set_pending p mp) mq).
Proof.
  intros Hg Lp Lq Ep Eq. assert (good (set_queue (set_pending p mp) mq)) as Hg'.
  { destruct Hg as [ [H1 H2 H3 H4 H5 H6 H7 H8 H9] Hc Hr]. constructor; [|done|done]. constructor; try done; unfold ptxs, qtxs; simpl; intros a t.
    - rewrite Ep, Eq. apply H3.
    - rewrite Ep, Eq. apply H4. }
  split; [done|]. apply same_evolve; [done|done|done|]. intros a. unfold ptxs at 1, qtxs at 1. simpl. by rewrite Ep, Eq.
Qed.

Lemma Pending_ok p : good p -> good (Pending p).2 /\ evolve [] p (Pending p).2.
Proof.
  intros Hg. unfold Pending. destruct (flatten_lists true (pending p) (ok_pending _ _ _ (gd_pool _ Hg))) as [F1 F2]. destruct (flatten_all (pending p)) as [pend lists]. simpl in *.
  by destruct (set_lists_good p lists (queue p) Hg F1 (ok_queue _ _ _ (gd_pool _ Hg)) F2 ltac:(done)).
Qed.

Lemma Content_ok p : good p -> good (Content p).2 /\ evolve [] p (Content p).2.
Proof.
  intros Hg. unfold Content. destruct (flatten_lists true (pending p) (ok_pending _ _ _ (gd_pool _ Hg))) as [F1 F2].
  destruct (flatten_lists false (queue p) (ok_queue _ _ _ (gd_pool _ Hg))) as [G1 G2].
  destruct (flatten_all (pending p)) as [pend lists]. destruct (flatten_all (queue p)) as [queued qlists]. simpl in *. by apply set_lists_good.
Qed.

(** ** Runs of the pool *)

(** What the pool expects of an event: the state and the blocks of the chain
    are in order, and a new head is a child of the last one, or both are
    known to the chain. *)
Definition event_ok (e : pool_event) (head : Block tx) : Prop :=
  match e with
  | HeadEvent chain b => chain_ok chain /\ is_Some (Number (header b)) /\
      (header_Hash (Block_Header head) = ParentHash (header b) \/ (knows chain (Block_Header head) /\ knows chain (Block_Header b)))
  | _ => True
  end.

Definition next_head (e : pool_event) (head : Block tx) : Block tx := match e with HeadEvent _ b => b | _ => head end.

(** The transactions an event brings. *)
Definition event_txs (e : pool_event) : list tx :=
  match e with
  | CallAddLocals ts | CallAddRemotes ts => ts
  | CallAddLocal t | CallAddRemote t => [t]
  | _ => []
  end.

Lemma pool_step_ok c e p head :
  good p -> event_ok e head ->
  exists p', pool_step c e (p, head) = Some (p', next_head e head) /\ good p' /\
    match e with HeadEvent _ _ => True | _ => evolve (event_txs e) p p' end.
Proof.
  intros Hg He. destruct e; unfold pool_step.
  - destruct He as (Hc & [n Hn] & Hk). rewrite Hn, some_bind. set (p1 := if IsHomestead c n then _ else p).
    assert (good p1) as G1 by (unfold p1; case_match; [by apply (good_same p)|done]).
    destruct (reset_ok chain (Block_Header head) b p1 Hc G1 Hk) as (p' & -> & G'). by exists p'.
  - destruct (evict_ok p Hg) as (p' & -> & G'). by exists p'.
  - eexists. split; [done|]. destruct (journal p); [by apply rotate_ok|done].
  - destruct (addTxsLocked_ok p ts (negb (NoLocals (config p))) Hg) as (errs & p' & E & G' & Ev). unfold AddLocals. rewrite E. by exists p'.
  - destruct (addTxsLocked_ok p ts false Hg) as (errs & p' & E & G' & Ev). unfold AddRemotes. rewrite E. by exists p'.
  - destruct (addTx_ok p t (negb (NoLocals (config p))) Hg) as (r & p' & E & G' & Ev). unfold AddLocal. rewrite E. by exists p'.
  - destruct (addTx_ok p t false Hg) as (r & p' & E & G' & Ev). unfold AddRemote. rewrite E. by exists p'.
  - destruct (SetGasPrice_ok p price Hg) as (p' & -> & G'). by exists p'.
  - eexists. split; [done|]. by apply Pending_ok.
  - eexists. split; [done|]. by apply Content_ok.
Qed.

Fixpoint pool_run (c : ChainConfig) (es : list pool_event) (s : TxPool * Block tx) : option (TxPool * Block tx) :=
  match es with
  | [] => Some s
  | e :: es' => s ← pool_step c e s; pool_run c es' s
  end.

Fixpoint events_ok (es : list pool_event) (head : Block tx) : Prop :=
  match es with
  | [] => True
  | e :: es' => event_ok e head /\ events_ok es' (next_head e head)
  end.

Lemma pool_run_ok c es p head :
  good p -> events_ok es head -> exists p' head', pool_run c es (p, head) = Some (p', head') /\ good p'.
Proof.
  revert p head. induction es as [|e es IH]; intros p head Hg He; cbn [pool_run]; [by exists p, head|]. destruct He as [He Hes].
  destruct (pool_step_ok c e p head Hg He) as (p1 & -> & G1 & _). rewrite some_bind. by apply IH.
Qed.

Lemma empty_good conf : config_good conf -> good (empty_pool conf).
Proof.
  intros Hc. constructor; [|done|unfold remotes; simpl; rewrite map_filter_empty, map_size_empty; lia].
  constructor; simpl; try (intros a L H; by rewrite lookup_empty in H).
  - intros a t. unfold ptxs, qtxs, txs_at. simpl. rewrite !lookup_empty. by intros [?%elem_of_nil|?%elem_of_nil].
  - intros a t u. unfold ptxs, txs_at. simpl. rewrite lookup_empty. by intros ?%elem_of_nil.
  - apply new_priced_ok.
  - by apply ManageState_ok.
  - done.
Qed.

Lemma load_ok p (file : list tx) : good p -> exists p', each (fun t p => snd <$> AddLocal p t) file p = Some p' /\ good p' /\ evolve file p p'.
Proof.
  revert p. induction file as [|t file IH]; intros p Hg; simpl; [by exists p|].
  destruct (addTx_ok p t (negb (NoLocals (config p))) Hg) as (r & p1 & E & G1 & E1). unfold AddLocal. rewrite E. simpl.
  destruct (IH p1 G1) as (p2 & E2 & G2 & Ev2). exists p2. split; [done|]. split; [done|]. etrans; (eapply evolve_mono; [|done]); set_solver.
Qed.

Lemma NewTxPool_ok conf chain file :
  config_good (sanitize conf) -> chain_ok chain -> exists p, NewTxPool conf chain file = Some p /\ good p.
Proof.
  intros Hc Hch. unfold NewTxPool. unfold reset.
  destruct (reset_to_ok chain (Some (Block_Header (CurrentBlock chain))) [] (empty_pool (sanitize conf)) Hch (Block_Header_gas _) (empty_good _ Hc)) as (p1 & -> & G1).
  rewrite some_bind. case_match; [|by exists p1]. destruct (load_ok p1 file G1) as (p2 & -> & G2 & _). rewrite some_bind. exists (rotate p2). split; [done|]. by apply rotate_ok.
Qed.


End Reset.
