(* ===== verification/TxPoolPending.v ===== *)
(** * Pending transactions are executable

    While the chain only grows, the pending transactions of an account, as the
    miner gets them, have the nonces from the account's nonce in the head
    state on, without a gap, and the account can pay each of them.  Transactions
    with the nonce [2 ^ 64 - 1] must not come in: [promoteTx] tracks the nonce
    after the last one of an account, which is zero again after this one. *)
From Stdlib Require Import Sorted.
From S2P Require Import Vm StateTransition.
From S2P Require Import Prelude Types Heap TxList TxPriced ManagedState TxPool TxPoolInv TxPoolLimits TxPoolAdd TxPoolReset.

Section Pending.
Context {TX : Transaction} {RO : RangeOrder} {PE : PoolEnv}.
Implicit Types (p : TxPool) (t u x : tx) (a addr : Address) (ts l D X : list tx).

Definition nonces_of l : list Z := tx_Nonce <$> l.

Definition cur p a : Z := GetNonce (currentState p) a.

(** The nonces of the pending transactions and the next one of the account. *)
Definition gapless p : Prop :=
  forall a, nonces_of (ptxs p a) = seqZ (cur p a) (Z.of_nat (plen p a)) /\ pnonce p a = cur p a + Z.of_nat (plen p a).

Definition paid p : Prop :=
  forall a t, t ∈ ptxs p a -> affordable (GetBalance (currentState p) a) (currentMaxGas p) t = true.

Definition executable p : Prop := gapless p /\ paid p.

(** ** Lists of consecutive nonces *)

Lemma run_filter_lt l c n :
  nonces_of l = seqZ c (Z.of_nat (length l)) -> n ∈ nonces_of l ->
  nonces_of (filter (fun u => tx_Nonce u < n) l) = seqZ c (n - c) /\ c <= n.
Proof.
  revert c. induction l as [|u l IH]; intros c E Hn; [by apply elem_of_nil in Hn|]. unfold nonces_of in *. simpl length in E.
  rewrite Nat2Z.inj_succ, seqZ_cons, Z.pred_succ in E by lia. rewrite fmap_cons in E, Hn. injection E as Eu E.
  apply elem_of_cons in Hn as [->|Hn].
  - rewrite Eu, Z.sub_diag. split; [|lia]. rewrite filter_none; [done|]. apply Forall_forall. intros v [->|Hv]%elem_of_cons; [lia|].
    apply (list_elem_of_fmap_2 tx_Nonce) in Hv. rewrite E in Hv. apply elem_of_seqZ in Hv. lia.
  - destruct (IH (Z.succ c) E Hn) as [I1 I2]. split; [|lia]. rewrite filter_cons_True by lia. rewrite fmap_cons, I1, Eu. rewrite (seqZ_cons c) by lia. f_equal. f_equal; lia.
Qed.

Lemma length_nonces l : length (nonces_of l) = length l.
Proof. apply length_fmap. Qed.

Lemma seqZ_length_eq l c k : 0 <= k -> nonces_of l = seqZ c k -> Z.of_nat (length l) = k.
Proof. intros Hk E. rewrite <-length_nonces, E, length_seqZ. lia. Qed.

Lemma put_tx_nonces l t : ascending tx_Nonce l -> tx_Nonce t ∈ nonces_of l -> nonces_of (put_tx t l) = nonces_of l.
Proof.
  unfold nonces_of. induction 1 as [|u l Hs IH Hu]; intros Hn; [by apply elem_of_nil in Hn|]. simpl. rewrite fmap_cons, elem_of_cons in Hn. rewrite Forall_forall in Hu.
  destruct (Z.ltb_spec (tx_Nonce t) (tx_Nonce u)) as [Hlt|Hge].
  { destruct Hn as [?|(v & Ev & Hv)%list_elem_of_fmap]; [lia|]. specialize (Hu v Hv). lia. }
  destruct (Z.eqb_spec (tx_Nonce t) (tx_Nonce u)) as [E|E]; simpl; [by rewrite E|].
  f_equal. apply IH. by destruct Hn.
Qed.

(** Appending at the end. *)
Lemma put_tx_last l t : (forall u, u ∈ l -> tx_Nonce u < tx_Nonce t) -> put_tx t l = l ++ [t].
Proof.
  induction l as [|u l IH]; intros H; [done|]. simpl. pose proof (H u ltac:(by left)).
  rewrite (proj2 (Z.ltb_ge _ _)), (proj2 (Z.eqb_neq _ _)) by lia. f_equal. apply IH. intros v Hv. apply H. by right.
Qed.

Lemma run_from_nonces n l : nonces_of (run_from n l) = seqZ n (Z.of_nat (length (run_from n l))).
Proof.
  revert n. induction l as [|u l IH]; intros n; simpl; [done|]. destruct (Z.eqb_spec (tx_Nonce u) n) as [<-|]; [|done]. unfold nonces_of in *. simpl length.
  rewrite fmap_cons, IH, Nat2Z.inj_succ, (seqZ_cons (tx_Nonce u)) by lia. f_equal. f_equal; lia.
Qed.

(** Promoting a run after a run appends it. *)
Lemma put_run l r c :
  nonces_of l = seqZ c (Z.of_nat (length l)) -> nonces_of r = seqZ (c + Z.of_nat (length l)) (Z.of_nat (length r)) ->
  foldl (fun l t => put_tx t l) l r = l ++ r.
Proof.
  revert l. induction r as [|t r IH]; intros l Hl Hr; simpl; [by rewrite (right_id_L [] app)|].
  unfold nonces_of in *. simpl length in Hr. rewrite Nat2Z.inj_succ, seqZ_cons, fmap_cons in Hr by lia. injection Hr as Et Hr.
  assert (put_tx t l = l ++ [t]) as ->.
  { apply put_tx_last. intros u Hu. apply (list_elem_of_fmap_2 tx_Nonce) in Hu. rewrite Hl in Hu. apply elem_of_seqZ in Hu. lia. }
  rewrite IH; [by rewrite <-(assoc_L app)|..]; rewrite length_app; simpl.
  - rewrite fmap_app, Hl. simpl. rewrite Et, Nat2Z.inj_add, seqZ_app by lia. done.
  - rewrite Hr. f_equal; lia.
Qed.

Lemma run_last l r c n0 :
  nonces_of r = seqZ (c + Z.of_nat (length l)) (Z.of_nat (length r)) -> (forall t, t ∈ r -> tx_Nonce t < 2 ^ 64 - 1) -> n0 = c + Z.of_nat (length l) ->
  foldl (fun _ t => u64 (tx_Nonce t + 1)) n0 r = c + Z.of_nat (length l) + Z.of_nat (length r).
Proof.
  intros Hr Hmax ->. destruct r as [|t r _] using rev_ind; [simpl; lia|]. rewrite foldl_app. simpl. unfold nonces_of in Hr. rewrite fmap_app, length_app in Hr. simpl in Hr.
  rewrite Nat2Z.inj_add, seqZ_app in Hr by lia. apply app_inj_2 in Hr as [_ Hr]; [|done]. injection Hr as Et.
  pose proof (Nonce_range t). specialize (Hmax t ltac:(apply elem_of_app; right; by left)). unfold u64. rewrite Z.mod_small by lia. rewrite length_app. simpl. lia.
Qed.

(** ** The moves keep it *)

(** No transaction with the last nonce is known. *)
Definition not_last t : Prop := tx_Nonce t < 2 ^ 64 - 1.
Definition low p : Prop := forall h t, all p !! h = Some t -> not_last t.

Lemma low_env p p' : all p' ⊆ all p -> low p -> low p'.
Proof. intros Hs Hl h t Ht. apply (Hl h). by eapply lookup_weaken. Qed.

Lemma low_member D p a t : pool_ok D [] p -> low p -> t ∈ ptxs p a \/ t ∈ qtxs p a -> not_last t.
Proof. intros Hp Hl Ht. destruct (ok_member _ _ _ Hp a t Ht) as [_ [[]%elem_of_nil|H] ]. by apply Hl in H. Qed.

Lemma low_add p t p' : add_env p t p' -> not_last t -> low p -> low p'.
Proof.
  intros (_ & _ & _ & _ & Hs) Ht Hl h u Hu. eapply lookup_weaken in Hu; [|done].
  apply lookup_insert_Some in Hu as [ [_ <-]|[_ Hu] ]; [done|by apply Hl in Hu].
Qed.

Lemma executable_same p p' :
  currentState p' = currentState p -> currentMaxGas p' = currentMaxGas p -> (forall a, ptxs p' a = ptxs p a /\ pnonce p' a = pnonce p a) ->
  executable p -> executable p'.
Proof.
  intros E1 E2 H [G P]. split; [intros a|intros a t]; unfold cur, plen; destruct (H a) as [Ea En]; rewrite ?E1, ?E2, Ea, ?En; [apply G|apply P].
Qed.

(** One account changes. *)
Lemma executable_at p p' a :
  currentState p' = currentState p -> currentMaxGas p' = currentMaxGas p -> (forall b, b <> a -> ptxs p' b = ptxs p b /\ pnonce p' b = pnonce p b) ->
  executable p ->
  nonces_of (ptxs p' a) = seqZ (cur p a) (Z.of_nat (plen p' a)) -> pnonce p' a = cur p a + Z.of_nat (plen p' a) ->
  (forall t, t ∈ ptxs p' a -> t ∈ ptxs p a \/ affordable (GetBalance (currentState p) a) (currentMaxGas p) t = true) -> executable p'.
Proof.
  intros E1 E2 H [G P] Hn Hp Ht. split.
  - intros b. unfold cur. rewrite E1. fold (cur p b). destruct (decide (b = a)) as [->|Hb]; [done|]. destruct (H b Hb) as [Eb En]. unfold plen. rewrite Eb, En. apply G.
  - intros b t Hin. rewrite E1, E2. destruct (decide (b = a)) as [->|Hb]; [destruct (Ht t Hin); auto|]. apply P. destruct (H b Hb) as [<- _]. done.
Qed.

Lemma removed_executable p t p' : same_env p p' -> removed_at p t p' -> executable p -> executable p'.
Proof.
  intros (_ & E1 & E2 & _) [H1 H2] He. pose proof He as [G P]. set (a := sender t) in *. destruct (G a) as [Gn Gp].
  apply (executable_at p p' a); try done; [intros b Hb; by destruct (H1 b Hb) as (? & _ & ? & _)|..]; revert H2; case_decide as Hin.
  - intros (Ept & _). destruct (run_filter_lt _ _ _ Gn Hin) as [F1 F2]. rewrite <-Ept in F1. unfold plen. by rewrite (seqZ_length_eq _ (cur p a) (tx_Nonce t - cur p a)) by (done || lia).
  - intros (Ept & _). unfold plen in *. by rewrite Ept.
  - intros (Ept & Epn & _). destruct (run_filter_lt _ _ _ Gn Hin) as [F1 F2]. rewrite <-Ept in F1. unfold plen. rewrite (seqZ_length_eq _ (cur p a) (tx_Nonce t - cur p a)), Epn, Gp by (done || lia).
    unfold nonces_of in Gn. rewrite Gn in Hin. apply elem_of_seqZ in Hin. unfold plen in *. lia.
  - intros (Ept & -> & _). unfold plen in *. by rewrite Ept.
  - intros (-> & _) u [_ ?]%list_elem_of_filter. by left.
  - intros (-> & _) u ?. by left.
Qed.

Lemma payable_sorted D p a : pool_ok D [] p -> ascending tx_Nonce (payable p a).
Proof. intros Hp. unfold payable. apply sorted_filter, sorted_filter. eapply txs_at_sorted, Hp. Qed.

(** What is ready continues the pending run. *)
Lemma ready_run D p a : pool_ok D [] p -> gapless p -> nonces_of (ready p a) = seqZ (pnonce p a) (Z.of_nat (length (ready p a))).
Proof.
  intros Hp G. destruct (G a) as [Gn Gp]. unfold ready, ready_txs. destruct (payable p a) as [|u l] eqn:Epay; [done|].
  destruct (Z.ltb_spec (pnonce p a) (tx_Nonce u)) as [Hlt|Hge]; [done|]. assert (tx_Nonce u = pnonce p a) as <-; [|apply run_from_nonces].
  assert (u ∈ payable p a) as Hu by (rewrite Epay; by left). unfold payable in Hu. rewrite !list_elem_of_filter in Hu. destruct Hu as (_ & Hc & Hu). fold (cur p a) in Hc.
  destruct (Z.le_gt_cases (pnonce p a) (tx_Nonce u)) as [Hle|Hgt]; [lia|]. exfalso.
  assert (tx_Nonce u ∈ nonces_of (ptxs p a)) as (v & Ev & Hv)%list_elem_of_fmap by (rewrite Gn; apply elem_of_seqZ; lia).
  by apply (ok_disjoint _ _ _ Hp a v u).
Qed.

Lemma ready_queued p a t : t ∈ ready p a -> t ∈ payable p a /\ t ∈ qtxs p a.
Proof.
  intros Ht. assert (t ∈ payable p a) as Hpay by (rewrite <-(ready_prefix (pnonce p a)); apply elem_of_app; by left).
  split; [done|]. unfold payable in Hpay. rewrite !list_elem_of_filter in Hpay. apply Hpay.
Qed.

Lemma promoted_executable D p a p' : pool_ok D [] p -> low p -> same_env p p' -> promoted_at p a p' -> executable p -> executable p'.
Proof.
  intros Hp Hlow (_ & E1 & E2 & _) (H1 & H2 & H3 & _) He. pose proof He as [G P]. destruct (G a) as [Gn Gp]. pose proof (ready_run D p a Hp G) as Hr. rewrite Gp in Hr.
  unfold plen in *. rewrite (put_run _ _ _ Gn Hr) in H2. rewrite (run_last _ _ (cur p a) _ Hr) in H3;
    [|intros t [_ Ht]%ready_queued; eapply low_member; [exact Hp|exact Hlow|right; exact Ht]|exact Gp].
  apply (executable_at p p' a); try done; [intros b Hb; by destruct (H1 b Hb) as (? & _ & ?)|..]; unfold plen; rewrite H2.
  - unfold nonces_of in *. rewrite fmap_app, Gn, Hr, length_app, Nat2Z.inj_add, seqZ_app by lia. done.
  - rewrite H3, length_app. lia.
  - intros t [Ht|Ht]%elem_of_app; [by left|right]. apply ready_queued in Ht as [Hpay _]. unfold payable in Hpay. by apply list_elem_of_filter in Hpay as [? _].
Qed.

Lemma capped_executable p a l t p' : same_env p p' -> capped_at p a l t p' -> executable p -> executable p'.
Proof.
  intros (_ & E1 & E2 & _) (H1 & H2 & H3 & H4 & _) He. pose proof He as [G P]. destruct (G a) as [Gn Gp]. unfold plen in *. rewrite H1 in *.
  unfold nonces_of in Gn. rewrite fmap_app, length_app, Nat2Z.inj_add, seqZ_app in Gn by lia. apply app_inj_2 in Gn as [Gn Gt]; [|done]. injection Gt as Et.
  apply (executable_at p p' a); try done; unfold plen; rewrite H2.
  - done.
  - rewrite H3, Gp, length_app. simpl. lia.
  - intros u Hu. left. rewrite H1. apply elem_of_app. by left.
Qed.

Lemma step_executable p p' : step p p' -> low p -> executable p -> executable p'.
Proof.
  intros ( [D Hp] & _ & He & [t _ Hm|a Hm|a l t Hm|Hm]) Hlow H.
  - by eapply removed_executable.
  - by eapply promoted_executable.
  - by eapply capped_executable.
  - destruct He as (_ & E1 & E2 & _). eapply executable_same; [done|done| |done]. intros a. by destruct (Hm a) as (? & _ & ?).
Qed.

Lemma add_step_executable ts p p' : add_step ts p p' -> executable p -> executable p'.
Proof.
  intros ( [D Hp] & _ & t & a & _ & Hs & Haf & _ & (_ & E1 & E2 & _) & a' & Hs' & H1 & H2 & H3) He. assert (a' = a) as -> by congruence.
  pose proof He as [G P]. destruct (G a) as [Gn Gp]. apply (executable_at p p' a); try done; [intros b Hb; by destruct (H1 b Hb)|..]; unfold plen; revert H3; case_decide as Hin; intros [-> _].
  - rewrite <-length_nonces, put_tx_nonces, length_nonces by (done || eapply txs_at_sorted, Hp). done.
  - done.
  - rewrite <-length_nonces, put_tx_nonces, length_nonces by (done || eapply txs_at_sorted, Hp). by rewrite H2.
  - by rewrite H2.
  - intros u [->|[Hu _] ]%elem_put_tx; [by right|by left|eapply txs_at_sorted, Hp].
  - intros u Hu. by left.
Qed.

Lemma evolve_executable ts p p' : Forall not_last ts -> evolve ts p p' -> low p -> executable p -> low p' /\ executable p'.
Proof.
  intros Hts. rewrite Forall_forall in Hts. induction 1 as [p|p1 p2 p3 [H|H] _ IH]; [done|..]; intros Hl He; apply IH.
  - pose proof H as (_ & _ & (_ & _ & _ & _ & Hs) & _). by eapply low_env.
  - by eapply step_executable.
  - destruct H as (_ & _ & t & a & Ht & _ & _ & _ & Hadd & _). eapply low_add; [done|by apply Hts|done].
  - by eapply add_step_executable.
Qed.

(** ** New heads *)

Lemma run_prefix l1 l2 c : nonces_of (l1 ++ l2) = seqZ c (Z.of_nat (length (l1 ++ l2))) -> nonces_of l1 = seqZ c (Z.of_nat (length l1)).
Proof.
  unfold nonces_of. rewrite fmap_app, length_app, Nat2Z.inj_add, seqZ_app by lia. intros H. apply app_inj_1 in H as [H _]; [done|].
  rewrite length_fmap, length_seqZ. lia.
Qed.

Lemma run_filter_ge l c n :
  nonces_of l = seqZ c (Z.of_nat (length l)) -> exists c', let l' := filter (fun t => n <= tx_Nonce t) l in nonces_of l' = seqZ c' (Z.of_nat (length l')).
Proof.
  revert c. induction l as [|u l IH]; intros c E; [by exists c|]. destruct (Z.le_gt_cases n c) as [Hle|Hgt].
  - exists c. cbv zeta. rewrite filter_all; [done|]. apply Forall_forall. intros v Hv. apply (list_elem_of_fmap_2 tx_Nonce) in Hv.
    unfold nonces_of in E. rewrite E in Hv. apply elem_of_seqZ in Hv. lia.
  - unfold nonces_of in E. simpl length in E. rewrite Nat2Z.inj_succ, seqZ_cons, Z.pred_succ, fmap_cons in E by lia. injection E as Eu E.
    rewrite filter_cons_False by lia. by apply (IH (Z.succ c)).
Qed.

Lemma demoted_run p a c :
  nonces_of (ptxs p a) = seqZ c (Z.of_nat (length (ptxs p a))) -> nonces_of (demoted p a) = seqZ (cur p a) (Z.of_nat (length (demoted p a))).
Proof.
  intros E. unfold demoted. fold (cur p a). destruct (starts_at (cur p a) (payable_run p a)) eqn:Es; [|done].
  destruct (run_filter_ge _ _ (cur p a) E) as [c' E']. cbv zeta in E'. unfold payable_run in *. fold (cur p a) in *. set (l := filter _ _) in *.
  destruct (take_while_prefix (affordable (GetBalance (currentState p) a) (currentMaxGas p)) l) as [l2 El]. rewrite El in E'. apply run_prefix in E'.
  destruct (take_while _ l) as [|t r]; [done|]. simpl in Es. apply Z.eqb_eq in Es. assert (c' = cur p a) as <-; [|done].
  unfold nonces_of in E'. simpl length in E'. rewrite Nat2Z.inj_succ, seqZ_cons, fmap_cons in E' by lia. by injection E' as <- _.
Qed.

Lemma take_while_true f l t : t ∈ take_while f l -> f t = true.
Proof. induction l as [|u l IH]; simpl; [by intros ?%elem_of_nil|]. destruct (f u) eqn:E; [|by intros ?%elem_of_nil]. by intros [->|?]%elem_of_cons; auto. Qed.

Lemma demoted_paid p a t : t ∈ demoted p a -> affordable (GetBalance (currentState p) a) (currentMaxGas p) t = true.
Proof. unfold demoted. case_match; [|by intros ?%elem_of_nil]. apply take_while_true. Qed.

Lemma reset_to_executable chain newHead p p' :
  chain_ok chain -> is_Some (GasLimit (default (Block_Header (CurrentBlock chain)) newHead)) -> good p -> low p -> executable p ->
  reset_to chain newHead [] p = Some p' -> low p' /\ executable p'.
Proof.
  intros Hc [gas Hgas] Hg Hlow Hx. pose proof Hx as [G _]. unfold reset_to. rewrite Hgas. destruct (StateAt chain _) as [st|] eqn:Est; [|by intros [= <-] ]. rewrite some_bind.
  pose proof (ch_state _ Hc _ _ Est) as Hst. pose proof (set_head_good p st gas Hg Hst) as Hg1. set (p1 := set_head _ _ _ _) in *.
  change (addTxsLocked p1 [] false) with (Some (@nil (option pool_error), p1)). rewrite some_bind.
  destruct (demoteUnexecutables_ok [] p1 (gd_pool _ Hg1)) as (p3 & -> & D1 & D2 & D3 & D4 & D5). rewrite some_bind.
  destruct (update_each_ok [] p3 (range (pending p3)).*1 D1 (range_keys_nodup _)) as (p4 & -> & U1 & U2 & _ & U4 & U5).
  { intros a [L HL]%elem_range_keys. exists L. split; [done|]. by eapply D5. }
  rewrite some_bind. pose proof (same_env_trans _ _ _ D2 U2) as He. pose proof He as (Ec & Ecs & Emg & _ & Eall). pose proof D2 as (_ & _ & _ & _ & Eall3).
  assert (low p3) as L3 by (by apply (low_env p)). assert (low p4) as L4 by (by apply (low_env p)).
  assert (forall a, nonces_of (ptxs p4 a) = seqZ (cur p1 a) (Z.of_nat (plen p4 a))) as Hrun.
  { intros a. unfold plen. rewrite U4, D4. destruct (G a) as [Gn _]. by apply (demoted_run p1 a (cur p a)). }
  assert (forall a, pnonce p3 a = cur p1 a) as Hpn by (intros a; unfold pnonce; rewrite D3; by apply ManageState_ok).
  assert (executable p4) as E4.
  { split.
    - intros a. unfold cur. rewrite Ecs. fold (cur p1 a). split; [apply Hrun|]. rewrite U5. unfold last_nonce, plen. rewrite U4.
      destruct (last (ptxs p3 a)) as [t|] eqn:El.
      + rewrite decide_True.
        2:{ apply elem_range_keys. destruct (pending p3 !! a) eqn:E; [by eexists|]. unfold ptxs, txs_at in El. by rewrite E in El. }
        specialize (Hrun a). unfold plen in Hrun. rewrite U4 in Hrun. apply last_Some in El as [l El].
        pose proof (low_member [] p3 a t D1 L3 ltac:(left; rewrite El; apply elem_of_app; right; by left)) as Hmax. unfold not_last in Hmax. rewrite El in Hrun |- *.
        unfold nonces_of in Hrun. rewrite fmap_app, length_app, Nat2Z.inj_add, seqZ_app in Hrun by lia. apply app_inj_2 in Hrun as [_ Ht]; [|done]. injection Ht as Et.
        pose proof (Nonce_range t). unfold u64. rewrite Z.mod_small, length_app by lia. simpl. lia.
      + apply last_None in El. rewrite El. simpl. rewrite Hpn. case_decide; lia.
    - intros a t. rewrite U4, D4, Ecs, Emg. apply demoted_paid. }
  assert (good p4) as G4.
  { destruct Hg1 as [_ Hc1 Hr1]. pose proof (remotes_env _ _ He). constructor; [done|by rewrite Ec|rewrite Ec; lia]. }
  destruct (promote_good None p4 G4) as (p5 & -> & _ & P2 & _). intros [= <-]. by apply (evolve_executable [] p4 p5).
Qed.

Lemma empty_executable conf : executable (empty_pool conf).
Proof.
  split; [intros a|intros a t]; unfold plen, ptxs, txs_at; simpl; rewrite lookup_empty; [|by intros ?%elem_of_nil]. done.
Qed.

(** ** Runs *)

(** A chain that only grows: each head is a child of the one before. *)
Fixpoint growing (es : list pool_event) (head : Block tx) : Prop :=
  match es with
  | [] => True
  | e :: es' =>
      match e with
      | HeadEvent chain b => chain_ok chain /\ is_Some (Number (header b)) /\ header_Hash (Block_Header head) = ParentHash (header b)
      | _ => True
      end /\ growing es' (next_head e head)
  end.

Lemma pool_run_executable c es p head :
  good p -> low p -> executable p -> Forall not_last (es ≫= event_txs) -> growing es head ->
  exists p' head', pool_run c es (p, head) = Some (p', head') /\ good p' /\ executable p'.
Proof.
  revert p head. induction es as [|e es IH]; intros p head Hg Hlow Hx Hts He; cbn [pool_run]; [by exists p, head|]. destruct He as [He Hes].
  assert (event_ok e head) as Hev by (destruct e; try done; destruct He as (? & ? & ?); split; [done|]; split; [done|by left]).
  destruct (pool_step_ok c e p head Hg Hev) as (p1 & Es & G1 & Ev). rewrite Es, some_bind.
  rewrite bind_cons in Hts. apply Forall_app in Hts as [Ht Hts].
  assert (low p1 /\ executable p1) as [L1 X1]; [|by apply IH]. destruct e; try exact (evolve_executable _ p p1 Ht Ev Hlow Hx).
  destruct He as (Hc & [n Hn] & Hpar). unfold pool_step in Es. rewrite Hn, some_bind in Es.
  set (p0 := if IsHomestead c n then _ else p) in *. assert (good p0) as G0 by (unfold p0; case_match; [by apply (good_same p)|done]).
  assert (low p0 /\ executable p0) as [L0 X0] by (unfold p0; case_match; [split; [done|by apply (executable_same p)]|done]). unfold reset in Es. rewrite some_bind in Es.
  simpl ParentHash in Es. rewrite decide_True in Es by done. destruct (reset_to chain _ [] p0) as [p2|] eqn:Er; [|done]. injection Es as ->.
  exact (reset_to_executable chain (Some (Block_Header b)) p0 p1 Hc (Block_Header_gas b) G0 L0 X0 Er).
Qed.

Lemma NewTxPool_executable conf chain file p :
  config_good (sanitize conf) -> chain_ok chain -> Forall not_last file -> NewTxPool conf chain file = Some p -> low p /\ executable p.
Proof.
  intros Hc Hch Hts. unfold NewTxPool, reset.
  destruct (reset_to_ok chain (Some (Block_Header (CurrentBlock chain))) [] (empty_pool (sanitize conf)) Hch (Block_Header_gas _) (empty_good _ Hc)) as (p1 & E1 & G1).
  rewrite E1, some_bind. apply reset_to_executable in E1; [|done|apply Block_Header_gas|by apply empty_good|intros h u Hu; simpl in Hu; by rewrite lookup_empty in Hu|apply empty_executable].
  destruct E1 as [L1 X1].
  case_match; [|by intros [= <-] ]. destruct (load_ok p1 file G1) as (p2 & -> & G2 & V2). rewrite some_bind. intros [= <-].
  destruct (evolve_executable file p1 p2) as [L2 X2]; [done..|]. apply (evolve_executable [] p2); [done|by apply rotate_ok|done|done].
Qed.

(** C12: what the pool hands to the miner can be executed.  While each new head
    is a child of the one before and no transaction with the nonce [2 ^ 64 - 1]
    comes in, from the journal or by a call, the pending transactions of an account, in
    the order [Pending] returns them, have the consecutive nonces from the
    account's nonce in the state of the head on, the account can pay for each
    of them, and none needs more gas than a block has.  The next nonce the pool
    tracks for the account is the one after them. *)
Theorem pending_is_executable c conf chain file es :
  config_good (sanitize conf) -> chain_ok chain -> growing es (CurrentBlock chain) ->
  Forall not_last (file ++ (es ≫= event_txs)) ->
  exists p0 p head, NewTxPool conf chain file = Some p0 /\ pool_run c es (p0, CurrentBlock chain) = Some (p, head) /\
    forall a l, (Pending p).1 !! a = Some l ->
      nonces_of l = seqZ (GetNonce (currentState p) a) (Z.of_nat (length l)) /\
      Forall (fun t => tx_Cost t <= GetBalance (currentState p) a /\ tx_Gas t <= currentMaxGas p) l /\
      pnonce p a = GetNonce (currentState p) a + Z.of_nat (length l).
Proof.
  intros Hc Hch Hes [Hf Hts]%Forall_app. destruct (NewTxPool_ok conf chain file Hc Hch) as (p0 & E0 & G0).
  destruct (NewTxPool_executable _ _ _ _ Hc Hch Hf E0) as [L0 X0]. destruct (pool_run_executable c es p0 _ G0 L0 X0 Hts Hes) as (p & head & E & G & X).
  exists p0, p, head. split; [done|]. split; [done|]. intros a l Hl. destruct X as [Xg Xp]. assert (l = ptxs p a) as ->.
  { change ((Pending p).1) with (fst ∘ list_Flatten <$> pending p) in Hl. rewrite lookup_fmap in Hl. apply fmap_Some in Hl as (L & HL & ->). unfold compose.
    destruct (list_Flatten_ok L) as (L' & -> & _); [by apply (ok_pending _ _ _ (gd_pool _ G) a)|]. unfold ptxs. by rewrite (txs_at_Some _ _ _ HL). }
  destruct (Xg a) as [X1 X2]. split; [done|]. split; [|done]. apply Forall_forall. intros t Ht. specialize (Xp a t Ht). unfold affordable in Xp.
  apply andb_true_iff in Xp. by rewrite !Z.leb_le in Xp.
Qed.

End Pending.
