(* ===== verification/TxPoolEdges.v ===== *)
(** * Edges of the transaction pool

    Cases in which the pool does other than its comments say: transactions
    that are in no list any more, a nil pointer behind [Status], the eviction
    of accounts that were never promoted, a head the chain no longer has, and
    a gap after a reorganisation.  The last part instantiates the parameters
    of the pool and runs it on examples. *)
From Stdlib Require Import Sorted.
From stdpp Require Import sorting.
From S2P Require Import Vm StateTransition.
From S2P Require Import Prelude Types Heap TxList TxPriced ManagedState TxPool TxPoolInv TxPoolLimits TxPoolAdd TxPoolReset TxPoolPending.

Local Open Scope Z_scope.

Section Edges.
Context {TX : Transaction} {RO : RangeOrder} {PE : PoolEnv}.
Implicit Types (p : TxPool) (t u x : tx) (a addr : Address) (ts l : list tx).

(** C40: removing the first pending transaction of an account strands the
    others.  [removeTx] is to move all subsequent transactions back to the
    queue, but when the list becomes empty it does not: they are neither
    pending nor queued any more, and still in the map of all transactions, so
    that they are refused as known when they are sent again. *)
Theorem removeTx_strands p a t l :
  pool_ok [] [] p -> ptxs p a = t :: l ->
  exists p', removeTx (tx_Hash t) p = Some p' /\ ptxs p' a = [] /\ qtxs p' a = qtxs p a /\
    forall u local, u ∈ l -> all p' !! tx_Hash u = Some u /\ u ∉ qtxs p' a /\ add p' u local = Some (inr KnownTransaction, p').
Proof.
  intros Hp El. assert (t ∈ ptxs p a) as Ht by (rewrite El; by left). destruct (ok_member _ _ _ Hp a t) as [Hs [[]%elem_of_nil|Ha] ]; [by auto|].
  destruct (removeTx_ok [] [] p t Hp ltac:(by auto)) as (p' & -> & H1 & H2 & H3 & H4). exists p'. split; [done|]. rewrite Ha in H4. unfold removed_at in H4.
  assert (sender t = a) as Es by (unfold sender; by rewrite Hs). rewrite Es in H4. destruct H4 as [_ H4].
  rewrite decide_True in H4 by (by apply list_elem_of_fmap_2). destruct H4 as (H4 & _ & inv & _ & H5).
  assert (ascending tx_Nonce (ptxs p a)) as Hsort by (eapply txs_at_sorted, Hp). rewrite El in Hsort. apply StronglySorted_inv in Hsort as [_ Hlt]. rewrite Forall_forall in Hlt.
  assert (ptxs p' a = []) as Enil.
  { rewrite H4, El. apply filter_none, Forall_forall. intros u [->|Hu]%elem_of_cons; [lia|]. specialize (Hlt u Hu). lia. }
  rewrite Enil, decide_True in H5 by done. split; [done|]. split; [done|]. intros u local Hu. specialize (Hlt u Hu).
  assert (u ∈ ptxs p a) as Hin by (rewrite El; by right). destruct (ok_member _ _ _ Hp a u) as [_ [[]%elem_of_nil|Hau] ]; [by auto|].
  assert (all p' !! tx_Hash u = Some u) as Hall by (rewrite H3, lookup_delete_ne; [done|]; intros E%(inj tx_Hash); subst; lia).
  split; [done|]. split; [rewrite H5; intros Hq; by apply (ok_disjoint _ _ _ Hp a u u)|]. unfold add. by rewrite bool_decide_eq_true_2 by (by rewrite Hall).
Qed.

(** The status of a queued transaction of an account without pending ones. *)
Lemma Status_panics p h t : all p !! h = Some t -> pending p !! sender t = None -> Status p [h] = None.
Proof. intros H1 H2. unfold Status. simpl. by rewrite H1, H2. Qed.

(** An account that has no heartbeat, because nothing of it was promoted, is
    evicted at the next tick, however young its transactions are. *)
Lemma evict_without_beat p a L :
  good p -> queue p !! a = Some L -> contains (locals p) a = false -> beats p !! a = None ->
  Lifetime (config p) < 2 ^ 63 - 1 -> 0 <= Now (ticks p) ->
  exists p', evict_account a p = Some p' /\ qtxs p' a = [].
Proof.
  intros Hg HL Hl Hb Hlife Hnow. unfold evict_account. rewrite Hl. cbv zeta.
  assert (Lifetime (config p) <? since (Now (ticks p)) zeroTime = true) as E by (apply Z.ltb_lt; unfold since, zeroTime, second; lia).
  set (p0 := set_beats p (beats p) (S (ticks p))). change (beats p0 !! a) with (beats p !! a). rewrite Hb. change (config p0) with (config p). simpl default. rewrite E.
  change (queue p0) with (queue p). rewrite HL, some_bind. assert (good p0) as G0 by (by apply (good_same p)).
  destruct (ok_queue _ _ _ (gd_pool _ Hg) a L HL) as [L1 L2]. destruct (list_Flatten_ok L L1) as (L' & -> & F1 & F2 & F3).
  destruct (put_queue_same [] p0 a L L') as (P1 & P2 & P3); [apply G0|done|done|congruence|done|].
  assert (qtxs p0 a = list_txs L) as Eq by (unfold qtxs; by apply txs_at_Some).
  destruct (remove_queued [] (put_queue p0 a L') a (list_txs L) P1) as (p1 & -> & R1 & R2 & _ & _ & R5 & _);
    [by eapply sorted_NoDup, list_sorted|intros t; by rewrite P3, Eq|]. exists p1. split; [done|].
  apply elem_of_nil_inv. intros t [Ht Hn]%R5. rewrite P3, Eq in Ht. done.
Qed.

(** A reset from a head the chain no longer has dereferences a nil block. *)
Lemma reset_unknown_head chain old new n m p :
  header_Hash old <> ParentHash new -> Number old = Some n -> Number new = Some m ->
  float64 (Z.abs (float64 (big_Uint64 n) - float64 (big_Uint64 m))) <= 64 ->
  GetBlock chain (header_Hash old) (big_Uint64 n) = None -> reset chain (Some old) (Some new) p = None.
Proof.
  intros Hne Hn Hm Hd Hg. unfold reset. rewrite some_bind, decide_False by done. unfold reorg. rewrite Hn, Hm. cbn [deref mbind walk_bind].
  rewrite (proj2 (Z.ltb_ge _ _)) by done. by rewrite Hg.
Qed.

End Edges.

(** ** Examples *)

Module Sample.

(** A transaction with its fields. *)
Record plain := mkPlain { pnum : nat; from : Z; price : Z; gas : Z; cost : Z }.

#[local] Instance plain_eq_dec : EqDecision plain.
Proof. solve_decision. Defined.

#[local] Instance plainTx : Transaction.
Proof.
  refine {| tx := plain; tx_Nonce t := Z.of_nat (pnum t) mod 2 ^ 64; tx_GasPrice := price; tx_Gas := gas; tx_Cost := cost;
    tx_Hash t := [Z.of_nat (pnum t); from t; price t; gas t; cost t]; tx_Sender t := Some [from t]; no_Sender := []; tx_Size t := 100;
    tx_Value t := 0; tx_Data t := []; tx_To t := Some [9] |}.
  - intros t. apply Z.mod_pos_bound. lia.
  - intros [n1 f1 p1 g1 c1] [n2 f2 p2 g2 c2] [= E1%Nat2Z.inj -> -> -> ->]. simpl in E1. by subst.
Defined.

#[local] Instance plainOrder : RangeOrder := {| range K _ _ V m := map_to_list m; range_is_perm K _ _ V m := reflexivity _ |}.

Fixpoint pop_max (l : list (Address * Z)) : option (Address * Z * list (Address * Z)) :=
  match l with
  | [] => None
  | y :: l' =>
      match pop_max l' with
      | None => Some (y, [])
      | Some (z, r) => if z.2 <=? y.2 then Some (y, l') else Some (z, y :: r)
      end
  end.

Lemma pop_max_ok l : l <> [] -> exists y r, pop_max l = Some (y, r) /\ l ≡ₚ y :: r /\ forall z, z ∈ l -> z.2 <= y.2.
Proof.
  induction l as [|y l IH]; intros Hne; [done|]. simpl. destruct l as [|y' l].
  { exists y, []. split; [done|]. split; [done|]. by intros z [->|?%elem_of_nil]%elem_of_cons. }
  destruct IH as (z & r & E & Hp & Hm); [done|]. rewrite E. destruct (Z.leb_spec z.2 y.2) as [Hle|Hgt].
  - exists y, (y' :: l). split; [done|]. split; [done|]. intros w [->|Hw]%elem_of_cons; [done|]. specialize (Hm w Hw). lia.
  - exists z, (y :: r). split; [done|]. split; [by rewrite Hp, Permutation_swap|]. intros w [->|Hw]%elem_of_cons; [lia|by apply Hm].
Qed.

Definition beat_le (y z : Address * Z) : Prop := y.2 <= z.2.
#[local] Instance beat_le_dec y z : Decision (beat_le y z).
Proof. unfold beat_le. apply _. Defined.
#[local] Instance beat_le_total : Total beat_le.
Proof. intros y z. unfold beat_le. lia. Qed.
#[local] Instance beat_le_trans : Transitive beat_le.
Proof. intros y z w. unfold beat_le. lia. Qed.

#[local] Instance plainEnv : PoolEnv.
Proof.
  refine {| TxDifference l l' := filter (fun t => t ∉ l') l;
    prque_Pop l := match pop_max l with Some (y, r) => Some (y.1, r) | None => None end;
    sort_Sort := merge_sort beat_le; header_Hash := Root; Now n := Z.of_nat n |}.
  - intros l Hne. destruct (pop_max_ok l Hne) as ([a pr] & r & -> & H1 & H2). exists a, pr, r. split; [done|]. split; [done|]. intros b q Hb. by apply (H2 (b, q)).
  - intros l. apply merge_sort_Permutation.
  - intros l. apply (StronglySorted_merge_sort beat_le).
Defined.

Definition hdr (parent root : Hash) (num : Z) : Header :=
  mkHeader parent [] [] root [] [] [] (Some 0) (Some num) (Some 1000000) (Some 0) (Some 0) [] [] [] [] (Some 0) (Some 0) (Some 0).

Definition block (parent root : Hash) (num : Z) (ts : list tx) : Block tx := mkBlock (hdr parent root num) [] ts.

Definition simple (n : nat) (cost : Z) : tx := mkPlain n 1 10 21000 cost.

(** Two branches from the block [g]: one with two transactions of account 1,
    one without, where the account has less. *)
Definition g : Block tx := block [0] [1] 5 [].
Definition o1 : Block tx := block [1] [2] 6 [simple 3 100; simple 4 900].
Definition n1 : Block tx := block [1] [3] 6 [].
Definition n2 : Block tx := block [3] [4] 7 [].

Definition branches (head : Block tx) : blockChain :=
  mkChain head
    (fun h n => find (fun b => bool_decide (Root (header b) = h) && bool_decide (Number (header b) = Some n)) [g; o1; n1; n2])
    (fun r => Some (if decide (r = [2]) then mkHead (fun _ => 5) (fun _ => 1000) else mkHead (fun _ => 3) (fun _ => 400))).

Lemma branches_ok head : chain_ok (branches head).
Proof.
  constructor.
  - intros h n b Hb. apply find_some in Hb as [Hin [_ Hn%bool_decide_eq_true]%andb_true_iff].
    destruct Hin as [<-|[<-|[<-|[<-|[] ] ] ] ]; injection Hn as <-; (split; [reflexivity|lia]).
  - intros r st [= <-] a. case_decide; simpl; lia.
Qed.

Definition conf : TxPoolConfig := DefaultTxPoolConfig.

Lemma conf_good : config_good (sanitize conf).
Proof. constructor; vm_compute; (split; congruence) || congruence. Qed.

Definition rules : ChainConfig := mkChainConfig None None None None.

(** The pool at head [o1] with two pending transactions, the second of which
    the account could pay, then the head [n2]. *)
Definition before : list pool_event := [CallAddRemotes [simple 5 100; simple 6 100]].
Definition after : list pool_event := before ++ [HeadEvent (branches n2) n2].

Lemma before_ok : events_ok before o1.
Proof. done. Qed.

(** Reading off a result without evaluating the rest of the pool. *)
Lemma project {A B} (f : A -> B) (m : option A) y v : m = Some y -> f <$> m = Some v -> f y = v.
Proof. intros ->. by injection 1. Qed.

Definition run_from_start (es : list pool_event) : option TxPool :=
  p ← NewTxPool conf (branches o1) []; fst <$> pool_run rules es (p, CurrentBlock (branches o1)).

(** A reorganisation can leave a gap in the pending transactions.  The
    comments take the pending transactions to be processable, and the demotion
    after a new head only looks for a gap in front.  When of the transactions
    of the abandoned branch only the first can still be paid, it is promoted
    before those that were pending, and the one between is missing: nonces 3, 5
    and 6 are pending at nonce 3. *)
Theorem reorg_leaves_gap :
  (fun p => (GetNonce (currentState p) [1], nonces_of <$> (Pending p).1 !! [1])) <$> run_from_start after = Some (3, Some [3; 5; 6]).
Proof. vm_compute. reflexivity. Qed.

Lemma after_ok : events_ok after o1.
Proof.
  split; [done|]. split; [|done]. split; [apply branches_ok|]. split; [by eexists|]. right. split; [exists 6|exists 7]; (split; [reflexivity|]); vm_compute; by eexists.
Qed.


(** A block on top of [o1] that includes the first of three pending
    transactions. *)
Definition o2 : Block tx := block [2] [5] 7 [simple 5 100].

Definition longer : blockChain :=
  mkChain o2
    (fun h n => find (fun b => bool_decide (Root (header b) = h) && bool_decide (Number (header b) = Some n)) [g; o1; o2])
    (fun r => Some (if decide (r = [2]) then mkHead (fun _ => 5) (fun _ => 1000) else mkHead (fun _ => 6) (fun _ => 900))).

Lemma longer_ok : chain_ok longer.
Proof.
  constructor.
  - intros h n b Hb. apply find_some in Hb as [Hin [_ Hn%bool_decide_eq_true]%andb_true_iff].
    destruct Hin as [<-|[<-|[<-|[] ] ] ]; injection Hn as <-; (split; [reflexivity|lia]).
  - intros r st [= <-] a. case_decide; simpl; lia.
Qed.

Definition included : list pool_event := [CallAddRemotes [simple 5 100; simple 6 100; simple 7 100]; HeadEvent longer o2; CallPending].

Lemma included_growing : growing included o1.
Proof. split; [done|]. split; [|done]. split; [apply longer_ok|]. split; [by eexists|reflexivity]. Qed.

Lemma pending_is_executable_witness :
  exists p0 p head, NewTxPool conf (branches o1) [] = Some p0 /\ pool_run rules included (p0, o1) = Some (p, head) /\
    (Pending p).1 !! [1] = Some [simple 6 100; simple 7 100] /\ GetNonce (currentState p) [1] = 6 /\ pnonce p [1] = 8.
Proof.
  destruct (pending_is_executable rules conf (branches o1) [] included conf_good (branches_ok o1) included_growing) as (p0 & p & head & E0 & E & H).
  { by repeat constructor. }
  exists p0, p, head. split; [exact E0|]. split; [exact E|].
  assert (run_from_start included = Some p) as Er by (unfold run_from_start; by rewrite E0, some_bind, E).
  assert ((Pending p).1 !! [1] = Some [simple 6 100; simple 7 100]) as El by (apply (project (fun p => (Pending p).1 !! [1]) _ _ _ Er); vm_compute; reflexivity).
  split; [exact El|]. destruct (H [1] _ El) as (H1 & _ & H3).
  assert (GetNonce (currentState p) [1] = 6) as En by (vm_compute in H1; by injection H1 as H1 _).
  split; [exact En|]. rewrite H3, En. reflexivity.
Defined.

(** The pool with its two pending transactions, by itself. *)
Lemma two_good : exists p, run_from_start before = Some p /\ good p.
Proof.
  destruct (NewTxPool_ok conf (branches o1) [] conf_good (branches_ok o1)) as (p0 & E0 & G0).
  destruct (pool_run_ok rules before p0 (CurrentBlock (branches o1)) G0 before_ok) as (p & head & E & G). exists p. split; [|exact G]. unfold run_from_start. by rewrite E0, some_bind, E.
Qed.

Lemma removeTx_strands_witness :
  exists p p', run_from_start before = Some p /\ removeTx (tx_Hash (simple 5 100)) p = Some p' /\ ptxs p' [1] = [] /\ qtxs p' [1] = [] /\
    all p' !! tx_Hash (simple 6 100) = Some (simple 6 100).
Proof.
  destruct two_good as (p & E & G).
  assert (ptxs p [1] = [simple 5 100; simple 6 100] /\ qtxs p [1] = []) as [Ep Eq]
    by (split; [apply (project (fun p => ptxs p [1]) _ _ _ E)|apply (project (fun p => qtxs p [1]) _ _ _ E)]; vm_compute; reflexivity).
  destruct (removeTx_strands p [1] (simple 5 100) [simple 6 100] (gd_pool _ G) Ep) as (p' & E' & H1 & H2 & H3).
  exists p, p'. split; [exact E|]. split; [exact E'|]. split; [exact H1|]. split; [by rewrite H2|]. apply (H3 (simple 6 100) false). by left.
Defined.

(** The same pool under tighter limits: one pending transaction in all, one
    for an account. *)
Definition tight (p : TxPool) : TxPool :=
  mkPool (mkConfig false false 0 1 10 1 1 1 1 1) (gasPrice p) (currentState p) (pendingState p) (currentMaxGas p) (locals p) (journal p) (pending p) (queue p)
    (beats p) (all p) (priced p) (homestead p) (sent p) (ticks p).

Lemma pool_limits_witness :
  exists p p2, run_from_start before = Some p /\ promoteExecutables None (tight p) = Some p2 /\ limited p2 /\ plen p2 [1] = 1%nat.
Proof.
  destruct two_good as (p & E & G). assert (pool_ok [] [] (tight p)) as Hp by (destruct G as [ [] _ _]; by constructor).
  assert (bounded (tight p)) as Hb.
  { constructor; [split; vm_compute; congruence|vm_compute; congruence|]. pose proof (good_bounded _ G) as [_ _ H]. exact H. }
  destruct (pool_limits None (tight p) Hp Hb) as (p1 & p2 & _ & E2 & H1 & _). exists p, p2. split; [exact E|]. split; [exact E2|].
  split; [exact H1|].
  assert ((p ← run_from_start before; promoteExecutables None (tight p)) = Some p2) as El by (by rewrite E, some_bind, E2).
  apply (project (fun p => plen p [1]) _ _ _ El). vm_compute. reflexivity.
Defined.

End Sample.
