(* ===== verification/Keccakf.v ===== *)
(** * The Keccak permutation (src/crypto/sha3/keccakf.go)

    The unrolled in-place [keccakF1600] of the portable build, and the proof
    that it computes the permutation Keccak-f[1600] as FIPS 202 defines it, bit
    by bit: the step mappings theta, rho, pi, chi and iota, with the rotation
    offsets and the round constants generated by the standard's own rules. *)
From S2P Require Import Prelude.

(** ** The code *)

(** [x<<n | x>>(64-n)] on a 64-bit word. *)
Definition rotl (x n : Z) : Z := Z.lor (u64 (Z.shiftl x n)) (Z.shiftr x (64 - n)).

Local Notation "x ⊕ y" := (Z.lxor x y) (at level 50, left associativity).
Local Notation "x &^ y" := (Z.ldiff x y) (at level 40, left associativity).

Definition rc : list Z :=
  [0x0000000000000001; 0x0000000000008082; 0x800000000000808A; 0x8000000080008000;
   0x000000000000808B; 0x0000000080000001; 0x8000000080008081; 0x8000000000008009;
   0x000000000000008A; 0x0000000000000088; 0x0000000080008009; 0x000000008000000A;
   0x000000008000808B; 0x800000000000008B; 0x8000000000008089; 0x8000000000008003;
   0x8000000000008002; 0x8000000000000080; 0x000000000000800A; 0x800000008000000A;
   0x8000000080008081; 0x8000000000008080; 0x0000000080000001; 0x8000000080008008].

(** The four rounds of one loop iteration; a line of the source is a [let]. *)
Definition round1 (rc_i : Z) (a : list Z) : list Z :=
  match a with
  | [a0; a1; a2; a3; a4; a5; a6; a7; a8; a9; a10; a11; a12;
     a13; a14; a15; a16; a17; a18; a19; a20; a21; a22; a23; a24] =>
      let bc0 := a0 ⊕ a5 ⊕ a10 ⊕ a15 ⊕ a20 in
      let bc1 := a1 ⊕ a6 ⊕ a11 ⊕ a16 ⊕ a21 in
      let bc2 := a2 ⊕ a7 ⊕ a12 ⊕ a17 ⊕ a22 in
      let bc3 := a3 ⊕ a8 ⊕ a13 ⊕ a18 ⊕ a23 in
      let bc4 := a4 ⊕ a9 ⊕ a14 ⊕ a19 ⊕ a24 in
      let d0 := bc4 ⊕ rotl bc1 1 in
      let d1 := bc0 ⊕ rotl bc2 1 in
      let d2 := bc1 ⊕ rotl bc3 1 in
      let d3 := bc2 ⊕ rotl bc4 1 in
      let d4 := bc3 ⊕ rotl bc0 1 in
      let bc0 := a0 ⊕ d0 in
      let t := a6 ⊕ d1 in
      let bc1 := rotl t 44 in
      let t := a12 ⊕ d2 in
      let bc2 := rotl t 43 in
      let t := a18 ⊕ d3 in
      let bc3 := rotl t 21 in
      let t := a24 ⊕ d4 in
      let bc4 := rotl t 14 in
      let a0 := bc0 ⊕ (bc2 &^ bc1) ⊕ rc_i in
      let a6 := bc1 ⊕ (bc3 &^ bc2) in
      let a12 := bc2 ⊕ (bc4 &^ bc3) in
      let a18 := bc3 ⊕ (bc0 &^ bc4) in
      let a24 := bc4 ⊕ (bc1 &^ bc0) in
      let t := a10 ⊕ d0 in
      let bc2 := rotl t 3 in
      let t := a16 ⊕ d1 in
      let bc3 := rotl t 45 in
      let t := a22 ⊕ d2 in
      let bc4 := rotl t 61 in
      let t := a3 ⊕ d3 in
      let bc0 := rotl t 28 in
      let t := a9 ⊕ d4 in
      let bc1 := rotl t 20 in
      let a10 := bc0 ⊕ (bc2 &^ bc1) in
      let a16 := bc1 ⊕ (bc3 &^ bc2) in
      let a22 := bc2 ⊕ (bc4 &^ bc3) in
      let a3 := bc3 ⊕ (bc0 &^ bc4) in
      let a9 := bc4 ⊕ (bc1 &^ bc0) in
      let t := a20 ⊕ d0 in
      let bc4 := rotl t 18 in
      let t := a1 ⊕ d1 in
      let bc0 := rotl t 1 in
      let t := a7 ⊕ d2 in
      let bc1 := rotl t 6 in
      let t := a13 ⊕ d3 in
      let bc2 := rotl t 25 in
      let t := a19 ⊕ d4 in
      let bc3 := rotl t 8 in
      let a20 := bc0 ⊕ (bc2 &^ bc1) in
      let a1 := bc1 ⊕ (bc3 &^ bc2) in
      let a7 := bc2 ⊕ (bc4 &^ bc3) in
      let a13 := bc3 ⊕ (bc0 &^ bc4) in
      let a19 := bc4 ⊕ (bc1 &^ bc0) in
      let t := a5 ⊕ d0 in
      let bc1 := rotl t 36 in
      let t := a11 ⊕ d1 in
      let bc2 := rotl t 10 in
      let t := a17 ⊕ d2 in
      let bc3 := rotl t 15 in
      let t := a23 ⊕ d3 in
      let bc4 := rotl t 56 in
      let t := a4 ⊕ d4 in
      let bc0 := rotl t 27 in
      let a5 := bc0 ⊕ (bc2 &^ bc1) in
      let a11 := bc1 ⊕ (bc3 &^ bc2) in
      let a17 := bc2 ⊕ (bc4 &^ bc3) in
      let a23 := bc3 ⊕ (bc0 &^ bc4) in
      let a4 := bc4 ⊕ (bc1 &^ bc0) in
      let t := a15 ⊕ d0 in
      let bc3 := rotl t 41 in
      let t := a21 ⊕ d1 in
      let bc4 := rotl t 2 in
      let t := a2 ⊕ d2 in
      let bc0 := rotl t 62 in
      let t := a8 ⊕ d3 in
      let bc1 := rotl t 55 in
      let t := a14 ⊕ d4 in
      let bc2 := rotl t 39 in
      let a15 := bc0 ⊕ (bc2 &^ bc1) in
      let a21 := bc1 ⊕ (bc3 &^ bc2) in
      let a2 := bc2 ⊕ (bc4 &^ bc3) in
      let a8 := bc3 ⊕ (bc0 &^ bc4) in
      let a14 := bc4 ⊕ (bc1 &^ bc0) in
      [a0; a1; a2; a3; a4; a5; a6; a7; a8; a9; a10; a11; a12;
       a13; a14; a15; a16; a17; a18; a19; a20; a21; a22; a23; a24]
  | _ => a
  end.

Definition round2 (rc_i : Z) (a : list Z) : list Z :=
  match a with
  | [a0; a1; a2; a3; a4; a5; a6; a7; a8; a9; a10; a11; a12;
     a13; a14; a15; a16; a17; a18; a19; a20; a21; a22; a23; a24] =>
      let bc0 := a0 ⊕ a5 ⊕ a10 ⊕ a15 ⊕ a20 in
      let bc1 := a1 ⊕ a6 ⊕ a11 ⊕ a16 ⊕ a21 in
      let bc2 := a2 ⊕ a7 ⊕ a12 ⊕ a17 ⊕ a22 in
      let bc3 := a3 ⊕ a8 ⊕ a13 ⊕ a18 ⊕ a23 in
      let bc4 := a4 ⊕ a9 ⊕ a14 ⊕ a19 ⊕ a24 in
      let d0 := bc4 ⊕ rotl bc1 1 in
      let d1 := bc0 ⊕ rotl bc2 1 in
      let d2 := bc1 ⊕ rotl bc3 1 in
      let d3 := bc2 ⊕ rotl bc4 1 in
      let d4 := bc3 ⊕ rotl bc0 1 in
      let bc0 := a0 ⊕ d0 in
      let t := a16 ⊕ d1 in
      let bc1 := rotl t 44 in
      let t := a7 ⊕ d2 in
      let bc2 := rotl t 43 in
      let t := a23 ⊕ d3 in
      let bc3 := rotl t 21 in
      let t := a14 ⊕ d4 in
      let bc4 := rotl t 14 in
      let a0 := bc0 ⊕ (bc2 &^ bc1) ⊕ rc_i in
      let a16 := bc1 ⊕ (bc3 &^ bc2) in
      let a7 := bc2 ⊕ (bc4 &^ bc3) in
      let a23 := bc3 ⊕ (bc0 &^ bc4) in
      let a14 := bc4 ⊕ (bc1 &^ bc0) in
      let t := a20 ⊕ d0 in
      let bc2 := rotl t 3 in
      let t := a11 ⊕ d1 in
      let bc3 := rotl t 45 in
      let t := a2 ⊕ d2 in
      let bc4 := rotl t 61 in
      let t := a18 ⊕ d3 in
      let bc0 := rotl t 28 in
      let t := a9 ⊕ d4 in
      let bc1 := rotl t 20 in
      let a20 := bc0 ⊕ (bc2 &^ bc1) in
      let a11 := bc1 ⊕ (bc3 &^ bc2) in
      let a2 := bc2 ⊕ (bc4 &^ bc3) in
      let a18 := bc3 ⊕ (bc0 &^ bc4) in
      let a9 := bc4 ⊕ (bc1 &^ bc0) in
      let t := a15 ⊕ d0 in
      let bc4 := rotl t 18 in
      let t := a6 ⊕ d1 in
      let bc0 := rotl t 1 in
      let t := a22 ⊕ d2 in
      let bc1 := rotl t 6 in
      let t := a13 ⊕ d3 in
      let bc2 := rotl t 25 in
      let t := a4 ⊕ d4 in
      let bc3 := rotl t 8 in
      let a15 := bc0 ⊕ (bc2 &^ bc1) in
      let a6 := bc1 ⊕ (bc3 &^ bc2) in
      let a22 := bc2 ⊕ (bc4 &^ bc3) in
      let a13 := bc3 ⊕ (bc0 &^ bc4) in
      let a4 := bc4 ⊕ (bc1 &^ bc0) in
      let t := a10 ⊕ d0 in
      let bc1 := rotl t 36 in
      let t := a1 ⊕ d1 in
      let bc2 := rotl t 10 in
      let t := a17 ⊕ d2 in
      let bc3 := rotl t 15 in
      let t := a8 ⊕ d3 in
      let bc4 := rotl t 56 in
      let t := a24 ⊕ d4 in
      let bc0 := rotl t 27 in
      let a10 := bc0 ⊕ (bc2 &^ bc1) in
      let a1 := bc1 ⊕ (bc3 &^ bc2) in
      let a17 := bc2 ⊕ (bc4 &^ bc3) in
      let a8 := bc3 ⊕ (bc0 &^ bc4) in
      let a24 := bc4 ⊕ (bc1 &^ bc0) in
      let t := a5 ⊕ d0 in
      let bc3 := rotl t 41 in
      let t := a21 ⊕ d1 in
      let bc4 := rotl t 2 in
      let t := a12 ⊕ d2 in
      let bc0 := rotl t 62 in
      let t := a3 ⊕ d3 in
      let bc1 := rotl t 55 in
      let t := a19 ⊕ d4 in
      let bc2 := rotl t 39 in
      let a5 := bc0 ⊕ (bc2 &^ bc1) in
      let a21 := bc1 ⊕ (bc3 &^ bc2) in
      let a12 := bc2 ⊕ (bc4 &^ bc3) in
      let a3 := bc3 ⊕ (bc0 &^ bc4) in
      let a19 := bc4 ⊕ (bc1 &^ bc0) in
      [a0; a1; a2; a3; a4; a5; a6; a7; a8; a9; a10; a11; a12;
       a13; a14; a15; a16; a17; a18; a19; a20; a21; a22; a23; a24]
  | _ => a
  end.

Definition round3 (rc_i : Z) (a : list Z) : list Z :=
  match a with
  | [a0; a1; a2; a3; a4; a5; a6; a7; a8; a9; a10; a11; a12;
     a13; a14; a15; a16; a17; a18; a19; a20; a21; a22; a23; a24] =>
      let bc0 := a0 ⊕ a5 ⊕ a10 ⊕ a15 ⊕ a20 in
      let bc1 := a1 ⊕ a6 ⊕ a11 ⊕ a16 ⊕ a21 in
      let bc2 := a2 ⊕ a7 ⊕ a12 ⊕ a17 ⊕ a22 in
      let bc3 := a3 ⊕ a8 ⊕ a13 ⊕ a18 ⊕ a23 in
      let bc4 := a4 ⊕ a9 ⊕ a14 ⊕ a19 ⊕ a24 in
      let d0 := bc4 ⊕ rotl bc1 1 in
      let d1 := bc0 ⊕ rotl bc2 1 in
      let d2 := bc1 ⊕ rotl bc3 1 in
      let d3 := bc2 ⊕ rotl bc4 1 in
      let d4 := bc3 ⊕ rotl bc0 1 in
      let bc0 := a0 ⊕ d0 in
      let t := a11 ⊕ d1 in
      let bc1 := rotl t 44 in
      let t := a22 ⊕ d2 in
      let bc2 := rotl t 43 in
      let t := a8 ⊕ d3 in
      let bc3 := rotl t 21 in
      let t := a19 ⊕ d4 in
      let bc4 := rotl t 14 in
      let a0 := bc0 ⊕ (bc2 &^ bc1) ⊕ rc_i in
      let a11 := bc1 ⊕ (bc3 &^ bc2) in
      let a22 := bc2 ⊕ (bc4 &^ bc3) in
      let a8 := bc3 ⊕ (bc0 &^ bc4) in
      let a19 := bc4 ⊕ (bc1 &^ bc0) in
      let t := a15 ⊕ d0 in
      let bc2 := rotl t 3 in
      let t := a1 ⊕ d1 in
      let bc3 := rotl t 45 in
      let t := a12 ⊕ d2 in
      let bc4 := rotl t 61 in
      let t := a23 ⊕ d3 in
      let bc0 := rotl t 28 in
      let t := a9 ⊕ d4 in
      let bc1 := rotl t 20 in
      let a15 := bc0 ⊕ (bc2 &^ bc1) in
      let a1 := bc1 ⊕ (bc3 &^ bc2) in
      let a12 := bc2 ⊕ (bc4 &^ bc3) in
      let a23 := bc3 ⊕ (bc0 &^ bc4) in
      let a9 := bc4 ⊕ (bc1 &^ bc0) in
      let t := a5 ⊕ d0 in
      let bc4 := rotl t 18 in
      let t := a16 ⊕ d1 in
      let bc0 := rotl t 1 in
      let t := a2 ⊕ d2 in
      let bc1 := rotl t 6 in
      let t := a13 ⊕ d3 in
      let bc2 := rotl t 25 in
      let t := a24 ⊕ d4 in
      let bc3 := rotl t 8 in
      let a5 := bc0 ⊕ (bc2 &^ bc1) in
      let a16 := bc1 ⊕ (bc3 &^ bc2) in
      let a2 := bc2 ⊕ (bc4 &^ bc3) in
      let a13 := bc3 ⊕ (bc0 &^ bc4) in
      let a24 := bc4 ⊕ (bc1 &^ bc0) in
      let t := a20 ⊕ d0 in
      let bc1 := rotl t 36 in
      let t := a6 ⊕ d1 in
      let bc2 := rotl t 10 in
      let t := a17 ⊕ d2 in
      let bc3 := rotl t 15 in
      let t := a3 ⊕ d3 in
      let bc4 := rotl t 56 in
      let t := a14 ⊕ d4 in
      let bc0 := rotl t 27 in
      let a20 := bc0 ⊕ (bc2 &^ bc1) in
      let a6 := bc1 ⊕ (bc3 &^ bc2) in
      let a17 := bc2 ⊕ (bc4 &^ bc3) in
      let a3 := bc3 ⊕ (bc0 &^ bc4) in
      let a14 := bc4 ⊕ (bc1 &^ bc0) in
      let t := a10 ⊕ d0 in
      let bc3 := rotl t 41 in
      let t := a21 ⊕ d1 in
      let bc4 := rotl t 2 in
      let t := a7 ⊕ d2 in
      let bc0 := rotl t 62 in
      let t := a18 ⊕ d3 in
      let bc1 := rotl t 55 in
      let t := a4 ⊕ d4 in
      let bc2 := rotl t 39 in
      let a10 := bc0 ⊕ (bc2 &^ bc1) in
      let a21 := bc1 ⊕ (bc3 &^ bc2) in
      let a7 := bc2 ⊕ (bc4 &^ bc3) in
      let a18 := bc3 ⊕ (bc0 &^ bc4) in
      let a4 := bc4 ⊕ (bc1 &^ bc0) in
      [a0; a1; a2; a3; a4; a5; a6; a7; a8; a9; a10; a11; a12;
       a13; a14; a15; a16; a17; a18; a19; a20; a21; a22; a23; a24]
  | _ => a
  end.

Definition round4 (rc_i : Z) (a : list Z) : list Z :=
  match a with
  | [a0; a1; a2; a3; a4; a5; a6; a7; a8; a9; a10; a11; a12;
     a13; a14; a15; a16; a17; a18; a19; a20; a21; a22; a23; a24] =>
      let bc0 := a0 ⊕ a5 ⊕ a10 ⊕ a15 ⊕ a20 in
      let bc1 := a1 ⊕ a6 ⊕ a11 ⊕ a16 ⊕ a21 in
      let bc2 := a2 ⊕ a7 ⊕ a12 ⊕ a17 ⊕ a22 in
      let bc3 := a3 ⊕ a8 ⊕ a13 ⊕ a18 ⊕ a23 in
      let bc4 := a4 ⊕ a9 ⊕ a14 ⊕ a19 ⊕ a24 in
      let d0 := bc4 ⊕ rotl bc1 1 in
      let d1 := bc0 ⊕ rotl bc2 1 in
      let d2 := bc1 ⊕ rotl bc3 1 in
      let d3 := bc2 ⊕ rotl bc4 1 in
      let d4 := bc3 ⊕ rotl bc0 1 in
      let bc0 := a0 ⊕ d0 in
      let t := a1 ⊕ d1 in
      let bc1 := rotl t 44 in
      let t := a2 ⊕ d2 in
      let bc2 := rotl t 43 in
      let t := a3 ⊕ d3 in
      let bc3 := rotl t 21 in
      let t := a4 ⊕ d4 in
      let bc4 := rotl t 14 in
      let a0 := bc0 ⊕ (bc2 &^ bc1) ⊕ rc_i in
      let a1 := bc1 ⊕ (bc3 &^ bc2) in
      let a2 := bc2 ⊕ (bc4 &^ bc3) in
      let a3 := bc3 ⊕ (bc0 &^ bc4) in
      let a4 := bc4 ⊕ (bc1 &^ bc0) in
      let t := a5 ⊕ d0 in
      let bc2 := rotl t 3 in
      let t := a6 ⊕ d1 in
      let bc3 := rotl t 45 in
      let t := a7 ⊕ d2 in
      let bc4 := rotl t 61 in
      let t := a8 ⊕ d3 in
      let bc0 := rotl t 28 in
      let t := a9 ⊕ d4 in
      let bc1 := rotl t 20 in
      let a5 := bc0 ⊕ (bc2 &^ bc1) in
      let a6 := bc1 ⊕ (bc3 &^ bc2) in
      let a7 := bc2 ⊕ (bc4 &^ bc3) in
      let a8 := bc3 ⊕ (bc0 &^ bc4) in
      let a9 := bc4 ⊕ (bc1 &^ bc0) in
      let t := a10 ⊕ d0 in
      let bc4 := rotl t 18 in
      let t := a11 ⊕ d1 in
      let bc0 := rotl t 1 in
      let t := a12 ⊕ d2 in
      let bc1 := rotl t 6 in
      let t := a13 ⊕ d3 in
      let bc2 := rotl t 25 in
      let t := a14 ⊕ d4 in
      let bc3 := rotl t 8 in
      let a10 := bc0 ⊕ (bc2 &^ bc1) in
      let a11 := bc1 ⊕ (bc3 &^ bc2) in
      let a12 := bc2 ⊕ (bc4 &^ bc3) in
      let a13 := bc3 ⊕ (bc0 &^ bc4) in
      let a14 := bc4 ⊕ (bc1 &^ bc0) in
      let t := a15 ⊕ d0 in
      let bc1 := rotl t 36 in
      let t := a16 ⊕ d1 in
      let bc2 := rotl t 10 in
      let t := a17 ⊕ d2 in
      let bc3 := rotl t 15 in
      let t := a18 ⊕ d3 in
      let bc4 := rotl t 56 in
      let t := a19 ⊕ d4 in
      let bc0 := rotl t 27 in
      let a15 := bc0 ⊕ (bc2 &^ bc1) in
      let a16 := bc1 ⊕ (bc3 &^ bc2) in
      let a17 := bc2 ⊕ (bc4 &^ bc3) in
      let a18 := bc3 ⊕ (bc0 &^ bc4) in
      let a19 := bc4 ⊕ (bc1 &^ bc0) in
      let t := a20 ⊕ d0 in
      let bc3 := rotl t 41 in
      let t := a21 ⊕ d1 in
      let bc4 := rotl t 2 in
      let t := a22 ⊕ d2 in
      let bc0 := rotl t 62 in
      let t := a23 ⊕ d3 in
      let bc1 := rotl t 55 in
      let t := a24 ⊕ d4 in
      let bc2 := rotl t 39 in
      let a20 := bc0 ⊕ (bc2 &^ bc1) in
      let a21 := bc1 ⊕ (bc3 &^ bc2) in
      let a22 := bc2 ⊕ (bc4 &^ bc3) in
      let a23 := bc3 ⊕ (bc0 &^ bc4) in
      let a24 := bc4 ⊕ (bc1 &^ bc0) in
      [a0; a1; a2; a3; a4; a5; a6; a7; a8; a9; a10; a11; a12;
       a13; a14; a15; a16; a17; a18; a19; a20; a21; a22; a23; a24]
  | _ => a
  end.

(** The body of the loop at [i]. *)
Definition keccak_body (i : nat) (a : list Z) : list Z :=
  let a := round1 (rc !!! i) a in
  let a := round2 (rc !!! (i + 1)%nat) a in
  let a := round3 (rc !!! (i + 2)%nat) a in
  round4 (rc !!! (i + 3)%nat) a.

(** [for ; ...; i += 4] with [n] iterations left. *)
Fixpoint loop_by4 {A} (body : nat -> A -> A) (n i : nat) (a : A) : A :=
  match n with
  | O => a
  | S n' => loop_by4 body n' (i + 4) (body i a)
  end.

Definition keccakF1600 (a : list Z) : list Z := loop_by4 keccak_body 6 0 a.

(** ** FIPS 202, section 3: the step mappings on the bits [A x y z] *)

Definition cube := nat -> nat -> Z -> bool.

Definition column (A : cube) (x : nat) (z : Z) : bool :=
  xorb (xorb (xorb (xorb (A x 0%nat z) (A x 1%nat z)) (A x 2%nat z)) (A x 3%nat z)) (A x 4%nat z).

Definition theta (A : cube) : cube := fun x y z =>
  xorb (A x y z) (xorb (column A ((x + 4) mod 5)%nat z) (column A ((x + 1) mod 5)%nat ((z - 1) mod 64))).

(** The offset of lane [(x, y)]: [(t+1)(t+2)/2] for the [t]-th lane of the walk
    [(x, y) -> (y, 2x+3y)] from [(1, 0)]. *)
Fixpoint walk_offset (n t : nat) (wx wy x y : nat) : Z :=
  match n with
  | O => 0
  | S n' =>
      if decide (wx = x /\ wy = y) then Z.of_nat ((t + 1) * (t + 2) / 2) mod 64
      else walk_offset n' (S t) wy ((2 * wx + 3 * wy) mod 5)%nat x y
  end.

Definition rho_offset (x y : nat) : Z := walk_offset 24 0 1 0 x y.

Definition rho (A : cube) : cube := fun x y z => A x y ((z - rho_offset x y) mod 64).

Definition pi_step (A : cube) : cube := fun x y z => A ((x + 3 * y) mod 5)%nat x z.

Definition chi (A : cube) : cube := fun x y z =>
  xorb (A x y z) (negb (A ((x + 1) mod 5)%nat y z) && A ((x + 2) mod 5)%nat y z).

(** The linear feedback shift register behind the round constants. *)
Definition lfsr_step (R : list bool) : list bool :=
  match R with
  | [r0; r1; r2; r3; r4; r5; r6; r7] => [r7; r0; r1; r2; xorb r3 r7; xorb r4 r7; xorb r5 r7; r6]
  | _ => R
  end.

Definition rc_bit (t : nat) : bool :=
  default false (Nat.iter (t mod 255) lfsr_step (true :: replicate 7 false) !! 0%nat).

(** Bit [z] of the constant of round [ir]: set only at the positions [2^j - 1]. *)
Definition round_constant (ir : nat) (z : Z) : bool :=
  existsb (fun j => (z =? 2 ^ Z.of_nat j - 1) && rc_bit (j + 7 * ir)) (seq 0 7).

Definition iota (ir : nat) (A : cube) : cube := fun x y z =>
  if decide (x = 0%nat /\ y = 0%nat) then xorb (A x y z) (round_constant ir z) else A x y z.

Definition Rnd (A : cube) (ir : nat) : cube := iota ir (chi (pi_step (rho (theta A)))).

Definition keccak_f (A : cube) : cube := foldl Rnd A (seq 0 24).

(** The bits of an array of 25 lanes. *)
Definition cube_of (a : list Z) : cube := fun x y z => Z.testbit (a !!! (x + 5 * y)%nat) z.

(** ** Rotation *)

Lemma rotl_testbit x n z :
  is_uint 64 x -> 0 <= n < 64 -> 0 <= z < 64 -> Z.testbit (rotl x n) z = Z.testbit x ((z - n) mod 64).
Proof.
  intros Hx Hn Hz. unfold rotl, u64.
  rewrite Z.lor_spec, Z.mod_pow2_bits_low, Z.shiftl_spec, Z.shiftr_spec by lia.
  destruct (Z.ltb_spec z n) as [Hlt|Hge].
  - rewrite Z.testbit_neg_r by lia. simpl. f_equal.
    apply (Z.mod_unique _ _ (-1)); lia.
  - rewrite (Z.mod_small (z - n)) by lia.
    rewrite (Z.bits_above_log2 x (z + (64 - n))), orb_false_r; [done|unfold is_uint in Hx; lia|].
    destruct (decide (x = 0)) as [->|]; [simpl; lia|].
    apply Z.log2_lt_pow2; unfold is_uint in Hx; [lia|].
    apply Z.lt_le_trans with (2 ^ 64); [lia|]. apply Z.pow_le_mono_r; lia.
Qed.

Lemma uint64_bits x : 0 <= x -> (forall z, 64 <= z -> Z.testbit x z = false) -> is_uint 64 x.
Proof.
  intros Hx Hb. split; [done|]. destruct (Z.ltb_spec x (2 ^ 64)) as [|Hge]; [done|].
  assert (64 <= Z.log2 x) as Hl by (apply Z.log2_le_pow2; lia).
  specialize (Hb _ Hl). rewrite Z.bit_log2 in Hb by lia. done.
Qed.

Lemma rotl_uint x n : is_uint 64 x -> 0 <= n < 64 -> is_uint 64 (rotl x n).
Proof.
  intros Hx Hn. unfold rotl, is_uint in *. apply lor_uint; [lia| |].
  - unfold is_uint, u64. apply Z.mod_pos_bound. lia.
  - unfold is_uint. rewrite Z.shiftr_div_pow2 by lia. split; [apply Z.div_pos; lia|].
    apply Z.le_lt_trans with x; [|lia]. apply Z.div_le_upper_bound; nia.
Qed.

Lemma ldiff_uint x y : is_uint 64 x -> is_uint 64 y -> is_uint 64 (Z.ldiff x y).
Proof.
  intros Hx Hy. apply uint64_bits; [apply Z.ldiff_nonneg; unfold is_uint in *; lia|].
  intros z Hz. rewrite Z.ldiff_spec, (Z.bits_above_log2 x); [done|unfold is_uint in *; lia|].
  destruct (decide (x = 0)) as [->|]; [simpl; lia|].
  apply Z.log2_lt_pow2; unfold is_uint in *; [lia|].
  apply Z.lt_le_trans with (2 ^ 64); [lia|]. apply Z.pow_le_mono_r; lia.
Qed.

(** ** A round on lanes

    The rounds of the code are compared with a round on lanes numbered as in
    the standard.  Round [k] finds lane [i] at position [place<k> !!! i] and adds
    the lanes of a column in the order [order<k>]. *)
Definition rot (x n : Z) : Z := if n =? 0 then x else rotl x n.

Definition sum_of (L : nat -> Z) (x : nat) (ys : list nat) : Z :=
  match ys with
  | [] => 0
  | y :: ys => foldl (fun s y => s ⊕ L (x + 5 * y)%nat) (L (x + 5 * y)%nat) ys
  end.

Definition offsets : list Z :=
  Eval vm_compute in map (fun i => rho_offset (i mod 5) (i / 5)) (seq 0 25).

Section LaneRound.
Context (order : list (list nat)) (rc_i : Z) (L : nat -> Z).

Definition lane_d (x : nat) : Z :=
  sum_of L ((x + 4) mod 5) (order !!! ((x + 4) mod 5)%nat) ⊕
  rotl (sum_of L ((x + 1) mod 5) (order !!! ((x + 1) mod 5)%nat)) 1.

Definition lane_b (x y : nat) : Z :=
  let x' := ((x + 3 * y) mod 5)%nat in
  rot (L (x' + 5 * x)%nat ⊕ lane_d x') (offsets !!! (x' + 5 * x)%nat).

Definition lane_round (i : nat) : Z :=
  let x := (i mod 5)%nat in
  let y := (i / 5)%nat in
  let b := lane_b x y ⊕ (lane_b ((x + 2) mod 5) y &^ lane_b ((x + 1) mod 5) y) in
  if decide (i = 0%nat) then b ⊕ rc_i else b.
End LaneRound.

Definition place1 : list nat := Eval vm_compute in seq 0 25.
Definition place2 : list nat :=
  [0; 6; 12; 18; 24; 10; 16; 22; 3; 9; 20; 1; 7; 13; 19; 5; 11; 17; 23; 4; 15; 21; 2; 8; 14]%nat.
Definition place3 : list nat := Eval vm_compute in map (fun i => place2 !!! (place2 !!! i)) (seq 0 25).
Definition place4 : list nat := Eval vm_compute in map (fun i => place2 !!! (place3 !!! i)) (seq 0 25).

(** The rows of the standard at the positions [x], [x + 5], ..., [x + 20]. *)
Definition row_at (place : list nat) (p : nat) : nat :=
  match list_find (fun q => q = p) place with Some (i, _) => (i / 5)%nat | None => 0%nat end.
Definition column_order (place : list nat) : list (list nat) :=
  map (fun x => map (fun r => row_at place (x + 5 * r)) (seq 0 5)) (seq 0 5).
Definition order1 : list (list nat) := Eval vm_compute in column_order place1.
Definition order2 : list (list nat) := Eval vm_compute in column_order place2.
Definition order3 : list (list nat) := Eval vm_compute in column_order place3.
Definition order4 : list (list nat) := Eval vm_compute in column_order place4.

Definition lanes (place : list nat) (a : list Z) : nat -> Z := fun i => a !!! (place !!! i).

Lemma list_25 {A} (a : list A) : length a = 25%nat ->
  exists a0 a1 a2 a3 a4 a5 a6 a7 a8 a9 a10 a11 a12 a13 a14 a15 a16 a17 a18 a19 a20 a21 a22 a23 a24,
    a = [a0; a1; a2; a3; a4; a5; a6; a7; a8; a9; a10; a11; a12;
         a13; a14; a15; a16; a17; a18; a19; a20; a21; a22; a23; a24].
Proof.
  intros Hl. do 25 (destruct a as [|? a]; [done|]). destruct a; [|done]. by do 25 eexists.
Qed.

(** The conversion checks below compare words operation by operation. *)
#[local] Strategy 100 [Z.lxor Z.ldiff rotl].

Ltac lane_cases i :=
  intros (a0 & a1 & a2 & a3 & a4 & a5 & a6 & a7 & a8 & a9 & a10 & a11 & a12 & a13 & a14 & a15 &
    a16 & a17 & a18 & a19 & a20 & a21 & a22 & a23 & a24 & ->)%list_25 Hi;
  do 25 (destruct i as [|i]; [reflexivity|]); lia.

Lemma round1_lanes k a i : length a = 25%nat -> (i < 25)%nat ->
  lanes place2 (round1 k a) i = lane_round order1 k (lanes place1 a) i.
Proof. lane_cases i. Qed.

Lemma round2_lanes k a i : length a = 25%nat -> (i < 25)%nat ->
  lanes place3 (round2 k a) i = lane_round order2 k (lanes place2 a) i.
Proof. lane_cases i. Qed.

Lemma round3_lanes k a i : length a = 25%nat -> (i < 25)%nat ->
  lanes place4 (round3 k a) i = lane_round order3 k (lanes place3 a) i.
Proof. lane_cases i. Qed.

Lemma round4_lanes k a i : length a = 25%nat -> (i < 25)%nat ->
  lanes place1 (round4 k a) i = lane_round order4 k (lanes place4 a) i.
Proof. lane_cases i. Qed.

(** ** The bits of a round *)

Definition cube_eq (A B : cube) : Prop :=
  forall x y z, (x < 5)%nat -> (y < 5)%nat -> 0 <= z < 64 -> A x y z = B x y z.

#[export] Instance cube_eq_equivalence : Equivalence cube_eq.
Proof.
  split; [by intros A x y z|intros A B H x y z ???; symmetry; auto|].
  intros A B C H1 H2 x y z ???. rewrite H1 by done. auto.
Qed.

Lemma mod5 x : (x mod 5 < 5)%nat.
Proof. apply Nat.mod_upper_bound. lia. Qed.
Lemma mod64 z : 0 <= z mod 64 < 64.
Proof. apply Z.mod_pos_bound. lia. Qed.
#[local] Hint Resolve mod5 mod64 : core.

#[export] Instance theta_proper : Proper (cube_eq ==> cube_eq) theta.
Proof.
  intros A B H x y z ???. unfold theta, column.
  rewrite !H; auto with lia.
Qed.

#[export] Instance Rnd_proper : Proper (cube_eq ==> eq ==> cube_eq) Rnd.
Proof.
  intros A B H ir _ <- x y z Hx Hy Hz. apply theta_proper in H.
  unfold Rnd, iota, chi, pi_step, rho. rewrite !H by auto. done.
Qed.

(** Every lane is a word. *)
Definition words (L : nat -> Z) : Prop := forall i, (i < 25)%nat -> is_uint 64 (L i).
Definition lane_cube (L : nat -> Z) : cube := fun x y z => Z.testbit (L (x + 5 * y)%nat) z.

(** An order in which each column is added up once. *)
Definition good_order (order : list (list nat)) : Prop :=
  forall x, (x < 5)%nat -> order !!! x ≡ₚ seq 0 5.

Lemma foldl_xor_bits L x ys s z :
  Z.testbit (foldl (fun s y => s ⊕ L (x + 5 * y)%nat) s ys) z =
  foldl xorb (Z.testbit s z) (map (fun y => Z.testbit (L (x + 5 * y)%nat) z) ys).
Proof.
  revert s. induction ys as [|y ys IH]; intros s; simpl; [done|]. by rewrite IH, Z.lxor_spec.
Qed.

Lemma foldl_xorb_perm l l' b : l ≡ₚ l' -> foldl xorb b l = foldl xorb b l'.
Proof.
  intros Hp. revert b. induction Hp; intros b; simpl; auto.
  - by rewrite !xorb_assoc, (xorb_comm x).
  - by rewrite IHHp1.
Qed.

Lemma sum_of_bits L x ys z : ys ≡ₚ seq 0 5 ->
  Z.testbit (sum_of L x ys) z = column (lane_cube L) x z.
Proof.
  intros Hp. unfold sum_of. destruct ys as [|y ys]; [by apply Permutation_nil_l in Hp|].
  rewrite foldl_xor_bits.
  transitivity (foldl xorb false (map (fun y => Z.testbit (L (x + 5 * y)%nat) z) (y :: ys)));
    [by cbn [map foldl]; rewrite xorb_false_l|].
  rewrite (foldl_xorb_perm _ (map (fun y => Z.testbit (L (x + 5 * y)%nat) z) (seq 0 5)))
    by (by apply Permutation_map).
  cbn [map foldl seq]. by rewrite xorb_false_l.
Qed.

Lemma foldl_xor_word L x ys s : words L -> (x < 5)%nat -> Forall (fun y => y < 5)%nat ys ->
  is_uint 64 s -> is_uint 64 (foldl (fun s y => s ⊕ L (x + 5 * y)%nat) s ys).
Proof.
  intros HL Hx Hys. revert s. induction Hys; intros s Hs; simpl; [done|].
  apply IHHys, lxor_uint; [lia|done|]. apply HL. lia.
Qed.

Lemma sum_of_word L x ys : words L -> (x < 5)%nat -> ys ≡ₚ seq 0 5 -> is_uint 64 (sum_of L x ys).
Proof.
  intros HL Hx Hp. assert (Forall (fun y => y < 5)%nat ys) as Hys.
  { rewrite Hp. by repeat constructor. }
  destruct Hys; simpl; [done|]. apply foldl_xor_word; auto. apply HL. lia.
Qed.

Lemma offsets_spec x y : (x < 5)%nat -> (y < 5)%nat ->
  offsets !!! (x + 5 * y)%nat = rho_offset x y /\ 0 <= rho_offset x y < 64.
Proof.
  intros Hx Hy. do 5 (destruct x as [|x]; [do 5 (destruct y as [|y]; [by vm_compute|]); lia|]). lia.
Qed.

Section RoundBits.
Context (order : list (list nat)) (rc_i : Z) (ir : nat) (L : nat -> Z).
Hypothesis (Horder : good_order order) (HL : words L) (Hrc : is_uint 64 rc_i).
Hypothesis Hbits : forall z, 0 <= z < 64 -> Z.testbit rc_i z = round_constant ir z.

Lemma lane_d_word x : is_uint 64 (lane_d order L x).
Proof.
  unfold lane_d. apply lxor_uint; [lia| |apply rotl_uint; [|lia]]; apply sum_of_word; auto.
Qed.

Lemma theta_bits x y z : (x < 5)%nat -> (y < 5)%nat -> 0 <= z < 64 ->
  Z.testbit (L (x + 5 * y)%nat ⊕ lane_d order L x) z = theta (lane_cube L) x y z.
Proof.
  intros Hx Hy Hz. unfold theta, lane_d. rewrite !Z.lxor_spec.
  rewrite rotl_testbit by (try lia; apply sum_of_word; auto).
  rewrite !sum_of_bits by auto. done.
Qed.

Lemma lane_b_word x y : (x < 5)%nat -> (y < 5)%nat -> is_uint 64 (lane_b order L x y).
Proof.
  intros Hx Hy. unfold lane_b, rot.
  destruct (offsets_spec ((x + 3 * y) mod 5) x) as [-> ?]; auto.
  assert (is_uint 64 (L ((x + 3 * y) mod 5 + 5 * x)%nat ⊕ lane_d order L ((x + 3 * y) mod 5))).
  { apply lxor_uint; [lia| |apply lane_d_word]. apply HL. pose proof (mod5 (x + 3 * y)). lia. }
  destruct (_ =? 0); auto using rotl_uint.
Qed.

Lemma lane_b_bits x y z : (x < 5)%nat -> (y < 5)%nat -> 0 <= z < 64 ->
  Z.testbit (lane_b order L x y) z = pi_step (rho (theta (lane_cube L))) x y z.
Proof.
  intros Hx Hy Hz. unfold lane_b, rot, pi_step, rho. pose proof (mod5 (x + 3 * y)) as Hx'.
  destruct (offsets_spec ((x + 3 * y) mod 5) x) as [-> ?]; auto.
  destruct (Z.eqb_spec (rho_offset ((x + 3 * y) mod 5) x) 0) as [->|].
  - rewrite Z.sub_0_r, Z.mod_small by lia. by rewrite theta_bits.
  - rewrite rotl_testbit; [by rewrite theta_bits| |done|done].
    apply lxor_uint; [lia| |apply lane_d_word]. apply HL. lia.
Qed.

Lemma lane_round_word i : (i < 25)%nat -> is_uint 64 (lane_round order rc_i L i).
Proof.
  intros Hi. unfold lane_round.
  assert (i / 5 < 5)%nat by (apply Nat.Div0.div_lt_upper_bound; lia).
  destruct (decide _); repeat (apply lxor_uint; [lia| |]); auto using lane_b_word, ldiff_uint.
Qed.

Lemma lane_round_bits : cube_eq (lane_cube (lane_round order rc_i L)) (Rnd (lane_cube L) ir).
Proof.
  intros x y z Hx Hy Hz. unfold lane_cube at 1, lane_round, Rnd, iota.
  replace ((x + 5 * y) mod 5)%nat with x
    by (rewrite Nat.mul_comm, Nat.Div0.mod_add, Nat.mod_small; lia).
  replace ((x + 5 * y) / 5)%nat with y by (rewrite Nat.mul_comm, Nat.div_add, Nat.div_small; lia).
  assert (Z.testbit (lane_b order L x y ⊕ (lane_b order L ((x + 2) mod 5) y &^ lane_b order L ((x + 1) mod 5) y)) z
    = chi (pi_step (rho (theta (lane_cube L)))) x y z) as Hchi.
  { rewrite Z.lxor_spec, Z.ldiff_spec, !lane_b_bits by auto. unfold chi. by rewrite andb_comm. }
  destruct (decide (x + 5 * y = 0)%nat), (decide (x = 0%nat /\ y = 0%nat)); try lia; [|done].
  by rewrite Z.lxor_spec, Hchi, Hbits.
Qed.
End RoundBits.

(** ** The permutation *)

Definition rc_check (ir : nat) : bool :=
  (0 <=? rc !!! ir) && (rc !!! ir <? 2 ^ 64) &&
  forallb (fun k => eqb (Z.testbit (rc !!! ir) (Z.of_nat k)) (round_constant ir (Z.of_nat k))) (seq 0 64).

Lemma rc_spec ir : (ir < 24)%nat -> is_uint 64 (rc !!! ir) /\
  forall z, 0 <= z < 64 -> Z.testbit (rc !!! ir) z = round_constant ir z.
Proof.
  intros Hir. assert (forallb rc_check (seq 0 24) = true) as Hall by (vm_compute; reflexivity).
  rewrite forallb_forall in Hall. specialize (Hall ir ltac:(apply in_seq; lia)).
  unfold rc_check in Hall. apply andb_prop in Hall as [Hw Hb].
  split; [unfold is_uint; lia|]. intros z Hz. rewrite forallb_forall in Hb.
  rewrite <-(Z2Nat.id z) by lia. apply eqb_prop, Hb, in_seq. lia.
Qed.

Definition lanes_ok (a : list Z) : Prop := length a = 25%nat /\ Forall (is_uint 64) a.

(** After the rounds before [ir], with the lanes at [place]. *)
Definition at_round (place : list nat) (A : cube) (ir : nat) (a : list Z) : Prop :=
  lanes_ok a /\ cube_eq (lane_cube (lanes place a)) (foldl Rnd A (seq 0 ir)).

Lemma round_advances place place' order (round : Z -> list Z -> list Z) A ir a :
  good_order order -> (ir < 24)%nat ->
  (forall i, (i < 25)%nat -> (place !!! i < 25)%nat) ->
  (forall p, (p < 25)%nat -> exists i, (i < 25)%nat /\ place' !!! i = p) ->
  length (round (rc !!! ir) a) = 25%nat ->
  (forall i, (i < 25)%nat ->
    lanes place' (round (rc !!! ir) a) i = lane_round order (rc !!! ir) (lanes place a) i) ->
  at_round place A ir a -> at_round place' A (S ir) (round (rc !!! ir) a).
Proof.
  intros Ho Hir Hp Hp' Hlen Hr [[Hl Hw] He]. destruct (rc_spec ir Hir) as [Hrc Hb].
  assert (words (lanes place a)) as HL.
  { intros i Hi. unfold lanes. apply Hp in Hi. destruct (lookup_lt_is_Some_2 a (place !!! i)) as [v Hv]; [lia|].
    rewrite (list_lookup_total_correct _ _ _ Hv). by eapply Forall_lookup_1 in Hw. }
  split; [split; [done|]|].
  - apply Forall_lookup_2. intros p v Hv. pose proof (lookup_lt_Some _ _ _ Hv).
    destruct (Hp' p) as (i & Hi & <-); [lia|].
    specialize (Hr i Hi). unfold lanes at 1 in Hr. rewrite (list_lookup_total_correct _ _ _ Hv) in Hr.
    rewrite Hr. by apply lane_round_word.
  - rewrite seq_S, foldl_app. simpl. rewrite <-He, <-(lane_round_bits order (rc !!! ir)) by done.
    intros x y z ???. unfold lane_cube. rewrite Hr by lia. done.
Qed.

Lemma round_length a : length a = 25%nat -> forall k,
  length (round1 k a) = 25%nat /\ length (round2 k a) = 25%nat /\
  length (round3 k a) = 25%nat /\ length (round4 k a) = 25%nat.
Proof.
  intros (a0 & a1 & a2 & a3 & a4 & a5 & a6 & a7 & a8 & a9 & a10 & a11 & a12 & a13 & a14 & a15 &
    a16 & a17 & a18 & a19 & a20 & a21 & a22 & a23 & a24 & ->)%list_25 k. done.
Qed.

Lemma keccak_body_length i a : length a = 25%nat -> length (keccak_body i a) = 25%nat.
Proof.
  intros H. unfold keccak_body. pose proof (fun k => proj1 (round_length a H k)) as H1.
  pose proof (fun k => proj1 (proj2 (round_length _ (H1 (rc !!! i)) k))) as H2.
  pose proof (fun k => proj1 (proj2 (proj2 (round_length _ (H2 (rc !!! (i + 1)%nat)) k)))) as H3.
  exact (proj2 (proj2 (proj2 (round_length _ (H3 (rc !!! (i + 2)%nat)) _)))).
Qed.

Definition order_check (order : list (list nat)) : bool :=
  forallb (fun x => bool_decide (order !!! x ≡ₚ seq 0 5)) (seq 0 5).

Lemma order_check_good order : order_check order = true -> good_order order.
Proof.
  unfold order_check. rewrite forallb_forall. intros H x Hx.
  specialize (H x ltac:(apply in_seq; lia)). by apply bool_decide_eq_true in H.
Qed.

Definition place_check (place : list nat) : bool :=
  forallb (fun i => (place !!! i <? 25)%nat) (seq 0 25) &&
  forallb (fun p => existsb (fun i => (place !!! i =? p)%nat) (seq 0 25)) (seq 0 25).

Lemma place_check_good place : place_check place = true ->
  (forall i, (i < 25)%nat -> (place !!! i < 25)%nat) /\
  (forall p, (p < 25)%nat -> exists i, (i < 25)%nat /\ place !!! i = p).
Proof.
  unfold place_check. rewrite andb_true_iff, !forallb_forall. intros [H1 H2]. split.
  - intros i Hi. apply Nat.ltb_lt, H1, in_seq. lia.
  - intros p Hp. specialize (H2 p ltac:(apply in_seq; lia)).
    apply existsb_exists in H2 as (i & Hi & He). exists i. apply in_seq in Hi.
    apply Nat.eqb_eq in He. split; [lia|done].
Qed.

Lemma four_rounds A i a : (i + 4 <= 24)%nat -> at_round place1 A i a ->
  at_round place1 A (i + 4) (keccak_body i a).
Proof.
  intros Hi H. unfold keccak_body.
  assert (place_check place1 && place_check place2 && place_check place3 && place_check place4 = true)
    as [[[P1%place_check_good P2%place_check_good]%andb_prop P3%place_check_good]%andb_prop
        P4%place_check_good]%andb_prop by (vm_compute; reflexivity).
  assert (order_check order1 && order_check order2 && order_check order3 && order_check order4 = true)
    as [[[O1%order_check_good O2%order_check_good]%andb_prop O3%order_check_good]%andb_prop
        O4%order_check_good]%andb_prop by (vm_compute; reflexivity).
  destruct P1, P2, P3, P4.
  pose proof (proj1 (proj1 H)) as Hl.
  apply (round_advances place1 place2 order1 round1) in H; [|done|lia|done|done|by apply round_length|].
  2:{ intros. by apply round1_lanes. }
  pose proof (proj1 (proj1 H)) as Hl1. replace (S i) with (i + 1)%nat in H by lia.
  apply (round_advances place2 place3 order2 round2) in H; [|done|lia|done|done|by apply round_length|].
  2:{ intros. by apply round2_lanes. }
  pose proof (proj1 (proj1 H)) as Hl2. replace (S (i + 1)) with (i + 2)%nat in H by lia.
  apply (round_advances place3 place4 order3 round3) in H; [|done|lia|done|done|by apply round_length|].
  2:{ intros. by apply round3_lanes. }
  pose proof (proj1 (proj1 H)) as Hl3. replace (S (i + 2)) with (i + 3)%nat in H by lia.
  apply (round_advances place4 place1 order4 round4) in H; [|done|lia|done|done|by apply round_length|].
  2:{ intros. by apply round4_lanes. }
  by replace (i + 4)%nat with (S (i + 3)) by lia.
Qed.

Lemma loop_by4_invariant {A} (P : nat -> A -> Prop) body n i (a : A) :
  (forall j a, (j < i + 4 * n)%nat -> P j a -> (j + 4 <= i + 4 * n)%nat -> P (j + 4)%nat (body j a)) ->
  P i a -> P (i + 4 * n)%nat (loop_by4 body n i a).
Proof.
  revert i a. induction n as [|n IH]; intros i a Hb H; simpl; [by rewrite Nat.add_0_r|].
  replace (i + _)%nat with ((i + 4) + 4 * n)%nat by lia. apply IH.
  - intros j b ???. apply Hb; [lia|done|lia].
  - apply Hb; [lia|done|lia].
Qed.

Lemma keccakF1600_length a : length a = 25%nat -> length (keccakF1600 a) = 25%nat.
Proof.
  intros H. apply (loop_by4_invariant (fun _ a => length a = 25%nat) keccak_body 6 0 a); [|exact H].
  intros j b _ Hb _. apply keccak_body_length. exact Hb.
Qed.

Lemma place1_cube a : cube_eq (lane_cube (lanes place1 a)) (cube_of a).
Proof.
  intros x y z Hx Hy _. unfold lane_cube, lanes, cube_of. f_equal. f_equal.
  change place1 with (seq 0 25). rewrite lookup_total_seq_lt; lia.
Qed.

Lemma keccakF1600_fips a : lanes_ok a ->
  lanes_ok (keccakF1600 a) /\ cube_eq (cube_of (keccakF1600 a)) (keccak_f (cube_of a)).
Proof.
  intros Ha. destruct (loop_by4_invariant (at_round place1 (cube_of a)) keccak_body 6 0 a) as [Hok He].
  - intros j b _ Hb Hj. apply four_rounds; [exact Hj|exact Hb].
  - split; [done|]. cbn [seq foldl]. exact (place1_cube a).
  - split; [exact Hok|]. etransitivity; [symmetry; exact (place1_cube _)|exact He].
Qed.

(** C9: the unrolled, in-place [keccakF1600] of the portable build is the
    permutation Keccak-f[1600] of FIPS 202: on every array of 25 words it
    returns 25 words whose bits are those that 24 rounds of theta, rho, pi, chi
    and iota compute from the bits of the input, with rotation offsets and
    round constants as the standard generates them. *)
Theorem keccakF1600_is_fips202 a : lanes_ok a ->
  lanes_ok (keccakF1600 a) /\
  forall x y z, (x < 5)%nat -> (y < 5)%nat -> 0 <= z < 64 ->
    Z.testbit (keccakF1600 a !!! (x + 5 * y)%nat) z = keccak_f (cube_of a) x y z.
Proof. apply keccakF1600_fips. Qed.

Lemma keccakF1600_is_fips202_witness :
  lanes_ok (replicate 25 0) /\
  keccak_f (cube_of (replicate 25 0)) 0%nat 0%nat 63 = true.
Proof.
  assert (lanes_ok (replicate 25 0)) as H by (split; [done|repeat constructor; done]).
  split; [done|]. rewrite <-(proj2 (keccakF1600_is_fips202 _ H) 0%nat 0%nat 63) by lia.
  vm_compute. reflexivity.
Defined.
