(* ===== verification/Sha3.v ===== *)
(** * The sponge (src/crypto/sha3/sha3.go, hashes.go, shake.go, xor_*.go)

    The hash state with its internal buffer as a window into [storage], the
    writing and reading loops, and the proof that however the input is cut into
    writes and the output into reads, the bytes produced are those of the
    sponge construction over [keccakF1600]. *)
From S2P Require Import Prelude Keccakf.

(** ** Little-endian words *)

(** [binary.LittleEndian.Uint64] and [PutUint64]. *)
Definition LE_Uint64 (b : list Z) : option Z :=
  if decide (8 <= length b)%nat then Some (le_get (take 8 b)) else None.

(** [a[i] ^= w] *)
Definition xor_at (a : list Z) (i : nat) (w : Z) : option (list Z) :=
  x ← a !! i; Some (<[i := Z.lxor x w]> a).

(** ** xor_generic.go and xor_unaligned.go *)

Fixpoint xorIn_loop (n i : nat) (a buf : list Z) : option (list Z) :=
  match n with
  | O => Some a
  | S n' => w ← LE_Uint64 buf; a ← xor_at a i w; xorIn_loop n' (S i) a (drop 8 buf)
  end.

Definition xorInGeneric (a buf : list Z) : option (list Z) := xorIn_loop (length buf / 8) 0 a buf.

(** The bytes of [b] after the loop of [copyOutGeneric], from word [i]. *)
Fixpoint copyOut_loop (fuel i : nat) (a b : list Z) : option (list Z) :=
  match fuel with
  | O => Some b
  | S fuel' =>
      if (8 <=? length b)%nat then
        x ← a !! i;
        rest ← copyOut_loop fuel' (S i) a (drop 8 b);
        Some (le_put 8 x ++ rest)
      else Some b
  end.

Definition copyOutGeneric (a b : list Z) : option (list Z) := copyOut_loop (length b) 0 a b.

(** The words [lo], ..., [hi - 1] of the buffer, read through the unsafe cast on a
    little-endian machine, and xored into the state. *)
Fixpoint xor_words (k : nat) (lo : nat) (a buf : list Z) : option (list Z) :=
  match k with
  | O => Some a
  | S k' =>
      w ← LE_Uint64 (drop (8 * lo) buf);
      a ← xor_at a lo w;
      xor_words k' (S lo) a buf
  end.

Definition xorInUnaligned (a buf : list Z) : option (list Z) :=
  if decide (buf = []) then None
  else
    let n := length buf in
    a ← (if (72 <=? n)%nat then xor_words 9 0 a buf else Some a);
    a ← (if (104 <=? n)%nat then xor_words 4 9 a buf else Some a);
    a ← (if (136 <=? n)%nat then xor_words 4 13 a buf else Some a);
    a ← (if (144 <=? n)%nat then xor_words 1 17 a buf else Some a);
    if (168 <=? n)%nat then xor_words 3 18 a buf else Some a.

Definition maxRate : nat := 168.

(** The state in memory. *)
Definition lane_bytes (a : list Z) : list Z := mjoin (le_put 8 <$> a).

(** [copy(buf, ab[:])] with [ab] the first [maxRate] bytes of the state. *)
Definition copyOutUnaligned (a buf : list Z) : list Z :=
  let n := Nat.min (length buf) maxRate in
  take n (lane_bytes a) ++ drop n buf.

(** ** sha3.go *)

Inductive spongeDirection := spongeAbsorbing | spongeSqueezing.

(** [buf] is nil or the window [storage[off : off+len]]. *)
Record state := mkState {
  st_a : list Z;
  st_buf : option (nat * nat);
  rate : nat;
  dsbyte : Z;
  storage : list Z;
  outputLen : nat;
  st_dir : spongeDirection
}.

Definition with_a (d : state) (a : list Z) : state :=
  mkState a (st_buf d) (rate d) (dsbyte d) (storage d) (outputLen d) (st_dir d).
Definition with_buf (d : state) (b : nat * nat) : state :=
  mkState (st_a d) (Some b) (rate d) (dsbyte d) (storage d) (outputLen d) (st_dir d).
Definition with_storage (d : state) (s : list Z) : state :=
  mkState (st_a d) (st_buf d) (rate d) (dsbyte d) s (outputLen d) (st_dir d).
Definition with_dir (d : state) (x : spongeDirection) : state :=
  mkState (st_a d) (st_buf d) (rate d) (dsbyte d) (storage d) (outputLen d) x.

Definition buf_window (d : state) : nat * nat := default (0, 0)%nat (st_buf d).
Definition buf_bytes (d : state) : list Z := take (buf_window d).2 (drop (buf_window d).1 (storage d)).

(** [d.storage[lo:hi]] *)
Definition storage_window (lo hi : nat) : option (nat * nat) :=
  if decide (lo <= hi <= maxRate)%nat then Some (lo, hi - lo)%nat else None.

(** [d.buf = append(d.buf, b...)] within the capacity of the window; growing
    beyond it, which would detach [buf] from [storage], is not modelled. *)
Definition append_buf (d : state) (b : list Z) : option state :=
  let '(off, len) := buf_window d in
  if decide (off + len + length b <= maxRate)%nat
  then Some (with_buf (with_storage d (memcpy (storage d) (off + len) b)) (off, len + length b)%nat)
  else None.

Definition Reset (d : state) : state :=
  with_buf (with_dir (with_a d (replicate 25 0)) spongeAbsorbing) (0, 0)%nat.

(** The capacity of a window into [storage]; that of nil is zero. *)
Definition buf_cap (d : state) : nat :=
  match st_buf d with Some (off, _) => maxRate - off | None => 0 end%nat.

Definition clone (d : state) : option state :=
  match st_dir d with
  | spongeAbsorbing => w ← storage_window 0 (buf_window d).2; Some (with_buf d w)
  | spongeSqueezing =>
      if decide (buf_cap d <= rate d)%nat
      then w ← storage_window (rate d - buf_cap d) (rate d); Some (with_buf d w)
      else None
  end.

(** [copyOut(d, d.buf)] *)
Definition copy_to_buf (d : state) : state :=
  let '(off, len) := buf_window d in
  with_storage d (memcpy (storage d) off (copyOutUnaligned (st_a d) (buf_bytes d))).

Definition permute (d : state) : option state :=
  match st_dir d with
  | spongeAbsorbing =>
      a ← xorInUnaligned (st_a d) (buf_bytes d);
      Some (with_a (with_buf d (0, 0)%nat) (keccakF1600 a))
  | spongeSqueezing =>
      w ← storage_window 0 (rate d);
      Some (copy_to_buf (with_buf (with_a d (keccakF1600 (st_a d))) w))
  end.

(** [if d.buf == nil { d.buf = d.storage[:0] }] *)
Definition init_buf (d : state) : state := with_buf d (buf_window d).

Definition padAndPermute (d : state) (ds : Z) : option state :=
  let d := init_buf d in
  d ← append_buf d [ds];
  let zerosStart := (buf_window d).2 in
  w ← storage_window 0 (rate d);
  let d := with_buf d w in
  let d := with_storage d (memcpy (storage d) zerosStart (replicate (rate d - zerosStart) 0)) in
  last ← storage d !! (rate d - 1)%nat;
  let d := with_storage d (<[(rate d - 1)%nat := Z.lxor last 0x80]> (storage d)) in
  d ← permute d;
  w ← storage_window 0 (rate d);
  Some (copy_to_buf (with_buf (with_dir d spongeSqueezing) w)).

(** The loop of [Write]; every turn consumes a byte at least. *)
Fixpoint Write_loop (fuel : nat) (d : state) (p : list Z) : option state :=
  match p with
  | [] => Some d
  | _ =>
      match fuel with
      | O => None
      | S fuel' =>
          let len := (buf_window d).2 in
          if (len =? 0)%nat && (rate d <=? length p)%nat then
            a ← xorInUnaligned (st_a d) (take (rate d) p);
            Write_loop fuel' (with_a d (keccakF1600 a)) (drop (rate d) p)
          else
            let todo := Nat.min (rate d - len) (length p) in
            d ← append_buf d (take todo p);
            let p := drop todo p in
            d ← (if ((buf_window d).2 =? rate d)%nat then permute d else Some d);
            Write_loop fuel' d p
      end
  end.

Definition Write (d : state) (p : list Z) : option state :=
  match st_dir d with
  | spongeSqueezing => None
  | spongeAbsorbing => Write_loop (length p) (init_buf d) p
  end.

(** The loop of [Read] with [n] bytes of [out] left to fill. *)
Fixpoint Read_loop (fuel : nat) (d : state) (n : nat) : option (list Z * state) :=
  match n with
  | O => Some ([], d)
  | _ =>
      match fuel with
      | O => None
      | S fuel' =>
          let '(off, len) := buf_window d in
          let k := Nat.min n len in
          let piece := take k (buf_bytes d) in
          let d := with_buf d (off + k, len - k)%nat in
          d ← (if (len - k =? 0)%nat then permute d else Some d);
          '(out, d) ← Read_loop fuel' d (n - k);
          Some (piece ++ out, d)
      end
  end.

Definition Read (d : state) (n : nat) : option (list Z * state) :=
  d ← match st_dir d with
      | spongeAbsorbing => padAndPermute d (dsbyte d)
      | spongeSqueezing => Some d
      end;
  Read_loop n d n.

Definition Sum (d : state) (inp : list Z) : option (list Z) :=
  dup ← clone d;
  '(hash, _) ← Read dup (outputLen dup);
  Some (inp ++ hash).

(** ** hashes.go, shake.go and crypto.go *)

Definition new_state (rate outputLen : nat) (ds : Z) : state :=
  mkState (replicate 25 0) None rate ds (replicate maxRate 0) outputLen spongeAbsorbing.

Definition NewKeccak256 : state := new_state 136 32 0x01.
Definition NewKeccak512 : state := new_state 72 64 0x01.
Definition New224 : state := new_state 144 28 0x06.
Definition New256 : state := new_state 136 32 0x06.
Definition New384 : state := new_state 104 48 0x06.
Definition New512 : state := new_state 72 64 0x06.
Definition NewShake128 : state := new_state 168 0 0x1f.
Definition NewShake256 : state := new_state 136 0 0x1f.

Fixpoint write_each (d : state) (data : list (list Z)) : option state :=
  match data with [] => Some d | b :: data => d ← Write d b; write_each d data end.

Definition Keccak256 (data : list (list Z)) : option (list Z) :=
  d ← write_each NewKeccak256 data; Sum d [].
Definition Keccak512 (data : list (list Z)) : option (list Z) :=
  d ← write_each NewKeccak512 data; Sum d [].
Definition Sum224 (data : list Z) : option (list Z) := h ← Write New224 data; Sum h [].
Definition sha3_Sum256 (data : list Z) : option (list Z) := h ← Write New256 data; Sum h [].
Definition Sum384 (data : list Z) : option (list Z) := h ← Write New384 data; Sum h [].
Definition Sum512 (data : list Z) : option (list Z) := h ← Write New512 data; Sum h [].
Definition ShakeSum128 (n : nat) (data : list Z) : option (list Z) :=
  h ← Write NewShake128 data; '(out, _) ← Read h n; Some out.
Definition ShakeSum256 (n : nat) (data : list Z) : option (list Z) :=
  h ← Write NewShake256 data; '(out, _) ← Read h n; Some out.

(** ** The sponge construction (FIPS 202, section 4), on bytes *)

Fixpoint le_words (n : nat) (b : list Z) : list Z :=
  match n with O => [] | S n => le_get (take 8 b) :: le_words n (drop 8 b) end.

Definition xor_block (a blk : list Z) : list Z :=
  let w := le_words (length blk / 8) blk in
  zip_with Z.lxor a w ++ drop (length w) a.

Definition absorb_block (a blk : list Z) : list Z := keccakF1600 (xor_block a blk).

(** The padding: the domain bits with the first one bit, zeros, the last one bit. *)
Definition padding (r : nat) (ds : Z) (len : nat) : list Z :=
  let q := (r - len mod r)%nat in
  if decide (q = 1%nat) then [Z.lxor ds 0x80] else ds :: replicate (q - 2) 0 ++ [0x80].

Fixpoint blocks (fuel r : nat) (l : list Z) : list (list Z) :=
  match fuel with
  | O => []
  | S fuel' => match l with [] => [] | _ => take r l :: blocks fuel' r (drop r l) end
  end.

Definition absorb (r : nat) (ds : Z) (m : list Z) : list Z :=
  let padded := m ++ padding r ds (length m) in
  foldl absorb_block (replicate 25 0) (blocks (length padded) r padded).

(** Bytes [pos], ..., [pos + n - 1] of the output of a sponge with state [A]. *)
Definition squeeze (r : nat) (A : list Z) (pos n : nat) : list Z :=
  map (fun i => lane_bytes (Nat.iter (i / r) keccakF1600 A) !!! (i mod r)%nat) (seq pos n).

Definition ok_rate (r : nat) : Prop := r ∈ [72; 104; 136; 144; 168]%nat.

(** ** Xoring a block into the state *)

Lemma length_le_words n b : length (le_words n b) = n.
Proof. revert b. induction n; intros b; simpl; auto. Qed.

Lemma xorIn_loop_words n i a buf : xorIn_loop n i a (drop (8 * i) buf) = xor_words n i a buf.
Proof.
  revert i a. induction n as [|n IH]; intros i a; simpl; [done|].
  destruct (LE_Uint64 _) as [w|]; simpl; [|done]. destruct (xor_at a i w) as [a'|]; simpl; [|done].
  rewrite drop_drop. replace (i + _ + 8)%nat with (8 * S i)%nat by lia. apply IH.
Qed.

Lemma xor_words_app k k' lo a buf :
  xor_words (k + k') lo a buf = (a ← xor_words k lo a buf; xor_words k' (lo + k) a buf).
Proof.
  revert lo a. induction k as [|k IH]; intros lo a; cbn [Nat.add xor_words]; [by rewrite Nat.add_0_r|].
  destruct (LE_Uint64 _) as [w|]; [|done]. cbn [mbind option_bind].
  destruct (xor_at a lo w) as [a'|]; [|done]. cbn [mbind option_bind].
  rewrite IH. by replace (S lo + k)%nat with (lo + S k)%nat by lia.
Qed.

Lemma ok_rate_cases r : ok_rate r ->
  (r = 72 \/ r = 104 \/ r = 136 \/ r = 144 \/ r = 168)%nat.
Proof. unfold ok_rate. rewrite !elem_of_cons, elem_of_nil. tauto. Qed.

Lemma ok_rate_bounds r : ok_rate r -> (1 < r <= maxRate)%nat /\ (r / 8 * 8 = r)%nat /\ (r / 8 <= 21)%nat.
Proof. intros [-> |[-> |[-> |[-> | ->]]]]%ok_rate_cases; by vm_compute; lia. Qed.

(** The unrolled code for unaligned machines xors the same words in. *)
Lemma xorInUnaligned_generic a buf : ok_rate (length buf) -> xorInUnaligned a buf = xorInGeneric a buf.
Proof.
  intros Hr. unfold xorInGeneric. pose proof (xorIn_loop_words (length buf / 8) 0 a buf) as Hw.
  rewrite drop_0 in Hw. rewrite Hw. unfold xorInUnaligned.
  rewrite decide_False by (intros ->; apply ok_rate_bounds in Hr; simpl in Hr; lia).
  destruct (ok_rate_cases _ Hr) as [-> |[-> |[-> |[-> | ->]]]]; cbn [Nat.leb].
  - change (72 / 8)%nat with 9%nat. by destruct (xor_words 9 0 a buf).
  - change (104 / 8)%nat with (9 + 4)%nat. rewrite (xor_words_app 9 4). destruct (xor_words 9 0 a buf) as [b|]; [|done]. cbn [mbind option_bind Nat.add].
    by destruct (xor_words 4 9 b buf).
  - change (136 / 8)%nat with (9 + 8)%nat. rewrite (xor_words_app 9 8). destruct (xor_words 9 0 a buf) as [b|]; [|done]. cbn [mbind option_bind Nat.add].
    rewrite (xor_words_app 4 4). destruct (xor_words 4 9 b buf) as [c|]; [|done]. cbn [mbind option_bind Nat.add].
    by destruct (xor_words 4 13 c buf).
  - change (144 / 8)%nat with (9 + 9)%nat. rewrite (xor_words_app 9 9). destruct (xor_words 9 0 a buf) as [b|]; [|done]. cbn [mbind option_bind Nat.add].
    rewrite (xor_words_app 4 5). destruct (xor_words 4 9 b buf) as [c|]; [|done]. cbn [mbind option_bind Nat.add].
    rewrite (xor_words_app 4 1). destruct (xor_words 4 13 c buf) as [e|]; [|done]. cbn [mbind option_bind Nat.add].
    by destruct (xor_words 1 17 e buf).
  - change (168 / 8)%nat with (9 + 12)%nat. rewrite (xor_words_app 9 12). destruct (xor_words 9 0 a buf) as [b|]; [|done]. cbn [mbind option_bind Nat.add].
    rewrite (xor_words_app 4 8). destruct (xor_words 4 9 b buf) as [c|]; [|done]. cbn [mbind option_bind Nat.add].
    rewrite (xor_words_app 4 4). destruct (xor_words 4 13 c buf) as [e|]; [|done]. cbn [mbind option_bind Nat.add].
    rewrite (xor_words_app 1 3). by destruct (xor_words 1 17 e buf).
Qed.

Lemma xorIn_loop_spec n i a buf : (8 * n <= length buf)%nat -> (i + n <= length a)%nat ->
  xorIn_loop n i a buf = Some (take i a ++ zip_with Z.lxor (drop i a) (le_words n buf) ++ drop (i + n) a).
Proof.
  revert i a buf. induction n as [|n IH]; intros i a buf Hb Ha; simpl.
  - rewrite zip_with_nil_r, Nat.add_0_r. simpl. by rewrite take_drop.
  - unfold LE_Uint64. rewrite decide_True by lia. cbn [mbind option_bind]. unfold xor_at.
    destruct (lookup_lt_is_Some_2 a i) as [x Hx]; [lia|]. rewrite Hx. cbn [mbind option_bind].
    rewrite IH by (rewrite ?length_drop, ?length_insert; lia). f_equal.
    rewrite (drop_S a x i Hx). cbn [zip_with]. rewrite (take_S_r _ _ (Z.lxor x (le_get (take 8 buf)))).
    2:{ apply list_lookup_insert_eq. lia. }
    rewrite take_insert_ge by lia. rewrite !drop_insert_lt by lia.
    rewrite <-app_assoc. simpl. do 3 f_equal. f_equal; f_equal; lia.
Qed.

#[local] Opaque keccakF1600.

Lemma xor_block_length a blk : (length blk / 8 <= length a)%nat -> length (xor_block a blk) = length a.
Proof.
  intros. unfold xor_block. rewrite length_app, length_zip_with, length_drop, length_le_words. lia.
Qed.

Lemma xorInGeneric_block a blk : (length blk / 8 <= length a)%nat ->
  xorInGeneric a blk = Some (xor_block a blk).
Proof.
  intros Ha. unfold xorInGeneric. rewrite xorIn_loop_spec; [|apply Nat.Div0.mul_div_le|lia].
  unfold xor_block. by rewrite take_0, drop_0, Nat.add_0_l, length_le_words.
Qed.

Lemma xorIn_block a blk : length a = 25%nat -> ok_rate (length blk) ->
  xorInUnaligned a blk = Some (xor_block a blk).
Proof.
  intros Ha Hr. rewrite xorInUnaligned_generic by done.
  apply xorInGeneric_block. destruct (ok_rate_bounds _ Hr) as (_ & _ & ?). lia.
Qed.

Lemma absorb_block_length a blk : length a = 25%nat -> ok_rate (length blk) ->
  length (absorb_block a blk) = 25%nat.
Proof.
  intros Ha Hr. apply keccakF1600_length.
  rewrite xor_block_length; [done|]. destruct (ok_rate_bounds _ Hr) as (_ & _ & ?). lia.
Qed.

(** ** Copying the state out *)

Lemma lane_bytes_cons x a : lane_bytes (x :: a) = le_put 8 x ++ lane_bytes a.
Proof. reflexivity. Qed.

Lemma length_lane_bytes a : length (lane_bytes a) = (8 * length a)%nat.
Proof.
  induction a as [|x a IH]; [done|]. cbn [length].
  rewrite lane_bytes_cons, length_app, length_le_put, IH. lia.
Qed.

Lemma copyOut_block a buf : length a = 25%nat -> (length buf <= maxRate)%nat ->
  copyOutUnaligned a buf = take (length buf) (lane_bytes a).
Proof.
  intros Ha Hb. unfold copyOutUnaligned. rewrite Nat.min_l by done.
  by rewrite drop_ge, app_nil_r by done.
Qed.

Lemma copyOut_loop_spec fuel n i a b : (length b <= fuel)%nat -> length b = (8 * n)%nat ->
  (i + n <= length a)%nat -> copyOut_loop fuel i a b = Some (take (8 * n) (lane_bytes (drop i a))).
Proof.
  revert n i b. induction fuel as [|fuel IH]; intros n i b Hf Hb Ha.
  - assert (n = 0%nat) as -> by lia. by destruct b.
  - cbn [copyOut_loop]. destruct (Nat.leb_spec 8 (length b)) as [H8|H8].
    + destruct n as [|n]; [lia|].
      destruct (lookup_lt_is_Some_2 a i) as [x Hx]; [lia|]. rewrite Hx. cbn [mbind option_bind].
      rewrite (IH n) by (rewrite ?length_drop; lia). cbn [mbind option_bind]. f_equal.
      rewrite (drop_S a x i Hx), lane_bytes_cons.
      rewrite take_app_ge by (rewrite length_le_put; lia). rewrite length_le_put.
      do 2 f_equal. lia.
    + assert (n = 0%nat) as -> by lia. by destruct b.
Qed.

(** The cast of the unaligned build copies the same bytes out. *)
Lemma copyOut_generic a buf : length a = 25%nat -> ok_rate (length buf) ->
  copyOutGeneric a buf = Some (copyOutUnaligned a buf).
Proof.
  intros Ha Hr. destruct (ok_rate_bounds _ Hr) as (? & H8 & ?).
  unfold copyOutGeneric. rewrite (copyOut_loop_spec _ (length buf / 8)) by lia.
  rewrite copyOut_block by (done || lia). rewrite drop_0. do 2 f_equal. lia.
Qed.

(** ** Absorbing *)

Definition full_blocks (r : nat) (bs : list (list Z)) : Prop := Forall (fun b => length b = r) bs.

Lemma blocks_concat fuel r bs : (0 < r)%nat -> full_blocks r bs -> (length (mjoin bs) <= fuel)%nat ->
  blocks fuel r (mjoin bs) = bs.
Proof.
  intros Hr Hbs. revert fuel. induction Hbs as [|b bs Hb _ IH]; intros fuel Hf.
  - by destruct fuel.
  - change (mjoin (b :: bs)) with (b ++ mjoin bs) in *. rewrite length_app in Hf. destruct fuel as [|fuel]; [lia|].
    cbn [blocks]. destruct (b ++ mjoin bs) as [|c l] eqn:He; [destruct b; simpl in *; [lia|done]|].
    rewrite <-He, take_app_length', drop_app_length' by done. f_equal. apply IH. lia.
Qed.

Lemma fold_absorb_length r bs a : ok_rate r -> full_blocks r bs -> length a = 25%nat ->
  length (foldl absorb_block a bs) = 25%nat.
Proof.
  intros Hr Hbs. revert a. induction Hbs as [|b bs Hb _ IH]; intros a Ha; simpl; [done|].
  apply IH, absorb_block_length; [done|]. by rewrite Hb.
Qed.

(** [d] has absorbed the message [m]: full blocks in the state, the rest in the buffer. *)
Record absorbing (r ol : nat) (ds : Z) (d : state) (m : list Z) : Prop := {
  ab_dir : st_dir d = spongeAbsorbing;
  ab_rate : rate d = r;
  ab_ds : dsbyte d = ds;
  ab_out : outputLen d = ol;
  ab_storage : length (storage d) = maxRate;
  ab_window : (buf_window d).1 = 0%nat;
  ab_state : exists bs, m = mjoin bs ++ take (buf_window d).2 (storage d) /\ full_blocks r bs /\
    ((buf_window d).2 < r)%nat /\ st_a d = foldl absorb_block (replicate 25 0) bs
}.

Lemma new_state_absorbing r ol ds : ok_rate r -> absorbing r ol ds (new_state r ol ds) [].
Proof.
  intros Hr. split; try done. exists []. apply ok_rate_bounds in Hr as [? _].
  split; [done|]. split; [constructor|]. split; [change (0 < r)%nat; lia|done].
Qed.

Lemma init_buf_absorbing r ol ds d m : absorbing r ol ds d m -> absorbing r ol ds (init_buf d) m.
Proof. intros []. by split. Qed.

Lemma append_buf_ok d b : (buf_window d).1 = 0%nat -> length (storage d) = maxRate ->
  ((buf_window d).2 + length b <= maxRate)%nat ->
  append_buf d b = Some (with_buf (with_storage d (memcpy (storage d) (buf_window d).2 b))
                           (0, (buf_window d).2 + length b)%nat).
Proof.
  intros Ho Hs Hb. unfold append_buf. destruct (buf_window d) as [off len]. simpl in *. subst off.
  by rewrite decide_True by lia.
Qed.

(** Storing more bytes behind the buffered ones. *)
Lemma take_memcpy_append (s b : list Z) len :
  (len + length b <= length s)%nat -> take (len + length b) (memcpy s len b) = take len s ++ b.
Proof. apply take_memcpy. Qed.

Lemma permute_absorbing d :
  st_dir d = spongeAbsorbing -> length (st_a d) = 25%nat -> ok_rate (length (buf_bytes d)) ->
  permute d = Some (with_a (with_buf d (0, 0)%nat) (absorb_block (st_a d) (buf_bytes d))).
Proof.
  intros Hd Ha Hr. unfold permute. rewrite Hd, xorIn_block by done. done.
Qed.

Section Absorb.
Context (r ol : nat) (ds : Z) (Hr : ok_rate r).

Lemma fast_path d m blk : absorbing r ol ds d m -> (buf_window d).2 = 0%nat -> length blk = r ->
  xorInUnaligned (st_a d) blk = Some (xor_block (st_a d) blk) /\
  absorbing r ol ds (with_a d (keccakF1600 (xor_block (st_a d) blk))) (m ++ blk).
Proof.
  intros Hd Hlen Hblk. destruct Hd as [H1 H2 H3 H4 H5 H6 (bs & Hm & Hbs & Hlt & Ha)]. split.
  - apply xorIn_block; [|by rewrite Hblk]. rewrite Ha. by eapply fold_absorb_length.
  - split; try done. exists (bs ++ [blk]). change (buf_window (with_a d _)) with (buf_window d).
    rewrite Hlen, take_0, app_nil_r in *. split; [|split; [|split; [done|]]].
    + rewrite Hm, join_app. simpl. by rewrite app_nil_r.
    + apply Forall_app. split; [done|]. by constructor.
    + rewrite foldl_app, <-Ha. done.
Qed.

Lemma slow_path d m piece : absorbing r ol ds d m ->
  ((buf_window d).2 + length piece <= r)%nat ->
  exists d1 d2, append_buf d piece = Some d1 /\
    (if ((buf_window d1).2 =? rate d1)%nat then permute d1 else Some d1) = Some d2 /\
    absorbing r ol ds d2 (m ++ piece).
Proof.
  intros Hd Hlen. destruct Hd as [H1 H2 H3 H4 H5 H6 (bs & Hm & Hbs & Hlt & Ha)].
  destruct (ok_rate_bounds r Hr) as [Hb _].
  rewrite append_buf_ok by (done || lia).
  exists (with_buf (with_storage d (memcpy (storage d) (buf_window d).2 piece)) (0, (buf_window d).2 + length piece)%nat).
  change (buf_window (with_buf _ ?w)) with w. cbn [snd].
  pose proof (take_memcpy (storage d) (buf_window d).2 piece ltac:(lia)) as Ht.
  assert (length (memcpy (storage d) (buf_window d).2 piece) = maxRate) as Hs
    by (rewrite length_memcpy; lia).
  change (rate (with_buf _ _)) with (rate d). rewrite H2.
  destruct (Nat.eqb_spec ((buf_window d).2 + length piece) r) as [He|Hne].
  - set (d1 := with_buf _ _).
    assert (buf_bytes d1 = take (buf_window d).2 (storage d) ++ piece) as Hbytes by exact Ht.
    assert (length (buf_bytes d1) = r) as Hl.
    { rewrite Hbytes, length_app, length_take. lia. }
    rewrite (permute_absorbing d1) by (done || (rewrite Hl; done) ||
      (change (st_a d1) with (st_a d); rewrite Ha; by eapply fold_absorb_length)).
    eexists. split; [done|]. split; [done|]. split; try done.
    exists (bs ++ [buf_bytes d1]). cbn [buf_window with_a with_buf st_buf default fst snd st_a].
    rewrite take_0, app_nil_r, join_app, foldl_app, <-Ha. change (st_a d1) with (st_a d).
    change (mjoin [buf_bytes d1]) with (buf_bytes d1 ++ []). rewrite app_nil_r, Hbytes, app_assoc, <-Hm, <-Hbytes.
    split; [done|]. split; [|split; [change (0 < r)%nat; lia|done]]. apply Forall_app. split; [done|]. by constructor.
  - eexists. split; [done|]. split; [done|]. split; try done.
    exists bs. change (buf_window (with_buf _ ?w)) with w. cbn [buf_window with_buf with_storage st_buf default fst snd st_a storage].
    rewrite Ht, Hm, app_assoc. split; [done|]. split; [done|]. split; [lia|done].
Qed.

Lemma Write_loop_absorbs fuel d m p : (length p <= fuel)%nat -> absorbing r ol ds d m ->
  exists d', Write_loop fuel d p = Some d' /\ absorbing r ol ds d' (m ++ p).
Proof.
  revert d m p. induction fuel as [|fuel IH]; intros d m p Hf Hd.
  - destruct p; [|simpl in Hf; lia]. exists d. by rewrite app_nil_r.
  - destruct p as [|b0 p0]; [exists d; by rewrite app_nil_r|]. set (p := b0 :: p0) in *.
    destruct (ok_rate_bounds r Hr) as [Hb _]. pose proof (ab_rate _ _ _ _ _ Hd) as Hrate.
    assert (0 < length p)%nat as Hp by (simpl; lia).
    change (Write_loop (S fuel) d p) with
      (let len := (buf_window d).2 in
       if (len =? 0)%nat && (rate d <=? length p)%nat then
         a ← xorInUnaligned (st_a d) (take (rate d) p);
         Write_loop fuel (with_a d (keccakF1600 a)) (drop (rate d) p)
       else
         let todo := Nat.min (rate d - len) (length p) in
         d ← append_buf d (take todo p);
         let p := drop todo p in
         d ← (if ((buf_window d).2 =? rate d)%nat then permute d else Some d);
         Write_loop fuel d p). cbv zeta. rewrite Hrate. clearbody p.
    destruct (Nat.eqb_spec (buf_window d).2 0) as [Hz|Hz]; destruct (Nat.leb_spec r (length p)) as [Hle|Hgt];
      cbn [andb].
    1:{ destruct (fast_path d m (take r p) Hd Hz) as [-> Hd']; [rewrite length_take; lia|].
        cbn [mbind option_bind]. destruct (IH _ _ (drop r p) ltac:(rewrite length_drop; lia) Hd') as (d' & -> & Hab).
        exists d'. by rewrite <-app_assoc, take_drop in Hab. }
    all: pose proof (ab_state _ _ _ _ _ Hd) as (_ & _ & _ & Hlt & _).
    all: set (todo := Nat.min _ _).
    all: destruct (slow_path d m (take todo p) Hd) as (d1 & d2 & -> & H2 & Hd2); [rewrite length_take; lia|].
    all: cbn [mbind option_bind]; rewrite H2; cbn [mbind option_bind].
    all: destruct (IH d2 _ (drop todo p) ltac:(rewrite length_drop; lia) Hd2) as (d' & -> & Hab).
    all: exists d'; by rewrite <-app_assoc, take_drop in Hab.
Qed.

Lemma Write_absorbs d m p : absorbing r ol ds d m ->
  exists d', Write d p = Some d' /\ absorbing r ol ds d' (m ++ p).
Proof.
  intros Hd. unfold Write. rewrite (ab_dir _ _ _ _ _ Hd).
  apply Write_loop_absorbs; [lia|]. by apply init_buf_absorbing.
Qed.

Lemma write_each_absorbs d m data : absorbing r ol ds d m ->
  exists d', write_each d data = Some d' /\ absorbing r ol ds d' (m ++ mjoin data).
Proof.
  revert d m. induction data as [|b data IH]; intros d m Hd; simpl.
  - exists d. by rewrite app_nil_r.
  - destruct (Write_absorbs d m b Hd) as (d1 & -> & H1). simpl.
    destruct (IH _ _ H1) as (d' & -> & H2). exists d'. by rewrite app_assoc.
Qed.
End Absorb.

(** ** Squeezing *)

(** [d] stands at byte [pos] of the output of the sponge state [A]. *)
Record squeezing (r ol : nat) (ds : Z) (A : list Z) (d : state) (pos : nat) : Prop := {
  sq_dir : st_dir d = spongeSqueezing;
  sq_rate : rate d = r;
  sq_ds : dsbyte d = ds;
  sq_out : outputLen d = ol;
  sq_storage : length (storage d) = maxRate;
  sq_length : length (st_a d) = 25%nat;
  sq_a : st_a d = Nat.iter (pos / r) keccakF1600 A;
  sq_buf : st_buf d = Some (pos mod r, r - pos mod r)%nat;
  sq_bytes : take r (storage d) = take r (lane_bytes (st_a d))
}.

Lemma storage_window_ok r : (r <= maxRate)%nat -> storage_window 0 r = Some (0, r)%nat.
Proof. intros. unfold storage_window. rewrite decide_True by lia. by rewrite Nat.sub_0_r. Qed.

(** Filling the whole buffer from the state. *)
Lemma copy_to_buf_full d r : (r <= maxRate)%nat -> length (storage d) = maxRate ->
  length (st_a d) = 25%nat -> st_buf d = Some (0, r)%nat ->
  copy_to_buf d = with_storage d (memcpy (storage d) 0 (take r (lane_bytes (st_a d)))).
Proof.
  intros Hr Hs Ha Hb. unfold copy_to_buf, buf_bytes, buf_window. rewrite Hb. cbn [from_option id fst snd].
  rewrite drop_0, copyOut_block by (rewrite ?length_take; done || lia).
  by rewrite length_take, Hs, Nat.min_l by lia.
Qed.

Lemma filled_storage s a r : (r <= maxRate)%nat -> length s = maxRate -> length a = 25%nat ->
  length (memcpy s 0 (take r (lane_bytes a))) = maxRate /\
  take r (memcpy s 0 (take r (lane_bytes a))) = take r (lane_bytes a).
Proof.
  intros Hr Hs Ha. unfold maxRate in *.
  assert (length (take r (lane_bytes a)) = r) as Hl by (rewrite length_take, length_lane_bytes; lia).
  split; [rewrite length_memcpy; lia|].
  pose proof (take_memcpy s 0 (take r (lane_bytes a)) ltac:(lia)) as Ht.
  rewrite Hl in Ht. done.
Qed.

Lemma iter_length A n : length A = 25%nat -> length (Nat.iter n keccakF1600 A) = 25%nat.
Proof. intros H. induction n; [done|]. cbn [Nat.iter]. apply keccakF1600_length. exact IHn. Qed.

Section Squeeze.
Context (r ol : nat) (ds : Z) (Hr : ok_rate r) (A : list Z) (HA : length A = 25%nat).

(** The buffer filled with block [n] of the output. *)
Lemma block_squeezing d n : st_dir d = spongeSqueezing -> rate d = r -> dsbyte d = ds -> outputLen d = ol ->
  length (storage d) = maxRate -> st_a d = Nat.iter n keccakF1600 A -> st_buf d = Some (0, r)%nat ->
  squeezing r ol ds A (copy_to_buf d) (n * r).
Proof.
  intros H1 H2 H3 H4 H5 H6 H7. destruct (ok_rate_bounds r Hr) as [Hb _].
  assert (length (st_a d) = 25%nat) as Hl by (rewrite H6; by apply iter_length).
  rewrite (copy_to_buf_full d r) by (done || lia).
  destruct (filled_storage (storage d) (st_a d) r) as [Hs Ht]; [lia|done|done|].
  split; try done; cbn [with_storage st_a st_buf].
  - by rewrite Nat.div_mul by lia.
  - by rewrite Nat.Div0.mod_mul, Nat.sub_0_r.
Qed.

Lemma squeeze_app pos k n : squeeze r A pos (k + n) = squeeze r A pos k ++ squeeze r A (pos + k) n.
Proof. unfold squeeze. by rewrite seq_app, map_app. Qed.

(** A piece that does not cross the end of the block. *)
Lemma squeeze_piece d pos k : squeezing r ol ds A d pos -> (k <= r - pos mod r)%nat ->
  take k (buf_bytes d) = squeeze r A pos k.
Proof.
  intros Hd Hk. destruct (ok_rate_bounds r Hr) as [Hb _]. unfold maxRate in Hb.
  pose proof (Nat.mod_upper_bound pos r ltac:(lia)) as Hm. destruct Hd as [_ _ _ _ Hs Hl Ha Hw Hbytes].
  unfold maxRate in Hs. unfold buf_bytes, buf_window. rewrite Hw. cbn [from_option id fst snd].
  apply list_eq. intros i. unfold squeeze. rewrite list_lookup_fmap.
  destruct (decide (i < k)%nat) as [Hi|Hi].
  - rewrite !lookup_take_lt, lookup_drop, lookup_seq_lt by lia. simpl.
    assert ((pos + i) / r = pos / r /\ (pos + i) mod r = pos mod r + i)%nat as [-> ->].
    { pose proof (Nat.div_mod pos r ltac:(lia)). split.
      - symmetry. apply (Nat.div_unique _ _ _ (pos mod r + i)); lia.
      - symmetry. apply (Nat.mod_unique _ _ (pos / r)); lia. }
    rewrite <-Ha.
    assert (storage d !! (pos mod r + i)%nat = lane_bytes (st_a d) !! (pos mod r + i)%nat) as ->.
    { rewrite <-(lookup_take_lt (storage d) r), Hbytes, lookup_take_lt by lia. done. }
    apply list_lookup_lookup_total_lt. rewrite length_lane_bytes. lia.
  - rewrite !lookup_ge_None_2; [done| |rewrite length_take; lia]. rewrite length_seq. lia.
Qed.

(** Moving past [k] bytes, refilling the buffer at the end of the block. *)
Lemma squeeze_advance d pos k : squeezing r ol ds A d pos -> (k <= r - pos mod r)%nat ->
  exists d', (if (r - pos mod r - k =? 0)%nat
              then permute (with_buf d (pos mod r + k, r - pos mod r - k)%nat)
              else Some (with_buf d (pos mod r + k, r - pos mod r - k)%nat)) = Some d' /\
    squeezing r ol ds A d' (pos + k).
Proof.
  intros Hd Hk. destruct (ok_rate_bounds r Hr) as [Hb _].
  pose proof (Nat.mod_upper_bound pos r ltac:(lia)) as Hm.
  pose proof (Nat.div_mod pos r ltac:(lia)) as Hdm.
  destruct Hd as [H1 H2 H3 H4 H5 H6 H7 H8 H9].
  destruct (Nat.eqb_spec (r - pos mod r - k) 0) as [He|Hne].
  - unfold permute. change (st_dir (with_buf d _)) with (st_dir d). rewrite H1.
    change (rate (with_buf d _)) with (rate d). rewrite H2, storage_window_ok by lia.
    cbn [mbind option_bind]. eexists. split; [done|].
    replace (pos + k)%nat with (S (pos / r) * r)%nat by lia.
    apply block_squeezing; try done. 
    change (keccakF1600 (st_a d) = keccakF1600 (Nat.iter (pos / r) keccakF1600 A)). by rewrite <-H7.
  - eexists. split; [done|].
    assert ((pos + k) / r = pos / r /\ (pos + k) mod r = pos mod r + k)%nat as [Hq Hm'].
    { split.
      - symmetry. apply (Nat.div_unique _ _ _ (pos mod r + k)); lia.
      - symmetry. apply (Nat.mod_unique _ _ (pos / r)); lia. }
    split; try done.
    + by rewrite Hq.
    + cbn [with_buf st_buf]. rewrite Hm'. do 2 f_equal. lia.
Qed.

Lemma Read_loop_squeezes fuel d pos n : (n <= fuel)%nat -> squeezing r ol ds A d pos ->
  exists d', Read_loop fuel d n = Some (squeeze r A pos n, d') /\ squeezing r ol ds A d' (pos + n).
Proof.
  revert d pos n. induction fuel as [|fuel IH]; intros d pos n Hf Hd.
  - assert (n = 0%nat) as -> by lia. exists d. by rewrite Nat.add_0_r.
  - destruct n as [|n']; [exists d; by rewrite Nat.add_0_r|]. remember (S n') as n eqn:Hn.
    destruct (ok_rate_bounds r Hr) as [Hb _]. pose proof (Nat.mod_upper_bound pos r ltac:(lia)) as Hm.
    assert (Read_loop (S fuel) d n =
      (let '(off, len) := buf_window d in
       let k := Nat.min n len in
       let piece := take k (buf_bytes d) in
       let d := with_buf d (off + k, len - k)%nat in
       d ← (if (len - k =? 0)%nat then permute d else Some d);
       '(out, d) ← Read_loop fuel d (n - k);
       Some (piece ++ out, d))) as -> by (subst n; reflexivity).
    unfold buf_window. rewrite (sq_buf _ _ _ _ _ _ Hd). cbn [from_option id]. cbv zeta.
    set (k := Nat.min n (r - pos mod r)).
    rewrite (squeeze_piece d pos k Hd) by lia.
    destruct (squeeze_advance d pos k Hd) as (d1 & -> & Hd1); [lia|]. cbn [mbind option_bind].
    destruct (IH d1 _ (n - k)%nat ltac:(lia) Hd1) as (d' & -> & Hd'). cbn [mbind option_bind].
    exists d'. rewrite <-squeeze_app. replace (k + (n - k))%nat with n by lia.
    split; [done|]. by replace (pos + n)%nat with (pos + k + (n - k))%nat by lia.
Qed.
End Squeeze.

(** ** Padding *)

(** The last byte of the zero-filled buffer gets the final one bit. *)
Lemma padded_buffer r ds (rest : list Z) len : (len < r)%nat -> length rest = len ->
  <[(r - 1)%nat := Z.lxor ((rest ++ ds :: replicate (r - S len) 0) !!! (r - 1)%nat) 0x80]>
    (rest ++ ds :: replicate (r - S len) 0) =
  rest ++ (if decide (r - len = 1)%nat then [Z.lxor ds 0x80] else ds :: replicate (r - len - 2) 0 ++ [0x80]).
Proof.
  intros Hlt Hl. rewrite insert_app_r_alt, lookup_total_app_r by lia. rewrite Hl. f_equal.
  case_decide as Hd.
  - replace (r - S len)%nat with 0%nat by lia. by replace (r - 1 - len)%nat with 0%nat by lia.
  - replace (r - S len)%nat with (r - len - 2 + 1)%nat by lia. rewrite replicate_add.
    replace (r - 1 - len)%nat with (S (r - len - 2)) by lia. simpl. f_equal.
    rewrite insert_app_r_alt, lookup_total_app_r by (rewrite length_replicate; lia).
    rewrite length_replicate, Nat.sub_diag. done.
Qed.

(** The buffer in [storage] once the bytes of [d] are padded. *)
Definition padded_storage (d : state) (ds : Z) : list Z :=
  let len := (buf_window d).2 in
  let s := memcpy (memcpy (storage d) len [ds]) (len + 1) (replicate (rate d - (len + 1)) 0) in
  <[(rate d - 1)%nat := Z.lxor (s !!! (rate d - 1)%nat) 0x80]> s.

Section Pad.
Context (r ol : nat) (ds : Z) (Hr : ok_rate r).

Lemma length_full_blocks bs : full_blocks r bs -> length (mjoin bs) = (length bs * r)%nat.
Proof.
  induction 1 as [|b bs Hb _ IH]; [done|]. change (mjoin (b :: bs)) with (b ++ mjoin bs).
  rewrite length_app, IH, Hb. simpl. lia.
Qed.

Lemma padded_storage_spec d m ds' : absorbing r ol ds d m ->
  length (padded_storage d ds') = maxRate /\
  take r (padded_storage d ds') = take (buf_window d).2 (storage d) ++ padding r ds' (length m).
Proof.
  intros Hd. destruct (ok_rate_bounds r Hr) as [Hb _]. destruct Hd as [_ H2 _ _ H5 _ (bs & Hm & Hbs & Hlt & _)].
  set (len := (buf_window d).2) in *. set (rest := take len (storage d)) in *.
  assert (length rest = len) as Hrest by (subst rest; rewrite length_take; lia).
  assert (length m mod r = len)%nat as Hmod.
  { rewrite Hm, length_app, length_full_blocks, Hrest, Nat.add_comm, Nat.Div0.mod_add by done.
    apply Nat.mod_small. lia. }
  unfold padded_storage. fold len. rewrite H2.
  set (s1 := memcpy (storage d) len [ds']).
  assert (length s1 = maxRate) as Hs1 by (subst s1; rewrite length_memcpy; simpl; lia).
  set (s2 := memcpy s1 (len + 1) _).
  assert (length s2 = maxRate) as Hs2 by (subst s2; rewrite length_memcpy; rewrite ?length_replicate; lia).
  assert (take r s2 = rest ++ ds' :: replicate (r - S len) 0) as Ht2.
  { pose proof (take_memcpy s1 (len + 1) (replicate (r - (len + 1)) 0)) as H.
    rewrite length_replicate in H. replace (len + 1 + (r - (len + 1)))%nat with r in H by lia.
    fold s2 in H. rewrite H by lia.
    pose proof (take_memcpy (storage d) len [ds']) as H'. cbn [length] in H'. fold s1 in H'.
    rewrite H' by lia. rewrite <-app_assoc. replace (S len) with (len + 1)%nat by lia. done. }
  rewrite length_insert. split; [done|]. rewrite take_insert_lt by lia.
  replace (s2 !!! (r - 1)%nat) with (take r s2 !!! (r - 1)%nat).
  2:{ rewrite !list_lookup_total_alt. by rewrite lookup_take_lt by lia. }
  rewrite Ht2, padded_buffer by done. unfold padding. by rewrite Hmod.
Qed.

Lemma absorb_split bs rest m ds' : m = mjoin bs ++ rest -> full_blocks r bs ->
  length (rest ++ padding r ds' (length m)) = r ->
  absorb r ds' m =
  absorb_block (foldl absorb_block (replicate 25 0) bs) (rest ++ padding r ds' (length m)).
Proof.
  intros Hm Hbs Hl. destruct (ok_rate_bounds r Hr) as [Hb _]. unfold absorb.
  set (last := rest ++ _) in *.
  assert (m ++ padding r ds' (length m) = mjoin (bs ++ [last])) as ->.
  { rewrite join_app. change (mjoin [last]) with (last ++ []). rewrite app_nil_r.
    rewrite Hm at 1. by rewrite <-app_assoc. }
  rewrite blocks_concat; [by rewrite foldl_app|lia| |lia].
  apply Forall_app. split; [done|]. by constructor.
Qed.

Lemma padAndPermute_squeezing d m ds' : absorbing r ol ds d m ->
  length (absorb r ds' m) = 25%nat /\
  exists d', padAndPermute d ds' = Some d' /\ squeezing r ol ds (absorb r ds' m) d' 0.
Proof.
  intros Hd. destruct (ok_rate_bounds r Hr) as [Hb _].
  destruct (padded_storage_spec d m ds' Hd) as [Hpl Hpt].
  pose proof Hd as [H1 H2 H3 H4 H5 H6 (bs & Hm & Hbs & Hlt & Ha)].
  assert (length (take (buf_window d).2 (storage d) ++ padding r ds' (length m)) = r) as Hl.
  { rewrite <-Hpt, length_take. lia. }
  rewrite (absorb_split bs (take (buf_window d).2 (storage d)) m ds' Hm Hbs Hl), <-Ha.
  assert (length (st_a d) = 25%nat) as Hal by (rewrite Ha; by eapply fold_absorb_length).
  split; [apply absorb_block_length; [done|by rewrite Hl]|].
  unfold padAndPermute. change (buf_window (init_buf d)) with (buf_window d).
  rewrite (append_buf_ok (init_buf d)) by (change (buf_window (init_buf d)) with (buf_window d); done || (simpl; lia)).
  change (buf_window (init_buf d)) with (buf_window d). change (storage (init_buf d)) with (storage d).
  cbn [mbind option_bind length]. change (buf_window (with_buf _ ?w)) with w. cbn [snd].
  change (rate (with_buf _ _)) with (rate d). rewrite H2, storage_window_ok by lia. cbn [mbind option_bind].
  change (rate (with_buf _ _)) with (rate d). cbn [storage with_buf with_storage]. rewrite ?H2.
  set (s2 := memcpy _ _ (replicate _ _)). change (rate (with_storage _ s2)) with (rate d). rewrite ?H2.
  assert (length s2 = maxRate) as Hs2.
  { subst s2. rewrite !length_memcpy; rewrite ?length_memcpy, ?length_replicate; simpl; lia. }
  destruct (lookup_lt_is_Some_2 s2 (r - 1)) as [last Hlast]; [lia|]. rewrite Hlast. cbn [mbind option_bind].
  assert (<[(r - 1)%nat := Z.lxor last 128]> s2 = padded_storage d ds') as ->.
  { unfold padded_storage. rewrite H2. fold s2. by rewrite (list_lookup_total_correct _ _ _ Hlast). }
  set (d1 := with_storage _ _).
  assert (buf_bytes d1 = take (buf_window d).2 (storage d) ++ padding r ds' (length m)) as Hbytes by exact Hpt.
  rewrite (permute_absorbing d1) by (done || (rewrite Hbytes, Hl; done)).
  cbn [mbind option_bind]. change (rate (with_a _ _)) with (rate d). rewrite H2, storage_window_ok by lia.
  cbn [mbind option_bind]. eexists. split; [done|].
  match goal with |- squeezing _ _ _ _ _ ?z => change z with (0 * r)%nat end.
  apply block_squeezing; try done.
  - apply absorb_block_length; [done|by rewrite Hl].
  - rewrite <-Hbytes. done.
Qed.

(** [Read] from either direction. *)
Lemma Read_absorbing d m n : absorbing r ol ds d m ->
  exists d', Read d n = Some (squeeze r (absorb r ds m) 0 n, d') /\
    squeezing r ol ds (absorb r ds m) d' n.
Proof.
  intros Hd. destruct (padAndPermute_squeezing d m ds Hd) as (HA & d1 & Hp & H1).
  unfold Read. rewrite (ab_dir _ _ _ _ _ Hd), (ab_ds _ _ _ _ _ Hd), Hp. cbn [mbind option_bind].
  by apply (Read_loop_squeezes r ol ds Hr _ HA).
Qed.

Lemma Read_squeezing d A pos n : length A = 25%nat -> squeezing r ol ds A d pos ->
  exists d', Read d n = Some (squeeze r A pos n, d') /\ squeezing r ol ds A d' (pos + n).
Proof.
  intros HA Hd. unfold Read. rewrite (sq_dir _ _ _ _ _ _ Hd). cbn [mbind option_bind].
  by apply Read_loop_squeezes.
Qed.

Lemma clone_absorbing d m : absorbing r ol ds d m ->
  exists d', clone d = Some d' /\ absorbing r ol ds d' m.
Proof.
  intros Hd. destruct (ok_rate_bounds r Hr) as [Hb _]. pose proof (ab_state _ _ _ _ _ Hd) as (_ & _ & _ & Hlt & _).
  unfold clone. rewrite (ab_dir _ _ _ _ _ Hd), storage_window_ok by lia. cbn [mbind option_bind].
  eexists. split; [done|]. destruct Hd as [H1 H2 H3 H4 H5 H6 H7]. by split.
Qed.

Lemma Sum_absorbing d m inp : absorbing r ol ds d m ->
  Sum d inp = Some (inp ++ squeeze r (absorb r ds m) 0 ol).
Proof.
  intros Hd. unfold Sum. destruct (clone_absorbing d m Hd) as (d1 & -> & H1). cbn [mbind option_bind].
  rewrite (ab_out _ _ _ _ _ H1). by destruct (Read_absorbing d1 m ol H1) as (d2 & -> & _).
Qed.
End Pad.

(** ** The hash functions *)

Fixpoint read_each (d : state) (ns : list nat) : option (list (list Z)) :=
  match ns with
  | [] => Some []
  | n :: ns => '(out, d) ← Read d n; outs ← read_each d ns; Some (out :: outs)
  end.

Lemma length_squeeze r A pos n : length (squeeze r A pos n) = n.
Proof. unfold squeeze. by rewrite length_map, length_seq. Qed.

Lemma read_each_squeezing r ol ds A d pos ns : ok_rate r -> length A = 25%nat -> squeezing r ol ds A d pos ->
  exists outs, read_each d ns = Some outs /\ mjoin outs = squeeze r A pos (sum_list ns) /\ map length outs = ns.
Proof.
  intros Hr HA. revert d pos. induction ns as [|n ns IH]; intros d pos Hd; simpl; [by exists []|].
  destruct (Read_squeezing r ol ds Hr d A pos n HA Hd) as (d1 & -> & H1). simpl.
  destruct (IH d1 _ H1) as (outs & -> & Hj & Hl). simpl. eexists. split; [done|].
  rewrite squeeze_app. change (mjoin (?x :: ?l)) with (x ++ mjoin l). rewrite Hj. split; [done|].
  simpl. by rewrite length_squeeze, Hl.
Qed.

Lemma read_each_absorbing r ol ds d m ns : ok_rate r -> absorbing r ol ds d m ->
  exists outs, read_each d ns = Some outs /\ mjoin outs = squeeze r (absorb r ds m) 0 (sum_list ns) /\
    map length outs = ns.
Proof.
  intros Hr Hd. destruct (padAndPermute_squeezing r ol ds Hr d m ds Hd) as [HA _].
  destruct ns as [|n ns]; simpl; [by exists []|].
  destruct (Read_absorbing r ol ds Hr d m n Hd) as (d1 & -> & H1). cbn [mbind option_bind].
  destruct (read_each_squeezing r ol ds _ d1 n ns Hr HA H1) as (outs & -> & Hj & Hl). simpl.
  eexists. split; [done|].
  rewrite squeeze_app. change (mjoin (?x :: ?l)) with (x ++ mjoin l). rewrite Hj. split; [done|].
  simpl. by rewrite length_squeeze, Hl.
Qed.

(** C15: a hash state of any of the rates in use never panics on writes,
    [Sum] and reads, and however the message is cut into writes and the output
    into reads, the bytes are those of the sponge construction on the whole
    message: [Sum] gives the first [outputLen] of them and leaves the state as
    it is, successive reads give consecutive stretches. *)
Theorem sponge_streams r ol ds data inp ns : ok_rate r ->
  exists d, write_each (new_state r ol ds) data = Some d /\
    Sum d inp = Some (inp ++ squeeze r (absorb r ds (mjoin data)) 0 ol) /\
    exists outs, read_each d ns = Some outs /\
      mjoin outs = squeeze r (absorb r ds (mjoin data)) 0 (sum_list ns) /\ map length outs = ns.
Proof.
  intros Hr. destruct (write_each_absorbs r ol ds Hr _ [] data (new_state_absorbing r ol ds Hr)) as (d & -> & Hd).
  exists d. split; [done|]. split; [by apply Sum_absorbing|]. by eapply read_each_absorbing.
Qed.

Lemma sponge_streams_witness :
  ok_rate 136 /\
  exists d, write_each NewShake256 [[1; 2]; []; [3]] = Some d /\
    exists outs, read_each d [1; 200]%nat = Some outs /\
      mjoin outs = squeeze 136 (absorb 136 0x1f [1; 2; 3]) 0 201 /\ map length outs = [1; 200]%nat.
Proof.
  assert (ok_rate 136) as Hr by (unfold ok_rate; set_solver). split; [done|].
  destruct (sponge_streams 136 0 0x1f [[1; 2]; []; [3]] [] [1; 200]%nat Hr) as (d & Hw & _ & Ho).
  exists d. split; [exact Hw|exact Ho].
Defined.

Lemma Keccak256_squeeze data :
  Keccak256 data = Some (squeeze 136 (absorb 136 0x01 (mjoin data)) 0 32).
Proof.
  assert (ok_rate 136) as Hr by (unfold ok_rate; set_solver). unfold Keccak256.
  destruct (write_each_absorbs 136 32 0x01 Hr _ [] data (new_state_absorbing 136 32 0x01 Hr)) as (d & Hw & Hd).
  change NewKeccak256 with (new_state 136 32 1). rewrite Hw. cbn [mbind option_bind].
  by rewrite (Sum_absorbing 136 32 0x01 Hr _ _ [] Hd).
Qed.

Lemma lane_bytes_bytes a : bytes (lane_bytes a).
Proof.
  induction a as [|x a IH]; [constructor|]. rewrite lane_bytes_cons. apply bytes_app.
  auto using le_put_bytes.
Qed.

Lemma squeeze_bytes r A pos n : bytes (squeeze r A pos n).
Proof.
  apply Forall_forall. intros x Hx. apply list_elem_of_fmap in Hx as (i & -> & _).
  rewrite list_lookup_total_alt. destruct (lane_bytes _ !! _) as [b|] eqn:Hb; simpl; [|done].
  eapply Forall_lookup_1; [apply lane_bytes_bytes|done].
Qed.

(** The digest as a total function of the concatenated input. *)
Definition keccak256 (m : list Z) : list Z := default [] (Keccak256 [m]).

Lemma Keccak256_concat data : Keccak256 data = Some (keccak256 (mjoin data)).
Proof.
  unfold keccak256. rewrite !Keccak256_squeeze. change (mjoin [mjoin data]) with (mjoin data ++ []).
  by rewrite app_nil_r.
Qed.

Lemma keccak256_hash m : bytes (keccak256 m) /\ length (keccak256 m) = 32%nat.
Proof.
  unfold keccak256. rewrite Keccak256_squeeze. cbn [from_option id]. split; [apply squeeze_bytes|apply length_squeeze].
Qed.

(** The clone of a state that is being read starts [maxRate - rate] bytes too
    early, or panics, since the capacity of the buffer is counted from the end
    of [storage] and not from the end of the block. *)
Lemma clone_squeezing r ol ds A d pos : ok_rate r -> squeezing r ol ds A d pos ->
  (pos mod r + r < maxRate -> clone d = None)%nat /\
  (maxRate <= pos mod r + r -> exists d', clone d = Some d' /\
    st_buf d' = Some (pos mod r - (maxRate - r), r - (pos mod r - (maxRate - r))))%nat.
Proof.
  intros Hr Hd. destruct (ok_rate_bounds r Hr) as [Hb _].
  pose proof (Nat.mod_upper_bound pos r ltac:(lia)) as Hm. unfold clone, buf_cap.
  rewrite (sq_dir _ _ _ _ _ _ Hd), (sq_buf _ _ _ _ _ _ Hd), (sq_rate _ _ _ _ _ _ Hd).
  split; intros H; [by rewrite decide_False by lia|]. rewrite decide_True by lia.
  unfold storage_window. rewrite decide_True by lia. cbn [mbind option_bind].
  eexists. split; [done|]. cbn [with_buf st_buf]. do 2 f_equal; lia.
Qed.
