(* ===== verification/HeaderHash.v ===== *)
(** * Hashes of RLP-encoded data (src/core/types/block.go)

    [rlpHash] feeds the chunks of the encoder to the Keccak sponge.  The hash
    of a header commits to all of its fields: equal hashes mean equal fields or
    a Keccak collision that is at hand. *)
From S2P Require Import Prelude Sha3 Types Rlp StateCodec.

(** The encoding error is dropped; nothing is written then. *)
Definition rlpHash (x : value) : option Hash :=
  match writer x reset_buf with
  | Ok w => chunks ← toWriter w; Keccak256 chunks
  | Err _ => Keccak256 []
  | Panic => None
  end.

(** The exported fields of the struct, in order. *)
Definition header_value (h : Header) : value :=
  VList [VBytes (ParentHash h); VBytes (UncleHash h); VBytes (Coinbase h); VBytes (Root h);
         VBytes (TxHash h); VBytes (ReceiptHash h); VBytes (Bloom h); VBig (Difficulty h);
         VBig (Number h); VBig (GasLimit h); VBig (GasUsed h); VBig (Time h); VBytes (Extra h);
         VBytes (Nonce h); VBytes (PlotID h); VBytes (GenSig h); VBig (BaseTarget h);
         VBig (DeadLine h); VBig (LastTime h)].

Definition Header_Hash (h : Header) : option Hash := rlpHash (header_value h).

Definition HashNoNonce (h : Header) : option Hash :=
  rlpHash (VList [VBytes (ParentHash h); VBytes (UncleHash h); VBytes (Coinbase h); VBytes (Root h);
    VBytes (TxHash h); VBytes (ReceiptHash h); VBytes (Bloom h); VBig (Number h); VBig (GasLimit h);
    VBig (GasUsed h); VBig (Time h); VBytes (Extra h)]).

Definition CalcUncleHash (uncles : list Header) : option Hash := rlpHash (VList (map header_value uncles)).

(** ** Lists of strings *)

(** The string a value that is not a list is encoded as. *)
Definition flat_value (v : value) : option (list Z) :=
  match v with
  | VUint i => Some (min_bytes i)
  | VBool b => Some (if b then [1] else [])
  | VBig None => Some []
  | VBig (Some i) => if i <? 0 then None else Some (min_bytes i)
  | VBytes b => Some b
  | VNilPtr NilByteArray => Some []
  | _ => None
  end.

Definition enc_strs (fs : list (list Z)) : list Z := mjoin (enc_str <$> fs).

Lemma rlp_flat_value v f : flat_value v = Some f -> rlp v = Ok (enc_str f).
Proof.
  destruct v as [| | |[i|]| | |[]|]; simpl; try (intros; by simplify_eq).
  destruct (i <? 0); intros; by simplify_eq.
Qed.

Lemma rlp_flat l fs : mapM flat_value l = Some fs -> rlp (VList l) = Ok (enc_list (enc_strs fs)).
Proof.
  intros Hm. apply mapM_Some in Hm. rewrite rlp_list.
  assert (rlp_all l = Ok (enc_strs fs)) as ->; [|done].
  induction Hm as [|v f l fs Hv _ IH]; [done|]. simpl.
  rewrite (rlp_flat_value _ _ Hv), ok_bind, IH, ok_bind. done.
Qed.

Lemma enc_str_bytes_inv f : bytes (enc_str f) -> bytes f.
Proof.
  destruct (enc_str_cases f) as [(x & -> & _ & E & _)|(_ & E & _)]; rewrite E; [tauto|].
  by intros [_ ?]%bytes_app.
Qed.

(** The encoding of a sequence of strings determines the strings. *)
Lemma enc_strs_inj fs gs : bytes (enc_strs fs) -> Z.of_nat (length (enc_strs fs)) < 2 ^ 64 ->
  enc_strs fs = enc_strs gs -> fs = gs.
Proof.
  assert (forall f fs, enc_strs (f :: fs) = enc_str f ++ enc_strs fs) as Hc by done.
  assert (forall f, enc_str f <> []) as Hne.
  { intros f. destruct (enc_str_cases f) as [(x & -> & _ & -> & _)|(_ & -> & _)]; [done|].
    unfold puthead. by destruct (_ <? _). }
  revert gs. induction fs as [|f fs IH]; intros [|g gs] Hb Hl He; [done| | |].
  - rewrite Hc in He. symmetry in He. by apply app_nil in He as [?%Hne _].
  - rewrite Hc in He. by apply app_nil in He as [?%Hne _].
  - pose proof Hb as Hb2. pose proof Hl as Hl2. rewrite He, Hc in Hb2, Hl2. rewrite Hc in Hb, Hl.
    apply bytes_app in Hb as [Hf Hfs]. apply bytes_app in Hb2 as [Hg Hgs].
    pose proof (Split_enc_str f (enc_strs fs) (enc_str_bytes_inv _ Hf) Hl) as S1.
    pose proof (Split_enc_str g (enc_strs gs) (enc_str_bytes_inv _ Hg) Hl2) as S2.
    rewrite <-Hc, He, Hc, S2 in S1. injection S1 as _ -> Heq. f_equal. apply IH; [done| |done].
    rewrite length_app in Hl. lia.
Qed.

Lemma enc_list_inj p q : Z.of_nat (length (enc_list p)) < 2 ^ 64 -> enc_list p = enc_list q -> p = q.
Proof.
  intros Hl He. pose proof (Split_enc_list p []) as S1. pose proof (Split_enc_list q []) as S2.
  rewrite app_nil_r in S1, S2. rewrite He in S1, Hl. specialize (S1 Hl). specialize (S2 Hl). congruence.
Qed.

(** ** What a hash commits to *)

Lemma rlpHash_ok v b : value_ok v -> rlp v = Ok b -> Z.of_nat (length b) < 2 ^ 64 ->
  rlpHash v = Some (keccak256 b).
Proof.
  intros Hv Hb Hl. pose proof (writer_ok v Hv reset_buf) as Hw. rewrite Hb in Hw.
  destruct Hw as (w & Ew & Hw). unfold rlpHash. rewrite Ew.
  destruct (reset_writes w b (Hw Hl)) as (Hp & Hs & Hf).
  destruct (toWriter_loop_ok (str w) (lheads w) 0 Hp) as (chunks & E & Hc); [lia|].
  unfold toWriter. rewrite E. cbn [mbind option_bind]. rewrite Keccak256_concat.
  rewrite drop_0, Hf in Hc. do 2 f_equal. rewrite <-Hc. clear. by induction chunks; simpl; f_equal.
Qed.

Lemma rlpHash_err v e : value_ok v -> rlp v = Err e -> rlpHash v = Some (keccak256 []).
Proof.
  intros Hv He. pose proof (writer_ok v Hv reset_buf) as Hw. rewrite He in Hw.
  unfold rlpHash. rewrite Hw. apply Keccak256_concat.
Qed.

(** Two different inputs with the same digest. *)
Definition collision (x y : list Z) : Prop := x <> y /\ keccak256 x = keccak256 y.

(** [v] has the encoding [b], of a length the encoder can handle. *)
Definition encodable (v : value) (b : list Z) : Prop :=
  value_ok v /\ rlp v = Ok b /\ bytes b /\ Z.of_nat (length b) < 2 ^ 64.

Definition string_value (v : value) : bool :=
  match v with
  | VUint _ | VBool _ | VBig _ | VBytes _ | VNilPtr NilByteArray => true
  | _ => false
  end.

Lemma rlp_flat_inv l b : Forall (fun v => string_value v = true) l -> rlp (VList l) = Ok b ->
  exists fs, mapM flat_value l = Some fs /\ b = enc_list (enc_strs fs).
Proof.
  intros Hl. rewrite rlp_list. intros (p & Hp & [= <-])%outcome_bind_ok.
  assert (exists fs, mapM flat_value l = Some fs) as [fs Hfs].
  { revert p Hp. induction Hl as [|v l Hv _ IH]; intros p Hp; [by exists []|].
    simpl in Hp. apply outcome_bind_ok in Hp as (a & Ha & (q & Hq & _)%outcome_bind_ok).
    destruct (IH q Hq) as [fs Hfs].
    assert (exists f, flat_value v = Some f) as [f Hf].
    { destruct v as [| | |[i|]| | |[]|]; simpl in *; eauto; try done. destruct (i <? 0); eauto; done. }
    exists (f :: fs). simpl. by rewrite Hf, Hfs. }
  exists fs. split; [done|]. pose proof (rlp_flat _ _ Hfs) as Hr. rewrite rlp_list, Hp, ok_bind in Hr. congruence.
Qed.

Lemma enc_list_payload p : bytes (enc_list p) -> bytes p.
Proof. unfold enc_list. by intros [_ ?]%bytes_app. Qed.

(** Hashes of two lists of strings. *)
Lemma rlpHash_commits l1 l2 b1 b2 :
  Forall (fun v => string_value v = true) l1 -> Forall (fun v => string_value v = true) l2 ->
  encodable (VList l1) b1 -> encodable (VList l2) b2 -> rlpHash (VList l1) = rlpHash (VList l2) ->
  (mapM flat_value l1 = mapM flat_value l2 /\ is_Some (mapM flat_value l1)) \/ collision b1 b2.
Proof.
  intros Hs1 Hs2 (Hv1 & Hr1 & Hb1 & Hl1) (Hv2 & Hr2 & Hb2 & Hl2) He.
  rewrite (rlpHash_ok _ b1), (rlpHash_ok _ b2) in He by done. injection He as He.
  destruct (rlp_flat_inv l1 b1 Hs1 Hr1) as (fs1 & Hf1 & E1).
  destruct (rlp_flat_inv l2 b2 Hs2 Hr2) as (fs2 & Hf2 & E2).
  destruct (decide (b1 = b2)) as [Heq|Hne]; [|by right]. left. rewrite Hf1, Hf2.
  split; [|eauto]. f_equal. subst b1 b2. apply enc_list_inj in Heq; [|done].
  apply enc_list_payload in Hb1.
  apply enc_strs_inj; [done| |done]. unfold enc_list in Hl1. rewrite length_app in Hl1. lia.
Qed.

Lemma min_bytes_inj i j : 0 <= i -> 0 <= j -> min_bytes i = min_bytes j -> i = j.
Proof.
  assert (forall i, 0 <= i -> be_get (min_bytes i) = i) as H.
  { intros k Hk. unfold min_bytes. destruct (Z.eqb_spec k 0) as [->|]; [done|]. apply big_Bytes_spec. lia. }
  intros Hi Hj He. apply (f_equal be_get) in He. by rewrite !H in He.
Qed.

Lemma flat_big_inj p q : flat_value (VBig p) = flat_value (VBig q) -> is_Some (flat_value (VBig p)) ->
  default 0 p = default 0 q.
Proof.
  assert (forall i, 0 <= i -> min_bytes i = [] -> i = 0) as H0.
  { intros i Hi H. by apply (min_bytes_inj i 0). }
  destruct p as [i|], q as [j|]; simpl; intros He [f Hf]; [| | |done].
  - destruct (Z.ltb_spec i 0); [done|]. destruct (Z.ltb_spec j 0); [done|].
    injection He as He. by apply min_bytes_inj.
  - destruct (Z.ltb_spec i 0); [done|]. injection He as He. by apply H0.
  - destruct (Z.ltb_spec j 0); [done|]. injection He as He. symmetry. by apply H0.
Qed.

(** Equal fields; a nil big integer is encoded like zero. *)
Definition same_header (h1 h2 : Header) : Prop :=
  ParentHash h1 = ParentHash h2 /\ UncleHash h1 = UncleHash h2 /\ Coinbase h1 = Coinbase h2 /\
  Root h1 = Root h2 /\ TxHash h1 = TxHash h2 /\ ReceiptHash h1 = ReceiptHash h2 /\
  Types.Bloom h1 = Types.Bloom h2 /\ default 0 (Difficulty h1) = default 0 (Difficulty h2) /\
  default 0 (Number h1) = default 0 (Number h2) /\ default 0 (GasLimit h1) = default 0 (GasLimit h2) /\
  default 0 (GasUsed h1) = default 0 (GasUsed h2) /\ default 0 (Time h1) = default 0 (Time h2) /\
  Extra h1 = Extra h2 /\ Nonce h1 = Nonce h2 /\ PlotID h1 = PlotID h2 /\ GenSig h1 = GenSig h2 /\
  default 0 (BaseTarget h1) = default 0 (BaseTarget h2) /\
  default 0 (DeadLine h1) = default 0 (DeadLine h2) /\ default 0 (LastTime h1) = default 0 (LastTime h2).

Lemma mapM_cons_eq v1 l1 v2 l2 :
  mapM flat_value (v1 :: l1) = mapM flat_value (v2 :: l2) -> is_Some (mapM flat_value (v1 :: l1)) ->
  (flat_value v1 = flat_value v2 /\ is_Some (flat_value v1)) /\
  (mapM flat_value l1 = mapM flat_value l2 /\ is_Some (mapM flat_value l1)).
Proof.
  simpl. intros He [x Hx].
  destruct (flat_value v1) as [f1|]; simpl in *; [|done].
  destruct (mapM flat_value l1) as [fs1|]; simpl in *; [|done].
  destruct (flat_value v2) as [f2|]; simpl in *; [|done].
  destruct (mapM flat_value l2) as [fs2|]; simpl in *; [|done]. simplify_eq. eauto.
Qed.

Lemma header_strings_inj h1 h2 l1 l2 : header_value h1 = VList l1 -> header_value h2 = VList l2 ->
  mapM flat_value l1 = mapM flat_value l2 -> is_Some (mapM flat_value l1) -> same_header h1 h2.
Proof.
  intros [= <-] [= <-] He Hs. unfold same_header.
  repeat (apply mapM_cons_eq in He as [[?Hf ?Hp] [He ?Hs2]]; [clear Hs; rename Hs2 into Hs|done]).
  repeat match goal with
  | H : flat_value (VBytes _) = flat_value (VBytes _) |- _ => injection H as ?
  | H : flat_value (VBig _) = flat_value (VBig _) |- _ => apply flat_big_inj in H; [|done]
  end. by repeat split.
Qed.

(** C22: the hash of a header is the Keccak digest of its RLP encoding and
    commits to every field: if two headers have the same hash, their fields
    agree (a nil integer counting as zero), or their encodings are a collision
    of Keccak-256.  A header with a negative integer has no encoding, and all
    such headers share the digest of the empty string. *)
Theorem Header_Hash_commits h1 h2 b1 b2 :
  encodable (header_value h1) b1 -> encodable (header_value h2) b2 ->
  Header_Hash h1 = Some (keccak256 b1) /\
  (Header_Hash h1 = Header_Hash h2 -> same_header h1 h2 \/ collision b1 b2) /\
  forall h e, rlp (header_value h) = Err e -> Header_Hash h = Some (keccak256 []).
Proof.
  intros He1 He2. split; [|split].
  - destruct He1 as (? & ? & ? & ?). by apply rlpHash_ok.
  - intros He. eapply rlpHash_commits in He as [[He Hs]|Hc]; [|by right| | |exact He1|exact He2].
    + left. by eapply header_strings_inj.
    + by repeat constructor.
    + by repeat constructor.
  - intros h e He. eapply rlpHash_err; [|done]. done.
Qed.

Definition sample : Header :=
  mkHeader [1] [2] [3] [4] [5] [6] [7] (Some 1) (Some 300) (Some 5000) None (Some 77) [9; 9]
    [0; 0] [0; 1] [8] (Some 10) (Some 11) (Some 12).

Lemma Header_Hash_commits_witness :
  exists b, encodable (header_value sample) b /\ Header_Hash sample = Some (keccak256 b).
Proof.
  assert (exists b, encodable (header_value sample) b) as [b Hb].
  { eexists. split; [done|]. split; [vm_compute; reflexivity|]. split; [|done].
    repeat (constructor; [unfold is_byte; lia|]). constructor. }
  exists b. split; [exact Hb|]. exact (proj1 (Header_Hash_commits sample sample b b Hb Hb)).
Defined.
