(* ===== verification/Clique.v ===== *)
(** * The proof-of-authority engine (src/consensus/clique)

    The voting snapshot of [snapshot.go] with its cached tally, the signer
    recovery of [clique.go], the parts of the engine that are left in this fork
    (the verification functions return nil) and the proposals of [api.go].
    The length of an address is declared in a file that is not among the
    sources; it is a parameter. *)
From S2P Require Import Prelude Sha3 Types Rlp HeaderHash.

(** ** Constants and errors *)

Definition epochLength : Z := 30000.
Definition extraSeal : nat := 65.
Definition nonceAuthVote : BlockNonce := replicate 8 0xff.
Definition nonceDropVote : BlockNonce := replicate 8 0.

(** [common.AddressLength] *)
Class AddressSize := AddressLength : nat.

Inductive error :=
  | errUnknownBlock | errInvalidVote | errMissingSignature | errInvalidVotingChain
  | errUnauthorized | errWaitTransactions | errUncles
  | errRecover      (** of [crypto.Ecrecover] *)
  | errSign.        (** of the signer callback *)

Record CliqueConfig := mkCliqueConfig { Period : Z; Epoch : Z }.

(** ** snapshot.go: data *)

Record Vote := mkVote { Signer : Address; VBlock : Z; VAddress : Address; Authorize : bool }.
Record Tally := mkTally { TAuthorize : bool; TVotes : Z }.

Record Snapshot := mkSnapshot {
  config : CliqueConfig;
  SNumber : Z;
  SHash : Hash;
  Signers : gset Address;
  Recents : gmap Z Address;
  Votes : list Vote;
  STally : gmap Address Tally
}.

Definition with_votes (s : Snapshot) (vs : list Vote) : Snapshot :=
  mkSnapshot (config s) (SNumber s) (SHash s) (Signers s) (Recents s) vs (STally s).
Definition with_tally (s : Snapshot) (t : gmap Address Tally) : Snapshot :=
  mkSnapshot (config s) (SNumber s) (SHash s) (Signers s) (Recents s) (Votes s) t.
Definition with_recents (s : Snapshot) (r : gmap Z Address) : Snapshot :=
  mkSnapshot (config s) (SNumber s) (SHash s) (Signers s) r (Votes s) (STally s).
Definition with_signers (s : Snapshot) (g : gset Address) : Snapshot :=
  mkSnapshot (config s) (SNumber s) (SHash s) g (Recents s) (Votes s) (STally s).
Definition at_head (s : Snapshot) (n : Z) (h : Hash) : Snapshot :=
  mkSnapshot (config s) n h (Signers s) (Recents s) (Votes s) (STally s).

(** ** snapshot.go: operations *)

Definition newSnapshot (cfg : CliqueConfig) (number : Z) (hash : Hash) (signers : list Address) : Snapshot :=
  mkSnapshot cfg number hash (list_to_set signers) ∅ [] ∅.

Definition validVote (s : Snapshot) (address : Address) (authorize : bool) : bool :=
  let signer := bool_decide (address ∈ Signers s) in
  (signer && negb authorize) || (negb signer && authorize).

Definition cast (s : Snapshot) (address : Address) (authorize : bool) : bool * Snapshot :=
  if negb (validVote s address authorize) then (false, s)
  else
    match STally s !! address with
    | Some old => (true, with_tally s (<[address := mkTally (TAuthorize old) (TVotes old + 1)]> (STally s)))
    | None => (true, with_tally s (<[address := mkTally authorize 1]> (STally s)))
    end.

Definition uncast (s : Snapshot) (address : Address) (authorize : bool) : bool * Snapshot :=
  match STally s !! address with
  | None => (false, s)
  | Some tally =>
      if negb (eqb (TAuthorize tally) authorize) then (false, s)
      else if 1 <? TVotes tally
      then (true, with_tally s (<[address := mkTally (TAuthorize tally) (TVotes tally - 1)]> (STally s)))
      else (true, with_tally s (delete address (STally s)))
  end.

(** [uint64(len(snap.Signers)/2 + 1)] *)
Definition signer_limit (s : Snapshot) : Z := Z.of_nat (size (Signers s) / 2 + 1).

(** [if limit := ...; number >= limit { delete(snap.Recents, number-limit) }] *)
Definition shift_recents (s : Snapshot) (number : Z) : Snapshot :=
  if signer_limit s <=? number then with_recents s (delete (number - signer_limit s) (Recents s)) else s.

(** The first earlier vote of the signer on the account is uncast and removed. *)
Fixpoint discard_vote (s : Snapshot) (signer coinbase : Address) (seen rest : list Vote) : Snapshot :=
  match rest with
  | [] => s
  | vote :: rest' =>
      if decide (Signer vote = signer /\ VAddress vote = coinbase)
      then with_votes (uncast s (VAddress vote) (Authorize vote)).2 (seen ++ rest')
      else discard_vote s signer coinbase (seen ++ [vote]) rest'
  end.

(** The votes a deauthorized signer cast are uncast and removed. *)
Fixpoint discard_votes_by (s : Snapshot) (signer : Address) (seen rest : list Vote) : Snapshot :=
  match rest with
  | [] => with_votes s seen
  | vote :: rest' =>
      if decide (Signer vote = signer)
      then discard_votes_by (uncast s (VAddress vote) (Authorize vote)).2 signer seen rest'
      else discard_votes_by s signer (seen ++ [vote]) rest'
  end.

(** The votes around the changed account are removed. *)
Definition discard_votes_on (s : Snapshot) (address : Address) : Snapshot :=
  with_votes s (filter (fun v => VAddress v <> address) (Votes s)).

(** The part of a round of [apply] after the signature check. *)
Definition tally_vote (snap : Snapshot) (number : Z) (signer coinbase : Address) (authorize : bool) : Snapshot :=
  let '(ok, snap) := cast snap coinbase authorize in
  let snap := if ok then with_votes snap (Votes snap ++ [mkVote signer number coinbase authorize]) else snap in
  let tally := default (mkTally false 0) (STally snap !! coinbase) in
  if Z.of_nat (size (Signers snap) / 2) <? TVotes tally then
    let snap :=
      if TAuthorize tally then with_signers snap (Signers snap ∪ {[coinbase]})
      else
        let snap := with_signers snap (Signers snap ∖ {[coinbase]}) in
        let snap := shift_recents snap number in
        discard_votes_by snap coinbase [] (Votes snap) in
    let snap := discard_votes_on snap coinbase in
    with_tally snap (delete coinbase (STally snap))
  else snap.

Definition vote_of (nonce : BlockNonce) : option bool :=
  if decide (nonce = nonceAuthVote) then Some true
  else if decide (nonce = nonceDropVote) then Some false
  else None.

(** One iteration of the loop of [apply], the signer being recovered already. *)
Definition apply_signed (snap : Snapshot) (number : Z) (signer coinbase : Address) (nonce : BlockNonce)
    : outcome error Snapshot :=
  guard_err (negb (bool_decide (signer ∈ Signers snap))) errUnauthorized;;
  guard_err (bool_decide (map_Exists (fun _ recent => recent = signer) (Recents snap))) errUnauthorized;;
  let snap := with_recents snap (<[number := signer]> (Recents snap)) in
  let snap := discard_vote snap signer coinbase [] (Votes snap) in
  match vote_of nonce with
  | None => Err errInvalidVote
  | Some authorize => Ok (tally_vote snap number signer coinbase authorize)
  end.

(** [if number%s.config.Epoch == 0] and the shifting of the recent signers. *)
Definition open_block (snap : Snapshot) (number : Z) : option Snapshot :=
  if Epoch (config snap) =? 0 then None
  else
    let snap := if number mod Epoch (config snap) =? 0 then with_tally (with_votes snap []) ∅ else snap in
    Some (shift_recents snap number).

(** [headers[i+1].Number == headers[i].Number + 1] for all [i]. *)
Fixpoint contiguous (headers : list Header) : outcome error unit :=
  match headers with
  | h1 :: (h2 :: _) as rest =>
      n2 ← or_panic (Number h2);
      n1 ← or_panic (Number h1);
      guard_err (negb (big_Uint64 n2 =? u64 (big_Uint64 n1 + 1))) errInvalidVotingChain;;
      contiguous rest
  | _ => Ok tt
  end.

(** ** clique.go: the signer of a header *)

Definition sig_value (h : Header) (unsigned : list Z) : value :=
  VList [VBytes (ParentHash h); VBytes (UncleHash h); VBytes (Coinbase h); VBytes (Root h);
    VBytes (TxHash h); VBytes (ReceiptHash h); VBytes (Bloom h); VBig (Number h); VBig (GasLimit h);
    VBig (GasUsed h); VBig (Time h); VBytes unsigned].

Definition sigHash (h : Header) : option Hash :=
  if decide (extraSeal <= length (Extra h))%nat
  then rlpHash (sig_value h (take (length (Extra h) - extraSeal) (Extra h)))
  else None.

(** [copy(signer[:], hash[12:])] into a zero [Address]. *)
Definition signer_of_digest `{AddressSize} (digest : list Z) : Address :=
  memcpy (replicate AddressLength 0) 0 (take AddressLength (drop 12 digest)).

(** The cache of recovered signers (an ARC cache of a library). *)
Class SigCache := {
  Cache : Type;
  cache_Get : Cache -> Hash -> option Address * Cache;
  cache_Add : Cache -> Hash -> Address -> Cache;
  NewARC : nat -> Cache
}.

Section Recover.
Context `{SigCache} `{AddressSize}.
Context (Ecrecover : list Z -> list Z -> option (list Z)).

Definition ecrecover (h : Header) (sigcache : Cache) : outcome error Address * Cache :=
  match Header_Hash h with
  | None => (Panic, sigcache)
  | Some hash =>
      let '(known, sigcache) := cache_Get sigcache hash in
      match known with
      | Some address => (Ok address, sigcache)
      | None =>
          if decide (length (Extra h) < extraSeal)%nat then (Err errMissingSignature, sigcache)
          else
            let signature := drop (length (Extra h) - extraSeal) (Extra h) in
            match sigHash h with
            | None => (Panic, sigcache)
            | Some digest =>
                match Ecrecover digest signature with
                | None => (Err errRecover, sigcache)
                | Some [] => (Panic, sigcache)
                | Some (_ :: pubkey) =>
                    match Keccak256 [pubkey] with
                    | None => (Panic, sigcache)
                    | Some k => (Ok (signer_of_digest k), cache_Add sigcache hash (signer_of_digest k))
                    end
                end
            end
      end
  end.

(** ** snapshot.go: [apply] *)

Fixpoint apply_loop (snap : Snapshot) (sigcache : Cache) (headers : list Header)
    : outcome error Snapshot * Cache :=
  match headers with
  | [] => (Ok snap, sigcache)
  | h :: headers' =>
      match (n ← Number h; open_block snap (big_Uint64 n)) with
      | None => (Panic, sigcache)
      | Some snap =>
          let '(signer, sigcache) := ecrecover h sigcache in
          match (signer ← signer;
                 apply_signed snap (big_Uint64 (default 0 (Number h))) signer (Coinbase h) (Nonce h)) with
          | Ok snap => apply_loop snap sigcache headers'
          | Err e => (Err e, sigcache)
          | Panic => (Panic, sigcache)
          end
      end
  end.

Definition apply (s : Snapshot) (sigcache : Cache) (headers : list Header) : outcome error Snapshot * Cache :=
  match headers with
  | [] => (Ok s, sigcache)
  | h0 :: _ =>
      match (contiguous headers;;
             n0 ← or_panic (Number h0);
             guard_err (negb (big_Uint64 n0 =? u64 (SNumber s + 1))) errInvalidVotingChain) with
      | Err e => (Err e, sigcache)
      | Panic => (Panic, sigcache)
      | Ok _ =>
          let '(r, sigcache) := apply_loop s sigcache headers in
          (snap ← r;
           hash ← or_panic (h ← last headers; Header_Hash h);
           Ok (at_head snap (u64 (SNumber snap + Z.of_nat (length headers))) hash), sigcache)
      end
  end.
End Recover.

(** ** snapshot.go: the order of the signers *)

(** [bytes.Compare] *)
Fixpoint bytes_Compare (a b : list Z) : comparison :=
  match a, b with
  | [], [] => Eq
  | [], _ :: _ => Lt
  | _ :: _, [] => Gt
  | x :: a', y :: b' => match x ?= y with Eq => bytes_Compare a' b' | c => c end
  end.

(** The inner loop: [x] is [signers[i]], the list the elements behind it. *)
Fixpoint exchange (x : Address) (l : list Address) : Address * list Address :=
  match l with
  | [] => (x, [])
  | y :: l' =>
      match bytes_Compare x y with
      | Gt => let '(m, r) := exchange y l' in (m, x :: r)
      | _ => let '(m, r) := exchange x l' in (m, y :: r)
      end
  end.

Fixpoint sort_signers (fuel : nat) (l : list Address) : list Address :=
  match fuel, l with
  | S fuel', x :: l' => let '(m, r) := exchange x l' in m :: sort_signers fuel' r
  | _, _ => l
  end.

Section Turn.
(** The order in which the range loop visits the set of signers. *)
Context (range : gset Address -> list Address).

Definition signers (s : Snapshot) : list Address :=
  let l := range (Signers s) in sort_signers (length l) l.

(** The loop [for offset < len(signers) && signers[offset] != signer]. *)
Fixpoint offset_of (signer : Address) (l : list Address) : nat :=
  match l with
  | [] => 0
  | x :: l' => if decide (x = signer) then 0 else S (offset_of signer l')
  end.

Definition inturn (s : Snapshot) (number : Z) (signer : Address) : option bool :=
  let l := signers s in
  let offset := offset_of signer l in
  if decide (length l = 0%nat) then None
  else Some (number mod Z.of_nat (length l) =? Z.of_nat offset).
End Turn.

(** ** clique.go: the engine *)

Section Engine.
Context `{SigCache} `{AddressSize} {Tx : Type}.

(** The callback of the account manager: a signature or an error. *)
Definition SignerFn : Type := Address -> list Z -> option (list Z).

Record Clique := mkClique {
  c_config : CliqueConfig;
  signatures : Cache;
  proposals : gmap Address bool;
  c_signer : Address;
  c_signFn : option SignerFn
}.

Definition inmemorySignatures : nat := 4096.

Definition New (cfg : CliqueConfig) : Clique :=
  mkClique (if Epoch cfg =? 0 then mkCliqueConfig (Period cfg) epochLength else cfg)
    (NewARC inmemorySignatures) ∅ (replicate AddressLength 0) None.

Definition verifyHeader (c : Clique) (h : Header) (parents : list Header) : outcome error unit := Ok tt.
Definition VerifyHeader (c : Clique) (h : Header) (seal : bool) : outcome error unit := verifyHeader c h [].

(** The results sent for a batch that is not aborted. *)
Definition VerifyHeaders (c : Clique) (headers : list Header) : list (outcome error unit) :=
  imap (fun i h => verifyHeader c h (take i headers)) headers.

Definition verifyCascadingFields (c : Clique) (h : Header) (parents : list Header) : outcome error unit := Ok tt.

(** [return nil, nil] *)
Definition snapshot (c : Clique) (number : Z) (hash : Hash) (parents : list Header)
    : outcome error (option Snapshot) := Ok None.

Definition VerifyUncles (b : Block Tx) : outcome error unit :=
  guard_err (0 <? length (uncles b))%nat errUncles.

Definition verifySeal (c : Clique) (h : Header) (parents : list Header) : outcome error unit := Ok tt.
Definition Prepare (c : Clique) (h : Header) : outcome error Header := Ok h.

Definition Authorize_signer (c : Clique) (signer : Address) (signFn : SignerFn) : Clique :=
  mkClique (c_config c) (signatures c) (proposals c) signer (Some signFn).

(** The signer signed too recently and the current block does not shift it out. *)
Definition signed_recently (snap : Snapshot) (number : Z) (signer : Address) : bool :=
  bool_decide (map_Exists (fun seen recent => recent = signer /\
    (number < signer_limit snap \/ seen > number - signer_limit snap)) (Recents snap)).

(** [copy(header.Extra[len(header.Extra)-extraSeal:], sighash)] *)
Definition put_signature (extra sig : list Z) : option (list Z) :=
  if decide (extraSeal <= length extra)%nat
  then Some (memcpy extra (length extra - extraSeal) (take extraSeal sig))
  else None.

Definition set_extra (h : Header) (extra : list Z) : Header :=
  mkHeader (ParentHash h) (UncleHash h) (Coinbase h) (Root h) (TxHash h) (ReceiptHash h) (Types.Bloom h)
    (Difficulty h) (Number h) (GasLimit h) (GasUsed h) (Time h) extra (Nonce h) (PlotID h) (GenSig h)
    (BaseTarget h) (DeadLine h) (LastTime h).

(** [stopped]: the stop channel fires before the delay has passed. *)
Definition Seal (c : Clique) (b : Block Tx) (stopped : bool) : outcome error (option (Block Tx)) :=
  let h := Block_Header b in
  n ← or_panic (Number h);
  let number := big_Uint64 n in
  guard_err (number =? 0) errUnknownBlock;;
  guard_err ((Period (c_config c) =? 0) && bool_decide (length (transactions b) = 0%nat)) errWaitTransactions;;
  snap ← snapshot c (u64 (number - 1)) (ParentHash h) [];
  snap ← or_panic snap;
  guard_err (negb (bool_decide (c_signer c ∈ Signers snap))) errUnauthorized;;
  if signed_recently snap number (c_signer c) || stopped then Ok None
  else
    digest ← or_panic (sigHash h);
    signFn ← or_panic (c_signFn c);
    sig ← match signFn (c_signer c) digest with Some sig => Ok sig | None => Err errSign end;
    extra ← or_panic (put_signature (Extra h) sig);
    Ok (Some (WithSeal b (set_extra h extra))).

(** ** api.go *)

Definition Propose (c : Clique) (address : Address) (auth : bool) : Clique :=
  mkClique (c_config c) (signatures c) (<[address := auth]> (proposals c)) (c_signer c) (c_signFn c).
Definition Discard (c : Clique) (address : Address) : Clique :=
  mkClique (c_config c) (signatures c) (delete address (proposals c)) (c_signer c) (c_signFn c).
Definition Proposals (c : Clique) : gmap Address bool := proposals c.

(** [header] is what the chain returns for the requested block. *)
Definition GetSnapshot (c : Clique) (header : option Header) : outcome error (option Snapshot) :=
  match header with
  | None => Err errUnknownBlock
  | Some h =>
      n ← or_panic (Number h);
      hash ← or_panic (Header_Hash h);
      snapshot c (big_Uint64 n) hash []
  end.

Definition GetSigners (range : gset Address -> list Address) (c : Clique) (header : option Header)
    : outcome error (list Address) :=
  snap ← GetSnapshot c header;
  snap ← or_panic snap;
  Ok (signers range snap).
End Engine.
