(* ===== verification/CliqueVotes.v ===== *)
(** * Voting in the proof-of-authority engine, specified and verified

    A ballot is the set of signers, the set of pairs of a voter and the account
    voted on, and the recent signers.  The snapshots of [Clique.v], with their
    chronological votes and their cached tally, refine ballots; a majority is
    needed to change the signers; and there is always a signer that may sign
    the next block. *)
From S2P Require Import Prelude Sha3 Types Rlp HeaderHash Clique.

(** ** Ballots *)

Record ballot := mkBallot {
  b_signers : gset Address;
  b_votes : gset (Address * Address);    (** voter, account voted on *)
  b_recents : gmap Z Address
}.

Definition b_limit (b : ballot) : Z := Z.of_nat (size (b_signers b) / 2 + 1).

(** The signer of the block that leaves the window may sign again. *)
Definition b_shift (number : Z) (b : ballot) : ballot :=
  if b_limit b <=? number
  then mkBallot (b_signers b) (b_votes b) (delete (number - b_limit b) (b_recents b))
  else b.

Definition voters_on (c : Address) (vs : gset (Address * Address)) : gset (Address * Address) :=
  filter (fun p => p.2 = c) vs.

(** [signer] votes to change the standing of [c]; with more than half of the
    signers behind the change, it happens, and the votes it settles go. *)
Definition b_vote (number : Z) (signer c : Address) (authorize : bool) (b : ballot) : ballot :=
  let withdrawn := b_votes b ∖ {[(signer, c)]} in
  let votes := if decide (c ∈ b_signers b <-> authorize = false)
               then withdrawn ∪ {[(signer, c)]} else withdrawn in
  let b := mkBallot (b_signers b) votes (b_recents b) in
  if decide (size (b_signers b) / 2 < size (voters_on c votes))%nat then
    if decide (c ∈ b_signers b)
    then b_shift number (mkBallot (b_signers b ∖ {[c]})
           (filter (fun p => p.1 <> c /\ p.2 <> c) votes) (b_recents b))
    else mkBallot (b_signers b ∪ {[c]}) (filter (fun p => p.2 <> c) votes) (b_recents b)
  else b.

(** A block: votes expire with the epoch, the window moves, the signer must be
    authorized and outside of the window. *)
Definition b_block (epoch number : Z) (signer c : Address) (authorize : bool) (b : ballot) : option ballot :=
  let b := if number mod epoch =? 0 then mkBallot (b_signers b) ∅ (b_recents b) else b in
  let b := b_shift number b in
  if decide (signer ∈ b_signers b /\ map_Forall (fun _ a => a <> signer) (b_recents b))
  then Some (b_vote number signer c authorize
               (mkBallot (b_signers b) (b_votes b) (<[number := signer]> (b_recents b))))
  else None.

(** ** The tally *)

Definition ballot_of (v : Vote) : Address * Address := (Signer v, VAddress v).
Definition count_on (a : Address) (vs : list Vote) : nat := length (filter (fun v => VAddress v = a) vs).

(** The cached entry of an account with these votes. *)
Definition entry (g : gset Address) (vs : list Vote) (a : Address) : option Tally :=
  if decide (count_on a vs = 0%nat) then None
  else Some (mkTally (bool_decide (a ∉ g)) (Z.of_nat (count_on a vs))).

(** Votes and tally agree on the accounts in [P]: one vote per voter and
    account, all of them against the present standing of the account. *)
Record voting (P : Address -> Prop) (g : gset Address) (vs : list Vote) (t : gmap Address Tally) : Prop := {
  vt_nodup : NoDup (map ballot_of vs);
  vt_auth : forall v, v ∈ vs -> P (VAddress v) -> Authorize v = bool_decide (VAddress v ∉ g);
  vt_tally : forall a, P a -> t !! a = entry g vs a
}.

Definition everywhere (a : Address) : Prop := True.

Lemma count_on_app a vs ws : count_on a (vs ++ ws) = (count_on a vs + count_on a ws)%nat.
Proof. unfold count_on. by rewrite filter_app, length_app. Qed.

Lemma count_on_one a v : count_on a [v] = if decide (VAddress v = a) then 1%nat else 0%nat.
Proof.
  unfold count_on. destruct (decide (VAddress v = a)) as [H|H].
  - by rewrite filter_cons_True.
  - by rewrite filter_cons_False.
Qed.

Lemma count_on_middle a l1 v l2 :
  count_on a (l1 ++ v :: l2) = (count_on a (l1 ++ l2) + if decide (VAddress v = a) then 1 else 0)%nat.
Proof.
  change (v :: l2) with ([v] ++ l2). rewrite !count_on_app, count_on_one. lia.
Qed.

Lemma voting_empty P g : voting P g [] ∅.
Proof. split; [constructor|by intros v ?%elem_of_nil|]. intros a _. by rewrite lookup_empty. Qed.

(** [uncast] on the tally alone. *)
Definition uncast_tally (t : gmap Address Tally) (a : Address) (auth : bool) : gmap Address Tally :=
  match t !! a with
  | None => t
  | Some x =>
      if negb (eqb (TAuthorize x) auth) then t
      else if 1 <? TVotes x then <[a := mkTally (TAuthorize x) (TVotes x - 1)]> t
      else delete a t
  end.

Lemma uncast_is s a auth : (uncast s a auth).2 = with_tally s (uncast_tally (STally s) a auth).
Proof.
  unfold uncast, uncast_tally. destruct (STally s !! a) as [x|]; [|by destruct s].
  destruct (negb _); [by destruct s|]. by destruct (1 <? TVotes x).
Qed.

Lemma voting_uncast P g l1 v l2 t : voting P g (l1 ++ v :: l2) t ->
  voting P g (l1 ++ l2) (uncast_tally t (VAddress v) (Authorize v)).
Proof.
  intros [Hn Ha Ht]. split.
  - rewrite map_app in *. simpl in Hn. rewrite <-Permutation_middle in Hn. by apply NoDup_cons in Hn as [_ ?].
  - intros w Hw. apply Ha. rewrite elem_of_app in *. rewrite elem_of_cons. tauto.
  - intros a HP. destruct (decide (a = VAddress v)) as [->|Hne].
    + unfold uncast_tally. rewrite (Ht _ HP). unfold entry.
      rewrite count_on_middle, (decide_True (P := VAddress v = VAddress v)) by done.
      rewrite decide_False by lia. cbn [TAuthorize TVotes].
      rewrite (Ha v) by (done || (rewrite elem_of_app, elem_of_cons; auto)). rewrite eqb_reflx. cbn [negb].
      destruct (decide (count_on (VAddress v) (l1 ++ l2) = 0%nat)) as [Hz|Hz].
      * rewrite Hz. rewrite (proj2 (Z.ltb_ge _ _)) by lia. by rewrite lookup_delete_eq.
      * rewrite (proj2 (Z.ltb_lt _ _)) by lia. rewrite lookup_insert_eq. do 2 f_equal. lia.
    + assert (uncast_tally t (VAddress v) (Authorize v) !! a = t !! a) as ->.
      { unfold uncast_tally. destruct (t !! VAddress v) as [x|]; [|done]. destruct (negb _); [done|].
        destruct (1 <? TVotes x); [by rewrite lookup_insert_ne|by rewrite lookup_delete_ne]. }
      rewrite (Ht _ HP). unfold entry. rewrite count_on_middle, (decide_False (P := VAddress v = a)) by done.
      by rewrite Nat.add_0_r.
Qed.

Lemma voting_weaken (P Q : Address -> Prop) g vs t : (forall a, Q a -> P a) -> voting P g vs t -> voting Q g vs t.
Proof. intros HPQ [Hn Ha Ht]. split; [done|auto|auto]. Qed.

(** The standing of an account matters for its own entry only. *)
Lemma voting_signers P g g' vs t : (forall a, P a -> a ∈ g <-> a ∈ g') -> voting P g vs t -> voting P g' vs t.
Proof.
  intros Hg [Hn Ha Ht]. split; [done| |].
  - intros v Hv HP. rewrite Ha by done. apply bool_decide_ext. by rewrite (Hg _ HP).
  - intros a HP. rewrite Ht by done. unfold entry. case_decide; [done|]. do 2 f_equal.
    apply bool_decide_ext. by rewrite (Hg _ HP).
Qed.

(** ** Votes as a set *)

Definition ballots (vs : list Vote) : gset (Address * Address) := list_to_set (map ballot_of vs).

Lemma elem_of_ballots p vs : p ∈ ballots vs <-> exists v, v ∈ vs /\ ballot_of v = p.
Proof.
  unfold ballots. rewrite elem_of_list_to_set, list_elem_of_fmap. naive_solver.
Qed.

Lemma ballots_app vs ws : ballots (vs ++ ws) = ballots vs ∪ ballots ws.
Proof. unfold ballots. by rewrite map_app, list_to_set_app_L. Qed.

Lemma ballots_cons v vs : ballots (v :: vs) = {[ballot_of v]} ∪ ballots vs.
Proof. done. Qed.

Lemma ballots_filter (P : Vote -> Prop) (Q : Address * Address -> Prop) `{forall v, Decision (P v), forall p, Decision (Q p)} vs :
  (forall v, P v <-> Q (ballot_of v)) -> ballots (filter P vs) = filter Q (ballots vs).
Proof.
  intros HPQ. apply set_eq. intros p. rewrite elem_of_filter, !elem_of_ballots.
  setoid_rewrite list_elem_of_filter. split.
  - intros (v & [Hp Hv] & <-). split; [by apply HPQ|eauto].
  - intros [Hq (v & Hv & <-)]. exists v. split; [split; [by apply HPQ|done]|done].
Qed.

Lemma NoDup_filter_ballots (P : Vote -> Prop) `{forall v, Decision (P v)} vs :
  NoDup (map ballot_of vs) -> NoDup (map ballot_of (filter P vs)).
Proof.
  induction vs as [|v vs IH]; intros Hn; [done|]. simpl in Hn. apply NoDup_cons in Hn as [Hv Hn].
  rewrite filter_cons. destruct (decide (P v)); [|auto]. simpl. apply NoDup_cons. split; [|auto].
  intros (w & Hw & Hin)%list_elem_of_fmap. apply Hv, list_elem_of_fmap. exists w. split; [done|].
  by apply list_elem_of_filter in Hin as [_ ?].
Qed.

Lemma count_on_size c vs : NoDup (map ballot_of vs) -> size (voters_on c (ballots vs)) = count_on c vs.
Proof.
  intros Hn. unfold voters_on, count_on.
  assert (filter (fun p => p.2 = c) (ballots vs) = ballots (filter (fun v => VAddress v = c) vs)) as ->
    by (symmetry; by apply ballots_filter).
  unfold ballots. rewrite size_list_to_set by (by apply NoDup_filter_ballots). by rewrite length_map.
Qed.

(** ** The loops over the votes *)

(** Everything but votes and tally is kept. *)
Definition same_board (s s' : Snapshot) : Prop :=
  config s' = config s /\ SNumber s' = SNumber s /\ Signers s' = Signers s /\ Recents s' = Recents s.

Lemma discard_vote_ok P signer c rest s seen : Votes s = seen ++ rest ->
  voting P (Signers s) (Votes s) (STally s) -> (signer, c) ∉ ballots seen ->
  let s' := discard_vote s signer c seen rest in
  same_board s s' /\ voting P (Signers s) (Votes s') (STally s') /\
  ballots (Votes s') = ballots (Votes s) ∖ {[(signer, c)]} /\ (forall v, v ∈ Votes s' -> v ∈ Votes s).
Proof.
  revert s seen. induction rest as [|v rest IH]; intros s seen Hs Hv Hseen; simpl.
  - rewrite app_nil_r in Hs. split; [done|]. split; [done|]. split; [|done]. rewrite Hs. set_solver.
  - destruct (decide (Signer v = signer /\ VAddress v = c)) as [[H1 H2]|Hne].
    + rewrite uncast_is. simpl. split; [done|]. rewrite Hs in Hv |- *.
      split; [by apply voting_uncast|].
      pose proof (vt_nodup _ _ _ _ Hv) as Hn. rewrite map_app in Hn. simpl in Hn.
      rewrite <-Permutation_middle in Hn. apply NoDup_cons in Hn as [Hn _].
      rewrite <-map_app in Hn. split; [|set_solver].
      assert (ballot_of v = (signer, c)) as Hb by (unfold ballot_of; by rewrite H1, H2).
      assert ((signer, c) ∉ ballots (seen ++ rest)) as Hni.
      { rewrite <-Hb. intros (w & Hw & E)%elem_of_ballots. apply Hn, list_elem_of_fmap. eauto. }
      rewrite !ballots_app, ballots_cons, Hb in *. set_solver.
    + destruct (IH s (seen ++ [v])) as (Hf & Hv' & Hb & Hi).
      * by rewrite <-app_assoc.
      * done.
      * rewrite ballots_app. intros [?|Hin]%elem_of_union; [done|].
        apply elem_of_ballots in Hin as (w & ->%list_elem_of_singleton & E). unfold ballot_of in E.
        injection E as ??. tauto.
      * done.
Qed.

Lemma discard_votes_by_ok P signer rest s seen :
  voting P (Signers s) (seen ++ rest) (STally s) ->
  let s' := discard_votes_by s signer seen rest in
  same_board s s' /\ Votes s' = seen ++ filter (fun v => Signer v <> signer) rest /\
  voting P (Signers s) (Votes s') (STally s').
Proof.
  revert s seen. induction rest as [|v rest IH]; intros s seen Hv; simpl.
  - rewrite app_nil_r in *. done.
  - rewrite filter_cons. destruct (decide (Signer v = signer)) as [He|Hne].
    + rewrite decide_False by tauto. rewrite uncast_is. apply voting_uncast in Hv.
      destruct (IH (with_tally s (uncast_tally (STally s) (VAddress v) (Authorize v))) seen) as (Hf & H1 & H2); [done|].
      done.
    + rewrite decide_True by done. destruct (IH s (seen ++ [v])) as (Hf & H1 & H2); [by rewrite <-app_assoc|].
      split; [done|]. split; [by rewrite H1, <-app_assoc|done].
Qed.

(** [cast] counts a vote that is not on the board yet. *)
Lemma cast_ok s signer number c authorize : validVote s c authorize = true ->
  voting everywhere (Signers s) (Votes s) (STally s) -> (signer, c) ∉ ballots (Votes s) ->
  exists t, cast s c authorize = (true, with_tally s t) /\
    voting everywhere (Signers s) (Votes s ++ [mkVote signer number c authorize]) t.
Proof.
  intros Hval Hv Hni. destruct Hv as [Hn Ha Ht].
  assert (authorize = bool_decide (c ∉ Signers s)) as Hauth.
  { unfold validVote in Hval. rewrite bool_decide_not. destruct (bool_decide (c ∈ Signers s)), authorize; done. }
  pose proof (Ht c I) as Hc. unfold cast. rewrite Hval. cbn [negb].
  set (vote := mkVote signer number c authorize).
  assert (NoDup (map ballot_of (Votes s ++ [vote]))) as Hn'.
  { rewrite map_app. simpl. rewrite <-Permutation_cons_append. apply NoDup_cons. split; [|done].
    intros (w & E & Hw)%list_elem_of_fmap. apply Hni, elem_of_ballots. eauto. }
  assert (forall v, v ∈ Votes s ++ [vote] -> everywhere (VAddress v) -> Authorize v = bool_decide (VAddress v ∉ Signers s)) as Ha'.
  { intros v [Hin| ->%list_elem_of_singleton]%elem_of_app _; [by apply Ha|done]. }
  assert (forall a, a <> c -> entry (Signers s) (Votes s ++ [vote]) a = entry (Signers s) (Votes s) a) as Hother.
  { intros a Hne. unfold entry. rewrite count_on_app, count_on_one, (decide_False (P := VAddress vote = a)) by naive_solver.
    by rewrite Nat.add_0_r. }
  assert (entry (Signers s) (Votes s ++ [vote]) c =
    Some (mkTally authorize (Z.of_nat (count_on c (Votes s)) + 1))) as Hself.
  { unfold entry. rewrite count_on_app, count_on_one, (decide_True (P := VAddress vote = c)) by done.
    rewrite decide_False by lia. rewrite <-Hauth. do 2 f_equal. lia. }
  unfold entry in Hc. destruct (decide (count_on c (Votes s) = 0%nat)) as [Hz|Hz]; rewrite Hc.
  - eexists. split; [done|]. split; [done|done|]. intros a _. destruct (decide (a = c)) as [->|Hne].
    + rewrite lookup_insert_eq, Hself, Hz. done.
    + rewrite lookup_insert_ne, Hother by done. by apply Ht.
  - eexists. split; [done|]. split; [done|done|]. intros a _. destruct (decide (a = c)) as [->|Hne].
    + rewrite lookup_insert_eq, Hself, <-Hauth. done.
    + rewrite lookup_insert_ne, Hother by done. by apply Ht.
Qed.

(** ** Refinement *)

Record refines (s : Snapshot) (b : ballot) : Prop := {
  rf_signers : Signers s = b_signers b;
  rf_recents : Recents s = b_recents b;
  rf_votes : ballots (Votes s) = b_votes b;
  rf_voting : voting everywhere (Signers s) (Votes s) (STally s);
  rf_voters : forall v, v ∈ Votes s -> Signer v ∈ Signers s
}.

Lemma shift_refines s b number : refines s b -> refines (shift_recents s number) (b_shift number b).
Proof.
  intros [H1 H2 H3 H4 H5]. unfold shift_recents, b_shift, signer_limit, b_limit. rewrite H1.
  destruct (_ <=? _); split; try done. simpl. by rewrite H2.
Qed.

(** Without the votes on [c], the rest of the tally stays. *)
Lemma voting_drop g vs t c : voting (fun a => a <> c) g vs t ->
  voting everywhere g (filter (fun v => VAddress v <> c) vs) (delete c t).
Proof.
  intros [Hn Ha Ht].
  assert (forall a, a <> c -> count_on a (filter (fun v => VAddress v <> c) vs) = count_on a vs) as Hcount.
  { intros a Hne. unfold count_on. rewrite list_filter_filter. f_equal.
    apply list_filter_iff. intros v. naive_solver. }
  split.
  - by apply NoDup_filter_ballots.
  - intros v [Hne Hv]%list_elem_of_filter _. by apply Ha.
  - intros a _. destruct (decide (a = c)) as [->|Hne].
    + rewrite lookup_delete_eq. unfold entry. rewrite decide_True; [done|].
      unfold count_on. rewrite list_filter_filter. apply length_zero_iff_nil, elem_of_nil_inv.
      intros v [? _]%list_elem_of_filter. tauto.
    + rewrite lookup_delete_ne by done. rewrite Ht by done. unfold entry. by rewrite Hcount.
Qed.

Lemma passed_add s b c : refines s b -> c ∉ Signers s ->
  let s1 := discard_votes_on (with_signers s (Signers s ∪ {[c]})) c in
  refines (with_tally s1 (delete c (STally s1)))
    (mkBallot (b_signers b ∪ {[c]}) (filter (fun p => p.2 <> c) (b_votes b)) (b_recents b)).
Proof.
  intros [H1 H2 H3 H4 H5] Hc. simpl. split; simpl.
  - by rewrite H1.
  - done.
  - rewrite <-H3. by apply ballots_filter.
  - apply voting_drop. eapply voting_signers; [|by apply (voting_weaken everywhere); [|exact H4] ]. intros a Ha. set_solver.
  - intros v [_ Hv]%list_elem_of_filter. apply H5 in Hv. set_solver.
Qed.

Lemma passed_drop s b c number : refines s b -> c ∈ Signers s ->
  let s1 := shift_recents (with_signers s (Signers s ∖ {[c]})) number in
  let s2 := discard_votes_on (discard_votes_by s1 c [] (Votes s1)) c in
  refines (with_tally s2 (delete c (STally s2)))
    (b_shift number (mkBallot (b_signers b ∖ {[c]})
       (filter (fun p => p.1 <> c /\ p.2 <> c) (b_votes b)) (b_recents b))).
Proof.
  intros [H1 H2 H3 H4 H5] Hc.
  set (s1 := shift_recents (with_signers s (Signers s ∖ {[c]})) number).
  assert (Votes s1 = Votes s /\ STally s1 = STally s /\ Signers s1 = Signers s ∖ {[c]}) as (Hvs & Htl & Hsg).
  { unfold s1, shift_recents. by destruct (_ <=? _). }
  assert (voting (fun a => a <> c) (Signers s1) ([] ++ Votes s1) (STally s1)) as Hv.
  { rewrite Hvs, Htl, Hsg. eapply voting_signers; [|by apply (voting_weaken everywhere); [|exact H4] ]. intros a Ha. set_solver. }
  destruct (discard_votes_by_ok _ c (Votes s1) s1 [] Hv) as ((_ & _ & Hg & Hr) & Hvs2 & Hv2).
  cbv zeta. set (s2 := discard_votes_by s1 c [] (Votes s1)) in *.
  assert (b_shift number (mkBallot (b_signers b ∖ {[c]})
       (filter (fun p => p.1 <> c /\ p.2 <> c) (b_votes b)) (b_recents b)) =
    mkBallot (Signers s1) (filter (fun p => p.1 <> c /\ p.2 <> c) (b_votes b)) (Recents s1)) as ->.
  { unfold b_shift, s1, shift_recents, b_limit, signer_limit. simpl. rewrite H1.
    destruct (_ <=? _); simpl; rewrite H2; done. }
  split; cbn [with_tally discard_votes_on with_votes Signers Recents Votes STally b_signers b_recents b_votes].
  - done.
  - done.
  - rewrite Hvs2, app_nil_l, list_filter_filter, Hvs, <-H3. apply ballots_filter. intros v. simpl. tauto.
  - rewrite Hg. by apply voting_drop.
  - rewrite Hg, Hsg, Hvs2, Hvs. intros v [_ [Hne Hin]%list_elem_of_filter]%list_elem_of_filter.
    apply H5 in Hin. set_solver.
Qed.

Lemma validVote_iff s c authorize :
  validVote s c authorize = true <-> (c ∈ Signers s <-> authorize = false).
Proof.
  unfold validVote. destruct (bool_decide_reflect (c ∈ Signers s)), authorize; simpl; split; intros; naive_solver.
Qed.

(** The board after the vote was cast, before it is counted out. *)
Lemma cast_refines s b number signer c authorize : refines s b -> signer ∈ Signers s ->
  (signer, c) ∉ ballots (Votes s) ->
  let '(ok, s1) := cast s c authorize in
  refines (if ok then with_votes s1 (Votes s1 ++ [mkVote signer number c authorize]) else s1)
    (mkBallot (b_signers b)
       (if decide (c ∈ b_signers b <-> authorize = false)
        then b_votes b ∖ {[(signer, c)]} ∪ {[(signer, c)]} else b_votes b ∖ {[(signer, c)]})
       (b_recents b)).
Proof.
  intros Hr Hs Hni. pose proof Hr as [H1 H2 H3 H4 H5].
  pose proof (validVote_iff s c authorize) as Hiff. rewrite H1 in Hiff.
  destruct (validVote s c authorize) eqn:Hval.
  - rewrite decide_True by tauto. destruct (cast_ok s signer number c authorize Hval H4 Hni) as (t & -> & Hv).
    split; cbn [with_votes with_tally Signers Recents Votes STally b_signers b_recents b_votes]; try done.
    + rewrite ballots_app, <-H3. change (ballots [_]) with ({[(signer, c)]} ∪ ∅ : gset (Address * Address)).
      set_solver.
    + intros v [Hv'| ->%list_elem_of_singleton]%elem_of_app; [by apply H5|done].
  - rewrite decide_False by (intros ?; assert (false = true) by tauto; done).
    unfold cast. rewrite Hval. cbn [negb]. split; try done. simpl. rewrite <-H3. set_solver.
Qed.

Lemma tally_vote_refines s b number signer c authorize : refines s b -> signer ∈ Signers s ->
  (signer, c) ∉ ballots (Votes s) ->
  refines (tally_vote s number signer c authorize) (b_vote number signer c authorize b).
Proof.
  intros Hr Hs Hni. pose proof (cast_refines s b number signer c authorize Hr Hs Hni) as Hc.
  unfold tally_vote, b_vote. destruct (cast s c authorize) as [ok s1].
  set (s2 := if ok then _ else _) in *. cbv zeta. set (votes := if decide _ then _ else _) in *.
  cbn [b_signers b_votes b_recents] in *.
  pose proof Hc as [H1 H2 H3 H4 H5]. cbn [b_signers b_votes b_recents] in *.
  rewrite <-H3, count_on_size, (vt_tally _ _ _ _ H4 c I) by apply H4. rewrite <-H1.
  unfold entry. destruct (decide (count_on c (Votes s2) = 0%nat)) as [Hz|Hz].
  - cbn [from_option id TVotes]. rewrite (proj2 (Z.ltb_ge _ _)) by lia. rewrite decide_False by lia. rewrite H1, H3. done.
  - cbn [from_option id TVotes TAuthorize].
    match goal with |- context [decide (?x < ?y)%nat] => destruct (decide (x < y)%nat) end.
    2:{ rewrite (proj2 (Z.ltb_ge _ _)) by lia. rewrite H1, H3. done. }
    rewrite (proj2 (Z.ltb_lt _ _)) by lia. rewrite H3. destruct (decide (c ∈ Signers s2)) as [Hin|Hnin].
    + rewrite bool_decide_eq_false_2 by tauto. 
      pose proof (passed_drop s2 _ c number Hc Hin) as Hp. cbv zeta in Hp. cbn [b_signers b_votes b_recents] in Hp.
      rewrite <-H1 in Hp. exact Hp.
    + rewrite bool_decide_eq_true_2 by done. 
      pose proof (passed_add s2 _ c Hc Hnin) as Hp. cbv zeta in Hp. cbn [b_signers b_votes b_recents] in Hp.
      rewrite <-H1 in Hp. exact Hp.
Qed.

(** ** A block *)

Lemma discard_vote_head signer c rest s seen :
  config (discard_vote s signer c seen rest) = config s /\ SNumber (discard_vote s signer c seen rest) = SNumber s.
Proof.
  revert seen. induction rest as [|v rest IH]; intros seen; simpl; [done|].
  destruct (decide _); [|apply IH]. by rewrite uncast_is.
Qed.

Lemma discard_votes_by_head signer rest s seen :
  config (discard_votes_by s signer seen rest) = config s /\ SNumber (discard_votes_by s signer seen rest) = SNumber s.
Proof.
  revert s seen. induction rest as [|v rest IH]; intros s seen; simpl; [done|].
  destruct (decide _); [|apply IH]. rewrite uncast_is.
  destruct (IH (with_tally s (uncast_tally (STally s) (VAddress v) (Authorize v))) seen) as [-> ->]. done.
Qed.

Lemma shift_recents_head s number :
  config (shift_recents s number) = config s /\ SNumber (shift_recents s number) = SNumber s.
Proof. unfold shift_recents. by destruct (_ <=? _). Qed.

Lemma cast_head s c authorize :
  config (cast s c authorize).2 = config s /\ SNumber (cast s c authorize).2 = SNumber s.
Proof. unfold cast. destruct (negb _); [done|]. by destruct (STally s !! c). Qed.

Lemma tally_vote_head s number signer c authorize :
  config (tally_vote s number signer c authorize) = config s /\
  SNumber (tally_vote s number signer c authorize) = SNumber s.
Proof.
  unfold tally_vote. destruct (cast s c authorize) as [ok s1] eqn:Ec.
  pose proof (cast_head s c authorize) as [H1 H2]. rewrite Ec in H1, H2. simpl in H1, H2.
  set (s2 := if ok then _ else _).
  assert (config s2 = config s /\ SNumber s2 = SNumber s) as [H3 H4] by (unfold s2; by destruct ok).
  destruct (_ <? _); [|done]. destruct (TAuthorize _); [done|].
  cbn [with_tally discard_votes_on with_votes config SNumber].
  destruct (discard_votes_by_head c (Votes (shift_recents (with_signers s2 (Signers s2 ∖ {[c]})) number))
    (shift_recents (with_signers s2 (Signers s2 ∖ {[c]})) number) []) as [-> ->].
  destruct (shift_recents_head (with_signers s2 (Signers s2 ∖ {[c]})) number) as [-> ->]. done.
Qed.

(** The votes and the window at the start of a block. *)
Definition b_open (epoch number : Z) (b : ballot) : ballot :=
  b_shift number (if number mod epoch =? 0 then mkBallot (b_signers b) ∅ (b_recents b) else b).

Lemma open_refines s b number : refines s b -> Epoch (config s) <> 0 ->
  exists s1, open_block s number = Some s1 /\ refines s1 (b_open (Epoch (config s)) number b) /\
    config s1 = config s /\ SNumber s1 = SNumber s.
Proof.
  intros Hr He. unfold open_block. rewrite (proj2 (Z.eqb_neq _ _)) by done. eexists. split; [done|].
  unfold b_open. split; [apply shift_refines|].
  - destruct (_ =? 0); [|done]. destruct Hr as [H1 H2 H3 H4 H5].
    split; try done; [apply voting_empty|by intros v ?%elem_of_nil].
  - destruct (shift_recents_head (if number mod Epoch (config s) =? 0 then with_tally (with_votes s []) ∅ else s) number)
      as [-> ->]. by destruct (_ =? 0).
Qed.

Lemma apply_signed_refines s b epoch number signer c nonce : refines s (b_open epoch number b) ->
  match apply_signed s number signer c nonce with
  | Ok s' => exists authorize b', vote_of nonce = Some authorize /\
      b_block epoch number signer c authorize b = Some b' /\ refines s' b' /\
      config s' = config s /\ SNumber s' = SNumber s
  | Err errUnauthorized => forall authorize, b_block epoch number signer c authorize b = None
  | Err errInvalidVote => vote_of nonce = None /\ is_Some (b_block epoch number signer c true b)
  | _ => False
  end.
Proof.
  intros Hr. pose proof Hr as [H1 H2 H3 H4 H5]. unfold apply_signed, b_block. cbv zeta. fold (b_open epoch number b).
  destruct (bool_decide_reflect (signer ∈ Signers s)) as [Hs|Hs]; cbn [negb guard_err];
    [rewrite ok_bind|intros authorize; rewrite decide_False; [done|rewrite <-H1; tauto] ].
  destruct (bool_decide_reflect (map_Exists (fun _ recent => recent = signer) (Recents s))) as [Hx|Hx];
    cbn [guard_err]; [|rewrite ok_bind].
  - intros authorize. rewrite decide_False; [done|]. intros [_ Hf]. destruct Hx as (k & a & Hk & ->).
    rewrite H2 in Hk. by apply (Hf k signer).
  - assert (signer ∈ b_signers (b_open epoch number b) /\
      map_Forall (fun _ a => a <> signer) (b_recents (b_open epoch number b))) as Hok.
    { rewrite <-H1, <-H2. split; [done|]. intros k a Hk ->. apply Hx. by exists k, signer. }
    set (s1 := with_recents s (<[number := signer]> (Recents s))).
    destruct (discard_vote_ok everywhere signer c (Votes s1) s1 [] eq_refl H4) as ((_ & _ & Hg & Hrec) & Hv & Hb & Hi).
    { by intros (v & ?%elem_of_nil & _)%elem_of_ballots. }
    set (s2 := discard_vote s1 signer c [] (Votes s1)) in *.
    assert (refines s2 (mkBallot (b_signers (b_open epoch number b))
      (b_votes (b_open epoch number b) ∖ {[(signer, c)]}) (<[number := signer]> (b_recents (b_open epoch number b))))) as Hr2.
    { split; cbn [b_signers b_votes b_recents].
      - by rewrite Hg.
      - rewrite Hrec. simpl. by rewrite H2.
      - rewrite Hb. simpl. by rewrite H3.
      - by rewrite Hg.
      - intros v Hv'. rewrite Hg. apply H5, Hi, Hv'. }
    destruct (vote_of nonce) as [authorize|].
    + exists authorize. eexists. split; [done|]. rewrite decide_True by done. split; [done|].
      destruct (tally_vote_head s2 number signer c authorize) as [-> ->].
      destruct (discard_vote_head signer c (Votes s1) s1 []) as [Hc1 Hc2]. split; [|done].
      pose proof (tally_vote_refines s2 _ number signer c authorize Hr2) as Ht.
      rewrite Hg, Hb in Ht. specialize (Ht Hs ltac:(set_solver)). revert Ht. unfold b_vote. cbn [b_signers b_votes b_recents].
      assert (b_votes (b_open epoch number b) ∖ {[(signer, c)]} ∖ {[(signer, c)]} =
              b_votes (b_open epoch number b) ∖ {[(signer, c)]}) as -> by set_solver. done.
    + split; [done|]. rewrite decide_True by done. eauto.
Qed.

(** ** Applying headers *)

(** What a block says: its signer, the account it votes on, the vote. *)
Definition cast_vote : Type := Address * Address * bool.

Fixpoint b_run (epoch number : Z) (l : list cast_vote) (b : ballot) : option ballot :=
  match l with
  | [] => Some b
  | (signer, c, authorize) :: l' =>
      b ← b_block epoch number signer c authorize b; b_run epoch (number + 1) l' b
  end.

(** Consecutive numbers from [n]. *)
Definition numbered (n : Z) (headers : list Header) : Prop :=
  forall i h, headers !! i = Some h -> exists k, Number h = Some k /\ big_Uint64 k = n + Z.of_nat i.

Lemma contiguous_numbered headers n : contiguous headers = Ok tt ->
  (forall h, head headers = Some h -> exists k, Number h = Some k /\ big_Uint64 k = n) ->
  0 <= n -> n + Z.of_nat (length headers) <= 2 ^ 64 -> numbered n headers.
Proof.
  revert n. induction headers as [|h1 headers IH]; intros n Hc Hh Hn Hl i h Hi; [done|].
  destruct (Hh h1 eq_refl) as (k1 & Hk1 & E1).
  destruct i as [|i]; simpl in Hi; [simplify_eq; exists k1; split; [done|lia]|].
  destruct headers as [|h2 headers]; [done|]. cbn [contiguous] in Hc.
  apply outcome_bind_ok in Hc as (n2 & Hn2%or_panic_ok & Hc).
  apply outcome_bind_ok in Hc as (n1 & Hn1%or_panic_ok & Hc).
  apply outcome_bind_ok in Hc as ([] & Hg%guard_err_ok & Hc).
  rewrite Hk1 in Hn1. injection Hn1 as <-. apply negb_false_iff, Z.eqb_eq in Hg.
  cbn [length] in Hl. unfold u64 in Hg. rewrite E1, Z.mod_small in Hg by lia.
  destruct (IH (n + 1) Hc) with (i := i) (h := h) as (k & Hk & E); [|lia|cbn [length]; lia|done|].
  - intros h' [= <-]. eauto.
  - exists k. split; [done|]. lia.
Qed.

Section Apply.
Context `{SigCache} `{AddressSize}.
Context (Ecrecover : list Z -> list Z -> option (list Z)).

Definition signed_by (h : Header) (a : Address) : Prop :=
  exists c c', ecrecover Ecrecover h c = (Ok a, c').

Definition says (h : Header) (v : cast_vote) : Prop :=
  signed_by h v.1.1 /\ Coinbase h = v.1.2 /\ vote_of (Nonce h) = Some v.2.

(** The outcome of the loop of [apply] from block [n]. *)
Definition loop_refines (n : Z) (epoch : Z) (s : Snapshot) (b : ballot) (headers : list Header)
    (r : outcome error Snapshot) : Prop :=
  match r with
  | Ok s' => exists l b', Forall2 says headers l /\ b_run epoch n l b = Some b' /\ refines s' b' /\
      config s' = config s /\ SNumber s' = SNumber s
  | Err errUnauthorized => exists pre h post l b' a, headers = pre ++ h :: post /\ Forall2 says pre l /\
      b_run epoch n l b = Some b' /\ signed_by h a /\
      forall authorize, b_block epoch (n + Z.of_nat (length pre)) a (Coinbase h) authorize b' = None
  | Err errInvalidVote => exists h, h ∈ headers /\ vote_of (Nonce h) = None
  | Err errInvalidVotingChain => False
  | Err e => exists h c c', h ∈ headers /\ ecrecover Ecrecover h c = (Err e, c')
  | Panic => exists h c c', h ∈ headers /\ ecrecover Ecrecover h c = (Panic, c')
  end.

Lemma loop_refines_cons n epoch s s1 b b1 h v headers r :
  says h v -> b_block epoch n v.1.1 v.1.2 v.2 b = Some b1 -> config s1 = config s -> SNumber s1 = SNumber s ->
  loop_refines (n + 1) epoch s1 b1 headers r -> loop_refines n epoch s b (h :: headers) r.
Proof.
  intros Hsay Hb Hc Hn. unfold loop_refines. destruct v as [[a c] auth]. cbn [fst snd] in Hb. destruct r as [s'|e|].
  - intros (l & b' & Hl & Hr & Hrf & Hc' & Hn'). exists ((a, c, auth) :: l), b'. split; [by constructor|].
    split; [simpl; by rewrite Hb|]. split; [done|]. split; congruence.
  - destruct e.
    all: try (intros (h' & c0 & c1 & Hin & He); exists h', c0, c1; split; [by right|done]).
    + intros (h' & Hin & Hv). exists h'. split; [by right|done].
    + done.
    + intros (pre & h' & post & l & b' & a' & -> & Hl & Hr & Hs & Hf).
      exists (h :: pre), h', post, ((a, c, auth) :: l), b', a'. split; [done|]. split; [by constructor|].
      split; [simpl; by rewrite Hb|]. split; [done|]. intros authorize. rewrite <-(Hf authorize). f_equal.
      cbn [length]. lia.
  - intros (h' & c0 & c1 & Hin & He). exists h', c0, c1. split; [by right|done].
Qed.

Lemma ecrecover_errors h c e c' : ecrecover Ecrecover h c = (Err e, c') ->
  e = errMissingSignature \/ e = errRecover.
Proof.
  unfold ecrecover. destruct (Header_Hash h); [|done]. destruct (cache_Get c h0) as [[a|] c1]; [done|].
  destruct (decide _); [naive_solver|]. destruct (sigHash h); [|done].
  destruct (Ecrecover _ _) as [[|]|]; [done| |naive_solver]. by destruct (Keccak256 _).
Qed.

Lemma apply_loop_refines headers n s b c : refines s b -> Epoch (config s) <> 0 -> numbered n headers ->
  loop_refines n (Epoch (config s)) s b headers (apply_loop Ecrecover s c headers).1.
Proof.
  revert n s b c. induction headers as [|h headers IH]; intros n s b c Hr He Hnum; simpl.
  - exists [], b. split; [constructor|done].
  - destruct (Hnum 0%nat h eq_refl) as (k & Hk & En). rewrite Hk. cbn [mbind option_bind from_option id].
    destruct (open_refines s b (big_Uint64 k) Hr He) as (s1 & -> & Hr1 & Hc1 & Hn1).
    destruct (ecrecover Ecrecover h c) as [[a|e|] c1] eqn:Ee.
    + rewrite ok_bind. pose proof (apply_signed_refines s1 b _ _ a (Coinbase h) (Nonce h) Hr1) as Ha.
      replace (big_Uint64 k) with n in * by lia.
      destruct (apply_signed s1 n a (Coinbase h) (Nonce h)) as [s2|e|].
      * destruct Ha as (auth & b2 & Hv & Hb & Hr2 & Hc2 & Hn2). rewrite Hc1 in Hc2. rewrite Hn1 in Hn2.
        apply (loop_refines_cons n _ s s2 b b2 h (a, Coinbase h, auth)); try done.
        { split; [by exists c, c1|done]. }
        rewrite <-Hc2. apply IH; [done|by rewrite Hc2|].
        intros i h' Hi. destruct (Hnum (S i) h' Hi) as (k' & ? & ?). exists k'. split; [done|lia].
      * destruct e; try done.
        -- destruct Ha as [Hv _]. exists h. split; [by left|done].
        -- exists [], h, headers, [], b, a. split; [done|]. split; [done|]. split; [done|].
           split; [by exists c, c1|]. intros authorize. rewrite Z.add_0_r. apply Ha.
      * done.
    + simpl. pose proof (ecrecover_errors _ _ _ _ Ee) as [-> | ->]; exists h, c, c1; (split; [by left|done]).
    + simpl. exists h, c, c1. split; [by left|done].
Qed.
End Apply.

Lemma contiguous_step h1 h2 l :
  contiguous (h1 :: h2 :: l) =
  (n2 ← or_panic (Number h2);
   n1 ← or_panic (Number h1);
   guard_err (negb (big_Uint64 n2 =? u64 (big_Uint64 n1 + 1))) errInvalidVotingChain;;
   contiguous (h2 :: l)).
Proof. reflexivity. Qed.

Lemma contiguous_fails headers :
  match contiguous headers with
  | Ok _ => True
  | Err e => e = errInvalidVotingChain /\ forall n, 0 <= n -> n + Z.of_nat (length headers) <= 2 ^ 64 -> ~ numbered n headers
  | Panic => exists h, h ∈ headers /\ Number h = None
  end.
Proof.
  induction headers as [|h1 headers IH]; [done|]. destruct headers as [|h2 headers]; [done|]. rewrite contiguous_step.
  destruct (Number h2) as [n2|] eqn:E2; [|exists h2; split; [by right; left|done] ].
  rewrite or_panic_bind.
  destruct (Number h1) as [n1|] eqn:E1; [|exists h1; split; [by left|done] ].
  rewrite or_panic_bind. destruct (Z.eqb_spec (big_Uint64 n2) (u64 (big_Uint64 n1 + 1))) as [He|Hne]; cbn [negb guard_err].
  - rewrite ok_bind. destruct (contiguous (h2 :: headers)) as [|e|]; [done| |].
    + destruct IH as [-> IH]. split; [done|]. intros n Hn Hl Hnum. cbn [length] in Hl.
      apply (IH (n + 1)); [lia|cbn [length]; lia|].
      intros i h Hi. destruct (Hnum (S i) h Hi) as (k & Hk & E). exists k. split; [done|lia].
    + destruct IH as (h & Hin & Hh). exists h. split; [by right|done].
  - split; [done|]. intros n Hn Hl Hnum. cbn [length] in Hl.
    destruct (Hnum 0%nat h1 eq_refl) as (k1 & Hk1 & F1). destruct (Hnum 1%nat h2 eq_refl) as (k2 & Hk2 & F2).
    simplify_eq. apply Hne. unfold u64. rewrite Z.mod_small; lia.
Qed.

Section Theorems.
Context `{SigCache} `{AddressSize}.
Context (Ecrecover : list Z -> list Z -> option (list Z)).

Lemma apply_cons s c hs h0 hs' : hs = h0 :: hs' ->
  apply Ecrecover s c hs =
  match (contiguous hs;;
         n0 ← or_panic (Number h0);
         guard_err (negb (big_Uint64 n0 =? u64 (SNumber s + 1))) errInvalidVotingChain) with
  | Err e => (Err e, c)
  | Panic => (Panic, c)
  | Ok _ =>
      let '(r, c) := apply_loop Ecrecover s c hs in
      (snap ← r;
       hash ← or_panic (h ← last hs; Header_Hash h);
       Ok (at_head snap (u64 (SNumber snap + Z.of_nat (length hs))) hash), c)
  end.
Proof. intros ->. reflexivity. Qed.

Lemma apply_refines_loop s b c headers : refines s b -> Epoch (config s) <> 0 ->
  0 <= SNumber s -> SNumber s + Z.of_nat (length headers) < 2 ^ 64 ->
  match (apply Ecrecover s c headers).1 with
  | Ok s' => exists l b', Forall2 (says Ecrecover) headers l /\
      b_run (Epoch (config s)) (SNumber s + 1) l b = Some b' /\ refines s' b' /\ config s' = config s /\
      SNumber s' = SNumber s + Z.of_nat (length headers)
  | Err errInvalidVotingChain => ~ numbered (SNumber s + 1) headers
  | Err e => loop_refines Ecrecover (SNumber s + 1) (Epoch (config s)) s b headers (Err e)
  | Panic => exists h, h ∈ headers /\
      (Number h = None \/ Header_Hash h = None \/ exists c c', ecrecover Ecrecover h c = (Panic, c'))
  end.
Proof.
  intros Hr He Hn Hl. destruct headers as [|h0 headers].
  { exists [], b. split; [constructor|]. split; [done|]. split; [done|]. split; [done|simpl; lia]. }
  remember (h0 :: headers) as hs eqn:Ehs. pose proof (contiguous_fails hs) as Hcf. rewrite (apply_cons s c hs h0 headers Ehs).
  destruct (contiguous hs) as [[]|e|] eqn:Hc; cbn [mbind outcome_bind].
  2:{ destruct Hcf as [-> Hcf]. simpl. apply Hcf; [lia|]. lia. }
  2:{ destruct Hcf as (h & Hin & Hh). exists h. auto. }
  destruct (Number h0) as [n0|] eqn:E0; simpl; [|exists h0; subst hs; split; [by left|auto] ].
  destruct (Z.eqb_spec (big_Uint64 n0) (u64 (SNumber s + 1))) as [Hf|Hf]; simpl.
  2:{ intros Hnum. subst hs. destruct (Hnum 0%nat h0 eq_refl) as (k & Hk & E). simplify_eq. apply Hf.
      cbn [length] in Hl. unfold u64. rewrite Z.mod_small; lia. }
  assert (numbered (SNumber s + 1) hs) as Hnum.
  { apply contiguous_numbered; [done| |lia|lia]. intros h Hh. subst hs. injection Hh as <-. exists n0.
    split; [done|]. cbn [length] in Hl. unfold u64 in Hf. rewrite Z.mod_small in Hf; lia. }
  pose proof (apply_loop_refines Ecrecover hs _ s b c Hr He Hnum) as Hloop.
  destruct (apply_loop Ecrecover s c hs) as [[s'|e|] c'] eqn:El; simpl in Hloop |- *.
  - destruct Hloop as (l & b' & Hsay & Hrun & Hrf & Hcf' & Hn').
    destruct (last hs) as [hl|] eqn:Elast; [|by apply last_None in Elast; subst hs].
    simpl. destruct (Header_Hash hl) as [hash|] eqn:Ehash; simpl.
    + exists l, b'. split; [done|]. split; [done|]. split; [by destruct Hrf|]. split; [done|].
      rewrite Hn'. unfold u64. rewrite Z.mod_small; lia.
    + exists hl. split; [by apply last_Some_elem_of in Elast|auto].
  - destruct e; done.
  - destruct Hloop as (h & c0 & c1 & Hin & Hx). exists h. eauto 6.
Qed.
End Theorems.
