(* ===== verification/CliqueLive.v ===== *)
(** * Properties of the proof-of-authority engine

    Refinement of ballots by [apply], the majority behind every change of the
    signers, the progress of the chain, the turn of the signers, and what is
    left of the engine in this fork. *)
From Stdlib Require Import Sorted.
From S2P Require Import Prelude Sha3 Types Rlp HeaderHash Clique CliqueVotes.

(** ** The window of recent signers *)

Record b_window (n : Z) (b : ballot) : Prop := {
  wd_range : forall k a, b_recents b !! k = Some a -> 0 <= k /\ n - b_limit b < k <= n;
  wd_inj : forall k k' a, b_recents b !! k = Some a -> b_recents b !! k' = Some a -> k = k'
}.

Lemma delete_recents (m : gmap Z Address) k k' a : delete k m !! k' = Some a -> k' <> k /\ m !! k' = Some a.
Proof. intros [? ?]%lookup_delete_Some. auto. Qed.

(** Moving to the next block leaves room for one more signer. *)
Lemma b_shift_window n b : b_window n b ->
  b_signers (b_shift (n + 1) b) = b_signers b /\
  (forall k a, b_recents (b_shift (n + 1) b) !! k = Some a -> 0 <= k /\ n + 1 - b_limit b < k <= n) /\
  (forall k k' a, b_recents (b_shift (n + 1) b) !! k = Some a -> b_recents (b_shift (n + 1) b) !! k' = Some a -> k = k').
Proof.
  intros [Hr Hi]. unfold b_shift. destruct (Z.leb_spec (b_limit b) (n + 1)); simpl.
  - split; [done|]. split.
    + intros k a [Hne Hk]%delete_recents. apply Hr in Hk. lia.
    + intros k k' a [_ Hk]%delete_recents [_ Hk']%delete_recents. eauto.
  - split; [done|]. split; [|done]. intros k a Hk. apply Hr in Hk. lia.
Qed.

Lemma b_open_window epoch n b : b_window n b ->
  b_signers (b_open epoch (n + 1) b) = b_signers b /\
  (forall k a, b_recents (b_open epoch (n + 1) b) !! k = Some a -> 0 <= k /\ n + 1 - b_limit b < k <= n) /\
  (forall k k' a, b_recents (b_open epoch (n + 1) b) !! k = Some a ->
     b_recents (b_open epoch (n + 1) b) !! k' = Some a -> k = k').
Proof.
  intros Hw. unfold b_open. destruct (_ =? 0); [|by apply b_shift_window].
  apply (b_shift_window n (mkBallot (b_signers b) ∅ (b_recents b))). destruct Hw. by split.
Qed.

Lemma half_le_limit (g g' : gset Address) : (size g <= size g' + 1)%nat ->
  Z.of_nat (size g / 2 + 1) <= Z.of_nat (size g' / 2 + 1) + 1.
Proof.
  intros H. pose proof (Nat.Div0.div_le_mono (size g) (size g' + 1 * 2) 2 ltac:(lia)) as Hd.
  rewrite Nat.div_add in Hd by lia. lia.
Qed.

Lemma half_mono (g g' : gset Address) : (size g <= size g')%nat ->
  Z.of_nat (size g / 2 + 1) <= Z.of_nat (size g' / 2 + 1).
Proof. intros H. pose proof (Nat.Div0.div_le_mono (size g) (size g') 2 H). lia. Qed.

(** A vote keeps the window, whatever it does to the signers. *)
Lemma b_vote_window number signer c authorize b :
  0 <= number -> b_window number b -> b_window number (b_vote number signer c authorize b).
Proof.
  intros Hn [Hr Hi]. unfold b_vote. cbv zeta. cbn [b_signers b_votes b_recents].
  destruct (decide (_ < _)%nat); [|by split].
  destruct (decide (c ∈ b_signers b)) as [Hc|Hc].
  - set (b1 := mkBallot (b_signers b ∖ {[c]}) _ _).
    assert (size (b_signers b) = S (size (b_signers b1))) as Hs.
    { unfold b1. simpl. rewrite size_difference by set_solver. rewrite size_singleton.
      assert (size (b_signers b) <> 0)%nat; [|lia]. intros Hz%size_empty_inv. set_solver. }
    pose proof (half_le_limit (b_signers b) (b_signers b1) ltac:(lia)) as Hle.
    pose proof (half_mono (b_signers b1) (b_signers b) ltac:(lia)) as Hge.
    fold (b_limit b) (b_limit b1) in Hle, Hge.
    assert (b_recents b1 = b_recents b) as Hrec by done. unfold b_shift.
    destruct (Z.leb_spec (b_limit b1) number); split; cbn [b_recents b_signers]; rewrite Hrec.
    + intros k a [Hne Hk]%delete_recents. apply Hr in Hk. change (b_limit (mkBallot (b_signers b1) _ _)) with (b_limit b1). lia.
    + intros k k' a [_ Hk]%delete_recents [_ Hk']%delete_recents. eauto.
    + intros k a Hk. apply Hr in Hk. lia.
    + eauto.
  - split; cbn [b_recents]; [|done]. intros k a Hk. apply Hr in Hk.
    pose proof (half_mono (b_signers b) (b_signers b ∪ {[c]}) ltac:(apply subseteq_size; set_solver)) as Hge.
    unfold b_limit in *. cbn [b_signers]. lia.
Qed.

Lemma b_block_window epoch n signer c authorize b b' : 0 <= n -> b_window n b ->
  b_block epoch (n + 1) signer c authorize b = Some b' -> b_window (n + 1) b'.
Proof.
  intros Hn Hw Hb. destruct (b_open_window epoch n b Hw) as (Hsg & Hr & Hi).
  unfold b_block in Hb. cbv zeta in Hb. fold (b_open epoch (n + 1) b) in Hb.
  destruct (decide _) as [[Hs Hf]|]; [|done]. injection Hb as <-. apply b_vote_window; [lia|].
  assert (1 <= b_limit b) by (unfold b_limit; lia).
  assert (forall v r, b_limit (mkBallot (b_signers (b_open epoch (n + 1) b)) v r) = b_limit b) as Hlim
    by (intros v r; by rewrite Hsg).
  split; cbn [b_recents].
  - intros k a [[<- <-]|[Hne Hk]]%lookup_insert_Some; rewrite Hlim; [lia|]. apply Hr in Hk. lia.
  - intros k k' a [[<- <-]|[Hne Hk]]%lookup_insert_Some [[Hk' Ha]|[Hne' Hk']]%lookup_insert_Some; subst; try done.
    + by destruct (Hf _ _ Hk').
    + by destruct (Hf _ _ Hk).
    + eauto.
Qed.

Lemma b_run_window epoch l n b b' : 0 <= n -> b_window n b -> b_run epoch (n + 1) l b = Some b' ->
  b_window (n + Z.of_nat (length l)) b'.
Proof.
  revert n b. induction l as [|[[s c] auth] l IH]; intros n b Hn Hw Hb; simpl in Hb.
  - simplify_eq. by rewrite Z.add_0_r.
  - apply bind_Some in Hb as (b1 & H1 & H2). apply b_block_window in H1; [|done|done].
    apply IH in H2; [|lia|done]. cbn [length]. by replace (n + Z.of_nat (S (length l))) with (n + 1 + Z.of_nat (length l)) by lia.
Qed.

Lemma size_list_to_set_le (l : list Address) : (size (list_to_set l : gset Address) <= length l)%nat.
Proof.
  induction l as [|x l IH]; [done|]. cbn [list_to_set length].
  rewrite size_union_alt, size_singleton.
  assert (size ((list_to_set l : gset Address) ∖ {[x]}) <= size (list_to_set l : gset Address))%nat; [|lia].
  apply subseteq_size. set_solver.
Qed.

(** Of the signers, fewer than all are recent. *)
Lemma free_signer (g : gset Address) (m : gmap Z Address) lo hi :
  (forall k a, m !! k = Some a -> lo < k <= hi) -> (Z.to_nat (hi - lo) < size g)%nat ->
  exists a, a ∈ g /\ map_Forall (fun _ x => x <> a) m.
Proof.
  intros Hr Hsz. set (R := list_to_set (map snd (map_to_list m)) : gset Address).
  assert (size R <= Z.to_nat (hi - lo))%nat as HR.
  { etransitivity; [apply size_list_to_set_le|]. rewrite length_map, length_map_to_list.
    rewrite <-(size_dom (D := gset Z)).
    transitivity (size (list_to_set (seqZ (lo + 1) (hi - lo)) : gset Z)).
    - apply subseteq_size. intros k [a Ha]%elem_of_dom. apply elem_of_list_to_set, elem_of_seqZ.
      apply Hr in Ha. lia.
    - rewrite size_list_to_set by apply NoDup_seqZ. by rewrite length_seqZ. }
  assert (forall k x, m !! k = Some x -> x ∈ R) as Hin.
  { intros k x Hk. apply elem_of_list_to_set, list_elem_of_fmap. exists (k, x). split; [done|].
    by apply elem_of_map_to_list. }
  clearbody R. assert (exists a, a ∈ g ∖ R) as [a Ha].
  { apply set_choose_L. intros He. assert (g ⊆ R) as Hsub%subseteq_size by set_solver. lia. }
  exists a. split; [set_solver|]. intros k x Hk ->. apply Hin in Hk. set_solver.
Qed.

(** ** The order of the signers *)

Lemma bytes_Compare_eq a b : bytes_Compare a b = Eq <-> a = b.
Proof.
  revert b. induction a as [|x a IH]; intros [|y b]; simpl; try done.
  destruct (Z.compare_spec x y) as [->|Hlt|Hgt].
  - rewrite IH. naive_solver.
  - split; [done|]. intros [= -> _]. lia.
  - split; [done|]. intros [= -> _]. lia.
Qed.

Lemma bytes_Compare_antisym a b : bytes_Compare b a = CompOpp (bytes_Compare a b).
Proof.
  revert b. induction a as [|x a IH]; intros [|y b]; simpl; try done.
  rewrite (Z.compare_antisym x y). destruct (x ?= y); simpl; auto.
Qed.

Definition bytes_le (a b : Address) : Prop := bytes_Compare a b <> Gt.

#[export] Instance bytes_le_antisym : AntiSymm (=) bytes_le.
Proof.
  intros a b H1 H2. unfold bytes_le in *. rewrite bytes_Compare_antisym in H2.
  apply bytes_Compare_eq. by destruct (bytes_Compare a b).
Qed.

#[export] Instance bytes_le_trans : Transitive bytes_le.
Proof.
  unfold bytes_le. intros a. induction a as [|x a IH]; intros [|y b] [|z c] H1 H2; simpl in *; try done.
  destruct (Z.compare_spec x y) as [->|Hxy|Hxy], (Z.compare_spec y z) as [->|Hyz|Hyz]; try done.
  - eauto.
  - by rewrite (proj2 (Z.compare_lt_iff _ _)).
  - by rewrite (proj2 (Z.compare_lt_iff _ _)) by lia.
Qed.

Lemma bytes_le_total a b : bytes_Compare a b = Gt -> bytes_le b a.
Proof. unfold bytes_le. rewrite (bytes_Compare_antisym a b). by intros ->. Qed.

Lemma exchange_ok l x m r : exchange x l = (m, r) ->
  m :: r ≡ₚ x :: l /\ bytes_le m x /\ Forall (bytes_le m) r.
Proof.
  revert x m r. induction l as [|y l IH]; intros x m r He; simpl in He.
  - simplify_eq. split; [done|]. split; [|done]. unfold bytes_le. by rewrite (proj2 (bytes_Compare_eq _ _)).
  - destruct (bytes_Compare x y) eqn:Hc.
    + destruct (exchange x l) as [m' r'] eqn:E'. simplify_eq. destruct (IH _ _ _ E') as (Hp & Hm & Hf).
      apply bytes_Compare_eq in Hc as ->.
      split; [by rewrite Permutation_swap, Hp|]. split; [done|]. by constructor.
    + destruct (exchange x l) as [m' r'] eqn:E'. simplify_eq. destruct (IH _ _ _ E') as (Hp & Hm & Hf).
      split; [by rewrite Permutation_swap, Hp, Permutation_swap|]. split; [done|]. constructor; [|done].
      etransitivity; [done|]. unfold bytes_le. by rewrite Hc.
    + destruct (exchange y l) as [m' r'] eqn:E'. simplify_eq. destruct (IH _ _ _ E') as (Hp & Hm & Hf).
      apply bytes_le_total in Hc.
      split; [by rewrite Permutation_swap, Hp|]. split; [by etransitivity|]. constructor; [by etransitivity|done].
Qed.

Lemma sort_signers_ok fuel l : (length l <= fuel)%nat ->
  sort_signers fuel l ≡ₚ l /\ StronglySorted bytes_le (sort_signers fuel l).
Proof.
  revert l. induction fuel as [|fuel IH]; intros [|x l] Hl; simpl in *; try lia; try (split; [done|constructor]).
  destruct (exchange x l) as [m r] eqn:E. destruct (exchange_ok _ _ _ _ E) as (Hp & _ & Hf).
  assert (length r = length l) as Hlen by (apply Permutation_length in Hp; simpl in Hp; lia).
  destruct (IH r) as [Hpr Hs]; [lia|]. split; [by rewrite Hpr|].
  constructor; [done|]. by rewrite Hpr.
Qed.

Lemma sorted_unique l1 l2 : StronglySorted bytes_le l1 -> StronglySorted bytes_le l2 -> l1 ≡ₚ l2 -> l1 = l2.
Proof.
  intros H1. revert l2. induction H1 as [|x l1 H1 IH Hx]; intros l2 H2 Hp.
  - by apply Permutation_nil_l in Hp.
  - destruct H2 as [|y l2 H2 Hy]; [by apply Permutation_nil_r in Hp|].
    assert (x = y) as ->.
    { assert (x ∈ y :: l2) as [|Hx2]%elem_of_cons by (rewrite <-Hp; left); [done|].
      assert (y ∈ x :: l1) as [|Hy1]%elem_of_cons by (rewrite Hp; left); [done|].
      rewrite Forall_forall in Hx, Hy. apply (anti_symm bytes_le); auto. }
    apply Permutation_cons_inv in Hp. f_equal. auto.
Qed.

Section Ordered.
Context (range : gset Address -> list Address) (Hrange : forall g, range g ≡ₚ elements g).

Lemma signers_ok s : signers range s ≡ₚ elements (Signers s) /\ StronglySorted bytes_le (signers range s).
Proof.
  unfold signers. destruct (sort_signers_ok (length (range (Signers s))) (range (Signers s))) as [Hp Hs]; [lia|].
  split; [by rewrite Hp|done].
Qed.

Lemma offset_of_lookup a l : NoDup l -> forall i, l !! i = Some a -> offset_of a l = i.
Proof.
  intros Hn. induction Hn as [|x l Hx Hn IH]; intros i Hi; [done|]. simpl.
  destruct i as [|i]; simpl in Hi.
  - simplify_eq. by rewrite decide_True.
  - rewrite decide_False; [by rewrite (IH i)|]. intros ->. apply Hx. by eapply list_elem_of_lookup_2.
Qed.

Lemma offset_of_lt a l : (offset_of a l < length l)%nat -> l !! offset_of a l = Some a.
Proof.
  induction l as [|x l IH]; simpl; [lia|]. destruct (decide (x = a)) as [->|]; [done|].
  intros. simpl. apply IH. lia.
Qed.
End Ordered.

Lemma signers_independent range1 range2 s :
  (forall g, range1 g ≡ₚ elements g) -> (forall g, range2 g ≡ₚ elements g) ->
  signers range1 s = signers range2 s.
Proof.
  intros H1 H2. destruct (signers_ok range1 H1 s) as [P1 S1]. destruct (signers_ok range2 H2 s) as [P2 S2].
  apply sorted_unique; [done|done|]. by rewrite P1, P2.
Qed.

Lemma inturn_turn range s number : (forall g, range g ≡ₚ elements g) -> Signers s <> ∅ -> 0 <= number ->
  exists a, signers range s !! Z.to_nat (number mod Z.of_nat (length (signers range s))) = Some a /\
    a ∈ Signers s /\ forall a', inturn range s number a' = Some (bool_decide (a' = a)).
Proof.
  intros Hr Hne Hn. destruct (signers_ok range Hr s) as [Hp _]. set (l := signers range s) in *.
  assert (length l <> 0)%nat as Hl.
  { intros Hz%length_zero_iff_nil. rewrite Hz in Hp. symmetry in Hp. apply Permutation_nil_r in Hp.
    by apply elements_empty_inv in Hp; apply Hne, leibniz_equiv. }
  pose proof (Z.mod_pos_bound number (Z.of_nat (length l)) ltac:(lia)) as Hm.
  destruct (lookup_lt_is_Some_2 l (Z.to_nat (number mod Z.of_nat (length l)))) as [a Ha]; [lia|].
  assert (NoDup l) as Hnd by (rewrite Hp; apply NoDup_elements).
  exists a. split; [done|]. split.
  { apply elem_of_elements. rewrite <-Hp. by eapply list_elem_of_lookup_2. }
  intros a'. unfold inturn. fold l. rewrite decide_False by done. f_equal.
  destruct (Z.eqb_spec (number mod Z.of_nat (length l)) (Z.of_nat (offset_of a' l))) as [He|Hne'].
  - symmetry. apply bool_decide_eq_true. rewrite He, Nat2Z.id in Ha.
    rewrite offset_of_lt in Ha by lia. congruence.
  - symmetry. apply bool_decide_eq_false. intros ->. apply Hne'.
    rewrite (offset_of_lookup a l Hnd _ Ha). lia.
Qed.

(** ** What is left of the engine *)

(** Sealing beyond the checks at its start dereferences the nil snapshot. *)
Lemma Seal_panics `{SigCache} {Tx} (c : Clique) (b : Block Tx) stopped n :
  Number (Block_Header b) = Some n -> big_Uint64 n <> 0 -> (Period (c_config c) <> 0 \/ transactions b <> []) ->
  Seal c b stopped = Panic.
Proof.
  intros Hn Hz Hp. unfold Seal. rewrite Hn, or_panic_bind. cbv beta zeta.
  rewrite (proj2 (Z.eqb_neq (big_Uint64 n) 0)) by done. rewrite guard_err_pass.
  assert ((Period (c_config c) =? 0) && bool_decide (length (transactions b) = 0%nat) = false) as ->.
  { destruct Hp as [Hp|Hp]; [by rewrite (proj2 (Z.eqb_neq _ _))|].
    rewrite bool_decide_eq_false_2; [apply andb_false_r|]. by intros ?%length_zero_iff_nil. }
  done.
Qed.

Section Properties.
Context `{SigCache} `{AddressSize}.
Context (Ecrecover : list Z -> list Z -> option (list Z)).

(** C8: [apply] refines the abstract ballot.  If it accepts the headers, the
    blocks in turn are valid steps of the ballot (signed by an authorized
    signer that is not among the recent ones) and the new snapshot, with its
    vote list and its cached tally, represents the resulting ballot; if it
    answers "unauthorized", the ballot refuses the block of some header after
    accepting those before it; "invalid voting chain" means the headers do not
    continue the snapshot. *)
Theorem apply_refines_ballot s b c headers : refines s b -> Epoch (config s) <> 0 ->
  0 <= SNumber s -> SNumber s + Z.of_nat (length headers) < 2 ^ 64 ->
  match (apply Ecrecover s c headers).1 with
  | Ok s' => exists l b', Forall2 (says Ecrecover) headers l /\
      b_run (Epoch (config s)) (SNumber s + 1) l b = Some b' /\ refines s' b' /\ config s' = config s /\
      SNumber s' = SNumber s + Z.of_nat (length headers)
  | Err errInvalidVotingChain => ~ numbered (SNumber s + 1) headers
  | Err errInvalidVote => exists h, h ∈ headers /\ vote_of (Nonce h) = None
  | Err errUnauthorized => exists pre h post l b' a, headers = pre ++ h :: post /\
      Forall2 (says Ecrecover) pre l /\ b_run (Epoch (config s)) (SNumber s + 1) l b = Some b' /\
      signed_by Ecrecover h a /\ forall authorize,
        b_block (Epoch (config s)) (SNumber s + 1 + Z.of_nat (length pre)) a (Coinbase h) authorize b' = None
  | Err e => exists h c c', h ∈ headers /\ ecrecover Ecrecover h c = (Err e, c')
  | Panic => exists h, h ∈ headers /\
      (Number h = None \/ Header_Hash h = None \/ exists c c', ecrecover Ecrecover h c = (Panic, c'))
  end.
Proof.
  intros Hr He Hn Hl. pose proof (apply_refines_loop Ecrecover s b c headers Hr He Hn Hl) as Ha.
  destruct (apply Ecrecover s c headers).1 as [s'|e|]; [done| |done]. by destruct e.
Qed.

Lemma newSnapshot_refines cfg number hash l :
  refines (newSnapshot cfg number hash l) (mkBallot (list_to_set l) ∅ ∅).
Proof. split; try done; [apply voting_empty|by intros v ?%elem_of_nil]. Qed.

(** C28: the chain cannot lock up.  In every snapshot that [apply] reaches from a
    fresh one and that still has signers, some authorized signer may sign the
    next block, whatever it votes. *)
Theorem someone_can_sign cfg number hash l c headers s' c' :
  Epoch cfg <> 0 -> 0 <= number -> number + Z.of_nat (length headers) < 2 ^ 64 ->
  apply Ecrecover (newSnapshot cfg number hash l) c headers = (Ok s', c') -> Signers s' <> ∅ ->
  exists a s1, a ∈ Signers s' /\ open_block s' (SNumber s' + 1) = Some s1 /\
    forall coinbase nonce, is_Some (vote_of nonce) ->
      exists s2, apply_signed s1 (SNumber s' + 1) a coinbase nonce = Ok s2.
Proof.
  intros He Hn Hl Ha Hne.
  pose proof (apply_refines_loop Ecrecover _ _ c headers (newSnapshot_refines cfg number hash l) He Hn Hl) as Hr.
  rewrite Ha in Hr. destruct Hr as (ls & b' & Hsay & Hrun & Hrf & Hcfg & Hnum). simpl in Hrun, Hnum, Hcfg.
  apply b_run_window in Hrun; [|done|by split].
  rewrite <-(Forall2_length _ _ _ Hsay), <-Hnum in Hrun.
  assert (Epoch (config s') <> 0) as He' by (by rewrite Hcfg).
  destruct (open_refines s' b' (SNumber s' + 1) Hrf He') as (s1 & Ho & Hr1 & _).
  destruct (b_open_window (Epoch (config s')) (SNumber s') b' Hrun) as (Hsg & Hrange & _).
  pose proof (rf_signers _ _ Hrf) as Hs.
  assert (size (b_signers b') <> 0)%nat as Hsz.
  { rewrite <-Hs. intros Hz%size_empty_inv. by apply Hne, leibniz_equiv. }
  assert (size (b_signers b') / 2 < size (b_signers b'))%nat by (apply Nat.div_lt; lia).
  destruct (free_signer (b_signers b') (b_recents (b_open (Epoch (config s')) (SNumber s' + 1) b'))
    (SNumber s' + 1 - b_limit b') (SNumber s')) as (a & Hin & Hfree).
  { intros k x Hk. apply Hrange in Hk. lia. }
  { unfold b_limit. lia. }
  exists a, s1. rewrite Hs. split; [done|]. split; [done|]. intros coinbase nonce [auth Hv].
  pose proof (apply_signed_refines s1 b' _ _ a coinbase nonce Hr1) as Hap.
  assert (b_block (Epoch (config s')) (SNumber s' + 1) a coinbase auth b' <> None) as Hok.
  { unfold b_block. cbv zeta. fold (b_open (Epoch (config s')) (SNumber s' + 1) b').
    rewrite decide_True; [done|]. by rewrite Hsg. }
  destruct (apply_signed _ _ _ _ _) as [s2|e|]; [eauto| |done].
  destruct e; try done; [destruct Hap; congruence|]. by destruct (Hok (Hap auth)).
Qed.
End Properties.

(** For every block number there is exactly one signer in turn, and it does
    not depend on the order in which the map of signers is visited. *)
Theorem inturn_unique range1 range2 s number :
  (forall g, range1 g ≡ₚ elements g) -> (forall g, range2 g ≡ₚ elements g) ->
  Signers s <> ∅ -> 0 <= number ->
  exists a, a ∈ Signers s /\ forall a',
    inturn range1 s number a' = Some (bool_decide (a' = a)) /\
    inturn range2 s number a' = Some (bool_decide (a' = a)).
Proof.
  intros H1 H2 Hne Hn. destruct (inturn_turn range1 s number H1 Hne Hn) as (a & Ha & Hin & T1).
  destruct (inturn_turn range2 s number H2 Hne Hn) as (b & Hb & _ & T2).
  rewrite (signers_independent range1 range2 s H1 H2) in Ha. rewrite Ha in Hb. injection Hb as <-.
  exists a. split; [done|]. auto.
Qed.

(** ** Majority *)

Lemma voters_size (c : Address) (vs : gset (Address * Address)) :
  size (set_map fst (voters_on c vs) : gset Address) = size (voters_on c vs).
Proof.
  unfold voters_on.
  assert (forall p, p ∈ filter (fun p : Address * Address => p.2 = c) vs -> p.2 = c) as H
    by (intros p; rewrite elem_of_filter; tauto).
  revert H. generalize (filter (fun p : Address * Address => p.2 = c) vs). intros X.
  induction X as [|p X Hp IH] using set_ind_L; intros HX; [by rewrite set_map_empty|].
  rewrite set_map_union_L, set_map_singleton_L, !size_union, !size_singleton, IH; [done| | |].
  - intros q Hq. apply HX. set_solver.
  - set_solver.
  - intros x Hx1 Hx2. apply elem_of_singleton in Hx1 as ->. apply elem_of_map in Hx2 as (q & Hq1 & Hq2).
    apply Hp. rewrite (surjective_pairing p), Hq1, (HX p), <-(HX q), <-surjective_pairing; [done|set_solver..].
Qed.

Lemma b_shift_signers number b : b_signers (b_shift number b) = b_signers b /\ b_votes (b_shift number b) = b_votes b.
Proof. unfold b_shift. by destruct (_ <=? _). Qed.

Lemma b_open_votes epoch number b :
  b_signers (b_open epoch number b) = b_signers b /\ b_votes (b_open epoch number b) ⊆ b_votes b.
Proof.
  unfold b_open. set (b1 := if _ =? 0 then _ else _). destruct (b_shift_signers number b1) as [-> ->].
  unfold b1. destruct (_ =? 0); set_solver.
Qed.

(** A change of the signers is the change of [c], with the voters behind it. *)
Lemma b_vote_majority number signer c authorize b :
  let V := voters_on c (b_votes b ∪ {[(signer, c)]}) in
  b_signers (b_vote number signer c authorize b) = b_signers b \/
  (size (b_signers b) / 2 < size V)%nat /\
  (b_signers (b_vote number signer c authorize b) = b_signers b ∪ {[c]} \/
   b_signers (b_vote number signer c authorize b) = b_signers b ∖ {[c]}).
Proof.
  cbv zeta. unfold b_vote. cbv zeta. cbn [b_signers b_votes b_recents].
  set (votes := if decide (c ∈ _ <-> _) then _ else _).
  destruct (decide (_ < _)%nat) as [Hlt|]; [right|by left]. split.
  - eapply Nat.lt_le_trans; [exact Hlt|]. apply subseteq_size. unfold voters_on. intros p.
    rewrite !elem_of_filter. intros [-> Hp]. split; [done|]. unfold votes in Hp. destruct (decide _); set_solver.
  - destruct (decide (c ∈ b_signers b)); [right|by left]. by rewrite (proj1 (b_shift_signers _ _)).
Qed.

(** C29: the signers change only by majority.  A block changes at most the
    standing of its beneficiary [c], and only if more than half of the signers
    have asked for it: the signer of the block and signers with a vote on [c]
    on the board. *)
Theorem signers_need_majority s b number signer c nonce s1 s' :
  refines s b -> open_block s number = Some s1 -> apply_signed s1 number signer c nonce = Ok s' ->
  Signers s' = Signers s \/
  exists V : gset Address, V ⊆ Signers s /\ (size (Signers s) / 2 < size V)%nat /\
    (forall v, v ∈ V -> v = signer \/ exists vote, vote ∈ Votes s /\ Signer vote = v /\ VAddress vote = c) /\
    (Signers s' = Signers s ∪ {[c]} \/ Signers s' = Signers s ∖ {[c]}).
Proof.
  intros Hr Ho Ha.
  assert (Epoch (config s) <> 0) as He by (intros He; unfold open_block in Ho; by rewrite He in Ho).
  destruct (open_refines s b number Hr He) as (s1' & Ho' & Hr1 & _). rewrite Ho in Ho'. injection Ho' as <-.
  pose proof (apply_signed_refines s1 b _ number signer c nonce Hr1) as Hap. rewrite Ha in Hap.
  destruct Hap as (auth & b' & _ & Hb & Hr' & _). unfold b_block in Hb. cbv zeta in Hb.
  fold (b_open (Epoch (config s)) number b) in Hb. destruct (decide _) as [[Hs _]|]; [|done]. injection Hb as <-.
  destruct (b_open_votes (Epoch (config s)) number b) as [Hsg Hvs].
  pose proof (rf_signers _ _ Hr') as E'. pose proof (rf_signers _ _ Hr) as E. pose proof (rf_votes _ _ Hr) as Ev.
  set (b1 := mkBallot _ _ _) in *.
  assert (b_signers b1 = Signers s) as Eb by (unfold b1; simpl; by rewrite Hsg, E).
  destruct (b_vote_majority number signer c auth b1) as [Hsame|[Hmaj Hch]]; rewrite Eb in *.
  - left. by rewrite E'.
  - right. exists (set_map fst (voters_on c (b_votes b1 ∪ {[(signer, c)]}))).
    assert (forall v, v ∈ (set_map fst (voters_on c (b_votes b1 ∪ {[(signer, c)]})) : gset Address) ->
      v = signer \/ exists vote, vote ∈ Votes s /\ Signer vote = v /\ VAddress vote = c) as Hv.
    { intros v ([v' c'] & -> & [Hc Hp]%elem_of_filter)%elem_of_map. simpl in Hc |- *. subst c'.
      apply elem_of_union in Hp as [Hp|Hp%elem_of_singleton]; [|left; congruence]. right.
      apply Hvs in Hp. rewrite <-Ev in Hp. apply elem_of_ballots in Hp as (vote & Hin & Hb).
      exists vote. unfold ballot_of in Hb. by simplify_eq. }
    split; [|split; [by rewrite voters_size|split; [done|by rewrite E'] ] ].
    intros v Hin. apply Hv in Hin as [->|(vote & Hin & <- & _)]; [|by apply (rf_voters _ _ Hr)].
    by rewrite E, <-Hsg.
Qed.

(** ** Sample: two signers vote a third one in *)

Module Sample.

(** A cache that knows the signer of every header by its nonce and time. *)
Definition turn_cache : SigCache := {|
  Cache := list Address;
  cache_Get := fun c _ => (head c, tail c);
  cache_Add := fun c _ _ => c;
  NewARC := fun _ => []
|}.
#[local] Existing Instance turn_cache.
#[local] Instance sample_address : AddressSize := 23%nat.

Definition no_recovery (_ _ : list Z) : option (list Z) := None.

Definition block (number : Z) (coinbase : Address) (nonce : BlockNonce) : Header :=
  mkHeader [] [] coinbase [] [] [] [] (Some 1) (Some number) (Some 0) (Some 0) (Some 0) [] nonce [] [] None None None.

Definition genesis : Snapshot := newSnapshot (mkCliqueConfig 15 30000) 0 [] [[1]; [2]].
Definition headers : list Header := [block 1 [3] nonceAuthVote; block 2 [3] nonceAuthVote].

Lemma genesis_refines : refines genesis (mkBallot {[ [1]; [2] ]} ∅ ∅).
Proof. split; try done; [apply voting_empty|by intros v ?%elem_of_nil]. Qed.

Definition signing : @Cache turn_cache := [[1]; [2]].
Definition after : Snapshot :=
  match (apply no_recovery genesis signing headers).1 with Ok s => s | _ => genesis end.

Lemma apply_after : apply no_recovery genesis signing headers = (Ok after, []).
Proof. vm_compute. reflexivity. Qed.

Lemma apply_refines_ballot_witness :
  exists l b', Forall2 (says no_recovery) headers l /\ b_run 30000 1 l (mkBallot {[ [1]; [2] ]} ∅ ∅) = Some b' /\
    refines after b'.
Proof.
  pose proof (apply_refines_ballot no_recovery genesis _ signing headers genesis_refines) as H.
  rewrite apply_after in H. destruct H as (l & b' & H1 & H2 & H3 & _); [done|done|done|].
  exists l, b'. done.
Defined.

Lemma someone_can_sign_witness :
  exists a s1, a ∈ Signers after /\ open_block after (SNumber after + 1) = Some s1 /\
    forall coinbase nonce, is_Some (vote_of nonce) ->
      exists s2, apply_signed s1 (SNumber after + 1) a coinbase nonce = Ok s2.
Proof.
  apply (someone_can_sign no_recovery (mkCliqueConfig 15 30000) 0 [] [[1]; [2]] signing headers after []).
  - done.
  - done.
  - done.
  - exact apply_after.
  - vm_compute. discriminate.
Defined.

Lemma inturn_unique_witness :
  exists a, a ∈ Signers genesis /\ forall a',
    inturn elements genesis 7 a' = Some (bool_decide (a' = a)) /\
    inturn (fun g => reverse (elements g)) genesis 7 a' = Some (bool_decide (a' = a)).
Proof.
  apply (inturn_unique elements (fun g => reverse (elements g)) genesis 7).
  - done.
  - intros g. apply reverse_Permutation.
  - vm_compute. discriminate.
  - done.
Defined.

(** The snapshot after the first of the two blocks, and the second block. *)
Definition halfway : Snapshot :=
  match (apply no_recovery genesis signing (take 1 headers)).1 with Ok s => s | _ => genesis end.

Lemma halfway_refines : exists b, refines halfway b.
Proof.
  pose proof (apply_refines_loop no_recovery genesis _ signing (take 1 headers) genesis_refines) as H.
  assert ((apply no_recovery genesis signing (take 1 headers)).1 = Ok halfway) as E by (vm_compute; reflexivity).
  rewrite E in H. destruct H as (l & b' & _ & _ & Hr & _); [done|done|done|]. eauto.
Qed.

Definition second : outcome error Snapshot :=
  match open_block halfway 2 with
  | Some s1 => apply_signed s1 2 [2] [3] nonceAuthVote
  | None => Panic
  end.

Lemma signers_need_majority_witness :
  exists V : gset Address, V ⊆ Signers halfway /\ (1 < size V)%nat.
Proof.
  destruct halfway_refines as [b Hb].
  destruct (open_block halfway 2) as [s1|] eqn:Ho; [|vm_compute in Ho; discriminate].
  destruct (apply_signed s1 2 [2] [3] nonceAuthVote) as [s'|e|] eqn:Ha.
  - destruct (signers_need_majority halfway b 2 [2] [3] nonceAuthVote s1 s' Hb Ho Ha) as [Hs|(V & H1 & H2 & _)].
    + exfalso. assert (second = Ok s') as E by (unfold second; by rewrite Ho).
      assert (match second with Ok s => bool_decide (Signers s = Signers halfway) = false | _ => False end) as Hd
        by (vm_compute; reflexivity).
      rewrite E in Hd. apply bool_decide_eq_false in Hd. exact (Hd Hs).
    + exists V. split; [exact H1|]. exact H2.
  - exfalso. assert (second = Err e) as E by (unfold second; by rewrite Ho).
    assert (match second with Ok _ => True | _ => False end) as Hd by (vm_compute; exact I). rewrite E in Hd. exact Hd.
  - exfalso. assert (second = Panic) as E by (unfold second; by rewrite Ho).
    assert (match second with Ok _ => True | _ => False end) as Hd by (vm_compute; exact I). rewrite E in Hd. exact Hd.
Defined.
End Sample.
