(* ===== verification/Bitutil.v ===== *)
(** * Sparse compression and bulk bit operations (src/common/bitutil)

    [compress.go], which the bloom-bits database uses to store its vectors, and
    the word-wise operations of [bitutil.go].  Go's [[]byte] seen through a
    [[]uintptr] keeps the length of the byte slice as its number of words, so a
    word-wise write is checked against the wrong bound; the destination is
    modelled together with the memory behind it. *)
From S2P Require Import Prelude.

(** ** compress.go *)

Inductive error := errMissingData | errUnreferencedData | errExceededTarget | errZeroContent.

(** [1 << byte(7-i%8)] *)
Definition mask (i : nat) : Z := Z.shiftl 1 (Z.of_nat (7 - i mod 8)).

(** The loop over the input: sets the bit of every non-zero byte and gathers it. *)
Fixpoint encode_loop (i : nat) (data nonZeroBitset nonZeroBytes : list Z) : option (list Z * list Z) :=
  match data with
  | [] => Some (nonZeroBitset, nonZeroBytes)
  | b :: data' =>
      if b =? 0 then encode_loop (S i) data' nonZeroBitset nonZeroBytes
      else
        x ← nonZeroBitset !! (i / 8)%nat;
        nonZeroBitset ← store nonZeroBitset (i / 8)%nat (Z.lor x (mask i));
        encode_loop (S i) data' nonZeroBitset (nonZeroBytes ++ [b])
  end.

Fixpoint encode (fuel : nat) (data : list Z) : option (list Z) :=
  match fuel with
  | O => None
  | S fuel' =>
      match data with
      | [] => Some []
      | [b] => Some (if b =? 0 then [] else data)
      | _ =>
          '(nonZeroBitset, nonZeroBytes) ←
            encode_loop 0 data (replicate ((length data + 7) / 8) 0) [];
          if decide (length nonZeroBytes = 0%nat) then Some []
          else
            e ← encode fuel' nonZeroBitset;
            Some (e ++ nonZeroBytes)
      end
  end.

Definition bitsetEncodeBytes (data : list Z) : option (list Z) := encode (S (length data)) data.

Definition CompressBytes (data : list Z) : option (list Z) :=
  out ← bitsetEncodeBytes data;
  Some (if decide (length out < length data)%nat then out else data).

(** The loop that distributes the non-zero bytes, [n] positions from [i] on. *)
Fixpoint decode_loop (n i : nat) (nonZeroBitset data decomp : list Z) (ptr : nat)
    : outcome error (list Z * nat) :=
  match n with
  | O => Ok (decomp, ptr)
  | S n' =>
      b ← or_panic (nonZeroBitset !! (i / 8)%nat);
      if Z.land b (mask i) =? 0 then decode_loop n' (S i) nonZeroBitset data decomp ptr
      else
        guard_err (length data <=? ptr)%nat errMissingData;;
        guard_err (length decomp <=? i)%nat errExceededTarget;;
        x ← or_panic (data !! ptr);
        guard_err (x =? 0) errZeroContent;;
        decomp ← or_panic (store decomp i x);
        decode_loop n' (S i) nonZeroBitset data decomp (S ptr)
  end.

(** The decompressed bytes and how many bytes of the input they took. *)
Fixpoint decode (fuel : nat) (data : list Z) (target : nat) : outcome error (list Z * nat) :=
  match fuel with
  | O => Panic
  | S fuel' =>
      if decide (target = 0%nat) then Ok ([], 0%nat)
      else
        let decomp := replicate target 0 in
        match data with
        | [] => Ok (decomp, 0%nat)
        | b :: _ =>
            if decide (target = 1%nat) then Ok ([b], if b =? 0 then 0%nat else 1%nat)
            else
              '(nonZeroBitset, ptr) ← decode fuel' data ((target + 7) / 8);
              decode_loop (8 * length nonZeroBitset) 0 nonZeroBitset data decomp ptr
        end
  end.

Definition bitsetDecodePartialBytes (data : list Z) (target : nat) : outcome error (list Z * nat) :=
  decode (S target) data target.

Definition bitsetDecodeBytes (data : list Z) (target : nat) : outcome error (list Z) :=
  '(out, size) ← bitsetDecodePartialBytes data target;
  guard_err (negb (bool_decide (size = length data))) errUnreferencedData;;
  Ok out.

(** [target] is a Go [int]. *)
Definition DecompressBytes (data : list Z) (target : Z) : outcome error (list Z) :=
  guard_err (target <? Z.of_nat (length data)) errExceededTarget;;
  if Z.of_nat (length data) =? target then Ok data
  else bitsetDecodeBytes data (Z.to_nat target).

(** ** The bits of a vector, most significant first *)

Definition byte_at (l : list Z) (i : nat) : Z := default 0 (l !! i).
Definition bit (bs : list Z) (i : nat) : bool := Z.testbit (byte_at bs (i / 8)) (Z.of_nat (7 - i mod 8)).
Definition nz (l : list Z) (i : nat) : bool := negb (byte_at l i =? 0).
Definition nonzero (l : list Z) : list Z := filter (fun b => b <> 0) l.

Lemma mask_bit i k : 0 <= k -> Z.testbit (mask i) k = bool_decide (k = Z.of_nat (7 - i mod 8)).
Proof.
  intros Hk. unfold mask. rewrite Z.shiftl_1_l, Z.pow2_bits_eqb by lia.
  destruct (Z.eqb_spec (Z.of_nat (7 - i mod 8)) k); symmetry; [apply bool_decide_eq_true|apply bool_decide_eq_false]; lia.
Qed.

Lemma land_mask b i : (Z.land b (mask i) =? 0) = negb (Z.testbit b (Z.of_nat (7 - i mod 8))).
Proof.
  destruct (Z.testbit b (Z.of_nat (7 - i mod 8))) eqn:Hb; simpl.
  - apply Z.eqb_neq. intros H0. apply (f_equal (fun x => Z.testbit x (Z.of_nat (7 - i mod 8)))) in H0.
    rewrite Z.land_spec, Hb, mask_bit, bool_decide_eq_true_2, Z.bits_0 in H0; [done|done|lia].
  - apply Z.eqb_eq, Z.bits_inj'. intros k Hk. rewrite Z.land_spec, Z.bits_0, mask_bit by done.
    case_bool_decide as H; [subst k; by rewrite Hb|apply andb_false_r].
Qed.

Lemma mask_byte i : is_byte (mask i).
Proof.
  unfold is_byte, mask. rewrite Z.shiftl_1_l. split; [lia|].
  change 256 with (2 ^ 8). apply Z.pow_lt_mono_r; lia.
Qed.

Lemma lor_byte a b : is_byte a -> is_byte b -> is_byte (Z.lor a b).
Proof. apply (lor_uint 8). lia. Qed.

(** A vector is determined by its length and its bits. *)
Lemma bits_ext a b : bytes a -> bytes b -> length a = length b ->
  (forall i, (i < 8 * length a)%nat -> bit a i = bit b i) -> a = b.
Proof.
  intros Ha Hb Hl Hi. apply list_eq_same_length with (length a); [done..|].
  intros j x y Hj Hx Hy. apply Z.bits_inj'. intros k Hk.
  pose proof (Forall_lookup_1 _ _ _ _ Ha Hx) as Bx. pose proof (Forall_lookup_1 _ _ _ _ Hb Hy) as By.
  destruct (decide (k < 8)) as [Hk8|Hk8].
  - specialize (Hi (8 * j + (7 - Z.to_nat k))%nat). unfold bit in Hi.
    rewrite (Nat.mul_comm 8 j), Nat.div_add_l, Nat.div_small, Nat.add_0_r in Hi by lia.
    rewrite Nat.add_comm, Nat.Div0.mod_add, Nat.mod_small in Hi by lia.
    unfold byte_at in Hi. rewrite Hx, Hy in Hi. simpl in Hi.
    replace (Z.of_nat (7 - (7 - Z.to_nat k))) with k in Hi by lia. apply Hi. lia.
  - pose proof (proj1 (is_uint_bits 8 x ltac:(lia)) Bx) as [_ Ex].
    pose proof (proj1 (is_uint_bits 8 y ltac:(lia)) By) as [_ Ey]. rewrite Ex, Ey by lia. done.
Qed.

Lemma bit_out bs i : (8 * length bs <= i)%nat -> bit bs i = false.
Proof.
  intros Hi. unfold bit, byte_at. rewrite lookup_ge_None_2; [apply Z.bits_0|].
  apply Nat.div_le_lower_bound; lia.
Qed.

Lemma bit_set bs i k : (i < 8 * length bs)%nat ->
  bit (<[(i / 8)%nat := Z.lor (byte_at bs (i / 8)) (mask i)]> bs) k = bit bs k || bool_decide (k = i).
Proof.
  intros Hi. assert (i / 8 < length bs)%nat as Hd by (apply Nat.Div0.div_lt_upper_bound; lia).
  unfold bit, byte_at. destruct (decide (k / 8 = i / 8)%nat) as [He|Hne].
  - rewrite He, list_lookup_insert_eq by lia. cbn [from_option id]. rewrite Z.lor_spec, mask_bit by lia. f_equal.
    apply bool_decide_ext. pose proof (Nat.div_mod k 8). pose proof (Nat.div_mod i 8).
    pose proof (Nat.mod_upper_bound k 8). pose proof (Nat.mod_upper_bound i 8). split; intros; subst; lia.
  - rewrite list_lookup_insert_ne by done. rewrite bool_decide_eq_false_2 by congruence. by rewrite orb_false_r.
Qed.

(** ** The loops *)

Lemma nz_cons b l k : nz (b :: l) k = match k with O => negb (b =? 0) | S k' => nz l k' end.
Proof. by destruct k. Qed.

Lemma nz_out l k : (length l <= k)%nat -> nz l k = false.
Proof. intros Hk. unfold nz, byte_at. by rewrite lookup_ge_None_2. Qed.

Lemma nz_tail i k b l : (i < k)%nat -> nz (b :: l) (k - i) = nz l (k - S i).
Proof. intros. rewrite nz_cons. by replace (k - i)%nat with (S (k - S i)) by lia. Qed.

(** The bits from [i] on, when the first byte is split off. *)
Lemma nz_step i k b l :
  bool_decide (i <= k)%nat && nz (b :: l) (k - i) =
  (bool_decide (k = i) && negb (b =? 0)) || (bool_decide (S i <= k)%nat && nz l (k - S i)).
Proof.
  destruct (lt_eq_lt_dec k i) as [[Hk|Hk]|Hk].
  - rewrite !bool_decide_eq_false_2 by lia. done.
  - subst. rewrite (bool_decide_eq_false_2 (S i <= i)%nat), !bool_decide_eq_true_2, Nat.sub_diag by lia.
    by rewrite orb_false_r.
  - rewrite (bool_decide_eq_false_2 (k = i)), !bool_decide_eq_true_2 by lia. simpl. by apply nz_tail.
Qed.

Lemma encode_loop_spec data : forall i bs bytes0, bytes bs -> (i + length data <= 8 * length bs)%nat ->
  exists bs', encode_loop i data bs bytes0 = Some (bs', bytes0 ++ nonzero data) /\
    bytes bs' /\ length bs' = length bs /\
    forall k, bit bs' k = bit bs k || (bool_decide (i <= k)%nat && nz data (k - i)).
Proof.
  induction data as [|b data IH]; intros i bs bytes0 Hbs Hl; cbn [encode_loop length] in *.
  - exists bs. unfold nonzero. rewrite filter_nil, app_nil_r. do 3 (split; [done|]). intros k.
    rewrite nz_out by (simpl; lia). by rewrite andb_false_r, orb_false_r.
  - destruct (Z.eqb_spec b 0) as [->|Hb].
    + destruct (IH (S i) bs bytes0 Hbs ltac:(lia)) as (bs' & -> & H1 & H2 & H3). exists bs'.
      unfold nonzero at 2. rewrite filter_cons_False by lia. do 3 (split; [done|]). intros k.
      by rewrite H3, nz_step, andb_false_r.
    + assert (i / 8 < length bs)%nat as Hd by (apply Nat.Div0.div_lt_upper_bound; lia).
      destruct (lookup_lt_is_Some_2 bs (i / 8)%nat Hd) as [x Hx]. rewrite Hx, some_bind.
      assert (x = byte_at bs (i / 8)) as -> by (unfold byte_at; by rewrite Hx).
      rewrite store_Some, some_bind by done.
      destruct (IH (S i) (<[(i / 8)%nat := Z.lor (byte_at bs (i / 8)) (mask i)]> bs) (bytes0 ++ [b]))
        as (bs' & -> & H1 & H2 & H3).
      * apply Forall_insert; [done|]. apply lor_byte; [|apply mask_byte]. unfold byte_at. rewrite Hx.
        by apply (Forall_lookup_1 _ _ _ _ Hbs Hx).
      * rewrite length_insert. lia.
      * exists bs'. unfold nonzero at 2. rewrite filter_cons_True, <-app_assoc by done. split; [done|]. split; [done|].
        rewrite length_insert in H2. split; [done|]. intros k. rewrite H3, bit_set, <-orb_assoc by lia. f_equal.
        by rewrite nz_step, (proj2 (Z.eqb_neq b 0)), andb_true_r.
Qed.

(** What the decoding loop leaves behind [pre], [m] free positions. *)
Definition expands (i n : nat) (bs data : list Z) (ptr : nat) (suf : list Z) : Prop :=
  (forall k, (i <= k < i + n)%nat -> bit bs k = nz suf (k - i)) /\
  take (length (nonzero suf)) (drop ptr data) = nonzero suf.

Lemma bit_lookup bs i b : bs !! (i / 8)%nat = Some b -> (Z.land b (mask i) =? 0) = negb (bit bs i).
Proof. intros Hb. rewrite land_mask. unfold bit, byte_at. by rewrite Hb. Qed.

Lemma expands_zero i n bs data ptr suf : bit bs i = false ->
  expands i (S n) bs data ptr (0 :: suf) <-> expands (S i) n bs data ptr suf.
Proof.
  intros Hi. unfold expands, nonzero. rewrite filter_cons_False by lia. split; intros [H1 H2]; (split; [|done]); intros k Hk.
  - rewrite H1 by lia. apply nz_tail. lia.
  - destruct (decide (k = i)) as [->|]; [by rewrite Nat.sub_diag|].
    rewrite H1 by lia. symmetry. apply nz_tail. lia.
Qed.

Lemma expands_some i n bs data ptr x suf : bit bs i = true -> x <> 0 -> data !! ptr = Some x ->
  expands i (S n) bs data ptr (x :: suf) <-> expands (S i) n bs data (S ptr) suf.
Proof.
  intros Hi Hx Hd. unfold expands, nonzero. rewrite filter_cons_True by done. rewrite (drop_S _ _ _ Hd). simpl.
  split; intros [H1 H2]; (split; [intros k Hk|congruence]).
  - rewrite H1 by lia. apply nz_tail. lia.
  - destruct (decide (k = i)) as [->|].
    + rewrite Nat.sub_diag, nz_cons. by rewrite (proj2 (Z.eqb_neq x 0)).
    + rewrite H1 by lia. symmetry. apply nz_tail. lia.
Qed.

Lemma expands_nil i n bs data ptr : bit bs i = false ->
  expands i (S n) bs data ptr [] <-> expands (S i) n bs data ptr [].
Proof.
  intros Hi. unfold expands. split; intros [H1 H2]; (split; [|done]); intros k Hk.
  - by rewrite H1 by lia.
  - destruct (decide (k = i)) as [->|]; [done|]. by rewrite H1 by lia.
Qed.

Lemma expands_head i n bs data ptr suf : expands i (S n) bs data ptr suf -> bit bs i = nz suf 0.
Proof. intros [H _]. rewrite H by lia. by rewrite Nat.sub_diag. Qed.

(** One free position is filled or left at zero. *)
Lemma store_free (pre : list Z) m x i : length pre = i ->
  store (pre ++ replicate (S m) 0) i x = Some ((pre ++ [x]) ++ replicate m 0).
Proof.
  intros <-. rewrite store_Some by (rewrite length_app, length_replicate; lia).
  rewrite insert_app_r_alt, Nat.sub_diag, <-app_assoc by done. done.
Qed.

Lemma nonzero_cons x suf : x <> 0 -> length (nonzero (x :: suf)) = S (length (nonzero suf)).
Proof. intros. unfold nonzero. by rewrite filter_cons_True. Qed.

Lemma expands_cons_true i n bs data ptr suf : bit bs i = true -> expands i (S n) bs data ptr suf ->
  exists x suf', suf = x :: suf' /\ x <> 0 /\ data !! ptr = Some x /\ expands (S i) n bs data (S ptr) suf'.
Proof.
  intros Hi He. pose proof (expands_head _ _ _ _ _ _ He) as Hh. rewrite Hi in Hh.
  destruct suf as [|x suf']; [done|]. rewrite nz_cons in Hh. symmetry in Hh. apply negb_true_iff, Z.eqb_neq in Hh.
  assert (data !! ptr = Some x) as Hd.
  { destruct He as [_ He]. rewrite nonzero_cons in He by done. unfold nonzero in He. rewrite filter_cons_True in He by done.
    rewrite <-(Nat.add_0_r ptr), <-lookup_drop. destruct (drop ptr data); [done|]. by injection He as -> _. }
  exists x, suf'. do 3 (split; [done|]). by apply (expands_some _ _ _ _ _ x).
Qed.

Lemma decode_loop_set n i bs data pre m ptr out p' b : bs !! (i / 8)%nat = Some b -> bit bs i = true ->
  (length pre <= i)%nat -> (m = 0%nat \/ length pre = i) ->
  decode_loop (S n) i bs data (pre ++ replicate m 0) ptr = Ok (out, p') <->
  exists x m', m = S m' /\ data !! ptr = Some x /\ x <> 0 /\
    decode_loop n (S i) bs data ((pre ++ [x]) ++ replicate m' 0) (S ptr) = Ok (out, p').
Proof.
  intros Hb Hi Hp Hpi. cbn [decode_loop]. rewrite Hb, or_panic_bind, (bit_lookup _ _ _ Hb), Hi. cbn [negb].
  rewrite length_app, length_replicate.
  destruct (Nat.leb_spec (length data) ptr) as [Hd|Hd].
  { split; [done|]. intros (x & m' & _ & Hx & _). apply lookup_lt_Some in Hx. lia. }
  rewrite guard_err_pass. destruct (Nat.leb_spec (length pre + m) i) as [Hm|Hm].
  { split; [done|]. intros (x & m' & -> & _). lia. }
  rewrite guard_err_pass. destruct Hpi as [->|Hpi]; [lia|]. destruct m as [|m]; [lia|].
  destruct (lookup_lt_is_Some_2 data ptr Hd) as [x Hx]. rewrite Hx, or_panic_bind.
  destruct (Z.eqb_spec x 0) as [->|Hx0].
  { split; [done|]. by intros (x & m' & _ & [= <-] & ? & _). }
  rewrite guard_err_pass, (store_free _ _ _ _ Hpi), or_panic_bind. split.
  - intros H. by exists x, m.
  - intros (x' & m' & [= <-] & [= <-] & _ & H). done.
Qed.

Lemma decode_loop_clear n i bs data decomp ptr b : bs !! (i / 8)%nat = Some b -> bit bs i = false ->
  decode_loop (S n) i bs data decomp ptr = decode_loop n (S i) bs data decomp ptr.
Proof. intros Hb Hi. cbn [decode_loop]. by rewrite Hb, or_panic_bind, (bit_lookup _ _ _ Hb), Hi. Qed.

(** The loop succeeds exactly with the vector whose non-zero positions are the
    set bits and whose non-zero bytes are the next ones of the input. *)
Lemma decode_loop_iff n : forall i bs data pre m ptr out p',
  (i + n = 8 * length bs)%nat -> (m <= n)%nat -> (length pre <= i)%nat -> (m = 0%nat \/ length pre = i) ->
  decode_loop n i bs data (pre ++ replicate m 0) ptr = Ok (out, p') <->
  exists suf, out = pre ++ suf /\ length suf = m /\ p' = (ptr + length (nonzero suf))%nat /\
    expands i n bs data ptr suf.
Proof.
  induction n as [|n IH]; intros i bs data pre m ptr out p' Hn Hm Hp Hpi.
  - assert (m = 0%nat) as -> by lia. simpl. rewrite app_nil_r. split.
    + intros [= <- <-]. exists []. rewrite app_nil_r, Nat.add_0_r. do 3 (split; [done|]). split; [lia|done].
    + intros (suf & -> & Hs%length_zero_iff_nil & -> & _). subst. by rewrite app_nil_r, Nat.add_0_r.
  - destruct (lookup_lt_is_Some_2 bs (i / 8)%nat) as [b Hb]; [apply Nat.Div0.div_lt_upper_bound; lia|].
    destruct (bit bs i) eqn:Hi.
    + rewrite (decode_loop_set _ _ _ _ _ _ _ _ _ _ Hb Hi Hp Hpi). split.
      * intros (x & m' & -> & Hx & Hx0 & H). apply IH in H; [|rewrite ?length_app; simpl; lia..].
        destruct H as (suf & -> & <- & -> & He). exists (x :: suf). rewrite <-app_assoc, nonzero_cons by done.
        do 2 (split; [done|]). split; [lia|]. by apply (expands_some _ _ _ _ _ x).
      * intros (suf & -> & <- & -> & He).
        destruct (expands_cons_true _ _ _ _ _ _ Hi He) as (x & suf' & -> & Hx0 & Hx & He').
        exists x, (length suf'). do 3 (split; [done|]). simpl in Hm, Hpi. apply IH; [rewrite ?length_app; simpl; lia..|].
        exists suf'. rewrite <-app_assoc, nonzero_cons by done. do 2 (split; [done|]). split; [lia|done].
    + rewrite (decode_loop_clear _ _ _ _ _ _ _ Hb Hi). destruct m as [|m].
      * rewrite IH by lia. split; intros (suf & -> & Hl%length_zero_iff_nil & -> & He); subst; exists [];
          (do 3 (split; [done|])); by apply expands_nil.
      * replace (pre ++ replicate (S m) 0) with ((pre ++ [0]) ++ replicate m 0) by (by rewrite <-app_assoc).
        rewrite IH by (rewrite ?length_app; simpl; lia). split.
        -- intros (suf & -> & <- & -> & He). exists (0 :: suf). rewrite <-app_assoc. do 3 (split; [done|]).
           by apply expands_zero.
        -- intros (suf & -> & Hl & -> & He). destruct suf as [|x suf]; [done|].
           pose proof (expands_head _ _ _ _ _ _ He) as Hh. rewrite Hi, nz_cons in Hh. symmetry in Hh.
           apply negb_false_iff, Z.eqb_eq in Hh as ->. exists suf. rewrite <-app_assoc. split; [done|].
           split; [by injection Hl|]. split; [done|]. by apply expands_zero.
Qed.

Lemma decode_loop_no_panic n : forall i bs data decomp ptr, (i + n = 8 * length bs)%nat ->
  decode_loop n i bs data decomp ptr <> Panic.
Proof.
  induction n as [|n IH]; intros i bs data decomp ptr Hn; [done|]. cbn [decode_loop].
  destruct (lookup_lt_is_Some_2 bs (i / 8)%nat) as [b Hb]; [apply Nat.Div0.div_lt_upper_bound; lia|].
  rewrite Hb, or_panic_bind. case_match; [apply IH; lia|].
  destruct (Nat.leb_spec (length data) ptr) as [Hd|Hd]; [done|]. rewrite guard_err_pass.
  destruct (Nat.leb_spec (length decomp) i) as [Hi|Hi]; [done|]. rewrite guard_err_pass.
  destruct (lookup_lt_is_Some_2 data ptr Hd) as [x ->]. rewrite or_panic_bind.
  destruct (x =? 0); [done|]. rewrite guard_err_pass, store_Some, or_panic_bind by done. apply IH. lia.
Qed.

(** ** Vectors of zeros *)

Lemma nonzero_nil l : nonzero l = [] <-> forall k, nz l k = false.
Proof.
  induction l as [|b l IH].
  - split; [|done]. intros _ k. by apply nz_out; simpl; lia.
  - unfold nonzero in *. rewrite filter_cons. destruct (decide (b <> 0)) as [Hb|Hb].
    + split; [done|]. intros H. specialize (H 0%nat). rewrite nz_cons in H. apply negb_false_iff, Z.eqb_eq in H. lia.
    + rewrite IH. split; intros H k; [rewrite nz_cons|specialize (H (S k)); by rewrite nz_cons in H].
      destruct k; [|done]. apply negb_false_iff, Z.eqb_eq. lia.
Qed.

Lemma nonzero_replicate n : nonzero (replicate n 0) = [].
Proof. unfold nonzero. induction n as [|n IH]; [done|]. simpl replicate. by rewrite filter_cons_False by lia. Qed.

Lemma nonzero_nil_replicate l : nonzero l = [] -> l = replicate (length l) 0.
Proof.
  unfold nonzero. induction l as [|b l IH]; [done|]. rewrite filter_cons.
  destruct (decide (b <> 0)) as [Hb|Hb]; [done|]. intros H. simpl. rewrite <-IH by done. f_equal. lia.
Qed.

Lemma bit_zeros n k : bit (replicate n 0) k = false.
Proof.
  unfold bit, byte_at. destruct (replicate n 0 !! (k / 8)%nat) as [x|] eqn:E; [|apply Z.bits_0].
  apply lookup_replicate in E as [-> _]. apply Z.bits_0.
Qed.

(** [bs] is the bit vector of the non-zero bytes of [data]. *)
Record marks (bs data : list Z) : Prop := mkMarks {
  marks_bytes : bytes bs;
  marks_length : length bs = ((length data + 7) / 8)%nat;
  marks_bits : forall k, bit bs k = nz data k
}.

Lemma marks_unique bs bs' data : marks bs data -> marks bs' data -> bs = bs'.
Proof.
  intros [B1 L1 K1] [B2 L2 K2]. apply bits_ext; [done|done|congruence|]. intros. by rewrite K1, K2.
Qed.

Lemma marks_zero bs data : marks bs data -> nonzero bs = [] <-> nonzero data = [].
Proof.
  intros [B L K]. split.
  - intros H%nonzero_nil_replicate. apply nonzero_nil. intros k. rewrite <-K, H. apply bit_zeros.
  - intros H. pose proof (proj1 (nonzero_nil data) H) as Hz.
    assert (bs = replicate (length bs) 0) as ->; [|apply nonzero_replicate].
    apply bits_ext; [done|apply bytes_replicate_0|by rewrite length_replicate|]. intros i _. by rewrite K, Hz, bit_zeros.
Qed.

Lemma half_lt n : (2 <= n)%nat -> ((n + 7) / 8 < n)%nat.
Proof. intros. apply Nat.Div0.div_lt_upper_bound. lia. Qed.

Lemma half_ge n : (n <= 8 * ((n + 7) / 8))%nat.
Proof. pose proof (Nat.div_mod (n + 7) 8). pose proof (Nat.mod_upper_bound (n + 7) 8). lia. Qed.

(** ** The recursion *)

Lemma encode_step fuel data : (2 <= length data)%nat ->
  exists bs, marks bs data /\
    encode (S fuel) data =
    if decide (nonzero data = []) then Some [] else e ← encode fuel bs; Some (e ++ nonzero data).
Proof.
  intros Hl. destruct (encode_loop_spec data 0 (replicate ((length data + 7) / 8) 0) []) as (bs & E & B & L & K).
  - apply bytes_replicate_0.
  - rewrite length_replicate. apply half_ge.
  - exists bs. rewrite length_replicate in L. split.
    { split; [done..|]. intros k. by rewrite K, bit_zeros, Nat.sub_0_r, bool_decide_eq_true_2 by lia. }
    destruct data as [|b1 [|b2 data]]; [simpl in Hl; lia..|]. cbn [encode]. rewrite E, some_bind. cbn [app].
    destruct (nonzero (b1 :: b2 :: data)); simpl; repeat case_decide; done.
Qed.

Lemma decode_step fuel data target : (2 <= target)%nat -> data <> [] ->
  decode (S fuel) data target =
  ('(bs, ptr) ← decode fuel data ((target + 7) / 8);
   decode_loop (8 * length bs) 0 bs data (replicate target 0) ptr).
Proof.
  intros Ht Hd. cbn [decode]. rewrite decide_False by lia. destruct data; [done|]. by rewrite decide_False by lia.
Qed.

Lemma decode_nil fuel target : decode (S fuel) [] target = Ok (replicate target 0, 0%nat).
Proof. cbn [decode]. case_decide; [by subst|done]. Qed.

Lemma decode_no_panic fuel : forall data target, (target < fuel)%nat -> decode fuel data target <> Panic.
Proof.
  induction fuel as [|fuel IH]; intros data target Hf; [lia|].
  destruct (decide (2 <= target)%nat) as [Ht|Ht], (decide (data = [])) as [->|Hd].
  - cbn [decode]. by case_decide.
  - rewrite decode_step by done. pose proof (half_lt target Ht).
    specialize (IH data ((target + 7) / 8)%nat ltac:(lia)). destruct (decode fuel data _) as [[bs ptr]| |]; [|done..].
    rewrite ok_bind. by apply decode_loop_no_panic.
  - cbn [decode]. by case_decide.
  - cbn [decode]. case_decide; [done|]. destruct data; [done|]. by case_decide; [|lia].
Qed.

(** ** Round trips *)

Lemma encode_small fuel b : encode (S fuel) [b] = Some (if b =? 0 then [] else [b]).
Proof. done. Qed.

Lemma nonzero_single b : nonzero [b] = [] <-> b = 0.
Proof. unfold nonzero. rewrite filter_cons. case_decide; simpl; split; try done; lia. Qed.

Lemma nonzero_bytes l : bytes (nonzero l) <-> bytes l.
Proof.
  unfold bytes, nonzero. induction l as [|b l IH]; [done|]. rewrite filter_cons, Forall_cons.
  case_decide; rewrite ?Forall_cons, IH; [done|]. unfold is_byte. intuition lia.
Qed.

Lemma encode_total fuel : forall data, (length data < fuel)%nat ->
  exists e, encode fuel data = Some e /\ (bytes data -> bytes e) /\ (e = [] <-> nonzero data = []).
Proof.
  induction fuel as [|fuel IH]; intros data Hf; [lia|].
  destruct (decide (2 <= length data)%nat) as [Hl|Hl].
  - destruct (encode_step fuel data Hl) as (bs & M & ->). case_decide as Hz; [exists []; split; [done|]; split; [intros _; apply Forall_nil_2|done]|].
    pose proof (half_lt _ Hl). destruct (IH bs) as (e & -> & Hb & _); [rewrite (marks_length _ _ M); lia|].
    exists (e ++ nonzero data). split; [done|]. split.
    + intros Hd. apply bytes_app. split; [by apply Hb, (marks_bytes _ _ M)|]. by apply nonzero_bytes.
    + split; [|done]. by intros [_ ?]%app_eq_nil.
  - destruct data as [|b [|] ]; [by exists []| |simpl in Hl; lia]. rewrite encode_small. eexists. split; [done|].
    rewrite nonzero_single. destruct (Z.eqb_spec b 0) as [->|]; (split; [|split; done || lia]); [|done].
    intros _. apply Forall_nil_2.
Qed.

Lemma decode_encode fuel : forall data e, (length data < fuel)%nat -> encode fuel data = Some e -> nonzero data <> [] ->
  forall rest fuel', (length data < fuel')%nat -> decode fuel' (e ++ rest) (length data) = Ok (data, length e).
Proof.
  induction fuel as [|fuel IH]; intros data e Hf He Hz rest fuel' Hf'; [lia|]. destruct fuel' as [|fuel']; [lia|].
  destruct (decide (2 <= length data)%nat) as [Hl|Hl].
  - destruct (encode_step fuel data Hl) as (bs & M & Es). rewrite Es, decide_False in He by done.
    pose proof (half_lt _ Hl). pose proof (half_ge (length data)). pose proof (marks_length _ _ M) as Lb.
    destruct (encode fuel bs) as [e0|] eqn:E0; [|done]. injection He as <-. rewrite <-app_assoc.
    rewrite decode_step by (done || (destruct e0, (nonzero data); done)).
    rewrite <-Lb, (IH bs e0); [|lia|done|by rewrite (marks_zero _ _ M)|lia].
    rewrite ok_bind, length_app. apply (decode_loop_iff _ 0 bs _ []); [lia|lia|simpl; lia|by right|].
    exists data. do 3 (split; [done|]). split.
    + intros k _. by rewrite (marks_bits _ _ M), Nat.sub_0_r.
    + by rewrite drop_app_length, take_app_length.
  - destruct data as [|b [|]]; [done| |simpl in Hl; lia]. rewrite nonzero_single in Hz.
    rewrite encode_small, (proj2 (Z.eqb_neq b 0)) in He by done. injection He as <-. simpl.
    by rewrite (proj2 (Z.eqb_neq b 0)).
Qed.

(** What decoding accepts is the encoding of what it returns. *)
Lemma encode_decode fuel : forall data target out size, (target < fuel)%nat -> bytes data ->
  decode fuel data target = Ok (out, size) ->
  length out = target /\ bytes out /\ (size <= length data)%nat /\
  forall fuel', (target < fuel')%nat -> encode fuel' out = Some (take size data).
Proof.
  induction fuel as [|fuel IH]; intros data target out size Hf Hb He; [lia|].
  destruct (decide (target = 0%nat)) as [->|Ht0]; [|destruct (decide (data = [])) as [->|Hd];
    [|destruct (decide (target = 1%nat)) as [->|Ht1] ] ].
  - injection He as <- <-. split; [done|]. split; [apply Forall_nil_2|]. split; [lia|]. by intros [|fuel'] ?; [lia|].
  - cbn [decode] in He. rewrite decide_False in He by done. injection He as <- <-.
    rewrite length_replicate. split; [done|]. split; [apply bytes_replicate_0|]. split; [simpl; lia|].
    intros fuel' Hf'. destruct (encode_total fuel' (replicate target 0)) as (e & -> & _ & Hez); [by rewrite length_replicate|].
    f_equal. simpl. by apply Hez, nonzero_replicate.
  - cbn [decode] in He. rewrite decide_False in He by done. destruct data as [|b data]; [done|].
    apply Forall_cons in Hb as [Hb _]. injection He as <- <-. split; [done|]. split; [by apply Forall_singleton|].
    destruct (Z.eqb_spec b 0) as [->|Hb0]; (split; [simpl; lia|]); intros [|fuel'] ?; try lia; [done|].
    by rewrite encode_small, (proj2 (Z.eqb_neq b 0)).
  - assert (2 <= target)%nat as Ht by lia. rewrite decode_step in He by done. pose proof (half_lt target Ht). pose proof (half_ge target).
    destruct (decode fuel data _) as [[bs ptr]| |] eqn:Ed; [|done..]. rewrite ok_bind in He.
    destruct (IH data ((target + 7) / 8)%nat bs ptr ltac:(lia) Hb Ed) as (Lb & Bb & Hp & Eb).
    apply (decode_loop_iff _ 0 bs _ []) in He; [|lia|lia|simpl; lia|by right].
    destruct He as (suf & -> & Hl & -> & [Hk Hn]). cbn [app].
    assert (marks bs suf) as M.
    { split; [done|congruence|]. intros k. destruct (decide (k < 8 * length bs)%nat).
      - rewrite Hk, Nat.sub_0_r by lia. done.
      - by rewrite bit_out, nz_out by lia. }
    assert (length (nonzero suf) <= length (drop ptr data))%nat as Hln by (rewrite <-Hn at 1; rewrite length_take; lia).
    rewrite length_drop in Hln. split; [done|]. split; [|split; [lia|]].
    + apply nonzero_bytes. rewrite <-Hn. by apply bytes_take, bytes_drop.
    + intros fuel' Hf'. destruct fuel' as [|fuel']; [lia|]. destruct (encode_step fuel' suf) as (bs' & M' & ->); [lia|].
      rewrite (marks_unique _ _ _ M' M), Eb by lia. case_decide as Hz.
      * specialize (Eb (S (length bs)) ltac:(lia)). destruct (encode_total (S (length bs)) bs) as (e & Ee & _ & Hez); [lia|].
        rewrite Eb in Ee. injection Ee as Ee. rewrite Hz, Nat.add_0_r, Ee. f_equal. symmetry. by apply Hez, (marks_zero _ _ M).
      * simpl. f_equal. by rewrite <-take_take_drop, Hn.
Qed.

Lemma bitsetEncodeBytes_total data : is_Some (bitsetEncodeBytes data).
Proof. destruct (encode_total (S (length data)) data) as (e & He & _); [lia|]. by exists e. Qed.

(** Decoding accepts exactly the encodings, each for the data it encodes. *)
Lemma bitsetDecodeBytes_iff data target out : bytes data ->
  bitsetDecodeBytes data target = Ok out <-> length out = target /\ bitsetEncodeBytes out = Some data.
Proof.
  intros Hb. unfold bitsetDecodeBytes, bitsetDecodePartialBytes, bitsetEncodeBytes. split.
  - destruct (decode _ data target) as [[o size]| |] eqn:Ed; [|done..]. rewrite ok_bind.
    destruct (encode_decode _ _ _ _ _ (Nat.lt_succ_diag_r target) Hb Ed) as (Hl & _ & Hs & He).
    case_bool_decide as Hsz; [|done]. intros [= ->]. split; [done|]. rewrite He by lia. by rewrite Hsz, firstn_all.
  - intros [<- He]. destruct (decide (nonzero out = [])) as [Hz|Hz].
    + destruct (encode_total (S (length out)) out) as (e & Ee & _ & Hez); [lia|].
      rewrite He in Ee. injection Ee as <-. rewrite (proj2 Hez Hz), decode_nil, ok_bind. simpl.
      f_equal. symmetry. by apply nonzero_nil_replicate.
    + pose proof (decode_encode _ _ _ (Nat.lt_succ_diag_r _) He Hz [] _ (Nat.lt_succ_diag_r _)) as Hd.
      rewrite app_nil_r in Hd. rewrite Hd, ok_bind. by rewrite bool_decide_eq_true_2.
Qed.

(** C26: [DecompressBytes] returns exactly the data it was given when that has
    the target size, and otherwise exactly the vector of the target size whose
    compressed form it was given: every other input is an error, no shorter
    input is accepted for two vectors or two inputs for one vector, and
    nothing panics. *)
Theorem DecompressBytes_exact data target out : bytes data ->
  (DecompressBytes data target = Ok out <->
   Z.of_nat (length out) = target /\
   (out = data \/ (length data < length out)%nat /\ bitsetEncodeBytes out = Some data)) /\
  DecompressBytes data target <> Panic.
Proof.
  intros Hb. unfold DecompressBytes. destruct (Z.ltb_spec target (Z.of_nat (length data))) as [Hl|Hl].
  - split; [|done]. split; [done|]. intros [<- [-> | [? _] ] ]; lia.
  - rewrite guard_err_pass. destruct (Z.eqb_spec (Z.of_nat (length data)) target) as [<-|Hne].
    + split; [|done]. split; [intros [= ->]; auto|]. intros [Ho [-> | [? _] ] ]; [done|lia].
    + rewrite (bitsetDecodeBytes_iff _ _ _ Hb). split.
      * split; [intros [Ho He]; split; [lia|right; split; [lia|done]]|].
        intros [Ho [-> | [_ He] ] ]; [lia|]. split; [lia|done].
      * unfold bitsetDecodeBytes, bitsetDecodePartialBytes.
        pose proof (decode_no_panic (S (Z.to_nat target)) data _ (Nat.lt_succ_diag_r _)) as Hp.
        destruct (decode _ data _) as [ [o size]| |]; [|done..]. rewrite ok_bind. by case_bool_decide.
Qed.

Lemma DecompressBytes_exact_witness :
  DecompressBytes [128; 32; 7] 20 = Ok (replicate 2 0 ++ 7 :: replicate 17 0) /\ DecompressBytes [128; 32; 7] 20 <> Panic.
Proof.
  destruct (DecompressBytes_exact [128; 32; 7] 20 (replicate 2 0 ++ 7 :: replicate 17 0)) as [H1 H2].
  - repeat (constructor; [vm_compute; intuition discriminate|]). constructor.
  - split; [|exact H2]. apply H1. split; [reflexivity|]. right. split; [simpl; lia|vm_compute; reflexivity].
Defined.

(** Compression never makes the data longer, and decompression to the
    original size restores it. *)
Theorem CompressBytes_roundtrip data : bytes data ->
  exists c, CompressBytes data = Some c /\ bytes c /\ (length c <= length data)%nat /\
    DecompressBytes c (Z.of_nat (length data)) = Ok data.
Proof.
  intros Hb. unfold CompressBytes, DecompressBytes.
  destruct (encode_total (S (length data)) data) as (e & He & Heb & _); [lia|].
  unfold bitsetEncodeBytes. rewrite He, some_bind. case_decide as Hl; eexists; (split; [done|]).
  - split; [by apply Heb|]. split; [lia|]. rewrite (proj2 (Z.ltb_ge _ _)), guard_err_pass by lia.
    rewrite (proj2 (Z.eqb_neq _ _)), Nat2Z.id by lia. by apply bitsetDecodeBytes_iff; [apply Heb|].
  - split; [done|]. split; [done|]. by rewrite (proj2 (Z.ltb_ge _ _)), guard_err_pass, Z.eqb_refl by lia.
Qed.

Lemma CompressBytes_roundtrip_witness :
  exists c, CompressBytes [0; 0; 5; 0; 0; 0; 0; 9; 0; 0] = Some c /\
    DecompressBytes c 10 = Ok [0; 0; 5; 0; 0; 0; 0; 9; 0; 0].
Proof.
  destruct (CompressBytes_roundtrip [0; 0; 5; 0; 0; 0; 0; 9; 0; 0]) as (c & H1 & _ & _ & H2).
  - repeat (constructor; [vm_compute; intuition discriminate|]). constructor.
  - exists c. split; [exact H1|exact H2].
Defined.

(** ** bitutil.go *)

(** The loop over the bytes [i .. i+k); [len] is the length of the destination,
    [mem] the memory from its first byte on. *)
Definition byte_loop (op : Z -> Z -> Z) (len i k : nat) (a b mem : list Z) : option (list Z) :=
  for_up i k (fun i mem =>
    x ← a !! i;
    y ← b !! i;
    if decide (i < len)%nat then store mem i (op x y) else None) mem.

Definition min_len (a b : list Z) : nat :=
  let n := length a in if decide (length b < n)%nat then length b else n.

Definition safe_bytes (op : Z -> Z -> Z) (len : nat) (mem a b : list Z) : option (list Z * nat) :=
  let n := min_len a b in
  mem ← byte_loop op len 0 n a b mem;
  Some (mem, n).

Section Words.
Context (wordSize : nat).

(** Word [i] of a byte slice that is viewed as a slice of words: the index is
    checked against the number of bytes. *)
Definition word_at (l : list Z) (i : nat) : option Z :=
  if decide (i < length l)%nat then Some (le_get (take wordSize (drop (wordSize * i) l))) else None.

(** A write through the view; beyond the memory it is a fault. *)
Definition put_word (len : nat) (mem : list Z) (i : nat) (w : Z) : option (list Z) :=
  if decide (i < len /\ wordSize * i + wordSize <= length mem)%nat
  then Some (memcpy mem (wordSize * i) (le_put wordSize w)) else None.

Definition word_loop (op : Z -> Z -> Z) (len w : nat) (a b mem : list Z) : option (list Z) :=
  for_up 0 w (fun i mem =>
    x ← word_at a i;
    y ← word_at b i;
    put_word len mem i (op x y)) mem.

Definition fast_bytes (op : Z -> Z -> Z) (len : nat) (mem a b : list Z) : option (list Z * nat) :=
  let n := min_len a b in
  let w := (n / wordSize)%nat in
  mem ← (if decide (0 < w)%nat then word_loop op len w a b mem else Some mem);
  mem ← byte_loop op len (n - n mod wordSize) (n mod wordSize) a b mem;
  Some (mem, n).

Definition safeXORBytes := safe_bytes Z.lxor.
Definition fastXORBytes := fast_bytes Z.lxor.
Definition safeANDBytes := safe_bytes Z.land.
Definition fastANDBytes := fast_bytes Z.land.
Definition safeORBytes := safe_bytes Z.lor.
Definition fastORBytes := fast_bytes Z.lor.

(** The loop [for i < n { if p[i] != 0 { return true } }] over [k] elements. *)
Fixpoint any_set (p : nat -> option Z) (i k : nat) : option bool :=
  match k with
  | O => Some false
  | S k' => x ← p i; if x =? 0 then any_set p (S i) k' else Some true
  end.

Definition safeTestBytes (p : list Z) : option bool := any_set (fun i => p !! i) 0 (length p).

Definition fastTestBytes (p : list Z) : option bool :=
  let n := length p in
  let w := (n / wordSize)%nat in
  r ← (if decide (0 < w)%nat then any_set (word_at p) 0 w else Some false);
  if r : bool then Some true
  else any_set (fun i => p !! i) (n - n mod wordSize) (n mod wordSize).

(** The constant [supportsUnaligned] of the architecture selects the version. *)
Definition XORBytes (supportsUnaligned : bool) := if supportsUnaligned then fastXORBytes else safeXORBytes.
Definition ANDBytes (supportsUnaligned : bool) := if supportsUnaligned then fastANDBytes else safeANDBytes.
Definition ORBytes (supportsUnaligned : bool) := if supportsUnaligned then fastORBytes else safeORBytes.
Definition TestBytes (supportsUnaligned : bool) := if supportsUnaligned then fastTestBytes else safeTestBytes.
End Words.

(** *** Words of bytes *)

(** An operation that works on each bit. *)
Definition bitwise (op : Z -> Z -> Z) : Prop :=
  exists f, f false false = false /\
    (forall a b i, 0 <= i -> Z.testbit (op a b) i = f (Z.testbit a i) (Z.testbit b i)) /\
    (forall a b, 0 <= a -> 0 <= b -> 0 <= op a b).

Lemma bitwise_xor : bitwise Z.lxor.
Proof. exists xorb. split; [done|]. split; [intros; apply Z.lxor_spec|]. intros. by apply Z.lxor_nonneg. Qed.

Lemma bitwise_and : bitwise Z.land.
Proof. exists andb. split; [done|]. split; [intros; apply Z.land_spec|]. intros. apply Z.land_nonneg. auto. Qed.

Lemma bitwise_or : bitwise Z.lor.
Proof. exists orb. split; [done|]. split; [intros; apply Z.lor_spec|]. intros. by apply Z.lor_nonneg. Qed.

Lemma cat_bits x r i : is_byte x -> 0 <= i ->
  Z.testbit (x + 256 * r) i = if i <? 8 then Z.testbit x i else Z.testbit r (i - 8).
Proof.
  intros Hx Hi. change 256 with (2 ^ 8). destruct (Z.ltb_spec i 8).
  - rewrite <-(Z.mod_pow2_bits_low (x + 2 ^ 8 * r) 8) by lia. f_equal.
    rewrite Z.mul_comm, Z_mod_plus_full. apply Z.mod_small. apply Hx.
  - replace i with ((i - 8) + 8) at 1 by lia. rewrite <-Z.div_pow2_bits by lia. f_equal.
    rewrite Z.mul_comm, Z.div_add, Z.div_small by (done || apply Hx). lia.
Qed.

Lemma bitwise_byte op x y : bitwise op -> is_byte x -> is_byte y -> is_byte (op x y).
Proof.
  intros (f & Hf & Hb & Hn) Hx Hy. apply (is_uint_bits 8 _ ltac:(lia)) in Hx as [Hx0 Hx], Hy as [Hy0 Hy].
  apply (is_uint_bits 8 _ ltac:(lia)). split; [auto|]. intros i Hi. by rewrite Hb, Hx, Hy by lia.
Qed.

Lemma bitwise_cat op x y r s : bitwise op -> is_byte x -> is_byte y ->
  op (x + 256 * r) (y + 256 * s) = op x y + 256 * op r s.
Proof.
  intros Hop Hx Hy. pose proof (bitwise_byte _ _ _ Hop Hx Hy) as Hxy. destruct Hop as (f & Hf & Hb & Hn).
  apply Z.bits_inj'. intros i Hi. rewrite Hb, !cat_bits by done. case_match eqn:E; [by rewrite Hb|].
  apply Z.ltb_ge in E. by rewrite Hb by lia.
Qed.

Lemma le_put_op op xs : bitwise op -> forall ys, bytes xs -> bytes ys -> length ys = length xs ->
  le_put (length xs) (op (le_get xs) (le_get ys)) = zip_with op xs ys.
Proof.
  intros Hop. induction xs as [|x xs IH]; intros [|y ys] Hx Hy Hl; simpl in *; try done.
  apply Forall_cons in Hx as [Hx Hxs], Hy as [Hy Hys]. rewrite bitwise_cat by done.
  pose proof (bitwise_byte _ _ _ Hop Hx Hy) as Hxy. f_equal.
  - rewrite Z.mul_comm, Z_mod_plus_full. apply Z.mod_small. apply Hxy.
  - rewrite Z.mul_comm, Z.div_add, Z.div_small, Z.add_0_l by (done || apply Hxy). apply IH; [done|done|lia].
Qed.

Lemma le_get_zero l : bytes l -> (le_get l =? 0) = bool_decide (nonzero l = []).
Proof.
  intros Hb. assert (0 <= le_get l /\ (le_get l = 0 <-> nonzero l = [])) as [_ H].
  { induction l as [|b l IH]; [done|]. apply Forall_cons in Hb as [Hb Hl]. destruct (IH Hl) as [IH0 IH1].
    unfold nonzero. rewrite filter_cons. simpl. unfold is_byte in Hb. split; [lia|].
    case_decide; (split; [|intros E]); [lia|done|intros E; apply IH1; lia|apply IH1 in E; lia]. }
  case_bool_decide; [by apply Z.eqb_eq, H|]. apply Z.eqb_neq. by rewrite H.
Qed.

(** *** The loops over bytes and words *)

Lemma min_len_result (op : Z -> Z -> Z) (a b : list Z) : min_len a b = length (zip_with op a b).
Proof. unfold min_len. rewrite length_zip_with. case_decide; lia. Qed.

Section Bulk.
Context (op : Z -> Z -> Z) (len : nat) (mem a b : list Z).

Local Notation result := (zip_with op a b).

(** The memory once the first [i] bytes are written. *)
Definition upto (i : nat) : list Z := take i result ++ drop i mem.

Lemma length_upto i : (i <= length result <= length mem)%nat -> length (upto i) = length mem.
Proof. intros. unfold upto. rewrite length_app, length_take, length_drop. lia. Qed.

Lemma upto_write i k : (i + k <= length result <= length mem)%nat ->
  memcpy (upto i) i (take k (drop i result)) = upto (i + k).
Proof.
  intros Hi. unfold memcpy, upto.
  assert (length (take i result) = i) as Ht by (rewrite length_take; lia).
  assert (length (take k (drop i result)) = k) as Hk by (rewrite length_take, length_drop; lia).
  rewrite take_app_le, take_take, Nat.min_id, Hk by lia. rewrite drop_app_ge, Ht, drop_drop by lia.
  rewrite app_assoc, take_take_drop. do 2 f_equal. lia.
Qed.

Lemma byte_loop_writes i k : (i + k <= length result <= length mem)%nat -> (i + k <= len)%nat ->
  byte_loop op len i k a b (upto i) = Some (upto (i + k)).
Proof.
  intros Hi Hl. unfold byte_loop.
  edestruct (for_up_inv (fun j m => m = upto j)) as (m & -> & ->); [done| |done].
  intros j m Hj ->. cbv beta. pose proof (length_zip_with op a b).
  destruct (lookup_lt_is_Some_2 a j ltac:(lia)) as [x Hx]. destruct (lookup_lt_is_Some_2 b j ltac:(lia)) as [y Hy].
  rewrite Hx, Hy, !some_bind, decide_True by lia. rewrite store_Some by (rewrite length_upto; lia).
  eexists. split; [done|].
  assert (drop j result = op x y :: drop (S j) result) as Hd.
  { apply drop_S. rewrite lookup_zip_with, Hx. simpl. by rewrite Hy. }
  rewrite <-(Nat.add_1_r j), <-upto_write, Hd by lia. unfold memcpy. simpl.
  rewrite insert_take_drop by (rewrite length_upto; lia). by rewrite Nat.add_1_r.
Qed.

Lemma safe_bytes_writes : (min_len a b <= len)%nat -> (len <= length mem)%nat ->
  safe_bytes op len mem a b = Some (upto (min_len a b), min_len a b).
Proof.
  rewrite (min_len_result op). intros Hl Hm. unfold safe_bytes. rewrite (min_len_result op).
  change mem with (upto 0) at 1. by rewrite byte_loop_writes, some_bind by lia.
Qed.

Lemma safe_bytes_panics : (len < min_len a b)%nat -> safe_bytes op len mem a b = None.
Proof.
  intros Hl. unfold safe_bytes, byte_loop. rewrite (for_up_None _ _ _ len); [done|lia|].
  intros m. cbv beta. destruct (a !! len); [|done]. destruct (b !! len); [|done].
  by rewrite !some_bind, decide_False by lia.
Qed.

Context (Hop : bitwise op) (Ha : bytes a) (Hb : bytes b) (wordSize : nat) (Hw : (0 < wordSize)%nat).

Lemma word_loop_writes w : (wordSize * w <= length result <= length mem)%nat -> (w <= len)%nat ->
  word_loop wordSize op len w a b (upto 0) = Some (upto (wordSize * w)).
Proof.
  intros Hi Hl. unfold word_loop.
  edestruct (for_up_inv (fun j m => m = upto (wordSize * j))) as (m & -> & ->); [by rewrite Nat.mul_0_r| |done].
  intros j m Hj ->. cbv beta. pose proof (length_zip_with op a b) as Hz. assert (wordSize * j + wordSize <= wordSize * w)%nat by nia.
  unfold word_at. rewrite !decide_True, !some_bind by nia. unfold put_word.
  rewrite decide_True by (rewrite length_upto; nia). eexists. split; [done|].
  replace (wordSize * S j)%nat with (wordSize * j + wordSize)%nat by lia. rewrite <-upto_write by lia. f_equal.
  assert (length (take wordSize (drop (wordSize * j) a)) = wordSize) as La by (rewrite length_take, length_drop; lia).
  rewrite <-La at 1. rewrite le_put_op; [|done|by apply bytes_take, bytes_drop..|rewrite La, length_take, length_drop; lia].
  by rewrite zip_with_drop, zip_with_take.
Qed.

Lemma fast_bytes_writes : (min_len a b <= length mem)%nat -> (min_len a b / wordSize <= len)%nat ->
  ((min_len a b mod wordSize)%nat = 0%nat \/ (min_len a b <= len)%nat) ->
  fast_bytes wordSize op len mem a b = Some (upto (min_len a b), min_len a b).
Proof.
  unfold fast_bytes. rewrite (min_len_result op). set (n := length result). intros Hm Hl Hn.
  pose proof (Nat.div_mod n wordSize ltac:(lia)) as Hd. pose proof (Nat.mod_upper_bound n wordSize ltac:(lia)).
  assert ((if decide (0 < n / wordSize)%nat then word_loop wordSize op len (n / wordSize) a b mem else Some mem) =
    Some (upto (wordSize * (n / wordSize)))) as ->.
  { case_decide; [|by replace (n / wordSize)%nat with 0%nat by lia; rewrite Nat.mul_0_r].
    change mem with (upto 0) at 1. apply word_loop_writes; lia. }
  rewrite some_bind. replace (n - n mod wordSize)%nat with (wordSize * (n / wordSize))%nat by lia.
  destruct Hn as [Hn|Hn].
  - rewrite Hn. simpl. replace (wordSize * (n / wordSize))%nat with n by lia. done.
  - rewrite byte_loop_writes, some_bind by lia. do 2 f_equal. by rewrite <-Hd.
Qed.
End Bulk.

(** Where the destination holds the result, the word-wise operations do
    what the byte-wise ones do, for any word size: the result is the operation
    on each pair of bytes and the memory behind it is untouched.  Where it is
    too short by whole words, the byte-wise operation panics and the word-wise
    one writes on behind the destination, up to as many words as the
    destination has bytes. *)
Theorem bulk_operations wordSize op len mem a b :
  op ∈ [Z.lxor; Z.land; Z.lor] -> (0 < wordSize)%nat -> bytes a -> bytes b -> (len <= length mem)%nat ->
  let n := min_len a b in
  let written := zip_with op a b ++ drop n mem in
  ((n <= len)%nat -> safe_bytes op len mem a b = Some (written, n) /\ fast_bytes wordSize op len mem a b = Some (written, n)) /\
  ((len < n)%nat -> safe_bytes op len mem a b = None /\
     ((n <= length mem)%nat -> (n / wordSize <= len)%nat -> (n mod wordSize)%nat = 0%nat ->
      fast_bytes wordSize op len mem a b = Some (written, n))).
Proof.
  intros Ho Hw Ha Hb Hm n written. assert (bitwise op) as Hop.
  { rewrite !elem_of_cons, elem_of_nil in Ho.
    destruct Ho as [->|[->|[->|[] ] ] ]; [apply bitwise_xor|apply bitwise_and|apply bitwise_or]. }
  assert (upto op mem a b n = written) as <-.
  { unfold upto, written. f_equal. apply take_ge. unfold n. by rewrite <-(min_len_result op a b). }
  split.
  - intros Hl. split; [by apply safe_bytes_writes|]. apply fast_bytes_writes; try done; [fold n; lia| |by right].
    fold n. transitivity n; [apply Nat.Div0.div_le_upper_bound; nia|done].
  - intros Hl. split; [by apply safe_bytes_panics|]. intros. apply fast_bytes_writes; try done. by left.
Qed.

Lemma bulk_operations_witness :
  fastXORBytes 8 1 [9; 0; 0; 0; 0; 0; 0; 0; 7] [1; 2; 3; 4; 5; 6; 7; 8] [1; 1; 1; 1; 1; 1; 1; 1] =
    Some ([0; 3; 2; 5; 4; 7; 6; 9; 7], 8%nat) /\
  safeXORBytes 1 [9; 0; 0; 0; 0; 0; 0; 0; 7] [1; 2; 3; 4; 5; 6; 7; 8] [1; 1; 1; 1; 1; 1; 1; 1] = None.
Proof.
  destruct (bulk_operations 8 Z.lxor 1 [9; 0; 0; 0; 0; 0; 0; 0; 7] [1; 2; 3; 4; 5; 6; 7; 8] [1; 1; 1; 1; 1; 1; 1; 1])
    as [_ H].
  - left.
  - lia.
  - repeat (constructor; [vm_compute; intuition discriminate|]). constructor.
  - repeat (constructor; [vm_compute; intuition discriminate|]). constructor.
  - simpl. lia.
  - destruct H as [H1 H2]; [vm_compute; lia|]. split; [|exact H1].
    apply H2; [vm_compute; lia|vm_compute; lia|reflexivity].
Defined.

(** *** Testing for set bits *)

Lemma any_set_bytes p i k : (i + k <= length p)%nat ->
  any_set (fun i => p !! i) i k = Some (bool_decide (nonzero (take k (drop i p)) <> [])).
Proof.
  revert i. induction k as [|k IH]; intros i Hi; [done|]. simpl any_set.
  destruct (lookup_lt_is_Some_2 p i ltac:(lia)) as [x Hx]. rewrite Hx, some_bind, (drop_S _ _ _ Hx). simpl take.
  unfold nonzero. rewrite filter_cons. destruct (Z.eqb_spec x 0) as [->|Hx0].
  - rewrite decide_False by lia. apply IH. lia.
  - by rewrite decide_True, bool_decide_eq_true_2.
Qed.

Lemma nonzero_app l k : nonzero (l ++ k) = nonzero l ++ nonzero k.
Proof. apply filter_app. Qed.

Lemma any_set_words wordSize p i k : (0 < wordSize)%nat -> bytes p -> (wordSize * (i + k) <= length p)%nat ->
  any_set (word_at wordSize p) i k =
  Some (bool_decide (nonzero (take (wordSize * k) (drop (wordSize * i) p)) <> [])).
Proof.
  intros Hw Hp. revert i. induction k as [|k IH]; intros i Hi; [by rewrite Nat.mul_0_r|]. cbn [any_set].
  assert (word_at wordSize p i = Some (le_get (take wordSize (drop (wordSize * i) p)))) as ->
    by (unfold word_at; by rewrite decide_True by nia).
  rewrite some_bind. rewrite le_get_zero by (by apply bytes_take, bytes_drop).
  rewrite IH by lia. replace (wordSize * S k)%nat with (wordSize + wordSize * k)%nat by lia.
  rewrite <-take_take_drop, drop_drop, nonzero_app.
  replace (wordSize * i + wordSize)%nat with (wordSize * S i)%nat by lia.
  case_bool_decide as E; [by rewrite E|]. symmetry. f_equal. apply bool_decide_eq_true. by intros [? _]%app_eq_nil.
Qed.

(** Both versions of [TestBytes] say whether a byte is not zero. *)
Theorem TestBytes_correct unaligned wordSize p : (0 < wordSize)%nat -> bytes p ->
  TestBytes wordSize unaligned p = Some (bool_decide (Exists (fun x => x <> 0) p)).
Proof.
  intros Hw Hp.
  assert (bool_decide (Exists (fun x => x <> 0) p) = bool_decide (nonzero p <> [])) as ->.
  { apply bool_decide_ext. unfold nonzero. induction p as [|x p IH]; [by rewrite Exists_nil; split|].
    apply Forall_cons in Hp as [_ Hp]. rewrite Exists_cons, filter_cons, IH by done. case_decide; naive_solver. }
  destruct unaligned; cbn [TestBytes].
  2:{ unfold safeTestBytes. rewrite any_set_bytes by lia. by rewrite drop_0, firstn_all. }
  unfold fastTestBytes. set (n := length p). pose proof (Nat.div_mod n wordSize ltac:(lia)) as Hd.
  pose proof (Nat.mod_upper_bound n wordSize ltac:(lia)).
  assert ((if decide (0 < n / wordSize)%nat then any_set (word_at wordSize p) 0 (n / wordSize) else Some false) =
    Some (bool_decide (nonzero (take (wordSize * (n / wordSize)) p) <> []))) as ->.
  { case_decide; [by rewrite any_set_words, Nat.mul_0_r, drop_0 by (done || lia)|].
    replace (n / wordSize)%nat with 0%nat by lia. by rewrite Nat.mul_0_r. }
  rewrite some_bind. replace (n - n mod wordSize)%nat with (wordSize * (n / wordSize))%nat by lia.
  rewrite any_set_bytes by (fold n; lia).
  assert (nonzero p = nonzero (take (wordSize * (n / wordSize)) p) ++ nonzero (drop (wordSize * (n / wordSize)) p)) as ->
    by (by rewrite <-nonzero_app, take_drop).
  rewrite (take_ge (drop _ p)) by (rewrite length_drop; fold n; lia).
  case_bool_decide as E1; f_equal; symmetry; [apply bool_decide_eq_true; by intros [? _]%app_eq_nil|].
  by rewrite E1.
Qed.

Lemma TestBytes_correct_witness : TestBytes 8 true [0; 0; 0; 0; 0; 0; 0; 0; 0; 3] = Some true.
Proof.
  rewrite (TestBytes_correct true 8 [0; 0; 0; 0; 0; 0; 0; 0; 0; 3]).
  - reflexivity.
  - lia.
  - repeat (constructor; [vm_compute; intuition discriminate|]). constructor.
Defined.
