(* ===== verification/TxSigning.v ===== *)
(** * Transaction signatures (src/core/types/transaction_signing.go)

    The three signers, the recovery of the sender and its cache.  The type of
    transactions is declared in a file that is not among the sources: the
    fields are those the signers and the JSON codec use, and [Protected] and
    [ChainId] are parameters.  The recovery of public keys is a C library. *)
From S2P Require Import Vm VmMath VmPrecompiles Prelude Sha3 Types Rlp StateCodec HeaderHash Clique.

Inductive error := ErrInvalidChainId | ErrInvalidSig | errInvalidPublicKey | errEcrecover.

Record txdata := mkTxdata {
  AccountNonce : Z;
  Price : option Z;
  TxGasLimit : option Z;
  Recipient : option Address;
  Amount : option Z;
  Fee : option Z;
  Payload : list Z;
  data_V : option Z;
  data_R : option Z;
  data_S : option Z
}.

(** ** Signers *)

Inductive Signer :=
  | EIP155Signer (chainId chainIdMul : Z)
  | HomesteadSigner
  | FrontierSigner.

Definition NewEIP155Signer (chainId : option Z) : Signer :=
  let chainId := default 0 chainId in EIP155Signer chainId (chainId * 2).

(** [params.ChainConfig] as far as the choice of the signer needs it. *)
Record SignerConfig := mkSignerConfig {
  sc_ChainId : option Z; sc_HomesteadBlock : option Z; sc_EIP155Block : option Z
}.

Definition MakeSigner (config : SignerConfig) (blockNumber : option Z) : Signer :=
  if isForked (sc_EIP155Block config) blockNumber then NewEIP155Signer (sc_ChainId config)
  else if isForked (sc_HomesteadBlock config) blockNumber then HomesteadSigner
  else FrontierSigner.

(** [s.Equal(s2)] *)
Definition signer_Equal (s s2 : Signer) : bool :=
  match s, s2 with
  | EIP155Signer c _, EIP155Signer c2 _ => c2 =? c
  | HomesteadSigner, HomesteadSigner => true
  | FrontierSigner, FrontierSigner => true
  | _, _ => false
  end.

Definition recipient_value (r : option Address) : value :=
  match r with Some a => VBytes a | None => VNilPtr NilByteArray end.

Definition signed_fields (t : txdata) : list value :=
  [VUint (AccountNonce t); VBig (Price t); VBig (TxGasLimit t); recipient_value (Recipient t);
   VBig (Amount t); VBig (Fee t); VBytes (Payload t)].

Definition signer_Hash (s : Signer) (t : txdata) : option Hash :=
  match s with
  | EIP155Signer chainId _ => rlpHash (VList (signed_fields t ++ [VBig (Some chainId); VUint 0; VUint 0]))
  | _ => rlpHash (VList (signed_fields t))
  end.

(** [SignatureValues]: R, S and V; a signature of the wrong size panics. *)
Definition frontier_SignatureValues (sig : list Z) : option (Z * Z * Z) :=
  if decide (length sig = 65%nat) then
    v ← sig !! 64%nat;
    Some (be_get (take 32 sig), be_get (take 32 (drop 32 sig)), be_get [u8 (v + 27)])
  else None.

Definition SignatureValues (s : Signer) (sig : list Z) : option (Z * Z * Z) :=
  match s with
  | EIP155Signer chainId chainIdMul =>
      '(r, s, v) ← frontier_SignatureValues sig;
      if chainId =? 0 then Some (r, s, v)
      else v ← sig !! 64%nat; Some (r, s, u8 (v + 35) + chainIdMul)
  | _ => frontier_SignatureValues sig
  end.

Definition deriveChainId (v : Z) : Z :=
  if BitLen v <=? 64 then
    let v := big_Uint64 v in
    if (v =? 27) || (v =? 28) then 0 else u64 (v - 35) / 2
  else (v - 35) / 2.

(** ** The sender *)

Section Sender.
Context `{AddressSize}.
Context (Ecrecover : list Z -> list Z -> option (list Z)).
(** Methods of the transaction type. *)
Context (Protected : txdata -> bool) (ChainId : txdata -> Z).

(** [copy(sig[end-len(b):end], b)] *)
Definition put_right (sig : list Z) (stop : nat) (b : list Z) : option (list Z) :=
  if decide (length b <= stop)%nat then Some (memcpy sig (stop - length b) b) else None.

(** The signature in the uncompressed format. *)
Definition signature_bytes (r s v : Z) : option (list Z) :=
  sig ← put_right (replicate 65 0) 32 (min_bytes r);
  sig ← put_right sig 64 (min_bytes s);
  store sig 64 v.

(** [copy(addr[:], digest[9:])] into a zero address. *)
Definition account_of_digest (digest : list Z) : Address :=
  memcpy (replicate AddressLength 0) 0 (take AddressLength (drop 9 digest)).

Definition recoverPlain (sighash : Hash) (r s vb : option Z) (homestead : bool) : outcome error Address :=
  vb ← or_panic vb;
  guard_err (8 <? BitLen vb) ErrInvalidSig;;
  let v := u8 (u64 (big_Uint64 vb - 27)) in
  r ← or_panic r;
  s ← or_panic s;
  guard_err (negb (ValidateSignatureValues v r s homestead)) ErrInvalidSig;;
  sig ← or_panic (signature_bytes r s v);
  match Ecrecover sighash sig with
  | None => Err errEcrecover
  | Some [] => Err errInvalidPublicKey
  | Some (c :: pub) =>
      guard_err (negb (c =? 4)) errInvalidPublicKey;;
      digest ← or_panic (Keccak256 [pub]);
      Ok (account_of_digest digest)
  end.

Definition plain_Sender (s : Signer) (t : txdata) : outcome error Address :=
  h ← or_panic (signer_Hash s t);
  match s with
  | FrontierSigner => recoverPlain h (data_R t) (data_S t) (data_V t) false
  | _ => recoverPlain h (data_R t) (data_S t) (data_V t) true
  end.

(** [signer.Sender(tx)] *)
Definition signer_Sender (s : Signer) (t : txdata) : outcome error Address :=
  match s with
  | EIP155Signer chainId chainIdMul =>
      if negb (Protected t) then plain_Sender HomesteadSigner t
      else
        guard_err (negb (ChainId t =? chainId)) ErrInvalidChainId;;
        v ← or_panic (data_V t);
        h ← or_panic (signer_Hash s t);
        recoverPlain h (data_R t) (data_S t) (Some (v - chainIdMul - 8)) true
  | _ => plain_Sender s t
  end.

(** A transaction with the sender its last signer derived. *)
Record Transaction := mkTransaction { data : txdata; from : option (Signer * Address) }.

Definition Sender (signer : Signer) (tx : Transaction) : outcome error Address * Transaction :=
  let derive :=
    match signer_Sender signer (data tx) with
    | Ok addr => (Ok addr, mkTransaction (data tx) (Some (signer, addr)))
    | Err e => (Err e, tx)
    | Panic => (Panic, tx)
    end in
  match from tx with
  | Some (s, addr) => if signer_Equal s signer then (Ok addr, tx) else derive
  | None => derive
  end.
End Sender.

(** ** The signature that is recovered from *)

Lemma be_put_pad m k v : 0 <= v < 256 ^ Z.of_nat k -> be_put (m + k) v = replicate m 0 ++ be_put k v.
Proof.
  intros Hv. apply be_get_inj.
  - apply be_put_bytes.
  - apply bytes_app. split; [apply bytes_replicate_0|apply be_put_bytes].
  - by rewrite length_app, length_replicate, !length_be_put.
  - rewrite be_get_app. assert (be_get (replicate m 0) = 0) as ->.
    { induction m as [|m IH]; [done|]. simpl replicate. rewrite be_get_cons, IH. lia. }
    rewrite !be_get_put_small; [lia|done|]. split; [lia|]. eapply Z.lt_le_trans; [apply Hv|].
    apply Z.pow_le_mono_r; lia.
Qed.

Lemma min_bytes_pad x : 0 < x < 2 ^ 256 ->
  (length (min_bytes x) <= 32)%nat /\ replicate (32 - length (min_bytes x)) 0 ++ min_bytes x = be_put 32 x.
Proof.
  intros Hx. unfold min_bytes. rewrite (proj2 (Z.eqb_neq x 0)) by lia. unfold big_Bytes. rewrite length_be_put.
  pose proof (Z.log2_lt_pow2 x 256 ltac:(lia)) as [Hl _]. specialize (Hl ltac:(lia)). pose proof (Z.log2_nonneg x).
  set (k := Z.to_nat ((Z.log2 x + 8) / 8)).
  assert (Z.of_nat k = (Z.log2 x + 8) / 8) as Hk by (unfold k; rewrite Z2Nat.id; [done|apply Z.div_pos; lia]).
  assert ((Z.log2 x + 8) / 8 < 33) by (apply Z.div_lt_upper_bound; lia).
  split; [lia|]. rewrite <-be_put_pad; [f_equal; lia|]. split; [lia|].
  change 256 with (2 ^ 8). rewrite <-Z.pow_mul_r by lia. apply Z.log2_lt_pow2; [lia|]. rewrite Hk. lia.
Qed.

Lemma put_right_pad sig stop x : 0 < x < 2 ^ 256 -> (32 <= stop <= length sig)%nat ->
  take 32 (drop (stop - 32) sig) = replicate 32 0 ->
  put_right sig stop (min_bytes x) = Some (take (stop - 32) sig ++ be_put 32 x ++ drop stop sig).
Proof.
  intros Hx Hs Hz. destruct (min_bytes_pad x Hx) as [Hl Hp]. unfold put_right. rewrite decide_True by lia. f_equal.
  unfold memcpy. rewrite <-Hp. set (k := length (min_bytes x)) in *.
  replace (stop - k + k)%nat with stop by lia. rewrite <-!app_assoc, (app_assoc (take (stop - 32) sig)). f_equal.
  replace (stop - k)%nat with ((stop - 32) + (32 - k))%nat by lia. rewrite <-take_take_drop. f_equal.
  replace (take (32 - k) (drop (stop - 32) sig)) with (take (32 - k) (take 32 (drop (stop - 32) sig)))
    by (rewrite take_take; f_equal; lia).
  rewrite Hz, take_replicate. f_equal. lia.
Qed.

Lemma signature_layout r s v : 0 < r < 2 ^ 256 -> 0 < s < 2 ^ 256 ->
  signature_bytes r s v = Some (be_put 32 r ++ be_put 32 s ++ [v]).
Proof.
  intros Hr Hs. unfold signature_bytes. rewrite (put_right_pad _ 32 r) by (done || (rewrite length_replicate; lia)). rewrite some_bind.
  change (drop 32 (replicate 65 0)) with (replicate 33 0). change (take (32 - 32) (replicate 65 0)) with (@nil Z).
  pose proof (length_be_put 32 r) as Lr. pose proof (length_be_put 32 s) as Ls.
  generalize dependent (be_put 32 r). intros A Lr. cbn [app].
  rewrite (put_right_pad _ 64 s); [|done| |].
  2:{ rewrite length_app, Lr, length_replicate. lia. }
  2:{ change (64 - 32)%nat with 32%nat. by rewrite drop_app_length' by done. }
  rewrite some_bind. change (64 - 32)%nat with 32%nat. rewrite take_app_length' by done.
  assert (drop 64 (A ++ replicate 33 0) = [0]) as -> by (by rewrite drop_app_ge, Lr by lia).
  rewrite store_Some by (rewrite !length_app, Lr, Ls; simpl; lia). f_equal.
  rewrite insert_app_r_alt, Lr by (rewrite Lr; lia). f_equal.
Qed.

(** ** Recovery *)

Section Theorems.
Context `{AddressSize}.
Context (Ecrecover : list Z -> list Z -> option (list Z)).
Context (Protected : txdata -> bool) (ChainId : txdata -> Z).

Local Notation recoverPlain := (recoverPlain Ecrecover).
Local Notation signer_Sender := (signer_Sender Ecrecover Protected ChainId).
Local Notation Sender := (Sender Ecrecover Protected ChainId).

(** The account of an uncompressed public key. *)
Definition account (pub : list Z) : Address := account_of_digest (keccak256 pub).

(** The values of R and S a signature may have. *)
Definition in_range (r s : Z) (homestead : bool) : Prop :=
  0 < r < secp256k1_N /\ 0 < s < secp256k1_N /\ (homestead = true -> s <= secp256k1_halfN).

Lemma ValidateSignatureValues_iff v r s homestead :
  ValidateSignatureValues v r s homestead = true <-> in_range r s homestead /\ (v = 0 \/ v = 1).
Proof.
  unfold ValidateSignatureValues, in_range.
  destruct (Z.ltb_spec r 1), (Z.ltb_spec s 1); simpl; try (split; [done|lia]).
  destruct homestead; simpl.
  - destruct (Z.ltb_spec secp256k1_halfN s); [split; [done|intros [(_ & _ & Hh) _]; specialize (Hh eq_refl); lia]|].
    rewrite !andb_true_iff, orb_true_iff, !Z.ltb_lt, !Z.eqb_eq. intuition lia.
  - rewrite !andb_true_iff, orb_true_iff, !Z.ltb_lt, !Z.eqb_eq. intuition (done || lia).
Qed.

(** The recovery id that is read from [vb]. *)
Lemma recovery_id vb : BitLen vb <= 8 ->
  (u8 (u64 (big_Uint64 vb - 27)) = 0 \/ u8 (u64 (big_Uint64 vb - 27)) = 1 <-> Z.abs vb = 27 \/ Z.abs vb = 28) /\
  (Z.abs vb = 27 \/ Z.abs vb = 28 -> u8 (u64 (big_Uint64 vb - 27)) = Z.abs vb - 27).
Proof.
  intros Hb. assert (0 <= Z.abs vb < 256) as Ha.
  { unfold BitLen in Hb. destruct (Z.eqb_spec vb 0) as [E|E]; [by rewrite E|].
    split; [lia|]. apply (Z.log2_lt_pow2 _ 8); lia. }
  unfold big_Uint64, u64, u8. rewrite (Z.mod_small (Z.abs vb)) by lia.
  rewrite <-Znumtheory.Zmod_div_mod by (done || by exists (2 ^ 56)).
  destruct (Z.lt_ge_cases (Z.abs vb) 27).
  - replace (Z.abs vb - 27) with ((Z.abs vb - 27 + 256) + (-1) * 2 ^ 8) by lia. rewrite Z_mod_plus_full, Z.mod_small by lia. lia.
  - rewrite Z.mod_small by lia. lia.
Qed.

(** Everything after the size of [vb] has been checked. *)
Lemma recoverPlain_cases h r s vb homestead :
  recoverPlain h (Some r) (Some s) (Some vb) homestead =
  if bool_decide (Z.abs vb = 27 \/ Z.abs vb = 28) && ValidateSignatureValues 0 r s homestead then
    match Ecrecover h (be_put 32 r ++ be_put 32 s ++ [Z.abs vb - 27]) with
    | None => Err errEcrecover
    | Some (4 :: pub) => Ok (account pub)
    | Some _ => Err errInvalidPublicKey
    end
  else Err ErrInvalidSig.
Proof.
  unfold TxSigning.recoverPlain. rewrite or_panic_bind. destruct (Z.ltb_spec 8 (BitLen vb)) as [Hb|Hb].
  - rewrite bool_decide_eq_false_2; [done|]. intros Ha. unfold BitLen in Hb. destruct (Z.eqb_spec vb 0); [lia|].
    destruct Ha as [Ha|Ha]; rewrite Ha in Hb; vm_compute in Hb; discriminate Hb.
  - rewrite guard_err_pass, !or_panic_bind. cbv zeta. destruct (recovery_id vb Hb) as [Hi He].
    set (v := u8 (u64 (big_Uint64 vb - 27))) in *.
    destruct (ValidateSignatureValues v r s homestead) eqn:Hv.
    + apply ValidateSignatureValues_iff in Hv as [Hr Hv]. apply Hi in Hv. rewrite (bool_decide_eq_true_2 _ Hv).
      rewrite (proj2 (ValidateSignatureValues_iff 0 r s homestead)) by auto. cbn [andb negb]. rewrite guard_err_pass.
      destruct Hr as (Hr & Hs & _). assert (secp256k1_N < 2 ^ 256) by done.
      rewrite signature_layout, or_panic_bind, (He Hv) by lia.
      destruct (Ecrecover h _) as [ [|c pub]|]; [done| |done]. destruct (Z.eqb_spec c 4) as [->|Hc].
      * cbn [negb]. rewrite guard_err_pass, Keccak256_concat, or_panic_bind. simpl mjoin. by rewrite app_nil_r.
      * simpl. destruct c as [|p|p]; try done. do 3 (destruct p; try done).
    + cbn [negb]. case_bool_decide as Ha; [|done]. destruct (ValidateSignatureValues 0 r s homestead) eqn:H0; [|done].
      apply ValidateSignatureValues_iff in H0 as [Hr _].
      rewrite (proj2 (ValidateSignatureValues_iff v r s homestead)) in Hv; [done|]. split; [done|]. by apply Hi.
Qed.

Lemma recoverPlain_ok h r s vb homestead a :
  recoverPlain h (Some r) (Some s) (Some vb) homestead = Ok a <->
  (Z.abs vb = 27 \/ Z.abs vb = 28) /\ in_range r s homestead /\
  exists pub, Ecrecover h (be_put 32 r ++ be_put 32 s ++ [Z.abs vb - 27]) = Some (4 :: pub) /\ a = account pub.
Proof.
  rewrite recoverPlain_cases. case_bool_decide as Hv; [|split; [done|tauto] ]. simpl.
  destruct (ValidateSignatureValues 0 r s homestead) eqn:Hr.
  - apply ValidateSignatureValues_iff in Hr as [Hr _]. destruct (Ecrecover h _) as [l|].
    + split.
      * intros E. split; [done|]. split; [done|]. repeat case_match; simplify_eq. eauto.
      * intros (_ & _ & pub & [= ->] & ->). done.
    + split; [done|]. by intros (_ & _ & pub & ? & _).
  - split; [done|]. intros (_ & Hr' & _). by rewrite (proj2 (ValidateSignatureValues_iff 0 r s homestead)) in Hr by auto.
Qed.

(** ** Chain identifiers *)

Lemma BitLen_64 v : 0 <= v -> (BitLen v <=? 64) = (v <? 2 ^ 64).
Proof.
  intros Hv. unfold BitLen. destruct (Z.eqb_spec v 0) as [->|Hn]; [done|]. rewrite Z.abs_eq by done.
  pose proof (Z.log2_lt_pow2 v 64 ltac:(lia)). destruct (Z.leb_spec (Z.log2 v + 1) 64), (Z.ltb_spec v (2 ^ 64)); try done; lia.
Qed.

(** The values of V that name the chain [c]. *)
Lemma deriveChainId_recovery v c : 0 <= v -> 0 <= c -> v <> 27 -> v <> 28 ->
  deriveChainId v = c /\ (Z.abs (v - c * 2 - 8) = 27 \/ Z.abs (v - c * 2 - 8) = 28) <->
  v = 2 * c + 35 \/ v = 2 * c + 36.
Proof.
  intros Hv Hc H1 H2. unfold deriveChainId. rewrite BitLen_64 by done. destruct (Z.ltb_spec v (2 ^ 64)) as [Hl|Hl].
  - unfold big_Uint64, u64. rewrite Z.abs_eq, (Z.mod_small v) by lia.
    rewrite (proj2 (Z.eqb_neq v 27)), (proj2 (Z.eqb_neq v 28)) by done. simpl.
    destruct (Z.lt_ge_cases v 35).
    + replace (v - 35) with ((v - 35 + 2 ^ 64) + (-1) * 2 ^ 64) by lia. rewrite Z_mod_plus_full, Z.mod_small by lia.
      pose proof (Z.div_mod (v - 35 + 2 ^ 64) 2 ltac:(lia)). pose proof (Z.mod_pos_bound (v - 35 + 2 ^ 64) 2 ltac:(lia)). lia.
    + rewrite Z.mod_small by lia.
      pose proof (Z.div_mod (v - 35) 2 ltac:(lia)). pose proof (Z.mod_pos_bound (v - 35) 2 ltac:(lia)). lia.
  - pose proof (Z.div_mod (v - 35) 2 ltac:(lia)). pose proof (Z.mod_pos_bound (v - 35) 2 ltac:(lia)). lia.
Qed.

(** What the methods of the transaction type have to answer. *)
Record tx_methods : Prop := mkTxMethods {
  Protected_V t v : data_V t = Some v -> 0 <= v -> Protected t = true <-> v <> 27 /\ v <> 28;
  ChainId_V t v : data_V t = Some v -> Protected t = true -> ChainId t = deriveChainId v
}.
Context (HT : tx_methods).

(** A transaction with all of its signature values. *)
Definition signed_with (t : txdata) (r s v : Z) : Prop :=
  data_R t = Some r /\ data_S t = Some s /\ data_V t = Some v /\ 0 <= v.

Lemma eip155_Sender_ok c t r s v a : signed_with t r s v -> 0 <= c -> v <> 27 -> v <> 28 ->
  signer_Sender (NewEIP155Signer (Some c)) t = Ok a <->
  (v = 2 * c + 35 \/ v = 2 * c + 36) /\ in_range r s true /\
  exists h pub, signer_Hash (NewEIP155Signer (Some c)) t = Some h /\
    Ecrecover h (be_put 32 r ++ be_put 32 s ++ [v - 2 * c - 35]) = Some (4 :: pub) /\ a = account pub.
Proof.
  intros (Hr & Hs & Hv & H0) Hc H1 H2. unfold TxSigning.signer_Sender, NewEIP155Signer. cbn [default from_option id].
  assert (Protected t = true) as HP by (by apply (Protected_V HT t v)). rewrite HP, (ChainId_V HT t v Hv HP). cbn [negb].
  pose proof (deriveChainId_recovery v c H0 Hc H1 H2) as Hd.
  destruct (Z.eqb_spec (deriveChainId v) c) as [Hid|Hid].
  2:{ split; [done|]. intros (Hv' & _). by apply Hd in Hv' as [? _]. }
  cbn [negb]. rewrite guard_err_pass, Hv, Hr, Hs, or_panic_bind. change (id c) with c.
  destruct (signer_Hash _ t) as [h|]; [|split; [done|]; by intros (_ & _ & h & pub & ? & _)].
  rewrite or_panic_bind, recoverPlain_ok. split.
  - intros (Hb & Hi & pub & E & ->). assert (v = 2 * c + 35 \/ v = 2 * c + 36) as Hv' by (by apply Hd).
    split; [done|]. split; [done|]. exists h, pub. split; [done|]. split; [|done]. rewrite <-E. do 4 f_equal. lia.
  - intros (Hv' & Hi & h' & pub & [= <-] & E & ->). apply Hd in Hv' as Hv''. split; [tauto|]. split; [done|].
    exists pub. split; [|done]. rewrite <-E. do 4 f_equal. lia.
Qed.

(** C16: the sender of a transaction under the replay-protected signer of chain
    [c].  A transaction whose V is neither 27 nor 28 has one exactly if V is
    [2 c + 35] or [2 c + 36], R and S are in range with S in the lower half,
    and the key recovered from the hash for [c] and the 65 bytes R, S and the
    recovery id is an uncompressed one; the sender is the account of that key.
    No other chain accepts the transaction. *)
Theorem replay_protection c t r s v a : signed_with t r s v -> 0 <= c -> v <> 27 -> v <> 28 ->
  (signer_Sender (NewEIP155Signer (Some c)) t = Ok a <->
   (v = 2 * c + 35 \/ v = 2 * c + 36) /\ in_range r s true /\
   exists h pub, signer_Hash (NewEIP155Signer (Some c)) t = Some h /\
     Ecrecover h (be_put 32 r ++ be_put 32 s ++ [v - 2 * c - 35]) = Some (4 :: pub) /\ a = account pub) /\
  (signer_Sender (NewEIP155Signer (Some c)) t = Ok a ->
   forall c', 0 <= c' -> c' <> c -> signer_Sender (NewEIP155Signer (Some c')) t = Err ErrInvalidChainId).
Proof.
  intros Ht Hc H1 H2. pose proof (eip155_Sender_ok c t r s v a Ht Hc H1 H2) as Hiff. split; [done|].
  intros (Hv' & _)%Hiff c' Hc' Hne. destruct Ht as (_ & _ & Hv & H0).
  unfold TxSigning.signer_Sender, NewEIP155Signer. cbn [default from_option id].
  assert (Protected t = true) as HP by (by apply (Protected_V HT t v)). rewrite HP, (ChainId_V HT t v Hv HP). cbn [negb].
  apply (deriveChainId_recovery v c) in Hv' as [-> _]; [|done..]. by rewrite (proj2 (Z.eqb_neq c c')) by lia.
Qed.

(** ** Signing *)

(** The transaction with given signature values. *)
Definition with_values (t : txdata) (r s v : Z) : txdata :=
  mkTxdata (AccountNonce t) (Price t) (TxGasLimit t) (Recipient t) (Amount t) (Fee t) (Payload t) (Some v) (Some r) (Some s).

Lemma signer_Hash_values s t r s' v : signer_Hash s (with_values t r s' v) = signer_Hash s t.
Proof. by destruct s. Qed.

Definition lower_half (s : Signer) : bool := match s with FrontierSigner => false | _ => true end.

(** The signers the node makes: the replay-protected one of a chain with a
    positive identifier and those of the older rules. *)
Definition proper_signer (s : Signer) : Prop :=
  match s with EIP155Signer c m => 0 < c /\ m = c * 2 | _ => True end.

Lemma signature_split sig id : bytes sig -> length sig = 65%nat -> sig !! 64%nat = Some id ->
  be_put 32 (be_get (take 32 sig)) ++ be_put 32 (be_get (take 32 (drop 32 sig))) ++ [id] = sig.
Proof.
  intros Hb Hl Hi.
  assert (length (take 32 sig) = 32%nat) as L1 by (rewrite length_take; lia).
  assert (length (take 32 (drop 32 sig)) = 32%nat) as L2 by (rewrite length_take, length_drop; lia).
  pose proof (be_put_get _ (bytes_take 32 sig Hb)) as E1. rewrite L1 in E1. rewrite E1.
  pose proof (be_put_get _ (bytes_take 32 _ (bytes_drop 32 _ Hb))) as E2. rewrite L2 in E2. rewrite E2.
  assert ([id] = drop 64 sig) as ->.
  { rewrite (drop_S _ _ _ Hi). f_equal. symmetry. apply drop_ge. lia. }
  change 64%nat with (32 + 32)%nat. rewrite <-drop_drop, take_drop. apply take_drop.
Qed.

(** C25: signing round trip.  For every signer the node makes, the values taken
    from a 65-byte signature with recovery id 0 or 1 lead back to that
    signature: if R and S are in range, the sender of the signed transaction
    is the account of the key that recovers from the signed hash and the
    signature as it was given. *)
Theorem signature_roundtrip s t sig id h pub :
  proper_signer s -> bytes sig -> length sig = 65%nat -> sig !! 64%nat = Some id -> id = 0 \/ id = 1 ->
  in_range (be_get (take 32 sig)) (be_get (take 32 (drop 32 sig))) (lower_half s) ->
  signer_Hash s t = Some h -> Ecrecover h sig = Some (4 :: pub) ->
  exists r s' v, SignatureValues s sig = Some (r, s', v) /\
    signer_Sender s (with_values t r s' v) = Ok (account pub).
Proof.
  intros Hp Hb Hl Hi Hid Hr Hh He. pose proof (signature_split sig id Hb Hl Hi) as Hsig.
  assert (frontier_SignatureValues sig = Some (be_get (take 32 sig), be_get (take 32 (drop 32 sig)), id + 27)) as Hf.
  { unfold frontier_SignatureValues. rewrite decide_True, Hi, some_bind by done. do 2 f_equal.
    unfold u8. rewrite Z.mod_small by lia. change (be_get [id + 27]) with (0 * 256 + (id + 27)). lia. }
  destruct s as [c m| |].
  - destruct Hp as [Hc ->]. eexists _, _, _. split.
    { cbn [SignatureValues]. rewrite Hf, some_bind. cbv beta iota. rewrite (proj2 (Z.eqb_neq c 0)), Hi, some_bind by lia. done. }
    assert (u8 (id + 35) = id + 35) as -> by (unfold u8; apply Z.mod_small; lia).
    change (EIP155Signer c (c * 2)) with (NewEIP155Signer (Some c)).
    eapply (eip155_Sender_ok c _ _ _ (id + 35 + c * 2)); [by repeat split; lia|lia..|]. split; [lia|]. split; [done|].
    exists h, pub. split; [done|]. split; [|done]. rewrite <-He. f_equal. rewrite <-Hsig at 3. do 3 f_equal. lia.
  - eexists _, _, _. split; [exact Hf|]. unfold TxSigning.signer_Sender, plain_Sender. rewrite signer_Hash_values, Hh, or_panic_bind.
    apply recoverPlain_ok. split; [lia|]. split; [done|]. exists pub. split; [|done]. rewrite <-He. f_equal.
    rewrite <-Hsig at 3. do 3 f_equal. lia.
  - eexists _, _, _. split; [exact Hf|]. unfold TxSigning.signer_Sender, plain_Sender. rewrite signer_Hash_values, Hh, or_panic_bind.
    apply recoverPlain_ok. split; [lia|]. split; [done|]. exists pub. split; [|done]. rewrite <-He. f_equal.
    rewrite <-Hsig at 3. do 3 f_equal. lia.
Qed.

(** ** The cache *)

(** Made by [NewEIP155Signer] or without a chain. *)
Definition made_signer (s : Signer) : Prop := match s with EIP155Signer c m => m = c * 2 | _ => True end.

Definition cache_ok (tx : Transaction) : Prop :=
  forall s a, from tx = Some (s, a) -> made_signer s /\ signer_Sender s (data tx) = Ok a.

Lemma signer_Equal_eq s1 s2 : made_signer s1 -> made_signer s2 -> signer_Equal s1 s2 = true -> s1 = s2.
Proof. destruct s1, s2; simpl; try done. intros -> -> ?%Z.eqb_eq. by subst. Qed.

Lemma Sender_cache signer tx : made_signer signer -> cache_ok tx ->
  (Sender signer tx).1 = signer_Sender signer (data tx) /\ cache_ok (Sender signer tx).2 /\
  data (Sender signer tx).2 = data tx.
Proof.
  intros Hm Hc.
  assert (forall r, r = signer_Sender signer (data tx) -> let p := match r with
     | Ok addr => (Ok addr, mkTransaction (data tx) (Some (signer, addr))) | Err e => (Err e, tx) | Panic => (Panic, tx) end in
     p.1 = signer_Sender signer (data tx) /\ cache_ok p.2 /\ data p.2 = data tx) as Hd.
  { intros [a|e|] E; simpl; (split; [done|]); (split; [|done]); [|done..]. intros s a' [= <- <-]. done. }
  unfold TxSigning.Sender. destruct (from tx) as [[s a]|] eqn:Ef; [|by apply Hd].
  destruct (signer_Equal s signer) eqn:Ee; [|by apply Hd]. destruct (Hc s a Ef) as [Hs Ha].
  apply signer_Equal_eq in Ee as ->; [|done..]. by rewrite Ha.
Qed.

(** Senders asked for one after the other, with the cache in between. *)
Fixpoint Senders (signers : list Signer) (tx : Transaction) : list (outcome error Address) :=
  match signers with
  | [] => []
  | s :: signers' => let '(r, tx) := Sender s tx in r :: Senders signers' tx
  end.

(** The cached sender never shows.  Whatever signers ask a new transaction
    for its sender, and in which order, each gets the answer it derives itself. *)
Theorem Sender_cache_transparent signers t : Forall made_signer signers ->
  Senders signers (mkTransaction t None) = map (fun s => signer_Sender s t) signers.
Proof.
  intros Hs. assert (forall tx, cache_ok tx -> data tx = t ->
    Senders signers tx = map (fun s => signer_Sender s t) signers) as H1; [|by apply H1].
  induction Hs as [|s signers Hs _ IH]; intros tx Hc Ht; [done|]. simpl.
  pose proof (Sender_cache s tx Hs Hc) as (H1 & H2 & H3). destruct (Sender s tx) as [r tx']; simpl in *.
  rewrite H1, Ht. f_equal. apply IH; [done|congruence].
Qed.
End Theorems.

(** ** What a signature commits to *)

Definition chain_fields (s : Signer) : list value :=
  match s with EIP155Signer chainId _ => [VBig (Some chainId); VUint 0; VUint 0] | _ => [] end.

Definition signed_value (s : Signer) (t : txdata) : list value := signed_fields t ++ chain_fields s.

Definition chain_of (s : Signer) : option Z := match s with EIP155Signer c _ => Some c | _ => None end.

(** Equal signed fields; nil integers count as zero and no recipient as an
    empty one. *)
Definition same_signed (t1 t2 : txdata) : Prop :=
  AccountNonce t1 = AccountNonce t2 /\ default 0 (Price t1) = default 0 (Price t2) /\
  default 0 (TxGasLimit t1) = default 0 (TxGasLimit t2) /\ default [] (Recipient t1) = default [] (Recipient t2) /\
  default 0 (Amount t1) = default 0 (Amount t2) /\ default 0 (Fee t1) = default 0 (Fee t2) /\ Payload t1 = Payload t2.

Lemma signed_value_strings s t : Forall (fun v => string_value v = true) (signed_value s t).
Proof. unfold signed_value, signed_fields. destruct s, (Recipient t); repeat constructor. Qed.

Lemma flat_recipient r : flat_value (recipient_value r) = Some (default [] r).
Proof. by destruct r. Qed.

Lemma signer_Hash_value s t : signer_Hash s t = rlpHash (VList (signed_value s t)).
Proof. by destruct s. Qed.

Lemma flat_uint_inj i j : 0 <= i -> 0 <= j -> flat_value (VUint i) = flat_value (VUint j) -> i = j.
Proof. intros Hi Hj [= E]. by apply min_bytes_inj. Qed.

(** The seven common fields, with any two tails. *)
Lemma signed_fields_inj t1 t2 l1 l2 : 0 <= AccountNonce t1 -> 0 <= AccountNonce t2 ->
  mapM flat_value (signed_fields t1 ++ l1) = mapM flat_value (signed_fields t2 ++ l2) ->
  is_Some (mapM flat_value (signed_fields t1 ++ l1)) ->
  same_signed t1 t2 /\ mapM flat_value l1 = mapM flat_value l2 /\ is_Some (mapM flat_value l1).
Proof.
  intros H1 H2 He Hs. unfold signed_fields in *. cbn [app] in *.
  repeat (apply mapM_cons_eq in He as [[?Hf ?Hp] [He ?Hs2]]; [clear Hs; rename Hs2 into Hs|done]).
  repeat match goal with
  | H : flat_value (VBig _) = flat_value (VBig _) |- _ => apply flat_big_inj in H; [|done]
  | H : flat_value (VUint _) = flat_value (VUint _) |- _ => apply flat_uint_inj in H; [|done..]
  | H : flat_value (VBytes _) = flat_value (VBytes _) |- _ => injection H as ?
  | H : flat_value (recipient_value _) = flat_value (recipient_value _) |- _ => rewrite !flat_recipient in H; injection H as ?
  end. split; [|done]. by repeat split.
Qed.

Lemma signed_value_inj s1 s2 t1 t2 : 0 <= AccountNonce t1 -> 0 <= AccountNonce t2 ->
  mapM flat_value (signed_value s1 t1) = mapM flat_value (signed_value s2 t2) ->
  is_Some (mapM flat_value (signed_value s1 t1)) -> same_signed t1 t2 /\ chain_of s1 = chain_of s2.
Proof.
  intros H1 H2 He Hs. apply signed_fields_inj in He as (Hsame & He & Hs'); [|done..]. split; [done|].
  destruct s1 as [c1 m1| |], s2 as [c2 m2| |]; simpl chain_of; simpl chain_fields in He, Hs'; try done.
  - apply mapM_cons_eq in He as [[He Hp] _]; [|done]. apply flat_big_inj in He; [|done]. simpl in He. by subst.
  - simpl in He. by destruct (c1 <? 0).
  - simpl in He. by destruct (c1 <? 0).
  - simpl in He. by destruct (c2 <? 0).
  - simpl in He. by destruct (c2 <? 0).
Qed.

(** What a signature is for.  If the hash one signer signs for a
    transaction is the hash another signer checks for another transaction,
    the two transactions agree in nonce, price, gas, recipient, amount, fee
    and payload and the signers are for the same chain (or both for none), or
    the two encodings are a collision of Keccak-256. *)
Theorem signing_hash_commits s1 s2 t1 t2 b1 b2 :
  encodable (VList (signed_value s1 t1)) b1 -> encodable (VList (signed_value s2 t2)) b2 ->
  signer_Hash s1 t1 = Some (keccak256 b1) /\
  (signer_Hash s1 t1 = signer_Hash s2 t2 -> (same_signed t1 t2 /\ chain_of s1 = chain_of s2) \/ collision b1 b2).
Proof.
  intros He1 He2. split; [rewrite signer_Hash_value; destruct He1 as (? & ? & ? & ?); by apply rlpHash_ok|].
  rewrite !signer_Hash_value. intros He.
  assert (forall s t b, encodable (VList (signed_value s t)) b -> 0 <= AccountNonce t) as Hn.
  { intros s t b (Hv & _). apply value_ok_list in Hv. apply Forall_cons in Hv as [Hv _]; simpl in Hv; lia. }
  eapply rlpHash_commits in He as [[He Hs]|Hc]; [|by right|apply signed_value_strings|apply signed_value_strings|exact He1|exact He2].
  left. eapply signed_value_inj; eauto.
Qed.

(** The signer of chain 0 signs the hash with the chain in it, but gives V the
    value of an unprotected transaction, for which the sender is recovered from
    the hash without it: the signed and the recovered hash agree only by a
    collision. *)
Lemma chain_zero_signs_other_hash t b1 b2 : let s := NewEIP155Signer (Some 0) in
  encodable (VList (signed_value s t)) b1 -> encodable (VList (signed_value HomesteadSigner t)) b2 ->
  signer_Hash s t = signer_Hash HomesteadSigner t -> collision b1 b2.
Proof.
  intros s H1 H2 He. assert (0 <= AccountNonce t).
  { destruct H1 as [Hv _]. apply value_ok_list in Hv. apply Forall_cons in Hv as [Hv _]. simpl in Hv. lia. }
  rewrite !signer_Hash_value in He.
  eapply rlpHash_commits in He as [[He Hs]|Hc]; [|done|apply signed_value_strings|apply signed_value_strings|exact H1|exact H2].
  by eapply signed_value_inj in He as [_ ?].
Qed.

(** The proof-of-authority engine takes the signer of a header from byte 12 of
    the digest of its key, while the account of the key starts at byte 9. *)
Lemma recovered_signer_differs `{AddressSize} digest x y : (0 < AddressLength)%nat ->
  length digest = 32%nat -> digest !! 9%nat = Some x -> digest !! 12%nat = Some y -> x <> y ->
  signer_of_digest digest <> account_of_digest digest.
Proof.
  intros Hl Hd Hx Hy Hne He. apply (f_equal (fun l : list Z => l !! 0%nat)) in He.
  unfold signer_of_digest, account_of_digest, Address in He.
  rewrite !lookup_memcpy in He by (rewrite length_replicate, length_take; lia).
  rewrite !decide_True in He by (rewrite length_take, length_drop; lia).
  rewrite !Nat.sub_0_r, !lookup_take_lt, !lookup_drop in He by lia. simpl in He. rewrite Hx, Hy in He. congruence.
Qed.

Module Sample.
#[local] Instance sample_address : AddressSize := 23%nat.

Definition Protected (t : txdata) : bool :=
  match data_V t with Some v => negb ((v =? 27) || (v =? 28)) | None => false end.
Definition ChainId (t : txdata) : Z := deriveChainId (default 0 (data_V t)).

Lemma methods_ok : tx_methods Protected ChainId.
Proof.
  split; intros t v Hv.
  - intros _. unfold Protected. rewrite Hv. destruct (Z.eqb_spec v 27), (Z.eqb_spec v 28); simpl; split; try done; lia.
  - intros _. unfold ChainId. by rewrite Hv.
Qed.

(** Every signature recovers the same key. *)
Definition one_key (_ _ : list Z) : option (list Z) := Some (4 :: replicate 64 7).

Definition payment : txdata :=
  mkTxdata 3 (Some 20) (Some 21000) (Some (replicate 23 1)) (Some 500) (Some 1) [] (Some 37) (Some 5) (Some 6).

Lemma small_in_range : in_range 5 6 true.
Proof. split; [done|]. split; [done|]. by intros _. Qed.

Lemma replay_protection_witness :
  signer_Sender one_key Protected ChainId (NewEIP155Signer (Some 1)) payment = Ok (account (replicate 64 7)) /\
  signer_Sender one_key Protected ChainId (NewEIP155Signer (Some 2)) payment = Err ErrInvalidChainId.
Proof.
  destruct (replay_protection one_key Protected ChainId methods_ok 1 payment 5 6 37 (account (replicate 64 7))) as [H1 H2].
  - repeat split; lia.
  - lia.
  - lia.
  - lia.
  - assert (signer_Sender one_key Protected ChainId (NewEIP155Signer (Some 1)) payment = Ok (account (replicate 64 7))) as H3.
    + apply H1. split; [lia|]. split; [exact small_in_range|].
      destruct (signer_Hash (NewEIP155Signer (Some 1)) payment) as [h|] eqn:E; [|vm_compute in E; discriminate].
      exists h, (replicate 64 7). split; [reflexivity|]. split; reflexivity.
    + split; [exact H3|]. apply (H2 H3 2); lia.
Defined.

Definition signature : list Z := replicate 31 0 ++ [5] ++ replicate 31 0 ++ [6; 1].

Lemma signature_roundtrip_witness :
  exists r s v, SignatureValues (NewEIP155Signer (Some 1)) signature = Some (r, s, v) /\
    signer_Sender one_key Protected ChainId (NewEIP155Signer (Some 1)) (with_values payment r s v) =
      Ok (account (replicate 64 7)).
Proof.
  destruct (signer_Hash (NewEIP155Signer (Some 1)) payment) as [h|] eqn:E; [|vm_compute in E; discriminate].
  apply (signature_roundtrip one_key Protected ChainId methods_ok (NewEIP155Signer (Some 1)) payment signature 1 h).
  - split; reflexivity.
  - repeat (constructor; [vm_compute; intuition discriminate|]). constructor.
  - reflexivity.
  - reflexivity.
  - lia.
  - exact small_in_range.
  - exact E.
  - reflexivity.
Defined.

Lemma Sender_cache_transparent_witness :
  Senders one_key Protected ChainId [NewEIP155Signer (Some 1); NewEIP155Signer (Some 1); HomesteadSigner] (mkTransaction payment None) =
  map (fun s => signer_Sender one_key Protected ChainId s payment)
    [NewEIP155Signer (Some 1); NewEIP155Signer (Some 1); HomesteadSigner].
Proof.
  apply (Sender_cache_transparent one_key Protected ChainId [NewEIP155Signer (Some 1); NewEIP155Signer (Some 1); HomesteadSigner] payment).
  repeat (constructor; [reflexivity || exact I|]). constructor.
Defined.

Lemma signing_hash_commits_witness :
  exists b, signer_Hash HomesteadSigner payment = Some (keccak256 b).
Proof.
  assert (exists b, encodable (VList (signed_value HomesteadSigner payment)) b) as [b Hb].
  { eexists. split; [|split; [vm_compute; reflexivity|] ].
    - apply value_ok_list. repeat (constructor; [simpl; lia || exact I|]). constructor.
    - split; [|done]. repeat (constructor; [unfold is_byte; lia|]). constructor. }
  exists b. exact (proj1 (signing_hash_commits HomesteadSigner HomesteadSigner payment payment b b Hb Hb)).
Defined.
End Sample.
