(* ===== verification/Bloom.v ===== *)
(** * Bloom filters (src/core/types/bloom9.go, src/core/bloombits/generator.go)

    The 2048-bit filters of headers and receipts over the Keccak sponge, and
    the generator that turns the filters of a section of blocks into one bit
    vector for each bit of the filter. *)
From S2P Require Import State Prelude Sha3 Types Rlp StateCodec Bitutil.

(** ** bloom9.go *)

Definition BloomByteLength : nat := 256.
Definition BloomBitLength : nat := 2048.

(** The loop [for i := 0; i < 6; i += 2], [n] rounds from [i] on. *)
Fixpoint bloom9_loop (n i : nat) (b : list Z) (r : Z) : option Z :=
  match n with
  | O => Some r
  | S n' =>
      lo ← b !! (i + 1)%nat;
      hi ← b !! i;
      let bit := Z.land (lo + Z.shiftl hi 8) 2047 in
      bloom9_loop n' (i + 2) b (Z.lor r (Z.shiftl 1 bit))
  end.

Definition bloom9 (b : list Z) : option Z :=
  k ← Keccak256 [b];
  bloom9_loop 3 0 k 0.

(** [copy(b[BloomByteLength-len(d):], d)]; too many bytes panic. *)
Definition bloom_SetBytes (b d : list Z) : option (list Z) :=
  if decide (length b < length d)%nat then None
  else Some (memcpy b (BloomByteLength - length d) d).

Definition BytesToBloom (b : list Z) : option (list Z) := bloom_SetBytes (replicate BloomByteLength 0) b.

(** [d] is a [*big.Int]. *)
Definition bloom_Add (b : list Z) (d : Z) : option (list Z) :=
  m ← bloom9 (min_bytes d);
  bloom_SetBytes b (min_bytes (Z.lor (be_get b) m)).

Definition BloomLookup (bin topic : list Z) : option bool :=
  cmp ← bloom9 topic;
  Some (Z.land (be_get bin) cmp =? cmp).

Definition bloom_Test (b : list Z) (test : Z) : option bool := BloomLookup b (min_bytes test).
Definition bloom_TestBytes (b test : list Z) : option bool := bloom_Test b (be_get test).

Fixpoint topics_bloom (topics : list Hash) (bin : Z) : option Z :=
  match topics with
  | [] => Some bin
  | b :: topics' => m ← bloom9 b; topics_bloom topics' (Z.lor bin m)
  end.

Fixpoint logs_bloom (logs : list Log) (bin : Z) : option Z :=
  match logs with
  | [] => Some bin
  | l :: logs' =>
      m ← bloom9 (lAddress l);
      bin ← topics_bloom (lTopics l) (Z.lor bin m);
      logs_bloom logs' bin
  end.

Definition LogsBloom (logs : list Log) : option Z := logs_bloom logs 0.

(** A receipt by its logs. *)
Definition Receipt := list Log.

Fixpoint receipts_bloom (receipts : list Receipt) (bin : Z) : option Z :=
  match receipts with
  | [] => Some bin
  | r :: receipts' => m ← LogsBloom r; receipts_bloom receipts' (Z.lor bin m)
  end.

Definition CreateBloom (receipts : list Receipt) : option (list Z) :=
  bin ← receipts_bloom receipts 0;
  BytesToBloom (min_bytes bin).

(** ** matcher.go: the bits of a key *)

(** [(uint(b[2*i])<<8)&2047 + uint(b[2*i+1])]: the conjunction binds tighter. *)
Definition bloom_index (b : list Z) (i : nat) : option Z :=
  hi ← b !! (2 * i)%nat;
  lo ← b !! (2 * i + 1)%nat;
  Some (Z.land (Z.shiftl hi 8) 2047 + lo).

Definition calcBloomIndexes (b : list Z) : option (list Z) :=
  k ← Keccak256 [b];
  mapM (bloom_index k) (seq 0 3).

(** ** generator.go *)

Inductive gen_error := errSectionOutOfBounds | errSectionCount | errUnexpectedIndex | errNotGenerated.

Record Generator := mkGenerator { blooms : list (list Z); sections : nat; nextBit : nat }.

Definition NewGenerator (sections : nat) : outcome gen_error Generator :=
  guard_err (negb (sections mod 8 =? 0)%nat) errSectionCount;;
  Ok (mkGenerator (replicate BloomBitLength (replicate (sections / 8) 0)) sections 0).

(** One round of the loop over the bits of the filter. *)
Definition add_bit (byteIndex : nat) (bitMask : Z) (bloom : list Z) (i : nat) (bs : list (list Z)) : option (list (list Z)) :=
  x ← bloom !! (BloomByteLength - 1 - i / 8)%nat;
  if Z.land x (Z.shiftl 1 (Z.of_nat (i mod 8))) =? 0 then Some bs
  else
    row ← bs !! i;
    y ← row !! byteIndex;
    row ← store row byteIndex (Z.lor y bitMask);
    store bs i row.

Definition AddBloom (b : Generator) (index : nat) (bloom : list Z) : outcome gen_error Generator :=
  guard_err (sections b <=? nextBit b)%nat errSectionOutOfBounds;;
  guard_err (negb (nextBit b =? index)%nat) errUnexpectedIndex;;
  bs ← or_panic (for_up 0 BloomBitLength (add_bit (nextBit b / 8) (mask (nextBit b)) bloom) (blooms b));
  Ok (mkGenerator bs (sections b) (S (nextBit b))).

Definition Bitset (b : Generator) (idx : nat) : outcome gen_error (list Z) :=
  guard_err (negb (nextBit b =? sections b)%nat) errNotGenerated;;
  guard_err (sections b <=? idx)%nat errSectionOutOfBounds;;
  or_panic (blooms b !! idx).

#[local] Opaque BloomBitLength.

(** ** The bits of a key *)

Definition bloom_bits (key : list Z) : list Z := default [] (calcBloomIndexes key).

(** The index as [bloom9] and as the matcher computes it. *)
Lemma bloom_index_agrees lo hi : is_byte lo -> is_byte hi ->
  Z.land (lo + Z.shiftl hi 8) 2047 = Z.land (Z.shiftl hi 8) 2047 + lo /\ 0 <= Z.land (lo + Z.shiftl hi 8) 2047 < 2048.
Proof.
  unfold is_byte. intros Hl Hh. change 2047 with (Z.ones 11). rewrite !Z.land_ones, Z.shiftl_mul_pow2 by lia.
  change (2 ^ 11) with 2048. change (2 ^ 8) with 256.
  pose proof (Z.div_mod (lo + hi * 256) 2048 ltac:(lia)). pose proof (Z.mod_pos_bound (lo + hi * 256) 2048 ltac:(lia)).
  pose proof (Z.div_mod (hi * 256) 2048 ltac:(lia)). pose proof (Z.mod_pos_bound (hi * 256) 2048 ltac:(lia)). lia.
Qed.

Lemma or_bit_spec r n i : 0 <= n -> 0 <= i ->
  Z.testbit (Z.lor r (Z.shiftl 1 n)) i = Z.testbit r i || bool_decide (i = n).
Proof.
  intros Hn Hi. rewrite Z.lor_spec, Z.shiftl_1_l, Z.pow2_bits_eqb by done. f_equal.
  destruct (Z.eqb_spec n i); symmetry; [apply bool_decide_eq_true|apply bool_decide_eq_false]; lia.
Qed.

(** The three indexes of a digest. *)
Lemma digest_bits k : bytes k -> length k = 32%nat ->
  exists i0 i1 i2, mapM (bloom_index k) (seq 0 3) = Some [i0; i1; i2] /\
    bloom9_loop 3 0 k 0 = Some (Z.lor (Z.lor (Z.lor 0 (Z.shiftl 1 i0)) (Z.shiftl 1 i1)) (Z.shiftl 1 i2)) /\
    Forall (fun i => 0 <= i < 2048) [i0; i1; i2].
Proof.
  intros Hb Hl. do 6 (destruct k as [|? k]; [done|]). do 6 (apply Forall_cons in Hb as [? Hb]).
  cbn [bloom9_loop mapM seq bloom_index Nat.mul Nat.add lookup list_lookup mbind option_bind mret option_ret].
  eexists _, _, _. split; [reflexivity|].
  rewrite !(fun lo hi Hl Hh => proj1 (bloom_index_agrees lo hi Hl Hh)) by done. split; [reflexivity|].
  repeat (apply Forall_cons_2; [rewrite <-(fun lo hi Hl Hh => proj1 (bloom_index_agrees lo hi Hl Hh)) by done; by apply bloom_index_agrees|]).
  apply Forall_nil_2.
Qed.

Lemma calcBloomIndexes_total key :
  calcBloomIndexes key = Some (bloom_bits key) /\ Forall (fun i => 0 <= i < 2048) (bloom_bits key) /\ length (bloom_bits key) = 3%nat.
Proof.
  unfold bloom_bits, calcBloomIndexes. rewrite Keccak256_concat, some_bind. simpl mjoin. rewrite app_nil_r.
  destruct (keccak256_hash key) as [Hb Hl]. destruct (digest_bits _ Hb Hl) as (i0 & i1 & i2 & -> & _ & H). done.
Qed.

Lemma bloom9_spec key : exists m, bloom9 key = Some m /\ 0 <= m /\
  forall i, 0 <= i -> Z.testbit m i = bool_decide (i ∈ bloom_bits key).
Proof.
  unfold bloom_bits, calcBloomIndexes, bloom9. rewrite Keccak256_concat, !some_bind. simpl mjoin. rewrite app_nil_r.
  destruct (keccak256_hash key) as [Hb Hl]. destruct (digest_bits _ Hb Hl) as (i0 & i1 & i2 & -> & -> & Hr).
  rewrite !Forall_cons in Hr. destruct Hr as (H0 & H1 & H2 & _).
  eexists. split; [done|]. split; [repeat (apply Z.lor_nonneg; split); try apply Z.shiftl_nonneg; lia|].
  intros i Hi. rewrite !or_bit_spec, Z.bits_0 by lia. cbn [from_option id orb].
  rewrite <-!bool_decide_or. apply bool_decide_ext. rewrite !elem_of_cons, elem_of_nil. tauto.
Qed.

Lemma bloom_bits_range key i : i ∈ bloom_bits key -> 0 <= i < 2048.
Proof. intros Hi. destruct (calcBloomIndexes_total key) as (_ & H & _). by apply (proj1 (Forall_forall _ _) H). Qed.

(** ** Filters as sets of bits *)

(** A filter of the right size. *)
Definition bloom_ok (b : list Z) : Prop := bytes b /\ length b = BloomByteLength.

Definition has_bit (b : list Z) (i : Z) : bool := Z.testbit (be_get b) i.

(** All bits of the key are set. *)
Definition has_key (b key : list Z) : bool := forallb (has_bit b) (bloom_bits key).

Lemma BloomLookup_spec bin topic : BloomLookup bin topic = Some (has_key bin topic).
Proof.
  unfold BloomLookup. destruct (bloom9_spec topic) as (m & -> & Hm & Hb). rewrite some_bind. f_equal. unfold has_key.
  apply Bool.eq_true_iff_eq. rewrite Z.eqb_eq, forallb_forall. split.
  - intros He i Hi%list_elem_of_In. pose proof (bloom_bits_range _ _ Hi).
    apply (f_equal (fun x => Z.testbit x i)) in He. rewrite Z.land_spec, Hb in He by lia.
    rewrite bool_decide_eq_true_2 in He by done. by apply andb_true_iff in He as [? _].
  - intros Ha. apply Z.bits_inj'. intros i Hi. rewrite Z.land_spec, Hb by done.
    case_bool_decide as Hin; [|apply andb_false_r]. rewrite andb_true_r. by apply Ha, list_elem_of_In.
Qed.

(** Values of 2048 bits fit and are stored. *)
Lemma min_bytes_value v : 0 <= v -> be_get (min_bytes v) = v /\ bytes (min_bytes v).
Proof.
  intros Hv. unfold min_bytes. destruct (Z.eqb_spec v 0) as [->|]; [by split; [|apply Forall_nil_2]|].
  split; [apply big_Bytes_spec; lia|apply be_put_bytes].
Qed.

Lemma bloom_SetBytes_value b v : bloom_ok b -> be_get b <= v < 2 ^ 2048 ->
  exists b', bloom_SetBytes b (min_bytes v) = Some b' /\ bloom_ok b' /\ be_get b' = v.
Proof.
  intros [Hb Hl] Hv. pose proof (be_get_bound b Hb) as H0. destruct (min_bytes_value v ltac:(lia)) as [Hd Hdb].
  pose proof (min_bytes_length v 256) as Hn. change (256 ^ Z.of_nat 256) with (2 ^ 2048) in Hn. specialize (Hn ltac:(lia)).
  unfold bloom_SetBytes, BloomByteLength in *. rewrite decide_False by lia. eexists. split; [done|].
  set (d := min_bytes v) in *. unfold memcpy. rewrite (drop_ge b), app_nil_r by lia.
  pose proof (be_get_bound _ (bytes_take (256 - length d) b Hb)) as Ht. pose proof (be_get_bound _ Hdb) as Hvd. rewrite Hd in Hvd.
  split; [split|].
  - apply bytes_app. split; [by apply bytes_take|done].
  - rewrite length_app, length_take. unfold BloomByteLength. lia.
  - rewrite be_get_app, Hd. pose proof (be_get_app (take (256 - length d) b) (drop (256 - length d) b)) as Hsplit.
    rewrite take_drop, length_drop in Hsplit. replace (length b - (256 - length d))%nat with (length d) in Hsplit by lia.
    pose proof (be_get_bound _ (bytes_drop (256 - length d) b Hb)) as Hdr.
    assert (be_get (take (256 - length d) b) = 0) as ->; [|lia]. nia.
Qed.

(** The keys of logs. *)
Definition log_keys (l : Log) : list (list Z) := lAddress l :: lTopics l.

Definition in_keys (keys : list (list Z)) (i : Z) : bool := existsb (fun key => bool_decide (i ∈ bloom_bits key)) keys.

(** [bin'] is [bin] with the bits of the keys. *)
Definition adds (keys : list (list Z)) (bin bin' : Z) : Prop :=
  0 <= bin' /\ forall i, 0 <= i -> Z.testbit bin' i = Z.testbit bin i || in_keys keys i.

Lemma adds_nil bin : 0 <= bin -> adds [] bin bin.
Proof. intros. split; [done|]. intros. by rewrite orb_false_r. Qed.

Lemma adds_app k1 k2 x y z : adds k1 x y -> adds k2 y z -> adds (k1 ++ k2) x z.
Proof.
  intros [_ H1] [H2 H3]. split; [done|]. intros i Hi. rewrite H3, H1, <-orb_assoc by done. f_equal.
  unfold in_keys. by rewrite existsb_app.
Qed.

Lemma adds_key key bin : 0 <= bin -> exists m, bloom9 key = Some m /\ adds [key] bin (Z.lor bin m).
Proof.
  intros Hb. destruct (bloom9_spec key) as (m & -> & Hm & Hs). exists m. split; [done|]. split; [by apply Z.lor_nonneg|].
  intros i Hi. rewrite Z.lor_spec, Hs by done. simpl. by rewrite orb_false_r.
Qed.

Lemma topics_bloom_spec topics : forall bin, 0 <= bin -> exists bin', topics_bloom topics bin = Some bin' /\ adds topics bin bin'.
Proof.
  induction topics as [|b topics IH]; intros bin Hb; [exists bin; split; [done|by apply adds_nil]|]. simpl.
  destruct (adds_key b bin Hb) as (m & -> & Ha). rewrite some_bind. destruct (IH _ (proj1 Ha)) as (bin' & -> & Ha').
  exists bin'. split; [done|]. by apply (adds_app [b] topics bin (Z.lor bin m)).
Qed.

Lemma logs_bloom_spec logs : forall bin, 0 <= bin ->
  exists bin', logs_bloom logs bin = Some bin' /\ adds (logs ≫= log_keys) bin bin'.
Proof.
  induction logs as [|l logs IH]; intros bin Hb; [exists bin; split; [done|by apply adds_nil]|]. cbn [logs_bloom].
  destruct (adds_key (lAddress l) bin Hb) as (m & -> & Ha). rewrite some_bind.
  destruct (topics_bloom_spec (lTopics l) _ (proj1 Ha)) as (b1 & -> & H1). rewrite some_bind.
  destruct (IH _ (proj1 H1)) as (bin' & -> & H2). exists bin'. split; [done|].
  change ((l :: logs) ≫= log_keys) with (log_keys l ++ (logs ≫= log_keys)).
  apply (adds_app (log_keys l) (logs ≫= log_keys) bin b1); [|done]. by apply (adds_app [lAddress l] (lTopics l) bin (Z.lor bin m)).
Qed.

Lemma receipts_bloom_spec receipts : forall bin, 0 <= bin ->
  exists bin', receipts_bloom receipts bin = Some bin' /\ adds (mjoin receipts ≫= log_keys) bin bin'.
Proof.
  induction receipts as [|r receipts IH]; intros bin Hb; [exists bin; split; [done|by apply adds_nil]|]. cbn [receipts_bloom].
  unfold LogsBloom. destruct (logs_bloom_spec r 0 ltac:(done)) as (m & -> & [Hm Hms]). rewrite some_bind.
  assert (adds (r ≫= log_keys) bin (Z.lor bin m)) as H1.
  { split; [by apply Z.lor_nonneg|]. intros i Hi. by rewrite Z.lor_spec, Hms, Z.bits_0 by done. }
  destruct (IH _ (proj1 H1)) as (bin' & -> & H2). exists bin'. split; [done|].
  change (mjoin (r :: receipts)) with (r ++ mjoin receipts). rewrite bind_app. by eapply adds_app.
Qed.

Lemma in_keys_range keys i : in_keys keys i = true -> 0 <= i < 2048.
Proof. intros (key & _ & Hi%bool_decide_eq_true)%existsb_exists. by eapply bloom_bits_range. Qed.

Lemma adds_bound keys bin bin' : 0 <= bin < 2 ^ 2048 -> adds keys bin bin' -> bin <= bin' < 2 ^ 2048.
Proof.
  intros Hb [H0 Hs]. split.
  - assert (Z.ldiff bin bin' = 0) as E.
    { apply Z.bits_inj'. intros i Hi. rewrite Z.ldiff_spec, Hs, Z.bits_0 by done. by destruct (Z.testbit bin i). }
    pose proof (Z.sub_nocarry_ldiff bin' bin E). pose proof (proj2 (Z.ldiff_nonneg bin' bin) (or_introl H0)). lia.
  - apply (is_uint_bits 2048 _ ltac:(lia)). split; [done|]. intros i Hi. rewrite Hs by lia.
    rewrite (proj2 (proj1 (is_uint_bits 2048 bin ltac:(lia)) Hb)) by done. destruct (in_keys keys i) eqn:E; [|done].
    apply in_keys_range in E. lia.
Qed.

Lemma zero_bloom_ok : bloom_ok (replicate BloomByteLength 0).
Proof. split; [apply bytes_replicate_0|apply length_replicate]. Qed.

Lemma zero_bloom_value : be_get (replicate BloomByteLength 0) = 0.
Proof. reflexivity. Qed.

Lemma CreateBloom_spec receipts : exists b, CreateBloom receipts = Some b /\ bloom_ok b /\
  forall i, 0 <= i -> has_bit b i = in_keys (mjoin receipts ≫= log_keys) i.
Proof.
  unfold CreateBloom, BytesToBloom. destruct (receipts_bloom_spec receipts 0 ltac:(done)) as (bin & -> & Ha). rewrite some_bind.
  pose proof (adds_bound _ _ _ ltac:(done) Ha) as Hb.
  destruct (bloom_SetBytes_value (replicate BloomByteLength 0) bin zero_bloom_ok) as (b & -> & Hok & Hv).
  - rewrite zero_bloom_value. lia.
  - exists b. split; [done|]. split; [done|]. intros i Hi. unfold has_bit. rewrite Hv, (proj2 Ha), Z.bits_0 by done. done.
Qed.

(** The filter of a block.  [CreateBloom] never panics and sets exactly
    the bits of the addresses and topics of the logs in the receipts, so
    [BloomLookup] finds every one of them, and it says "absent" only for a key
    one of whose bits belongs to no log of the block. *)
Theorem bloom_no_false_negatives receipts : exists b, CreateBloom receipts = Some b /\ bloom_ok b /\
  (forall log key, log ∈ mjoin receipts -> key = lAddress log \/ key ∈ lTopics log -> BloomLookup b key = Some true) /\
  (forall key, BloomLookup b key = Some false ->
     exists i, i ∈ bloom_bits key /\ forall log key', log ∈ mjoin receipts -> key' = lAddress log \/ key' ∈ lTopics log ->
       i ∉ bloom_bits key').
Proof.
  destruct (CreateBloom_spec receipts) as (b & Hc & Hok & Hb). exists b. split; [done|]. split; [done|].
  assert (forall log key, log ∈ mjoin receipts -> key = lAddress log \/ key ∈ lTopics log ->
    forall i, i ∈ bloom_bits key -> in_keys (mjoin receipts ≫= log_keys) i = true) as Hin.
  { intros log key Hl Hk i Hi. apply existsb_exists. exists key. split; [|by apply bool_decide_eq_true].
    apply list_elem_of_In, list_elem_of_bind. exists log. split; [|done]. unfold log_keys. rewrite elem_of_cons. tauto. }
  split.
  - intros log key Hl Hk. rewrite BloomLookup_spec. f_equal. apply forallb_forall. intros i Hi%list_elem_of_In.
    rewrite Hb by (pose proof (bloom_bits_range _ _ Hi); lia). by eapply Hin.
  - intros key. rewrite BloomLookup_spec. intros [= Hf]. unfold has_key in Hf.
    assert (exists i, i ∈ bloom_bits key /\ has_bit b i = false) as (i & Hi & Hbi).
    { induction (bloom_bits key) as [|i l IH]; [done|]. simpl in Hf. destruct (has_bit b i) eqn:E.
      - destruct (IH Hf) as (j & Hj & Ej). exists j. split; [by right|done].
      - exists i. split; [left|done]. }
    exists i. split; [done|]. intros log key' Hl Hk Hi'. rewrite Hb in Hbi by (pose proof (bloom_bits_range _ _ Hi); lia).
    by rewrite (Hin log key' Hl Hk i Hi') in Hbi.
Qed.

(** [Add] sets the bits of the key and no others. *)
Lemma bloom_Add_spec b d : bloom_ok b -> exists b', bloom_Add b d = Some b' /\ bloom_ok b' /\
  (forall i, 0 <= i -> has_bit b' i = has_bit b i || in_keys [min_bytes d] i) /\ bloom_Test b' d = Some true.
Proof.
  intros Hok. unfold bloom_Add. pose proof (be_get_bound b (proj1 Hok)) as Hb. rewrite (proj2 Hok) in Hb.
  change (256 ^ Z.of_nat BloomByteLength) with (2 ^ 2048) in Hb.
  destruct (adds_key (min_bytes d) (be_get b) ltac:(lia)) as (m & -> & Ha). rewrite some_bind.
  destruct (bloom_SetBytes_value b _ Hok (adds_bound _ _ _ Hb Ha)) as (b' & -> & Hok' & Hv).
  assert (forall i, 0 <= i -> has_bit b' i = has_bit b i || in_keys [min_bytes d] i) as Hbits.
  { intros i Hi. unfold has_bit. rewrite Hv. by apply Ha. }
  exists b'. do 3 (split; [done|]). unfold bloom_Test. rewrite BloomLookup_spec. f_equal.
  apply forallb_forall. intros i Hi%list_elem_of_In. rewrite Hbits by (pose proof (bloom_bits_range _ _ Hi); lia).
  simpl. by rewrite bool_decide_eq_true_2, orb_true_r.
Qed.

(** [TestBytes] looks up the key without its leading zeros, which is not the
    key the logs have set: it misses a topic of the block that [BloomLookup]
    finds. *)
Lemma TestBytes_misses : exists log topic b, topic ∈ lTopics log /\ length topic = 32%nat /\
  CreateBloom [[log]] = Some b /\ BloomLookup b topic = Some true /\ bloom_TestBytes b topic = Some false.
Proof.
  exists (mkLog (replicate 23 1) [replicate 31 0 ++ [1]] [] 0 [] 0 [] 0), (replicate 31 0 ++ [1]).
  eexists. split; [left|]. split; [done|]. split; [vm_compute; reflexivity|]. split; vm_compute; reflexivity.
Qed.

(** ** The generator *)

Lemma be_get_testbit l : bytes l -> forall i, (i < 8 * length l)%nat ->
  Z.testbit (be_get l) (Z.of_nat i) = Z.testbit (byte_at l (length l - 1 - i / 8)) (Z.of_nat (i mod 8)).
Proof.
  induction l as [|x l IH] using rev_ind; intros Hb i Hi; [simpl in Hi; lia|].
  apply bytes_app in Hb as [Hl Hx]. apply Forall_cons in Hx as [Hx _]. rewrite length_app in *. cbn [length] in *.
  rewrite be_get_app. change (be_get [x]) with (0 * 256 + x). cbn [length].
  replace (be_get l * 256 ^ Z.of_nat 1 + (0 * 256 + x)) with (x + 256 * be_get l) by (change (256 ^ Z.of_nat 1) with 256; lia).
  rewrite (cat_bits x (be_get l) _ Hx) by lia. destruct (Z.ltb_spec (Z.of_nat i) 8) as [H8|H8].
  - rewrite Nat.div_small, Nat.mod_small by lia. unfold byte_at. rewrite lookup_app_r by lia.
    replace (length l + 1 - 1 - 0 - length l)%nat with 0%nat by lia. done.
  - replace (Z.of_nat i - 8) with (Z.of_nat (i - 8)) by lia. rewrite IH by (done || lia).
    replace i with ((i - 8) + 1 * 8)%nat at 3 4 by lia. rewrite Nat.div_add, Nat.Div0.mod_add by lia. f_equal.
    assert ((i - 8) / 8 < length l)%nat by (apply Nat.Div0.div_lt_upper_bound; lia).
    unfold byte_at. rewrite lookup_app_l by lia. do 2 f_equal. lia.
Qed.

Lemma bloom_bit_test b i x : bloom_ok b -> (i < 2048)%nat -> b !! (BloomByteLength - 1 - i / 8)%nat = Some x ->
  (Z.land x (Z.shiftl 1 (Z.of_nat (i mod 8))) =? 0) = negb (has_bit b (Z.of_nat i)).
Proof.
  intros [Hb Hl] Hi Hx. unfold has_bit. rewrite be_get_testbit by (done || (rewrite Hl; unfold BloomByteLength; lia)).
  rewrite Hl. unfold byte_at. rewrite Hx. cbn [from_option id].
  pose proof (Nat.mod_upper_bound i 8 ltac:(lia)).
  replace (Z.shiftl 1 (Z.of_nat (i mod 8))) with (mask (7 - i mod 8)).
  - rewrite land_mask. do 3 f_equal. rewrite (Nat.mod_small (7 - i mod 8)) by lia. lia.
  - unfold mask. do 2 f_equal. rewrite (Nat.mod_small (7 - i mod 8)) by lia. lia.
Qed.

(** The rows hold the bits of the filters added so far. *)
Record gen_holds (g : Generator) (bs : list (list Z)) : Prop := mkGenHolds {
  gh_next : nextBit g = length bs;
  gh_fits : (length bs <= sections g)%nat;
  gh_sections : (sections g mod 8 = 0)%nat;
  gh_rows : length (blooms g) = BloomBitLength;
  gh_row i row : blooms g !! i = Some row -> bytes row /\ length row = (sections g / 8)%nat /\
    forall k, bit row k = match bs !! k with Some b => has_bit b (Z.of_nat i) | None => false end
}.

Lemma NewGenerator_holds sections g : NewGenerator sections = Ok g -> gen_holds g [] /\ Bloom.sections g = sections.
Proof.
  unfold NewGenerator. destruct (Nat.eqb_spec (sections mod 8) 0) as [H8|H8]; [|done]. cbn [negb].
  rewrite guard_err_pass. intros [= <-]. split; [|done]. split; simpl; [done|lia|done|apply length_replicate|].
  intros i row [-> _]%lookup_replicate. split; [apply bytes_replicate_0|]. split; [apply length_replicate|].
  intros k. by rewrite bit_zeros.
Qed.

(** What one filter does to row [i]. *)
Definition mark_row (next : nat) (b : list Z) (i : nat) (row : list Z) : list Z :=
  if has_bit b (Z.of_nat i) then <[(next / 8)%nat := Z.lor (byte_at row (next / 8)) (mask next)]> row else row.

Lemma add_bits_ok g bs b : gen_holds g bs -> bloom_ok b -> (length bs < sections g)%nat ->
  for_up 0 BloomBitLength (add_bit (nextBit g / 8) (mask (nextBit g)) b) (blooms g) =
  Some (update_window 0 BloomBitLength (mark_row (nextBit g) b) (blooms g)).
Proof.
  intros G Hb Hl. apply for_up_update_in; [by rewrite (gh_rows _ _ G)|]. intros j cb row Hj Hrow Hcb.
  unfold add_bit. Transparent BloomBitLength. unfold BloomBitLength in Hj. Opaque BloomBitLength.
  destruct (lookup_lt_is_Some_2 b (BloomByteLength - 1 - j / 8)) as [x Hx].
  { rewrite (proj2 Hb). unfold BloomByteLength. lia. }
  rewrite Hx, some_bind, (bloom_bit_test b j x Hb Hj Hx). cbn [Nat.add] in Hcb, Hrow. unfold mark_row.
  destruct (has_bit b (Z.of_nat j)); cbn [negb]; [|by rewrite list_insert_id].
  destruct (gh_row _ _ G j row Hrow) as (_ & Hlr & _). rewrite Hcb, some_bind. rewrite (gh_next _ _ G).
  destruct (lookup_lt_is_Some_2 row (length bs / 8)) as [y Hy].
  { rewrite Hlr. apply Nat.Div0.div_lt_upper_bound. pose proof (gh_sections _ _ G). pose proof (Nat.div_mod (sections g) 8). lia. }
  rewrite Hy, some_bind, store_Some, some_bind by (by eapply lookup_lt_Some).
  rewrite store_Some by (by eapply lookup_lt_Some). unfold byte_at. by rewrite Hy.
Qed.

Lemma mark_row_bits next b i row k : bytes row -> (next < 8 * length row)%nat ->
  bytes (mark_row next b i row) /\ length (mark_row next b i row) = length row /\
  bit (mark_row next b i row) k = bit row k || (has_bit b (Z.of_nat i) && bool_decide (k = next)).
Proof.
  intros Hr Hn. unfold mark_row. destruct (has_bit b (Z.of_nat i)).
  - split; [|split; [apply length_insert|by rewrite bit_set] ]. apply Forall_insert; [done|].
    apply lor_byte; [|apply mask_byte]. unfold byte_at. destruct (row !! (next / 8)%nat) eqn:E; [|done].
    by apply (Forall_lookup_1 _ _ _ _ Hr E).
  - split; [done|]. split; [done|]. by rewrite orb_false_r.
Qed.

Lemma AddBloom_holds g bs b : gen_holds g bs -> bloom_ok b -> (length bs < sections g)%nat ->
  exists g', AddBloom g (length bs) b = Ok g' /\ gen_holds g' (bs ++ [b]) /\ sections g' = sections g.
Proof.
  intros G Hb Hl. pose proof (gh_next _ _ G) as Hn. pose proof (gh_sections _ _ G) as H8.
  unfold AddBloom. rewrite (proj2 (Nat.leb_gt _ _)), guard_err_pass by lia.
  rewrite (proj2 (Nat.eqb_eq _ _)) by done. cbn [negb]. rewrite guard_err_pass, (add_bits_ok _ _ _ G Hb Hl), or_panic_bind.
  eexists. split; [done|]. split; [|done]. split; cbn [nextBit sections blooms].
  - rewrite length_app, Hn. simpl. lia.
  - rewrite length_app. simpl. lia.
  - done.
  - rewrite length_update_window. apply (gh_rows _ _ G).
  - intros i row. rewrite lookup_update_window. intros (r0 & Hr0 & ->)%fmap_Some.
    pose proof (lookup_lt_Some _ _ _ Hr0) as Hi. rewrite (gh_rows _ _ G) in Hi. rewrite decide_True, Nat.sub_0_r by lia.
    destruct (gh_row _ _ G i r0 Hr0) as (B & L & K). pose proof (Nat.div_mod (sections g) 8).
    assert (nextBit g < 8 * length r0)%nat as Hnr by lia.
    split; [by apply (mark_row_bits _ _ _ _ 0)|]. split; [rewrite <-L; by apply (mark_row_bits _ _ _ _ 0)|].
    intros k. rewrite (proj2 (proj2 (mark_row_bits _ b i r0 k B Hnr))), K, Hn.
    destruct (lt_eq_lt_dec k (length bs)) as [[Hk|Hk]|Hk].
    + rewrite lookup_app_l, (bool_decide_eq_false_2 (k = _)), andb_false_r, orb_false_r by lia. done.
    + subst k. rewrite (lookup_ge_None_2 bs), lookup_app_r, Nat.sub_diag, bool_decide_eq_true_2, andb_true_r by lia. done.
    + rewrite !lookup_ge_None_2 by (rewrite ?length_app; simpl; lia).
      by rewrite (bool_decide_eq_false_2 (k = _)), andb_false_r by lia.
Qed.
