(* ===== verification/LogIndex.v ===== *)
(** * The index of bloom bits (src/xdn/bloombits.go, src/core/database_util.go)

    The indexer that writes one compressed bit vector for each bit of the
    filter and each section of blocks, and the service that reads them back. *)
From S2P Require Import State Prelude Sha3 Types Rlp StateCodec HeaderHash Bitutil Bloom.

(** ** database_util.go *)

(** A key-value store. *)
Notation KV := (gmap (list Z) (list Z)).

Definition headerPrefix : list Z := [0x68].
Definition numSuffix : list Z := [0x6e].
Definition bloomBitsPrefix : list Z := [0x42].

Definition encodeBlockNumber (number : Z) : list Z := be_put 8 number.
Definition canonical_key (number : Z) : list Z := headerPrefix ++ encodeBlockNumber number ++ numSuffix.

Definition GetCanonicalHash (db : KV) (number : Z) : Hash :=
  let data := default [] (db !! canonical_key number) in
  if decide (length data = 0%nat) then zeroHash else BytesToHash data.

Definition WriteCanonicalHash (db : KV) (hash : Hash) (number : Z) : KV := <[canonical_key number := hash]> db.

(** Ten bytes behind the prefix, filled with the bit and the section. *)
Definition bloom_key (bit section : Z) (head : Hash) : list Z :=
  let key := bloomBitsPrefix ++ replicate 10 0 ++ head in
  memcpy (memcpy key 1 (be_put 2 bit)) 3 (be_put 8 section).

Definition GetBloomBits (db : KV) (bit section : Z) (head : Hash) : option (list Z) := db !! bloom_key bit section head.
Definition WriteBloomBits (db : KV) (bit section : Z) (head : Hash) (bits : list Z) : KV :=
  <[bloom_key bit section head := bits]> db.

(** ** bloombits.go: the indexer *)

Definition BloomBitsBlocks : nat := 4096.

Record BloomIndexer := mkBloomIndexer {
  bi_size : nat;
  bi_db : KV;
  bi_gen : option Generator;
  bi_section : Z;
  bi_head : Hash
}.

(** The generator is nil after an error. *)
Definition Reset (b : BloomIndexer) (sec : Z) : option gen_error * BloomIndexer :=
  match NewGenerator (bi_size b) with
  | Ok g => (None, mkBloomIndexer (bi_size b) (bi_db b) (Some g) sec zeroHash)
  | Err e => (Some e, mkBloomIndexer (bi_size b) (bi_db b) None sec zeroHash)
  | Panic => (None, b)
  end.

(** The error of [AddBloom] is dropped. *)
Definition Process (b : BloomIndexer) (header : Header) : option BloomIndexer :=
  g ← bi_gen b;
  n ← Number header;
  let index := Z.to_nat (u64 (big_Uint64 n - bi_section b * Z.of_nat (bi_size b))) in
  g ← match AddBloom g index (Types.Bloom header) with Ok g' => Some g' | Err _ => Some g | Panic => None end;
  h ← Header_Hash header;
  Some (mkBloomIndexer (bi_size b) (bi_db b) (Some g) (bi_section b) h).

(** The writes of the batch, [n] bits from [i] on. *)
Fixpoint commit_loop (n i : nat) (g : Generator) (sec : Z) (h : Hash) (batch : KV) : outcome gen_error KV :=
  match n with
  | O => Ok batch
  | S n' =>
      bits ← Bitset g i;
      c ← or_panic (CompressBytes bits);
      commit_loop n' (S i) g sec h (WriteBloomBits batch (Z.of_nat i) sec h c)
  end.

(** The batch is written at the end; an error leaves the store as it was. *)
Definition Commit (b : BloomIndexer) : outcome gen_error BloomIndexer :=
  g ← or_panic (bi_gen b);
  d ← commit_loop BloomBitLength 0 g (bi_section b) (bi_head b) (bi_db b);
  Ok (mkBloomIndexer (bi_size b) d (bi_gen b) (bi_section b) (bi_head b)).

Fixpoint process_all (b : BloomIndexer) (headers : list Header) : option BloomIndexer :=
  match headers with
  | [] => Some b
  | h :: headers' => b ← Process b h; process_all b headers'
  end.

(** A section as the chain indexer drives its backend. *)
Definition index_section (b : BloomIndexer) (sec : Z) (headers : list Header) : outcome gen_error BloomIndexer :=
  match Reset b sec with
  | (Some e, _) => Err e
  | (None, b) => b ← or_panic (process_all b headers); Commit b
  end.

(** ** bloombits.go: the service *)

Inductive serve_error := errNotFound | errCompressed (e : Bitutil.error).

(** The vector delivered for one bit and one section. *)
Definition serve (d : KV) (bit sec : Z) : outcome serve_error (list Z) :=
  let h := GetCanonicalHash d (u64 ((sec + 1) * Z.of_nat BloomBitsBlocks - 1)) in
  match GetBloomBits d bit sec h with
  | None => Err errNotFound
  | Some compVector =>
      match DecompressBytes compVector (Z.of_nat BloomBitsBlocks / 8) with
      | Ok blob => Ok blob
      | Err e => Err (errCompressed e)
      | Panic => Panic
      end
  end.

(** ** Keys *)

Lemma bloom_key_eq bit sec h : bloom_key bit sec h = bloomBitsPrefix ++ be_put 2 bit ++ be_put 8 sec ++ h.
Proof. reflexivity. Qed.

Lemma be_put_inj n a b : 0 <= a < 256 ^ Z.of_nat n -> 0 <= b < 256 ^ Z.of_nat n -> be_put n a = be_put n b -> a = b.
Proof. intros Ha Hb He. apply (f_equal be_get) in He. by rewrite !be_get_put_small in He. Qed.

Lemma bloom_key_inj i j sec sec' h h' : 0 <= i < 2048 -> 0 <= j < 2048 -> 0 <= sec < 2 ^ 64 -> 0 <= sec' < 2 ^ 64 ->
  bloom_key i sec h = bloom_key j sec' h' -> i = j /\ sec = sec' /\ h = h'.
Proof.
  intros Hi Hj Hs Hs'. rewrite !bloom_key_eq. intros He. apply app_inv_head in He.
  apply app_inj_1 in He as [H1 He]; [|by rewrite !length_be_put]. apply app_inj_1 in He as [H2 ->]; [|by rewrite !length_be_put].
  apply be_put_inj in H1; [|change (256 ^ Z.of_nat 2) with 65536; lia..]. apply be_put_inj in H2; [|done..]. done.
Qed.

Lemma bloom_key_canonical i sec h n : bloom_key i sec h <> canonical_key n.
Proof. rewrite bloom_key_eq. done. Qed.

(** ** Indexing a section *)

#[local] Opaque BloomBitLength.

(** The headers of the section, from position [k] on. *)
Definition section_headers (sec : Z) (sz k : nat) (headers : list Header) : Prop :=
  forall j h, headers !! j = Some h ->
    Number h = Some (sec * Z.of_nat sz + Z.of_nat (k + j)) /\ bloom_ok (Types.Bloom h) /\ is_Some (Header_Hash h).

Lemma section_headers_cons sec sz k h headers : section_headers sec sz k (h :: headers) ->
  Number h = Some (sec * Z.of_nat sz + Z.of_nat k) /\ bloom_ok (Types.Bloom h) /\ is_Some (Header_Hash h) /\
  section_headers sec sz (S k) headers.
Proof.
  intros Hs. pose proof (Hs 0%nat h eq_refl) as (Hn & Hb & Hh). rewrite Nat.add_0_r in Hn. do 3 (split; [done|]).
  intros j h' Hj. specialize (Hs (S j) h' Hj). by replace (k + S j)%nat with (S k + j)%nat in Hs by lia.
Qed.

(** The indexer has seen the filters [bs] of section [sec]. *)
Definition indexing (b : BloomIndexer) (sec : Z) (bs : list (list Z)) : Prop :=
  bi_section b = sec /\ exists g, bi_gen b = Some g /\ gen_holds g bs /\ sections g = bi_size b.

Lemma Process_adds b sec bs h : indexing b sec bs -> 0 <= sec -> (sec + 1) * Z.of_nat (bi_size b) < 2 ^ 64 ->
  (length bs < bi_size b)%nat -> Number h = Some (sec * Z.of_nat (bi_size b) + Z.of_nat (length bs)) ->
  bloom_ok (Types.Bloom h) -> is_Some (Header_Hash h) ->
  exists b', Process b h = Some b' /\ indexing b' sec (bs ++ [Types.Bloom h]) /\ bi_size b' = bi_size b /\
    bi_db b' = bi_db b /\ Header_Hash h = Some (bi_head b').
Proof.
  intros (Hs & g & Hg & G & Hsz) H0 Hb64 Hl Hn Hb [hash Hh]. unfold Process. rewrite Hg, Hn, !some_bind, Hs. cbv zeta.
  assert (Z.to_nat (u64 (big_Uint64 (sec * Z.of_nat (bi_size b) + Z.of_nat (length bs)) - sec * Z.of_nat (bi_size b))) = length bs) as ->.
  { unfold big_Uint64. rewrite Z.abs_eq by lia. unfold u64. rewrite (Z.mod_small (_ + _)) by nia.
    rewrite Z.mod_small by nia. lia. }
  destruct (AddBloom_holds g bs (Types.Bloom h) G Hb) as (g' & -> & G' & Hs'); [lia|].
  rewrite some_bind, Hh, some_bind. eexists. split; [done|]. split; [|done]. split; [done|]. exists g'. split; [done|]. split; [done|]. simpl. congruence.
Qed.

Lemma process_all_adds headers : forall b sec bs, indexing b sec bs -> 0 <= sec ->
  (sec + 1) * Z.of_nat (bi_size b) < 2 ^ 64 -> (length bs + length headers <= bi_size b)%nat ->
  section_headers sec (bi_size b) (length bs) headers ->
  exists b', process_all b headers = Some b' /\ indexing b' sec (bs ++ map Types.Bloom headers) /\ bi_size b' = bi_size b /\
    bi_db b' = bi_db b /\ (headers = [] -> bi_head b' = bi_head b) /\
    forall h, last headers = Some h -> Header_Hash h = Some (bi_head b').
Proof.
  induction headers as [|h headers IH]; intros b sec bs Hi H0 H64 Hl Hh.
  - exists b. rewrite app_nil_r. done.
  - apply section_headers_cons in Hh as (Hn & Hb & Hhash & Hh). cbn [length] in Hl.
    destruct (Process_adds b sec bs h Hi H0 H64 ltac:(lia) Hn Hb Hhash) as (b1 & E1 & Hi1 & Hs1 & Hd1 & Hh1).
    cbn [process_all]. rewrite E1, some_bind.
    destruct (IH b1 sec (bs ++ [Types.Bloom h]) Hi1 H0) as (b2 & -> & Hi2 & Hs2 & Hd2 & He2 & Hh2).
    + by rewrite Hs1.
    + rewrite length_app, Hs1. simpl. lia.
    + rewrite length_app, Hs1. simpl. by rewrite Nat.add_1_r.
    + exists b2. split; [done|]. rewrite <-app_assoc in Hi2. split; [done|]. split; [congruence|]. split; [congruence|].
      split; [done|]. intros h' Hlast. destruct headers as [|h2 headers]; [|by apply Hh2].
      injection Hlast as <-. by rewrite Hh1, He2.
Qed.

(** ** Writing the section *)

Lemma Bitset_row g bs i : gen_holds g bs -> length bs = sections g -> (i < sections g)%nat -> (i < BloomBitLength)%nat ->
  exists row, Bitset g i = Ok row /\ blooms g !! i = Some row.
Proof.
  intros G Hl Hi Hb. unfold Bitset. rewrite (gh_next _ _ G), Hl, Nat.eqb_refl. cbn [negb].
  rewrite guard_err_pass, (proj2 (Nat.leb_gt _ _)), guard_err_pass by lia.
  destruct (lookup_lt_is_Some_2 (blooms g) i) as [row Hr]; [by rewrite (gh_rows _ _ G)|]. exists row. by rewrite Hr.
Qed.

Lemma BloomBitLength_2048 : BloomBitLength = 2048%nat.
Proof. reflexivity. Qed.

Lemma commit_loop_writes g bs sec h n : gen_holds g bs -> length bs = sections g -> (BloomBitLength <= sections g)%nat ->
  0 <= sec < 2 ^ 64 -> forall i batch, (i + n = BloomBitLength)%nat ->
  exists d, commit_loop n i g sec h batch = Ok d /\
    (forall j, (i <= j < BloomBitLength)%nat -> exists row c, blooms g !! j = Some row /\ CompressBytes row = Some c /\
       d !! bloom_key (Z.of_nat j) sec h = Some c) /\
    (forall key, (forall j, (i <= j < BloomBitLength)%nat -> key <> bloom_key (Z.of_nat j) sec h) -> d !! key = batch !! key).
Proof.
  intros G Hl Hs Hsec. induction n as [|n IH]; intros i batch Hn; cbn [commit_loop].
  - exists batch. split; [done|]. split; [lia|done].
  - destruct (Bitset_row g bs i G Hl ltac:(lia) ltac:(lia)) as (row & -> & Hr). rewrite ok_bind.
    destruct (gh_row _ _ G i row Hr) as (Hb & _). destruct (CompressBytes_roundtrip row Hb) as (c & Hc & _).
    rewrite Hc, or_panic_bind. destruct (IH (S i) (WriteBloomBits batch (Z.of_nat i) sec h c) ltac:(lia)) as (d & -> & H1 & H2).
    pose proof BloomBitLength_2048 as HB. exists d. split; [done|]. split.
    + intros j Hj. destruct (decide (j = i)) as [->|Hne]; [|apply H1; lia]. exists row, c. do 2 (split; [done|]).
      rewrite H2; [apply lookup_insert_eq|]. intros k Hk He. apply bloom_key_inj in He as [He _]; [lia|lia..].
    + intros key Hk. rewrite H2 by (intros; apply Hk; lia). apply lookup_insert_ne. symmetry. apply Hk. lia.
Qed.

(** ** What is served *)

(** Bit [k] of the vector for a bit of the filter is that bit in block [k]. *)
Definition column (bs : list (list Z)) (i : Z) (v : list Z) : Prop :=
  bytes v /\ length v = (length bs / 8)%nat /\
  forall k, bit v k = match bs !! k with Some b => has_bit b i | None => false end.

Definition serves (d : KV) (sec : Z) (bs : list (list Z)) : Prop :=
  forall i, 0 <= i < 2048 -> exists v, serve d i sec = Ok v /\ column bs i v.

Lemma rlpHash_length v x : rlpHash v = Some x -> length x = 32%nat.
Proof.
  unfold rlpHash. destruct (writer v reset_buf) as [w|e|].
  - intros (chunks & _ & Hk)%bind_Some. rewrite Keccak256_concat in Hk. injection Hk as <-. apply keccak256_hash.
  - rewrite Keccak256_concat. intros Hk. apply (inj Some) in Hk. rewrite <-Hk. apply keccak256_hash.
  - intros [=].
Qed.

Lemma Header_Hash_length h x : Header_Hash h = Some x -> length x = 32%nat.
Proof. apply rlpHash_length. Qed.

Lemma GetCanonicalHash_stored d n hash : length hash = 32%nat -> d !! canonical_key n = Some hash -> GetCanonicalHash d n = hash.
Proof.
  intros Hl Hd. unfold GetCanonicalHash. rewrite Hd. cbn [from_option id]. rewrite decide_False by lia.
  unfold BytesToHash, BytesToN. rewrite Hl. change (32 - 32)%nat with 0%nat. rewrite drop_0, Hl. done.
Qed.

(** The number of the last block of a section. *)
Definition last_number (sec : Z) : Z := (sec + 1) * Z.of_nat BloomBitsBlocks - 1.

(** The section of the canonical chain the store knows. *)
Record stored_section (d : KV) (sec : Z) (headers : list Header) : Prop := mkStoredSection {
  ss_range : 0 <= sec /\ (sec + 1) * Z.of_nat BloomBitsBlocks < 2 ^ 64;
  ss_length : length headers = BloomBitsBlocks;
  ss_headers : section_headers sec BloomBitsBlocks 0 headers;
  ss_head : exists h hash, last headers = Some h /\ Header_Hash h = Some hash /\ d !! canonical_key (last_number sec) = Some hash
}.

Lemma serve_eq d sec hash i : (0 <= sec /\ (sec + 1) * Z.of_nat BloomBitsBlocks < 2 ^ 64) ->
  length hash = 32%nat -> d !! canonical_key (last_number sec) = Some hash ->
  serve d i sec =
  match d !! bloom_key i sec hash with
  | None => Err errNotFound
  | Some c => match DecompressBytes c (Z.of_nat BloomBitsBlocks / 8) with
              | Ok blob => Ok blob | Err e => Err (errCompressed e) | Panic => Panic end
  end.
Proof.
  intros Hs Hl Hd. unfold serve. assert (u64 ((sec + 1) * Z.of_nat BloomBitsBlocks - 1) = last_number sec) as ->.
  { unfold u64, last_number. apply Z.mod_small. unfold BloomBitsBlocks in *. lia. }
  by rewrite (GetCanonicalHash_stored d _ hash Hl Hd).
Qed.

#[local] Opaque BloomBitsBlocks.

Lemma BloomBitsBlocks_4096 : BloomBitsBlocks = 4096%nat.
Proof. reflexivity. Qed.

Lemma index_section_serves b sec headers : bi_size b = BloomBitsBlocks -> stored_section (bi_db b) sec headers ->
  exists b', index_section b sec headers = Ok b' /\ bi_size b' = BloomBitsBlocks /\
    serves (bi_db b') sec (map Types.Bloom headers) /\
    (forall key, (forall j h, 0 <= j < 2048 -> key <> bloom_key j sec h) -> bi_db b' !! key = bi_db b !! key).
Proof.
  intros Hsz [[H0 H64] Hl Hh (h & hash & Hlast & Hhash & Hcan)]. unfold index_section, Reset. rewrite Hsz.
  assert (exists g, NewGenerator BloomBitsBlocks = Ok g) as [g Hg] by (by eexists). rewrite Hg.
  destruct (NewGenerator_holds _ _ Hg) as [G Hs].
  set (b0 := mkBloomIndexer BloomBitsBlocks (bi_db b) (Some g) sec zeroHash).
  destruct (process_all_adds headers b0 sec []) as (b1 & -> & (Hsec & g1 & Hg1 & G1 & Hs1) & Hsz1 & Hd1 & _ & Hh1).
  { split; [done|]. by exists g. } { done. } { done. } { simpl. by rewrite Hl. } { done. }
  rewrite or_panic_bind. unfold Commit. rewrite Hg1, or_panic_bind, Hsec, Hd1. cbn [app] in G1.
  pose proof BloomBitsBlocks_4096 as HN. pose proof BloomBitLength_2048 as HB. cbn [bi_size b0] in Hsz1.
  destruct (commit_loop_writes g1 _ sec (bi_head b1) BloomBitLength G1) with (i := 0%nat) (batch := bi_db b0) as (d & -> & H1 & H2).
  { rewrite length_map. congruence. } { rewrite Hs1, Hsz1. lia. } { rewrite HN in H64. lia. } { done. }
  rewrite ok_bind. eexists. split; [done|]. split; [done|]. cbn [bi_db].
  pose proof (Hh1 h Hlast) as Hhead. rewrite Hhash in Hhead. injection Hhead as ->.
  assert (forall key, (forall j h, 0 <= j < 2048 -> key <> bloom_key j sec h) -> d !! key = bi_db b !! key) as Hrest.
  { intros key Hk. apply H2. intros j Hj. apply Hk. lia. }
  split; [|done]. intros i Hi. rewrite (serve_eq d sec (bi_head b1) i).
  - destruct (H1 (Z.to_nat i)) as (row & c & Hrow & Hc & Hd); [lia|]. rewrite Z2Nat.id in Hd by lia. rewrite Hd.
    destruct (gh_row _ _ G1 _ _ Hrow) as (Hb & Hlr & Hk). destruct (CompressBytes_roundtrip row Hb) as (c' & Hc' & _ & _ & Hdec).
    assert (c' = c) as -> by congruence. rewrite Hlr, Hs1, Hsz1 in Hdec.
    replace (Z.of_nat BloomBitsBlocks / 8) with (Z.of_nat (BloomBitsBlocks / 8)) by (by rewrite Nat2Z.inj_div).
    rewrite Hdec. exists row. split; [done|]. split; [done|]. rewrite length_map, Hl. split; [congruence|].
    intros k. rewrite Hk, Z2Nat.id by lia. done.
  - done.
  - by eapply Header_Hash_length.
  - rewrite Hrest; [done|]. intros j h' _ He. by apply (bloom_key_canonical _ _ _ _ (eq_sym He)).
Qed.

(** Indexing a section leaves the others as they are. *)
Lemma serves_mono d d' sec sec' headers bs : stored_section d sec' headers -> 0 <= sec < 2 ^ 64 -> sec <> sec' ->
  (forall key, (forall j h, 0 <= j < 2048 -> key <> bloom_key j sec h) -> d' !! key = d !! key) ->
  serves d sec' bs -> serves d' sec' bs.
Proof.
  intros [Hr _ _ (h & hash & _ & Hhash & Hcan)] Hsec Hne Hrest Hs i Hi. destruct (Hs i Hi) as (v & Hv & Hc). exists v. split; [|done].
  apply Header_Hash_length in Hhash. rewrite (serve_eq _ _ hash) in Hv by done. rewrite (serve_eq _ _ hash); [|done|done|].
  - rewrite Hrest; [done|]. intros j h' Hj He. rewrite BloomBitsBlocks_4096 in Hr.
    apply bloom_key_inj in He as (_ & ? & _); [done|done|done|lia|done].
  - rewrite Hrest; [done|]. intros j h' _ He. by apply (bloom_key_canonical _ _ _ _ (eq_sym He)).
Qed.

Fixpoint index_run (b : BloomIndexer) (sec : Z) (chain : list (list Header)) : outcome gen_error BloomIndexer :=
  match chain with
  | [] => Ok b
  | headers :: chain' => b ← index_section b sec headers; index_run b (sec + 1) chain'
  end.

Lemma stored_section_mono d d' sec sec' headers :
  (forall key, (forall j h, 0 <= j < 2048 -> key <> bloom_key j sec h) -> d' !! key = d !! key) ->
  stored_section d sec' headers -> stored_section d' sec' headers.
Proof.
  intros Hrest [H1 H2 H3 (h & hash & H4 & H5 & H6)]. split; [done..|]. exists h, hash. do 2 (split; [done|]).
  rewrite Hrest; [done|]. intros j h' _ He. by apply (bloom_key_canonical _ _ _ _ (eq_sym He)).
Qed.

Lemma index_run_serves chain : forall b sec, bi_size b = BloomBitsBlocks -> 0 <= sec ->
  (forall i headers, chain !! i = Some headers -> stored_section (bi_db b) (sec + Z.of_nat i) headers) ->
  exists b', index_run b sec chain = Ok b' /\
    (forall i headers, chain !! i = Some headers -> serves (bi_db b') (sec + Z.of_nat i) (map Types.Bloom headers)) /\
    (forall sec' headers bs, 0 <= sec' < sec -> stored_section (bi_db b) sec' headers ->
       serves (bi_db b) sec' bs -> serves (bi_db b') sec' bs).
Proof.
  pose proof BloomBitsBlocks_4096 as HN.
  induction chain as [|headers chain IH]; intros b sec Hsz H0 Hc.
  - exists b. split; [done|]. split; [|done]. intros i headers Hi. by rewrite lookup_nil in Hi.
  - pose proof (Hc 0%nat headers eq_refl) as Hs0. rewrite Z.add_0_r in Hs0.
    destruct (index_section_serves b sec headers Hsz Hs0) as (b1 & E1 & Hsz1 & Hv1 & Hr1).
    assert (0 <= sec < 2 ^ 64) as Hsec by (pose proof (ss_range _ _ _ Hs0) as Hr; rewrite HN in Hr; lia).
    destruct (IH b1 (sec + 1) Hsz1 ltac:(lia)) as (b2 & E2 & Hv2 & Hm2).
    { intros i hs Hi. specialize (Hc (S i) hs Hi). replace (sec + 1 + Z.of_nat i) with (sec + Z.of_nat (S i)) by lia.
      by eapply stored_section_mono. }
    exists b2. cbn [index_run]. rewrite E1, ok_bind. split; [done|]. split.
    + intros [|i] hs Hi.
      * injection Hi as <-. rewrite Z.add_0_r. apply (Hm2 sec headers); [lia| |done]. by eapply stored_section_mono.
      * replace (sec + Z.of_nat (S i)) with (sec + 1 + Z.of_nat i) by lia. by apply Hv2.
    + intros sec' hs bs Hlt Hss Hserv. apply (Hm2 sec' hs); [lia|by eapply stored_section_mono|].
      eapply (serves_mono (bi_db b)); [done|done|lia|done|done].
Qed.

(** C23: the index is right.  Run over consecutive sections of the canonical
    chain, the indexer succeeds, and afterwards the service delivers, for each
    of the 2048 bits and each section, the vector that has in position [k]
    that bit of the filter of block [k] of the section: through the rotation,
    the compression, the keys of the store and back. *)
Theorem index_is_served chain b : bi_size b = BloomBitsBlocks ->
  (forall i headers, chain !! i = Some headers -> stored_section (bi_db b) (Z.of_nat i) headers) ->
  exists b', index_run b 0 chain = Ok b' /\
    forall i headers bit, chain !! i = Some headers -> 0 <= bit < 2048 ->
      exists v, serve (bi_db b') bit (Z.of_nat i) = Ok v /\ column (map Types.Bloom headers) bit v.
Proof.
  intros Hsz Hc. destruct (index_run_serves chain b 0 Hsz ltac:(done) Hc) as (b' & E & Hs & _).
  exists b'. split; [done|]. intros i headers bit Hi Hb. by apply (Hs i headers Hi).
Qed.

(** [Bitset] compares the index of the bit with the number of blocks: with
    sections of fewer than 2048 blocks no section is ever written. *)
Lemma small_sections_fail b sec headers : (bi_size b < 2048)%nat -> (bi_size b mod 8 = 0)%nat -> 0 <= sec ->
  (sec + 1) * Z.of_nat (bi_size b) < 2 ^ 64 -> length headers = bi_size b -> section_headers sec (bi_size b) 0 headers ->
  index_section b sec headers = Err errSectionOutOfBounds.
Proof.
  intros Hsz H8 H0 H64 Hl Hh. unfold index_section, Reset.
  assert (exists g, NewGenerator (bi_size b) = Ok g) as [g Hg].
  { unfold NewGenerator. rewrite H8. by eexists. }
  rewrite Hg. destruct (NewGenerator_holds _ _ Hg) as [G Hs].
  destruct (process_all_adds headers (mkBloomIndexer (bi_size b) (bi_db b) (Some g) sec zeroHash) sec [])
    as (b1 & -> & (Hsec & g1 & Hg1 & G1 & Hs1) & Hsz1 & Hd1 & _ & _).
  { split; [done|]. by exists g. } { done. } { done. } { simpl. lia. } { done. }
  rewrite or_panic_bind. unfold Commit. rewrite Hg1, or_panic_bind. cbn [app bi_size] in *.
  assert (length (map Types.Bloom headers) = sections g1) as Hfull by (rewrite length_map; congruence).
  assert (forall n i batch, (i + n = BloomBitLength)%nat -> (i <= sections g1)%nat ->
    commit_loop n i g1 (bi_section b1) (bi_head b1) batch = Err errSectionOutOfBounds) as ->; [|done|done|lia].
  pose proof BloomBitLength_2048 as HB. rewrite Hsz1 in Hs1.
  induction n as [|n IH]; intros i batch Hn Hi; [lia|]. cbn [commit_loop]. destruct (decide (i = sections g1)) as [->|].
  - unfold Bitset. by rewrite (gh_next _ _ G1), Hfull, Nat.eqb_refl, Nat.leb_refl.
  - destruct (Bitset_row g1 _ i G1 Hfull ltac:(lia) ltac:(lia)) as (row & -> & Hr). rewrite ok_bind.
    destruct (gh_row _ _ G1 i row Hr) as (Hb & _). destruct (CompressBytes_roundtrip row Hb) as (c & -> & _).
    rewrite or_panic_bind. apply IH; lia.
Qed.

(** ** A chain of one section *)

Module Sample.

Lemma puthead_le s l n : (length (puthead s l n) <= 9)%nat.
Proof. unfold puthead, putint. repeat case_match; simpl; lia. Qed.

Lemma enc_strs_le fs : (length (enc_strs fs) <= length (mjoin fs) + 9 * length fs)%nat.
Proof.
  unfold enc_strs. induction fs as [|f fs IH]; [simpl; lia|].
  change (mjoin (enc_str <$> f :: fs)) with (enc_str f ++ mjoin (enc_str <$> fs)).
  change (mjoin (f :: fs)) with (f ++ mjoin fs). rewrite !length_app. cbn [length].
  assert (length (enc_str f) <= length f + 9)%nat; [|lia].
  destruct (enc_str_cases f) as [(x & -> & _ & -> & _)|(_ & -> & _)]; [simpl; lia|]. rewrite length_app.
  pose proof (puthead_le 0x80 0xB7 (Z.of_nat (length f))). lia.
Qed.

(** A block without anything but a filter and a number. *)
Definition block_with (bloom : list Z) (n : nat) : Header :=
  mkHeader [] [] [] [] [] [] bloom None (Some (Z.of_nat n)) None None None [] [] [] [] None None None.

Lemma block_with_hash bloom n : length bloom = 256%nat -> (n < 4096)%nat -> is_Some (Header_Hash (block_with bloom n)).
Proof.
  intros Hbl Hn. set (num := min_bytes (Z.of_nat n)).
  assert (length num <= 2)%nat as Hnum.
  { apply min_bytes_length. change (256 ^ Z.of_nat 2) with 65536. lia. }
  assert (rlp (header_value (block_with bloom n)) = Ok (enc_list (enc_strs
    [[]; []; []; []; []; []; bloom; []; num; []; []; []; []; []; []; []; []; []; []]))) as Hr.
  { apply rlp_flat. simpl. by rewrite (proj2 (Z.ltb_ge (Z.of_nat n) 0)) by lia. }
  unfold Header_Hash. erewrite rlpHash_ok; [by eexists|done|exact Hr|].
  unfold enc_list. rewrite length_app.
  pose proof (enc_strs_le [[]; []; []; []; []; []; bloom; []; num; []; []; []; []; []; []; []; []; []; []]) as Hs.
  set (p := enc_strs _) in *. pose proof (puthead_le 0xC0 0xF7 (Z.of_nat (length p))).
  change (mjoin _) with (bloom ++ num ++ []) in Hs.
  rewrite !length_app, Hbl in Hs. cbn [length] in Hs. lia.
Qed.

Definition block (n : nat) : Header := block_with (replicate BloomByteLength 0) n.

Lemma block_hash n : (n < 4096)%nat -> is_Some (Header_Hash (block n)).
Proof. apply block_with_hash. apply length_replicate. Qed.

Definition headers : list Header := block <$> seq 0 BloomBitsBlocks.

Lemma headers_last : last headers = Some (block 4095).
Proof. unfold headers. rewrite fmap_last. by rewrite last_lookup, length_seq. Qed.

(** The store knows the hash of the last block. *)
Definition store_with (hash : Hash) : KV := <[canonical_key (last_number 0) := hash]> ∅.

Lemma section_stored hash : Header_Hash (block 4095) = Some hash -> stored_section (store_with hash) 0 headers.
Proof.
  intros Hh. pose proof BloomBitsBlocks_4096 as HN. split.
  - rewrite HN. lia.
  - unfold headers. by rewrite length_fmap, length_seq.
  - intros j h Hj. unfold headers in Hj. apply list_lookup_fmap_Some in Hj as (n & -> & [-> Hn]%lookup_seq).
    rewrite HN in Hn. split; [by rewrite Z.mul_0_l, Z.add_0_l|]. split; [apply zero_bloom_ok|by apply block_hash].
  - exists (block 4095), hash. split; [apply headers_last|]. split; [done|]. apply lookup_insert_eq.
Qed.

Lemma index_is_served_witness : exists hash b',
  index_run (mkBloomIndexer BloomBitsBlocks (store_with hash) None 0 []) 0 [headers] = Ok b' /\
  exists v, serve (bi_db b') 7 0 = Ok v /\ column (map Types.Bloom headers) 7 v.
Proof.
  destruct (block_hash 4095) as [hash Hh]; [lia|].
  destruct (index_is_served [headers] (mkBloomIndexer BloomBitsBlocks (store_with hash) None 0 [])) as (b' & H1 & H2).
  - reflexivity.
  - intros i hs Hi. destruct i as [|i]; [|by destruct i]. injection Hi as <-. exact (section_stored hash Hh).
  - exists hash, b'. split; [exact H1|]. apply (H2 0%nat headers 7); [reflexivity|lia].
Defined.
End Sample.
