(* ===== verification/LogSearch.v ===== *)
(** * Searching logs (src/core/bloombits/matcher.go, src/xdn/filters/filter.go)

    The matcher that intersects the bit vectors of the index, and the filter
    that searches the indexed part of the chain through it and the rest block
    by block.  The goroutines of the matcher form a pipeline of queues; here a
    section passes through its stages as one function. *)
From S2P Require Import State Prelude Sha3 Types Rlp StateCodec HeaderHash Bitutil Bloom LogIndex.

(** ** matcher.go *)

(** One filter rule: its clauses, [None] a nil clause. *)
Fixpoint clause_bits (filter : list (option (list Z))) : option (option (list (list Z))) :=
  match filter with
  | [] => Some (Some [])
  | None :: _ => Some None
  | Some clause :: filter' =>
      idxs ← calcBloomIndexes clause;
      rest ← clause_bits filter';
      Some (match rest with Some l => Some (idxs :: l) | None => None end)
  end.

(** The rules of [NewMatcher]: empty ones and those with a nil clause are skipped. *)
Fixpoint NewMatcher (filters : list (list (option (list Z)))) : option (list (list (list Z))) :=
  match filters with
  | [] => Some []
  | filter :: filters' =>
      rest ← NewMatcher filters';
      if decide (length filter = 0%nat) then Some rest
      else
        bits ← clause_bits filter;
        Some (match bits with Some bits => bits :: rest | None => rest end)
  end.

Section Matcher.
Context (unaligned : bool) (wordSize sectionSize : nat).
(** The vector the schedulers deliver for a bit and a section. *)
Context (fetch : Z -> Z -> list Z).

Definition vector_size : nat := sectionSize / 8.

(** The vectors of one key, and-ed into the first. *)
Fixpoint and_loop (sec : Z) (bits : list Z) (andVector : option (list Z)) : option (option (list Z)) :=
  match bits with
  | [] => Some andVector
  | b :: bits' =>
      let data := fetch b sec in
      v ← match andVector with
          | None => Some (memcpy (replicate vector_size 0) 0 (take vector_size data))
          | Some v => '(v, _) ← ANDBytes wordSize unaligned (length v) v v data; Some v
          end;
      and_loop sec bits' (Some v)
  end.

(** The vectors of the keys of a rule, or-ed into the first. *)
Fixpoint or_loop (sec : Z) (bloom : list (list Z)) (orVector : option (list Z)) : option (option (list Z)) :=
  match bloom with
  | [] => Some orVector
  | bits :: bloom' =>
      andVector ← and_loop sec bits None;
      v ← match orVector with
          | None => Some andVector
          | Some v => '(v, _) ← ORBytes wordSize unaligned (length v) v v (default [] andVector); Some (Some v)
          end;
      or_loop sec bloom' v
  end.

(** [subMatch] on one section: the vector to pass on, if any bit is left. *)
Definition subMatch (sec : Z) (bloom : list (list Z)) (bitset : list Z) : option (option (list Z)) :=
  orVector ← or_loop sec bloom None;
  let orVector := default (replicate vector_size 0) orVector in
  '(v, _) ← ANDBytes wordSize unaligned (length orVector) orVector orVector bitset;
  r ← TestBytes wordSize unaligned v;
  Some (if r : bool then Some v else None).

(** The chain of sub-matchers. *)
Fixpoint match_section (sec : Z) (filters : list (list (list Z))) (bitset : list Z) : option (option (list Z)) :=
  match filters with
  | [] => Some (Some bitset)
  | bloom :: filters' =>
      r ← subMatch sec bloom bitset;
      match r with
      | None => Some None
      | Some v => match_section sec filters' v
      end
  end.

(** The loop over the blocks [i .. last] of a section. *)
Fixpoint scan (fuel : nat) (i last sectionStart : Z) (bitset : list Z) : option (list Z) :=
  match fuel with
  | O => None
  | S fuel' =>
      if last <? i then Some []
      else
        next ← bitset !! Z.to_nat ((i - sectionStart) / 8);
        if next =? 0 then
          scan fuel' (if i mod 8 =? 0 then u64 (u64 (i + 7) + 1) else u64 (i + 1)) last sectionStart bitset
        else if Z.land next (Z.shiftl 1 (7 - i mod 8)) =? 0 then scan fuel' (u64 (i + 1)) last sectionStart bitset
        else rest ← scan fuel' (u64 (i + 1)) last sectionStart bitset; Some (i :: rest)
  end.

(** What is reported for one section of the range. *)
Definition report (sec begin_ end_ : Z) (bitset : list Z) : option (list Z) :=
  let sectionStart := u64 (sec * Z.of_nat sectionSize) in
  let first := if sectionStart <? begin_ then begin_ else sectionStart in
  let last := u64 (sectionStart + Z.of_nat sectionSize - 1) in
  let last := if end_ <? last then end_ else last in
  scan (S (Z.to_nat (last - first + 1))) first last sectionStart bitset.

(** The sections [sec .. end/sectionSize], [n] of them. *)
Fixpoint sections_loop (n : nat) (filters : list (list (list Z))) (sec begin_ end_ : Z) : option (list Z) :=
  match n with
  | O => Some []
  | S n' =>
      r ← match_section sec filters (replicate vector_size 0xff);
      found ← match r with None => Some [] | Some bitset => report sec begin_ end_ bitset end;
      rest ← sections_loop n' filters (sec + 1) begin_ end_;
      Some (found ++ rest)
  end.

(** The numbers a session over [begin .. end] reports, in order. *)
Definition Start (filters : list (list (list Z))) (begin_ end_ : Z) : option (list Z) :=
  let s := begin_ / Z.of_nat sectionSize in
  let e := end_ / Z.of_nat sectionSize in
  sections_loop (Z.to_nat (e - s + 1)) filters s begin_ end_.
End Matcher.

(** ** filter.go *)

Fixpoint includes (addresses : list Address) (a : Address) : bool :=
  match addresses with
  | [] => false
  | addr :: addresses' => if decide (addr = a) then true else includes addresses' a
  end.

(** The rule of one position: empty means anything. *)
Definition topic_match (rule : list Hash) (topic : Hash) : bool :=
  bool_decide (length rule = 0%nat) || includes rule topic.

(** The loop over the positions; a topic that is not there panics. *)
Fixpoint topics_match (topics : list (list Hash)) (have : list Hash) : option bool :=
  match topics with
  | [] => Some true
  | rule :: topics' =>
      if bool_decide (length rule = 0%nat) then topics_match topics' (drop 1 have)
      else
        t ← have !! 0%nat;
        if topic_match rule t then topics_match topics' (drop 1 have) else Some false
  end.

Definition out_of_range (from to : option Z) (number : Z) : bool :=
  match from with Some f => (0 <=? i64 f) && (number <? big_Uint64 f) | None => false end ||
  match to with Some t => (0 <=? i64 t) && (big_Uint64 t <? number) | None => false end.

Fixpoint filterLogs (logs : list Log) (from to : option Z) (addresses : list Address) (topics : list (list Hash))
    : option (list Log) :=
  match logs with
  | [] => Some []
  | log :: logs' =>
      keep ← (if out_of_range from to (lBlockNumber log) then Some false
              else if (0 <? length addresses)%nat && negb (includes addresses (lAddress log)) then Some false
              else if (length (lTopics log) <? length topics)%nat then Some false
              else topics_match topics (lTopics log));
      rest ← filterLogs logs' from to addresses topics;
      Some (if keep : bool then log :: rest else rest)
  end.

Fixpoint any_in_bloom (bloom : list Z) (keys : list (list Z)) : option bool :=
  match keys with
  | [] => Some false
  | k :: keys' => b ← BloomLookup bloom k; if b : bool then Some true else any_in_bloom bloom keys'
  end.

Fixpoint topics_in_bloom (bloom : list Z) (topics : list (list Hash)) : option bool :=
  match topics with
  | [] => Some true
  | sub :: topics' =>
      included ← (if decide (length sub = 0%nat) then Some true else any_in_bloom bloom sub);
      if included : bool then topics_in_bloom bloom topics' else Some false
  end.

Definition bloomFilter (bloom : list Z) (addresses : list Address) (topics : list (list Hash)) : option bool :=
  included ← (if decide (0 < length addresses)%nat then any_in_bloom bloom addresses else Some true);
  if included : bool then topics_in_bloom bloom topics else Some false.

Section Filter.
Context {E : Type} (unaligned : bool) (wordSize : nat).

(** What the filter asks of its backend; pairs of a result and an error. *)
Record Backend := mkBackend {
  LatestHeader : option Header;
  HeaderByNumber : Z -> option Header * option E;
  GetReceipts : Hash -> list Receipt * option E;
  BloomStatus : nat * Z;                        (** section size and number of sections *)
  vectors : Z -> Z -> list Z                    (** what a session is served *)
}.

Record Filter := mkFilter {
  f_begin : Z; f_end : Z;
  f_addresses : list Address;
  f_topics : list (list Hash);
  f_matcher : list (list (list Z))
}.

Definition set_begin (f : Filter) (b : Z) : Filter := mkFilter b (f_end f) (f_addresses f) (f_topics f) (f_matcher f).

(** The address clauses and the clauses of each topic position. *)
Definition filter_rules (addresses : list Address) (topics : list (list Hash)) : list (list (option (list Z))) :=
  (if decide (0 < length addresses)%nat then [map Some addresses] else []) ++ map (map Some) topics.

Definition New (begin_ end_ : Z) (addresses : list Address) (topics : list (list Hash)) : option Filter :=
  m ← NewMatcher (filter_rules addresses topics);
  Some (mkFilter begin_ end_ addresses topics m).

Definition checkMatches (b : Backend) (f : Filter) (header : Header) : option (list Log * option E) :=
  hash ← Header_Hash header;
  let '(receipts, err) := GetReceipts b hash in
  match err with
  | Some e => Some ([], Some e)
  | None => logs ← filterLogs (mjoin receipts) None None (f_addresses f) (f_topics f); Some (logs, None)
  end.

(** The loop over the matches of a session that ends without an error. *)
Fixpoint indexed_loop (b : Backend) (f : Filter) (end_ : Z) (matches : list Z) (logs : list Log)
    : option (list Log * option E * Filter) :=
  match matches with
  | [] => Some (logs, None, set_begin f (i64 (i64 end_ + 1)))
  | number :: matches' =>
      let f := set_begin f (i64 (i64 number + 1)) in
      match HeaderByNumber b (i64 number) with
      | (Some header, None) =>
          '(found, err) ← checkMatches b f header;
          match err with
          | Some e => Some (logs, Some e, f)
          | None => indexed_loop b f end_ matches' (logs ++ found)
          end
      | (_, err) => Some (logs, err, f)
      end
  end.

Definition indexedLogs (b : Backend) (f : Filter) (end_ : Z) : option (list Log * option E * Filter) :=
  matches ← Start unaligned wordSize (BloomStatus b).1 (vectors b) (f_matcher f) (u64 (f_begin f)) end_;
  indexed_loop b f end_ matches [].

Fixpoint unindexed_loop (fuel : nat) (b : Backend) (f : Filter) (end_ : Z) (logs : list Log)
    : option (list Log * option E * Filter) :=
  match fuel with
  | O => None
  | S fuel' =>
      if i64 end_ <? f_begin f then Some (logs, None, f)
      else
        match HeaderByNumber b (f_begin f) with
        | (Some header, None) =>
            hit ← bloomFilter (Types.Bloom header) (f_addresses f) (f_topics f);
            if hit : bool then
              '(found, err) ← checkMatches b f header;
              match err with
              | Some e => Some (logs, Some e, f)
              | None => unindexed_loop fuel' b (set_begin f (i64 (f_begin f + 1))) end_ (logs ++ found)
              end
            else unindexed_loop fuel' b (set_begin f (i64 (f_begin f + 1))) end_ logs
        | (_, err) => Some (logs, err, f)
        end
  end.

Definition unindexedLogs (b : Backend) (f : Filter) (end_ : Z) : option (list Log * option E * Filter) :=
  unindexed_loop (S (Z.to_nat (i64 end_ - f_begin f + 1))) b f end_ [].

Definition Logs (b : Backend) (f : Filter) : option (list Log * option E * Filter) :=
  match LatestHeader b with
  | None => Some ([], None, f)
  | Some header =>
      n ← Number header;
      let head := big_Uint64 n in
      let f := if f_begin f =? -1 then set_begin f (i64 head) else f in
      let end_ := if f_end f =? -1 then head else u64 (f_end f) in
      let '(size, sections) := BloomStatus b in
      let indexed := u64 (sections * Z.of_nat size) in
      '(logs, err, f) ←
        (if u64 (f_begin f) <? indexed then indexedLogs b f (if end_ <? indexed then end_ else u64 (indexed - 1))
         else Some ([], None, f));
      match err with
      | Some e => Some (logs, Some e, f)
      | None =>
          '(rest, err, f) ← unindexedLogs b f end_;
          Some (logs ++ rest, err, f)
      end
  end.
End Filter.
Arguments Backend : clear implicits.

(** ** Vectors *)

(** A vector of [L] bytes with the bits [f]. *)
Definition vec (L : nat) (f : nat -> bool) (v : list Z) : Prop :=
  bytes v /\ length v = L /\ forall k, (k < 8 * L)%nat -> bit v k = f k.

Lemma bit_zip op f a b k : length a = length b -> (k < 8 * length a)%nat ->
  (forall x y i, 0 <= i -> Z.testbit (op x y) i = f (Z.testbit x i) (Z.testbit y i)) ->
  bit (zip_with op a b) k = f (bit a k) (bit b k).
Proof.
  intros Hl Hk Hop. assert (k / 8 < length a)%nat as Hd by (apply Nat.Div0.div_lt_upper_bound; lia).
  destruct (lookup_lt_is_Some_2 a (k / 8) Hd) as [x Hx]. destruct (lookup_lt_is_Some_2 b (k / 8)) as [y Hy]; [lia|].
  unfold bit, byte_at. rewrite lookup_zip_with, Hx, Hy. cbn. rewrite Hop by lia. done.
Qed.

Lemma zip_bytes op a b : bitwise op -> bytes a -> bytes b -> bytes (zip_with op a b).
Proof.
  intros Hop Ha. revert b. induction Ha as [|x a Hx Ha IH]; intros b Hb; [apply Forall_nil_2|].
  destruct Hb as [|y b Hy Hb]; [apply Forall_nil_2|]. apply Forall_cons_2; [by apply bitwise_byte|by apply IH].
Qed.

Section Vectors.
Context (unaligned : bool) (wordSize L : nat) (Hw : (0 < wordSize)%nat).

(** Writing back into the first operand. *)
Lemma bulk_in_place op a b : bitwise op -> bytes a -> bytes b -> length a = L -> length b = L ->
  (if unaligned then fast_bytes wordSize op else safe_bytes op) (length a) a a b = Some (zip_with op a b, L).
Proof.
  intros Hop Ha Hb La Lb. assert (min_len a b = L) as Hm by (unfold min_len; case_decide; lia).
  assert (upto op a a b (min_len a b) = zip_with op a b) as Hu.
  { unfold upto. rewrite take_ge, drop_ge, app_nil_r by (rewrite ?length_zip_with; lia). done. }
  destruct unaligned.
  - rewrite fast_bytes_writes; [by rewrite Hu, Hm|try done..]; rewrite Hm; [lia| |right; lia].
    rewrite La. apply Nat.Div0.div_le_upper_bound. nia.
  - rewrite safe_bytes_writes; [by rewrite Hu, Hm|lia|lia].
Qed.

Lemma ANDBytes_vec f g a b : vec L f a -> vec L g b ->
  exists v, ANDBytes wordSize unaligned (length a) a a b = Some (v, L) /\ vec L (fun k => f k && g k) v.
Proof.
  intros (Ba & La & Ka) (Bb & Lb & Kb). exists (zip_with Z.land a b). split.
  - rewrite <-(bulk_in_place Z.land a b bitwise_and Ba Bb La Lb). by destruct unaligned.
  - split; [by apply zip_bytes; [apply bitwise_and|..]|]. split; [rewrite length_zip_with; lia|].
    intros k Hk. rewrite (bit_zip _ andb) by (lia || intros; apply Z.land_spec). by rewrite Ka, Kb.
Qed.

Lemma ORBytes_vec f g a b : vec L f a -> vec L g b ->
  exists v, ORBytes wordSize unaligned (length a) a a b = Some (v, L) /\ vec L (fun k => f k || g k) v.
Proof.
  intros (Ba & La & Ka) (Bb & Lb & Kb). exists (zip_with Z.lor a b). split.
  - rewrite <-(bulk_in_place Z.lor a b bitwise_or Ba Bb La Lb). by destruct unaligned.
  - split; [by apply zip_bytes; [apply bitwise_or|..]|]. split; [rewrite length_zip_with; lia|].
    intros k Hk. rewrite (bit_zip _ orb) by (lia || intros; apply Z.lor_spec). by rewrite Ka, Kb.
Qed.

Lemma TestBytes_vec f v : vec L f v ->
  exists r, TestBytes wordSize unaligned v = Some r /\ (r = false -> forall k, (k < 8 * L)%nat -> f k = false).
Proof.
  intros (Bv & Lv & Kv). rewrite TestBytes_correct by done. eexists. split; [done|].
  intros Hr%bool_decide_eq_false k Hk. rewrite <-Kv by done. unfold bit, byte_at.
  destruct (v !! (k / 8)%nat) as [x|] eqn:Hx; [|apply Z.bits_0]. cbn.
  destruct (decide (x = 0)) as [->|Hx0]; [apply Z.bits_0|]. exfalso. apply Hr, Exists_exists. exists x.
  split; [|done]. by eapply list_elem_of_lookup_2.
Qed.
End Vectors.

(** ** Matching a section *)

(** The filter has all bits of a key, one key of a rule, a key of every rule. *)
Definition key_match (b : list Z) (bits : list Z) : bool := forallb (has_bit b) bits.
Definition rule_match (b : list Z) (bloom : list (list Z)) : bool := existsb (key_match b) bloom.
Definition rules_match (b : list Z) (filters : list (list (list Z))) : bool := forallb (rule_match b) filters.

Definition good_bits (bits : list Z) : Prop := bits <> [] /\ Forall (fun i => 0 <= i < 2048) bits.
Definition good_rules (filters : list (list (list Z))) : Prop := Forall (Forall good_bits) filters.

Lemma vec_ext L f g v : vec L f v -> (forall k, (k < 8 * L)%nat -> f k = g k) -> vec L g v.
Proof. intros (B & Hl & K) H. split; [done|]. split; [done|]. intros k Hk. by rewrite K, H. Qed.

Lemma zeros_vec L : vec L (fun _ => false) (replicate L 0).
Proof. split; [apply bytes_replicate_0|]. split; [apply length_replicate|]. intros. apply bit_zeros. Qed.

Lemma ones_vec L : vec L (fun _ => true) (replicate L 0xff).
Proof.
  split; [apply Forall_replicate; done|]. split; [apply length_replicate|]. intros k Hk. unfold bit, byte_at.
  rewrite lookup_replicate_2 by (apply Nat.Div0.div_lt_upper_bound; lia). cbn [from_option id].
  change 0xff with (Z.ones 8). apply Z.ones_spec_low. lia.
Qed.

Section MatchSection.
Context (unaligned : bool) (wordSize sectionSize : nat) (Hw : (0 < wordSize)%nat).
Context (fetch : Z -> Z -> list Z) (sec : Z) (blk : nat -> list Z).

Local Notation L := (vector_size sectionSize).
Local Notation and_loop := (and_loop unaligned wordSize sectionSize fetch sec).
Local Notation or_loop := (or_loop unaligned wordSize sectionSize fetch sec).
Local Notation subMatch := (subMatch unaligned wordSize sectionSize fetch sec).
Local Notation match_section := (match_section unaligned wordSize sectionSize fetch sec).

(** The vectors hold the bits of the filters of the blocks. *)
Context (Hf : forall i, 0 <= i < 2048 -> vec L (fun k => has_bit (blk k) i) (fetch i sec)).

Lemma and_loop_vec bits : forall f v, Forall (fun i => 0 <= i < 2048) bits -> vec L f v ->
  exists v', and_loop bits (Some v) = Some (Some v') /\ vec L (fun k => f k && key_match (blk k) bits) v'.
Proof.
  induction bits as [|i bits IH]; intros f v Hb Hv; cbn [LogSearch.and_loop].
  - exists v. split; [done|]. eapply vec_ext; [done|]. intros. by rewrite andb_true_r.
  - apply Forall_cons in Hb as [Hi Hb]. destruct (ANDBytes_vec unaligned wordSize L Hw _ _ _ _ Hv (Hf i Hi)) as (v1 & -> & H1).
    rewrite !some_bind. destruct (IH _ _ Hb H1) as (v' & -> & H'). exists v'. split; [done|].
    eapply vec_ext; [done|]. intros k Hk. simpl. by rewrite andb_assoc.
Qed.

Lemma and_loop_first bits : good_bits bits ->
  exists v, and_loop bits None = Some (Some v) /\ vec L (fun k => key_match (blk k) bits) v.
Proof.
  intros [Hne Hb]. destruct bits as [|i bits]; [done|]. apply Forall_cons in Hb as [Hi Hb]. cbn [LogSearch.and_loop]. rewrite some_bind.
  pose proof (Hf i Hi) as Hv. destruct Hv as (Bv & Lv & Kv).
  assert (memcpy (replicate L 0) 0 (take L (fetch i sec)) = fetch i sec) as ->.
  { unfold memcpy. rewrite (take_ge (fetch i sec)) by lia. cbn [take app]. rewrite drop_ge, app_nil_r; [done|]. rewrite length_replicate. simpl. lia. }
  by apply (and_loop_vec bits (fun k => has_bit (blk k) i)).
Qed.

Lemma or_loop_vec bloom : forall f v, Forall good_bits bloom -> vec L f v ->
  exists v', or_loop bloom (Some v) = Some (Some v') /\ vec L (fun k => f k || rule_match (blk k) bloom) v'.
Proof.
  induction bloom as [|bits bloom IH]; intros f v Hb Hv; cbn [LogSearch.or_loop].
  - exists v. split; [done|]. eapply vec_ext; [done|]. intros. by rewrite orb_false_r.
  - apply Forall_cons in Hb as [Hi Hb]. destruct (and_loop_first bits Hi) as (a & -> & Ha). rewrite some_bind. cbn [from_option id].
    destruct (ORBytes_vec unaligned wordSize L Hw _ _ _ _ Hv Ha) as (v1 & -> & H1). rewrite !some_bind.
    destruct (IH _ _ Hb H1) as (v' & -> & H'). exists v'. split; [done|].
    eapply vec_ext; [done|]. intros k Hk. simpl. by rewrite orb_assoc.
Qed.

Lemma or_loop_first bloom : Forall good_bits bloom -> exists o, or_loop bloom None = Some o /\
  vec L (fun k => rule_match (blk k) bloom) (default (replicate L 0) o).
Proof.
  intros Hb. destruct bloom as [|bits bloom]; [exists None; split; [done|apply zeros_vec]|].
  apply Forall_cons in Hb as [Hi Hb]. cbn [LogSearch.or_loop]. destruct (and_loop_first bits Hi) as (a & -> & Ha). rewrite !some_bind.
  destruct (or_loop_vec bloom _ _ Hb Ha) as (v & -> & Hv). exists (Some v). by split.
Qed.

(** A section goes on with the blocks that match, or is dropped when none does. *)
Definition selects (f : nat -> bool) (r : option (list Z)) : Prop :=
  match r with Some v => vec L f v | None => forall k, (k < 8 * L)%nat -> f k = false end.

Lemma subMatch_selects bloom f v : Forall good_bits bloom -> vec L f v ->
  exists r, subMatch bloom v = Some r /\ selects (fun k => f k && rule_match (blk k) bloom) r.
Proof.
  intros Hb Hv. unfold LogSearch.subMatch. destruct (or_loop_first bloom Hb) as (o & -> & Ho). rewrite some_bind. cbv zeta.
  destruct (ANDBytes_vec unaligned wordSize L Hw _ _ _ _ Ho Hv) as (w & -> & H1). rewrite some_bind.
  destruct (TestBytes_vec unaligned wordSize L Hw _ _ H1) as (r & -> & Hr). rewrite some_bind. eexists. split; [done|].
  destruct r; simpl.
  - eapply vec_ext; [done|]. intros. apply andb_comm.
  - intros k Hk. rewrite andb_comm. by apply Hr.
Qed.

Lemma match_section_selects filters : forall f v, good_rules filters -> vec L f v ->
  exists r, match_section filters v = Some r /\ selects (fun k => f k && rules_match (blk k) filters) r.
Proof.
  induction filters as [|bloom filters IH]; intros f v Hg Hv; cbn [LogSearch.match_section].
  - exists (Some v). split; [done|]. eapply vec_ext; [done|]. intros. by rewrite andb_true_r.
  - apply Forall_cons in Hg as [Hb Hg]. destruct (subMatch_selects bloom f v Hb Hv) as (r & -> & Hr). rewrite some_bind.
    destruct r as [w|]; simpl in Hr.
    + destruct (IH _ _ Hg Hr) as (r & -> & H'). exists r. split; [done|]. destruct r; simpl in *.
      * eapply vec_ext; [done|]. intros. simpl. by rewrite andb_assoc.
      * intros k Hk. simpl. by rewrite andb_assoc, H'.
    + exists None. split; [done|]. intros k Hk. simpl. by rewrite andb_assoc, Hr.
Qed.
End MatchSection.

(** ** Reading off the blocks *)

(** The numbers [a .. b]. *)
Definition range (a b : Z) : list Z := seqZ a (b - a + 1).

Lemma range_nil a b : b < a -> range a b = [].
Proof. intros. unfold range. apply seqZ_nil. lia. Qed.

Lemma range_cons a b : a <= b -> range a b = a :: range (a + 1) b.
Proof. intros. unfold range. rewrite seqZ_cons by lia. f_equal. f_equal; lia. Qed.

Lemma range_app a m b : a <= m + 1 -> m <= b -> range a b = range a m ++ range (m + 1) b.
Proof.
  intros H1 H2. unfold range. replace (b - a + 1) with ((m - a + 1) + (b - m)) by lia. rewrite seqZ_app by lia.
  f_equal. f_equal; lia.
Qed.

Lemma elem_of_range n a b : n ∈ range a b <-> a <= n <= b.
Proof. unfold range. rewrite elem_of_seqZ. lia. Qed.

(** The numbers with a property. *)
Definition select (P : Z -> bool) (l : list Z) : list Z := filter (fun n => P n = true) l.

Lemma select_app P l k : select P (l ++ k) = select P l ++ select P k.
Proof. apply filter_app. Qed.

Lemma select_cons P n l : select P (n :: l) = if P n then n :: select P l else select P l.
Proof. unfold select. rewrite filter_cons. destruct (P n); by case_decide. Qed.

Lemma select_none P l : (forall n, n ∈ l -> P n = false) -> select P l = [].
Proof.
  induction l as [|n l IH]; intros H; [done|]. rewrite select_cons, H by left. apply IH. intros. apply H. by right.
Qed.

Lemma select_ext P Q l : (forall n, n ∈ l -> P n = Q n) -> select P l = select Q l.
Proof.
  induction l as [|n l IH]; intros H; [done|]. rewrite !select_cons, H by left. rewrite IH; [done|]. intros. apply H. by right.
Qed.

Lemma select_skip P k a b : (forall m, a <= m < a + Z.of_nat k -> P m = false) ->
  select P (range a b) = select P (range (a + Z.of_nat k) b).
Proof.
  revert a. induction k as [|k IH]; intros a H; [by rewrite Z.add_0_r|].
  destruct (Z.lt_ge_cases b a).
  - by rewrite !range_nil by lia.
  - rewrite range_cons, select_cons, H by lia. rewrite IH by (intros; apply H; lia). do 2 f_equal. lia.
Qed.

Section Scan.
Context (L : nat) (start : Z) (bitset : list Z) (Hl : length bitset = L) (Hs : start mod 8 = 0) (H0 : 0 <= start).

Definition block_bit (n : Z) : bool := bit bitset (Z.to_nat (n - start)).

Lemma block_bit_byte n next : start <= n -> bitset !! Z.to_nat ((n - start) / 8) = Some next ->
  block_bit n = Z.testbit next (7 - n mod 8).
Proof.
  intros Hn Hx. unfold block_bit, bit, byte_at.
  rewrite Z2Nat.inj_div in Hx by lia. change (Z.to_nat 8) with 8%nat in Hx. rewrite Hx. cbn [from_option id]. f_equal.
  assert (Z.of_nat (Z.to_nat (n - start) mod 8) = n mod 8) as E.
  { rewrite Nat2Z.inj_mod, Z2Nat.id by lia. change (Z.of_nat 8) with 8. rewrite Zminus_mod, Hs, Z.sub_0_r, Z.mod_mod; lia. }
  pose proof (Z.mod_pos_bound n 8 ltac:(lia)). lia.
Qed.

Lemma land_bit next b : 0 <= b -> (Z.land next (Z.shiftl 1 b) =? 0) = negb (Z.testbit next b).
Proof.
  intros Hb. destruct (Z.testbit next b) eqn:E; simpl.
  - apply Z.eqb_neq. intros Hz. apply (f_equal (fun x => Z.testbit x b)) in Hz.
    rewrite Z.land_spec, E, Z.shiftl_1_l, Z.pow2_bits_true, Z.bits_0 in Hz by done. done.
  - apply Z.eqb_eq, Z.bits_inj'. intros i Hi. rewrite Z.land_spec, Z.bits_0, Z.shiftl_1_l, Z.pow2_bits_eqb by done.
    destruct (Z.eqb_spec b i) as [<-|]; [by rewrite E|apply andb_false_r].
Qed.

(** The scan finds the set bits, whole zero bytes being skipped. *)
Lemma scan_finds fuel : forall i last, start <= i -> last < start + 8 * Z.of_nat L -> last + 8 < 2 ^ 64 ->
  (Z.to_nat (last - i + 1) < fuel)%nat -> scan fuel i last start bitset = Some (select block_bit (range i last)).
Proof.
  induction fuel as [|fuel IH]; intros i last Hi Hlast H64 Hfuel; [lia|]. cbn [scan].
  destruct (Z.ltb_spec last i) as [Hd|Hd]; [by rewrite range_nil|].
  destruct (lookup_lt_is_Some_2 bitset (Z.to_nat ((i - start) / 8))) as [next Hn].
  { rewrite Hl. assert ((i - start) / 8 < Z.of_nat L) by (apply Z.div_lt_upper_bound; lia).
    pose proof (Z.div_pos (i - start) 8 ltac:(lia) ltac:(lia)). lia. }
  rewrite Hn, some_bind. pose proof (block_bit_byte i next Hi Hn) as Hbit.
  assert (u64 (i + 1) = i + 1) as U1 by (apply Z.mod_small; lia).
  destruct (Z.eqb_spec next 0) as [->|Hnz].
  - destruct (Z.eqb_spec (i mod 8) 0) as [H8|H8].
    + assert (u64 (u64 (i + 7) + 1) = i + Z.of_nat 8) as -> by (unfold u64; rewrite (Z.mod_small (i + 7)), Z.mod_small; lia).
      rewrite IH by lia. f_equal. symmetry. apply select_skip. intros m Hm.
      assert ((m - start) / 8 = (i - start) / 8) as Hq.
      { pose proof (Z.div_mod i 8 ltac:(lia)). pose proof (Z.div_mod start 8 ltac:(lia)).
        replace (i - start) with ((i / 8 - start / 8) * 8) by lia. rewrite Z.div_mul by lia.
        symmetry. apply (Z.div_unique _ _ _ (m - i)); lia. }
      rewrite (block_bit_byte m 0); [apply Z.bits_0|lia|by rewrite Hq].
    + rewrite U1, IH by lia. f_equal. rewrite (range_cons i) by done. by rewrite select_cons, Hbit, Z.bits_0.
  - pose proof (Z.mod_pos_bound i 8 ltac:(lia)). rewrite land_bit, <-Hbit by lia. rewrite (range_cons i), select_cons by done.
    rewrite U1. destruct (block_bit i); cbn [negb]; rewrite IH by lia; done.
Qed.
End Scan.

(** ** A session of the matcher *)

Section Session.
Context (unaligned : bool) (wordSize sectionSize : nat) (Hw : (0 < wordSize)%nat).
Context (H8 : (sectionSize mod 8 = 0)%nat) (Hpos : (0 < sectionSize)%nat).
Context (fetch : Z -> Z -> list Z) (bl : Z -> list Z) (filters : list (list (list Z))) (Hg : good_rules filters).

Local Notation L := (vector_size sectionSize).
Local Notation SZ := (Z.of_nat sectionSize).
Local Notation hits := (select (fun n => rules_match (bl n) filters)).

(** The vectors delivered for a section are those of its blocks. *)
Definition section_served (sec : Z) : Prop :=
  forall i, 0 <= i < 2048 -> vec L (fun k => has_bit (bl (sec * SZ + Z.of_nat k)) i) (fetch i sec).

Lemma size_bits : SZ = 8 * Z.of_nat L.
Proof. unfold vector_size. pose proof (Nat.div_mod sectionSize 8). lia. Qed.

Context (begin_ end_ : Z) (Hb : 0 <= begin_) (He : 0 <= end_) (H64 : end_ + SZ + 8 < 2 ^ 64).

Lemma report_finds sec v : begin_ / SZ <= sec <= end_ / SZ -> length v = L ->
  report sectionSize sec begin_ end_ v =
  Some (select (block_bit (sec * SZ) v) (range (Z.max begin_ (sec * SZ)) (Z.min end_ (sec * SZ + SZ - 1)))).
Proof.
  intros Hsec Hv. pose proof (Z.div_pos begin_ SZ ltac:(lia) ltac:(lia)).
  assert (sec * SZ <= end_) as Hend by (pose proof (Z.mul_div_le end_ SZ ltac:(lia)); nia).
  unfold report. assert (u64 (sec * SZ) = sec * SZ) as -> by (apply Z.mod_small; nia).
  assert (u64 (sec * SZ + SZ - 1) = sec * SZ + SZ - 1) as -> by (apply Z.mod_small; nia).
  replace (if sec * SZ <? begin_ then begin_ else sec * SZ) with (Z.max begin_ (sec * SZ)) by (case_match eqn:E; [apply Z.ltb_lt in E|apply Z.ltb_ge in E]; lia).
  replace (if end_ <? sec * SZ + SZ - 1 then end_ else sec * SZ + SZ - 1) with (Z.min end_ (sec * SZ + SZ - 1)) by (case_match eqn:E; [apply Z.ltb_lt in E|apply Z.ltb_ge in E]; lia).
  assert (0 <= sec * SZ) by nia. apply (scan_finds L); [done| |done|lia|rewrite <-size_bits; lia|lia|lia].
  rewrite size_bits. replace (sec * (8 * Z.of_nat L)) with ((sec * Z.of_nat L) * 8) by lia. apply Z.mod_mul. lia.
Qed.

(** What the section contributes. *)
Lemma section_finds sec : begin_ / SZ <= sec <= end_ / SZ -> section_served sec ->
  (r ← match_section unaligned wordSize sectionSize fetch sec filters (replicate L 0xff);
   match r with None => Some [] | Some bitset => report sectionSize sec begin_ end_ bitset end) =
  Some (hits (range (Z.max begin_ (sec * SZ)) (Z.min end_ (sec * SZ + SZ - 1)))).
Proof.
  intros Hsec Hs.
  destruct (match_section_selects unaligned wordSize sectionSize Hw fetch sec (fun k => bl (sec * SZ + Z.of_nat k)) Hs
    filters _ _ Hg (ones_vec _)) as (r & -> & Hr). rewrite some_bind.
  pose proof size_bits as HL.
  assert (forall n, n ∈ range (Z.max begin_ (sec * SZ)) (Z.min end_ (sec * SZ + SZ - 1)) ->
    (Z.to_nat (n - sec * SZ) < 8 * L)%nat /\ sec * SZ + Z.of_nat (Z.to_nat (n - sec * SZ)) = n) as Hn.
  { intros n Hn%elem_of_range. lia. }
  destruct r as [v|]; simpl in Hr.
  - destruct Hr as (_ & Hv & Kv). rewrite (report_finds sec v Hsec Hv). f_equal. apply select_ext. intros n Hin.
    destruct (Hn n Hin) as [H1 H2]. unfold block_bit. by rewrite Kv, H2.
  - symmetry. f_equal. apply select_none. intros n Hin. destruct (Hn n Hin) as [H1 H2]. specialize (Hr _ H1). by rewrite H2 in Hr.
Qed.

Lemma range_sections sec : begin_ / SZ <= sec <= end_ / SZ ->
  range (Z.max begin_ (sec * SZ)) end_ =
  range (Z.max begin_ (sec * SZ)) (Z.min end_ (sec * SZ + SZ - 1)) ++ range (Z.max begin_ ((sec + 1) * SZ)) end_.
Proof.
  intros Hsec. assert (begin_ < (sec + 1) * SZ) as Hbs.
  { pose proof (Z.mul_succ_div_gt begin_ SZ ltac:(lia)). nia. }
  destruct (Z.le_gt_cases end_ (sec * SZ + SZ - 1)).
  - rewrite Z.min_l, (range_nil (Z.max _ ((sec + 1) * SZ))) by lia. by rewrite app_nil_r.
  - rewrite Z.min_r by lia. rewrite (range_app _ (sec * SZ + SZ - 1)) by lia. do 2 f_equal. lia.
Qed.

Lemma sections_loop_finds n : forall sec, begin_ / SZ <= sec -> Z.of_nat n = end_ / SZ - sec + 1 ->
  (forall s, sec <= s <= end_ / SZ -> section_served s) ->
  sections_loop unaligned wordSize sectionSize fetch n filters sec begin_ end_ =
  Some (hits (range (Z.max begin_ (sec * SZ)) end_)).
Proof.
  induction n as [|n IH]; intros sec Hsec Hn Hs; cbn [sections_loop].
  - pose proof (Z.mul_succ_div_gt end_ SZ ltac:(lia)). rewrite range_nil; [done|]. nia.
  - pose proof (section_finds sec ltac:(lia) (Hs sec ltac:(lia))) as Hf.
    destruct (match_section _ _ _ _ _ _ _) as [r|]; [|done]. rewrite some_bind in Hf |- *. rewrite Hf, some_bind.
    rewrite IH; [|lia|lia|intros; apply Hs; lia]. rewrite some_bind. by rewrite (range_sections sec), select_app by lia.
Qed.

(** A session reports exactly the blocks of the range whose filter matches. *)
Lemma Start_finds : (forall s, begin_ / SZ <= s <= end_ / SZ -> section_served s) ->
  Start unaligned wordSize sectionSize fetch filters begin_ end_ = Some (hits (range begin_ end_)).
Proof.
  intros Hs. unfold Start. pose proof (Z.mul_div_le begin_ SZ ltac:(lia)) as Hle.
  destruct (Z.le_gt_cases (begin_ / SZ) (end_ / SZ + 1)) as [Hc|Hc].
  - rewrite sections_loop_finds; [|lia|lia|done]. do 3 f_equal. lia.
  - rewrite Z2Nat.nonpos by lia. simpl. rewrite range_nil; [done|].
    destruct (Z.le_gt_cases begin_ end_) as [Hbe|]; [|done]. pose proof (Z.div_le_mono begin_ end_ SZ ltac:(lia) Hbe). lia.
Qed.
End Session.

(** ** The rules of a filter *)

(** No condition, or one of the keys in the bloom filter. *)
Definition some_key (b : list Z) (keys : list (list Z)) : bool :=
  bool_decide (keys = []) || existsb (has_key b) keys.

Definition bloom_hit (b : list Z) (addresses : list Address) (topics : list (list Hash)) : bool :=
  some_key b addresses && forallb (some_key b) topics.

Lemma any_in_bloom_spec b keys : any_in_bloom b keys = Some (existsb (has_key b) keys).
Proof.
  induction keys as [|k keys IH]; [done|]. cbn [any_in_bloom]. rewrite BloomLookup_spec, some_bind. simpl.
  destruct (has_key b k); [done|]. by rewrite IH.
Qed.

Lemma some_key_spec b keys :
  (if decide (length keys = 0%nat) then Some true else any_in_bloom b keys) = Some (some_key b keys).
Proof.
  rewrite any_in_bloom_spec. unfold some_key. destruct keys; [done|]. rewrite decide_False by (simpl; lia).
  by rewrite bool_decide_eq_false_2.
Qed.

Lemma topics_in_bloom_spec b topics : topics_in_bloom b topics = Some (forallb (some_key b) topics).
Proof.
  induction topics as [|sub topics IH]; [done|]. cbn [topics_in_bloom]. rewrite some_key_spec, some_bind. simpl.
  destruct (some_key b sub); [|done]. by rewrite IH.
Qed.

Lemma bloomFilter_spec b addresses topics : bloomFilter b addresses topics = Some (bloom_hit b addresses topics).
Proof.
  unfold bloomFilter, bloom_hit.
  assert ((if decide (0 < length addresses)%nat then any_in_bloom b addresses else Some true) = Some (some_key b addresses)) as ->.
  { rewrite <-some_key_spec. destruct addresses; [done|]. simpl length. by rewrite decide_True, decide_False by lia. }
  rewrite some_bind. destruct (some_key b addresses); [|done]. apply topics_in_bloom_spec.
Qed.

Lemma clause_bits_keys keys : clause_bits (map Some keys) = Some (Some (map bloom_bits keys)).
Proof.
  induction keys as [|k keys IH]; [done|]. simpl map. cbn [clause_bits].
  destruct (calcBloomIndexes_total k) as (-> & _). by rewrite some_bind, IH, some_bind.
Qed.

Lemma NewMatcher_rules rules : exists m, NewMatcher (map (map Some) rules) = Some m /\ good_rules m /\
  forall b, rules_match b m = forallb (some_key b) rules.
Proof.
  induction rules as [|rule rules (m & Hm & Hg & Hr)].
  - exists []. split; [done|]. split; [apply Forall_nil_2|done].
  - simpl map. cbn [NewMatcher]. rewrite Hm, some_bind, length_map. destruct rule as [|k rule].
    + exists m. split; [done|]. split; [done|]. intros b. simpl. by rewrite Hr.
    + rewrite decide_False by (simpl; lia). rewrite clause_bits_keys, some_bind. eexists. split; [done|]. split.
      * apply Forall_cons_2; [|done]. apply Forall_map, Forall_true. intros key.
        destruct (calcBloomIndexes_total key) as (_ & H1 & H2). split; [by destruct (bloom_bits key)|done].
      * intros b. cbn [rules_match forallb]. fold (rules_match b m). rewrite Hr. f_equal. unfold some_key, rule_match.
        rewrite bool_decide_eq_false_2 by done. rewrite orb_false_l. generalize (k :: rule). intros l.
        induction l as [|x l IHl]; [done|]. simpl. by rewrite IHl.
Qed.

(** The matcher of a filter selects the blocks [bloomFilter] lets through. *)
Lemma New_matches begin_ end_ addresses topics :
  exists m, New begin_ end_ addresses topics = Some (mkFilter begin_ end_ addresses topics m) /\ good_rules m /\
    forall b, rules_match b m = bloom_hit b addresses topics.
Proof.
  unfold New. destruct addresses as [|a addresses].
  - destruct (NewMatcher_rules topics) as (m & Hm & Hg & Hr).
    assert (NewMatcher (filter_rules [] topics) = Some m) as -> by exact Hm. exists m. done.
  - destruct (NewMatcher_rules ((a :: addresses) :: topics)) as (m & Hm & Hg & Hr).
    assert (NewMatcher (filter_rules (a :: addresses) topics) = Some m) as -> by exact Hm. exists m. done.
Qed.

(** ** Logs that match *)

Definition log_hit (addresses : list Address) (topics : list (list Hash)) (log : Log) : bool :=
  (bool_decide (addresses = []) || bool_decide (lAddress log ∈ addresses)) &&
  (length topics <=? length (lTopics log))%nat &&
  forallb (fun p => bool_decide (p.1 = []) || bool_decide (p.2 ∈ p.1)) (zip topics (lTopics log)).

Lemma includes_spec l (a : list Z) : includes l a = bool_decide (a ∈ l).
Proof.
  induction l as [|x l IH]; [done|]. cbn [includes]. destruct (decide (x = a)) as [E|E].
  - subst. symmetry. apply bool_decide_eq_true. left.
  - rewrite IH. apply bool_decide_ext. rewrite elem_of_cons. naive_solver.
Qed.

Lemma topics_match_spec topics : forall have, (length topics <= length have)%nat ->
  topics_match topics have =
  Some (forallb (fun p => bool_decide (p.1 = []) || bool_decide (p.2 ∈ p.1)) (zip topics have)).
Proof.
  induction topics as [|rule topics IH]; intros [|t have] Hl; simpl in Hl; try lia; [done..|].
  cbn [topics_match drop zip zip_with forallb fst snd]. destruct rule as [|r rule]; [simpl; apply IH; lia|].
  rewrite (bool_decide_eq_false_2 (length _ = _)), (bool_decide_eq_false_2 (_ = [])) by done.
  change ((t :: have) !! 0%nat) with (Some t). rewrite some_bind. unfold topic_match.
  rewrite (bool_decide_eq_false_2 (length _ = _)), includes_spec, !orb_false_l by done.
  destruct (decide (t ∈ r :: rule)) as [Hin|Hin].
  - rewrite !(bool_decide_eq_true_2 (t ∈ _)) by done. rewrite drop_0. apply IH. lia.
  - by rewrite !(bool_decide_eq_false_2 (t ∈ _)) by done.
Qed.

Lemma filterLogs_spec logs addresses topics :
  filterLogs logs None None addresses topics = Some (filter (fun l => log_hit addresses topics l = true) logs).
Proof.
  induction logs as [|l logs IH]; [done|]. cbn [filterLogs out_of_range orb]. rewrite IH. rewrite filter_cons.
  assert ((if (0 <? length addresses)%nat && negb (includes addresses (lAddress l)) then Some false
     else if (length (lTopics l) <? length topics)%nat then Some false
     else topics_match topics (lTopics l)) = Some (log_hit addresses topics l)) as ->.
  - assert ((0 <? length addresses)%nat && negb (includes addresses (lAddress l)) =
      negb (bool_decide (addresses = []) || bool_decide (lAddress l ∈ addresses))) as ->.
    { rewrite includes_spec. destruct addresses as [|a addresses]; [done|]. rewrite (bool_decide_eq_false_2 (_ = [])) by done.
      destruct (decide (lAddress l ∈ a :: addresses)) as [Hin|Hin].
      - by rewrite !(bool_decide_eq_true_2 (lAddress l ∈ _)) by done.
      - by rewrite !(bool_decide_eq_false_2 (lAddress l ∈ _)) by done. }
    unfold log_hit. destruct (bool_decide (addresses = []) || bool_decide (lAddress l ∈ addresses)); [|done]. cbn [negb andb].
    destruct (Nat.ltb_spec (length (lTopics l)) (length topics)) as [Hl|Hl].
    + by rewrite (proj2 (Nat.leb_gt _ _)).
    + rewrite (proj2 (Nat.leb_le _ _)) by done. by apply topics_match_spec.
  - rewrite !some_bind. destruct (log_hit addresses topics l); by case_decide.
Qed.

(** A block with a matching log has a matching bloom filter. *)
Lemma log_hit_bloom receipts b log addresses topics : CreateBloom receipts = Some b -> log ∈ mjoin receipts ->
  log_hit addresses topics log = true -> bloom_hit b addresses topics = true.
Proof.
  intros Hc Hl Hh. assert (forall key, key = lAddress log \/ key ∈ lTopics log -> has_key b key = true) as Hk.
  { intros key Hk. destruct (CreateBloom_spec receipts) as (b' & Hc' & _ & Hb). assert (b' = b) as -> by congruence.
    apply forallb_forall. intros i Hi%list_elem_of_In. rewrite Hb by (pose proof (bloom_bits_range _ _ Hi); lia).
    apply existsb_exists. exists key. split; [|by apply bool_decide_eq_true].
    apply list_elem_of_In, list_elem_of_bind. exists log. split; [|done]. unfold log_keys. rewrite elem_of_cons. tauto. }
  unfold log_hit in Hh. apply andb_true_iff in Hh as [[Ha Hlen]%andb_true_iff Ht]. apply Nat.leb_le in Hlen.
  assert (forall keys k, k ∈ keys -> has_key b k = true -> some_key b keys = true) as Hsome.
  { intros keys k Hin Hkk. unfold some_key. apply orb_true_iff. right. apply existsb_exists. exists k. by rewrite <-list_elem_of_In. }
  unfold bloom_hit. apply andb_true_iff. split.
  - apply orb_true_iff in Ha as [Ha%bool_decide_eq_true|Ha%bool_decide_eq_true]; [by rewrite Ha|]. eapply Hsome; [done|]. apply Hk. by left.
  - apply forallb_forall. intros rule Hr%list_elem_of_In. apply list_elem_of_lookup in Hr as [i Hi].
    destruct (lookup_lt_is_Some_2 (lTopics log) i) as [t Hti]; [eapply Nat.lt_le_trans; [by eapply lookup_lt_Some|exact Hlen]|].
    rewrite forallb_forall in Ht. specialize (Ht (rule, t)). rewrite <-list_elem_of_In in Ht.
    assert ((rule, t) ∈ zip topics (lTopics log)) as Hz.
    { apply list_elem_of_lookup. exists i. apply lookup_zip_Some. done. }
    apply Ht, orb_true_iff in Hz as [Hz%bool_decide_eq_true|Hz%bool_decide_eq_true]; simpl in Hz; [by rewrite Hz|].
    eapply Hsome; [done|]. apply Hk. right. by eapply list_elem_of_lookup_2.
Qed.

(** ** The whole search *)

(** Where the next search starts: behind the range, or where this one did if
    the range was empty and not indexed. *)
Definition behind {E} (b : Backend E) (lo hi : Z) : Z :=
  if lo <? (BloomStatus b).2 * Z.of_nat (BloomStatus b).1 then hi + 1 else Z.max lo (hi + 1).

Section Search.
Context {E : Type} (unaligned : bool) (wordSize : nat) (Hw : (0 < wordSize)%nat).
Context (b : Backend E) (bl : Z -> list Z) (rs : Z -> list Receipt).
Context (addresses : list Address) (topics : list (list Hash)).

Local Notation SIZE := (BloomStatus b).1.
Local Notation SECTIONS := (BloomStatus b).2.

(** The backend knows the blocks [lo .. hi] with their receipts, headers carry
    the bloom filter of their receipts, and the index is that of the chain. *)
Record honest (lo hi : Z) : Prop := mkHonest {
  hn_block n : lo <= n <= hi -> exists h hash, HeaderByNumber b n = (Some h, None) /\ Header_Hash h = Some hash /\
    GetReceipts b hash = (rs n, None) /\ CreateBloom (rs n) = Some (Types.Bloom h) /\ bl n = Types.Bloom h;
  hn_size : (0 < SIZE)%nat /\ (SIZE mod 8 = 0)%nat;
  hn_sections : 0 <= SECTIONS /\ SECTIONS * Z.of_nat SIZE < 2 ^ 63;
  hn_index s : 0 <= s < SECTIONS -> section_served SIZE (vectors b) bl s
}.

(** The matching logs of a block, and of a range of blocks. *)
Definition found (n : Z) : list Log := filter (fun l => log_hit addresses topics l = true) (mjoin (rs n)).
Definition found_in (l : list Z) : list Log := l ≫= found.

Lemma found_in_app l k : found_in (l ++ k) = found_in l ++ found_in k.
Proof. apply bind_app. Qed.

Definition filter_at (begin_ end_ : Z) (m : list (list (list Z))) : Filter := mkFilter begin_ end_ addresses topics m.

Context (lo hi : Z) (Hh : honest lo hi) (Hlo : 0 <= lo < 2 ^ 63) (Hhi : 0 <= hi) (H63 : hi + Z.of_nat SIZE + 8 < 2 ^ 63).

Lemma checkMatches_found begin_ end_ m n h hash : HeaderByNumber b n = (Some h, None) -> Header_Hash h = Some hash ->
  GetReceipts b hash = (rs n, None) -> checkMatches b (filter_at begin_ end_ m) h = Some (found n, None).
Proof. intros _ Hhash Hr. unfold checkMatches. rewrite Hhash, some_bind, Hr. cbn [f_addresses f_topics filter_at]. by rewrite filterLogs_spec. Qed.

Lemma indexed_loop_found end_ m e matches : forall begin_ logs, (forall n, n ∈ matches -> lo <= n <= hi) -> 0 <= e <= hi ->
  indexed_loop b (filter_at begin_ end_ m) e matches logs =
  Some (logs ++ found_in matches, None, filter_at (e + 1) end_ m).
Proof.
  induction matches as [|n matches IH]; intros begin_ logs Hm He; cbn [indexed_loop].
  - rewrite app_nil_r, (i64_small e) by lia. by rewrite i64_small by lia.
  - pose proof (Hm n ltac:(left)) as Hn. destruct (hn_block _ _ Hh n Hn) as (h & hash & H1 & H2 & H3 & _).
    rewrite (i64_small n), H1 by lia. change (set_begin (filter_at begin_ end_ m) ?x) with (filter_at x end_ m).
    rewrite (checkMatches_found _ _ _ n h hash H1 H2 H3), some_bind.
    rewrite IH; [|intros; apply Hm; by right|done]. by rewrite <-app_assoc.
Qed.

(** Blocks whose filter does not match have no matching logs. *)
Lemma found_nothing n : lo <= n <= hi -> bloom_hit (bl n) addresses topics = false -> found n = [].
Proof.
  intros Hn Hb. destruct (hn_block _ _ Hh n Hn) as (h & hash & _ & _ & _ & Hc & Hbl). rewrite Hbl in Hb. unfold found.
  destruct (filter _ (mjoin (rs n))) as [|l logs] eqn:Ef; [done|].
  assert (l ∈ filter (fun l => log_hit addresses topics l = true) (mjoin (rs n))) as Hl by (rewrite Ef; left).
  apply list_elem_of_filter in Hl as [Hhit Hl]. by rewrite (log_hit_bloom _ _ _ _ _ Hc Hl Hhit) in Hb.
Qed.

Lemma found_in_select P l : (forall n, n ∈ l -> lo <= n <= hi) -> (forall n, P n = bloom_hit (bl n) addresses topics) ->
  found_in (select P l) = found_in l.
Proof.
  intros Hl HP. induction l as [|n l IH]; [done|]. rewrite select_cons. unfold found_in in *. cbn [mbind list_bind].
  destruct (P n) eqn:En; cbn [mbind list_bind]; rewrite IH by (intros; apply Hl; by right); [done|].
  rewrite found_nothing; [done|apply Hl; left|by rewrite <-HP].
Qed.

Lemma unindexed_loop_found end_ m fuel : forall begin_ logs, lo <= begin_ \/ hi < begin_ -> (Z.to_nat (hi - begin_ + 1) < fuel)%nat ->
  unindexed_loop fuel b (filter_at begin_ end_ m) hi logs =
  Some (logs ++ found_in (range begin_ hi), None, filter_at (Z.max begin_ (hi + 1)) end_ m).
Proof.
  induction fuel as [|fuel IH]; intros begin_ logs Hb Hf; [lia|]. cbn [unindexed_loop f_begin filter_at].
  rewrite (i64_small hi) by lia. destruct (Z.ltb_spec hi begin_) as [Hd|Hd].
  - rewrite range_nil by done. rewrite app_nil_r. by rewrite Z.max_l by lia.
  - destruct (hn_block _ _ Hh begin_ ltac:(lia)) as (h & hash & H1 & H2 & H3 & Hc & Hbl). rewrite H1.
    cbn [f_addresses f_topics filter_at]. rewrite bloomFilter_spec, some_bind, <-Hbl. rewrite (i64_small (begin_ + 1)) by lia.
    change (mkFilter begin_ end_ addresses topics m) with (filter_at begin_ end_ m).
    change (set_begin (filter_at begin_ end_ m) ?x) with (filter_at x end_ m).
    rewrite (range_cons begin_) by done. change (found_in (begin_ :: ?l)) with (found begin_ ++ found_in l).
    destruct (bloom_hit (bl begin_) addresses topics) eqn:Ehit.
    + rewrite (checkMatches_found _ _ _ begin_ h hash H1 H2 H3), some_bind. rewrite app_assoc, IH by lia. by rewrite !Z.max_r by lia.
    + rewrite (found_nothing begin_), IH by (done || lia). by rewrite !Z.max_r by lia.
Qed.

Lemma range_within x y n : lo <= x -> y <= hi -> n ∈ range x y -> lo <= n <= hi.
Proof. intros ?? ?%elem_of_range. lia. Qed.

Lemma indexedLogs_found end_ m e : good_rules m -> (forall x, rules_match x m = bloom_hit x addresses topics) ->
  0 <= e <= hi -> e < SECTIONS * Z.of_nat SIZE ->
  indexedLogs unaligned wordSize b (filter_at lo end_ m) e =
  Some (found_in (range lo e), None, filter_at (e + 1) end_ m).
Proof.
  intros Hg Hm He Hs. unfold indexedLogs. cbn [f_matcher f_begin filter_at]. destruct (hn_size _ _ Hh) as [Hp H8].
  assert (u64 lo = lo) as -> by (apply Z.mod_small; lia).
  rewrite (Start_finds unaligned wordSize SIZE Hw H8 Hp (vectors b) bl m Hg lo e); [|lia..|].
  - rewrite some_bind. change (mkFilter lo end_ addresses topics m) with (filter_at lo end_ m).
    rewrite indexed_loop_found; [|intros n Hn; apply list_elem_of_filter in Hn as [_ Hn]; by eapply range_within; [| |exact Hn]; lia|done].
    cbn [app]. do 3 f_equal. apply found_in_select; [intros n; apply range_within; lia|]. intros n. apply Hm.
  - intros s0 Hs0. apply (hn_index _ _ Hh). pose proof (Z.div_pos lo (Z.of_nat SIZE) ltac:(lia) ltac:(lia)).
    assert (e / Z.of_nat SIZE < SECTIONS); [|lia]. apply Z.div_lt_upper_bound; lia.
Qed.

(** The range as the indexed and the other part. *)
Lemma found_in_parts e : e <= hi -> (lo <= e + 1 \/ e = hi) ->
  found_in (range lo e) ++ found_in (range (e + 1) hi) = found_in (range lo hi).
Proof.
  intros He [Hle| ->].
  - by rewrite <-found_in_app, <-range_app by lia.
  - rewrite (range_nil (hi + 1)) by lia. apply app_nil_r.
Qed.

Lemma Logs_found begin_ end_ m h0 head : good_rules m -> (forall x, rules_match x m = bloom_hit x addresses topics) ->
  LatestHeader b = Some h0 -> Number h0 = Some head -> 0 <= head < 2 ^ 63 ->
  lo = (if begin_ =? -1 then head else begin_) -> hi = (if end_ =? -1 then head else end_) ->
  Logs unaligned wordSize b (filter_at begin_ end_ m) = Some (found_in (range lo hi), None, filter_at (behind b lo hi) end_ m).
Proof.
  intros Hg Hm Hlatest Hnum Hhead Elo Ehi. destruct (hn_sections _ _ Hh) as [Hs0 Hs63]. destruct (hn_size _ _ Hh) as [Hp _].
  unfold Logs. rewrite Hlatest, Hnum, some_bind. cbn [f_begin f_end filter_at].
  assert (big_Uint64 head = head) as -> by (unfold big_Uint64; rewrite Z.abs_eq by lia; apply Z.mod_small; lia). cbv zeta.
  assert ((if begin_ =? -1 then set_begin (filter_at begin_ end_ m) (i64 head) else filter_at begin_ end_ m)
    = filter_at lo end_ m) as ->.
  { rewrite Elo, (i64_small head) by lia. by destruct (begin_ =? -1). }
  cbn [f_begin f_end filter_at].
  assert ((if end_ =? -1 then head else u64 end_) = hi) as ->.
  { rewrite Ehi. destruct (end_ =? -1); [done|]. apply Z.mod_small. lia. }
  rewrite (surjective_pairing (BloomStatus b)). cbv beta iota. unfold behind. cbn [f_begin filter_at].
  assert (u64 (SECTIONS * Z.of_nat SIZE) = SECTIONS * Z.of_nat SIZE) as -> by (apply Z.mod_small; nia).
  assert (u64 lo = lo) as -> by (apply Z.mod_small; lia).
  change (mkFilter lo end_ addresses topics m) with (filter_at lo end_ m).
  destruct (Z.ltb_spec lo (SECTIONS * Z.of_nat SIZE)) as [Hi|Hi].
  - assert (exists e, (if hi <? SECTIONS * Z.of_nat SIZE then hi else u64 (SECTIONS * Z.of_nat SIZE - 1)) = e /\
      0 <= e <= hi /\ e < SECTIONS * Z.of_nat SIZE /\ (lo <= e + 1 \/ e = hi)) as (e & -> & He & Hes & Hle).
    { eexists. split; [done|]. destruct (Z.ltb_spec hi (SECTIONS * Z.of_nat SIZE)); [lia|].
      unfold u64. rewrite Z.mod_small by lia. lia. }
    rewrite indexedLogs_found by done. rewrite some_bind. unfold unindexedLogs. cbn [f_begin filter_at].
    change (mkFilter ?x end_ addresses topics m) with (filter_at x end_ m).
    rewrite (unindexed_loop_found end_ m (S (Z.to_nat (i64 hi - (e + 1) + 1))) (e + 1) []) by (rewrite ?(i64_small hi) by lia; lia).
    rewrite some_bind. cbn [app]. rewrite (found_in_parts e) by lia. rewrite Z.max_r by lia. done.
  - rewrite some_bind. unfold unindexedLogs. cbn [f_begin filter_at].
    change (mkFilter ?x end_ addresses topics m) with (filter_at x end_ m).
    by rewrite (unindexed_loop_found end_ m (S (Z.to_nat (i64 hi - lo + 1))) lo []) by (rewrite ?(i64_small hi) by lia; lia).
Qed.
End Search.

(** The vectors of the index are those a session needs. *)
Lemma index_served d vectors bl sec bs : length bs = BloomBitsBlocks ->
  (forall k x, bs !! k = Some x -> bl (sec * Z.of_nat BloomBitsBlocks + Z.of_nat k) = x) ->
  (forall i v, serve d i sec = Ok v -> vectors i sec = v) ->
  serves d sec bs -> section_served BloomBitsBlocks vectors bl sec.
Proof.
  intros Hl Hbl Hv Hs i Hi. destruct (Hs i Hi) as (v & Hsv & Bv & Lv & Kv). rewrite (Hv i v Hsv).
  split; [done|]. split; [by rewrite Lv, Hl|]. intros k Hk. rewrite Kv.
  destruct (lookup_lt_is_Some_2 bs k) as [x Hx]; [rewrite Hl; exact Hk|]. by rewrite Hx, (Hbl k x Hx).
Qed.

(** C14: a log search is exact.  Over blocks whose headers carry the filters of
    their receipts and whose first sections are indexed by those filters, a
    filter from [begin] to [end] (minus one meaning the latest block) returns
    the logs of the blocks in the range that match the addresses and topics,
    all of them, no others, in the order of the chain, whatever part of the
    range the index covers, and no step panics.  The filter starts behind the
    range afterwards and is otherwise unchanged. *)
Theorem log_search_exact {E} unaligned wordSize (b : Backend E) bl rs addresses topics begin_ end_ lo hi h0 head :
  (0 < wordSize)%nat -> LatestHeader b = Some h0 -> Number h0 = Some head -> 0 <= head < 2 ^ 63 ->
  lo = (if begin_ =? -1 then head else begin_) -> hi = (if end_ =? -1 then head else end_) ->
  0 <= lo < 2 ^ 63 -> 0 <= hi -> hi + Z.of_nat (BloomStatus b).1 + 8 < 2 ^ 63 -> honest b bl rs lo hi ->
  exists f, New begin_ end_ addresses topics = Some f /\
    Logs unaligned wordSize b f =
    Some (range lo hi ≫= (fun n => filter (fun l => log_hit addresses topics l = true) (mjoin (rs n))), None,
          set_begin f (behind b lo hi)).
Proof.
  intros Hw Hlatest Hnum Hhead Elo Ehi Hlo Hhi H63 Hh.
  destruct (New_matches begin_ end_ addresses topics) as (m & Hm & Hg & Hr). eexists. split; [exact Hm|].
  exact (Logs_found unaligned wordSize Hw b bl rs addresses topics lo hi Hh Hlo Hhi H63 begin_ end_ m h0 head Hg Hr
    Hlatest Hnum Hhead Elo Ehi).
Qed.

Module Sample.

(** A vector with given bits. *)
Definition pack (f : nat -> bool) : list Z :=
  match encode_loop 0 (map (fun k => if f k then 1 else 0) (seq 0 8)) [0] [] with Some (bs, _) => bs | None => [] end.

Lemma pack_vec f : vec 1 f (pack f).
Proof.
  unfold pack. destruct (encode_loop_spec (map (fun k => if f k then 1 else 0) (seq 0 8)) 0 [0] []) as (bs & -> & Hb & Hl & Hk).
  - apply (bytes_replicate_0 1).
  - simpl. lia.
  - split; [done|]. split; [done|]. intros k Hk8. rewrite Hk. change [0] with (replicate 1 0).
    rewrite bit_zeros, Nat.sub_0_r, bool_decide_eq_true_2 by lia. simpl.
    do 8 (destruct k as [|k]; [unfold nz, byte_at; simpl; by destruct (f _)|]). lia.
Qed.

Definition transfer : Log := mkLog [1] [[7]; [8]] [] 0 [] 0 [] 0.
Definition other : Log := mkLog [2] [[9]] [] 0 [] 0 [] 0.
Definition receipts : list Receipt := [[transfer; other]; [transfer]].
Definition bloom : list Z := default [] (CreateBloom receipts).
Definition header : Header := LogIndex.Sample.block_with bloom 9.

(** Ten blocks with the same receipts, the first eight of them indexed. *)
Definition backend : Backend unit :=
  mkBackend (Some header) (fun _ => (Some header, None)) (fun _ => (receipts, None)) (8%nat, 1)
    (fun i _ => pack (fun _ => has_bit bloom i)).

Lemma bloom_created : CreateBloom receipts = Some bloom /\ length bloom = 256%nat.
Proof. unfold bloom. destruct (CreateBloom_spec receipts) as (b & -> & [_ Hb] & _). done. Qed.

Lemma header_bloom : Types.Bloom header = bloom.
Proof. reflexivity. Qed.

#[local] Opaque bloom header.

Lemma header_hash : is_Some (Header_Hash header).
Proof. apply (LogIndex.Sample.block_with_hash bloom 9); [apply bloom_created|lia]. Qed.

Lemma backend_honest : honest backend (fun _ => bloom) (fun _ => receipts) 3 9.
Proof.
  split.
  - intros n _. destruct header_hash as [hash Hhash]. exists header, hash. split; [reflexivity|]. split; [exact Hhash|]. split; [reflexivity|].
    rewrite header_bloom. split; [exact (proj1 bloom_created)|reflexivity].
  - split; simpl; [lia|done].
  - simpl. lia.
  - intros s _ i Hi. exact (pack_vec (fun _ => has_bit bloom i)).
Qed.

Lemma log_search_exact_witness : exists f, New 3 (-1) [[1]] [[]; [[8]; [5]]] = Some f /\
  Logs true 8 backend f = Some (mjoin (replicate 7 [transfer; transfer]), None, set_begin f 10).
Proof.
  apply (log_search_exact true 8 backend (fun _ => bloom) (fun _ => receipts) [[1]] [[]; [[8]; [5]]] 3 (-1) 3 9 header 9).
  - lia.
  - reflexivity.
  - reflexivity.
  - lia.
  - reflexivity.
  - reflexivity.
  - lia.
  - lia.
  - simpl. lia.
  - exact backend_honest.
Defined.
End Sample.
