(* ===== verification/BlockValidator.v ===== *)
(** * Validating blocks (src/core/block_validator.go)

    What a block has to agree with before and after its transactions run, and
    the gas limit a miner chooses for the next one.  The roots of the lists and
    of the state are results of the calls to [DeriveSha] and
    [IntermediateRoot]; they are arguments here. *)
From S2P Require Import State Prelude Sha3 Types Rlp StateCodec HeaderHash Bloom Shabal Dnpoc.

(** ** ValidateBody *)

Inductive body_error :=
  | errKnownBlock
  | errUnknownParent
  | errUncles (e : Dnpoc.error)
  | errUncleRoot (have want : Hash)
  | errTxRoot (have want : Hash).

(** [known] is [HasBlockAndState] of the chain, [uncles_verdict] the result of
    the engine's [VerifyUncles] on the block. *)
Definition ValidateBody {Tx} (known : Hash -> bool) (uncles_verdict : outcome Dnpoc.error unit) (txSha : Hash)
    (block : Block Tx) : outcome body_error unit :=
  hash ← or_panic (Header_Hash (header block));
  guard_err (known hash) errKnownBlock;;
  guard_err (negb (known (ParentHash (header block)))) errUnknownParent;;
  match uncles_verdict with
  | Panic => Panic
  | Err e => Err (errUncles e)
  | Ok _ =>
      hash ← or_panic (CalcUncleHash (uncles block));
      guard_err (negb (bool_decide (hash = UncleHash (header block)))) (errUncleRoot hash (UncleHash (header block)));;
      guard_err (negb (bool_decide (txSha = TxHash (header block)))) (errTxRoot txSha (TxHash (header block)))
  end.

(** ** ValidateState *)

Inductive state_error :=
  | errInvalidGasUsed (remote local : Z)
  | errInvalidBloom (remote local : list Z)
  | errInvalidReceiptRoot (remote local : Hash)
  | errInvalidMerkleRoot (remote local : Hash).

Definition ValidateState (h : Header) (receipts : list Receipt) (receiptSha root : Hash) (usedGas : Z)
    : outcome state_error unit :=
  used ← or_panic (GasUsed h);
  guard_err (negb (used =? usedGas)) (errInvalidGasUsed used usedGas);;
  rbloom ← or_panic (CreateBloom receipts);
  guard_err (negb (bool_decide (rbloom = Types.Bloom h))) (errInvalidBloom (Types.Bloom h) rbloom);;
  guard_err (negb (bool_decide (receiptSha = ReceiptHash h))) (errInvalidReceiptRoot (ReceiptHash h) receiptSha);;
  guard_err (negb (bool_decide (Root h = root))) (errInvalidMerkleRoot (Root h) root).

(** ** CalcGasLimit *)

(** [TargetGasLimit] is a variable of [params] that the command line sets. *)
Definition CalcGasLimit (TargetGasLimit : Z) (parent : Header) : option Z :=
  used ← GasUsed parent;
  let contrib := used * 3 / 2 / GasLimitBoundDivisor in
  limit ← GasLimit parent;
  let decay := limit / GasLimitBoundDivisor - 1 in
  let gl := Z.max (limit - decay + contrib) MinGasLimit in
  Some (if gl <? TargetGasLimit then Z.min (limit + decay) TargetGasLimit else gl).

(** ** What is accepted *)

Lemma guard_bind_ok {E A} b (e : E) (k : unit -> outcome E A) r : guard_err b e ≫= k = Ok r <-> b = false /\ k tt = Ok r.
Proof. destruct b; simpl; split; [done|by intros [? _]|done|by intros [_ ?] ]. Qed.

Lemma negb_decide_false P `{Decision P} : negb (bool_decide P) = false <-> P.
Proof. rewrite negb_false_iff. apply bool_decide_eq_true. Qed.

(** [ValidateState] accepts a block exactly if the gas used, the bloom filter,
    the root of the receipts and the root of the state in its header are those
    of the processed block.  So the filter of an accepted header is the one of
    its receipts, which the log search relies on. *)
Lemma ValidateState_iff h receipts receiptSha root usedGas used : GasUsed h = Some used ->
  ValidateState h receipts receiptSha root usedGas = Ok tt <->
  used = usedGas /\ CreateBloom receipts = Some (Types.Bloom h) /\ receiptSha = ReceiptHash h /\ Root h = root.
Proof.
  intros Hu. destruct (CreateBloom_spec receipts) as (b & Hb & _). unfold ValidateState. rewrite Hu, Hb, !or_panic_bind.
  rewrite !guard_bind_ok, guard_err_ok, !negb_decide_false, negb_false_iff, Z.eqb_eq.
  split; intros (-> & H1 & H2 & H3); [by rewrite H1|]. injection H1 as ->. done.
Qed.

(** An accepted body extends a known block, has uncles the engine accepts, and
    its header names the hash of the uncles and the root of the transactions. *)
Lemma ValidateBody_ok {Tx} known verdict txSha (block : Block Tx) : ValidateBody known verdict txSha block = Ok tt ->
  known (ParentHash (header block)) = true /\ Header_Hash (header block) <> Some (ParentHash (header block)) /\
  verdict = Ok tt /\ CalcUncleHash (uncles block) = Some (UncleHash (header block)) /\ txSha = TxHash (header block).
Proof.
  unfold ValidateBody. destruct (Header_Hash (header block)) as [hash|]; [|done].
  rewrite or_panic_bind, !guard_bind_ok, negb_false_iff. intros (H1 & H2 & H3).
  destruct verdict as [ [] | |]; [|done|done]. destruct (CalcUncleHash (uncles block)) as [uh|]; [|done].
  rewrite or_panic_bind, guard_bind_ok, guard_err_ok, !negb_decide_false in H3. destruct H3 as [-> ->].
  split_and!; try done. intros [= ->]. congruence.
Qed.

Lemma CalcGasLimit_within target parent limit used : GasLimit parent = Some limit -> GasUsed parent = Some used ->
  0 <= used <= limit -> 5000 <= limit -> (limit < 5120 -> limit + limit / 1024 < target) ->
  exists gl, CalcGasLimit target parent = Some gl /\ Z.abs (limit - gl) < limit / 1024 /\ 5000 <= gl.
Proof.
  intros Hl Hu Hr Hm Ht. unfold CalcGasLimit. rewrite Hu, some_bind, Hl, some_bind. unfold GasLimitBoundDivisor, MinGasLimit.
  eexists. split; [done|].
  destruct (Z.ltb_spec (Z.max (limit - (limit / 1024 - 1) + used * 3 / 2 / 1024) 5000) target); lia.
Qed.

(** The gas limit a miner chooses is one [verifyHeader] accepts.  A header
    on top of its parent that carries the computed limit passes all checks but
    the seal's: the limit is at least the minimum and within a 1024th of the
    parent's, whatever the target, if the parent's limit is at least 5120; and
    from 5000 on if the target is above it. *)
Theorem CalcGasLimit_verifies {H} `{Hasher H} now1 now2 target parent h limit used gl :
  header_wf parent -> header_wf h -> GasLimit parent = Some limit -> GasUsed parent = Some used ->
  0 <= used <= limit -> 5000 <= limit < 2 ^ 62 -> (limit < 5120 -> limit + limit / 1024 < target) ->
  CalcGasLimit target parent = Some gl -> GasLimit h = Some gl -> val (GasUsed h) <= gl ->
  Z.of_nat (length (Extra h)) <= 32 -> val (Time parent) < val (Time h) <= now1 -> val (Number h) = val (Number parent) + 1 ->
  verifyHeader now1 now2 h parent false false = Ok tt.
Proof.
  intros Hp Hh Hl Hu Hr Hm Ht Hgl Hg Hhu Hx Htime Hn.
  destruct (CalcGasLimit_within target parent limit used Hl Hu Hr ltac:(lia) Ht) as (gl' & Hgl' & H1 & H2).
  assert (gl' = gl) as -> by congruence. destruct Hp, Hh. unfold verifyHeader. cbv zeta.
  rewrite !deref_some by done. rewrite Hl, Hg. change (val (Some limit)) with limit. change (val (Some gl)) with gl. autorewrite with outcome.
  unfold MaximumExtraDataSize, MaxBig63, MinGasLimit, GasLimitBoundDivisor.
  replace (32 <? Z.of_nat (length (Extra h))) with false by lia.
  replace (now1 <? val (Time h)) with false by lia.
  replace (val (Time h) <=? val (Time parent)) with false by lia.
  replace (2 ^ 63 - 1 <? gl) with false by lia.
  replace (gl <? val (GasUsed h)) with false by lia.
  replace ((limit / 1024 <=? Z.abs (limit - gl)) || (gl <? 5000)) with false by lia.
  by replace (val (Number h) - val (Number parent) =? 1) with true by lia.
Qed.

Definition gas_header (number limit used time : Z) : Header :=
  mkHeader [] [] (replicate 23 0) [] [] [] [] (Some 1) (Some number) (Some limit) (Some used)
    (Some time) [] (PutUint64 0) (PutUint64 0) (replicate 32 0) (Some 1) (Some 1) (Some 1).

Lemma gas_header_wf number limit used time : header_wf (gas_header number limit used time).
Proof. constructor; try reflexivity; try (eexists; reflexivity). apply bytes_replicate_0. Qed.

(** A full parent of 8 million gas and the default target. *)
Lemma CalcGasLimit_verifies_witness :
  CalcGasLimit 4712388 (gas_header 7 8000000 8000000 10) = Some 8003907 /\
  verifyHeader 30 30 (gas_header 8 8003907 21000 20) (gas_header 7 8000000 8000000 10) false false = Ok tt.
Proof.
  split; [reflexivity|].
  apply (CalcGasLimit_verifies 30 30 4712388 (gas_header 7 8000000 8000000 10) (gas_header 8 8003907 21000 20)
    8000000 8000000 8003907); try apply gas_header_wf; try reflexivity; cbn; lia.
Defined.

(** Below that the limit of a nearly full parent grows by a 1024th of it, one
    too much: with a target that small the miner's own block is refused. *)
Lemma small_limit_refused :
  CalcGasLimit 5000 (gas_header 7 5119 5119 10) = Some 5123 /\
  verifyHeader 30 30 (gas_header 8 5123 0 20) (gas_header 7 5119 5119 10) false false = Err (errGasLimit 5123 5119 4).
Proof. split; reflexivity. Qed.
