(* ===== verification/ChainDb.v ===== *)
(** * The database of the chain (src/core/database_util.go)

    Headers, total difficulties, block numbers and the canonical chain in a
    key-value store, under the keys the node uses.  What one accessor writes
    its reader returns, and no accessor touches what another one wrote. *)
From S2P Require Import State Prelude Sha3 Types Rlp RlpStream StateCodec HeaderHash Bitutil Bloom LogIndex Clique.

(** ** Keys *)

Definition headHeaderKey : list Z := [76; 97; 115; 116; 72; 101; 97; 100; 101; 114].
Definition headBlockKey : list Z := [76; 97; 115; 116; 66; 108; 111; 99; 107].
Definition tdSuffix : list Z := [0x74].
Definition blockHashPrefix : list Z := [0x48].

Definition headerKey (hash : Hash) (number : Z) : list Z := headerPrefix ++ encodeBlockNumber number ++ hash.
Definition td_key (hash : Hash) (number : Z) : list Z := headerPrefix ++ encodeBlockNumber number ++ hash ++ tdSuffix.
Definition number_key (hash : Hash) : list Z := blockHashPrefix ++ hash.

(** ** Hashes and numbers *)

Definition stored_hash (db : KV) (key : list Z) : Hash :=
  let data := default [] (db !! key) in
  if decide (length data = 0%nat) then zeroHash else BytesToHash data.

Definition GetHeadHeaderHash (db : KV) : Hash := stored_hash db headHeaderKey.
Definition GetHeadBlockHash (db : KV) : Hash := stored_hash db headBlockKey.
Definition WriteHeadHeaderHash (db : KV) (hash : Hash) : KV := <[headHeaderKey := hash]> db.
Definition WriteHeadBlockHash (db : KV) (hash : Hash) : KV := <[headBlockKey := hash]> db.
Definition DeleteCanonicalHash (db : KV) (number : Z) : KV := delete (canonical_key number) db.

Definition missingNumber : Z := 0xffffffffffffffff.

Definition GetBlockNumber (db : KV) (hash : Hash) : Z :=
  let data := default [] (db !! number_key hash) in
  if negb (length data =? 8)%nat then missingNumber else be_get data.

(** ** Headers *)

(** [rlp.Decode] of a reader over the bytes; what follows the value is left
    alone. *)
Definition Decode_with {A} (dec : SM A) (b : list Z) : option A :=
  match (dec (NewStream b)).1 with inl a => Some a | inr _ => None end.

(** A struct: the fields between [List] and [ListEnd]. *)
Definition struct_decoder {A} (fields : SM A) : SM A :=
  _ ← List_;
  a ← fields;
  _ ← ListEnd;
  mret a.

Section Codec.
Context {AS : AddressSize}.

Definition header_fields : SM Header :=
  parent ← decodeByteArray 32; uncle ← decodeByteArray 32; coinbase ← decodeByteArray AddressLength;
  root ← decodeByteArray 32; tx ← decodeByteArray 32; receipt ← decodeByteArray 32; bloom ← decodeByteArray 256;
  difficulty ← decodeBigInt; number ← decodeBigInt; limit ← decodeBigInt; used ← decodeBigInt; time ← decodeBigInt;
  extra ← Bytes; nonce ← decodeByteArray 8; plot ← decodeByteArray 8; gensig ← decodeByteArray 32;
  base ← decodeBigInt; dead ← decodeBigInt; last ← decodeBigInt;
  mret (mkHeader parent uncle coinbase root tx receipt bloom (Some difficulty) (Some number) (Some limit) (Some used)
    (Some time) extra nonce plot gensig (Some base) (Some dead) (Some last)).

Definition GetHeader (db : KV) (hash : Hash) (number : Z) : option Header :=
  let data := default [] (db !! headerKey hash number) in
  if decide (length data = 0%nat) then None else Decode_with (struct_decoder header_fields) data.

(** The result tells whether the header could be encoded. *)
Definition WriteHeader (db : KV) (header : Header) : option (bool * KV) :=
  match EncodeToBytes (header_value header) with
  | Panic => None
  | Err _ => Some (false, db)
  | Ok data =>
      hash ← Header_Hash header;
      n ← Number header;
      let encNum := encodeBlockNumber (big_Uint64 n) in
      let db := <[number_key hash := encNum]> db in
      Some (true, <[headerPrefix ++ encNum ++ hash := data]> db)
  end.

Definition DeleteHeader (db : KV) (hash : Hash) (number : Z) : KV :=
  delete (headerKey hash number) (delete (number_key hash) db).

(** ** Total difficulties *)

Definition GetTd (db : KV) (hash : Hash) (number : Z) : option Z :=
  let data := default [] (db !! td_key hash number) in
  if decide (length data = 0%nat) then None else Decode_with decodeBigInt data.

Definition WriteTd (db : KV) (hash : Hash) (number : Z) (td : Z) : option (bool * KV) :=
  match EncodeToBytes (VBig (Some td)) with
  | Panic => None
  | Err _ => Some (false, db)
  | Ok data => Some (true, <[td_key hash number := data]> db)
  end.

Definition DeleteTd (db : KV) (hash : Hash) (number : Z) : KV := delete (td_key hash number) db.

(** ** FindCommonAncestor *)

(** One step towards the genesis block. *)
Definition db_parent (db : KV) (h : Header) : option (option Header) :=
  n ← Number h;
  Some (GetHeader db (ParentHash h) (u64 (big_Uint64 n - 1))).

(** [for n := ...; a.Number.Uint64() > n; { a = parent }]; the inner [None] is
    the nil header that is returned at once. *)
Fixpoint lower (fuel : nat) (db : KV) (a : Header) (n : Z) : option (option Header) :=
  match fuel with
  | O => None
  | S fuel' =>
      an ← Number a;
      if n <? big_Uint64 an then
        p ← db_parent db a;
        match p with None => Some None | Some a => lower fuel' db a n end
      else Some (Some a)
  end.

Fixpoint meet (fuel : nat) (db : KV) (a b : Header) : option (option Header) :=
  match fuel with
  | O => None
  | S fuel' =>
      ha ← Header_Hash a; hb ← Header_Hash b;
      if decide (ha = hb) then Some (Some a)
      else
        pa ← db_parent db a;
        match pa with
        | None => Some None
        | Some a =>
            pb ← db_parent db b;
            match pb with None => Some None | Some b => meet fuel' db a b end
        end
  end.

Definition FindCommonAncestor (fuel : nat) (db : KV) (a b : Header) : option (option Header) :=
  bn ← Number b;
  a ← lower fuel db a (big_Uint64 bn);
  match a with
  | None => Some None
  | Some a =>
      an ← Number a;
      b ← lower fuel db b (big_Uint64 an);
      match b with None => Some None | Some b => meet fuel db a b end
  end.
End Codec.

(** ** Structs survive their encoding *)

Lemma field_ret {A} (a : A) : field_ok (mret a) a [].
Proof.
  intros s rest Hs Hk _ Hin _. exists s. split; [done|]. split; [|done].
  by apply consumed_nil.
Qed.

Lemma field_bind {A B} (dec : SM A) (k : A -> SM B) a r b1 b2 :
  field_ok dec a b1 -> field_ok (k a) r b2 -> field_ok (dec ≫= k) r (b1 ++ b2).
Proof.
  intros H1 H2 s rest Hs Hk Hb Hin Hr. rewrite <-app_assoc in Hin. rewrite length_app in Hr.
  destruct (field_step _ _ _ _ _ H1 Hs Hk Hb Hin) as (s1 & E1 & C1 & I1 & V1 & K1 & B1 & R1); [lia|].
  destruct (H2 s1 rest V1 K1 B1 I1) as (s2 & E2 & C2 & I2); [lia|].
  exists s2. split; [by rewrite (SM_bind_ok _ _ _ _ _ E1)|]. split; [|done]. by eapply consumed_trans.
Qed.

Lemma struct_roundtrip {A} (fields : SM A) a p : field_ok fields a p -> bytes p -> Z.of_nat (length (enc_list p)) < 2 ^ 64 ->
  exists s, struct_decoder fields (NewStream (enc_list p)) = (inl a, s) /\ input s = [].
Proof.
  intros Hf Hb Hl. destruct (list_start p Hl) as (h & s1 & EL & Hv & Hi0 & Hin & Hie & Hre).
  unfold struct_decoder. rewrite (SM_bind_ok _ _ _ _ _ EL).
  destruct (Hf (enter s1 (Z.of_nat (length p))) []) as (s2 & E2 & C2 & I2); [done|done|by rewrite Hin|by rewrite Hin, app_nil_r|lia|].
  rewrite (SM_bind_ok _ _ _ _ _ E2).
  destruct (ListEnd_at _ _ _ _ _ _ Hi0 Hv (co_moved _ _ _ C2) eq_refl) as (s3 & E3 & _ & _ & I3).
  rewrite (SM_bind_ok _ _ _ _ _ E3). exists s3. split; [done|]. by rewrite I3.
Qed.

Section Roundtrip.
Context {AS : AddressSize}.

(** A header as decoding yields it: all pointers are set, the fixed-size
    fields have their sizes, and it can be encoded. *)
Record storable (h : Header) : Prop := mkStorable {
  so_encodable : exists b, encodable (header_value h) b;
  so_address : (1 < AddressLength)%nat /\ length (Coinbase h) = AddressLength;
  so_parent : length (ParentHash h) = 32%nat;
  so_hashes : Forall (fun x => length x = 32%nat) [UncleHash h; Root h; TxHash h; ReceiptHash h; GenSig h];
  so_bloom : length (Types.Bloom h) = 256%nat;
  so_nonces : length (Nonce h) = 8%nat /\ length (PlotID h) = 8%nat;
  so_bigs : Forall is_Some [Difficulty h; Number h; GasLimit h; GasUsed h; Time h; BaseTarget h; DeadLine h; LastTime h]
}.

Lemma flat_big_field i f : flat_value (VBig (Some i)) = Some f -> field_ok decodeBigInt i (enc_str f).
Proof. simpl. destruct (Z.ltb_spec i 0); intros [= <-]. by apply decodeBigInt_field. Qed.

Lemma flat_bytes_field b n f : flat_value (VBytes b) = Some f -> (1 < n)%nat -> length b = n -> bytes (enc_str f) ->
  field_ok (decodeByteArray n) b (enc_str f).
Proof. intros [= <-] Hn Hl Hb. apply decodeByteArray_field; [done..|]. by apply enc_str_bytes_inv. Qed.

Lemma flat_extra_field b f : flat_value (VBytes b) = Some f -> bytes (enc_str f) -> field_ok Bytes b (enc_str f).
Proof. intros [= <-] Hb. apply Bytes_field. by apply enc_str_bytes_inv. Qed.

Lemma header_fields_ok h fs : storable h -> (forall l, header_value h = VList l -> mapM flat_value l = Some fs) ->
  bytes (enc_strs fs) -> field_ok header_fields h (enc_strs fs).
Proof.
  intros Hs Hm Hb. specialize (Hm _ eq_refl). apply mapM_Some in Hm.
  destruct Hs as [_ [Ha Hc] Hp Hh Hbl [Hn Hpl] Hbig].
  destruct h; cbn [Types.ParentHash Types.UncleHash Types.Coinbase Types.Root Types.TxHash Types.ReceiptHash Types.Bloom Types.Difficulty Types.Number
    Types.GasLimit Types.GasUsed Types.Time Types.Extra Types.Nonce Types.PlotID Types.GenSig Types.BaseTarget
    Types.DeadLine Types.LastTime] in *.
  repeat match goal with H : Forall _ (_ :: _) |- _ => apply Forall_cons_1 in H as [? H] end.
  repeat match goal with H : is_Some _ |- _ => destruct H as [? ->] end.
  repeat match goal with H : Forall2 _ (_ :: _) _ |- _ => apply Forall2_cons_inv_l in H as (? & ? & ? & H & ->) end.
  apply Forall2_nil_inv_l in Hm as ->. unfold header_fields, enc_strs in *. cbn [fmap list_fmap mjoin list_join] in *.
  repeat match goal with H : bytes (_ ++ _) |- _ => apply bytes_app in H as [? H] end.
  repeat (eapply field_bind; [first [eapply flat_big_field; eassumption | eapply flat_extra_field; eassumption
    | eapply flat_bytes_field; [eassumption|lia|eassumption|eassumption] ]|]).
  apply field_ret.
Qed.

(** What [WriteHeader] encodes, [GetHeader] decodes; the hash is the digest of
    the encoding. *)
Lemma header_roundtrip h : storable h -> exists b, EncodeToBytes (header_value h) = Ok b /\ b <> [] /\
  encodable (header_value h) b /\ Decode_with (struct_decoder header_fields) b = Some h /\ Header_Hash h = Some (keccak256 b).
Proof.
  intros Hs. destruct (so_encodable h Hs) as [b Hb]. pose proof Hb as (Hv & Hr & Hby & Hl). exists b.
  split; [by apply EncodeToBytes_ok|].
  assert (exists l, header_value h = VList l /\ Forall (fun v => string_value v = true) l) as (l & Eh & Hst).
  { eexists. split; [reflexivity|]. by repeat constructor. }
  rewrite Eh in Hr. destruct (rlp_flat_inv l b Hst Hr) as (fs & Hfs & ->).
  split. { intros E. pose proof (length_puthead 0xC0 0xF7 (Z.of_nat (length (enc_strs fs)))) as [Hp Hr9].
    { unfold enc_list in Hl. rewrite length_app in Hl. lia. }
    unfold enc_list in E. apply app_nil in E as [E _]. rewrite E in Hp. simpl in Hp. lia. }
  split; [done|]. split; [|apply rlpHash_ok; [done|by rewrite Eh|done] ]. apply enc_list_payload in Hby.
  destruct (struct_roundtrip header_fields h (enc_strs fs)) as (s & E & _); [|done|done|by unfold Decode_with; rewrite E].
  apply header_fields_ok; [done| |done]. intros l'. rewrite Eh. by intros [= <-].
Qed.

Lemma td_roundtrip td : 0 <= td < 2 ^ 512 ->
  exists b, EncodeToBytes (VBig (Some td)) = Ok b /\ b <> [] /\ Decode_with decodeBigInt b = Some td.
Proof.
  intros Htd. destruct (min_bytes_big td ltac:(lia)) as (Hby & _ & _).
  pose proof (min_bytes_length td 64 ltac:(change (256 ^ Z.of_nat 64) with (2 ^ 512); lia)) as Hl.
  assert (length (enc_str (min_bytes td)) <= 80)%nat as Hle.
  { destruct (enc_str_cases (min_bytes td)) as [(x & -> & _ & -> & _)|(_ & -> & _)]; [simpl; lia|].
    rewrite length_app. unfold puthead. destruct (Z.ltb_spec (Z.of_nat (length (min_bytes td))) 56); [simpl; lia|].
    destruct (putint_spec (Z.of_nat (length (min_bytes td)))) as (_ & -> & _ & Hi); [lia|]. simpl. rewrite length_be_put. lia. }
  exists (enc_str (min_bytes td)). split; [apply EncodeToBytes_ok; [done| |lia]|].
  { simpl. by rewrite (proj2 (Z.ltb_ge td 0)) by lia. }
  split; [intros E; pose proof (enc_str_nonempty (min_bytes td)); rewrite E in *; simpl in *; lia|].
  destruct (decodeBigInt_field td ltac:(lia) (NewStream (enc_str (min_bytes td))) []) as (s & E & _ & _).
  - apply NewStream_inv. lia.
  - done.
  - apply enc_str_bytes; [done|lia].
  - by rewrite app_nil_r.
  - unfold room. simpl. lia.
  - unfold Decode_with. by rewrite E.
Qed.
End Roundtrip.

(** ** Keys do not meet *)

Definition is_hash (h : Hash) : Prop := length h = 32%nat.
Definition is_number (n : Z) : Prop := 0 <= n < 2 ^ 64.

Lemma encodeBlockNumber_inj n m : is_number n -> is_number m -> encodeBlockNumber n = encodeBlockNumber m -> n = m.
Proof. intros Hn Hm. by apply be_put_inj. Qed.

Lemma length_encodeBlockNumber n : length (encodeBlockNumber n) = 8%nat.
Proof. apply length_be_put. Qed.

Lemma headerKey_inj x y n m : is_number n -> is_number m -> headerKey x n = headerKey y m -> x = y /\ n = m.
Proof.
  intros Hn Hm E. apply app_inv_head in E. apply app_inj_1 in E as [E1 E2]; [|by rewrite !length_encodeBlockNumber].
  split; [done|]. by apply encodeBlockNumber_inj.
Qed.

Lemma td_key_inj x y n m : is_number n -> is_number m -> td_key x n = td_key y m -> x = y /\ n = m.
Proof.
  intros Hn Hm E. apply app_inv_head in E. apply app_inj_1 in E as [E1 E2]; [|by rewrite !length_encodeBlockNumber].
  split; [by apply app_inv_tail in E2|]. by apply encodeBlockNumber_inj.
Qed.

Lemma canonical_key_inj n m : is_number n -> is_number m -> canonical_key n = canonical_key m -> n = m.
Proof. intros Hn Hm E. apply app_inv_head in E. apply app_inv_tail in E. by apply encodeBlockNumber_inj. Qed.

Lemma number_key_inj x y : number_key x = number_key y -> x = y.
Proof. apply app_inv_head. Qed.

(** Keys of different kinds differ in the first byte or the length. *)
Ltac keys_differ :=
  let E := fresh in
  intros E; first [discriminate E | apply (f_equal length) in E;
    unfold headerKey, td_key, canonical_key, headerPrefix, numSuffix, tdSuffix, is_hash in *;
    rewrite ?length_app, ?length_encodeBlockNumber in E; simpl in E; lia].

Create HintDb keys.

#[local] Hint Extern 1 (_ <> _) => keys_differ : keys.

(** Whether there is something under the key of a header. *)
Definition present (db : KV) (hash : Hash) (number : Z) : bool := bool_decide (is_Some (db !! headerKey hash number)).

(** A read under a key of another kind than the updated ones. *)
Ltac other_key :=
  unfold GetHeader, GetTd, GetBlockNumber, GetCanonicalHash, present;
  rewrite ?lookup_insert_ne, ?lookup_delete_ne by auto with keys; done.

Section Views.
Context {AS : AddressSize}.

(** What a store says about headers, difficulties, numbers and the canonical
    chain, as functions of hashes and numbers. *)
Record reads (db : KV) (hd : Hash -> Z -> option Header) (td : Hash -> Z -> option Z) (nb : Hash -> Z) (cn : Z -> Hash)
    (pr : Hash -> Z -> bool) : Prop := mkReads {
  rd_header x n : is_hash x -> is_number n -> GetHeader db x n = hd x n;
  rd_td x n : is_hash x -> is_number n -> GetTd db x n = td x n;
  rd_number x : is_hash x -> GetBlockNumber db x = nb x;
  rd_canonical n : is_number n -> GetCanonicalHash db n = cn n;
  rd_present x n : is_hash x -> is_number n -> present db x n = pr x n
}.

Definition update2 {A} (f : Hash -> Z -> A) (x : Hash) (n : Z) (a : A) : Hash -> Z -> A :=
  fun y m => if decide (y = x /\ m = n) then a else f y m.
Definition update1 {K A} `{EqDecision K} (f : K -> A) (x : K) (a : A) : K -> A := fun y => if decide (y = x) then a else f y.

Lemma stored_is_hash h : is_hash h -> BytesToHash h = h.
Proof. intros Hl. unfold BytesToHash, BytesToN. by rewrite Hl, Nat.sub_diag, drop_0, Hl, Nat.sub_diag. Qed.

Lemma WriteCanonicalHash_reads db hash n : is_hash hash -> is_number n ->
  reads (WriteCanonicalHash db hash n) (GetHeader db) (GetTd db) (GetBlockNumber db) (update1 (GetCanonicalHash db) n hash) (present db).
Proof.
  intros Hh Hn. unfold WriteCanonicalHash. split; intros.
  - other_key.
  - other_key.
  - other_key.
  - unfold update1. case_decide as E.
    + subst. unfold GetCanonicalHash. rewrite lookup_insert_eq. cbn [default from_option id].
      rewrite decide_False by (rewrite Hh; lia). by apply stored_is_hash.
    + unfold GetCanonicalHash. rewrite lookup_insert_ne; [done|]. intros ?%canonical_key_inj; [by subst|done..].
  - other_key.
Qed.

Lemma DeleteCanonicalHash_reads db n : is_number n ->
  reads (DeleteCanonicalHash db n) (GetHeader db) (GetTd db) (GetBlockNumber db) (update1 (GetCanonicalHash db) n zeroHash) (present db).
Proof.
  intros Hn. unfold DeleteCanonicalHash. split; intros.
  - other_key.
  - other_key.
  - other_key.
  - unfold update1. case_decide as E.
    + subst. unfold GetCanonicalHash. by rewrite lookup_delete_eq.
    + unfold GetCanonicalHash. rewrite lookup_delete_ne; [done|]. intros ?%canonical_key_inj; [by subst|done..].
  - other_key.
Qed.

Lemma WriteHeadHeaderHash_reads db hash :
  reads (WriteHeadHeaderHash db hash) (GetHeader db) (GetTd db) (GetBlockNumber db) (GetCanonicalHash db) (present db).
Proof.
  unfold WriteHeadHeaderHash. split; intros; other_key.
Qed.

Lemma WriteHeadBlockHash_reads db hash : is_hash hash ->
  reads (WriteHeadBlockHash db hash) (GetHeader db) (GetTd db) (GetBlockNumber db) (GetCanonicalHash db) (present db) /\
  GetHeadBlockHash (WriteHeadBlockHash db hash) = hash.
Proof.
  intros Hl. unfold WriteHeadBlockHash. split; [split; intros; other_key|].
  unfold GetHeadBlockHash, stored_hash. rewrite lookup_insert_eq. cbn [default from_option id].
  rewrite decide_False by (rewrite Hl; lia). by apply stored_is_hash.
Qed.

Lemma GetBlockNumber_written db x n : is_number n -> db !! number_key x = Some (encodeBlockNumber n) -> GetBlockNumber db x = n.
Proof.
  intros Hn E. unfold GetBlockNumber. rewrite E. cbn [default from_option id]. rewrite length_encodeBlockNumber. cbn [Nat.eqb negb].
  by apply be_get_put_small.
Qed.

Lemma WriteHeader_reads db h hash n : storable h -> Header_Hash h = Some hash -> Number h = Some n -> is_number n ->
  exists db', WriteHeader db h = Some (true, db') /\ is_hash hash /\
    reads db' (update2 (GetHeader db) hash n (Some h)) (GetTd db) (update1 (GetBlockNumber db) hash n) (GetCanonicalHash db)
      (update2 (present db) hash n true).
Proof.
  intros Hs Hh Hn Hnum. destruct (header_roundtrip h Hs) as (b & Eb & Hne & _ & Hd & Hk).
  unfold WriteHeader. rewrite Eb, Hh, some_bind, Hn, some_bind. eexists. split; [reflexivity|].
  assert (is_hash hash) as Hl.
  { rewrite Hh in Hk. apply (inj Some) in Hk. rewrite Hk. apply keccak256_hash. }
  assert (big_Uint64 n = n) as -> by (unfold big_Uint64, u64; rewrite Z.abs_eq, Z.mod_small by (unfold is_number in Hnum; lia); done).
  split; [done|]. change (headerPrefix ++ encodeBlockNumber n ++ hash) with (headerKey hash n). split; intros.
  - unfold update2. case_decide as E.
    + destruct E as [-> ->]. unfold GetHeader. rewrite lookup_insert_eq. cbn [default from_option id].
      rewrite decide_False by (by destruct b). done.
    + unfold GetHeader. rewrite lookup_insert_ne; [rewrite lookup_insert_ne by auto with keys; done|].
      intros [? ?]%headerKey_inj; [by subst; apply E|done..].
  - other_key.
  - unfold update1. case_decide as E.
    + subst. apply GetBlockNumber_written; [done|]. rewrite lookup_insert_ne by auto with keys. apply lookup_insert_eq.
    + unfold GetBlockNumber. rewrite lookup_insert_ne by auto with keys. rewrite lookup_insert_ne; [done|].
      intros ?%number_key_inj. by subst.
  - other_key.
  - unfold update2. case_decide as E.
    + destruct E as [-> ->]. unfold present. rewrite lookup_insert_eq. by apply bool_decide_eq_true.
    + unfold present. rewrite lookup_insert_ne; [rewrite lookup_insert_ne by auto with keys; done|].
      intros [? ?]%headerKey_inj; [by subst; apply E|done..].
Qed.

Lemma WriteTd_reads db hash n td : is_hash hash -> is_number n -> 0 <= td < 2 ^ 512 ->
  exists db', WriteTd db hash n td = Some (true, db') /\
    reads db' (GetHeader db) (update2 (GetTd db) hash n (Some td)) (GetBlockNumber db) (GetCanonicalHash db) (present db).
Proof.
  intros Hl Hn Htd. destruct (td_roundtrip td Htd) as (b & Eb & Hne & Hd). unfold WriteTd. rewrite Eb. eexists. split; [reflexivity|].
  split; intros.
  - other_key.
  - unfold update2. case_decide as E.
    + destruct E as [-> ->]. unfold GetTd. rewrite lookup_insert_eq. cbn [default from_option id].
      rewrite decide_False by (by destruct b). done.
    + unfold GetTd. rewrite lookup_insert_ne; [done|]. intros [? ?]%td_key_inj; [by subst; apply E|done..].
  - other_key.
  - other_key.
  - other_key.
Qed.

Lemma DeleteTd_reads db hash n : is_hash hash -> is_number n ->
  reads (DeleteTd db hash n) (GetHeader db) (update2 (GetTd db) hash n None) (GetBlockNumber db) (GetCanonicalHash db) (present db).
Proof.
  intros Hl Hn. unfold DeleteTd. split; intros.
  - other_key.
  - unfold update2. case_decide as E.
    + destruct E as [-> ->]. unfold GetTd. by rewrite lookup_delete_eq.
    + unfold GetTd. rewrite lookup_delete_ne; [done|]. intros [? ?]%td_key_inj; [by subst; apply E|done..].
  - other_key.
  - other_key.
  - other_key.
Qed.

Lemma DeleteHeader_reads db hash n : is_hash hash -> is_number n ->
  reads (DeleteHeader db hash n) (update2 (GetHeader db) hash n None) (GetTd db)
    (update1 (GetBlockNumber db) hash missingNumber) (GetCanonicalHash db) (update2 (present db) hash n false).
Proof.
  intros Hl Hn. unfold DeleteHeader. split; intros.
  - unfold update2. case_decide as E.
    + destruct E as [-> ->]. unfold GetHeader. by rewrite lookup_delete_eq.
    + unfold GetHeader. rewrite lookup_delete_ne; [rewrite lookup_delete_ne by auto with keys; done|].
      intros [? ?]%headerKey_inj; [by subst; apply E|done..].
  - other_key.
  - unfold update1. case_decide as E.
    + subst. unfold GetBlockNumber. rewrite lookup_delete_ne by auto with keys. by rewrite lookup_delete_eq.
    + unfold GetBlockNumber. rewrite lookup_delete_ne by auto with keys. rewrite lookup_delete_ne; [done|].
      intros ?%number_key_inj. by subst.
  - other_key.
  - unfold update2. case_decide as E.
    + destruct E as [-> ->]. unfold present. rewrite lookup_delete_eq. by apply bool_decide_eq_false; intros [? ?].
    + unfold present. rewrite lookup_delete_ne; [rewrite lookup_delete_ne by auto with keys; done|].
      intros [? ?]%headerKey_inj; [by subst; apply E|done..].
Qed.
End Views.
