(* ===== verification/HeaderChain.v ===== *)
(** * The header chain (src/core/headerchain.go)

    The tree of known headers with its canonical branch: the heaviest one by
    total difficulty.  Headers, difficulties and numbers are cached in front of
    the database of [ChainDb.v]; the cache is a third-party LRU cache and an
    interface here. *)
From S2P Require Import State Prelude Shabal Sha3 Types Rlp RlpStream StateCodec HeaderHash Bitutil Bloom LogIndex Clique ChainDb.
From S2P Require Dnpoc.

(** ** The cache *)

Class LRU := {
  lru : Type -> Type;
  lru_New {A} : nat -> lru A;
  lru_Get {A} : lru A -> Hash -> option A * lru A;
  lru_Add {A} : lru A -> Hash -> A -> lru A;
  lru_Contains {A} : lru A -> Hash -> bool;
  lru_Purge {A} : lru A -> lru A
}.

(** What the process does instead of returning: [log.Crit] ends it, a receive
    from a channel nobody sends to blocks.  A nil pointer is a [Panic]. *)
Inductive halt := Crit | Blocked | OutOfFuel.

Inductive hc_error :=
  | ErrUnknownAncestor
  | ErrNoGenesis
  | errNonContiguous (i : nat)
  | errAborted
  | ErrBlacklistedHash
  | errHeader (e : Dnpoc.error).

Inductive WriteStatus := NonStatTy | CanonStatTy | SideStatTy.

Section HeaderChain.
Context {AS : AddressSize} {L : LRU}.

Record HeaderChain := mkHeaderChain {
  chainDb : KV;
  genesisHeader : option Header;
  currentHeader : option Header;
  currentHeaderHash : Hash;
  headerCache : lru Header;
  tdCache : lru Z;
  numberCache : lru Z
}.

Definition set_db (hc : HeaderChain) (db : KV) : HeaderChain :=
  mkHeaderChain db (genesisHeader hc) (currentHeader hc) (currentHeaderHash hc) (headerCache hc) (tdCache hc) (numberCache hc).
Definition set_headerCache (hc : HeaderChain) (c : lru Header) : HeaderChain :=
  mkHeaderChain (chainDb hc) (genesisHeader hc) (currentHeader hc) (currentHeaderHash hc) c (tdCache hc) (numberCache hc).
Definition set_tdCache (hc : HeaderChain) (c : lru Z) : HeaderChain :=
  mkHeaderChain (chainDb hc) (genesisHeader hc) (currentHeader hc) (currentHeaderHash hc) (headerCache hc) c (numberCache hc).
Definition set_numberCache (hc : HeaderChain) (c : lru Z) : HeaderChain :=
  mkHeaderChain (chainDb hc) (genesisHeader hc) (currentHeader hc) (currentHeaderHash hc) (headerCache hc) (tdCache hc) c.
Definition set_current (hc : HeaderChain) (hash : Hash) (h : option Header) : HeaderChain :=
  mkHeaderChain (chainDb hc) (genesisHeader hc) h hash (headerCache hc) (tdCache hc) (numberCache hc).

(** ** Cached reads *)

Definition hc_GetBlockNumber (hc : HeaderChain) (hash : Hash) : Z * HeaderChain :=
  let (cached, c) := lru_Get (numberCache hc) hash in
  let hc := set_numberCache hc c in
  match cached with
  | Some n => (n, hc)
  | None =>
      let number := GetBlockNumber (chainDb hc) hash in
      if number =? missingNumber then (number, hc) else (number, set_numberCache hc (lru_Add (numberCache hc) hash number))
  end.

Definition hc_GetTd (hc : HeaderChain) (hash : Hash) (number : Z) : option Z * HeaderChain :=
  let (cached, c) := lru_Get (tdCache hc) hash in
  let hc := set_tdCache hc c in
  match cached with
  | Some td => (Some td, hc)
  | None =>
      match GetTd (chainDb hc) hash number with
      | None => (None, hc)
      | Some td => (Some td, set_tdCache hc (lru_Add (tdCache hc) hash td))
      end
  end.

Definition hc_GetTdByHash (hc : HeaderChain) (hash : Hash) : option Z * HeaderChain :=
  let (number, hc) := hc_GetBlockNumber hc hash in
  hc_GetTd hc hash number.

(** The result tells whether the difficulty could be encoded. *)
Definition hc_WriteTd (hc : HeaderChain) (hash : Hash) (number td : Z) : option (bool * HeaderChain) :=
  '(ok, db) ← WriteTd (chainDb hc) hash number td;
  if negb ok then Some (false, hc)
  else Some (true, set_tdCache (set_db hc db) (lru_Add (tdCache hc) hash td)).

Definition hc_GetHeader (hc : HeaderChain) (hash : Hash) (number : Z) : option Header * HeaderChain :=
  let (cached, c) := lru_Get (headerCache hc) hash in
  let hc := set_headerCache hc c in
  match cached with
  | Some h => (Some h, hc)
  | None =>
      match GetHeader (chainDb hc) hash number with
      | None => (None, hc)
      | Some h => (Some h, set_headerCache hc (lru_Add (headerCache hc) hash h))
      end
  end.

Definition hc_GetHeaderByHash (hc : HeaderChain) (hash : Hash) : option Header * HeaderChain :=
  let (number, hc) := hc_GetBlockNumber hc hash in
  hc_GetHeader hc hash number.

Definition hc_GetHeaderByNumber (hc : HeaderChain) (number : Z) : option Header * HeaderChain :=
  let hash := GetCanonicalHash (chainDb hc) number in
  if decide (hash = zeroHash) then (None, hc) else hc_GetHeader hc hash number.

Definition HasHeader (hc : HeaderChain) (hash : Hash) (number : Z) : bool :=
  lru_Contains (numberCache hc) hash || lru_Contains (headerCache hc) hash
  || bool_decide (is_Some (chainDb hc !! headerKey hash number)).

(** ** A new chain *)

Definition headerCacheLimit : nat := 512.
Definition tdCacheLimit : nat := 1024.
Definition numberCacheLimit : nat := 2048.

Definition NewHeaderChain (db : KV) : option (hc_error + HeaderChain) :=
  let hc := mkHeaderChain db None None [] (lru_New headerCacheLimit) (lru_New tdCacheLimit) (lru_New numberCacheLimit) in
  let (genesis, hc) := hc_GetHeaderByNumber hc 0 in
  match genesis with
  | None => Some (inl ErrNoGenesis)
  | Some g =>
      let head := GetHeadBlockHash db in
      let '(current, hc) :=
        if decide (head = zeroHash) then (g, hc)
        else let '(chead, hc) := hc_GetHeaderByHash hc head in (default g chead, hc) in
      hash ← Header_Hash current;
      Some (inr (mkHeaderChain (chainDb hc) (Some g) (Some current) hash (headerCache hc) (tdCache hc) (numberCache hc)))
  end.

(** ** WriteHeader *)

(** Delete any canonical number assignments above the new head. *)
Fixpoint delete_above (fuel : nat) (db : KV) (i : Z) : outcome halt KV :=
  match fuel with
  | O => Err OutOfFuel
  | S fuel' =>
      if decide (GetCanonicalHash db i = zeroHash) then Ok db
      else delete_above fuel' (DeleteCanonicalHash db i) (u64 (i + 1))
  end.

(** Overwrite any stale canonical number assignments. *)
Fixpoint reroute (fuel : nat) (hc : HeaderChain) (headHash : Hash) (headNumber : Z) (headHeader : option Header)
    : outcome halt HeaderChain :=
  match fuel with
  | O => Err OutOfFuel
  | S fuel' =>
      if decide (GetCanonicalHash (chainDb hc) headNumber = headHash) then Ok hc
      else
        let hc := set_db hc (WriteCanonicalHash (chainDb hc) headHash headNumber) in
        h ← or_panic headHeader;
        n ← or_panic (Number h);
        let headHash := ParentHash h in
        let headNumber := u64 (big_Uint64 n - 1) in
        let '(headHeader, hc) := hc_GetHeader hc headHash headNumber in
        reroute fuel' hc headHash headNumber headHeader
  end.

(** The canonical chain is led to the new header. *)
Definition extend_canonical (hc : HeaderChain) (header : Header) (hash : Hash) (number : Z) : outcome halt HeaderChain :=
  db ← delete_above (S (base.size (chainDb hc))) (chainDb hc) (u64 (number + 1));
  let hc := set_db hc db in
  let headHash := ParentHash header in
  let headNumber := u64 (number - 1) in
  let '(headHeader, hc) := hc_GetHeader hc headHash headNumber in
  hc ← reroute (S (Z.to_nat number)) hc headHash headNumber headHeader;
  let db := WriteCanonicalHash (chainDb hc) hash number in
  let db := WriteHeadHeaderHash db hash in
  Ok (set_current (set_db hc db) hash (Some (CopyHeader header))).

Definition crit {A} (m : option (bool * A)) : outcome halt A :=
  '(ok, a) ← or_panic m;
  guard_err (negb ok) Crit;;
  Ok a.

(** [coin] is the outcome of [mrand.Float64() < 0.5]. *)
Definition hc_WriteHeader (coin : bool) (hc : HeaderChain) (header : Header)
    : outcome halt (WriteStatus * option hc_error * HeaderChain) :=
  hash ← or_panic (Header_Hash header);
  n ← or_panic (Number header);
  let number := big_Uint64 n in
  let '(ptd, hc) := hc_GetTd hc (ParentHash header) (u64 (number - 1)) in
  match ptd with
  | None => Ok (NonStatTy, Some ErrUnknownAncestor, hc)
  | Some ptd =>
      current ← or_panic (currentHeader hc);
      cn ← or_panic (Number current);
      let '(localTd, hc) := hc_GetTd hc (currentHeaderHash hc) (big_Uint64 cn) in
      difficulty ← or_panic (Difficulty header);
      let externTd := difficulty + ptd in
      hc ← crit (hc_WriteTd hc hash number externTd);
      db ← crit (WriteHeader (chainDb hc) header);
      let hc := set_db hc db in
      localTd ← or_panic localTd;
      let wins := (localTd <? externTd) || ((externTd =? localTd) && coin) in
      '(status, hc) ← (if wins then hc ← extend_canonical hc header hash number; Ok (CanonStatTy, hc) else Ok (SideStatTy, hc));
      let hc := set_headerCache hc (lru_Add (headerCache hc) hash header) in
      let hc := set_numberCache hc (lru_Add (numberCache hc) hash number) in
      Ok (status, None, hc)
  end.

(** ** Chains of headers *)

(** Whether the headers are ordered and linked; the index of the first that
    is not. *)
Fixpoint non_contiguous (i : nat) (prev : Header) (chain : list Header) : option (option nat) :=
  match chain with
  | [] => Some None
  | h :: chain' =>
      n ← Number h;
      pn ← Number prev;
      if negb (big_Uint64 n =? u64 (big_Uint64 pn + 1)) then Some (Some i)
      else
        ph ← Header_Hash prev;
        if decide (ParentHash h = ph) then non_contiguous (S i) h chain' else Some (Some i)
  end.

(** [seals[index] = true] for one random index of each stretch; [rand i] is the
    result of [hc.rand.Intn(checkFreq)] in round [i]. *)
Definition seal_at (rand : nat -> Z) (checkFreq : Z) (i : nat) (seals : list bool) : option (list bool) :=
  let index := Z.of_nat i * checkFreq + rand i in
  let index := if Z.of_nat (length seals) <=? index then Z.of_nat (length seals) - 1 else index in
  store seals (Z.to_nat index) true.

Definition pick_seals (rand : nat -> Z) (checkFreq : Z) (len : nat) : option (list bool) :=
  if checkFreq =? 0 then None
  else
    seals ← for_up 0 (Z.to_nat (Z.quot (Z.of_nat len) checkFreq)) (seal_at rand checkFreq) (replicate len false);
    store seals (len - 1) true.

Section Batch.
(** [hc.procInterrupt()] as it is asked for the [i]-th header, [BadHashes], and
    the results the engine's [VerifyHeaders] sends for the seals. *)
Context (procInterrupt : nat -> bool) (BadHashes : Hash -> bool) (results : list bool -> list (option Dnpoc.error)).

Fixpoint collect_results (i : nat) (chain : list Header) (rs : list (option Dnpoc.error)) : outcome halt (nat * option hc_error) :=
  match chain with
  | [] => Ok (0%nat, None)
  | h :: chain' =>
      if procInterrupt i then Ok (0%nat, Some errAborted)
      else
        hash ← or_panic (Header_Hash h);
        if BadHashes hash then Ok (i, Some ErrBlacklistedHash)
        else
          match rs with
          | [] => Err Blocked
          | Some e :: _ => Ok (i, Some (errHeader e))
          | None :: rs' => collect_results (S i) chain' rs'
          end
  end.

Definition ValidateHeaderChain (rand : nat -> Z) (chain : list Header) (checkFreq : Z) : outcome halt (nat * option hc_error) :=
  broken ← (match chain with [] => Ok None | h :: chain' => or_panic (non_contiguous 1 h chain') end);
  match broken with
  | Some i => Ok (0%nat, Some (errNonContiguous i))
  | None =>
      seals ← or_panic (pick_seals rand checkFreq (length chain));
      collect_results 0 chain (results seals)
  end.

(** The callback writes one header; [coin i] is the toss for the [i]-th. *)
Fixpoint insert_loop (coin : nat -> bool) (i : nat) (hc : HeaderChain) (chain : list Header)
    : outcome halt (nat * option hc_error * HeaderChain) :=
  match chain with
  | [] => Ok (0%nat, None, hc)
  | h :: chain' =>
      if procInterrupt i then Ok (i, Some errAborted, hc)
      else
        hash ← or_panic (Header_Hash h);
        n ← or_panic (Number h);
        if HasHeader hc hash (big_Uint64 n) then insert_loop coin (S i) hc chain'
        else
          '(_, err, hc) ← hc_WriteHeader (coin i) hc h;
          match err with
          | Some e => Ok (i, Some e, hc)
          | None => insert_loop coin (S i) hc chain'
          end
  end.

Definition InsertHeaderChain (coin : nat -> bool) (hc : HeaderChain) (chain : list Header)
    : outcome halt (nat * option hc_error * HeaderChain) :=
  '(i, err, hc) ← insert_loop coin 0 hc chain;
  match err with
  | Some e => Ok (i, Some e, hc)
  | None =>
      _ ← or_panic (chain !! (length chain - 1)%nat);
      Ok (0%nat, None, hc)
  end.
End Batch.

(** ** Walking and rewinding *)

Fixpoint hashes_loop (max : nat) (hc : HeaderChain) (header : Header) : option (list Hash * HeaderChain) :=
  match max with
  | O => Some ([], hc)
  | S max' =>
      let next := ParentHash header in
      n ← Number header;
      match hc_GetHeader hc next (u64 (big_Uint64 n - 1)) with
      | (None, hc) => Some ([], hc)
      | (Some h, hc) =>
          hn ← Number h;
          if hn =? 0 then Some ([next], hc)
          else '(l, hc) ← hashes_loop max' hc h; Some (next :: l, hc)
      end
  end.

Definition GetBlockHashesFromHash (hc : HeaderChain) (hash : Hash) (max : nat) : option (list Hash * HeaderChain) :=
  match hc_GetHeaderByHash hc hash with
  | (None, hc) => Some ([], hc)
  | (Some h, hc) => hashes_loop max hc h
  end.

Definition SetCurrentHeader (hc : HeaderChain) (head : Header) : option HeaderChain :=
  hash ← Header_Hash head;
  Some (set_current (set_db hc (WriteHeadHeaderHash (chainDb hc) hash)) hash (Some head)).

(** The loop that deletes headers down to [head]. *)
Fixpoint rewind (fuel : nat) (hc : HeaderChain) (head : Z) : outcome halt HeaderChain :=
  match fuel with
  | O => Err OutOfFuel
  | S fuel' =>
      match currentHeader hc with
      | None => Ok hc
      | Some c =>
          n ← or_panic (Number c);
          let num := big_Uint64 n in
          if num <=? head then Ok hc
          else
            hash ← or_panic (Header_Hash c);
            let db := DeleteTd (DeleteHeader (chainDb hc) hash num) hash num in
            let '(p, hc) := hc_GetHeader (set_db hc db) (ParentHash c) (u64 (num - 1)) in
            rewind fuel' (set_current hc (currentHeaderHash hc) p) head
      end
  end.

(** [for i := height; i > head; i--] *)
Fixpoint delete_numbers (n : nat) (height : Z) (db : KV) : KV :=
  match n with
  | O => db
  | S n' => delete_numbers n' (height - 1) (DeleteCanonicalHash db height)
  end.

Definition SetHead (hc : HeaderChain) (head : Z) : outcome halt HeaderChain :=
  height ← (match currentHeader hc with None => Ok 0 | Some c => n ← or_panic (Number c); Ok (big_Uint64 n) end);
  hc ← rewind (S (S (Z.to_nat height))) hc head;
  let db := delete_numbers (Z.to_nat (height - head)) height (chainDb hc) in
  current ← or_panic (match currentHeader hc with None => genesisHeader hc | Some c => Some c end);
  hash ← or_panic (Header_Hash current);
  Ok (mkHeaderChain (WriteHeadHeaderHash db hash) (genesisHeader hc) (Some current) hash
        (lru_Purge (headerCache hc)) (lru_Purge (tdCache hc)) (lru_Purge (numberCache hc))).

Definition SetGenesis (hc : HeaderChain) (head : Header) : HeaderChain :=
  mkHeaderChain (chainDb hc) (Some head) (currentHeader hc) (currentHeaderHash hc) (headerCache hc) (tdCache hc) (numberCache hc).
End HeaderChain.
