(* ===== verification/HeaderChainInv.v ===== *)
(** * The canonical chain is a branch of the tree of headers

    The abstract header chain is a tree of headers with their total
    difficulties and a head.  [represents] says that the database and the
    caches hold that tree and that the canonical numbers spell the branch of
    the head.  Writing a header adds it to the tree and moves the head to it if
    it is heavier, however far the branches have to be rerouted. *)
From S2P Require Import State Prelude Shabal Sha3 Types Rlp RlpStream StateCodec HeaderHash Bitutil Bloom LogIndex Clique.
From S2P Require Import ChainDb HeaderChain.
From S2P Require Dnpoc.

(** What a least-recently-used cache promises: it only returns what was added
    last for a key. *)
Class LRULaws (L : LRU) := {
  lru_peek {A} : lru A -> Hash -> option A;
  lru_New_peek {A} n k : lru_peek (@lru_New L A n) k = None;
  lru_Get_peek {A} (c : lru A) k : (lru_Get c k).1 = lru_peek c k;
  lru_Get_keeps {A} (c : lru A) k k' : lru_peek (lru_Get c k).2 k' = lru_peek c k';
  lru_Add_peek {A} (c : lru A) k v k' x :
    lru_peek (lru_Add c k v) k' = Some x -> (k' = k /\ x = v) \/ (k' <> k /\ lru_peek c k' = Some x);
  lru_Contains_peek {A} (c : lru A) k : lru_Contains c k = true <-> is_Some (lru_peek c k);
  lru_Purge_peek {A} (c : lru A) k : lru_peek (lru_Purge c) k = None
}.

(** ** Trees of headers *)

(** The known headers by hash, with their total difficulties. *)
Notation tree := (gmap Hash (Header * Z)).

Section Tree.
Context {AS : AddressSize}.

Record known (T : tree) : Prop := mkKnown {
  kn_storable x h td : T !! x = Some (h, td) -> storable h;
  kn_hash x h td : T !! x = Some (h, td) -> Header_Hash h = Some x /\ x <> zeroHash;
  kn_number x h td : T !! x = Some (h, td) -> exists n, Number h = Some n /\ 0 <= n < 2 ^ 64 - 1;
  kn_td x h td : T !! x = Some (h, td) -> 0 <= td < 2 ^ 512
}.

(** Every header but the genesis follows its parent and adds its difficulty. *)
Record linked (T : tree) (g : Hash) : Prop := mkLinked {
  ln_genesis : exists h td, T !! g = Some (h, td) /\ Number h = Some 0;
  ln_parent x h td : T !! x = Some (h, td) -> x <> g ->
    exists p ptd n d, T !! ParentHash h = Some (p, ptd) /\ Number p = Some n /\ Number h = Some (n + 1) /\
      Difficulty h = Some d /\ td = d + ptd
}.

(** The header [y] of number [n] on the branch that ends in [x]. *)
Inductive branch (T : tree) : Hash -> Z -> Hash -> Prop :=
  | branch_here x h td n : T !! x = Some (h, td) -> Number h = Some n -> branch T x n x
  | branch_up x h td n y : T !! x = Some (h, td) -> Number h <> Some 0 -> branch T (ParentHash h) n y -> branch T x n y.

Lemma known_is_hash T x h td : known T -> T !! x = Some (h, td) -> is_hash x.
Proof.
  intros K Hx. destruct (kn_hash T K _ _ _ Hx) as [Hh _].
  destruct (header_roundtrip h (kn_storable T K _ _ _ Hx)) as (b & _ & _ & _ & _ & Hk).
  rewrite Hh in Hk. apply (inj Some) in Hk. rewrite Hk. apply keccak256_hash.
Qed.

Lemma branch_end T x n y : branch T x n y -> exists h td, T !! y = Some (h, td) /\ Number h = Some n.
Proof. induction 1; eauto. Qed.

Lemma branch_trans T x n y m z : branch T x n y -> branch T y m z -> branch T x m z.
Proof. induction 1; intros; [done|]. eapply branch_up; eauto. Qed.

Section Linked.
Context (T : tree) (g : Hash) (K : known T) (Ln : linked T g).

Lemma zero_is_genesis x h td : T !! x = Some (h, td) -> Number h = Some 0 -> x = g.
Proof.
  intros Hx Hn. destruct (decide (x = g)) as [|Hne]; [done|].
  destruct (ln_parent T g Ln _ _ _ Hx Hne) as (p & ptd & n & d & Hp & Hpn & Hn' & _).
  destruct (kn_number T K _ _ _ Hp) as (n' & ? & ?). simplify_eq. lia.
Qed.

(** The parent of a header that is not the genesis. *)
Lemma parent_of x h td n : T !! x = Some (h, td) -> Number h = Some n -> n <> 0 ->
  exists p ptd, T !! ParentHash h = Some (p, ptd) /\ Number p = Some (n - 1).
Proof.
  intros Hx Hn H0. destruct (decide (x = g)) as [->|Hne].
  - destruct (ln_genesis T g Ln) as (h' & td' & Hg & Hg0). by simplify_eq.
  - destruct (ln_parent T g Ln _ _ _ Hx Hne) as (p & ptd & k & d & Hp & Hpn & Hn' & _). simplify_eq.
    exists p, ptd. split; [done|]. rewrite Hpn. f_equal. lia.
Qed.

Lemma branch_le x n y h td k : branch T x n y -> T !! x = Some (h, td) -> Number h = Some k -> n <= k.
Proof.
  intros Hb. revert h td k. induction Hb as [x h td n Hx Hn|x h td n y Hx H0 Hb IH]; intros h' td' k Hx' Hk;
    rewrite Hx in Hx'; injection Hx' as <- <-; [simplify_eq; lia|].
  destruct (parent_of x h td k Hx Hk) as (p & ptd & Hp & Hpn); [congruence|]. specialize (IH _ _ _ Hp Hpn). lia.
Qed.

Lemma branch_det x n y y' : branch T x n y -> branch T x n y' -> y = y'.
Proof.
  intros Hb. revert y'. induction Hb as [x h td n Hx Hn|x h td n y Hx H0 Hb IH]; intros y' Hb'.
  - inversion Hb' as [|x' h' td' n' y'' Hx' H0' Hb'']; subst; [done|].
    rewrite Hx in Hx'. injection Hx' as <- <-. destruct (parent_of x h td n Hx Hn) as (p & ptd & Hp & Hpn); [congruence|].
    pose proof (branch_le _ _ _ _ _ _ Hb'' Hp Hpn). lia.
  - inversion Hb' as [x' h' td' n' Hx' Hn'|x' h' td' n' y'' Hx' H0' Hb'']; subst;
      rewrite Hx in Hx'; injection Hx' as <- <-; [|by apply IH].
    destruct (parent_of y' h td n Hx Hn') as (p & ptd & Hp & Hpn); [congruence|].
    pose proof (branch_le _ _ _ _ _ _ Hb Hp Hpn). lia.
Qed.

Lemma branch_total x h td k n : T !! x = Some (h, td) -> Number h = Some k -> 0 <= n <= k -> exists y, branch T x n y.
Proof.
  intros Hx Hk [H0 Hn]. remember (Z.to_nat (k - n)) as d eqn:Ed. revert x h td k Hx Hk Hn Ed.
  induction d as [|d IH]; intros x h td k Hx Hk Hn Ed.
  - exists x. econstructor; [done|]. rewrite Hk. f_equal. lia.
  - destruct (parent_of x h td k Hx Hk) as (p & ptd & Hp & Hpn); [lia|].
    destruct (IH _ _ _ _ Hp Hpn) as [y Hy]; [lia|lia|]. exists y. econstructor; [done| |done]. rewrite Hk. intros [= ->]. lia.
Qed.

Lemma branch_genesis x h td : T !! x = Some (h, td) -> branch T x 0 g.
Proof.
  intros Hx. destruct (kn_number T K _ _ _ Hx) as (n & Hn & Hr). destruct (branch_total x h td n 0 Hx Hn) as [y Hy]; [lia|].
  destruct (branch_end _ _ _ _ Hy) as (h' & td' & Hy' & H0). by rewrite <-(zero_is_genesis _ _ _ Hy' H0).
Qed.
End Linked.

Lemma branch_mono T T' x n y : T ⊆ T' -> branch T x n y -> branch T' x n y.
Proof.
  intros Hsub. induction 1 as [x h td n Hx Hn|x h td n y Hx H0 Hb IH]; [econstructor 1|econstructor 2];
    eauto using lookup_weaken.
Qed.
End Tree.

(** ** What the database and the caches hold *)

Section Stores.
Context {AS : AddressSize} {L : LRU} {LL : LRULaws L}.

Definition cache_ok {A} (P : Hash -> A -> Prop) (c : lru A) : Prop := forall x a, lru_peek c x = Some a -> P x a.

Lemma cache_Get {A} (P : Hash -> A -> Prop) c k : cache_ok P c -> cache_ok P (lru_Get c k).2.
Proof. intros Hc x a. rewrite lru_Get_keeps. apply Hc. Qed.

Lemma cache_Add {A} (P : Hash -> A -> Prop) c k a : cache_ok P c -> P k a -> cache_ok P (lru_Add c k a).
Proof. intros Hc Hp x b [ [-> ->]|[_ Hx] ]%lru_Add_peek; auto. Qed.

Lemma cache_Purge {A} (P : Hash -> A -> Prop) c : cache_ok P (lru_Purge c).
Proof. intros x a. by rewrite lru_Purge_peek. Qed.

Lemma cache_weaken {A} (P Q : Hash -> A -> Prop) c : (forall x a, P x a -> Q x a) -> cache_ok P c -> cache_ok Q c.
Proof. intros H Hc x a Hx. auto. Qed.

Definition tree_header (T : tree) (x : Hash) (n : Z) : option Header :=
  '(h, _) ← T !! x; if decide (Number h = Some n) then Some h else None.
Definition tree_td (T : tree) (x : Hash) (n : Z) : option Z :=
  '(h, td) ← T !! x; if decide (Number h = Some n) then Some td else None.
Definition tree_number (T : tree) (x : Hash) : Z :=
  match T !! x with Some (h, _) => default 0 (Number h) | None => missingNumber end.
Definition tree_has (T : tree) (x : Hash) (n : Z) : bool := bool_decide (is_Some (tree_header T x n)).

Definition header_at (T : tree) (x : Hash) (h : Header) : Prop := exists td, T !! x = Some (h, td).
Definition td_at (T : tree) (x : Hash) (td : Z) : Prop := exists h, T !! x = Some (h, td).
Definition number_at (T : tree) (x : Hash) (n : Z) : Prop := exists h td, T !! x = Some (h, td) /\ Number h = Some n.

Record stores (hc : HeaderChain) (T : tree) : Prop := mkStores {
  ss_reads : reads (chainDb hc) (tree_header T) (tree_td T) (tree_number T) (GetCanonicalHash (chainDb hc)) (tree_has T);
  ss_headers : cache_ok (header_at T) (headerCache hc);
  ss_tds : cache_ok (td_at T) (tdCache hc);
  ss_numbers : cache_ok (number_at T) (numberCache hc)
}.

(** Only the caches change. *)
Definition same (hc hc' : HeaderChain) : Prop :=
  chainDb hc' = chainDb hc /\ genesisHeader hc' = genesisHeader hc /\ currentHeader hc' = currentHeader hc /\
  currentHeaderHash hc' = currentHeaderHash hc.

Section Reads.
Context (T : tree) (K : known T).

Lemma tree_header_at x h td n : T !! x = Some (h, td) -> Number h = Some n -> tree_header T x n = Some h.
Proof. intros Hx Hn. unfold tree_header. rewrite Hx, some_bind. by rewrite decide_True. Qed.

Lemma tree_td_at x h td n : T !! x = Some (h, td) -> Number h = Some n -> tree_td T x n = Some td.
Proof. intros Hx Hn. unfold tree_td. rewrite Hx, some_bind. by rewrite decide_True. Qed.

Lemma known_place x h td n : T !! x = Some (h, td) -> Number h = Some n -> is_hash x /\ is_number n.
Proof.
  intros Hx Hn. split; [by eapply known_is_hash|]. destruct (kn_number T K _ _ _ Hx) as (n' & ? & ?). unfold is_number. simplify_eq. lia.
Qed.

Lemma GetHeader_known hc x h td n : stores hc T -> T !! x = Some (h, td) -> Number h = Some n ->
  exists hc', hc_GetHeader hc x n = (Some h, hc') /\ same hc hc' /\ stores hc' T.
Proof.
  intros [R Hc Ht Hn'] Hx Hn. destruct (known_place _ _ _ _ Hx Hn) as [Px Pn].
  unfold hc_GetHeader. pose proof (lru_Get_peek (headerCache hc) x) as Hp. pose proof (cache_Get _ _ x Hc) as Hg.
  destruct (lru_Get (headerCache hc) x) as [r c]. cbn [fst snd] in *. destruct r as [h'|].
  - symmetry in Hp. apply Hc in Hp as [td' Hp]. assert (h' = h) as -> by congruence.
    eexists. split; [reflexivity|]. split; [by repeat split|]. by constructor.
  - cbn [chainDb set_headerCache]. rewrite (rd_header _ _ _ _ _ _ R) by done. rewrite (tree_header_at _ _ _ _ Hx Hn).
    eexists. split; [reflexivity|]. split; [by repeat split|]. constructor; try done.
    apply cache_Add; [done|]. by exists td.
Qed.

Lemma GetHeader_unknown hc x n : stores hc T -> T !! x = None -> is_hash x -> is_number n ->
  exists hc', hc_GetHeader hc x n = (None, hc') /\ same hc hc' /\ stores hc' T.
Proof.
  intros [R Hc Ht Hn'] Hx Px Pn. unfold hc_GetHeader. pose proof (lru_Get_peek (headerCache hc) x) as Hp.
  pose proof (cache_Get _ _ x Hc) as Hg. destruct (lru_Get (headerCache hc) x) as [r c]. cbn [fst snd] in *. destruct r as [h'|].
  - symmetry in Hp. apply Hc in Hp as [td' Hp]. congruence.
  - cbn [chainDb set_headerCache]. rewrite (rd_header _ _ _ _ _ _ R) by done. unfold tree_header. rewrite Hx.
    eexists. split; [reflexivity|]. split; [by repeat split|]. by constructor.
Qed.

Lemma GetTd_known hc x h td n : stores hc T -> T !! x = Some (h, td) -> Number h = Some n ->
  exists hc', hc_GetTd hc x n = (Some td, hc') /\ same hc hc' /\ stores hc' T.
Proof.
  intros [R Hc Ht Hn'] Hx Hn. destruct (known_place _ _ _ _ Hx Hn) as [Px Pn].
  unfold hc_GetTd. pose proof (lru_Get_peek (tdCache hc) x) as Hp. pose proof (cache_Get _ _ x Ht) as Hg.
  destruct (lru_Get (tdCache hc) x) as [r c]. cbn [fst snd] in *. destruct r as [td'|].
  - symmetry in Hp. apply Ht in Hp as [h' Hp]. assert (td' = td) as -> by congruence.
    eexists. split; [reflexivity|]. split; [by repeat split|]. by constructor.
  - cbn [chainDb set_tdCache]. rewrite (rd_td _ _ _ _ _ _ R) by done. rewrite (tree_td_at _ _ _ _ Hx Hn).
    eexists. split; [reflexivity|]. split; [by repeat split|]. constructor; try done.
    apply cache_Add; [done|]. by exists h.
Qed.

Lemma HasHeader_sound hc x n : stores hc T -> is_hash x -> is_number n -> HasHeader hc x n = true -> is_Some (T !! x).
Proof.
  intros [R Hc Ht Hn'] Px Pn. unfold HasHeader. rewrite !orb_true_iff, !lru_Contains_peek.
  intros [ [ [k Hk]|[h Hh] ]|Hp].
  - apply Hn' in Hk as (h & td & -> & _). eauto.
  - apply Hc in Hh as [td ->]. eauto.
  - change (present (chainDb hc) x n = true) in Hp. rewrite (rd_present _ _ _ _ _ _ R) in Hp by done.
    apply bool_decide_eq_true in Hp as [h Hh]. unfold tree_header in Hh. apply bind_Some in Hh as ( [h' td] & -> & _). eauto.
Qed.

Lemma HasHeader_complete hc x h td n : stores hc T -> T !! x = Some (h, td) -> Number h = Some n -> HasHeader hc x n = true.
Proof.
  intros [R _ _ _] Hx Hn. destruct (known_place _ _ _ _ Hx Hn) as [Px Pn]. unfold HasHeader. apply orb_true_iff. right.
  change (present (chainDb hc) x n = true). rewrite (rd_present _ _ _ _ _ _ R) by done.
  apply bool_decide_eq_true. rewrite (tree_header_at _ _ _ _ Hx Hn). eauto.
Qed.
End Reads.

(** Reads after a change of the canonical numbers only. *)
Lemma reads_renumbered db db' hd td nb pr cn cn' : reads db hd td nb cn pr ->
  reads db' (GetHeader db) (GetTd db) (GetBlockNumber db) cn' (present db) -> reads db' hd td nb cn' pr.
Proof.
  intros R R'. split; intros; [| | |by apply (rd_canonical _ _ _ _ _ _ R')|].
  - rewrite (rd_header _ _ _ _ _ _ R'), (rd_header _ _ _ _ _ _ R) by done. done.
  - rewrite (rd_td _ _ _ _ _ _ R'), (rd_td _ _ _ _ _ _ R) by done. done.
  - rewrite (rd_number _ _ _ _ _ _ R'), (rd_number _ _ _ _ _ _ R) by done. done.
  - rewrite (rd_present _ _ _ _ _ _ R'), (rd_present _ _ _ _ _ _ R) by done. done.
Qed.

Lemma reads_canonical db hd td nb cn cn' pr : reads db hd td nb cn pr -> (forall n, is_number n -> cn n = cn' n) -> reads db hd td nb cn' pr.
Proof. intros [] He. split; auto. intros. rewrite <-He; auto. Qed.

Lemma stores_set_db hc T db cn : stores hc T ->
  reads db (GetHeader (chainDb hc)) (GetTd (chainDb hc)) (GetBlockNumber (chainDb hc)) cn (present (chainDb hc)) ->
  stores (set_db hc db) T.
Proof.
  intros [R Hc Ht Hn] R'. constructor; [|done..]. cbn [chainDb set_db].
  eapply reads_canonical; [by eapply reads_renumbered|]. intros n Pn. by rewrite (rd_canonical _ _ _ _ _ _ R').
Qed.

(** ** Deleting the canonical numbers above *)

Lemma is_number_u64 n : is_number n -> u64 n = n.
Proof. intros Hn. unfold u64. apply Z.mod_small. exact Hn. Qed.

Lemma big_Uint64_number n : is_number n -> big_Uint64 n = n.
Proof. intros Hn. unfold big_Uint64. rewrite Z.abs_eq by (unfold is_number in Hn; lia). by apply is_number_u64. Qed.

(** [delete_above] from [i] on clears the numbers up to [top], the last one
    that is assigned. *)
Lemma delete_above_ok top : 0 <= top + 1 < 2 ^ 64 -> forall fuel db i,
  (base.size db < fuel)%nat -> 0 <= i <= top + 1 -> (forall m, i <= m <= top -> GetCanonicalHash db m <> zeroHash) ->
  GetCanonicalHash db (top + 1) = zeroHash ->
  exists db', delete_above fuel db i = Ok db' /\
    reads db' (GetHeader db) (GetTd db) (GetBlockNumber db)
      (fun m => if decide (i <= m <= top) then zeroHash else GetCanonicalHash db m) (present db).
Proof.
  intros Htop. induction fuel as [|fuel IH]; intros db i Hf Hi Hset Hend; [lia|]. cbn [delete_above].
  destruct (decide (i = top + 1)) as [->|Hne].
  - rewrite decide_True by done. exists db. split; [done|]. split; intros; try done. by rewrite decide_False by lia.
  - rewrite decide_False by (apply Hset; lia). assert (is_number i) as Pi by (unfold is_number; lia).
    pose proof (DeleteCanonicalHash_reads db i Pi) as R. rewrite (is_number_u64 (i + 1)) by (unfold is_number; lia).
    assert (forall m, is_number m -> m <> i -> GetCanonicalHash (DeleteCanonicalHash db i) m = GetCanonicalHash db m) as Ho.
    { intros m Pm Hm. rewrite (rd_canonical _ _ _ _ _ _ R) by done. unfold update1. by rewrite decide_False. }
    destruct (IH (DeleteCanonicalHash db i) (i + 1)) as (db' & E & R').
    + unfold DeleteCanonicalHash. destruct (db !! canonical_key i) as [v|] eqn:Ev.
      * rewrite map_size_delete_Some by eauto. assert (base.size db <> 0)%nat; [|lia].
        intros Hz%map_size_empty_inv. subst db. by rewrite lookup_empty in Ev.
      * exfalso. apply (Hset i ltac:(lia)). unfold GetCanonicalHash. by rewrite Ev.
    + lia.
    + intros m Hm. rewrite Ho by (unfold is_number; lia). apply Hset. lia.
    + rewrite Ho by (unfold is_number; lia). done.
    + exists db'. split; [done|]. eapply reads_canonical; [by eapply reads_renumbered|]. intros n Pn. cbn beta.
      destruct (decide (n = i)) as [->|Hni].
      * rewrite decide_False, (rd_canonical _ _ _ _ _ _ R), decide_True by (done || lia). unfold update1. by rewrite decide_True.
      * rewrite Ho by done. by repeat case_decide; try lia.
Qed.

(** ** Rerouting *)

(** The head does not change. *)
Definition same_head (hc hc' : HeaderChain) : Prop :=
  genesisHeader hc' = genesisHeader hc /\ currentHeader hc' = currentHeader hc /\ currentHeaderHash hc' = currentHeaderHash hc.

(** Up to [k], what is below a canonical header is canonical. *)
Definition closed (T : tree) (db : KV) (k : Z) : Prop := forall y m n z,
  m <= k -> branch T y m y -> GetCanonicalHash db m = y -> branch T y n z -> GetCanonicalHash db n = z.

Lemma WriteCanonicalHash_other db x n m : is_hash x -> is_number n -> is_number m -> m <> n ->
  GetCanonicalHash (WriteCanonicalHash db x n) m = GetCanonicalHash db m.
Proof.
  intros Px Pn Pm Hne. rewrite (rd_canonical _ _ _ _ _ _ (WriteCanonicalHash_reads db x n Px Pn)) by done.
  unfold update1. by rewrite decide_False.
Qed.

Section Reroute.
Context (T : tree) (g : Hash) (K : known T) (Ln : linked T g).

Lemma branch_number x n y : branch T x n y -> is_number n.
Proof.
  intros (h & td & Hy & Hn)%branch_end. by eapply known_place.
Qed.

Lemma reroute_ok k : forall fuel hc x h td, (k < fuel)%nat -> T !! x = Some (h, td) -> Number h = Some (Z.of_nat k) ->
  stores hc T -> GetCanonicalHash (chainDb hc) 0 = g -> closed T (chainDb hc) (Z.of_nat k) ->
  exists hc', reroute fuel hc x (Z.of_nat k) (Some h) = Ok hc' /\ stores hc' T /\ same_head hc hc' /\
    (forall m y, branch T x m y -> GetCanonicalHash (chainDb hc') m = y) /\
    (forall m, is_number m -> Z.of_nat k < m -> GetCanonicalHash (chainDb hc') m = GetCanonicalHash (chainDb hc) m).
Proof.
  induction k as [|k IH]; intros [|fuel] hc x h td Hf Hx Hn St H0 Hcl; try lia; cbn [reroute].
  - change (Z.of_nat 0) with 0 in *. pose proof (zero_is_genesis T g K Ln _ _ _ Hx Hn) as ->. rewrite decide_True by done.
    exists hc. split; [done|]. split; [done|]. split; [done|]. split; [|done]. intros m y Hb.
    eapply Hcl; [|by econstructor|done|done]. lia.
  - case_decide as Hd.
    { exists hc. split; [done|]. split; [done|]. split; [done|]. split; [|done]. intros m y Hb.
      eapply Hcl; [|by econstructor|done|done]. lia. }
    destruct (known_place T K _ _ _ _ Hx Hn) as [Px Pn].
    destruct (parent_of T g Ln _ _ _ _ Hx Hn) as (p & ptd & Hp & Hpn); [lia|].
    replace (Z.of_nat (S k) - 1) with (Z.of_nat k) in Hpn by lia. destruct (known_place T K _ _ _ _ Hp Hpn) as [_ Pk].
    rewrite or_panic_bind, Hn, or_panic_bind.
    assert (u64 (big_Uint64 (Z.of_nat (S k)) - 1) = Z.of_nat k) as ->.
    { rewrite big_Uint64_number by done. rewrite is_number_u64; [lia|].
      unfold is_number in *. lia. }
    set (hc1 := set_db hc (WriteCanonicalHash (chainDb hc) x (Z.of_nat (S k)))).
    assert (stores hc1 T) as S1 by (eapply stores_set_db; [done|by apply WriteCanonicalHash_reads]).
    destruct (GetHeader_known T K hc1 _ _ _ _ S1 Hp Hpn) as (hc2 & -> & (Ed & Eg & Ec & Eh) & S2).
    assert (forall m, is_number m -> m <> Z.of_nat (S k) -> GetCanonicalHash (chainDb hc2) m = GetCanonicalHash (chainDb hc) m) as Ho.
    { intros m Pm Hm. rewrite Ed. by apply WriteCanonicalHash_other. }
    destruct (IH fuel hc2 _ _ _ ltac:(lia) Hp Hpn S2) as (hc' & -> & S' & (Eg' & Ec' & Eh') & Hb & Ha).
    + rewrite Ho; [done|unfold is_number; lia|lia].
    + intros y m n z Hm Hy Hc Hz. assert (n <= m) as Hnm.
      { destruct (branch_end _ _ _ _ Hy) as (hy & tdy & Ey & Eyn). by eapply (branch_le T g Ln). }
      rewrite Ho in Hc by (first [by eapply branch_number|lia]). rewrite Ho by (first [by eapply branch_number|lia]).
      eapply (Hcl y m); [lia|done..].
    + exists hc'. split; [done|]. split; [done|]. split; [|split].
      * split; [|split]; etrans; eauto.
      * intros m y Hbr. inversion Hbr as [x' h' td' m' Hx' Hm'|x' h' td' m' y' Hx' Hm' Hbr']; subst.
        -- rewrite Hx in Hx'. injection Hx' as <- <-. rewrite Hn in Hm'. injection Hm' as <-.
           rewrite Ha, Ed by (done || lia). unfold hc1. cbn [chainDb set_db]. rewrite (rd_canonical _ _ _ _ _ _ (WriteCanonicalHash_reads _ _ _ Px Pn)) by done.
           unfold update1. by rewrite decide_True.
        -- rewrite Hx in Hx'. injection Hx' as <- <-. by apply Hb.
      * intros m Pm Hm. rewrite Ha by (done || lia). apply Ho; [done|lia].
Qed.
End Reroute.

(** ** The canonical chain *)

(** The canonical numbers spell the branch of [head], of number [k]. *)
Record canonical (db : KV) (T : tree) (head : Hash) (k : Z) : Prop := mkCanonical {
  ca_branch n x : branch T head n x -> GetCanonicalHash db n = x;
  ca_above n : k < n < 2 ^ 64 -> GetCanonicalHash db n = zeroHash
}.

Lemma CopyHeader_storable h : storable h -> CopyHeader h = h.
Proof.
  intros Hs. pose proof (so_bigs h Hs) as Hb. unfold CopyHeader. destruct h; simpl in *.
  repeat match goal with H : Forall _ (_ :: _) |- _ => apply Forall_cons_1 in H as [? H] end.
  repeat match goal with H : is_Some _ |- _ => destruct H as [? ->] end. done.
Qed.

Section Extend.
Context (T : tree) (g : Hash) (K : known T) (Ln : linked T g).

(** What has a canonical number is on the branch of the head. *)
Lemma canonical_on_branch db head c ctd k m y : T !! head = Some (c, ctd) -> Number c = Some k -> canonical db T head k ->
  is_number m -> y <> zeroHash -> GetCanonicalHash db m = y -> branch T head m y.
Proof.
  intros Hh Hk [Hb Ha] Pm Hy Hc. destruct (Z.le_gt_cases m k) as [Hmk|Hmk].
  - destruct (branch_total T g Ln _ _ _ _ m Hh Hk) as [y' Hy']; [unfold is_number in Pm; lia|].
    by rewrite (Hb _ _ Hy') in Hc; subst.
  - rewrite Ha in Hc by (unfold is_number in Pm; lia). done.
Qed.

Lemma canonical_nonzero db head c ctd k m : T !! head = Some (c, ctd) -> Number c = Some k -> canonical db T head k ->
  0 <= m <= k -> GetCanonicalHash db m <> zeroHash.
Proof.
  intros Hh Hk [Hb Ha] Hm. destruct (branch_total T g Ln _ _ _ _ m Hh Hk Hm) as [y Hy]. rewrite (Hb _ _ Hy).
  destruct (branch_end _ _ _ _ Hy) as (h & td & Ey & _). apply (kn_hash T K _ _ _ Ey).
Qed.

(** The numbers above [n] are cleared. *)
Lemma delete_above_canonical db head c ctd k n : T !! head = Some (c, ctd) -> Number c = Some k -> canonical db T head k ->
  0 <= n < 2 ^ 64 - 1 -> exists db', delete_above (S (base.size db)) db (u64 (n + 1)) = Ok db' /\
    reads db' (GetHeader db) (GetTd db) (GetBlockNumber db)
      (fun m => if decide (n < m) then zeroHash else GetCanonicalHash db m) (present db).
Proof.
  intros Hh Hk Hc Hn. rewrite is_number_u64 by (unfold is_number; lia).
  destruct (kn_number T K _ _ _ Hh) as (k' & Hk' & Hr). rewrite Hk in Hk'. injection Hk' as <-.
  destruct (delete_above_ok (Z.max n k) ltac:(lia) (S (base.size db)) db (n + 1)) as (db' & E & R).
  - lia.
  - lia.
  - intros m Hm. eapply canonical_nonzero; [done..|lia].
  - apply (ca_above _ _ _ _ Hc). lia.
  - exists db'. split; [done|]. eapply reads_canonical; [done|]. intros m Pm. cbn beta. unfold is_number in Pm.
    repeat case_decide; try lia; [done| |done]. apply (ca_above _ _ _ _ Hc). lia.
Qed.

Lemma extend_canonical_ok hc x h td n head c ctd k :
  stores hc T -> T !! x = Some (h, td) -> Number h = Some n -> n <> 0 ->
  T !! head = Some (c, ctd) -> Number c = Some k -> canonical (chainDb hc) T head k ->
  exists hc', extend_canonical hc h x n = Ok hc' /\ stores hc' T /\ genesisHeader hc' = genesisHeader hc /\
    currentHeader hc' = Some h /\ currentHeaderHash hc' = x /\ canonical (chainDb hc') T x n.
Proof.
  intros St Hx Hn H0 Hh Hk Hc. destruct (kn_number T K _ _ _ Hx) as (n' & Hn' & Hr). rewrite Hn in Hn'. injection Hn' as <-.
  destruct (known_place T K _ _ _ _ Hx Hn) as [Px Pn]. unfold is_number in Pn.
  destruct (parent_of T g Ln _ _ _ _ Hx Hn H0) as (p & ptd & Hp & Hpn).
  destruct (delete_above_canonical (chainDb hc) head c ctd k n Hh Hk Hc Hr) as (db1 & E1 & R1).
  unfold extend_canonical. rewrite E1, ok_bind. set (hc1 := set_db hc db1).
  assert (stores hc1 T) as S1 by (by eapply stores_set_db).
  assert (forall m, is_number m -> m <= n -> GetCanonicalHash db1 m = GetCanonicalHash (chainDb hc) m) as Hlow.
  { intros m Pm Hm. rewrite (rd_canonical _ _ _ _ _ _ R1) by done. by rewrite decide_False by lia. }
  rewrite (is_number_u64 (n - 1)) by (unfold is_number; lia).
  destruct (GetHeader_known T K hc1 _ _ _ _ S1 Hp Hpn) as (hc2 & -> & (Ed2 & Eg2 & Ec2 & Eh2) & S2).
  assert (Z.of_nat (Z.to_nat (n - 1)) = n - 1) as Ek by lia.
  destruct (reroute_ok T g K Ln (Z.to_nat (n - 1)) (S (Z.to_nat n)) hc2 (ParentHash h) p ptd) as (hc3 & E3 & S3 & (Eg3 & _ & _) & Hb3 & Ha3);
    rewrite ?Ek; try done; [lia| | |].
  - rewrite Ed2. unfold hc1. cbn [chainDb set_db]. rewrite Hlow by (unfold is_number; lia).
    apply (ca_branch _ _ _ _ Hc). by eapply branch_genesis.
  - intros y m l z Hm Hy Hcy Hz. rewrite Ed2 in *. unfold hc1 in *. cbn [chainDb set_db] in *.
    assert (is_number m) as Pm by (by eapply (branch_number T K)). assert (is_number l) as Pl by (by eapply (branch_number T K)).
    rewrite Hlow in Hcy by (done || lia). destruct (branch_end _ _ _ _ Hy) as (hy & tdy & Ey & Eyn).
    pose proof (branch_le T g Ln _ _ _ _ _ _ Hz Ey Eyn). rewrite Hlow by (done || lia).
    apply (ca_branch _ _ _ _ Hc). eapply branch_trans; [|done].
    eapply canonical_on_branch; [exact Hh|exact Hk|exact Hc|exact Pm| |exact Hcy]. by apply (kn_hash T K _ _ _ Ey).
  - rewrite Ek in *. rewrite E3, ok_bind. eexists. split; [reflexivity|].
    rewrite CopyHeader_storable by (by eapply kn_storable).
    set (db4 := WriteCanonicalHash (chainDb hc3) x n). pose proof (WriteCanonicalHash_reads (chainDb hc3) x n Px Pn) as R4.
    fold db4 in R4. pose proof (WriteHeadHeaderHash_reads db4 x) as R5.
    split. { assert (stores (set_db hc3 (WriteHeadHeaderHash db4 x)) T) as []; [|by constructor].
      eapply (stores_set_db hc3 T _ _ S3). by eapply reads_renumbered. }
    cbn [genesisHeader currentHeader currentHeaderHash chainDb set_current set_db].
    split; [by etrans; [|exact Eg2]; etrans|]. split; [done|]. split; [done|]. split.
    + intros m y Hbr. rewrite (rd_canonical _ _ _ _ _ _ R5), (rd_canonical _ _ _ _ _ _ R4) by (by eapply (branch_number T K)).
      unfold update1. inversion Hbr as [x' h' td' m' Hx' Hm'|x' h' td' m' y' Hx' Hm' Hbr']; subst.
      * rewrite Hx in Hx'. injection Hx' as <- <-. rewrite Hn in Hm'. injection Hm' as <-. by rewrite decide_True.
      * rewrite Hx in Hx'. injection Hx' as <- <-. pose proof (branch_le T g Ln _ _ _ _ _ _ Hbr' Hp Hpn).
        rewrite decide_False by lia. by apply Hb3.
    + intros m Hm. assert (is_number m) as Pm by (unfold is_number; lia).
      rewrite (rd_canonical _ _ _ _ _ _ R5), (rd_canonical _ _ _ _ _ _ R4) by done. unfold update1. rewrite decide_False by lia.
      rewrite Ha3, Ed2 by (done || lia). unfold hc1. cbn [chainDb set_db]. rewrite (rd_canonical _ _ _ _ _ _ R1) by done.
      by rewrite decide_True by lia.
Qed.
End Extend.

(** ** A new header in the tree *)

(** A header that can follow: its parent is known, with the number before. *)
Record follows (T : tree) (h : Header) (x : Hash) (n d ptd : Z) : Prop := mkFollows {
  fo_storable : storable h;
  fo_hash : Header_Hash h = Some x /\ x <> zeroHash;
  fo_number : Number h = Some n /\ 0 < n < 2 ^ 64 - 1;
  fo_parent : exists p, T !! ParentHash h = Some (p, ptd) /\ Number p = Some (n - 1);
  fo_difficulty : Difficulty h = Some d /\ 0 <= d /\ d + ptd < 2 ^ 512
}.

Section Insert.
Context (T : tree) (g : Hash) (K : known T) (Ln : linked T g).
Context (h : Header) (x : Hash) (n d ptd : Z) (F : follows T h x n d ptd) (Hnew : T !! x = None).

#[local] Notation T' := (<[x := (h, d + ptd)]> T).

Lemma insert_known : known T'.
Proof.
  destruct F as [Hs Hh Hn (p & Hp & _) Hd]. pose proof (kn_td T K _ _ _ Hp).
  split; intros y hy tdy [ [<- [= <- <-] ]|[Hne Hy] ]%lookup_insert_Some; try done; try (by eapply K).
  - exists n. split; [apply Hn|lia].
  - lia.
Qed.

Lemma insert_linked : linked T' g.
Proof.
  destruct F as [Hs Hh [Hn Hr] (p & Hp & Hpn) [Hd _] ]. destruct (ln_genesis T g Ln) as (hg & tdg & Hg & Hg0).
  assert (forall y v, T !! y = Some v -> T' !! y = Some v) as Hw.
  { intros y v Hy. rewrite lookup_insert_ne; [done|]. intros ->. congruence. }
  split; [exists hg, tdg; auto|]. intros y hy tdy [ [<- [= <- <-] ]|[Hne Hy] ]%lookup_insert_Some Hyg.
  - exists p, ptd, (n - 1), d. split; [by apply Hw|]. split; [done|]. split; [|done]. rewrite Hn. f_equal. lia.
  - destruct (ln_parent T g Ln _ _ _ Hy Hyg) as (q & qtd & m & dq & Hq & Hr'). exists q, qtd, m, dq. split; [by apply Hw|done].
Qed.

Lemma insert_canonical db head c ctd k : T !! head = Some (c, ctd) -> Number c = Some k ->
  canonical db T head k -> canonical db T' head k.
Proof.
  intros Hh Hk [Hb Ha]. split; [|done]. intros m y Hy.
  assert (T ⊆ T') as Hsub by (by apply insert_subseteq).
  pose proof (branch_le T' g insert_linked _ _ _ _ _ _ Hy (lookup_weaken _ _ _ _ Hh Hsub) Hk) as Hm.
  pose proof (branch_number T' insert_known _ _ _ Hy) as Pm. unfold is_number in Pm.
  destruct (branch_total T g Ln _ _ _ _ m Hh Hk) as [y' Hy']; [lia|].
  rewrite (branch_det T' g insert_linked _ _ _ _ Hy (branch_mono _ _ _ _ _ Hsub Hy')). by apply Hb.
Qed.

(** What the tree answers after the insertion. *)
Lemma insert_at {A} (f : Header -> Z -> A) y m :
  (if decide (y = x /\ m = n) then Some (f h (d + ptd))
   else '(h, td) ← T !! y; if decide (Number h = Some m) then Some (f h td) else None) =
  ('(h, td) ← T' !! y; if decide (Number h = Some m) then Some (f h td) else None).
Proof.
  destruct (fo_number T h x n d ptd F) as [Hn _]. destruct (decide (y = x)) as [->|Hy].
  - rewrite lookup_insert_eq, Hnew, some_bind, Hn. repeat case_decide; naive_solver.
  - rewrite lookup_insert_ne by done. rewrite decide_False by tauto. done.
Qed.

(** Both writes together store the tree with the header. *)
Lemma insert_stores hc : stores hc T -> exists hc1 db,
  hc_WriteTd hc x n (d + ptd) = Some (true, hc1) /\ WriteHeader (chainDb hc1) h = Some (true, db) /\
  stores (set_db hc1 db) T' /\ same_head hc hc1 /\
  (forall m, is_number m -> GetCanonicalHash db m = GetCanonicalHash (chainDb hc) m).
Proof.
  intros [R Hc Ht Hnb]. pose proof F as [Hs [Hh Hz] [Hn Hr] (p & Hp & _) [Hd [Hd0 Hd1] ] ]. pose proof (kn_td T K _ _ _ Hp).
  assert (is_number n) as Pn by (unfold is_number; lia).
  assert (is_hash x) as Px. { eapply (known_is_hash T'); [apply insert_known|apply lookup_insert_eq]. }
  destruct (WriteTd_reads (chainDb hc) x n (d + ptd) Px Pn ltac:(lia)) as (db1 & E1 & R1).
  unfold hc_WriteTd. rewrite E1, some_bind. cbn [negb].
  destruct (WriteHeader_reads db1 h x n Hs Hh Hn Pn) as (db2 & E2 & _ & R2).
  eexists _, db2. split; [reflexivity|]. cbn [chainDb set_db set_tdCache]. split; [done|].
  assert (T ⊆ T') as Hsub by (by apply insert_subseteq). split; [|split; [done|] ].
  - split; cbn [chainDb set_db set_tdCache headerCache tdCache numberCache].
    + split; intros; [| | |done|].
      * rewrite (rd_header _ _ _ _ _ _ R2) by done. unfold update2. rewrite (rd_header _ _ _ _ _ _ R1), (rd_header _ _ _ _ _ _ R) by done.
        apply (insert_at (fun h _ => h)).
      * rewrite (rd_td _ _ _ _ _ _ R2), (rd_td _ _ _ _ _ _ R1) by done. unfold update2. rewrite (rd_td _ _ _ _ _ _ R) by done.
        apply (insert_at (fun _ td => td)).
      * rewrite (rd_number _ _ _ _ _ _ R2) by done. unfold update1, tree_number.
        rewrite (rd_number _ _ _ _ _ _ R1), (rd_number _ _ _ _ _ _ R) by done. case_decide as E.
        -- subst. by rewrite lookup_insert_eq, Hn.
        -- unfold tree_number. by rewrite lookup_insert_ne.
      * rewrite (rd_present _ _ _ _ _ _ R2) by done. unfold update2.
        rewrite (rd_present _ _ _ _ _ _ R1), (rd_present _ _ _ _ _ _ R) by done. unfold tree_has, tree_header.
        rewrite <-(insert_at (fun h _ => h)). case_decide; [|done]. symmetry. apply bool_decide_eq_true. eauto.
    + eapply cache_weaken; [|done]. intros y a [td Hy]. exists td. by eapply lookup_weaken.
    + apply cache_Add; [|exists h; apply lookup_insert_eq]. eapply cache_weaken; [|done].
      intros y a [hy Hy]. exists hy. by eapply lookup_weaken.
    + eapply cache_weaken; [|done]. intros y a (hy & td & Hy & ?). exists hy, td. split; [by eapply lookup_weaken|done].
  - intros m Pm. rewrite (rd_canonical _ _ _ _ _ _ R2), (rd_canonical _ _ _ _ _ _ R1) by done. done.
Qed.
End Insert.

(** ** The chain represents a tree and a head *)

Record represents (hc : HeaderChain) (T : tree) (g head : Hash) : Prop := mkRepresents {
  rp_known : known T;
  rp_linked : linked T g;
  rp_stores : stores hc T;
  rp_genesis : exists h td, T !! g = Some (h, td) /\ genesisHeader hc = Some h;
  rp_head : exists h td k, T !! head = Some (h, td) /\ Number h = Some k /\ currentHeader hc = Some h /\
    canonical (chainDb hc) T head k;
  rp_hash : currentHeaderHash hc = head
}.

(** No known header is heavier than the head. *)
Definition heaviest (T : tree) (head : Hash) : Prop := forall x h td c ctd,
  T !! x = Some (h, td) -> T !! head = Some (c, ctd) -> td <= ctd.

Lemma GetTd_unknown hc T x n : stores hc T -> T !! x = None -> is_hash x -> is_number n ->
  exists hc', hc_GetTd hc x n = (None, hc') /\ same hc hc' /\ stores hc' T.
Proof.
  intros [R Hc Ht Hn'] Hx Px Pn. unfold hc_GetTd. pose proof (lru_Get_peek (tdCache hc) x) as Hp.
  pose proof (cache_Get _ _ x Ht) as Hg. destruct (lru_Get (tdCache hc) x) as [r c]. cbn [fst snd] in *. destruct r as [td'|].
  - symmetry in Hp. apply Ht in Hp as [h' Hp]. congruence.
  - cbn [chainDb set_tdCache]. rewrite (rd_td _ _ _ _ _ _ R) by done. unfold tree_td. rewrite Hx.
    eexists. split; [reflexivity|]. split; [by repeat split|]. by constructor.
Qed.

(** Reading leaves what is represented alone. *)
Lemma represents_same hc hc' T g head : represents hc T g head -> same hc hc' -> stores hc' T -> represents hc' T g head.
Proof.
  intros [K Ln _ (hg & tdg & Hg & Eg) (h & td & k & Hh & Hk & Ec & Hc) Eh] (Ed & Eg' & Ec' & Eh') St.
  constructor; [done..| | |congruence].
  - exists hg, tdg. split; [done|congruence].
  - exists h, td, k. rewrite Ed. split_and!; [done..|congruence|done].
Qed.

(** The caches of the new header. *)
Lemma stores_cached hc T x h td n : stores hc T -> T !! x = Some (h, td) -> Number h = Some n ->
  let hc' := set_headerCache hc (lru_Add (headerCache hc) x h) in
  stores (set_numberCache hc' (lru_Add (numberCache hc') x n)) T.
Proof.
  intros [R Hc Ht Hn'] Hx Hn. constructor; try done; apply cache_Add; try done; [by exists td|by exists h, td].
Qed.

Lemma canonical_ext db db' T head k : (forall m, is_number m -> GetCanonicalHash db' m = GetCanonicalHash db m) ->
  known T -> canonical db T head k -> 0 <= k -> canonical db' T head k.
Proof.
  intros He Kn [Hb Ha] Hk. split.
  - intros m y Hy. rewrite He by (by eapply (branch_number T Kn)). by apply Hb.
  - intros m Hm. rewrite He by (unfold is_number; lia). by apply Ha.
Qed.

Section Write.
Context (hc : HeaderChain) (T : tree) (g head : Hash) (Rp : represents hc T g head).

Lemma WriteHeader_orphan coin h : storable h -> T !! ParentHash h = None ->
  exists hc', hc_WriteHeader coin hc h = Ok (NonStatTy, Some ErrUnknownAncestor, hc') /\ represents hc' T g head.
Proof.
  intros Hs Hp. destruct (header_roundtrip h Hs) as (b & _ & _ & _ & _ & Hh).
  assert (exists n, Number h = Some n) as [n Hn].
  { pose proof (so_bigs h Hs) as Hb. apply Forall_cons_1 in Hb as [_ Hb]. apply Forall_cons_1 in Hb as [ [n Hn] _]. eauto. }
  unfold hc_WriteHeader. rewrite Hh, or_panic_bind, Hn, or_panic_bind.
  destruct (GetTd_unknown hc T (ParentHash h) (u64 (big_Uint64 n - 1)) (rp_stores _ _ _ _ Rp) Hp) as (hc' & -> & Hsm & St).
  - apply Hs.
  - unfold is_number, u64. apply Z.mod_pos_bound. lia.
  - exists hc'. split; [done|]. by eapply represents_same.
Qed.

Lemma WriteHeader_new coin h x n d ptd c ctd : follows T h x n d ptd -> T !! x = None -> T !! head = Some (c, ctd) ->
  let wins := (ctd <? d + ptd) || ((d + ptd =? ctd) && coin) in
  exists hc', hc_WriteHeader coin hc h = Ok (if wins then CanonStatTy else SideStatTy, None, hc') /\
    represents hc' (<[x := (h, d + ptd)]> T) g (if wins then x else head).
Proof.
  intros F Hnew Hhd wins. destruct Rp as [K Ln St (hg & tdg & Hg & Eg) (c' & ctd' & k & Hc' & Hk & Ec & Hcan) Eh].
  rewrite Hhd in Hc'. injection Hc' as <- <-.
  pose proof F as [Hs [Hh Hz] [Hn Hr] (p & Hp & Hpn) [Hd _] ].
  pose proof (insert_known T K h x n d ptd F) as K'. pose proof (insert_linked T g Ln h x n d ptd F Hnew) as Ln'.
  assert (T ⊆ <[x := (h, d + ptd)]> T) as Hsub by (by apply insert_subseteq).
  destruct (kn_number T K _ _ _ Hhd) as (k' & Hk' & Hkr). rewrite Hk in Hk'. injection Hk' as <-.
  unfold hc_WriteHeader. rewrite Hh, or_panic_bind, Hn, or_panic_bind.
  rewrite (big_Uint64_number n) by (unfold is_number; lia).
  rewrite (is_number_u64 (n - 1)) by (unfold is_number; lia).
  destruct (GetTd_known T K hc _ _ _ _ St Hp Hpn) as (hc1 & -> & (Ed1 & Eg1 & Ec1 & Eh1) & S1).
  rewrite Ec1, Ec, or_panic_bind, Hk, or_panic_bind.
  rewrite (big_Uint64_number k) by (unfold is_number; lia).
  rewrite Eh1, Eh. destruct (GetTd_known T K hc1 _ _ _ _ S1 Hhd Hk) as (hc2 & -> & (Ed2 & Eg2 & Ec2 & Eh2) & S2).
  rewrite Hd, or_panic_bind.
  destruct (insert_stores T K h x n d ptd F Hnew hc2 S2) as (hc3 & db & E3 & E4 & S4 & (Eg3 & Ec3 & Eh3) & Hcn).
  unfold crit. rewrite E3, or_panic_bind, guard_err_pass, ok_bind, E4, or_panic_bind, guard_err_pass, ok_bind, or_panic_bind.
  fold wins. set (hc4 := set_db hc3 db) in *.
  assert (canonical (chainDb hc4) (<[x := (h, d + ptd)]> T) head k) as Hcan4.
  { eapply (canonical_ext (chainDb hc)); [|done| |lia].
    - intros m Pm. cbn [chainDb set_db hc4]. rewrite Hcn by done. by rewrite Ed2, Ed1.
    - by eapply (insert_canonical T g K Ln). }
  assert (<[x := (h, d + ptd)]> T !! head = Some (c, ctd)) as Hhd' by (by eapply lookup_weaken).
  assert (<[x := (h, d + ptd)]> T !! g = Some (hg, tdg)) as Hg' by (by eapply lookup_weaken).
  assert (genesisHeader hc4 = Some hg) as Eg4 by (cbn [genesisHeader set_db hc4]; congruence).
  destruct wins.
  - destruct (extend_canonical_ok _ g K' Ln' hc4 x h (d + ptd) n head c ctd k S4 (lookup_insert_eq _ _ _) Hn ltac:(lia) Hhd' Hk Hcan4)
      as (hc5 & -> & S5 & Eg5 & Ec5 & Eh5 & Hcan5).
    rewrite !ok_bind. eexists. split; [reflexivity|]. constructor; try done.
    + eapply stores_cached; [done|apply lookup_insert_eq|done].
    + exists hg, tdg. split; [done|]. cbn [genesisHeader set_numberCache set_headerCache]. congruence.
    + exists h, (d + ptd), n. split_and!; [apply lookup_insert_eq|done..].
  - rewrite ok_bind. eexists. split; [reflexivity|]. constructor; try done.
    + eapply stores_cached; [done|apply lookup_insert_eq|done].
    + by exists hg, tdg.
    + exists c, ctd, k. split_and!; [done..| |done]. cbn [currentHeader set_numberCache set_headerCache set_db hc4]. congruence.
    + cbn [currentHeaderHash set_numberCache set_headerCache set_db hc4]. congruence.
Qed.
End Write.
End Stores.
