(* ===== verification/HeaderSync.v ===== *)
(** * Inserting chains of headers

    A chain of headers that the engine has verified is inserted completely; the
    tree grows by exactly these headers, the head stays the heaviest one and
    the canonical chain its branch, unless Keccak is broken on the headers at
    hand.  And two ways in which this goes wrong: the engine does not check the
    difficulty that decides about the head, and rewinding leaves headers
    without parents behind. *)
From S2P Require Import State Prelude Shabal Sha3 Types Rlp RlpStream StateCodec HeaderHash Bitutil Bloom LogIndex Clique.
From S2P Require Import ChainDb HeaderChain HeaderChainInv.
From S2P Require Dnpoc.

Definition difficulty_of (h : Header) : Z := default 0 (Difficulty h).
Definition total_difficulty (chain : list Header) : Z := foldr (fun h s => difficulty_of h + s) 0 chain.

Section Chain.
Context {AS : AddressSize}.

(** Keccak fails on the headers at hand, those of the tree and of the chain: two
    of them differ and have one hash, or one has the hash that stands for none. *)
Definition at_hand (T : tree) (chain : list Header) (h : Header) : Prop := h ∈ chain \/ exists x td, T !! x = Some (h, td).

Definition clash (T : tree) (chain : list Header) : Prop :=
  (exists h1 h2, at_hand T chain h1 /\ at_hand T chain h2 /\ h1 <> h2 /\ Header_Hash h1 = Header_Hash h2) \/
  exists h, at_hand T chain h /\ Header_Hash h = Some zeroHash.

Lemma clash_mono T chain T' chain' : (forall h, at_hand T' chain' h -> at_hand T chain h) -> clash T' chain' -> clash T chain.
Proof. intros Hs [(h1 & h2 & H1 & H2 & ?)|(h & H1 & ?)]; [left; exists h1, h2; eauto|right; eauto]. Qed.

Lemma clash_cons T h chain : clash T chain -> clash T (h :: chain).
Proof. apply clash_mono. intros k [Hk|Hk]; [left; by right|by right]. Qed.

Lemma clash_write T h x td chain : clash (<[x := (h, td)]> T) chain -> clash T (h :: chain).
Proof.
  apply clash_mono. intros k [Hk|(y & ktd & Hk)]; [left; by right|].
  apply lookup_insert_Some in Hk as [ [_ [= <- _] ]|[_ Hk] ]; [left; by left|right; eauto].
Qed.

(** A chain that continues the header [ph] of number [n - 1]. *)
Fixpoint chain_from (ph : Hash) (n : Z) (chain : list Header) : Prop :=
  match chain with
  | [] => True
  | h :: chain' => storable h /\ ParentHash h = ph /\ Number h = Some n /\
      exists x, Header_Hash h = Some x /\ chain_from x (n + 1) chain'
  end.

Lemma storable_difficulty h : storable h -> exists d, Difficulty h = Some d /\ 0 <= d.
Proof.
  intros Hs. pose proof (so_bigs h Hs) as Hb. apply Forall_cons_1 in Hb as [ [d Hd] _]. exists d. split; [done|].
  destruct (so_encodable h Hs) as (b & _ & Hr & _).
  unfold header_value in Hr. apply rlp_flat_inv in Hr as (fs & Hm & _); [|by repeat constructor]. apply mapM_Some in Hm.
  destruct (Forall2_lookup_l _ _ _ 7 _ Hm eq_refl) as (f & _ & Hf). rewrite Hd in Hf. simpl in Hf.
  destruct (Z.ltb_spec d 0); [done|lia].
Qed.

Lemma total_difficulty_nonneg chain : forall x n, chain_from x n chain -> 0 <= total_difficulty chain.
Proof.
  induction chain as [|h chain IH]; intros x n; [done|]. intros (Hs & _ & _ & y & _ & Hch).
  destruct (storable_difficulty h Hs) as (d & Hd & ?). change (0 <= difficulty_of h + total_difficulty chain).
  specialize (IH _ _ Hch). unfold difficulty_of. rewrite Hd. simpl. lia.
Qed.

(** A header of the tree with the hash of one of the chain is that one. *)
Lemma known_or_clash T chain h h' x td : known T -> T !! x = Some (h', td) -> h ∈ chain -> storable h -> Header_Hash h = Some x ->
  h' = h \/ clash T chain.
Proof.
  intros K Hx Hin Hs Hh. destruct (kn_hash T K _ _ _ Hx) as [Hh' _].
  destruct (header_roundtrip h Hs) as (b1 & E1 & _ & _ & D1 & H1).
  destruct (header_roundtrip h' (kn_storable T K _ _ _ Hx)) as (b2 & E2 & _ & _ & D2 & H2).
  destruct (decide (b1 = b2)) as [->|Hne]; [left; congruence|]. right. left. exists h', h.
  split; [right; eauto|]. split; [by left|]. split; [congruence|]. by rewrite Hh, Hh'.
Qed.
End Chain.

Section Insert.
Context {AS : AddressSize} {L : LRU} {LL : LRULaws L}.
Context (procInterrupt : nat -> bool) (never : forall i, procInterrupt i = false) (coin : nat -> bool) (g : Hash).

(** What inserting [chain] makes of a tree with a head. *)
Record grown (T : tree) (head : Hash) (chain : list Header) (T' : tree) (head' : Hash) : Prop := mkGrown {
  gr_keeps : T ⊆ T';
  gr_new x h td : T' !! x = Some (h, td) -> T !! x = Some (h, td) \/ h ∈ chain;
  gr_all h : h ∈ chain -> exists x td, Header_Hash h = Some x /\ T' !! x = Some (h, td);
  gr_heaviest : heaviest T head -> heaviest T' head'
}.

Lemma grown_nil T head : grown T head [] T head.
Proof. split; [done|auto|by intros h ?%elem_of_nil|done]. Qed.

Lemma grown_skip T head h x td chain T' head' : Header_Hash h = Some x -> T !! x = Some (h, td) ->
  grown T head chain T' head' -> grown T head (h :: chain) T' head'.
Proof.
  intros Hh Hx [G1 G2 G3 G4]. split; [done| | |done].
  - intros y k ktd [Hy|Hy]%G2; [by left|right]. by constructor.
  - intros k [->|Hk]%elem_of_cons; [|by apply G3]. exists x, td. split; [done|]. by eapply lookup_weaken.
Qed.

(** The heavier one of the head and the new header. *)
Lemma heaviest_insert T head h x td c ctd (toss : bool) : heaviest T head -> T !! x = None -> T !! head = Some (c, ctd) ->
  heaviest (<[x := (h, td)]> T) (if (ctd <? td) || ((td =? ctd) && toss) then x else head).
Proof.
  intros Hv Hn Hh y k ktd c' ctd' Hy Hc.
  assert (forall z e, T !! z = Some e -> <[x := (h, td)]> T !! z = Some e) as Hw.
  { intros z e Hz. rewrite lookup_insert_ne; [done|]. intros ->. congruence. }
  assert (ktd <= Z.max ctd td) as Hk.
  { apply lookup_insert_Some in Hy as [ [_ [= _ <-] ]|[_ Hy] ]; [lia|]. pose proof (Hv _ _ _ _ _ Hy Hh). lia. }
  destruct (Z.ltb_spec ctd td); cbn [orb] in Hc.
  - rewrite lookup_insert_eq in Hc. injection Hc as _ <-. lia.
  - destruct ((td =? ctd) && toss) eqn:E.
    + rewrite lookup_insert_eq in Hc. injection Hc as _ <-. apply andb_true_iff in E as [E%Z.eqb_eq _]. lia.
    + rewrite (Hw _ _ Hh) in Hc. injection Hc as _ <-. lia.
Qed.

Lemma grown_write T head h x td c ctd (toss : bool) chain T' head' : T !! x = None -> T !! head = Some (c, ctd) -> Header_Hash h = Some x ->
  grown (<[x := (h, td)]> T) (if (ctd <? td) || ((td =? ctd) && toss) then x else head) chain T' head' ->
  grown T head (h :: chain) T' head'.
Proof.
  intros Hn Hc Hh [G1 G2 G3 G4]. split.
  - etrans; [by apply insert_subseteq|done].
  - intros y k ktd [Hy|Hy]%G2; [|right; by constructor].
    apply lookup_insert_Some in Hy as [ [_ [= <- _] ]|[_ Hy] ]; [right; by constructor|by left].
  - intros k [->|Hk]%elem_of_cons; [|by apply G3]. exists x, td. split; [done|].
    eapply lookup_weaken; [apply lookup_insert_eq|done].
  - intros Hv. apply G4. by eapply heaviest_insert.
Qed.

Lemma insert_loop_ok chain : forall i hc T head ph p ptd n, represents hc T g head -> T !! ph = Some (p, ptd) ->
  Number p = Some (n - 1) -> chain_from ph n chain -> n + Z.of_nat (length chain) < 2 ^ 64 ->
  ptd + total_difficulty chain < 2 ^ 512 ->
  clash T chain \/ exists hc' T' head', insert_loop procInterrupt coin i hc chain = Ok (0%nat, None, hc') /\
    represents hc' T' g head' /\ grown T head chain T' head'.
Proof.
  induction chain as [|h chain IH]; intros i hc T head ph p ptd n Rp Hp Hpn Hch Hlen Htd.
  { right. exists hc, T, head. split; [done|]. split; [done|]. apply grown_nil. }
  destruct Hch as (Hs & Hph & Hn & x & Hx & Hch). cbn [length] in Hlen. subst ph.
  destruct (storable_difficulty h Hs) as (d & Hd & Hd0).
  assert (ptd + (d + total_difficulty chain) < 2 ^ 512) as Htd'.
  { change (ptd + (difficulty_of h + total_difficulty chain) < 2 ^ 512) in Htd. unfold difficulty_of in Htd. by rewrite Hd in Htd. }
  clear Htd.
  destruct (decide (x = zeroHash)) as [->|Hz]; [left; right; exists h; split; [left; by left|done]|].
  pose proof Rp as [K Ln St _ (c & ctd & ck & Hc & _) _]. destruct (kn_number T K _ _ _ Hp) as (m & Hm & Hmr).
  rewrite Hpn in Hm. injection Hm as <-. assert (is_number n) as Pn by (unfold is_number; lia).
  pose proof (total_difficulty_nonneg _ _ _ Hch) as Hpos.
  cbn [insert_loop]. rewrite never, Hx, or_panic_bind, Hn, or_panic_bind, big_Uint64_number by done.
  destruct (T !! x) as [ [h' td'] |] eqn:ET.
  - destruct (known_or_clash T (h :: chain) h h' x td' K ET) as [->|Hb]; [by left|done|done| |by left].
    rewrite (HasHeader_complete T K hc x h td' n St ET Hn). assert (x <> g) as Hg.
    { intros ->. destruct (ln_genesis T g Ln) as (hg & tdg & Eg & Eg0). rewrite ET in Eg. injection Eg as <- _.
      rewrite Hn in Eg0. injection Eg0 as ->. lia. }
    destruct (ln_parent T g Ln _ _ _ ET Hg) as (q & qtd & m & dq & Hq & _ & _ & Edq & ->).
    rewrite Hp in Hq. injection Hq as <- <-. rewrite Hd in Edq. injection Edq as <-.
    destruct (IH (S i) hc T head x h (d + ptd) (n + 1)) as [?|(hc' & T' & head' & E & Rp' & G)]; [done|done| |done|lia|lia|left; by apply clash_cons|].
    { rewrite Hn. f_equal. lia. }
    right. exists hc', T', head'. split; [done|]. split; [done|]. by eapply grown_skip.
  - assert (HasHeader hc x n = false) as ->.
    { apply not_true_iff_false. intros Hh. apply (HasHeader_sound T hc x n St) in Hh as [? ?]; [congruence| |done].
      destruct (header_roundtrip h Hs) as (b & _ & _ & _ & _ & Hk). rewrite Hx in Hk. apply (inj Some) in Hk. rewrite Hk.
      apply keccak256_hash. }
    assert (follows T h x n d ptd) as F.
    { constructor; [done|done|split; [done|lia]|exists p; done|split; [done|lia] ]. }
    destruct (WriteHeader_new hc T g head Rp (coin i) h x n d ptd c ctd F ET Hc) as (hc1 & E1 & Rp1).
    rewrite E1, ok_bind. cbn beta iota.
    destruct (IH (S i) hc1 _ _ x h (d + ptd) (n + 1) Rp1 (lookup_insert_eq _ _ _)) as [?|(hc' & T' & head' & E & Rp' & G)];
      [|done|lia|lia|left; by eapply clash_write|].
    { rewrite Hn. f_equal. lia. }
    right. exists hc', T', head'. split; [done|]. split; [done|]. by eapply grown_write.
Qed.
End Insert.

(** ** Verified headers *)

Section Verified.
Context {AS : AddressSize} {L : LRU} {LL : LRULaws L} {H : Type} `{Hasher H} {Tx : Type}.

(** A header chain as the engine reads it; it has no blocks. *)
Definition reader (hc : HeaderChain) : Dnpoc.ChainReader Tx :=
  Dnpoc.mkChain Tx (fun x n => (hc_GetHeader hc x n).1) (fun n => (hc_GetHeaderByNumber hc n).1) (fun _ _ => None).

Definition hash_of (h : Header) : Hash := default zeroHash (Header_Hash h).

Lemma verifyHeader_number now1 now2 h p uncle seal : Dnpoc.verifyHeader now1 now2 h p uncle seal = Ok tt ->
  exists n, Number p = Some n /\ Number h = Some (n + 1).
Proof.
  unfold Dnpoc.verifyHeader. cbv zeta. intros E.
  repeat (rewrite outcome_bind_ok in E; let G := fresh "G" in destruct E as (? & G & E)).
  repeat match goal with G : Dnpoc.deref _ = Ok _ |- _ => apply or_panic_ok in G end.
  repeat match goal with G : guard_err _ _ = Ok _ |- _ => apply guard_err_ok in G end.
  match goal with G : negb _ = false |- _ => apply negb_false_iff, Z.eqb_eq in G end.
  eexists. split; [done|]. match goal with G : Number h = Some _ |- _ => rewrite G end. f_equal. lia.
Qed.

Lemma collect_results_ok procInterrupt BadHashes i h chain rs k :
  collect_results procInterrupt BadHashes i (h :: chain) rs = Ok (k, None) -> exists rs', rs = None :: rs'.
Proof.
  cbn [collect_results]. destruct (procInterrupt i); [done|]. destruct (Header_Hash h) as [x|]; [|done]. rewrite or_panic_bind.
  destruct (BadHashes x); [done|]. destruct rs as [|[e|] rs]; [done|done|]. eauto.
Qed.

Lemma pick_seals_length rand freq len seals : pick_seals rand freq len = Some seals -> length seals = len.
Proof.
  assert (forall l i b (l' : list bool), store l i b = Some l' -> length l' = length l) as Hst.
  { intros l i b l'. unfold store. case_decide; [|done]. intros [= <-]. by rewrite length_insert. }
  unfold pick_seals. destruct (freq =? 0); [done|]. intros (l & Hl & Hs)%bind_Some. rewrite (Hst _ _ _ _ Hs).
  revert Hl. generalize (replicate len false), (length_replicate len false). generalize (Z.to_nat (Z.of_nat len ÷ freq)) as n.
  generalize 0%nat as i. intros i n. revert i. induction n as [|n IH]; intros i s Hs0; [by intros [= <-]|].
  cbn [for_up]. intros (s' & Hs' & Hl)%bind_Some. apply Hst in Hs'. eapply IH; [|done]. congruence.
Qed.

(** A contiguous list of storable headers is a chain. *)
Lemma non_contiguous_ok chain : forall i prev x n, non_contiguous i prev chain = Some None -> Header_Hash prev = Some x ->
  Number prev = Some n -> 0 <= n < 2 ^ 64 - 1 -> Forall (fun h => storable h /\ exists m, Number h = Some m /\ 0 <= m < 2 ^ 64 - 1) chain ->
  chain_from x (n + 1) chain.
Proof.
  induction chain as [|h chain IH]; intros i prev x n Hc Hx Hn Hr Hall; [done|].
  apply Forall_cons_1 in Hall as [ [Hs (m & Hm & Hmr)] Hall]. cbn [non_contiguous] in Hc. rewrite Hm, some_bind, Hn, some_bind, Hx in Hc.
  rewrite !big_Uint64_number in Hc by (unfold is_number; lia). rewrite is_number_u64 in Hc by (unfold is_number; lia).
  destruct (Z.eqb_spec m (n + 1)) as [Em|]; [|done]. cbn [negb] in Hc. rewrite Em in *. rewrite some_bind in Hc. case_decide as Hp; [|done].
  destruct (header_roundtrip h Hs) as (b & _ & _ & _ & _ & Hh).
  split; [done|]. split; [done|]. split; [done|]. exists (keccak256 b). split; [done|]. by eapply IH.
Qed.

Section Engine.
Context (hc : HeaderChain) (T : tree) (g head : Hash) (Rp : represents hc T g head).
(** The genesis has no parent. *)
Context (Hroot : forall h td, T !! g = Some (h, td) -> ParentHash h = zeroHash).

Lemma reader_sound x n h : is_hash x -> is_number n -> (hc_GetHeader hc x n).1 = Some h -> exists td, T !! x = Some (h, td).
Proof.
  intros Px Pn E. pose proof (rp_stores _ _ _ _ Rp) as [R Hc _ _]. unfold hc_GetHeader in E.
  pose proof (lru_Get_peek (headerCache hc) x) as Hp. destruct (lru_Get (headerCache hc) x) as [r c]. cbn [fst] in Hp. destruct r as [h'|].
  - injection E as <-. symmetry in Hp. by apply Hc in Hp.
  - cbn [chainDb set_headerCache] in E. rewrite (rd_header _ _ _ _ _ _ R) in E by done. unfold tree_header in E.
    destruct (T !! x) as [ [h' td] |]; [|done]. rewrite some_bind in E. case_decide; [|done]. injection E as <-. eauto.
Qed.

(** What the engine's verdict on the first header means for the tree. *)
Lemma first_verified now1 now2 chain h seals : chain !! 0%nat = Some h -> storable h ->
  (exists n, Number h = Some n /\ 0 <= n < 2 ^ 64 - 1) ->
  Dnpoc.verifyHeaderWorker hash_of (reader hc) now1 now2 chain seals 0 = Ok tt ->
  clash T chain \/ exists p ptd n, T !! ParentHash h = Some (p, ptd) /\ Number p = Some (n - 1) /\ Number h = Some n.
Proof.
  intros Hl Hs (n & Hn & Hr). unfold Dnpoc.verifyHeaderWorker. rewrite Hl, or_panic_bind. unfold Dnpoc.deref. rewrite Hn, !or_panic_bind.
  rewrite ok_bind. rewrite big_Uint64_number by (unfold is_number; lia). cbn [Dnpoc.GetHeader reader].
  destruct (hc_GetHeader hc (ParentHash h) (u64 (n - 1))).1 as [p|] eqn:Ep; [|done].
  apply reader_sound in Ep as [ptd Hp]; [|apply Hs|unfold is_number, u64; apply Z.mod_pos_bound; lia].
  rewrite or_panic_bind, big_Uint64_number by (unfold is_number; lia).
  destruct (header_roundtrip h Hs) as (b & _ & _ & _ & _ & Hh).
  assert (hash_of h = keccak256 b) as Ehash by (unfold hash_of; by rewrite Hh). rewrite Ehash.
  destruct (hc_GetHeader hc (keccak256 b) n).1 as [h'|] eqn:Ek.
  - intros _. apply reader_sound in Ek as [td Hk]; [|apply keccak256_hash|unfold is_number; lia].
    pose proof (rp_known _ _ _ _ Rp) as K. pose proof (rp_linked _ _ _ _ Rp) as Ln.
    destruct (known_or_clash T chain h h' _ td K Hk) as [->|Hb]; [by eapply list_elem_of_lookup_2|done|done|right|by left].
    destruct (decide (keccak256 b = g)) as [Eg|Hg].
    { rewrite Eg in Hk. rewrite (Hroot _ _ Hk) in Hp. by destruct (kn_hash T K _ _ _ Hp) as [_ ?]. }
    destruct (ln_parent T g Ln _ _ _ Hk Hg) as (q & qtd & m & d & Hq & Hqn & Hm & _). rewrite Hp in Hq. injection Hq as <- <-.
    exists p, ptd, n. split; [done|]. split; [|done]. rewrite Hn in Hm. injection Hm as ->. rewrite Hqn. f_equal. lia.
  - destruct (seals !! 0%nat) as [seal|]; [|done]. rewrite or_panic_bind. intros (m & Hm & Hm')%verifyHeader_number. right.
    exists p, ptd, n. split; [done|]. split; [|done]. rewrite Hn in Hm'. injection Hm' as ->. rewrite Hm. f_equal. lia.
Qed.

(** C7: headers that were validated are inserted.  If [ValidateHeaderChain]
    accepts a list of storable headers with the verdicts of the engine, then
    [InsertHeaderChain], uninterrupted, returns without an error, a panic or an
    end of the process; the tree of known headers has grown by exactly these
    headers, the canonical numbers spell the branch of its head, and the head is
    heaviest if it was before.  The exception is a collision of Keccak between
    two of the headers, new or known, or one whose hash is zero. *)
Theorem validated_headers_inserted now1 now2 procInterrupt BadHashes results rand chain freq k coin :
  Forall (fun h => storable h /\ exists n, Number h = Some n /\ 0 <= n /\ n + Z.of_nat (length chain) < 2 ^ 64) chain ->
  (forall x h td, T !! x = Some (h, td) -> td + total_difficulty chain < 2 ^ 512) ->
  (forall seals i r, length seals = length chain -> results seals !! i = Some r ->
     Dnpoc.verifyHeaderWorker hash_of (reader hc) now1 now2 chain seals i = match r with None => Ok tt | Some e => Err e end) ->
  (forall i, procInterrupt i = false) ->
  ValidateHeaderChain procInterrupt BadHashes results rand chain freq = Ok (k, None) ->
  clash T chain \/ exists hc' T' head', InsertHeaderChain procInterrupt coin hc chain = Ok (0%nat, None, hc') /\
    represents hc' T' g head' /\ grown T head chain T' head'.
Proof.
  intros Hall Htd Hres Hint Hv. unfold ValidateHeaderChain in Hv. destruct chain as [|h chain].
  { rewrite ok_bind in Hv. unfold pick_seals in Hv. destruct (Z.eqb_spec freq 0); [done|]. cbn [length] in Hv.
    change (Z.of_nat 0) with 0 in Hv. by rewrite Z.quot_0_l in Hv. }
  destruct (non_contiguous 1 h chain) as [ [i|] |] eqn:Ec; [by destruct (pick_seals _ _ _)| |done]. rewrite or_panic_bind in Hv.
  destruct (pick_seals rand freq (length (h :: chain))) as [seals|] eqn:Eseals; [|done].
  apply pick_seals_length in Eseals. rewrite or_panic_bind in Hv.
  apply collect_results_ok in Hv as [rs Ers].
  apply Forall_cons_1 in Hall as [ [Hs (n & Hn & Hn0 & Hr)] Hall]. cbn [length] in *.
  destruct (first_verified now1 now2 (h :: chain) h seals eq_refl Hs) as [Hb|(p & ptd & n' & Hp & Hpn & Hn')].
  { exists n. split; [done|lia]. }
  { apply (Hres seals 0%nat None); [done|]. by rewrite Ers. }
  { by left. }
  rewrite Hn in Hn'. injection Hn' as <-. destruct (header_roundtrip h Hs) as (b & _ & _ & _ & _ & Hh).
  assert (chain_from (ParentHash h) n (h :: chain)) as Hch.
  { split; [done|]. split; [done|]. split; [done|]. exists (keccak256 b). split; [done|].
    eapply non_contiguous_ok; [done|done|done|lia|]. eapply Forall_impl; [done|]. intros k' [Hk (m & Hm & ? & ?)].
    split; [done|]. exists m. split; [done|lia]. }
  destruct (insert_loop_ok procInterrupt Hint coin g (h :: chain) 0 hc T head _ _ _ _ Rp Hp Hpn Hch) as [Hb|(hc' & T' & head' & E & Rp' & G)].
  - cbn [length]. lia.
  - by eapply Htd.
  - by left.
  - right. exists hc', T', head'. split; [|done]. unfold InsertHeaderChain. rewrite E, ok_bind. cbn beta iota.
    destruct ((h :: chain) !! (length (h :: chain) - 1)%nat) as [l|] eqn:El; [done|].
    apply lookup_ge_None in El. cbn [length] in El. lia.
Qed.
End Engine.
End Verified.

(** ** Rewinding *)

Section Rewind.
Context {AS : AddressSize} {L : LRU} {LL : LRULaws L}.

Lemma delete_numbers_reads n : forall height db, 0 <= height - Z.of_nat n -> height < 2 ^ 64 ->
  reads (delete_numbers n height db) (GetHeader db) (GetTd db) (GetBlockNumber db)
    (fun m => if decide (height - Z.of_nat n < m <= height) then zeroHash else GetCanonicalHash db m) (present db).
Proof.
  induction n as [|n IH]; intros height db H0 H64.
  - split; try done. intros m Pm. by rewrite decide_False by lia.
  - cbn [delete_numbers]. assert (is_number height) as Ph by (unfold is_number; lia).
    pose proof (DeleteCanonicalHash_reads db height Ph) as R. specialize (IH (height - 1) (DeleteCanonicalHash db height) ltac:(lia) ltac:(lia)).
    eapply reads_canonical; [by eapply reads_renumbered|]. intros m Pm. cbn beta. rewrite (rd_canonical _ _ _ _ _ _ R) by done.
    unfold update1. repeat case_decide; try lia; try done.
Qed.

(** The headers of [T] that are left when those of the branch above [k] are
    deleted. *)
Definition cut (T : tree) (x : Hash) (k : Z) (T' : tree) : Prop := T' ⊆ T /\
  forall y, T' !! y = None <-> T !! y = None \/ exists n, k < n /\ branch T x n y.

(** While headers are deleted the cache may still hold them. *)
Record rewinding (hc : HeaderChain) (T T' : tree) : Prop := mkRewinding {
  rw_reads : reads (chainDb hc) (tree_header T') (tree_td T') (tree_number T') (GetCanonicalHash (chainDb hc)) (tree_has T');
  rw_headers : cache_ok (header_at T) (headerCache hc)
}.

Lemma tree_delete {A} (f : Header -> Z -> A) (T : tree) x h td n y m : T !! x = Some (h, td) -> Number h = Some n ->
  (if decide (y = x /\ m = n) then None
   else '(h, td) ← T !! y; if decide (Number h = Some m) then Some (f h td) else None) =
  ('(h, td) ← delete x T !! y; if decide (Number h = Some m) then Some (f h td) else None).
Proof.
  intros Hx Hn. destruct (decide (y = x)) as [->|Hy].
  - rewrite lookup_delete_eq, Hx, some_bind, Hn. repeat case_decide; naive_solver.
  - rewrite lookup_delete_ne by done. rewrite decide_False by tauto. done.
Qed.

Lemma rewinding_delete hc T T' x h td n : known T -> T' ⊆ T -> T' !! x = Some (h, td) -> Number h = Some n -> rewinding hc T T' ->
  let db := DeleteTd (DeleteHeader (chainDb hc) x n) x n in
  rewinding (set_db hc db) T (delete x T') /\ forall m, is_number m -> GetCanonicalHash db m = GetCanonicalHash (chainDb hc) m.
Proof.
  intros K Hsub Hx Hn [R Hc] db. destruct (known_place T K x h td n) as [Px Pn]; [by eapply lookup_weaken|done|].
  pose proof (DeleteHeader_reads (chainDb hc) x n Px Pn) as R1. pose proof (DeleteTd_reads (DeleteHeader (chainDb hc) x n) x n Px Pn) as R2.
  fold db in R2. split; [|intros m Pm; by rewrite (rd_canonical _ _ _ _ _ _ R2), (rd_canonical _ _ _ _ _ _ R1) by done].
  split; [|done]. cbn [chainDb set_db]. split; intros; [| | |done|].
  - rewrite (rd_header _ _ _ _ _ _ R2), (rd_header _ _ _ _ _ _ R1) by done. unfold update2. rewrite (rd_header _ _ _ _ _ _ R) by done.
    by apply (tree_delete (fun h _ => h) T' x h td).
  - rewrite (rd_td _ _ _ _ _ _ R2) by done. unfold update2. rewrite (rd_td _ _ _ _ _ _ R1), (rd_td _ _ _ _ _ _ R) by done.
    by apply (tree_delete (fun _ td => td) T' x h td).
  - rewrite (rd_number _ _ _ _ _ _ R2), (rd_number _ _ _ _ _ _ R1) by done. unfold update1, tree_number.
    rewrite (rd_number _ _ _ _ _ _ R) by done. case_decide as E; [subst; by rewrite lookup_delete_eq|].
    unfold tree_number. by rewrite lookup_delete_ne.
  - rewrite (rd_present _ _ _ _ _ _ R2), (rd_present _ _ _ _ _ _ R1) by done. unfold update2.
    rewrite (rd_present _ _ _ _ _ _ R) by done. unfold tree_has, tree_header.
    rewrite <-(tree_delete (fun h _ => h) T' x h td n) by done. case_decide; [|done]. symmetry. apply bool_decide_eq_false. by intros [? ?].
Qed.

Lemma rewinding_GetHeader hc T T' x h td n : known T -> T' ⊆ T -> T' !! x = Some (h, td) -> Number h = Some n -> rewinding hc T T' ->
  exists hc', hc_GetHeader hc x n = (Some h, hc') /\ same hc hc' /\ rewinding hc' T T'.
Proof.
  intros K Hsub Hx Hn [R Hc]. pose proof (lookup_weaken _ _ _ _ Hx Hsub) as HxT. destruct (known_place T K x h td n HxT Hn) as [Px Pn].
  unfold hc_GetHeader. pose proof (lru_Get_peek (headerCache hc) x) as Hp. pose proof (cache_Get _ _ x Hc) as Hg.
  destruct (lru_Get (headerCache hc) x) as [r c]. cbn [fst snd] in *. destruct r as [h'|].
  - symmetry in Hp. apply Hc in Hp as [td' Hp]. assert (h' = h) as -> by congruence.
    eexists. split; [reflexivity|]. split; [by repeat split|]. by constructor.
  - cbn [chainDb set_headerCache]. rewrite (rd_header _ _ _ _ _ _ R) by done. rewrite (tree_header_at T' _ _ _ _ Hx Hn).
    eexists. split; [reflexivity|]. split; [by repeat split|]. constructor; [done|].
    apply cache_Add; [done|]. by exists td.
Qed.

Section Loop.
Context (T : tree) (g : Hash) (K : known T) (Ln : linked T g) (k : Z) (Hk : 0 <= k).

(** The branch of a header is the header and the branch of its parent. *)
Lemma branch_step x h td m n z : T !! x = Some (h, td) -> Number h = Some m -> m <> 0 ->
  branch T x n z <-> (n = m /\ z = x) \/ branch T (ParentHash h) n z.
Proof.
  intros Hx Hm H0. split.
  - intros Hb. inversion Hb as [x' h' td' m' Hx' Hm'|x' h' td' m' y' Hx' Hm' Hb']; subst; rewrite Hx in Hx'; injection Hx' as <- <-.
    + left. split; [congruence|done].
    + by right.
  - intros [ [-> ->]|Hb]; [by econstructor|]. econstructor; [done|congruence|done].
Qed.

Lemma rewind_ok m : forall fuel hc T' x c td, (m < fuel)%nat -> T !! x = Some (c, td) -> Number c = Some (k + Z.of_nat m) ->
  currentHeader hc = Some c -> T' ⊆ T -> (forall n y, branch T x n y -> T' !! y = T !! y) -> rewinding hc T T' ->
  exists hc' T'' y cy ctd, rewind fuel hc k = Ok hc' /\ branch T x k y /\ T !! y = Some (cy, ctd) /\ currentHeader hc' = Some cy /\
    genesisHeader hc' = genesisHeader hc /\ rewinding hc' T T'' /\
    (forall j, is_number j -> GetCanonicalHash (chainDb hc') j = GetCanonicalHash (chainDb hc) j) /\
    T'' ⊆ T' /\ (forall z, T'' !! z = None <-> T' !! z = None \/ exists n, k < n /\ branch T x n z).
Proof.
  induction m as [|m IH]; intros [|fuel] hc T' x c td Hf Hx Hn Ec Hsub Hbr Rw; try lia; cbn [rewind]; rewrite Ec;
    destruct (known_place T K _ _ _ _ Hx Hn) as [Px Pn]; rewrite Hn, or_panic_bind; rewrite !big_Uint64_number by done.
  - rewrite (proj2 (Z.leb_le _ _)) by lia. exists hc, T', x, c, td. rewrite Z.add_0_r in Hn.
    split; [done|]. split; [by econstructor|]. split_and!; try done. intros z. split; [by left|]. intros [?|(n & Hn' & Hb)]; [done|].
    pose proof (branch_le T g Ln _ _ _ _ _ _ Hb Hx Hn). lia.
  - rewrite (proj2 (Z.leb_gt _ _)) by lia. rewrite (proj1 (kn_hash T K _ _ _ Hx)), or_panic_bind.
    rewrite (is_number_u64 (k + Z.of_nat (S m) - 1)) by (unfold is_number in *; lia).
    destruct (parent_of T g Ln _ _ _ _ Hx Hn) as (p & ptd & Hp & Hpn); [lia|].
    assert (T' !! x = Some (c, td)) as Hx' by (rewrite (Hbr _ _ (branch_here T _ _ _ _ Hx Hn)); done).
    destruct (rewinding_delete hc T T' x c td _ K Hsub Hx' Hn Rw) as [Rw1 Hcn].
    set (hc1 := set_db hc _) in *.
    assert (forall n y, branch T (ParentHash c) n y -> y <> x) as Hne.
    { intros n y Hb ->. pose proof (branch_le T g Ln _ _ _ _ _ _ Hb Hp Hpn). destruct (branch_end _ _ _ _ Hb) as (c' & td' & Hc' & Hn').
      rewrite Hx in Hc'. injection Hc' as <- <-. rewrite Hn in Hn'. injection Hn' as <-. lia. }
    assert (forall n y, branch T (ParentHash c) n y -> delete x T' !! y = T !! y) as Hbr1.
    { intros n y Hb. rewrite lookup_delete_ne by (symmetry; by eapply Hne). apply (Hbr n). eapply (branch_step x); [done|done|lia|by right]. }
    assert (delete x T' ⊆ T) as Hsub1 by (etrans; [apply delete_subseteq|done]).
    assert (delete x T' !! ParentHash c = Some (p, ptd)) as Hp' by (rewrite (Hbr1 _ _ (branch_here T _ _ _ _ Hp Hpn)); done).
    destruct (rewinding_GetHeader hc1 T (delete x T') _ p ptd _ K Hsub1 Hp' Hpn Rw1) as (hc2 & -> & (Ed2 & Eg2 & _ & _) & [R2 C2]).
    destruct (IH fuel (set_current hc2 (currentHeaderHash hc2) (Some p)) (delete x T') _ p ptd ltac:(lia) Hp)
      as (hc' & T'' & y & cy & ctd & E & Hy & Ey & Ecy & Eg & Rw' & Hcn' & Hsub' & Hiff); [rewrite Hpn; f_equal; lia|done|done|done|by constructor|].
    exists hc', T'', y, cy, ctd. split; [done|]. split; [eapply (branch_step x); [done|done|lia|by right]|]. split; [done|]. split; [done|].
    split; [by rewrite Eg; cbn [genesisHeader set_current]; rewrite Eg2|]. split; [done|]. split.
    { intros j Pj. rewrite Hcn' by done. cbn [chainDb set_current]. rewrite Ed2. by apply Hcn. }
    split; [etrans; [done|apply delete_subseteq]|]. intros z. rewrite Hiff, lookup_delete_None. split.
    + intros [ [<-|Hz]|(n & Hkn & Hb)]; [right|by left|right].
      * exists (k + Z.of_nat (S m)). split; [lia|]. by econstructor.
      * exists n. split; [done|]. eapply (branch_step x); [done|done|lia|by right].
    + intros [Hz|(n & Hkn & Hb)]; [left; by right|]. apply (branch_step x c td _ n z Hx Hn) in Hb as [ [_ ->]|Hb]; [left; by left| |lia].
      right. by exists n.
Qed.
End Loop.

(** A header that is on the branch at or below [k] is not cut. *)
Lemma cut_keeps (T : tree) x k T' y h td n : cut T x k T' -> T !! y = Some (h, td) -> Number h = Some n -> n <= k -> T' !! y = Some (h, td).
Proof.
  intros [Hsub Hiff] Hy Hn Hk. destruct (T' !! y) as [v|] eqn:E; [by rewrite <-Hy; symmetry; eapply lookup_weaken|].
  apply Hiff in E as [E|(m & Hm & Hb)]; [congruence|]. destruct (branch_end _ _ _ _ Hb) as (h' & td' & Hy' & Hn').
  rewrite Hy in Hy'. injection Hy' as <- <-. rewrite Hn in Hn'. injection Hn' as <-. lia.
Qed.

Lemma known_subseteq T T' : known T -> T' ⊆ T -> known T'.
Proof. intros [] Hsub. split; eauto using lookup_weaken. Qed.

(** Cutting a tree that is one branch leaves a branch. *)
Lemma cut_linked T g x k T' : known T -> linked T g -> cut T x k T' -> 0 <= k ->
  (forall y h td, T !! y = Some (h, td) -> exists n, branch T x n y) -> linked T' g.
Proof.
  intros K Ln Hcut Hk Hone. pose proof Hcut as [Hsub Hiff]. split.
  - destruct (ln_genesis T g Ln) as (h & td & Hg & H0). exists h, td. split; [by eapply cut_keeps|done].
  - intros y h td Hy Hne. pose proof (lookup_weaken _ _ _ _ Hy Hsub) as HyT.
    destruct (ln_parent T g Ln _ _ _ HyT Hne) as (p & ptd & n & d & Hp & Hpn & Hn & Hd & Htd). exists p, ptd, n, d.
    split; [|done]. eapply cut_keeps; [done|done|done|].
    destruct (Hone _ _ _ HyT) as [m Hb]. destruct (branch_end _ _ _ _ Hb) as (h' & td' & Hy' & Hm). rewrite HyT in Hy'. injection Hy' as <- <-.
    rewrite Hn in Hm. injection Hm as <-. destruct (Z.le_gt_cases (n + 1) k); [lia|].
    assert (T' !! y = None) as E; [|congruence]. apply Hiff. right. by exists (n + 1).
Qed.

(** [SetHead] rewinds the chain to the header of number [k] on the
    canonical branch: it becomes the head, the numbers above it are free again
    and those below keep their headers; exactly the headers of the branch above
    it are deleted from the database and no cache holds one of them.  If there
    are no other branches, the chain represents the remaining tree. *)
Lemma SetHead_ok hc T g head c ctd n k : represents hc T g head -> T !! head = Some (c, ctd) -> Number c = Some n -> 0 <= k <= n ->
  exists hc' T' y cy td, SetHead hc k = Ok hc' /\ branch T head k y /\ T' !! y = Some (cy, td) /\
    currentHeader hc' = Some cy /\ currentHeaderHash hc' = y /\ cut T head k T' /\ stores hc' T' /\ canonical (chainDb hc') T y k /\
    ((forall z h htd, T !! z = Some (h, htd) -> exists m, branch T head m z) -> represents hc' T' g y).
Proof.
  intros [K Ln [R Hc _ _] (hg & tdg & Hg & Eg) (c' & ctd' & n' & Hh & Hn' & Ec & Hcan) _] Hhd Hn Hk.
  rewrite Hhd in Hh. injection Hh as <- <-. rewrite Hn in Hn'. injection Hn' as <-.
  destruct (known_place T K _ _ _ _ Hhd Hn) as [Px Pn]. unfold SetHead. rewrite Ec, Hn, or_panic_bind, ok_bind, big_Uint64_number by done.
  destruct (rewind_ok T g K Ln k ltac:(lia) (Z.to_nat (n - k)) (S (S (Z.to_nat n))) hc T head c ctd)
    as (hc1 & T' & y & cy & td & -> & Hy & Ey & Ecy & Eg1 & [R1 C1] & Hcn1 & Hsub & Hiff); try done; [lia|rewrite Hn; f_equal; lia|].
  assert (cut T head k T') as Hcut by done.
  rewrite ok_bind, Ecy, or_panic_bind. destruct (branch_end _ _ _ _ Hy) as (cy' & td' & Ey' & Hky). rewrite Ey in Ey'. injection Ey' as <- <-.
  destruct (kn_hash T K _ _ _ Ey) as [Hhy _]. rewrite Hhy, or_panic_bind.
  pose proof (delete_numbers_reads (Z.to_nat (n - k)) n (chainDb hc1) ltac:(lia) ltac:(unfold is_number in Pn; lia)) as R2.
  rewrite Z2Nat.id in R2 by lia. set (db2 := delete_numbers _ _ _) in *. pose proof (WriteHeadHeaderHash_reads db2 y) as R3.
  eexists _, T', y, cy, td. split; [reflexivity|]. split; [done|]. assert (T' !! y = Some (cy, td)) as Ey'' by (eapply cut_keeps; [done..|lia]).
  split; [done|]. split; [done|]. split; [done|]. split; [done|].
  assert (forall m, is_number m -> GetCanonicalHash (WriteHeadHeaderHash db2 y) m =
    if decide (k < m <= n) then zeroHash else GetCanonicalHash (chainDb hc) m) as Hcn.
  { intros m Pm. rewrite (rd_canonical _ _ _ _ _ _ R3), (rd_canonical _ _ _ _ _ _ R2), Hcn1 by done.
    replace (n - (n - k)) with k by lia. done. }
  match goal with |- stores ?hc' _ /\ _ => assert (stores hc' T') as St end.
  { split; [|apply cache_Purge..]. cbn [chainDb]. eapply reads_canonical; [eapply reads_renumbered; [|exact R3]; by eapply reads_renumbered|].
    intros m Pm. cbn beta. by rewrite (rd_canonical _ _ _ _ _ _ R3). }
  assert (canonical (WriteHeadHeaderHash db2 y) T y k) as Hcan'.
  { split.
    - intros m z Hb. rewrite Hcn by (by eapply (branch_number T K)). pose proof (branch_le T g Ln _ _ _ _ _ _ Hb Ey Hky).
      rewrite decide_False by lia. apply (ca_branch _ _ _ _ Hcan). by eapply branch_trans.
    - intros m Hm. rewrite Hcn by (unfold is_number; lia). case_decide; [done|]. apply (ca_above _ _ _ _ Hcan). lia. }
  split; [exact St|]. split; [exact Hcan'|]. intros Hone. pose proof (cut_linked T g head k T' K Ln Hcut ltac:(lia) Hone) as Ln'.
  constructor; [by eapply known_subseteq|done|exact St| | |done].
  - destruct (ln_genesis T' g Ln') as (h0 & td0 & Hg0 & _). exists h0, td0. split; [done|]. cbn [genesisHeader].
    rewrite Eg1, Eg. pose proof (lookup_weaken _ _ _ _ Hg0 Hsub). congruence.
  - exists cy, td, k. split; [done|]. split; [done|]. split; [done|]. destruct Hcan' as [Hb Ha]. split; [|done].
    intros m z Hz. apply Hb. by eapply branch_mono.
Qed.

(** The walk to the canonical chain meets a header whose parent is gone. *)
Lemma reroute_orphan T hc fuel b hb tdb m : known T -> stores hc T -> T !! b = Some (hb, tdb) -> Number hb = Some (m + 1) -> 0 <= m ->
  T !! ParentHash hb = None -> ParentHash hb <> zeroHash ->
  GetCanonicalHash (chainDb hc) (m + 1) = zeroHash -> GetCanonicalHash (chainDb hc) m = zeroHash ->
  reroute (S (S fuel)) hc b (m + 1) (Some hb) = Panic.
Proof.
  intros K St Hb Hn Hm Hp Hz H1 H2. destruct (known_place T K _ _ _ _ Hb Hn) as [Pb Pn]. destruct (kn_hash T K _ _ _ Hb) as [_ Hbz].
  cbn [reroute]. rewrite H1, decide_False by (by apply not_eq_sym). rewrite or_panic_bind, Hn, or_panic_bind, big_Uint64_number by done.
  rewrite is_number_u64 by (unfold is_number in *; lia). replace (m + 1 - 1) with m by lia.
  set (hc1 := set_db hc _). assert (stores hc1 T) as S1 by (eapply stores_set_db; [done|by apply WriteCanonicalHash_reads]).
  assert (is_hash (ParentHash hb)) as Ph by apply (kn_storable T K _ _ _ Hb).
  destruct (GetHeader_unknown T hc1 (ParentHash hb) m S1 Hp Ph) as (hc2 & -> & (Ed & _) & _); [unfold is_number in *; lia|].
  rewrite Ed. unfold hc1. cbn [chainDb set_db]. rewrite WriteCanonicalHash_other by (done || (unfold is_number in *; lia)).
  rewrite H2, decide_False by (by apply not_eq_sym). done.
Qed.

Lemma extend_orphan T hc h x hb tdb m : known T -> stores hc T -> T !! ParentHash h = Some (hb, tdb) -> Number hb = Some (m + 1) -> 0 <= m ->
  m + 3 < 2 ^ 64 -> T !! ParentHash hb = None -> ParentHash hb <> zeroHash ->
  (forall n, m <= n < 2 ^ 64 -> GetCanonicalHash (chainDb hc) n = zeroHash) -> extend_canonical hc h x (m + 2) = Panic.
Proof.
  intros K St Hb Hn Hm H64 Hp Hz Hfree. unfold extend_canonical. cbn [delete_above].
  rewrite (is_number_u64 (m + 2 + 1)) by (unfold is_number; lia). rewrite (Hfree (m + 2 + 1)) by lia. rewrite decide_True by done. rewrite ok_bind.
  rewrite (is_number_u64 (m + 2 - 1)) by (unfold is_number; lia). replace (m + 2 - 1) with (m + 1) by lia.
  assert (stores (set_db hc (chainDb hc)) T) as S1 by (destruct St; by constructor).
  destruct (GetHeader_known T K (set_db hc (chainDb hc)) _ _ _ _ S1 Hb Hn) as (hc2 & -> & (Ed & _) & S2).
  replace (Z.to_nat (m + 2)) with (S (Z.to_nat (m + 1))) by lia.
  erewrite reroute_orphan; [done|exact K|exact S2|done..| |]; rewrite Ed; apply Hfree; lia.
Qed.

(** C39: rewinding leaves the headers of other branches behind, and the next one
    of them is fatal.  Let [b] be a known header beside the canonical branch
    whose parent, of number [j], is on it.  After [SetHead] to a number below
    [j] the parent is deleted and [b] is not; writing a header on top of [b]
    that outweighs the new head follows the parents of [b] into a nil pointer. *)
Theorem SetHead_strands hc T g head c ctd n k b hb tdb j : represents hc T g head -> T !! head = Some (c, ctd) -> Number c = Some n ->
  0 <= k <= n -> T !! b = Some (hb, tdb) -> (forall m, ~ branch T head m b) -> k < j -> branch T head j (ParentHash hb) ->
  exists hc', SetHead hc k = Ok hc' /\ forall coin h x d, follows T h x (j + 2) d tdb -> T !! x = None -> ParentHash h = b ->
    (forall y cy ytd, branch T head k y -> T !! y = Some (cy, ytd) -> ytd < d + tdb) -> hc_WriteHeader coin hc' h = Panic.
Proof.
  intros Rp Hc Hn Hk Hb Hside Hkj Hpar. pose proof (rp_known _ _ _ _ Rp) as K. pose proof (rp_linked _ _ _ _ Rp) as Ln.
  destruct (SetHead_ok hc T g head c ctd n k Rp Hc Hn Hk) as (hc' & T' & y & cy & ytd & E & Hy & Ey & Ec & Eh & Hcut & St & Hcan & _).
  exists hc'. split; [done|]. intros coin h x d F Hx Hph Htd. pose proof Hcut as [Hsub Hiff].
  pose proof (known_subseteq T T' K Hsub) as K'.
  destruct (branch_end _ _ _ _ Hpar) as (ha & tda & Ha & Hj). destruct (branch_number T K _ _ _ Hpar) as [Hj0 _].
  assert (T' !! b = Some (hb, tdb)) as Hb'.
  { destruct (T' !! b) as [v|] eqn:Eb; [by rewrite <-Hb; symmetry; eapply lookup_weaken|].
    apply Hiff in Eb as [Eb|(m & _ & Hm)]; [congruence|]. by apply Hside in Hm. }
  assert (T' !! ParentHash hb = None) as Ha' by (apply Hiff; right; by exists j).
  destruct F as [Hs [Hh Hz] [Hnum Hr] (p & Hp & Hpn) [Hd Hd0] ]. rewrite Hph, Hb in Hp. injection Hp as <-.
  replace (j + 2 - 1) with (j + 1) in Hpn by lia.
  assert (follows T' h x (j + 2) d tdb) as F'.
  { constructor; [done|done|done| |done]. exists hb. rewrite Hph. split; [done|]. by replace (j + 2 - 1) with (j + 1) by lia. }
  assert (T' !! x = None) as Hx' by (apply Hiff; by left).
  destruct (branch_end _ _ _ _ Hy) as (cy' & ytd' & Ey' & Hky). pose proof (lookup_weaken _ _ _ _ Ey Hsub) as EyT.
  rewrite EyT in Ey'. injection Ey' as <- <-. specialize (Htd _ _ _ Hy EyT).
  unfold hc_WriteHeader. rewrite Hh, or_panic_bind, Hnum, or_panic_bind. rewrite (big_Uint64_number (j + 2)) by (unfold is_number; lia).
  rewrite is_number_u64 by (unfold is_number; lia). replace (j + 2 - 1) with (j + 1) by lia. rewrite Hph.
  destruct (GetTd_known T' K' hc' _ _ _ _ St Hb' Hpn) as (hc1 & -> & (Ed1 & _ & Ec1 & Eh1) & S1).
  rewrite Ec1, Ec, or_panic_bind, Hky, or_panic_bind, (big_Uint64_number k), Eh1, Eh by (unfold is_number; lia).
  destruct (GetTd_known T' K' hc1 _ _ _ _ S1 Ey Hky) as (hc2 & -> & (Ed2 & _) & S2). rewrite Hd, or_panic_bind.
  destruct (insert_stores T' K' h x (j + 2) d tdb F' Hx' hc2 S2) as (hc3 & db & E3 & E4 & S4 & _ & Hcn).
  unfold crit. rewrite E3, or_panic_bind, guard_err_pass, ok_bind, E4, or_panic_bind, guard_err_pass, ok_bind, or_panic_bind.
  rewrite (proj2 (Z.ltb_lt ytd (d + tdb))) by done. cbn [orb].
  erewrite (extend_orphan _ (set_db hc3 db) h x hb tdb j); [done|by apply (insert_known T' K' h x (j + 2) d tdb)|exact S4| |done|lia|lia| | |].
  - rewrite Hph, lookup_insert_ne by congruence. done.
  - rewrite lookup_insert_ne; [done|]. intros ->. rewrite Ha in Hx. done.
  - apply (kn_hash T K _ _ _ Ha).
  - intros m Hm. cbn [chainDb set_db]. rewrite Hcn by (unfold is_number; lia). rewrite Ed2, Ed1. apply (ca_above _ _ _ _ Hcan). lia.
Qed.
End Rewind.

(** ** Opening a database *)

Section Open.
Context {AS : AddressSize} {L : LRU} {LL : LRULaws L}.

Lemma GetBlockNumber_known hc T x h td n : known T -> stores hc T -> T !! x = Some (h, td) -> Number h = Some n ->
  exists hc', hc_GetBlockNumber hc x = (n, hc') /\ same hc hc' /\ stores hc' T.
Proof.
  intros K [R Hc Ht Hn'] Hx Hn. pose proof (known_is_hash T x h td K Hx) as Px. destruct (kn_number T K _ _ _ Hx) as (m & Hm & Hr).
  rewrite Hn in Hm. injection Hm as <-.
  unfold hc_GetBlockNumber. pose proof (lru_Get_peek (numberCache hc) x) as Hp. pose proof (cache_Get _ _ x Hn') as Hg.
  destruct (lru_Get (numberCache hc) x) as [r c]. cbn [fst snd] in *. destruct r as [n'|].
  - symmetry in Hp. apply Hn' in Hp as (h' & td' & Hp & Hpn). assert (n' = n) as -> by congruence.
    eexists. split; [reflexivity|]. split; [by repeat split|]. by constructor.
  - cbn [chainDb set_numberCache]. rewrite (rd_number _ _ _ _ _ _ R) by done. unfold tree_number. rewrite Hx, Hn. cbn [default from_option id].
    rewrite (proj2 (Z.eqb_neq n missingNumber)) by (unfold missingNumber; lia).
    eexists. split; [reflexivity|]. split; [by repeat split|]. constructor; try done. apply cache_Add; [done|]. by exists h, td.
Qed.

(** A database that holds a tree, the canonical branch of a header and that
    header as the head block is opened as the chain with this head. *)
Lemma NewHeaderChain_restores db T g head c ctd k : known T -> linked T g ->
  reads db (tree_header T) (tree_td T) (tree_number T) (GetCanonicalHash db) (tree_has T) ->
  T !! head = Some (c, ctd) -> Number c = Some k -> canonical db T head k -> GetHeadBlockHash db = head ->
  exists hc, NewHeaderChain db = Some (inr hc) /\ chainDb hc = db /\ represents hc T g head.
Proof.
  intros K Ln R Hc Hk Hcan Hhd. destruct (ln_genesis T g Ln) as (hg & tdg & Hg & Hg0).
  destruct (kn_hash T K _ _ _ Hg) as [_ Hgz]. destruct (kn_hash T K _ _ _ Hc) as [Hch Hcz].
  set (hc0 := mkHeaderChain db None None [] (lru_New headerCacheLimit) (lru_New tdCacheLimit) (lru_New numberCacheLimit)).
  assert (stores hc0 T) as S0 by (split; [exact R|..]; intros x a; cbn [headerCache tdCache numberCache hc0]; by rewrite lru_New_peek).
  unfold NewHeaderChain. fold hc0. unfold hc_GetHeaderByNumber. cbn [chainDb hc0].
  rewrite (ca_branch _ _ _ _ Hcan 0 g) by (by eapply branch_genesis). rewrite decide_False by done.
  destruct (GetHeader_known T K hc0 _ _ _ _ S0 Hg Hg0) as (hc1 & -> & (Ed1 & _) & S1).
  rewrite Hhd, decide_False by done. unfold hc_GetHeaderByHash.
  destruct (GetBlockNumber_known hc1 T _ _ _ _ K S1 Hc Hk) as (hc2 & -> & (Ed2 & _) & S2).
  destruct (GetHeader_known T K hc2 _ _ _ _ S2 Hc Hk) as (hc3 & -> & (Ed3 & _) & S3). cbn [default from_option id].
  rewrite Hch, some_bind. eexists. split; [reflexivity|].
  assert (chainDb hc3 = db) as Ed by (rewrite Ed3, Ed2, Ed1; done). split; [done|].
  constructor; [done|done| | | |done].
  - destruct S3. by constructor.
  - by exists hg, tdg.
  - exists c, ctd, k. cbn [chainDb]. rewrite Ed. done.
Qed.
End Open.

(** ** Walking towards the genesis *)

Section Walk.
Context {AS : AddressSize} {L : LRU} {LL : LRULaws L}.
Context (T : tree) (g : Hash) (K : known T) (Ln : linked T g).
Context (Hroot : forall h td, T !! g = Some (h, td) -> ParentHash h = zeroHash).

Lemma zero_unknown : T !! zeroHash = None.
Proof. destruct (T !! zeroHash) as [ [h td] |] eqn:E; [|done]. by destruct (kn_hash T K _ _ _ E). Qed.

Lemma hashes_loop_ok max : forall hc x h td n, stores hc T -> T !! x = Some (h, td) -> Number h = Some n ->
  exists l hc', hashes_loop max hc h = Some (l, hc') /\ stores hc' T /\ same hc hc' /\ length l = Nat.min max (Z.to_nat n) /\
    forall i y, l !! i = Some y -> branch T x (n - 1 - Z.of_nat i) y.
Proof.
  induction max as [|max IH]; intros hc x h td n St Hx Hn.
  { exists [], hc. split; [done|]. split; [done|]. split; [by repeat split|]. by split. }
  destruct (kn_number T K _ _ _ Hx) as (n' & Hn' & Hr). rewrite Hn in Hn'. injection Hn' as <-.
  cbn [hashes_loop]. rewrite Hn, some_bind, big_Uint64_number by (unfold is_number; lia). destruct (decide (n = 0)) as [->|H0].
  - rewrite (zero_is_genesis T g K Ln _ _ _ Hx Hn) in Hx. rewrite (Hroot _ _ Hx).
    destruct (GetHeader_unknown T hc zeroHash (u64 (0 - 1)) St zero_unknown) as (hc1 & -> & Hsm & S1);
      [reflexivity|unfold is_number, u64; apply Z.mod_pos_bound; lia|].
    exists [], hc1. split; [done|]. split; [done|]. split; [done|]. by split.
  - destruct (parent_of T g Ln _ _ _ _ Hx Hn H0) as (p & ptd & Hp & Hpn). rewrite is_number_u64 by (unfold is_number; lia).
    destruct (GetHeader_known T K hc _ _ _ _ St Hp Hpn) as (hc1 & -> & Hsm & S1). rewrite Hpn, some_bind.
    assert (branch T x (n - 1) (ParentHash h)) as Hb.
    { eapply branch_up; [done|congruence|]. by eapply branch_here. }
    destruct (Z.eqb_spec (n - 1) 0) as [E0|Hne].
    + exists [ParentHash h], hc1. split; [done|]. split; [done|]. split; [done|]. split; [cbn [length]; lia|].
      intros [|i] y; [|done]. intros [= <-]. by rewrite Z.sub_0_r.
    + destruct (IH hc1 _ _ _ _ S1 Hp Hpn) as (l & hc2 & -> & S2 & Hsm2 & Hl & Hi). rewrite some_bind. cbn beta iota.
      exists (ParentHash h :: l), hc2. split; [done|]. split; [done|]. split.
      { destruct Hsm as (? & ? & ? & ?), Hsm2 as (? & ? & ? & ?). unfold same. split_and!; congruence. }
      split; [cbn [length]; lia|]. intros [|i] y; [intros [= <-]; by rewrite Z.sub_0_r|].
      change ((ParentHash h :: l) !! S i) with (l !! i). intros Hy%Hi. replace (n - 1 - Z.of_nat (S i)) with (n - 1 - 1 - Z.of_nat i) by lia. eapply branch_trans; [exact Hb|exact Hy].
Qed.

(** [GetBlockHashesFromHash] returns the hashes below a known header on its
    branch, as many as were asked for or down to the genesis. *)
Lemma GetBlockHashesFromHash_ok max hc x h td n : stores hc T -> T !! x = Some (h, td) -> Number h = Some n ->
  exists l hc', GetBlockHashesFromHash hc x max = Some (l, hc') /\ stores hc' T /\ length l = Nat.min max (Z.to_nat n) /\
    forall i y, l !! i = Some y -> branch T x (n - 1 - Z.of_nat i) y.
Proof.
  intros St Hx Hn. unfold GetBlockHashesFromHash, hc_GetHeaderByHash.
  destruct (GetBlockNumber_known hc T _ _ _ _ K St Hx Hn) as (hc1 & -> & _ & S1).
  destruct (GetHeader_known T K hc1 _ _ _ _ S1 Hx Hn) as (hc2 & -> & _ & S2).
  destruct (hashes_loop_ok max hc2 x h td n S2 Hx Hn) as (l & hc' & E & S' & _ & Hl & Hi). by exists l, hc'.
Qed.

(** Below a header on the branch, the branch is the one of that header. *)
Lemma branch_below x n y i z : branch T x n y -> i <= n -> branch T x i z -> branch T y i z.
Proof.
  intros Hy Hi Hz. destruct (branch_end _ _ _ _ Hy) as (h & td & Ey & Hn). destruct (branch_number T K _ _ _ Hz) as [H0 _].
  destruct (branch_total T g Ln y h td n i Ey Hn) as [z' Hz']; [lia|].
  by rewrite (branch_det T g Ln _ _ _ _ Hz (branch_trans _ _ _ _ _ _ Hy Hz')).
Qed.

Section Ancestor.
Context (db : KV) (R : reads db (tree_header T) (tree_td T) (tree_number T) (GetCanonicalHash db) (tree_has T)).

Lemma db_parent_ok x h td n : T !! x = Some (h, td) -> Number h = Some n -> n <> 0 ->
  exists p ptd, db_parent db h = Some (Some p) /\ T !! ParentHash h = Some (p, ptd) /\ Number p = Some (n - 1).
Proof.
  intros Hx Hn H0. destruct (parent_of T g Ln _ _ _ _ Hx Hn H0) as (p & ptd & Hp & Hpn). exists p, ptd. split; [|done].
  destruct (known_place T K _ _ _ _ Hx Hn) as [_ Pn]. destruct (known_place T K _ _ _ _ Hp Hpn) as [Pp Pn1].
  unfold db_parent. rewrite Hn, some_bind, big_Uint64_number, is_number_u64 by done.
  rewrite (rd_header _ _ _ _ _ _ R) by done. f_equal. by eapply tree_header_at.
Qed.

Lemma lower_ok m fuel : forall x h td n, T !! x = Some (h, td) -> Number h = Some n -> 0 <= m -> (Z.to_nat (n - m) < fuel)%nat ->
  exists y k ktd, lower fuel db h m = Some (Some k) /\ T !! y = Some (k, ktd) /\ Number k = Some (Z.min n m) /\ branch T x (Z.min n m) y.
Proof.
  induction fuel as [|fuel IH]; intros x h td n Hx Hn Hm Hf; [lia|]. destruct (known_place T K _ _ _ _ Hx Hn) as [_ Pn].
  cbn [lower]. rewrite Hn, some_bind, big_Uint64_number by done. destruct (Z.ltb_spec m n) as [Hlt|Hge].
  - destruct (db_parent_ok x h td n Hx Hn) as (p & ptd & -> & Hp & Hpn); [lia|]. rewrite some_bind. cbn beta iota.
    destruct (IH _ _ _ _ Hp Hpn Hm) as (y & k & ktd & E & Hy & Hk & Hb); [lia|]. exists y, k, ktd.
    replace (Z.min (n - 1) m) with (Z.min n m) in * by lia. split_and!; try done. eapply branch_up; [done| |done]. rewrite Hn. intros [= ->]. lia.
  - exists x, h, td. replace (Z.min n m) with n by lia. split_and!; try done. by eapply branch_here.
Qed.

(** [c] is the last header that two branches share. *)
Definition fork_point (x y c : Hash) (n : Z) : Prop := branch T x n c /\ branch T y n c /\
  forall m z, branch T x m z -> branch T y m z -> m <= n.

Lemma meet_ok n : forall fuel x y h k td ktd, (n < fuel)%nat -> T !! x = Some (h, td) -> Number h = Some (Z.of_nat n) ->
  T !! y = Some (k, ktd) -> Number k = Some (Z.of_nat n) ->
  exists z c ctd m, meet fuel db h k = Some (Some c) /\ T !! z = Some (c, ctd) /\ fork_point x y z m.
Proof.
  induction n as [|n IH]; intros [|fuel] x y h k td ktd Hf Hx Hn Hy Hk; try lia; cbn [meet];
    rewrite (proj1 (kn_hash T K _ _ _ Hx)), (proj1 (kn_hash T K _ _ _ Hy)), !some_bind.
  - pose proof (zero_is_genesis T g K Ln _ _ _ Hx Hn) as Ex. pose proof (zero_is_genesis T g K Ln _ _ _ Hy Hk) as Ey.
    rewrite Ex, Ey in *. rewrite decide_True by done.
    exists g, h, td, 0. split; [done|]. split; [done|]. split; [by eapply branch_here|]. split; [by eapply branch_here|].
    intros m z Hb _. by eapply (branch_le T g Ln).
  - case_decide as E.
    + subst. exists y, h, td, (Z.of_nat (S n)). split; [done|]. split; [done|]. split; [by eapply branch_here|]. split; [by eapply branch_here|].
      intros m z Hb _. by eapply (branch_le T g Ln).
    + destruct (db_parent_ok x h td _ Hx Hn) as (p & ptd & -> & Hp & Hpn); [lia|].
      destruct (db_parent_ok y k ktd _ Hy Hk) as (q & qtd & -> & Hq & Hqn); [lia|]. rewrite !some_bind. cbn beta iota.
      replace (Z.of_nat (S n) - 1) with (Z.of_nat n) in * by lia.
      destruct (IH fuel _ _ _ _ _ _ ltac:(lia) Hp Hpn Hq Hqn) as (z & c & ctd & m & Em & Hz & Hb1 & Hb2 & Hmax).
      exists z, c, ctd, m. split; [done|]. split; [done|].
      assert (forall l w, branch T x l w <-> (l = Z.of_nat (S n) /\ w = x) \/ branch T (ParentHash h) l w) as Bx by (intros; eapply branch_step; [done..|lia]).
      assert (forall l w, branch T y l w <-> (l = Z.of_nat (S n) /\ w = y) \/ branch T (ParentHash k) l w) as By by (intros; eapply branch_step; [done..|lia]).
      split; [apply Bx; by right|]. split; [apply By; by right|]. intros l w [ [-> ->]|H1]%Bx [ [H2 ?]|H2]%By; [done| | |by eapply Hmax].
      * pose proof (branch_le T g Ln _ _ _ _ _ _ H2 Hq Hqn). lia.
      * subst. pose proof (branch_le T g Ln _ _ _ _ _ _ H1 Hp Hpn). lia.
Qed.

(** [FindCommonAncestor] finds the header where two branches part. *)
Lemma FindCommonAncestor_ok fuel x y h k td ktd n m : T !! x = Some (h, td) -> Number h = Some n -> T !! y = Some (k, ktd) ->
  Number k = Some m -> (Z.to_nat n < fuel)%nat -> (Z.to_nat m < fuel)%nat ->
  exists z c ctd l, FindCommonAncestor fuel db h k = Some (Some c) /\ T !! z = Some (c, ctd) /\ fork_point x y z l.
Proof.
  intros Hx Hn Hy Hm Hf1 Hf2. destruct (known_place T K _ _ _ _ Hx Hn) as [_ [Pn _] ]. destruct (known_place T K _ _ _ _ Hy Hm) as [_ Pm].
  unfold FindCommonAncestor. rewrite Hm, some_bind, big_Uint64_number by done. destruct Pm as [Pm0 Pm1].
  destruct (lower_ok m fuel x h td n Hx Hn Pm0) as (x' & h' & td' & -> & Hx' & Hn' & Hbx); [lia|]. rewrite some_bind. cbn beta iota.
  destruct (known_place T K _ _ _ _ Hx' Hn') as [_ Pn']. rewrite Hn', some_bind, big_Uint64_number by done.
  destruct (lower_ok (Z.min n m) fuel y k ktd m Hy Hm) as (y' & k' & ktd' & -> & Hy' & Hm' & Hby); [lia|lia|]. rewrite some_bind. cbn beta iota.
  replace (Z.min m (Z.min n m)) with (Z.min n m) in * by lia.
  replace (Z.min n m) with (Z.of_nat (Z.to_nat (Z.min n m))) in Hn', Hm' by lia.
  destruct (meet_ok (Z.to_nat (Z.min n m)) fuel x' y' h' k' td' ktd' ltac:(lia) Hx' Hn' Hy' Hm') as (z & c & ctd & l & E & Hz & Hb1 & Hb2 & Hmax).
  exists z, c, ctd, l. split; [done|]. split; [done|]. split; [by eapply branch_trans|]. split; [by eapply branch_trans|].
  intros i w H1 H2. pose proof (branch_le T g Ln _ _ _ _ _ _ H1 Hx Hn). pose proof (branch_le T g Ln _ _ _ _ _ _ H2 Hy Hm).
  apply (Hmax i w).
  - eapply (branch_below x (Z.min n m)); [done|lia|done].
  - eapply (branch_below y (Z.min n m)); [done|lia|done].
Qed.
End Ancestor.
End Walk.

(** ** The difficulty is anyone's choice *)

Section Difficulty.
Context {AS : AddressSize} {L : LRU} {LL : LRULaws L} {H : Type} `{Hasher H}.

(** C38: the engine accepts a header whatever difficulty it claims, seal
    included, while the head of the chain is the header with the greatest sum
    of difficulties.  So any header that passes verification, given a
    difficulty large enough, becomes the head of the canonical chain as soon as
    it is written, however much work the present head stands for. *)
Theorem difficulty_decides now1 now2 coin hc T g head h p ptd c ctd n seal d :
  represents hc T g head -> heaviest T head -> T !! head = Some (c, ctd) -> T !! ParentHash h = Some (p, ptd) ->
  Dnpoc.verifyHeader now1 now2 h p false seal = Ok tt -> Number h = Some n -> n < 2 ^ 64 - 1 ->
  0 <= d -> ctd < d + ptd < 2 ^ 512 -> storable (set_difficulty h d) ->
  Dnpoc.verifyHeader now1 now2 (set_difficulty h d) p false seal = Ok tt /\
  (clash T [set_difficulty h d] \/ exists hc' x, Header_Hash (set_difficulty h d) = Some x /\
    hc_WriteHeader coin hc (set_difficulty h d) = Ok (CanonStatTy, None, hc') /\ currentHeaderHash hc' = x /\
    represents hc' (<[x := (set_difficulty h d, d + ptd)]> T) g x).
Proof.
  intros Rp Hv Hc Hp Hver Hn Hn64 Hd Htd Hs. split; [exact Hver|].
  pose proof (rp_known _ _ _ _ Rp) as K. destruct (verifyHeader_number _ _ _ _ _ _ Hver) as (m & Hm & Hm').
  rewrite Hn in Hm'. injection Hm' as ->. destruct (kn_number T K _ _ _ Hp) as (m' & Hm' & Hr). rewrite Hm in Hm'. injection Hm' as <-.
  destruct (header_roundtrip _ Hs) as (b & _ & _ & _ & _ & Hh).
  assert (exists x : Hash, keccak256 b = x) as [x Ex] by eauto. rewrite Ex in Hh.
  destruct (decide (x = zeroHash)) as [Hz|Hz]; [left; right; exists (set_difficulty h d); split; [left; by left|by rewrite Hh, Hz]|].
  destruct (T !! x) as [ [h' td'] |] eqn:E.
  - left. destruct (known_or_clash T [set_difficulty h d] (set_difficulty h d) h' x td' K E) as [->|Hb]; [by left|done|done|exfalso|done].
    pose proof (Hv _ _ _ _ _ E Hc) as Hle. pose proof (rp_linked _ _ _ _ Rp) as Ln. destruct (decide (x = g)) as [Eg|Hg].
    + destruct (ln_genesis T g Ln) as (hg & tdg & Hgg & Hg0). rewrite <-Eg, E in Hgg. injection Hgg as <- <-.
      change (Number h = Some 0) in Hg0. rewrite Hn in Hg0. injection Hg0 as Hg0. lia.
    + destruct (ln_parent T g Ln _ _ _ E Hg) as (q & qtd & l & dq & Hq & _ & _ & Edq & ->).
      change (T !! ParentHash h = Some (q, qtd)) in Hq. rewrite Hp in Hq. injection Hq as <- <-. injection Edq as <-. lia.
  - right. assert (follows T (set_difficulty h d) (x) (m + 1) d ptd) as F.
    { constructor; [done|done| | |].
      - split; [done|lia].
      - exists p. split; [done|]. rewrite Hm. f_equal. lia.
      - split; [done|lia]. }
    destruct (WriteHeader_new hc T g head Rp coin _ _ _ _ _ _ _ F E Hc) as (hc' & E' & Rp').
    rewrite (proj2 (Z.ltb_lt ctd (d + ptd))) in E', Rp' by lia. exists hc', (x). split; [done|]. split; [done|].
    split; [apply Rp'|done].
Qed.
End Difficulty.
