(* ===== verification/HeaderSample.v ===== *)
(** * A small header chain

    Instances of the theorems about header chains: a cache that forgets
    nothing, a genesis header, two headers on top of it and one beside them. *)
From S2P Require Import State Prelude Shabal Poc Sha3 Types Rlp RlpStream StateCodec HeaderHash Bitutil Bloom LogIndex Clique.
From S2P Require Import ChainDb HeaderChain HeaderChainInv HeaderSync.
From S2P Require Dnpoc.

#[local] Instance sample_address : AddressSize := 23%nat.

#[local] Instance map_cache : LRU := {|
  lru A := gmap (list Z) A;
  lru_New A _ := ∅;
  lru_Get A c k := (c !! k, c);
  lru_Add A c k v := <[k := v]> c;
  lru_Contains A c k := bool_decide (is_Some (c !! k));
  lru_Purge A c := ∅
|}.

#[local] Instance map_cache_laws : LRULaws map_cache.
Proof.
  refine {| lru_peek A c k := @lookup (list Z) A (gmap (list Z) A) _ k c |}.
  - intros A n k. exact (lookup_empty (M := gmap (list Z)) k).
  - done.
  - done.
  - intros A c k v k' x Hx. apply (lookup_insert_Some (M := gmap (list Z)) c k k' v x) in Hx as [ [<- <-]|[? ?] ]; [by left|right; auto].
  - intros A c k. apply bool_decide_eq_true.
  - intros A c k. exact (lookup_empty (M := gmap (list Z)) k).
Defined.

(** A header with a seal that is accepted at any time after it. *)
Definition block (parent : Hash) (number difficulty : Z) (extra : Z) : Header :=
  Dnpoc.forge (mkHeader parent (replicate 32 2) (replicate 15 9 ++ PutUint64 77) (replicate 32 3) (replicate 32 4) (replicate 32 5)
    (replicate 256 0) (Some difficulty) (Some number) (Some 9000) (Some 0) (Some (20 + number)) [extra] (PutUint64 12) (PutUint64 77)
    (replicate 32 6) None None None).

Lemma enc_list_bytes p : bytes p -> Z.of_nat (length p) < 2 ^ 64 -> bytes (enc_list p).
Proof.
  intros Hb Hl. apply bytes_app. split; [|done]. unfold puthead. destruct (Z.ltb_spec (Z.of_nat (length p)) 56).
  - constructor; [|constructor]. unfold is_byte, u8. apply Z.mod_pos_bound. lia.
  - destruct (putint_spec (Z.of_nat (length p))) as (_ & -> & _); [lia|].
    constructor; [unfold is_byte, u8; apply Z.mod_pos_bound; lia|apply be_put_bytes].
Qed.

Lemma enc_strs_bytes fs : Forall bytes fs -> Forall (fun f => Z.of_nat (length f) < 2 ^ 64) fs -> bytes (enc_strs fs).
Proof.
  induction 1 as [|f fs Hf _ IH]; intros Hl; [constructor|]. apply Forall_cons_1 in Hl as [Hl1 Hl].
  change (bytes (enc_str f ++ enc_strs fs)). apply bytes_app. split; [by apply enc_str_bytes|by apply IH].
Qed.

(** Strings of a few hundred bytes in all are encodable. *)
Lemma flat_encodable l fs : mapM flat_value l = Some fs -> value_ok (VList l) -> Forall bytes fs -> (length (mjoin fs) <= 1000)%nat ->
  (length fs <= 100)%nat -> exists b, encodable (VList l) b.
Proof.
  intros Hm Hv Hb Hl Hn. exists (enc_list (enc_strs fs)). pose proof (LogIndex.Sample.enc_strs_le fs) as Hs.
  split; [done|]. split; [by apply rlp_flat|]. split.
  - apply enc_list_bytes; [|lia]. apply enc_strs_bytes; [done|]. apply Forall_forall. intros f Hf.
    assert (length f <= length (mjoin fs))%nat; [|lia]. clear -Hf. induction fs as [|k fs IH]; [by apply elem_of_nil in Hf|].
    change (mjoin (k :: fs)) with (k ++ mjoin fs). rewrite length_app. apply elem_of_cons in Hf as [->|Hf]; [lia|]. specialize (IH Hf). lia.
  - unfold enc_list. rewrite length_app. pose proof (LogIndex.Sample.puthead_le 0xC0 0xF7 (Z.of_nat (length (enc_strs fs)))). lia.
Qed.

Lemma block_storable parent number difficulty extra : length parent = 32%nat -> bytes parent -> 0 <= number < 2 ^ 16 ->
  0 <= difficulty < 2 ^ 64 -> is_byte extra -> storable (block parent number difficulty extra).
Proof.
  intros Hp Hpb Hn Hd Hx.
  destruct (min_bytes_big number ltac:(lia)) as (Nb & _). destruct (min_bytes_big difficulty ltac:(lia)) as (Db & _).
  destruct (min_bytes_big (20 + number) ltac:(lia)) as (Tb & _). destruct (min_bytes_big (20 + number - 1) ltac:(lia)) as (Lb & _).
  pose proof (min_bytes_length number 8 ltac:(change (256 ^ Z.of_nat 8) with (2 ^ 64); lia)).
  pose proof (min_bytes_length difficulty 8 ltac:(change (256 ^ Z.of_nat 8) with (2 ^ 64); lia)).
  pose proof (min_bytes_length (20 + number) 8 ltac:(change (256 ^ Z.of_nat 8) with (2 ^ 64); lia)).
  pose proof (min_bytes_length (20 + number - 1) 8 ltac:(change (256 ^ Z.of_nat 8) with (2 ^ 64); lia)).
  constructor.
  - eapply (flat_encodable _ [parent; replicate 32 2; replicate 15 9 ++ PutUint64 77; replicate 32 3; replicate 32 4; replicate 32 5;
      replicate 256 0; min_bytes difficulty; min_bytes number; min_bytes 9000; min_bytes 0; min_bytes (20 + number); [extra];
      PutUint64 12; PutUint64 77; replicate 32 6; min_bytes (2 ^ 64); min_bytes 0; min_bytes (20 + number - 1)]).
    + cbn -[min_bytes replicate PutUint64 Z.ltb]. rewrite !(proj2 (Z.ltb_ge _ 0)) by lia. done.
    + done.
    + repeat (apply Forall_cons_2); try done; try apply be_put_bytes; try (apply Forall_replicate; unfold is_byte; lia);
        try (by apply min_bytes_big).
    + change (mjoin ?l) with (concat l). cbn [concat]. rewrite !length_app, !length_replicate. cbn [length].
      change (length (PutUint64 77)) with 8%nat. change (length (PutUint64 12)) with 8%nat. rewrite Hp.
      change (length (min_bytes 9000)) with 2%nat. change (length (min_bytes 0)) with 0%nat. change (length (min_bytes (2 ^ 64))) with 9%nat. lia.
    + cbn [length]. lia.
  - split; [unfold AddressLength, sample_address; lia|reflexivity].
  - exact Hp.
  - repeat constructor.
  - reflexivity.
  - split; reflexivity.
  - repeat (constructor; [by eexists|]). constructor.
Qed.

(** ** The headers *)

Definition genesis : Header := block zeroHash 0 1 0.
Definition genesis_hash : Hash := Eval vm_compute in default [] (Header_Hash genesis).
Definition a1 : Header := block genesis_hash 1 1 1.
Definition a1_hash : Hash := Eval vm_compute in default [] (Header_Hash a1).
Definition a2 : Header := block a1_hash 2 1 2.
Definition a2_hash : Hash := Eval vm_compute in default [] (Header_Hash a2).
Definition b2 : Header := block a1_hash 2 1 3.
Definition b2_hash : Hash := Eval vm_compute in default [] (Header_Hash b2).
Definition b3 : Header := block b2_hash 3 1 4.
Definition b3_hash : Hash := Eval vm_compute in default [] (Header_Hash b3).

Lemma genesis_hashed : Header_Hash genesis = Some genesis_hash.
Proof. vm_compute. reflexivity. Qed.
Lemma a1_hashed : Header_Hash a1 = Some a1_hash.
Proof. vm_compute. reflexivity. Qed.
Lemma a2_hashed : Header_Hash a2 = Some a2_hash.
Proof. vm_compute. reflexivity. Qed.
Lemma b2_hashed : Header_Hash b2 = Some b2_hash.
Proof. vm_compute. reflexivity. Qed.
Lemma b3_hashed : Header_Hash b3 = Some b3_hash.
Proof. vm_compute. reflexivity. Qed.

Lemma literal_hash (x : Hash) : length x = 32%nat -> forallb (fun b => (0 <=? b) && (b <? 256)) x = true -> length x = 32%nat /\ bytes x.
Proof.
  intros Hl Hb. split; [done|]. apply Forall_forall. intros b Hin. rewrite forallb_forall in Hb.
  apply list_elem_of_In in Hin. specialize (Hb b Hin). unfold is_byte. lia.
Qed.

Ltac sample_storable := apply block_storable; [reflexivity|apply literal_hash; reflexivity|lia|lia|unfold is_byte; lia].

Lemma genesis_storable : storable genesis. Proof. sample_storable. Qed.
Lemma a1_storable : storable a1. Proof. sample_storable. Qed.
Lemma a2_storable : storable a2. Proof. sample_storable. Qed.
Lemma b2_storable : storable b2. Proof. sample_storable. Qed.
Lemma b3_storable : storable b3. Proof. sample_storable. Qed.

(** ** The chain *)

Definition T0 : tree := <[genesis_hash := (genesis, 1)]> ∅.
Definition T1 : tree := <[a1_hash := (a1, 1 + 1)]> T0.
Definition T2 : tree := <[a2_hash := (a2, 1 + (1 + 1))]> T1.
Definition T3 : tree := <[b2_hash := (b2, 1 + (1 + 1))]> T2.

Lemma T0_at x n {A} (f : Header -> Z -> A) :
  (if decide (x = genesis_hash /\ n = 0) then Some (f genesis 1) else None) =
  ('(h, td) ← T0 !! x; if decide (Number h = Some n) then Some (f h td) else None).
Proof.
  unfold T0. destruct (decide (x = genesis_hash)) as [->|Hx].
  - rewrite lookup_insert_eq, some_bind. change (Number genesis) with (Some 0). repeat case_decide; naive_solver.
  - rewrite lookup_insert_ne, lookup_empty by done. by rewrite decide_False by tauto.
Qed.

Lemma genesis_represents : exists hc, represents hc T0 genesis_hash genesis_hash.
Proof.
  assert (is_hash genesis_hash) as Pg by reflexivity. assert (is_number 0) as P0 by (unfold is_number; lia).
  destruct (WriteTd_reads ∅ genesis_hash 0 1 Pg P0 ltac:(lia)) as (db1 & _ & R1).
  destruct (WriteHeader_reads db1 genesis genesis_hash 0 genesis_storable genesis_hashed eq_refl P0) as (db2 & _ & _ & R2).
  pose proof (WriteCanonicalHash_reads db2 genesis_hash 0 Pg P0) as R3. set (db3 := WriteCanonicalHash _ _ _) in *.
  destruct (WriteHeadBlockHash_reads db3 genesis_hash Pg) as [R4 Hhd]. set (db4 := WriteHeadBlockHash _ _) in *.
  assert (forall x (h : Header) td, T0 !! x = Some (h, td) -> x = genesis_hash /\ h = genesis /\ td = 1) as HT.
  { intros x h td. unfold T0. intros [ [<- [= <- <-] ]|[_ Hx] ]%lookup_insert_Some; [done|]. by rewrite lookup_empty in Hx. }
  assert (forall n, is_number n -> GetCanonicalHash db4 n = if decide (n = 0) then genesis_hash else zeroHash) as Hcn.
  { intros n Pn. rewrite (rd_canonical _ _ _ _ _ _ R4), (rd_canonical _ _ _ _ _ _ R3) by done. unfold update1. case_decide; [done|].
    rewrite (rd_canonical _ _ _ _ _ _ R2), (rd_canonical _ _ _ _ _ _ R1) by done. unfold GetCanonicalHash. by rewrite lookup_empty. }
  destruct (NewHeaderChain_restores db4 T0 genesis_hash genesis_hash genesis 1 0) as (hc & _ & _ & Rp); [..|by exists hc].
  - split; intros x h td (-> & -> & ->)%HT.
    + apply genesis_storable.
    + split; [apply genesis_hashed|discriminate].
    + exists 0. split; [done|lia].
    + lia.
  - split; [exists genesis, 1; split; reflexivity|]. by intros x h td (-> & _)%HT.
  - eapply reads_canonical; [eapply reads_renumbered; [|exact R4]; eapply reads_renumbered; [|exact R3]; eapply (mkReads db2); intros|].
    + rewrite (rd_header _ _ _ _ _ _ R2) by done. unfold update2. rewrite (rd_header _ _ _ _ _ _ R1) by done. apply (T0_at x n (fun h _ => h)).
    + rewrite (rd_td _ _ _ _ _ _ R2), (rd_td _ _ _ _ _ _ R1) by done. apply (T0_at x n (fun _ td => td)).
    + rewrite (rd_number _ _ _ _ _ _ R2) by done. unfold update1, tree_number, T0. rewrite (rd_number _ _ _ _ _ _ R1) by done.
      case_decide as E; [subst; by rewrite lookup_insert_eq|]. by rewrite lookup_insert_ne, lookup_empty.
    + reflexivity.
    + rewrite (rd_present _ _ _ _ _ _ R2) by done. unfold update2, tree_has, tree_header. rewrite <-(T0_at x n (fun h _ => h)).
      rewrite (rd_present _ _ _ _ _ _ R1) by done. by case_decide.
    + intros n Pn. cbn beta. by rewrite (rd_canonical _ _ _ _ _ _ R4).
  - reflexivity.
  - reflexivity.
  - split.
    + intros n x Hb. inversion Hb as [x' h td m Hx Hm|x' h td m y Hx Hm Hb']; subst; destruct (HT _ _ _ Hx) as (? & -> & ->); [|done].
      subst. injection Hm as <-. by rewrite Hcn.
    + intros n Hn. rewrite Hcn by (unfold is_number; lia). by rewrite decide_False by lia.
  - exact Hhd.
Qed.

Lemma sealed h : header_wf h -> be_get (PlotID h) = be_get (drop 15 (Coinbase h)) -> Dnpoc.val (Time h) <= 100 -> h = Dnpoc.forge h ->
  Dnpoc.VerifySeal 100 h = Ok tt.
Proof. intros Hw Hp Ht ->. apply Dnpoc.forge_accepted; [done..|]. change (u64 100) with 100. lia. Qed.

Lemma a1_accepted seal : Dnpoc.verifyHeader 100 100 a1 genesis false seal = Ok tt.
Proof.
  destruct seal; [|reflexivity]. change (Dnpoc.VerifySeal 100 a1 = Ok tt). apply sealed; [|reflexivity|vm_compute; discriminate|reflexivity].
  constructor; try reflexivity; try (eexists; reflexivity). apply Forall_replicate. unfold is_byte. lia.
Qed.

Lemma a1_verified hc seals : represents hc T0 genesis_hash genesis_hash -> length seals = 1%nat ->
  Dnpoc.verifyHeaderWorker hash_of (reader (Tx := unit) hc) 100 100 [a1] seals 0 = Ok tt.
Proof.
  intros Rp Hl. destruct seals as [|seal [|]]; try done. unfold Dnpoc.verifyHeaderWorker, Dnpoc.deref.
  change ([a1] !! 0%nat) with (Some a1). rewrite or_panic_bind. change (Number a1) with (Some 1). rewrite !or_panic_bind, ok_bind.
  cbn [Dnpoc.GetHeader reader]. change (u64 (big_Uint64 1 - 1)) with 0. change (ParentHash a1) with genesis_hash.
  destruct (GetHeader_known T0 (rp_known _ _ _ _ Rp) hc genesis_hash genesis 1 0 (rp_stores _ _ _ _ Rp)) as (hc' & -> & _); [reflexivity..|].
  cbn [fst]. rewrite or_panic_bind. destruct (hc_GetHeader hc (hash_of a1) (big_Uint64 1)).1; [done|].
  change ([seal] !! 0%nat) with (Some seal). rewrite or_panic_bind. apply a1_accepted.
Qed.

(** The engine's verdict on [a1] is asked for, and [a1] is inserted. *)
Lemma validated_headers_inserted_witness : exists hc,
  ValidateHeaderChain (fun _ => false) (fun _ => false) (fun _ => [None]) (fun _ => 0) [a1] 1 = Ok (0%nat, None) /\
  (clash T0 [a1] \/ exists hc' T' head', InsertHeaderChain (fun _ => false) (fun _ => false) hc [a1] = Ok (0%nat, None, hc') /\
    represents hc' T' genesis_hash head' /\ grown T0 genesis_hash [a1] T' head').
Proof.
  destruct genesis_represents as [hc Rp]. exists hc.
  assert (ValidateHeaderChain (fun _ => false) (fun _ => false) (fun _ => [None]) (fun _ => 0) [a1] 1 = Ok (0%nat, None)) as Hv.
  { unfold ValidateHeaderChain. cbn [non_contiguous collect_results]. by rewrite a1_hashed. }
  split; [exact Hv|].
  apply (validated_headers_inserted (Tx := unit) hc T0 genesis_hash genesis_hash Rp) with (now1 := 100) (now2 := 100)
    (BadHashes := fun _ => false) (results := fun _ => [None]) (rand := fun _ => 0) (freq := 1) (k := 0%nat).
  - intros h td. unfold T0. rewrite lookup_insert_eq. by intros [= <- _].
  - constructor; [|constructor]. split; [apply a1_storable|]. exists 1. split; [done|]. cbn. lia.
  - intros x h td. unfold T0. intros [ [_ [= _ <-] ]|[_ Hx] ]%lookup_insert_Some; [vm_compute; reflexivity|]. by rewrite lookup_empty in Hx.
  - intros seals [|i] r Hl; [|done]. intros [= <-]. by apply a1_verified.
  - done.
  - exact Hv.
Defined.

(** The same header with a difficulty of a thousand. *)
Lemma difficulty_decides_witness : exists hc, represents hc T0 genesis_hash genesis_hash /\
  (clash T0 [set_difficulty a1 1000] \/ exists hc' x, Header_Hash (set_difficulty a1 1000) = Some x /\
    hc_WriteHeader false hc (set_difficulty a1 1000) = Ok (CanonStatTy, None, hc') /\ currentHeaderHash hc' = x /\
    represents hc' (<[x := (set_difficulty a1 1000, 1000 + 1)]> T0) genesis_hash x).
Proof.
  destruct genesis_represents as [hc Rp]. exists hc. split; [exact Rp|].
  apply (difficulty_decides 100 100 false hc T0 genesis_hash genesis_hash a1 genesis 1 genesis 1 1 true 1000 Rp);
    [|reflexivity|reflexivity|apply a1_accepted|reflexivity|lia|lia|lia|].
  - intros x h td c ctd Hx Hc. unfold T0 in *. rewrite lookup_insert_eq in Hc. injection Hc as _ <-.
    apply lookup_insert_Some in Hx as [ [_ [= _ <-] ]|[_ Hx] ]; [lia|]. by rewrite lookup_empty in Hx.
  - change (storable (block genesis_hash 1 1000 1)). sample_storable.
Defined.

Ltac fresh_hash := unfold T3, T2, T1, T0; rewrite !lookup_insert_ne by discriminate; apply lookup_empty.

(** Both branches of length two, with [a2] as the head. *)
Lemma fork_represents : exists hc, represents hc T3 genesis_hash a2_hash.
Proof.
  destruct genesis_represents as [hc Rp].
  destruct (WriteHeader_new hc T0 _ _ Rp false a1 a1_hash 1 1 1 genesis 1) as (hc1 & _ & Rp1); [|fresh_hash|reflexivity|].
  { constructor; [apply a1_storable|split; [apply a1_hashed|discriminate]|split; [done|lia]|exists genesis; split; reflexivity|split; [done|lia] ]. }
  change (represents hc1 T1 genesis_hash a1_hash) in Rp1.
  destruct (WriteHeader_new hc1 T1 _ _ Rp1 false a2 a2_hash 2 1 2 a1 2) as (hc2 & _ & Rp2); [|fresh_hash|reflexivity|].
  { constructor; [apply a2_storable|split; [apply a2_hashed|discriminate]|split; [done|lia]|exists a1; split; reflexivity|split; [done|lia] ]. }
  change (represents hc2 T2 genesis_hash a2_hash) in Rp2.
  destruct (WriteHeader_new hc2 T2 _ _ Rp2 false b2 b2_hash 2 1 2 a2 3) as (hc3 & _ & Rp3); [| | |by exists hc3].
  { constructor; [apply b2_storable|split; [apply b2_hashed|discriminate]|split; [done|lia]|exists a1|split; [done|lia] ].
    split; [|done]. unfold T2. rewrite lookup_insert_ne by discriminate. reflexivity. }
  - fresh_hash.
  - reflexivity.
Qed.

Lemma T3_a2 : T3 !! a2_hash = Some (a2, 1 + (1 + 1)).
Proof. unfold T3. rewrite lookup_insert_ne by discriminate. apply lookup_insert_eq. Qed.
Lemma T3_a1 : T3 !! a1_hash = Some (a1, 1 + 1).
Proof. unfold T3, T2. rewrite !lookup_insert_ne by discriminate. apply lookup_insert_eq. Qed.
Lemma T3_genesis : T3 !! genesis_hash = Some (genesis, 1).
Proof. unfold T3, T2, T1. rewrite !lookup_insert_ne by discriminate. apply lookup_insert_eq. Qed.

(** The branch of [a2]. *)
Lemma a2_branch n y : branch T3 a2_hash n y -> (n = 2 /\ y = a2_hash) \/ (n = 1 /\ y = a1_hash) \/ (n = 0 /\ y = genesis_hash).
Proof.
  intros Hb. inversion Hb as [x h td m Hx Hm|x h td m z Hx _ Hb1]; subst; rewrite T3_a2 in Hx; injection Hx as <- <-;
    [injection Hm as <-; by left|]. right. clear Hb. change (branch T3 a1_hash n y) in Hb1.
  inversion Hb1 as [x h td m Hx Hm|x h td m z Hx _ Hb2]; subst; rewrite T3_a1 in Hx; injection Hx as <- <-;
    [injection Hm as <-; by left|]. right. clear Hb1. change (branch T3 genesis_hash n y) in Hb2.
  inversion Hb2 as [x h td m Hx Hm|x h td m z Hx H0 Hb3]; subst; rewrite T3_genesis in Hx; injection Hx as <- <-; [by injection Hm as <-|done].
Qed.

(** Rewound to the genesis, the chain cannot take a third header on [b2]. *)
Lemma SetHead_strands_witness : exists hc hc', represents hc T3 genesis_hash a2_hash /\ SetHead hc 0 = Ok hc' /\ hc_WriteHeader false hc' b3 = Panic.
Proof.
  destruct fork_represents as [hc Rp]. exists hc.
  destruct (SetHead_strands hc T3 genesis_hash a2_hash a2 (1 + (1 + 1)) 2 0 b2_hash b2 (1 + (1 + 1)) 1 Rp) as (hc' & E & Hp).
  - exact T3_a2.
  - reflexivity.
  - lia.
  - apply lookup_insert_eq.
  - intros m [ [_ ?]|[ [_ ?]|[_ ?] ] ]%a2_branch; discriminate.
  - lia.
  - eapply branch_up; [exact T3_a2|discriminate|]. eapply branch_here; [exact T3_a1|reflexivity].
  - exists hc'. split; [exact Rp|]. split; [exact E|]. apply (Hp false b3 b3_hash 1).
    + constructor; [exact b3_storable|split; [exact b3_hashed|discriminate]|split; [reflexivity|lia]| |split; [reflexivity|lia] ].
      exists b2. split; [apply lookup_insert_eq|reflexivity].
    + fresh_hash.
    + reflexivity.
    + intros y cy ytd [ [? _]|[ [? _]|[_ ->] ] ]%a2_branch Hy; [lia|lia|]. rewrite T3_genesis in Hy. injection Hy as _ <-. lia.
Defined.
